(* ===== verification/_CoqProject ===== *)
-Q . S2P
Prelude.v
Sorting.v
Float.v
Dom.v
DomTree.v
DomWalk.v
DomOps.v
HtmlTokenizer.v
HtmlTotal.v
HtmlProps.v
HtmlRoundTrip.v
HtmlTree.v
DomParents.v
HtmlModes.v
HtmlTreeInv.v
HtmlStack.v
HtmlFormatting.v
HtmlAdoption.v
HtmlAgency.v
HtmlGood.v
HtmlInBody.v
HtmlBody.v
HtmlShape.v
HtmlSteps.v
HtmlTables.v
HtmlTableModes.v
HtmlRows.v
HtmlModeSteps.v
HtmlRun.v
HtmlTermination.v
HtmlTreeRoundTrip.v
CssTokenizer.v
CssTokenProps.v
CssValue.v
CssSelector.v
CssSelectorProps.v
CssParser.v
CssParserProps.v
CssCascade.v
CssCascadeProps.v
Layout.v
LayoutProps.v
Paint.v
PaintProps.v
Raster.v
RasterProps.v
Page.v
PageProps.v
PageLoad.v
AiSnapshot.v
AiSnapshotProps.v
Tabs.v
IpcFrame.v
Gatekeeper.v
Extension.v
Supervisor.v
JsValue.v
JsObject.v
JsCollection.v
JsCollectionProps.v
JsHeap.v
JsMark.v
JsGc.v
JsCore.v
JsSlots.v
JsHeapInv.v
JsHeapRun.v
JsNumeric.v
JsBinary.v
JsStorage.v
JsFrame.v
JsStorageInv.v
JsStorageRun.v
JsStorageWrite.v
JsHeapCalls.v
JsProps.v
TemporalDate.v
TemporalRound.v
TemporalDiff.v
TemporalText.v
