(* ===== verification/Prelude.v ===== *)
(** * BlueIce: a verified model of the browser core

    BlueIce ([src/backend]) is a browser whose core process turns HTML and CSS text into pixels
    and whose other processes (launcher, gatekeeper, extension host, frontends) talk to it over
    framed JSON.  This library models the core pipeline and the parts around it that carry
    decisions of their own, and proves what makes each of them correct.

    ** The program and the files

    The pipeline, each stage a crate under [core/]:
    - [dom] is the node table.  [Dom.v] has its state ([Document]: an allocator, a map from ids
      to linked records, a root) and every operation.  [DomTree.v] relates the links of a document
      to child lists ([Linked]) and to an abstract forest ([Rep]) and proves each operation
      against both; [DomWalk.v] does the
      recursive walks; [DomOps.v] states the contract over runs of operations ([apply_ops], any
      calls; [reachable], proper ones; [WF]).
    - [html/tokenizer.rs] is in [HtmlTokenizer.v]: one definition per state of [next_token], the
      content models, character references, comments, raw text and script data.  [HtmlTotal.v]
      carries the invariant of the states, [HtmlProps.v] totality and the end of the token
      stream, [HtmlRoundTrip.v] printing and reading back.
    - [html/tree_builder.rs] is in [HtmlTree.v] (state, stack, scopes, formatting list, adoption
      agency) and [HtmlModes.v] (one definition per insertion mode, dispatch, the two loops).
      [DomParents.v] has the facts about parents and tags that survive the document calls;
      [HtmlTreeInv.v] the invariant of the builder; [HtmlStack.v], [HtmlFormatting.v],
      [HtmlAdoption.v] and [HtmlAgency.v] the primitives against it; [HtmlGood.v] to
      [HtmlModeSteps.v] one step of each mode, with the shape of the stack ([HtmlShape.v]) and
      the measure that reprocessing decreases ([HtmlSteps.v]); [HtmlRun.v] the
      dispatch and the loops; [HtmlTermination.v] and [HtmlTreeRoundTrip.v] the theorems.
    - [css] is in [CssTokenizer.v], [CssValue.v], [CssSelector.v], [CssParser.v] and
      [CssCascade.v], one per source file, with proofs in the files named [...Props.v].
      [Sorting.v] has the stable sort that the cascade relies on.
    - [layout] is in [Layout.v] and [LayoutProps.v], [paint] in [Paint.v] and [PaintProps.v],
      [raster] in [Raster.v] and [RasterProps.v].
    - [engine/page.rs] and [engine/stylesheet.rs] are in [Page.v] and [PageProps.v]: a page owns
      a document, its styles and its fragment tree, and is driven by navigation, input and the
      script surface.  [Page.v] takes the parser as a parameter, which its theorems on handles
      leave open; [PageLoad.v] puts the parser of [HtmlModes.v] in its place and follows a page
      from markup to the display list.
    - [engine/ai_snapshot.rs] is in [AiSnapshot.v] and [AiSnapshotProps.v]: the accessibility
      tree of a page, its names, and which of its entries are covered by others.
    Around the pipeline:
    - [engine/tabs.rs] is in [Tabs.v], polymorphic in the page type;
    - [engine/gatekeeper_client.rs] is in [Gatekeeper.v]: the two-stage gated navigation;
    - [ipc/src/lib.rs] (framing and envelopes) is in [IpcFrame.v];
    - [extension/src/lib.rs] is in [Extension.v]: the capability checks of a connection;
    - [launcher/src/supervisor.rs] and [memory_pressure.rs] are in [Supervisor.v].
    The heap of the script engine ([bluejs/src/heap.rs] and [heap/]):
    - [JsValue.v] has values, strings of code units, symbols and property keys ([value.rs],
      [string.rs], [property.rs]); [JsObject.v] the data of internal slots and their byte charges;
      [JsCollection.v] the storage of Map and Set; [JsHeap.v] the object model, the heap's state,
      the monad [hm] of its operations, marking, both collections, allocation and roots;
      [JsCore.v] and [JsSlots.v] the operations of [core.rs], [exotic.rs], [capabilities.rs] and
      [collection_iteration.rs].
    - [JsStorage.v] has the property storage of [object_storage.rs]: lookup, assignment,
      definition, deletion, array lengths and key order; [JsNumeric.v] and [JsBinary.v] the
      element bytes and canonical number keys, and the buffers, data views and typed arrays of
      [binary_data.rs].
    - [JsMark.v] shows that [mark] computes the least set closed under strong edges and
      ephemerons; [JsGc.v] has the invariant [heap_ok] and both collections against it;
      [JsHeapInv.v] and [JsHeapRun.v] show that operations on internal slots preserve it.
    - [JsFrame.v] has total specifications ([wp]) and what leaves properties alone ([keeps]);
      [JsStorageInv.v] the invariant of one property table ([storage_ok]) and the promises of
      ECMAScript about it ([integrity]); [JsStorageRun.v] (deletion, truncation) and
      [JsStorageWrite.v] (assignment, definition, keys) the specifications of the operations.
    - [JsHeapCalls.v] puts the operations into runs, and [JsProps.v] states the results.
    The exact arithmetic of the script engine's [Temporal] objects ([bluejs/src/vm/temporal/]),
    with its theorems in the same files:
    - [TemporalDate.v] has [epoch.rs], [plain_date/iso_date.rs] and the ISO part of
      [calendar_difference.rs]: day numbers, instants, adding and subtracting dates, ISO weeks;
    - [TemporalRound.v] has [rounding.rs] and [duration_math.rs] and the Duration Records of
      [ecma402/src/duration.rs]: units, rounding modes, balancing, totals;
    - [TemporalDiff.v] has [plain_date_time_difference.rs], the rounded difference of two
      date-times, over the class [Calendar], of which the ISO calendar is an instance;
    - [TemporalText.v] has the strings: the parsers of [iso/] (a cursor is the text that is left)
      and the functions of [plain_date/format.rs], [instant.rs], [zoned/formatting.rs],
      [duration_operations.rs] and the other types that print.

    ** How Rust is read

    Every function is a total Rocq function.  A function that can panic, or whose loop has no
    structural measure, returns a [res]: [Ok], [Panic], or [OutOfFuel].  State is passed
    explicitly; a [&mut self] method returns the new state.  Characters are code points and
    strings lists of them ([str]); UTF-8 lengths are computed where the code slices bytes.
    Fixed-width integers are [N] or [Z] with the bound checked where the code adds or multiplies
    (an overflow is a [Panic], as with overflow checks); [wrapping_add] is a remainder.  [f64] is
    the executable IEEE specification of the Standard Library at precision 53 ([Float.v]), and
    [f32] at 24; casts saturate as in Rust.  A hash map is a finite map; where iteration order
    could matter a theorem says that it does not.  What is outside the sources is a parameter:
    font measurement and glyph bitmaps, JSON decoding, the network and the gatekeeper process,
    the operating system's processes.

    ** Fuel

    Recursion over a document uses [walk_fuel], one more than the number of live nodes: on a
    well-formed document the tree below a node has at most that many nodes, so the walks never
    run out ([DomWalk.unfolds_size]).  [iterate] runs the loops of the tokenizers and parsers
    with a bound computed from the input that is left; [HtmlProps], [CssTokenProps] and
    [CssParserProps] show that the bounds suffice.  Every theorem about such a function says that
    it returns.  The tree builder's loops are run by [parse_fuel]: a token is handed back at most
    a fixed number of times ([HtmlSteps.step_cost]) as long as no [td] or [th] end tag misses its
    cell, and [HtmlTermination.parse_never_returns] shows an input outside that condition on
    which no bound is enough, because the code itself loops.  In the Temporal arithmetic 200 turns
    run the long division of [exact_ratio_to_f64] ([TemporalRound.ratio_parts_nearest]) and 5 the
    loop over units of [bubble_relative_duration] ([TemporalDiff.difference_returns]).  The loops of
    [TemporalText.v] over annotations and duration components take the length of the text, of which
    each turn uses up a character ([TemporalText.duration_loop_fuel], [TemporalText.scan_loop_fuel]).

    ** What the theorems show

    - documents: the links stay consistent over every run of calls, cycles included, and which
      calls keep a document well formed; what each operation changes, ids never reused, freed
      subtrees, the printed form;
    - HTML tokens: totality, the end of the stream for every consumer, verbatim raw text, print
      and read back;
    - parsing: no panic, a well-formed document of the expected shape with fresh ids, return
      within the bound, print and read back of whole pages;
    - loading: the words of a page are what its frame draws, in order;
    - CSS: parsing returns on ASCII sheets, selector matching decides its declarative meaning
      with backtracking, which declarations apply to an element and which of them wins, inline
      styles, a style for exactly the elements;
    - rendering: greedy line breaking, every visible word of the document drawn in order and where
      hidden ones are drawn too, the shape of the pixel buffer, which pixels a rectangle touches, the
      visible crop of a page;
    - pages: soundness of script handles across navigations, text content set and read back,
      scroll range, hit testing;
    - snapshots: the represented elements once each, in document order, under their nearest
      represented ancestor, and occlusion by the strongest later overlap;
    - processes: fail-closed navigation, capability checks, framing under every chunking, idle
      teardown and what becomes of every child process, tab identity;
    - script heap: a major collection keeps exactly what is reachable, a minor one drops only
      unreachable young objects (the write barrier suffices), no run of heap calls panics or
      breaks the byte accounting, and Map and Set storage is an insertion-ordered association
      list whatever the hash; property tables stay well formed, across any run an object keeps
      its fixed properties and its closedness, what is assigned or defined is read back, deletion
      and array lengths remove exactly what they should, and own keys are listed in order;
    - dates and times: day numbers count the days of the calendar and convert back, instants and
      their fields round trip, a difference added to its start reaches its end, rounding returns
      the multiple the mode asks for, rounded differences are exact and always return, durations
      balance into fields that add up, and exactly the valid Duration Records are accepted;
    - dates and times as text: the two parsers of instants accept the same strings and read the same
      from them (with the two exceptions the theorem names), and instants, zoned date-times,
      durations, plain times, year-months, month-days and offsets are read back from the strings
      that are printed.
    Some theorems and examples record where the code departs from what it documents: a parse that
    never ends, a panic on non-ASCII hexadecimal colours and on non-ASCII time-zone offsets, 64-bit
    fields that wrap on long durations, a frame lost to a timeout after its prefix, cycles through
    the script surface, [transparent] painted black, [em] borders not painted, [display: none]
    ignored inside inline elements and on the page's own element, a child process dropped when its
    role is filled again, and 32-bit pixel indices.

    ** Not modelled, and what comes next

    Next would be the session loop, the remaining IPC message types and the scanner of the
    script engine. Of Temporal, the third-party calendars are an interface, and named time
    zones, localized formatting and the conversions from and to JavaScript values are left out. In
    the heap, compiled code, locale data, the contents of shared buffers and the sizes of Rust
    structures are parameters ([JsHost]); built-in functions that hold no handle are one
    constructor; event counters do not overflow and sums of charges do not saturate; a quiet NaN
    is one value, without its payload; a cycle of export cells, on which lookup does not return,
    runs out of fuel. The run theorems cover the calls of [HeapCall], where a definition neither
    names an element of a typed array nor takes both the value and the writability of a mapped
    parameter ([define_safe]); private elements, closures, generators, iterators, buffers and
    typed arrays are modelled without a run theorem.
    Not planned: font files, HTTP, PNG output, sockets and threads, the rest of the compilers,
    interpreters and locale libraries ([bluejs], [bluets], [ecma402]) and the frontends.

    This file holds the prelude: the [res] monad, strings, integers, bounded iteration, and
    the generic lemmas the components share. *)

From stdpp Require Export base functions tactics list gmap sets relations numbers strings.
From Stdlib Require Export Ascii.

Open Scope N_scope.
Open Scope nat_scope.

Create HintDb blueice.

(** ** Outcomes of a Rust computation

    [Ok] is a normal return, [Panic] a Rust panic (an indexing failure, an
    [unwrap]/[expect] on [None], a failed assertion, an arithmetic overflow),
    [OutOfFuel] marks a loop or recursion whose bound was not enough: it is
    never a behaviour of the program, and the termination theorems show that
    it does not occur. *)
Inductive res (A : Type) : Type :=
  | Ok (a : A)
  | Panic
  | OutOfFuel.
Arguments Ok {A} a.
Arguments Panic {A}.
Arguments OutOfFuel {A}.

#[export] Instance res_eq_dec {A} `{EqDecision A} : EqDecision (res A).
Proof. solve_decision. Defined.

#[export] Instance res_ret : MRet res := @Ok.
#[export] Instance res_bind : MBind res := λ A B f m,
  match m with Ok a => f a | Panic => Panic | OutOfFuel => OutOfFuel end.
#[export] Instance res_fmap : FMap res := λ A B f m,
  match m with Ok a => Ok (f a) | Panic => Panic | OutOfFuel => OutOfFuel end.

(** [Option::unwrap] and [Option::expect]. *)
Definition unwrap {A} (o : option A) : res A :=
  match o with Some a => Ok a | None => Panic end.

Definition is_Ok {A} (m : res A) : Prop := ∃ a, m = Ok a.

Lemma Ok_inj {A} (a b : A) : Ok a = Ok b → a = b.
Proof. by intros [= ->]. Qed.

Lemma bind_Ok {A B} (f : A → res B) (m : res A) b :
  (m ≫= f) = Ok b ↔ ∃ a, m = Ok a ∧ f a = Ok b.
Proof. destruct m; cbn; naive_solver. Qed.

Lemma fmap_Ok {A B} (f : A → B) (m : res A) b :
  (f <$> m) = Ok b ↔ ∃ a, m = Ok a ∧ b = f a.
Proof. destruct m; cbn; naive_solver. Qed.

Lemma unwrap_Ok {A} (o : option A) a : unwrap o = Ok a ↔ o = Some a.
Proof. destruct o; cbn; naive_solver. Qed.

(** Inversion of a successful monadic computation, one bind at a time. *)
Ltac inv_ok :=
  repeat match goal with
  | H : (_ ≫= _) = Ok _ |- _ => apply bind_Ok in H as (? & ? & ?)
  | H : (_ <$> _) = Ok _ |- _ => apply fmap_Ok in H as (? & ? & ?)
  | H : unwrap _ = Ok _ |- _ => apply unwrap_Ok in H
  | H : mret _ = Ok _ |- _ => injection H as H
  | H : Ok _ = Ok _ |- _ => injection H as H
  | H : Panic = Ok _ |- _ => discriminate H
  | H : OutOfFuel = Ok _ |- _ => discriminate H
  end; simplify_eq.

(** A monadic map over a list, left to right. *)
Lemma mapM_Ok {A B} (f : A → res B) l k :
  mapM f l = Ok k ↔ Forall2 (λ x y, f x = Ok y) l k.
Proof.
  revert k; induction l as [|x l IH]; intros k; cbn.
  - split; [intros [= <-]; constructor | by inversion 1].
  - split.
    + intros ?. inv_ok. constructor; [done|]. by apply IH.
    + inversion 1 as [|? y ? k' Hx Hl]; subst. rewrite Hx; cbn.
      apply IH in Hl. by rewrite Hl.
Qed.

(** ** Characters and strings

    A Rust [char] is a Unicode scalar value, kept as its code point in [N];
    a [String]/[&str] is the list of its characters.  [str] and [ch] turn
    ASCII literals into that form. *)
Abbreviation rchar := N (only parsing).
Abbreviation rstring := (list N) (only parsing).

Fixpoint str (s : string) : list N :=
  match s with
  | EmptyString => []
  | String a s' => N_of_ascii a :: str s'
  end.
Arguments str _%_string.

Definition ch (s : string) : N :=
  match s with String a _ => N_of_ascii a | EmptyString => 0%N end.
Arguments ch _%_string.

(** The double quote and the backslash. *)
Definition DQUOTE : N := 34.
Definition BACKSLASH : N := 92.

Definition is_ascii (c : N) : bool := (c <? 128)%N.
Definition in_range (lo c hi : N) : bool := ((lo <=? c) && (c <=? hi))%N.
Definition is_ascii_digit (c : N) : bool := in_range 48 c 57.
Definition is_ascii_upper (c : N) : bool := in_range 65 c 90.
Definition is_ascii_lower (c : N) : bool := in_range 97 c 122.
Definition is_ascii_alphabetic (c : N) : bool := is_ascii_upper c || is_ascii_lower c.
Definition is_ascii_alphanumeric (c : N) : bool := is_ascii_alphabetic c || is_ascii_digit c.
Definition is_ascii_hexdigit (c : N) : bool :=
  is_ascii_digit c || in_range 65 c 70 || in_range 97 c 102.

(** [char::to_ascii_lowercase], [str::to_ascii_lowercase] and
    [eq_ignore_ascii_case]. *)
Definition to_ascii_lowercase (c : N) : N := if is_ascii_upper c then (c + 32)%N else c.
Definition lowercase (s : list N) : list N := to_ascii_lowercase <$> s.
Definition char_eq_ignore_case (a b : N) : bool :=
  (to_ascii_lowercase a =? to_ascii_lowercase b)%N.
Definition str_eq_ignore_case (a b : list N) : bool := bool_decide (lowercase a = lowercase b).

(** [char::is_whitespace]: the Unicode White_Space property. *)
Definition is_whitespace (c : N) : bool :=
  in_range 9 c 13 || (c =? 32)%N || (c =? 133)%N || (c =? 160)%N || (c =? 5760)%N
  || in_range 8192 c 8202 || (c =? 8232)%N || (c =? 8233)%N || (c =? 8239)%N
  || (c =? 8287)%N || (c =? 12288)%N.

(** The number of bytes of a character and of a string in UTF-8
    ([char::len_utf8], [str::len]). *)
Definition len_utf8 (c : N) : nat :=
  if (c <? 128)%N then 1 else if (c <? 2048)%N then 2 else if (c <? 65536)%N then 3 else 4.
Definition str_len (s : list N) : nat := sum_list (len_utf8 <$> s).

Lemma str_len_ascii s : forallb is_ascii s = true → str_len s = length s.
Proof.
  induction s as [|c s IH]; [done|]. cbn. intros [Hc Hs]%andb_true_iff.
  unfold str_len in *; cbn. rewrite (IH Hs). unfold len_utf8, is_ascii in *.
  by rewrite Hc.
Qed.

Lemma to_ascii_lowercase_idemp c :
  to_ascii_lowercase (to_ascii_lowercase c) = to_ascii_lowercase c.
Proof.
  unfold to_ascii_lowercase, is_ascii_upper, in_range.
  destruct ((65 <=? c) && (c <=? 90))%N eqn:E; [|by rewrite E].
  apply andb_true_iff in E as [?%N.leb_le ?%N.leb_le].
  destruct ((65 <=? c + 32) && (c + 32 <=? 90))%N eqn:E; [|done].
  apply andb_true_iff in E as [?%N.leb_le ?%N.leb_le]. lia.
Qed.

Lemma lowercase_idemp s : lowercase (lowercase s) = lowercase s.
Proof.
  unfold lowercase. rewrite <-list_fmap_compose. apply list_fmap_ext.
  intros i x _. apply to_ascii_lowercase_idemp.
Qed.

(** ** Machine integers *)
Definition U8_MAX : N := 255.
Definition U32_MAX : N := 4294967295.
Definition U64_MAX : N := 18446744073709551615.

(** [a + b] at an unsigned width, a panic on overflow. *)
Definition checked_add_N (max a b : N) : res N :=
  if (a + b <=? max)%N then Ok (a + b)%N else Panic.

Lemma checked_add_N_Ok max a b c :
  checked_add_N max a b = Ok c ↔ c = (a + b)%N ∧ (a + b <= max)%N.
Proof. unfold checked_add_N. destruct (N.leb_spec (a + b) max); naive_solver lia. Qed.

(** ** Loops

    [iterate fuel body s] runs [loop { ... }] whose body either continues with
    a new state or returns.  [iterate_total] is the total-correctness rule: an
    invariant and a decreasing measure give a result within the fuel. *)
Fixpoint iterate {S R : Type} (fuel : nat) (body : S → res (S + R)) (s : S) : res R :=
  match fuel with
  | O => OutOfFuel
  | S fuel' =>
      x ← body s;
      match x with inl s' => iterate fuel' body s' | inr r => Ok r end
  end.

Lemma iterate_total {S R : Type} (I : S → Prop) (Q : S → R → Prop) (μ : S → nat)
    (body : S → res (S + R)) :
  (∀ s, I s → ∃ x, body s = Ok x ∧
     match x with
     | inl s' => I s' ∧ μ s' < μ s ∧ ∀ r, Q s' r → Q s r
     | inr r => Q s r
     end) →
  ∀ fuel s, I s → μ s < fuel → ∃ r, iterate fuel body s = Ok r ∧ Q s r.
Proof.
  intros Hbody. induction fuel as [|fuel IH]; intros s HI Hμ; [lia|]. cbn.
  destruct (Hbody s HI) as (x & -> & Hx). cbn. destruct x as [s'|r]; [|eauto].
  destruct Hx as (HI' & Hlt & Hmono). destruct (IH s' HI') as (r & -> & Hr); [lia|]. eauto.
Qed.

(** Partial correctness of [iterate], for steps that may also fail. *)
Lemma iterate_inv {S R : Type} (I : S → Prop) (Q : R → Prop) (body : S → res (S + R)) :
  (∀ s x, I s → body s = Ok x → match x with inl s' => I s' | inr r => Q r end) →
  ∀ fuel s r, I s → iterate fuel body s = Ok r → Q r.
Proof.
  intros Hbody. induction fuel as [|fuel IH]; intros s r HI; cbn; [done|].
  intros (x & Hx & Hr)%bind_Ok. specialize (Hbody s x HI Hx). destruct x as [s'|r']; [eauto|].
  by injection Hr as <-.
Qed.

(** More fuel gives the same result. *)
Lemma iterate_mono {S R : Type} (body : S → res (S + R)) fuel fuel' s r :
  iterate fuel body s = Ok r → fuel ≤ fuel' → iterate fuel' body s = Ok r.
Proof.
  revert fuel' s; induction fuel as [|fuel IH]; intros fuel' s; [done|].
  intros H Hle. destruct fuel' as [|fuel']; [lia|]. cbn in *.
  apply bind_Ok in H as (x & -> & H). cbn. destruct x; [|done]. apply IH; [done|lia].
Qed.

Lemma iterate_inl {S R : Type} (body : S → res (S + R)) fuel s s' :
  body s = Ok (inl s') → iterate (Datatypes.S fuel) body s = iterate fuel body s'.
Proof. cbn. by intros ->. Qed.

Lemma iterate_inr {S R : Type} (body : S → res (S + R)) fuel s r :
  body s = Ok (inr r) → iterate (Datatypes.S fuel) body s = Ok r.
Proof. cbn. by intros ->. Qed.

(** The longest prefix whose elements satisfy [f]: a scanning [while] loop. *)
Fixpoint take_while {A} (f : A → bool) (l : list A) : list A :=
  match l with
  | [] => []
  | x :: l' => if f x then x :: take_while f l' else []
  end.

Lemma take_while_length {A} (f : A → bool) l : length (take_while f l) ≤ length l.
Proof. induction l as [|x l IH]; cbn; [done|]. destruct (f x); cbn; lia. Qed.

Lemma take_while_forallb {A} (f : A → bool) l : forallb f (take_while f l) = true.
Proof. induction l as [|x l IH]; cbn; [done|]. destruct (f x) eqn:E; cbn; [by rewrite E|done]. Qed.

Lemma take_while_app {A} (f : A → bool) l k :
  forallb f l = true → take_while f (l ++ k) = l ++ take_while f k.
Proof.
  induction l as [|x l IH]; cbn; [done|]. intros [-> Hl]%andb_true_iff. by rewrite IH.
Qed.

(** Unsigned digits in a radix: [from_str_radix] on a string of digits. *)
Definition digit_val (c : N) : N :=
  if is_ascii_digit c then (c - 48)%N
  else if in_range 97 c 122 then (c - 87)%N else (c - 55)%N.
Definition digits_val (radix : N) (ds : list N) : N :=
  foldl (λ acc c, (acc * radix + digit_val c)%N) 0%N ds.

(** ** Order on strings and stable sorting

    [String] order is the byte order of UTF-8, which is the
    code-point order. *)
Fixpoint str_leb (a b : list N) : bool :=
  match a, b with
  | [], _ => true
  | _ :: _, [] => false
  | x :: a', y :: b' =>
      match (x ?= y)%N with
      | Lt => true
      | Gt => false
      | Eq => str_leb a' b'
      end
  end.

(** [sort_by] is stable: an element goes before the later ones it does not exceed. *)
Fixpoint insert_sorted {A} (leb : A → A → bool) (x : A) (l : list A) : list A :=
  match l with
  | [] => [x]
  | y :: l' => if leb x y then x :: y :: l' else y :: insert_sorted leb x l'
  end.
Fixpoint stable_sort {A} (leb : A → A → bool) (l : list A) : list A :=
  match l with
  | [] => []
  | x :: l' => insert_sorted leb x (stable_sort leb l')
  end.
