(* ===== verification/Sorting.v ===== *)
(** * Stable sorting

    [Prelude.stable_sort] sorts, keeps the elements, and is stable in the sense that filtering
    commutes with it; so the last element with a property after sorting is the last maximal one
    before. *)

From S2P Require Import Prelude.
From Stdlib Require Import Sorted.

(** ** The order on strings *)
Lemma str_leb_refl a : str_leb a a = true.
Proof. induction a as [|x a IH]; cbn; [done|]. by rewrite N.compare_refl. Qed.

Lemma str_leb_total a b : str_leb a b = true ∨ str_leb b a = true.
Proof.
  revert b; induction a as [|x a IH]; intros [|y b]; cbn; auto.
  rewrite (N.compare_antisym x y). destruct (N.compare_spec x y); cbn; auto.
Qed.

Lemma str_leb_trans a b c : str_leb a b = true → str_leb b c = true → str_leb a c = true.
Proof.
  revert b c; induction a as [|x a IH]; intros [|y b] [|z c]; cbn; try done.
  destruct (N.compare_spec x y), (N.compare_spec y z), (N.compare_spec x z); subst; try done; try lia.
  apply IH.
Qed.

Lemma str_leb_antisym a b : str_leb a b = true → str_leb b a = true → a = b.
Proof.
  revert b; induction a as [|x a IH]; intros [|y b]; cbn; try done.
  destruct (N.compare_spec x y), (N.compare_spec y x); subst; try done; try lia.
  intros; f_equal; auto.
Qed.

Section StableSort.
Context {A : Type} (leb : A → A → bool).
Hypotheses (leb_trans : ∀ x y z, leb x y = true → leb y z = true → leb x z = true)
  (leb_total : ∀ x y, leb x y = true ∨ leb y x = true).

Abbreviation sorted := (StronglySorted (λ x y, leb x y = true)).

Lemma insert_sorted_perm x l : insert_sorted leb x l ≡ₚ x :: l.
Proof.
  induction l as [|y l IH]; cbn; [done|]. case_match; [done|]. rewrite IH. apply Permutation_swap.
Qed.

Lemma stable_sort_perm l : stable_sort leb l ≡ₚ l.
Proof. induction l as [|x l IH]; cbn; [done|]. by rewrite insert_sorted_perm, IH. Qed.

Lemma insert_sorted_sorted x l : sorted l → sorted (insert_sorted leb x l).
Proof.
  induction 1 as [|y l Hs IH Hy]; cbn; [repeat constructor|]. destruct (leb x y) eqn:E.
  - constructor; [by constructor|]. constructor; [done|]. eapply Forall_impl; [exact Hy|]. eauto.
  - constructor; [done|]. rewrite insert_sorted_perm. constructor; [|done].
    destruct (leb_total x y); congruence.
Qed.

Lemma stable_sort_sorted l : sorted (stable_sort leb l).
Proof. induction l; cbn; [constructor|]. by apply insert_sorted_sorted. Qed.

Lemma filter_insert_sorted (P : A → Prop) `{∀ x, Decision (P x)} x l :
  sorted l →
  filter P (insert_sorted leb x l)
  = if decide (P x) then insert_sorted leb x (filter P l) else filter P l.
Proof.
  induction 1 as [|y l Hs IH Hy]; cbn [insert_sorted].
  { rewrite filter_cons. by destruct (decide (P x)). }
  destruct (leb x y) eqn:E.
  - rewrite (filter_cons P x). destruct (decide (P x)); [|done].
    assert (∀ k, Forall (λ z, leb x z = true) k → insert_sorted leb x k = x :: k) as Hin.
    { intros [|z k]; [done|]. cbn. by intros [-> _]%Forall_cons. }
    symmetry. apply Hin. apply Forall_forall. intros z [_ Hz]%list_elem_of_filter.
    apply elem_of_cons in Hz as [->|Hz]; [done|]. rewrite Forall_forall in Hy. eauto.
  - rewrite !(filter_cons P y), IH. destruct (decide (P y)), (decide (P x)); cbn; by rewrite ?E.
Qed.

(** Filtering commutes with the stable sort. *)
Lemma filter_stable_sort (P : A → Prop) `{∀ x, Decision (P x)} l :
  filter P (stable_sort leb l) = stable_sort leb (filter P l).
Proof.
  induction l as [|x l IH]; [done|]. cbn [stable_sort].
  rewrite filter_insert_sorted by apply stable_sort_sorted. rewrite IH, filter_cons.
  by destruct (decide (P x)).
Qed.

(** The last maximal element. *)
Fixpoint best (l : list A) : option A :=
  match l with
  | [] => None
  | x :: l' =>
      match best l' with
      | None => Some x
      | Some y => if leb x y then Some y else Some x
      end
  end.

Lemma last_insert_sorted x l :
  sorted l →
  last (insert_sorted leb x l)
  = match last l with None => Some x | Some y => if leb x y then Some y else Some x end.
Proof.
  induction 1 as [|y l Hs IH Hy]; [done|]. cbn [insert_sorted].
  assert (∀ z, last (y :: l) = Some z → leb y z = true) as Hlast.
  { intros z Hz. apply last_Some_elem_of, elem_of_cons in Hz as [->|Hz]; [|by eapply Forall_forall in Hy].
    by destruct (leb_total y y). }
  destruct (leb x y) eqn:E.
  - rewrite (last_cons x). destruct (last (y :: l)) as [z|] eqn:Ez; [|by rewrite last_cons in Ez; destruct (last l)].
    by rewrite (leb_trans x y z) by eauto.
  - rewrite !(last_cons y), IH. destruct (last l) as [z|]; [|by rewrite E]. by destruct (leb x z).
Qed.

Lemma last_stable_sort l : last (stable_sort leb l) = best l.
Proof.
  induction l as [|x l IH]; [done|]. cbn [stable_sort best].
  rewrite last_insert_sorted by apply stable_sort_sorted. by rewrite IH.
Qed.

(** [best] is maximal, and strictly above everything after it. *)
Lemma best_Some l y :
  best l = Some y ↔
  ∃ l1 l2, l = l1 ++ y :: l2 ∧ Forall (λ x, leb x y = true) l1 ∧ Forall (λ x, leb y x = false) l2.
Proof.
  revert y; induction l as [|x l IH]; intros y; cbn [best].
  { split; [done|]. intros (l1 & l2 & Heq & _). by destruct l1. }
  destruct (best l) as [z|] eqn:Eb.
  - destruct (proj1 (IH z) eq_refl) as (k1 & k2 & -> & H1 & H2). split.
    + destruct (leb x z) eqn:Exz; intros [= <-].
      * exists (x :: k1), k2. split_and!; [done|by constructor|done].
      * exists [], (k1 ++ z :: k2). split_and!; [done|constructor|].
        assert (leb z x = true) as Hzx by (destruct (leb_total x z); congruence).
        assert (∀ w, leb w z = true → leb x w = false) as Hlow.
        { intros w Hw. apply not_true_is_false. intros Hxw. rewrite (leb_trans x w z) in Exz; done. }
        apply Forall_app. split; [eapply Forall_impl; [exact H1|]; auto|]. constructor; [done|].
        eapply Forall_impl; [exact H2|]. cbn. intros w Hw. apply not_true_is_false. intros Hxw.
        rewrite (leb_trans z x w) in Hw; done.
    + intros (l1 & l2 & Heq & Hl1 & Hl2). destruct l1 as [|x' l1]; injection Heq as -> Heq.
      * subst l2. apply Forall_app in Hl2 as [_ Hl2]. apply Forall_cons in Hl2 as [-> _]. done.
      * assert (Some z = Some y) as [= ->].
        { apply IH. exists l1, l2. split_and!; [done| |done]. by apply Forall_cons in Hl1 as [_ ?]. }
        apply Forall_cons in Hl1 as [-> _]. done.
  - assert (l = []) as ->.
    { destruct l as [|w l]; [done|]. cbn in Eb. destruct (best l); [|done]. by destruct (leb w a). }
    split.
    + intros [= <-]. exists [], []. split_and!; constructor.
    + intros (l1 & l2 & Heq & _). destruct l1 as [|w l1]; injection Heq as -> ?; [done|]. by destruct l1.
Qed.

End StableSort.
