(* ===== verification/Float.v ===== *)
(** * IEEE binary64 numbers

    [f64] is the Standard Library's executable specification of floating-point numbers at
    precision 53 and maximal exponent 1024; [f32] is the same type at 24 and 128.  Decimal
    literals are read with a single correct rounding, as Rust's [str::parse] does. *)

From Stdlib Require Export SpecFloat.
From S2P Require Import Prelude.

Abbreviation f64 := spec_float (only parsing).

#[export] Instance spec_float_eq_dec : EqDecision spec_float.
Proof. solve_decision. Defined.

Definition f64_add (x y : f64) : f64 := SFadd 53 1024 x y.
Definition f64_sub (x y : f64) : f64 := SFsub 53 1024 x y.
Definition f64_mul (x y : f64) : f64 := SFmul 53 1024 x y.
Definition f64_div (x y : f64) : f64 := SFdiv 53 1024 x y.
Definition f64_eqb (x y : f64) : bool := SFeqb x y.
Definition f64_ltb (x y : f64) : bool := SFltb x y.
Definition f64_leb (x y : f64) : bool := SFleb x y.
Definition f64_zero : f64 := S754_zero false.
Definition f64_of_Z (n : Z) : f64 := binary_normalize 53 1024 n 0 false.

(** [x as f32]: the value rounded to 24 bits of precision. *)
Definition f32_of_f64 (x : f64) : spec_float :=
  match x with
  | S754_finite s m e => binary_normalize 24 128 (cond_Zopp s (Zpos m)) e s
  | _ => x
  end.
Definition f32_one : spec_float := binary_normalize 24 128 1 0 false.

(** [f32::clamp(0.0, 1.0)]: NaN stays NaN. *)
Definition f32_clamp01 (x : spec_float) : spec_float :=
  if SFltb x f64_zero then f64_zero else if SFltb f32_one x then f32_one else x.

(** The quotient [m / 10^k], rounded once to nearest even. *)
Definition f64_of_decimal (sign : bool) (m : N) (k : nat) : f64 :=
  match m with
  | N0 => S754_zero sign
  | Npos p =>
      let '(q, e, l) := SFdiv_core_binary 53 1024 (Zpos p) 0 (10 ^ Z.of_nat k) 0 in
      binary_round_aux 53 1024 sign q e l
  end.

(** [str::parse::<f64>] on the literals the CSS tokenizer collects: an optional sign, digits,
    and an optional fraction; at least one digit is required. *)
Definition parse_f64 (s : list N) : option f64 :=
  let '(sign, s) :=
    match s with
    | c :: s' => if (c =? ch "-")%N then (true, s') else if (c =? ch "+")%N then (false, s') else (false, s)
    | [] => (false, s)
    end in
  let whole := take_while is_ascii_digit s in
  let rest := drop (length whole) s in
  let frac :=
    match rest with
    | [] => Some []
    | c :: ds => if (c =? ch ".")%N && forallb is_ascii_digit ds then Some ds else None
    end in
  match frac with
  | None => None
  | Some ds =>
      match whole ++ ds with
      | [] => None
      | digits => Some (f64_of_decimal sign (digits_val 10 digits) (length ds))
      end
  end.

Example parse_half : parse_f64 (str "0.5") = Some (f64_div (f64_of_Z 1) (f64_of_Z 2)).
Proof. vm_compute. reflexivity. Qed.
Example parse_tenth : parse_f64 (str "-.1") = Some (SFopp (f64_div (f64_of_Z 1) (f64_of_Z 10))).
Proof. vm_compute. reflexivity. Qed.
Example parse_sign_only : parse_f64 (str "+") = None.
Proof. reflexivity. Qed.

(** [f64::max]: the other operand when one is NaN. *)
Definition f64_max (x y : f64) : f64 :=
  match x, y with
  | S754_nan, _ => y
  | _, S754_nan => x
  | _, _ => if f64_ltb x y then y else x
  end.
Definition f64_min (x y : f64) : f64 :=
  match x, y with
  | S754_nan, _ => y
  | _, S754_nan => x
  | _, _ => if f64_ltb y x then y else x
  end.
(** A decimal literal of the source. *)
Definition f64_lit (s : string) : f64 := default f64_zero (parse_f64 (str s)).
Arguments f64_lit _%_string.

(** ** Conversions to integers

    A finite number is [± m * 2^e]; the integer nearest to it, halves away from zero
    ([f64::round]), and the least integer not below it ([f64::ceil]). *)
Definition round_Z (s : bool) (m : positive) (e : Z) : Z :=
  let mag :=
    if (0 <=? e)%Z then Z.shiftl (Zpos m) e
    else Z.shiftr (Zpos m + Z.shiftl 1 (- e - 1)) (- e) in
  if s then (- mag)%Z else mag.
Definition ceil_Z (s : bool) (m : positive) (e : Z) : Z :=
  if (0 <=? e)%Z then cond_Zopp s (Z.shiftl (Zpos m) e)
  else if s then (- Z.shiftr (Zpos m) (- e))%Z
  else Z.shiftr (Zpos m + Z.shiftl 1 (- e) - 1) (- e).

(** [as] casts to an integer type saturate, and send NaN to zero. *)
Definition cast_sat (lo hi : Z) (to_Z : bool → positive → Z → Z) (x : spec_float) : Z :=
  match x with
  | S754_zero _ | S754_nan => 0
  | S754_infinity s => if s then lo else hi
  | S754_finite s m e => Z.max lo (Z.min hi (to_Z s m e))
  end.
Definition I64_MIN : Z := - 2 ^ 63.
Definition I64_MAX : Z := 2 ^ 63 - 1.
Definition round_as_i64 (x : f64) : Z := cast_sat I64_MIN I64_MAX round_Z x.
Definition ceil_as_u32 (x : f64) : Z := cast_sat 0 (Z.of_N U32_MAX) ceil_Z x.
Definition round_as_u8 (x : spec_float) : Z := cast_sat 0 255 round_Z x.

Lemma cast_sat_bounds lo hi f x : (lo <= 0 <= hi)%Z → (lo <= cast_sat lo hi f x <= hi)%Z.
Proof. intros H. destruct x as [s|s| |s m e]; cbn; [lia|destruct s; lia|lia|lia]. Qed.

(** binary32 products, and the exact widening of a binary32. *)
Definition f32_mul (x y : spec_float) : spec_float := SFmul 24 128 x y.
Definition f32_of_Z (n : Z) : spec_float := binary_normalize 24 128 n 0 false.
Definition f64_of_f32 (x : spec_float) : f64 :=
  match x with
  | S754_finite s m e => binary_normalize 53 1024 (cond_Zopp s (Zpos m)) e s
  | _ => x
  end.

Example round_half : map round_as_i64 [f64_lit "2.5"; f64_lit "-2.5"; f64_lit "2.4"; S754_nan] = [3; -3; 2; 0]%Z.
Proof. vm_compute. reflexivity. Qed.
Example ceil_small : map ceil_as_u32 [f64_lit "2.1"; f64_lit "-2.5"; f64_of_Z 7; S754_infinity false] = [3; 0; 7; 4294967295]%Z.
Proof. vm_compute. reflexivity. Qed.
