(* ===== verification/Dom.v ===== *)
(** * The DOM tree ([core/dom/src/lib.rs]): data model and operations

    A document is a node table from stable ids to records linked by
    parent, child and sibling ids.  Every operation of [Document] is a function
    on the table; indexing a missing id and a failed assertion are [Panic].  The
    iterators and the recursions of the code carry a bound, [walk_fuel], which
    [DomTree] shows to be enough on well-formed documents. *)

From S2P Require Import Prelude.

(** ** Identities *)
Abbreviation NodeId := N (only parsing).

Definition as_u64 (id : NodeId) : N := id.
Definition from_u64 (raw : N) : NodeId := raw.

Record NodeIdAllocator := { alloc_next : N }.

(** Hands out the counter and advances it; [u64] overflow is a panic. *)
Definition allocate (a : NodeIdAllocator) : res (NodeId * NodeIdAllocator) :=
  n ← checked_add_N U64_MAX a.(alloc_next) 1;
  Ok (a.(alloc_next), {| alloc_next := n |}).

(** ** Node contents and records *)
Inductive NodeData :=
  | NDocument
  | NElement (tag_name : list N) (attributes : list (list N * list N))
  | NText (data : list N).

#[export] Instance NodeData_eq_dec : EqDecision NodeData.
Proof. solve_decision. Defined.

Record NodeRecord := MkRecord {
  r_data : NodeData;
  r_parent : option NodeId;
  r_first_child : option NodeId;
  r_last_child : option NodeId;
  r_next_sibling : option NodeId;
  r_prev_sibling : option NodeId;
}.

#[export] Instance NodeRecord_eq_dec : EqDecision NodeRecord.
Proof. solve_decision. Defined.

(** Field assignments of a record. *)
Definition set_data (v : NodeData) (r : NodeRecord) : NodeRecord :=
  MkRecord v r.(r_parent) r.(r_first_child) r.(r_last_child)
    r.(r_next_sibling) r.(r_prev_sibling).
Definition set_parent (v : option NodeId) (r : NodeRecord) : NodeRecord :=
  MkRecord r.(r_data) v r.(r_first_child) r.(r_last_child)
    r.(r_next_sibling) r.(r_prev_sibling).
Definition set_first_child (v : option NodeId) (r : NodeRecord) : NodeRecord :=
  MkRecord r.(r_data) r.(r_parent) v r.(r_last_child)
    r.(r_next_sibling) r.(r_prev_sibling).
Definition set_last_child (v : option NodeId) (r : NodeRecord) : NodeRecord :=
  MkRecord r.(r_data) r.(r_parent) r.(r_first_child) v
    r.(r_next_sibling) r.(r_prev_sibling).
Definition set_next_sibling (v : option NodeId) (r : NodeRecord) : NodeRecord :=
  MkRecord r.(r_data) r.(r_parent) r.(r_first_child) r.(r_last_child)
    v r.(r_prev_sibling).
Definition set_prev_sibling (v : option NodeId) (r : NodeRecord) : NodeRecord :=
  MkRecord r.(r_data) r.(r_parent) r.(r_first_child) r.(r_last_child)
    r.(r_next_sibling) v.

Record Document := MkDocument {
  allocator : NodeIdAllocator;
  nodes : gmap NodeId NodeRecord;
  doc_root : option NodeId;
}.

Definition with_nodes (d : Document) (m : gmap NodeId NodeRecord) : Document :=
  MkDocument d.(allocator) m d.(doc_root).

(** [self.nodes[&id]] and [self.nodes.get_mut(&id).unwrap().f = v]. *)
Definition index (m : gmap NodeId NodeRecord) (id : NodeId) : res NodeRecord :=
  unwrap (m !! id).
Definition modify (m : gmap NodeId NodeRecord) (id : NodeId)
    (f : NodeRecord → NodeRecord) : res (gmap NodeId NodeRecord) :=
  r ← index m id; Ok (<[id := f r]> m).

(** ** Construction *)
Definition detached_record (data : NodeData) : NodeRecord :=
  MkRecord data None None None None None.

Definition create_node (d : Document) (data : NodeData) : res (NodeId * Document) :=
  '(id, a) ← allocate d.(allocator);
  Ok (id, MkDocument a (<[id := detached_record data]> d.(nodes)) d.(doc_root)).

Definition new_continuing_from (next_id : N) : res Document :=
  let d0 := MkDocument {| alloc_next := next_id |} ∅ None in
  '(root, d) ← create_node d0 NDocument;
  Ok (MkDocument d.(allocator) d.(nodes) (Some root)).

Definition new_document : res Document := new_continuing_from 0.

Definition next_node_id (d : Document) : N := d.(allocator).(alloc_next).

Definition root (d : Document) : res NodeId := unwrap d.(doc_root).

(** ** Accessors *)
Definition data (d : Document) (id : NodeId) : res NodeData :=
  r ← index d.(nodes) id; Ok r.(r_data).
Definition contains (d : Document) (id : NodeId) : bool :=
  bool_decide (is_Some (d.(nodes) !! id)).
(** [data_mut]: the caller's update of the node's data, in place. *)
Definition data_mut (d : Document) (id : NodeId) (f : NodeData → NodeData) : res Document :=
  m ← modify d.(nodes) id (λ r, set_data (f r.(r_data)) r); Ok (with_nodes d m).
Definition parent (d : Document) (id : NodeId) : res (option NodeId) :=
  r ← index d.(nodes) id; Ok r.(r_parent).
Definition first_child (d : Document) (id : NodeId) : res (option NodeId) :=
  r ← index d.(nodes) id; Ok r.(r_first_child).
Definition last_child (d : Document) (id : NodeId) : res (option NodeId) :=
  r ← index d.(nodes) id; Ok r.(r_last_child).
Definition next_sibling (d : Document) (id : NodeId) : res (option NodeId) :=
  r ← index d.(nodes) id; Ok r.(r_next_sibling).
Definition prev_sibling (d : Document) (id : NodeId) : res (option NodeId) :=
  r ← index d.(nodes) id; Ok r.(r_prev_sibling).

(** The bound of every walk: one more than the number of nodes. *)
Definition walk_fuel (d : Document) : nat := S (size d.(nodes)).

(** [std::iter::successors(start, next_sibling)], collected. *)
Fixpoint siblings_from (fuel : nat) (d : Document) (cur : option NodeId)
    : res (list NodeId) :=
  match cur with
  | None => Ok []
  | Some n =>
      match fuel with
      | O => OutOfFuel
      | S fuel' =>
          nxt ← next_sibling d n;
          rest ← siblings_from fuel' d nxt;
          Ok (n :: rest)
      end
  end.

Definition children (d : Document) (id : NodeId) : res (list NodeId) :=
  fc ← first_child d id; siblings_from (walk_fuel d) d fc.

(** ** Linking and unlinking *)
Definition append_child (d : Document) (parent child : NodeId) : res Document :=
  crec ← index d.(nodes) child;
  match crec.(r_parent) with
  | Some _ => Panic
  | None =>
      prec ← index d.(nodes) parent;
      let prev_last := prec.(r_last_child) in
      m1 ← match prev_last with
           | Some pl => modify d.(nodes) pl (set_next_sibling (Some child))
           | None => modify d.(nodes) parent (set_first_child (Some child))
           end;
      m2 ← modify m1 child
             (λ r, set_prev_sibling prev_last (set_parent (Some parent) r));
      m3 ← modify m2 parent (set_last_child (Some child));
      Ok (with_nodes d m3)
  end.

Definition insert_before (d : Document) (parent child : NodeId)
    (reference : option NodeId) : res Document :=
  match reference with
  | None => append_child d parent child
  | Some reference =>
      crec ← index d.(nodes) child;
      match crec.(r_parent) with
      | Some _ => Panic
      | None =>
          rrec ← index d.(nodes) reference;
          if decide (rrec.(r_parent) = Some parent) then
            let prev := rrec.(r_prev_sibling) in
            m1 ← match prev with
                 | Some p => modify d.(nodes) p (set_next_sibling (Some child))
                 | None => modify d.(nodes) parent (set_first_child (Some child))
                 end;
            m2 ← modify m1 reference (set_prev_sibling (Some child));
            m3 ← modify m2 child
                   (λ r, set_next_sibling (Some reference)
                           (set_prev_sibling prev (set_parent (Some parent) r)));
            Ok (with_nodes d m3)
          else Panic
      end
  end.

Definition detach (d : Document) (id : NodeId) : res Document :=
  rec ← index d.(nodes) id;
  let par := rec.(r_parent) in
  let prev := rec.(r_prev_sibling) in
  let next := rec.(r_next_sibling) in
  m1 ← match prev, par with
       | Some p, _ => modify d.(nodes) p (set_next_sibling next)
       | None, Some q => modify d.(nodes) q (set_first_child next)
       | None, None => Ok d.(nodes)
       end;
  m2 ← match next, par with
       | Some n, _ => modify m1 n (set_prev_sibling prev)
       | None, Some q => modify m1 q (set_last_child prev)
       | None, None => Ok m1
       end;
  m3 ← modify m2 id
         (λ r, set_next_sibling None (set_prev_sibling None (set_parent None r)));
  Ok (with_nodes d m3).

(** The [while let Some(current) = child] loop of [free_subtree]: the next
    sibling is read before the current child is freed. *)
Fixpoint free_loop (free : gmap NodeId NodeRecord → NodeId → res (gmap NodeId NodeRecord))
    (n : nat) (m : gmap NodeId NodeRecord) (child : option NodeId)
    : res (gmap NodeId NodeRecord) :=
  match child with
  | None => Ok m
  | Some cur =>
      match n with
      | O => OutOfFuel
      | S n' =>
          r ← index m cur;
          m' ← free m cur;
          free_loop free n' m' r.(r_next_sibling)
      end
  end.

Fixpoint free_subtree (fuel : nat) (m : gmap NodeId NodeRecord) (id : NodeId)
    : res (gmap NodeId NodeRecord) :=
  match fuel with
  | O => OutOfFuel
  | S fuel' =>
      m' ← free_loop (free_subtree fuel') fuel m (m !! id ≫= r_first_child);
      Ok (delete id m')
  end.

Definition remove_subtree (d : Document) (id : NodeId) : res Document :=
  d1 ← detach d id;
  m ← free_subtree (walk_fuel d1) d1.(nodes) id;
  Ok (with_nodes d1 m).

(** ** The canonical dump *)

Definition attr_leb (a b : list N * list N) : bool := str_leb a.1 b.1.

Definition indent (depth : nat) : list N := mjoin (replicate depth (str "  ")).

Definition dump_attr (depth : nat) (a : list N * list N) : list N :=
  str "| " ++ indent (S depth) ++ a.1 ++ str "=" ++ [DQUOTE] ++ a.2 ++ [DQUOTE; 10%N].

(** [dump_node] with its output buffer as the returned string. *)
Fixpoint dump_node (fuel : nat) (d : Document) (id : NodeId) (depth : nat)
    : res (list N) :=
  match fuel with
  | O => OutOfFuel
  | S fuel' =>
      dt ← data d id;
      match dt with
      | NDocument => Panic
      | NElement tag attrs =>
          let head := str "| " ++ indent depth ++ str "<" ++ tag ++ str ">" ++ [10%N] in
          let alines := mjoin (dump_attr depth <$> stable_sort attr_leb attrs) in
          kids ← children d id;
          outs ← mapM (λ c, dump_node fuel' d c (S depth)) kids;
          Ok (head ++ alines ++ mjoin outs)
      | NText t => Ok (str "| " ++ indent depth ++ [DQUOTE] ++ t ++ [DQUOTE; 10%N])
      end
  end.

Definition dump (d : Document) : res (list N) :=
  r ← root d;
  kids ← children d r;
  outs ← mapM (λ c, dump_node (walk_fuel d) d c 0) kids;
  Ok (mjoin outs).

(** ** Small documents used as witnesses *)
Definition elem (tag : string) : NodeData := NElement (str tag) [].

Definition sample_doc : res Document :=
  d0 ← new_document;
  r ← root d0;
  '(p, d1) ← create_node d0 (elem "p");
  d2 ← append_child d1 r p;
  '(t, d3) ← create_node d2 (NText (str "hi"));
  d4 ← append_child d3 p t;
  Ok d4.

Example sample_dump : (d ← sample_doc; dump d) =
  Ok (str "| <p>" ++ [10%N] ++ str "|   " ++ [DQUOTE] ++ str "hi" ++ [DQUOTE; 10%N]).
Proof. vm_compute. reflexivity. Qed.
