(* ===== verification/DomTree.v ===== *)
(** * Well-formed documents

    [Linked d K] says that the linked records of the node table agree with the ordered child
    lists [K]; [Rep d K] adds that [K] is acyclic, an abstract forest, and that the document has a
    root.  Every operation of [Dom] that rewires links is shown to act on [K] the way its
    documentation says (append, insert before, remove).  It keeps [Linked] whatever it is called
    with, and [Rep] when it puts no node below itself and leaves the root alone. *)

From S2P Require Import Prelude Dom.

(** ** Lists *)
Section lists.
Context {A : Type}.
Implicit Types l k : list A.

Lemma app_cons_inj_NoDup l1 l2 k1 k2 (x : A) :
  NoDup (l1 ++ x :: l2) → l1 ++ x :: l2 = k1 ++ x :: k2 → l1 = k1 ∧ l2 = k2.
Proof.
  revert k1; induction l1 as [|a l1 IH]; intros [|b k1] Hnd Heq; cbn in *.
  - by injection Heq.
  - injection Heq as <- ->. apply NoDup_cons in Hnd as [Hx _]. set_solver.
  - injection Heq as -> <-. apply NoDup_cons in Hnd as [Hx _]. set_solver.
  - injection Heq as -> Heq. apply NoDup_cons in Hnd as [_ Hnd].
    destruct (IH _ Hnd Heq) as [-> ->]; done.
Qed.

Lemma last_cons_some l (x : A) : ∃ y, last (x :: l) = Some y.
Proof. rewrite last_cons. destruct (last l); eauto. Qed.

Lemma head_app_cons l1 (x y : A) l2 :
  l1 ≠ [] → head (l1 ++ l2) = head l1.
Proof. by destruct l1. Qed.

Lemma last_app_cons l1 (x : A) l2 : last (l1 ++ x :: l2) = last (x :: l2).
Proof. rewrite last_app. destruct (last_cons_some l2 x) as [y ->]. done. Qed.
End lists.

(** ** The representation predicate *)

(** The child edges of the abstract forest. *)
Definition edge (K : NodeId → list NodeId) (p c : NodeId) : Prop := c ∈ K p.

(** What the link fields of node [x] say about the child lists. *)
Record links_ok (K : NodeId → list NodeId) (x : NodeId) (r : NodeRecord) : Prop := {
  lk_first : r.(r_first_child) = head (K x);
  lk_last : r.(r_last_child) = last (K x);
  lk_sib : match r.(r_parent) with
           | None => r.(r_prev_sibling) = None ∧ r.(r_next_sibling) = None
           | Some p => ∃ l1 l2, K p = l1 ++ x :: l2
               ∧ r.(r_prev_sibling) = last l1 ∧ r.(r_next_sibling) = head l2
           end;
}.

Record Linked (d : Document) (K : NodeId → list NodeId) : Prop := {
  rep_links : ∀ x r, d.(nodes) !! x = Some r → links_ok K x r;
  rep_child : ∀ p c, c ∈ K p → ∃ r, d.(nodes) !! c = Some r ∧ r.(r_parent) = Some p;
  rep_dom : ∀ p, d.(nodes) !! p = None → K p = [];
  rep_nodup : ∀ p, NoDup (K p);
  rep_fresh : ∀ x r, d.(nodes) !! x = Some r → (x < d.(allocator).(alloc_next))%N;
}.

Record Rep (d : Document) (K : NodeId → list NodeId) : Prop := {
  rep_linked :> Linked d K;
  rep_root : ∃ r rec, d.(doc_root) = Some r ∧ d.(nodes) !! r = Some rec
               ∧ rec.(r_data) = NDocument ∧ rec.(r_parent) = None;
  rep_acyclic : ∀ x, ¬ tc (edge K) x x;
}.

#[export] Hint Resolve rep_linked : core.

(** [x] is a live node. *)
Definition live (d : Document) (x : NodeId) : Prop := is_Some (d.(nodes) !! x).

(** [parent_edge d x y]: the record of [x] names [y] as its parent. *)
Definition parent_edge (d : Document) (x y : NodeId) : Prop :=
  ∃ r, d.(nodes) !! x = Some r ∧ r.(r_parent) = Some y.

(** [a] is [x] or an ancestor of [x]: what [append_child] does not check. *)
Definition inclusive_ancestor (d : Document) (a x : NodeId) : Prop :=
  rtc (parent_edge d) x a.

(** ** The table under [modify] *)
Lemma modify_Ok m id f m' :
  modify m id f = Ok m' ↔ is_Some (m !! id) ∧ m' = alter f id m.
Proof.
  unfold modify, index. destruct (m !! id) as [r|] eqn:E; cbn.
  - split.
    + intros [= <-]. split; [eauto|]. apply map_eq. intros j.
      rewrite lookup_alter. destruct (decide (id = j)) as [<-|].
      * by rewrite lookup_insert_eq, E.
      * by rewrite lookup_insert_ne.
    + intros [_ ->]. f_equal. apply map_eq. intros j.
      rewrite lookup_alter. destruct (decide (id = j)) as [<-|].
      * by rewrite lookup_insert_eq, E.
      * by rewrite lookup_insert_ne.
  - split; [done|]. intros [[? ?] _]; done.
Qed.

(** The record of [x] after [alter f id]. *)
Definition at_id (id : NodeId) (f : NodeRecord → NodeRecord) (x : NodeId)
    (r : NodeRecord) : NodeRecord := if decide (id = x) then f r else r.

Lemma lookup_alter_at (m : gmap NodeId NodeRecord) id f x :
  alter f id m !! x = at_id id f x <$> m !! x.
Proof.
  rewrite lookup_alter. unfold at_id.
  destruct (decide (id = x)) as [<-|]; [done|]. by destruct (m !! x).
Qed.

Lemma modify_run m id f :
  is_Some (m !! id) → modify m id f = Ok (alter f id m).
Proof. intros H. by apply modify_Ok. Qed.

Lemma is_Some_alter (m : gmap NodeId NodeRecord) id f x :
  is_Some (m !! x) → is_Some (alter f id m !! x).
Proof. rewrite lookup_alter_at, fmap_is_Some. done. Qed.

#[export] Hint Resolve is_Some_alter : blueice.


(** ** Facts about a represented document *)
Section rep_facts.
Context (d : Document) (K : NodeId → list NodeId) (HR : Linked d K).

Lemma detached_not_child c r p :
  d.(nodes) !! c = Some r → r.(r_parent) = None → c ∉ K p.
Proof. intros Hr Hp (r' & ? & ?)%(rep_child _ _ HR). congruence. Qed.

Lemma rep_edge_live p c : edge K p c → live d p ∧ live d c.
Proof.
  intros Hc. split.
  - unfold live. destruct (nodes d !! p) eqn:E; [eauto|].
    unfold edge in Hc. rewrite (rep_dom _ _ HR p E) in Hc. set_solver.
  - destruct (rep_child _ _ HR _ _ Hc) as (r & ? & _). by exists r.
Qed.

Lemma rep_parent_edge x p : parent_edge d x p ↔ edge K p x.
Proof.
  split.
  - intros (r & Hr & Hp). pose proof (lk_sib _ _ _ (rep_links _ _ HR _ _ Hr)) as Hs.
    rewrite Hp in Hs. destruct Hs as (l1 & l2 & HK & _). unfold edge. rewrite HK.
    set_solver.
  - intros Hc. destruct (rep_child _ _ HR _ _ Hc) as (r & ? & ?). by exists r.
Qed.

Lemma rep_parent_inj p q c : edge K p c → edge K q c → p = q.
Proof.
  intros (r & Hr & Hp)%(rep_child _ _ HR) (r' & Hr' & Hq)%(rep_child _ _ HR).
  congruence.
Qed.

Lemma rep_inclusive_ancestor a x : inclusive_ancestor d a x ↔ rtc (edge K) a x.
Proof.
  unfold inclusive_ancestor. split.
  - induction 1 as [|x y z Hxy _ IH]; [done|].
    apply rep_parent_edge in Hxy. eapply rtc_r; eauto.
  - intros H. induction H as [|x y z Hxy _ IH]; [done|].
    apply rep_parent_edge in Hxy. eapply rtc_r; eauto.
Qed.

(** Two paths into the same node are nested: parents are unique. *)
Lemma rep_paths_nested a b x :
  rtc (edge K) a x → rtc (edge K) b x → rtc (edge K) a b ∨ rtc (edge K) b a.
Proof.
  intros Ha. revert b. pattern x. revert x Ha. apply rtc_ind_r; [|intros y z Hay Hyz IH];
    intros b Hb.
  - by right.
  - apply rtc_inv_r in Hb as [->|(y' & Hb & Hyz')].
    + left. eapply rtc_r; eauto.
    + pose proof (rep_parent_inj _ _ _ Hyz Hyz') as ->. eauto.
Qed.
End rep_facts.

(** ** Acyclicity when edges change *)
Lemma tc_edge_mono (K K' : NodeId → list NodeId) x y :
  (∀ p c, edge K' p c → edge K p c) → tc (edge K') x y → tc (edge K) x y.
Proof.
  intros Hsub. induction 1 as [x y Hxy|x y z Hxy _ IH].
  - by apply tc_once, Hsub.
  - eapply tc_l; [by apply Hsub|done].
Qed.

Lemma tc_edge_add (K K' : NodeId → list NodeId) p0 c0 x y :
  (∀ p c, edge K' p c → edge K p c ∨ (p = p0 ∧ c = c0)) →
  tc (edge K') x y →
  tc (edge K) x y ∨ (rtc (edge K) x p0 ∧ rtc (edge K) c0 y).
Proof.
  intros Hsub. induction 1 as [x y Hxy|x y z Hxy _ IH].
  - destruct (Hsub _ _ Hxy) as [?|[-> ->]]; [left; by apply tc_once|right; done].
  - destruct (Hsub _ _ Hxy) as [Hxy'|[-> ->]].
    + destruct IH as [?|[? ?]].
      * left. eapply tc_l; eauto.
      * right. split; [|done]. eapply rtc_l; eauto.
    + right. split; [done|]. destruct IH as [?|[? ?]]; [by apply tc_rtc|done].
Qed.

Lemma acyclic_add (K K' : NodeId → list NodeId) p0 c0 :
  (∀ p c, edge K' p c → edge K p c ∨ (p = p0 ∧ c = c0)) →
  (∀ x, ¬ tc (edge K) x x) → ¬ rtc (edge K) c0 p0 →
  ∀ x, ¬ tc (edge K') x x.
Proof.
  intros Hsub Hac Hn x Hx. destruct (tc_edge_add _ _ _ _ _ _ Hsub Hx) as [?|[H1 H2]].
  - by eapply Hac.
  - apply Hn. by transitivity x.
Qed.

(** ** Creation *)
Lemma create_node_linked d K dt :
  Linked d K → (next_node_id d < U64_MAX)%N →
  ∃ d', create_node d dt = Ok (next_node_id d, d')
    ∧ Linked d' K
    ∧ d'.(nodes) = <[next_node_id d := detached_record dt]> d.(nodes)
    ∧ d.(nodes) !! next_node_id d = None
    ∧ next_node_id d' = (next_node_id d + 1)%N
    ∧ d'.(doc_root) = d.(doc_root).
Proof.
  intros HR Hlt. unfold create_node, allocate, next_node_id in *.
  assert (checked_add_N U64_MAX (alloc_next (allocator d)) 1
          = Ok (alloc_next (allocator d) + 1)%N) as -> by (apply checked_add_N_Ok; lia).
  assert (nodes d !! alloc_next (allocator d) = None) as Hnone.
  { destruct (nodes d !! _) eqn:E; [|done]. apply (rep_fresh _ _ HR) in E. lia. }
  cbn. eexists; split; [done|]. split_and!; try done.
  split; cbn.
  - intros x r. destruct (decide (alloc_next (allocator d) = x)) as [<-|Hne].
    + rewrite lookup_insert_eq. intros [= <-].
      split; cbn; rewrite ?(rep_dom _ _ HR _ Hnone); done.
    + rewrite lookup_insert_ne by done. apply HR.
  - intros p c (r & Hr & Hp)%(rep_child _ _ HR). exists r. split; [|done].
    rewrite lookup_insert_ne; [done|]. congruence.
  - intros p. destruct (decide (alloc_next (allocator d) = p)) as [<-|Hne].
    + by rewrite lookup_insert_eq.
    + rewrite lookup_insert_ne by done. apply HR.
  - apply HR.
  - intros x r. destruct (decide (alloc_next (allocator d) = x)) as [<-|Hne]; [lia|].
    rewrite lookup_insert_ne by done. intros ?%(rep_fresh _ _ HR). lia.
Qed.

Lemma create_node_spec d K dt :
  Rep d K → (next_node_id d < U64_MAX)%N →
  ∃ d', create_node d dt = Ok (next_node_id d, d')
    ∧ Rep d' K
    ∧ d'.(nodes) = <[next_node_id d := detached_record dt]> d.(nodes)
    ∧ d.(nodes) !! next_node_id d = None
    ∧ next_node_id d' = (next_node_id d + 1)%N
    ∧ d'.(doc_root) = d.(doc_root).
Proof.
  intros HR Hlt. destruct (create_node_linked d K dt HR Hlt) as (d' & ? & HL & Hn & Hnone & ? & Hrt).
  exists d'. split_and!; try done. split; [done| |apply HR].
  destruct (rep_root _ _ HR) as (r & rec & ? & ? & ? & ?). exists r, rec. rewrite Hrt, Hn.
  split_and!; try done. rewrite lookup_insert_ne; [done|congruence].
Qed.

Lemma new_continuing_from_spec n :
  (n < U64_MAX)%N →
  ∃ d, new_continuing_from n = Ok d ∧ Rep d (λ _, [])
    ∧ next_node_id d = (n + 1)%N ∧ d.(doc_root) = Some n
    ∧ d.(nodes) = {[n := detached_record NDocument]}.
Proof.
  intros Hlt. unfold new_continuing_from, create_node, allocate, next_node_id; cbn.
  assert (checked_add_N U64_MAX n 1 = Ok (n + 1)%N) as -> by (apply checked_add_N_Ok; lia).
  cbn. eexists; split; [done|]. split_and!; try done. split; [split|..]; cbn.
  - intros x r. rewrite insert_empty, lookup_singleton_Some. intros [<- <-]. done.
  - intros p c Hc. by apply not_elem_of_nil in Hc.
  - done.
  - intros p. constructor.
  - intros x r. rewrite insert_empty, lookup_singleton_Some. intros [<- _]. lia.
  - exists n, (detached_record NDocument). by rewrite lookup_insert_eq.
  - intros x Hx. destruct Hx as [? ? Hx|? ? ? Hx]; by apply not_elem_of_nil in Hx.
Qed.

Lemma data_mut_linked d K id f :
  Linked d K → live d id →
  ∃ d', data_mut d id f = Ok d' ∧ Linked d' K ∧ d'.(doc_root) = d.(doc_root)
    ∧ d'.(nodes) = alter (λ r, set_data (f r.(r_data)) r) id d.(nodes).
Proof.
  intros HR Hl. unfold data_mut. rewrite modify_run by done. cbn.
  eexists; split; [done|]. split; [|done]. split; cbn.
  - intros x r. rewrite lookup_alter_at, fmap_Some. intros (r0 & Hr0 & ->).
    destruct (rep_links _ _ HR _ _ Hr0) as [? ? ?].
    unfold at_id. case_decide; by split.
  - intros p c (r & Hr & Hp)%(rep_child _ _ HR). rewrite lookup_alter_at, Hr. cbn.
    eexists; split; [done|]. unfold at_id. by case_decide.
  - intros p. rewrite lookup_alter_at, fmap_None. apply HR.
  - apply HR.
  - intros x r. rewrite lookup_alter_at, fmap_Some. intros (r0 & Hr0 & _).
    by eapply (rep_fresh _ _ HR).
Qed.

(** The root's data may only be replaced by itself. *)
Lemma data_mut_spec' d K id f :
  Rep d K → live d id → (d.(doc_root) = Some id → f NDocument = NDocument) →
  ∃ d', data_mut d id f = Ok d' ∧ Rep d' K
    ∧ d'.(nodes) = alter (λ r, set_data (f r.(r_data)) r) id d.(nodes).
Proof.
  intros HR Hl Hf. destruct (data_mut_linked d K id f HR Hl) as (d' & ? & HL & Hrt & Hn).
  exists d'. split_and!; try done. split; [done| |apply HR].
  destruct (rep_root _ _ HR) as (r & rec & Hr & Hrec & Hdt & ?). rewrite Hrt, Hn.
  exists r, (at_id id (λ r, set_data (f (r_data r)) r) r rec).
  rewrite lookup_alter_at, Hrec. unfold at_id. case_decide as Hid; [subst|]; split_and!; try done.
  cbn. rewrite Hdt. by apply Hf.
Qed.

Lemma data_mut_spec d K id f :
  Rep d K → live d id → d.(doc_root) ≠ Some id →
  ∃ d', data_mut d id f = Ok d' ∧ Rep d' K
    ∧ d'.(nodes) = alter (λ r, set_data (f r.(r_data)) r) id d.(nodes).
Proof. intros HR Hl Hroot. by apply data_mut_spec'. Qed.

(** ** Rewiring

    The common shape of [append_child], [insert_before] and [detach]: the
    records are updated pointwise by [U], the data stays, and the new links are
    those of [K']. *)
Lemma Linked_relink d K K' m' (U : NodeId → NodeRecord → NodeRecord) :
  Linked d K →
  (∀ x, m' !! x = U x <$> d.(nodes) !! x) →
  (∀ x r, d.(nodes) !! x = Some r → links_ok K' x (U x r)) →
  (∀ p c, c ∈ K' p → ∃ r, d.(nodes) !! c = Some r ∧ (U c r).(r_parent) = Some p) →
  (∀ p, d.(nodes) !! p = None → K' p = []) →
  (∀ p, NoDup (K' p)) →
  Linked (with_nodes d m') K'.
Proof.
  intros HR Hm Hlk Hch Hdom Hnd. split; cbn; try done.
  - intros x r. rewrite Hm, fmap_Some. intros (r0 & ? & ->). eauto.
  - intros p c Hc. destruct (Hch _ _ Hc) as (r & Hr & ?). exists (U c r).
    by rewrite Hm, Hr.
  - intros p. rewrite Hm, fmap_None. apply Hdom.
  - intros x r. rewrite Hm, fmap_Some. intros (r0 & Hr0 & ->).
    by eapply (rep_fresh _ _ HR).
Qed.

(** What an operation that only rewires leaves alone. *)
Definition rewired (d d' : Document) : Prop :=
  d'.(allocator) = d.(allocator) ∧ d'.(doc_root) = d.(doc_root)
  ∧ ∀ x, r_data <$> d'.(nodes) !! x = r_data <$> d.(nodes) !! x.

Lemma rewired_intro d m' (U : NodeId → NodeRecord → NodeRecord) :
  (∀ x, m' !! x = U x <$> d.(nodes) !! x) →
  (∀ x r, (U x r).(r_data) = r.(r_data)) →
  rewired d (with_nodes d m').
Proof.
  intros Hm Hdata. split_and!; [done..|]. intros x. cbn. rewrite Hm.
  destruct (nodes d !! x); cbn; by rewrite ?Hdata.
Qed.

Lemma root_not_child d K r p : Rep d K → d.(doc_root) = Some r → r ∉ K p.
Proof.
  intros HR Hr. destruct (rep_root _ _ HR) as (r' & rec & Hr' & Hrec & _ & Hpar).
  assert (r' = r) as -> by congruence. by eapply (detached_not_child _ _ HR).
Qed.

(** A rewiring keeps a forest when the root stays out of the child lists and no cycle appears. *)
Lemma Rep_rewired d d' K K' :
  Rep d K → Linked d' K' → rewired d d' →
  (∀ r p, d.(doc_root) = Some r → r ∉ K' p) → (∀ x, ¬ tc (edge K') x x) → Rep d' K'.
Proof.
  intros HR HL (_ & Hrt & Hdata) Hroot Hac. split; [done| |done].
  destruct (rep_root _ _ HR) as (r & rec & Hr & Hrec & Hdt & _). specialize (Hdata r).
  rewrite Hrec in Hdata. apply fmap_Some in Hdata as (rec' & Hrec' & Hdt').
  exists r, rec'. rewrite Hrt. split_and!; [done..|congruence|].
  destruct (r_parent rec') as [p|] eqn:Hp; [|done]. destruct (Hroot r p Hr).
  apply (rep_parent_edge _ _ HL). by exists rec'.
Qed.

Ltac at_cases := unfold at_id; repeat case_decide; simplify_eq.

Lemma child_ne_parent d K p c : Rep d K → c ∈ K p → c ≠ p.
Proof. intros HR Hc ->. eapply (rep_acyclic _ _ HR). by apply tc_once. Qed.

(** The table after [append_child]. *)
Definition append_update (K : NodeId → list NodeId) (p c x : NodeId) : NodeRecord → NodeRecord :=
  λ r, at_id p (set_last_child (Some c)) x
        (at_id c (λ r, set_prev_sibling (last (K p)) (set_parent (Some p) r)) x
          (match last (K p) with
           | Some pl => at_id pl (set_next_sibling (Some c)) x r
           | None => at_id p (set_first_child (Some c)) x r
           end)).

Lemma append_child_run d K p c rc :
  Linked d K → live d p → d.(nodes) !! c = Some rc → rc.(r_parent) = None →
  ∃ m', append_child d p c = Ok (with_nodes d m')
    ∧ ∀ x, m' !! x = append_update K p c x <$> d.(nodes) !! x.
Proof.
  intros HR [rp Hp] Hc Hpar. unfold append_child, index. rewrite Hc; cbn.
  rewrite Hpar, Hp; cbn. rewrite (lk_last _ _ _ (rep_links _ _ HR _ _ Hp)).
  unfold append_update. destruct (last (K p)) as [pl|] eqn:Hl.
  - assert (is_Some (nodes d !! pl)) as [rpl Hpl].
    { apply last_Some in Hl as [l' Hl']. destruct (rep_child _ _ HR p pl) as (r & ? & _).
      - rewrite Hl'. set_solver.
      - eauto. }
    do 3 (rewrite modify_run by eauto 6 with blueice; cbn). eexists; split; [done|].
    intros x. by rewrite !lookup_alter_at, <-!option_fmap_compose.
  - do 3 (rewrite modify_run by eauto 6 with blueice; cbn). eexists; split; [done|].
    intros x. by rewrite !lookup_alter_at, <-!option_fmap_compose.
Qed.

Lemma append_update_data K p c x r : (append_update K p c x r).(r_data) = r.(r_data).
Proof. unfold append_update. destruct (last (K p)); at_cases; done. Qed.

Lemma append_update_parent K p c x r :
  (append_update K p c x r).(r_parent) = if decide (c = x) then Some p else r.(r_parent).
Proof. unfold append_update. destruct (last (K p)); at_cases; done. Qed.

Lemma append_links d K p c rc x r :
  Linked d K → d.(nodes) !! c = Some rc → rc.(r_parent) = None →
  d.(nodes) !! x = Some r →
  links_ok (<[p := K p ++ [c]]> K) x (append_update K p c x r).
Proof.
  intros HR Hc Hpar Hx.
  pose proof (rep_links _ _ HR _ _ Hx) as [Hf Hl Hs].
  pose proof (detached_not_child _ _ HR _ _ p Hc Hpar) as Hcp.
  assert (∀ pl, last (K p) = Some pl → pl ∈ K p ∧ pl ≠ c) as Hpl.
  { intros pl [l' Hl']%last_Some. assert (pl ∈ K p) by (rewrite Hl'; set_solver).
    split_and!; [done|set_solver]. }
  split.
  - unfold append_update. destruct (decide (x = p)) as [->|Hxp].
    + rewrite fn_lookup_insert. destruct (K p) as [|k l] eqn:EK; cbn.
      * at_cases; done.
      * destruct (last_cons_some l k) as [pl Epl]. rewrite Epl.
        destruct (Hpl _ Epl) as (? & ?). at_cases; cbn; done.
    + rewrite fn_lookup_insert_ne by done. destruct (last (K p)); at_cases; cbn; done.
  - unfold append_update. destruct (decide (x = p)) as [->|Hxp].
    + rewrite fn_lookup_insert, last_snoc. at_cases; by destruct (last (K p)).
    + rewrite fn_lookup_insert_ne by done. destruct (last (K p)); at_cases; cbn; done.
  - rewrite append_update_parent. destruct (decide (c = x)) as [<-|Hcx].
    + exists (K p), []. rewrite fn_lookup_insert. split; [done|].
      unfold append_update. simplify_eq. rewrite Hpar in Hs. destruct Hs as [Hs1 Hs2].
      destruct (last (K p)) as [pl|] eqn:El; [destruct (Hpl _ eq_refl) as (? & ?)|];
        at_cases; done.
    + destruct (r_parent r) as [q|] eqn:Eq.
      * destruct Hs as (l1 & l2 & HK & Hprev & Hnext).
        destruct (decide (q = p)) as [->|Hqp].
        -- exists l1, (l2 ++ [c]). rewrite fn_lookup_insert, HK, <-app_assoc. split; [done|].
           pose proof (rep_nodup _ _ HR p) as Hnd. rewrite HK in Hnd.
           unfold append_update. rewrite HK, last_app_cons.
           destruct l2 as [|y l2].
           ++ cbn. at_cases; cbn; done.
           ++ rewrite last_cons_cons. destruct (last_cons_some l2 y) as [pl Epl].
              rewrite Epl. assert (pl ≠ x).
              { apply last_Some in Epl as [l' Epl]. rewrite Epl in Hnd.
                apply NoDup_app in Hnd as (_ & _ & Hnd). apply NoDup_cons in Hnd. set_solver. }
              at_cases; cbn; done.
        -- exists l1, l2. rewrite fn_lookup_insert_ne by done. split; [done|].
           unfold append_update. destruct (last (K p)) as [pl|] eqn:El.
           ++ destruct (Hpl _ eq_refl) as (Hin & _). assert (pl ≠ x).
              { intros ->. apply Hqp. eapply rep_parent_inj; [done| |exact Hin].
                unfold edge. rewrite HK. set_solver. }
              at_cases; cbn; done.
           ++ at_cases; cbn; done.
      * destruct Hs as [Hprev Hnext].
        unfold append_update. destruct (last (K p)) as [pl|] eqn:El.
        -- destruct (Hpl _ eq_refl) as (Hin & _). assert (pl ≠ x).
           { intros ->. by eapply detached_not_child in Hin. }
           at_cases; cbn; done.
        -- at_cases; cbn; done.
Qed.

Lemma insert_edge (K : NodeId → list NodeId) p l q c :
  c ∈ (<[p := l]> K) q ↔ if decide (p = q) then c ∈ l else c ∈ K q.
Proof.
  destruct (decide (p = q)) as [<-|]; [by rewrite fn_lookup_insert|].
  by rewrite fn_lookup_insert_ne.
Qed.

Lemma append_child_linked d K p c rc :
  Linked d K → live d p → d.(nodes) !! c = Some rc → rc.(r_parent) = None →
  ∃ d', append_child d p c = Ok d' ∧ Linked d' (<[p := K p ++ [c]]> K) ∧ rewired d d'.
Proof.
  intros HR Hp Hc Hpar. destruct (append_child_run d K p c rc) as (m' & -> & Hm); try done.
  eexists; split; [done|].
  pose proof (detached_not_child _ _ HR _ _ p Hc Hpar) as Hcp.
  split; [|eapply rewired_intro; [done|intros; apply append_update_data]].
  eapply Linked_relink; try done.
  - intros. by eapply append_links.
  - intros q x. rewrite insert_edge. destruct (decide (p = q)) as [<-|Hq].
    + rewrite elem_of_app, list_elem_of_singleton. intros [Hx| ->].
      * destruct (rep_child _ _ HR _ _ Hx) as (r & ? & ?). exists r. split; [done|].
        rewrite append_update_parent, decide_False; [done|]. by intros ->.
      * exists rc. by rewrite append_update_parent, decide_True.
    + intros Hx. destruct (rep_child _ _ HR _ _ Hx) as (r & ? & ?). exists r. split; [done|].
      rewrite append_update_parent, decide_False; [done|]. intros ->.
      by apply (detached_not_child _ _ HR _ _ q Hc Hpar).
  - intros q Hq. rewrite fn_lookup_insert_ne; [by apply (rep_dom _ _ HR)|].
    intros ->. destruct Hp; congruence.
  - intros q. destruct (decide (p = q)) as [<-|Hq].
    + rewrite fn_lookup_insert. apply NoDup_app. split_and!.
      * apply HR.
      * set_solver.
      * apply NoDup_singleton.
    + rewrite fn_lookup_insert_ne by done. apply HR.
Qed.

(** Adding the edge from [p] to [c] keeps a forest: [c] is not the root, nor [p] or above it. *)
Lemma Rep_add_edge d d' K K' p c :
  Rep d K → Linked d' K' → rewired d d' →
  (∀ q x, x ∈ K' q → x ∈ K q ∨ (q = p ∧ x = c)) →
  d.(doc_root) ≠ Some c → ¬ inclusive_ancestor d c p → Rep d' K'.
Proof.
  intros HR HL Hrw Hsub Hroot Hanc. rewrite (rep_inclusive_ancestor _ _ HR) in Hanc.
  eapply Rep_rewired; try done.
  - intros r q Hr [Hx|[-> ->]]%Hsub; [by apply (root_not_child _ _ _ _ HR Hr) in Hx|done].
  - eapply acyclic_add; [exact Hsub|apply HR|exact Hanc].
Qed.

Lemma append_child_spec d K p c rc :
  Rep d K → live d p → d.(nodes) !! c = Some rc → rc.(r_parent) = None →
  d.(doc_root) ≠ Some c → ¬ inclusive_ancestor d c p →
  ∃ d', append_child d p c = Ok d' ∧ Rep d' (<[p := K p ++ [c]]> K) ∧ rewired d d'.
Proof.
  intros HR Hp Hc Hpar Hroot Hanc.
  destruct (append_child_linked d K p c rc) as (d' & ? & HL & Hrw); [by apply HR|done..|].
  exists d'. split_and!; [done| |done]. eapply Rep_add_edge; try done.
  intros q x. rewrite insert_edge. destruct (decide (p = q)) as [<-|Hq]; [|by left].
  rewrite elem_of_app, list_elem_of_singleton. intros [?|?]; [by left|by right].
Qed.

(** A node that already has a parent, or is not live, makes both insertions panic. *)
Lemma append_child_attached d p c rc q :
  d.(nodes) !! c = Some rc → rc.(r_parent) = Some q → append_child d p c = Panic.
Proof. intros Hc Hq. unfold append_child, index. rewrite Hc; cbn. by rewrite Hq. Qed.

Lemma append_child_dead d p c : d.(nodes) !! c = None → append_child d p c = Panic.
Proof. intros Hc. unfold append_child, index. by rewrite Hc. Qed.

(** ** [insert_before] *)
Definition insert_update (p c ref : NodeId) (prev : option NodeId) (x : NodeId)
    : NodeRecord → NodeRecord :=
  λ r, at_id c (λ r, set_next_sibling (Some ref)
                       (set_prev_sibling prev (set_parent (Some p) r))) x
        (at_id ref (set_prev_sibling (Some c)) x
          (match prev with
           | Some q => at_id q (set_next_sibling (Some c)) x r
           | None => at_id p (set_first_child (Some c)) x r
           end)).

Lemma insert_update_data p c ref prev x r :
  (insert_update p c ref prev x r).(r_data) = r.(r_data).
Proof. unfold insert_update. destruct prev; at_cases; done. Qed.

Lemma insert_update_parent p c ref prev x r :
  (insert_update p c ref prev x r).(r_parent) = if decide (c = x) then Some p else r.(r_parent).
Proof. unfold insert_update. destruct prev; at_cases; done. Qed.

Lemma insert_before_run d K p c rc ref l1 l2 :
  Linked d K → d.(nodes) !! c = Some rc → rc.(r_parent) = None →
  K p = l1 ++ ref :: l2 →
  ∃ m', insert_before d p c (Some ref) = Ok (with_nodes d m')
    ∧ ∀ x, m' !! x = insert_update p c ref (last l1) x <$> d.(nodes) !! x.
Proof.
  intros HR Hc Hpar HK. unfold insert_before, index. rewrite Hc; cbn. rewrite Hpar.
  assert (ref ∈ K p) as Hin by (rewrite HK; set_solver).
  destruct (rep_child _ _ HR _ _ Hin) as (rr & Hr & Hrp).
  destruct (proj1 (rep_edge_live _ _ HR _ _ Hin)) as [rp Hp].
  rewrite Hr; cbn. rewrite decide_True by done.
  pose proof (lk_sib _ _ _ (rep_links _ _ HR _ _ Hr)) as Hs. rewrite Hrp in Hs.
  destruct Hs as (k1 & k2 & HK' & Hprev & _). pose proof (rep_nodup _ _ HR p) as Hnd.
  rewrite HK in HK', Hnd. destruct (app_cons_inj_NoDup _ _ _ _ _ Hnd HK') as [<- <-].
  rewrite Hprev. unfold insert_update. destruct (last l1) as [q|] eqn:El.
  - assert (is_Some (nodes d !! q)).
    { apply last_Some in El as [l' El]. destruct (rep_child _ _ HR p q) as (r & ? & _).
      - rewrite HK, El. set_solver.
      - eauto. }
    do 3 (rewrite modify_run by eauto 6 with blueice; cbn). eexists; split; [done|].
    intros x. by rewrite !lookup_alter_at, <-!option_fmap_compose.
  - do 3 (rewrite modify_run by eauto 6 with blueice; cbn). eexists; split; [done|].
    intros x. by rewrite !lookup_alter_at, <-!option_fmap_compose.
Qed.

(** Where a second element sits relative to the first. *)
Lemma app_cons_cases {A} (l1 l2 k1 k2 : list A) (x y : A) :
  x ≠ y → l1 ++ x :: l2 = k1 ++ y :: k2 →
  (∃ m, l1 = k1 ++ y :: m ∧ k2 = m ++ x :: l2) ∨ (∃ m, k1 = l1 ++ x :: m ∧ l2 = m ++ y :: k2).
Proof.
  intros Hne Heq. apply app_eq_inv in Heq as [(k & -> & Hk)|(k & -> & Hk)].
  - destruct k as [|z k]; cbn in Hk; injection Hk as <- Hk; [done|]. left; eauto.
  - destruct k as [|z k]; cbn in Hk; injection Hk as <- Hk; [done|]. right; eauto.
Qed.

Lemma last_ne_NoDup {A} (l1 m : list A) (x q : A) :
  NoDup (l1 ++ x :: m) → last (x :: m) = Some q → m ≠ [] → q ≠ x.
Proof.
  intros Hnd Hl Hm ->. destruct m as [|y m]; [done|]. rewrite last_cons_cons in Hl.
  apply last_Some in Hl as [l' Hl]. rewrite Hl in Hnd.
  apply NoDup_app in Hnd as (_ & _ & Hnd). apply NoDup_cons in Hnd. set_solver.
Qed.

(** The sibling links of an old child [x] of [p] after the insertion. *)
Lemma insert_links_child (K : NodeId → list NodeId) p c ref l1 l2 k1 k2 x r :
  NoDup (l1 ++ ref :: l2) → c ∉ l1 ++ ref :: l2 →
  l1 ++ ref :: l2 = k1 ++ x :: k2 →
  r.(r_prev_sibling) = last k1 → r.(r_next_sibling) = head k2 →
  let r' := insert_update p c ref (last l1) x r in
  ∃ k1' k2', l1 ++ c :: ref :: l2 = k1' ++ x :: k2'
    ∧ r'.(r_prev_sibling) = last k1' ∧ r'.(r_next_sibling) = head k2'.
Proof.
  intros Hnd Hc HK Hprev Hnext. assert (x ≠ c) as Hxc by (rewrite HK in Hc; set_solver).
  unfold insert_update.
  destruct (decide (ref = x)) as [->|Hne].
  - destruct (app_cons_inj_NoDup _ _ _ _ _ Hnd HK) as [<- <-].
    exists (l1 ++ [c]), l2. rewrite <-app_assoc, last_snoc. split; [done|].
    assert (∀ q, last l1 = Some q → q ≠ x) as Hq.
    { intros q [l' ->]%last_Some ->. apply NoDup_app in Hnd. set_solver. }
    destruct (last l1) as [q|]; [specialize (Hq q eq_refl)|]; at_cases; done.
  - destruct (app_cons_cases _ _ _ _ _ _ Hne HK) as [(m & -> & ->)|(m & -> & ->)].
    + exists k1, (m ++ c :: ref :: l2). rewrite <-app_assoc. split; [done|].
      rewrite last_app_cons. destruct (last_cons_some m x) as [q Hq]. rewrite Hq.
      destruct m as [|y m].
      * cbn in Hq. injection Hq as <-. at_cases; cbn in *; done.
      * assert (q ≠ x).
        { apply NoDup_app in Hnd as (Hnd & _ & _). by eapply last_ne_NoDup. }
        at_cases; done.
    + exists (l1 ++ c :: ref :: m), k2. rewrite <-app_assoc. split; [done|].
      rewrite last_app_cons, last_cons_cons. rewrite last_app_cons in Hprev.
      assert (∀ q, last l1 = Some q → q ≠ x) as Hq.
      { intros q [l' ->]%last_Some ->. apply NoDup_app in Hnd. set_solver. }
      destruct (last l1) as [q|]; [specialize (Hq q eq_refl)|]; at_cases; done.
Qed.

(** The links of a node that is neither [c] nor a child of [p] are kept. *)
Lemma insert_update_other p c ref prev x r :
  x ≠ c → x ≠ ref → prev ≠ Some x →
  let r' := insert_update p c ref prev x r in
  r'.(r_prev_sibling) = r.(r_prev_sibling) ∧ r'.(r_next_sibling) = r.(r_next_sibling).
Proof. intros. unfold r', insert_update. destruct prev; at_cases; done. Qed.

Lemma insert_links d K p c rc ref l1 l2 x r :
  Linked d K → d.(nodes) !! c = Some rc → rc.(r_parent) = None →
  K p = l1 ++ ref :: l2 → d.(nodes) !! x = Some r →
  links_ok (<[p := l1 ++ c :: ref :: l2]> K) x (insert_update p c ref (last l1) x r).
Proof.
  intros HR Hc Hpar HK Hx.
  pose proof (rep_links _ _ HR _ _ Hx) as [Hf Hl Hs].
  pose proof (detached_not_child _ _ HR _ _ p Hc Hpar) as Hcp.
  pose proof (rep_nodup _ _ HR p) as Hnd.
  assert (∀ q, last l1 = Some q → q ∈ K p) as Hq.
  { intros q [l' ->]%last_Some. rewrite HK. set_solver. }
  assert (ref ∈ K p) as Href by (rewrite HK; set_solver).
  split.
  - unfold insert_update. destruct (decide (x = p)) as [->|Hxp].
    + rewrite fn_lookup_insert. rewrite HK in Hf. destruct l1 as [|k l1]; cbn in *.
      * at_cases; try done; set_solver.
      * destruct (last_cons_some l1 k) as [q Eq]. rewrite Eq in *.
        specialize (Hq q eq_refl). at_cases; try done; set_solver.
    + rewrite fn_lookup_insert_ne by done. destruct (last l1); at_cases; done.
  - unfold insert_update. destruct (decide (x = p)) as [->|Hxp].
    + rewrite fn_lookup_insert, last_app_cons, last_cons_cons.
      rewrite HK, last_app_cons in Hl. destruct (last l1); at_cases; done.
    + rewrite fn_lookup_insert_ne by done. destruct (last l1); at_cases; done.
  - rewrite insert_update_parent. destruct (decide (c = x)) as [<-|Hcx].
    + exists l1, (ref :: l2). rewrite fn_lookup_insert. split; [done|].
      unfold insert_update. destruct (last l1); at_cases; done.
    + destruct (r_parent r) as [q|] eqn:Eq.
      * destruct Hs as (k1 & k2 & HKq & Hprev & Hnext).
        destruct (decide (q = p)) as [->|Hqp].
        -- rewrite fn_lookup_insert. rewrite HK in Hcp, HKq, Hnd.
           by eapply insert_links_child.
        -- rewrite fn_lookup_insert_ne by done. exists k1, k2. split; [done|].
           assert (∀ y, y ∈ K p → y ≠ x) as Hy.
           { intros y Hy ->. apply Hqp. eapply rep_parent_inj; [done| |exact Hy].
             unfold edge. rewrite HKq. set_solver. }
           destruct (insert_update_other p c ref (last l1) x r) as [-> ->]; try done.
           ++ intros ->. by apply (Hy ref).
           ++ intros Hlast. by apply (Hy x); [apply Hq|].
      * destruct Hs as [Hprev Hnext].
        assert (x ∉ K p) by by eapply detached_not_child.
        destruct (insert_update_other p c ref (last l1) x r) as [-> ->]; try done; set_solver.
Qed.

Lemma insert_before_linked d K p c rc ref l1 l2 :
  Linked d K → d.(nodes) !! c = Some rc → rc.(r_parent) = None → K p = l1 ++ ref :: l2 →
  ∃ d', insert_before d p c (Some ref) = Ok d'
    ∧ Linked d' (<[p := l1 ++ c :: ref :: l2]> K) ∧ rewired d d'.
Proof.
  intros HR Hc Hpar HK.
  destruct (insert_before_run d K p c rc ref l1 l2) as (m' & -> & Hm); try done.
  eexists; split; [done|].
  pose proof (detached_not_child _ _ HR _ _ p Hc Hpar) as Hcp.
  assert (∀ x, x ∈ l1 ++ c :: ref :: l2 ↔ x = c ∨ x ∈ K p) as Hin.
  { intros x. rewrite HK. set_solver. }
  split; [|eapply rewired_intro; [done|intros; apply insert_update_data]].
  eapply Linked_relink; try done.
  - intros. by eapply insert_links.
  - intros q x. rewrite insert_edge. intros Hx.
    assert ((x = c ∧ p = q) ∨ x ∈ K q) as [[-> <-]|Hx'].
    { destruct (decide (p = q)) as [<-|]; [apply Hin in Hx; naive_solver|by right]. }
    + exists rc. by rewrite insert_update_parent, decide_True.
    + destruct (rep_child _ _ HR _ _ Hx') as (r & ? & ?). exists r. split; [done|].
      rewrite insert_update_parent, decide_False; [done|]. intros ->.
      by apply (detached_not_child _ _ HR _ _ q Hc Hpar).
  - intros q Hq. rewrite fn_lookup_insert_ne; [by apply (rep_dom _ _ HR)|].
    intros ->. apply (rep_dom _ _ HR) in Hq. rewrite HK in Hq. by destruct l1.
  - intros q. destruct (decide (p = q)) as [<-|Hq].
    + rewrite fn_lookup_insert. rewrite HK in Hcp. pose proof (rep_nodup _ _ HR p) as Hnd.
      rewrite HK in Hnd. apply (NoDup_Permutation_proper _ (c :: l1 ++ ref :: l2)).
      * by rewrite Permutation_middle.
      * by apply NoDup_cons.
    + rewrite fn_lookup_insert_ne by done. apply HR.
Qed.

Lemma insert_before_spec d K p c rc ref l1 l2 :
  Rep d K → d.(nodes) !! c = Some rc → rc.(r_parent) = None →
  d.(doc_root) ≠ Some c → ¬ inclusive_ancestor d c p → K p = l1 ++ ref :: l2 →
  ∃ d', insert_before d p c (Some ref) = Ok d'
    ∧ Rep d' (<[p := l1 ++ c :: ref :: l2]> K) ∧ rewired d d'.
Proof.
  intros HR Hc Hpar Hroot Hanc HK.
  destruct (insert_before_linked d K p c rc ref l1 l2) as (d' & ? & HL & Hrw); [by apply HR|done..|].
  exists d'. split_and!; [done| |done]. eapply Rep_add_edge; try done.
  intros q x. rewrite insert_edge. destruct (decide (p = q)) as [<-|Hq]; [|by left].
  rewrite HK. set_solver.
Qed.

(** [insert_before] with a reference that is not a child of [parent] panics. *)
Lemma insert_before_foreign d p c ref rr :
  d.(nodes) !! ref = Some rr → rr.(r_parent) ≠ Some p →
  insert_before d p c (Some ref) = Panic.
Proof.
  intros Hr Hp. unfold insert_before, index. destruct (nodes d !! c) as [rc|]; [|done]. cbn.
  destruct (r_parent rc); [done|]. rewrite Hr; cbn. by rewrite decide_False.
Qed.

(** ** [detach] *)
Definition detach_update (p id : NodeId) (prev next : option NodeId) (x : NodeId)
    : NodeRecord → NodeRecord :=
  λ r, at_id id (λ r, set_next_sibling None (set_prev_sibling None (set_parent None r))) x
        (match next with
         | Some n => at_id n (set_prev_sibling prev) x
         | None => at_id p (set_last_child prev) x
         end
          (match prev with
           | Some q => at_id q (set_next_sibling next) x r
           | None => at_id p (set_first_child next) x r
           end)).

Lemma detach_update_data p id prev next x r :
  (detach_update p id prev next x r).(r_data) = r.(r_data).
Proof. unfold detach_update. destruct prev, next; at_cases; done. Qed.

Lemma detach_update_parent p id prev next x r :
  (detach_update p id prev next x r).(r_parent)
  = if decide (id = x) then None else r.(r_parent).
Proof. unfold detach_update. destruct prev, next; at_cases; done. Qed.

Lemma detach_run d K p id l1 l2 :
  Linked d K → K p = l1 ++ id :: l2 →
  ∃ m', detach d id = Ok (with_nodes d m')
    ∧ ∀ x, m' !! x = detach_update p id (last l1) (head l2) x <$> d.(nodes) !! x.
Proof.
  intros HR HK. assert (id ∈ K p) as Hin by (rewrite HK; set_solver).
  destruct (rep_child _ _ HR _ _ Hin) as (r & Hr & Hrp).
  destruct (proj1 (rep_edge_live _ _ HR _ _ Hin)) as [rp Hp].
  pose proof (lk_sib _ _ _ (rep_links _ _ HR _ _ Hr)) as Hs. rewrite Hrp in Hs.
  destruct Hs as (k1 & k2 & HK' & Hprev & Hnext). pose proof (rep_nodup _ _ HR p) as Hnd.
  rewrite HK in HK', Hnd. destruct (app_cons_inj_NoDup _ _ _ _ _ Hnd HK') as [<- <-].
  assert (∀ y, y ∈ K p → is_Some (nodes d !! y)) as Hlive.
  { intros y (ry & ? & _)%(rep_child _ _ HR). eauto. }
  assert (∀ q, last l1 = Some q → is_Some (nodes d !! q)) as Hq.
  { intros q [l' ->]%last_Some. apply Hlive. rewrite HK. set_solver. }
  assert (∀ q, head l2 = Some q → is_Some (nodes d !! q)) as Hn.
  { intros q [l' ->]%head_Some. apply Hlive. rewrite HK. set_solver. }
  unfold detach, index. rewrite Hr; cbn. rewrite Hrp, Hprev, Hnext. unfold detach_update.
  destruct (last l1) as [q|]; destruct (head l2) as [n|];
    (do 3 (rewrite modify_run by eauto 7 with blueice; cbn)); eexists; (split; [done|]);
    intros x; by rewrite !lookup_alter_at, <-!option_fmap_compose.
Qed.

Lemma detach_links_child p id l1 l2 k1 k2 x r :
  NoDup (l1 ++ id :: l2) → id ≠ x →
  l1 ++ id :: l2 = k1 ++ x :: k2 →
  r.(r_prev_sibling) = last k1 → r.(r_next_sibling) = head k2 →
  let r' := detach_update p id (last l1) (head l2) x r in
  ∃ k1' k2', l1 ++ l2 = k1' ++ x :: k2'
    ∧ r'.(r_prev_sibling) = last k1' ∧ r'.(r_next_sibling) = head k2'.
Proof.
  intros Hnd Hne HK Hprev Hnext. unfold detach_update.
  destruct (app_cons_cases _ _ _ _ _ _ Hne HK) as [(m & -> & ->)|(m & -> & ->)].
  - exists k1, (m ++ l2). rewrite <-app_assoc. split; [done|].
    assert (∀ n, head l2 = Some n → n ≠ x) as Hn.
    { intros n [l' ->]%head_Some ->. apply NoDup_app in Hnd as (_ & Hnd & _). set_solver. }
    rewrite last_app_cons. destruct (last_cons_some m x) as [q Hq]. rewrite Hq.
    destruct m as [|y m].
    + cbn in Hq. injection Hq as <-.
      destruct (head l2) as [n|] eqn:En; [specialize (Hn n eq_refl)|]; at_cases; cbn; done.
    + assert (q ≠ x).
      { apply NoDup_app in Hnd as (Hnd & _ & _). by eapply last_ne_NoDup. }
      destruct (head l2) as [n|]; [specialize (Hn n eq_refl)|]; at_cases; done.
  - exists (l1 ++ m), k2. rewrite <-app_assoc. split; [done|].
    assert (∀ q, last l1 = Some q → q ≠ x) as Hq.
    { intros q [l' ->]%last_Some ->. apply NoDup_app in Hnd as (_ & Hnd & _). set_solver. }
    rewrite last_app_cons in Hprev. destruct m as [|y m]; cbn [app head].
    + rewrite app_nil_r. cbn.
      destruct (last l1) as [q|]; [specialize (Hq q eq_refl)|]; at_cases; done.
    + assert (y ≠ x).
      { intros ->. apply NoDup_app in Hnd as (_ & _ & Hnd). apply NoDup_cons in Hnd as [_ Hnd].
        cbn in Hnd. apply NoDup_cons in Hnd. set_solver. }
      rewrite last_app_cons. rewrite last_cons_cons in Hprev.
      destruct (last l1) as [q|]; [specialize (Hq q eq_refl)|]; at_cases; done.
Qed.

Lemma detach_update_other p id prev next x r :
  x ≠ id → prev ≠ Some x → next ≠ Some x →
  let r' := detach_update p id prev next x r in
  r'.(r_prev_sibling) = r.(r_prev_sibling) ∧ r'.(r_next_sibling) = r.(r_next_sibling).
Proof. intros. unfold r', detach_update. destruct prev, next; at_cases; done. Qed.

Lemma detach_links d K p id l1 l2 x r :
  Linked d K → K p = l1 ++ id :: l2 → d.(nodes) !! x = Some r →
  links_ok (<[p := l1 ++ l2]> K) x (detach_update p id (last l1) (head l2) x r).
Proof.
  intros HR HK Hx.
  pose proof (rep_links _ _ HR _ _ Hx) as [Hf Hl Hs].
  pose proof (rep_nodup _ _ HR p) as Hnd.
  assert (∀ q, last l1 = Some q → q ∈ K p) as Hq.
  { intros q [l' ->]%last_Some. rewrite HK. set_solver. }
  assert (∀ n, head l2 = Some n → n ∈ K p) as Hn.
  { intros n [l' ->]%head_Some. rewrite HK. set_solver. }
  assert (id ∈ K p) as Hid by (rewrite HK; set_solver).
  split.
  - unfold detach_update. destruct (decide (x = p)) as [->|Hxp].
    + rewrite fn_lookup_insert. rewrite HK in Hf. destruct l1 as [|k l1].
      * cbn in *. destruct (head l2) as [n|]; at_cases; done.
      * destruct (last_cons_some l1 k) as [q Eq]. rewrite Eq in *.
        destruct (head l2) as [n|]; at_cases; done.
    + rewrite fn_lookup_insert_ne by done. destruct (last l1), (head l2); at_cases; done.
  - unfold detach_update. destruct (decide (x = p)) as [->|Hxp].
    + rewrite fn_lookup_insert. rewrite HK in Hl. destruct l2 as [|k l2].
      * cbn. rewrite app_nil_r. destruct (last l1) as [q|]; at_cases; done.
      * rewrite last_app_cons, last_cons_cons in Hl. rewrite last_app_cons. cbn [head].
        destruct (last l1) as [q|]; at_cases; done.
    + rewrite fn_lookup_insert_ne by done. destruct (last l1), (head l2); at_cases; done.
  - rewrite detach_update_parent. destruct (decide (id = x)) as [<-|Hix].
    + unfold detach_update. destruct (last l1), (head l2); at_cases; done.
    + destruct (r_parent r) as [q|] eqn:Eq.
      * destruct Hs as (k1 & k2 & HKq & Hprev & Hnext).
        destruct (decide (q = p)) as [->|Hqp].
        -- rewrite fn_lookup_insert. rewrite HK in HKq, Hnd.
           by eapply detach_links_child.
        -- rewrite fn_lookup_insert_ne by done. exists k1, k2. split; [done|].
           assert (∀ y, y ∈ K p → y ≠ x) as Hy.
           { intros y Hy ->. apply Hqp. eapply rep_parent_inj; [done| |exact Hy].
             unfold edge. rewrite HKq. set_solver. }
           destruct (detach_update_other p id (last l1) (head l2) x r) as [-> ->]; try done.
           ++ intros E. by apply (Hy x); [apply Hq|].
           ++ intros E. by apply (Hy x); [apply Hn|].
      * destruct Hs as [Hprev Hnext].
        assert (x ∉ K p) by by eapply detached_not_child.
        destruct (detach_update_other p id (last l1) (head l2) x r) as [-> ->]; try done; set_solver.
Qed.

Lemma detach_attached_linked d K p id l1 l2 :
  Linked d K → K p = l1 ++ id :: l2 →
  ∃ d', detach d id = Ok d' ∧ Linked d' (<[p := l1 ++ l2]> K) ∧ rewired d d'.
Proof.
  intros HR HK. destruct (detach_run d K p id l1 l2 HR HK) as (m' & -> & Hm).
  eexists; split; [done|].
  assert (∀ x, x ∈ l1 ++ l2 ↔ x ≠ id ∧ x ∈ K p) as Hin.
  { pose proof (rep_nodup _ _ HR p) as Hnd. rewrite HK in Hnd |- *.
    apply NoDup_app in Hnd as (? & ? & Hnd). apply NoDup_cons in Hnd. set_solver. }
  split; [|eapply rewired_intro; [done|intros; apply detach_update_data]].
  eapply Linked_relink; try done.
  - intros. by eapply detach_links.
  - intros q x. rewrite insert_edge. intros Hx.
    assert (x ∈ K q ∧ x ≠ id) as [Hx' Hne].
    { destruct (decide (p = q)) as [<-|]; [apply Hin in Hx; naive_solver|]. split; [done|].
      intros ->. assert (id ∈ K p) by (rewrite HK; set_solver).
      assert (p = q) by by apply (rep_parent_inj _ _ HR p q id). done. }
    destruct (rep_child _ _ HR _ _ Hx') as (r & ? & ?). exists r. split; [done|].
    by rewrite detach_update_parent, decide_False.
  - intros q Hq. rewrite fn_lookup_insert_ne; [by apply (rep_dom _ _ HR)|].
    intros ->. apply (rep_dom _ _ HR) in Hq. rewrite HK in Hq. by destruct l1.
  - intros q. destruct (decide (p = q)) as [<-|Hq].
    + rewrite fn_lookup_insert. pose proof (rep_nodup _ _ HR p) as Hnd. rewrite HK in Hnd.
      apply (NoDup_Permutation_proper _ (id :: l1 ++ l2)) in Hnd.
      * by apply NoDup_cons in Hnd as [_ ?].
      * by rewrite Permutation_middle.
    + rewrite fn_lookup_insert_ne by done. apply HR.
Qed.

Lemma detach_detached_spec d K id r :
  Linked d K → d.(nodes) !! id = Some r → r.(r_parent) = None → detach d id = Ok d.
Proof.
  intros HR Hr Hp. pose proof (lk_sib _ _ _ (rep_links _ _ HR _ _ Hr)) as Hs.
  rewrite Hp in Hs. destruct Hs as [Hprev Hnext].
  unfold detach, index. rewrite Hr; cbn. rewrite Hp, Hprev, Hnext; cbn.
  rewrite modify_run by eauto. cbn. f_equal. destruct d as [a m rt]. unfold with_nodes; cbn in *.
  f_equal. apply map_eq. intros x. rewrite lookup_alter_at. unfold at_id.
  destruct (decide (id = x)) as [<-|]; [|by destruct (m !! x)].
  rewrite Hr. unfold set_next_sibling, set_prev_sibling, set_parent. destruct r; cbn in *. congruence.
Qed.

(** Detaching in general: [id] leaves the child list it was in, if any. *)
Definition unlink (K : NodeId → list NodeId) (id : NodeId) : NodeId → list NodeId :=
  λ p, filter (λ x, x ≠ id) (K p).

Lemma Linked_ext d K K' : (∀ p, K p = K' p) → Linked d K → Linked d K'.
Proof.
  intros Heq HR. split.
  - intros x r Hr. destruct (rep_links _ _ HR _ _ Hr) as [? ? Hs]. split; rewrite <-?Heq; try done.
    destruct (r_parent r); [|done]. by rewrite <-Heq.
  - intros p c. rewrite <-Heq. apply HR.
  - intros p. rewrite <-Heq. apply HR.
  - intros p. rewrite <-Heq. apply HR.
  - apply HR.
Qed.

Lemma Rep_ext d K K' : (∀ p, K p = K' p) → Rep d K → Rep d K'.
Proof.
  intros Heq HR. split; [by eapply Linked_ext, HR|apply HR|].
  intros x Hx. apply (rep_acyclic _ _ HR x). eapply tc_edge_mono; [|exact Hx].
  intros p c. unfold edge. by rewrite Heq.
Qed.

Lemma filter_ne_id (l : list NodeId) x : x ∉ l → filter (λ y, y ≠ x) l = l.
Proof.
  induction l as [|y l IH]; [done|]. intros Hx. rewrite filter_cons_True by set_solver.
  f_equal. apply IH. set_solver.
Qed.

Lemma filter_split (l1 l2 : list NodeId) x :
  NoDup (l1 ++ x :: l2) → filter (λ y, y ≠ x) (l1 ++ x :: l2) = l1 ++ l2.
Proof.
  intros Hnd. apply NoDup_app in Hnd as (? & ? & Hnd). apply NoDup_cons in Hnd as [? ?].
  rewrite filter_app, filter_cons_False by naive_solver.
  rewrite !filter_ne_id; [done|done|set_solver].
Qed.

Lemma detach_linked d K id :
  Linked d K → live d id →
  ∃ d', detach d id = Ok d' ∧ Linked d' (unlink K id) ∧ rewired d d'.
Proof.
  intros HR [r Hr]. destruct (r_parent r) as [p|] eqn:Hp.
  - pose proof (lk_sib _ _ _ (rep_links _ _ HR _ _ Hr)) as Hs. rewrite Hp in Hs.
    destruct Hs as (l1 & l2 & HK & _ & _).
    destruct (detach_attached_linked d K p id l1 l2 HR HK) as (d' & ? & HR' & ?).
    exists d'. split_and!; try done. eapply Linked_ext; [|exact HR']. intros q. unfold unlink.
    pose proof (rep_nodup _ _ HR p) as Hnd. destruct (decide (p = q)) as [<-|Hne].
    + rewrite fn_lookup_insert, HK. rewrite HK in Hnd. by rewrite filter_split.
    + rewrite fn_lookup_insert_ne by done. rewrite filter_ne_id; [done|]. intros Hin.
      apply Hne. apply (rep_parent_inj _ _ HR p q id); [|done]. unfold edge. rewrite HK. set_solver.
  - exists d. rewrite (detach_detached_spec _ _ _ _ HR Hr Hp). split_and!; try done.
    eapply Linked_ext; [|exact HR]. intros q. unfold unlink. rewrite filter_ne_id; [done|].
    by eapply (detached_not_child _ _ HR).
Qed.

(** Taking edges away keeps a forest. *)
Lemma Rep_sub_edges d d' K K' :
  Rep d K → Linked d' K' → rewired d d' → (∀ q x, x ∈ K' q → x ∈ K q) → Rep d' K'.
Proof.
  intros HR HL Hrw Hsub. eapply Rep_rewired; try done.
  - intros r q Hr Hx%Hsub. by apply (root_not_child _ _ _ _ HR Hr) in Hx.
  - intros x Hx. apply (rep_acyclic _ _ HR x). eapply tc_edge_mono; [|exact Hx]. exact Hsub.
Qed.

Lemma detach_spec d K id :
  Rep d K → live d id →
  ∃ d', detach d id = Ok d' ∧ Rep d' (unlink K id) ∧ rewired d d'.
Proof.
  intros HR Hl. destruct (detach_linked d K id) as (d' & ? & HL & Hrw); [by apply HR|done|].
  exists d'. split_and!; [done| |done]. eapply Rep_sub_edges; try done.
  intros q x. unfold unlink. rewrite list_elem_of_filter. by intros [_ ?].
Qed.
