(* ===== verification/DomWalk.v ===== *)
(** * Walks over a well-formed document

    The child iterator, [free_subtree], [remove_subtree] and [dump] terminate
    within the bound of [Dom.walk_fuel] on every well-formed document, and
    compute what the abstract tree below a node says.  Only the part below the node has to be a
    tree: [remove_subtree] also terminates on a document with a cycle, since the node it frees is
    detached first. *)

From S2P Require Import Prelude Dom DomTree.

(** ** Abstract trees *)
#[local] Unset Elimination Schemes.
Inductive tree := Tree (tid : NodeId) (tdata : NodeData) (tkids : list tree).
#[local] Set Elimination Schemes.

Section tree_induction.
Context (P : tree → Prop) (step : ∀ id dt ts, Forall P ts → P (Tree id dt ts)).
Fixpoint tree_rose_ind (t : tree) : P t :=
  match t with
  | Tree id dt ts =>
      step id dt ts
        ((fix go (l : list tree) : Forall P l :=
            match l with [] => Forall_nil_2 P | t' :: l' => Forall_cons_2 P t' l' (tree_rose_ind t') (go l') end) ts)
  end.
End tree_induction.

Definition tid (t : tree) : NodeId := match t with Tree id _ _ => id end.
Definition tdata (t : tree) : NodeData := match t with Tree _ dt _ => dt end.
Definition tkids (t : tree) : list tree := match t with Tree _ _ ts => ts end.

Fixpoint ids (t : tree) : list NodeId :=
  match t with Tree id _ ts => id :: mjoin (ids <$> ts) end.

Lemma elem_of_ids_kids x ts : x ∈ mjoin (ids <$> ts) ↔ ∃ t, t ∈ ts ∧ x ∈ ids t.
Proof.
  rewrite list_elem_of_join. setoid_rewrite list_elem_of_fmap. naive_solver.
Qed.

Lemma length_ids_kid t ts : t ∈ ts → length (ids t) ≤ length (mjoin (ids <$> ts)).
Proof.
  induction ts as [|u ts IH]; [set_solver|]. csimpl. rewrite length_app.
  intros [->|Hin]%elem_of_cons; [lia|]. specialize (IH Hin). lia.
Qed.

Lemma length_kids ts : length ts ≤ length (mjoin (ids <$> ts)).
Proof.
  induction ts as [|u ts IH]; [done|]. csimpl. rewrite length_app. destruct u; csimpl. lia.
Qed.

(** The tree that the child lists [K] unfold below a node. *)
#[local] Unset Elimination Schemes.
Inductive unfolds (m : gmap NodeId NodeRecord) (K : NodeId → list NodeId) : tree → Prop :=
  | unfolds_intro id r ts :
      m !! id = Some r → tid <$> ts = K id → Forall (unfolds m K) ts →
      unfolds m K (Tree id r.(r_data) ts).
#[local] Set Elimination Schemes.

Lemma tc_last {A} (R : relation A) x y : tc R x y → ∃ z, R z y.
Proof. induction 1; eauto. Qed.

Lemma tc_inv_r {A} (R : relation A) x y : tc R x y → R x y ∨ ∃ z, tc R x z ∧ R z y.
Proof.
  induction 1 as [x y Hxy|x y z Hxy _ [Hyz|(w & Hyw & Hwz)]]; [by left|right..].
  - exists y. split; [by apply tc_once|done].
  - exists w. split; [by eapply tc_l|done].
Qed.

Section unfolding.
Context (d : Document) (K : NodeId → list NodeId) (HR : Linked d K).

(** No cycle is reachable from [x] by child edges. *)
Definition acyclic_below (x : NodeId) : Prop := ∀ y, rtc (edge K) x y → ¬ tc (edge K) y y.

Lemma acyclic_below_edge x y : edge K x y → acyclic_below x → acyclic_below y.
Proof. intros Hxy Hx z Hz. apply Hx. by eapply rtc_l. Qed.

(** A node without a parent is on no cycle, and parents are unique, so no cycle is below it. *)
Lemma detached_acyclic_below x : (∀ p, x ∉ K p) → acyclic_below x.
Proof.
  intros Hx y Hy. revert y Hy. apply rtc_ind_r.
  - intros (z & Hz)%tc_last. by apply Hx in Hz.
  - intros y z _ Hyz IH Hz. apply IH. apply tc_inv_r in Hz as [Hz|(w & Hzw & Hwz)].
    + rewrite (rep_parent_inj _ _ HR _ _ _ Hyz Hz). by apply tc_once.
    + rewrite (rep_parent_inj _ _ HR _ _ _ Hwz Hyz) in Hzw. by eapply tc_l.
Qed.

Lemma edge_sn x : sn (λ y z, acyclic_below y ∧ edge K y z) x.
Proof.
  apply tc_finite_sn.
  - intros y Hy.
    assert (∀ a b, tc (λ y z, acyclic_below y ∧ edge K y z) a b → acyclic_below a ∧ tc (edge K) a b) as Hsub.
    { induction 1 as [a b [? ?]|a b c [? ?] _ [_ ?]]; (split; [done|]); [by apply tc_once|by eapply tc_l]. }
    apply Hsub in Hy as [Hac Hyy]. by apply (Hac y).
  - exists (elements (dom (nodes d))). intros y Hy. apply elem_of_elements, elem_of_dom.
    apply tc_last in Hy as (z & _ & Hz). exact (proj2 (rep_edge_live _ _ HR _ _ Hz)).
Qed.

Lemma unfolds_exists_below id :
  live d id → acyclic_below id → ∃ t, unfolds (nodes d) K t ∧ tid t = id.
Proof.
  induction (edge_sn id) as [id _ IH]. intros [r Hr] Hac.
  assert (∃ ts, tid <$> ts = K id ∧ Forall (unfolds (nodes d) K) ts) as (ts & Hts & Hall).
  { assert (∀ c, c ∈ K id → ∃ t, unfolds (nodes d) K t ∧ tid t = c) as Hkid.
    { intros c Hc. apply IH; [done|exact (proj2 (rep_edge_live _ _ HR _ _ Hc))|].
      by eapply acyclic_below_edge. }
    clear IH Hac. induction (K id) as [|c l IHl].
    - by exists [].
    - destruct (Hkid c) as (t & Ht & <-); [set_solver|].
      destruct IHl as (ts & <- & Hall); [set_solver|]. exists (t :: ts). split; [done|].
      by constructor. }
  exists (Tree id (r_data r) ts). split; [|done]. by constructor.
Qed.

Lemma unfolds_ids t x : unfolds (nodes d) K t → x ∈ ids t ↔ rtc (edge K) (tid t) x.
Proof.
  induction t as [id dt ts IH] using tree_rose_ind. inversion 1 as [? r ? Hr Hts Hall]; subst. cbn.
  rewrite elem_of_cons, elem_of_ids_kids. split.
  - intros [->|(t & Hin & Hx)]; [done|]. rewrite Forall_forall in IH, Hall.
    apply IH in Hx; [|done|by apply Hall]. eapply rtc_l; [|exact Hx]. unfold edge.
    rewrite <-Hts. apply list_elem_of_fmap. eauto.
  - intros Hx. inversion Hx as [|? c ? Hc Hrest]; subst; [by left|right].
    unfold edge in Hc. rewrite <-Hts in Hc. apply list_elem_of_fmap in Hc as (t & -> & Hin).
    rewrite Forall_forall in IH, Hall. exists t. split; [done|]. apply IH; auto.
Qed.

Lemma unfolds_live t x : unfolds (nodes d) K t → x ∈ ids t → live d x.
Proof.
  intros Ht Hx. apply (unfolds_ids _ _ Ht) in Hx. apply rtc_inv_r in Hx as [<-|(y & _ & Hy)].
  - destruct Ht as [id r ts Hr _ _]. by exists r.
  - exact (proj2 (rep_edge_live _ _ HR _ _ Hy)).
Qed.

(** Subtrees of distinct children of a node are disjoint. *)
Lemma siblings_disjoint p a b x :
  acyclic_below p →
  edge K p a → edge K p b → a ≠ b → rtc (edge K) a x → rtc (edge K) b x → False.
Proof.
  intros Hac.
  assert (∀ a b, edge K p a → edge K p b → a ≠ b → rtc (edge K) a b → False) as Hno.
  { intros a' b' Ha Hb Hne Hab. apply rtc_inv_r in Hab as [->|(q & Haq & Hqb)]; [done|].
    pose proof (rep_parent_inj _ _ HR _ _ _ Hqb Hb) as ->.
    apply (Hac p); [done|]. apply (tc_rtc_r _ a' _); [by apply tc_once|exact Haq]. }
  intros Ha Hb Hne Hax Hbx.
  destruct (rep_paths_nested _ _ HR _ _ _ Hax Hbx); eauto.
Qed.

Lemma unfolds_NoDup_below t : unfolds (nodes d) K t → acyclic_below (tid t) → NoDup (ids t).
Proof.
  induction t as [id dt ts IH] using tree_rose_ind. intros Ht Hac. cbn [tid] in Hac. pose proof Ht as Ht'.
  inversion Ht as [? r ? Hr Hts Hall]; subst. cbn. apply NoDup_cons. split.
  - rewrite elem_of_ids_kids. intros (t & Hin & Hx). rewrite Forall_forall in Hall.
    apply (unfolds_ids _ _ (Hall _ Hin)) in Hx. apply (Hac id); [done|].
    eapply tc_rtc_r; [|exact Hx]. apply tc_once. unfold edge. rewrite <-Hts.
    apply list_elem_of_fmap. eauto.
  - pose proof (rep_nodup _ _ HR id) as Hnd. rewrite <-Hts in Hnd.
    assert (∀ c, c ∈ tid <$> ts → edge K id c) as Hedge by (unfold edge; by rewrite <-Hts).
    clear Hts Ht Ht'. induction ts as [|t ts IHts]; [constructor|]. cbn in *.
    apply Forall_cons in IH as [IHt IH]. apply Forall_cons in Hall as [Hu Hall].
    apply NoDup_cons in Hnd as [Hnin Hnd]. apply NoDup_app. split_and!.
    + apply IHt; [done|]. eapply acyclic_below_edge; [|exact Hac]. apply Hedge. set_solver.
    + intros x Hx. rewrite elem_of_ids_kids. intros (u & Hin & Hxu).
      rewrite Forall_forall in Hall. apply (unfolds_ids _ _ Hu) in Hx.
      apply (unfolds_ids _ _ (Hall _ Hin)) in Hxu.
      assert (tid u ∈ tid <$> ts) by (apply list_elem_of_fmap; eauto).
      eapply (siblings_disjoint id (tid t) (tid u)); [exact Hac|..|exact Hx|exact Hxu];
        [apply Hedge; set_solver|apply Hedge; set_solver|]. intros E. rewrite E in Hnin. done.
    + apply IHts; try done. intros c Hc. apply Hedge. set_solver.
Qed.

Lemma NoDup_live_length l : NoDup l → (∀ x, x ∈ l → live d x) → length l ≤ size (nodes d).
Proof.
  intros Hnd Hl. rewrite <-size_dom.
  replace (length l) with (size (list_to_set l : gset NodeId)) by by rewrite size_list_to_set.
  apply subseteq_size. intros x Hx%elem_of_list_to_set. apply elem_of_dom, Hl, Hx.
Qed.

Lemma unfolds_size_below t :
  unfolds (nodes d) K t → acyclic_below (tid t) → length (ids t) ≤ size (nodes d).
Proof.
  intros Ht Hac. apply NoDup_live_length; [by apply unfolds_NoDup_below|].
  intros x. by apply unfolds_live.
Qed.
End unfolding.

(** On a forest nothing is on a cycle. *)
Section forest.
Context (d : Document) (K : NodeId → list NodeId) (HR : Rep d K).

Lemma rep_acyclic_below x : acyclic_below K x.
Proof. intros y _. apply (rep_acyclic _ _ HR). Qed.

Lemma unfolds_exists id : live d id → ∃ t, unfolds (nodes d) K t ∧ tid t = id.
Proof. intros Hl. apply unfolds_exists_below; [apply HR|done|apply rep_acyclic_below]. Qed.

Lemma unfolds_NoDup t : unfolds (nodes d) K t → NoDup (ids t).
Proof. intros Ht. eapply (unfolds_NoDup_below d); [apply HR|done|apply rep_acyclic_below]. Qed.

Lemma unfolds_size t : unfolds (nodes d) K t → length (ids t) ≤ size (nodes d).
Proof. intros Ht. eapply unfolds_size_below; [apply HR|done|apply rep_acyclic_below]. Qed.
End forest.

(** ** The child iterator *)
Lemma siblings_from_spec d K p l1 l2 fuel :
  Linked d K → K p = l1 ++ l2 → length l2 ≤ fuel →
  siblings_from fuel d (head l2) = Ok l2.
Proof.
  intros HR. revert l1 fuel. induction l2 as [|x l2 IH]; intros l1 fuel HK Hlen; [by destruct fuel|].
  destruct fuel as [|fuel]; [cbn in Hlen; lia|]. cbn.
  assert (x ∈ K p) as Hin by (rewrite HK; set_solver).
  destruct (rep_child _ _ HR _ _ Hin) as (r & Hr & Hp).
  pose proof (lk_sib _ _ _ (rep_links _ _ HR _ _ Hr)) as Hs. rewrite Hp in Hs.
  destruct Hs as (k1 & k2 & HK' & _ & Hnext). pose proof (rep_nodup _ _ HR p) as Hnd.
  rewrite HK in HK', Hnd. destruct (app_cons_inj_NoDup _ _ _ _ _ Hnd HK') as [<- <-].
  unfold next_sibling, index. rewrite Hr. cbn. rewrite Hnext.
  rewrite (IH (l1 ++ [x]) fuel); [done| |cbn in Hlen; lia].
  by rewrite HK, <-app_assoc.
Qed.

Lemma children_K d K id : Linked d K → live d id → children d id = Ok (K id).
Proof.
  intros HR [r Hr]. unfold children, first_child, index. rewrite Hr. cbn [unwrap mbind res_bind].
  rewrite (lk_first _ _ _ (rep_links _ _ HR _ _ Hr)).
  apply (siblings_from_spec d K id []); [done..|]. unfold walk_fuel.
  pose proof (NoDup_live_length d (K id) (rep_nodup _ _ HR id)) as Hlen.
  apply Nat.le_trans with (size (nodes d)); [|lia]. apply Hlen.
  intros x Hx. exact (proj2 (rep_edge_live _ _ HR _ _ Hx)).
Qed.

(** ** Freeing *)

(** The forward links [free_subtree] follows: first child, then next siblings. *)
Fixpoint forest_links (P : tree → Prop) (m : gmap NodeId NodeRecord) (ts : list tree)
    (o : option NodeId) : Prop :=
  match ts with
  | [] => o = None
  | t :: ts' => ∃ r, o = Some (tid t) ∧ m !! tid t = Some r ∧ P t
                     ∧ forest_links P m ts' r.(r_next_sibling)
  end.
Fixpoint linked (m : gmap NodeId NodeRecord) (t : tree) : Prop :=
  match t with
  | Tree id _ ts => ∃ r, m !! id = Some r ∧ forest_links (linked m) m ts r.(r_first_child)
  end.

Lemma tid_in_ids t : tid t ∈ ids t.
Proof. destruct t; cbn. set_solver. Qed.

Lemma linked_frame m m' t :
  (∀ x, x ∈ ids t → m' !! x = m !! x) → linked m t → linked m' t.
Proof.
  induction t as [id dt ts IH] using tree_rose_ind. intros Heq (r & Hr & Hfl).
  exists r. split; [rewrite Heq; [done|set_solver]|].
  assert (∀ x, x ∈ mjoin (ids <$> ts) → m' !! x = m !! x) as Heq' by (intros; apply Heq; set_solver).
  clear Heq Hr. revert Hfl Heq'. generalize (r_first_child r) as o.
  induction ts as [|t ts IHts]; intros o; [done|]. apply Forall_cons in IH as [IHt IH].
  cbn [forest_links]. intros (r' & -> & Hr' & Ht & Hfl) Heq. csimpl in Heq. exists r'.
  pose proof (tid_in_ids t). split_and!; [done|rewrite Heq; [done|set_solver]| |].
  - apply IHt; [|done]. intros; apply Heq; set_solver.
  - apply IHts; [done..|]. intros; apply Heq; set_solver.
Qed.

Lemma forest_links_frame m m' ts o :
  (∀ x, x ∈ mjoin (ids <$> ts) → m' !! x = m !! x) →
  forest_links (linked m) m ts o → forest_links (linked m') m' ts o.
Proof.
  revert o; induction ts as [|t ts IH]; intros o Heq; [done|]. csimpl in Heq.
  intros (r' & -> & Hr' & Ht & Hfl). pose proof (tid_in_ids t). exists r'.
  split_and!; [done|rewrite Heq; [done|set_solver]| |].
  - eapply linked_frame; [|done]. intros; apply Heq; set_solver.
  - apply IH; [|done]. intros; apply Heq; set_solver.
Qed.

(** [m'] is [m] without the ids of [l]. *)
Definition freed (m m' : gmap NodeId NodeRecord) (l : list NodeId) : Prop :=
  ∀ x, m' !! x = if decide (x ∈ l) then None else m !! x.

Lemma free_loop_freed free ts m o n :
  (∀ t m, t ∈ ts → linked m t → ∃ m', free m (tid t) = Ok m' ∧ freed m m' (ids t)) →
  NoDup (mjoin (ids <$> ts)) → length ts ≤ n →
  forest_links (linked m) m ts o →
  ∃ m', free_loop free n m o = Ok m' ∧ freed m m' (mjoin (ids <$> ts)).
Proof.
  intros Hfree. revert m o n. induction ts as [|t ts IH]; intros m o n Hnd Hlen Hfl.
  - cbn in Hfl. subst o. exists m. split; [by destruct n|]. intros x. by rewrite decide_False by set_solver.
  - destruct n as [|n]; [cbn in Hlen; lia|]. destruct Hfl as (r & -> & Hr & Ht & Hfl).
    csimpl in Hnd. apply NoDup_app in Hnd as (Hndt & Hdisj & Hnd).
    destruct (Hfree t m) as (m1 & Hm1 & Hf1); [set_solver|done|].
    destruct (IH (λ t m Hin, Hfree t m (list_elem_of_further _ _ _ Hin)) m1 (r_next_sibling r) n)
      as (m2 & Hm2 & Hf2); [done|cbn in Hlen; lia| |].
    { eapply forest_links_frame; [|exact Hfl]. intros x Hx. rewrite Hf1.
      rewrite decide_False; [done|]. intros Hx'. by apply (Hdisj x). }
    exists m2. split.
    + cbn. unfold index. rewrite Hr. cbn. rewrite Hm1. cbn. done.
    + intros x. csimpl. rewrite Hf2, Hf1. repeat case_decide; set_solver.
Qed.

Lemma free_subtree_freed t m fuel :
  linked m t → NoDup (ids t) → length (ids t) ≤ fuel →
  ∃ m', free_subtree fuel m (tid t) = Ok m' ∧ freed m m' (ids t).
Proof.
  revert m fuel. induction t as [id dt ts IH] using tree_rose_ind. intros m fuel Hl Hnd Hlen.
  destruct fuel as [|fuel]; [csimpl in Hlen; lia|]. destruct Hl as (r & Hr & Hfl).
  csimpl in Hnd. apply NoDup_cons in Hnd as [Hid Hnd]. csimpl in Hlen.
  destruct (free_loop_freed (free_subtree fuel) ts m (r_first_child r) (S fuel))
    as (m' & Hm' & Hf).
  - intros t m0 Hin Ht. rewrite Forall_forall in IH. apply IH; [done..| |].
    + clear -Hnd Hin. induction ts as [|u ts IHts]; [set_solver|]. csimpl in Hnd.
      apply NoDup_app in Hnd as (? & ? & ?). apply elem_of_cons in Hin as [->|Hin]; [done|].
      by apply IHts.
    + pose proof (length_ids_kid _ _ Hin). lia.
  - done.
  - pose proof (length_kids ts). lia.
  - done.
  - exists (delete id m'). split.
    + cbn [free_subtree tid]. rewrite Hr. cbn [mbind option_bind].
      by rewrite Hm'.
    + intros x. csimpl. rewrite lookup_delete, Hf. repeat case_decide; set_solver.
Qed.

Lemma unfolds_linked d K t : Linked d K → unfolds d.(nodes) K t → linked d.(nodes) t.
Proof.
  intros HR. induction t as [id dt ts IH] using tree_rose_ind.
  inversion 1 as [? r ? Hr Hts Hall]; subst. exists r. split; [done|].
  rewrite (lk_first _ _ _ (rep_links _ _ HR _ _ Hr)).
  assert (K id = [] ++ (tid <$> ts)) as HK by done. rewrite HK. cbn [app]. clear Hr Hts H.
  revert HK. generalize (@nil NodeId) as l1.
  induction ts as [|t ts IHts]; intros l1 HK; [done|]. cbn [forest_links].
  apply Forall_cons in IH as [IHt IH]. apply Forall_cons in Hall as [Hu Hall].
  assert (tid t ∈ K id) as Hin by (rewrite HK; set_solver).
  destruct (rep_child _ _ HR _ _ Hin) as (r' & Hr' & Hp).
  pose proof (lk_sib _ _ _ (rep_links _ _ HR _ _ Hr')) as Hs. rewrite Hp in Hs.
  destruct Hs as (k1 & k2 & HK' & _ & Hnext). pose proof (rep_nodup _ _ HR id) as Hnd.
  rewrite HK in HK', Hnd. csimpl in HK'. csimpl in Hnd.
  destruct (app_cons_inj_NoDup _ _ _ _ _ Hnd HK') as [<- <-].
  exists r'. split_and!; [done..|by apply IHt|]. rewrite Hnext.
  apply (IHts IH Hall (l1 ++ [tid t])). by rewrite <-app_assoc.
Qed.

(** ** [remove_subtree] *)
Lemma unlink_reach K id x : rtc (edge (unlink K id)) id x ↔ rtc (edge K) id x.
Proof.
  split.
  - apply rtc_subrel. intros p c. unfold edge, unlink. rewrite list_elem_of_filter. tauto.
  - revert x. apply rtc_ind_r; [done|]. intros y z _ Hyz IH.
    destruct (decide (z = id)) as [->|]; [done|]. eapply rtc_r; [exact IH|].
    unfold edge, unlink in *. rewrite list_elem_of_filter. done.
Qed.

(** Child lists after the inclusive descendants [S] of a detached node go. *)
Definition prune (K : NodeId → list NodeId) (S : list NodeId) : NodeId → list NodeId :=
  λ p, if decide (p ∈ S) then [] else K p.

Lemma prune_linked d K id S m' :
  Linked d K → (∀ x, x ∈ S ↔ rtc (edge K) id x) → (∀ p, id ∉ K p) → freed d.(nodes) m' S →
  Linked (with_nodes d m') (prune K S).
Proof.
  intros HR HS Hid Hf.
  assert (∀ x r, m' !! x = Some r ↔ x ∉ S ∧ nodes d !! x = Some r) as Hm.
  { intros x r. rewrite Hf. case_decide; naive_solver. }
  assert (∀ p c, edge K p c → c ∈ S → p ∈ S) as Hup.
  { intros p c Hpc Hc. apply HS in Hc. apply rtc_inv_r in Hc as [<-|(q & Hq & Hqc)].
    - by apply Hid in Hpc.
    - rewrite (rep_parent_inj _ _ HR _ _ _ Hpc Hqc). by apply HS. }
  assert (∀ p c, edge K p c → p ∈ S → c ∈ S) as Hdown.
  { intros p c Hpc Hp. apply HS. apply HS in Hp. eapply rtc_r; eauto. }
  unfold prune. split; cbn.
  - intros x r [Hx Hr]%Hm. destruct (rep_links _ _ HR _ _ Hr) as [? ? Hs].
    split; rewrite ?decide_False by done; try done.
    destruct (r_parent r) as [p|]; [|done]. destruct Hs as (l1 & l2 & HK & ?).
    rewrite decide_False; [by exists l1, l2|]. intros Hp. apply Hx, (Hdown p); [|done].
    unfold edge. rewrite HK. set_solver.
  - intros p c Hc. case_decide; [set_solver|].
    destruct (rep_child _ _ HR _ _ Hc) as (r & Hr & ?). exists r. rewrite Hm.
    split_and!; [|done..]. intros Hcs. by apply (Hup p c) in Hcs.
  - intros p Hp. case_decide; [done|]. apply (rep_dom _ _ HR).
    destruct (nodes d !! p) as [r|] eqn:E; [|done].
    assert (m' !! p = Some r) by (apply Hm; done). congruence.
  - intros p. case_decide; [constructor|apply HR].
  - intros x r [_ Hr]%Hm. by apply (rep_fresh _ _ HR _ _ Hr).
Qed.

(** [remove_subtree] on any document with consistent links, cyclic or not: it returns, and frees
    what is reachable from the node. *)
Lemma remove_subtree_linked d K id :
  Linked d K → live d id →
  ∃ d' S, remove_subtree d id = Ok d'
    ∧ (∀ x, x ∈ S ↔ inclusive_ancestor d id x)
    ∧ Linked d' (prune (unlink K id) S)
    ∧ d'.(allocator) = d.(allocator) ∧ d'.(doc_root) = d.(doc_root)
    ∧ (∀ x, r_data <$> d'.(nodes) !! x
            = if decide (x ∈ S) then None else r_data <$> d.(nodes) !! x).
Proof.
  intros HR Hl.
  destruct (detach_linked d K id HR Hl) as (d1 & Hd1 & HR1 & Ha & Hrt & Hdata).
  assert (live d1 id) as Hl1.
  { destruct Hl as [r Hr]. specialize (Hdata id). rewrite Hr in Hdata.
    apply fmap_Some in Hdata as (r' & ? & _). by exists r'. }
  assert (∀ p, id ∉ unlink K id p) as Hno.
  { intros p. unfold unlink. rewrite list_elem_of_filter. naive_solver. }
  pose proof (detached_acyclic_below d1 _ HR1 id Hno) as Hac.
  destruct (unfolds_exists_below d1 _ HR1 id Hl1 Hac) as (t & Ht & <-).
  destruct (free_subtree_freed t (nodes d1) (walk_fuel d1)) as (m' & Hm' & Hf).
  { by eapply unfolds_linked. }
  { by eapply unfolds_NoDup_below. }
  { unfold walk_fuel. pose proof (unfolds_size_below d1 _ HR1 t Ht Hac). lia. }
  exists (with_nodes d1 m'), (ids t).
  assert (∀ x, x ∈ ids t ↔ rtc (edge (unlink K (tid t))) (tid t) x) as HS
    by (intros x; by eapply unfolds_ids).
  split_and!.
  - unfold remove_subtree. rewrite Hd1. cbn [mbind res_bind]. by rewrite Hm'.
  - intros x. rewrite HS, unlink_reach. by rewrite (rep_inclusive_ancestor _ _ HR).
  - by eapply prune_linked.
  - done.
  - done.
  - intros x. cbn. rewrite Hf. rewrite <-Hdata. by case_decide.
Qed.

Lemma remove_subtree_spec d K id :
  Rep d K → live d id → d.(doc_root) ≠ Some id →
  ∃ d' S, remove_subtree d id = Ok d'
    ∧ (∀ x, x ∈ S ↔ inclusive_ancestor d id x)
    ∧ Rep d' (prune (unlink K id) S)
    ∧ d'.(allocator) = d.(allocator) ∧ d'.(doc_root) = d.(doc_root)
    ∧ (∀ x, r_data <$> d'.(nodes) !! x
            = if decide (x ∈ S) then None else r_data <$> d.(nodes) !! x).
Proof.
  intros HR Hl Hroot.
  destruct (remove_subtree_linked d K id) as (d' & S & ? & HS & HL & ? & Hrt & Hdata); [apply HR|done|].
  exists d', S. split_and!; try done.
  assert (∀ q x, x ∈ prune (unlink K id) S q → x ∈ K q) as Hsub.
  { intros q x. unfold prune, unlink. case_decide; [set_solver|]. rewrite list_elem_of_filter. tauto. }
  split; [done| |].
  - destruct (rep_root _ _ HR) as (r & rec & Hr & Hrec & Hdt & _). specialize (Hdata r).
    rewrite decide_False, Hrec in Hdata.
    2: { rewrite HS, (rep_inclusive_ancestor _ _ HR). intros Hreach.
         apply rtc_inv_r in Hreach as [->|(q & _ & Hq)]; [done|].
         by apply (root_not_child _ _ _ _ HR Hr) in Hq. }
    apply fmap_Some in Hdata as (rec' & Hrec' & Hdt'). exists r, rec'. rewrite Hrt.
    split_and!; [done..|congruence|]. destruct (r_parent rec') as [p|] eqn:Hp; [|done].
    destruct (root_not_child _ _ _ p HR Hr). apply Hsub, (rep_parent_edge _ _ HL). by exists rec'.
  - intros x Hx. apply (rep_acyclic _ _ HR x). eapply tc_edge_mono; [exact Hsub|exact Hx].
Qed.

(** ** [dump] *)
Fixpoint dump_tree (depth : nat) (t : tree) : res (list N) :=
  match t with
  | Tree _ NDocument _ => Panic
  | Tree _ (NElement tag attrs) ts =>
      outs ← mapM (dump_tree (S depth)) ts;
      Ok ((str "| " ++ indent depth ++ str "<" ++ tag ++ str ">" ++ [10%N])
          ++ mjoin (dump_attr depth <$> stable_sort attr_leb attrs) ++ mjoin outs)
  | Tree _ (NText s) _ => Ok (str "| " ++ indent depth ++ [DQUOTE] ++ s ++ [DQUOTE; 10%N])
  end.

Lemma mapM_ext_tree {A} (f : NodeId → res A) (g : tree → res A) ts :
  Forall (λ t, f (tid t) = g t) ts → mapM f (tid <$> ts) = mapM g ts.
Proof. induction 1 as [|t ts Ht _ IH]; [done|]. cbn. by rewrite Ht, IH. Qed.

Lemma dump_node_tree d K t depth fuel :
  Rep d K → unfolds d.(nodes) K t → length (ids t) ≤ fuel →
  dump_node fuel d (tid t) depth = dump_tree depth t.
Proof.
  intros HR. revert depth fuel. induction t as [id dt ts IH] using tree_rose_ind.
  intros depth fuel Hu Hlen. destruct fuel as [|fuel]; [csimpl in Hlen; lia|].
  inversion Hu as [? r ? Hr Hts Hall]; subst. cbn [dump_node tid]. unfold data, index.
  rewrite Hr. cbn [unwrap mbind res_bind dump_tree]. destruct (r_data r) as [|tag attrs|s]; [done| |done].
  rewrite (children_K d K) by (eauto; by exists r). cbn [mbind res_bind]. rewrite <-Hts.
  rewrite (mapM_ext_tree _ (dump_tree (S depth))); [done|].
  rewrite Forall_forall in IH, Hall |- *. intros t Hin. apply IH; [done|by apply Hall|].
  csimpl in Hlen. pose proof (length_ids_kid _ _ Hin). lia.
Qed.

Lemma dump_tree_of d K t rt :
  Rep d K → unfolds d.(nodes) K t → d.(doc_root) = Some rt → tid t = rt →
  dump d = (mjoin <$> mapM (dump_tree 0) (tkids t)).
Proof.
  intros HR Hu Hrt <-. unfold dump, root. rewrite Hrt. cbn [unwrap mbind res_bind].
  destruct t as [id dt ts]. inversion Hu as [? r ? Hr Hts Hall]; subst. cbn [tid tkids].
  rewrite (children_K d K) by (eauto; by exists r). cbn [mbind res_bind]. rewrite <-Hts.
  rewrite (mapM_ext_tree _ (dump_tree 0)); [by destruct (mapM _ _)|].
  rewrite Forall_forall in Hall |- *. intros t Hin. eapply dump_node_tree; [done|by apply Hall|].
  unfold walk_fuel. pose proof (unfolds_size d K HR t (Hall _ Hin)). lia.
Qed.
