(* ===== verification/DomOps.v ===== *)
(** * The contract of [Document]

    Runs of the document operations from a fresh document, the invariants they
    keep, and what a caller observes of each operation through [children],
    [contains] and [data].  [apply_op] is any call with any arguments; [proper] says when a call
    keeps a document well formed, and [doc_step] is a successful proper call, the step of the
    callers that look before they link. *)

From S2P Require Import Prelude Dom DomTree DomWalk.

(** A document is well formed when its links represent some forest. *)
Definition WF (d : Document) : Prop := ∃ K, Rep d K.

(** ** Runs

    One successful proper call of an operation.  [append_child] and [insert_before] do
    not check that the new child is not the document root nor an ancestor of its
    new parent; it is part of this step, and [reachable_documents_well_formed] says what holds
    without it. *)
Inductive doc_step : Document → Document → Prop :=
  | step_create d dt id d' : create_node d dt = Ok (id, d') → doc_step d d'
  | step_append d p c d' :
      ¬ inclusive_ancestor d c p → d.(doc_root) ≠ Some c →
      append_child d p c = Ok d' → doc_step d d'
  | step_insert d p c ref d' :
      ¬ inclusive_ancestor d c p → d.(doc_root) ≠ Some c →
      insert_before d p c ref = Ok d' → doc_step d d'
  | step_detach d id d' : detach d id = Ok d' → doc_step d d'
  | step_remove d id d' :
      d.(doc_root) ≠ Some id → remove_subtree d id = Ok d' → doc_step d d'
  | step_data d id f d' :
      d.(doc_root) ≠ Some id → data_mut d id f = Ok d' → doc_step d d'.

Definition reachable (d : Document) : Prop :=
  ∃ n d0, new_continuing_from n = Ok d0 ∧ rtc doc_step d0 d.

(** ** What a successful call says about its arguments *)
Lemma index_Ok m id r : index m id = Ok r ↔ m !! id = Some r.
Proof. apply unwrap_Ok. Qed.

Lemma append_child_Ok d p c d' :
  append_child d p c = Ok d' →
  live d p ∧ ∃ rc, d.(nodes) !! c = Some rc ∧ rc.(r_parent) = None.
Proof.
  unfold append_child. intros H. apply bind_Ok in H as (rc & Hc%index_Ok & H).
  destruct (r_parent rc) eqn:Hpar; [done|]. apply bind_Ok in H as (rp & Hp%index_Ok & _).
  split; [by exists rp|eauto].
Qed.

Lemma insert_before_Ok d p c ref d' :
  insert_before d p c (Some ref) = Ok d' →
  (∃ rc, d.(nodes) !! c = Some rc ∧ rc.(r_parent) = None)
  ∧ ∃ rr, d.(nodes) !! ref = Some rr ∧ rr.(r_parent) = Some p.
Proof.
  unfold insert_before. intros H. apply bind_Ok in H as (rc & Hc%index_Ok & H).
  destruct (r_parent rc) eqn:Hpar; [done|]. apply bind_Ok in H as (rr & Hr%index_Ok & H).
  case_decide; [|done]. eauto 6.
Qed.

Lemma detach_Ok d id d' : detach d id = Ok d' → live d id.
Proof. unfold detach. intros H. apply bind_Ok in H as (r & Hr%index_Ok & _). by exists r. Qed.

Lemma create_node_Ok d dt id d' :
  create_node d dt = Ok (id, d') →
  id = next_node_id d ∧ (next_node_id d < U64_MAX)%N ∧ next_node_id d' = (next_node_id d + 1)%N
  ∧ d'.(nodes) = <[id := detached_record dt]> d.(nodes).
Proof.
  unfold create_node, allocate, next_node_id. intros H.
  apply bind_Ok in H as ([i a] & H & [= <- <-]).
  apply bind_Ok in H as (n & Hn%checked_add_N_Ok & [= <- <-]). destruct Hn as [-> Hn].
  cbn. split_and!; [done|lia|done|done].
Qed.

Lemma rep_reference d K p ref rr :
  Linked d K → d.(nodes) !! ref = Some rr → rr.(r_parent) = Some p →
  ∃ l1 l2, K p = l1 ++ ref :: l2.
Proof.
  intros HR Hr Hp. pose proof (lk_sib _ _ _ (rep_links _ _ HR _ _ Hr)) as Hs.
  rewrite Hp in Hs. destruct Hs as (l1 & l2 & ? & _). eauto.
Qed.

(** ** Any call *)
Inductive doc_op :=
  | OpCreate (dt : NodeData)
  | OpAppend (p c : NodeId)
  | OpInsert (p c : NodeId) (ref : option NodeId)
  | OpDetach (id : NodeId)
  | OpRemove (id : NodeId)
  | OpSetData (id : NodeId) (dt : NodeData).

Definition apply_op (d : Document) (o : doc_op) : res Document :=
  match o with
  | OpCreate dt => '(_, d') ← create_node d dt; Ok d'
  | OpAppend p c => append_child d p c
  | OpInsert p c ref => insert_before d p c ref
  | OpDetach id => detach d id
  | OpRemove id => remove_subtree d id
  | OpSetData id dt => data_mut d id (λ _, dt)
  end.

Fixpoint apply_ops (d : Document) (os : list doc_op) : res Document :=
  match os with
  | [] => Ok d
  | o :: os' => d' ← apply_op d o; apply_ops d' os'
  end.

(** The calls that put no node below itself and leave the root where it is and what it is. *)
Definition proper (d : Document) (o : doc_op) : Prop :=
  match o with
  | OpAppend p c | OpInsert p c _ => ¬ inclusive_ancestor d c p ∧ d.(doc_root) ≠ Some c
  | OpRemove id => d.(doc_root) ≠ Some id
  | OpSetData id dt => d.(doc_root) = Some id → dt = NDocument
  | OpCreate _ | OpDetach _ => True
  end.

Fixpoint proper_ops (d : Document) (os : list doc_op) : Prop :=
  match os with
  | [] => True
  | o :: os' => proper d o ∧ ∀ d', apply_op d o = Ok d' → proper_ops d' os'
  end.

Lemma remove_subtree_Ok d id d' : remove_subtree d id = Ok d' → live d id.
Proof. unfold remove_subtree. intros H. apply bind_Ok in H as (d1 & H & _). by eapply detach_Ok. Qed.

Lemma data_mut_Ok d id f d' : data_mut d id f = Ok d' → live d id.
Proof. unfold data_mut. intros H. apply bind_Ok in H as (m & H & _). by apply modify_Ok in H as [? _]. Qed.

(** What a successful insertion does to the child lists: one edge more. *)
Lemma link_op_linked d K o p c d' :
  o = OpAppend p c ∨ (∃ ref, o = OpInsert p c ref) →
  Linked d K → apply_op d o = Ok d' →
  ∃ K', Linked d' K' ∧ rewired d d' ∧ (∀ q x, x ∈ K' q ↔ x ∈ K q ∨ (q = p ∧ x = c)).
Proof.
  assert (∀ (K : NodeId → list NodeId) (l : list NodeId) q x, (∀ y, y ∈ l ↔ y ∈ K p ∨ y = c) →
    x ∈ (<[p := l]> K) q ↔ x ∈ K q ∨ (q = p ∧ x = c)) as Hmem.
  { intros K0 l q x Hl. rewrite insert_edge. case_decide; [subst; rewrite Hl; naive_solver|naive_solver]. }
  intros Ho HL H.
  assert (append_child d p c = Ok d' ∨ ∃ ref, insert_before d p c (Some ref) = Ok d') as [H'|[ref H']].
  { destruct Ho as [->|[[ref|] ->]]; [by left|right; by exists ref|by left]. }
  - destruct (append_child_Ok _ _ _ _ H') as (Hp & rc & Hc & Hpar).
    destruct (append_child_linked d K p c rc) as (d1 & H1 & HL1 & Hrw); try done.
    rewrite H1 in H'. injection H' as ->. eexists. split_and!; [done..|]. intros q x.
    apply Hmem. intros y. rewrite elem_of_app, list_elem_of_singleton. done.
  - destruct (insert_before_Ok _ _ _ _ _ H') as ((rc & Hc & Hpar) & rr & Hr & Hrp).
    destruct (rep_reference _ _ _ _ _ HL Hr Hrp) as (l1 & l2 & HK).
    destruct (insert_before_linked d K p c rc ref l1 l2) as (d1 & H1 & HL1 & Hrw); try done.
    rewrite H1 in H'. injection H' as ->. eexists. split_and!; [done..|]. intros q x.
    apply Hmem. intros y. rewrite HK. set_solver.
Qed.

(** Every successful call keeps the links consistent, whatever its arguments. *)
Lemma apply_op_linked d K o d' : Linked d K → apply_op d o = Ok d' → ∃ K', Linked d' K'.
Proof.
  intros HL H. destruct o as [dt|p c|p c ref|id|id|id dt].
  - apply bind_Ok in H as ([id d1] & H & [= <-]). pose proof (create_node_Ok _ _ _ _ H) as (_ & Hlt & _).
    destruct (create_node_linked d K dt HL Hlt) as (d2 & H2 & HL2 & _). rewrite H2 in H.
    injection H as _ ->. by exists K.
  - apply (link_op_linked d K _ p c) in H as (K' & ? & _); [by exists K'|by left|done].
  - apply (link_op_linked d K _ p c) in H as (K' & ? & _); [by exists K'|right; by eexists|done].
  - destruct (detach_linked d K id HL (detach_Ok _ _ _ H)) as (d1 & H1 & ? & _). cbn in H.
    rewrite H1 in H. injection H as ->. by eexists.
  - destruct (remove_subtree_linked d K id HL (remove_subtree_Ok _ _ _ H)) as (d1 & S & H1 & _ & ? & _).
    cbn in H. rewrite H1 in H. injection H as ->. by eexists.
  - destruct (data_mut_linked d K id (λ _, dt) HL (data_mut_Ok _ _ _ _ H)) as (d1 & H1 & ? & _).
    cbn in H. rewrite H1 in H. injection H as ->. by eexists.
Qed.

Lemma apply_ops_linked d os d' : (∃ K, Linked d K) → apply_ops d os = Ok d' → ∃ K, Linked d' K.
Proof.
  revert d; induction os as [|o os IH]; intros d [K HL]; cbn; [intros [= <-]; by exists K|].
  intros (d1 & H1 & H)%bind_Ok. eapply IH; [|exact H]. by eapply apply_op_linked.
Qed.

(** A call on consistent links returns or panics: no walk runs out of its bound. *)
Lemma modify_no_fuel (m : gmap NodeId NodeRecord) i f : modify m i f ≠ OutOfFuel.
Proof. unfold modify, index. by destruct (m !! i). Qed.

Lemma bind_no_fuel {A B} (r : res A) (k : A → res B) :
  r ≠ OutOfFuel → (∀ a, k a ≠ OutOfFuel) → r ≫= k ≠ OutOfFuel.
Proof. intros Hr Hk. destruct r; cbn; [apply Hk|done|done]. Qed.

Ltac no_fuel :=
  repeat first
    [ discriminate | apply modify_no_fuel
    | apply bind_no_fuel; [|intros ?]
    | progress unfold index, unwrap, checked_add_N, allocate
    | case_match ].

Lemma apply_op_returns d K o : Linked d K → apply_op d o ≠ OutOfFuel.
Proof.
  intros HL. destruct o as [dt|p c|p c ref|id|id|id dt]; cbn [apply_op].
  - unfold create_node. no_fuel.
  - unfold append_child. no_fuel.
  - unfold insert_before, append_child. no_fuel.
  - unfold detach. no_fuel.
  - destruct (nodes d !! id) as [r|] eqn:Hr.
    + destruct (remove_subtree_linked d K id HL) as (d' & S & -> & _); [by exists r|done].
    + unfold remove_subtree, detach, index. by rewrite Hr.
  - unfold data_mut. no_fuel.
Qed.

(** ** The invariant *)
(** A new parent that is not proper shows in the result: the root has a parent, or there is a cycle. *)
Lemma link_proper d d' K' p c :
  Rep d' K' → (∀ x q, parent_edge d x q → parent_edge d' x q) → parent_edge d' c p →
  d'.(doc_root) = d.(doc_root) → ¬ inclusive_ancestor d c p ∧ d.(doc_root) ≠ Some c.
Proof.
  intros HR Hmono Hcp Hrt. apply (rep_parent_edge _ _ HR) in Hcp. split.
  - intros Hanc. apply (rep_acyclic _ _ HR p). eapply tc_rtc_r; [by apply tc_once|].
    apply (rep_inclusive_ancestor _ _ HR). eapply (rtc_congruence id); [|exact Hanc]. exact Hmono.
  - intros Hc. rewrite <-Hrt in Hc. by apply (root_not_child _ _ _ p HR Hc).
Qed.

(** On a well-formed document a successful call keeps it well formed exactly when it is proper. *)
Lemma apply_op_WF d o d' : WF d → apply_op d o = Ok d' → WF d' ↔ proper d o.
Proof.
  intros [K HR] H.
  assert (∀ p c, o = OpAppend p c ∨ (∃ ref, o = OpInsert p c ref) →
    WF d' ↔ ¬ inclusive_ancestor d c p ∧ d.(doc_root) ≠ Some c) as Hlink.
  { intros p c Ho. destruct (link_op_linked d K o p c d' Ho) as (K' & HL' & Hrw & HK'); [apply HR|done|]. split.
    - intros [K2 HR2]. pose proof Hrw as (_ & Hrt & _). eapply link_proper; [exact HR2| | |exact Hrt].
      + intros x q Hx. apply (rep_parent_edge _ _ HR) in Hx. apply (rep_parent_edge _ _ HL'), HK'. by left.
      + apply (rep_parent_edge _ _ HL'), HK'. by right.
    - intros [Hanc Hroot]. exists K'. eapply Rep_add_edge; try done. intros q x. apply HK'. }
  destruct o as [dt|p c|p c ref|id|id|id dt]; cbn [proper].
  - split; [done|]. intros _. apply bind_Ok in H as ([id d1] & H & [= <-]).
    pose proof (create_node_Ok _ _ _ _ H) as (_ & Hlt & _).
    destruct (create_node_spec d K dt HR Hlt) as (d2 & H2 & HL2 & _). rewrite H2 in H.
    injection H as _ ->. by exists K.
  - apply Hlink. by left.
  - apply Hlink. right. by eexists.
  - split; [done|]. intros _. destruct (detach_spec d K id HR (detach_Ok _ _ _ H)) as (d1 & H1 & ? & _).
    cbn in H. rewrite H1 in H. injection H as ->. by eexists.
  - cbn in H. pose proof (remove_subtree_Ok _ _ _ H) as Hl. split.
    + intros [K' HR'] Hroot. destruct (remove_subtree_linked d K id) as (d1 & S & H1 & HS & _ & _ & Hrt & Hdata); [apply HR|done|].
      rewrite H1 in H. injection H as ->. destruct (rep_root _ _ HR') as (r & rec & Hr & Hrec & _).
      assert (r = id) as -> by congruence. specialize (Hdata id).
      rewrite Hrec, decide_True in Hdata; [done|]. apply HS. apply rtc_refl.
    + intros Hroot. destruct (remove_subtree_spec d K id HR Hl Hroot) as (d1 & S & H1 & _ & HR1 & _).
      rewrite H1 in H. injection H as ->. by eexists.
  - cbn in H. pose proof (data_mut_Ok _ _ _ _ H) as Hl. split.
    + intros [K' HR'] Hroot. destruct (data_mut_linked d K id (λ _, dt)) as (d1 & H1 & _ & Hrt & Hn); [apply HR|done|].
      rewrite H1 in H. injection H as ->. destruct (rep_root _ _ HR') as (r & rec & Hr & Hrec & Hdt & _).
      assert (r = id) as -> by congruence. rewrite Hn, lookup_alter_at in Hrec.
      apply fmap_Some in Hrec as (r0 & _ & ->). unfold at_id in Hdt. by rewrite decide_True in Hdt.
    + intros Hroot. destruct (data_mut_spec' d K id (λ _, dt) HR Hl Hroot) as (d1 & H1 & HR1 & _).
      rewrite H1 in H. injection H as ->. by eexists.
Qed.

Lemma apply_ops_WF d os d' : WF d → proper_ops d os → apply_ops d os = Ok d' → WF d'.
Proof.
  revert d; induction os as [|o os IH]; intros d Hwf; cbn; [by intros _ [= <-]|].
  intros [Ho Hos] (d1 & H1 & H)%bind_Ok. eapply IH; [|by apply Hos|exact H]. by eapply apply_op_WF.
Qed.

(** Every step of a run is a proper call. *)
Lemma doc_step_op d d' : doc_step d d' → ∃ o, proper d o ∧ apply_op d o = Ok d'.
Proof.
  destruct 1 as [d dt id d' H|d p c d' Hanc Hroot H|d p c ref d' Hanc Hroot H|d id d' H
    |d id d' Hroot H|d id f d' Hroot H].
  - exists (OpCreate dt). split; [done|]. cbn [apply_op]. by rewrite H.
  - exists (OpAppend p c). split; [by split|exact H].
  - exists (OpInsert p c ref). split; [by split|exact H].
  - exists (OpDetach id). split; [done|exact H].
  - exists (OpRemove id). split; [done|exact H].
  - destruct (data_mut_Ok _ _ _ _ H) as [r Hr]. exists (OpSetData id (f (r_data r))).
    split; [intros ?; by destruct Hroot|]. cbn. rewrite <-H. unfold data_mut, modify, index. by rewrite Hr.
Qed.

Lemma doc_step_WF d d' : doc_step d d' → WF d → WF d'.
Proof. intros (o & Ho & H)%doc_step_op Hwf. by eapply apply_op_WF. Qed.

Lemma new_continuing_from_Ok n d :
  new_continuing_from n = Ok d →
  Rep d (λ _, []) ∧ next_node_id d = (n + 1)%N ∧ d.(doc_root) = Some n
  ∧ d.(nodes) = {[n := detached_record NDocument]}.
Proof.
  intros H. assert (n < U64_MAX)%N as Hlt.
  { unfold new_continuing_from in H. apply bind_Ok in H as ([r d0] & H & _).
    by apply create_node_Ok in H as (_ & ? & _). }
  destruct (new_continuing_from_spec n Hlt) as (d1 & H1 & ? & ? & ? & ?).
  rewrite H1 in H. by injection H as ->.
Qed.

Lemma rtc_doc_step_WF d d' : rtc doc_step d d' → WF d → WF d'.
Proof. induction 1 as [|x y z Hxy _ IH]; [done|]. intros. by eapply IH, doc_step_WF. Qed.

Lemma reachable_WF d : reachable d → WF d.
Proof.
  intros (n & d0 & H0 & Hrun). eapply rtc_doc_step_WF; [exact Hrun|].
  apply new_continuing_from_Ok in H0 as (HR & _). by exists (λ _, []).
Qed.

(** ** The allocator only moves forward *)
Lemma op_allocator d d' :
  doc_step d d' → (next_node_id d ≤ next_node_id d')%N.
Proof.
  destruct 1 as [d dt id d' H|d p c d' _ _ H|d p c ref d' _ _ H|d id d' H|d id d' _ H|d id f d' _ H].
  - apply create_node_Ok in H as (_ & _ & -> & _). lia.
  - enough (d'.(allocator) = d.(allocator)) as E by (unfold next_node_id; by rewrite E).
    unfold append_child in H. inv_ok. destruct (r_parent _); [done|]. by inv_ok.
  - enough (d'.(allocator) = d.(allocator)) as E by (unfold next_node_id; by rewrite E).
    destruct ref as [ref|]; cbn in H.
    + inv_ok. destruct (r_parent _); [done|]. inv_ok. case_decide; [|done]. by inv_ok.
    + unfold append_child in H. inv_ok. destruct (r_parent _); [done|]. by inv_ok.
  - enough (d'.(allocator) = d.(allocator)) as E by (unfold next_node_id; by rewrite E).
    unfold detach in H. by inv_ok.
  - enough (d'.(allocator) = d.(allocator)) as E by (unfold next_node_id; by rewrite E).
    unfold remove_subtree, detach in H. by inv_ok.
  - unfold data_mut in H. by inv_ok.
Qed.

Lemma rtc_allocator d d' : rtc doc_step d d' → (next_node_id d ≤ next_node_id d')%N.
Proof.
  induction 1 as [|x y z Hxy _ IH]; [done|]. pose proof (op_allocator _ _ Hxy). lia.
Qed.

Lemma WF_live_below d x : WF d → live d x → (x < next_node_id d)%N.
Proof. intros [K HR] [r Hr]. by apply (rep_fresh _ _ HR _ _ Hr). Qed.

(** ** An executable ancestor check, for concrete documents *)
Fixpoint ancestors (fuel : nat) (d : Document) (x : NodeId) : option (list NodeId) :=
  match fuel with
  | O => None
  | S fuel' =>
      match d.(nodes) !! x ≫= r_parent with
      | None => Some [x]
      | Some p => l ← ancestors fuel' d p; Some (x :: l)
      end
  end.

Lemma ancestors_complete fuel d x l a :
  ancestors fuel d x = Some l → inclusive_ancestor d a x → a ∈ l.
Proof.
  revert x l; induction fuel as [|fuel IH]; intros x l; cbn; [done|].
  intros Hl Ha. apply rtc_inv in Ha as [->|(y & (r & Hr & Hp) & Hrest)].
  - destruct (nodes d !! a ≫= r_parent); [|simplify_eq; set_solver].
    apply bind_Some in Hl as (l' & _ & [= <-]). set_solver.
  - rewrite Hr in Hl. cbn in Hl. rewrite Hp in Hl.
    apply bind_Some in Hl as (l' & Hl' & [= <-]). apply elem_of_cons. right. eauto.
Qed.

Definition not_ancestor_b (d : Document) (a x : NodeId) : bool :=
  match ancestors (walk_fuel d) d x with
  | Some l => bool_decide (a ∉ l)
  | None => false
  end.

Lemma not_ancestor_b_sound d a x : not_ancestor_b d a x = true → ¬ inclusive_ancestor d a x.
Proof.
  unfold not_ancestor_b. destruct (ancestors _ d x) eqn:E; [|done].
  intros H%bool_decide_eq_true Ha. by eapply ancestors_complete in Ha.
Qed.

(** ** What callers see *)
Lemma WF_children_live d x l : WF d → children d x = Ok l → live d x.
Proof.
  intros _ H. unfold children, first_child in H. apply bind_Ok in H as (fc & H & _).
  apply bind_Ok in H as (r & Hr%index_Ok & _). by exists r.
Qed.

Lemma rewired_live d d' x : rewired d d' → live d' x ↔ live d x.
Proof.
  intros (_ & _ & H). specialize (H x). unfold live.
  rewrite <-(fmap_is_Some r_data), H, fmap_is_Some. done.
Qed.

Lemma rewired_children d d' K K' p l :
  Rep d K → Rep d' K' → rewired d d' → children d p = Ok l → children d' p = Ok (K' p).
Proof.
  intros HR HR' Hrw Hl. apply children_K; [apply HR'|]. rewrite rewired_live by done.
  eapply WF_children_live; [by exists K|done].
Qed.

Lemma children_insert d d' K p l :
  Rep d K → Rep d' (<[p := l]> K) → rewired d d' →
  (live d p → children d' p = Ok l) ∧ ∀ q, q ≠ p → live d q → children d' q = children d q.
Proof.
  intros HR HR' Hrw. split.
  - intros Hp. rewrite (children_K _ _ p HR'); [by rewrite fn_lookup_insert|].
    by rewrite rewired_live.
  - intros q Hq Hlq. rewrite (children_K _ _ q HR' ), (children_K _ _ q HR) by
      (rewrite ?rewired_live by done; done). by rewrite fn_lookup_insert_ne.
Qed.

(** A node live after a step was live before it or is the one just created. *)
Lemma step_live_or_fresh d d' x :
  WF d → doc_step d d' → live d' x → live d x ∨ (next_node_id d ≤ x)%N.
Proof.
  intros [K HR] Hst Hx. destruct Hst as
    [d dt id d' H|d p c d' Hanc Hroot H|d p c ref d' Hanc Hroot H|d id d' H
    |d id d' Hroot H|d id f d' Hroot H].
  - apply create_node_Ok in H as (-> & _ & _ & Hn). destruct Hx as [r Hr]. rewrite Hn in Hr.
    apply lookup_insert_Some in Hr as [[<- _]|[_ Hr]]; [by right|left; by exists r].
  - left. destruct (append_child_Ok _ _ _ _ H) as (Hp & rc & Hc & Hpar).
    destruct (append_child_spec d K p c rc) as (d1 & H1 & _ & Hrw); try done.
    rewrite H1 in H. injection H as ->. by apply (rewired_live d d').
  - left. destruct ref as [ref|].
    + destruct (insert_before_Ok _ _ _ _ _ H) as ((rc & Hc & Hpar) & rr & Hr & Hrp).
      destruct (rep_reference _ _ _ _ _ HR Hr Hrp) as (l1 & l2 & HK).
      destruct (insert_before_spec d K p c rc ref l1 l2) as (d1 & H1 & _ & Hrw); try done.
      rewrite H1 in H. injection H as ->. by apply (rewired_live d d').
    + cbn in H. destruct (append_child_Ok _ _ _ _ H) as (Hp & rc & Hc & Hpar).
      destruct (append_child_spec d K p c rc) as (d1 & H1 & _ & Hrw); try done.
      rewrite H1 in H. injection H as ->. by apply (rewired_live d d').
  - left. destruct (detach_spec d K id HR (detach_Ok _ _ _ H)) as (d1 & H1 & _ & Hrw).
    rewrite H1 in H. injection H as ->. by apply (rewired_live d d').
  - left. assert (live d id) as Hl.
    { unfold remove_subtree in H. apply bind_Ok in H as (d1 & H & _). by eapply detach_Ok. }
    destruct (remove_subtree_spec d K id HR Hl Hroot) as (d1 & S & H1 & _ & _ & _ & _ & Hdata).
    rewrite H1 in H. injection H as ->. specialize (Hdata x). destruct Hx as [r Hr].
    rewrite Hr in Hdata. case_decide; [done|]. unfold live.
    by apply (fmap_is_Some r_data); rewrite <-Hdata.
  - left. unfold data_mut in H. apply bind_Ok in H as (m & H & [= <-]).
    apply modify_Ok in H as [_ ->]. destruct Hx as [r Hr]. cbn in Hr.
    rewrite lookup_alter_at in Hr. apply fmap_Some in Hr as (r0 & ? & _). by exists r0.
Qed.

Lemma rewired_data d d' x : rewired d d' → data d' x = data d x.
Proof.
  intros (_ & _ & H). specialize (H x). unfold data, index.
  destruct (nodes d !! x), (nodes d' !! x); cbn in *; congruence.
Qed.

(** ** Scripts of operations, to build concrete documents *)
Definition res_to_option {A} (r : res A) : option A :=
  match r with Ok a => Some a | _ => None end.

(** An executable check that a call is proper; it also leaves the root's data alone. *)
Definition proper_b (d : Document) (o : doc_op) : bool :=
  match o with
  | OpAppend p c | OpInsert p c _ => not_ancestor_b d c p && bool_decide (d.(doc_root) ≠ Some c)
  | OpRemove id | OpSetData id _ => bool_decide (d.(doc_root) ≠ Some id)
  | OpCreate _ | OpDetach _ => true
  end.

Definition run_op (d : Document) (o : doc_op) : option Document :=
  if proper_b d o then res_to_option (apply_op d o) else None.

Fixpoint run_ops (d : Document) (os : list doc_op) : option Document :=
  match os with
  | [] => Some d
  | o :: os' => d' ← run_op d o; run_ops d' os'
  end.

Definition run_script (os : list doc_op) : option Document :=
  d ← res_to_option new_document; run_ops d os.

Lemma res_to_option_Some {A} (r : res A) a : res_to_option r = Some a ↔ r = Ok a.
Proof. destruct r; cbn; naive_solver. Qed.

Lemma run_op_step d o d' : run_op d o = Some d' → doc_step d d'.
Proof.
  unfold run_op. destruct (proper_b d o) eqn:E; [|done]. intros H%res_to_option_Some.
  destruct o as [dt|p c|p c ref|id|id|id dt]; cbn in E, H.
  1: apply bind_Ok in H as ([id d1] & H & [= <-]); by eapply step_create.
  1-2: apply andb_true_iff in E as [Ha%not_ancestor_b_sound Hr%bool_decide_eq_true].
  3-5: try apply bool_decide_eq_true in E.
  - by eapply step_append.
  - by eapply step_insert.
  - by eapply step_detach.
  - by eapply step_remove.
  - by eapply step_data.
Qed.

Lemma run_ops_steps d os d' : run_ops d os = Some d' → rtc doc_step d d'.
Proof.
  revert d; induction os as [|o os IH]; intros d; cbn.
  - intros [= <-]. done.
  - intros (d1 & H1%run_op_step & H2)%bind_Some. eapply rtc_l; eauto.
Qed.

Lemma run_script_reachable os d : run_script os = Some d → reachable d.
Proof.
  intros (d0 & H0%res_to_option_Some & H)%bind_Some. exists 0%N, d0.
  split; [done|]. by eapply run_ops_steps.
Qed.

(** A document [<p><b></b>x</p>] and a detached [<i>]: root 0, p 1, b 2, x 3, i 4. *)
Definition demo_script : list doc_op :=
  [OpCreate (elem "p"); OpAppend 0 1; OpCreate (elem "b"); OpAppend 1 2;
   OpCreate (NText (str "x")); OpAppend 1 3; OpCreate (elem "i")]%N.

Definition demo0 : Document :=
  MkDocument {| alloc_next := 1 |} {[0%N := detached_record NDocument]} (Some 0%N).
Definition default_doc : Document := MkDocument {| alloc_next := 0 |} ∅ None.
Definition demo : Document := default default_doc (run_script demo_script).

Lemma demo_reachable : reachable demo.
Proof. apply (run_script_reachable demo_script). vm_compute. reflexivity. Qed.

Lemma demo_WF : WF demo.
Proof. apply reachable_WF, demo_reachable. Qed.

(** ** Theorems *)

(** C1. Runs of document calls from a fresh document, with any arguments.  After any run of
    successful calls the parent, child and sibling links are consistent: they agree with
    duplicate-free child lists, and ids are below the allocator's counter; and the next call
    returns or panics, it never walks for ever.  A run of proper calls,
    which put no node below itself and keep the root, ends in a well-formed document: one acyclic
    forest whose root is a parentless [Document] node.  The condition is exact: from a well-formed
    document a successful call leads to a well-formed one if and only if it is proper; the code
    checks it nowhere. *)
Theorem reachable_documents_well_formed n d0 os d :
  new_continuing_from n = Ok d0 → apply_ops d0 os = Ok d →
  (∃ K, Linked d K)
  ∧ (proper_ops d0 os → WF d)
  ∧ (∀ o, apply_op d o ≠ OutOfFuel)
  ∧ ∀ o d', WF d → apply_op d o = Ok d' → WF d' ↔ proper d o.
Proof.
  intros H0%new_continuing_from_Ok H. destruct H0 as (HR & _).
  assert (∃ K, Linked d K) as HL by (eapply apply_ops_linked; [|exact H]; exists (λ _, []); apply HR).
  split_and!.
  - done.
  - intros Hp. eapply apply_ops_WF; [by eexists|exact Hp|exact H].
  - intros o. destruct HL as [K HL]. by eapply apply_op_returns.
  - apply apply_op_WF.
Qed.

(** Two detached nodes, each made the child of the other: every call succeeds. *)
Definition cycle_ops : list doc_op :=
  [OpCreate (elem "a"); OpCreate (elem "b"); OpAppend 1 2; OpAppend 2 1]%N.

Lemma reachable_documents_well_formed_witness :
  ∃ d, apply_ops demo0 cycle_ops = Ok d ∧ parent_edge d 1%N 2%N ∧ parent_edge d 2%N 1%N
    ∧ ((∃ K, Linked d K)
       ∧ (proper_ops demo0 cycle_ops → WF d)
       ∧ (∀ o, apply_op d o ≠ OutOfFuel)
       ∧ ∀ o d', WF d → apply_op d o = Ok d' → WF d' ↔ proper d o).
Proof.
  destruct (apply_ops demo0 cycle_ops) as [d| |] eqn:E; [|vm_compute in E; discriminate..].
  exists d. split; [done|]. split; [vm_compute in E; injection E as <-; eexists; split; vm_compute; reflexivity|].
  split; [vm_compute in E; injection E as <-; eexists; split; vm_compute; reflexivity|].
  apply (reachable_documents_well_formed 0%N demo0 cycle_ops d); [vm_compute; reflexivity|done].
Defined.

(** Node ids are never reused: a node created later in a run has an id
    greater than that of every node that was ever live, removed ones included. *)
Theorem node_ids_never_reused d x d' dt id d'' :
  reachable d → live d x → rtc doc_step d d' → create_node d' dt = Ok (id, d'') →
  (x < id)%N ∧ ¬ live d' id.
Proof.
  intros Hr Hx Hrun Hc. apply create_node_Ok in Hc as (-> & _). split.
  - pose proof (WF_live_below _ _ (reachable_WF _ Hr) Hx). pose proof (rtc_allocator _ _ Hrun). lia.
  - intros Hl. pose proof (WF_live_below d' (next_node_id d')).
    assert (WF d') by (by eapply rtc_doc_step_WF, reachable_WF). naive_solver lia.
Qed.

Lemma node_ids_never_reused_witness :
  ∃ d' d'', run_op demo (OpRemove 1%N) = Some d' ∧ create_node d' NDocument = Ok (5%N, d'')
    ∧ ((1 < 5)%N ∧ ¬ live d' 5%N).
Proof.
  destruct (run_op demo (OpRemove 1%N)) as [d'|] eqn:E; [|vm_compute in E; discriminate].
  destruct (create_node d' NDocument) as [[i d'']| |] eqn:Ec.
  2-3: vm_compute in E; injection E as <-; vm_compute in Ec; discriminate.
  assert (i = 5%N) as ->.
  { vm_compute in E; injection E as <-; vm_compute in Ec. congruence. }
  exists d', d''. split; [done|split; [done|]].
  apply (node_ids_never_reused demo 1%N d' NDocument 5%N d'').
  - apply demo_reachable.
  - unfold live. vm_compute. eauto.
  - eapply rtc_once, run_op_step, E.
  - done.
Defined.

(** A document that continues from another one's [next_node_id] never
    shares an id with it: an id cached before a navigation is below every id
    of the new document, so it resolves to nothing there. *)
Theorem replacement_document_ids_disjoint d d2 d2' x y :
  reachable d → new_continuing_from (next_node_id d) = Ok d2 → rtc doc_step d2 d2' →
  live d x → live d2' y → (x < y)%N ∧ contains d2' x = false.
Proof.
  intros Hr H2 Hrun Hx Hy. pose proof (WF_live_below _ _ (reachable_WF _ Hr) Hx) as Hlt.
  destruct (new_continuing_from_Ok _ _ H2) as (_ & _ & _ & Hnodes).
  assert (∀ d', rtc doc_step d2 d' → ∀ z, live d' z → (next_node_id d ≤ z)%N) as Hge0.
  { intros d'. apply (rtc_ind_r (λ d', ∀ z, live d' z → (next_node_id d ≤ z)%N)).
    - intros z [r Hz]. rewrite Hnodes in Hz. by apply lookup_singleton_Some in Hz as [<- _].
    - intros d3 d4 Hrun3 Hst IH z Hz.
      assert (live d3 z ∨ (next_node_id d3 ≤ z)%N) as [?|Hz3].
      + apply (step_live_or_fresh d3 d4); [|done..].
        eapply rtc_doc_step_WF; [exact Hrun3|]. apply new_continuing_from_Ok in H2 as (? & _).
        by eexists.
      + by apply IH.
      + apply rtc_allocator in Hrun3. apply new_continuing_from_Ok in H2 as (_ & ? & _). lia. }
  pose proof (Hge0 _ Hrun) as Hge. split.
  - specialize (Hge _ Hy). lia.
  - unfold contains. apply bool_decide_eq_false. intros Hl. specialize (Hge x Hl). lia.
Qed.

Lemma replacement_document_ids_disjoint_witness :
  ∃ d2, new_continuing_from (next_node_id demo) = Ok d2 ∧ ((3 < 5)%N ∧ contains d2 3%N = false).
Proof.
  destruct (new_continuing_from (next_node_id demo)) as [d2| |] eqn:E; [|vm_compute in E; discriminate..].
  exists d2. split; [done|].
  apply (replacement_document_ids_disjoint demo d2 d2 3%N 5%N).
  - apply demo_reachable.
  - done.
  - done.
  - unfold live. vm_compute. eauto.
  - vm_compute in E. injection E as <-. unfold live. vm_compute. eauto.
Defined.

(** [append_child] puts the child last: the children of the parent become
    the old ones followed by it, those of every other node are the same, and no
    node's contents change. *)
Theorem append_child_children d p c l d' :
  WF d → ¬ inclusive_ancestor d c p → d.(doc_root) ≠ Some c →
  children d p = Ok l → append_child d p c = Ok d' →
  children d' p = Ok (l ++ [c])
  ∧ (∀ q, q ≠ p → live d q → children d' q = children d q)
  ∧ (∀ x, data d' x = data d x).
Proof.
  intros [K HR] Hanc Hroot Hl H. destruct (append_child_Ok _ _ _ _ H) as (Hp & rc & Hc & Hpar).
  destruct (append_child_spec d K p c rc) as (d1 & H1 & HR1 & Hrw); try done.
  rewrite H1 in H. injection H as ->. rewrite (children_K _ _ p HR Hp) in Hl. injection Hl as <-.
  destruct (children_insert _ _ _ _ _ HR HR1 Hrw) as [Hsame Hother].
  split_and!; [by apply Hsame|done|]. intros x. by apply rewired_data.
Qed.

Lemma append_child_children_witness :
  ∃ d', append_child demo 1 4 = Ok d'
    ∧ children d' 1%N = Ok ([2; 3] ++ [4])%N
    ∧ (∀ q, q ≠ 1%N → live demo q → children d' q = children demo q)
    ∧ (∀ x, data d' x = data demo x).
Proof.
  destruct (append_child demo 1 4) as [d'| |] eqn:E; [|vm_compute in E; discriminate..].
  exists d'. split; [done|]. apply (append_child_children demo 1%N 4%N [2; 3]%N d').
  - apply demo_WF.
  - apply not_ancestor_b_sound. vm_compute. reflexivity.
  - vm_compute. congruence.
  - vm_compute. reflexivity.
  - done.
Defined.

(** [insert_before] with a reference puts the child immediately before it
    and leaves every other child list and every node's contents alone. *)
Theorem insert_before_children d p c ref l1 l2 d' :
  WF d → ¬ inclusive_ancestor d c p → d.(doc_root) ≠ Some c →
  children d p = Ok (l1 ++ ref :: l2) → insert_before d p c (Some ref) = Ok d' →
  children d' p = Ok (l1 ++ c :: ref :: l2)
  ∧ (∀ q, q ≠ p → live d q → children d' q = children d q)
  ∧ (∀ x, data d' x = data d x).
Proof.
  intros [K HR] Hanc Hroot Hl H. destruct (insert_before_Ok _ _ _ _ _ H) as ((rc & Hc & Hpar) & _).
  assert (live d p) as Hp by (eapply WF_children_live; [by exists K|done]).
  rewrite (children_K _ _ p HR Hp) in Hl. injection Hl as HK.
  destruct (insert_before_spec d K p c rc ref l1 l2) as (d1 & H1 & HR1 & Hrw); try done.
  rewrite H1 in H. injection H as ->.
  destruct (children_insert _ _ _ _ _ HR HR1 Hrw) as [Hsame Hother].
  split_and!; [by apply Hsame|done|]. intros x. by apply rewired_data.
Qed.

Lemma insert_before_children_witness :
  ∃ d', insert_before demo 1 4 (Some 3%N) = Ok d'
    ∧ children d' 1%N = Ok ([2] ++ [4; 3])%N
    ∧ (∀ q, q ≠ 1%N → live demo q → children d' q = children demo q)
    ∧ (∀ x, data d' x = data demo x).
Proof.
  destruct (insert_before demo 1 4 (Some 3%N)) as [d'| |] eqn:E; [|vm_compute in E; discriminate..].
  exists d'. split; [done|]. apply (insert_before_children demo 1%N 4%N 3%N [2]%N [] d').
  - apply demo_WF.
  - apply not_ancestor_b_sound. vm_compute. reflexivity.
  - vm_compute. congruence.
  - vm_compute. reflexivity.
  - done.
Defined.

(** On a well-formed document [append_child] panics exactly when an id is
    dead or the child is already attached; in every other case it succeeds. *)
Theorem append_child_panics_iff d p c :
  WF d →
  (append_child d p c = Panic ↔ ¬ live d c ∨ ¬ live d p ∨ ∃ q, parent_edge d c q)
  ∧ (append_child d p c ≠ Panic → is_Ok (append_child d p c)).
Proof.
  intros [K HR]. destruct (nodes d !! c) as [rc|] eqn:Hc.
  2: { rewrite append_child_dead by done. split; [|done]. split; [|done]. intros _. left.
       unfold live. rewrite Hc. by intros [? ?]. }
  assert (live d c) as Hlc by (by exists rc).
  destruct (r_parent rc) as [q|] eqn:Hpar.
  { rewrite (append_child_attached d p c rc q) by done. split; [|done].
    split; [|done]. intros _. right. right. exists q, rc. done. }
  destruct (nodes d !! p) as [rp|] eqn:Hp.
  - assert (live d p) as Hlp by (by exists rp).
    destruct (append_child_run d K p c rc) as (m' & -> & _); [by apply HR|done..|].
    split; [|intros _; by eexists]. split; [done|]. intros [?|[?|(q & r & ? & ?)]]; [done..|congruence].
  - unfold append_child, index. rewrite Hc. cbn. rewrite Hpar, Hp. cbn. split; [|done].
    split; [|done]. intros _. right. left. unfold live. rewrite Hp. by intros [? ?].
Qed.

Lemma append_child_panics_iff_witness :
  (append_child demo 0%N 1%N = Panic
     ↔ ¬ live demo 1%N ∨ ¬ live demo 0%N ∨ ∃ q, parent_edge demo 1%N q)
  ∧ (append_child demo 0%N 1%N ≠ Panic → is_Ok (append_child demo 0%N 1%N)).
Proof. apply append_child_panics_iff. apply demo_WF. Defined.

(** [detach] takes a node out of its parent's children and keeps the rest:
    the node stays live, loses its parent, keeps its own children, and every child
    list is the old one without it. *)
Theorem detach_children d id d' :
  WF d → detach d id = Ok d' →
  live d' id ∧ parent d' id = Ok None ∧ children d' id = children d id
  ∧ (∀ q l, children d q = Ok l → children d' q = Ok (filter (λ x, x ≠ id) l))
  ∧ (∀ x, data d' x = data d x).
Proof.
  intros [K HR] H. pose proof (detach_Ok _ _ _ H) as Hl.
  destruct (detach_spec d K id HR Hl) as (d1 & H1 & HR1 & Hrw).
  rewrite H1 in H. injection H as ->.
  assert (live d' id) as Hl' by (by apply (rewired_live d d')).
  assert (∀ q, id ∉ unlink K id q) as Hno.
  { intros q. unfold unlink. rewrite list_elem_of_filter. naive_solver. }
  assert (∀ q l, children d q = Ok l → children d' q = Ok (filter (λ x, x ≠ id) l)) as Hch.
  { intros q l Hq. assert (live d q) as Hlq by (eapply WF_children_live; [by exists K|done]).
    rewrite (children_K _ _ q HR Hlq) in Hq. injection Hq as <-.
    apply (children_K _ _ q HR1). by apply (rewired_live d d'). }
  split_and!; [done| | |done|intros x; by apply rewired_data].
  - destruct Hl' as [r Hr]. unfold parent, index. rewrite Hr. cbn.
    destruct (r_parent r) as [p|] eqn:Hp; [|done].
    destruct (Hno p). apply (rep_parent_edge _ _ HR1). by exists r.
  - rewrite (Hch id (K id)); [|exact (children_K _ _ id HR Hl)]. rewrite (children_K _ _ id HR Hl).
    f_equal. apply filter_ne_id. intros Hin. by apply (child_ne_parent _ _ _ _ HR Hin).
Qed.

Lemma detach_children_witness :
  ∃ d', detach demo 1%N = Ok d'
    ∧ (live d' 1%N ∧ parent d' 1%N = Ok None ∧ children d' 1%N = children demo 1%N
       ∧ (∀ q l, children demo q = Ok l → children d' q = Ok (filter (λ x, x ≠ 1%N) l))
       ∧ (∀ x, data d' x = data demo x)).
Proof.
  destruct (detach demo 1%N) as [d'| |] eqn:E; [|vm_compute in E; discriminate..].
  exists d'. split; [done|]. apply (detach_children demo 1%N d' demo_WF E).
Defined.

(** C14. [remove_subtree] always terminates on a well-formed document and frees
    exactly the node and its descendants: every other node stays live with its
    contents and its children (without the removed node), and the document stays well
    formed. *)
Theorem remove_subtree_frees_descendants d id :
  WF d → live d id → d.(doc_root) ≠ Some id →
  ∃ d', remove_subtree d id = Ok d' ∧ WF d'
    ∧ (∀ x, live d' x ↔ live d x ∧ ¬ inclusive_ancestor d id x)
    ∧ (∀ x, live d' x → data d' x = data d x)
    ∧ (∀ x l, live d' x → children d x = Ok l →
         children d' x = Ok (filter (λ y, y ≠ id) l)).
Proof.
  intros [K HR] Hl Hroot.
  destruct (remove_subtree_spec d K id HR Hl Hroot) as (d' & S & H & HS & HR' & _ & _ & Hdata).
  assert (∀ x, live d' x ↔ live d x ∧ x ∉ S) as Hlive.
  { intros x. specialize (Hdata x). unfold live. rewrite <-(fmap_is_Some r_data), Hdata.
    case_decide as Hx; rewrite ?fmap_is_Some; [|naive_solver].
    split; [by intros [? ?]|naive_solver]. }
  exists d'. split_and!; [done|by eexists|..].
  - intros x. by rewrite Hlive, HS.
  - intros x [[r Hr] Hx]%Hlive. specialize (Hdata x). rewrite decide_False, Hr in Hdata by done.
    apply fmap_Some in Hdata as (r' & Hr' & Heq). unfold data, index. by rewrite Hr, Hr'; cbn; rewrite Heq.
  - intros x l Hx Hc. rewrite (children_K _ _ x HR') by done. apply Hlive in Hx as [Hx HxS].
    rewrite (children_K _ _ x HR Hx) in Hc. injection Hc as <-.
    unfold prune. by rewrite decide_False.
Qed.

Lemma remove_subtree_frees_descendants_witness :
  ∃ d', remove_subtree demo 1%N = Ok d' ∧ WF d'
    ∧ (∀ x, live d' x ↔ live demo x ∧ ¬ inclusive_ancestor demo 1%N x)
    ∧ (∀ x, live d' x → data d' x = data demo x)
    ∧ (∀ x l, live d' x → children demo x = Ok l →
         children d' x = Ok (filter (λ y, y ≠ 1%N) l)).
Proof.
  apply (remove_subtree_frees_descendants demo 1%N).
  - apply demo_WF.
  - unfold live. vm_compute. eauto.
  - vm_compute. congruence.
Defined.

(** [dump] terminates on every well-formed document and prints the tree
    below the root in document order: each node's line at its depth, an element's attributes
    sorted by name, then its children one level deeper. *)
Theorem dump_prints_tree d :
  WF d →
  ∃ K t, Rep d K ∧ unfolds d.(nodes) K t ∧ Some (tid t) = d.(doc_root)
    ∧ dump d = (mjoin <$> mapM (dump_tree 0) (tkids t)).
Proof.
  intros [K HR]. destruct (rep_root _ _ HR) as (r & rec & Hr & Hrec & _ & _).
  destruct (unfolds_exists d K HR r) as (t & Ht & <-); [by exists rec|].
  exists K, t. split_and!; [done..|]. by eapply dump_tree_of.
Qed.

Lemma dump_prints_tree_witness :
  ∃ K t, Rep demo K ∧ unfolds demo.(nodes) K t ∧ Some (tid t) = demo.(doc_root)
    ∧ dump demo = (mjoin <$> mapM (dump_tree 0) (tkids t)).
Proof. apply dump_prints_tree. apply demo_WF. Defined.
