(* ===== verification/HtmlTokenizer.v ===== *)
(** * The HTML tokenizer ([core/html/src/tokenizer.rs])

    The tokenizer's state is the record of the source with the same fields;
    each arm of the state machine of [next_token] is one definition, and the
    loop around them runs until an arm returns a token. *)

From S2P Require Import Prelude.

(** ** Data *)
Inductive ContentModel := CmData | CmRcdata | CmRawtext | CmScriptData.

#[export] Instance ContentModel_eq_dec : EqDecision ContentModel.
Proof. solve_decision. Defined.

Inductive Token :=
  | Doctype
  | Comment
  | StartTag (name : list N) (attrs : list (list N * list N)) (self_closing : bool)
  | EndTag (name : list N)
  | Character (data : list N)
  | Eof.

#[export] Instance Token_eq_dec : EqDecision Token.
Proof. solve_decision. Defined.

Inductive State :=
  | Data | TagOpen | EndTagOpen | TagName | BeforeAttributeName | AttributeName
  | AfterAttributeName | BeforeAttributeValue | AttributeValueDoubleQuoted
  | AttributeValueSingleQuoted | AttributeValueUnquoted | AfterAttributeValueQuoted
  | SelfClosingStartTag.

#[export] Instance State_eq_dec : EqDecision State.
Proof. solve_decision. Defined.

Definition NAMED_REFERENCES : list (list N * list N) :=
  [(str "amp;", str "&"); (str "lt;", str "<"); (str "gt;", str ">");
   (str "quot;", [DQUOTE]); (str "apos;", str "'"); (str "nbsp;", [160%N])].

Definition is_html_space (c : N) : bool :=
  (c =? 32)%N || (c =? 9)%N || (c =? 10)%N || (c =? 12)%N || (c =? 13)%N.

(** The replacement character U+FFFD. *)
Definition REPLACEMENT : N := 65533.

(** The Windows-1252 remapping of the C1 range. *)
Definition c1_remap (code : N) : option N :=
  match code with
  | 0x80 => Some 0x20AC | 0x82 => Some 0x201A | 0x83 => Some 0x0192 | 0x84 => Some 0x201E
  | 0x85 => Some 0x2026 | 0x86 => Some 0x2020 | 0x87 => Some 0x2021 | 0x88 => Some 0x02C6
  | 0x89 => Some 0x2030 | 0x8A => Some 0x0160 | 0x8B => Some 0x2039 | 0x8C => Some 0x0152
  | 0x8E => Some 0x017D | 0x91 => Some 0x2018 | 0x92 => Some 0x2019 | 0x93 => Some 0x201C
  | 0x94 => Some 0x201D | 0x95 => Some 0x2022 | 0x96 => Some 0x2013 | 0x97 => Some 0x2014
  | 0x98 => Some 0x02DC | 0x99 => Some 0x2122 | 0x9A => Some 0x0161 | 0x9B => Some 0x203A
  | 0x9C => Some 0x0153 | 0x9E => Some 0x017E | 0x9F => Some 0x0178
  | _ => None
  end%N.

(** A Unicode scalar value: what [char::from_u32] accepts. *)
Definition is_scalar (code : N) : bool :=
  ((code <=? 0x10FFFF) && negb (in_range 0xD800 code 0xDFFF))%N.

Definition resolve_numeric_character_reference (code : N) : N :=
  if ((code =? 0) || (0x10FFFF <? code) || in_range 0xD800 code 0xDFFF)%N then REPLACEMENT
  else
    let c := default code (c1_remap code) in
    if is_scalar c then c else REPLACEMENT.

Record Tokenizer := MkTokenizer {
  input : list N;
  pos : nat;
  state : State;
  content_model : ContentModel;
  last_start_tag_name : option (list N);
  tag_name : list N;
  tag_is_end : bool;
  tag_self_closing : bool;
  tag_attrs : list (list N * list N);
  attr_name : list N;
  attr_value : list N;
  text_buffer : list N;
}.

(** Field assignments. *)
Definition set_pos (v : nat) (t : Tokenizer) : Tokenizer :=
  MkTokenizer t.(input) v t.(state) t.(content_model) t.(last_start_tag_name) t.(tag_name)
    t.(tag_is_end) t.(tag_self_closing) t.(tag_attrs) t.(attr_name) t.(attr_value) t.(text_buffer).
Definition set_state (v : State) (t : Tokenizer) : Tokenizer :=
  MkTokenizer t.(input) t.(pos) v t.(content_model) t.(last_start_tag_name) t.(tag_name)
    t.(tag_is_end) t.(tag_self_closing) t.(tag_attrs) t.(attr_name) t.(attr_value) t.(text_buffer).
Definition set_model (v : ContentModel) (t : Tokenizer) : Tokenizer :=
  MkTokenizer t.(input) t.(pos) t.(state) v t.(last_start_tag_name) t.(tag_name)
    t.(tag_is_end) t.(tag_self_closing) t.(tag_attrs) t.(attr_name) t.(attr_value) t.(text_buffer).
Definition set_last_start (v : option (list N)) (t : Tokenizer) : Tokenizer :=
  MkTokenizer t.(input) t.(pos) t.(state) t.(content_model) v t.(tag_name)
    t.(tag_is_end) t.(tag_self_closing) t.(tag_attrs) t.(attr_name) t.(attr_value) t.(text_buffer).
Definition set_tag_name (v : list N) (t : Tokenizer) : Tokenizer :=
  MkTokenizer t.(input) t.(pos) t.(state) t.(content_model) t.(last_start_tag_name) v
    t.(tag_is_end) t.(tag_self_closing) t.(tag_attrs) t.(attr_name) t.(attr_value) t.(text_buffer).
Definition set_tag_is_end (v : bool) (t : Tokenizer) : Tokenizer :=
  MkTokenizer t.(input) t.(pos) t.(state) t.(content_model) t.(last_start_tag_name) t.(tag_name)
    v t.(tag_self_closing) t.(tag_attrs) t.(attr_name) t.(attr_value) t.(text_buffer).
Definition set_self_closing (v : bool) (t : Tokenizer) : Tokenizer :=
  MkTokenizer t.(input) t.(pos) t.(state) t.(content_model) t.(last_start_tag_name) t.(tag_name)
    t.(tag_is_end) v t.(tag_attrs) t.(attr_name) t.(attr_value) t.(text_buffer).
Definition set_tag_attrs (v : list (list N * list N)) (t : Tokenizer) : Tokenizer :=
  MkTokenizer t.(input) t.(pos) t.(state) t.(content_model) t.(last_start_tag_name) t.(tag_name)
    t.(tag_is_end) t.(tag_self_closing) v t.(attr_name) t.(attr_value) t.(text_buffer).
Definition set_attr_name (v : list N) (t : Tokenizer) : Tokenizer :=
  MkTokenizer t.(input) t.(pos) t.(state) t.(content_model) t.(last_start_tag_name) t.(tag_name)
    t.(tag_is_end) t.(tag_self_closing) t.(tag_attrs) v t.(attr_value) t.(text_buffer).
Definition set_attr_value (v : list N) (t : Tokenizer) : Tokenizer :=
  MkTokenizer t.(input) t.(pos) t.(state) t.(content_model) t.(last_start_tag_name) t.(tag_name)
    t.(tag_is_end) t.(tag_self_closing) t.(tag_attrs) t.(attr_name) v t.(text_buffer).
Definition set_text (v : list N) (t : Tokenizer) : Tokenizer :=
  MkTokenizer t.(input) t.(pos) t.(state) t.(content_model) t.(last_start_tag_name) t.(tag_name)
    t.(tag_is_end) t.(tag_self_closing) t.(tag_attrs) t.(attr_name) t.(attr_value) v.

(** ** Construction: newline normalization of the input stream *)

(** [input.replace("\r\n", "\n")], then [.replace('\r', "\n")]. *)
Fixpoint replace_crlf (s : list N) : list N :=
  match s with
  | 13%N :: ((10%N :: s') as tl) => replace_crlf tl
  | c :: s' => c :: replace_crlf s'
  | [] => []
  end.
Definition replace_cr (s : list N) : list N := (λ c, if (c =? 13)%N then 10%N else c) <$> s.

Definition new_tokenizer (s : list N) : Tokenizer :=
  MkTokenizer (replace_cr (replace_crlf s)) 0 Data CmData None [] false false [] [] [] [].

Definition set_content_model (m : ContentModel) (t : Tokenizer) : Tokenizer :=
  set_state Data (set_model m t).

(** ** Reading the input *)
Definition peek (t : Tokenizer) : option N := t.(input) !! t.(pos).

(** [self.input.get(self.pos + i)]. *)
Definition peek_at (t : Tokenizer) (i : nat) : option N := t.(input) !! (t.(pos) + i).

Definition advance (t : Tokenizer) : Tokenizer :=
  match peek t with Some _ => set_pos (S t.(pos)) t | None => t end.
Definition skip (n : nat) (t : Tokenizer) : Tokenizer := set_pos (t.(pos) + n) t.

(** [s.chars().enumerate().all(...)] at an absolute position. *)
Fixpoint matches_at (eqb : N → N → bool) (inp : list N) (at_ : nat) (s : list N) : bool :=
  match s with
  | [] => true
  | c :: s' =>
      match inp !! at_ with
      | Some x => eqb x c && matches_at eqb inp (S at_) s'
      | None => false
      end
  end.

Definition matches_ahead (t : Tokenizer) (s : list N) : bool :=
  matches_at N.eqb t.(input) t.(pos) s.
Definition matches_ahead_ignore_case (t : Tokenizer) (s : list N) : bool :=
  matches_at char_eq_ignore_case t.(input) t.(pos) s.

Definition push_text (s : list N) (t : Tokenizer) : Tokenizer := set_text (t.(text_buffer) ++ s) t.
Definition push_attr_value (s : list N) (t : Tokenizer) : Tokenizer :=
  set_attr_value (t.(attr_value) ++ s) t.

(** ** Emission *)
Definition flush_text_or_eof (t : Tokenizer) : Token * Tokenizer :=
  match t.(text_buffer) with
  | [] => (Eof, t)
  | s => (Character s, set_text [] t)
  end.

Definition commit_pending_attr (t : Tokenizer) : Tokenizer :=
  let t :=
    match t.(attr_name) with
    | [] => t
    | name =>
        if existsb (λ a, bool_decide (a.1 = name)) t.(tag_attrs) then t
        else set_tag_attrs (t.(tag_attrs) ++ [(name, t.(attr_value))]) t
    end in
  set_attr_value [] (set_attr_name [] t).

Definition emit_tag (t : Tokenizer) : Token * Tokenizer :=
  let t := set_state Data (commit_pending_attr t) in
  let name := t.(tag_name) in
  let t := set_tag_name [] t in
  if t.(tag_is_end) then (EndTag name, t)
  else
    let attrs := t.(tag_attrs) in
    let t := set_last_start (Some name) (set_tag_attrs [] t) in
    (StartTag name attrs t.(tag_self_closing), t).

(** ** Character references *)
Definition consume_character_reference (t : Tokenizer) : list N * Tokenizer :=
  if decide (peek t = Some (ch "#")) then
    let hex := match peek_at t 1 with
               | Some c => (c =? ch "x")%N || (c =? ch "X")%N
               | None => false
               end in
    let digits_start := t.(pos) + 1 + (if hex then 1 else 0) in
    let ok := if hex then is_ascii_hexdigit else is_ascii_digit in
    let digits := take_while ok (drop digits_start t.(input)) in
    match digits with
    | [] => (str "&", t)
    | _ =>
        let t := set_pos (digits_start + length digits) t in
        let t := if decide (peek t = Some (ch ";")) then advance t else t in
        let v := digits_val (if hex then 16 else 10)%N digits in
        let code := if (v <=? U32_MAX)%N then v else 0xFFFD%N in
        ([resolve_numeric_character_reference code], t)
    end
  else
    match list_find (λ nv, matches_ahead t nv.1 = true) NAMED_REFERENCES with
    | Some (_, (name, value)) => (value, skip (length name) t)
    | None => (str "&", t)
    end.

(** ** Comments, doctypes, end tags of raw text *)

(** One turn of the scanning loop of [consume_comment]. *)
Definition comment_step (t : Tokenizer) : res (Tokenizer + Token * Tokenizer) :=
  if matches_ahead t (str "-->") then Ok (inr (Comment, set_state Data (skip 3 t)))
  else if matches_ahead t (str "--!>") then Ok (inr (Comment, set_state Data (skip 4 t)))
  else match peek t with
       | None => Ok (inr (Comment, set_state Data t))
       | Some _ => Ok (inl (advance t))
       end.

(** What is left of the input, one more for the turn that sees its end. *)
Definition input_fuel (t : Tokenizer) : nat := S (length t.(input) - t.(pos)).

Definition consume_comment (t : Tokenizer) : res (Token * Tokenizer) :=
  if matches_ahead t (str ">") then Ok (Comment, set_state Data (skip 1 t))
  else if matches_ahead t (str "->") then Ok (Comment, set_state Data (skip 2 t))
  else iterate (input_fuel t) comment_step t.

(** [while !matches!(self.peek(), None | Some('>')) { self.advance(); }]. *)
Definition to_gt_step (t : Tokenizer) : res (Tokenizer + Tokenizer) :=
  match peek t with
  | None => Ok (inr t)
  | Some c => if (c =? ch ">")%N then Ok (inr t) else Ok (inl (advance t))
  end.

Definition consume_bogus_comment (t : Tokenizer) : res (Token * Tokenizer) :=
  t ← iterate (input_fuel t) to_gt_step t; Ok (Comment, set_state Data (advance t)).

Definition consume_doctype (t : Tokenizer) : res (Token * Tokenizer) :=
  t ← iterate (input_fuel t) to_gt_step t; Ok (Doctype, set_state Data (advance t)).

Definition is_tag_terminator (o : option N) : bool :=
  match o with
  | Some c => is_html_space c || (c =? ch "/")%N || (c =? ch ">")%N
  | None => false
  end.

Definition matches_appropriate_end_tag_ahead (t : Tokenizer) : bool :=
  match t.(last_start_tag_name) with
  | None => false
  | Some name =>
      bool_decide (peek t = Some (ch "<")) && bool_decide (peek_at t 1 = Some (ch "/"))
      && matches_at char_eq_ignore_case t.(input) (t.(pos) + 2) name
      && is_tag_terminator (t.(input) !! (t.(pos) + 2 + length name))
  end.

(** One character of the skipped rest of an end tag, with the open quote. *)
Definition end_tag_step (s : option N * Tokenizer) : res (option N * Tokenizer + Tokenizer) :=
  let '(quote, t) := s in
  match peek t with
  | None => Ok (inr t)
  | Some c =>
      let t := advance t in
      match quote with
      | Some q => Ok (inl (if (c =? q)%N then None else Some q, t))
      | None =>
          if (c =? DQUOTE)%N || (c =? ch "'")%N then Ok (inl (Some c, t))
          else if (c =? ch ">")%N then Ok (inr t)
          else Ok (inl (None, t))
      end
  end.

Definition consume_end_tag_simple (t : Tokenizer) : res (Token * Tokenizer) :=
  let name := default [] t.(last_start_tag_name) in
  let t := skip (2 + length name) t in
  t ← iterate (input_fuel t) end_tag_step (None, t);
  Ok (EndTag name, set_state Data t).

(** NUL becomes U+FFFD in raw text. *)
Definition replace_nul (c : N) : N := if (c =? 0)%N then REPLACEMENT else c.

Definition rawtext_step (rcdata : bool) (t : Tokenizer) : res (Tokenizer + Token * Tokenizer) :=
  match peek t with
  | None => Ok (inr (flush_text_or_eof t))
  | Some c =>
      if (c =? ch "<")%N && matches_appropriate_end_tag_ahead t then
        match t.(text_buffer) with
        | [] => r ← consume_end_tag_simple t; Ok (inr r)
        | _ => Ok (inr (flush_text_or_eof t))
        end
      else if (c =? ch "&")%N && rcdata then
        let '(s, t) := consume_character_reference (advance t) in
        Ok (inl (push_text s t))
      else Ok (inl (push_text [replace_nul c] (advance t)))
  end.

Definition consume_rawtext_or_rcdata (rcdata : bool) (t : Tokenizer) : res (Token * Tokenizer) :=
  iterate (input_fuel t) (rawtext_step rcdata) t.

Definition matches_start_tag_like_ahead (t : Tokenizer) (name : list N) : bool :=
  bool_decide (peek t = Some (ch "<"))
  && matches_at char_eq_ignore_case t.(input) (t.(pos) + 1) name
  && is_tag_terminator (t.(input) !! (t.(pos) + 1 + length name)).

(** ** Script data *)
Inductive ScriptSt := Plain | Escaped | DoubleEscaped.

(** [for _ in 0..n { let c = self.advance().unwrap(); self.text_buffer.push(c); }]. *)
Fixpoint push_advance (n : nat) (t : Tokenizer) : res Tokenizer :=
  match n with
  | O => Ok t
  | S n' => c ← unwrap (peek t); push_advance n' (push_text [c] (advance t))
  end.

Definition push_plain (c : N) (t : Tokenizer) : Tokenizer := push_text [replace_nul c] (advance t).

(** The end-tag arm shared by [Plain] and [Escaped]. *)
Definition script_end_tag (t : Tokenizer) : res (ScriptSt * Tokenizer + Token * Tokenizer) :=
  match t.(text_buffer) with
  | [] => r ← consume_end_tag_simple t; Ok (inr r)
  | _ => Ok (inr (flush_text_or_eof t))
  end.

Definition script_step (s : ScriptSt * Tokenizer) : res (ScriptSt * Tokenizer + Token * Tokenizer) :=
  let '(st, t) := s in
  match peek t with
  | None => Ok (inr (flush_text_or_eof t))
  | Some c =>
      match st with
      | Plain =>
          if (c =? ch "<")%N && matches_appropriate_end_tag_ahead t then script_end_tag t
          else if (c =? ch "<")%N && matches_ahead t (str "<!--") then
            Ok (inl (Escaped, skip 4 (push_text (str "<!--") t)))
          else Ok (inl (Plain, push_plain c t))
      | Escaped =>
          if (c =? ch "<")%N && matches_appropriate_end_tag_ahead t then script_end_tag t
          else if (c =? ch "<")%N && matches_start_tag_like_ahead t (str "script") then
            t ← push_advance 7 t; Ok (inl (DoubleEscaped, t))
          else if (c =? ch "-")%N && matches_ahead t (str "-->") then
            Ok (inl (Plain, skip 3 (push_text (str "-->") t)))
          else Ok (inl (Escaped, push_plain c t))
      | DoubleEscaped =>
          if (c =? ch "<")%N && matches_appropriate_end_tag_ahead t then
            t ← push_advance 8 t; Ok (inl (Escaped, t))
          else if (c =? ch "-")%N && matches_ahead t (str "-->") then
            Ok (inl (Plain, skip 3 (push_text (str "-->") t)))
          else Ok (inl (DoubleEscaped, push_plain c t))
      end
  end.

Definition consume_script_data (t : Tokenizer) : res (Token * Tokenizer) :=
  iterate (input_fuel t) script_step (Plain, t).

(** ** The state machine: one definition per arm of [next_token] *)
Abbreviation arm := (Tokenizer → res (Tokenizer + Token * Tokenizer)) (only parsing).

Definition step_data : arm := λ t,
  match t.(content_model) with
  | CmRcdata => r ← consume_rawtext_or_rcdata true t; Ok (inr r)
  | CmRawtext => r ← consume_rawtext_or_rcdata false t; Ok (inr r)
  | CmScriptData => r ← consume_script_data t; Ok (inr r)
  | CmData =>
      match peek t with
      | None => Ok (inr (flush_text_or_eof t))
      | Some c =>
          if (c =? ch "<")%N then
            match t.(text_buffer) with
            | [] => Ok (inl (set_state TagOpen (advance t)))
            | _ => Ok (inr (flush_text_or_eof t))
            end
          else if (c =? ch "&")%N then
            let '(s, t) := consume_character_reference (advance t) in
            Ok (inl (push_text s t))
          else Ok (inl (push_text [c] (advance t)))
      end
  end.

Definition begin_tag (is_end : bool) (t : Tokenizer) : Tokenizer :=
  set_state TagName (set_self_closing false (set_tag_attrs [] (set_tag_name []
    (set_tag_is_end is_end t)))).

Definition step_tag_open : arm := λ t,
  match peek t with
  | None => Ok (inr (Character (str "<"), set_state Data t))
  | Some c =>
      if is_ascii_alphabetic c then Ok (inl (begin_tag false t))
      else if (c =? ch "/")%N then Ok (inl (set_state EndTagOpen (advance t)))
      else if (c =? ch "!")%N then
        let t := advance t in
        if matches_ahead t (str "--") then r ← consume_comment (skip 2 t); Ok (inr r)
        else if matches_ahead_ignore_case t (str "DOCTYPE") then
          r ← consume_doctype (skip 7 t); Ok (inr r)
        else r ← consume_bogus_comment t; Ok (inr r)
      else if (c =? ch "?")%N then r ← consume_bogus_comment t; Ok (inr r)
      else Ok (inl (push_text (str "<") (set_state Data t)))
  end.

Definition step_end_tag_open : arm := λ t,
  match peek t with
  | None => Ok (inr (Character (str "</"), set_state Data t))
  | Some c =>
      if is_ascii_alphabetic c then Ok (inl (begin_tag true t))
      else if (c =? ch ">")%N then Ok (inl (set_state Data (advance t)))
      else r ← consume_bogus_comment t; Ok (inr r)
  end.

(** The shared end-of-input arm of the tag states: the tag is discarded. *)
Definition eof_in_tag (t : Tokenizer) : Tokenizer + Token * Tokenizer :=
  inr (Eof, set_state Data t).

Definition step_tag_name : arm := λ t,
  match peek t with
  | None => Ok (eof_in_tag t)
  | Some c =>
      if is_html_space c then Ok (inl (set_state BeforeAttributeName (advance t)))
      else if (c =? ch "/")%N then Ok (inl (set_state SelfClosingStartTag (advance t)))
      else if (c =? ch ">")%N then Ok (inr (emit_tag (advance t)))
      else Ok (inl (set_tag_name (t.(tag_name) ++ [to_ascii_lowercase c]) (advance t)))
  end.

Definition step_before_attribute_name : arm := λ t,
  match peek t with
  | None => Ok (eof_in_tag t)
  | Some c =>
      if is_html_space c then Ok (inl (advance t))
      else if (c =? ch "/")%N then Ok (inl (set_state SelfClosingStartTag (advance t)))
      else if (c =? ch ">")%N then Ok (inr (emit_tag (advance t)))
      else Ok (inl (set_state AttributeName (set_attr_value [] (set_attr_name [] t))))
  end.

Definition step_attribute_name : arm := λ t,
  match peek t with
  | None => Ok (eof_in_tag t)
  | Some c =>
      if is_html_space c then Ok (inl (set_state AfterAttributeName (advance t)))
      else if (c =? ch "/")%N then
        Ok (inl (set_state SelfClosingStartTag (advance (commit_pending_attr t))))
      else if (c =? ch "=")%N then Ok (inl (set_state BeforeAttributeValue (advance t)))
      else if (c =? ch ">")%N then Ok (inr (emit_tag (advance (commit_pending_attr t))))
      else Ok (inl (set_attr_name (t.(attr_name) ++ [to_ascii_lowercase c]) (advance t)))
  end.

Definition step_after_attribute_name : arm := λ t,
  match peek t with
  | None => Ok (eof_in_tag t)
  | Some c =>
      if is_html_space c then Ok (inl (advance t))
      else if (c =? ch "/")%N then
        Ok (inl (set_state SelfClosingStartTag (advance (commit_pending_attr t))))
      else if (c =? ch "=")%N then Ok (inl (set_state BeforeAttributeValue (advance t)))
      else if (c =? ch ">")%N then Ok (inr (emit_tag (advance (commit_pending_attr t))))
      else Ok (inl (set_state AttributeName (set_attr_name [] (commit_pending_attr t))))
  end.

Definition step_before_attribute_value : arm := λ t,
  match peek t with
  | None => Ok (eof_in_tag t)
  | Some c =>
      if is_html_space c then Ok (inl (advance t))
      else if (c =? DQUOTE)%N then Ok (inl (set_state AttributeValueDoubleQuoted (advance t)))
      else if (c =? ch "'")%N then Ok (inl (set_state AttributeValueSingleQuoted (advance t)))
      else if (c =? ch ">")%N then Ok (inr (emit_tag (advance (commit_pending_attr t))))
      else Ok (inl (set_state AttributeValueUnquoted t))
  end.

Definition step_attribute_value_quoted (quote : N) : arm := λ t,
  match peek t with
  | None => Ok (eof_in_tag t)
  | Some c =>
      if (c =? quote)%N then
        Ok (inl (set_state AfterAttributeValueQuoted (advance (commit_pending_attr t))))
      else if (c =? ch "&")%N then
        let '(s, t) := consume_character_reference (advance t) in
        Ok (inl (push_attr_value s t))
      else Ok (inl (push_attr_value [c] (advance t)))
  end.
Definition step_attribute_value_double_quoted : arm := step_attribute_value_quoted DQUOTE.
Definition step_attribute_value_single_quoted : arm := step_attribute_value_quoted (ch "'").

Definition step_attribute_value_unquoted : arm := λ t,
  match peek t with
  | None => Ok (eof_in_tag t)
  | Some c =>
      if is_html_space c then
        Ok (inl (set_state BeforeAttributeName (advance (commit_pending_attr t))))
      else if (c =? ch "&")%N then
        let '(s, t) := consume_character_reference (advance t) in
        Ok (inl (push_attr_value s t))
      else if (c =? ch ">")%N then Ok (inr (emit_tag (advance (commit_pending_attr t))))
      else Ok (inl (push_attr_value [c] (advance t)))
  end.

Definition step_after_attribute_value_quoted : arm := λ t,
  match peek t with
  | None => Ok (eof_in_tag t)
  | Some c =>
      if is_html_space c then Ok (inl (set_state BeforeAttributeName (advance t)))
      else if (c =? ch "/")%N then Ok (inl (set_state SelfClosingStartTag (advance t)))
      else if (c =? ch ">")%N then Ok (inr (emit_tag (advance t)))
      else Ok (inl (set_state BeforeAttributeName t))
  end.

Definition step_self_closing_start_tag : arm := λ t,
  match peek t with
  | None => Ok (eof_in_tag t)
  | Some c =>
      if (c =? ch ">")%N then Ok (inr (emit_tag (advance (set_self_closing true t))))
      else Ok (inl (set_state BeforeAttributeName t))
  end.

Definition step : arm := λ t,
  match t.(state) with
  | Data => step_data t
  | TagOpen => step_tag_open t
  | EndTagOpen => step_end_tag_open t
  | TagName => step_tag_name t
  | BeforeAttributeName => step_before_attribute_name t
  | AttributeName => step_attribute_name t
  | AfterAttributeName => step_after_attribute_name t
  | BeforeAttributeValue => step_before_attribute_value t
  | AttributeValueDoubleQuoted => step_attribute_value_double_quoted t
  | AttributeValueSingleQuoted => step_attribute_value_single_quoted t
  | AttributeValueUnquoted => step_attribute_value_unquoted t
  | AfterAttributeValueQuoted => step_after_attribute_value_quoted t
  | SelfClosingStartTag => step_self_closing_start_tag t
  end.

(** Four turns per character left and four for the end of the input: shown to be enough in
    [HtmlTotal]. *)
Definition token_fuel (t : Tokenizer) : nat := 4 * (length t.(input) - t.(pos)) + 4.

Definition next_token (t : Tokenizer) : res (Token * Tokenizer) :=
  iterate (token_fuel t) step t.

(** ** Tokenizing a whole input

    The loop of [TreeBuilder::run] as the tokenizer sees it: the consumer is an abstract state
    machine [D] that is handed each token and may answer by switching the content model. *)
Section Stream.
Context {D : Type} (consume : D → Token → D * option ContentModel).

Definition switch (m : option ContentModel) (t : Tokenizer) : Tokenizer :=
  match m with Some m => set_content_model m t | None => t end.

Fixpoint stream (fuel : nat) (d : D) (t : Tokenizer) : res (list Token) :=
  match fuel with
  | O => OutOfFuel
  | S fuel' =>
      '(tok, t) ← next_token t;
      match tok with
      | Eof => Ok [Eof]
      | _ => let '(d, m) := consume d tok in ts ← stream fuel' d (switch m t); Ok (tok :: ts)
      end
  end.

End Stream.

(** A consumer that never switches. *)
Definition stay (_ : unit) (_ : Token) : unit * option ContentModel := (tt, None).
Definition tokenize (s : list N) : res (list Token) :=
  let t := new_tokenizer s in stream stay (token_fuel t) tt t.

Example tokenize_tag :
  tokenize (str "<P Class=x>a&amp;b</p><!-- c -->")
  = Ok [StartTag (str "p") [(str "class", str "x")] false; Character (str "a&b");
        EndTag (str "p"); Comment; Eof].
Proof. vm_compute. reflexivity. Qed.

Example tokenize_numeric : tokenize (str "&#x80;&#0;&#xZ") = Ok [Character ([8364; 65533]%N ++ str "&#xZ"); Eof].
Proof. vm_compute. reflexivity. Qed.

Example tokenize_eof_in_tag : tokenize (str "a<img src=b") = Ok [Character (str "a"); Eof].
Proof. vm_compute. reflexivity. Qed.
