(* ===== verification/HtmlTotal.v ===== *)
(** * The HTML tokenizer is total and emits well-formed tokens

    Every call of [next_token] returns within its bound and without a panic, keeps the
    invariant [Inv], and makes progress; so tokenizing any input ends. *)

From S2P Require Import Prelude HtmlTokenizer.

(** ** Character-level facts *)
Lemma peek_Some t c : peek t = Some c → t.(pos) < length t.(input).
Proof. apply lookup_lt_Some. Qed.

Lemma peek_None t : peek t = None → length t.(input) ≤ t.(pos).
Proof. apply lookup_ge_None. Qed.

Lemma advance_Some t c : peek t = Some c → advance t = set_pos (S t.(pos)) t.
Proof. unfold advance. by intros ->. Qed.

Lemma matches_at_length eqb inp i s :
  i ≤ length inp → matches_at eqb inp i s = true → i + length s ≤ length inp.
Proof.
  revert i; induction s as [|c s IH]; intros i Hi; cbn; [lia|].
  destruct (inp !! i) eqn:E; [|done]. intros [_ H]%andb_true_iff.
  apply lookup_lt_Some in E. apply IH in H; lia.
Qed.

Lemma set_pos_id t : set_pos t.(pos) t = t.
Proof. by destruct t. Qed.

Lemma set_state_id t : set_state t.(state) t = t.
Proof. by destruct t. Qed.

Lemma set_pos_twice p q t : set_pos p (set_pos q t) = set_pos p t.
Proof. done. Qed.

(** ** The scanning loops move the position and nothing else *)
Definition moved (t : Tokenizer) (p : nat) : Prop := t.(pos) ≤ p ∧ p ≤ length t.(input).

Lemma comment_loop t :
  t.(pos) ≤ length t.(input) →
  ∃ p, iterate (input_fuel t) comment_step t = Ok (Comment, set_state Data (set_pos p t)) ∧ moved t p.
Proof.
  intros Hpos.
  destruct (iterate_total
    (λ s, ∃ p, s = set_pos p t ∧ moved t p)
    (λ _ r, ∃ p, r = (Comment, set_state Data (set_pos p t)) ∧ moved t p)
    (λ s, length s.(input) - s.(pos)) comment_step) with (input_fuel t) t
    as (r & Hr & p & -> & Hp).
  - intros s (p & -> & Hp1 & Hp2). unfold comment_step.
    destruct (matches_ahead _ (str "-->")) eqn:E1.
    { apply matches_at_length in E1; cbn in *; [|lia]. eexists; split; [done|]. cbn.
      exists (p + 3). split; [done|]. split; lia. }
    destruct (matches_ahead _ (str "--!>")) eqn:E2.
    { apply matches_at_length in E2; cbn in *; [|lia]. eexists; split; [done|]. cbn.
      exists (p + 4). split; [done|]. split; lia. }
    destruct (peek _) as [c|] eqn:Ep; [|eexists; split; [done|]; exists p; done].
    eexists; split; [done|]. rewrite (advance_Some _ _ Ep). apply peek_Some in Ep. cbn in *.
    split; [exists (S p); split; [done|split; lia]|]. split; [lia|done].
  - exists t.(pos). rewrite set_pos_id. split; [done|]. split; lia.
  - unfold input_fuel. lia.
  - eauto.
Qed.

Lemma consume_comment_run t :
  t.(pos) ≤ length t.(input) →
  ∃ p, consume_comment t = Ok (Comment, set_state Data (set_pos p t)) ∧ moved t p.
Proof.
  intros Hpos. unfold consume_comment.
  destruct (matches_ahead t (str ">")) eqn:E1.
  { apply matches_at_length in E1; [|done]. cbn in E1. exists (t.(pos) + 1).
    split; [done|split; lia]. }
  destruct (matches_ahead t (str "->")) eqn:E2.
  { apply matches_at_length in E2; [|done]. cbn in E2. exists (t.(pos) + 2).
    split; [done|split; lia]. }
  by apply comment_loop.
Qed.

Lemma to_gt_loop t :
  t.(pos) ≤ length t.(input) →
  ∃ p, iterate (input_fuel t) to_gt_step t = Ok (set_pos p t) ∧ moved t p
    ∧ (t.(input) !! p = None ∨ t.(input) !! p = Some (ch ">")).
Proof.
  intros Hpos.
  destruct (iterate_total
    (λ s, ∃ p, s = set_pos p t ∧ moved t p)
    (λ _ r, ∃ p, r = set_pos p t ∧ moved t p
        ∧ (t.(input) !! p = None ∨ t.(input) !! p = Some (ch ">")))
    (λ s, length s.(input) - s.(pos)) to_gt_step) with (input_fuel t) t
    as (r & Hr & p & -> & Hp).
  - intros s (p & -> & Hp1 & Hp2). unfold to_gt_step.
    destruct (peek _) as [c|] eqn:Ep.
    + destruct (N.eqb_spec c (ch ">")) as [->|].
      * eexists; split; [done|]. exists p. split_and!; [done..|]. by right.
      * eexists; split; [done|]. rewrite (advance_Some _ _ Ep). apply peek_Some in Ep. cbn in *.
        split; [exists (S p); split; [done|split; lia]|]. split; [lia|done].
    + eexists; split; [done|]. exists p. split_and!; [done..|]. by left.
  - exists t.(pos). rewrite set_pos_id. split; [done|]. split; lia.
  - unfold input_fuel. lia.
  - eauto.
Qed.

Lemma advance_moved t : t.(pos) ≤ length t.(input) → ∃ p, advance t = set_pos p t ∧ moved t p.
Proof.
  intros Hpos. unfold advance. destruct (peek t) eqn:E.
  - apply peek_Some in E. exists (S t.(pos)). split; [done|]. split; lia.
  - exists t.(pos). rewrite set_pos_id. split; [done|]. split; lia.
Qed.

Lemma to_gt_then_advance t (tok : Token) :
  t.(pos) ≤ length t.(input) →
  ∃ p, (t ← iterate (input_fuel t) to_gt_step t; Ok (tok, set_state Data (advance t)))
       = Ok (tok, set_state Data (set_pos p t)) ∧ moved t p.
Proof.
  intros Hpos. destruct (to_gt_loop t Hpos) as (p & -> & [Hp1 Hp2] & _). cbn [mbind res_bind].
  destruct (advance_moved (set_pos p t)) as (q & -> & [Hq1 Hq2]); [done|]. cbn in *.
  exists q. split; [done|split; lia].
Qed.

Lemma consume_bogus_comment_run t :
  t.(pos) ≤ length t.(input) →
  ∃ p, consume_bogus_comment t = Ok (Comment, set_state Data (set_pos p t)) ∧ moved t p.
Proof. intros Hpos. by apply to_gt_then_advance. Qed.

Lemma consume_doctype_run t :
  t.(pos) ≤ length t.(input) →
  ∃ p, consume_doctype t = Ok (Doctype, set_state Data (set_pos p t)) ∧ moved t p.
Proof. intros Hpos. by apply to_gt_then_advance. Qed.

Lemma end_tag_loop t :
  t.(pos) ≤ length t.(input) →
  ∃ p, iterate (input_fuel t) end_tag_step (None, t) = Ok (set_pos p t) ∧ moved t p.
Proof.
  intros Hpos.
  destruct (iterate_total
    (λ s, ∃ p, s.2 = set_pos p t ∧ moved t p)
    (λ _ r, ∃ p, r = set_pos p t ∧ moved t p)
    (λ s, length s.2.(input) - s.2.(pos)) end_tag_step) with (input_fuel t) (@None N, t)
    as (r & Hr & p & -> & Hp).
  - intros [q s] (p & Hs & Hp1 & Hp2). cbn [snd] in Hs. subst s. unfold end_tag_step.
    destruct (peek (set_pos p t)) as [c|] eqn:Ep; [|eexists; split; [done|]; exists p; done].
    rewrite (advance_Some _ _ Ep). apply peek_Some in Ep. cbn [pos input set_pos] in Ep.
    assert (moved t (S p)) by (split; lia).
    destruct q as [q|].
    + eexists; split; [done|]. cbn. split; [by exists (S p)|]. split; [lia|done].
    + destruct (_ || _).
      { eexists; split; [done|]. cbn. split; [by exists (S p)|]. split; [lia|done]. }
      destruct (_ =? _)%N.
      { eexists; split; [done|]. by exists (S p). }
      eexists; split; [done|]. cbn. split; [by exists (S p)|]. split; [lia|done].
  - exists t.(pos). cbn. rewrite set_pos_id. split; [done|]. split; lia.
  - unfold input_fuel. cbn. lia.
  - eauto.
Qed.

Lemma appropriate_bound t :
  matches_appropriate_end_tag_ahead t = true →
  ∃ name, t.(last_start_tag_name) = Some name ∧ t.(pos) + 2 + length name < length t.(input).
Proof.
  unfold matches_appropriate_end_tag_ahead. destruct (last_start_tag_name t) as [name|]; [|done].
  intros H. apply andb_true_iff in H as [_ Ht]. exists name. split; [done|].
  destruct (_ !! _) eqn:E; [|done]. by apply lookup_lt_Some in E.
Qed.

Lemma consume_end_tag_simple_run t :
  matches_appropriate_end_tag_ahead t = true →
  ∃ p name, consume_end_tag_simple t = Ok (EndTag name, set_state Data (set_pos p t))
    ∧ t.(last_start_tag_name) = Some name ∧ t.(pos) + 2 ≤ p ∧ p ≤ length t.(input).
Proof.
  intros (name & Hn & Hlt)%appropriate_bound. unfold consume_end_tag_simple. rewrite Hn.
  change (default [] (Some name)) with name. cbv zeta. destruct (end_tag_loop (skip (2 + length name) t)) as (p & Hp & [Hp1 Hp2]).
  { cbn. lia. }
  rewrite Hp. cbn [skip set_pos input pos] in *.
  exists p, name. split_and!; [done..|lia|lia].
Qed.

Lemma named_references_nonempty : Forall (λ nv, nv.2 ≠ []) NAMED_REFERENCES.
Proof. unfold NAMED_REFERENCES. repeat constructor; discriminate. Qed.

Lemma consume_character_reference_run t :
  t.(pos) ≤ length t.(input) →
  ∃ p s, consume_character_reference t = (s, set_pos p t) ∧ moved t p ∧ s ≠ [].
Proof.
  intros Hpos. unfold consume_character_reference. case_decide as Hh.
  - set (hex := match peek_at t 1 with Some _ => _ | None => _ end).
    set (start := pos t + 1 + _). set (ok := if hex then is_ascii_hexdigit else _).
    destruct (take_while ok (drop start (input t))) as [|d ds] eqn:Ed.
    { exists t.(pos), (str "&"). rewrite set_pos_id. split_and!; [done|split; lia|done]. }
    pose proof (take_while_length ok (drop start (input t))) as Hlen.
    rewrite Ed, length_drop in Hlen. cbn [length] in Hlen.
    assert (pos t ≤ start) as Hst by (unfold start; lia).
    set (p := start + length (d :: ds)).
    assert (p ≤ length (input t)) as Hp by (unfold p; cbn [length]; lia).
    case_decide as Hsemi.
    + rewrite (advance_Some _ _ Hsemi). apply peek_Some in Hsemi. cbn [set_pos pos input] in *.
      eexists (S p), _. split; [done|]. split; [split; lia|done].
    + eexists p, _. split; [done|]. split; [split; lia|done].
  - destruct (list_find _ NAMED_REFERENCES) as [[i [name value]]|] eqn:Ef.
    + apply list_find_Some in Ef as (Hi & Hm & _). apply matches_at_length in Hm; [|done].
      exists (t.(pos) + length name), value. split; [done|]. split; [split; cbn in Hm; lia|].
      by apply (Forall_lookup_1 _ _ _ _ named_references_nonempty Hi).
    + exists t.(pos), (str "&"). rewrite set_pos_id. split_and!; [done|split; lia|done].
Qed.

(** ** Raw text and script data *)

(** What a raw-text call returns: a new position, an empty buffer, and a token. *)
Definition raw_post (t : Tokenizer) (r : Token * Tokenizer) : Prop :=
  ∃ p, r.2 = set_text [] (set_pos p t) ∧ moved t p ∧
    match r.1 with
    | Eof => t.(input) !! p = None
    | Character b => b ≠ [] ∧ (t.(pos) < p ∨ t.(text_buffer) ≠ [])
    | EndTag n => t.(last_start_tag_name) = Some n ∧ t.(pos) < p
    | _ => False
    end.

(** The loops' states: text moves from the input to the buffer. *)
Definition raw_inv (t s : Tokenizer) : Prop :=
  ∃ p b, s = set_text b (set_pos p t) ∧ moved t p ∧ (b = t.(text_buffer) ∨ t.(pos) < p).

Lemma raw_inv_refl t : t.(pos) ≤ length t.(input) → raw_inv t t.
Proof.
  intros Hpos. exists t.(pos), t.(text_buffer). split_and!; [by destruct t|split; lia|by left].
Qed.

Lemma raw_inv_push t s p b :
  raw_inv t s → s.(pos) < p → p ≤ length t.(input) → raw_inv t (set_text b (set_pos p s)).
Proof.
  intros (q & b' & -> & [Hq1 Hq2] & _) Hp Hle. exists p, b. cbn in *.
  split_and!; [done|split; lia|right; lia].
Qed.

Lemma raw_inv_input t s : raw_inv t s → s.(input) = t.(input) ∧ s.(pos) ≤ length s.(input)
  ∧ t.(pos) ≤ s.(pos) ∧ s.(last_start_tag_name) = t.(last_start_tag_name) ∧ s.(state) = t.(state).
Proof. intros (p & b & -> & [? ?] & _). cbn. split_and!; (done || lia). Qed.

Lemma raw_flush t s :
  raw_inv t s → (s.(text_buffer) = [] → peek s = None) → raw_post t (flush_text_or_eof s).
Proof.
  intros (p & b & -> & Hm & Hor) Hnone. unfold flush_text_or_eof, raw_post.
  destruct b as [|c b]; cbn in *.
  - exists p. split; [done|]. split; [done|]. by apply Hnone.
  - exists p. split_and!; [done..|]. destruct Hor as [<-|]; [by right|by left].
Qed.

Lemma raw_end_tag t s :
  t.(state) = Data → raw_inv t s → matches_appropriate_end_tag_ahead s = true →
  s.(text_buffer) = [] →
  ∃ r, consume_end_tag_simple s = Ok r ∧ raw_post t r.
Proof.
  intros Hst (p & b & -> & [Hm1 Hm2] & _) Happ Hb. cbn in Hb. subst b.
  destruct (consume_end_tag_simple_run _ Happ) as (q & name & -> & Hn & Hq1 & Hq2).
  cbn in *. eexists; split; [done|]. exists q. cbn. split_and!.
  - destruct t; cbn in *. by subst.
  - split; lia.
  - done.
  - lia.
Qed.

Lemma rawtext_step_ok t rcdata s :
  t.(state) = Data → raw_inv t s →
  ∃ x, rawtext_step rcdata s = Ok x ∧
    match x with inl s' => raw_inv t s' ∧ s.(pos) < s'.(pos) | inr r => raw_post t r end.
Proof.
  intros Hst HI. destruct (raw_inv_input _ _ HI) as (Hin & Hle & _ & _ & _).
  unfold rawtext_step. destruct (peek s) as [c|] eqn:Ep.
  2: { eexists; split; [done|]. by apply raw_flush. }
  pose proof (peek_Some _ _ Ep) as Hlt. rewrite (advance_Some _ _ Ep).
  destruct (_ && matches_appropriate_end_tag_ahead s) eqn:Eend.
  { apply andb_true_iff in Eend as [_ Happ]. destruct (text_buffer s) as [|b bs] eqn:Eb.
    - destruct (raw_end_tag t s) as (r & -> & Hr); [done..|]. by eexists.
    - eexists; split; [done|]. apply raw_flush; [done|]. by rewrite Eb. }
  destruct (_ && rcdata).
  - destruct (consume_character_reference_run (set_pos (S (pos s)) s)) as (p & str' & -> & [Hp1 Hp2] & _).
    { cbn. lia. }
    eexists; split; [done|]. cbn in *. split; [|lia].
    apply (raw_inv_push t s p); [done|lia|by rewrite <-Hin].
  - eexists; split; [done|]. cbn. split; [|lia].
    apply (raw_inv_push t s (S (pos s))); [done|lia|rewrite <-Hin; lia].
Qed.

Lemma consume_rawtext_run rcdata t :
  t.(state) = Data → t.(pos) ≤ length t.(input) →
  ∃ r, consume_rawtext_or_rcdata rcdata t = Ok r ∧ raw_post t r.
Proof.
  intros Hst Hpos. unfold consume_rawtext_or_rcdata.
  apply (iterate_total (raw_inv t) (λ _ r, raw_post t r) (λ s, length s.(input) - s.(pos))).
  - intros s HI. destruct (rawtext_step_ok t rcdata s Hst HI) as (x & -> & Hx).
    eexists; split; [done|]. destruct x as [s'|r]; [|done]. destruct Hx as [HI' Hlt].
    destruct (raw_inv_input _ _ HI) as (E1 & ? & _). destruct (raw_inv_input _ _ HI') as (E2 & ? & _).
    split_and!; [done| |done]. rewrite E1, E2 in *. lia.
  - by apply raw_inv_refl.
  - unfold input_fuel. lia.
Qed.

(** [push_advance] succeeds when the characters are there. *)
Lemma push_advance_run n s :
  s.(pos) + n ≤ length s.(input) →
  ∃ b, push_advance n s = Ok (set_text b (set_pos (s.(pos) + n) s)).
Proof.
  revert s; induction n as [|n IH]; intros s Hle; cbn.
  - exists s.(text_buffer). rewrite Nat.add_0_r. by destruct s.
  - destruct (lookup_lt_is_Some_2 s.(input) s.(pos)) as [c Hc]; [lia|].
    assert (peek s = Some c) as Ep by done. rewrite Ep. cbn [unwrap mbind res_bind].
    rewrite (advance_Some _ _ Ep).
    destruct (IH (push_text [c] (set_pos (S (pos s)) s))) as (b & ->); [cbn; lia|].
    exists b. cbn. by rewrite <-Nat.add_succ_r.
Qed.

Lemma push_advance_short n s :
  s.(pos) ≤ length s.(input) → length s.(input) < s.(pos) + n → push_advance n s = Panic.
Proof.
  revert s; induction n as [|n IH]; intros s Hle Hlt; [lia|]. cbn [push_advance].
  destruct (peek s) as [c|] eqn:Ep; [|done]. cbn [unwrap mbind res_bind]. rewrite (advance_Some _ _ Ep).
  apply peek_Some in Ep. apply IH; cbn; lia.
Qed.

(** The last start tag has a name of fewer than five characters. *)
Definition short_name (t : Tokenizer) : Prop :=
  ∃ n, t.(last_start_tag_name) = Some n ∧ length n < 5.

(** What one turn of the script loop owes. *)
Definition script_post (t s : Tokenizer) (x : ScriptSt * Tokenizer + Token * Tokenizer) : Prop :=
  match x with inl (_, s') => raw_inv t s' ∧ s.(pos) < s'.(pos) | inr r => raw_post t r end.

Section ScriptTurn.
Context (t s : Tokenizer).
Hypotheses (Hst : t.(state) = Data) (HI : raw_inv t s).

Lemma script_push st q b :
  s.(pos) < q → q ≤ length s.(input) → script_post t s (inl (st, set_text b (set_pos q s))).
Proof.
  intros Hq Hq'. destruct (raw_inv_input _ _ HI) as (Hin & _). split; [|done].
  apply raw_inv_push; [done..|by rewrite <-Hin].
Qed.

Lemma script_plain st c : peek s = Some c → script_post t s (inl (st, push_plain c s)).
Proof.
  intros Ep. unfold push_plain. rewrite (advance_Some _ _ Ep). apply peek_Some in Ep.
  apply script_push; lia.
Qed.

(** A literal taken over whole, as [<!--] and [-->] are. *)
Lemma script_literal st (b : bool) w :
  b && matches_ahead s w = true → w ≠ [] → script_post t s (inl (st, skip (length w) (push_text w s))).
Proof.
  intros [_ Hw]%andb_true_iff Hne. destruct (raw_inv_input _ _ HI) as (_ & Hle & _).
  apply matches_at_length in Hw; [|done]. destruct w; [done|]. cbn [length] in *.
  apply (script_push st (s.(pos) + S (length w))); lia.
Qed.

Lemma script_advance st n :
  0 < n → s.(pos) + n ≤ length s.(input) →
  ∃ x, (u ← push_advance n s; Ok (inl (st, u))) = Ok x ∧ script_post t s x.
Proof.
  intros Hn Hle. destruct (push_advance_run n s Hle) as (b & ->). eexists; split; [done|].
  apply (script_push st (pos s + n)); lia.
Qed.

Lemma script_end_tag_ok (b : bool) :
  b && matches_appropriate_end_tag_ahead s = true → ∃ x, script_end_tag s = Ok x ∧ script_post t s x.
Proof.
  intros [_ Happ]%andb_true_iff. unfold script_end_tag. destruct (text_buffer s) as [|c bs] eqn:Eb.
  - destruct (raw_end_tag t s) as (r & -> & Hr); [done..|]. by exists (inr r).
  - exists (inr (flush_text_or_eof s)). split; [done|]. apply raw_flush; [done|]. by rewrite Eb.
Qed.

(** One turn returns, or panics in the double-escaped arm, which takes over eight characters
    although the end tag it saw has only three more than the name of the last start tag. *)
Lemma script_step_cases st :
  (∃ x, script_step (st, s) = Ok x ∧ script_post t s x)
  ∨ (script_step (st, s) = Panic ∧ short_name t).
Proof.
  destruct (raw_inv_input _ _ HI) as (_ & Hle & _ & Hls' & _).
  unfold script_step. destruct (peek s) as [c|] eqn:Ep; [|left; eexists; split; [done|]; by apply raw_flush].
  destruct st; (destruct (_ && matches_appropriate_end_tag_ahead s) eqn:E1;
    [try by (left; apply (script_end_tag_ok _ E1))|]).
  - left. destruct (_ && matches_ahead s _) eqn:E2; (eexists; split; [done|]);
      [by apply (script_literal Escaped _ _ E2)|by apply script_plain].
  - left. destruct (_ && matches_start_tag_like_ahead s _) eqn:E2.
    { apply script_advance; [lia|]. apply andb_true_iff in E2 as [_ [_ E2]%andb_true_iff].
      destruct (input s !! _) eqn:E3; [|done]. apply lookup_lt_Some in E3. cbn in E3. lia. }
    destruct (_ && matches_ahead s _) eqn:E3; (eexists; split; [done|]);
      [by apply (script_literal Plain _ _ E3)|by apply script_plain].
  - apply andb_true_iff in E1 as [_ (n & Hn & Hb)%appropriate_bound]. rewrite Hls' in Hn.
    destruct (decide (pos s + 8 ≤ length (input s))) as [Hlen|Hlen].
    + left. apply script_advance; [lia|done].
    + right. rewrite push_advance_short by lia. split; [done|]. exists n. split; [done|lia].
  - left. destruct (_ && matches_ahead s _) eqn:E3; (eexists; split; [done|]);
      [by apply (script_literal Plain _ _ E3)|by apply script_plain].
Qed.

End ScriptTurn.

(** [iterate_total] for a body that may panic. *)
Lemma iterate_total_or {S R : Type} (I : S → Prop) (Q : R → Prop) (P : Prop) (μ : S → nat)
    (body : S → res (S + R)) :
  (∀ s, I s → (∃ x, body s = Ok x ∧ match x with inl s' => I s' ∧ μ s' < μ s | inr r => Q r end)
              ∨ (body s = Panic ∧ P)) →
  ∀ fuel s, I s → μ s < fuel →
  (∃ r, iterate fuel body s = Ok r ∧ Q r) ∨ (iterate fuel body s = Panic ∧ P).
Proof.
  intros Hbody. induction fuel as [|fuel IH]; intros s HI Hμ; [lia|]. cbn.
  destruct (Hbody s HI) as [(x & -> & Hx)|[-> HP]]; cbn; [|by right].
  destruct x as [s'|r]; [|left; by exists r]. destruct Hx as (HI' & Hlt). apply IH; [done|lia].
Qed.

Lemma consume_script_cases t :
  t.(state) = Data → t.(pos) ≤ length t.(input) →
  (∃ r, consume_script_data t = Ok r ∧ raw_post t r) ∨ (consume_script_data t = Panic ∧ short_name t).
Proof.
  intros Hst Hpos. unfold consume_script_data.
  apply (iterate_total_or (λ s, raw_inv t s.2) (raw_post t) (short_name t) (λ s, length s.2.(input) - s.2.(pos))).
  - intros [st s] HI. destruct (script_step_cases t s Hst HI st) as [(x & -> & Hx)|Hp]; [left|by right].
    eexists; split; [done|]. destruct x as [[st' s']|r]; [|done]. destruct Hx as [HI' Hlt].
    destruct (raw_inv_input _ _ HI) as (E1 & ? & _). destruct (raw_inv_input _ _ HI') as (E2 & ? & _).
    cbn in *. split; [done|]. rewrite E1, E2 in *. lia.
  - by apply raw_inv_refl.
  - unfold input_fuel. cbn. lia.
Qed.

Lemma consume_script_run t :
  t.(state) = Data → t.(pos) ≤ length t.(input) →
  t.(last_start_tag_name) = Some (str "script") →
  ∃ r, consume_script_data t = Ok r ∧ raw_post t r.
Proof.
  intros Hst Hpos Hls. destruct (consume_script_cases t Hst Hpos) as [?|(_ & n & Hn & Hlen)]; [done|].
  rewrite Hls in Hn. injection Hn as <-. cbn in Hlen. lia.
Qed.

(** ** The invariant *)
Definition is_lower (s : list N) : Prop := lowercase s = s.

Definition attrs_ok (attrs : list (list N * list N)) : Prop :=
  NoDup attrs.*1 ∧ Forall (λ a, a.1 ≠ [] ∧ is_lower a.1) attrs.

(** States in which a tag name has been read. *)
Definition in_tag (s : State) : bool :=
  match s with Data | TagOpen | EndTagOpen | TagName => false | _ => true end.

Record Inv (t : Tokenizer) : Prop := {
  inv_pos : t.(pos) ≤ length t.(input);
  inv_script : t.(content_model) = CmScriptData → t.(last_start_tag_name) = Some (str "script");
  inv_last : ∀ n, t.(last_start_tag_name) = Some n → n ≠ [] ∧ is_lower n;
  inv_attrs : attrs_ok t.(tag_attrs);
  inv_attr_name : is_lower t.(attr_name);
  inv_tag_name : is_lower t.(tag_name);
  inv_named : in_tag t.(state) = true → t.(tag_name) ≠ [];
  inv_naming : t.(state) = TagName →
    t.(tag_name) ≠ [] ∨ ∃ c, peek t = Some c ∧ is_ascii_alphabetic c = true;
  inv_model : t.(state) ≠ Data → t.(content_model) = CmData;
  inv_text : t.(state) ≠ Data → t.(text_buffer) = [];
}.

(** A token as the tree builder relies on it. *)
Definition token_ok (tok : Token) : Prop :=
  match tok with
  | Character s => s ≠ []
  | StartTag n attrs _ => n ≠ [] ∧ is_lower n ∧ attrs_ok attrs
  | EndTag n => n ≠ [] ∧ is_lower n
  | _ => True
  end.

(** The measure of the state machine: input left, then the states that turn
    without reading, then pending text. *)
Definition rank (s : State) : nat :=
  match s with
  | TagOpen | AfterAttributeValueQuoted | SelfClosingStartTag => 2
  | EndTagOpen | BeforeAttributeName | AfterAttributeName | BeforeAttributeValue => 1
  | _ => 0
  end.
Definition pending (t : Tokenizer) : nat := match t.(text_buffer) with [] => 0 | _ => 1 end.
Definition work (t : Tokenizer) : nat :=
  4 * (length t.(input) - t.(pos)) + rank t.(state) + pending t.

(** What one call of [next_token] guarantees. *)
Definition token_post (t : Tokenizer) (r : Token * Tokenizer) : Prop :=
  Inv r.2 ∧ token_ok r.1 ∧ r.2.(state) = Data ∧ r.2.(input) = t.(input)
  ∧ r.2.(content_model) = t.(content_model)
  ∧ match r.1 with
    | Eof => peek r.2 = None ∧ r.2.(text_buffer) = []
    | _ => work r.2 < work t
    end
  ∧ (∀ n a b, r.1 = StartTag n a b → r.2.(last_start_tag_name) = Some n).

Definition step_post (t : Tokenizer) (x : Tokenizer + Token * Tokenizer) : Prop :=
  match x with
  | inl t' => Inv t' ∧ t'.(input) = t.(input) ∧ t'.(content_model) = t.(content_model)
              ∧ work t' < work t
  | inr r => token_post t r
  end.

Lemma is_lower_snoc s c : is_lower s → is_lower (s ++ [to_ascii_lowercase c]).
Proof.
  unfold is_lower, lowercase. intros H. rewrite fmap_app, H. cbn.
  by rewrite to_ascii_lowercase_idemp.
Qed.

Lemma app_singleton_ne {A} (l : list A) x : l ++ [x] ≠ [].
Proof. by destruct l. Qed.

Lemma attrs_ok_nil : attrs_ok [].
Proof. split; constructor. Qed.

#[export] Hint Resolve is_lower_snoc app_singleton_ne attrs_ok_nil : blueice.

Lemma commit_attrs t :
  attrs_ok t.(tag_attrs) → is_lower t.(attr_name) → attrs_ok (commit_pending_attr t).(tag_attrs).
Proof.
  intros [Hnd Hall] Hl. unfold commit_pending_attr. destruct (attr_name t) as [|c n] eqn:En; [done|].
  destruct (existsb _ _) eqn:Ee; [done|]. cbn. split.
  - rewrite fmap_app. apply NoDup_app. split_and!; [done| |apply NoDup_singleton].
    intros x Hx ->%list_elem_of_singleton. apply list_elem_of_fmap in Hx as ([k v] & Hk & Hin).
    cbn in Hk. subst k.
    apply not_true_iff_false in Ee. apply Ee, existsb_exists. exists (c :: n, v).
    split; [by apply list_elem_of_In|]. cbn. by apply bool_decide_eq_true.
  - apply Forall_app. split; [done|]. by constructor.
Qed.

(** [commit_pending_attr] changes the attributes only. *)
Lemma commit_fields t :
  let t' := commit_pending_attr t in
  t'.(input) = t.(input) ∧ t'.(pos) = t.(pos) ∧ t'.(state) = t.(state)
  ∧ t'.(content_model) = t.(content_model) ∧ t'.(last_start_tag_name) = t.(last_start_tag_name)
  ∧ t'.(tag_name) = t.(tag_name) ∧ t'.(tag_is_end) = t.(tag_is_end)
  ∧ t'.(tag_self_closing) = t.(tag_self_closing) ∧ t'.(text_buffer) = t.(text_buffer)
  ∧ t'.(attr_name) = [] ∧ t'.(attr_value) = [].
Proof.
  unfold commit_pending_attr. destruct (attr_name t); cbn; [done|]. by destruct (existsb _ _).
Qed.

Lemma commit_set_attrs t :
  commit_pending_attr t
  = set_attr_value [] (set_attr_name [] (set_tag_attrs (commit_pending_attr t).(tag_attrs) t)).
Proof.
  unfold commit_pending_attr. destruct (attr_name t); [by destruct t|].
  destruct (existsb _ _); by destruct t.
Qed.

(** ** One arm at a time *)
Ltac inv_done HI :=
  try done; try exact (inv_attr_name _ HI); try exact (inv_tag_name _ HI);
  try solve [apply HI; done]; try solve [intros; apply HI; done];
  try solve [intros; congruence].

(** An arm that reads one character and goes on in state [s']: the fields that
    matter are given, the rest is the same. *)
Lemma inl_read t s' t' c :
  Inv t → t.(state) ≠ Data → peek t = Some c →
  t'.(input) = t.(input) → t'.(pos) = S t.(pos) → t'.(state) = s' →
  t'.(content_model) = t.(content_model) →
  t'.(last_start_tag_name) = t.(last_start_tag_name) → t'.(text_buffer) = t.(text_buffer) →
  attrs_ok t'.(tag_attrs) → is_lower t'.(attr_name) → is_lower t'.(tag_name) →
  (in_tag s' = true → t'.(tag_name) ≠ []) → (s' = TagName → t'.(tag_name) ≠ []) →
  step_post t (inl t').
Proof.
  intros HI Hd Hp Ein Epos Est Ecm Els Etb Hat Han Htn Hnamed Hnaming.
  apply peek_Some in Hp. pose proof (inv_text _ HI Hd) as Htb. split_and!; [|done..|].
  - split; rewrite ?Ein, ?Epos, ?Est, ?Ecm, ?Els, ?Etb; inv_done HI.
    intros E. left. auto.
  - unfold work, pending. rewrite Ein, Epos, Est, Etb, Htb. destruct s'; cbn [rank]; lia.
Qed.

(** An arm that turns to another state without reading. *)
Lemma inl_turn t s' t' :
  Inv t → t.(state) ≠ Data → rank s' < rank t.(state) → s' ≠ Data →
  t'.(input) = t.(input) → t'.(pos) = t.(pos) → t'.(state) = s' →
  t'.(content_model) = t.(content_model) →
  t'.(last_start_tag_name) = t.(last_start_tag_name) → t'.(text_buffer) = t.(text_buffer) →
  attrs_ok t'.(tag_attrs) → is_lower t'.(attr_name) → is_lower t'.(tag_name) →
  (in_tag s' = true → t'.(tag_name) ≠ []) →
  (s' = TagName → ∃ c, peek t = Some c ∧ is_ascii_alphabetic c = true) →
  step_post t (inl t').
Proof.
  intros HI Hd Hr Hs' Ein Epos Est Ecm Els Etb Hat Han Htn Hnamed Hnaming.
  pose proof (inv_text _ HI Hd) as Htb. split_and!; [|done..|].
  - split; rewrite ?Ein, ?Epos, ?Est, ?Ecm, ?Els, ?Etb; inv_done HI.
    intros E. right. unfold peek. rewrite Ein, Epos. auto.
  - unfold work, pending. rewrite Ein, Epos, Est, Etb, Htb. lia.
Qed.

(** An arm that ends the construct at a later position: comments, doctypes,
    stray text and the end of the input. *)
Lemma inr_moved t tok p :
  Inv t → t.(state) ≠ Data → 0 < rank t.(state) ∨ t.(pos) < p → moved t p →
  (tok = Comment ∨ tok = Doctype ∨ ∃ s, tok = Character s ∧ s ≠ []) →
  step_post t (inr (tok, set_state Data (set_pos p t))).
Proof.
  intros HI Hd Hprog [Hp1 Hp2] Htok. pose proof (inv_text _ HI Hd) as Htb.
  assert (Inv (set_state Data (set_pos p t))) as HI'.
  { split; cbn; inv_done HI. }
  unfold token_post. cbn [step_post fst snd].
  assert (work (set_state Data (set_pos p t)) < work t) as Hw.
  { unfold work, pending. cbn. rewrite Htb. lia. }
  destruct Htok as [->|[->|(s & -> & Hs)]]; split_and!; done.
Qed.

Lemma inr_eof t : Inv t → t.(state) ≠ Data → peek t = None → step_post t (eof_in_tag t).
Proof.
  intros HI Hd Hp. unfold eof_in_tag. unfold step_post, token_post.
  split_and!; cbn; try done; [split; cbn; inv_done HI|].
  split; [done|by apply (inv_text _ HI)].
Qed.

(** Emitting the current tag after one more character was read. *)
Lemma emit_tag_post t u c :
  Inv t → t.(state) ≠ Data → peek t = Some c →
  u.(input) = t.(input) → u.(pos) = S t.(pos) → u.(content_model) = t.(content_model) →
  u.(last_start_tag_name) = t.(last_start_tag_name) → u.(text_buffer) = t.(text_buffer) →
  attrs_ok u.(tag_attrs) → is_lower u.(attr_name) →
  u.(tag_name) = t.(tag_name) → t.(tag_name) ≠ [] →
  step_post t (inr (emit_tag u)).
Proof.
  intros HI Hd Hp%peek_Some Ein Epos Ecm Els Etb Hat Han Htn Hne.
  pose proof (inv_text _ HI Hd) as Htb. pose proof (inv_model _ HI Hd) as Hcm.
  unfold emit_tag. pose proof (commit_attrs u Hat Han) as Hc. rewrite (commit_set_attrs u).
  generalize dependent (tag_attrs (commit_pending_attr u)). intros X HX.
  assert (∀ v, v.(input) = t.(input) → v.(pos) = S t.(pos) → v.(state) = Data →
    v.(text_buffer) = [] → work v < work t) as Hwork.
  { intros v E1 E2 E3 E4. unfold work, pending. rewrite E1, E2, E3, E4, Htb. cbn. lia. }
  cbv zeta. cbn [tag_is_end set_tag_name set_state set_attr_value set_attr_name set_tag_attrs].
  destruct (tag_is_end u); unfold step_post, token_post; cbn -[work];
    split_and!; rewrite ?Htn; inv_done HI;
    try (apply Hwork; cbn; congruence).
  - split; cbn; rewrite ?Ein, ?Epos, ?Ecm, ?Els; inv_done HI.
  - split; cbn; rewrite ?Ein, ?Epos, ?Ecm, ?Htn; inv_done HI; try by rewrite Hcm.
    + intros n [= <-]. split; [done|exact (inv_tag_name _ HI)].
    + apply attrs_ok_nil.
Qed.

(** The three shapes of a tag arm; [Ep] says which character is next. *)
Lemma commit_advance t c :
  Inv t → peek t = Some c →
  ∃ X, attrs_ok X ∧ advance (commit_pending_attr t)
     = set_pos (S t.(pos)) (set_attr_value [] (set_attr_name [] (set_tag_attrs X t))).
Proof.
  intros HI Ep. exists (commit_pending_attr t).(tag_attrs).
  split; [apply commit_attrs; [apply (inv_attrs _ HI)|apply (inv_attr_name _ HI)]|].
  rewrite (commit_set_attrs t) at 1. unfold advance. cbn. unfold peek in *; cbn. by rewrite Ep.
Qed.

Lemma char_ref_advance t c :
  Inv t → peek t = Some c →
  ∃ p s, consume_character_reference (advance t) = (s, set_pos p t) ∧ t.(pos) < p
    ∧ p ≤ length t.(input) ∧ s ≠ [].
Proof.
  intros HI Ep. rewrite (advance_Some _ _ Ep). apply peek_Some in Ep.
  destruct (consume_character_reference_run (set_pos (S (pos t)) t)) as (p & s & -> & [H1 H2] & Hs);
    [done|]. cbn in *. exists p, s. split_and!; [done|lia|done..].
Qed.

(** A value arm that appends to the attribute value and moves to [p]. *)
Lemma inl_value t p v :
  Inv t → t.(state) ≠ Data → t.(state) ≠ TagName → t.(pos) < p → p ≤ length t.(input) →
  step_post t (inl (set_attr_value v (set_pos p t))).
Proof.
  intros HI Hd Hn Hp Hle. pose proof (inv_text _ HI Hd) as Htb. split_and!; [|done..|].
  - split; cbn; inv_done HI.
  - unfold work, pending. cbn. rewrite Htb. lia.
Qed.

Ltac arm_split Hst :=
  match goal with
  | |- context [if ?b then _ else _] => destruct b eqn:?
  end.
Ltac arm_ret := eexists; split; [reflexivity|].
Ltac arm_fields HI Hst :=
  cbn; rewrite ?Hst; first
    [ done | exact (inv_attrs _ HI) | exact (inv_attr_name _ HI) | exact (inv_tag_name _ HI)
    | by auto with blueice | by eauto
    | apply is_lower_snoc; exact (inv_attr_name _ HI)
    | apply is_lower_snoc; exact (inv_tag_name _ HI)
    | by intros; apply (inv_named _ HI); rewrite Hst
    | by apply (inv_named _ HI); rewrite Hst
    | by intros; apply app_singleton_ne | by intros; congruence ].
Ltac arm_read HI Hst Ep :=
  rewrite ?(advance_Some _ _ Ep); eapply inl_read;
    [exact HI|by rewrite Hst|exact Ep|reflexivity..| | | | |]; arm_fields HI Hst.
Ltac arm_turn HI Hst :=
  eapply inl_turn; [exact HI|by rewrite Hst| | |reflexivity..| | | | |]; arm_fields HI Hst.
Ltac arm_commit HI Ep :=
  let X := fresh "X" in let HX := fresh "HX" in let E := fresh "E" in
  destruct (commit_advance _ _ HI Ep) as (X & HX & E); rewrite E.
Ltac arm_emit HI Hst Ep :=
  rewrite ?(advance_Some _ _ Ep); eapply emit_tag_post;
    [exact HI|by rewrite Hst|exact Ep|reflexivity..| | | |]; arm_fields HI Hst.
(** The end of the input in a tag state, then the arms on the next character. *)
Ltac arm_peek HI Hst Ep :=
  match goal with
  | |- context [peek ?t] =>
      destruct (peek t) eqn:Ep;
        [|arm_ret; apply inr_eof; [exact HI|by rewrite Hst|exact Ep]]
  end.

Abbreviation arm_ok f s :=
  (∀ t, Inv t → t.(state) = s → ∃ x, f t = Ok x ∧ step_post t x) (only parsing).

Lemma step_tag_name_ok : arm_ok step_tag_name TagName.
Proof.
  intros t HI Hst. unfold step_tag_name. arm_peek HI Hst Ep.
  destruct (inv_naming _ HI Hst) as [Hn|(c & Hc & Halpha)].
  - repeat arm_split Hst; arm_ret;
      [arm_read HI Hst Ep|arm_read HI Hst Ep|arm_emit HI Hst Ep|arm_read HI Hst Ep].
  - rewrite Ep in Hc. injection Hc as ->.
    assert (is_html_space c = false ∧ (c =? ch "/")%N = false ∧ (c =? ch ">")%N = false)
      as (-> & -> & ->).
    { revert Halpha. unfold is_ascii_alphabetic, is_ascii_upper, is_ascii_lower, in_range, is_html_space.
      rewrite !orb_true_iff, !andb_true_iff, !N.leb_le, !orb_false_iff, !N.eqb_neq. unfold ch; cbn. lia. }
    arm_ret. arm_read HI Hst Ep.
Qed.

Lemma step_before_attribute_name_ok : arm_ok step_before_attribute_name BeforeAttributeName.
Proof.
  intros t HI Hst. unfold step_before_attribute_name. arm_peek HI Hst Ep.
  repeat arm_split Hst; arm_ret;
    [arm_read HI Hst Ep|arm_read HI Hst Ep|arm_emit HI Hst Ep|arm_turn HI Hst].
Qed.

Lemma step_attribute_name_ok : arm_ok step_attribute_name AttributeName.
Proof.
  intros t HI Hst. unfold step_attribute_name. arm_peek HI Hst Ep. arm_commit HI Ep.
  repeat arm_split Hst; arm_ret;
    [arm_read HI Hst Ep|arm_read HI Hst Ep|arm_read HI Hst Ep|arm_emit HI Hst Ep|arm_read HI Hst Ep].
Qed.

Lemma step_after_attribute_name_ok : arm_ok step_after_attribute_name AfterAttributeName.
Proof.
  intros t HI Hst. unfold step_after_attribute_name. arm_peek HI Hst Ep. arm_commit HI Ep.
  repeat arm_split Hst; arm_ret;
    [arm_read HI Hst Ep|arm_read HI Hst Ep|arm_read HI Hst Ep|arm_emit HI Hst Ep|].
  pose proof (commit_attrs _ (inv_attrs _ HI) (inv_attr_name _ HI)) as HX'.
  rewrite commit_set_attrs. generalize dependent (tag_attrs (commit_pending_attr t)). intros.
  arm_turn HI Hst.
Qed.

Lemma step_before_attribute_value_ok : arm_ok step_before_attribute_value BeforeAttributeValue.
Proof.
  intros t HI Hst. unfold step_before_attribute_value. arm_peek HI Hst Ep. arm_commit HI Ep.
  repeat arm_split Hst; arm_ret;
    [arm_read HI Hst Ep|arm_read HI Hst Ep|arm_read HI Hst Ep|arm_emit HI Hst Ep|arm_turn HI Hst].
Qed.

Lemma step_attribute_value_quoted_ok q s :
  s = AttributeValueDoubleQuoted ∨ s = AttributeValueSingleQuoted →
  arm_ok (step_attribute_value_quoted q) s.
Proof.
  intros Hs t HI Hst.
  assert (t.(state) ≠ Data ∧ t.(state) ≠ TagName ∧ in_tag t.(state) = true) as (Hd & Hn & Hin).
  { rewrite Hst. by destruct Hs as [->| ->]. }
  unfold step_attribute_value_quoted. destruct (peek t) eqn:Ep; [|arm_ret; by apply inr_eof].
  arm_commit HI Ep. destruct (char_ref_advance _ _ HI Ep) as (p & v & Ec & Hp1 & Hp2 & _). rewrite Ec.
  rewrite (advance_Some _ _ Ep). pose proof (peek_Some _ _ Ep).
  repeat arm_split Hst; arm_ret; [|by apply inl_value|apply inl_value; [done..|lia|lia]].
  eapply inl_read; [exact HI|done|exact Ep|reflexivity..| | | | |]; cbn; try arm_fields HI Hst.
  intros _. by apply (inv_named _ HI).
Qed.

Lemma step_attribute_value_unquoted_ok : arm_ok step_attribute_value_unquoted AttributeValueUnquoted.
Proof.
  intros t HI Hst. assert (t.(state) ≠ Data ∧ t.(state) ≠ TagName) as [Hd Hn] by by rewrite Hst.
  unfold step_attribute_value_unquoted. arm_peek HI Hst Ep. arm_commit HI Ep.
  destruct (char_ref_advance _ _ HI Ep) as (p & v & Ec & Hp1 & Hp2 & _). rewrite Ec.
  pose proof (peek_Some _ _ Ep). repeat arm_split Hst; arm_ret;
    [arm_read HI Hst Ep|by apply inl_value|arm_emit HI Hst Ep|].
  rewrite (advance_Some _ _ Ep). apply inl_value; [done..|lia|lia].
Qed.

Lemma step_after_attribute_value_quoted_ok :
  arm_ok step_after_attribute_value_quoted AfterAttributeValueQuoted.
Proof.
  intros t HI Hst. unfold step_after_attribute_value_quoted. arm_peek HI Hst Ep.
  repeat arm_split Hst; arm_ret;
    [arm_read HI Hst Ep|arm_read HI Hst Ep|arm_emit HI Hst Ep|arm_turn HI Hst].
Qed.

Lemma step_self_closing_start_tag_ok : arm_ok step_self_closing_start_tag SelfClosingStartTag.
Proof.
  intros t HI Hst. unfold step_self_closing_start_tag. arm_peek HI Hst Ep.
  assert (advance (set_self_closing true t) = set_pos (S t.(pos)) (set_self_closing true t)) as E.
  { eapply (advance_Some (set_self_closing true t)). exact Ep. }
  rewrite E. repeat arm_split Hst; arm_ret; [arm_emit HI Hst Ep|arm_turn HI Hst].
Qed.

(** Comments, doctypes and bogus comments opened at or after the current
    position. *)
Lemma inr_consumed t u f tok :
  Inv t → t.(state) ≠ Data → 0 < rank t.(state) →
  (∀ v, v.(pos) ≤ length v.(input) →
     ∃ p, f v = Ok (tok, set_state Data (set_pos p v)) ∧ moved v p) →
  (tok = Comment ∨ tok = Doctype) →
  (∃ q, u = set_pos q t ∧ t.(pos) ≤ q ∧ q ≤ length t.(input)) →
  ∃ x, (r ← f u; Ok (inr r)) = Ok x ∧ step_post t x.
Proof.
  intros HI Hd Hr Hf Htok (q & -> & Hq1 & Hq2). destruct (Hf (set_pos q t)) as (p & -> & [Hp1 Hp2]);
    [done|]. cbn in *. arm_ret. rewrite set_pos_twice.
  apply inr_moved; [done..|by left|split; lia|naive_solver].
Qed.

Lemma skip_advance t c n s :
  peek t = Some c → matches_at n t.(input) (S t.(pos)) s = true →
  ∃ q, skip (length s) (advance t) = set_pos q t ∧ t.(pos) ≤ q ∧ q ≤ length t.(input).
Proof.
  intros Ep Hm. rewrite (advance_Some _ _ Ep). apply peek_Some in Ep.
  apply matches_at_length in Hm; [|lia]. eexists; split; [done|]. cbn. lia.
Qed.

Lemma step_tag_open_ok : arm_ok step_tag_open TagOpen.
Proof.
  intros t HI Hst. assert (t.(state) ≠ Data) as Hd by by rewrite Hst.
  assert (0 < rank t.(state)) as Hr by (rewrite Hst; cbn; lia).
  pose proof (inv_pos _ HI) as Hpos. unfold step_tag_open. destruct (peek t) as [c|] eqn:Ep.
  2: { arm_ret. rewrite <-(set_pos_id t) at 2. apply inr_moved; [done..|by left|split; lia|].
       right. right. by eexists. }
  pose proof (peek_Some _ _ Ep) as Hlt.
  destruct (is_ascii_alphabetic c) eqn:Ea; [arm_ret; arm_turn HI Hst|].
  destruct (c =? ch "/")%N; [arm_ret; arm_read HI Hst Ep|].
  destruct (c =? ch "!")%N; [|destruct (c =? ch "?")%N].
  - cbv zeta. destruct (matches_ahead (advance t) (str "--")) eqn:E1;
      [|destruct (matches_ahead_ignore_case (advance t) (str "DOCTYPE")) eqn:E2].
    + unfold matches_ahead in E1. rewrite (advance_Some _ _ Ep) in E1.
      eapply inr_consumed; eauto using consume_comment_run.
      exact (skip_advance _ _ _ (str "--") Ep E1).
    + unfold matches_ahead_ignore_case in E2. rewrite (advance_Some _ _ Ep) in E2.
      eapply inr_consumed; eauto using consume_doctype_run.
      exact (skip_advance _ _ _ (str "DOCTYPE") Ep E2).
    + eapply inr_consumed; eauto using consume_bogus_comment_run.
      exists (S t.(pos)). split_and!; [by apply (advance_Some _ c)|lia|lia].
  - eapply inr_consumed; eauto using consume_bogus_comment_run.
    exists t.(pos). split_and!; [by rewrite set_pos_id|lia|lia].
  - arm_ret. split_and!; [|done..|].
    + split; cbn; inv_done HI.
    + unfold work, pending. cbn. rewrite (inv_text _ HI Hd), Hst. cbn. lia.
Qed.

Lemma step_end_tag_open_ok : arm_ok step_end_tag_open EndTagOpen.
Proof.
  intros t HI Hst. assert (t.(state) ≠ Data) as Hd by by rewrite Hst.
  assert (0 < rank t.(state)) as Hr by (rewrite Hst; cbn; lia).
  pose proof (inv_pos _ HI) as Hpos. unfold step_end_tag_open. destruct (peek t) as [c|] eqn:Ep.
  2: { arm_ret. rewrite <-(set_pos_id t) at 2. apply inr_moved; [done..|by left|split; lia|].
       right. right. by eexists. }
  destruct (is_ascii_alphabetic c) eqn:Ea; [arm_ret; arm_turn HI Hst|].
  destruct (c =? ch ">")%N; [arm_ret; arm_read HI Hst Ep|].
  eapply inr_consumed; eauto using consume_bogus_comment_run.
  exists t.(pos). split_and!; [by rewrite set_pos_id|lia|lia].
Qed.

(** What a raw-text call gives is what the data arm owes. *)
Lemma raw_post_step t r : Inv t → t.(state) = Data → raw_post t r → token_post t r.
Proof.
  destruct r as [tok t']. intros HI Hst (p & Et & [Hp1 Hp2] & Htok). cbn in Et, Htok. subst t'.
  assert (Inv (set_text [] (set_pos p t))) as HI' by (split; cbn; rewrite ?Hst; inv_done HI).
  assert (∀ u : Tokenizer, t.(pos) < p ∨ t.(text_buffer) ≠ [] →
    work (set_text [] (set_pos p t)) < work t) as Hw.
  { intros _ Hor. unfold work, pending; cbn. rewrite Hst. cbn. destruct (text_buffer t); naive_solver lia. }
  unfold token_post. destruct tok; cbn -[work]; try done; split_and!; try done;
    destruct Htok as [H1 H2]; eauto; by apply (inv_last _ HI).
Qed.

Lemma inl_text t p s :
  Inv t → t.(state) = Data → t.(content_model) = CmData → t.(pos) < p → p ≤ length t.(input) →
  step_post t (inl (push_text s (set_pos p t))).
Proof.
  intros HI Hst Hcm Hp Hle. split_and!; [|done..|].
  - split; cbn; rewrite ?Hst, ?Hcm; inv_done HI.
  - unfold work, pending. cbn. rewrite Hst. cbn. repeat case_match; lia.
Qed.

Lemma step_data_ok : arm_ok step_data Data.
Proof.
  intros t HI Hst. pose proof (inv_pos _ HI) as Hpos. unfold step_data.
  destruct (content_model t) eqn:Ecm;
    [|destruct (consume_rawtext_run true t Hst Hpos) as (r & -> & Hr)
     |destruct (consume_rawtext_run false t Hst Hpos) as (r & -> & Hr)
     |destruct (consume_script_run t Hst Hpos (inv_script _ HI Ecm)) as (r & -> & Hr)];
    [|arm_ret; by apply raw_post_step..].
  assert ((text_buffer t = [] → peek t = None) →
    step_post t (inr (flush_text_or_eof t))) as Hflush.
  { intros H. apply (raw_post_step t); [done..|]. apply raw_flush; [by apply raw_inv_refl|done]. }
  destruct (peek t) as [c|] eqn:Ep; [|arm_ret; auto]. pose proof (peek_Some _ _ Ep) as Hlt.
  destruct (char_ref_advance _ _ HI Ep) as (p & s & Ec & Hp1 & Hp2 & _). rewrite Ec.
  rewrite (advance_Some _ _ Ep).
  destruct (c =? ch "<")%N; [|destruct (c =? ch "&")%N; arm_ret; apply inl_text; done || lia].
  destruct (text_buffer t) as [|b bs] eqn:Eb; arm_ret; [|by apply Hflush].
  split_and!; [|done..|].
  - split; cbn; rewrite ?Eb; inv_done HI.
  - unfold work, pending. cbn. rewrite Eb. lia.
Qed.

Lemma step_ok t : Inv t → ∃ x, step t = Ok x ∧ step_post t x.
Proof.
  intros HI. unfold step. destruct (state t) eqn:Hst;
    eauto using step_data_ok, step_tag_open_ok, step_end_tag_open_ok, step_tag_name_ok,
      step_before_attribute_name_ok, step_attribute_name_ok, step_after_attribute_name_ok,
      step_before_attribute_value_ok, step_attribute_value_quoted_ok,
      step_attribute_value_unquoted_ok, step_after_attribute_value_quoted_ok,
      step_self_closing_start_tag_ok.
Qed.

(** ** The whole call *)
Lemma token_post_trans t t' r : step_post t (inl t') → token_post t' r → token_post t r.
Proof.
  intros (HI & Ein & Ecm & Hw) (H1 & H2 & H3 & H4 & H5 & H6 & H7). unfold token_post.
  split_and!; [done..|congruence|congruence| |done]. destruct r.1; (done || lia).
Qed.

Lemma work_fuel t : work t < token_fuel t.
Proof. unfold work, token_fuel, pending. destruct (text_buffer t), (state t); cbn [rank]; lia. Qed.

Lemma next_token_ok t : Inv t → ∃ r, next_token t = Ok r ∧ token_post t r.
Proof.
  intros HI. unfold next_token. apply (iterate_total Inv token_post work); [|done|apply work_fuel].
  intros s Hs. destruct (step_ok s Hs) as (x & -> & Hx). arm_ret. destruct x as [s'|r]; [|done].
  split_and!; [by apply Hx..|]. intros r. by apply token_post_trans.
Qed.
