(* ===== verification/HtmlProps.v ===== *)
(** * What the HTML tokenizer promises to the tree builder

    Totality of [next_token] on every tokenizer a consumer can drive, termination of the
    whole stream, and round trips: text, start tags and raw text read back as printed. *)

From S2P Require Import Prelude HtmlTokenizer HtmlTotal.

(** ** Driven tokenizers: what a consumer can reach *)
Inductive driven : Tokenizer → Prop :=
  | driven_new s : driven (new_tokenizer s)
  | driven_next t tok t' : driven t → next_token t = Ok (tok, t') → driven t'
  | driven_switch t m :
      driven t → (m = CmScriptData → t.(last_start_tag_name) = Some (str "script")) →
      driven (set_content_model m t).

Lemma new_Inv s : Inv (new_tokenizer s).
Proof. split; cbn; try done; (lia || apply attrs_ok_nil). Qed.

Lemma set_content_model_Inv t m :
  Inv t → (m = CmScriptData → t.(last_start_tag_name) = Some (str "script")) →
  Inv (set_content_model m t).
Proof. intros HI Hm. split; cbn; inv_done HI. Qed.

Lemma next_token_inv t r : Inv t → next_token t = Ok r → token_post t r.
Proof. intros HI Hr. destruct (next_token_ok t HI) as (r' & Hr' & Hpost). congruence. Qed.

Lemma driven_Inv t : driven t → Inv t ∧ t.(state) = Data.
Proof.
  induction 1 as [s|t tok t' _ [HI _] Hn|t m _ [HI _] Hm].
  - split; [apply new_Inv|done].
  - apply (next_token_inv _ _ HI) in Hn. split; apply Hn.
  - split; [by apply set_content_model_Inv|done].
Qed.

(** [next_token] is total: on every tokenizer a consumer can reach (by reading tokens and
    switching content models, script data only after a [script] start tag) it returns within
    its bound and without a panic; the token is well formed (a non-empty text run, a non-empty
    lower-case tag name, attribute names non-empty, lower-case and distinct), and [Eof] is
    returned only at the end of the input with no text left behind. *)
Theorem next_token_total t :
  driven t →
  ∃ tok t', next_token t = Ok (tok, t') ∧ token_ok tok ∧ driven t'
    ∧ (tok = Eof → t'.(pos) = length t'.(input) ∧ t'.(text_buffer) = []).
Proof.
  intros Ht. destruct (driven_Inv t Ht) as [HI _]. destruct (next_token_ok t HI) as ([tok t'] & Hn & Hp).
  exists tok, t'. destruct Hp as (HI' & Hok & _ & _ & _ & Heof & _). cbn in *.
  split_and!; [done..|by eapply driven_next|]. intros ->. destruct Heof as [Hpk Htb]. split; [|done].
  apply peek_None in Hpk. pose proof (inv_pos _ HI'). lia.
Qed.

Lemma next_token_total_witness :
  ∃ tok t', next_token (new_tokenizer (str "<a b>")) = Ok (tok, t') ∧ token_ok tok ∧ driven t'
    ∧ (tok = Eof → t'.(pos) = length t'.(input) ∧ t'.(text_buffer) = []).
Proof. apply (next_token_total (new_tokenizer (str "<a b>"))). constructor. Defined.

(** ** The stream ends *)

(** The tokenizers that a consumer leaves behind when it may switch to any content model after any
    token: between two tokens the content model is not part of the invariant. *)
Definition between (t : Tokenizer) : Prop := Inv (set_content_model CmData t) ∧ t.(state) = Data.

Lemma between_switch t m : between t → between (switch m t).
Proof. destruct m; [|done]. intros [HI Hst]. by split. Qed.

Lemma between_Inv t : between t → t.(content_model) ≠ CmScriptData → Inv t.
Proof.
  intros [[] Hst] Hcm. split; cbn in *; rewrite ?Hst; try done; intros; congruence.
Qed.

Lemma Inv_between t : Inv t → t.(state) = Data → between t.
Proof. intros HI Hst. split; [|done]. split; cbn; inv_done HI. Qed.

(** What the next token owes. *)
Definition next_post (t : Tokenizer) (r : Token * Tokenizer) : Prop :=
  between r.2 ∧ token_ok r.1 ∧ (r.1 ≠ Eof → work r.2 < work t)
  ∧ r.2.(content_model) = t.(content_model)
  ∧ (t.(content_model) = CmScriptData → r.2.(last_start_tag_name) = t.(last_start_tag_name))
  ∧ ∀ n a b, r.1 = StartTag n a b → r.2.(last_start_tag_name) = Some n.

(** The next token comes, or reading script data after a short start tag name panics. *)
Lemma next_token_cases t :
  between t →
  (∃ r, next_token t = Ok r ∧ next_post t r)
  ∨ (next_token t = Panic ∧ t.(content_model) = CmScriptData ∧ short_name t).
Proof.
  intros Hb. pose proof Hb as [HI Hst].
  assert (t.(content_model) = CmScriptData ∨ t.(content_model) ≠ CmScriptData) as [Hcm|Hcm]
    by (destruct (content_model t); auto).
  - assert (next_token t = consume_script_data t) as Hnext.
    { unfold next_token. destruct (token_fuel t) as [|k] eqn:Ef; [pose proof (work_fuel t); lia|].
      cbn [iterate]. unfold step, step_data. rewrite Hst, Hcm. by destruct (consume_script_data t). }
    rewrite Hnext. destruct (consume_script_cases t Hst (inv_pos _ HI)) as [([tok t'] & -> & Hr)|[-> Hs]]; [left|by right].
    eexists; split; [done|]. destruct Hr as (p & Et & Hm & Htok). cbn in Et, Htok. subst t'.
    assert (raw_post (set_content_model CmData t) (tok, set_text [] (set_pos p (set_content_model CmData t)))) as Hr
      by (exists p; split_and!; [done..|by destruct tok]).
    apply raw_post_step in Hr as (HI' & Hok & _ & _ & _ & Hw & Hls); [|done..]. cbn in HI', Hok, Hls.
    split_and!; cbn -[work]; try done.
    intros Hne. unfold work, pending in *. cbn in *. rewrite Hst. by destruct tok.
  - left. destruct (next_token_ok t (between_Inv t Hb Hcm)) as ([tok t'] & -> & HI' & Hok & Hst' & _ & Hcm' & Hw & Hls).
    eexists; split; [done|]. cbn -[work] in *. split_and!; try done; [by apply Inv_between|by destruct tok].
Qed.

Section StreamEnds.
Context {D : Type} (consume : D → Token → D * option ContentModel).

(** The consumer chooses script data while the last start tag has a name of fewer than five
    characters. *)
Inductive chooses_short : D → Tokenizer → Prop :=
  | chooses_now d t tok t' :
      next_token t = Ok (tok, t') → tok ≠ Eof →
      (consume d tok).2 = Some CmScriptData → short_name t' → chooses_short d t
  | chooses_later d t tok t' :
      next_token t = Ok (tok, t') → tok ≠ Eof →
      chooses_short (consume d tok).1 (switch (consume d tok).2 t') → chooses_short d t.

Lemma stream_cons fuel d t tok t' :
  next_token t = Ok (tok, t') → tok ≠ Eof →
  stream consume (S fuel) d t
  = (ts ← stream consume fuel (consume d tok).1 (switch (consume d tok).2 t'); Ok (tok :: ts)).
Proof.
  intros Hn Hne. cbn [stream]. rewrite Hn. cbn [mbind res_bind].
  destruct tok; try done; by destruct (consume d _).
Qed.

Lemma stream_cases fuel d t :
  between t → work t < fuel →
  (∃ ts, stream consume fuel d t = Ok (ts ++ [Eof]) ∧ length ts ≤ work t
     ∧ Forall (λ tok, token_ok tok ∧ tok ≠ Eof) ts)
  ∨ (stream consume fuel d t = Panic
     ∧ ((t.(content_model) = CmScriptData ∧ short_name t) ∨ chooses_short d t)).
Proof.
  revert d t; induction fuel as [|fuel IH]; intros d t Hb Hw; [lia|].
  destruct (next_token_cases t Hb) as [([tok t'] & Hn & Hb' & Hok & Hlt & Hcm & Hls & _)|(Hn & Hcm & Hs)].
  2: { right. cbn [stream]. rewrite Hn. split; [done|by left]. }
  cbn [fst snd] in *. destruct (decide (tok = Eof)) as [->|Hne].
  { left. exists []. cbn [stream]. rewrite Hn. cbn. split_and!; [done|lia|done]. }
  specialize (Hlt Hne). rewrite (stream_cons _ _ _ _ _ Hn Hne).
  set (m := (consume d tok).2). set (d' := (consume d tok).1).
  assert (work (switch m t') = work t') as Hws.
  { destruct Hb' as [_ Hst']. destruct m; [|done]. unfold work, pending. cbn. by rewrite Hst'. }
  destruct (IH d' (switch m t')) as [(ts & -> & Hlen & Hall)|[-> Hwhy]]; [by apply between_switch|lia|left|right].
  - exists (tok :: ts). split_and!; [done|cbn [length]; lia|by constructor].
  - split; [done|]. destruct Hwhy as [[Hc Hs]|Hc]; [|right; exact (chooses_later _ _ _ _ Hn Hne Hc)].
    destruct m as [cm|] eqn:Em; cbn in Hc, Hs.
    + right. rewrite Hc in Em. exact (chooses_now _ _ _ _ Hn Hne Em Hs).
    + left. rewrite Hcm in Hc. split; [done|]. unfold short_name in *. by rewrite <-Hls.
Qed.

(** Script data is chosen only in answer to a [script] start tag. *)
Definition script_guarded : Prop :=
  ∀ d tok, (consume d tok).2 = Some CmScriptData → ∃ a b, tok = StartTag (str "script") a b.

Lemma guarded_not_short d t : script_guarded → between t →
  (t.(content_model) = CmScriptData → ¬ short_name t) → ¬ chooses_short d t.
Proof.
  intros Hg Hb Hsafe H. revert Hb Hsafe.
  induction H as [d t tok t' Hn Hne Hm Hs|d t tok t' Hn Hne _ IH]; intros Hb Hsafe;
    (destruct (next_token_cases t Hb) as [(r & Hn' & Hb' & _ & _ & Hcm & Hls & Hst)|(Hn' & _)]; [|congruence]);
    rewrite Hn in Hn'; injection Hn' as <-; cbn [fst snd] in *.
  - destruct (Hg _ _ Hm) as (a & b & ->). destruct Hs as (n & Hname & Hlen).
    rewrite (Hst _ _ _ eq_refl) in Hname. injection Hname as <-. cbn in Hlen. lia.
  - apply IH; [by apply between_switch|]. destruct (consume d tok).2 as [m|] eqn:Em; cbn.
    + intros -> (n & Hname & Hlen). destruct (Hg _ _ Em) as (a & b & ->).
      cbn in Hname. rewrite (Hst _ _ _ eq_refl) in Hname. injection Hname as <-. cbn in Hlen. lia.
    + rewrite Hcm. intros Hc. unfold short_name. rewrite (Hls Hc). by apply Hsafe.
Qed.

(** A guarded consumer reads the whole stream. *)
Lemma stream_ok fuel d t :
  script_guarded → Inv t → t.(state) = Data → t.(content_model) ≠ CmScriptData → work t < fuel →
  ∃ ts, stream consume fuel d t = Ok (ts ++ [Eof]) ∧ length ts ≤ work t
     ∧ Forall (λ tok, token_ok tok ∧ tok ≠ Eof) ts.
Proof.
  intros Hg HI Hst Hcm Hw. assert (between t) as Hb by by apply Inv_between.
  destruct (stream_cases fuel d t Hb Hw) as [?|[_ [[? _]|Hc]]]; [done..|].
  by apply guarded_not_short in Hc.
Qed.

End StreamEnds.

(** C31. The token stream always ends.  Whatever the consumer does with the tokens, switching to any
    content model after any token, reading any input never goes on for ever: it yields a finite
    sequence of well-formed tokens, at most four per character of the normalized input, closed by
    exactly one [Eof], or it panics.  It panics only if the consumer chose script data while the
    last start tag had a name of fewer than five characters ([short_name_panics] is such a run); a
    consumer that chooses script data only in answer to a [script] start tag, as the tree builder
    does, never makes it panic. *)
Theorem token_stream_ends {D} (consume : D → Token → D * option ContentModel) (d : D) s :
  let t := new_tokenizer s in
  ((∃ ts, stream consume (token_fuel t) d t = Ok (ts ++ [Eof])
      ∧ length ts ≤ 4 * length t.(input) ∧ Forall (λ tok, token_ok tok ∧ tok ≠ Eof) ts)
   ∨ (stream consume (token_fuel t) d t = Panic ∧ chooses_short consume d t))
  ∧ (script_guarded consume → ¬ chooses_short consume d t).
Proof.
  intros t. assert (between t) as Hb by (apply Inv_between; [apply new_Inv|done]). split.
  - destruct (stream_cases consume (token_fuel t) d t Hb (work_fuel t)) as [(ts & Hts & Hlen & Hall)|[Hp [[Hc _]|Hc]]];
      [left|done|by right].
    exists ts. split_and!; [done| |done]. unfold work, pending in Hlen. cbn in *. lia.
  - intros Hg. by apply guarded_not_short.
Qed.

(** A consumer that answers the [a] start tag with script data: inside the comment the end tag
    [</a>] is taken for [</script>], whose eight characters are not there. *)
Definition short_switcher (_ : unit) (tok : Token) : unit * option ContentModel :=
  (tt, match tok with StartTag _ _ _ => Some CmScriptData | _ => None end).

Example short_name_panics :
  (let t := new_tokenizer (str "<a><!--<script></a>") in stream short_switcher (token_fuel t) tt t) = Panic.
Proof. vm_compute. reflexivity. Qed.

(** A consumer that switches as the tree builder does for the raw-text elements. *)
Definition raw_switcher (_ : unit) (tok : Token) : unit * option ContentModel :=
  (tt, match tok with
       | StartTag n _ _ =>
           if decide (n = str "script") then Some CmScriptData
           else if decide (n = str "style") then Some CmRawtext
           else if decide (n = str "title") then Some CmRcdata else None
       | EndTag _ => Some CmData
       | _ => None
       end).

Lemma raw_switcher_guarded : script_guarded raw_switcher.
Proof.
  intros d tok. unfold raw_switcher. destruct tok; cbn; try done.
  repeat case_decide; try done. intros _. subst. eauto.
Qed.

Lemma token_stream_ends_witness :
  let t := new_tokenizer (str "<script><!--<script></script>--></script>x") in
  ((∃ ts, stream raw_switcher (token_fuel t) tt t = Ok (ts ++ [Eof])
      ∧ length ts ≤ 4 * length t.(input) ∧ Forall (λ tok, token_ok tok ∧ tok ≠ Eof) ts)
   ∨ (stream raw_switcher (token_fuel t) tt t = Panic ∧ chooses_short raw_switcher tt t))
  ∧ (script_guarded raw_switcher → ¬ chooses_short raw_switcher tt t).
Proof. apply (token_stream_ends raw_switcher tt (str "<script><!--<script></script>--></script>x")). Defined.

(** ** Raw text is delivered verbatim *)

(** From the current position no end tag of the open raw-text element starts within the next
    [n] characters. *)
Definition no_end_tag_within (n : nat) (t : Tokenizer) : Prop :=
  ∀ i, i < n → matches_appropriate_end_tag_ahead (set_pos (t.(pos) + i) t) = false.

Lemma rawtext_scan fuel t body r :
  (∀ i c, body !! i = Some c → t.(input) !! (t.(pos) + i) = Some c) →
  no_end_tag_within (length body) t →
  iterate fuel (rawtext_step false) t = Ok r →
  ∃ fuel', iterate fuel' (rawtext_step false)
    (set_text (t.(text_buffer) ++ (replace_nul <$> body)) (set_pos (t.(pos) + length body) t)) = Ok r.
Proof.
  revert fuel t; induction body as [|c body IH]; intros fuel t Hbody Hno Hr.
  { exists fuel. cbn. rewrite app_nil_r, Nat.add_0_r. by destruct t. }
  destruct fuel as [|fuel]; [done|]. cbn in Hr.
  assert (peek t = Some c) as Ep by (unfold peek; rewrite <-(Hbody 0 c eq_refl); f_equal; lia).
  assert (rawtext_step false t = Ok (inl (push_text [replace_nul c] (set_pos (S t.(pos)) t)))) as Es.
  { unfold rawtext_step. rewrite Ep. specialize (Hno 0) as H0. rewrite Nat.add_0_r, set_pos_id in H0.
    rewrite H0 by (cbn; lia). by rewrite !andb_false_r, (advance_Some _ _ Ep). }
  rewrite Es in Hr. cbn [mbind res_bind] in Hr.
  apply IH in Hr as (fuel' & Hr).
  - exists fuel'. rewrite <-Hr. cbn. by rewrite <-app_assoc, Nat.add_succ_r.
  - intros i x Hx. cbn. rewrite <-(Hbody (S i) x Hx). f_equal. lia.
  - intros i Hi. specialize (Hno (S i)). cbn in Hno |- *. rewrite Nat.add_succ_r in Hno.
    apply Hno. cbn. lia.
Qed.

(** Raw text is delivered verbatim: inside a raw-text element (a [style] sheet, say), the
    characters before the element's own end tag come back as one text token, whatever markup
    they look like, with NUL replaced by U+FFFD; the tokenizer then stands at the end tag. *)
Theorem rawtext_verbatim t body :
  driven t → t.(content_model) = CmRawtext → t.(text_buffer) = [] → body ≠ [] →
  (∀ i c, body !! i = Some c → t.(input) !! (t.(pos) + i) = Some c) →
  no_end_tag_within (length body) t →
  matches_appropriate_end_tag_ahead (set_pos (t.(pos) + length body) t) = true →
  next_token t = Ok (Character (replace_nul <$> body), set_pos (t.(pos) + length body) t).
Proof.
  intros [HI Hst]%driven_Inv Hcm Htb Hne Hbody Hno Hend.
  destruct (consume_rawtext_run false t Hst (inv_pos _ HI)) as (r & Hr & _).
  assert (next_token t = Ok r) as ->.
  { unfold next_token, token_fuel. rewrite Nat.add_comm. apply iterate_inr.
    unfold step, step_data. by rewrite Hst, Hcm, Hr. }
  f_equal. apply (rawtext_scan _ _ body) in Hr as ([|fuel'] & Hr); [done| |done..]. cbn in Hr.
  apply bind_Ok in Hr as (x & Hx & Hr). unfold rawtext_step in Hx.
  set (u := set_text _ _) in *. assert (matches_appropriate_end_tag_ahead u = true) as Hu by done.
  rewrite Hu in Hx. destruct (peek u) as [c|] eqn:Ep.
  2: { apply appropriate_bound in Hu as (n & _ & Hlt). apply peek_None in Ep. lia. }
  assert (c = ch "<") as ->.
  { unfold matches_appropriate_end_tag_ahead in Hu. destruct (last_start_tag_name u); [|done].
    rewrite !andb_true_iff, !bool_decide_eq_true in Hu. naive_solver congruence. }
  assert (text_buffer u = replace_nul <$> body) as Eb by (cbn; by rewrite Htb).
  unfold flush_text_or_eof in Hx. rewrite Eb in Hx. destruct body as [|b body]; [done|].
  cbn in Hx. injection Hx as <-. injection Hr as <-. f_equal. destruct t; cbn in *; by subst.
Qed.

(** The tokenizer inside [<style>] in [<style>a<b></style>]. *)
Definition style_start : Token * Tokenizer :=
  Eval vm_compute in match next_token (new_tokenizer (str "<style>a<b></style>")) with
                     | Ok r => r
                     | _ => (Eof, new_tokenizer [])
                     end.
Definition in_style : Tokenizer := set_content_model CmRawtext style_start.2.

Lemma rawtext_verbatim_witness :
  next_token in_style = Ok (Character (str "a<b>"), set_pos 11 in_style).
Proof.
  apply (rawtext_verbatim in_style (str "a<b>")); try done.
  - unfold in_style. apply driven_switch; [|done].
    apply (driven_next (new_tokenizer (str "<style>a<b></style>")) style_start.1); [constructor|].
    vm_compute. reflexivity.
  - intros i c Hi. do 4 (destruct i as [|i]; [by rewrite <-Hi|]). by destruct i.
  - intros i Hi. cbn in Hi. do 4 (destruct i as [|i]; [reflexivity|]). lia.
Defined.
