(* ===== verification/HtmlRoundTrip.v ===== *)
(** * Printing tokens and reading them back

    [print] writes a token as markup; tokenizing the concatenation of printed tokens gives the
    tokens back.  The proof follows the state machine one character at a time on
    configurations whose input is split at the current position. *)

From S2P Require Import Prelude HtmlTokenizer HtmlTotal HtmlProps.

(** ** Runs of the state machine *)
Definition runs (t : Tokenizer) (r : Token * Tokenizer) : Prop := ∃ n, iterate n step t = Ok r.

Lemma runs_inl t t' r : step t = Ok (inl t') → runs t' r → runs t r.
Proof. intros Hs [n Hn]. exists (S n). cbn. by rewrite Hs. Qed.

Lemma runs_inr t r : step t = Ok (inr r) → runs t r.
Proof. intros Hs. exists 1. cbn. by rewrite Hs. Qed.

Lemma runs_next t r : Inv t → runs t r → next_token t = Ok r.
Proof.
  intros HI [n Hn]. destruct (next_token_ok t HI) as (r' & Hr & _). rewrite Hr.
  unfold next_token in Hr. apply (iterate_mono _ _ (n `max` token_fuel t)) in Hn; [|lia].
  apply (iterate_mono _ _ (n `max` token_fuel t)) in Hr; [|lia]. congruence.
Qed.

(** ** Configurations split at the position *)
Definition cfg (st : State) (pre rest : list N) (ls : option (list N)) (tn : list N) (te sc : bool)
    (ta : list (list N * list N)) (an av tb : list N) : Tokenizer :=
  MkTokenizer (pre ++ rest) (length pre) st CmData ls tn te sc ta an av tb.

Section Cfg.
Context (pre rest : list N) (ls : option (list N)) (tn : list N) (te sc : bool).
Context (ta : list (list N * list N)) (an av tb : list N) (st : State).

Lemma peek_cfg c : peek (cfg st pre (c :: rest) ls tn te sc ta an av tb) = Some c.
Proof. unfold peek, cfg; cbn. by apply list_lookup_middle. Qed.

Lemma peek_cfg_nil : peek (cfg st pre [] ls tn te sc ta an av tb) = None.
Proof. unfold peek, cfg; cbn. apply lookup_ge_None. rewrite length_app; cbn; lia. Qed.

Lemma set_pos_cfg c :
  set_pos (S (length pre)) (cfg st pre (c :: rest) ls tn te sc ta an av tb)
  = cfg st (pre ++ [c]) rest ls tn te sc ta an av tb.
Proof. unfold cfg, set_pos; cbn. rewrite length_app, <-app_assoc; cbn. by rewrite Nat.add_1_r. Qed.

Lemma advance_cfg c :
  advance (cfg st pre (c :: rest) ls tn te sc ta an av tb)
  = cfg st (pre ++ [c]) rest ls tn te sc ta an av tb.
Proof. rewrite (advance_Some _ c); [apply set_pos_cfg|apply peek_cfg]. Qed.

Lemma skip_cfg s :
  skip (length s) (cfg st pre (s ++ rest) ls tn te sc ta an av tb)
  = cfg st (pre ++ s) rest ls tn te sc ta an av tb.
Proof. unfold cfg, skip, set_pos; cbn. by rewrite length_app, <-app_assoc. Qed.

End Cfg.

(** [matches_at] looks for a prefix. *)
Fixpoint prefixb (eqb : N → N → bool) (s l : list N) : bool :=
  match s, l with
  | [], _ => true
  | c :: s', x :: l' => eqb x c && prefixb eqb s' l'
  | _, _ => false
  end.

Lemma matches_at_prefixb eqb pre l s : matches_at eqb (pre ++ l) (length pre) s = prefixb eqb s l.
Proof.
  revert pre l; induction s as [|c s IH]; intros pre l; [done|]. cbn.
  destruct l as [|x l].
  - by rewrite (proj2 (lookup_ge_None _ _)); [|rewrite length_app; cbn; lia].
  - rewrite list_lookup_middle by done. f_equal.
    replace (pre ++ x :: l) with ((pre ++ [x]) ++ l) by by rewrite <-app_assoc.
    replace (S (length pre)) with (length (pre ++ [x])) by (rewrite length_app; cbn; lia). apply IH.
Qed.

Lemma matches_ahead_cfg st pre rest ls tn te sc ta an av tb s :
  matches_ahead (cfg st pre rest ls tn te sc ta an av tb) s = prefixb N.eqb s rest.
Proof. apply matches_at_prefixb. Qed.

Lemma char_ref_cfg st pre rest ls tn te sc ta an av tb i name value :
  NAMED_REFERENCES !! i = Some (name, value) →
  consume_character_reference (cfg st pre (name ++ rest) ls tn te sc ta an av tb)
  = (value, cfg st (pre ++ name) rest ls tn te sc ta an av tb).
Proof.
  intros Hi. rewrite <-skip_cfg. unfold consume_character_reference. rewrite decide_False.
  - unfold NAMED_REFERENCES in *. cbn [list_find fst]. rewrite !matches_ahead_cfg.
    do 6 (destruct i as [|i]; [by injection Hi as <- <-|]). by destruct i.
  - do 6 (destruct i as [|i]; [injection Hi as <- <-; cbn -[peek cfg]; by rewrite peek_cfg|]).
    by destruct i.
Qed.

(** ** Printing *)
Definition escape_char (quoted : bool) (c : N) : list N :=
  if (c =? ch "&")%N then str "&amp;"
  else if negb quoted && (c =? ch "<")%N then str "&lt;"
  else if quoted && (c =? DQUOTE)%N then str "&quot;"
  else [c].
Definition escape (quoted : bool) (s : list N) : list N := s ≫= escape_char quoted.

Definition print_attr (a : list N * list N) : list N :=
  str " " ++ a.1 ++ str "=" ++ [DQUOTE] ++ escape true a.2 ++ [DQUOTE].

Definition print (tok : Token) : list N :=
  match tok with
  | Doctype => str "<!DOCTYPE>"
  | Comment => str "<!---->"
  | StartTag n attrs sc =>
      str "<" ++ n ++ (attrs ≫= print_attr) ++ str (if sc then "/>" else ">")
  | EndTag n => str "</" ++ n ++ str ">"
  | Character s => escape false s
  | Eof => []
  end.

(** Names that can be written: no delimiter of the grammar, lower case, and a letter first
    for tags. *)
Definition name_char (c : N) : bool :=
  negb (is_html_space c) && negb (c =? ch "/")%N && negb (c =? ch ">")%N
  && negb (is_ascii_upper c).
Definition tag_name_ok (n : list N) : bool :=
  match n with c :: _ => is_ascii_alphabetic c && forallb name_char n | [] => false end.
Definition attr_name_ok (n : list N) : bool :=
  match n with [] => false | _ => forallb (λ c, name_char c && negb (c =? ch "=")%N) n end.
Definition no_cr (s : list N) : bool := forallb (λ c, negb (c =? 13)%N) s.
Definition attrs_printable (attrs : list (list N * list N)) : bool :=
  bool_decide (NoDup attrs.*1) && forallb (λ a, attr_name_ok a.1 && no_cr a.2) attrs.
Definition printable (tok : Token) : bool :=
  match tok with
  | StartTag n attrs _ => tag_name_ok n && attrs_printable attrs
  | EndTag n => tag_name_ok n
  | Character s => no_cr s && bool_decide (s ≠ [])
  | Eof => false
  | _ => true
  end.

(** Two text runs in a row would be read as one. *)
Fixpoint no_adjacent_text (ts : list Token) : bool :=
  match ts with
  | Character _ :: ((Character _ :: _) as ts') => false
  | _ :: ts' => no_adjacent_text ts'
  | [] => true
  end.

(** ** One construct at a time *)
Section Steps.
Context (ls : option (list N)).

Lemma name_char_facts c :
  name_char c = true →
  is_html_space c = false ∧ (c =? ch "/")%N = false ∧ (c =? ch ">")%N = false
  ∧ to_ascii_lowercase c = c.
Proof.
  unfold name_char, to_ascii_lowercase. rewrite !andb_true_iff, !negb_true_iff.
  intros (((-> & ->) & ->) & ->). done.
Qed.

Lemma state_cfg st pre rest tn te sc ta an av tb : state (cfg st pre rest ls tn te sc ta an av tb) = st.
Proof. done. Qed.

Ltac enter_arm :=
  unfold step; rewrite state_cfg;
  unfold step_data, step_tag_open, step_end_tag_open, step_tag_name, step_before_attribute_name,
    step_attribute_name, step_before_attribute_value, step_attribute_value_double_quoted,
    step_attribute_value_quoted, step_after_attribute_value_quoted, step_self_closing_start_tag;
  rewrite ?peek_cfg.
Ltac hop := eapply runs_inl; [enter_arm|].
Ltac hop_end := rewrite ?advance_cfg; reflexivity.

Lemma run_tag_name n pre rest tn te sc ta an av r :
  forallb name_char n = true →
  runs (cfg TagName (pre ++ n) rest ls (tn ++ n) te sc ta an av []) r →
  runs (cfg TagName pre (n ++ rest) ls tn te sc ta an av []) r.
Proof.
  revert pre tn; induction n as [|c n IH]; intros pre tn; cbn [forallb].
  { rewrite !app_nil_r. done. }
  intros [(H1 & H2 & H3 & H4)%name_char_facts Hn]%andb_true_iff Hr. cbn [app].
  hop; [rewrite H1, H2, H3, H4; hop_end|].
  apply (IH (pre ++ [c]) (tn ++ [c]) Hn). by rewrite <-!app_assoc.
Qed.

Lemma run_attr_name n pre rest tn te sc ta an av r :
  forallb (λ c, name_char c && negb (c =? ch "=")%N) n = true →
  runs (cfg AttributeName (pre ++ n) rest ls tn te sc ta (an ++ n) av []) r →
  runs (cfg AttributeName pre (n ++ rest) ls tn te sc ta an av []) r.
Proof.
  revert pre an; induction n as [|c n IH]; intros pre an; cbn [forallb].
  { rewrite !app_nil_r. done. }
  intros [[(H1 & H2 & H3 & H4)%name_char_facts H5%negb_true_iff]%andb_true_iff Hn]%andb_true_iff Hr.
  cbn [app]. hop; [rewrite H1, H2, H3, H4, H5; hop_end|].
  apply (IH (pre ++ [c]) (an ++ [c]) Hn). by rewrite <-!app_assoc.
Qed.

(** A value between double quotes, escaped. *)
Lemma run_attr_value v pre rest tn te sc ta an av r :
  runs (cfg AttributeValueDoubleQuoted (pre ++ escape true v) rest ls tn te sc ta an (av ++ v) []) r →
  runs (cfg AttributeValueDoubleQuoted pre (escape true v ++ rest) ls tn te sc ta an av []) r.
Proof.
  revert pre av; induction v as [|c v IH]; intros pre av Hr.
  { cbn in *. rewrite !app_nil_r in Hr. done. }
  change (escape true (c :: v)) with (escape_char true c ++ escape true v) in *.
  rewrite <-app_assoc. rewrite app_assoc in Hr. replace (av ++ c :: v) with ((av ++ [c]) ++ v) in Hr
    by by rewrite <-app_assoc.
  apply IH in Hr. revert Hr. unfold escape_char. cbn [negb andb].
  destruct (N.eqb_spec c (ch "&")) as [->|Hamp]; [|destruct (N.eqb_spec c DQUOTE) as [->|Hq]]; intros Hr.
  - change (str "&amp;") with (ch "&" :: str "amp;") in *. cbn [app] in *.
    hop.
    + cbn [N.eqb]. rewrite advance_cfg, (char_ref_cfg _ _ _ _ _ _ _ _ _ _ _ 0 _ (str "&")) by done. reflexivity.
    + rewrite <-app_assoc. exact Hr.
  - change (str "&quot;") with (ch "&" :: str "quot;") in *. cbn [app] in *. hop.
    + cbn [N.eqb]. rewrite advance_cfg, (char_ref_cfg _ _ _ _ _ _ _ _ _ _ _ 3 _ [DQUOTE]) by done. reflexivity.
    + rewrite <-app_assoc. exact Hr.
  - cbn [app] in *. hop.
    + rewrite (proj2 (N.eqb_neq _ _) Hamp), (proj2 (N.eqb_neq _ _) Hq). hop_end.
    + done.
Qed.

(** Text, escaped. *)
Lemma run_text v pre rest tn te sc ta an av tb r :
  runs (cfg Data (pre ++ escape false v) rest ls tn te sc ta an av (tb ++ v)) r →
  runs (cfg Data pre (escape false v ++ rest) ls tn te sc ta an av tb) r.
Proof.
  revert pre tb; induction v as [|c v IH]; intros pre tb Hr.
  { cbn in *. rewrite !app_nil_r in Hr. done. }
  change (escape false (c :: v)) with (escape_char false c ++ escape false v) in *.
  rewrite <-app_assoc. rewrite app_assoc in Hr. replace (tb ++ c :: v) with ((tb ++ [c]) ++ v) in Hr
    by by rewrite <-app_assoc.
  apply IH in Hr. revert Hr. unfold escape_char. cbn [negb andb].
  destruct (N.eqb_spec c (ch "&")) as [->|Hamp]; [|destruct (N.eqb_spec c (ch "<")) as [->|Hlt]]; intros Hr.
  - change (str "&amp;") with (ch "&" :: str "amp;") in *. cbn [app] in *. hop.
    + cbn [N.eqb content_model cfg]. fold (cfg Data). rewrite advance_cfg, (char_ref_cfg _ _ _ _ _ _ _ _ _ _ _ 0 _ (str "&")) by done. reflexivity.
    + rewrite <-app_assoc. exact Hr.
  - change (str "&lt;") with (ch "&" :: str "lt;") in *. cbn [app] in *. hop.
    + cbn [N.eqb content_model cfg]. rewrite advance_cfg, (char_ref_cfg _ _ _ _ _ _ _ _ _ _ _ 1 _ (str "<")) by done. reflexivity.
    + rewrite <-app_assoc. exact Hr.
  - cbn [app] in *. hop.
    + cbn [content_model cfg]. rewrite (proj2 (N.eqb_neq _ _) Hamp), (proj2 (N.eqb_neq _ _) Hlt). hop_end.
    + done.
Qed.

Lemma commit_cfg st pre rest tn te sc ta n v tb :
  n ≠ [] → n ∉ ta.*1 →
  commit_pending_attr (cfg st pre rest ls tn te sc ta n v tb)
  = cfg st pre rest ls tn te sc (ta ++ [(n, v)]) [] [] tb.
Proof.
  intros Hne Hnew. unfold commit_pending_attr. cbn [attr_name cfg]. destruct n as [|c n]; [done|].
  destruct (existsb _ _) eqn:E; [|reflexivity]. apply existsb_exists in E as ([k w] & Hin & Hk).
  apply bool_decide_eq_true in Hk. cbn in Hk. subst k. destruct Hnew.
  apply list_elem_of_fmap. exists (c :: n, w). split; [done|]. by apply list_elem_of_In.
Qed.

(** One attribute, from [BeforeAttributeName] to the end of its value. *)
Lemma run_attr a pre rest tn te sc ta an av r :
  attr_name_ok a.1 = true → a.1 ∉ ta.*1 →
  runs (cfg AfterAttributeValueQuoted (pre ++ print_attr a) rest ls tn te sc (ta ++ [a]) [] [] []) r →
  runs (cfg BeforeAttributeName (pre ++ str " ")
          ((a.1 ++ str "=" ++ [DQUOTE] ++ escape true a.2 ++ [DQUOTE]) ++ rest)
          ls tn te sc ta an av []) r.
Proof.
  destruct a as [n v]. cbn [fst snd]. intros Hn Hnew Hr. unfold print_attr in Hr. cbn [fst snd] in Hr.
  destruct n as [|c n]; [done|]. unfold attr_name_ok in Hn.
  pose proof Hn as Hall. cbn [forallb] in Hall. apply andb_true_iff in Hall as [Hc _].
  apply andb_true_iff in Hc as [(H1 & H2 & H3 & H4)%name_char_facts H5%negb_true_iff].
  rewrite <-app_assoc. cbn [app]. hop; [rewrite H1, H2, H3; reflexivity|].
  apply (run_attr_name (c :: n) (pre ++ str " ") _ tn te sc ta [] [] r Hn). cbn [str app].
  eapply runs_inl; [enter_arm; rewrite advance_cfg; reflexivity|].
  change (set_state _ (cfg _ ?p ?q ?l ?a ?b ?c ?d ?e ?f ?g)) with (cfg BeforeAttributeValue p q l a b c d e f g).
  eapply runs_inl; [enter_arm; rewrite advance_cfg; reflexivity|].
  change (set_state _ (cfg _ ?p ?q ?l ?a ?b ?c ?d ?e ?f ?g)) with (cfg AttributeValueDoubleQuoted p q l a b c d e f g).
  rewrite <-(app_assoc (escape true v)). apply run_attr_value. cbn [app].
  eapply runs_inl; [enter_arm; rewrite commit_cfg, advance_cfg by done; reflexivity|].
  change (set_state _ (cfg _ ?p ?q ?l ?a ?b ?c ?d ?e ?f ?g)) with (cfg AfterAttributeValueQuoted p q l a b c d e f g).
  rewrite <-!app_assoc. exact Hr.
Qed.

Lemma emit_cfg pre rest tn te sc ta tb st :
  emit_tag (cfg st pre rest ls tn te sc ta [] [] tb)
  = if te then (EndTag tn, cfg Data pre rest ls [] te sc ta [] [] tb)
    else (StartTag tn ta sc, cfg Data pre rest (Some tn) [] te sc [] [] [] tb).
Proof. by destruct te. Qed.

Lemma run_attrs attrs pre rest tn te sc ta st r :
  st = TagName ∨ st = AfterAttributeValueQuoted →
  NoDup (ta ++ attrs).*1 → forallb (λ a, attr_name_ok a.1 && no_cr a.2) attrs = true →
  (∀ st', st' = TagName ∨ st' = AfterAttributeValueQuoted →
    runs (cfg st' (pre ++ (attrs ≫= print_attr)) rest ls tn te sc (ta ++ attrs) [] [] []) r) →
  runs (cfg st pre ((attrs ≫= print_attr) ++ rest) ls tn te sc ta [] [] []) r.
Proof.
  revert pre ta st. induction attrs as [|a attrs IH]; intros pre ta st Hst Hnd Hok Hr.
  { specialize (Hr st Hst). cbn in *. by rewrite !app_nil_r in Hr. }
  cbn [forallb] in Hok. apply andb_true_iff in Hok as [[Ha _]%andb_true_iff Hok].
  assert (a.1 ∉ ta.*1) as Hnew.
  { rewrite fmap_app in Hnd. apply NoDup_app in Hnd as (_ & Hdis & _). intros Hin.
    apply (Hdis _ Hin). cbn. left. }
  replace (ta ++ a :: attrs) with ((ta ++ [a]) ++ attrs) in * by by rewrite <-app_assoc.
  change ((a :: attrs) ≫= print_attr) with (print_attr a ++ (attrs ≫= print_attr)) in *.
  unfold print_attr at 1. rewrite <-!app_assoc. cbn [str app].
  apply (runs_inl _ (cfg BeforeAttributeName (pre ++ str " ")
    ((a.1 ++ str "=" ++ [DQUOTE] ++ escape true a.2 ++ [DQUOTE]) ++ (attrs ≫= print_attr) ++ rest)
    ls tn te sc ta [] [] [])).
  { destruct Hst as [-> | ->]; enter_arm; rewrite advance_cfg; rewrite <-!app_assoc; reflexivity. }
  apply run_attr; [done..|]. apply IH; [by right|done..|].
  intros st' Hst'. rewrite <-app_assoc. auto.
Qed.

(** The close of a tag, from either state that can end it. *)
Lemma run_tag_close (sc te : bool) pre rest tn ta st :
  st = TagName ∨ st = AfterAttributeValueQuoted →
  runs (cfg st pre (str (if sc then "/>" else ">") ++ rest) ls tn te false ta [] [] [])
    (emit_tag (cfg Data (pre ++ str (if sc then "/>" else ">")) rest ls tn te sc ta [] [] [])).
Proof.
  intros Hst. destruct sc; cbn [str app].
  - apply (runs_inl _ (cfg SelfClosingStartTag (pre ++ str "/") (str ">" ++ rest) ls tn te false ta [] [] [])).
    { destruct Hst as [-> | ->]; enter_arm; rewrite advance_cfg; reflexivity. }
    apply runs_inr. cbn [str app]. enter_arm.
    change (set_self_closing true (cfg ?s ?p ?q ?l ?a ?b ?c ?d ?e ?f ?g)) with (cfg s p q l a b true d e f g).
    rewrite advance_cfg, <-app_assoc. reflexivity.
  - apply runs_inr. destruct Hst as [-> | ->]; enter_arm; rewrite advance_cfg; reflexivity.
Qed.

(** A whole start or end tag. *)
Lemma run_tag n attrs (sc te : bool) pre rest te0 sc0 ta :
  tag_name_ok n = true → attrs_printable attrs = true →
  let body := n ++ (attrs ≫= print_attr) ++ str (if sc then "/>" else ">") in
  let open := str (if te then "</" else "<") in
  runs (cfg Data pre ((open ++ body) ++ rest) ls [] te0 sc0 ta [] [] [])
    (emit_tag (cfg Data (pre ++ open ++ body) rest ls n te sc attrs [] [] [])).
Proof.
  intros Hn Hat body open. apply andb_true_iff in Hat as [Hnd%bool_decide_eq_true Hat].
  destruct n as [|c n]; [done|]. apply andb_true_iff in Hn as [Hc Hn].
  assert (runs (cfg TagName (pre ++ open) (body ++ rest) ls [] te false [] [] [] [])
    (emit_tag (cfg Data (pre ++ open ++ body) rest ls (c :: n) te sc attrs [] [] []))) as Hrun.
  { unfold body. rewrite <-!app_assoc. apply run_tag_name; [done|]. apply run_attrs; [by left|done..|].
    intros st Hst. rewrite !app_assoc. by apply run_tag_close. }
  rewrite <-app_assoc. destruct te; cbn [open str app] in *.
  - eapply runs_inl; [enter_arm; rewrite advance_cfg; reflexivity|].
    change (set_state _ (cfg _ ?p ?q ?l ?a ?b ?c ?d ?e ?f ?g)) with (cfg TagOpen p q l a b c d e f g).
    eapply runs_inl; [enter_arm; rewrite advance_cfg; reflexivity|].
    change (set_state _ (cfg _ ?p ?q ?l ?a ?b ?c ?d ?e ?f ?g)) with (cfg EndTagOpen p q l a b c d e f g).
    rewrite <-app_assoc. eapply runs_inl; [unfold body; cbn [app]; enter_arm; rewrite Hc; reflexivity|exact Hrun].
  - eapply runs_inl; [enter_arm; rewrite advance_cfg; reflexivity|].
    change (set_state _ (cfg _ ?p ?q ?l ?a ?b ?c ?d ?e ?f ?g)) with (cfg TagOpen p q l a b c d e f g).
    eapply runs_inl; [unfold body; cbn [app]; enter_arm; rewrite Hc; reflexivity|exact Hrun].
Qed.

(** A text run, flushed by the next [<] or by the end of the input. *)
Lemma run_character v pre rest te0 sc0 ta :
  v ≠ [] → rest = [] ∨ (∃ rest', rest = ch "<" :: rest') →
  runs (cfg Data pre (escape false v ++ rest) ls [] te0 sc0 ta [] [] [])
    (Character v, cfg Data (pre ++ escape false v) rest ls [] te0 sc0 ta [] [] []).
Proof.
  intros Hv Hrest. apply run_text. apply runs_inr. cbn [app].
  destruct Hrest as [-> | [rest' ->]]; enter_arm; rewrite ?peek_cfg_nil; destruct v; done.
Qed.

Lemma consume_doctype_cfg pre rest tn te sc ta :
  consume_doctype (cfg TagOpen pre (str ">" ++ rest) ls tn te sc ta [] [] [])
  = Ok (Doctype, cfg Data (pre ++ str ">") rest ls tn te sc ta [] [] []).
Proof.
  unfold consume_doctype, input_fuel. erewrite iterate_inr.
  - cbn [mbind res_bind str app]. rewrite advance_cfg. reflexivity.
  - unfold to_gt_step. cbn [str app]. rewrite peek_cfg. reflexivity.
Qed.

Lemma consume_comment_cfg pre rest tn te sc ta :
  consume_comment (cfg TagOpen pre (str "-->" ++ rest) ls tn te sc ta [] [] [])
  = Ok (Comment, cfg Data (pre ++ str "-->") rest ls tn te sc ta [] [] []).
Proof.
  unfold consume_comment, input_fuel. rewrite !matches_ahead_cfg.
  change (prefixb N.eqb (str ">") _) with false. change (prefixb N.eqb (str "->") _) with false.
  apply iterate_inr. unfold comment_step. rewrite !matches_ahead_cfg.
  change (prefixb N.eqb (str "-->") _) with true.
  change (skip 3) with (skip (length (str "-->"))). by rewrite skip_cfg.
Qed.

Lemma run_doctype pre rest te0 sc0 ta :
  runs (cfg Data pre (str "<!DOCTYPE>" ++ rest) ls [] te0 sc0 ta [] [] [])
    (Doctype, cfg Data (pre ++ str "<!DOCTYPE>") rest ls [] te0 sc0 ta [] [] []).
Proof.
  change (str "<!DOCTYPE>" ++ rest) with (ch "<" :: ch "!" :: str "DOCTYPE" ++ str ">" ++ rest).
  eapply runs_inl; [enter_arm; rewrite advance_cfg; reflexivity|].
  change (set_state _ (cfg _ ?p ?q ?l ?a ?b ?c ?d ?e ?f ?g)) with (cfg TagOpen p q l a b c d e f g).
  apply runs_inr. enter_arm. rewrite advance_cfg. cbv zeta. rewrite matches_ahead_cfg.
  unfold matches_ahead_ignore_case. cbn [input pos cfg]. rewrite matches_at_prefixb.
  change (prefixb N.eqb (str "--") _) with false. change (prefixb _ (str "DOCTYPE") _) with true.
  change (skip 7) with (skip (length (str "DOCTYPE"))). rewrite skip_cfg, consume_doctype_cfg, <-!app_assoc.
  reflexivity.
Qed.

Lemma run_comment pre rest te0 sc0 ta :
  runs (cfg Data pre (str "<!---->" ++ rest) ls [] te0 sc0 ta [] [] [])
    (Comment, cfg Data (pre ++ str "<!---->") rest ls [] te0 sc0 ta [] [] []).
Proof.
  change (str "<!---->" ++ rest) with (ch "<" :: ch "!" :: str "--" ++ str "-->" ++ rest).
  eapply runs_inl; [enter_arm; rewrite advance_cfg; reflexivity|].
  change (set_state _ (cfg _ ?p ?q ?l ?a ?b ?c ?d ?e ?f ?g)) with (cfg TagOpen p q l a b c d e f g).
  apply runs_inr. enter_arm. rewrite advance_cfg. cbv zeta. rewrite matches_ahead_cfg.
  change (prefixb N.eqb (str "--") _) with true.
  change (skip 2) with (skip (length (str "--"))). rewrite skip_cfg, consume_comment_cfg, <-!app_assoc.
  reflexivity.
Qed.

End Steps.

(** ** The whole stream *)

(** A tokenizer between two tokens, with the markup left to read. *)
Definition between (t : Tokenizer) (rest : list N) : Prop :=
  ∃ pre ls te sc ta, t = cfg Data pre rest ls [] te sc ta [] [] [].

Definition starts_markup (rest : list N) : Prop := rest = [] ∨ ∃ rest', rest = ch "<" :: rest'.

Lemma run_print tok t rest :
  printable tok = true → between t (print tok ++ rest) →
  (∀ s, tok = Character s → starts_markup rest) →
  ∃ t', runs t (tok, t') ∧ between t' rest.
Proof.
  intros Hp (pre & ls & te & sc & ta & ->) Hrest.
  destruct tok as [| |n attrs sc'|n|s|]; cbn [printable] in Hp; try done.
  - eexists; split; [apply run_doctype|]. by do 5 eexists.
  - eexists; split; [apply run_comment|]. by do 5 eexists.
  - apply andb_true_iff in Hp as [Hn Hat].
    pose proof (run_tag ls n attrs sc' false pre rest te sc ta Hn Hat) as Hr. cbv zeta in Hr.
    rewrite emit_cfg in Hr. cbn [print]. eexists; split; [exact Hr|]. by do 5 eexists.
  - pose proof (run_tag ls n [] false true pre rest te sc ta Hp eq_refl) as Hr. cbv zeta in Hr.
    rewrite emit_cfg in Hr. eexists; split; [exact Hr|]. by do 5 eexists.
  - apply andb_true_iff in Hp as [_ Hne%bool_decide_eq_true].
    eexists; split; [by apply run_character; [done|apply (Hrest s)]|]. by do 5 eexists.
Qed.

Lemma print_starts_markup ts tok :
  printable tok = true → (∀ s, tok ≠ Character s) → starts_markup (print tok ++ ts).
Proof. destruct tok; cbn; intros; try done; try (right; by eexists). naive_solver. Qed.

Lemma stream_print ts t fuel l :
  Inv t → forallb printable ts = true → no_adjacent_text ts = true → between t (ts ≫= print) →
  stream stay fuel tt t = Ok l → l = ts ++ [Eof].
Proof.
  revert ts t l; induction fuel as [|fuel IH]; intros ts t l HI Hp Hadj Hb; [done|].
  destruct ts as [|tok ts].
  { destruct Hb as (pre & ls & te & sc & ta & ->). cbn [stream].
    rewrite (runs_next _ (Eof, cfg Data pre [] ls [] te sc ta [] [] []) HI); [cbn; by intros [= <-]|].
    apply runs_inr. unfold step, step_data. cbn [state content_model cfg]. by rewrite peek_cfg_nil. }
  cbn [forallb] in Hp. apply andb_true_iff in Hp as [Hp Hps].
  destruct (run_print tok t (mbind (M:=list) print ts) Hp Hb) as (t' & Hr & Hb').
  { intros s ->. destruct ts as [|tok' ts]; [by left|].
    apply andb_true_iff in Hps as [Hp' _]. apply print_starts_markup; [done|].
    intros s' ->. done. }
  pose proof (runs_next _ _ HI Hr) as Hn. cbn [stream]. rewrite Hn. cbn [mbind res_bind].
  destruct (next_token_inv _ _ HI Hn) as (HI' & _). cbn in HI'.
  assert (no_adjacent_text ts = true) as Hadj' by (destruct tok, ts as [|[]]; done).
  destruct tok; try done; cbn; intros (ts' & Hts & [= <-])%bind_Ok;
    by rewrite (IH _ _ _ HI' Hps Hadj' Hb' Hts).
Qed.

Lemma normalize_no_cr s : no_cr s = true → replace_cr (replace_crlf s) = s.
Proof.
  intros Hs. assert (replace_crlf s = s) as ->.
  { induction s as [|c s IH]; [done|]. apply andb_true_iff in Hs as [Hc%negb_true_iff%N.eqb_neq Hs].
    rewrite <-(IH Hs) at 2. destruct c as [|p]; [done|].
    repeat (destruct p as [p|p|]; try done). }
  induction s as [|c s IH]; [done|]. apply andb_true_iff in Hs as [Hc%negb_true_iff Hs].
  cbn. rewrite Hc. f_equal. by apply IH.
Qed.

Lemma no_cr_app a b : no_cr (a ++ b) = no_cr a && no_cr b.
Proof. apply forallb_app. Qed.

Lemma no_cr_bind {A} (f : A → list N) l : no_cr (l ≫= f) = forallb (λ x, no_cr (f x)) l.
Proof. induction l as [|x l IH]; [done|]. cbn. rewrite no_cr_app. by f_equal. Qed.

Lemma forallb_impl {A} (f g : A → bool) l :
  (∀ x, f x = true → g x = true) → forallb f l = true → forallb g l = true.
Proof. intros H. rewrite !forallb_forall. auto. Qed.

Lemma escape_no_cr q s : no_cr s = true → no_cr (escape q s) = true.
Proof.
  intros Hs. unfold escape. rewrite no_cr_bind. revert Hs. apply forallb_impl.
  intros c Hc. unfold escape_char. repeat case_match; try done. cbn. by rewrite Hc.
Qed.

Lemma name_char_no_cr s : forallb name_char s = true → no_cr s = true.
Proof.
  apply forallb_impl. intros c (H & _)%name_char_facts. unfold is_html_space in H.
  rewrite !orb_false_iff in H. by rewrite (proj2 H).
Qed.

Lemma attrs_no_cr attrs : attrs_printable attrs = true → no_cr (attrs ≫= print_attr) = true.
Proof.
  intros [_ Hat]%andb_true_iff. rewrite no_cr_bind. revert Hat. apply forallb_impl.
  intros [n v] [Hn Hv]%andb_true_iff. unfold print_attr. rewrite !no_cr_app. cbn [fst snd] in *.
  rewrite (escape_no_cr _ _ Hv), (name_char_no_cr n); [done|].
  destruct n; [done|]. revert Hn. apply forallb_impl. by intros c [? _]%andb_true_iff.
Qed.

Lemma tag_name_no_cr n : tag_name_ok n = true → no_cr n = true.
Proof. destruct n; [done|]. intros [_ H]%andb_true_iff. by apply name_char_no_cr. Qed.

Lemma print_no_cr tok : printable tok = true → no_cr (print tok) = true.
Proof.
  destruct tok as [| |n attrs sc|n|s|]; cbn [printable print]; try done.
  - intros [Hn Hat]%andb_true_iff. rewrite !no_cr_app, (tag_name_no_cr n Hn), (attrs_no_cr _ Hat).
    by destruct sc.
  - intros Hn. by rewrite !no_cr_app, (tag_name_no_cr n Hn).
  - intros [Hs _]%andb_true_iff. by apply escape_no_cr.
Qed.

(** C32. Print and tokenize: every sequence of tokens whose names can be written (lower case, no
    delimiter, attribute names distinct) and in which no two text runs are adjacent is read back
    exactly from its markup, whatever text and attribute values it holds (carriage returns
    apart, which the input stream normalizes). *)
Theorem tokenize_print ts :
  forallb printable ts = true → no_adjacent_text ts = true →
  tokenize (ts ≫= print) = Ok (ts ++ [Eof]).
Proof.
  intros Hp Hadj. unfold tokenize. set (t := new_tokenizer _).
  destruct (stream_ok stay) with (token_fuel t) tt t as (l & Hl & _).
  - intros [] tok. done.
  - apply new_Inv.
  - done.
  - done.
  - apply work_fuel.
  - rewrite Hl. f_equal. eapply (stream_print ts t); [apply new_Inv|done..| |exact Hl].
    exists [], None, false, false, []. unfold t, new_tokenizer, cfg. cbn. rewrite normalize_no_cr; [done|].
    rewrite no_cr_bind. revert Hp. apply forallb_impl, print_no_cr.
Qed.

Lemma tokenize_print_witness :
  let ts := [Doctype; StartTag (str "a") [(str "href", str "x&y" ++ [DQUOTE]); (str "id", [])] false;
             Character (str "1 < 2 & 3"); EndTag (str "a"); Comment; StartTag (str "br") [] true] in
  forallb printable ts = true ∧ tokenize (ts ≫= print) = Ok (ts ++ [Eof]).
Proof. split; [reflexivity|]. apply tokenize_print; reflexivity. Defined.
