(* ===== verification/HtmlTree.v ===== *)
(** * The HTML tree builder ([core/html/src/tree_builder.rs]): data and primitives

    The builder's state is the record of the source, with the stack of open elements and the
    list of active formatting elements as lists in the order of the code's vectors (the last
    element is the top).  [Vec] indexing, [remove], [insert] and slicing out of range, a missing
    node and [unreachable!] are [Panic].  Loops that pop the stack recurse on the reversed
    stack.  This file holds the data and the helper methods; [HtmlModes] has one definition per
    insertion mode and the two outer loops. *)

From S2P Require Import Prelude Dom HtmlTokenizer.

(** ** Constants *)
Definition VOID_ELEMENTS : list (list N) :=
  str <$> ["br"; "hr"; "img"; "input"; "link"; "meta"; "col"]%string.
Definition RCDATA_ELEMENTS : list (list N) := str <$> ["textarea"; "title"]%string.
Definition FORMATTING_ELEMENTS : list (list N) :=
  str <$> ["a"; "b"; "i"; "em"; "strong"; "u"; "small"; "code"]%string.
Definition HEADING_ELEMENTS : list (list N) :=
  str <$> ["h1"; "h2"; "h3"; "h4"; "h5"; "h6"]%string.
Definition P_CLOSING_ELEMENTS : list (list N) :=
  str <$> ["div"; "p"; "ul"; "ol"; "li"; "h1"; "h2"; "h3"; "h4"; "h5"; "h6"; "blockquote"; "pre";
           "section"; "article"; "header"; "footer"; "nav"; "main"; "aside"; "figure";
           "figcaption"; "form"; "table"; "fieldset"]%string.
Definition DEFAULT_SCOPE_BLOCKERS : list (list N) :=
  str <$> ["html"; "table"; "td"; "th"; "caption"]%string.
Definition IMPLIED_END_TAGS : list (list N) := str <$> ["li"; "option"; "optgroup"; "p"]%string.
Definition SPECIAL_ELEMENTS : list (list N) :=
  str <$> ["article"; "aside"; "blockquote"; "body"; "br"; "button"; "caption"; "col"; "colgroup";
           "div"; "fieldset"; "figcaption"; "figure"; "footer"; "form"; "h1"; "h2"; "h3"; "h4";
           "h5"; "h6"; "head"; "header"; "hr"; "html"; "img"; "input"; "li"; "link"; "main";
           "meta"; "nav"; "ol"; "p"; "pre"; "script"; "section"; "select"; "style"; "table";
           "tbody"; "td"; "textarea"; "tfoot"; "th"; "thead"; "title"; "tr"; "ul"]%string.

(** [LIST.contains(&t)] and [t == "..."]. *)
Definition among (t : list N) (l : list (list N)) : bool := bool_decide (t ∈ l).
Definition tag_is (t : list N) (s : string) : bool := bool_decide (t = str s).
Arguments tag_is _ _%_string.
(** [matches!(t, "a" | "b" | ...)]. *)
Definition one_of (t : list N) (l : list string) : bool := existsb (λ s, tag_is t s) l.
Arguments one_of _ _%_string.

(** [tag.as_deref() == Some(s)]. *)
Definition is_tag (t : option (list N)) (s : string) : bool :=
  match t with Some t => tag_is t s | None => false end.
Arguments is_tag _ _%_string.

(** ** Data *)
Inductive Mode :=
  | Initial | BeforeHtml | BeforeHead | InHead | AfterHead | InBody | Text | InTable | InCaption
  | InColumnGroup | InTableBody | InRow | InCell | AfterBody | AfterAfterBody.

#[export] Instance Mode_eq_dec : EqDecision Mode.
Proof. solve_decision. Defined.

Inductive StepResult := Done | Reprocess (token : Token).

Abbreviation Attrs := (list (list N * list N)) (only parsing).
Definition FormattingEntry : Type := NodeId * list N * Attrs.

Inductive AfeEntry := Marker | Formatting (e : FormattingEntry).

#[export] Instance AfeEntry_eq_dec : EqDecision AfeEntry.
Proof. solve_decision. Defined.

Record TreeBuilder := MkTB {
  tokenizer : Tokenizer;
  document : Document;
  open_elements : list NodeId;
  active_formatting : list AfeEntry;
  mode : Mode;
  original_mode : Mode;
  head_element : option NodeId;
  form_element : option NodeId;
  foster_parenting : bool;
  just_saw_dropped_comment_or_doctype : bool;
  strip_leading_newline : bool;
  quirks_mode : bool;
}.

(** Field assignments. *)
Definition set_tokenizer (v : Tokenizer) (b : TreeBuilder) : TreeBuilder :=
  MkTB v b.(document) b.(open_elements) b.(active_formatting) b.(mode) b.(original_mode)
    b.(head_element) b.(form_element) b.(foster_parenting)
    b.(just_saw_dropped_comment_or_doctype) b.(strip_leading_newline) b.(quirks_mode).
Definition set_document (v : Document) (b : TreeBuilder) : TreeBuilder :=
  MkTB b.(tokenizer) v b.(open_elements) b.(active_formatting) b.(mode) b.(original_mode)
    b.(head_element) b.(form_element) b.(foster_parenting)
    b.(just_saw_dropped_comment_or_doctype) b.(strip_leading_newline) b.(quirks_mode).
Definition set_open (v : list NodeId) (b : TreeBuilder) : TreeBuilder :=
  MkTB b.(tokenizer) b.(document) v b.(active_formatting) b.(mode) b.(original_mode)
    b.(head_element) b.(form_element) b.(foster_parenting)
    b.(just_saw_dropped_comment_or_doctype) b.(strip_leading_newline) b.(quirks_mode).
Definition set_afe (v : list AfeEntry) (b : TreeBuilder) : TreeBuilder :=
  MkTB b.(tokenizer) b.(document) b.(open_elements) v b.(mode) b.(original_mode)
    b.(head_element) b.(form_element) b.(foster_parenting)
    b.(just_saw_dropped_comment_or_doctype) b.(strip_leading_newline) b.(quirks_mode).
Definition set_mode (v : Mode) (b : TreeBuilder) : TreeBuilder :=
  MkTB b.(tokenizer) b.(document) b.(open_elements) b.(active_formatting) v b.(original_mode)
    b.(head_element) b.(form_element) b.(foster_parenting)
    b.(just_saw_dropped_comment_or_doctype) b.(strip_leading_newline) b.(quirks_mode).
Definition set_original_mode (v : Mode) (b : TreeBuilder) : TreeBuilder :=
  MkTB b.(tokenizer) b.(document) b.(open_elements) b.(active_formatting) b.(mode) v
    b.(head_element) b.(form_element) b.(foster_parenting)
    b.(just_saw_dropped_comment_or_doctype) b.(strip_leading_newline) b.(quirks_mode).
Definition set_head (v : option NodeId) (b : TreeBuilder) : TreeBuilder :=
  MkTB b.(tokenizer) b.(document) b.(open_elements) b.(active_formatting) b.(mode)
    b.(original_mode) v b.(form_element) b.(foster_parenting)
    b.(just_saw_dropped_comment_or_doctype) b.(strip_leading_newline) b.(quirks_mode).
Definition set_form (v : option NodeId) (b : TreeBuilder) : TreeBuilder :=
  MkTB b.(tokenizer) b.(document) b.(open_elements) b.(active_formatting) b.(mode)
    b.(original_mode) b.(head_element) v b.(foster_parenting)
    b.(just_saw_dropped_comment_or_doctype) b.(strip_leading_newline) b.(quirks_mode).
Definition set_foster (v : bool) (b : TreeBuilder) : TreeBuilder :=
  MkTB b.(tokenizer) b.(document) b.(open_elements) b.(active_formatting) b.(mode)
    b.(original_mode) b.(head_element) b.(form_element) v
    b.(just_saw_dropped_comment_or_doctype) b.(strip_leading_newline) b.(quirks_mode).
Definition set_just_saw (v : bool) (b : TreeBuilder) : TreeBuilder :=
  MkTB b.(tokenizer) b.(document) b.(open_elements) b.(active_formatting) b.(mode)
    b.(original_mode) b.(head_element) b.(form_element) b.(foster_parenting) v
    b.(strip_leading_newline) b.(quirks_mode).
Definition set_strip (v : bool) (b : TreeBuilder) : TreeBuilder :=
  MkTB b.(tokenizer) b.(document) b.(open_elements) b.(active_formatting) b.(mode)
    b.(original_mode) b.(head_element) b.(form_element) b.(foster_parenting)
    b.(just_saw_dropped_comment_or_doctype) v b.(quirks_mode).
Definition set_quirks (v : bool) (b : TreeBuilder) : TreeBuilder :=
  MkTB b.(tokenizer) b.(document) b.(open_elements) b.(active_formatting) b.(mode)
    b.(original_mode) b.(head_element) b.(form_element) b.(foster_parenting)
    b.(just_saw_dropped_comment_or_doctype) b.(strip_leading_newline) v.

Definition tb_new (s : list N) (next_id : N) : res TreeBuilder :=
  d ← new_continuing_from next_id;
  Ok (MkTB (new_tokenizer s) d [] [] Initial InBody None None false false false false).

(** ** Vectors *)

(** [iter().position(p)] and [iter().rposition(p)]. *)
Fixpoint position {A} (p : A → bool) (l : list A) : option nat :=
  match l with
  | [] => None
  | x :: l' => if p x then Some 0 else S <$> position p l'
  end.
Fixpoint rposition {A} (p : A → bool) (l : list A) : option nat :=
  match l with
  | [] => None
  | x :: l' =>
      match rposition p l' with
      | Some i => Some (S i)
      | None => if p x then Some 0 else None
      end
  end.

Definition vec_remove {A} (i : nat) (l : list A) : res (list A) :=
  if decide (i < length l) then Ok (take i l ++ drop (S i) l) else Panic.
Definition vec_insert {A} (i : nat) (x : A) (l : list A) : res (list A) :=
  if decide (i ≤ length l) then Ok (take i l ++ x :: drop i l) else Panic.
(** [v[i] = x]. *)
Definition vec_set {A} (i : nat) (x : A) (l : list A) : res (list A) :=
  if decide (i < length l) then Ok (<[i := x]> l) else Panic.
(** [v[a..]] and [v[a..b]]. *)
Definition slice_from {A} (a : nat) (l : list A) : res (list A) :=
  if decide (a ≤ length l) then Ok (drop a l) else Panic.
Definition slice {A} (a b : nat) (l : list A) : res (list A) :=
  if decide (a ≤ b ∧ b ≤ length l) then Ok (drop a (take b l)) else Panic.
(** [v.pop()], the popped element dropped. *)
Definition vec_pop {A} (l : list A) : list A := take (length l - 1) l.

(** ** Tree and stack primitives *)
Definition current_node (b : TreeBuilder) : res NodeId :=
  match last b.(open_elements) with
  | Some id => Ok id
  | None => root b.(document)
  end.

Definition tag_of (d : Document) (id : NodeId) : res (option (list N)) :=
  dt ← data d id;
  Ok (match dt with NElement t _ => Some t | _ => None end).

Definition is_current (b : TreeBuilder) (tag : string) : res bool :=
  n ← current_node b; t ← tag_of b.(document) n; Ok (is_tag t tag).

Definition is_special (d : Document) (id : NodeId) : res bool :=
  t ← tag_of d id;
  Ok (match t with Some t => among t SPECIAL_ELEMENTS | None => true end).

Definition is_table_context (d : Document) (id : NodeId) : res bool :=
  t ← tag_of d id;
  Ok (match t with
      | Some t => one_of t ["table"; "tbody"; "thead"; "tfoot"; "tr"]
      | None => false
      end).

Definition current_node_needs_foster (b : TreeBuilder) : res bool :=
  n ← current_node b; is_table_context b.(document) n.

(** [iter().rev().find(|id| tag_of(id) == Some(tag))], on the reversed stack. *)
Fixpoint find_tag (d : Document) (tag : string) (rl : list NodeId) : res (option NodeId) :=
  match rl with
  | [] => Ok None
  | id :: rl' =>
      t ← tag_of d id;
      if is_tag t tag then Ok (Some id) else find_tag d tag rl'
  end.

Definition foster_parent_target (b : TreeBuilder) : res (NodeId * option NodeId) :=
  t ← find_tag b.(document) "table" (rev b.(open_elements));
  match t with
  | Some table_id =>
      p ← parent b.(document) table_id;
      match p with
      | Some p => Ok (p, Some table_id)
      | None => n ← current_node b; Ok (n, None)
      end
  | None => n ← current_node b; Ok (n, None)
  end.

(** [self.foster_parenting && self.current_node_needs_foster()]. *)
Definition fosters (b : TreeBuilder) : res bool :=
  if b.(foster_parenting) then current_node_needs_foster b else Ok false.

Definition insert_node (b : TreeBuilder) (id : NodeId) : res TreeBuilder :=
  f ← fosters b;
  if f : bool then
    '(p, reference) ← foster_parent_target b;
    d ← insert_before b.(document) p id reference;
    Ok (set_document d b)
  else
    n ← current_node b;
    d ← append_child b.(document) n id;
    Ok (set_document d b).

Definition insert_element (b : TreeBuilder) (name : list N) (attrs : Attrs)
    : res (NodeId * TreeBuilder) :=
  '(id, d) ← create_node b.(document) (NElement name attrs);
  b ← insert_node (set_document d b) id;
  Ok (id, if among name VOID_ELEMENTS then b
          else set_open (b.(open_elements) ++ [id]) b).

(** The call whose returned id is dropped. *)
Definition insert_element_ (b : TreeBuilder) (name : list N) (attrs : Attrs) : res TreeBuilder :=
  '(_, b) ← insert_element b name attrs; Ok b.

Definition insert_text (b : TreeBuilder) (text : list N) : res TreeBuilder :=
  match text with
  | [] => Ok b
  | _ =>
      f ← fosters b;
      '(p, reference) ← (if f : bool then foster_parent_target b
                        else n ← current_node b; Ok (n, None));
      preceding ← (if b.(just_saw_dropped_comment_or_doctype) then Ok None
                   else match reference with
                        | Some r => prev_sibling b.(document) r
                        | None => last_child b.(document) p
                        end);
      existing ← match preceding with
                 | Some id =>
                     dt ← data b.(document) id;
                     Ok (match dt with NText e => Some (id, e) | _ => None end)
                 | None => Ok None
                 end;
      match existing with
      | Some (id, e) =>
          d ← data_mut b.(document) id (λ _, NText (e ++ text));
          Ok (set_document d b)
      | None =>
          '(id, d) ← create_node b.(document) (NText text);
          d ← insert_before d p id reference;
          Ok (set_document d b)
      end
  end.

(** ** The list of active formatting elements *)
Definition is_marker (e : AfeEntry) : bool :=
  match e with Marker => true | Formatting _ => false end.
(** [matches!(e, AfeEntry::Formatting((id, _, _)) if *id == n)]. *)
Definition entry_is (n : NodeId) (e : AfeEntry) : bool :=
  match e with Marker => false | Formatting (id, _, _) => (id =? n)%N end.
Definition entry_has_tag (tag : list N) (e : AfeEntry) : bool :=
  match e with Marker => false | Formatting (_, t, _) => bool_decide (t = tag) end.

Definition afe_scan_start (b : TreeBuilder) : nat :=
  match rposition is_marker b.(active_formatting) with
  | Some p => p + 1
  | None => 0
  end.

Definition insert_afe_marker (b : TreeBuilder) : TreeBuilder :=
  set_afe (b.(active_formatting) ++ [Marker]) b.

Definition attrs_equal (a b : Attrs) : bool :=
  (length a =? length b) && forallb (λ p, bool_decide (p ∈ b)) a.

Definition same_formatting (tag : list N) (attrs : Attrs) (e : AfeEntry) : bool :=
  match e with
  | Marker => false
  | Formatting (_, t, a) => bool_decide (t = tag) && attrs_equal a attrs
  end.

(** [enumerate().filter_map(..)]: the indices, from [i] on, of the entries that satisfy [p]. *)
Fixpoint indices {A} (p : A → bool) (i : nat) (l : list A) : list nat :=
  match l with
  | [] => []
  | x :: l' => if p x then i :: indices p (S i) l' else indices p (S i) l'
  end.

Definition push_formatting (b : TreeBuilder) (id : NodeId) (tag : list N) (attrs : Attrs)
    : res TreeBuilder :=
  let scan_start := afe_scan_start b in
  tail ← slice_from scan_start b.(active_formatting);
  let matching := indices (same_formatting tag attrs) scan_start tail in
  afe ← match matching with
        | i :: _ =>
            if 3 <=? length matching then vec_remove i b.(active_formatting)
            else Ok b.(active_formatting)
        | [] => Ok b.(active_formatting)
        end;
  Ok (set_afe (afe ++ [Formatting (id, tag, attrs)]) b).

Definition consume_leading_newline_strip (b : TreeBuilder) (s : list N) : list N * TreeBuilder :=
  if b.(strip_leading_newline) then
    (match s with 10%N :: s' => s' | _ => s end, set_strip false b)
  else (s, b).

Definition switch_to_text_mode (b : TreeBuilder) (name : list N) (attrs : Attrs)
    : res TreeBuilder :=
  b ← insert_element_ b name attrs;
  let model :=
    if among name RCDATA_ELEMENTS then CmRcdata
    else if tag_is name "script" then CmScriptData else CmRawtext in
  let b := set_tokenizer (set_content_model model b.(tokenizer)) b in
  Ok (set_mode Text (set_original_mode b.(mode) b)).

(** ** Scope checks: walks down the reversed stack *)
Fixpoint scope_walk (d : Document) (found stop : list N → bool) (rl : list NodeId) : res bool :=
  match rl with
  | [] => Ok false
  | id :: rl' =>
      t ← tag_of d id;
      match t with
      | None => scope_walk d found stop rl'
      | Some t =>
          if found t then Ok true else if stop t then Ok false else scope_walk d found stop rl'
      end
  end.

Definition has_tag_in_scope (b : TreeBuilder) (tag : list N) (extra_blockers : list string)
    : res bool :=
  scope_walk b.(document) (λ t, bool_decide (t = tag))
    (λ t, among t DEFAULT_SCOPE_BLOCKERS || one_of t extra_blockers) (rev b.(open_elements)).

Definition has_tag_in_table_scope (b : TreeBuilder) (tag : list N) : res bool :=
  scope_walk b.(document) (λ t, bool_decide (t = tag)) (λ t, one_of t ["html"; "table"])
    (rev b.(open_elements)).

Fixpoint node_scope_walk (d : Document) (target : NodeId) (rl : list NodeId) : res bool :=
  match rl with
  | [] => Ok false
  | id :: rl' =>
      if (id =? target)%N then Ok true
      else
        t ← tag_of d id;
        match t with
        | None => node_scope_walk d target rl'
        | Some t => if among t DEFAULT_SCOPE_BLOCKERS then Ok false else node_scope_walk d target rl'
        end
  end.

Definition has_node_in_scope (b : TreeBuilder) (target : NodeId) : res bool :=
  node_scope_walk b.(document) target (rev b.(open_elements)).

Definition has_p_in_button_scope (b : TreeBuilder) : res bool :=
  has_tag_in_scope b (str "p") ["button"%string].
Definition has_li_in_list_item_scope (b : TreeBuilder) : res bool :=
  has_tag_in_scope b (str "li") ["ol"%string; "ul"%string].

Definition has_any_heading_in_scope (b : TreeBuilder) : res bool :=
  scope_walk b.(document) (λ t, among t HEADING_ELEMENTS) (λ t, among t DEFAULT_SCOPE_BLOCKERS)
    (rev b.(open_elements)).

(** ** Stack maintenance *)

(** [while let Some(&top) = last() { if stop { break } pop() }], on the reversed stack. *)
Fixpoint pop_until (d : Document) (stop : option (list N) → bool) (rl : list NodeId)
    : res (list NodeId) :=
  match rl with
  | [] => Ok []
  | id :: rl' => t ← tag_of d id; if stop t then Ok rl else pop_until d stop rl'
  end.
(** [while let Some(id) = pop() { if stop { break } }]. *)
Fixpoint pop_through (d : Document) (stop : option (list N) → bool) (rl : list NodeId)
    : res (list NodeId) :=
  match rl with
  | [] => Ok []
  | id :: rl' => t ← tag_of d id; if stop t then Ok rl' else pop_through d stop rl'
  end.

Definition on_stack (f : list NodeId → res (list NodeId)) (b : TreeBuilder) : res TreeBuilder :=
  rl ← f (rev b.(open_elements)); Ok (set_open (rev rl) b).

Definition generate_implied_end_tags (b : TreeBuilder) (except : option (list N))
    : res TreeBuilder :=
  on_stack (pop_until b.(document) (λ t,
    match t with
    | None => true
    | Some t => negb (among t IMPLIED_END_TAGS) || bool_decide (except = Some t)
    end)) b.

Definition pop_until_and_including (b : TreeBuilder) (tag : list N) : res TreeBuilder :=
  on_stack (pop_through b.(document) (λ t, bool_decide (t = Some tag))) b.

Definition close_p_element (b : TreeBuilder) : res TreeBuilder :=
  b ← generate_implied_end_tags b (Some (str "p"));
  pop_until_and_including b (str "p").

Definition close_li_if_open (b : TreeBuilder) : res TreeBuilder :=
  h ← has_li_in_list_item_scope b;
  if h : bool then
    b ← generate_implied_end_tags b (Some (str "li"));
    pop_until_and_including b (str "li")
  else Ok b.

(** Pops the list up to and including its last marker. *)
Fixpoint pop_to_marker (rl : list AfeEntry) : list AfeEntry :=
  match rl with
  | [] => []
  | e :: rl' => if is_marker e then rl' else pop_to_marker rl'
  end.
Definition clear_afe_up_to_last_marker (b : TreeBuilder) : TreeBuilder :=
  set_afe (rev (pop_to_marker (rev b.(active_formatting)))) b.

Definition close_current_cell (b : TreeBuilder) : res TreeBuilder :=
  b ← generate_implied_end_tags b None;
  b ← on_stack (pop_through b.(document) (λ t, is_tag t "td" || is_tag t "th")) b;
  Ok (set_mode InRow (clear_afe_up_to_last_marker b)).

Definition close_table_section (b : TreeBuilder) : res TreeBuilder :=
  on_stack (pop_through b.(document)
    (λ t, is_tag t "tbody" || is_tag t "thead" || is_tag t "tfoot")) b.

(** The [for i in (0..len).rev()] loop of [any_other_end_tag], on the reversed stack: [rl] holds
    the elements of index below [length rl]. *)
Fixpoint other_end_walk (b : TreeBuilder) (tag : list N) (rl : list NodeId) : res TreeBuilder :=
  match rl with
  | [] => Ok b
  | id :: rl' =>
      t ← tag_of b.(document) id;
      match t with
      | None => other_end_walk b tag rl'
      | Some t =>
          if bool_decide (t = tag) then
            b ← generate_implied_end_tags b (Some tag);
            Ok (set_open (take (length rl') b.(open_elements)) b)
          else
            sp ← is_special b.(document) id;
            if sp : bool then Ok b else other_end_walk b tag rl'
      end
  end.
Definition any_other_end_tag (b : TreeBuilder) (tag : list N) : res TreeBuilder :=
  other_end_walk b tag (rev b.(open_elements)).

(** The insertion mode the nearest table or body frame calls for. *)
Definition frame_mode (head_seen : bool) (t : list N) : option Mode :=
  if one_of t ["td"; "th"] then Some InCell
  else if tag_is t "tr" then Some InRow
  else if one_of t ["tbody"; "thead"; "tfoot"] then Some InTableBody
  else if tag_is t "caption" then Some InCaption
  else if tag_is t "colgroup" then Some InColumnGroup
  else if tag_is t "table" then Some InTable
  else if tag_is t "body" then Some InBody
  else if tag_is t "html" then Some (if head_seen then AfterHead else BeforeHead)
  else None.
Fixpoint reset_walk (d : Document) (head_seen : bool) (rl : list NodeId) : res Mode :=
  match rl with
  | [] => Ok InBody
  | id :: rl' =>
      t ← tag_of d id;
      match t ≫= frame_mode head_seen with
      | Some m => Ok m
      | None => reset_walk d head_seen rl'
      end
  end.
Definition reset_insertion_mode (b : TreeBuilder) : res TreeBuilder :=
  m ← reset_walk b.(document) (bool_decide (is_Some b.(head_element))) (rev b.(open_elements));
  Ok (set_mode m b).

(** ** Reconstruction of the active formatting elements *)
Definition is_open_or_marker (b : TreeBuilder) (e : AfeEntry) : bool :=
  match e with
  | Marker => true
  | Formatting (id, _, _) => bool_decide (id ∈ b.(open_elements))
  end.

(** [while first > 0 && !is_open_or_marker(first - 1) { first -= 1 }]. *)
Fixpoint reconstruct_first (b : TreeBuilder) (first : nat) : res nat :=
  match first with
  | O => Ok O
  | S n =>
      e ← unwrap (b.(active_formatting) !! n);
      if is_open_or_marker b e then Ok first else reconstruct_first b n
  end.

(** [for i in first..=last]. *)
Fixpoint reconstruct_from (n i : nat) (b : TreeBuilder) : res TreeBuilder :=
  match n with
  | O => Ok b
  | S n' =>
      e ← unwrap (b.(active_formatting) !! i);
      match e with
      | Marker => reconstruct_from n' (S i) b
      | Formatting (_, tag, attrs) =>
          '(new_id, b) ← insert_element b tag attrs;
          afe ← vec_set i (Formatting (new_id, tag, attrs)) b.(active_formatting);
          reconstruct_from n' (S i) (set_afe afe b)
      end
  end.

Definition reconstruct_active_formatting_elements (b : TreeBuilder) : res TreeBuilder :=
  match last b.(active_formatting) with
  | None => Ok b
  | Some e =>
      if is_open_or_marker b e then Ok b
      else
        let last := length b.(active_formatting) - 1 in
        first ← reconstruct_first b last;
        reconstruct_from (S last - first) first b
  end.

(** ** The adoption agency algorithm *)
Definition afe_formatting_at (b : TreeBuilder) (pos : nat) : res FormattingEntry :=
  e ← unwrap (b.(active_formatting) !! pos);
  match e with Formatting e => Ok e | Marker => Panic end.

Definition afe_formatting_rposition (b : TreeBuilder) (tag : list N) : res (option nat) :=
  let scan_start := afe_scan_start b in
  tail ← slice_from scan_start b.(active_formatting);
  Ok ((λ p, scan_start + p) <$> rposition (entry_has_tag tag) tail).

Inductive Bookmark := AtFormattingElement | AfterNode (id : NodeId).

Definition stack_pos_of (b : TreeBuilder) (id : NodeId) : option nat :=
  position (λ x, (x =? id)%N) b.(open_elements).

Definition remove_from_stack (b : TreeBuilder) (id : NodeId) : res TreeBuilder :=
  match stack_pos_of b id with
  | Some p => st ← vec_remove p b.(open_elements); Ok (set_open st b)
  | None => Ok b
  end.

(** [if document.parent(n).is_some() { document.detach(n) }]. *)
Definition detach_if_attached (d : Document) (n : NodeId) : res Document :=
  p ← parent d n;
  match p with Some _ => detach d n | None => Ok d end.

(** The variables of the inner loop. *)
Record Inner := MkInner {
  in_tb : TreeBuilder;
  in_bookmark : Bookmark;
  in_last : NodeId;
  in_iterations : nat;
}.

(** One pass of the inner loop, for [node_id] between the formatting element and the furthest
    block. *)
Definition adoption_inner (furthest_block_id : NodeId) (s : Inner) (node_id : NodeId) : res Inner :=
  let b := s.(in_tb) in
  let iterations := S s.(in_iterations) in
  match position (entry_is node_id) b.(active_formatting) with
  | None =>
      b ← remove_from_stack b node_id;
      Ok (MkInner b s.(in_bookmark) s.(in_last) iterations)
  | Some af_pos =>
      if 3 <? iterations then
        afe ← vec_remove af_pos b.(active_formatting);
        b ← remove_from_stack (set_afe afe b) node_id;
        Ok (MkInner b s.(in_bookmark) s.(in_last) iterations)
      else
        '(_, node_tag, node_attrs) ← afe_formatting_at b af_pos;
        '(new_node, d) ← create_node b.(document) (NElement node_tag node_attrs);
        let b := set_document d b in
        afe ← vec_set af_pos (Formatting (new_node, node_tag, node_attrs)) b.(active_formatting);
        let b := set_afe afe b in
        b ← match stack_pos_of b node_id with
            | Some p => st ← vec_set p new_node b.(open_elements); Ok (set_open st b)
            | None => Ok b
            end;
        let bookmark := if (s.(in_last) =? furthest_block_id)%N then AfterNode new_node
                        else s.(in_bookmark) in
        d ← detach_if_attached b.(document) s.(in_last);
        d ← append_child d new_node s.(in_last);
        Ok (MkInner (set_document d b) bookmark new_node iterations)
  end.

(** A [for] loop over a collected vector. *)
Fixpoint for_each {A S} (f : S → A → res S) (s : S) (l : list A) : res S :=
  match l with
  | [] => Ok s
  | x :: l' => s ← f s x; for_each f s l'
  end.

Definition move_child (new_parent : NodeId) (d : Document) (child : NodeId) : res Document :=
  d ← detach d child; append_child d new_parent child.

(** Puts [last_node] in the place the common ancestor calls for. *)
Definition place_last_node (b : TreeBuilder) (common_ancestor last_node : NodeId) : res TreeBuilder :=
  d ← detach_if_attached b.(document) last_node;
  let b := set_document d b in
  tc ← is_table_context d common_ancestor;
  if tc : bool then
    let saved := b.(foster_parenting) in
    let b := set_foster true b in
    '(p, reference) ← foster_parent_target b;
    d ← insert_before b.(document) p last_node reference;
    Ok (set_foster saved (set_document d b))
  else
    d ← append_child b.(document) common_ancestor last_node;
    Ok (set_document d b).

(** The list after the formatting element's entry has moved to the bookmark. *)
Definition move_to_bookmark (afe : list AfeEntry) (bookmark : Bookmark) (fe_pos : nat)
    (fe_id : NodeId) (e : AfeEntry) : res (list AfeEntry) :=
  let raw_insert_at :=
    match bookmark with
    | AtFormattingElement => fe_pos
    | AfterNode id => match position (entry_is id) afe with Some p => p + 1 | None => fe_pos end
    end in
  fe_pos_now ← unwrap (position (entry_is fe_id) afe);
  afe ← vec_remove fe_pos_now afe;
  let insert_at := if fe_pos_now <? raw_insert_at then raw_insert_at - 1 else raw_insert_at in
  vec_insert (insert_at `min` length afe) e afe.

(** [iter().position(|&id| self.is_special(id))]. *)
Fixpoint special_position (d : Document) (l : list NodeId) : res (option nat) :=
  match l with
  | [] => Ok None
  | id :: l' =>
      sp ← is_special d id;
      if sp : bool then Ok (Some 0) else r ← special_position d l'; Ok (option_map S r)
  end.

(** One iteration of the outer loop: [true] means that the algorithm returns. *)
Definition adoption_outer (b : TreeBuilder) (tag : list N) : res (bool * TreeBuilder) :=
  fp ← afe_formatting_rposition b tag;
  match fp with
  | None => b ← any_other_end_tag b tag; Ok (true, b)
  | Some fe_pos =>
      '(fe_id, _, _) ← afe_formatting_at b fe_pos;
      match stack_pos_of b fe_id with
      | None => afe ← vec_remove fe_pos b.(active_formatting); Ok (true, set_afe afe b)
      | Some fe_stack_pos =>
          in_scope ← has_node_in_scope b fe_id;
          if negb in_scope then Ok (true, b)
          else
            above ← slice_from (S fe_stack_pos) b.(open_elements);
            fb ← special_position b.(document) above;
            match fb with
            | None =>
                afe ← vec_remove fe_pos b.(active_formatting);
                Ok (true, set_afe afe (set_open (take fe_stack_pos b.(open_elements)) b))
            | Some rel =>
                let furthest_block_pos := fe_stack_pos + 1 + rel in
                furthest_block_id ← unwrap (b.(open_elements) !! furthest_block_pos);
                common_ancestor ← match fe_stack_pos with
                                  | O => Panic
                                  | S n => unwrap (b.(open_elements) !! n)
                                  end;
                between ← slice (S fe_stack_pos) furthest_block_pos b.(open_elements);
                s ← for_each (adoption_inner furthest_block_id)
                      (MkInner b AtFormattingElement furthest_block_id 0) (rev between);
                b ← place_last_node s.(in_tb) common_ancestor s.(in_last);
                '(_, fe_tag, fe_attrs) ← afe_formatting_at b fe_pos;
                '(new_fe, d) ← create_node b.(document) (NElement fe_tag fe_attrs);
                kids ← children d furthest_block_id;
                d ← for_each (move_child new_fe) d kids;
                d ← append_child d furthest_block_id new_fe;
                let b := set_document d b in
                afe ← move_to_bookmark b.(active_formatting) s.(in_bookmark) fe_pos fe_id
                        (Formatting (new_fe, fe_tag, fe_attrs));
                let st := filter (λ id, id ≠ fe_id) b.(open_elements) in
                fb_pos_now ← unwrap (position (λ x, (x =? furthest_block_id)%N) st);
                st ← vec_insert (fb_pos_now + 1) new_fe st;
                Ok (false, set_open st (set_afe afe b))
            end
      end
  end.

(** [for _ in 0..8]. *)
Fixpoint adoption_loop (n : nat) (b : TreeBuilder) (tag : list N) : res TreeBuilder :=
  match n with
  | O => Ok b
  | S n' =>
      '(returned, b) ← adoption_outer b tag;
      if returned : bool then Ok b else adoption_loop n' b tag
  end.

Definition adoption_agency (b : TreeBuilder) (tag : list N) : res TreeBuilder :=
  plain ← match last b.(open_elements) with
          | None => Ok false
          | Some current =>
              t ← tag_of b.(document) current;
              Ok (bool_decide (t = Some tag) && negb (existsb (entry_is current) b.(active_formatting)))
          end;
  if plain : bool then Ok (set_open (vec_pop b.(open_elements)) b)
  else adoption_loop 8 b tag.
