(* ===== verification/DomParents.v ===== *)
(** * The DOM seen through parent links

    What a client that keeps node ids (the HTML tree builder) relies on, stated without the
    child lists of the representation predicate: tags, the parent relation and the ancestor
    relation after each document operation, and lists of nodes ordered so that no later node is
    an ancestor of an earlier one. *)

From Stdlib Require Import Sorting.Sorted.
From stdpp Require Import sorting.
From S2P Require Import Prelude Dom DomTree DomWalk DomOps HtmlTree.

(** ** Tags *)
Definition tag_at (dt : NodeData) : option (list N) :=
  match dt with NElement t _ => Some t | _ => None end.
Definition tg (d : Document) (x : NodeId) : option (list N) :=
  (r_data <$> d.(nodes) !! x) ≫= tag_at.

Lemma tag_of_live d x : live d x → tag_of d x = Ok (tg d x).
Proof.
  intros [r Hr]. unfold tag_of, data, index, tg. rewrite Hr. cbn. by destruct (r_data r).
Qed.

Lemma tg_live d x t : tg d x = Some t → live d x.
Proof. unfold tg, live. destruct (nodes d !! x); [eauto|done]. Qed.

Lemma tag_of_tg d x t : tg d x = Some t → tag_of d x = Ok (Some t).
Proof. intros H. rewrite tag_of_live by (by eapply tg_live). by rewrite H. Qed.

Lemma rewired_tg d d' x : rewired d d' → tg d' x = tg d x.
Proof. intros (_ & _ & H). unfold tg. by rewrite H. Qed.

Lemma root_tg d r : WF d → d.(doc_root) = Some r → tg d r = None.
Proof.
  intros [K HR] Hr. destruct (rep_root _ _ HR) as (r' & rec & Hr' & Hrec & Hdt & _).
  assert (r' = r) as -> by congruence. unfold tg. rewrite Hrec. cbn. by rewrite Hdt.
Qed.

Lemma root_live d r : WF d → d.(doc_root) = Some r → live d r.
Proof.
  intros [K HR] Hr. destruct (rep_root _ _ HR) as (r' & rec & Hr' & Hrec & _).
  assert (r' = r) as -> by congruence. by exists rec.
Qed.

Lemma WF_root d : WF d → ∃ r, d.(doc_root) = Some r.
Proof. intros [K HR]. destruct (rep_root _ _ HR) as (r & _ & ? & _). eauto. Qed.

(** ** Ancestors *)
Abbreviation anc := inclusive_ancestor (only parsing).

Lemma anc_refl d x : anc d x x.
Proof. apply rtc_refl. Qed.
Lemma anc_trans d a x y : anc d a x → anc d x y → anc d a y.
Proof. unfold inclusive_ancestor. intros. by transitivity x. Qed.
Lemma anc_parent d x p : parent_edge d x p → anc d p x.
Proof. intros. by apply rtc_once. Qed.

Lemma anc_mono d d' a x :
  (∀ y q, parent_edge d' y q → parent_edge d y q) → anc d' a x → anc d a x.
Proof. intros Hsub. unfold inclusive_ancestor. apply rtc_congruence with (f := λ y, y). auto. Qed.

(** One more edge: [c] under [p]. *)
Lemma anc_add d d' p c a x :
  (∀ y q, parent_edge d' y q → parent_edge d y q ∨ (y = c ∧ q = p)) →
  anc d' a x → anc d a x ∨ (anc d a p ∧ anc d c x).
Proof.
  intros Hsub. unfold inclusive_ancestor. induction 1 as [x|x y z Hxy _ IH].
  - left. apply rtc_refl.
  - destruct (Hsub _ _ Hxy) as [Hxy'|[-> ->]].
    + destruct IH as [IH|[IH1 IH2]].
      * left. by eapply rtc_l.
      * right. split; [done|]. by eapply rtc_l.
    + right. split; [|apply rtc_refl]. destruct IH as [IH|[IH _]]; done.
Qed.

Lemma anc_antisym d x y : WF d → anc d x y → anc d y x → x = y.
Proof.
  intros [K HR]. rewrite !(rep_inclusive_ancestor _ _ HR). intros Hxy Hyx.
  apply rtc_inv in Hxy as [->|(z & Hxz & Hzy)]; [done|]. exfalso.
  apply (rep_acyclic _ _ HR x). eapply tc_rtc_r; [by apply tc_once|]. by transitivity y.
Qed.

Lemma anc_live d a x : WF d → anc d a x → live d x → live d a.
Proof.
  intros [K HR]. unfold inclusive_ancestor. induction 1 as [|x y z Hxy _ IH]; [done|].
  intros _. apply IH. apply (rep_parent_edge _ _ HR) in Hxy.
  by apply (rep_edge_live _ _ HR) in Hxy as [? _].
Qed.

Lemma parent_edge_live d x p : WF d → parent_edge d x p → live d x ∧ live d p.
Proof.
  intros [K HR] Hxp. apply (rep_parent_edge _ _ HR) in Hxp.
  by apply (rep_edge_live _ _ HR) in Hxp as [? ?].
Qed.

Lemma parent_edge_inj d x p q : parent_edge d x p → parent_edge d x q → p = q.
Proof. intros (r & ? & ?) (r' & ? & ?). congruence. Qed.

Lemma parent_Ok d x : live d x → ∃ o, parent d x = Ok o
  ∧ match o with Some p => parent_edge d x p | None => ∀ p, ¬ parent_edge d x p end.
Proof.
  intros [r Hr]. unfold parent, index. rewrite Hr. cbn. eexists; split; [done|].
  destruct (r_parent r) eqn:E; [by exists r|]. intros p (r' & ? & ?). congruence.
Qed.

Lemma parent_of_edge d x p : parent_edge d x p → parent d x = Ok (Some p).
Proof. intros (r & Hr & Hp). unfold parent, index. rewrite Hr. cbn. by rewrite Hp. Qed.

(** A node no one names as its parent. *)
Lemma anc_leaf d c x : (∀ y, ¬ parent_edge d y c) → anc d c x → x = c.
Proof. unfold inclusive_ancestor. intros Hleaf [->|(y & _ & Hy)]%rtc_inv_r; [done|]. by destruct (Hleaf y). Qed.
(** A node without a parent. *)
Lemma anc_top d x a : (∀ p, ¬ parent_edge d x p) → anc d a x → a = x.
Proof. unfold inclusive_ancestor. intros Htop [->|(y & Hy & _)]%rtc_inv; [done|]. by destruct (Htop y). Qed.

(** ** The operations *)
Definition detached (d : Document) (c : NodeId) : Prop := live d c ∧ ∀ p, ¬ parent_edge d c p.

Lemma detached_record_parent d c : detached d c → ∃ r, d.(nodes) !! c = Some r ∧ r.(r_parent) = None.
Proof.
  intros [[r Hr] Hno]. exists r. split; [done|]. destruct (r_parent r) as [p|] eqn:E; [|done].
  destruct (Hno p). by exists r.
Qed.

Lemma create_parents d dt :
  WF d → (next_node_id d < U64_MAX)%N →
  ∃ d', create_node d dt = Ok (next_node_id d, d') ∧ WF d'
    ∧ d'.(doc_root) = d.(doc_root) ∧ next_node_id d' = (next_node_id d + 1)%N
    ∧ ¬ live d (next_node_id d) ∧ detached d' (next_node_id d)
    ∧ tg d' (next_node_id d) = tag_at dt
    ∧ (∀ x, live d' x ↔ live d x ∨ x = next_node_id d)
    ∧ (∀ x, live d x → tg d' x = tg d x)
    ∧ (∀ x p, parent_edge d' x p ↔ parent_edge d x p).
Proof.
  intros [K HR] Hlt.
  destruct (create_node_spec d K dt HR Hlt) as (d' & Hc & HR' & Hn & Hnone & Hnext & Hroot).
  exists d'. set (n := next_node_id d) in *.
  assert (∀ x p, parent_edge d' x p ↔ parent_edge d x p) as Hpe.
  { intros x p. by rewrite (rep_parent_edge _ _ HR), (rep_parent_edge _ _ HR'). }
  assert (detached d' n) as Hdet.
  { split; [unfold live; rewrite Hn, lookup_insert_eq; eauto|]. intros p.
    rewrite Hpe. intros (r & ? & _). congruence. }
  split; [done|]. split; [by exists K|]. do 2 (split; [done|]).
  split; [|split; [done|split; [|split; [|split; [|done]]]]].
  - unfold live. rewrite Hnone. by intros [? ?].
  - unfold tg. by rewrite Hn, lookup_insert_eq.
  - intros x. unfold live. rewrite Hn. destruct (decide (x = n)) as [->|Hx].
    + rewrite lookup_insert_eq. split; [by right|eauto].
    + rewrite lookup_insert_ne by done. naive_solver.
  - intros x Hx. unfold tg. rewrite Hn, lookup_insert_ne; [done|].
    intros <-. destruct Hx as [? ?]. congruence.
Qed.

(** Attaching below [p], at the end or before [ref]. *)
Lemma attach_parents d p c ref :
  WF d → live d p → detached d c → d.(doc_root) ≠ Some c → ¬ anc d c p →
  (∀ r, ref = Some r → parent_edge d r p) →
  ∃ d', insert_before d p c ref = Ok d' ∧ WF d' ∧ rewired d d'
    ∧ (∀ x q, parent_edge d' x q ↔ parent_edge d x q ∨ (x = c ∧ q = p)).
Proof.
  intros [K HR] Hp Hdet Hroot Hanc Href.
  destruct (detached_record_parent _ _ Hdet) as (rc & Hc & Hpar).
  assert (∀ d' K', Rep d' K' → (∀ q x, x ∈ K' q ↔ x ∈ K q ∨ (x = c ∧ q = p)) →
    ∀ x q, parent_edge d' x q ↔ parent_edge d x q ∨ (x = c ∧ q = p)) as Hedges.
  { intros d' K' HR' HK x q. rewrite (rep_parent_edge _ _ HR), (rep_parent_edge _ _ HR'). apply HK. }
  destruct ref as [r|].
  - destruct (Href r eq_refl) as (rr & Hr & Hrp).
    destruct (rep_reference _ _ _ _ _ HR Hr Hrp) as (l1 & l2 & HK).
    destruct (insert_before_spec d K p c rc r l1 l2) as (d' & H & HR' & Hrw); try done.
    exists d'. split_and!; [done|by eexists|done|]. eapply Hedges; [done|]. intros q x.
    rewrite insert_edge. destruct (decide (p = q)) as [<-|]; [rewrite HK|]; set_solver.
  - destruct (append_child_spec d K p c rc) as (d' & H & HR' & Hrw); try done.
    exists d'. split_and!; [done|by eexists|done|]. eapply Hedges; [done|]. intros q x.
    rewrite insert_edge. destruct (decide (p = q)) as [<-|]; set_solver.
Qed.

Lemma detach_parents d c :
  WF d → live d c →
  ∃ d', detach d c = Ok d' ∧ WF d' ∧ rewired d d'
    ∧ (∀ x q, parent_edge d' x q ↔ parent_edge d x q ∧ x ≠ c).
Proof.
  intros [K HR] Hc. destruct (detach_spec d K c HR Hc) as (d' & H & HR' & Hrw).
  exists d'. split_and!; [done|by eexists|done|]. intros x q.
  rewrite (rep_parent_edge _ _ HR), (rep_parent_edge _ _ HR'). unfold edge, unlink.
  rewrite list_elem_of_filter. naive_solver.
Qed.

Lemma data_mut_parents d x f :
  WF d → live d x → d.(doc_root) ≠ Some x → (∀ dt, tag_at (f dt) = tag_at dt) →
  ∃ d', data_mut d x f = Ok d' ∧ WF d' ∧ d'.(doc_root) = d.(doc_root)
    ∧ next_node_id d' = next_node_id d
    ∧ (∀ y, live d' y ↔ live d y) ∧ (∀ y, tg d' y = tg d y)
    ∧ (∀ y q, parent_edge d' y q ↔ parent_edge d y q).
Proof.
  intros [K HR] Hx Hroot Hf. destruct (data_mut_spec d K x f HR Hx Hroot) as (d' & H & HR' & Hn).
  exists d'. assert (d' = with_nodes d (nodes d')) as Hd'.
  { unfold data_mut in H. apply bind_Ok in H as (m & _ & H). apply Ok_inj in H. by subst d'. }
  split_and!; [done|by eexists|by rewrite Hd'|by rewrite Hd'| | |].
  - intros y. unfold live. rewrite Hn, lookup_alter_at, fmap_is_Some. done.
  - intros y. unfold tg. rewrite Hn, lookup_alter_at. unfold at_id.
    destruct (nodes d !! y); [|done]. cbn. by case_decide; cbn; rewrite ?Hf.
  - intros y q. by rewrite (rep_parent_edge _ _ HR), (rep_parent_edge _ _ HR').
Qed.

(** ** How a builder's operations change a document

    Nodes stay and keep their tags; the page's skeleton (the [html], [head] and [body]
    elements, under the root or under [html]) keeps its place, and nothing is put directly under
    the root; at most [c] ids are used. *)
Definition FROZEN : list (list N) := [str "html"; str "head"; str "body"].
Definition anchor (d : Document) (p : NodeId) : Prop :=
  tg d p = None ∨ tg d p = Some (str "html").

Record evolves (c : N) (d d' : Document) : Prop := {
  ev_from : WF d;
  ev_wf : WF d';
  ev_root : d'.(doc_root) = d.(doc_root);
  ev_live : ∀ x, live d x → live d' x;
  ev_tags : ∀ x, live d x → tg d' x = tg d x;
  ev_fresh : ∀ x, live d' x → live d x ∨ (next_node_id d ≤ x)%N;
  ev_frozen : ∀ x p t, tg d x = Some t → t ∈ FROZEN → anchor d p → parent_edge d x p →
    parent_edge d' x p;
  ev_top : ∀ x r, d.(doc_root) = Some r → parent_edge d' x r → parent_edge d x r;
  ev_next : (next_node_id d ≤ next_node_id d' ≤ next_node_id d + c)%N;
}.

Lemma ev_tag c d d' x t : evolves c d d' → tg d x = Some t → tg d' x = Some t.
Proof. intros E H. rewrite (ev_tags _ _ _ E); [done|]. by eapply tg_live. Qed.

Lemma evolves_refl c d : WF d → evolves c d d.
Proof. intros HW. split; try done; [auto..|lia]. Qed.

Lemma evolves_trans c1 c2 d1 d2 d3 :
  evolves c1 d1 d2 → evolves c2 d2 d3 → evolves (c1 + c2) d1 d3.
Proof.
  intros E1 E2. pose proof (ev_from _ _ _ E1) as HW1. split; [done|..].
  - apply E2.
  - by rewrite (ev_root _ _ _ E2), (ev_root _ _ _ E1).
  - intros x Hx. by apply (ev_live _ _ _ E2), (ev_live _ _ _ E1).
  - intros x Hx. rewrite (ev_tags _ _ _ E2), (ev_tags _ _ _ E1); [done..|]. by apply E1.
  - intros x Hx. pose proof (ev_next _ _ _ E1).
    destruct (ev_fresh _ _ _ E2 x Hx) as [Hx'|?]; [|right; lia]. by apply (ev_fresh _ _ _ E1).
  - intros x p t Ht Hin Ha Hp. pose proof (ev_frozen _ _ _ E1 x p t Ht Hin Ha Hp) as Hp2.
    eapply (ev_frozen _ _ _ E2); [by eapply ev_tag|done| |done].
    unfold anchor in *. rewrite (ev_tags _ _ _ E1); [done|]. by apply (parent_edge_live _ _ _ HW1 Hp).
  - intros x r Hr Hx. eapply (ev_top _ _ _ E1); [done|]. eapply (ev_top _ _ _ E2); [|done].
    by rewrite (ev_root _ _ _ E1).
  - pose proof (ev_next _ _ _ E1). pose proof (ev_next _ _ _ E2). lia.
Qed.

Lemma evolves_weaken c c' d d' : (c ≤ c')%N → evolves c d d' → evolves c' d d'.
Proof. intros Hle []. split; try done. lia. Qed.

(** An operation that keeps the ids and only changes parents. *)
Lemma rewired_evolves d d' :
  WF d → WF d' → rewired d d' →
  (∀ x p t, tg d x = Some t → t ∈ FROZEN → anchor d p → parent_edge d x p → parent_edge d' x p) →
  (∀ x r, d.(doc_root) = Some r → parent_edge d' x r → parent_edge d x r) →
  evolves 0 d d'.
Proof.
  intros HW0 HW Hrw Hf Ht. pose proof Hrw as (Ha & Hr & _). split; try done.
  - intros x Hx. by apply (rewired_live d d').
  - intros x _. by rewrite (rewired_tg d d').
  - intros x Hx. left. by apply (rewired_live d d').
  - unfold next_node_id. rewrite Ha. lia.
Qed.

Lemma create_evolves d dt :
  WF d → (next_node_id d < U64_MAX)%N →
  ∃ d', create_node d dt = Ok (next_node_id d, d') ∧ evolves 1 d d'
    ∧ next_node_id d' = (next_node_id d + 1)%N
    ∧ ¬ live d (next_node_id d) ∧ detached d' (next_node_id d)
    ∧ tg d' (next_node_id d) = tag_at dt
    ∧ (∀ x p, parent_edge d' x p ↔ parent_edge d x p).
Proof.
  intros HW Hlt. destruct (create_parents d dt HW Hlt)
    as (d' & Hc & HW' & Hr & Hn & Hnl & Hdet & Ht & Hl & Htg & Hpe).
  exists d'. split; [done|]. split; [|by split_and!]. split; try done.
  - intros x Hx. apply Hl. by left.
  - intros x [?| ->]%Hl; [by left|right; lia].
  - intros x p t _ _ _ ?. by apply Hpe.
  - intros x r _ ?. by apply Hpe.
  - lia.
Qed.

Lemma attach_evolves d p c ref :
  WF d → live d p → d.(doc_root) ≠ Some p → detached d c → d.(doc_root) ≠ Some c → ¬ anc d c p →
  (∀ r, ref = Some r → parent_edge d r p) →
  ∃ d', insert_before d p c ref = Ok d' ∧ evolves 0 d d'
    ∧ (∀ x, tg d' x = tg d x) ∧ (∀ x, live d' x ↔ live d x)
    ∧ (∀ x q, parent_edge d' x q ↔ parent_edge d x q ∨ (x = c ∧ q = p)).
Proof.
  intros HW Hp Hpr Hdet Hcr Hanc Href.
  destruct (attach_parents d p c ref) as (d' & H & HW' & Hrw & Hpe); try done.
  exists d'. split; [done|]. split; [|split_and!; try done].
  - apply rewired_evolves; [done..| |].
    + intros x q t _ _ _ ?. apply Hpe. by left.
    + intros x r Hr [?|[-> ->]]%Hpe; done.
  - intros x. by apply rewired_tg.
  - intros x. by apply rewired_live.
Qed.

Lemma detach_evolves d c t :
  WF d → tg d c = Some t → t ∉ FROZEN →
  ∃ d', detach d c = Ok d' ∧ evolves 0 d d' ∧ detached d' c
    ∧ (∀ x, tg d' x = tg d x) ∧ (∀ x, live d' x ↔ live d x)
    ∧ (∀ x q, parent_edge d' x q ↔ parent_edge d x q ∧ x ≠ c).
Proof.
  intros HW Ht Hnf. pose proof (tg_live _ _ _ Ht) as Hl.
  destruct (detach_parents d c HW Hl) as (d' & H & HW' & Hrw & Hpe).
  exists d'. split; [done|]. split; [|split; [|split_and!; try done]].
  - apply rewired_evolves; [done..| |].
    + intros x q t' Htx Hin _ ?. apply Hpe. split; [done|]. intros ->. by simplify_eq.
    + intros x r _ [? _]%Hpe. done.
  - split; [by apply (rewired_live d d')|]. intros p [_ ?]%Hpe. done.
  - intros x. by apply rewired_tg.
  - intros x. by apply rewired_live.
Qed.

Lemma data_mut_evolves d x f :
  WF d → live d x → d.(doc_root) ≠ Some x → (∀ dt, tag_at (f dt) = tag_at dt) →
  ∃ d', data_mut d x f = Ok d' ∧ evolves 0 d d' ∧ (∀ y, tg d' y = tg d y)
    ∧ (∀ y q, parent_edge d' y q ↔ parent_edge d y q).
Proof.
  intros HW Hx Hr Hf. destruct (data_mut_parents d x f HW Hx Hr Hf)
    as (d' & H & HW' & Hr' & Hn & Hl & Ht & Hpe).
  exists d'. split; [done|]. split; [|by split]. split; try done.
  - intros y. by apply Hl.
  - intros y ?. left. by apply Hl.
  - intros y p t _ _ _. by apply Hpe.
  - intros y r _. by apply Hpe.
  - lia.
Qed.

(** ** Lists in which no later node is an ancestor of an earlier one *)
Definition above_ok (d : Document) (x y : NodeId) : Prop := ¬ anc d y x.
Definition ordered (d : Document) (l : list NodeId) : Prop := StronglySorted (above_ok d) l.

Lemma ordered_app d l1 l2 :
  ordered d (l1 ++ l2) ↔ (∀ x y, x ∈ l1 → y ∈ l2 → ¬ anc d y x) ∧ ordered d l1 ∧ ordered d l2.
Proof. apply StronglySorted_app. Qed.

Lemma ordered_cons d x l : ordered d (x :: l) ↔ (∀ y, y ∈ l → ¬ anc d y x) ∧ ordered d l.
Proof. unfold ordered. rewrite StronglySorted_cons, Forall_forall. done. Qed.

Lemma ordered_NoDup d l : ordered d l → NoDup l.
Proof.
  induction l as [|x l IH]; [constructor|]. rewrite ordered_cons. intros [Hx Hl].
  apply NoDup_cons. split; [|by apply IH]. intros Hin. by apply (Hx x Hin), anc_refl.
Qed.

Lemma ordered_sublist d l l' : l' `sublist_of` l → ordered d l → ordered d l'.
Proof.
  induction 1 as [|x l' l Hs IH|x l' l Hs IH]; [done| |].
  - rewrite !ordered_cons. intros [Hx Hl]. split; [|auto]. intros y Hy. apply Hx. by eapply elem_of_sublist.
  - rewrite ordered_cons. intros [_ Hl]. auto.
Qed.

Lemma ordered_mono d d' l :
  (∀ x y, x ∈ l → y ∈ l → anc d' y x → anc d y x) → ordered d l → ordered d' l.
Proof.
  induction l as [|x l IH]; [constructor|]. intros Hm. rewrite !ordered_cons. intros [Hx Hl]. split.
  - intros y Hy Ha. apply (Hx y Hy). apply Hm; [set_solver..|done].
  - apply IH; [|done]. intros; apply Hm; [set_solver..|done].
Qed.

(** Attaching a leaf that is not in the list; it may go on top. *)
Lemma ordered_push d d' p c l :
  (∀ x q, parent_edge d' x q ↔ parent_edge d x q ∨ (x = c ∧ q = p)) →
  (∀ y, ¬ parent_edge d y c) → c ∉ l → ordered d l → c ≠ p → ordered d' (l ++ [c]).
Proof.
  intros Hpe Hleaf Hc Hl Hcp.
  assert (∀ a x, anc d' a x → x ≠ c → anc d a x) as Hold.
  { intros a x Ha Hx. apply (anc_add d d' p c) in Ha as [?|[_ Ha]]; [done| |by intros; apply Hpe].
    by apply anc_leaf in Ha. }
  apply ordered_app. split_and!.
  - intros x y Hx ->%list_elem_of_singleton Ha.
    assert (x ≠ c) by (intros ->; done). apply Hold in Ha; [|done]. by apply anc_leaf in Ha.
  - eapply ordered_mono; [|exact Hl]. intros x y Hx _ Ha. apply Hold; [done|]. by intros ->.
  - repeat constructor.
Qed.

(** Moving a listed node [c] (with what hangs below it) under [p], where every ancestor of [p]
    is an ancestor of a node listed before [c]. *)
Lemma ordered_attach d d' p c q l1 l2 :
  (∀ x r, parent_edge d' x r ↔ parent_edge d x r ∨ (x = c ∧ r = p)) →
  q ∈ l1 → anc d p q → ordered d (l1 ++ c :: l2) → ordered d' (l1 ++ c :: l2).
Proof.
  intros Hpe Hq Hpq Hl.
  assert (∀ x y, anc d' y x → anc d y x ∨ (anc d y p ∧ anc d c x)) as Hadd.
  { intros x y. apply anc_add. intros; by apply Hpe. }
  pose proof Hl as (Hx1 & Ho1 & (Hc2 & Ho2)%ordered_cons)%ordered_app.
  apply ordered_app. split_and!.
  - intros x y Hx Hy [Ha|[_ Ha]]%Hadd; [by eapply Hx1|]. eapply Hx1; [exact Hx| |done]. by left.
  - eapply ordered_mono; [|exact Ho1]. intros x y Hx Hy [Ha|[_ Ha]]%Hadd; [done|].
    exfalso. eapply Hx1; [exact Hx| |exact Ha]. by left.
  - apply ordered_cons. split.
    + intros y Hy [Ha|[Ha _]]%Hadd; [by eapply Hc2|].
      eapply Hx1; [exact Hq|by right|]. by eapply anc_trans.
    + eapply ordered_mono; [|exact Ho2]. intros x y Hx Hy [Ha|[Ha _]]%Hadd; [done|].
      exfalso. eapply Hx1; [exact Hq|by right; exact Hy|]. by eapply anc_trans.
Qed.

(** A leaf without a parent may replace a listed node. *)
Lemma ordered_replace d l1 l2 x c :
  detached d c → (∀ y, ¬ parent_edge d y c) → c ∉ l1 ++ x :: l2 →
  ordered d (l1 ++ x :: l2) → ordered d (l1 ++ c :: l2).
Proof.
  intros [_ Htop] Hleaf Hc (Hx1 & Ho1 & (Hc2 & Ho2)%ordered_cons)%ordered_app.
  apply ordered_app. split_and!; [|done|].
  - intros y z Hy [-> |Hz]%elem_of_cons.
    + intros Ha. apply anc_leaf in Ha as ->; [|done]. set_solver.
    + eapply Hx1; [done|by right].
  - apply ordered_cons. split; [|done]. intros y Hy Ha. apply anc_top in Ha as ->; [|done]. set_solver.
Qed.
