(* ===== verification/HtmlModes.v ===== *)
(** * The HTML tree builder: insertion modes and the parser

    One definition per [step_*] method of [core/html/src/tree_builder.rs], the dispatch on the
    insertion mode, the loop that reprocesses a token and the loop over the tokens.  The two
    loops take a bound; [HtmlTermination] says when it is enough and shows an input on which
    the code's own loop never ends. *)

From S2P Require Import Prelude Dom HtmlTokenizer HtmlTree.

(** A step's result with the builder after it. *)
Definition finish (b : TreeBuilder) : res (StepResult * TreeBuilder) := Ok (Done, b).
Definition reprocess (t : Token) (b : TreeBuilder) : res (StepResult * TreeBuilder) :=
  Ok (Reprocess t, b).
Definition then_finish (m : res TreeBuilder) : res (StepResult * TreeBuilder) := b ← m; finish b.

(** [if cond { f }], both on the builder. *)
Definition when (c : res bool) (f : TreeBuilder → res TreeBuilder) (b : TreeBuilder)
    : res TreeBuilder :=
  x ← c; if x : bool then f b else Ok b.

(** ** Character data *)

(** [s.trim().is_empty()]. *)
Definition blank (s : list N) : bool := forallb is_whitespace s.

Definition trim_start (s : list N) : list N := drop (length (take_while is_whitespace s)) s.

Definition split_leading_whitespace (s : list N) : option (list N * list N) :=
  match take_while is_whitespace s with
  | [] => None
  | ws => Some (ws, trim_start s)
  end.

Definition strip_null_characters (s : list N) : list N := filter (λ c, c ≠ 0%N) s.

(** [inl] is the result to return at once, [inr] the token to go on with. *)
Definition split_off_dropped_whitespace (t : Token) : StepResult + Token :=
  match t with
  | Character s =>
      if blank s then inl Done
      else match split_leading_whitespace s with
           | Some (_, rest) => inl (Reprocess (Character rest))
           | None => inr t
           end
  | _ => inr t
  end.

(** The whitespace rule of the head and column-group modes: [Some] when it returns. *)
Definition whitespace_rule (b : TreeBuilder) (t : Token) : res (option (StepResult * TreeBuilder)) :=
  match t with
  | Character s =>
      if blank s then b ← insert_text b s; Ok (Some (Done, b))
      else match split_leading_whitespace s with
           | Some (ws, rest) => b ← insert_text b ws; Ok (Some (Reprocess (Character rest), b))
           | None => Ok None
           end
  | _ => Ok None
  end.

(** ** In body *)

(** Attributes of a stray second tag that the element does not have yet. *)
Definition merge_attrs (attrs new : Attrs) : Attrs :=
  foldl (λ acc kv, if existsb (λ e, bool_decide (e.1 = kv.1)) acc then acc else acc ++ [kv])
    attrs new.
(** [if let NodeData::Element { tag_name, attributes } = data_mut(id)], under a test of the tag. *)
Definition merge_onto (ok : list N → bool) (b : TreeBuilder) (id : NodeId) (attrs : Attrs)
    : res TreeBuilder :=
  d ← data_mut b.(document) id (λ dt,
        match dt with
        | NElement t a => if ok t then NElement t (merge_attrs a attrs) else dt
        | _ => dt
        end);
  Ok (set_document d b).

Definition close_p_if_open (b : TreeBuilder) : res TreeBuilder :=
  when (has_p_in_button_scope b) close_p_element b.

(** [existing_a]'s removal after the adoption agency ran for a second [<a>]. *)
Definition forget_element (id : NodeId) (b : TreeBuilder) : TreeBuilder :=
  set_afe (filter (λ e, entry_is id e = false) b.(active_formatting))
    (set_open (filter (λ x, x ≠ id) b.(open_elements)) b).

Definition start_a (b : TreeBuilder) (attrs : Attrs) : res TreeBuilder :=
  fp ← afe_formatting_rposition b (str "a");
  b ← match fp with
      | Some fe_pos =>
          '(existing_a, _, _) ← afe_formatting_at b fe_pos;
          b ← adoption_agency b (str "a");
          Ok (forget_element existing_a b)
      | None => Ok b
      end;
  b ← reconstruct_active_formatting_elements b;
  '(id, b) ← insert_element b (str "a") attrs;
  push_formatting b id (str "a") attrs.

Definition start_formatting (b : TreeBuilder) (name : list N) (attrs : Attrs) : res TreeBuilder :=
  b ← reconstruct_active_formatting_elements b;
  '(id, b) ← insert_element b name attrs;
  push_formatting b id name attrs.

(** Reconstruct, then insert: what ordinary and void elements do. *)
Definition start_ordinary (b : TreeBuilder) (name : list N) (attrs : Attrs) : res TreeBuilder :=
  b ← reconstruct_active_formatting_elements b;
  insert_element_ b name attrs.

Definition start_block (b : TreeBuilder) (name : list N) (attrs : Attrs) : res TreeBuilder :=
  b ← close_p_if_open b;
  insert_element_ b name attrs.

Definition has_select (b : TreeBuilder) : res bool := has_tag_in_scope b (str "select") [].

Definition start_option (b : TreeBuilder) (name : list N) (except : option (list N)) (attrs : Attrs)
    : res TreeBuilder :=
  sel ← has_select b;
  b ← (if sel : bool then generate_implied_end_tags b except
       else when (is_current b "option") (λ b, Ok (set_open (vec_pop b.(open_elements)) b)) b);
  start_ordinary b name attrs.

Definition start_heading (b : TreeBuilder) (name : list N) (attrs : Attrs) : res TreeBuilder :=
  b ← close_p_if_open b;
  n ← current_node b;
  t ← tag_of b.(document) n;
  let b := if among (default [] t) HEADING_ELEMENTS then set_open (vec_pop b.(open_elements)) b
           else b in
  insert_element_ b name attrs.

Definition start_tag_in_body (b : TreeBuilder) (name : list N) (attrs : Attrs)
    : res (StepResult * TreeBuilder) :=
  if tag_is name "html" then
    match head b.(open_elements) with
    | Some html_id => then_finish (merge_onto (λ _, true) b html_id attrs)
    | None => finish b
    end
  else if tag_is name "body" then
    match b.(open_elements) !! 1 with
    | Some body_id => then_finish (merge_onto (λ t, tag_is t "body") b body_id attrs)
    | None => finish b
    end
  else if tag_is name "head" then finish b
  else if one_of name ["caption"; "col"; "colgroup"; "tbody"; "td"; "tfoot"; "th"; "thead"; "tr"]
  then finish b
  else if tag_is name "table" then
    b ← (if b.(quirks_mode) then Ok b else close_p_if_open b);
    b ← insert_element_ b (str "table") attrs;
    finish (set_mode InTable b)
  else if tag_is name "form" then
    match b.(form_element) with
    | Some _ => finish b
    | None =>
        b ← close_p_if_open b;
        '(id, b) ← insert_element b (str "form") attrs;
        finish (set_form (Some id) b)
    end
  else if tag_is name "li" then
    b ← close_li_if_open b;
    then_finish (start_block b (str "li") attrs)
  else if tag_is name "button" then
    b ← when (has_tag_in_scope b (str "button") [])
          (λ b, b ← generate_implied_end_tags b None; pop_until_and_including b (str "button")) b;
    then_finish (start_ordinary b (str "button") attrs)
  else if tag_is name "a" then then_finish (start_a b attrs)
  else if one_of name ["textarea"; "script"; "style"; "title"] then
    b ← switch_to_text_mode b name attrs;
    finish (if tag_is name "textarea" then set_strip true b else b)
  else if tag_is name "pre" then
    b ← start_block b (str "pre") attrs;
    finish (set_strip true b)
  else if tag_is name "select" then
    sel ← has_select b;
    then_finish (if sel : bool then pop_until_and_including b (str "select")
               else start_ordinary b (str "select") attrs)
  else if tag_is name "option" then
    then_finish (start_option b (str "option") (Some (str "optgroup")) attrs)
  else if tag_is name "optgroup" then then_finish (start_option b (str "optgroup") None attrs)
  else if tag_is name "hr" then
    b ← close_p_if_open b;
    b ← when (has_select b) (λ b, generate_implied_end_tags b None) b;
    then_finish (insert_element_ b (str "hr") attrs)
  else if tag_is name "input" then
    b ← when (has_select b) (λ b, pop_until_and_including b (str "select")) b;
    then_finish (start_ordinary b (str "input") attrs)
  else if among name FORMATTING_ELEMENTS then then_finish (start_formatting b name attrs)
  else if among name HEADING_ELEMENTS then then_finish (start_heading b name attrs)
  else if among name P_CLOSING_ELEMENTS then then_finish (start_block b name attrs)
  else if among name VOID_ELEMENTS then then_finish (start_ordinary b name attrs)
  else then_finish (start_ordinary b name attrs).

(** Closes through the nearest [name] when it is in scope. *)
Definition close_in_scope (b : TreeBuilder) (name : list N) : res TreeBuilder :=
  when (has_tag_in_scope b name [])
    (λ b, b ← generate_implied_end_tags b None; pop_until_and_including b name) b.

Definition end_form (b : TreeBuilder) : res TreeBuilder :=
  match b.(form_element) with
  | None => Ok b
  | Some form_id =>
      let b := set_form None b in
      when (has_node_in_scope b form_id)
        (λ b, b ← generate_implied_end_tags b None;
              Ok (set_open (filter (λ x, x ≠ form_id) b.(open_elements)) b)) b
  end.

Definition end_heading (b : TreeBuilder) : res TreeBuilder :=
  when (has_any_heading_in_scope b)
    (λ b, b ← generate_implied_end_tags b None;
          on_stack (pop_through b.(document)
            (λ t, among (default [] t) HEADING_ELEMENTS)) b) b.

Definition end_tag_in_body (b : TreeBuilder) (name : list N) : res (StepResult * TreeBuilder) :=
  if one_of name ["body"; "html"] then
    h ← has_tag_in_scope b (str "body") [];
    if negb h then finish b
    else
      let b := set_mode AfterBody b in
      if tag_is name "html" then reprocess (EndTag name) b else finish b
  else if tag_is name "br" then then_finish (start_ordinary b (str "br") [])
  else if tag_is name "p" then
    h ← has_p_in_button_scope b;
    b ← (if h : bool then Ok b else insert_element_ b (str "p") []);
    then_finish (close_p_element b)
  else if tag_is name "li" then then_finish (close_li_if_open b)
  else if tag_is name "button" then then_finish (close_in_scope b (str "button"))
  else if tag_is name "form" then then_finish (end_form b)
  else if among name HEADING_ELEMENTS then then_finish (end_heading b)
  else if among name FORMATTING_ELEMENTS then then_finish (adoption_agency b name)
  else if among name P_CLOSING_ELEMENTS then then_finish (close_in_scope b name)
  else then_finish (any_other_end_tag b name).

Definition step_in_body (b : TreeBuilder) (t : Token) : res (StepResult * TreeBuilder) :=
  match t with
  | Doctype | Comment | Eof => finish b
  | Character s =>
      let s := strip_null_characters s in
      b ← reconstruct_active_formatting_elements b;
      let '(s, b) := consume_leading_newline_strip b s in
      then_finish (insert_text b s)
  | StartTag name attrs _ => start_tag_in_body b name attrs
  | EndTag name => end_tag_in_body b name
  end.

(** ** Before the body *)
Definition step_initial (b : TreeBuilder) (t : Token) : res (StepResult * TreeBuilder) :=
  let other := reprocess t (set_mode BeforeHtml (set_quirks true b)) in
  match t with
  | Doctype => finish (set_mode BeforeHtml b)
  | Comment => finish b
  | Character s => if blank s then finish b else other
  | _ => other
  end.

Definition step_before_html (b : TreeBuilder) (t : Token) : res (StepResult * TreeBuilder) :=
  match split_off_dropped_whitespace t with
  | inl r => Ok (r, b)
  | inr t =>
      let other :=
        b ← insert_element_ b (str "html") [];
        reprocess t (set_mode BeforeHead b) in
      match t with
      | Doctype | Comment => finish b
      | StartTag name attrs _ =>
          if tag_is name "html" then
            b ← insert_element_ b (str "html") attrs;
            finish (set_mode BeforeHead b)
          else other
      | EndTag name =>
          if negb (one_of name ["head"; "body"; "html"; "br"]) then finish b else other
      | _ => other
      end
  end.

Definition step_before_head (b : TreeBuilder) (t : Token) : res (StepResult * TreeBuilder) :=
  match split_off_dropped_whitespace t with
  | inl r => Ok (r, b)
  | inr t =>
      let other :=
        '(id, b) ← insert_element b (str "head") [];
        reprocess t (set_mode InHead (set_head (Some id) b)) in
      match t with
      | Doctype | Comment => finish b
      | StartTag name attrs _ =>
          if tag_is name "html" then step_in_body b t
          else if tag_is name "head" then
            '(id, b) ← insert_element b (str "head") attrs;
            finish (set_mode InHead (set_head (Some id) b))
          else other
      | EndTag name =>
          if negb (one_of name ["head"; "body"; "html"; "br"]) then finish b else other
      | _ => other
      end
  end.

Definition step_in_head (b : TreeBuilder) (t : Token) : res (StepResult * TreeBuilder) :=
  ws ← whitespace_rule b t;
  match ws with
  | Some r => Ok r
  | None =>
      let leave := set_mode AfterHead (set_open (vec_pop b.(open_elements)) b) in
      match t with
      | Doctype | Comment => finish b
      | StartTag name attrs _ =>
          if tag_is name "html" then step_in_body b t
          else if one_of name ["meta"; "link"] then then_finish (insert_element_ b name attrs)
          else if one_of name ["title"; "style"; "script"] then
            then_finish (switch_to_text_mode b name attrs)
          else if tag_is name "head" then finish b
          else reprocess t leave
      | EndTag name =>
          if tag_is name "head" then finish leave
          else if negb (one_of name ["body"; "html"; "br"]) then finish b
          else reprocess t leave
      | _ => reprocess t leave
      end
  end.

Definition step_after_head (b : TreeBuilder) (t : Token) : res (StepResult * TreeBuilder) :=
  ws ← whitespace_rule b t;
  match ws with
  | Some r => Ok r
  | None =>
      let open_body :=
        b ← insert_element_ b (str "body") [];
        reprocess t (set_mode InBody b) in
      match t with
      | Doctype | Comment => finish b
      | StartTag name attrs _ =>
          if tag_is name "html" then step_in_body b t
          else if tag_is name "body" then
            b ← insert_element_ b (str "body") attrs;
            finish (set_mode InBody b)
          else if tag_is name "head" then finish b
          else if one_of name ["meta"; "link"; "title"; "style"; "script"] then
            match b.(head_element) with
            | None => open_body
            | Some head_id =>
                '(r, b) ← step_in_head (set_open (b.(open_elements) ++ [head_id]) b) t;
                Ok (r, set_open (filter (λ id, id ≠ head_id) b.(open_elements)) b)
            end
          else open_body
      | EndTag name =>
          if negb (one_of name ["body"; "html"; "br"]) then finish b else open_body
      | _ => open_body
      end
  end.

Definition step_text (b : TreeBuilder) (t : Token) : res (StepResult * TreeBuilder) :=
  let restored :=
    let b := set_open (vec_pop b.(open_elements)) b in
    let b := set_tokenizer (set_content_model CmData b.(tokenizer)) b in
    set_mode b.(original_mode) b in
  match t with
  | Character s =>
      let '(s, b) := consume_leading_newline_strip b s in
      then_finish (insert_text b s)
  | EndTag _ => finish restored
  | Eof => reprocess Eof restored
  | _ => finish b
  end.

(** ** Tables *)
Definition clear_stack_back_to (b : TreeBuilder) (stop_tags : list string) : res TreeBuilder :=
  on_stack (pop_until b.(document) (λ t,
    match t with Some t => tag_is t "html" || one_of t stop_tags | None => false end)) b.

(** [pop_until_and_including("table")] with the mode reset, when a table is in scope. *)
Definition close_table (b : TreeBuilder) : res TreeBuilder :=
  when (has_tag_in_scope b (str "table") [])
    (λ b, b ← pop_until_and_including b (str "table"); reset_insertion_mode b) b.

(** Clears back to the context, inserts [name] and switches the mode. *)
Definition open_table_part (b : TreeBuilder) (stop_tags : list string) (name : list N)
    (attrs : Attrs) (m : Mode) : res TreeBuilder :=
  b ← clear_stack_back_to b stop_tags;
  b ← insert_element_ b name attrs;
  Ok (set_mode m b).

Definition is_hidden_input (name : list N) (attrs : Attrs) : bool :=
  tag_is name "input"
  && existsb (λ kv, tag_is kv.1 "type" && str_eq_ignore_case kv.2 (str "hidden")) attrs.

Definition step_in_table (b : TreeBuilder) (t : Token) : res (StepResult * TreeBuilder) :=
  let other :=
    '(r, b) ← step_in_body (set_foster true b) t;
    Ok (r, set_foster false b) in
  match t with
  | Character s =>
      let s := strip_null_characters s in
      if blank s then then_finish (insert_text b s)
      else
        b ← reconstruct_active_formatting_elements (set_foster true b);
        b ← insert_text b s;
        finish (set_foster false b)
  | Doctype | Comment => finish b
  | StartTag name attrs _ =>
      if tag_is name "caption" then
        b ← clear_stack_back_to b ["table"];
        b ← insert_element_ (insert_afe_marker b) (str "caption") attrs;
        finish (set_mode InCaption b)
      else if tag_is name "colgroup" then
        then_finish (open_table_part b ["table"%string] (str "colgroup") attrs InColumnGroup)
      else if tag_is name "col" then
        b ← open_table_part b ["table"%string] (str "colgroup") [] InColumnGroup;
        reprocess t b
      else if one_of name ["tbody"; "thead"; "tfoot"] then
        then_finish (open_table_part b ["table"%string] name attrs InTableBody)
      else if one_of name ["tr"; "td"; "th"] then
        b ← open_table_part b ["table"%string] (str "tbody") [] InTableBody;
        reprocess t b
      else if tag_is name "table" then b ← close_table b; reprocess t b
      else if one_of name ["style"; "script"] then step_in_head b t
      else if is_hidden_input name attrs then then_finish (insert_element_ b (str "input") attrs)
      else if tag_is name "form" then
        match b.(form_element) with
        | Some _ => finish b
        | None =>
            '(id, b) ← insert_element b (str "form") attrs;
            let b := set_form (Some id) b in
            finish (set_open (vec_pop b.(open_elements)) b)
        end
      else other
  | EndTag name =>
      if tag_is name "table" then then_finish (close_table b)
      else if one_of name ["body"; "caption"; "col"; "colgroup"; "html"; "tbody"; "td"; "tfoot";
                           "th"; "thead"; "tr"] then finish b
      else other
  | Eof => other
  end.

(** Closes the open caption, with or without clearing the formatting list. *)
Definition close_caption (clear : bool) (b : TreeBuilder) : res TreeBuilder :=
  b ← generate_implied_end_tags b None;
  b ← pop_until_and_including b (str "caption");
  Ok (if clear then clear_afe_up_to_last_marker b else b).

Definition TABLE_PARTS : list string :=
  ["caption"; "col"; "colgroup"; "tbody"; "td"; "tfoot"; "th"; "thead"; "tr"]%string.

Definition step_in_caption (b : TreeBuilder) (t : Token) : res (StepResult * TreeBuilder) :=
  let in_scope := has_tag_in_scope b (str "caption") [] in
  match t with
  | EndTag name =>
      if tag_is name "caption" then
        b ← when in_scope (close_caption true) b;
        finish (set_mode InTable b)
      else if tag_is name "table" then
        b ← when in_scope (λ b, b ← close_caption false b; Ok (set_mode InTable b)) b;
        reprocess t b
      else step_in_body b t
  | StartTag name _ _ =>
      if one_of name TABLE_PARTS then
        b ← when in_scope (λ b, b ← close_caption true b; Ok (set_mode InTable b)) b;
        reprocess t b
      else step_in_body b t
  | _ => step_in_body b t
  end.

Definition step_in_column_group (b : TreeBuilder) (t : Token) : res (StepResult * TreeBuilder) :=
  ws ← whitespace_rule b t;
  match ws with
  | Some r => Ok r
  | None =>
      let leave :=
        b ← when (is_current b "colgroup") (λ b, Ok (set_open (vec_pop b.(open_elements)) b)) b;
        Ok (set_mode InTable b) in
      let other := b ← leave; reprocess t b in
      match t with
      | Comment | Doctype => finish b
      | StartTag name attrs _ =>
          if tag_is name "col" then then_finish (insert_element_ b (str "col") attrs) else other
      | EndTag name => if tag_is name "colgroup" then then_finish leave else other
      | _ => other
      end
  end.

Definition SECTIONS : list string := ["tbody"; "thead"; "tfoot"]%string.

Definition step_in_table_body (b : TreeBuilder) (t : Token) : res (StepResult * TreeBuilder) :=
  let leave := b ← close_table_section b; reprocess t (set_mode InTable b) in
  match t with
  | StartTag name attrs _ =>
      if tag_is name "tr" then then_finish (open_table_part b SECTIONS (str "tr") attrs InRow)
      else if one_of name ["td"; "th"] then
        b ← open_table_part b SECTIONS (str "tr") [] InRow; reprocess t b
      else if one_of name SECTIONS then leave
      else if one_of name ["caption"; "col"; "colgroup"] then leave
      else step_in_table b t
  | EndTag name =>
      if one_of name SECTIONS then
        b ← when (has_tag_in_scope b name []) close_table_section b;
        finish (set_mode InTable b)
      else if tag_is name "table" then leave
      else step_in_table b t
  | _ => step_in_table b t
  end.

Definition step_in_row (b : TreeBuilder) (t : Token) : res (StepResult * TreeBuilder) :=
  let in_scope := has_tag_in_scope b (str "tr") [] in
  let leave :=
    b ← when in_scope (λ b, b ← pop_until_and_including b (str "tr"); Ok (set_mode InTableBody b)) b;
    reprocess t b in
  match t with
  | StartTag name attrs _ =>
      if one_of name ["td"; "th"] then
        b ← open_table_part b ["tr"%string] name attrs InCell;
        finish (insert_afe_marker b)
      else if one_of name ["caption"; "col"; "colgroup"; "tbody"; "tfoot"; "thead"; "tr"] then leave
      else step_in_table b t
  | EndTag name =>
      if tag_is name "tr" then
        b ← when in_scope (λ b, pop_until_and_including b (str "tr")) b;
        finish (set_mode InTableBody b)
      else if one_of name ["table"; "tbody"; "tfoot"; "thead"] then leave
      else step_in_table b t
  | _ => step_in_table b t
  end.

Definition has_cell_in_scope (b : TreeBuilder) : res bool :=
  td ← has_tag_in_scope b (str "td") [];
  if td : bool then Ok true else has_tag_in_scope b (str "th") [].

Definition step_in_cell (b : TreeBuilder) (t : Token) : res (StepResult * TreeBuilder) :=
  let leave := b ← when (has_cell_in_scope b) close_current_cell b; reprocess t b in
  match t with
  | EndTag name =>
      if one_of name ["td"; "th"] then
        b ← when (has_tag_in_scope b name [])
              (λ b, b ← generate_implied_end_tags b None;
                    b ← pop_until_and_including b name;
                    Ok (clear_afe_up_to_last_marker b)) b;
        finish (set_mode InRow b)
      else if one_of name ["table"; "tbody"; "tfoot"; "thead"; "tr"] then
        h ← has_tag_in_table_scope b name;
        if negb h then finish b else leave
      else step_in_body b t
  | StartTag name _ _ => if one_of name TABLE_PARTS then leave else step_in_body b t
  | _ => step_in_body b t
  end.

(** ** After the body *)

(** The whitespace rule of the two modes after the body. *)
Definition after_body_whitespace (b : TreeBuilder) (t : Token)
    : res (option (StepResult * TreeBuilder)) :=
  match t with
  | Character s =>
      if blank s then r ← step_in_body b t; Ok (Some r)
      else match split_leading_whitespace s with
           | Some (ws, rest) =>
               '(_, b) ← step_in_body b (Character ws);
               Ok (Some (Reprocess (Character rest), set_mode InBody b))
           | None => Ok None
           end
  | _ => Ok None
  end.

Definition step_after_body (b : TreeBuilder) (t : Token) : res (StepResult * TreeBuilder) :=
  ws ← after_body_whitespace b t;
  match ws with
  | Some r => Ok r
  | None =>
      let other := reprocess t (set_mode InBody b) in
      match t with
      | Comment | Doctype | Eof => finish b
      | EndTag name => if tag_is name "html" then finish (set_mode AfterAfterBody b) else other
      | _ => other
      end
  end.

Definition step_after_after_body (b : TreeBuilder) (t : Token) : res (StepResult * TreeBuilder) :=
  ws ← after_body_whitespace b t;
  match ws with
  | Some r => Ok r
  | None =>
      match t with
      | Comment | Doctype | Eof => finish b
      | _ => reprocess t (set_mode InBody b)
      end
  end.

(** ** Dispatch and the loops *)
Definition dispatch (b : TreeBuilder) (t : Token) : res (StepResult * TreeBuilder) :=
  match b.(mode) with
  | Initial => step_initial b t
  | BeforeHtml => step_before_html b t
  | BeforeHead => step_before_head b t
  | InHead => step_in_head b t
  | AfterHead => step_after_head b t
  | InBody => step_in_body b t
  | Text => step_text b t
  | InTable => step_in_table b t
  | InCaption => step_in_caption b t
  | InColumnGroup => step_in_column_group b t
  | InTableBody => step_in_table_body b t
  | InRow => step_in_row b t
  | InCell => step_in_cell b t
  | AfterBody => step_after_body b t
  | AfterAfterBody => step_after_after_body b t
  end.

Definition is_comment_or_doctype (t : Token) : bool :=
  match t with Comment | Doctype => true | _ => false end.
Definition is_character (t : Token) : bool :=
  match t with Character _ => true | _ => false end.

Definition tb_step (b : TreeBuilder) (t : Token) : res (StepResult * TreeBuilder) :=
  let b := if is_character t then b else set_strip false b in
  '(r, b) ← dispatch b t;
  Ok (r, set_just_saw (is_comment_or_doctype t) b).

(** The [loop] of [process_token]. *)
Definition process_body (s : Token * TreeBuilder) : res (Token * TreeBuilder + TreeBuilder) :=
  '(r, b) ← tb_step s.2 s.1;
  Ok (match r with Done => inr b | Reprocess t => inl (t, b) end).
Definition process_token (fuel : nat) (b : TreeBuilder) (t : Token) : res TreeBuilder :=
  iterate fuel process_body (t, b).

(** The [loop] of [run]. *)
Definition run_body (fuel : nat) (b : TreeBuilder) : res (TreeBuilder + TreeBuilder) :=
  '(t, tk) ← next_token b.(tokenizer);
  b ← process_token fuel (set_tokenizer tk b) t;
  Ok (if decide (t = Eof) then inr b else inl b).
Definition tb_run (fuel : nat) (b : TreeBuilder) : res TreeBuilder := iterate fuel (run_body fuel) b.

Definition parse_continuing_from (fuel : nat) (s : list N) (next_id : N) : res Document :=
  b ← tb_new s next_id;
  b ← tb_run fuel b;
  Ok b.(document).

Definition parse (fuel : nat) (s : list N) : res Document := parse_continuing_from fuel s 0.

(** Enough for every parse that ends: see [HtmlTermination]. *)
Definition parse_fuel (s : list N) : nat := token_fuel (new_tokenizer s) + 64.
Definition parse_html (s : list N) (next_id : N) : res Document :=
  parse_continuing_from (parse_fuel s) s next_id.

Definition dump_html (s : list N) : res (list N) := d ← parse_html s 0; dump d.
