(* ===== verification/HtmlTreeInv.v ===== *)
(** * The tree builder's invariant and its primitives

    [Core] relates the document, the stack of open elements and the list of active formatting
    elements: stack elements are attached elements, none above is an ancestor of one below, and
    the open entries of the formatting list occur in stack order.  The primitives of
    [HtmlTree] are shown to keep it, without a panic, while ids last. *)

From Stdlib Require Import Sorting.Sorted.
From S2P Require Import Prelude Dom DomTree DomWalk DomOps HtmlTokenizer HtmlTree DomParents.

(** ** The invariant *)
Definition entry_id (e : AfeEntry) : option NodeId :=
  match e with Formatting (id, _, _) => Some id | Marker => None end.
Definition afe_ids (l : list AfeEntry) : list NodeId := omap entry_id l.

Record Core (b : TreeBuilder) : Prop := {
  co_wf : WF b.(document);
  co_elem : ∀ x, x ∈ b.(open_elements) → ∃ t, tg b.(document) x = Some t;
  co_ordered : ordered b.(document) b.(open_elements);
  co_attached : ∀ x, x ∈ b.(open_elements) → ∃ p, parent_edge b.(document) x p;
  co_top : ∀ x r, b.(document).(doc_root) = Some r → parent_edge b.(document) x r →
    tg b.(document) x = Some (str "html");
  co_afe : ∀ id t a, Formatting (id, t, a) ∈ b.(active_formatting) →
    tg b.(document) id = Some t ∧ t ∈ FORMATTING_ELEMENTS;
  co_afe_nodup : NoDup (afe_ids b.(active_formatting));
  co_afe_order : filter (.∈ b.(open_elements)) (afe_ids b.(active_formatting))
    `sublist_of` b.(open_elements);
  co_form : ∀ f, b.(form_element) = Some f → tg b.(document) f = Some (str "form");
}.

(** What the operations inside one mode leave alone; [c] ids are used at most and the
    formatting list grows by at most [k] entries. *)
Record moves (c : N) (k : nat) (b b' : TreeBuilder) : Prop := {
  mv_doc : evolves c b.(document) b'.(document);
  mv_afe : length b'.(active_formatting) ≤ length b.(active_formatting) + k;
  mv_mode : b'.(mode) = b.(mode);
  mv_original : b'.(original_mode) = b.(original_mode);
  mv_head : b'.(head_element) = b.(head_element);
  mv_tokenizer : b'.(tokenizer) = b.(tokenizer);
  mv_foster : b'.(foster_parenting) = b.(foster_parenting);
}.

Definition room (c : N) (b : TreeBuilder) : Prop := (next_node_id b.(document) + c ≤ U64_MAX)%N.

Lemma moves_refl c k b : Core b → moves c k b b.
Proof. intros HC. split; try done; [apply evolves_refl, HC|lia]. Qed.

Lemma moves_trans c1 c2 k1 k2 b1 b2 b3 :
  moves c1 k1 b1 b2 → moves c2 k2 b2 b3 → moves (c1 + c2) (k1 + k2) b1 b3.
Proof.
  intros [] []. split; try congruence; [by eapply evolves_trans|lia].
Qed.

Lemma moves_weaken c c' k k' b b' : (c ≤ c')%N → k ≤ k' → moves c k b b' → moves c' k' b b'.
Proof. intros Hc Hk []. split; try done; [by eapply evolves_weaken|lia]. Qed.

Lemma moves_room c k c' b b' : moves c k b b' → room (c + c') b → room c' b'.
Proof. unfold room. intros [E _ _ _ _ _ _]. pose proof (ev_next _ _ _ E). lia. Qed.

Lemma room_le c c' b : (c' ≤ c)%N → room c b → room c' b.
Proof. unfold room. lia. Qed.

(** [Core] reads the document, the stack, the formatting list and the form pointer only. *)
Lemma Core_fields b b' :
  b'.(document) = b.(document) → b'.(open_elements) = b.(open_elements) →
  b'.(active_formatting) = b.(active_formatting) → b'.(form_element) = b.(form_element) →
  Core b → Core b'.
Proof.
  intros H1 H2 H3 H4 []. split; rewrite ?H1, ?H2, ?H3, ?H4; done.
Qed.

Lemma co_live b x : Core b → x ∈ b.(open_elements) → live b.(document) x.
Proof. intros HC [t Ht]%(co_elem _ HC). by eapply tg_live. Qed.

Lemma co_not_root b x : Core b → x ∈ b.(open_elements) → b.(document).(doc_root) ≠ Some x.
Proof.
  intros HC [t Ht]%(co_elem _ HC) Hr. rewrite (root_tg _ _ (co_wf _ HC) Hr) in Ht. done.
Qed.

Lemma co_nodup b : Core b → NoDup b.(open_elements).
Proof. intros HC. apply (ordered_NoDup b.(document)), HC. Qed.

Lemma elem_of_afe_ids l id : id ∈ afe_ids l ↔ ∃ t a, Formatting (id, t, a) ∈ l.
Proof.
  unfold afe_ids. rewrite list_elem_of_omap. split.
  - intros (e & He & Hid). destruct e as [|[[id' t] a]]; [done|]. injection Hid as ->. eauto.
  - intros (t & a & H). eexists. split; [exact H|]. done.
Qed.

Lemma co_afe_live b id : Core b → id ∈ afe_ids b.(active_formatting) → live b.(document) id.
Proof.
  intros HC (t & a & H)%elem_of_afe_ids. destruct (co_afe _ HC _ _ _ H) as [Ht _].
  by eapply tg_live.
Qed.

(** ** Sublists and filters *)
Lemma filter_ext_in {A} (P Q : A → Prop) `{∀ x, Decision (P x)} `{∀ x, Decision (Q x)} (l : list A) :
  (∀ x, x ∈ l → P x ↔ Q x) → filter P l = filter Q l.
Proof.
  induction l as [|x l IH]; [done|]. intros Hpq. rewrite !filter_cons.
  rewrite IH by (intros; apply Hpq; by right). pose proof (Hpq x ltac:(by left)).
  destruct (decide (P x)), (decide (Q x)); naive_solver.
Qed.

Lemma filter_sublist_self {A} `{EqDecision A} (l' l : list A) :
  NoDup l → l' `sublist_of` l → filter (.∈ l') l = l'.
Proof.
  intros Hnd Hs. induction Hs as [|x l' l Hs IH|x l' l Hs IH]; [done| |].
  - apply NoDup_cons in Hnd as [Hx Hnd]. rewrite filter_cons_True by (by left). f_equal.
    etrans; [|exact (IH Hnd)]. apply filter_ext_in. intros y Hy.
    assert (y ≠ x) by (by intros ->). set_solver.
  - apply NoDup_cons in Hnd as [Hx Hnd]. rewrite filter_cons_False; [by apply IH|].
    intros Hin. apply Hx. by eapply elem_of_sublist.
Qed.

Lemma sublist_filter {A} (P : A → Prop) `{∀ x, Decision (P x)} (l l' : list A) :
  l' `sublist_of` l → filter P l' `sublist_of` filter P l.
Proof.
  induction 1 as [|x l' l Hs IH|x l' l Hs IH]; [constructor| |].
  - rewrite !filter_cons. destruct (decide (P x)); [by constructor|done].
  - rewrite filter_cons. destruct (decide (P x)); [by constructor|done].
Qed.

Lemma filter_sublist {A} (P : A → Prop) `{∀ x, Decision (P x)} (l : list A) :
  filter P l `sublist_of` l.
Proof.
  induction l as [|x l IH]; [constructor|]. rewrite filter_cons.
  destruct (decide (P x)); by constructor.
Qed.

Lemma omap_sublist {A B} (f : A → option B) (l' l : list A) :
  l' `sublist_of` l → omap f l' `sublist_of` omap f l.
Proof.
  induction 1 as [|x l' l Hs IH|x l' l Hs IH]; [constructor| |]; csimpl; destruct (f x); try done;
    by constructor.
Qed.

(** The open entries stay in stack order when the stack shrinks. *)
Lemma open_order_shrink (ids l l' : list NodeId) :
  NoDup l → l' `sublist_of` l → filter (.∈ l) ids `sublist_of` l →
  filter (.∈ l') ids `sublist_of` l'.
Proof.
  intros Hnd Hs Ho. apply (sublist_filter (.∈ l')) in Ho. rewrite (filter_sublist_self l' l) in Ho by done.
  rewrite list_filter_filter_l in Ho; [done|]. intros x Hx. by eapply elem_of_sublist.
Qed.

(** ** Fewer open elements, fewer entries *)
Lemma Core_open b l :
  l `sublist_of` b.(open_elements) → Core b → Core (set_open l b).
Proof.
  intros Hs HC. assert (∀ x, x ∈ l → x ∈ open_elements b) as Hin.
  { intros x Hx. by eapply elem_of_sublist. }
  destruct HC. split; cbn; auto.
  - by eapply ordered_sublist.
  - eapply open_order_shrink; [by eapply ordered_NoDup|done..].
Qed.

Lemma Core_afe b l :
  l `sublist_of` b.(active_formatting) → Core b → Core (set_afe l b).
Proof.
  intros Hs HC. pose proof (omap_sublist entry_id _ _ Hs) as Hs'. destruct HC. split; cbn; try done.
  - intros id t a H. eapply co_afe0. by eapply elem_of_sublist.
  - by eapply sublist_NoDup.
  - etrans; [|exact co_afe_order0]. by apply sublist_filter.
Qed.

Lemma vec_pop_sublist {A} (l : list A) : vec_pop l `sublist_of` l.
Proof. apply sublist_take. Qed.

Lemma vec_pop_app {A} (l : list A) x : vec_pop (l ++ [x]) = l.
Proof. unfold vec_pop. rewrite length_app. cbn. rewrite Nat.add_sub. apply take_app_length. Qed.

(** ** Insertion points *)
Lemma elem_of_rev {A} (x : A) l : x ∈ rev l ↔ x ∈ l.
Proof. rewrite rev_alt. apply (elem_of_reverse x l). Qed.

Lemma current_node_last b x : last b.(open_elements) = Some x → current_node b = Ok x.
Proof. unfold current_node. by intros ->. Qed.

Lemma last_elem {A} (l : list A) : l ≠ [] → ∃ x, last l = Some x ∧ x ∈ l.
Proof.
  intros Hl. destruct (last l) as [x|] eqn:E; [|by apply last_None in E].
  exists x. split; [done|]. apply last_Some in E as [l' ->]. set_solver.
Qed.

Lemma find_tag_spec d tag rl :
  (∀ x, x ∈ rl → live d x) →
  ∃ o, find_tag d tag rl = Ok o
    ∧ match o with
      | Some x => x ∈ rl ∧ tg d x = Some (str tag)
      | None => ∀ x, x ∈ rl → tg d x ≠ Some (str tag)
      end.
Proof.
  induction rl as [|x rl IH]; intros Hl; cbn [find_tag].
  { exists None. split; [done|]. set_solver. }
  rewrite tag_of_live by (apply Hl; by left). cbn [mbind res_bind].
  destruct (is_tag (tg d x) tag) eqn:E.
  - exists (Some x). split; [done|]. split; [by left|]. unfold is_tag, tag_is in E.
    destruct (tg d x); [|done]. by apply bool_decide_eq_true in E as ->.
  - destruct IH as (o & -> & Ho); [set_solver|]. exists o. split; [done|]. destruct o; [set_solver|].
    intros y [-> |Hy]%elem_of_cons; [|by apply Ho]. intros Heq. rewrite Heq in E. cbn in E.
    unfold tag_is in E. by rewrite bool_decide_eq_false in E.
Qed.

(** A place where a detached node may go. *)
Definition spot (d : Document) (p : NodeId) (ref : option NodeId) : Prop :=
  live d p ∧ d.(doc_root) ≠ Some p ∧ ∀ r, ref = Some r → parent_edge d r p.

Lemma current_spot b :
  Core b → b.(open_elements) ≠ [] →
  ∃ x, current_node b = Ok x ∧ last b.(open_elements) = Some x ∧ x ∈ b.(open_elements)
    ∧ spot b.(document) x None.
Proof.
  intros HC Hne. destruct (last_elem _ Hne) as (x & Hx & Hin). exists x.
  split; [by apply current_node_last|]. split; [done|]. split; [done|].
  split; [by apply co_live|]. split; [by apply co_not_root|done].
Qed.

Lemma foster_target_spec b :
  Core b → b.(open_elements) ≠ [] →
  ∃ p ref, foster_parent_target b = Ok (p, ref) ∧ spot b.(document) p ref
    ∧ match ref with
      | Some t => t ∈ b.(open_elements) ∧ tg b.(document) t = Some (str "table")
                  ∧ parent_edge b.(document) t p
      | None => last b.(open_elements) = Some p
                ∧ ∀ x, x ∈ b.(open_elements) → tg b.(document) x ≠ Some (str "table")
      end.
Proof.
  intros HC Hne. unfold foster_parent_target.
  destruct (find_tag_spec b.(document) "table" (rev b.(open_elements))) as (o & -> & Ho).
  { intros x Hx. apply co_live; [done|]. by rewrite elem_of_rev in Hx. }
  cbn [mbind res_bind]. destruct o as [t|].
  - destruct Ho as [Hin Ht]. rewrite elem_of_rev in Hin.
    destruct (co_attached _ HC _ Hin) as [p Hp]. rewrite (parent_of_edge _ _ _ Hp). cbn [mbind res_bind].
    exists p, (Some t). split; [done|]. split; [|done].
    destruct (parent_edge_live _ _ _ (co_wf _ HC) Hp) as [_ Hlp]. split; [done|]. split; [|by intros ? [= <-]].
    intros Hr. pose proof (co_top _ HC _ _ Hr Hp) as Hh. rewrite Ht in Hh. discriminate Hh.
  - destruct (current_spot b HC Hne) as (x & -> & Hl & _ & Hs). exists x, None.
    split; [done|]. split; [done|]. split; [done|]. intros y Hy. apply Ho. by rewrite elem_of_rev.
Qed.

Lemma is_table_context_Ok d x : live d x → is_Ok (is_table_context d x).
Proof. intros Hx. unfold is_table_context. rewrite tag_of_live by done. cbn. by eexists. Qed.

Lemma fosters_Ok b : Core b → b.(open_elements) ≠ [] → is_Ok (fosters b).
Proof.
  intros HC Hne. unfold fosters, current_node_needs_foster. destruct (foster_parenting b); [|by eexists].
  destruct (current_spot b HC Hne) as (x & -> & _ & _ & Hx & _). cbn. by apply is_table_context_Ok.
Qed.

(** The insertion point of the current node or of the foster parent. *)
Definition insertion_point (b : TreeBuilder) : res (NodeId * option NodeId) :=
  f ← fosters b;
  if f : bool then foster_parent_target b else n ← current_node b; Ok (n, None).

Lemma insertion_point_spec b :
  Core b → b.(open_elements) ≠ [] →
  ∃ p ref, insertion_point b = Ok (p, ref) ∧ spot b.(document) p ref.
Proof.
  intros HC Hne. unfold insertion_point. destruct (fosters_Ok b HC Hne) as [[|] ->]; cbn [mbind res_bind].
  - destruct (foster_target_spec b HC Hne) as (p & ref & -> & Hs & _). eauto.
  - destruct (current_spot b HC Hne) as (x & -> & _ & _ & Hs). cbn. eauto.
Qed.

Lemma insert_node_point b id :
  insert_node b id = '(p, ref) ← insertion_point b;
                     d ← insert_before b.(document) p id ref; Ok (set_document d b).
Proof.
  unfold insert_node, insertion_point. destruct (fosters b) as [[|]| |]; try done. cbn [mbind res_bind].
  by destruct (current_node b).
Qed.

(** ** Growing the document *)

(** The document evolves under the same stack. *)
Lemma Core_document c b d :
  evolves c b.(document) d →
  ordered d b.(open_elements) →
  (∀ x, x ∈ b.(open_elements) → ∃ p, parent_edge d x p) →
  Core b → Core (set_document d b).
Proof.
  intros E Ho Ha HC. split; cbn; try done.
  - apply E.
  - intros x Hx. destruct (co_elem _ HC x Hx) as [t Ht]. exists t. by eapply ev_tag.
  - intros x r Hr Hx. rewrite (ev_root _ _ _ E) in Hr. eapply ev_tag; [exact E|].
    eapply co_top; [done..|]. by eapply ev_top.
  - intros id t a H. destruct (co_afe _ HC _ _ _ H) as [Ht ?]. split; [|done]. by eapply ev_tag.
  - apply HC.
  - apply HC.
  - intros f Hf. eapply ev_tag; [exact E|]. by apply HC.
Qed.

(** The same parents for listed nodes. *)
Lemma Core_document_same c b d :
  evolves c b.(document) d →
  (∀ x q, parent_edge d x q ↔ parent_edge b.(document) x q) →
  Core b → Core (set_document d b).
Proof.
  intros E Hpe HC. eapply Core_document; [done| | |done].
  - eapply ordered_mono; [|apply HC]. intros x y _ _. apply anc_mono. intros; by apply Hpe.
  - intros x [p Hp]%(co_attached _ HC). exists p. by apply Hpe.
Qed.

Lemma moves_document c b d : evolves c b.(document) d → moves c 0 b (set_document d b).
Proof. intros E. split; cbn; try done. lia. Qed.

(** A detached leaf goes in at a spot. *)
Lemma attach_leaf b d0 c p ref :
  Core b → evolves 1 b.(document) d0 →
  (∀ x q, parent_edge d0 x q ↔ parent_edge b.(document) x q) →
  ¬ live b.(document) c → detached d0 c → spot b.(document) p ref →
  ∃ d, insert_before d0 p c ref = Ok d ∧ evolves 1 b.(document) d
    ∧ Core (set_document d b) ∧ (∀ x, tg d x = tg d0 x)
    ∧ (∀ x q, parent_edge d x q ↔ parent_edge b.(document) x q ∨ (x = c ∧ q = p)).
Proof.
  intros HC E Hpe Hnl Hdet (Hp & Hpr & Href). pose proof (co_wf _ HC) as HW.
  assert (c ≠ p) as Hcp by (intros ->; done).
  assert (∀ y, ¬ parent_edge (document b) y c) as Hleaf.
  { intros y Hy. by destruct (parent_edge_live _ _ _ HW Hy). }
  destruct (attach_evolves d0 p c ref) as (d & H & E' & Ht & Hl & Hpe'); try done.
  - apply E.
  - by apply E.
  - by rewrite (ev_root _ _ _ E).
  - rewrite (ev_root _ _ _ E). intros Hr. by apply Hnl, root_live.
  - intros Ha. apply anc_leaf in Ha; [done|]. intros y. by rewrite Hpe.
  - intros r Hr. apply Hpe. by apply Href.
  - exists d. assert (∀ x q, parent_edge d x q ↔ parent_edge b.(document) x q ∨ (x = c ∧ q = p)) as Hpe2.
    { intros x q. by rewrite Hpe', Hpe. }
    assert (evolves 1 (document b) d) as E2 by exact (evolves_trans _ _ _ _ _ E E').
    split; [done|]. split; [done|]. split; [|done].
    eapply Core_document; [done| | |done].
    + assert (ordered d (open_elements b ++ [c])) as Ho; [|by apply ordered_app in Ho as (_ & ? & _)].
      eapply ordered_push; [done..| |apply HC|done]. intros Hin. by apply Hnl, co_live.
    + intros x [q Hq]%(co_attached _ HC). exists q. apply Hpe2. by left.
Qed.

(** ** [insert_element] and [insert_text] *)
Lemma filter_in_app (ids l : list NodeId) x :
  x ∉ ids → filter (.∈ l ++ [x]) ids = filter (.∈ l) ids.
Proof.
  intros Hx. apply filter_ext_in. intros y Hy. assert (y ≠ x) by (by intros ->). set_solver.
Qed.

Lemma Core_push b id t p :
  tg b.(document) id = Some t → parent_edge b.(document) id p →
  ordered b.(document) (b.(open_elements) ++ [id]) → id ∉ afe_ids b.(active_formatting) →
  Core b → Core (set_open (b.(open_elements) ++ [id]) b).
Proof.
  intros Ht Hp Ho Hn HC. split; cbn; try apply HC; try done.
  - intros x [Hx| ->%list_elem_of_singleton]%elem_of_app; [by apply HC|eauto].
  - intros x [Hx| ->%list_elem_of_singleton]%elem_of_app; [by apply HC|eauto].
  - rewrite filter_in_app by done. apply sublist_inserts_r, HC.
Qed.

(** Nodes not yet attached do not change where the next one goes. *)
Lemma insertion_point_evolves c b d :
  Core b → b.(open_elements) ≠ [] → evolves c b.(document) d →
  (∀ x q, parent_edge d x q ↔ parent_edge b.(document) x q) →
  insertion_point (set_document d b) = insertion_point b.
Proof.
  intros HC Hne E Hpe.
  assert (∀ x, x ∈ open_elements b → tag_of d x = tag_of (document b) x) as Htag.
  { intros x Hx. destruct (co_elem _ HC _ Hx) as [t Hxt].
    by rewrite (tag_of_tg _ _ _ Hxt), (tag_of_tg _ _ _ (ev_tag _ _ _ _ _ E Hxt)). }
  assert (∀ rl, (∀ x, x ∈ rl → x ∈ open_elements b) →
    find_tag d "table" rl = find_tag (document b) "table" rl) as Hfind.
  { induction rl as [|x rl IH]; [done|]. intros Hrl. cbn [find_tag].
    rewrite Htag by (apply Hrl; by left). by rewrite IH by set_solver. }
  destruct (current_spot b HC Hne) as (x & Hx & Hlast & Hin & _).
  unfold insertion_point, fosters, current_node_needs_foster, is_table_context, foster_parent_target,
    current_node in *. cbn. rewrite Hlast in *. cbn [mbind res_bind] in *. rewrite Htag by done.
  rewrite Hfind by (intros y; by rewrite elem_of_rev).
  destruct (foster_parenting b); [|done].
  destruct (tag_of (document b) x) as [t| |]; try done. cbn [mbind res_bind].
  destruct (match t with Some _ => _ | None => _ end); [|done].
  destruct (find_tag_spec (document b) "table" (rev (open_elements b))) as (o & -> & Ho).
  { intros y Hy. apply co_live; [done|]. by rewrite elem_of_rev in Hy. }
  cbn [mbind res_bind]. destruct o as [y|]; [|done]. destruct Ho as [Hy _]. rewrite elem_of_rev in Hy.
  destruct (co_attached _ HC _ Hy) as [q Hq]. rewrite (parent_of_edge _ _ _ Hq).
  apply Hpe in Hq. by rewrite (parent_of_edge _ _ _ Hq).
Qed.

Definition pushed (name : list N) (id : NodeId) : list NodeId :=
  if among name VOID_ELEMENTS then [] else [id].

Lemma insert_element_spec b name attrs :
  Core b → b.(open_elements) ≠ [] → room 1 b →
  ∃ id b', insert_element b name attrs = Ok (id, b') ∧ moves 1 0 b b' ∧ Core b'
    ∧ b'.(open_elements) = b.(open_elements) ++ pushed name id
    ∧ tg b'.(document) id = Some name ∧ ¬ live b.(document) id
    ∧ b'.(active_formatting) = b.(active_formatting) ∧ b'.(form_element) = b.(form_element).
Proof.
  intros HC Hne Hroom. unfold insert_element.
  destruct (insertion_point_spec b HC Hne) as (p & ref & Hpt & Hs).
  destruct (create_evolves b.(document) (NElement name attrs)) as (d0 & -> & E & Hn & Hnl & Hdet & Ht & Hpe).
  { apply HC. } { unfold room in Hroom. lia. }
  cbn [mbind res_bind]. set (id := next_node_id (document b)) in *.
  rewrite insert_node_point, (insertion_point_evolves 1), Hpt by done. cbn [mbind res_bind document set_document].
  destruct (attach_leaf b d0 id p ref) as (d & -> & E2 & HC2 & Ht2 & Hpe2); try done.
  cbn [mbind res_bind]. exists id. eexists. split; [done|].
  assert (tg d id = Some name) as Hid by (by rewrite Ht2, Ht).
  unfold pushed. destruct (among name VOID_ELEMENTS) eqn:Ev.
  - split_and!; cbn; [exact (moves_document 1 b d E2)|exact HC2|by rewrite app_nil_r|done..].
  - split_and!; cbn; try done.
    + apply (moves_document 1 b d) in E2. destruct E2. split; try done.
    + apply (Core_push (set_document d b) id name p); cbn; try done.
      * apply Hpe2. by right.
      * eapply ordered_push; [done| | |apply HC|].
        -- intros y Hy. destruct Hnl. by destruct (parent_edge_live _ _ _ (co_wf _ HC) Hy).
        -- intros Hin. by apply Hnl, co_live.
        -- intros Heq. apply Hnl. rewrite Heq. apply Hs.
      * intros Hin. by apply Hnl, co_afe_live.
Qed.

(** The node before the insertion point is a child of its parent. *)
Lemma preceding_spec d p ref :
  WF d → spot d p ref →
  ∃ o, (match ref with Some r => prev_sibling d r | None => last_child d p end) = Ok o
    ∧ ∀ id, o = Some id → parent_edge d id p.
Proof.
  intros [K HR] (Hp & _ & Href).
  assert (∀ l1 l2 id, K p = l1 ++ l2 → last l1 = Some id → parent_edge d id p) as Hch.
  { intros l1 l2 id HK [l' ->]%last_Some. apply (rep_parent_edge _ _ HR). unfold edge. rewrite HK. set_solver. }
  destruct ref as [r|].
  - destruct (Href r eq_refl) as (rr & Hr & Hrp). unfold prev_sibling, index. rewrite Hr. cbn.
    eexists; split; [done|]. pose proof (lk_sib _ _ _ (rep_links _ _ HR _ _ Hr)) as Hs.
    rewrite Hrp in Hs. destruct Hs as (l1 & l2 & HK & -> & _). intros id. by eapply Hch.
  - destruct Hp as [rp Hrp]. unfold last_child, index. rewrite Hrp. cbn. eexists; split; [done|].
    rewrite (lk_last _ _ _ (rep_links _ _ HR _ _ Hrp)). intros id. apply (Hch (K p) []).
    by rewrite app_nil_r.
Qed.

Lemma root_no_parent d r p : WF d → d.(doc_root) = Some r → ¬ parent_edge d r p.
Proof.
  intros [K HR] Hr (rec & Hrec & Hp). destruct (rep_root _ _ HR) as (r' & rec' & Hr' & Hrec' & _ & Hnone).
  congruence.
Qed.

(** The data of a live node. *)
Lemma data_live d x : live d x → ∃ dt, data d x = Ok dt ∧ tg d x = tag_at dt.
Proof. intros [r Hr]. exists (r_data r). unfold data, index, tg. by rewrite Hr. Qed.

Lemma data_mut_text d x e s :
  data d x = Ok (NText e) →
  data_mut d x (λ _, NText s) = data_mut d x (λ dt, match dt with NText _ => NText s | _ => dt end).
Proof.
  unfold data, data_mut, modify, index. destruct (nodes d !! x) as [r|]; [|done]. cbn.
  intros Hr%Ok_inj. by rewrite Hr.
Qed.

Lemma insert_text_spec b s :
  Core b → b.(open_elements) ≠ [] → room 1 b →
  ∃ b', insert_text b s = Ok b' ∧ moves 1 0 b b' ∧ Core b'
    ∧ b'.(open_elements) = b.(open_elements)
    ∧ b'.(active_formatting) = b.(active_formatting) ∧ b'.(form_element) = b.(form_element).
Proof.
  intros HC Hne Hroom. pose proof (co_wf _ HC) as HW. destruct s as [|ch s].
  { exists b. cbn. split_and!; [done|by apply moves_refl|done..]. }
  destruct (insertion_point_spec b HC Hne) as (p & ref & Hpt & Hs). unfold insertion_point in Hpt.
  unfold insert_text. destruct (fosters b) as [f| |]; try done. cbn [mbind res_bind] in *.
  rewrite Hpt. cbn [mbind res_bind]. clear Hpt f.
  assert (∃ ex, ((if just_saw_dropped_comment_or_doctype b then Ok None
      else match ref with Some r => prev_sibling (document b) r | None => last_child (document b) p end)
      ≫= λ preceding, match preceding with
         | Some id => dt ← data (document b) id;
                      Ok (match dt with NText e => Some (id, e) | _ => None end)
         | None => Ok None end) = Ok ex
    ∧ ∀ id e, ex = Some (id, e) → parent_edge (document b) id p ∧ data (document b) id = Ok (NText e))
    as (ex & Hex & Hid).
  { destruct (just_saw_dropped_comment_or_doctype b); [by exists None|].
    destruct (preceding_spec _ p ref HW Hs) as (o & -> & Ho). cbn [mbind res_bind].
    destruct o as [id|]; [|by exists None]. specialize (Ho id eq_refl).
    destruct (data_live (document b) id) as (dt & Hdt & _); [by apply (parent_edge_live _ _ _ HW Ho)|].
    rewrite Hdt. cbn [mbind res_bind]. eexists; split; [done|]. intros id' e. destruct dt; try done.
    by intros [= <- <-]. }
  match goal with |- context [?m ≫= _] => destruct m as [pr| |] eqn:Epr; try done end.
  cbn [mbind res_bind] in Hex |- *. rewrite Hex. cbn [mbind res_bind]. destruct ex as [[id e]|].
  - destruct (Hid id e eq_refl) as [Hpe Hdt].
    rewrite (data_mut_text _ _ _ _ Hdt).
    destruct (data_mut_evolves (document b) id (λ dt, match dt with NText _ => NText (e ++ ch :: s) | _ => dt end))
      as (d' & -> & E & Ht & Hpe'); [done|by apply (parent_edge_live _ _ _ HW Hpe)| |by intros []|].
    { intros Hr. by apply (root_no_parent _ _ p HW Hr). }
    cbn [mbind res_bind]. eexists; split; [done|]. split_and!; cbn; try done.
    + eapply moves_weaken; [| |by apply moves_document]; lia.
    + by eapply Core_document_same.
  - destruct (create_evolves (document b) (NText (ch :: s))) as (d0 & -> & E & Hn & Hnl & Hdet & Ht & Hpe);
      [done|unfold room in Hroom; lia|]. cbn [mbind res_bind].
    destruct (attach_leaf b d0 (next_node_id (document b)) p ref) as (d & -> & E2 & HC2 & _); try done.
    cbn [mbind res_bind]. eexists; split; [done|]. split_and!; cbn; try done. by apply moves_document.
Qed.
