(* ===== verification/HtmlStack.v ===== *)
(** * The tree builder's stack: scopes and pops

    The stack splits into a base, whose last element is structural (the page skeleton and the
    table frames), and a run of ordinary elements above it.  Processing in body only ever
    touches the run: the base is found again, untouched, under it. *)

From S2P Require Import Prelude Dom DomTree DomWalk DomOps HtmlTokenizer HtmlTree DomParents.
From S2P Require Import HtmlTreeInv HtmlModes.

(** ** Structural and ordinary elements *)
Definition STRUCTURE : list (list N) :=
  str <$> ["html"; "head"; "body"; "table"; "caption"; "colgroup"; "tbody"; "thead"; "tfoot"; "tr";
           "td"; "th"]%string.
Definition ordinary (t : list N) : Prop := t ∉ STRUCTURE.
Definition ordinary_at (d : Document) (x : NodeId) : Prop := ∃ t, tg d x = Some t ∧ ordinary t.
Definition structural_at (d : Document) (x : NodeId) : Prop := ∃ t, tg d x = Some t ∧ t ∈ STRUCTURE.
Definition blocker_at (d : Document) (x : NodeId) : Prop :=
  ∃ t, tg d x = Some t ∧ t ∈ DEFAULT_SCOPE_BLOCKERS.

(** Membership in the constant lists, by computation. *)
Lemma forallb_list (P : list N → bool) l : forallb P l = true → ∀ t, t ∈ l → P t = true.
Proof. intros H t Ht. rewrite forallb_forall in H. by apply H, list_elem_of_In. Qed.

Lemma blockers_structural t : t ∈ DEFAULT_SCOPE_BLOCKERS → t ∈ STRUCTURE.
Proof. intros Ht. apply (bool_decide_eq_true_1 (t ∈ STRUCTURE)). revert t Ht. by apply forallb_list. Qed.

Lemma structural_special t : t ∈ STRUCTURE → among t SPECIAL_ELEMENTS = true.
Proof. revert t. by apply forallb_list. Qed.
Lemma structural_not_implied t : t ∈ STRUCTURE → among t IMPLIED_END_TAGS = false.
Proof. intros Ht. apply negb_true_iff. revert t Ht. by apply (forallb_list (λ t, negb _)). Qed.
Lemma formatting_ordinary t : t ∈ FORMATTING_ELEMENTS → ordinary t.
Proof.
  intros Ht Hs. assert (negb (among t STRUCTURE) = true) as H.
  { revert t Ht Hs. intros t Ht _. revert t Ht. by apply forallb_list. }
  unfold among in H. by rewrite bool_decide_true in H.
Qed.
Lemma formatting_not_special t : t ∈ FORMATTING_ELEMENTS → among t SPECIAL_ELEMENTS = false.
Proof. intros Ht. apply negb_true_iff. revert t Ht. by apply (forallb_list (λ t, negb _)). Qed.
Lemma formatting_not_void t : t ∈ FORMATTING_ELEMENTS → among t VOID_ELEMENTS = false.
Proof. intros Ht. apply negb_true_iff. revert t Ht. by apply (forallb_list (λ t, negb _)). Qed.
Lemma heading_ordinary t : t ∈ HEADING_ELEMENTS → ordinary t.
Proof.
  intros Ht Hs. assert (negb (among t STRUCTURE) = true) as H.
  { clear Hs. revert t Ht. by apply forallb_list. }
  unfold among in H. by rewrite bool_decide_true in H.
Qed.
Lemma heading_not_implied t : t ∈ HEADING_ELEMENTS → among t IMPLIED_END_TAGS = false.
Proof. intros Ht. apply negb_true_iff. revert t Ht. by apply (forallb_list (λ t, negb _)). Qed.

Lemma among_spec t l : among t l = true ↔ t ∈ l.
Proof. apply bool_decide_eq_true. Qed.

(** A base: it ends in structural elements down to a scope blocker. *)
Definition closed (d : Document) (bs : list NodeId) : Prop :=
  ∃ l w m, bs = l ++ w :: m ∧ blocker_at d w ∧ Forall (structural_at d) m.

(** A table part of the base has its table in the base. *)
Definition tabled (d : Document) (bs : list NodeId) : Prop :=
  ∀ x t, x ∈ bs → tg d x = Some t → one_of t ["table"; "tbody"; "thead"; "tfoot"; "tr"] = true →
    ∃ y, y ∈ bs ∧ tg d y = Some (str "table").

Record Based (bs : list NodeId) (b : TreeBuilder) : Prop := {
  gd_core : Core b;
  gd_split : ∃ xs, b.(open_elements) = bs ++ xs ∧ Forall (ordinary_at b.(document)) xs;
  gd_base : closed b.(document) bs;
  gd_table : tabled b.(document) bs;
}.

Lemma closed_last d bs : closed d bs → ∃ l z, bs = l ++ [z] ∧ structural_at d z.
Proof.
  intros (l & w & m & -> & (t & Ht & Hin) & Hm). destruct m as [|y m] using rev_ind.
  - exists l, w. split; [done|]. exists t. split; [done|]. by apply blockers_structural.
  - exists (l ++ w :: m), y. split; [by rewrite <-app_assoc|]. by apply Forall_app in Hm as [_ [? _]%Forall_cons].
Qed.

Lemma ordinary_evolves c d d' x : evolves c d d' → ordinary_at d x → ordinary_at d' x.
Proof. intros E (t & Ht & ?). exists t. split; [by eapply ev_tag|done]. Qed.

Lemma closed_evolves c d d' bs : evolves c d d' → closed d bs → closed d' bs.
Proof.
  intros E (l & w & m & -> & (t & Ht & ?) & Hm). exists l, w, m. split; [done|]. split.
  - exists t. split; [by eapply ev_tag|done].
  - eapply Forall_impl; [exact Hm|]. intros x (t' & ? & ?). exists t'. split; [by eapply ev_tag|done].
Qed.

Lemma tabled_evolves c d d' bs :
  evolves c d d' → (∀ x, x ∈ bs → live d x) → tabled d bs → tabled d' bs.
Proof.
  intros E Hl Ht x t Hx Htx Hc. rewrite (ev_tags _ _ _ E) in Htx by auto.
  destruct (Ht x t Hx Htx Hc) as (y & Hy & Hty). exists y. split; [done|]. by eapply ev_tag.
Qed.

Lemma Based_base_live bs b x : Based bs b → x ∈ bs → live b.(document) x.
Proof.
  intros [HC (xs & Ho & _) _ _] Hx. apply co_live; [done|]. rewrite Ho. set_solver.
Qed.

Lemma Based_nonempty bs b : Based bs b → b.(open_elements) ≠ [].
Proof.
  intros [_ (xs & -> & _) Hb _]. apply closed_last in Hb as (l & z & -> & _). by destruct l.
Qed.

Lemma ordinary_live d x : ordinary_at d x → live d x.
Proof. intros (t & Ht & _). by eapply tg_live. Qed.

(** ** Keeping the base *)
Definition keeps (bs : list NodeId) (c : N) (k : nat) (b : TreeBuilder) (m : res TreeBuilder) : Prop :=
  ∃ b', m = Ok b' ∧ Based bs b' ∧ moves c k b b'.

Lemma keeps_ret bs c k b : Based bs b → keeps bs c k b (Ok b).
Proof. intros HG. exists b. split_and!; [done..|]. apply moves_refl, HG. Qed.

Lemma keeps_weaken bs c c' k k' b m :
  (c ≤ c')%N → k ≤ k' → keeps bs c k b m → keeps bs c' k' b m.
Proof. intros Hc Hk (b' & ? & ? & ?). exists b'. split_and!; [done..|]. by eapply moves_weaken. Qed.

Lemma keeps_bind bs c1 c2 k1 k2 b m (f : TreeBuilder → res TreeBuilder) :
  room (c1 + c2) b → (room c1 b → keeps bs c1 k1 b m) →
  (∀ b', Based bs b' → room c2 b' → moves c1 k1 b b' → keeps bs c2 k2 b' (f b')) →
  keeps bs (c1 + c2) (k1 + k2) b (m ≫= f).
Proof.
  intros Hr Hm Hf. destruct Hm as (b1 & -> & HG1 & Hv1); [eapply room_le; [|done]; lia|].
  destruct (Hf b1 HG1) as (b2 & Hb2 & HG2 & Hv2); [by eapply moves_room|done|].
  exists b2. split_and!; [done..|]. by eapply moves_trans.
Qed.

(** A step that uses no ids and does not grow the list. *)
Lemma keeps_then bs c k b m (f : TreeBuilder → res TreeBuilder) :
  keeps bs 0 0 b m →
  (∀ b', Based bs b' → moves 0 0 b b' → keeps bs c k b' (f b')) →
  keeps bs c k b (m ≫= f).
Proof.
  intros (b1 & -> & HG1 & Hv1) Hf. destruct (Hf b1 HG1 Hv1) as (b2 & Hb2 & HG2 & Hv2).
  exists b2. split_and!; [done..|]. exact (moves_trans _ _ _ _ _ _ _ Hv1 Hv2).
Qed.

Lemma keeps_when bs c k b x f :
  Based bs b → (∃ h, x = Ok h ∧ (h = true → keeps bs c k b (f b))) → keeps bs c k b (when x f b).
Proof. intros HG (h & -> & Hf). unfold when. cbn. destruct h; [by apply Hf|by apply keeps_ret]. Qed.

(** Only the run above the base shrinks. *)
Lemma Based_shrink bs b xs xs' :
  Based bs b → b.(open_elements) = bs ++ xs → xs' `sublist_of` xs → Forall (ordinary_at b.(document)) xs →
  Based bs (set_open (bs ++ xs') b) ∧ moves 0 0 b (set_open (bs ++ xs') b).
Proof.
  intros [HC _ Hb Ht] Hxs Hs Hf. split; [split; cbn; [|exists xs'; split; [done|]|done|done]|].
  - apply Core_open; [|done]. rewrite Hxs. by apply sublist_app.
  - rewrite Forall_forall in Hf |- *. intros x Hx. apply Hf. by eapply elem_of_sublist.
  - split; cbn; try done; [apply evolves_refl, HC|lia].
Qed.

Lemma Based_split bs b : Based bs b → ∃ xs, b.(open_elements) = bs ++ xs ∧ Forall (ordinary_at b.(document)) xs.
Proof. by intros []. Qed.

(** Fields that [Based] does not read. *)
Lemma Based_fields bs b b' :
  b'.(document) = b.(document) → b'.(open_elements) = b.(open_elements) →
  b'.(active_formatting) = b.(active_formatting) → b'.(form_element) = b.(form_element) →
  Based bs b → Based bs b'.
Proof.
  intros H1 H2 H3 H4 [HC Hs Hb Ht]. split; rewrite ?H1, ?H2; [by eapply Core_fields|done..].
Qed.

(** ** Pops *)
Lemma rev_snoc {A} (l : list A) x : rev (l ++ [x]) = x :: rev l.
Proof. apply rev_unit. Qed.

Lemma pop_through_spec d stop l y xs :
  Forall (λ z, live d z ∧ stop (tg d z) = false) xs → live d y → stop (tg d y) = true →
  pop_through d stop (rev (l ++ y :: xs)) = Ok (rev l).
Proof.
  intros Hxs Hy Hs. induction xs as [|z xs IH] using rev_ind.
  - rewrite rev_snoc. cbn [pop_through]. rewrite tag_of_live by done. cbn [mbind res_bind]. by rewrite Hs.
  - apply Forall_app in Hxs as [Hxs [[Hz Hzs] _]%Forall_cons].
    change (y :: xs ++ [z]) with ((y :: xs) ++ [z]). rewrite app_assoc, rev_snoc. cbn [pop_through].
    rewrite tag_of_live by done. cbn [mbind res_bind]. rewrite Hzs. by apply IH.
Qed.

(** Pops from the top of [xs] while [stop] fails, at the latest down to [y]. *)
Lemma pop_until_spec d stop l y xs :
  Forall (live d) xs → live d y → stop (tg d y) = true →
  ∃ xs' ps, xs = xs' ++ ps ∧ pop_until d stop (rev (l ++ y :: xs)) = Ok (rev (l ++ y :: xs'))
    ∧ Forall (λ z, stop (tg d z) = false) ps.
Proof.
  intros Hxs Hy Hs. induction xs as [|z xs IH] using rev_ind.
  - exists [], []. split; [done|]. split; [|done]. rewrite rev_snoc. cbn [pop_until].
    rewrite tag_of_live by done. cbn [mbind res_bind]. by rewrite Hs.
  - apply Forall_app in Hxs as [Hxs [Hz _]%Forall_cons].
    change (y :: xs ++ [z]) with ((y :: xs) ++ [z]). rewrite app_assoc, rev_snoc. cbn [pop_until].
    rewrite tag_of_live by done. cbn [mbind res_bind]. destruct (stop (tg d z)) eqn:Ez.
    + exists (xs ++ [z]), []. rewrite app_nil_r. split; [done|]. split; [|done].
      change (y :: xs ++ [z]) with ((y :: xs) ++ [z]). by rewrite app_assoc, rev_snoc.
    + destruct (IH Hxs) as (xs' & ps & -> & -> & Hps). exists xs', (ps ++ [z]).
      rewrite app_assoc. split; [done|]. split; [done|]. apply Forall_app. by split; [|apply Forall_singleton].
Qed.

(** The elements [generate_implied_end_tags] pops. *)
Definition implied (ex : option (list N)) (t : list N) : Prop :=
  among t IMPLIED_END_TAGS = true ∧ ex ≠ Some t.
Definition implied_at (d : Document) (ex : option (list N)) (x : NodeId) : Prop :=
  ∃ t, tg d x = Some t ∧ implied ex t.

Lemma gen_implied_spec b l y xs ex t :
  b.(open_elements) = l ++ y :: xs → Forall (live b.(document)) xs →
  tg b.(document) y = Some t → ¬ implied ex t →
  ∃ xs' ps, xs = xs' ++ ps
    ∧ generate_implied_end_tags b ex = Ok (set_open (l ++ y :: xs') b)
    ∧ Forall (implied_at b.(document) ex) ps.
Proof.
  intros Ho Hxs Hy Hni. unfold generate_implied_end_tags, on_stack. rewrite Ho.
  set (stop := λ t : option (list N), _).
  assert (stop (Some t) = true) as Hst.
  { unfold stop. destruct (among t IMPLIED_END_TAGS) eqn:E; [|done]. cbn. apply bool_decide_eq_true.
    destruct (decide (ex = Some t)) as [|Hne]; [done|]. by destruct Hni. }
  destruct (pop_until_spec b.(document) stop l y xs) as (xs' & ps & -> & -> & Hps);
    [done|by eapply tg_live|by rewrite Hy|].
  cbn [mbind res_bind]. exists xs', ps. rewrite rev_involutive. split; [done|]. split; [done|].
  eapply Forall_impl; [exact Hps|]. intros z. unfold stop, implied_at. destruct (tg _ z) as [tz|]; [|done].
  intros [H1 H2]%orb_false_iff. exists tz. split; [done|]. split; [by apply negb_false_iff in H1|].
  by apply bool_decide_eq_false in H2.
Qed.

(** Closing through the element [y]: the implied ends above it, then up to [y]. *)
Lemma close_through_spec b l y xs ex t stop :
  b.(open_elements) = l ++ y :: xs →
  Forall (λ z, live b.(document) z ∧ stop (tg b.(document) z) = false) xs →
  tg b.(document) y = Some t → ¬ implied ex t → stop (Some t) = true →
  (b ← generate_implied_end_tags b ex; on_stack (pop_through b.(document) stop) b)
  = Ok (set_open l b).
Proof.
  intros Ho Hxs Hy Hni Hst.
  destruct (gen_implied_spec b l y xs ex t) as (xs' & ps & -> & -> & _); try done.
  { eapply Forall_impl; [exact Hxs|]. by intros z [? _]. }
  cbn [mbind res_bind]. unfold on_stack. cbn [open_elements set_open document].
  apply Forall_app in Hxs as [Hxs _].
  rewrite pop_through_spec; [|done|by eapply tg_live|by rewrite Hy].
  cbn [mbind res_bind]. by rewrite rev_involutive.
Qed.

Lemma pop_including_spec b l y xs t :
  b.(open_elements) = l ++ y :: xs →
  Forall (λ z, live b.(document) z ∧ tg b.(document) z ≠ Some t) xs →
  tg b.(document) y = Some t →
  pop_until_and_including b t = Ok (set_open l b).
Proof.
  intros Ho Hxs Hy. unfold pop_until_and_including, on_stack. rewrite Ho.
  rewrite pop_through_spec; [by cbn; rewrite rev_involutive| |by eapply tg_live|by rewrite Hy, bool_decide_true].
  eapply Forall_impl; [exact Hxs|]. intros z [? ?]. split; [done|]. by apply bool_decide_eq_false.
Qed.

(** ** Scopes *)

(** What a walk down the stack finds: the topmost hit above every stop. *)
Lemma scope_walk_spec d found stop l :
  Forall (live d) l →
  ∃ r, scope_walk d found stop (rev l) = Ok r ∧
    (r = true → ∃ l1 y l2 t, l = l1 ++ y :: l2 ∧ tg d y = Some t ∧ found t = true
       ∧ Forall (λ z, ∀ tz, tg d z = Some tz → found tz = false ∧ stop tz = false) l2).
Proof.
  intros Hl. induction l as [|z l IH] using rev_ind; [by exists false|].
  apply Forall_app in Hl as [Hl [Hz _]%Forall_cons]. destruct (IH Hl) as (r & Hr & Hrt). clear IH.
  rewrite rev_snoc. cbn [scope_walk]. rewrite tag_of_live by done. cbn [mbind res_bind].
  assert (Forall (λ z, ∀ tz, tg d z = Some tz → found tz = false ∧ stop tz = false) [z] → r = true →
    ∃ l1 y l2 t, l ++ [z] = l1 ++ y :: l2 ∧ tg d y = Some t ∧ found t = true
       ∧ Forall (λ z, ∀ tz, tg d z = Some tz → found tz = false ∧ stop tz = false) l2) as Hgo.
  { intros Hz' (l1 & y & l2 & t & -> & ? & ? & Hl2)%Hrt. exists l1, y, (l2 ++ [z]), t.
    split; [by rewrite <-app_assoc|]. split_and!; [done..|]. apply Forall_app. by split. }
  destruct (tg d z) as [tz|] eqn:Ez.
  - destruct (found tz) eqn:Ef; [|destruct (stop tz) eqn:Es; [by exists false|]].
    + exists true. split; [done|]. intros _. exists l, z, [], tz. by split_and!.
    + exists r. split; [done|]. apply Hgo. apply Forall_singleton. intros tz' H. by simplify_eq.
  - exists r. split; [done|]. apply Hgo. apply Forall_singleton. intros tz' H. by simplify_eq.
Qed.

(** An ordinary tag is only found in the run above the base. *)
Lemma scope_ordinary bs b xs found stop :
  Based bs b → b.(open_elements) = bs ++ xs →
  (∀ t, t ∈ STRUCTURE → found t = false) → (∀ t, t ∈ DEFAULT_SCOPE_BLOCKERS → stop t = true) →
  ∃ r, scope_walk b.(document) found stop (rev b.(open_elements)) = Ok r ∧
    (r = true → ∃ l1 y l2 t, xs = l1 ++ y :: l2 ∧ tg b.(document) y = Some t ∧ found t = true
       ∧ Forall (λ z, ∀ tz, tg b.(document) z = Some tz → found tz = false) l2).
Proof.
  intros HG Ho Hf Hs.
  destruct (scope_walk_spec b.(document) found stop b.(open_elements)) as (r & Hr & Hrt).
  { apply Forall_forall. intros x Hx. apply co_live; [apply HG|done]. }
  exists r. split; [done|]. intros (l1 & y & l2 & t & Hl & Hy & Hft & Hl2)%Hrt.
  destruct (gd_base _ _ HG) as (l & w & m & -> & (tw & Hw & Htw) & Hm).
  rewrite Ho in Hl. assert (¬ structural_at b.(document) y) as Hny.
  { intros (t' & Ht' & Hin). apply Hf in Hin. congruence. }
  assert (Forall (λ z, ∀ tz, tg (document b) z = Some tz → found tz = false) l2) as Hl2'.
  { eapply Forall_impl; [exact Hl2|]. naive_solver. }
  apply app_eq_inv in Hl as [(k & Hk & Hyl)|(k & -> & ->)]; [|by exists k, y, l2, t].
  destruct k as [|y' k]; cbn in Hyl; [by exists [], y, l2, t|]. injection Hyl as <- ->. exfalso.
  apply app_eq_inv in Hk as [(j & -> & Hj)|(j & -> & Hj)].
  - destruct j as [|y' j]; cbn in Hj; injection Hj as <- ->.
    + apply Hny. exists tw. split; [done|]. by apply blockers_structural.
    + apply Forall_app in Hl2 as [Hl2 _]. apply Forall_app in Hl2 as [_ [Hw' _]%Forall_cons].
      destruct (Hw' tw Hw) as [_ Hstop]. by rewrite Hs in Hstop.
  - destruct j as [|w' j]; cbn in Hj; injection Hj as <- ->.
    + apply Hny. exists tw. split; [done|]. by apply blockers_structural.
    + apply Forall_app in Hm as [_ [? _]%Forall_cons]. done.
Qed.

Lemma Based_run_live bs b xs :
  Based bs b → b.(open_elements) = bs ++ xs → Forall (live b.(document)) xs.
Proof.
  intros HG Ho. apply Forall_forall. intros x Hx. apply co_live; [apply HG|]. rewrite Ho. set_solver.
Qed.

(** [has_tag_in_scope] for an ordinary tag. *)
Lemma has_tag_ordinary bs b xs tag extra :
  Based bs b → b.(open_elements) = bs ++ xs → ordinary tag →
  ∃ r, has_tag_in_scope b tag extra = Ok r ∧
    (r = true → ∃ l1 y l2, xs = l1 ++ y :: l2 ∧ tg b.(document) y = Some tag
       ∧ Forall (λ z, live b.(document) z ∧ tg b.(document) z ≠ Some tag) l2).
Proof.
  intros HG Ho Hord. unfold has_tag_in_scope.
  edestruct (scope_ordinary bs b xs (λ t, bool_decide (t = tag))) as (r & -> & Hr); [done..| | |].
  - intros t Ht. apply bool_decide_eq_false. by intros ->.
  - intros t Ht. cbn beta. by rewrite (proj2 (among_spec _ _) Ht).
  - exists r. split; [done|]. intros (l1 & y & l2 & t & -> & Hy & Hf & Hl2)%Hr.
    apply bool_decide_eq_true in Hf as ->. exists l1, y, l2. split_and!; [done..|].
    pose proof (Based_run_live _ _ _ HG Ho) as Hlive. apply Forall_app in Hlive as [_ [_ Hlive]%Forall_cons].
    rewrite Forall_forall in Hl2, Hlive |- *. intros z Hz. split; [by apply Hlive|]. intros Htz.
    specialize (Hl2 z Hz _ Htz). cbn beta in Hl2. by rewrite bool_decide_true in Hl2.
Qed.

(** ** Operations of the run *)
Lemma keeps_shrink bs b xs xs' m :
  Based bs b → b.(open_elements) = bs ++ xs → xs' `sublist_of` xs →
  m = Ok (set_open (bs ++ xs') b) → keeps bs 0 0 b m.
Proof.
  intros HG Ho Hs ->. destruct (gd_split _ _ HG) as (xs0 & Ho' & Hf).
  rewrite Ho in Ho'. apply app_inv_head in Ho' as <-.
  destruct (Based_shrink bs b xs xs' HG Ho Hs Hf). by eexists.
Qed.

(** The base's last element with the run above it. *)
Lemma Based_last bs b :
  Based bs b → ∃ l z t xs, bs = l ++ [z] ∧ tg b.(document) z = Some t ∧ t ∈ STRUCTURE
    ∧ b.(open_elements) = l ++ z :: xs ∧ Forall (ordinary_at b.(document)) xs
    ∧ Forall (live b.(document)) xs.
Proof.
  intros HG. destruct (gd_split _ _ HG) as (xs & Ho & Hf).
  destruct (closed_last _ _ (gd_base _ _ HG)) as (l & z & -> & t & Ht & Hin).
  exists l, z, t, xs. split_and!; [done..| |done|].
  - rewrite Ho. by rewrite <-app_assoc.
  - eapply Forall_impl; [exact Hf|]. apply ordinary_live.
Qed.

Lemma keeps_gen_implied bs b ex : Based bs b → keeps bs 0 0 b (generate_implied_end_tags b ex).
Proof.
  intros HG. destruct (Based_last bs b HG) as (l & z & t & xs & -> & Ht & Hin & Ho & Hf & Hl).
  destruct (gen_implied_spec b l z xs ex t) as (xs' & ps & -> & Hr & _); [done..| |].
  { intros [H _]. by rewrite structural_not_implied in H. }
  eapply (keeps_shrink _ b (xs' ++ ps) xs'); [done| |by apply sublist_inserts_r|].
  - rewrite Ho. by rewrite <-app_assoc.
  - rewrite Hr. by rewrite <-app_assoc.
Qed.

Lemma close_when bs b tag extra ex :
  Based bs b → ordinary tag → ¬ implied ex tag →
  keeps bs 0 0 b (when (has_tag_in_scope b tag extra)
    (λ b, b ← generate_implied_end_tags b ex; pop_until_and_including b tag) b).
Proof.
  intros HG Hord Hni. destruct (gd_split _ _ HG) as (xs & Ho & Hf).
  destruct (has_tag_ordinary bs b xs tag extra HG Ho Hord) as (r & Hr & Hrt).
  apply keeps_when; [done|]. exists r. split; [done|]. intros (l1 & y & l2 & -> & Hy & Hl2)%Hrt.
  eapply (keeps_shrink bs b _ l1); [done|exact Ho|by apply sublist_inserts_r|].
  eapply close_through_spec; [by rewrite Ho, app_assoc| |exact Hy|done|by apply bool_decide_eq_true].
  eapply Forall_impl; [exact Hl2|]. intros z [? ?]. split; [done|]. by apply bool_decide_eq_false.
Qed.

Lemma pop_when bs b tag extra :
  Based bs b → ordinary tag →
  keeps bs 0 0 b (when (has_tag_in_scope b tag extra) (λ b, pop_until_and_including b tag) b).
Proof.
  intros HG Hord. destruct (gd_split _ _ HG) as (xs & Ho & Hf).
  destruct (has_tag_ordinary bs b xs tag extra HG Ho Hord) as (r & Hr & Hrt).
  apply keeps_when; [done|]. exists r. split; [done|]. intros (l1 & y & l2 & -> & Hy & Hl2)%Hrt.
  eapply (keeps_shrink bs b _ l1); [done|exact Ho|by apply sublist_inserts_r|].
  eapply pop_including_spec; [by rewrite Ho, app_assoc|done|done].
Qed.

Ltac ordinary_tac := unfold ordinary; apply (bool_decide_eq_true_1 (_ ∉ _)); vm_compute; reflexivity.
Ltac implied_tac := intros [?H ?H]; (discriminate || (by match goal with H : _ ≠ _ |- _ => apply H end)).

Lemma close_p_keeps bs b : Based bs b → keeps bs 0 0 b (close_p_if_open b).
Proof.
  intros HG. unfold close_p_if_open, has_p_in_button_scope.
  apply (close_when bs b (str "p") _ (Some (str "p"))); [done|ordinary_tac|by intros [_ ?]].
Qed.

Lemma close_li_keeps bs b : Based bs b → keeps bs 0 0 b (close_li_if_open b).
Proof.
  intros HG. apply (close_when bs b (str "li") _ (Some (str "li"))); [done|ordinary_tac|by intros [_ ?]].
Qed.

Lemma close_in_scope_keeps bs b tag :
  Based bs b → ordinary tag → among tag IMPLIED_END_TAGS = false → keeps bs 0 0 b (close_in_scope b tag).
Proof. intros HG Ho Hi. apply close_when; [done..|]. intros [H _]. congruence. Qed.

Lemma end_heading_keeps bs b : Based bs b → keeps bs 0 0 b (end_heading b).
Proof.
  intros HG. unfold end_heading, has_any_heading_in_scope. destruct (gd_split _ _ HG) as (xs & Ho & Hf).
  edestruct (scope_ordinary bs b xs (λ t, among t HEADING_ELEMENTS)) as (r & -> & Hr); [done..| | |].
  - intros t Ht. apply not_true_iff_false. intros Hh%among_spec%heading_ordinary. done.
  - intros t Ht. by apply among_spec.
  - apply keeps_when; [done|]. exists r. split; [done|]. intros (l1 & y & l2 & t & -> & Hy & Hh & Hl2)%Hr.
    eapply (keeps_shrink bs b _ l1); [done|exact Ho|by apply sublist_inserts_r|].
    eapply close_through_spec; [by rewrite Ho, app_assoc| |exact Hy| |done].
    + pose proof (Based_run_live _ _ _ HG Ho) as Hlive. apply Forall_app in Hlive as [_ [_ Hlive]%Forall_cons].
      rewrite Forall_forall in Hl2, Hlive |- *. intros z Hz. split; [by apply Hlive|].
      destruct (tg _ z) eqn:Ez; [|done]. by apply (Hl2 z Hz).
    + intros [Hi _]. rewrite heading_not_implied in Hi; [done|]. by apply among_spec.
Qed.

(** [has_node_in_scope] for an ordinary element. *)
Lemma has_node_ordinary bs b xs x :
  Based bs b → b.(open_elements) = bs ++ xs → ordinary_at b.(document) x →
  ∃ r, has_node_in_scope b x = Ok r ∧ (r = true → x ∈ xs).
Proof.
  intros HG Ho (tx & Htx & Hord). unfold has_node_in_scope. rewrite Ho.
  destruct (gd_base _ _ HG) as (l & w & m & -> & (tw & Hw & Htw) & Hm).
  assert (∀ y ys, structural_at (document b) y →
    (∃ r, node_scope_walk (document b) x (rev ys) = Ok r ∧ (r = true → x ∈ xs)) →
    (∃ r, node_scope_walk (document b) x (rev (ys ++ [y])) = Ok r ∧ (r = true → x ∈ xs))) as Hstep.
  { intros y ys (t & Ht & Hin) IH. rewrite rev_snoc. cbn [node_scope_walk].
    destruct (N.eqb_spec y x) as [->|]; [by simplify_eq|].
    rewrite (tag_of_tg _ _ _ Ht). cbn [mbind res_bind].
    destruct (among t DEFAULT_SCOPE_BLOCKERS); [by exists false|done]. }
  assert (∃ r, node_scope_walk (document b) x (rev (l ++ w :: m)) = Ok r ∧ (r = true → x ∈ xs)) as Hbase.
  { clear Ho HG. induction m as [|y m IH] using rev_ind.
    - rewrite rev_snoc. cbn [node_scope_walk]. destruct (N.eqb_spec w x) as [->|].
      { simplify_eq. by apply blockers_structural in Htw. }
      rewrite (tag_of_tg _ _ _ Hw). cbn [mbind res_bind]. rewrite (proj2 (among_spec _ _) Htw). by exists false.
    - apply Forall_app in Hm as [Hm [Hy _]%Forall_cons].
      change (w :: m ++ [y]) with ((w :: m) ++ [y]). rewrite app_assoc. apply Hstep; [done|]. by apply IH. }
  pose proof (Based_run_live _ _ _ HG Ho) as Hlive. clear Ho.
  assert (∀ ys, (∀ y, y ∈ ys → y ∈ xs ∧ live (document b) y) →
    ∃ r, node_scope_walk (document b) x (rev ((l ++ w :: m) ++ ys)) = Ok r ∧ (r = true → x ∈ xs)) as Hrun.
  { induction ys as [|y ys IH] using rev_ind; [by rewrite app_nil_r|]. intros Hys.
    rewrite app_assoc, rev_snoc. cbn [node_scope_walk]. destruct (Hys y) as [Hy Hyl]; [set_solver|].
    destruct (N.eqb_spec y x) as [->|]; [by exists true|].
    rewrite tag_of_live by done. cbn [mbind res_bind].
    destruct IH as (r & Hr & Hrt); [set_solver|].
    destruct (tg (document b) y) as [t|]; [|by exists r].
    destruct (among t DEFAULT_SCOPE_BLOCKERS); [by exists false|by exists r]. }
  apply Hrun. intros y Hy. split; [done|]. rewrite Forall_forall in Hlive. auto.
Qed.

(** Removing an ordinary element from the stack. *)
Lemma filter_base (bs xs : list NodeId) x :
  (∀ y, y ∈ bs → y ≠ x) → filter (λ y, y ≠ x) (bs ++ xs) = bs ++ filter (λ y, y ≠ x) xs.
Proof.
  intros Hb. rewrite filter_app. f_equal. apply filter_ne_id. intros Hin. by apply (Hb x).
Qed.

Lemma Based_base_nodup bs b xs y : Based bs b → b.(open_elements) = bs ++ xs → y ∈ bs → y ∉ xs.
Proof.
  intros HG Ho Hy Hx. pose proof (co_nodup _ (gd_core _ _ HG)) as Hnd. rewrite Ho in Hnd.
  apply NoDup_app in Hnd as (_ & Hd & _). by apply (Hd y).
Qed.

Lemma keeps_remove bs b xs x :
  Based bs b → b.(open_elements) = bs ++ xs → x ∉ bs →
  keeps bs 0 0 b (Ok (set_open (filter (λ y, y ≠ x) b.(open_elements)) b)).
Proof.
  intros HG Ho Hx. eapply (keeps_shrink bs b xs (filter (λ y, y ≠ x) xs)); [done..|apply filter_sublist|].
  rewrite Ho, filter_base; [done|]. by intros y Hy ->.
Qed.

Lemma end_form_keeps bs b : Based bs b → keeps bs 0 0 b (end_form b).
Proof.
  intros HG. unfold end_form. destruct (form_element b) as [f|] eqn:Ef; [|by apply keeps_ret].
  set (b1 := set_form None b).
  assert (Based bs b1) as HG1.
  { destruct HG as [HC Hs Hb Htb]. split; [|done..]. destruct HC. split; try done. }
  assert (ordinary_at (document b1) f) as Hfo.
  { exists (str "form"). split; [by apply HG|ordinary_tac]. }
  destruct (gd_split _ _ HG1) as (xs & Ho & Hf).
  destruct (has_node_ordinary bs b1 xs f HG1 Ho Hfo) as (r & Hr & Hrt).
  assert (keeps bs 0 0 b1 (when (has_node_in_scope b1 f)
    (λ b, b ← generate_implied_end_tags b None;
          Ok (set_open (filter (λ x, x ≠ f) b.(open_elements)) b)) b1)) as (b' & Hb' & HG' & Hm).
  { apply keeps_when; [done|]. exists r. split; [done|]. intros Hx%Hrt.
    apply keeps_then; [by apply keeps_gen_implied|]. intros b2 HG2 Hm2.
    destruct (gd_split _ _ HG2) as (xs2 & Ho2 & Hf2).
    eapply keeps_remove; [done..|]. intros Hin. by apply (Based_base_nodup bs b1 xs f). }
  exists b'. split_and!; [done..|]. destruct Hm. by split.
Qed.

(** [any_other_end_tag] stops at the base unless the tag is that of its last element. *)
Lemma any_other_keeps bs b tag :
  Based bs b → (∀ l z, bs = l ++ [z] → tg b.(document) z ≠ Some tag) →
  keeps bs 0 0 b (any_other_end_tag b tag).
Proof.
  intros HG Hnt. destruct (Based_last bs b HG) as (l & z & t & xs & -> & Ht & Hin & Ho & Hf & Hl).
  specialize (Hnt l z eq_refl). unfold any_other_end_tag. rewrite Ho.
  assert (∀ ys, ys `prefix_of` xs → keeps (l ++ [z]) 0 0 b (other_end_walk b tag (rev (l ++ z :: ys)))) as Hw.
  { induction ys as [|y ys IH] using rev_ind; intros [zs Hzs].
    - rewrite rev_snoc. cbn [other_end_walk]. rewrite (tag_of_tg _ _ _ Ht). cbn [mbind res_bind].
      rewrite bool_decide_false by congruence. unfold is_special. rewrite (tag_of_tg _ _ _ Ht). cbn [mbind res_bind].
      rewrite structural_special by done. by apply keeps_ret.
    - change (z :: ys ++ [y]) with ((z :: ys) ++ [y]). rewrite app_assoc, rev_snoc. cbn [other_end_walk].
      assert (ordinary_at (document b) y) as (ty & Hty & Hord).
      { rewrite Hzs in Hf. by apply Forall_app in Hf as [[_ [? _]%Forall_cons]%Forall_app _]. }
      rewrite (tag_of_tg _ _ _ Hty). cbn [mbind res_bind]. case_bool_decide as Heq.
      + subst ty. rewrite length_rev.
        assert (open_elements b = (l ++ z :: ys) ++ y :: zs) as Ho'.
        { rewrite Ho, Hzs. by rewrite <-!app_assoc. }
        destruct (gen_implied_spec b (l ++ z :: ys) y zs (Some tag) tag) as (zs' & ps & -> & -> & _);
          [done| |done|by intros [_ ?]|].
        { rewrite Hzs in Hl. by apply Forall_app in Hl as [_ ?]. }
        cbn [mbind res_bind open_elements set_open]. rewrite take_app_length.
        eapply (keeps_shrink _ b xs ys); [done| |by rewrite Hzs, <-app_assoc; apply sublist_inserts_r|].
        * by rewrite Ho, <-app_assoc.
        * by rewrite <-(app_assoc l [z] ys).
      + unfold is_special. rewrite (tag_of_tg _ _ _ Hty). cbn [mbind res_bind].
        destruct (among ty SPECIAL_ELEMENTS); [by apply keeps_ret|]. apply IH.
        exists ([y] ++ zs). rewrite Hzs. by rewrite <-app_assoc. }
  by apply Hw.
Qed.
