(* ===== verification/HtmlFormatting.v ===== *)
(** * The list of active formatting elements: pushes and reconstruction *)

From S2P Require Import Prelude Dom DomTree DomWalk DomOps HtmlTokenizer HtmlTree DomParents.
From S2P Require Import HtmlTreeInv HtmlModes HtmlStack.

(** ** Vectors *)
Lemma insert_middle {A} (l1 l2 : list A) x y : <[length l1 := y]> (l1 ++ x :: l2) = l1 ++ y :: l2.
Proof. by rewrite insert_app_r_alt, Nat.sub_diag by done. Qed.

Lemma vec_set_middle {A} (l1 l2 : list A) x y :
  vec_set (length l1) y (l1 ++ x :: l2) = Ok (l1 ++ y :: l2).
Proof.
  unfold vec_set. rewrite decide_True; [by rewrite insert_middle|]. rewrite length_app. cbn. lia.
Qed.

Lemma vec_remove_middle {A} (l1 l2 : list A) x :
  vec_remove (length l1) (l1 ++ x :: l2) = Ok (l1 ++ l2).
Proof.
  unfold vec_remove. rewrite decide_True by (rewrite length_app; cbn; lia).
  rewrite take_app_length, drop_app_ge by lia. replace (S (length l1) - length l1) with 1 by lia. done.
Qed.

Lemma vec_insert_middle {A} (l1 l2 : list A) x :
  vec_insert (length l1) x (l1 ++ l2) = Ok (l1 ++ x :: l2).
Proof.
  unfold vec_insert. rewrite decide_True by (rewrite length_app; lia).
  by rewrite take_app_length, drop_app_length.
Qed.

Lemma vec_remove_sublist {A} i (l : list A) :
  i < length l → ∃ l', vec_remove i l = Ok l' ∧ l' `sublist_of` l.
Proof.
  intros Hi. destruct (lookup_lt_is_Some_2 l i Hi) as [x Hx].
  pose proof (vec_remove_middle (take i l) (drop (S i) l) x) as H.
  rewrite length_take_le in H by lia. rewrite (take_drop_middle l i x Hx) in H. eexists; split; [done|].
  rewrite <-(take_drop_middle l i x Hx) at 3. apply sublist_app; [done|]. by apply sublist_cons.
Qed.

Lemma position_Some {A} (p : A → bool) l i :
  position p l = Some i → ∃ l1 x l2, l = l1 ++ x :: l2 ∧ length l1 = i ∧ p x = true
    ∧ Forall (λ y, p y = false) l1.
Proof.
  revert i; induction l as [|x l IH]; intros i; cbn; [done|]. destruct (p x) eqn:E.
  - intros [= <-]. by exists [], x, l.
  - destruct (position p l) as [j|] eqn:Ej; [|done]. cbn. intros [= <-].
    destruct (IH j eq_refl) as (l1 & y & l2 & -> & <- & ? & ?). exists (x :: l1), y, l2. by split_and!; [..|constructor].
Qed.

Lemma position_None {A} (p : A → bool) l : position p l = None → Forall (λ y, p y = false) l.
Proof.
  induction l as [|x l IH]; cbn; [done|]. destruct (p x) eqn:E; [done|].
  destruct (position p l); [done|]. intros _. by constructor; [|apply IH].
Qed.

Lemma position_middle {A} (p : A → bool) l1 x l2 :
  Forall (λ y, p y = false) l1 → p x = true → position p (l1 ++ x :: l2) = Some (length l1).
Proof.
  induction 1 as [|y l1 Hy _ IH]; intros Hx; cbn; [by rewrite Hx|]. by rewrite Hy, (IH Hx).
Qed.

Lemma rposition_Some {A} (p : A → bool) l i :
  rposition p l = Some i → ∃ l1 x l2, l = l1 ++ x :: l2 ∧ length l1 = i ∧ p x = true
    ∧ Forall (λ y, p y = false) l2.
Proof.
  revert i; induction l as [|x l IH]; intros i; cbn; [done|].
  destruct (rposition p l) as [j|] eqn:Ej.
  - intros [= <-]. destruct (IH j eq_refl) as (l1 & y & l2 & -> & <- & ? & ?). by exists (x :: l1), y, l2.
  - destruct (p x) eqn:E; [|done]. intros [= <-]. exists [], x, l. split_and!; try done.
    clear -Ej. induction l as [|y l IH]; [done|]. cbn in Ej. destruct (rposition p l); [done|].
    destruct (p y) eqn:Ey; [done|]. by constructor; [|apply IH].
Qed.

Lemma scan_start_split b :
  ∃ l1 l2, b.(active_formatting) = l1 ++ l2 ∧ afe_scan_start b = length l1
    ∧ slice_from (afe_scan_start b) b.(active_formatting) = Ok l2.
Proof.
  unfold afe_scan_start. destruct (rposition is_marker b.(active_formatting)) as [i|] eqn:E.
  - apply rposition_Some in E as (l1 & x & l2 & Hl & <- & _). exists (l1 ++ [x]), l2.
    rewrite Hl, <-app_assoc. rewrite length_app. cbn [length]. split_and!; [done..|].
    unfold slice_from. rewrite decide_True by (rewrite length_app; cbn; lia).
    rewrite drop_app_ge by lia. by replace (length l1 + 1 - length l1) with 1 by lia.
  - exists [], b.(active_formatting). split_and!; try done.
Qed.

Lemma indices_range {A} (p : A → bool) i l j : j ∈ indices p i l → i ≤ j < i + length l.
Proof.
  revert i; induction l as [|x l IH]; intros i; cbn; [by intros ?%elem_of_nil|].
  destruct (p x); [intros [-> |Hj]%elem_of_cons|intros Hj]; [lia|apply IH in Hj; lia|apply IH in Hj; lia].
Qed.

(** ** [push_formatting] *)
Lemma afe_ids_app l1 l2 : afe_ids (l1 ++ l2) = afe_ids l1 ++ afe_ids l2.
Proof. apply omap_app. Qed.

Lemma push_formatting_spec b o id tag attrs :
  Core b → b.(open_elements) = o ++ [id] → id ∉ afe_ids b.(active_formatting) →
  tg b.(document) id = Some tag → tag ∈ FORMATTING_ELEMENTS →
  ∃ afe, push_formatting b id tag attrs = Ok (set_afe afe b) ∧ Core (set_afe afe b)
    ∧ length afe ≤ S (length b.(active_formatting)).
Proof.
  intros HC Ho Hn Ht Hf. unfold push_formatting.
  destruct (scan_start_split b) as (l1 & l2 & Hafe & Hst & ->). cbn [mbind res_bind].
  assert (∃ l, match indices (same_formatting tag attrs) (afe_scan_start b) l2 with
     | i :: _ => if 3 <=? length (indices (same_formatting tag attrs) (afe_scan_start b) l2)
                 then vec_remove i (active_formatting b) else Ok (active_formatting b)
     | [] => Ok (active_formatting b) end = Ok l ∧ l `sublist_of` active_formatting b) as (l & -> & Hl).
  { destruct (indices _ _ _) as [|i is'] eqn:Ei; [by eexists|]. destruct (3 <=? _); [|by eexists].
    apply vec_remove_sublist. assert (i ∈ indices (same_formatting tag attrs) (afe_scan_start b) l2) as Hin
      by (rewrite Ei; by left). apply indices_range in Hin. rewrite Hafe, length_app. lia. }
  cbn [mbind res_bind]. eexists; split; [done|].
  pose proof (Core_afe b l Hl HC) as HC1. pose proof (omap_sublist entry_id _ _ Hl) as Hids.
  assert (id ∉ afe_ids l) as Hn1 by (intros Hin; apply Hn; by eapply elem_of_sublist).
  split; [|rewrite length_app; cbn; apply sublist_length in Hl; lia].
  split; cbn [document open_elements active_formatting form_element set_afe]; try apply HC1.
  - intros id' t' a' [H|H%list_elem_of_singleton]%elem_of_app; [by eapply (co_afe _ HC1)|].
    by injection H as -> -> ->.
  - rewrite afe_ids_app. apply NoDup_app. split_and!; [apply HC1| |apply NoDup_singleton].
    intros x Hx ->%list_elem_of_singleton. done.
  - rewrite afe_ids_app, filter_app. change (afe_ids [Formatting (id, tag, attrs)]) with [id].
    rewrite Ho. rewrite filter_in_app by done. rewrite filter_cons_True by set_solver. apply sublist_app; [|done].
    eapply (open_order_shrink _ (o ++ [id])); [rewrite <-Ho; by apply co_nodup|by apply sublist_inserts_r|].
    rewrite <-Ho. apply HC1.
Qed.

(** ** Inserting an element above the base *)
Lemma insert_based bs b name attrs :
  Based bs b → ordinary name → room 1 b →
  ∃ id b', insert_element b name attrs = Ok (id, b') ∧ Based bs b' ∧ moves 1 0 b b'
    ∧ b'.(open_elements) = b.(open_elements) ++ pushed name id
    ∧ tg b'.(document) id = Some name ∧ ¬ live b.(document) id
    ∧ b'.(active_formatting) = b.(active_formatting) ∧ b'.(form_element) = b.(form_element).
Proof.
  intros HG Hord Hroom.
  destruct (insert_element_spec b name attrs (gd_core _ _ HG) (Based_nonempty _ _ HG) Hroom)
    as (id & b' & H & Hm & HC & Ho & Ht & Hnl & Ha & Hf).
  exists id, b'. split_and!; try done. split; [done| | |].
  - destruct (gd_split _ _ HG) as (xs & Hxs & Hfx). exists (xs ++ pushed name id).
    rewrite Ho, Hxs, <-app_assoc. split; [done|]. apply Forall_app. split.
    + eapply Forall_impl; [exact Hfx|]. intros x. eapply ordinary_evolves, Hm.
    + unfold pushed. destruct (among _ _); [done|]. apply Forall_singleton. by exists name.
  - eapply closed_evolves; [apply Hm|apply HG].
  - eapply tabled_evolves; [apply Hm| |apply HG]. intros x. by apply Based_base_live.
Qed.

Lemma insert_keeps bs b name attrs :
  Based bs b → ordinary name → room 1 b → keeps bs 1 0 b (insert_element_ b name attrs).
Proof.
  intros HG Ho Hr. destruct (insert_based bs b name attrs HG Ho Hr) as (id & b' & H & HG' & Hm & _).
  unfold insert_element_. rewrite H. cbn. by exists b'.
Qed.

Lemma insert_text_keeps bs b s : Based bs b → room 1 b → keeps bs 1 0 b (insert_text b s).
Proof.
  intros HG Hr. destruct (insert_text_spec b s (gd_core _ _ HG) (Based_nonempty _ _ HG) Hr)
    as (b' & H & Hm & HC & Ho & _). exists b'. split; [done|]. split; [|done]. split; [done| | |].
  - destruct (gd_split _ _ HG) as (xs & Hxs & Hfx). exists xs. rewrite Ho. split; [done|].
    eapply Forall_impl; [exact Hfx|]. intros x. eapply ordinary_evolves, Hm.
  - eapply closed_evolves; [apply Hm|apply HG].
  - eapply tabled_evolves; [apply Hm| |apply HG]. intros x. by apply Based_base_live.
Qed.

(** ** Reconstruction *)
Lemma NoDup_middle {A} (l1 l2 : list A) x y :
  NoDup (l1 ++ x :: l2) → y ∉ l1 ++ x :: l2 → NoDup (l1 ++ y :: l2).
Proof.
  intros (H1 & Hd & [Hx H2]%NoDup_cons)%NoDup_app Hy. apply NoDup_app. split; [done|]. split.
  - intros z Hz Hz'. apply elem_of_cons in Hz' as [-> |Hz']; [set_solver|]. apply (Hd z Hz). by right.
  - apply NoDup_cons. split; [set_solver|done].
Qed.

Lemma filter_none {A} (P : A → Prop) `{∀ x, Decision (P x)} (l : list A) :
  (∀ x, x ∈ l → ¬ P x) → filter P l = [].
Proof.
  induction l as [|x l IH]; [done|]. intros Hn. rewrite filter_cons_False by (apply Hn; by left).
  apply IH. intros y Hy. apply Hn. by right.
Qed.

(** A closed entry, with all the later ones closed, is given to the new top of the stack. *)
Lemma Core_reopen b o new l1 l2 x t a :
  Core b → b.(open_elements) = o ++ [new] → b.(active_formatting) = l1 ++ Formatting (x, t, a) :: l2 →
  new ∉ afe_ids b.(active_formatting) → tg b.(document) new = Some t →
  x ∉ o → (∀ y, y ∈ afe_ids l2 → y ∉ o) →
  Core (set_afe (l1 ++ Formatting (new, t, a) :: l2) b).
Proof.
  intros HC Ho Hafe Hn Ht Hx Hl2.
  assert (∀ y, afe_ids (l1 ++ Formatting (y, t, a) :: l2) = afe_ids l1 ++ y :: afe_ids l2) as Hids.
  { intros y. by rewrite afe_ids_app. }
  rewrite Hafe, Hids in Hn.
  split; cbn [document open_elements active_formatting form_element set_afe]; try apply HC.
  - intros id' t' a' Hin. apply elem_of_app in Hin as [Hin|Hin].
    + apply (co_afe _ HC id' t' a'). rewrite Hafe. set_solver.
    + apply elem_of_cons in Hin as [[= -> -> ->]|Hin].
      * split; [done|]. apply (co_afe _ HC x t a). rewrite Hafe. set_solver.
      * apply (co_afe _ HC id' t' a'). rewrite Hafe. set_solver.
  - rewrite Hids. eapply NoDup_middle; [|exact Hn]. rewrite <-Hids, <-Hafe. apply HC.
  - rewrite Hids, filter_app, Ho. rewrite filter_in_app by set_solver.
    rewrite filter_cons_True by set_solver.
    rewrite (filter_none _ (afe_ids l2)).
    2: { intros y Hy [?| ->%list_elem_of_singleton]%elem_of_app; [by apply (Hl2 y)|]. set_solver. }
    apply sublist_app; [|done]. pose proof (co_afe_order _ HC) as Hord. rewrite Hafe, Hids, Ho in Hord.
    apply (open_order_shrink _ (o ++ [new]) o) in Hord; [|rewrite <-Ho; by apply co_nodup|by apply sublist_inserts_r].
    rewrite filter_app in Hord. etrans; [|exact Hord]. by apply sublist_inserts_r.
Qed.

Lemma reconstruct_from_spec bs l2 : ∀ l1 b,
  Based bs b → b.(active_formatting) = l1 ++ l2 →
  Forall (λ e, is_open_or_marker b e = false) l2 → room (N.of_nat (length l2)) b →
  keeps bs (N.of_nat (length l2)) 0 b (reconstruct_from (length l2) (length l1) b).
Proof.
  induction l2 as [|e l2 IH]; intros l1 b HG Hafe Hcl Hroom; cbn [reconstruct_from length].
  { by apply keeps_ret. }
  rewrite Hafe, list_lookup_middle by done. cbn [unwrap mbind res_bind].
  apply Forall_cons in Hcl as [He Hcl]. destruct e as [|[[x t] a]]; [done|]. cbn in He.
  apply bool_decide_eq_false in He. pose proof (gd_core _ _ HG) as HC.
  destruct (co_afe _ HC x t a) as [_ Hfmt]; [rewrite Hafe; set_solver|].
  destruct (insert_based bs b t a HG (formatting_ordinary _ Hfmt)) as
    (id & b1 & -> & HG1 & Hm1 & Ho1 & Ht1 & Hnl & Ha1 & Hf1); [eapply room_le; [|exact Hroom]; cbn [length]; lia|].
  cbn [mbind res_bind]. rewrite Ha1, Hafe, vec_set_middle. cbn [mbind res_bind].
  unfold pushed in Ho1. rewrite (formatting_not_void _ Hfmt) in Ho1.
  assert (id ∉ afe_ids (active_formatting b)) as Hnid by (intros Hin; by apply Hnl, co_afe_live).
  assert (∀ y, y ∈ afe_ids l2 → y ∉ open_elements b) as Hl2.
  { intros y (ty & ay & Hy)%elem_of_afe_ids. rewrite Forall_forall in Hcl. specialize (Hcl _ Hy).
    cbn in Hcl. by apply bool_decide_eq_false in Hcl. }
  set (b2 := set_afe _ b1).
  assert (Based bs b2) as HG2.
  { destruct HG1 as [HC1 Hs1 Hb1 Htb1]. split; [|done..]. eapply Core_reopen; try done; by rewrite Ha1. }
  assert (moves 1 0 b b2) as Hm2.
  { destruct Hm1. split; try done. cbn. rewrite Hafe, !length_app. cbn. lia. }
  change (l1 ++ Formatting (id, t, a) :: l2) with (l1 ++ [Formatting (id, t, a)] ++ l2) in *.
  replace (S (length l1)) with (length (l1 ++ [Formatting (id, t, a)])) by (rewrite length_app; cbn; lia).
  assert (room (N.of_nat (length l2)) b2) as Hr2.
  { eapply moves_room; [exact Hm2|]. cbn [length] in Hroom. by replace (1 + N.of_nat (length l2))%N with (N.of_nat (S (length l2))) by lia. }
  destruct (IH (l1 ++ [Formatting (id, t, a)]) b2 HG2) as (b3 & -> & HG3 & Hm3); [|  |done|].
  - cbn. by rewrite <-app_assoc.
  - apply Forall_forall. intros [|[[y ty] ay]] Hy.
    { rewrite Forall_forall in Hcl. by specialize (Hcl _ Hy). }
    assert (y ∈ afe_ids l2) as Hyi by (apply elem_of_afe_ids; eauto).
    apply bool_decide_eq_false. cbn. rewrite Ho1. intros Hin.
    apply elem_of_app in Hin as [?| ->%list_elem_of_singleton]; [by apply (Hl2 y)|].
    apply Hnid. rewrite Hafe, afe_ids_app. cbn. set_solver.
  - exists b3. split_and!; [done..|].
    replace (N.of_nat (S (length l2))) with (1 + N.of_nat (length l2))%N by lia.
    exact (moves_trans _ _ _ _ _ _ _ Hm2 Hm3).
Qed.

(** The entries from [first] on are all closed. *)
Lemma reconstruct_first_spec b n :
  n ≤ length b.(active_formatting) →
  ∃ i, reconstruct_first b n = Ok i ∧ i ≤ n
    ∧ ∀ j e, i ≤ j < n → b.(active_formatting) !! j = Some e → is_open_or_marker b e = false.
Proof.
  induction n as [|n IH]; intros Hn; cbn [reconstruct_first]; [exists 0; split_and!; [done..|lia]|].
  destruct (lookup_lt_is_Some_2 b.(active_formatting) n) as [e He]; [lia|]. rewrite He. cbn [unwrap mbind res_bind].
  destruct (is_open_or_marker b e) eqn:Ee; [exists (S n); split_and!; [done..|lia]|].
  destruct IH as (i & -> & Hi & Hall); [lia|]. exists i. split_and!; [done|lia|].
  intros j e' Hj He'. destruct (decide (j = n)) as [->|]; [congruence|]. apply (Hall j); [lia|done].
Qed.

Lemma reconstruct_keeps bs b :
  Based bs b → room (N.of_nat (length b.(active_formatting))) b →
  keeps bs (N.of_nat (length b.(active_formatting))) 0 b (reconstruct_active_formatting_elements b).
Proof.
  intros HG Hroom. unfold reconstruct_active_formatting_elements.
  destruct (last b.(active_formatting)) as [e|] eqn:El; [|by apply keeps_ret].
  destruct (is_open_or_marker b e) eqn:Ee; [by apply keeps_ret|].
  apply last_Some in El as [l Hl]. rewrite Hl, length_app. cbn [length].
  replace (length l + 1 - 1) with (length l) by lia.
  destruct (reconstruct_first_spec b (length l)) as (i & -> & Hi & Hall); [rewrite Hl, length_app; lia|].
  cbn [mbind res_bind]. set (l1 := take i l). set (l2 := drop i l ++ [e]).
  assert (length l1 = i) as Hl1 by (unfold l1; rewrite length_take; lia).
  assert (length l2 = S (length l) - i) as Hl2 by (unfold l2; rewrite length_app, length_drop; cbn; lia).
  rewrite <-Hl2, <-Hl1. eapply keeps_weaken; [| |apply reconstruct_from_spec; [done| | |]]; [| | | |].
  - rewrite Hl2. lia.
  - lia.
  - unfold l1, l2. by rewrite app_assoc, take_drop.
  - apply Forall_app. split; [|by apply Forall_singleton]. apply Forall_lookup. intros j e' He'.
    rewrite lookup_drop in He'. apply (Hall (i + j)).
    + apply lookup_lt_Some in He'. lia.
    + rewrite Hl. by apply lookup_app_l_Some.
  - eapply room_le; [|exact Hroom]. rewrite Hl, length_app. cbn. lia.
Qed.
