(* ===== verification/HtmlAdoption.v ===== *)
(** * The adoption agency algorithm

    The algorithm of misnested formatting elements rewires the document around the furthest
    block.  It is shown to keep the builder's invariant and to run without a panic: in
    particular the tree stays acyclic, the index of the formatting element is still its own
    after the inner loop, and the two positions that the code unwraps exist. *)

From S2P Require Import Prelude Dom DomTree DomWalk DomOps HtmlTokenizer HtmlTree DomParents.
From S2P Require Import HtmlTreeInv HtmlModes HtmlStack HtmlFormatting.

(** ** Sublists around a common element *)
Lemma sublist_split {A} (u v p q : list A) x :
  NoDup (p ++ x :: q) → (u ++ x :: v) `sublist_of` (p ++ x :: q) →
  u `sublist_of` p ∧ v `sublist_of` q.
Proof.
  intros Hnd (k1 & k2 & Hk & Hu & (j1 & j2 & -> & Hv)%sublist_cons_l)%sublist_app_l.
  rewrite app_assoc in Hk. apply app_cons_inj_NoDup in Hk as [-> ->]; [|done]. split; [|done].
  by apply sublist_inserts_r.
Qed.

Lemma sublist_skip {A} (l p q : list A) x :
  x ∉ l → l `sublist_of` (p ++ x :: q) → l `sublist_of` (p ++ q).
Proof.
  intros Hx (k1 & k2 & -> & H1 & H2)%sublist_app_r. apply sublist_app; [done|].
  apply sublist_cons_r in H2 as [?|(l' & -> & _)]; [done|]. set_solver.
Qed.

(** ** [detach_if_attached] *)
Lemma detach_if_spec d c t :
  WF d → tg d c = Some t → t ∉ FROZEN →
  ∃ d', detach_if_attached d c = Ok d' ∧ evolves 0 d d' ∧ detached d' c
    ∧ (∀ x, tg d' x = tg d x) ∧ (∀ x, live d' x ↔ live d x)
    ∧ (∀ x q, parent_edge d' x q ↔ parent_edge d x q ∧ x ≠ c).
Proof.
  intros HW Ht Hnf. pose proof (tg_live _ _ _ Ht) as Hl. unfold detach_if_attached.
  destruct (parent_Ok d c Hl) as (o & -> & Ho). cbn [mbind res_bind]. destruct o as [p|].
  - by eapply detach_evolves.
  - exists d. split; [done|]. split; [by apply evolves_refl|]. split; [done|]. split_and!; try done.
    intros x q. split; [|naive_solver]. intros Hx. split; [done|]. intros ->. by apply (Ho q).
Qed.

(** ** Moving the children of the furthest block *)
Lemma move_children_spec n f : ∀ kids d,
  WF d → detached d n → d.(doc_root) ≠ Some n → d.(doc_root) ≠ Some f → tg d f ≠ Some (str "html") →
  is_Some (tg d f) → NoDup kids → (∀ c, c ∈ kids → parent_edge d c f ∧ c ≠ n) →
  ∃ d', for_each (move_child n) d kids = Ok d' ∧ evolves 0 d d'
    ∧ (∀ x, tg d' x = tg d x) ∧ (∀ x, live d' x ↔ live d x)
    ∧ (∀ x q, parent_edge d' x q ↔ (x ∉ kids ∧ parent_edge d x q) ∨ (x ∈ kids ∧ q = n)).
Proof.
  induction kids as [|c kids IH]; intros d HW Hn Hrn Hrf Hfh Hft Hnd Hkids; cbn [for_each].
  { exists d. split; [done|]. split; [by apply evolves_refl|]. split_and!; try done. set_solver. }
  apply NoDup_cons in Hnd as [Hc Hnd]. destruct (Hkids c) as [Hcf Hcn]; [by left|].
  destruct (parent_edge_live _ _ _ HW Hcf) as [Hlc Hlf]. change (move_child n d c) with (d1 ← detach d c; append_child d1 n c).
  destruct (detach_parents d c HW Hlc) as (d1 & -> & HW1 & Hrw1 & Hpe1). cbn [mbind res_bind].
  destruct (attach_parents d1 n c None) as (d2 & Hd2 & HW2 & Hrw2 & Hpe2); try done.
  { apply (rewired_live d d1); [done|apply Hn]. }
  { split; [by apply (rewired_live d d1)|]. intros p [_ ?]%Hpe1. done. }
  { destruct Hrw1 as (_ & -> & _). intros Hr. by apply (root_no_parent d c f). }
  { intros Ha. apply anc_top in Ha; [done|]. intros p [Hp _]%Hpe1. by apply (proj2 Hn p). }
  cbn in Hd2. rewrite Hd2. cbn [mbind res_bind].
  assert (∀ x q, parent_edge d2 x q ↔ (x ≠ c ∧ parent_edge d x q) ∨ (x = c ∧ q = n)) as Hpe.
  { intros x q. rewrite Hpe2, Hpe1. naive_solver. }
  assert (∀ x, tg d2 x = tg d x) as Htg.
  { intros x. by rewrite (rewired_tg d1 d2), (rewired_tg d d1). }
  assert (∀ x, live d2 x ↔ live d x) as Hlv.
  { intros x. by rewrite (rewired_live d1 d2), (rewired_live d d1). }
  assert (d2.(doc_root) = d.(doc_root)) as Hroot by (destruct Hrw1 as (_ & ? & _), Hrw2 as (_ & ? & _); congruence).
  assert (evolves 0 d d2) as E2.
  { apply rewired_evolves; [done..| | |].
    - destruct Hrw1 as (H1 & H2 & H3), Hrw2 as (H4 & H5 & H6).
      split; [congruence|]. split; [congruence|]. intros x. by rewrite H6, H3.
    - intros x p t Ht Hin Ha Hp. apply Hpe. left. split; [|done]. intros ->.
      assert (p = f) as -> by by eapply parent_edge_inj. destruct Ha as [Hx|Hx]; [|done].
      rewrite Hx in Hft. by destruct Hft.
    - intros x r Hr [[_ ?]|[-> ->]]%Hpe; done. }
  destruct (IH d2) as (d' & -> & E & Ht' & Hl' & Hpe'); try done.
  { split; [apply Hlv, Hn|]. intros p [[_ Hp]|[-> _]]%Hpe; [by apply (proj2 Hn p)|done]. }
  { by rewrite Hroot. } { by rewrite Hroot. } { by rewrite Htg. } { by rewrite Htg. }
  { intros x Hx. destruct (Hkids x) as [? ?]; [by right|]. split; [|done]. apply Hpe. left.
    split; [|done]. by intros ->. }
  exists d'. split; [done|]. split; [exact (evolves_trans _ _ _ _ _ E2 E)|].
  split; [intros x; by rewrite Ht', Htg|]. split; [intros x; by rewrite Hl', Hlv|].
  intros x q. rewrite Hpe', Hpe. set_solver.
Qed.

(** ** The invariant with one element out of place *)
Record Loose (exc : NodeId) (b : TreeBuilder) : Prop := {
  lo_wf : WF b.(document);
  lo_elem : ∀ x, x ∈ b.(open_elements) → ∃ t, tg b.(document) x = Some t;
  lo_ordered : ordered b.(document) b.(open_elements);
  lo_attached : ∀ x, x ∈ b.(open_elements) → x ≠ exc → ∃ p, parent_edge b.(document) x p;
  lo_top : ∀ x r, b.(document).(doc_root) = Some r → parent_edge b.(document) x r →
    tg b.(document) x = Some (str "html");
  lo_afe : ∀ id t a, Formatting (id, t, a) ∈ b.(active_formatting) →
    tg b.(document) id = Some t ∧ t ∈ FORMATTING_ELEMENTS;
  lo_afe_nodup : NoDup (afe_ids b.(active_formatting));
  lo_afe_order : filter (.∈ b.(open_elements)) (afe_ids b.(active_formatting))
    `sublist_of` b.(open_elements);
  lo_form : ∀ f, b.(form_element) = Some f → tg b.(document) f = Some (str "form");
}.

Lemma Core_Loose x b : Core b → Loose x b.
Proof. intros []. split; try done. intros y Hy _. auto. Qed.

Lemma Loose_Core x b :
  (x ∈ b.(open_elements) → ∃ p, parent_edge b.(document) x p) → Loose x b → Core b.
Proof. intros Hx []. split; try done. intros y Hy. destruct (decide (y = x)) as [->|]; auto. Qed.

Lemma lo_nodup x b : Loose x b → NoDup b.(open_elements).
Proof. intros HL. apply (ordered_NoDup b.(document)), HL. Qed.

Lemma Loose_open x b l : l `sublist_of` b.(open_elements) → Loose x b → Loose x (set_open l b).
Proof.
  intros Hs HL. assert (∀ y, y ∈ l → y ∈ open_elements b) as Hin.
  { intros y Hy. by eapply elem_of_sublist. }
  destruct HL. split; cbn; auto.
  - by eapply ordered_sublist.
  - eapply open_order_shrink; [by eapply ordered_NoDup|done..].
Qed.

Lemma Loose_afe x b l : l `sublist_of` b.(active_formatting) → Loose x b → Loose x (set_afe l b).
Proof.
  intros Hs HL. pose proof (omap_sublist entry_id _ _ Hs) as Hs'. destruct HL. split; cbn; try done.
  - intros id t a H. eapply lo_afe0. by eapply elem_of_sublist.
  - by eapply sublist_NoDup.
  - etrans; [|exact lo_afe_order0]. by apply sublist_filter.
Qed.

Lemma entry_is_spec n e : entry_is n e = true ↔ entry_id e = Some n.
Proof. destruct e as [|[[id t] a]]; cbn; [done|]. rewrite N.eqb_eq. naive_solver. Qed.

Lemma entry_is_ids n l : Forall (λ e, entry_is n e = false) l ↔ n ∉ afe_ids l.
Proof.
  unfold afe_ids. rewrite list_elem_of_omap, Forall_forall. split.
  - intros H (e & He & Hid). apply entry_is_spec in Hid. by rewrite (H e He) in Hid.
  - intros H e He. apply not_true_iff_false. intros Hid%entry_is_spec. eauto.
Qed.

(** Removing a listed element from the stack. *)
Lemma remove_from_stack_spec b l1 x l2 :
  NoDup b.(open_elements) → b.(open_elements) = l1 ++ x :: l2 →
  remove_from_stack b x = Ok (set_open (l1 ++ l2) b).
Proof.
  intros Hnd Ho. unfold remove_from_stack, stack_pos_of. rewrite Ho in *.
  rewrite position_middle; [by rewrite vec_remove_middle| |by apply N.eqb_refl].
  apply NoDup_app in Hnd as (_ & Hd & _). apply Forall_forall. intros y Hy. apply N.eqb_neq.
  intros ->. by apply (Hd x Hy); left.
Qed.

(** ** Replacing a listed element and its entry by a clone *)
Lemma clone_order (ids1 ids2 : list NodeId) o1 o2 x n :
  NoDup (o1 ++ x :: o2) → n ∉ o1 ++ x :: o2 → NoDup (ids1 ++ x :: ids2) → n ∉ ids1 ++ x :: ids2 →
  filter (.∈ o1 ++ x :: o2) (ids1 ++ x :: ids2) `sublist_of` (o1 ++ x :: o2) →
  filter (.∈ o1 ++ n :: o2) (ids1 ++ n :: ids2) `sublist_of` (o1 ++ n :: o2).
Proof.
  intros Hno Hn Hni Hnn. rewrite !filter_app, !filter_cons_True by set_solver. intros Hs.
  apply sublist_split in Hs as [H1 H2]; [|done].
  apply NoDup_app in Hni as (_ & Hd & [Hx _]%NoDup_cons).
  rewrite (filter_ext_in (.∈ o1 ++ n :: o2) (.∈ o1 ++ x :: o2) ids1).
  2: { intros y Hy. assert (y ≠ x) by (intros ->; by apply (Hd x Hy); left).
       assert (y ≠ n) by set_solver. set_solver. }
  rewrite (filter_ext_in (.∈ o1 ++ n :: o2) (.∈ o1 ++ x :: o2) ids2).
  2: { intros y Hy. assert (y ≠ x) by (by intros ->). assert (y ≠ n) by set_solver. set_solver. }
  apply sublist_app; [done|]. by constructor.
Qed.

Lemma ordinary_not_frozen t : ordinary t → t ∉ FROZEN.
Proof.
  intros Ho Hf. apply Ho, among_spec. clear Ho. revert t Hf. by apply forallb_list.
Qed.

(** The document part of a clone step: a new element [n] takes the place of [x] on the stack and
    the detached [last] goes below it. *)
Lemma clone_document b x last t tl o1 o2 dt :
  Loose last b → room 1 b → b.(open_elements) = o1 ++ x :: last :: o2 →
  tg b.(document) last = Some tl → ordinary tl → tag_at dt = Some t →
  let n := next_node_id b.(document) in
  ∃ d0 d1 d2, create_node b.(document) dt = Ok (n, d0) ∧ detach_if_attached d0 last = Ok d1
    ∧ append_child d1 n last = Ok d2 ∧ evolves 1 b.(document) d2 ∧ tg d2 n = Some t
    ∧ ¬ live b.(document) n ∧ ordered d2 (o1 ++ n :: last :: o2)
    ∧ (∀ y q, parent_edge d2 y q ↔ (parent_edge b.(document) y q ∧ y ≠ last) ∨ (y = last ∧ q = n)).
Proof.
  intros HL Hroom Ho Hlast Hord Hdt n. pose proof (lo_wf _ _ HL) as HW.
  destruct (create_evolves (document b) dt HW) as (d0 & Hc & E0 & Hn & Hnl & Hdet & Htn & Hpe0);
    [unfold room in Hroom; lia|]. fold n in Hc, Hnl, Hdet, Htn.
  assert (∀ y, ¬ parent_edge d0 y n) as Hleaf.
  { intros y Hy%Hpe0. by destruct (parent_edge_live _ _ _ HW Hy). }
  assert (last ≠ n) as Hln by (intros ->; by apply Hnl; eapply tg_live).
  assert (tg d0 last = Some tl) as Hlast0 by (by eapply ev_tag).
  destruct (detach_if_spec d0 last tl (ev_wf _ _ _ E0) Hlast0) as (d1 & Hd & E1 & Hdet1 & Ht1 & Hl1 & Hpe1);
    [by apply ordinary_not_frozen|].
  destruct (attach_evolves d1 n last None) as (d2 & Ha & E2 & Ht2 & Hl2 & Hpe2); try done.
  { apply E1. } { apply Hl1, Hdet. }
  { rewrite (ev_root _ _ _ E1), (ev_root _ _ _ E0). intros Hr. by apply Hnl, root_live. }
  { intros Hr. rewrite <-Ht1, (root_tg d1) in Hlast0; [done|apply E1|done]. }
  { intros Hanc. apply anc_top in Hanc; [done|]. intros p [Hp _]%Hpe1. by apply (proj2 Hdet p). }
  exists d0, d1, d2. split; [done|]. split; [done|]. split; [done|].
  split; [exact (evolves_trans _ _ _ _ _ E0 (evolves_trans _ _ _ _ _ E1 E2))|].
  split; [by rewrite Ht2, Ht1, Htn|]. split; [done|]. split.
  - change (o1 ++ n :: last :: o2) with (o1 ++ [n] ++ last :: o2). rewrite app_assoc.
    eapply (ordered_attach d1 d2 n last n); [done|set_solver|apply anc_refl|]. rewrite <-app_assoc.
    eapply (ordered_mono d0).
    { intros y z _ _. apply anc_mono. intros ? ?. rewrite Hpe1. tauto. }
    eapply ordered_replace; [done|done| |].
    2: { eapply (ordered_mono (document b)); [|rewrite <-Ho; apply HL].
         intros y z _ _. apply anc_mono. intros ? ?. by apply Hpe0. }
    rewrite <-Ho. intros Hin. apply Hnl. destruct (lo_elem _ _ HL _ Hin) as [? ?]. by eapply tg_live.
  - intros y q. rewrite Hpe2, Hpe1, Hpe0. done.
Qed.

(** ** The inner loop *)

(** Replacing the entry of [x] by one for [n], in the list and on the stack. *)
Lemma Loose_clone b last x n t a l1 l2 o1 o2 d2 exc :
  Loose last b → b.(open_elements) = o1 ++ x :: o2 →
  b.(active_formatting) = l1 ++ Formatting (x, t, a) :: l2 →
  evolves 1 b.(document) d2 → tg d2 n = Some t → ¬ live b.(document) n →
  ordered d2 (o1 ++ n :: o2) →
  (∀ y, y ∈ o1 ++ n :: o2 → y ≠ exc → ∃ p, parent_edge d2 y p) →
  Loose exc (set_document d2 (set_open (o1 ++ n :: o2) (set_afe (l1 ++ Formatting (n, t, a) :: l2) b))).
Proof.
  intros HL Ho Hafe E Htn Hnl Hord Hatt.
  assert (∀ y, afe_ids (l1 ++ Formatting (y, t, a) :: l2) = afe_ids l1 ++ y :: afe_ids l2) as Hids.
  { intros y. by rewrite afe_ids_app. }
  assert (n ∉ o1 ++ x :: o2) as Hno.
  { rewrite <-Ho. intros Hin. destruct (lo_elem _ _ HL _ Hin). by eapply Hnl, tg_live. }
  assert (n ∉ afe_ids l1 ++ x :: afe_ids l2) as Hni.
  { rewrite <-Hids, <-Hafe. intros (t' & a' & Hin)%elem_of_afe_ids.
    destruct (lo_afe _ _ HL _ _ _ Hin) as [? _]. by eapply Hnl, tg_live. }
  pose proof (lo_afe_nodup _ _ HL) as Hnd. rewrite Hafe, Hids in Hnd.
  assert (∀ id' t' a', Formatting (id', t', a') ∈ active_formatting b →
    tg d2 id' = Some t' ∧ t' ∈ FORMATTING_ELEMENTS) as Hold.
  { intros id' t' a' Hin. destruct (lo_afe _ _ HL _ _ _ Hin). split; [by eapply ev_tag|done]. }
  rewrite Hafe in Hold.
  split; cbn [document open_elements active_formatting form_element set_document set_open set_afe].
  - apply E.
  - intros y [Hy|[-> |Hy]%elem_of_cons]%elem_of_app; [|by exists t|].
    all: destruct (lo_elem _ _ HL y) as [ty Hty]; [rewrite Ho; set_solver|]; exists ty; by eapply ev_tag.
  - done.
  - done.
  - intros y r Hr Hy. rewrite (ev_root _ _ _ E) in Hr. eapply ev_tag; [exact E|].
    eapply (lo_top _ _ HL); [done|]. by eapply ev_top.
  - intros id' t' a' [Hin|[[= -> -> ->]|Hin]%elem_of_cons]%elem_of_app.
    + apply (Hold id' t' a'). set_solver.
    + split; [done|]. apply (Hold x t a). set_solver.
    + apply (Hold id' t' a'). set_solver.
  - rewrite Hids. by eapply NoDup_middle.
  - rewrite Hids. apply (clone_order _ _ _ _ x); [|done..|].
    + rewrite <-Ho. by eapply lo_nodup.
    + rewrite <-Ho, <-Hids, <-Hafe. apply HL.
  - intros f Hf. eapply ev_tag; [exact E|]. by apply (lo_form _ _ HL).
Qed.

Section inner.
Context (b0 : TreeBuilder) (pre : list NodeId) (fe : NodeId) (tag : list N) (a : Attrs).
Context (l1 : list AfeEntry) (fb : NodeId) (post : list NodeId).

(** [rem] is still to be visited, [mid] are the clones made so far. *)
Record inner_inv (rem : list NodeId) (s : Inner) (mid : list NodeId) (l2 : list AfeEntry) : Prop := {
  ii_open : s.(in_tb).(open_elements) = pre ++ fe :: rem ++ mid ++ fb :: post;
  ii_afe : s.(in_tb).(active_formatting) = l1 ++ Formatting (fe, tag, a) :: l2;
  ii_last : s.(in_last) = default fb (head mid);
  ii_mark : s.(in_bookmark) = match last mid with None => AtFormattingElement | Some c => AfterNode c end;
  ii_mid : Forall (ordinary_at s.(in_tb).(document)) mid;
  ii_entries : ∀ c, c ∈ mid → c ∈ afe_ids l2;
  ii_loose : Loose s.(in_last) s.(in_tb);
  ii_moves : moves (N.of_nat (s.(in_iterations) `min` 3)) 0 b0 s.(in_tb);
}.

(** An open entry above the formatting element comes later in the list. *)
Lemma entry_after rem s mid l2 x :
  inner_inv rem s mid l2 → x ∈ rem ++ mid ++ fb :: post → x ∈ afe_ids s.(in_tb).(active_formatting) →
  x ∈ afe_ids l2 ∧ x ∉ afe_ids l1 ∧ x ≠ fe.
Proof.
  intros II Hx Hin. pose proof (ii_loose _ _ _ _ II) as HL. pose proof (lo_nodup _ _ HL) as Hnd.
  pose proof (lo_afe_order _ _ HL) as Hs. pose proof (lo_afe_nodup _ _ HL) as Hni.
  rewrite (ii_afe _ _ _ _ II), (ii_open _ _ _ _ II) in *. rewrite afe_ids_app in *.
  change (afe_ids (Formatting (fe, tag, a) :: l2)) with (fe :: afe_ids l2) in *.
  rewrite filter_app, filter_cons_True in Hs by set_solver. apply sublist_split in Hs as [H1 _]; [|done].
  apply NoDup_app in Hnd as (_ & Hd & [Hfe _]%NoDup_cons).
  assert (x ≠ fe) as Hxf by (by intros ->). assert (x ∉ afe_ids l1) as Hx1; [|set_solver].
  intros Hx1. assert (x ∈ pre) as Hxp.
  { eapply elem_of_sublist; [|exact H1]. apply list_elem_of_filter. set_solver. }
  by apply (Hd x Hxp); right.
Qed.

(** Dropping the visited node from the stack, and perhaps its entry from the list. *)
Lemma inner_drop rem node s mid l2 l2' :
  inner_inv (rem ++ [node]) s mid l2 → l2' `sublist_of` l2 → (∀ c, c ∈ mid → c ∈ afe_ids l2') →
  ∃ b', remove_from_stack (set_afe (l1 ++ Formatting (fe, tag, a) :: l2') s.(in_tb)) node = Ok b'
    ∧ inner_inv rem (MkInner b' s.(in_bookmark) s.(in_last) (S s.(in_iterations))) mid l2'.
Proof.
  intros II Hsub Hmid. destruct II. set (b1 := set_afe _ _).
  assert ((l1 ++ Formatting (fe, tag, a) :: l2') `sublist_of` active_formatting (in_tb s)) as Hs.
  { rewrite ii_afe0. apply sublist_app; [done|]. by constructor. }
  assert (Loose (in_last s) b1) as HL1 by by apply Loose_afe.
  assert (open_elements b1 = (pre ++ fe :: rem) ++ node :: mid ++ fb :: post) as Ho1.
  { cbn. rewrite ii_open0. by rewrite <-!app_assoc. }
  rewrite (remove_from_stack_spec b1 _ _ _ (lo_nodup _ _ HL1) Ho1). eexists; split; [done|].
  split; cbn; try done.
  - by rewrite <-app_assoc.
  - apply (Loose_open _ b1); [|done]. rewrite Ho1. apply sublist_app; [done|]. by constructor.
  - apply (moves_weaken (N.of_nat (in_iterations s `min` 3)) _ 0 0); [lia|lia|].
    destruct ii_moves0. split; try done. apply sublist_length in Hs. cbn in *. lia.
Qed.

(** Cloning the visited node. *)
Lemma inner_clone rem node s mid l2 :
  inner_inv (rem ++ [node]) s mid l2 → room 3 b0 → ordinary_at s.(in_tb).(document) fb →
  S s.(in_iterations) ≤ 3 → node ∈ afe_ids s.(in_tb).(active_formatting) →
  ∃ s' n l2', adoption_inner fb s node = Ok s' ∧ inner_inv rem s' (n :: mid) l2'.
Proof.
  intros II Hroom Hfb Hit Hin.
  destruct (entry_after (rem ++ [node]) s mid l2 node II) as (Hin2 & Hn1 & Hnfe); [set_solver|done|].
  pose proof (ii_loose _ _ _ _ II) as HL.
  apply elem_of_afe_ids in Hin2 as (t & at' & (k1 & k2 & ->)%list_elem_of_split).
  set (b := in_tb s) in *. set (la := in_last s) in *.
  assert (active_formatting b = (l1 ++ Formatting (fe, tag, a) :: k1) ++ Formatting (node, t, at') :: k2) as Hafe.
  { unfold b. rewrite (ii_afe _ _ _ _ II). by rewrite <-app_assoc. }
  assert (node ∉ afe_ids (l1 ++ Formatting (fe, tag, a) :: k1)) as Hpos.
  { pose proof (lo_afe_nodup _ _ HL) as Hnd. rewrite Hafe, afe_ids_app in Hnd.
    apply NoDup_app in Hnd as (_ & Hd & _). intros H. by apply (Hd node H); left. }
  assert (∃ tl o2, la :: o2 = mid ++ fb :: post ∧ tg (document b) la = Some tl ∧ ordinary tl) as (tl & o2 & Ho2 & Htl & Hol).
  { unfold la. rewrite (ii_last _ _ _ _ II). pose proof (ii_mid _ _ _ _ II) as Hmid.
    destruct mid as [|c mid]; cbn.
    - destruct Hfb as (tl & ? & ?). by exists tl, post.
    - apply Forall_cons in Hmid as [(tl & ? & ?) _]. by exists tl, (mid ++ fb :: post). }
  assert (open_elements b = (pre ++ fe :: rem) ++ node :: la :: o2) as Ho.
  { unfold b. rewrite (ii_open _ _ _ _ II), Ho2. by rewrite <-!app_assoc. }
  assert (room 1 b) as Hr1.
  { pose proof (ev_next _ _ _ (mv_doc _ _ _ _ (ii_moves _ _ _ _ II))) as Hnx. fold b in Hnx. unfold room in *. lia. }
  destruct (clone_document b node la t tl (pre ++ fe :: rem) o2 (NElement t at')) as
    (d0 & d1 & d2 & Hc & Hd & Ha & E & Htn & Hnl & Hord & Hpe); try done.
  set (n := next_node_id (document b)) in *.
  unfold adoption_inner. fold b. fold la. rewrite Hafe.
  rewrite position_middle; [|by apply entry_is_ids|by apply N.eqb_refl].
  destruct (Nat.ltb_spec 3 (S (in_iterations s))) as [|_]; [lia|].
  unfold afe_formatting_at. rewrite Hafe, list_lookup_middle by done. cbn [unwrap mbind res_bind].
  rewrite Hc. cbn [mbind res_bind active_formatting set_document document]. rewrite Hafe, vec_set_middle.
  cbn [mbind res_bind]. unfold stack_pos_of. cbn [open_elements set_afe set_document]. rewrite Ho.
  pose proof (lo_nodup _ _ HL) as Hno. rewrite Ho in Hno.
  rewrite position_middle.
  2: { apply NoDup_app in Hno as (_ & Hd' & _). apply Forall_forall. intros y Hy. apply N.eqb_neq.
       intros ->. by apply (Hd' node Hy); left. }
  2: { by apply N.eqb_refl. }
  rewrite vec_set_middle. cbn [mbind res_bind document set_open set_afe set_document]. rewrite Hd.
  cbn [mbind res_bind]. rewrite Ha. cbn [mbind res_bind]. eexists _, n, _. split; [done|].
  pose proof (moves_trans _ _ _ _ _ _ _ (ii_moves _ _ _ _ II) (moves_document 1 b d2 E)) as Hmv.
  assert (n ≠ la) as Hnla by (intros Heq; apply Hnl; rewrite Heq; by eapply tg_live).
  split; cbn [in_tb in_last in_bookmark in_iterations open_elements active_formatting document
    set_document set_open set_afe].
  - rewrite Ho2. by rewrite <-!app_assoc.
  - by rewrite <-app_assoc.
  - done.
  - rewrite last_cons. unfold la. rewrite (ii_last _ _ _ _ II), (ii_mark _ _ _ _ II). clear -Hno Ho2 II.
    destruct mid as [|c mid]; cbn [head from_option]; unfold id; [by rewrite N.eqb_refl|].
    destruct (N.eqb_spec c fb) as [->|_]; [|by destruct (last_cons_some mid c) as [y ->]].
    exfalso. rewrite Ho2 in Hno. apply NoDup_app in Hno as (_ & _ & Hno). apply NoDup_cons in Hno as [_ Hno].
    apply NoDup_cons in Hno as [Hno _]. set_solver.
  - apply Forall_cons. split.
    + exists t. split; [done|]. apply formatting_ordinary, (lo_afe _ _ HL node t at'). rewrite Hafe. set_solver.
    + eapply Forall_impl; [exact (ii_mid _ _ _ _ II)|]. intros y. by apply (ordinary_evolves 1).
  - intros c [-> |Hc']%elem_of_cons; [rewrite afe_ids_app; cbn; set_solver|].
    apply (ii_entries _ _ _ _ II) in Hc' as Hc2. rewrite afe_ids_app in *. cbn in Hc2 |- *.
    assert (c ≠ node); [|set_solver]. intros ->. apply NoDup_app in Hno as (_ & _ & [Hno _]%NoDup_cons).
    rewrite Ho2 in Hno. set_solver.
  - eapply (Loose_clone b la node n t at' (l1 ++ Formatting (fe, tag, a) :: k1) k2); try done.
    intros y Hy Hyn. destruct (decide (y = la)) as [->|Hyl]; [exists n; apply Hpe; by right|].
    destruct (lo_attached _ _ HL y) as [p Hp]; [rewrite Ho; set_solver|done|].
    exists p. apply Hpe. by left.
  - replace (N.of_nat (S (in_iterations s) `min` 3)) with (N.of_nat (in_iterations s `min` 3) + 1)%N by lia.
    destruct Hmv. split; try done. cbn in *. rewrite Hafe in *. rewrite !length_app in *. cbn in *. lia.
Qed.

Lemma adoption_inner_step rem node s mid l2 :
  inner_inv (rem ++ [node]) s mid l2 → room 3 b0 → ordinary_at s.(in_tb).(document) fb →
  ∃ s' mid' l2', adoption_inner fb s node = Ok s' ∧ inner_inv rem s' mid' l2'.
Proof.
  intros II Hroom Hfb. pose proof (ii_afe _ _ _ _ II) as Hafe.
  destruct (position (entry_is node) (active_formatting (in_tb s))) as [p|] eqn:Ep.
  - pose proof Ep as Ep0. apply position_Some in Ep as (p1 & e & p2 & Hl & <- & He & Hp1).
    assert (node ∈ afe_ids (active_formatting (in_tb s))) as Hin.
    { rewrite Hl, afe_ids_app. apply entry_is_spec in He. unfold afe_ids. csimpl. rewrite He. set_solver. }
    destruct (decide (S (in_iterations s) ≤ 3)) as [Hit|Hit].
    { destruct (inner_clone rem node s mid l2 II Hroom Hfb Hit Hin) as (s' & n & l2' & ? & ?). eauto. }
    destruct (entry_after (rem ++ [node]) s mid l2 node II) as (Hin2 & Hn1 & Hnfe); [set_solver|done|].
    apply elem_of_afe_ids in Hin2 as (t & at' & (k1 & k2 & ->)%list_elem_of_split).
    rewrite app_comm_cons, app_assoc in Hafe.
    assert (length p1 = length (l1 ++ Formatting (fe, tag, a) :: k1)) as Hlen.
    { rewrite Hafe, position_middle in Ep0; [congruence| |by apply N.eqb_refl].
      apply entry_is_ids. pose proof (lo_afe_nodup _ _ (ii_loose _ _ _ _ II)) as Hnd.
      rewrite Hafe, afe_ids_app in Hnd. apply NoDup_app in Hnd as (_ & Hd & _).
      intros H. by apply (Hd node H); left. }
    destruct (inner_drop rem node s mid (k1 ++ Formatting (node, t, at') :: k2) (k1 ++ k2) II) as (b' & Hb' & II').
    + apply sublist_app; [done|]. by constructor.
    + intros c Hc. apply (ii_entries _ _ _ _ II) in Hc as Hc2. rewrite afe_ids_app in *. cbn in Hc2.
      assert (c ≠ node); [|set_solver]. intros ->.
      pose proof (lo_nodup _ _ (ii_loose _ _ _ _ II)) as Hno. rewrite (ii_open _ _ _ _ II) in Hno.
      apply NoDup_app in Hno as (_ & _ & Hno). apply NoDup_cons in Hno as [_ Hno].
      rewrite <-app_assoc in Hno. apply NoDup_app in Hno as (_ & _ & Hno). cbn in Hno. apply NoDup_cons in Hno. set_solver.
    + unfold adoption_inner. rewrite Ep0. destruct (Nat.ltb_spec 3 (S (in_iterations s))) as [_|]; [|lia].
      rewrite Hafe, Hlen, vec_remove_middle. cbn [mbind res_bind]. rewrite <-app_assoc. cbn [app].
      rewrite Hb'. cbn. eauto.
  - destruct (inner_drop rem node s mid l2 l2 II) as (b' & Hb' & II'); [done|apply II|].
    unfold adoption_inner. rewrite Ep. rewrite <-Hafe in Hb'.
    replace (set_afe (active_formatting (in_tb s)) (in_tb s)) with (in_tb s) in Hb' by (by destruct (in_tb s)).
    rewrite Hb'. cbn. eauto.
Qed.

Lemma adoption_inner_loop rem : ∀ s mid l2,
  inner_inv rem s mid l2 → room 3 b0 → ordinary_at b0.(document) fb →
  ∃ s' mid' l2', for_each (adoption_inner fb) s (rev rem) = Ok s' ∧ inner_inv [] s' mid' l2'.
Proof.
  induction rem as [|node rem IH] using rev_ind; intros s mid l2 II Hroom Hfb; [by exists s, mid, l2|].
  rewrite rev_snoc. cbn [for_each].
  destruct (adoption_inner_step rem node s mid l2) as (s1 & mid1 & l21 & -> & II1); [done..| |].
  { eapply ordinary_evolves; [apply II|done]. }
  cbn [mbind res_bind]. by eapply IH.
Qed.
End inner.

(** ** Putting the last node in place *)
Lemma foster_target_table b :
  (∀ x, x ∈ b.(open_elements) → live b.(document) x) →
  (∃ x, x ∈ b.(open_elements) ∧ tg b.(document) x = Some (str "table")) →
  (∀ x, x ∈ b.(open_elements) → tg b.(document) x = Some (str "table") → ∃ p, parent_edge b.(document) x p) →
  ∃ t p, foster_parent_target b = Ok (p, Some t) ∧ t ∈ b.(open_elements)
    ∧ tg b.(document) t = Some (str "table") ∧ parent_edge b.(document) t p.
Proof.
  intros Hl (x & Hx & Htx) Hp. unfold foster_parent_target.
  destruct (find_tag_spec b.(document) "table" (rev b.(open_elements))) as (o & -> & Ho).
  { intros y Hy. apply Hl. by rewrite elem_of_rev in Hy. }
  cbn [mbind res_bind]. destruct o as [t|]; [|exfalso; apply (Ho x); [by rewrite elem_of_rev|done]].
  destruct Ho as [Ht Htt]. rewrite elem_of_rev in Ht. destruct (Hp t Ht Htt) as [p Htp].
  rewrite (parent_of_edge _ _ _ Htp). cbn. eauto 10.
Qed.

(** [last] goes under [p], which is an ancestor of a node listed before it. *)
Lemma place_document b d1 o1 o2 la tl p q ref :
  Loose la b → b.(open_elements) = o1 ++ la :: o2 → tg b.(document) la = Some tl →
  evolves 0 b.(document) d1 → detached d1 la → (∀ x, tg d1 x = tg b.(document) x) →
  (∀ x r, parent_edge d1 x r ↔ parent_edge b.(document) x r ∧ x ≠ la) →
  q ∈ o1 → anc d1 p q → live d1 p → d1.(doc_root) ≠ Some p →
  (∀ r, ref = Some r → parent_edge d1 r p) →
  ∃ d2, insert_before d1 p la ref = Ok d2 ∧ evolves 0 b.(document) d2 ∧ Core (set_document d2 b).
Proof.
  intros HL Ho Htl E1 Hdet Htg Hpe Hq Hpq Hlp Hrp Href.
  assert (ordered d1 (o1 ++ la :: o2)) as Ho1.
  { eapply (ordered_mono (document b)); [|rewrite <-Ho; apply HL]. intros y z _ _. apply anc_mono.
    intros ? ?. rewrite Hpe. tauto. }
  destruct (attach_evolves d1 p la ref) as (d2 & -> & E2 & Ht2 & Hl2 & Hpe2); try done.
  { apply E1. }
  { intros Hr. rewrite <-Htg, (root_tg d1) in Htl; [done|apply E1|done]. }
  { intros Ha. pose proof Ho1 as (Hx & _)%ordered_app. eapply (Hx q la); [done|by left|]. by eapply anc_trans. }
  exists d2. split; [done|]. pose proof (evolves_trans _ _ _ _ _ E1 E2) as E. split; [exact E|].
  assert (∀ y, y ∈ open_elements b → ∃ r, parent_edge d2 y r) as Hatt.
  { intros y Hy. destruct (decide (y = la)) as [->|Hyl]; [exists p; apply Hpe2; by right|].
    destruct (lo_attached _ _ HL y Hy Hyl) as [r Hr]. exists r. apply Hpe2. left. by apply Hpe. }
  destruct HL. split; cbn; try done.
  - apply E.
  - intros y [t Ht]%lo_elem0. exists t. by eapply ev_tag.
  - rewrite Ho. eapply ordered_attach; [|exact Hq|exact Hpq|done]. done.
  - intros y r Hr Hy. rewrite (ev_root _ _ _ E) in Hr. eapply ev_tag; [exact E|].
    eapply lo_top0; [done|]. by eapply ev_top.
  - intros id t at' [Ht ?]%lo_afe0. split; [by eapply ev_tag|done].
  - intros f Hf. eapply ev_tag; [exact E|]. auto.
Qed.

Lemma place_last_node_spec b o1 ca o2 o3 la tl :
  Loose la b → b.(open_elements) = o1 ++ ca :: o2 ++ la :: o3 →
  Forall (ordinary_at b.(document)) (o2 ++ la :: o3) → tg b.(document) la = Some tl → ordinary tl →
  tabled b.(document) (o1 ++ [ca]) →
  ∃ d, place_last_node b ca la = Ok (set_document d b) ∧ Core (set_document d b)
    ∧ evolves 0 b.(document) d.
Proof.
  intros HL Ho Hord Htl Hol Htab. unfold place_last_node.
  destruct (detach_if_spec (document b) la tl (lo_wf _ _ HL) Htl) as (d1 & -> & E1 & Hdet & Ht1 & Hl1 & Hpe1);
    [by apply ordinary_not_frozen|]. cbn [mbind res_bind].
  assert (ca ∈ open_elements b) as Hca by (rewrite Ho; set_solver).
  destruct (lo_elem _ _ HL ca Hca) as [tca Htca].
  assert (open_elements b = (o1 ++ ca :: o2) ++ la :: o3) as Ho' by (rewrite Ho; by rewrite <-app_assoc).
  unfold is_table_context. rewrite (tag_of_tg d1 ca tca) by (by rewrite Ht1). cbn [mbind res_bind].
  destruct (one_of tca _) eqn:Etc.
  - destruct (Htab ca tca) as (y & Hy & Hty); [set_solver|done|done|].
    destruct (foster_target_table (set_foster true (set_document d1 b))) as (t & p & -> & Ht & Htt & Hp);
      cbn [open_elements set_foster set_document document mbind res_bind].
    + intros x Hx. apply Hl1. destruct (lo_elem _ _ HL x Hx). by eapply tg_live.
    + exists y. rewrite Ht1. split; [|done]. rewrite Ho. set_solver.
    + intros x Hx. rewrite Ht1. intros Htx. assert (x ≠ la) as Hxl.
      { intros ->. rewrite Htl in Htx. injection Htx as ->. apply Hol, among_spec. reflexivity. }
      destruct (lo_attached _ _ HL x Hx Hxl) as [r Hr]. exists r. by apply Hpe1.
    + cbn in Ht, Htt, Hp. rewrite Ht1 in Htt.
      assert (t ∈ o1 ++ ca :: o2) as Htp.
      { rewrite Ho' in Ht. apply elem_of_app in Ht as [?|Ht]; [done|]. exfalso.
        rewrite Forall_forall in Hord. destruct (Hord t) as (tt & Htt' & Hot); [set_solver|].
        rewrite Htt in Htt'. injection Htt' as <-. apply Hot, among_spec. reflexivity. }
      destruct (place_document b d1 (o1 ++ ca :: o2) o3 la tl p t (Some t)) as (d2 & -> & E2 & HC2); try done.
      * by apply anc_parent.
      * by apply (parent_edge_live d1 t p (ev_wf _ _ _ E1)).
      * intros Hr. apply Hpe1 in Hp as [Hp _]. rewrite (ev_root _ _ _ E1) in Hr.
        rewrite (lo_top _ _ HL _ _ Hr Hp) in Htt. discriminate Htt.
      * by intros r [= <-].
      * cbn. exists d2. split; [by destruct b|]. done.
  - destruct (place_document b d1 (o1 ++ ca :: o2) o3 la tl ca ca None) as (d2 & Hd2 & E2 & HC2); try done.
    * set_solver.
    * apply anc_refl.
    * apply Hl1. by eapply tg_live.
    * intros Hr. rewrite <-Ht1, (root_tg d1) in Htca; [done|apply E1|done].
    * cbn in Hd2 |- *. rewrite Hd2. cbn. exists d2. done.
Qed.

(** ** A new formatting element around the children of the furthest block *)
Lemma children_parents d f :
  WF d → live d f → ∃ kids, children d f = Ok kids ∧ NoDup kids ∧ ∀ x, x ∈ kids ↔ parent_edge d x f.
Proof.
  intros [K HR] Hf. exists (K f). split; [exact (children_K _ _ f HR Hf)|]. split; [apply HR|].
  intros x. by rewrite (rep_parent_edge _ _ HR).
Qed.

Lemma wrap_order d d2 n f o1 o2 :
  WF d → WF d2 → ¬ live d n → n ≠ f →
  (∀ x q, parent_edge d2 x q ↔
     (¬ parent_edge d x f ∧ parent_edge d x q) ∨ (parent_edge d x f ∧ q = n) ∨ (x = n ∧ q = f)) →
  n ∉ o1 ++ f :: o2 → ordered d (o1 ++ f :: o2) → ordered d2 (o1 ++ f :: n :: o2).
Proof.
  intros HW HW2 Hnl Hnf Hpe Hn Ho. set (π := λ x, if decide (x = n) then f else x).
  assert (∀ x, ¬ parent_edge d n x) as Hn1 by (intros x Hx; by destruct (parent_edge_live _ _ _ HW Hx)).
  assert (∀ x, ¬ parent_edge d x n) as Hn2 by (intros x Hx; by destruct (parent_edge_live _ _ _ HW Hx)).
  assert (∀ x y, anc d2 y x → anc d (π y) (π x)) as Hπ.
  { intros x y. unfold inclusive_ancestor. induction 1 as [x|x z y Hxz _ IH]; [apply rtc_refl|].
    etrans; [|exact IH]. apply Hpe in Hxz as [[Hnx Hxz]|[[Hxf ->]|[-> ->]]]; unfold π.
    - rewrite !decide_False; [by apply rtc_once|intros ->; by apply (Hn2 x)|intros ->; by apply (Hn1 z)].
    - rewrite decide_False by (intros ->; by apply (Hn1 f)). rewrite decide_True by done. by apply rtc_once.
    - rewrite decide_True, decide_False by done. apply rtc_refl. }
  assert (∀ x, x ≠ n → π x = x) as Hid by (intros x Hx; unfold π; by rewrite decide_False).
  assert (π n = f) as Hpn by (unfold π; by rewrite decide_True).
  assert (ordered d2 (o1 ++ f :: o2)) as Ho2.
  { eapply (ordered_mono d); [|done]. intros x y Hx Hy Ha. apply Hπ in Ha.
    by rewrite !Hid in Ha by (intros ->; done). }
  pose proof Ho as (Hx1 & _ & (Hf1 & _)%ordered_cons)%ordered_app.
  pose proof Ho2 as (Hx2 & Ho21 & (Hf2 & Ho22)%ordered_cons)%ordered_app.
  apply ordered_app. split; [|split; [done|]].
  - intros x y Hx [-> |[-> |Hy]%elem_of_cons]%elem_of_cons; [by apply Hx2; [|left]| |by apply Hx2; [|right]].
    intros Ha. apply Hπ in Ha. rewrite Hpn, Hid in Ha by (intros ->; set_solver).
    eapply (Hx1 x f); [done|by left|done].
  - apply ordered_cons. split.
    + intros y [-> |Hy]%elem_of_cons; [|by apply Hf2]. intros Ha. apply Hnf.
      eapply anc_antisym; [exact HW2|exact Ha|]. apply anc_parent, Hpe. tauto.
    + apply ordered_cons. split; [|done]. intros y Hy Ha. apply Hπ in Ha.
      rewrite Hpn, Hid in Ha by (intros ->; set_solver). by apply (Hf1 y).
Qed.

(** No new ancestor of [f] comes from moving its children below [n]. *)
Lemma wrap_acyclic d0 d1 n f (kids : list NodeId) :
  WF d0 → (∀ y, ¬ parent_edge d0 y n) → n ≠ f → (∀ x, x ∈ kids ↔ parent_edge d0 x f) →
  (∀ x q, parent_edge d1 x q ↔ (x ∉ kids ∧ parent_edge d0 x q) ∨ (x ∈ kids ∧ q = n)) →
  ¬ anc d1 n f.
Proof.
  intros HW Hn Hnf Hkids Hpe.
  assert (∀ x, anc d0 x f → x ∉ kids) as Hnk.
  { intros x Hx Hk%Hkids. pose proof (anc_antisym _ _ _ HW Hx (anc_parent _ _ _ Hk)) as ->.
    destruct HW as [K HR]. apply (rep_parent_edge _ _ HR) in Hk.
    apply (rep_acyclic _ _ HR f). by apply tc_once. }
  assert (∀ z, rtc (parent_edge d1) f z → z ≠ n ∧ anc d0 z f) as Hup.
  { apply rtc_ind_r; [split; [done|apply anc_refl]|]. intros z w _ Hzw [_ Hz].
    apply Hpe in Hzw as [[_ Hzw]|[Hk _]]; [|by apply Hnk in Hz]. split; [by intros ->; apply (Hn z)|].
    eapply anc_trans; [|exact Hz]. by apply anc_parent. }
  intros Ha. by apply Hup in Ha as [? _].
Qed.

Lemma wrap_document b o1 o2 f tf dt t :
  Core b → room 1 b → b.(open_elements) = o1 ++ f :: o2 → tg b.(document) f = Some tf → ordinary tf →
  tag_at dt = Some t →
  let n := next_node_id b.(document) in
  ∃ d0 kids d1 d2, create_node b.(document) dt = Ok (n, d0) ∧ children d0 f = Ok kids
    ∧ for_each (move_child n) d0 kids = Ok d1 ∧ append_child d1 f n = Ok d2
    ∧ evolves 1 b.(document) d2 ∧ tg d2 n = Some t ∧ ¬ live b.(document) n
    ∧ ordered d2 (o1 ++ f :: n :: o2)
    ∧ ∀ x, x ∈ o1 ++ f :: n :: o2 → ∃ p, parent_edge d2 x p.
Proof.
  intros HC Hroom Ho Htf Hof Hdt n. pose proof (co_wf _ HC) as HW.
  destruct (create_evolves (document b) dt HW) as (d0 & Hc & E0 & Hn & Hnl & Hdet & Htn & Hpe0);
    [unfold room in Hroom; lia|]. fold n in Hc, Hnl, Hdet, Htn.
  assert (tg d0 f = Some tf) as Htf0 by (by eapply ev_tag).
  assert (n ≠ f) as Hnf by (intros ->; by eapply Hnl, tg_live).
  destruct (children_parents d0 f (ev_wf _ _ _ E0)) as (kids & Hk & Hknd & Hkids); [by eapply tg_live|].
  assert (d0.(doc_root) ≠ Some n) as Hrn.
  { rewrite (ev_root _ _ _ E0). intros Hr. by apply Hnl, root_live. }
  assert (d0.(doc_root) ≠ Some f) as Hrf.
  { intros Hr. rewrite (root_tg d0) in Htf0; [done|apply E0|done]. }
  destruct (move_children_spec n f kids d0) as (d1 & Hm & E1 & Ht1 & Hl1 & Hpe1); try done.
  { apply E0. } { rewrite Htf0. intros [= ->]. apply Hof, among_spec. reflexivity. }
  { intros c Hc'. apply Hkids in Hc'. split; [done|]. intros ->. by apply (proj2 Hdet f). }
  assert (∀ p, ¬ parent_edge d1 n p) as Htop.
  { intros p [[_ Hp]|[Hin _]]%Hpe1; [by apply (proj2 Hdet p)|]. apply Hkids in Hin. by apply (proj2 Hdet f). }
  destruct (attach_evolves d1 f n None) as (d2 & Ha & E2 & Ht2 & Hl2 & Hpe2); try done.
  { apply E1. } { apply Hl1. by eapply tg_live. } { by rewrite (ev_root _ _ _ E1). }
  { split; [apply Hl1, Hdet|done]. } { by rewrite (ev_root _ _ _ E1). }
  { apply (wrap_acyclic d0 d1 n f kids); try done; [apply E0|]. intros y Hy%Hpe0.
    by destruct (parent_edge_live _ _ _ HW Hy). }
  exists d0, kids, d1, d2. split_and!; try done.
  - exact (evolves_trans _ _ _ _ _ E0 (evolves_trans _ _ _ _ _ E1 E2)).
  - by rewrite Ht2, Ht1, Htn.
  - apply (wrap_order (document b) d2 n f); try done.
    + apply E2.
    + intros x q. rewrite Hpe2, Hpe1, Hkids, !Hpe0. tauto.
    + rewrite <-Ho. intros Hin. by apply Hnl, co_live.
    + rewrite <-Ho. apply HC.
  - intros x Hx. destruct (decide (x = n)) as [->|Hxn]; [exists f; apply Hpe2; by right|].
    destruct (co_attached _ HC x) as [p Hp]; [rewrite Ho; set_solver|]. apply Hpe0 in Hp.
    destruct (decide (x ∈ kids)); [exists n|exists p]; apply Hpe2; left; apply Hpe1; tauto.
Qed.

(** ** The bookmark *)
Lemma ids_not_in_prefix (l1 l2 : list AfeEntry) x t a :
  NoDup (afe_ids (l1 ++ Formatting (x, t, a) :: l2)) → Forall (λ e, entry_is x e = false) l1.
Proof.
  rewrite afe_ids_app. intros (_ & Hd & _)%NoDup_app. apply entry_is_ids. intros H. by apply (Hd x H); left.
Qed.

(** The new entry takes the old one's place, or goes right after the last clone's entry. *)
Lemma move_to_bookmark_spec l1 l2 fe t a (mid : list NodeId) e :
  NoDup (afe_ids (l1 ++ Formatting (fe, t, a) :: l2)) → (∀ c, c ∈ mid → c ∈ afe_ids l2) →
  ∃ ea eb,
    move_to_bookmark (l1 ++ Formatting (fe, t, a) :: l2)
      match last mid with None => AtFormattingElement | Some c => AfterNode c end (length l1) fe e
    = Ok (ea ++ e :: eb)
    ∧ match last mid with
      | None => ea = l1 ∧ eb = l2
      | Some c => ∃ k1 tc ac, l2 = k1 ++ Formatting (c, tc, ac) :: eb
                    ∧ ea = l1 ++ k1 ++ [Formatting (c, tc, ac)]
      end.
Proof.
  intros Hnd Hmid. pose proof (ids_not_in_prefix _ _ _ _ _ Hnd) as Hfe. unfold move_to_bookmark.
  rewrite (position_middle (entry_is fe) l1); [|done|by apply N.eqb_refl]. cbn [unwrap mbind res_bind].
  rewrite vec_remove_middle. cbn [mbind res_bind].
  destruct (last mid) as [c|] eqn:El.
  - assert (c ∈ afe_ids l2) as (tc & ac & (k1 & k2 & ->)%list_elem_of_split)%elem_of_afe_ids.
    { apply Hmid. apply last_Some in El as [m ->]. set_solver. }
    exists (l1 ++ k1 ++ [Formatting (c, tc, ac)]), k2. split; [|by exists k1, tc, ac].
    change (l1 ++ Formatting (fe, t, a) :: k1 ++ Formatting (c, tc, ac) :: k2)
      with (l1 ++ (Formatting (fe, t, a) :: k1) ++ Formatting (c, tc, ac) :: k2) in *.
    rewrite app_assoc in *. rewrite position_middle; [|by eapply ids_not_in_prefix|by apply N.eqb_refl].
    set (ea := l1 ++ k1 ++ [Formatting (c, tc, ac)]).
    assert (length (l1 ++ Formatting (fe, t, a) :: k1) + 1 = S (length ea)) as ->.
    { unfold ea. rewrite !length_app. cbn. lia. }
    destruct (Nat.ltb_spec (length l1) (S (length ea))) as [_|Hge].
    2: { unfold ea in Hge. rewrite !length_app in Hge. lia. }
    replace (S (length ea) - 1) with (length ea) by lia.
    replace (l1 ++ k1 ++ Formatting (c, tc, ac) :: k2) with (ea ++ k2) by (unfold ea; by rewrite <-!app_assoc).
    rewrite Nat.min_l by (rewrite length_app; lia). by rewrite vec_insert_middle.
  - exists l1, l2. split; [|done]. rewrite Nat.ltb_irrefl, Nat.min_l by (rewrite length_app; lia).
    by rewrite vec_insert_middle.
Qed.

(** Where the open entries around the bookmark stand on the stack. *)
Lemma bookmark_order pre fe mid fb post l1 l2 t a ea eb :
  let o := pre ++ fe :: mid ++ fb :: post in
  NoDup o → NoDup (afe_ids (l1 ++ Formatting (fe, t, a) :: l2)) → fb ∉ afe_ids l2 →
  (∀ c, c ∈ mid → c ∈ afe_ids l2) →
  filter (.∈ o) (afe_ids (l1 ++ Formatting (fe, t, a) :: l2)) `sublist_of` o →
  match last mid with
  | None => ea = l1 ∧ eb = l2
  | Some c => ∃ k1 tc ac, l2 = k1 ++ Formatting (c, tc, ac) :: eb
                ∧ ea = l1 ++ k1 ++ [Formatting (c, tc, ac)]
  end →
  filter (.∈ o) (afe_ids ea) `sublist_of` (pre ++ mid) ∧ filter (.∈ o) (afe_ids eb) `sublist_of` post.
Proof.
  intros o Hno Hni Hfb Hmid. rewrite afe_ids_app, filter_app.
  change (afe_ids (Formatting (fe, t, a) :: l2)) with (fe :: afe_ids l2).
  rewrite filter_cons_True by set_solver. intros Hs.
  apply sublist_split in Hs as [H1 H2]; [|done].
  assert (filter (.∈ o) (afe_ids l2) `sublist_of` (mid ++ post)) as H3.
  { apply (sublist_skip _ _ _ fb); [|done]. rewrite list_elem_of_filter. tauto. }
  assert (NoDup (mid ++ post)) as Hnm.
  { eapply sublist_NoDup; [exact Hno|]. apply sublist_inserts_l. constructor.
    apply sublist_app; [done|]. by constructor. }
  destruct (last mid) as [c|] eqn:El.
  - intros (k1 & tc & ac & -> & ->). apply last_Some in El as [m ->].
    rewrite !afe_ids_app, !filter_app in *.
    change (afe_ids (Formatting (c, tc, ac) :: eb)) with (c :: afe_ids eb) in *.
    change (afe_ids [Formatting (c, tc, ac)]) with [c] in *.
    rewrite filter_cons_True in H3 by set_solver. rewrite filter_cons_True by set_solver.
    rewrite <-app_assoc in H3, Hnm. apply sublist_split in H3 as [H4 H5]; [|done]. split; [|done].
    apply sublist_app; [done|]. by apply sublist_app.
  - intros [-> ->]. apply last_None in El as ->. split; [|done]. by apply sublist_inserts_r.
Qed.

Lemma Core_adopt b pre fe mid fb post ea n tag a eb d2 :
  Core b → b.(open_elements) = pre ++ fe :: mid ++ fb :: post →
  (ea ++ eb) `sublist_of` b.(active_formatting) → fe ∉ afe_ids ea → fe ∉ afe_ids eb →
  fb ∉ afe_ids ea → fb ∉ afe_ids eb →
  filter (.∈ b.(open_elements)) (afe_ids ea) `sublist_of` (pre ++ mid) →
  filter (.∈ b.(open_elements)) (afe_ids eb) `sublist_of` post →
  tag ∈ FORMATTING_ELEMENTS →
  evolves 1 b.(document) d2 → tg d2 n = Some tag → ¬ live b.(document) n →
  ordered d2 ((pre ++ fe :: mid) ++ fb :: n :: post) →
  (∀ x, x ∈ (pre ++ fe :: mid) ++ fb :: n :: post → ∃ p, parent_edge d2 x p) →
  Core (set_open (pre ++ mid ++ fb :: n :: post)
          (set_afe (ea ++ Formatting (n, tag, a) :: eb) (set_document d2 b))).
Proof.
  intros HC Ho Hsub Hf1 Hf2 Hb1 Hb2 Hord1 Hord2 Htag E Htn Hnl Hordd Hatt.
  pose proof (Core_afe b _ Hsub HC) as HC1.
  assert (n ∉ open_elements b) as Hno by (intros Hin; by apply Hnl, co_live).
  assert (n ∉ afe_ids (ea ++ eb)) as Hni by (intros Hin; by apply Hnl, (co_afe_live _ _ HC1)).
  assert (∀ x, x ∈ pre ++ mid ++ fb :: n :: post → x = n ∨ x ∈ open_elements b) as Hin by (rewrite Ho; set_solver).
  assert (∀ x, x ∈ pre ++ mid ++ fb :: n :: post → x ∈ (pre ++ fe :: mid) ++ fb :: n :: post) as Hin2 by set_solver.
  assert (∀ ids : list NodeId, fe ∉ ids → n ∉ ids →
    filter (.∈ pre ++ mid ++ fb :: n :: post) ids = filter (.∈ open_elements b) ids) as Hfilt.
  { intros ids H1 H2. apply filter_ext_in. intros x Hx. rewrite Ho.
    assert (x ≠ fe) by (by intros ->). assert (x ≠ n) by (by intros ->). set_solver. }
  rewrite afe_ids_app in Hni.
  split; cbn [document open_elements active_formatting form_element set_document set_open set_afe].
  - apply E.
  - intros x [-> |Hx]%Hin; [by exists tag|]. destruct (co_elem _ HC x Hx) as [t Ht]. exists t. by eapply ev_tag.
  - eapply ordered_sublist; [|exact Hordd]. rewrite <-app_assoc. apply sublist_app; [done|]. by constructor.
  - intros x Hx. by apply Hatt, Hin2.
  - intros x r Hr Hx. rewrite (ev_root _ _ _ E) in Hr. eapply ev_tag; [exact E|].
    eapply (co_top _ HC); [done|]. by eapply ev_top.
  - intros id t at' H. assert (Formatting (id, t, at') = Formatting (n, tag, a) ∨ Formatting (id, t, at') ∈ ea ++ eb)
      as [[= -> -> ->]|H'] by set_solver; [done|].
    destruct (co_afe _ HC1 _ _ _ H'). split; [by eapply ev_tag|done].
  - rewrite afe_ids_app. change (afe_ids (Formatting (n, tag, a) :: eb)) with (n :: afe_ids eb).
    pose proof (co_afe_nodup _ HC1) as Hnd. cbn in Hnd. rewrite afe_ids_app in Hnd.
    apply (NoDup_Permutation_proper _ _ (Permutation_sym (Permutation_middle _ _ _))).
    apply NoDup_cons. done.
  - rewrite afe_ids_app, filter_app. change (afe_ids (Formatting (n, tag, a) :: eb)) with (n :: afe_ids eb).
    rewrite filter_cons_True by set_solver. rewrite !Hfilt by set_solver.
    rewrite app_assoc. change (fb :: n :: post) with ([fb] ++ n :: post). rewrite app_assoc.
    apply sublist_app; [by apply sublist_inserts_r|]. by constructor.
  - intros f Hf. eapply ev_tag; [exact E|]. by apply HC.
Qed.
