(* ===== verification/HtmlAgency.v ===== *)
(** * The adoption agency algorithm: the outer loop

    One iteration as a whole: every branch keeps the builder's invariant and the base of the
    stack, and uses at most four ids. *)

From S2P Require Import Prelude Dom DomTree DomWalk DomOps HtmlTokenizer HtmlTree DomParents.
From S2P Require Import HtmlTreeInv HtmlModes HtmlStack HtmlFormatting HtmlAdoption.

(** ** The outer loop *)
Lemma special_position_spec d l :
  Forall (ordinary_at d) l →
  ∃ o, special_position d l = Ok o
    ∧ match o with
      | None => True
      | Some i => ∃ l1 x l2 t, l = l1 ++ x :: l2 ∧ length l1 = i ∧ tg d x = Some t
                    ∧ among t SPECIAL_ELEMENTS = true
      end.
Proof.
  induction 1 as [|x l (t & Ht & _) _ (o & IH & Ho)]; cbn [special_position]; [by exists None|].
  unfold is_special. rewrite (tag_of_tg _ _ _ Ht). cbn [mbind res_bind].
  destruct (among t SPECIAL_ELEMENTS) eqn:Es; [exists (Some 0); split; [done|]; by exists [], x, l, t|].
  rewrite IH. cbn [mbind res_bind]. exists (option_map S o). split; [done|].
  destruct o as [i|]; [|done]. destruct Ho as (l1 & y & l2 & ty & -> & <- & ? & ?).
  by exists (x :: l1), y, l2, ty.
Qed.

Lemma rposition_entry b tag :
  ∃ o, afe_formatting_rposition b tag = Ok o
    ∧ match o with
      | None => True
      | Some p => ∃ l1 id a l2, b.(active_formatting) = l1 ++ Formatting (id, tag, a) :: l2 ∧ length l1 = p
      end.
Proof.
  unfold afe_formatting_rposition. destruct (scan_start_split b) as (k1 & k2 & Hafe & Hst & ->).
  cbn [mbind res_bind]. eexists; split; [done|]. destruct (rposition _ k2) as [p|] eqn:Ep; [|done].
  cbn. apply rposition_Some in Ep as (j1 & e & j2 & -> & <- & He & _).
  destruct e as [|[[id t] a]]; [done|]. cbn in He. apply bool_decide_eq_true in He as ->.
  exists (k1 ++ j1), id, a, j2. rewrite Hafe, Hst, length_app. split; [by rewrite <-app_assoc|done].
Qed.

Lemma afe_formatting_at_middle b l1 e l2 :
  b.(active_formatting) = l1 ++ Formatting e :: l2 → afe_formatting_at b (length l1) = Ok e.
Proof. intros H. unfold afe_formatting_at. rewrite H, list_lookup_middle by done. done. Qed.

(** A special element has no entry. *)
Lemma special_no_entry b x t l :
  Core b → l `sublist_of` b.(active_formatting) → tg b.(document) x = Some t →
  among t SPECIAL_ELEMENTS = true → x ∉ afe_ids l.
Proof.
  intros HC Hs Ht Hsp (t' & a & Hin)%elem_of_afe_ids.
  destruct (co_afe _ HC x t' a) as [Ht' Hf]; [by eapply elem_of_sublist|].
  rewrite Ht in Ht'. injection Ht' as <-. by rewrite (formatting_not_special _ Hf) in Hsp.
Qed.

(** The end of an iteration, after the inner loop. *)
Definition adoption_finish (s : Inner) (fe_pos : nat) (fe fb ca : NodeId) : res (bool * TreeBuilder) :=
  b ← place_last_node s.(in_tb) ca s.(in_last);
  '(_, fe_tag, fe_attrs) ← afe_formatting_at b fe_pos;
  '(new_fe, d) ← create_node b.(document) (NElement fe_tag fe_attrs);
  kids ← children d fb;
  d ← for_each (move_child new_fe) d kids;
  d ← append_child d fb new_fe;
  let b := set_document d b in
  afe ← move_to_bookmark b.(active_formatting) s.(in_bookmark) fe_pos fe (Formatting (new_fe, fe_tag, fe_attrs));
  let st := filter (λ id, id ≠ fe) b.(open_elements) in
  fb_pos_now ← unwrap (position (λ x, (x =? fb)%N) st);
  st ← vec_insert (fb_pos_now + 1) new_fe st;
  Ok (false, set_open st (set_afe afe b)).

Lemma insert_above (o1 o2 : list NodeId) fb n :
  NoDup (o1 ++ fb :: o2) →
  position (λ x, (x =? fb)%N) (o1 ++ fb :: o2) = Some (length o1)
  ∧ vec_insert (length o1 + 1) n (o1 ++ fb :: o2) = Ok (o1 ++ fb :: n :: o2).
Proof.
  intros Hnd. split.
  - rewrite position_middle; [done|..|by apply N.eqb_refl].
    apply NoDup_app in Hnd as (_ & Hd & _). apply Forall_forall. intros y Hy. apply N.eqb_neq.
    intros ->. by apply (Hd fb Hy); left.
  - replace (length o1 + 1) with (length (o1 ++ [fb])) by (rewrite length_app; done).
    change (o1 ++ fb :: o2) with (o1 ++ [fb] ++ o2). rewrite app_assoc, vec_insert_middle. by rewrite <-app_assoc.
Qed.

(** The entries around the bookmark are the old ones without the formatting element's. *)
Lemma bookmark_entries l1 l2 fe tag a (mid : list NodeId) ea eb :
  match last mid with
  | None => ea = l1 ∧ eb = l2
  | Some c => ∃ k1 tc ac, l2 = k1 ++ Formatting (c, tc, ac) :: eb
                ∧ ea = l1 ++ k1 ++ [Formatting (c, tc, ac)]
  end →
  ea ++ eb = l1 ++ l2 ∧ (NoDup (afe_ids (l1 ++ Formatting (fe, tag, a) :: l2)) →
    fe ∉ afe_ids ea ∧ fe ∉ afe_ids eb).
Proof.
  intros H. assert (ea ++ eb = l1 ++ l2) as Heq.
  { destruct (last mid); [|by destruct H as [-> ->]]. destruct H as (k1 & tc & ac & -> & ->).
    by rewrite <-!app_assoc. }
  split; [done|]. intros Hnd. assert (fe ∉ afe_ids (ea ++ eb)) as Hn.
  { rewrite Heq. rewrite afe_ids_app in *. apply NoDup_app in Hnd as (_ & Hd & [Hn2 _]%NoDup_cons).
    intros [H1|H2]%elem_of_app; [|done]. by apply (Hd fe H1); left. }
  rewrite afe_ids_app in Hn. set_solver.
Qed.

Lemma adoption_finish_spec b0 pre' ca fe tag a l1 fb tf post s mid l2 :
  inner_inv b0 (pre' ++ [ca]) fe tag a l1 fb post [] s mid l2 → room 4 b0 →
  let b := s.(in_tb) in
  Forall (ordinary_at b.(document)) (fe :: mid ++ fb :: post) → tabled b.(document) (pre' ++ [ca]) →
  tg b.(document) fb = Some tf → among tf SPECIAL_ELEMENTS = true → tag ∈ FORMATTING_ELEMENTS →
  ∃ b' n, adoption_finish s (length l1) fe fb ca = Ok (false, b') ∧ Core b' ∧ moves 4 0 b0 b'
    ∧ b'.(open_elements) = (pre' ++ [ca]) ++ mid ++ fb :: n :: post
    ∧ Forall (ordinary_at b'.(document)) (mid ++ fb :: n :: post).
Proof.
  intros II Hroom b Hord Htab Htf Hsp Htag. pose proof II as [Ho Hafe Hlast Hmark Hmid Hent HL Hmv].
  fold b in Ho, Hafe, Hmid, HL, Hmv. cbn [app] in Ho. unfold adoption_finish. fold b.
  apply Forall_cons in Hord as [_ Hord].
  assert (∃ tl o3, in_last s :: o3 = mid ++ fb :: post ∧ tg (document b) (in_last s) = Some tl ∧ ordinary tl)
    as (tl & o3 & Ho3 & Htl & Hol).
  { rewrite Hlast. destruct mid as [|c mid]; cbn in *.
    - apply Forall_cons in Hord as [(t & ? & ?) _]. by exists t, post.
    - apply Forall_cons in Hord as [(t & ? & ?) _]. by exists t, (mid ++ fb :: post). }
  set (pre := pre' ++ [ca]) in *.
  destruct (place_last_node_spec b pre' ca [fe] o3 (in_last s) tl) as (d1 & -> & HC1 & E1); try done.
  { rewrite Ho, <-Ho3. unfold pre. by rewrite <-app_assoc. }
  { apply Forall_cons. split; [|by rewrite Ho3]. exists tag. split; [|by apply formatting_ordinary].
    apply (lo_afe _ _ HL fe tag a). rewrite Hafe. set_solver. }
  cbn [mbind res_bind]. set (b1 := set_document d1 b) in *.
  assert (moves 3 0 b0 b1) as Hmv1.
  { apply (moves_weaken (N.of_nat (in_iterations s `min` 3) + 0) _ (0 + 0) _); [lia|lia|].
    eapply moves_trans; [exact Hmv|]. by apply moves_document. }
  rewrite (afe_formatting_at_middle b1 l1 (fe, tag, a) l2 Hafe). cbn [mbind res_bind].
  destruct (wrap_document b1 (pre ++ fe :: mid) post fb tf (NElement tag a) tag) as
    (d2 & kids & d3 & d4 & -> & Hk & Hm & Ha & E4 & Htn & Hnl & Hordd & Hatt); try done.
  { eapply moves_room; [exact Hmv1|]. done. }
  { cbn. rewrite Ho. by rewrite <-app_assoc. } { cbn. by eapply ev_tag. }
  { rewrite Forall_forall in Hord. destruct (Hord fb) as (t & Ht & ?); [set_solver|]. congruence. }
  cbn [mbind res_bind]. rewrite Hk. cbn [mbind res_bind]. rewrite Hm. cbn [mbind res_bind]. rewrite Ha.
  cbn [mbind res_bind active_formatting open_elements set_document].
  set (n := next_node_id (document b1)) in *.
  pose proof (co_afe_nodup _ HC1) as Hnd. pose proof (co_nodup _ HC1) as Hno. pose proof (co_afe_order _ HC1) as Hao.
  change (active_formatting b1) with (active_formatting b) in *. change (open_elements b1) with (open_elements b) in *.
  rewrite Hafe in *. rewrite Hmark.
  destruct (move_to_bookmark_spec l1 l2 fe tag a mid (Formatting (n, tag, a)) Hnd Hent) as (ea & eb & -> & Hsh).
  cbn [mbind res_bind]. rewrite Ho.
  assert (fb ∉ afe_ids (l1 ++ Formatting (fe, tag, a) :: l2)) as Hfbn.
  { eapply (special_no_entry b1); [done|cbn; by rewrite Hafe|cbn; by eapply ev_tag|done]. }
  rewrite afe_ids_app in Hfbn. change (afe_ids (Formatting (fe, tag, a) :: l2)) with (fe :: afe_ids l2) in Hfbn.
  rewrite Ho in Hno, Hao.
  destruct (bookmark_order pre fe mid fb post l1 l2 tag a ea eb) as [Hea Heb]; try done; [set_solver|].
  destruct (bookmark_entries l1 l2 fe tag a mid ea eb Hsh) as [Heab Hfe]. destruct (Hfe Hnd) as [Hfe1 Hfe2].
  rewrite filter_split by done. rewrite (app_assoc pre mid).
  destruct (insert_above (pre ++ mid) post fb n) as [-> Hins].
  { rewrite <-app_assoc. eapply sublist_NoDup; [exact Hno|]. apply sublist_app; [done|]. by constructor. }
  cbn [unwrap mbind res_bind]. rewrite Hins. cbn [mbind res_bind].
  assert (fb ∉ afe_ids (ea ++ eb)) as Hfb2 by (rewrite Heab, afe_ids_app; set_solver).
  rewrite afe_ids_app in Hfb2. eexists _, n. split; [done|].
  assert (ea ++ eb `sublist_of` active_formatting b1) as Hsub.
  { cbn. rewrite Heab, Hafe. apply sublist_app; [done|]. by constructor. }
  split; [|split; [|split; [cbn; by rewrite <-app_assoc|]]].
  - rewrite <-app_assoc. assert (open_elements b1 = pre ++ fe :: mid ++ fb :: post) as Ho1 by exact Ho.
    clear Hmv Hmv1 HL II Hroom. rewrite elem_of_app in Hfb2. apply Decidable.not_or in Hfb2 as [Hfb3 Hfb4].
    eapply (Core_adopt b1 pre fe mid fb post ea n tag a eb d4 HC1 Ho1 Hsub Hfe1 Hfe2 Hfb3 Hfb4);
      rewrite ?Ho1; assumption.
  - apply (moves_weaken (3 + 1) _ (0 + 0) _); [lia|lia|]. eapply moves_trans; [exact Hmv1|].
    split; try done. cbn. apply sublist_length in Hsub. cbn in Hsub. rewrite Hafe in *.
    rewrite !length_app in *. cbn in *. apply (f_equal length) in Heab. rewrite !length_app in Heab. lia.
  - assert (∀ y, ordinary_at (document b) y → ordinary_at d4 y) as Hev.
    { intros y Hy. eapply ordinary_evolves; [exact E4|]. by eapply ordinary_evolves. }
    apply Forall_app in Hord as [Hm1 [Hfb1 Hp1]%Forall_cons]. cbn. apply Forall_app. split.
    { by eapply Forall_impl. }
    apply Forall_cons. split; [by apply Hev|]. apply Forall_cons. split; [|by eapply Forall_impl].
    exists tag. split; [done|]. by apply formatting_ordinary.
Qed.

(** One iteration from the furthest block on. *)
Lemma adoption_wrap_spec bs x1 b l1 fe tag a l2 mid0 fb tf post :
  Based bs b → room 4 b →
  b.(open_elements) = bs ++ x1 ++ fe :: mid0 ++ fb :: post →
  Forall (ordinary_at b.(document)) (x1 ++ fe :: mid0 ++ fb :: post) →
  b.(active_formatting) = l1 ++ Formatting (fe, tag, a) :: l2 →
  tg b.(document) fb = Some tf → among tf SPECIAL_ELEMENTS = true →
  ∃ ca pre' b', bs ++ x1 = pre' ++ [ca]
    ∧ (s ← for_each (adoption_inner fb) (MkInner b AtFormattingElement fb 0) (rev mid0);
       adoption_finish s (length l1) fe fb ca) = Ok (false, b') ∧ Based bs b' ∧ moves 4 0 b b'.
Proof.
  intros HG Hroom Ho Hord Hafe Htf Hsp. pose proof (gd_core _ _ HG) as HC.
  assert (∃ pre' ca, bs ++ x1 = pre' ++ [ca]) as (pre' & ca & Hpre).
  { destruct (closed_last _ _ (gd_base _ _ HG)) as (l & z & -> & _).
    destruct (exists_last (l := (l ++ [z]) ++ x1)) as (l' & y & ->); [by destruct l|eauto]. }
  exists ca, pre'. destruct (co_afe _ HC fe tag a) as [_ Htag]; [rewrite Hafe; set_solver|].
  assert (inner_inv b (pre' ++ [ca]) fe tag a l1 fb post mid0 (MkInner b AtFormattingElement fb 0) [] l2) as II0.
  { split; cbn; [by rewrite Ho, app_assoc, Hpre|done|done|done|done|by intros c ?%elem_of_nil|
      by apply Core_Loose|by apply moves_refl]. }
  apply Forall_app in Hord as [Hx1 Hord]. pose proof Hord as [Hfe Hord']%Forall_cons.
  apply Forall_app in Hord' as [_ [Hfb Hpost]%Forall_cons].
  destruct (adoption_inner_loop b (pre' ++ [ca]) fe tag a l1 fb post mid0 _ _ _ II0) as (s & mid & l2' & -> & II);
    [eapply room_le; [|exact Hroom]; lia|done|].
  cbn [mbind res_bind]. pose proof (mv_doc _ _ _ _ (ii_moves _ _ _ _ _ _ _ _ _ _ _ _ II)) as E.
  destruct (adoption_finish_spec b pre' ca fe tag a l1 fb tf post s mid l2' II Hroom) as
    (b' & n & Hfin & HC' & Hmv' & Ho' & Hn'); try done.
  { apply Forall_cons. split; [by eapply ordinary_evolves|]. apply Forall_app. split; [apply II|].
    apply Forall_cons. split; [by eapply ordinary_evolves|]. eapply Forall_impl; [exact Hpost|].
    intros y. by eapply ordinary_evolves. }
  { rewrite <-Hpre. eapply tabled_evolves; [exact E|..].
    - intros y Hy. apply co_live; [done|]. rewrite Ho. set_solver.
    - intros y t [Hy|Hy]%elem_of_app Ht Hc.
      + destruct (gd_table _ _ HG y t Hy Ht Hc) as (z & ? & ?). exists z. set_solver.
      + exfalso. rewrite Forall_forall in Hx1. destruct (Hx1 y Hy) as (t' & Ht' & Hnt).
        assert (t' = t) as -> by congruence. apply Hnt. clear -Hc. unfold one_of in Hc. cbn in Hc.
        unfold tag_is in Hc. rewrite !orb_true_iff, !bool_decide_eq_true in Hc.
        apply among_spec. destruct Hc as [->|[->|[->|[->|[->|?]]]]]; done. }
  { by eapply ev_tag. }
  exists b'. split; [done|]. split; [done|]. split; [|done]. pose proof (mv_doc _ _ _ _ Hmv') as E'.
  split; [done| | |].
  - exists (x1 ++ mid ++ fb :: n :: post). split; [rewrite Ho', <-Hpre; by rewrite <-app_assoc|].
    apply Forall_app. split; [|done]. eapply Forall_impl; [exact Hx1|]. intros y. by eapply ordinary_evolves.
  - eapply closed_evolves; [exact E'|apply HG].
  - eapply tabled_evolves; [exact E'| |apply HG]. intros y. by apply Based_base_live.
Qed.

Lemma adoption_outer_spec bs b tag :
  Based bs b → tag ∈ FORMATTING_ELEMENTS → room 4 b →
  ∃ r b', adoption_outer b tag = Ok (r, b') ∧ Based bs b' ∧ moves 4 0 b b'.
Proof.
  intros HG Htag Hroom. pose proof (gd_core _ _ HG) as HC. unfold adoption_outer.
  destruct (rposition_entry b tag) as (o & -> & Ho). cbn [mbind res_bind].
  assert (∀ (r : bool) m, keeps bs 0 0 b m → ∃ r' b', (b' ← m; Ok (r, b')) = Ok (r', b') ∧ Based bs b' ∧ moves 4 0 b b') as Hret.
  { intros r m (b' & -> & ? & ?). exists r, b'. split_and!; [done..|]. eapply moves_weaken; [| |done]; lia. }
  destruct o as [p|].
  2: { apply Hret, any_other_keeps; [done|]. intros l z -> Hz.
       destruct (closed_last _ _ (gd_base _ _ HG)) as (l' & z' & [_ ->]%app_inj_tail & t & Ht & Hin).
       rewrite Hz in Ht. injection Ht as <-. by apply (formatting_ordinary tag). }
  destruct Ho as (l1 & fe & a & l2 & Hafe & <-).
  rewrite (afe_formatting_at_middle b l1 (fe, tag, a) l2 Hafe). cbn [mbind res_bind].
  assert (∀ l, l `sublist_of` active_formatting b → ∀ xs xs', open_elements b = bs ++ xs → xs' `sublist_of` xs →
    keeps bs 0 0 b (Ok (set_afe l (set_open (bs ++ xs') b)))) as Hdrop.
  { intros l Hl xs xs' Ho Hs. destruct (keeps_shrink bs b xs xs' _ HG Ho Hs eq_refl) as (b1 & [= <-] & HG1 & Hm1).
    eexists; split; [done|]. split; [destruct HG1; split; try done; by apply Core_afe|].
    destruct Hm1. split; try done. cbn. apply sublist_length in Hl. lia. }
  assert ((l1 ++ l2) `sublist_of` active_formatting b) as Hl12.
  { rewrite Hafe. apply sublist_app; [done|]. by constructor. }
  destruct (gd_split _ _ HG) as (xs & Hxs & Hord).
  unfold stack_pos_of. destruct (position _ (open_elements b)) as [q|] eqn:Eq.
  2: { rewrite Hafe, vec_remove_middle. cbn [mbind res_bind]. apply (Hret true (Ok _)).
       specialize (Hdrop _ Hl12 xs xs Hxs ltac:(done)). rewrite <-Hxs in Hdrop. by destruct b. }
  apply position_Some in Eq as (o1 & x & o2 & Hopen & <- & Hx%N.eqb_eq & _). subst x.
  destruct (co_afe _ HC fe tag a) as [Htfe _]; [rewrite Hafe; set_solver|].
  destruct (has_node_ordinary bs b xs fe HG Hxs) as (r & -> & Hr); [exists tag; split; [done|by apply formatting_ordinary]|].
  cbn [mbind res_bind]. destruct r; cbn [negb].
  2: { apply (Hret true (Ok b)). by apply keeps_ret. }
  apply (list_elem_of_split) in Hr as (x1 & x2 & ->); [|done].
  assert (o1 = bs ++ x1 ∧ o2 = x2) as [-> ->].
  { pose proof (co_nodup _ HC) as Hnd. rewrite Hopen in Hnd. rewrite Hxs, app_assoc in Hopen.
    exact (app_cons_inj_NoDup _ _ _ _ _ Hnd (eq_sym Hopen)). }
  pose proof Hord as [_ [_ Hord2]%Forall_cons]%Forall_app.
  assert (slice_from (S (length (bs ++ x1))) (open_elements b) = Ok x2) as ->.
  { unfold slice_from. rewrite Hopen, decide_True by (rewrite !length_app; cbn; lia). f_equal.
    rewrite drop_app_ge by lia. by replace (S (length (bs ++ x1)) - length (bs ++ x1)) with 1 by lia. }
  cbn [mbind res_bind]. destruct (special_position_spec _ x2 Hord2) as (fp & -> & Hfp). cbn [mbind res_bind].
  destruct fp as [rel|].
  2: { rewrite Hafe, vec_remove_middle. cbn [mbind res_bind]. apply (Hret true (Ok _)).
       rewrite Hopen, take_app_length. eapply Hdrop; [done|exact Hxs|]. by apply sublist_inserts_r. }
  destruct Hfp as (mid0 & fb & post & tf & -> & <- & Htf & Hsp).
  destruct (adoption_wrap_spec bs x1 b l1 fe tag a l2 mid0 fb tf post) as (ca & pre' & b' & Hpre & Hw & HG' & Hm');
    try done.
  set (o1 := bs ++ x1) in *. replace (length o1 + 1 + length mid0) with (length (o1 ++ fe :: mid0)) by
    (rewrite length_app; cbn; lia).
  assert (open_elements b = (o1 ++ fe :: mid0) ++ fb :: post) as Ho2 by (rewrite Hopen; by rewrite <-app_assoc).
  assert (open_elements b !! length (o1 ++ fe :: mid0) = Some fb) as ->.
  { rewrite Ho2. by apply list_lookup_middle. }
  cbn [unwrap mbind res_bind].
  assert (length o1 = S (length pre')) as -> by (rewrite Hpre, length_app; cbn; lia).
  assert (open_elements b !! length pre' = Some ca) as ->.
  { rewrite Hopen, Hpre, <-app_assoc. by apply list_lookup_middle. }
  cbn [unwrap mbind res_bind].
  assert (slice (S (S (length pre'))) (length (o1 ++ fe :: mid0)) (open_elements b) = Ok mid0) as ->.
  { unfold slice. rewrite Ho2. assert (length o1 = S (length pre')) as Hlo by (rewrite Hpre, length_app; cbn; lia).
    rewrite decide_True by (rewrite !length_app; cbn; lia). rewrite take_app_length.
    change (o1 ++ fe :: mid0) with (o1 ++ [fe] ++ mid0). rewrite app_assoc.
    by rewrite drop_app_length' by (rewrite length_app; cbn; lia). }
  cbn [mbind res_bind]. exists false, b'. split; [exact Hw|done].
Qed.

Lemma adoption_loop_spec bs tag n : ∀ b,
  Based bs b → tag ∈ FORMATTING_ELEMENTS → room (4 * N.of_nat n) b →
  keeps bs (4 * N.of_nat n) 0 b (adoption_loop n b tag).
Proof.
  induction n as [|n IH]; intros b HG Htag Hroom; cbn [adoption_loop]; [by apply keeps_ret|].
  destruct (adoption_outer_spec bs b tag HG Htag) as (r & b1 & -> & HG1 & Hm1); [eapply room_le; [|exact Hroom]; lia|].
  cbn [mbind res_bind]. destruct r.
  - exists b1. split; [done|]. split; [done|]. eapply moves_weaken; [| |exact Hm1]; lia.
  - destruct (IH b1 HG1 Htag) as (b2 & -> & HG2 & Hm2).
    { eapply moves_room; [exact Hm1|]. eapply room_le; [|exact Hroom]. lia. }
    exists b2. split; [done|]. split; [done|].
    replace (4 * N.of_nat (S n))%N with (4 + 4 * N.of_nat n)%N by lia. exact (moves_trans _ _ _ _ _ _ _ Hm1 Hm2).
Qed.

Lemma list_snoc_case {A} (l : list A) : l = [] ∨ ∃ l' x, l = l' ++ [x].
Proof. destruct l as [|x l] using rev_ind; eauto. Qed.

(** The whole algorithm: it returns, keeps the invariant and uses at most 32 ids. *)
Lemma adoption_agency_keeps bs b tag :
  Based bs b → tag ∈ FORMATTING_ELEMENTS → room 32 b → keeps bs 32 0 b (adoption_agency b tag).
Proof.
  intros HG Htag Hroom. unfold adoption_agency.
  destruct (Based_last bs b HG) as (l & z & t & xs & -> & Ht & Hin & Ho & Hf & Hl).
  destruct (last_elem _ (Based_nonempty _ _ HG)) as (x & Hx & Hinx). rewrite Hx.
  destruct (co_elem _ (gd_core _ _ HG) x Hinx) as [tx Htx]. rewrite (tag_of_tg _ _ _ Htx). cbn [mbind res_bind].
  destruct (bool_decide (Some tx = Some tag) && _) eqn:Eb; [|by apply (adoption_loop_spec _ tag 8)].
  apply andb_true_iff in Eb as [[= ->]%bool_decide_eq_true _].
  destruct (list_snoc_case xs) as [->|(ys & y & ->)].
  - rewrite Ho, last_snoc in Hx. injection Hx as ->. exfalso. rewrite Ht in Htx. injection Htx as ->.
    by apply (formatting_ordinary tag).
  - eapply keeps_weaken; [| |eapply (keeps_shrink _ b (ys ++ [y]) ys)]; [lia|lia|done| |by apply sublist_inserts_r|].
    + by rewrite Ho, <-app_assoc.
    + rewrite Ho. change (l ++ z :: ys ++ [y]) with (l ++ (z :: ys) ++ [y]).
      rewrite app_assoc, vec_pop_app. by rewrite <-app_assoc.
Qed.
