(* ===== verification/HtmlGood.v ===== *)
(** * The stack's skeleton

    The structural elements of the stack, from the bottom up, form its skeleton; each stands
    directly on the element it needs (a row on a section, a section on a table, the body on
    [html]).  Processing in body keeps the skeleton; scope questions about structural elements
    only depend on it. *)

From S2P Require Import Prelude Dom DomTree DomWalk DomOps HtmlTokenizer HtmlTree DomParents.
From S2P Require Import HtmlTreeInv HtmlModes HtmlStack HtmlFormatting HtmlAdoption HtmlAgency.

(** ** Tags of the stack *)
Definition tags_of (d : Document) (l : list NodeId) : list (list N) := omap (tg d) l.
Definition tags (b : TreeBuilder) : list (list N) := tags_of b.(document) b.(open_elements).
Definition skel_of (l : list (list N)) : list (list N) := filter (.∈ STRUCTURE) l.
Definition skel (b : TreeBuilder) : list (list N) := skel_of (tags b).

(** [u] may stand directly on [t]. *)
Definition stands_on (t u : list N) : bool :=
  if one_of u ["tbody"; "thead"; "tfoot"; "colgroup"] then tag_is t "table"
  else if tag_is u "tr" then one_of t SECTIONS
  else if one_of u ["body"; "head"] then tag_is t "html"
  else true.
Fixpoint tight (l : list (list N)) : bool :=
  match l with
  | t :: ((u :: _) as l') => stands_on t u && tight l'
  | _ => true
  end.
Definition grounded (l : list (list N)) : bool :=
  match l with t :: _ => tag_is t "html" | [] => false end.

Record Good (b : TreeBuilder) : Prop := {
  go_core : Core b;
  go_ground : grounded (tags b) = true;
  go_tight : tight (tags b) = true;
}.

Lemma tag_is_spec t s : tag_is t s = true ↔ t = str s.
Proof. apply bool_decide_eq_true. Qed.

Lemma one_of_spec t l : one_of t l = true ↔ t ∈ str <$> l.
Proof.
  unfold one_of. rewrite existsb_exists, list_elem_of_fmap. split.
  - intros (s & Hs & Ht%tag_is_spec). exists s. split; [done|]. by apply list_elem_of_In.
  - intros (s & -> & Hs). exists s. split; [by apply list_elem_of_In|by apply tag_is_spec].
Qed.

Lemma stands_on_ordinary t u : ordinary u → stands_on t u = true.
Proof.
  intros Hu. unfold stands_on.
  assert (∀ l, forallb (λ s, among (str s) STRUCTURE) l = true → one_of u l = false) as Hno.
  { intros l Hl. apply not_true_iff_false. intros (s & -> & Hs)%one_of_spec%list_elem_of_fmap. apply Hu.
    apply among_spec. rewrite forallb_forall in Hl. by apply Hl, list_elem_of_In. }
  rewrite Hno by done. assert (tag_is u "tr" = false) as ->.
  { apply not_true_iff_false. intros ->%tag_is_spec. apply Hu, among_spec. done. }
  by rewrite Hno by done.
Qed.

Lemma tight_app_ordinary l xs : Forall ordinary xs → tight (l ++ xs) = tight l.
Proof.
  intros Hxs. induction l as [|t l IH].
  - cbn. induction xs as [|x xs IHx]; [done|]. apply Forall_cons in Hxs as [Hx Hxs].
    destruct xs as [|y xs]; [done|]. cbn -[stands_on]. apply Forall_cons in Hxs as Hy. destruct Hy as [Hy _].
    rewrite stands_on_ordinary by done. by apply IHx.
  - destruct l as [|u l].
    + cbn in IH |- *. destruct xs as [|x xs]; [done|]. apply Forall_cons in Hxs as [Hx _].
      rewrite stands_on_ordinary by done. done.
    + cbn in IH |- *. by rewrite IH.
Qed.

Lemma tight_prefix l k : tight (l ++ k) = true → tight l = true.
Proof.
  induction l as [|t l IH]; [done|]. destruct l as [|u l]; [done|]. cbn in *.
  intros [-> H]%andb_true_iff. by apply IH.
Qed.

Lemma tight_adjacent l t u k : tight (l ++ t :: u :: k) = true → stands_on t u = true.
Proof.
  induction l as [|x l IH]; cbn.
  - by intros [? _]%andb_true_iff.
  - destruct l as [|y l]; cbn in *; intros [_ H]%andb_true_iff; [|by apply IH].
    by apply andb_true_iff in H as [? _].
Qed.

(** Pushing one more element. *)
Lemma tight_snoc l t u : tight (l ++ [t]) = true → stands_on t u = true → tight ((l ++ [t]) ++ [u]) = true.
Proof.
  induction l as [|x l IH]; intros Ht Hu; cbn in *; [by rewrite Hu|].
  destruct l as [|y l]; cbn in *; apply andb_true_iff in Ht as [-> Ht]; [by rewrite Hu|]. by apply IH.
Qed.

Lemma tags_of_app d l k : tags_of d (l ++ k) = tags_of d l ++ tags_of d k.
Proof. apply omap_app. Qed.

Lemma tags_of_one d x t : tg d x = Some t → tags_of d [x] = [t].
Proof. intros H. unfold tags_of. csimpl. by rewrite H. Qed.

Lemma tags_of_evolves c d d' l :
  evolves c d d' → (∀ x, x ∈ l → live d x) → tags_of d' l = tags_of d l.
Proof.
  intros E. induction l as [|x l IH]; [done|]. intros Hl. unfold tags_of in *. csimpl.
  rewrite (ev_tags _ _ _ E) by (apply Hl; by left). destruct (tg d x); rewrite IH; set_solver.
Qed.

Lemma tags_of_ordinary d xs : Forall (ordinary_at d) xs → Forall ordinary (tags_of d xs).
Proof.
  induction 1 as [|x xs (t & Ht & Ho) _ IH]; [done|]. unfold tags_of. csimpl. rewrite Ht. by constructor.
Qed.

Lemma skel_app l k : skel_of (l ++ k) = skel_of l ++ skel_of k.
Proof. apply filter_app. Qed.

Lemma skel_ordinary xs : Forall ordinary xs → skel_of xs = [].
Proof. induction 1 as [|x xs Hx _ IH]; [done|]. unfold skel_of. by rewrite filter_cons_False. Qed.

(** ** A tight stack has a base *)
Lemma structural_cases t :
  t ∈ STRUCTURE → t ∈ DEFAULT_SCOPE_BLOCKERS ∨ ∃ s, t = str s ∧ s ∈ ["head"; "body"; "colgroup"; "tbody"; "thead"; "tfoot"; "tr"]%string.
Proof.
  unfold STRUCTURE. rewrite list_elem_of_fmap. intros (s & -> & Hs).
  repeat (apply elem_of_cons in Hs as [->|Hs]; [first [left; apply among_spec; done|right; eexists; split; [done|set_solver]]|]).
  by apply elem_of_nil in Hs.
Qed.

Lemma stands_on_structural t u :
  u ∈ STRUCTURE → u ∉ DEFAULT_SCOPE_BLOCKERS → stands_on t u = true → t ∈ STRUCTURE.
Proof.
  intros Hu Hnb Hs. destruct (structural_cases u Hu) as [?|(s & -> & Hin)]; [done|].
  repeat (apply elem_of_cons in Hin as [->|Hin]; [cbn in Hs|]); [..|by apply elem_of_nil in Hin].
  all: first [apply tag_is_spec in Hs as ->; apply among_spec; done
    |apply one_of_spec, list_elem_of_fmap in Hs as (s & -> & Hs);
     repeat (apply elem_of_cons in Hs as [->|Hs]; [apply among_spec; done|]); by apply elem_of_nil in Hs].
Qed.

Lemma base_exists d l :
  (∀ x, x ∈ l → ∃ t, tg d x = Some t) → grounded (tags_of d l) = true → tight (tags_of d l) = true →
  ∃ bs xs, l = bs ++ xs ∧ Forall (ordinary_at d) xs ∧ closed d bs.
Proof.
  induction l as [|x l IH] using rev_ind; [done|]. intros Hel Hg Ht. rewrite tags_of_app in *.
  destruct (Hel x) as [t Hx]; [set_solver|]. rewrite (tags_of_one _ _ _ Hx) in Ht, Hg.
  destruct (decide (t ∈ DEFAULT_SCOPE_BLOCKERS)) as [Hb|Hb].
  { exists (l ++ [x]), []. rewrite app_nil_r. split; [done|]. split; [done|]. exists l, x, [].
    split; [done|]. split; [by exists t|done]. }
  assert (l ≠ []) as Hne.
  { intros ->. cbn in Hg. apply Hb. apply tag_is_spec in Hg as ->. by apply among_spec. }
  destruct IH as (bs & xs & -> & Hxs & Hcl); [set_solver| |by eapply tight_prefix|].
  { destruct l as [|y l]; [done|]. destruct (Hel y) as [ty Hy]; [set_solver|]. unfold tags_of in *. csimpl in *.
    by rewrite Hy in *. }
  destruct (decide (t ∈ STRUCTURE)) as [Hst|Hst].
  2: { exists bs, (xs ++ [x]). split; [by rewrite app_assoc|]. split; [|done]. apply Forall_app. split; [done|].
       apply Forall_singleton. by exists t. }
  destruct (list_snoc_case xs) as [->|(ys & y & ->)].
  - rewrite app_nil_r in *. exists (bs ++ [x]), []. rewrite app_nil_r. split; [done|]. split; [done|].
    destruct Hcl as (k & w & m & -> & Hw & Hm). exists k, w, (m ++ [x]). split; [by rewrite <-app_assoc|].
    split; [done|]. apply Forall_app. split; [done|]. apply Forall_singleton. by exists t.
  - exfalso. apply Forall_app in Hxs as [_ [(ty & Hty & Hoy) _]%Forall_cons].
    rewrite app_assoc, (tags_of_app d (bs ++ ys)), (tags_of_one _ _ _ Hty), <-app_assoc in Ht.
    apply Hoy. apply tight_adjacent in Ht. by eapply stands_on_structural.
Qed.

Lemma grounded_app l k : l ≠ [] → grounded (l ++ k) = grounded l.
Proof. by destruct l. Qed.

(** The element just below a listed one. *)
Lemma tight_below d l1 x l2 t s :
  (∀ y, y ∈ l1 → ∃ t, tg d y = Some t) → grounded (tags_of d (l1 ++ x :: l2)) = true →
  tight (tags_of d (l1 ++ x :: l2)) = true → tg d x = Some t → t = str s → s ≠ "html"%string →
  (str s = str "html" → s = "html"%string) →
  ∃ l1' y ty, l1 = l1' ++ [y] ∧ tg d y = Some ty ∧ stands_on ty t = true.
Proof.
  intros Hel Hg Ht Hx -> Hne Hinj. destruct (list_snoc_case l1) as [->|(l1' & y & ->)].
  - exfalso. unfold tags_of in Hg. csimpl in Hg. rewrite Hx in Hg. cbn in Hg. apply tag_is_spec in Hg. auto.
  - destruct (Hel y) as [ty Hy]; [set_solver|]. exists l1', y, ty. split; [done|]. split; [done|].
    change ((l1' ++ [y]) ++ x :: l2) with ((l1' ++ [y]) ++ [x] ++ l2) in Ht.
    rewrite !tags_of_app, (tags_of_one _ _ _ Hx), (tags_of_one _ _ _ Hy), <-app_assoc in Ht.
    by apply tight_adjacent in Ht.
Qed.

Lemma tabled_of_tight d bs :
  (∀ x, x ∈ bs → ∃ t, tg d x = Some t) → grounded (tags_of d bs) = true → tight (tags_of d bs) = true →
  tabled d bs.
Proof.
  intros Hel Hg Ht x t Hx Htx Hc.
  assert (∀ x s, x ∈ bs → tg d x = Some (str s) → one_of (str s) ["tbody"; "thead"; "tfoot"] = true →
    s ≠ "html"%string → (str s = str "html" → s = "html"%string) →
    ∃ y, y ∈ bs ∧ tg d y = Some (str "table")) as Hsec.
  { clear x t Hx Htx Hc. intros x s Hx Htx Hs Hne Hinj. apply list_elem_of_split in Hx as (l1 & l2 & ->).
    destruct (tight_below d l1 x l2 (str s) s) as (l1' & y & ty & -> & Hy & Hst); [set_solver|done..|].
    exists y. split; [set_solver|]. unfold stands_on in Hst. unfold one_of in *. cbn in Hs, Hst.
    rewrite !orb_true_iff in Hs. destruct Hs as [Hs|[Hs|[Hs|?]]]; [..|done]; rewrite Hs in Hst; cbn in Hst;
      rewrite ?orb_true_r in Hst; cbn in Hst; by apply tag_is_spec in Hst as ->. }
  apply one_of_spec, list_elem_of_fmap in Hc as (s & -> & Hs).
  repeat (apply elem_of_cons in Hs as [->|Hs]); [by exists x|by eapply Hsec..| |by apply elem_of_nil in Hs].
  pose proof Hx as (l1 & l2 & ->)%list_elem_of_split.
  destruct (tight_below d l1 x l2 (str "tr") "tr") as (l1' & y & ty & -> & Hy & Hst); [set_solver|done..|].
  cbn in Hst. apply one_of_spec, list_elem_of_fmap in Hst as (s & -> & Hs').
  repeat (apply elem_of_cons in Hs' as [->|Hs']); [..|by apply elem_of_nil in Hs'].
  all: (eapply Hsec; [|exact Hy|done..]; set_solver).
Qed.

Lemma Good_Based b : Good b → ∃ bs, Based bs b.
Proof.
  intros [HC Hg Ht]. destruct (base_exists b.(document) b.(open_elements)) as (bs & xs & Ho & Hxs & Hcl); try done.
  { apply HC. }
  exists bs. split; [done|by exists xs|done|]. unfold tags in *. rewrite Ho, tags_of_app in Hg, Ht.
  assert (tags_of (document b) bs ≠ []) as Hne.
  { destruct (closed_last _ _ Hcl) as (l & z & -> & t & Hz & _). rewrite tags_of_app, (tags_of_one _ _ _ Hz).
    by destruct (tags_of (document b) l). }
  apply tabled_of_tight.
  - intros x Hx. apply (co_elem _ HC). rewrite Ho. set_solver.
  - by rewrite grounded_app in Hg.
  - by eapply tight_prefix.
Qed.

(** ** Keeping the skeleton *)
Definition Keeps (c : N) (k : nat) (b : TreeBuilder) (m : res TreeBuilder) : Prop :=
  ∃ b', m = Ok b' ∧ Good b' ∧ skel b' = skel b ∧ moves c k b b'.

Lemma Keeps_ret c k b : Good b → Keeps c k b (Ok b).
Proof. intros HG. exists b. split_and!; [done..|]. apply moves_refl, HG. Qed.

Lemma Keeps_weaken c c' k k' b m : (c ≤ c')%N → k ≤ k' → Keeps c k b m → Keeps c' k' b m.
Proof. intros Hc Hk (b' & ? & ? & ? & ?). exists b'. split_and!; [done..|]. by eapply moves_weaken. Qed.

Lemma Keeps_of bs c k b m : Good b → Based bs b → keeps bs c k b m → Keeps c k b m.
Proof.
  intros [HC Hg Ht] HB (b' & -> & HB' & Hm). exists b'. split; [done|].
  destruct (gd_split _ _ HB) as (xs & Ho & Hxs), (gd_split _ _ HB') as (xs' & Ho' & Hxs').
  assert (tags_of b'.(document) bs = tags_of b.(document) bs) as Hbs.
  { eapply tags_of_evolves; [apply Hm|]. intros x. by apply Based_base_live. }
  pose proof (tags_of_ordinary _ _ Hxs) as Hx. pose proof (tags_of_ordinary _ _ Hxs') as Hx'.
  assert (tags_of (document b) bs ≠ []) as Hne.
  { destruct (closed_last _ _ (gd_base _ _ HB)) as (l & z & -> & t & Hz & _).
    rewrite tags_of_app, (tags_of_one _ _ _ Hz). by destruct (tags_of (document b) l). }
  unfold skel, tags in *. rewrite Ho, Ho', !tags_of_app, Hbs in *.
  split; [|split; [|done]].
  - split; [apply HB'|..]; unfold tags; rewrite Ho', tags_of_app, Hbs.
    + by rewrite grounded_app in Hg |- *.
    + by rewrite tight_app_ordinary in Ht |- *.
  - by rewrite !skel_app, (skel_ordinary _ Hx), (skel_ordinary _ Hx').
Qed.

Lemma Keeps_bind c1 c2 k1 k2 b m (f : TreeBuilder → res TreeBuilder) :
  Keeps c1 k1 b m →
  (∀ b', Good b' → skel b' = skel b → moves c1 k1 b b' → Keeps c2 k2 b' (f b')) →
  Keeps (c1 + c2) (k1 + k2) b (m ≫= f).
Proof.
  intros (b1 & -> & HG1 & Hs1 & Hm1) Hf. destruct (Hf b1 HG1 Hs1 Hm1) as (b2 & Hb2 & HG2 & Hs2 & Hm2).
  exists b2. split; [done|]. split; [done|]. split; [congruence|]. by eapply moves_trans.
Qed.

Lemma Keeps_then c k b m (f : TreeBuilder → res TreeBuilder) :
  Keeps 0 0 b m →
  (∀ b', Good b' → skel b' = skel b → moves 0 0 b b' → Keeps c k b' (f b')) → Keeps c k b (m ≫= f).
Proof. intros Hm Hf. exact (Keeps_bind 0 c 0 k b m f Hm Hf). Qed.

(** ** Structural scopes *)
Fixpoint pscope (found stop : list N → bool) (l : list (list N)) : bool :=
  match l with
  | [] => false
  | t :: l' => if found t then true else if stop t then false else pscope found stop l'
  end.

Lemma pscope_ext f f' s s' l :
  (∀ t, f t = f' t) → (∀ t, s t = s' t) → pscope f s l = pscope f' s' l.
Proof. intros Hf Hs. induction l as [|t l IH]; [done|]. cbn. by rewrite Hf, Hs, IH. Qed.

Lemma scope_structural b found stop :
  Core b → (∀ t, ordinary t → found t = false ∧ stop t = false) →
  scope_walk b.(document) found stop (rev b.(open_elements)) = Ok (pscope found stop (rev (skel b))).
Proof.
  intros HC Hord. unfold skel, tags.
  assert (∀ l, (∀ x, x ∈ l → x ∈ open_elements b) →
    scope_walk b.(document) found stop (rev l)
    = Ok (pscope found stop (rev (skel_of (tags_of b.(document) l))))) as H; [|by apply H].
  induction l as [|x l IH] using rev_ind; [done|]. intros Hl. rewrite rev_snoc. cbn [scope_walk].
  destruct (co_elem _ HC x) as [t Ht]; [set_solver|]. rewrite (tag_of_tg _ _ _ Ht). cbn [mbind res_bind].
  rewrite tags_of_app, (tags_of_one _ _ _ Ht), skel_app. unfold skel_of at 2.
  destruct (decide (t ∈ STRUCTURE)) as [Hs|Hs].
  - rewrite filter_cons_True by done. cbn [filter list_filter]. rewrite rev_snoc. cbn [pscope].
    destruct (found t); [done|]. destruct (stop t); [done|]. apply IH. set_solver.
  - rewrite filter_cons_False by done. cbn [filter list_filter]. rewrite app_nil_r.
    destruct (Hord t Hs) as [-> ->]. apply IH. set_solver.
Qed.

Definition sscope (tag : string) (l : list (list N)) : bool :=
  pscope (λ t, tag_is t tag) (λ t, among t DEFAULT_SCOPE_BLOCKERS) l.

Lemma has_structural b tag :
  Core b → str tag ∈ STRUCTURE → has_tag_in_scope b (str tag) [] = Ok (sscope tag (rev (skel b))).
Proof.
  intros HC Ht. unfold has_tag_in_scope, sscope. rewrite scope_structural; [|done|].
  - f_equal. apply pscope_ext; [done|]. intros t. apply orb_false_r.
  - intros t Ho. cbn. split; [apply bool_decide_eq_false; by intros ->|]. rewrite orb_false_r.
    apply not_true_iff_false. by intros ?%among_spec%blockers_structural.
Qed.

Lemma has_table_scope b tag :
  Core b → str tag ∈ STRUCTURE →
  has_tag_in_table_scope b (str tag)
  = Ok (pscope (λ t, tag_is t tag) (λ t, one_of t ["html"; "table"]) (rev (skel b))).
Proof.
  intros HC Ht. unfold has_tag_in_table_scope. apply scope_structural; [done|].
  intros t Ho. cbn. split; [apply bool_decide_eq_false; by intros ->|].
  rewrite orb_false_r. apply orb_false_iff. split; apply bool_decide_eq_false; intros ->; apply Ho, among_spec; done.
Qed.
