(* ===== verification/HtmlInBody.v ===== *)
(** * Processing in body keeps the invariant

    Every start tag, end tag and text run that the rules of "in body" process leaves a good
    stack with the same skeleton, or opens a table, or enters a raw-text element, or ends the
    body; none of them panics while ids last. *)

From S2P Require Import Prelude Dom DomTree DomWalk DomOps HtmlTokenizer HtmlTree DomParents.
From S2P Require Import HtmlTreeInv HtmlModes HtmlStack HtmlFormatting HtmlAdoption HtmlAgency HtmlGood.

Definition afe_len (b : TreeBuilder) : N := N.of_nat (length b.(active_formatting)).

Lemma afe_len_moves c b b' : moves c 0 b b' → (afe_len b' ≤ afe_len b)%N.
Proof. intros Hm. pose proof (mv_afe _ _ _ _ Hm). unfold afe_len. lia. Qed.

Lemma Good_fields b b' :
  b'.(document) = b.(document) → b'.(open_elements) = b.(open_elements) →
  b'.(active_formatting) = b.(active_formatting) → b'.(form_element) = b.(form_element) →
  Good b → Good b' ∧ skel b' = skel b.
Proof.
  intros H1 H2 H3 H4 [HC Hg Ht]. assert (tags b' = tags b) as Htg by (unfold tags; by rewrite H1, H2).
  split; [|unfold skel; by rewrite Htg]. split; rewrite ?Htg; [by eapply Core_fields|done..].
Qed.

(** ** The operations, keeping the skeleton *)
Lemma lift_keeps c k b m : Good b → (∀ bs, Based bs b → keeps bs c k b m) → Keeps c k b m.
Proof. intros HG Hk. destruct (Good_Based b HG) as [bs HB]. eapply Keeps_of; eauto. Qed.

Lemma K_reconstruct b : Good b → room (afe_len b) b →
  Keeps (afe_len b) 0 b (reconstruct_active_formatting_elements b).
Proof. intros HG Hr. apply lift_keeps; [done|]. intros bs HB. by apply reconstruct_keeps. Qed.

Lemma K_insert b name attrs : Good b → ordinary name → room 1 b → Keeps 1 0 b (insert_element_ b name attrs).
Proof. intros HG Ho Hr. apply lift_keeps; [done|]. intros bs HB. by apply insert_keeps. Qed.

Lemma K_insert_text b s : Good b → room 1 b → Keeps 1 0 b (insert_text b s).
Proof. intros HG Hr. apply lift_keeps; [done|]. intros bs HB. by apply insert_text_keeps. Qed.

Lemma K_close_p b : Good b → Keeps 0 0 b (close_p_if_open b).
Proof. intros HG. apply lift_keeps; [done|]. intros bs HB. by apply close_p_keeps. Qed.

Lemma K_close_li b : Good b → Keeps 0 0 b (close_li_if_open b).
Proof. intros HG. apply lift_keeps; [done|]. intros bs HB. by apply close_li_keeps. Qed.

Lemma K_gen_implied b ex : Good b → Keeps 0 0 b (generate_implied_end_tags b ex).
Proof. intros HG. apply lift_keeps; [done|]. intros bs HB. by apply keeps_gen_implied. Qed.

Lemma K_close_in_scope b tag :
  Good b → ordinary tag → among tag IMPLIED_END_TAGS = false → Keeps 0 0 b (close_in_scope b tag).
Proof. intros HG Ho Hi. apply lift_keeps; [done|]. intros bs HB. by apply close_in_scope_keeps. Qed.

Lemma K_pop_when b tag extra :
  Good b → ordinary tag →
  Keeps 0 0 b (when (has_tag_in_scope b tag extra) (λ b, pop_until_and_including b tag) b).
Proof. intros HG Ho. apply lift_keeps; [done|]. intros bs HB. by apply pop_when. Qed.

Lemma K_end_heading b : Good b → Keeps 0 0 b (end_heading b).
Proof. intros HG. apply lift_keeps; [done|]. intros bs HB. by apply end_heading_keeps. Qed.

Lemma K_end_form b : Good b → Keeps 0 0 b (end_form b).
Proof. intros HG. apply lift_keeps; [done|]. intros bs HB. by apply end_form_keeps. Qed.

Lemma K_adoption b tag :
  Good b → tag ∈ FORMATTING_ELEMENTS → room 32 b → Keeps 32 0 b (adoption_agency b tag).
Proof. intros HG Ht Hr. apply lift_keeps; [done|]. intros bs HB. by apply adoption_agency_keeps. Qed.

(** The base ends in the last element of the skeleton. *)
Lemma Based_skel_last bs b :
  Based bs b → ∃ l z t, bs = l ++ [z] ∧ tg b.(document) z = Some t ∧ last (skel b) = Some t.
Proof.
  intros HB. destruct (Based_last bs b HB) as (l & z & t & xs & -> & Hz & Hin & Ho & Hxs & _).
  exists l, z, t. split_and!; [done..|]. unfold skel, tags.
  change (l ++ z :: xs) with (l ++ [z] ++ xs) in Ho. rewrite Ho, !tags_of_app, !skel_app, (tags_of_one _ _ _ Hz).
  rewrite (skel_ordinary (tags_of _ xs)) by (by apply tags_of_ordinary). rewrite app_nil_r.
  unfold skel_of at 2. rewrite filter_cons_True by done. apply last_snoc.
Qed.

Lemma K_any_other b tag : Good b → last (skel b) ≠ Some tag → Keeps 0 0 b (any_other_end_tag b tag).
Proof.
  intros HG Hl. apply lift_keeps; [done|]. intros bs HB. apply any_other_keeps; [done|].
  destruct (Based_skel_last bs b HB) as (l & z & t & -> & Hz & Hls). intros l' z' [_ <-]%app_inj_tail Htag.
  apply Hl. congruence.
Qed.

(** Popping an ordinary current node. *)
Lemma K_pop b x t :
  Good b → last b.(open_elements) = Some x → tg b.(document) x = Some t → ordinary t →
  Keeps 0 0 b (Ok (set_open (vec_pop b.(open_elements)) b)).
Proof.
  intros HG Hx Ht Ho. apply lift_keeps; [done|]. intros bs HB.
  destruct (Based_last bs b HB) as (l & z & tz & xs & -> & Hz & Hin & Hop & Hxs & _).
  destruct (list_snoc_case xs) as [->|(ys & y & ->)].
  - rewrite Hop, last_snoc in Hx. injection Hx as ->. congruence.
  - eapply (keeps_shrink _ b (ys ++ [y]) ys); [done| |by apply sublist_inserts_r|].
    + by rewrite Hop, <-app_assoc.
    + rewrite Hop. change (l ++ z :: ys ++ [y]) with (l ++ (z :: ys) ++ [y]).
      rewrite app_assoc, vec_pop_app. by rewrite <-app_assoc.
Qed.

Lemma Keeps_when c k b x f :
  Good b → (∃ h, x = Ok h ∧ (h = true → Keeps c k b (f b))) → Keeps c k b (when x f b).
Proof. intros HG (h & -> & Hf). unfold when. cbn. destruct h; [by apply Hf|by apply Keeps_ret]. Qed.

Lemma Good_current b :
  Good b → ∃ x t, current_node b = Ok x ∧ last b.(open_elements) = Some x ∧ tg b.(document) x = Some t
    ∧ x ∈ b.(open_elements).
Proof.
  intros HG. destruct (Good_Based b HG) as [bs HB].
  destruct (current_spot b (go_core _ HG) (Based_nonempty _ _ HB)) as (x & ? & ? & Hin & _).
  destruct (co_elem _ (go_core _ HG) x Hin) as [t Ht]. by exists x, t.
Qed.

Lemma K_pop_current b s :
  Good b → ordinary (str s) →
  Keeps 0 0 b (when (is_current b s) (λ b, Ok (set_open (vec_pop b.(open_elements)) b)) b).
Proof.
  intros HG Ho. destruct (Good_current b HG) as (x & t & Hc & Hl & Ht & _). apply Keeps_when; [done|].
  unfold is_current. rewrite Hc. cbn [mbind res_bind]. rewrite (tag_of_tg _ _ _ Ht). cbn [mbind res_bind].
  eexists; split; [done|]. intros ->%tag_is_spec. by eapply K_pop.
Qed.

(** ** Elements pushed with their id *)
Lemma insert_good b name attrs :
  Good b → ordinary name → room 1 b →
  ∃ id b', insert_element b name attrs = Ok (id, b') ∧ Good b' ∧ skel b' = skel b ∧ moves 1 0 b b'
    ∧ b'.(open_elements) = b.(open_elements) ++ pushed name id ∧ tg b'.(document) id = Some name
    ∧ id ∉ afe_ids b.(active_formatting) ∧ b'.(active_formatting) = b.(active_formatting)
    ∧ b'.(form_element) = b.(form_element).
Proof.
  intros HG Ho Hr. destruct (Good_Based b HG) as [bs HB].
  destruct (insert_based bs b name attrs HB Ho Hr) as (id & b' & H & HB' & Hm & Hop & Ht & Hnl & Ha & Hf).
  exists id, b'. destruct (Keeps_of bs 1 0 b (Ok b') HG HB) as (b1 & [= <-] & HG' & Hs & _); [by exists b'|].
  split_and!; try done. intros Hin. apply Hnl. by apply co_afe_live; [apply HG|].
Qed.

Lemma Good_afe b afe : Core (set_afe afe b) → Good b → Good (set_afe afe b) ∧ skel (set_afe afe b) = skel b.
Proof. intros HC [_ Hg Ht]. by split. Qed.

Lemma K_push_element b name attrs :
  Good b → name ∈ FORMATTING_ELEMENTS → room 1 b →
  Keeps 1 1 b ('(id, b) ← insert_element b name attrs; push_formatting b id name attrs).
Proof.
  intros HG Hf Hr. destruct (insert_good b name attrs HG (formatting_ordinary _ Hf) Hr) as
    (id & b1 & -> & HG1 & Hs1 & Hm1 & Ho1 & Ht1 & Hn1 & Ha1 & _). cbn [mbind res_bind].
  unfold pushed in Ho1. rewrite (formatting_not_void _ Hf) in Ho1.
  destruct (push_formatting_spec b1 b.(open_elements) id name attrs) as (afe & -> & HC2 & Hlen); try done.
  { apply HG1. } { by rewrite Ha1. }
  destruct (Good_afe b1 afe HC2 HG1) as [HG2 Hs2]. eexists; split; [done|]. split; [done|].
  split; [congruence|]. destruct Hm1. split; try done. cbn. rewrite Ha1 in Hlen. lia.
Qed.

Lemma K_start_ordinary b name attrs :
  Good b → ordinary name → room (afe_len b + 1) b → Keeps (afe_len b + 1) 0 b (start_ordinary b name attrs).
Proof.
  intros HG Ho Hr. apply (Keeps_bind (afe_len b) 1 0 0); [apply K_reconstruct; [done|eapply room_le; [|done]; lia]|].
  intros b1 HG1 _ Hm1. apply K_insert; [done..|]. by eapply moves_room.
Qed.

Lemma K_start_formatting b name attrs :
  Good b → name ∈ FORMATTING_ELEMENTS → room (afe_len b + 1) b →
  Keeps (afe_len b + 1) 1 b (start_formatting b name attrs).
Proof.
  intros HG Ho Hr. apply (Keeps_bind (afe_len b) 1 0 1); [apply K_reconstruct; [done|eapply room_le; [|done]; lia]|].
  intros b1 HG1 _ Hm1. apply K_push_element; [done..|]. by eapply moves_room.
Qed.

Lemma K_start_block b name attrs :
  Good b → ordinary name → room 1 b → Keeps 1 0 b (start_block b name attrs).
Proof.
  intros HG Ho Hr. apply Keeps_then; [by apply K_close_p|]. intros b1 HG1 _ Hm1.
  apply K_insert; [done..|]. eapply (moves_room 0 0 1); [exact Hm1|done].
Qed.

(** ** Removing an element from the middle of the stack *)
Lemma stands_on_any t t' u : ordinary t → stands_on t u = true → stands_on t' u = true.
Proof.
  intros Ho. unfold stands_on.
  assert (∀ l, forallb (λ s, among (str s) STRUCTURE) l = true → one_of t l = true → False) as Hno.
  { intros l Hl (s & -> & Hs)%one_of_spec%list_elem_of_fmap. apply Ho, among_spec.
    rewrite forallb_forall in Hl. by apply Hl, list_elem_of_In. }
  destruct (one_of u _). { intros ->%tag_is_spec. destruct Ho. by apply among_spec. }
  destruct (tag_is u _). { intros H. exfalso. by eapply Hno; [|exact H]. }
  destruct (one_of u _); [|done]. intros ->%tag_is_spec. destruct Ho. by apply among_spec.
Qed.

Lemma tight_remove l t k : ordinary t → tight (l ++ t :: k) = true → tight (l ++ k) = true.
Proof.
  intros Ho. induction l as [|x l IH]; cbn.
  - destruct k; [done|]. by intros [_ ?]%andb_true_iff.
  - destruct l as [|y l]; cbn in *.
    + intros [_ H]%andb_true_iff. destruct k as [|u k]; [done|]. apply andb_true_iff in H as [H ->].
      by rewrite (stands_on_any t x u).
    + intros [-> H]%andb_true_iff. by apply IH.
Qed.

Lemma filter_every {A} (P : A → Prop) `{∀ x, Decision (P x)} (l : list A) :
  (∀ x, x ∈ l → P x) → filter P l = l.
Proof.
  induction l as [|x l IH]; [done|]. intros HP. rewrite filter_cons_True by (apply HP; by left).
  f_equal. apply IH. intros y Hy. apply HP. by right.
Qed.

Lemma Good_remove b id t :
  Good b → tg b.(document) id = Some t → ordinary t →
  Good (set_open (filter (λ x, x ≠ id) b.(open_elements)) b)
  ∧ skel (set_open (filter (λ x, x ≠ id) b.(open_elements)) b) = skel b.
Proof.
  intros [HC Hg Ht] Hid Ho. destruct (decide (id ∈ b.(open_elements))) as [Hin|Hin].
  2: { assert (filter (λ x, x ≠ id) b.(open_elements) = b.(open_elements)) as ->.
       { apply filter_every. by intros x Hx ->. }
       assert (set_open b.(open_elements) b = b) as -> by (by destruct b). done. }
  apply list_elem_of_split in Hin as (l1 & l2 & Hs). pose proof (co_nodup _ HC) as Hnd.
  assert (filter (λ x, x ≠ id) b.(open_elements) = l1 ++ l2) as ->.
  { rewrite Hs in *. apply NoDup_app in Hnd as (_ & H1 & [H2 _]%NoDup_cons).
    rewrite filter_app, filter_cons_False by (intros H; by apply H). f_equal; apply filter_every.
    - intros x Hx ->. apply (H1 id Hx). by left.
    - by intros x Hx ->. }
  unfold skel, tags in *. rewrite Hs in Hg, Ht |- *. cbn [document open_elements set_open].
  change (l1 ++ id :: l2) with (l1 ++ [id] ++ l2) in *.
  rewrite !tags_of_app, (tags_of_one _ _ _ Hid) in *. split; [|rewrite !skel_app; f_equal; rewrite (skel_ordinary [t]); [done|by apply Forall_singleton]].
  split; unfold tags; cbn [document open_elements set_open]; rewrite ?tags_of_app.
  - apply Core_open; [|done]. rewrite Hs. apply sublist_app; [reflexivity|]. by apply sublist_cons.
  - destruct (tags_of _ l1) as [|u l]; [|exact Hg]. exfalso. cbn in Hg. apply tag_is_spec in Hg as ->.
    apply Ho, among_spec. done.
  - by eapply tight_remove.
Qed.

Lemma K_forget b id t :
  Good b → tg b.(document) id = Some t → ordinary t → Keeps 0 0 b (Ok (forget_element id b)).
Proof.
  intros HG Hid Ho. destruct (Good_remove b id t HG Hid Ho) as [HG1 Hs1]. unfold forget_element.
  set (b1 := set_open _ b) in *. pose proof (filter_sublist (λ e, entry_is id e = false) b.(active_formatting)) as Hsub.
  assert (Core (set_afe (filter (λ e, entry_is id e = false) b.(active_formatting)) b1)) as HC.
  { apply Core_afe; [done|apply HG1]. }
  destruct (Good_afe b1 _ HC HG1) as [HG2 Hs2]. eexists; split; [done|]. split; [done|].
  split; [congruence|]. split; try done; cbn.
  - apply evolves_refl, HG.
  - apply sublist_length in Hsub. lia.
Qed.

(** ** Start tags *)
Lemma Keeps_seq c c1 c2 k k1 k2 b m (f : TreeBuilder → res TreeBuilder) :
  (c1 + c2 ≤ c)%N → k1 + k2 ≤ k → Keeps c1 k1 b m →
  (∀ b', Good b' → skel b' = skel b → moves c1 k1 b b' → Keeps c2 k2 b' (f b')) →
  Keeps c k b (m ≫= f).
Proof. intros Hc Hk Hm Hf. eapply Keeps_weaken; [exact Hc|exact Hk|]. by apply Keeps_bind. Qed.

Lemma afe_len_of c k b b' : moves c k b b' → (afe_len b' ≤ afe_len b + N.of_nat k)%N.
Proof. intros Hm. pose proof (mv_afe _ _ _ _ Hm). unfold afe_len. lia. Qed.

Lemma K_push_forget b existing :
  Good b → tg b.(document) existing = Some (str "a") → room 32 b →
  Keeps 32 0 b (b ← adoption_agency b (str "a"); Ok (forget_element existing b)).
Proof.
  intros HG Hex Hr. apply (Keeps_seq _ 32 0 _ 0 0); [done|done| |].
  { apply K_adoption; [done|by apply among_spec|done]. }
  intros b1 HG1 _ Hm1. eapply K_forget; [done|eapply ev_tag; [apply Hm1|done]|ordinary_tac].
Qed.

Lemma K_start_a b attrs :
  Good b → room (afe_len b + 33) b → Keeps (afe_len b + 33) 1 b (start_a b attrs).
Proof.
  intros HG Hr. unfold start_a. destruct (rposition_entry b (str "a")) as (o & -> & Ho). cbn [mbind res_bind].
  apply (Keeps_seq _ 32 (afe_len b + 1) _ 0 1); [lia|lia| |].
  - destruct o as [p|]; [|by apply Keeps_ret]. destruct Ho as (l1 & id & a & l2 & Hafe & <-).
    rewrite (afe_formatting_at_middle b l1 (id, str "a", a) l2 Hafe). cbn [mbind res_bind].
    apply K_push_forget; [done| |eapply room_le; [|done]; lia].
    eapply (co_afe _ (go_core _ HG)). rewrite Hafe. apply elem_of_app. right. left.
  - intros b1 HG1 _ Hm1. pose proof (afe_len_of _ _ _ _ Hm1) as Ha.
    eapply (Keeps_weaken (afe_len b1 + 1)); [lia|done|].
    apply (K_start_formatting b1 (str "a") attrs); [done|by apply among_spec|].
    eapply moves_room; [exact Hm1|]. eapply room_le; [|done]. lia.
Qed.

Lemma Keeps_start b b1 c k name attrs :
  moves c k b b1 → Good b1 → ordinary name → room (c + (afe_len b + N.of_nat k + 1)) b →
  Keeps (afe_len b + N.of_nat k + 1) 0 b1 (start_ordinary b1 name attrs).
Proof.
  intros Hm HG Ho Hr. pose proof (afe_len_of _ _ _ _ Hm). eapply (Keeps_weaken (afe_len b1 + 1) _ 0); [lia|done|].
  apply K_start_ordinary; [done..|]. eapply moves_room; [exact Hm|]. eapply room_le; [|done]. lia.
Qed.

(** Close something, then insert an ordinary element. *)
Lemma K_then_ordinary b m name attrs :
  Good b → Keeps 0 0 b m → ordinary name → room (afe_len b + 1) b →
  Keeps (afe_len b + 1) 0 b (b ← m; start_ordinary b name attrs).
Proof.
  intros HG Hm Ho Hr. apply Keeps_then; [done|]. intros b1 HG1 _ Hm1.
  eapply (Keeps_weaken (afe_len b + N.of_nat 0 + 1) _ 0); [lia|done|]. eapply Keeps_start; [exact Hm1|done..|].
  eapply room_le; [|done]. lia.
Qed.

Lemma K_then_insert b m name attrs :
  Good b → Keeps 0 0 b m → ordinary name → room 1 b →
  Keeps 1 0 b (b ← m; insert_element_ b name attrs).
Proof.
  intros HG Hm Ho Hr. apply Keeps_then; [done|]. intros b1 HG1 _ Hm1. apply K_insert; [done..|].
  by eapply (moves_room 0 0 1).
Qed.

Lemma has_select_Ok b : Good b → is_Ok (has_select b).
Proof.
  intros HG. destruct (Good_Based b HG) as [bs HB]. destruct (Based_split _ _ HB) as (xs & Ho & _).
  unfold has_select. destruct (has_tag_ordinary bs b xs (str "select") [] HB Ho) as (r & -> & _); [ordinary_tac|by exists r].
Qed.

Lemma K_start_option b name ex attrs :
  Good b → ordinary name → room (afe_len b + 1) b →
  Keeps (afe_len b + 1) 0 b (start_option b name ex attrs).
Proof.
  intros HG Ho Hr. unfold start_option. destruct (has_select_Ok b HG) as [sel ->]. cbn [mbind res_bind].
  apply K_then_ordinary; [done| |done..]. destruct sel; [by apply K_gen_implied|].
  apply K_pop_current; [done|ordinary_tac].
Qed.

Lemma K_start_heading b name attrs :
  Good b → ordinary name → room 1 b → Keeps 1 0 b (start_heading b name attrs).
Proof.
  intros HG Ho Hr. apply Keeps_then; [by apply K_close_p|]. intros b1 HG1 _ Hm1.
  destruct (Good_current b1 HG1) as (x & t & Hc & Hl & Ht & _). rewrite Hc. cbn [mbind res_bind].
  rewrite (tag_of_tg _ _ _ Ht). cbn [mbind res_bind].
  apply (K_then_insert b1 (Ok (if among (default [] (Some t)) HEADING_ELEMENTS
     then set_open (vec_pop (open_elements b1)) b1 else b1))); [done| |done|].
  - destruct (among _ _) eqn:E; [|by apply Keeps_ret]. apply among_spec in E.
    eapply K_pop; [done..|]. by apply heading_ordinary.
  - by eapply (moves_room 0 0 1).
Qed.
