(* ===== verification/HtmlBody.v ===== *)
(** * The rules of "in body" as a whole

    What [step_in_body] leaves on a good stack, for every token: the same skeleton, a table
    opened, a raw-text element entered, or the body ended. *)

From S2P Require Import Prelude Dom DomTree DomWalk DomOps HtmlTokenizer HtmlTree DomParents.
From S2P Require Import HtmlTreeInv HtmlModes HtmlStack HtmlFormatting HtmlAdoption HtmlAgency HtmlGood HtmlInBody.

(** ** Structural elements pushed *)
Lemma tags_Good b : Good b → ∃ l t, tags b = l ++ [t].
Proof.
  intros [_ Hg _]. destruct (list_snoc_case (tags b)) as [E|(l & t & E)]; [by rewrite E in Hg|eauto].
Qed.

Lemma insert_structural b l t name attrs :
  Good b → tags b = l ++ [t] → stands_on t name = true → among name VOID_ELEMENTS = false → room 1 b →
  ∃ id b', insert_element b name attrs = Ok (id, b') ∧ Good b' ∧ tags b' = tags b ++ [name] ∧ moves 1 0 b b'
    ∧ b'.(open_elements) = b.(open_elements) ++ [id] ∧ tg b'.(document) id = Some name
    ∧ ¬ live b.(document) id ∧ b'.(active_formatting) = b.(active_formatting)
    ∧ b'.(form_element) = b.(form_element).
Proof.
  intros HG Htg Hst Hv Hr. destruct (Good_Based b HG) as [bs HB].
  destruct (insert_element_spec b name attrs (go_core _ HG) (Based_nonempty _ _ HB) Hr)
    as (id & b' & H & Hm & HC & Ho & Hid & Hnl & Ha & Hf).
  unfold pushed in Ho. rewrite Hv in Ho. exists id, b'.
  assert (tags b' = tags b ++ [name]) as Htg'.
  { unfold tags. rewrite Ho, tags_of_app, (tags_of_one _ _ _ Hid). f_equal.
    eapply tags_of_evolves; [apply Hm|]. intros x. by apply co_live, HG. }
  split_and!; try done. split; [done|rewrite Htg', Htg..].
  - pose proof (go_ground _ HG) as Hg. rewrite Htg in Hg. by destruct l.
  - apply tight_snoc; [|done]. rewrite <-Htg. apply HG.
Qed.

(** Fields that the invariant does not read. *)
Ltac good_fields H := first [exact H | eapply (proj1 (Good_fields _ _ eq_refl eq_refl eq_refl eq_refl H))].

(** ** Merging attributes *)
Lemma merge_onto_spec b ok id attrs :
  Good b → id ∈ b.(open_elements) →
  ∃ d, merge_onto ok b id attrs = Ok (set_document d b) ∧ evolves 0 b.(document) d
    ∧ Good (set_document d b) ∧ tags (set_document d b) = tags b.
Proof.
  intros HG Hin. pose proof (go_core _ HG) as HC. unfold merge_onto.
  edestruct (data_mut_evolves b.(document) id) as (d & -> & E & Ht & Hpe);
    [apply HC|by apply co_live|by apply co_not_root| |].
  { intros dt. destruct dt; try done. cbn. by destruct (ok _). }
  exists d. split; [done|]. split; [done|].
  assert (tags (set_document d b) = tags b) as Htg.
  { unfold tags. cbn [document open_elements set_document]. eapply tags_of_evolves; [exact E|].
    intros x. by apply co_live. }
  split; [|done]. split; rewrite ?Htg; [|apply HG..]. by eapply Core_document_same.
Qed.

Lemma K_merge b ok id attrs :
  Good b → id ∈ b.(open_elements) → Keeps 0 0 b (merge_onto ok b id attrs).
Proof.
  intros HG Hin. destruct (merge_onto_spec b ok id attrs HG Hin) as (d & -> & E & HG' & Htg).
  eexists; split; [done|]. split; [done|]. split; [unfold skel; by rewrite Htg|]. by apply moves_document.
Qed.

(** ** Raw-text elements *)
Definition enter_text (cm : ContentModel) (b : TreeBuilder) : TreeBuilder :=
  set_mode Text (set_original_mode b.(mode) (set_tokenizer (set_content_model cm b.(tokenizer)) b)).

Lemma switch_to_text_spec b name attrs :
  Good b → ordinary name → among name VOID_ELEMENTS = false → room 1 b →
  ∃ b1 x cm, switch_to_text_mode b name attrs = Ok (enter_text cm b1) ∧ Good b1
    ∧ tags b1 = tags b ++ [name] ∧ moves 1 0 b b1 ∧ b1.(open_elements) = b.(open_elements) ++ [x]
    ∧ tg b1.(document) x = Some name ∧ (cm = CmScriptData → name = str "script").
Proof.
  intros HG Ho Hv Hr. destruct (tags_Good b HG) as (l & t & Htg).
  destruct (insert_structural b l t name attrs HG Htg (stands_on_ordinary _ _ Ho) Hv Hr)
    as (id & b1 & Hi & HG1 & Htg1 & Hm1 & Ho1 & Hid & _).
  unfold switch_to_text_mode, insert_element_. rewrite Hi. cbn [mbind res_bind].
  exists b1, id. eexists. split; [reflexivity|]. split_and!; try done.
  destruct (among name RCDATA_ELEMENTS); [done|]. destruct (tag_is name "script") eqn:E; [|done].
  intros _. by apply tag_is_spec in E.
Qed.

(** ** Outcomes *)
Definition body_cost (b : TreeBuilder) : N := (afe_len b + 40)%N.

(** What the callers know of an end tag. *)
Definition end_fits (b : TreeBuilder) (t : Token) : Prop :=
  match t with
  | EndTag n => (n = str "body" ∨ last (skel b) ≠ Some n) ∧ (n = str "table" → sscope "table" (rev (skel b)) = false)
  | _ => True
  end.

Inductive body_out (b : TreeBuilder) : Token → StepResult → TreeBuilder → Prop :=
  | out_keep t b' :
      Good b' → skel b' = skel b → moves (body_cost b) 1 b b' → body_out b t Done b'
  | out_table a s b1 :
      Good b1 → skel b1 = skel b ++ [str "table"] → moves (body_cost b) 1 b b1 →
      body_out b (StartTag (str "table") a s) Done (set_mode InTable b1)
  | out_text name a s b1 x cm :
      Good b1 → tags b1 = tags b ++ [name] → ordinary name → moves (body_cost b) 1 b b1 →
      b1.(open_elements) = b.(open_elements) ++ [x] → tg b1.(document) x = Some name →
      (cm = CmScriptData → name = str "script") →
      body_out b (StartTag name a s) Done (enter_text cm b1)
  | out_after n r :
      n = str "body" ∨ n = str "html" →
      sscope "body" (rev (skel b)) = true → (r = Done ∨ n = str "html" ∧ r = Reprocess (EndTag n)) →
      body_out b (EndTag n) r (set_mode AfterBody b).

Definition body_ok (b : TreeBuilder) (t : Token) (m : res (StepResult * TreeBuilder)) : Prop :=
  ∃ r b', m = Ok (r, b') ∧ body_out b t r b'.

Lemma body_keep c k b t m :
  Keeps c k b m → (c ≤ body_cost b)%N → k ≤ 1 → body_ok b t (then_finish m).
Proof.
  intros (b' & -> & HG & Hs & Hm) Hc Hk. exists Done, b'. split; [done|].
  apply out_keep; [done..|]. by eapply moves_weaken.
Qed.

Lemma body_same b t : Good b → body_ok b t (finish b).
Proof. intros HG. eapply (body_keep 0 0 b t (Ok b)); [by apply Keeps_ret|lia..]. Qed.

Lemma Keeps_strip c k b m v :
  Keeps c k b m → Keeps c k b (b ← m; Ok (set_strip v b)).
Proof.
  intros (b' & -> & HG & Hs & Hm). exists (set_strip v b'). split; [done|].
  destruct (Good_fields b' (set_strip v b') eq_refl eq_refl eq_refl eq_refl HG) as [HG' Hs'].
  split; [done|]. split; [congruence|]. destruct Hm. by split.
Qed.

Lemma Keeps_set_form b f :
  Good b → tg b.(document) f = Some (str "form") → Keeps 0 0 b (Ok (set_form (Some f) b)).
Proof.
  intros [HC Hg Ht] Hf. eexists; split; [done|]. split; [|split; [done|]].
  - split; [|done..]. destruct HC. split; try done. cbn. by intros ? [= <-].
  - split; try done; [apply evolves_refl, HC|]. cbn. lia.
Qed.

(** ** Start tags *)
Ltac name_case E :=
  match goal with |- context [if ?c then _ else _] => destruct c eqn:E end.

Lemma start_table_out b attrs s :
  Good b → room (body_cost b) b →
  body_ok b (StartTag (str "table") attrs s) (start_tag_in_body b (str "table") attrs).
Proof.
  intros HG Hr. unfold start_tag_in_body.
  change (body_ok b (StartTag (str "table") attrs s)
    (b ← (if b.(quirks_mode) then Ok b else close_p_if_open b);
     b ← insert_element_ b (str "table") attrs; finish (set_mode InTable b))).
  assert (Keeps 0 0 b (if b.(quirks_mode) then Ok b else close_p_if_open b)) as (b1 & -> & HG1 & Hs1 & Hm1).
  { destruct (quirks_mode b); [by apply Keeps_ret|by apply K_close_p]. }
  cbn [mbind res_bind]. destruct (tags_Good b1 HG1) as (l & t & Htg).
  destruct (insert_structural b1 l t (str "table") attrs) as (id & b2 & Hi & HG2 & Htg2 & Hm2 & _); [done..| |].
  { eapply (moves_room 0 0 1); [done|]. eapply room_le; [|done]. unfold body_cost. lia. }
  unfold insert_element_. rewrite Hi. cbn [mbind res_bind]. exists Done, (set_mode InTable b2). split; [done|].
  apply out_table; [done| |].
  - unfold skel in *. rewrite Htg2, skel_app, Hs1. done.
  - eapply (moves_weaken (0 + 1) _ (0 + 0)); [unfold body_cost; lia|lia|]. by eapply moves_trans.
Qed.

Lemma start_form_keeps b attrs :
  Good b → room 1 b →
  Keeps 1 0 b (b ← close_p_if_open b;
               '(id, b) ← insert_element b (str "form") attrs; Ok (set_form (Some id) b)).
Proof.
  intros HG Hr. apply Keeps_then; [by apply K_close_p|]. intros b1 HG1 _ Hm1.
  destruct (insert_good b1 (str "form") attrs HG1) as (id & b2 & -> & HG2 & Hs2 & Hm2 & _ & Ht2 & _);
    [ordinary_tac|by eapply (moves_room 0 0 1)|]. cbn [mbind res_bind].
  destruct (Keeps_set_form b2 id HG2 Ht2) as (b3 & [= <-] & HG3 & Hs3 & Hm3).
  eexists; split; [done|]. split; [done|]. split; [congruence|].
  exact (moves_trans 1 0 0 0 _ _ _ Hm2 Hm3).
Qed.

Lemma start_text_out b name attrs s strip :
  Good b → ordinary name → among name VOID_ELEMENTS = false → room (body_cost b) b →
  body_ok b (StartTag name attrs s)
    (b ← switch_to_text_mode b name attrs; finish (if strip : bool then set_strip true b else b)).
Proof.
  intros HG Ho Hv Hr. destruct (switch_to_text_spec b name attrs) as (b1 & x & cm & -> & HG1 & Htg & Hm & Hop & Hx & Hcm);
    [done..|eapply room_le; [|done]; unfold body_cost; lia|]. cbn [mbind res_bind].
  eexists Done, _. split; [reflexivity|].
  assert (moves (body_cost b) 1 b b1) as Hm' by (eapply moves_weaken; [..|exact Hm]; unfold body_cost; lia).
  destruct strip; [|by eapply out_text].
  change (set_strip true (enter_text cm b1)) with (enter_text cm (set_strip true b1)).
  eapply out_text; try done; [by apply (Good_fields b1)|]. destruct Hm'. by split.
Qed.

(** A name that none of the structural cases took. *)
Lemma ordinary_rest name :
  tag_is name "html" = false → tag_is name "body" = false → tag_is name "head" = false →
  one_of name ["caption"; "col"; "colgroup"; "tbody"; "td"; "tfoot"; "th"; "thead"; "tr"] = false →
  tag_is name "table" = false → ordinary name.
Proof.
  intros H1 H2 H3 H4 H5 Hin. unfold STRUCTURE in Hin. apply list_elem_of_fmap in Hin as (s & -> & Hs).
  repeat (apply elem_of_cons in Hs as [->|Hs]; [done|]). by apply elem_of_nil in Hs.
Qed.

Lemma body_cost_room c b : (c ≤ body_cost b)%N → room (body_cost b) b → room c b.
Proof. apply room_le. Qed.

Lemma cost_1 b : (1 ≤ body_cost b)%N.
Proof. unfold body_cost. lia. Qed.
Lemma cost_ord b : (afe_len b + 1 ≤ body_cost b)%N.
Proof. unfold body_cost. lia. Qed.
Lemma cost_a b : (afe_len b + 33 ≤ body_cost b)%N.
Proof. unfold body_cost. lia. Qed.
Lemma cost_32 b : (32 ≤ body_cost b)%N.
Proof. unfold body_cost. lia. Qed.
Lemma cost_0 b : (0 ≤ body_cost b)%N.
Proof. unfold body_cost. lia. Qed.
#[local] Hint Resolve cost_1 cost_ord cost_a cost_32 cost_0 : core.

(** [body_keep] with the room of the whole step. *)
Ltac keep_by c k lem :=
  eapply (body_keep c k); [lem|eauto|lia].

Lemma start_block_out b t name attrs :
  Good b → ordinary name → room (body_cost b) b → body_ok b t (then_finish (start_block b name attrs)).
Proof. intros HG Ho Hr. eapply (body_keep 1 0); [apply K_start_block; eauto using body_cost_room|auto..]. Qed.

Lemma start_ordinary_out b t name attrs :
  Good b → ordinary name → room (body_cost b) b → body_ok b t (then_finish (start_ordinary b name attrs)).
Proof.
  intros HG Ho Hr. eapply (body_keep (afe_len b + 1) 0); [apply K_start_ordinary; eauto using body_cost_room|auto..].
Qed.

Lemma then_finish_bind m (f : TreeBuilder → res TreeBuilder) :
  (b ← m; then_finish (f b)) = then_finish (b ← m; f b).
Proof. by destruct m. Qed.

Lemma finish_bind m (f : TreeBuilder → TreeBuilder) :
  (b ← m; finish (f b)) = then_finish (b ← m; Ok (f b)).
Proof. by destruct m. Qed.

(** The remaining element names: inputs, lists and text blocks. *)
Lemma start_button_keeps b attrs :
  Good b → room (afe_len b + 1) b →
  Keeps (afe_len b + 1) 0 b
    (b ← when (has_tag_in_scope b (str "button") [])
           (λ b, b ← generate_implied_end_tags b None; pop_until_and_including b (str "button")) b;
     start_ordinary b (str "button") attrs).
Proof.
  intros HG Hr. apply K_then_ordinary; [done| |ordinary_tac|done].
  apply (K_close_in_scope b (str "button")); [done|ordinary_tac|done].
Qed.

Lemma start_select_keeps b attrs :
  Good b → room (afe_len b + 1) b →
  Keeps (afe_len b + 1) 0 b
    (sel ← has_select b;
     if sel : bool then pop_until_and_including b (str "select") else start_ordinary b (str "select") attrs).
Proof.
  intros HG Hr. pose proof (K_pop_when b (str "select") [] HG ltac:(ordinary_tac)) as Hp.
  destruct (has_select_Ok b HG) as [sel Hsel]. unfold when in Hp. unfold has_select in Hsel.
  rewrite Hsel in Hp. unfold has_select. rewrite Hsel. cbn [mbind res_bind] in *. destruct sel.
  - by eapply Keeps_weaken; [..|exact Hp]; lia.
  - apply K_start_ordinary; [done|ordinary_tac|done].
Qed.

Lemma start_hr_keeps b attrs :
  Good b → room 1 b →
  Keeps 1 0 b (b ← close_p_if_open b;
               b ← when (has_select b) (λ b, generate_implied_end_tags b None) b;
               insert_element_ b (str "hr") attrs).
Proof.
  intros HG Hr. apply Keeps_then; [by apply K_close_p|]. intros b1 HG1 _ Hm1.
  apply K_then_insert; [done| |ordinary_tac|by eapply (moves_room 0 0 1)].
  apply Keeps_when; [done|]. destruct (has_select_Ok b1 HG1) as [sel ->]. exists sel. split; [done|].
  intros _. by apply K_gen_implied.
Qed.

Lemma start_input_keeps b attrs :
  Good b → room (afe_len b + 1) b →
  Keeps (afe_len b + 1) 0 b
    (b ← when (has_select b) (λ b, pop_until_and_including b (str "select")) b;
     start_ordinary b (str "input") attrs).
Proof.
  intros HG Hr. apply K_then_ordinary; [done| |ordinary_tac|done].
  apply (K_pop_when b (str "select") []); [done|ordinary_tac].
Qed.

Lemma start_li_keeps b attrs :
  Good b → room 1 b → Keeps 1 0 b (b ← close_li_if_open b; start_block b (str "li") attrs).
Proof.
  intros HG Hr. apply Keeps_then; [by apply K_close_li|]. intros b1 HG1 _ Hm1.
  apply K_start_block; [done|ordinary_tac|by eapply (moves_room 0 0 1)].
Qed.

Lemma raw_text_names name :
  one_of name ["textarea"; "script"; "style"; "title"] = true → ordinary name ∧ among name VOID_ELEMENTS = false.
Proof.
  intros (s & -> & Hs)%one_of_spec%list_elem_of_fmap.
  repeat (apply elem_of_cons in Hs as [->|Hs]; [split; [ordinary_tac|done]|]). by apply elem_of_nil in Hs.
Qed.

(** The names whose rules only insert ordinary elements. *)
Lemma start_rest_out b name attrs s :
  Good b → ordinary name → room (body_cost b) b →
  body_ok b (StartTag name attrs s)
    (if among name FORMATTING_ELEMENTS then then_finish (start_formatting b name attrs)
     else if among name HEADING_ELEMENTS then then_finish (start_heading b name attrs)
     else if among name P_CLOSING_ELEMENTS then then_finish (start_block b name attrs)
     else if among name VOID_ELEMENTS then then_finish (start_ordinary b name attrs)
     else then_finish (start_ordinary b name attrs)).
Proof.
  intros HG Ho Hr. name_case E1.
  { apply among_spec in E1. eapply (body_keep (afe_len b + 1) 1); [|auto..].
    apply K_start_formatting; eauto using body_cost_room. }
  name_case E2.
  { eapply (body_keep 1 0); [|auto..]. apply K_start_heading; eauto using body_cost_room. }
  name_case E3; [by apply start_block_out|]. name_case E4; by apply start_ordinary_out.
Qed.

Lemma start_widgets_out b name attrs s :
  Good b → ordinary name → room (body_cost b) b →
  body_ok b (StartTag name attrs s)
    (if one_of name ["textarea"; "script"; "style"; "title"] then
       b ← switch_to_text_mode b name attrs;
       finish (if tag_is name "textarea" then set_strip true b else b)
     else if tag_is name "pre" then
       b ← start_block b (str "pre") attrs;
       finish (set_strip true b)
     else if tag_is name "select" then
       sel ← has_select b;
       then_finish (if sel : bool then pop_until_and_including b (str "select")
                  else start_ordinary b (str "select") attrs)
     else if tag_is name "option" then
       then_finish (start_option b (str "option") (Some (str "optgroup")) attrs)
     else if tag_is name "optgroup" then then_finish (start_option b (str "optgroup") None attrs)
     else if tag_is name "hr" then
       b ← close_p_if_open b;
       b ← when (has_select b) (λ b, generate_implied_end_tags b None) b;
       then_finish (insert_element_ b (str "hr") attrs)
     else if tag_is name "input" then
       b ← when (has_select b) (λ b, pop_until_and_including b (str "select")) b;
       then_finish (start_ordinary b (str "input") attrs)
     else if among name FORMATTING_ELEMENTS then then_finish (start_formatting b name attrs)
     else if among name HEADING_ELEMENTS then then_finish (start_heading b name attrs)
     else if among name P_CLOSING_ELEMENTS then then_finish (start_block b name attrs)
     else if among name VOID_ELEMENTS then then_finish (start_ordinary b name attrs)
     else then_finish (start_ordinary b name attrs)).
Proof.
  intros HG Ho Hr. name_case E1.
  { apply raw_text_names in E1 as [? ?]. by apply start_text_out. }
  name_case E2.
  { rewrite finish_bind. eapply (body_keep 1 0); [|auto..].
    apply Keeps_strip, K_start_block; [done|ordinary_tac|eauto using body_cost_room]. }
  name_case E3.
  { assert (∀ m (f g : res TreeBuilder), (sel ← m; then_finish (if sel : bool then f else g))
      = then_finish (sel ← m; if sel : bool then f else g)) as -> by (by intros []).
    eapply (body_keep (afe_len b + 1) 0); [|auto..]. apply start_select_keeps; eauto using body_cost_room. }
  name_case E4.
  { eapply (body_keep (afe_len b + 1) 0); [|auto..]. apply K_start_option; [done|ordinary_tac|eauto using body_cost_room]. }
  name_case E5.
  { eapply (body_keep (afe_len b + 1) 0); [|auto..]. apply K_start_option; [done|ordinary_tac|eauto using body_cost_room]. }
  name_case E6.
  { assert (∀ m (f g : TreeBuilder → res TreeBuilder), (b ← m; b ← f b; then_finish (g b))
      = then_finish (b ← m; b ← f b; g b)) as ->.
    { intros [b0| |] f g; try done. cbn [mbind res_bind]. apply then_finish_bind. }
    eapply (body_keep 1 0); [|auto..]. apply start_hr_keeps; eauto using body_cost_room. }
  name_case E7.
  { rewrite then_finish_bind. eapply (body_keep (afe_len b + 1) 0); [|auto..].
    apply start_input_keeps; eauto using body_cost_room. }
  by apply start_rest_out.
Qed.

Lemma start_out b name attrs s :
  Good b → room (body_cost b) b →
  body_ok b (StartTag name attrs s) (start_tag_in_body b name attrs).
Proof.
  intros HG Hr. unfold start_tag_in_body. name_case E1.
  { destruct (head (open_elements b)) as [h|] eqn:Eh; [|by apply body_same].
    eapply (body_keep 0 0); [|auto..]. apply K_merge; [done|]. apply head_Some_elem_of in Eh. done. }
  name_case E2.
  { destruct (open_elements b !! 1) as [h|] eqn:Eh; [|by apply body_same].
    eapply (body_keep 0 0); [|auto..]. apply K_merge; [done|]. by eapply list_elem_of_lookup_2. }
  name_case E3; [by apply body_same|]. name_case E4; [by apply body_same|]. name_case E5.
  { apply tag_is_spec in E5 as ->. apply (start_table_out b attrs s HG Hr). }
  assert (ordinary name) as Ho by (by apply ordinary_rest).
  name_case E6.
  { destruct (form_element b) as [f|] eqn:Ef; [by apply body_same|].
    assert (∀ m, (b ← m; '(id, b) ← insert_element b (str "form") attrs; finish (set_form (Some id) b))
      = then_finish (b ← m; '(id, b) ← insert_element b (str "form") attrs; Ok (set_form (Some id) b))) as ->.
    { intros [b0| |]; try done. cbn [mbind res_bind]. by destruct (insert_element b0 _ _) as [[? ?]| |]. }
    eapply (body_keep 1 0); [|auto..]. apply start_form_keeps; eauto using body_cost_room. }
  name_case E7.
  { rewrite then_finish_bind. eapply (body_keep 1 0); [|auto..]. apply start_li_keeps; eauto using body_cost_room. }
  name_case E8.
  { rewrite then_finish_bind. eapply (body_keep (afe_len b + 1) 0); [|auto..].
    apply start_button_keeps; eauto using body_cost_room. }
  name_case E9.
  { eapply (body_keep (afe_len b + 33) 1); [|auto..]. apply K_start_a; eauto using body_cost_room. }
  by apply start_widgets_out.
Qed.

(** ** End tags *)
Lemma p_closing_cases name :
  among name P_CLOSING_ELEMENTS = true →
  name = str "table" ∨ name = str "p" ∨ name = str "li" ∨ (ordinary name ∧ among name IMPLIED_END_TAGS = false).
Proof.
  intros Hin%among_spec. unfold P_CLOSING_ELEMENTS in Hin. apply list_elem_of_fmap in Hin as (s & -> & Hs).
  repeat (apply elem_of_cons in Hs as [->|Hs];
    [first [by left|by right; left|by right; right; left|right; right; right; split; [ordinary_tac|done]]|]).
  by apply elem_of_nil in Hs.
Qed.

Lemma has_p_top b o x :
  b.(open_elements) = o ++ [x] → tg b.(document) x = Some (str "p") → has_p_in_button_scope b = Ok true.
Proof.
  intros Ho Hx. unfold has_p_in_button_scope, has_tag_in_scope. rewrite Ho, rev_snoc. cbn [scope_walk].
  rewrite (tag_of_tg _ _ _ Hx). cbn [mbind res_bind]. by rewrite bool_decide_true.
Qed.

Lemma end_p_keeps b :
  Good b → room 1 b →
  Keeps 1 0 b (h ← has_p_in_button_scope b;
               b ← (if h : bool then Ok b else insert_element_ b (str "p") []); close_p_element b).
Proof.
  intros HG Hr. pose proof (K_close_p b HG) as Hc. unfold close_p_if_open, when in Hc.
  assert (is_Ok (has_p_in_button_scope b)) as [h Hh].
  { destruct Hc as (b' & H & _). destruct (has_p_in_button_scope b); [by eexists|done..]. }
  rewrite Hh in *. cbn [mbind res_bind] in *. destruct h; [by eapply Keeps_weaken; [..|exact Hc]|].
  destruct (insert_good b (str "p") [] HG) as (id & b1 & Hi & HG1 & Hs1 & Hm1 & Ho1 & Ht1 & _); [ordinary_tac|done|].
  unfold insert_element_. rewrite Hi. cbn [mbind res_bind]. pose proof (K_close_p b1 HG1) as Hc1.
  unfold close_p_if_open, when in Hc1. rewrite (has_p_top b1 (open_elements b) id) in Hc1 by done.
  cbn [mbind res_bind] in Hc1. destruct Hc1 as (b2 & -> & HG2 & Hs2 & Hm2).
  eexists; split; [done|]. split; [done|]. split; [congruence|]. exact (moves_trans 1 0 0 0 _ _ _ Hm1 Hm2).
Qed.

Lemma end_out b name :
  Good b → end_fits b (EndTag name) → room (body_cost b) b →
  body_ok b (EndTag name) (end_tag_in_body b name).
Proof.
  intros HG [Hlast Htab] Hr. unfold end_tag_in_body. name_case E1.
  { rewrite (has_structural b "body") by (apply HG || by apply among_spec). cbn [mbind res_bind].
    destruct (sscope "body" _) eqn:Es; [|by apply body_same]. cbn [negb].
    assert (name = str "body" ∨ name = str "html") as Hn.
    { apply one_of_spec, list_elem_of_fmap in E1 as (s & -> & Hs).
      repeat (apply elem_of_cons in Hs as [->|Hs]; [by auto|]). by apply elem_of_nil in Hs. }
    destruct (tag_is name "html") eqn:E2.
    - apply tag_is_spec in E2. eexists _, _. split; [done|]. apply out_after; [done..|]. by right.
    - eexists _, _. split; [done|]. apply out_after; [done..|]. by left. }
  name_case E2; [apply start_ordinary_out; [done|ordinary_tac|done]|].
  name_case E3.
  { assert (∀ m (f : bool → res TreeBuilder), (h ← m; b ← f h; then_finish (close_p_element b))
      = then_finish (h ← m; b ← f h; close_p_element b)) as ->.
    { intros [h| |] f; try done. cbn [mbind res_bind]. apply then_finish_bind. }
    eapply (body_keep 1 0); [|auto..]. apply end_p_keeps; eauto using body_cost_room. }
  name_case E4; [eapply (body_keep 0 0); [by apply K_close_li|auto..]|].
  name_case E5.
  { eapply (body_keep 0 0); [|auto..]. apply K_close_in_scope; [done|ordinary_tac|done]. }
  name_case E6; [eapply (body_keep 0 0); [by apply K_end_form|auto..]|].
  name_case E7; [eapply (body_keep 0 0); [by apply K_end_heading|auto..]|].
  name_case E8.
  { apply among_spec in E8. eapply (body_keep 32 0); [|auto..]. apply K_adoption; eauto using body_cost_room. }
  name_case E9; [|eapply (body_keep 0 0); [apply K_any_other; [done|by destruct Hlast as [->|]]|auto..]].
  eapply (body_keep 0 0); [|auto..]. destruct (p_closing_cases name E9) as [->|[->|[->|[Ho Hi]]]]; [|done|done|].
  - unfold close_in_scope, when. rewrite (has_structural b "table") by (apply HG || by apply among_spec).
    rewrite Htab by done. by apply Keeps_ret.
  - by apply K_close_in_scope.
Qed.

(** ** Every token *)
Lemma consume_strip_keeps c k b m (s : list N) :
  Keeps c k b m → Keeps c k b (b ← m; Ok (consume_leading_newline_strip b s).2).
Proof.
  intros Hk. unfold consume_leading_newline_strip.
  destruct Hk as (b' & -> & HG & Hs & Hm). cbn [mbind res_bind].
  assert (Keeps 0 0 b' (b ← Ok b'; Ok (set_strip false b))) as (b2 & Hb2%Ok_inj & HG2 & Hs2 & Hm2)
    by (by apply Keeps_strip, Keeps_ret).
  subst b2.
  destruct (strip_leading_newline b'); [|by exists b'].
  eexists; split; [done|]. split; [done|]. split; [exact Hs|].
  pose proof (moves_trans _ _ _ _ _ _ _ Hm Hm2) as Hm3. by rewrite N.add_0_r, Nat.add_0_r in Hm3.
Qed.

Lemma insert_stripped_keeps b s :
  Good b → room 1 b →
  Keeps 1 0 b (let '(s, b) := consume_leading_newline_strip b s in insert_text b s).
Proof.
  intros HG Hr. destruct (consume_strip_keeps 0 0 b (Ok b) s (Keeps_ret _ _ _ HG)) as (b1 & Hb1 & HG1 & Hs1 & Hm1).
  apply Ok_inj in Hb1. destruct (consume_leading_newline_strip b s) as [s' b1']. cbn in Hb1. subst b1'.
  destruct (K_insert_text b1 s' HG1) as (b2 & -> & HG2 & Hs2 & Hm2); [by eapply (moves_room 0 0 1)|].
  eexists; split; [done|]. split; [done|]. split; [congruence|]. exact (moves_trans 0 1 0 0 _ _ _ Hm1 Hm2).
Qed.

Lemma step_in_body_out b t :
  Good b → end_fits b t → room (body_cost b) b → body_ok b t (step_in_body b t).
Proof.
  intros HG Hf Hr. destruct t as [| |n attrs sc|n|s|]; try (by apply body_same).
  - by apply start_out.
  - by apply end_out.
  - cbn [step_in_body].
    assert (∀ m, (b ← m; let '(s, b) := consume_leading_newline_strip b (strip_null_characters s) in
        then_finish (insert_text b s))
      = then_finish (b ← m; let '(s, b) := consume_leading_newline_strip b (strip_null_characters s) in
          insert_text b s)) as ->.
    { intros [b0| |]; try done. cbn [mbind res_bind]. by destruct (consume_leading_newline_strip b0 _). }
    eapply (body_keep (afe_len b + 1) 0); [|auto..].
    apply (Keeps_seq _ (afe_len b) 1 _ 0 0); [done|done| |].
    + apply K_reconstruct; [done|]. eapply room_le; [|done]. unfold body_cost. lia.
    + intros b1 HG1 _ Hm1. apply insert_stripped_keeps; [done|]. eapply moves_room; [done|].
      eapply room_le; [|done]. auto.
Qed.
