(* ===== verification/HtmlShape.v ===== *)
(** * Structural pops and the shapes of the stack

    Pops that stop at a structural element cut the skeleton where it stands.  The skeletons that
    each insertion mode can meet are listed; [w] admits the ones that a mismatched cell end tag
    leaves behind. *)

From S2P Require Import Prelude Dom DomTree DomWalk DomOps HtmlTokenizer HtmlTree DomParents.
From S2P Require Import HtmlTreeInv HtmlModes HtmlStack HtmlFormatting HtmlAdoption HtmlAgency HtmlGood HtmlInBody HtmlBody.

(** ** Cutting the stack *)
Lemma Good_prefix b o k :
  Good b → b.(open_elements) = o ++ k → o ≠ [] → Good (set_open o b).
Proof.
  intros [HC Hg Ht] Ho Hne. unfold tags in *. rewrite Ho, tags_of_app in Hg, Ht.
  assert (tags_of b.(document) o ≠ []) as Hne'.
  { destruct o as [|x o]; [done|]. destruct (co_elem _ HC x) as [t Hx]; [rewrite Ho; by left|].
    unfold tags_of. csimpl. by rewrite Hx. }
  split; unfold tags; cbn [document open_elements set_open].
  - apply Core_open; [|done]. rewrite Ho. by apply sublist_inserts_r.
  - by rewrite grounded_app in Hg.
  - by eapply tight_prefix.
Qed.

(** A structural element of the skeleton, found in the stack. *)
Lemma skel_split d l s1 u s2 :
  (∀ x, x ∈ l → ∃ t, tg d x = Some t) → skel_of (tags_of d l) = s1 ++ u :: s2 →
  ∃ o1 y o2, l = o1 ++ y :: o2 ∧ tg d y = Some u ∧ skel_of (tags_of d o1) = s1
    ∧ skel_of (tags_of d o2) = s2.
Proof.
  revert s1. induction l as [|x l IH]; intros s1 Hel Hs; [by destruct s1|].
  destruct (Hel x) as [t Hx]; [by left|].
  change (x :: l) with ([x] ++ l) in Hs. rewrite tags_of_app, skel_app, (tags_of_one _ _ _ Hx) in Hs.
  assert (∀ x, x ∈ l → ∃ t, tg d x = Some t) as Hel' by (intros y Hy; apply Hel; by right).
  unfold skel_of at 1 in Hs. destruct (decide (t ∈ STRUCTURE)) as [Hst|Hst].
  - rewrite filter_cons_True in Hs by done. cbn [filter list_filter app] in Hs. destruct s1 as [|v s1].
    + injection Hs as -> Hs. by exists [], x, l.
    + injection Hs as -> Hs. destruct (IH s1 Hel' Hs) as (o1 & y & o2 & -> & Hy & H1 & H2).
      exists (x :: o1), y, o2. split_and!; try done. change (x :: o1) with ([x] ++ o1).
      rewrite tags_of_app, skel_app, (tags_of_one _ _ _ Hx), H1. unfold skel_of.
      by rewrite filter_cons_True.
  - rewrite filter_cons_False in Hs by done. cbn [filter list_filter app] in Hs.
    destruct (IH s1 Hel' Hs) as (o1 & y & o2 & -> & Hy & H1 & H2).
    exists (x :: o1), y, o2. split_and!; try done. change (x :: o1) with ([x] ++ o1).
    rewrite tags_of_app, skel_app, (tags_of_one _ _ _ Hx), H1. unfold skel_of.
    by rewrite filter_cons_False.
Qed.

(** [stop] holds of none of the elements above. *)
Lemma stop_above d (stop : option (list N) → bool) l :
  (∀ x, x ∈ l → ∃ t, tg d x = Some t) → (∀ t, ordinary t → stop (Some t) = false) →
  (∀ t, t ∈ skel_of (tags_of d l) → stop (Some t) = false) →
  Forall (λ z, live d z ∧ stop (tg d z) = false) l.
Proof.
  intros Hel Hord Hsk. apply Forall_forall. intros z Hz. destruct (Hel z Hz) as [t Ht].
  split; [by eapply tg_live|]. rewrite Ht. destruct (decide (t ∈ STRUCTURE)) as [Hs|Hs]; [|by apply Hord].
  apply Hsk. apply list_elem_of_filter. split; [done|]. apply list_elem_of_omap. eauto.
Qed.

Lemma pop_until_exact d stop l y xs :
  Forall (λ z, live d z ∧ stop (tg d z) = false) xs → live d y → stop (tg d y) = true →
  pop_until d stop (rev (l ++ y :: xs)) = Ok (rev (l ++ [y])).
Proof.
  intros Hxs Hy Hs. induction xs as [|z xs IH] using rev_ind.
  - rewrite rev_snoc. cbn [pop_until]. rewrite tag_of_live by done. cbn [mbind res_bind]. by rewrite Hs.
  - apply Forall_app in Hxs as [Hxs [[Hz Hzs] _]%Forall_cons].
    change (l ++ y :: xs ++ [z]) with (l ++ (y :: xs) ++ [z]). rewrite app_assoc, rev_snoc. cbn [pop_until].
    rewrite tag_of_live by done. cbn [mbind res_bind]. rewrite Hzs. by apply IH.
Qed.

(** Popping down to, and through, the last element of the skeleton that satisfies [stop]. *)
Section Pops.
Context (b : TreeBuilder) (stop : option (list N) → bool) (s1 : list (list N)) (u : list N) (s2 : list (list N)).
Hypotheses (HG : Good b) (Hs : skel b = s1 ++ u :: s2) (Hu : stop (Some u) = true).
Hypotheses (Hord : ∀ t, ordinary t → stop (Some t) = false) (Habove : ∀ t, t ∈ s2 → stop (Some t) = false).

Lemma pop_until_structural :
  ∃ o l, on_stack (pop_until b.(document) stop) b = Ok (set_open o b) ∧ Good (set_open o b)
    ∧ tags (set_open o b) = l ++ [u] ∧ skel (set_open o b) = s1 ++ [u].
Proof using All.
  pose proof (co_elem _ (go_core _ HG)) as Hel.
  destruct (skel_split b.(document) b.(open_elements) s1 u s2) as (o1 & y & o2 & Ho & Hy & H1 & H2); [done..|].
  assert (Forall (λ z, live (document b) z ∧ stop (tg (document b) z) = false) o2) as Hab.
  { apply stop_above; [|done|by rewrite H2]. intros x Hx. apply Hel. rewrite Ho. apply elem_of_app. right. by right. }
  exists (o1 ++ [y]), (tags_of b.(document) o1). unfold on_stack. rewrite Ho.
  rewrite pop_until_exact; [|done|by eapply tg_live|by rewrite Hy]. cbn [mbind res_bind]. rewrite rev_involutive.
  assert (tags_of (document b) (o1 ++ [y]) = tags_of (document b) o1 ++ [u]) as Htg
    by (by rewrite tags_of_app, (tags_of_one _ _ _ Hy)).
  split; [done|]. split; [|split].
  - apply (Good_prefix b (o1 ++ [y]) o2 HG); [by rewrite <-app_assoc|by destruct o1].
  - exact Htg.
  - unfold skel, tags. cbn [document open_elements set_open]. rewrite Htg, skel_app, H1. f_equal.
    unfold skel_of. rewrite filter_cons_True; [done|]. destruct (decide (u ∈ STRUCTURE)); [done|].
    by rewrite Hord in Hu.
Qed.

Lemma pop_through_structural :
  s1 ≠ [] →
  ∃ o, on_stack (pop_through b.(document) stop) b = Ok (set_open o b) ∧ Good (set_open o b)
    ∧ skel (set_open o b) = s1.
Proof using All.
  intros Hne. pose proof (co_elem _ (go_core _ HG)) as Hel.
  destruct (skel_split b.(document) b.(open_elements) s1 u s2) as (o1 & y & o2 & Ho & Hy & H1 & H2); [done..|].
  assert (Forall (λ z, live (document b) z ∧ stop (tg (document b) z) = false) o2) as Hab.
  { apply stop_above; [|done|by rewrite H2]. intros x Hx. apply Hel. rewrite Ho. apply elem_of_app. right. by right. }
  exists o1. unfold on_stack. rewrite Ho.
  rewrite pop_through_spec; [|done|by eapply tg_live|by rewrite Hy]. cbn [mbind res_bind]. rewrite rev_involutive.
  split; [done|]. split; [|exact H1]. apply (Good_prefix b o1 (y :: o2) HG Ho). intros ->. by apply Hne.
Qed.
End Pops.

Lemma moves_open o b : Core b → moves 0 0 b (set_open o b).
Proof. intros HC. split; try done; [apply evolves_refl, HC|cbn; lia]. Qed.

(** ** The mode that the stack calls for *)
Lemma not_tag_is t s : ordinary t → str s ∈ STRUCTURE → tag_is t s = false.
Proof. intros Ho Hs. apply bool_decide_eq_false. by intros ->. Qed.

Lemma not_one_of t l : ordinary t → Forall (λ s, str s ∈ STRUCTURE) l → one_of t l = false.
Proof.
  intros Ho Hl. apply not_true_iff_false. intros (s & -> & Hs)%one_of_spec%list_elem_of_fmap.
  rewrite Forall_forall in Hl. by apply Ho, Hl.
Qed.

Ltac structural := repeat constructor; apply among_spec; reflexivity.

Lemma frame_ordinary hs t : ordinary t → frame_mode hs t = None.
Proof.
  intros Ho. unfold frame_mode. rewrite !not_one_of by (done || structural).
  by rewrite !not_tag_is by (done || structural).
Qed.

Lemma reset_structural b u m :
  Good b → last (skel b) = Some u → frame_mode (bool_decide (is_Some b.(head_element))) u = Some m →
  reset_insertion_mode b = Ok (set_mode m b).
Proof.
  intros HG Hl Hm. destruct (Good_Based b HG) as [bs HB].
  destruct (Based_last bs b HB) as (l & z & t & xs & -> & Hz & _ & Ho & Hxs & _).
  destruct (Based_skel_last _ b HB) as (l' & z' & t' & [_ <-]%app_inj_tail & Hz' & Hl').
  assert (t = u) as -> by congruence. unfold reset_insertion_mode. rewrite Ho.
  assert (reset_walk b.(document) (bool_decide (is_Some b.(head_element))) (rev (l ++ z :: xs)) = Ok m) as ->; [|done].
  clear Ho. induction xs as [|x xs IH] using rev_ind.
  - rewrite rev_snoc. cbn [reset_walk]. rewrite (tag_of_tg _ _ _ Hz). cbn [mbind res_bind option_bind]. by rewrite Hm.
  - apply Forall_app in Hxs as [Hxs [(tx & Hx & Hox) _]%Forall_cons].
    change (l ++ z :: xs ++ [x]) with (l ++ (z :: xs) ++ [x]). rewrite app_assoc, rev_snoc. cbn [reset_walk].
    rewrite (tag_of_tg _ _ _ Hx). cbn [mbind res_bind option_bind]. rewrite frame_ordinary by done. by apply IH.
Qed.

(** ** Shapes *)
Abbreviation Thtml := (str "html").
Abbreviation Thead := (str "head").
Abbreviation Tbody := (str "body").
Abbreviation Ttable := (str "table").
Abbreviation Ttr := (str "tr").

Definition is_section (t : list N) : Prop := t = str "tbody" ∨ t = str "thead" ∨ t = str "tfoot".
Definition is_cell (t : list N) : Prop := t = str "td" ∨ t = str "th".

(** Skeletons on which a flow of body content stands. *)
Inductive base : list (list N) → Prop :=
  | base_body : base [Thtml; Tbody]
  | base_caption l : base l → base (l ++ [Ttable; str "caption"])
  | base_cell l s c : base l → is_section s → is_cell c → base (l ++ [Ttable; s; Ttr; c]).

Definition in_cell (s : list (list N)) : Prop :=
  ∃ l x c, base l ∧ is_section x ∧ is_cell c ∧ s = l ++ [Ttable; x; Ttr; c].
Definition in_row (s : list (list N)) : Prop :=
  ∃ l x, base l ∧ is_section x ∧ s = l ++ [Ttable; x; Ttr].
Definition in_section (s : list (list N)) : Prop :=
  ∃ l x, base l ∧ is_section x ∧ s = l ++ [Ttable; x].
Definition in_colgroup (s : list (list N)) : Prop := ∃ l, base l ∧ s = l ++ [Ttable; str "colgroup"].
Definition in_table (s : list (list N)) : Prop := ∃ l, base l ∧ s = l ++ [Ttable].

(** [w]: a cell may be open although the mode says otherwise. *)
Definition body_shape (w : bool) (m : Mode) (s : list (list N)) : Prop :=
  match m with
  | InBody | AfterBody | AfterAfterBody => s = [Thtml; Tbody]
  | InCaption => ∃ l, base l ∧ s = l ++ [Ttable; str "caption"]
  | InColumnGroup => in_colgroup s
  | InCell => in_cell s
  | InRow => in_row s ∨ (w = true ∧ in_cell s)
  | InTableBody => in_section s ∨ (w = true ∧ in_cell s)
  | InTable => in_table s ∨ in_section s ∨ in_colgroup s ∨ (w = true ∧ in_cell s)
  | _ => False
  end.

Definition shape (w : bool) (m : Mode) (l : list (list N)) : Prop :=
  match m with
  | Initial | BeforeHtml | Text => False
  | BeforeHead | AfterHead => l = [Thtml]
  | InHead => l = [Thtml; Thead]
  | _ => body_shape w m (skel_of l)
  end.

Lemma body_shape_mono w w' m s : (w = true → w' = true) → body_shape w m s → body_shape w' m s.
Proof. intros Hw. destruct m; naive_solver. Qed.

Lemma shape_mono w w' m l : (w = true → w' = true) → shape w m l → shape w' m l.
Proof. intros Hw. destruct m; try done; by apply (body_shape_mono w w'). Qed.

Lemma base_last l : base l → ∃ l' t, l = l' ++ [t] ∧ (l' = [Thtml] ∧ t = Tbody ∨ t = str "caption" ∨ is_cell t).
Proof.
  destruct 1 as [|l Hl|l s c Hl Hs Hc].
  - by exists [Thtml], Tbody; split; [|left].
  - exists (l ++ [Ttable]), (str "caption"). rewrite <-app_assoc. split; [done|auto].
  - exists (l ++ [Ttable; s; Ttr]), c. rewrite <-app_assoc. split; [done|auto].
Qed.

Lemma base_nonempty l : base l → l ≠ [].
Proof. by destruct 1 as [|[]|[]]. Qed.

Lemma base_has_body l : base l → Tbody ∈ l.
Proof. induction 1; [right; left|apply elem_of_app; by left..]. Qed.

Lemma body_shape_has_body w m s : body_shape w m s → Tbody ∈ s.
Proof.
  assert (∀ l k : list (list N), base l → Tbody ∈ l ++ k) as Hb by (intros; apply elem_of_app; left; by apply base_has_body).
  destruct m; cbn; try done; try (intros ->; right; left); unfold in_cell, in_row, in_section, in_colgroup, in_table;
    repeat match goal with |- _ ∨ _ → _ => intros [?|?] | |- (∃ _, _) → _ => intros [? ?] | |- _ ∧ _ → _ => intros [? ?]
      | H : ∃ _, _ |- _ => destruct H | H : _ ∧ _ |- _ => destruct H | H : _ ∨ _ |- _ => destruct H end;
    subst; by apply Hb.
Qed.

(** On a base neither a table nor a part of one is in scope. *)
Lemma base_scope l tag :
  base l → tag ∈ ["table"; "tbody"; "thead"; "tfoot"; "tr"; "colgroup"]%string → sscope tag (rev l) = false.
Proof.
  intros Hl Ht. destruct (base_last l Hl) as (l' & t & -> & Hc). rewrite rev_snoc.
  repeat (apply elem_of_cons in Ht as [->|Ht];
    [destruct Hc as [[-> ->]|[->|[->| ->]]]; reflexivity|]). by apply elem_of_nil in Ht.
Qed.

Lemma base_not_last l t :
  base l → last l = Some t → t = Tbody ∨ t = str "caption" ∨ is_cell t.
Proof. intros Hl Hla. destruct (base_last l Hl) as (l' & u & -> & Hc). rewrite last_snoc in Hla. naive_solver. Qed.

Lemma base_body_scope l : base l → sscope "body" (rev l) = true → l = [Thtml; Tbody].
Proof.
  intros Hl. destruct (base_last l Hl) as (l' & t & -> & Hc). rewrite rev_snoc.
  destruct Hc as [[-> ->]|[->|[->| ->]]]; [done|by cbn..].
Qed.
