(* ===== verification/HtmlSteps.v ===== *)
(** * The invariant of the insertion modes

    [Late] is the invariant from "before head" on: a good stack of the shape the mode calls for,
    and the [html], [head] and [body] elements in their places.  [out] is what one step of a mode
    leaves: the invariant, a bounded use of ids, and a smaller rank when the token is to be
    reprocessed. *)

From S2P Require Import Prelude Dom DomTree DomWalk DomOps HtmlTokenizer HtmlTotal HtmlTree DomParents.
From S2P Require Import HtmlTreeInv HtmlModes HtmlStack HtmlFormatting HtmlAdoption HtmlAgency HtmlGood HtmlInBody HtmlBody HtmlShape.

(** ** The rank of a token in a mode *)
Definition leading_ws (t : Token) : nat :=
  match t with
  | Character s => match take_while is_whitespace s with [] => 0 | _ => 1 end
  | _ => 0
  end.

Definition plain_rank (m : Mode) : nat :=
  match m with
  | InCell => 5 | InRow => 4 | InTableBody | InCaption | InColumnGroup => 3 | InTable => 2 | _ => 1
  end.
Definition table_rank (t : Token) (m : Mode) : nat :=
  match t with
  | StartTag n _ _ =>
      if one_of n ["td"; "th"] then
        match m with
        | InColumnGroup | InCaption => 4 | InTable => 3 | InTableBody | InCell => 2 | _ => 1
        end
      else if tag_is n "tr" then
        match m with InCell | InCaption | InColumnGroup => 3 | InRow | InTable => 2 | _ => 1 end
      else if tag_is n "col" then
        match m with
        | InCell => 5 | InRow => 4 | InTableBody | InCaption => 3 | InTable => 2 | _ => 1
        end
      else if tag_is n "table" then
        match m with InColumnGroup => 3 | InTable | InTableBody | InRow => 2 | _ => 1 end
      else plain_rank m
  | _ => plain_rank m
  end.
Definition is_html_end (t : Token) : bool :=
  match t with EndTag n => tag_is n "html" | _ => false end.
Definition mode_rank (t : Token) (m : Mode) : nat :=
  match m with
  | Text => 20 | Initial => 15 | BeforeHtml => 14 | BeforeHead => 13 | InHead => 12 | AfterHead => 11
  | InBody => 2 | AfterBody => if is_html_end t then 1 else 3 | AfterAfterBody => 3
  | m => table_rank t m + 2
  end.
Definition token_rank (t : Token) (m : Mode) : nat := 2 * mode_rank t m + leading_ws t.

Lemma table_rank_le t m : 1 ≤ table_rank t m ≤ 5.
Proof.
  unfold table_rank, plain_rank.
  destruct t as [| |n a s|n|s|]; destruct m; repeat case_match; lia.
Qed.
Lemma leading_ws_le t : leading_ws t ≤ 1.
Proof. unfold leading_ws. repeat case_match; lia. Qed.
Lemma rank_le t m : token_rank t m ≤ 41.
Proof.
  unfold token_rank. pose proof (leading_ws_le t). pose proof (table_rank_le t m).
  destruct m; cbn [mode_rank]; try destruct (is_html_end t); lia.
Qed.

(** A step to a mode of smaller rank, for the same token. *)
Lemma rank_mode t m m' : mode_rank t m' < mode_rank t m → token_rank t m' < token_rank t m.
Proof. unfold token_rank. lia. Qed.

(** ** The invariant *)
Record Links (b : TreeBuilder) (r h : NodeId) : Prop := {
  li_root : b.(document).(doc_root) = Some r;
  li_html : parent_edge b.(document) h r;
  li_only : ∀ x, parent_edge b.(document) x r → x = h;
  li_tag : tg b.(document) h = Some Thtml;
  li_no_head : b.(head_element) = None → b.(mode) = BeforeHead;
  li_head : ∀ x, b.(head_element) = Some x → tg b.(document) x = Some Thead ∧ parent_edge b.(document) x h;
  li_bottom : Tbody ∉ skel b → head b.(open_elements) = Some h;
  li_body : Tbody ∈ skel b → ∃ x, tg b.(document) x = Some Tbody ∧ parent_edge b.(document) x h;
}.

Definition placed (w : bool) (b : TreeBuilder) : Prop :=
  (b.(mode) = Text ∧ ∃ l n, tags b = l ++ [n] ∧ ordinary n ∧ shape w b.(original_mode) l)
  ∨ shape w b.(mode) (tags b).

Record Late (w : bool) (b : TreeBuilder) : Prop := {
  la_good : Good b;
  la_foster : b.(foster_parenting) = false;
  la_placed : placed w b;
  la_links : ∃ r h, Links b r h;
}.

Definition step_cost (b : TreeBuilder) : N := (afe_len b + 42)%N.

(** The tokenizer is only ever told to change its content model. *)
Definition switched (t : Token) (k k' : Tokenizer) : Prop :=
  k' = k ∨ ∃ cm, k' = set_content_model cm k ∧ (cm = CmScriptData → ∃ a s, t = StartTag (str "script") a s).

(** A reprocessed token is the token, or what is left of its characters. *)
Definition remainder (t t' : Token) : Prop :=
  t' = t ∨ ∃ s s', t = Character s ∧ t' = Character s' ∧ s' ≠ [].

Record out (w : bool) (b : TreeBuilder) (t : Token) (r : StepResult) (b' : TreeBuilder) : Prop := {
  out_late : Late w b';
  out_doc : evolves (step_cost b) b.(document) b'.(document);
  out_afe : length b'.(active_formatting) ≤ length b.(active_formatting) + 1;
  out_tok : switched t b.(tokenizer) b'.(tokenizer);
  out_rank : match r with
             | Done => True
             | Reprocess t' => token_rank t' b'.(mode) < token_rank t b.(mode) ∧ remainder t t'
             end;
}.

Definition step_fine (w : bool) (b : TreeBuilder) (t : Token) (m : res (StepResult * TreeBuilder)) : Prop :=
  ∃ r b', m = Ok (r, b') ∧ out w b t r b'.

(** ** The body modes *)
Definition body_mode (m : Mode) : bool :=
  match m with
  | Initial | BeforeHtml | BeforeHead | InHead | AfterHead | Text => false
  | _ => true
  end.

Lemma shape_body w m l : body_mode m = true → shape w m l → body_shape w m (skel_of l).
Proof. by destruct m. Qed.
Lemma body_shape_mode w m s : body_shape w m s → body_mode m = true.
Proof. by destruct m. Qed.
Lemma shape_of_body w m l : body_shape w m (skel_of l) → shape w m l.
Proof. by destruct m. Qed.

Lemma placed_body w b : body_mode b.(mode) = true → placed w b → body_shape w b.(mode) (skel b).
Proof. intros Hm [[Ht _]|Hs]; [by rewrite Ht in Hm|by apply shape_body]. Qed.

(** The places of [html], [head] and [body] survive what the document goes through. *)
Lemma Links_evolves c b b' r h :
  Links b r h → Tbody ∈ skel b → Tbody ∈ skel b' → evolves c b.(document) b'.(document) →
  b'.(head_element) = b.(head_element) → (b.(mode) ≠ BeforeHead) → Links b' r h.
Proof.
  intros [Hr Hh Ho Ht Hn Hhd Hbt Hbd] Hb Hb' E He Hm. pose proof (ev_from _ _ _ E) as HW.
  assert (anchor b.(document) r) as Har by (left; by apply (root_tg _ _ HW)).
  assert (anchor b.(document) h) as Hah by (by right).
  split; try done.
  - by rewrite (ev_root _ _ _ E).
  - eapply (ev_frozen _ _ _ E); [done| |done..]. apply among_spec. done.
  - intros x Hx. apply Ho. by eapply (ev_top _ _ _ E).
  - by eapply ev_tag.
  - rewrite He. intros ?. by destruct Hm; apply Hn.
  - intros x Hx. rewrite He in Hx. destruct (Hhd x Hx) as [Hxt Hxp]. split; [by eapply ev_tag|].
    eapply (ev_frozen _ _ _ E); [done| |done..]. apply among_spec. done.
  - intros _. destruct (Hbd Hb) as (x & Hx & Hp). exists x. split; [by eapply ev_tag|].
    eapply (ev_frozen _ _ _ E); [done| |done..]. apply among_spec. done.
Qed.

(** From one body mode to another. *)
Lemma out_body w b t r b' :
  Late w b → body_mode b.(mode) = true → Good b' → b'.(foster_parenting) = false →
  body_shape w b'.(mode) (skel b') → evolves (step_cost b) b.(document) b'.(document) →
  b'.(head_element) = b.(head_element) → length b'.(active_formatting) ≤ length b.(active_formatting) + 1 →
  b'.(tokenizer) = b.(tokenizer) →
  match r with Done => True | Reprocess t' => token_rank t' b'.(mode) < token_rank t b.(mode) ∧ remainder t t' end →
  out w b t r b'.
Proof.
  intros [HG Hf Hp (rt & h & HL)] Hm HG' Hf' Hs E He Ha Hk Hr. split; [|done|done|by left|done].
  split; [done|done|right; by apply shape_of_body|]. exists rt, h.
  eapply Links_evolves; [done|..|done|done|]; [by eapply body_shape_has_body, placed_body..| |by intros H; rewrite H in Hm].
  by eapply body_shape_has_body.
Qed.

(** ** Steps that use the rules of the body *)

(** [b0] is [b] with foster parenting on or off; the flag is off afterwards. *)
Lemma set_foster_same b : b.(foster_parenting) = false → set_foster false b = b.
Proof. destruct b; cbn. by intros ->. Qed.

Lemma Good_foster f b : Good b → Good (set_foster f b).
Proof. intros HG. by apply (Good_fields b). Qed.

Lemma moves_foster c k f f' b b' : moves c k (set_foster f b) b' → b.(foster_parenting) = f' → moves c k b (set_foster f' b').
Proof. intros [] <-. by split. Qed.

Lemma moves_out w b t b' k :
  Late w b → body_mode b.(mode) = true → Good b' → skel b' = skel b → k ≤ 1 →
  moves (step_cost b) k b b' → out w b t Done b'.
Proof.
  intros HL Hm HG Hs Hk Hmv. eapply out_body; try done; try apply Hmv.
  - rewrite (mv_foster _ _ _ _ Hmv). apply HL.
  - rewrite (mv_mode _ _ _ _ Hmv), Hs. apply placed_body; [done|apply HL].
  - pose proof (mv_afe _ _ _ _ Hmv). lia.
Qed.

(** A raw-text element was pushed. *)
Lemma text_out w b t b1 cm name x a s :
  Late w b → body_mode b.(mode) = true → Good b1 → tags b1 = tags b ++ [name] → ordinary name →
  moves (step_cost b) 1 b b1 → b1.(open_elements) = b.(open_elements) ++ [x] →
  t = StartTag name a s → (cm = CmScriptData → name = str "script") →
  out w b t Done (enter_text cm b1).
Proof.
  intros [HG Hf Hp (rt & h & HL)] Hm HG1 Htg Ho Hmv Hop Ht Hcm.
  pose proof (placed_body _ _ Hm Hp) as Hbs.
  assert (skel b1 = skel b) as Hsk.
  { unfold skel. rewrite Htg, skel_app, (skel_ordinary [name]); [apply app_nil_r|by apply Forall_singleton]. }
  split; [|apply Hmv|apply Hmv| |done].
  - split; [by apply (Good_fields b1)|cbn; rewrite (mv_foster _ _ _ _ Hmv); done| |].
    + left. split; [done|]. exists (tags b), name. split; [done|]. split; [done|].
      cbn. rewrite (mv_mode _ _ _ _ Hmv). by apply shape_of_body.
    + exists rt, h. eapply (Links_evolves _ b); [done|..|apply Hmv|apply Hmv|by intros H; rewrite H in Hm].
      * by eapply body_shape_has_body.
      * change (skel (enter_text cm b1)) with (skel b1). rewrite Hsk. by eapply body_shape_has_body.
  - right. exists cm. cbn. rewrite (mv_tokenizer _ _ _ _ Hmv). split; [done|]. intros Hc.
    rewrite (Hcm Hc) in Ht. eauto.
Qed.

Lemma cost_le b : (body_cost b ≤ step_cost b)%N.
Proof. unfold body_cost, step_cost. lia. Qed.

Lemma body_out_step w f b t r b' :
  Late w b → body_mode b.(mode) = true →
  (∀ a s, t = StartTag Ttable a s → base (skel b)) →
  (∀ n, t = EndTag n → n = Tbody ∨ n = Thtml → sscope "body" (rev (skel b)) = true → b.(mode) = InBody) →
  body_out (set_foster f b) t r b' → out w b t r (set_foster false b').
Proof.
  intros HL Hm Htab Hbody Hout. pose proof (la_foster _ _ HL) as Hf.
  pose proof (placed_body _ _ Hm (la_placed _ _ HL)) as Hbs.
  assert (∀ k b1, moves (body_cost b) k (set_foster f b) b1 → moves (step_cost b) k b (set_foster false b1)) as Hmv.
  { intros k b1 H. eapply moves_weaken; [apply cost_le|reflexivity|]. by eapply moves_foster. }
  destruct Hout as [t b' HG Hs Hmo|a s b1 HG Hs Hmo|name a s b1 x cm HG Htg Ho Hmo Hop Hx Hcm|n r Hn Hsc Hr].
  - eapply (moves_out _ _ _ _ 1); [done..|by apply Good_foster|done|done|by apply Hmv].
  - apply Hmv in Hmo. eapply out_body; try done; try apply Hmo; try done.
    + apply (Good_fields b1); done.
    + left. exists (skel b). split; [by eapply Htab|done].
  - change (set_foster false (enter_text cm b1)) with (enter_text cm (set_foster false b1)).
    eapply (text_out _ _ _ _ _ name x); try done; [by apply Good_foster|by apply Hmv].
  - specialize (Hbody n eq_refl Hn Hsc). eapply out_body; try done.
    + by apply (Good_fields b), HL.
    + cbn. rewrite Hbody in Hbs. done.
    + cbn. apply evolves_refl, HL.
    + cbn. lia.
    + destruct Hr as [->|[-> ->]]; [done|]. split; [|by left]. apply rank_mode.
      change (mode_rank (EndTag Thtml) AfterBody < mode_rank (EndTag Thtml) (mode b)). rewrite Hbody. vm_compute. lia.
Qed.

Lemma step_body w b t :
  Late w b → body_mode b.(mode) = true → room (step_cost b) b → end_fits b t →
  (∀ a s, t = StartTag Ttable a s → base (skel b)) →
  (∀ n, t = EndTag n → n = Tbody ∨ n = Thtml → sscope "body" (rev (skel b)) = true → b.(mode) = InBody) →
  step_fine w b t (step_in_body b t).
Proof.
  intros HL Hm Hr He Ht Hb. pose proof (la_foster _ _ HL) as Hf.
  destruct (step_in_body_out b t) as (r & b' & -> & Hout); [apply HL|done|eapply room_le; [apply cost_le|done]|].
  exists r, b'. split; [done|]. assert (b'.(foster_parenting) = false) as Hf'.
  { destruct Hout as [t b' ?? Hmo|?? b1 ?? Hmo|???? b1 x ??? Hmo|]; cbn; [|..|done]; by rewrite (mv_foster _ _ _ _ Hmo). }
  rewrite <-(set_foster_same b' Hf'). apply (body_out_step w false); try done. by rewrite set_foster_same.
Qed.

Lemma step_body_fostered w b t :
  Late w b → body_mode b.(mode) = true → room (step_cost b) b → end_fits b t →
  (∀ a s, t = StartTag Ttable a s → base (skel b)) →
  (∀ n, t = EndTag n → n = Tbody ∨ n = Thtml → sscope "body" (rev (skel b)) = true → b.(mode) = InBody) →
  step_fine w b t ('(r, b) ← step_in_body (set_foster true b) t; Ok (r, set_foster false b)).
Proof.
  intros HL Hm Hr He Ht Hb.
  destruct (step_in_body_out (set_foster true b) t) as (r & b' & -> & Hout);
    [apply Good_foster, HL|done|exact (room_le _ _ b (cost_le b) Hr)|].
  exists r, (set_foster false b'). split; [done|]. by apply (body_out_step w true).
Qed.
