(* ===== verification/HtmlTables.v ===== *)
(** * The table modes

    Opening and closing the parts of a table, and what each table mode's step leaves. *)

From S2P Require Import Prelude Dom DomTree DomWalk DomOps HtmlTokenizer HtmlTotal HtmlTree DomParents.
From S2P Require Import HtmlTreeInv HtmlModes HtmlStack HtmlFormatting HtmlAdoption HtmlAgency HtmlGood HtmlInBody HtmlBody HtmlShape HtmlSteps.

(** Membership in a list of literals. *)
Ltac in_list := apply (bool_decide_eq_true_1 (_ ∈ _)); vm_compute; reflexivity.

(** ** Parts of a table *)
Lemma clear_spec b stops s1 u s2 :
  Good b → skel b = s1 ++ u :: s2 → Forall (λ s, str s ∈ STRUCTURE) stops → one_of u stops = true →
  forallb (λ t, negb (one_of t ("html"%string :: stops))) s2 = true →
  ∃ b1 l, clear_stack_back_to b stops = Ok b1 ∧ Good b1 ∧ tags b1 = l ++ [u] ∧ skel b1 = s1 ++ [u]
    ∧ moves 0 0 b b1.
Proof.
  intros HG Hs Hst Hu Hab. rewrite forallb_forall in Hab. unfold clear_stack_back_to.
  edestruct (pop_until_structural b) as (o & l & -> & HG1 & Htg & Hsk); [exact HG|exact Hs|..].
  - cbn. rewrite Hu. apply orb_true_r.
  - intros t Ho. cbn. rewrite (not_one_of t stops) by done. rewrite not_tag_is; [done|done|structural].
  - intros t Ht. apply list_elem_of_In in Ht. apply Hab, negb_true_iff in Ht. exact Ht.
  - exists (set_open o b), l. split_and!; try done. apply moves_open, HG.
Qed.

Lemma structural_not_void t : t ∈ STRUCTURE → among t VOID_ELEMENTS = false.
Proof.
  unfold STRUCTURE. intros (s & -> & Hs)%list_elem_of_fmap.
  repeat (apply elem_of_cons in Hs as [->|Hs]; [done|]). by apply elem_of_nil in Hs.
Qed.

Lemma skel_structural t : t ∈ STRUCTURE → skel_of [t] = [t].
Proof. intros Ht. unfold skel_of. by rewrite filter_cons_True. Qed.

Lemma insert_part b l u name attrs :
  Good b → tags b = l ++ [u] → name ∈ STRUCTURE → stands_on u name = true → room 1 b →
  ∃ b', insert_element_ b name attrs = Ok b' ∧ Good b' ∧ skel b' = skel b ++ [name] ∧ moves 1 0 b b'.
Proof.
  intros HG Htg Hn Hst Hr. destruct (insert_structural b l u name attrs) as (id & b' & Hi & HG' & Htg' & Hm & _);
    [done..|by apply structural_not_void|done|].
  exists b'. unfold insert_element_. rewrite Hi. split; [done|]. split; [done|]. split; [|done].
  unfold skel. by rewrite Htg', skel_app, skel_structural.
Qed.

Lemma open_part b stops s1 u s2 name attrs m :
  Good b → skel b = s1 ++ u :: s2 → Forall (λ s, str s ∈ STRUCTURE) stops → one_of u stops = true →
  forallb (λ t, negb (one_of t ("html"%string :: stops))) s2 = true →
  name ∈ STRUCTURE → stands_on u name = true → room 1 b →
  ∃ b', open_table_part b stops name attrs m = Ok (set_mode m b') ∧ Good b' ∧ skel b' = s1 ++ [u; name]
    ∧ moves 1 0 b b'.
Proof.
  intros HG Hs Hst Hu Hab Hn Hon Hr. unfold open_table_part.
  destruct (clear_spec b stops s1 u s2) as (b1 & l & -> & HG1 & Htg1 & Hs1 & Hm1); [done..|]. cbn [mbind res_bind].
  destruct (insert_part b1 l u name attrs) as (b2 & -> & HG2 & Hs2 & Hm2); [done..|by eapply (moves_room 0 0 1)|].
  exists b2. split; [done|]. split; [done|]. split; [by rewrite Hs2, Hs1, <-app_assoc|].
  exact (moves_trans 0 1 0 0 _ _ _ Hm1 Hm2).
Qed.

(** Closing. *)
Lemma close_part b (stop : option (list N) → bool) s1 u s2 :
  Good b → skel b = s1 ++ u :: s2 → s1 ≠ [] → stop (Some u) = true →
  (∀ t, ordinary t → stop (Some t) = false) → forallb (λ t, negb (stop (Some t))) s2 = true →
  ∃ b1, on_stack (pop_through b.(document) stop) b = Ok b1 ∧ Good b1 ∧ skel b1 = s1 ∧ moves 0 0 b b1.
Proof.
  intros HG Hs Hne Hu Ho Hab. rewrite forallb_forall in Hab.
  destruct (pop_through_structural b stop s1 u s2) as (o & -> & HG1 & Hs1); try done.
  - intros t Ht. apply list_elem_of_In in Ht. by apply Hab, negb_true_iff in Ht.
  - exists (set_open o b). split_and!; try done. apply moves_open, HG.
Qed.

Lemma pop_incl b tag s1 s2 :
  Good b → skel b = s1 ++ str tag :: s2 → s1 ≠ [] → str tag ∈ STRUCTURE →
  forallb (λ t, negb (tag_is t tag)) s2 = true →
  ∃ b1, pop_until_and_including b (str tag) = Ok b1 ∧ Good b1 ∧ skel b1 = s1 ∧ moves 0 0 b b1.
Proof.
  intros HG Hs Hne Ht Hab. unfold pop_until_and_including. eapply close_part; [done..| | |].
  - by rewrite bool_decide_true.
  - intros t Ho. rewrite bool_decide_false; [done|]. intros [= ->]. done.
  - rewrite forallb_forall in Hab |- *. intros t Hin. apply Hab in Hin. rewrite <-Hin. cbn. f_equal.
    unfold tag_is. apply bool_decide_ext. naive_solver.
Qed.

(** [generate_implied_end_tags] and a pop. *)
Lemma implied_then b ex (f : TreeBuilder → res TreeBuilder) (P : TreeBuilder → Prop) :
  Good b → (∀ b1, Good b1 → skel b1 = skel b → moves 0 0 b b1 →
    ∃ b2, f b1 = Ok b2 ∧ moves 0 0 b1 b2 ∧ P b2) →
  ∃ b2, (b ← generate_implied_end_tags b ex; f b) = Ok b2 ∧ moves 0 0 b b2 ∧ P b2.
Proof.
  intros HG Hf. destruct (K_gen_implied b ex HG) as (b1 & -> & HG1 & Hs1 & Hm1). cbn [mbind res_bind].
  destruct (Hf b1 HG1 Hs1 Hm1) as (b2 & -> & Hm2 & HP). exists b2. split_and!; [done| |done].
  exact (moves_trans 0 0 0 0 _ _ _ Hm1 Hm2).
Qed.

(** ** The formatting list's markers *)
Lemma pop_to_marker_suffix rl : ∃ k, rl = k ++ pop_to_marker rl.
Proof.
  induction rl as [|e rl [k IH]]; [by exists []|]. cbn. destruct (is_marker e); [by exists [e]|].
  exists (e :: k). cbn. by f_equal.
Qed.

Lemma clear_afe_keeps b : Good b →
  Good (clear_afe_up_to_last_marker b) ∧ skel (clear_afe_up_to_last_marker b) = skel b
  ∧ moves 0 0 b (clear_afe_up_to_last_marker b).
Proof.
  intros HG. unfold clear_afe_up_to_last_marker.
  destruct (pop_to_marker_suffix (rev b.(active_formatting))) as [k Hk].
  assert (rev (pop_to_marker (rev b.(active_formatting))) `sublist_of` b.(active_formatting)) as Hsub.
  { rewrite <-(rev_involutive b.(active_formatting)) at 2. rewrite Hk at 2. rewrite rev_app_distr.
    by apply sublist_inserts_r. }
  destruct (Good_afe b (rev (pop_to_marker (rev b.(active_formatting))))) as [HG' Hs']; [|done|].
  { apply Core_afe; [done|apply HG]. }
  split; [done|]. split; [done|]. split; try done; cbn.
  - apply evolves_refl, HG.
  - apply sublist_length in Hsub. lia.
Qed.

Lemma marker_keeps b : Good b → Good (insert_afe_marker b) ∧ skel (insert_afe_marker b) = skel b ∧ moves 0 1 b (insert_afe_marker b).
Proof.
  intros HG. assert (afe_ids (active_formatting b ++ [Marker]) = afe_ids (active_formatting b)) as Hids.
  { unfold afe_ids. rewrite omap_app. cbn. apply app_nil_r. }
  assert (Core (insert_afe_marker b)) as HC.
  { destruct (go_core _ HG). split; cbn [document open_elements active_formatting form_element insert_afe_marker set_afe];
      rewrite ?Hids; try done. intros id t a [?|[=]%list_elem_of_singleton]%elem_of_app. eauto. }
  destruct (Good_afe b (b.(active_formatting) ++ [Marker]) HC HG) as [HG' Hs'].
  split; [done|]. split; [done|]. split; try done; cbn; [apply evolves_refl, HG|]. rewrite length_app. cbn. lia.
Qed.

(** ** Scopes of the shapes *)

(** [sscope] of a skeleton whose top is known. *)
Ltac section_cases :=
  repeat match goal with
  | H : is_section _ |- _ => destruct H as [-> |[-> | ->]]
  | H : is_cell _ |- _ => destruct H as [-> | ->]
  end.
Ltac scope_eq Hs := rewrite Hs, rev_app_distr; section_cases; reflexivity.

Lemma has_scope b tag r :
  Good b → str tag ∈ STRUCTURE → sscope tag (rev (skel b)) = r → has_tag_in_scope b (str tag) [] = Ok r.
Proof. intros HG Ht <-. apply has_structural; [apply HG|done]. Qed.

(** A token that keeps the table modes stuck: the open cell hides what they look for. *)
Definition stuck (b : TreeBuilder) (t : Token) : Prop :=
  Good b ∧ in_cell (skel b) ∧
  match b.(mode), t with
  | InTable, StartTag n _ _ | InTableBody, StartTag n _ _ => n = Ttable
  | InRow, StartTag n _ _ =>
      one_of n ["caption"; "col"; "colgroup"; "tbody"; "tfoot"; "thead"; "tr"; "table"] = true
  | InRow, EndTag n => one_of n ["table"; "tbody"; "tfoot"; "thead"] = true
  | _, _ => False
  end.

Definition step_fine' (w : bool) (b : TreeBuilder) (t : Token) (m : res (StepResult * TreeBuilder)) : Prop :=
  step_fine w b t m ∨ (w = true ∧ stuck b t ∧ m = reprocess t b).

(** The skeletons of the three modes inside a table. *)
Definition table_ctx (w : bool) (s : list (list N)) : Prop :=
  ∃ l k, base l ∧ s = l ++ Ttable :: k
    ∧ (k = [] ∨ k = [str "colgroup"] ∨ (∃ x, is_section x ∧ k = [x]) ∨ (∃ x, is_section x ∧ k = [x; Ttr])
       ∨ (w = true ∧ ∃ x c, is_section x ∧ is_cell c ∧ k = [x; Ttr; c])).

Definition table_mode (m : Mode) : bool := match m with InTable | InTableBody | InRow => true | _ => false end.

Lemma ctx_table w s : in_table s → table_ctx w s.
Proof. intros (l & Hl & ->). exists l, []. auto. Qed.
Lemma ctx_section w s : in_section s → table_ctx w s.
Proof. intros (l & x & Hl & Hx & ->). exists l, [x]. split_and!; [done..|]. do 2 right. left. eauto. Qed.
Lemma ctx_colgroup w s : in_colgroup s → table_ctx w s.
Proof. intros (l & Hl & ->). exists l, [str "colgroup"]. split_and!; [done..|]. by right; left. Qed.
Lemma ctx_row w s : in_row s → table_ctx w s.
Proof. intros (l & x & Hl & Hx & ->). exists l, [x; Ttr]. split_and!; [done..|]. do 3 right. left. eauto. Qed.
Lemma ctx_cell s : in_cell s → table_ctx true s.
Proof.
  intros (l & x & c & Hl & Hx & Hc & ->). exists l, [x; Ttr; c]. split_and!; [done..|]. do 4 right.
  split; [done|]. eauto.
Qed.

Lemma shape_table_ctx w m s : table_mode m = true → body_shape w m s → table_ctx w s.
Proof.
  destruct m; try done; intros _; cbn.
  - intros [?|[?|[?|[-> ?]]]]; [by apply ctx_table|by apply ctx_section|by apply ctx_colgroup|by apply ctx_cell].
  - intros [?|[-> ?]]; [by apply ctx_section|by apply ctx_cell].
  - intros [?|[-> ?]]; [by apply ctx_row|by apply ctx_cell].
Qed.

(** Inside a table no table part of the enclosing flow is in scope, and no body. *)
Lemma ctx_last w s : table_ctx w s → ∃ l t, s = l ++ [t]
  ∧ (t = Ttable ∨ t = str "colgroup" ∨ is_section t ∨ t = Ttr ∨ is_cell t).
Proof.
  intros (l & k & Hl & -> & [->|[->|[(x & Hx & ->)|[(x & Hx & ->)|(_ & x & c & Hx & Hc & ->)]]]]).
  - exists l, Ttable. auto 10.
  - exists (l ++ [Ttable]), (str "colgroup"). rewrite <-app_assoc. auto 10.
  - exists (l ++ [Ttable]), x. rewrite <-app_assoc. auto 10.
  - exists (l ++ [Ttable; x]), Ttr. rewrite <-app_assoc. auto 10.
  - exists (l ++ [Ttable; x; Ttr]), c. rewrite <-app_assoc. auto 10.
Qed.

Lemma ctx_no_body w s : table_ctx w s → sscope "body" (rev s) = false.
Proof.
  intros (l & k & Hl & -> & Hk). rewrite rev_app_distr.
  destruct Hk as [->|[->|[(x & Hx & ->)|[(x & Hx & ->)|(_ & x & c & Hx & Hc & ->)]]]]; section_cases; reflexivity.
Qed.

(** Steps that only move inside the skeleton. *)
Lemma keep_step w b t c k m :
  Late w b → body_mode b.(mode) = true → Keeps c k b m → (c ≤ step_cost b)%N → k ≤ 1 →
  step_fine w b t (then_finish m).
Proof.
  intros HL Hm (b' & -> & HG & Hs & Hmv) Hc Hk. exists Done, b'. split; [done|].
  eapply (moves_out _ _ _ _ k); [done..|]. by eapply moves_weaken.
Qed.

Lemma same_step w b t : Late w b → body_mode b.(mode) = true → step_fine w b t (finish b).
Proof. intros HL Hm. eapply (keep_step w b t 0 0 (Ok b)); [done..|apply Keeps_ret, HL|unfold step_cost; lia|lia]. Qed.

(** A step that leaves mode [m] with skeleton [s]. *)
Lemma part_step w b b1 t r c k m :
  Late w b → body_mode b.(mode) = true → Good b1 → moves c k b b1 → (c ≤ step_cost b)%N → k ≤ 1 →
  body_shape w m (skel b1) →
  match r with Done => True | Reprocess t' => token_rank t' m < token_rank t b.(mode) ∧ remainder t t' end →
  out w b t r (set_mode m b1).
Proof.
  intros HL Hm HG Hmv Hc Hk Hs Hr. apply (moves_weaken _ (step_cost b) _ 1) in Hmv; [|done..].
  eapply out_body; try done; try apply Hmv.
  - by apply (Good_fields b1).
  - cbn. rewrite (mv_foster _ _ _ _ Hmv). apply HL.
Qed.

(** ** In table *)
Lemma base_frame w hs l :
  base l → ∃ u m, last l = Some u ∧ frame_mode hs u = Some m ∧ body_shape w m l
    ∧ (m = InBody ∨ m = InCaption ∨ m = InCell).
Proof.
  intros Hl. destruct Hl as [|l Hl|l x c Hl Hx Hc].
  - exists Tbody, InBody. split_and!; [done|by destruct hs|done|auto].
  - exists (str "caption"), InCaption. split_and!; [by rewrite last_app|by destruct hs|by exists l|auto].
  - exists c, InCell. split_and!; [by rewrite last_app|by destruct Hc as [->| ->]; destruct hs|by exists l, x, c|auto].
Qed.

(** A token whose processing leaves the current table. *)
Lemma close_table_spec b l k :
  Good b → base l → skel b = l ++ Ttable :: k → sscope "table" (rev (skel b)) = true →
  forallb (λ t, negb (tag_is t "table")) k = true →
  ∃ b1 m, close_table b = Ok (set_mode m b1) ∧ Good b1 ∧ skel b1 = l ∧ moves 0 0 b b1
    ∧ (∀ w, body_shape w m l) ∧ (m = InBody ∨ m = InCaption ∨ m = InCell).
Proof.
  intros HG Hl Hs Hsc Hk. unfold close_table, when. rewrite (has_scope b "table" true) by (done || structural).
  cbn [mbind res_bind]. destruct (pop_incl b "table" l k) as (b1 & -> & HG1 & Hs1 & Hm1);
    [done|done|by apply base_nonempty|structural|done|]. cbn [mbind res_bind].
  destruct (base_frame false (bool_decide (is_Some (head_element b1))) l Hl) as (u & m & Hu & Hfm & _ & Hms).
  exists b1, m. rewrite (reset_structural b1 u m) by (done || by rewrite Hs1). split_and!; try done.
  intros w. destruct (base_frame w (bool_decide (is_Some (head_element b1))) l Hl) as (u' & m' & Hu' & Hfm' & Hsh & _).
  assert (m' = m) as -> by congruence. done.
Qed.

Lemma ctx_table_scope w s :
  table_ctx w s → (sscope "table" (rev s) = true ∧ ∃ l k, base l ∧ s = l ++ Ttable :: k
    ∧ forallb (λ t, negb (tag_is t "table")) k = true) ∨ (w = true ∧ in_cell s ∧ sscope "table" (rev s) = false).
Proof.
  intros (l & k & Hl & -> & Hk). rewrite rev_app_distr.
  destruct Hk as [->|[->|[(x & Hx & ->)|[(x & Hx & ->)|(-> & x & c & Hx & Hc & ->)]]]].
  5: { right. split; [done|]. split; [by exists l, x, c|]. section_cases; reflexivity. }
  all: left; split; [section_cases; reflexivity|]; eexists l, _; (split; [done|]); (split; [reflexivity|]);
    section_cases; reflexivity.
Qed.

Section TableStep.
Context (w : bool) (b : TreeBuilder) (t : Token).
Hypotheses (HL : Late w b) (Hm : table_mode b.(mode) = true) (Hr : room (step_cost b) b).

Lemma table_body_mode : body_mode b.(mode) = true.
Proof using Hm. by destruct (mode b). Qed.
Lemma table_context : table_ctx w (skel b).
Proof using HL Hm. eapply shape_table_ctx; [exact Hm|]. apply placed_body; [apply table_body_mode|apply HL]. Qed.

Lemma table_start_table a s :
  t = StartTag Ttable a s → step_fine' w b t (b ← close_table b; reprocess t b).
Proof using HL Hm.
  intros ->. pose proof (la_good _ _ HL) as HG.
  destruct (ctx_table_scope w _ table_context) as [(Hsc & l & k & Hl & Hs & Hk)|(-> & Hc & Hsc)].
  - left. destruct (close_table_spec b l k) as (b1 & m & -> & HG1 & Hs1 & Hm1 & Hsh & Hms); [done..|].
    cbn [mbind res_bind]. eexists _, _. split; [done|].
    eapply part_step; [done|apply table_body_mode|done|exact Hm1|unfold step_cost; lia|lia|by rewrite Hs1|].
    split; [|by left]. apply rank_mode. destruct (mode b); try done; destruct Hms as [->|[->| ->]]; vm_compute; lia.
  - right. split; [done|]. split.
    + split; [done|]. split; [done|]. by destruct (mode b).
    + unfold close_table, when. rewrite (has_scope b "table" false) by (done || structural). done.
Qed.

(** [w'] may differ: nothing is left of the table. *)
Lemma table_end_table : t = EndTag Ttable → step_fine w b t (then_finish (close_table b)).
Proof using HL Hm.
  intros ->. pose proof (la_good _ _ HL) as HG.
  destruct (ctx_table_scope w _ table_context) as [(Hsc & l & k & Hl & Hs & Hk)|(Hw & Hc & Hsc)].
  - destruct (close_table_spec b l k) as (b1 & m & -> & HG1 & Hs1 & Hm1 & Hsh & Hms); [done..|].
    cbn [mbind res_bind then_finish]. eexists _, _. split; [done|].
    eapply part_step; [done|apply table_body_mode|done|exact Hm1|unfold step_cost; lia|lia|by rewrite Hs1|done].
  - unfold close_table, when. rewrite (has_scope b "table" false) by (done || structural).
    apply same_step; [done|apply table_body_mode].
Qed.

Lemma table_character s : t = Character s → step_fine w b t (step_in_table b t).
Proof using HL Hm Hr.
  intros ->. cbn [step_in_table]. pose proof (la_good _ _ HL) as HG. destruct (blank _).
  - eapply keep_step; [done|apply table_body_mode|apply K_insert_text; [done|]|..];
      [eapply room_le; [|done]|..]; unfold step_cost; lia.
  - assert (room (afe_len b + 1) (set_foster true b)) as Hr' by (eapply (room_le (step_cost b)); [unfold step_cost; lia|exact Hr]).
    assert (Keeps (afe_len b + 1) 0 (set_foster true b)
      (b ← reconstruct_active_formatting_elements (set_foster true b); insert_text b (strip_null_characters s)))
      as (b2 & Hb2 & HG2 & Hs2 & Hm2).
    { apply (Keeps_seq _ (afe_len b) 1 _ 0 0); [done|done|apply (K_reconstruct (set_foster true b)); [by apply Good_foster|eapply room_le; [|exact Hr']; change (afe_len b ≤ afe_len b + 1)%N; lia]|].
      intros b1 HG1 _ Hm1. apply K_insert_text; [done|]. by eapply moves_room. }
    apply bind_Ok in Hb2 as (b1 & -> & Hb2). cbn [mbind res_bind]. rewrite Hb2. cbn [mbind res_bind].
    eexists _, _. split; [done|]. eapply (moves_out _ _ _ _ 0); [done|apply table_body_mode|by apply Good_foster|exact Hs2|lia|].
    eapply moves_foster; [|apply HL]. eapply moves_weaken; [|reflexivity|exact Hm2]. unfold step_cost. lia.
Qed.

Lemma table_text_element name a s :
  t = StartTag name a s → one_of name ["style"; "script"] = true → step_fine w b t (step_in_head b t).
Proof using HL Hm Hr.
  intros -> Hn. assert (one_of name ["textarea"; "script"; "style"; "title"] = true) as Hn'.
  { unfold one_of in *. cbn in *. destruct (tag_is name "style"), (tag_is name "script"); try done; by rewrite !orb_true_r. }
  destruct (raw_text_names name Hn') as [Ho Hv].
  assert (step_in_head b (StartTag name a s) = then_finish (switch_to_text_mode b name a)) as ->.
  { apply one_of_spec, list_elem_of_fmap in Hn as (n & -> & Hin).
    repeat (apply elem_of_cons in Hin as [->|Hin]; [reflexivity|]). by apply elem_of_nil in Hin. }
  destruct (switch_to_text_spec b name a) as (b1 & x & cm & -> & HG1 & Htg & Hmv & Hop & Hx & Hcm);
    [apply HL|done..|eapply room_le; [|done]; unfold step_cost; lia|].
  eexists _, _. split; [done|]. eapply (text_out _ _ _ _ _ name x); try done; [apply table_body_mode|].
  eapply moves_weaken; [..|exact Hmv]; unfold step_cost; lia.
Qed.

Lemma table_form a :
  step_fine w b t (match b.(form_element) with
    | Some _ => finish b
    | None =>
        '(id, b) ← insert_element b (str "form") a;
        let b := set_form (Some id) b in
        finish (set_open (vec_pop b.(open_elements)) b)
    end).
Proof using HL Hm Hr.
  destruct (form_element b); [apply same_step; [done|apply table_body_mode]|].
  destruct (insert_good b (str "form") a) as (id & b1 & -> & HG1 & Hs1 & Hm1 & Ho1 & Ht1 & _);
    [apply HL|ordinary_tac|eapply room_le; [|done]; unfold step_cost; lia|]. cbn [mbind res_bind].
  destruct (Keeps_set_form b1 id HG1 Ht1) as (b2 & Hb2%Ok_inj & HG2 & Hs2 & Hm2).
  destruct (K_pop b2 id (str "form") HG2) as (b3 & Hb3%Ok_inj & HG3 & Hs3 & Hm3); [..|ordinary_tac|].
  { subst b2. cbn. rewrite Ho1. apply last_snoc. } { by subst b2. }
  subst b3 b2. eexists _, _. split; [done|]. eapply (moves_out _ _ _ _ 0); [done|apply table_body_mode|done| |lia|].
  { by rewrite Hs3, Hs2, Hs1. }
  eapply moves_weaken; [|reflexivity|exact (moves_trans _ _ _ _ _ _ _ Hm1 (moves_trans _ _ _ _ _ _ _ Hm2 Hm3))].
  unfold step_cost. lia.
Qed.

(** Everything that goes to the rules of the body, foster parented. *)
Lemma table_other :
  (∀ a s, t ≠ StartTag Ttable a s) →
  (∀ n, t = EndTag n → one_of n ["table"; "body"; "caption"; "col"; "colgroup"; "html"; "tbody"; "td"; "tfoot"; "th"; "thead"; "tr"] = false) →
  step_fine w b t ('(r, b) ← step_in_body (set_foster true b) t; Ok (r, set_foster false b)).
Proof using HL Hm Hr.
  intros Hst Hen. apply step_body_fostered; [done|apply table_body_mode|done| | |].
  - destruct t as [| | |n| |]; try done. specialize (Hen n eq_refl).
    assert (∀ s, s ∈ ["table"; "body"; "caption"; "col"; "colgroup"; "html"; "tbody"; "td"; "tfoot"; "th"; "thead"; "tr"]%string
      → n ≠ str s) as Hne.
    { intros s Hs ->. apply not_true_iff_false in Hen. apply Hen, one_of_spec, list_elem_of_fmap. eauto. }
    split; [right|intros ->; by destruct (Hne "table"%string); [left|]].
    destruct (ctx_last w _ table_context) as (l & u & -> & Hu). rewrite last_snoc. intros [= ->].
    destruct Hu as [->|[->|[[->|[->| ->]]|[->|[->| ->]]]]];
      first [by destruct (Hne "colgroup"%string); [set_solver|]|by destruct (Hne "table"%string); [set_solver|]|by destruct (Hne "tbody"%string); [set_solver|]
        |by destruct (Hne "thead"%string); [set_solver|]|by destruct (Hne "tfoot"%string); [set_solver|]
        |by destruct (Hne "tr"%string); [set_solver|]|by destruct (Hne "td"%string); [set_solver|]
        |by destruct (Hne "th"%string); [set_solver|]].
  - intros a s Ht. by destruct (Hst a s).
  - intros n _ _ Hsc. by rewrite (ctx_no_body w) in Hsc by apply table_context.
Qed.

Definition TABLE_STARTS : list string :=
  ["caption"; "colgroup"; "col"; "tbody"; "thead"; "tfoot"; "tr"; "td"; "th"]%string.

Lemma table_rest :
  (∀ n a s, t = StartTag n a s → one_of n TABLE_STARTS = false) → step_fine' w b t (step_in_table b t).
Proof using HL Hm Hr.
  intros Hst. destruct t as [| |n a s|n|s|] eqn:Et.
  1,2: left; apply same_step; [done|apply table_body_mode].
  - specialize (Hst n a s eq_refl). cbn [step_in_table].
    assert (∀ l, Forall (.∈ TABLE_STARTS) l → one_of n l = false) as Hno.
    { intros l Hl. apply not_true_iff_false. intros (x & -> & Hx)%one_of_spec%list_elem_of_fmap.
      rewrite Forall_forall in Hl. apply not_true_iff_false in Hst. apply Hst, one_of_spec, list_elem_of_fmap. eauto. }
    assert (∀ x, x ∈ TABLE_STARTS → tag_is n x = false) as Hno1.
    { intros x Hx. specialize (Hno [x] ltac:(by apply Forall_singleton)). cbn in Hno. by rewrite orb_false_r in Hno. }
    rewrite !Hno1 by in_list.
    rewrite !Hno by (repeat constructor; in_list).
    name_case E1; [apply tag_is_spec in E1 as ->; rewrite <-Et; by eapply table_start_table|].
    left. rewrite <-Et. name_case E2; [by eapply table_text_element|]. name_case E3.
    { eapply keep_step; [done|apply table_body_mode|apply K_insert; [apply HL|ordinary_tac|]|..];
        [eapply room_le; [|done]|..]; unfold step_cost; lia. }
    name_case E4; [apply table_form|]. apply table_other; rewrite Et; [|done].
    intros a' s' [= -> _ _]. done.
  - left. cbn [step_in_table]. name_case E1; [apply tag_is_spec in E1 as ->; rewrite <-Et; by apply table_end_table|].
    name_case E2; [apply same_step; [done|apply table_body_mode]|]. rewrite <-Et. apply table_other; rewrite Et; [done|].
    intros n' [= <-]. change (one_of n ("table"%string :: ["body"; "caption"; "col"; "colgroup"; "html"; "tbody"; "td"; "tfoot"; "th"; "thead"; "tr"]%string) = false).
    cbn [one_of existsb]. by rewrite E1.
  - left. rewrite <-Et. by eapply table_character.
  - left. cbn [step_in_table]. rewrite <-Et. apply table_other; rewrite Et; done.
Qed.
End TableStep.
