(* ===== verification/HtmlTableModes.v ===== *)
(** * The table modes, one by one

    Every step of the six table modes keeps the invariant, and a token to be reprocessed has a
    smaller rank, unless an open cell that a mismatched end tag left behind hides what the mode
    looks for. *)

From S2P Require Import Prelude Dom DomTree DomWalk DomOps HtmlTokenizer HtmlTotal HtmlTree DomParents.
From S2P Require Import HtmlTreeInv HtmlModes HtmlStack HtmlFormatting HtmlAdoption HtmlAgency HtmlGood HtmlInBody HtmlBody HtmlShape HtmlSteps HtmlTables.

Lemma ctx_split w s :
  table_ctx w s → ∃ l k, base l ∧ s = l ++ Ttable :: k
    ∧ forallb (λ t, negb (one_of t ["html"; "table"])) k = true.
Proof.
  intros (l & k & Hl & -> & Hk). exists l, k. split_and!; [done..|].
  destruct Hk as [->|[->|[(x & Hx & ->)|[(x & Hx & ->)|(_ & x & c & Hx & Hc & ->)]]]]; section_cases; reflexivity.
Qed.

Lemma cost_part b : (1 ≤ step_cost b)%N.
Proof. unfold step_cost. lia. Qed.
#[local] Hint Resolve cost_part : core.

(** ** In table *)
Section InTable.
Context (w : bool) (b : TreeBuilder).
Hypotheses (HL : Late w b) (Hmode : b.(mode) = InTable) (Hr : room (step_cost b) b).

Lemma in_table_mode : table_mode b.(mode) = true.
Proof using Hmode. by rewrite Hmode. Qed.
Lemma in_table_body : body_mode b.(mode) = true.
Proof using Hmode. by rewrite Hmode. Qed.

(** A part opened directly under the table. *)
Lemma table_opens t name attrs m r :
  name ∈ STRUCTURE → stands_on Ttable name = true →
  (∀ l, base l → body_shape w m (l ++ [Ttable; name])) →
  match r with Done => True | Reprocess t' => token_rank t' m < token_rank t InTable ∧ remainder t t' end →
  step_fine w b t (b ← open_table_part b ["table"%string] name attrs m; Ok (r, b)).
Proof using HL Hmode Hr.
  intros Hn Hst Hsh Hrk. destruct (ctx_split w _ (table_context w b HL in_table_mode)) as (l & k & Hl & Hs & Hk).
  destruct (open_part b ["table"%string] l Ttable k name attrs m) as (b1 & -> & HG1 & Hs1 & Hm1);
    [apply HL|done|structural|done..|eapply room_le; [|done]; auto|]. cbn [mbind res_bind].
  eexists _, _. split; [done|].
  eapply part_step; [done|apply in_table_body|done|exact Hm1|auto|lia|rewrite Hs1; auto|by rewrite Hmode].
Qed.

Lemma table_caption t attrs :
  step_fine w b t (b ← clear_stack_back_to b ["table"%string];
                 b ← insert_element_ (insert_afe_marker b) (str "caption") attrs;
                 finish (set_mode InCaption b)).
Proof using HL Hmode Hr.
  destruct (ctx_split w _ (table_context w b HL in_table_mode)) as (l & k & Hl & Hs & Hk).
  destruct (clear_spec b ["table"%string] l Ttable k) as (b1 & l1 & -> & HG1 & Htg1 & Hs1 & Hm1);
    [apply HL|done|structural|done..|]. cbn [mbind res_bind].
  destruct (marker_keeps b1 HG1) as (HG2 & Hs2 & Hm2).
  destruct (insert_part (insert_afe_marker b1) l1 Ttable (str "caption") attrs) as (b3 & -> & HG3 & Hs3 & Hm3);
    [done..|structural|done| |].
  { eapply (moves_room 0 1 1); [exact Hm2|]. eapply (moves_room 0 0 1); [exact Hm1|]. eapply room_le; [|done]. auto. }
  cbn [mbind res_bind]. eexists _, _. split; [done|].
  eapply part_step; [done|apply in_table_body|done
    |exact (moves_trans _ _ _ _ _ _ _ Hm1 (moves_trans _ _ _ _ _ _ _ Hm2 Hm3))|apply cost_part|lia| |done].
  exists l. split; [done|]. by rewrite Hs3, Hs2, Hs1, <-app_assoc.
Qed.

Lemma step_in_table_ok t : step_fine' w b t (step_in_table b t).
Proof using HL Hmode Hr.
  destruct t as [| |n a s|n|s|]; try (apply table_rest; [done|apply in_table_mode|done|done]).
  destruct (one_of n TABLE_STARTS) eqn:En; [|apply table_rest; [done|apply in_table_mode|done|by intros ??? [= <- _ _]]].
  left. apply one_of_spec, list_elem_of_fmap in En as (x & -> & Hx).
  repeat (apply elem_of_cons in Hx as [->|Hx]); [..|by apply elem_of_nil in Hx].
  - apply table_caption.
  - apply (table_opens _ (str "colgroup") a InColumnGroup Done); [structural|done| |done]. intros l Hl. by exists l.
  - apply (table_opens _ (str "colgroup") [] InColumnGroup (Reprocess _)); [structural|done| |].
    + intros l Hl. by exists l.
    + split; [vm_compute; lia|by left].
  - apply (table_opens _ (str "tbody") a InTableBody Done); [structural|done| |done].
    intros l Hl. left. exists l, (str "tbody"). split_and!; [done|by left|done].
  - apply (table_opens _ (str "thead") a InTableBody Done); [structural|done| |done].
    intros l Hl. left. exists l, (str "thead"). split_and!; [done|by right; left|done].
  - apply (table_opens _ (str "tfoot") a InTableBody Done); [structural|done| |done].
    intros l Hl. left. exists l, (str "tfoot"). split_and!; [done|by right; right|done].
  - apply (table_opens _ (str "tbody") [] InTableBody (Reprocess _)); [structural|done| |].
    + intros l Hl. left. exists l, (str "tbody"). split_and!; [done|by left|done].
    + split; [vm_compute; lia|by left].
  - apply (table_opens _ (str "tbody") [] InTableBody (Reprocess _)); [structural|done| |].
    + intros l Hl. left. exists l, (str "tbody"). split_and!; [done|by left|done].
    + split; [vm_compute; lia|by left].
  - apply (table_opens _ (str "tbody") [] InTableBody (Reprocess _)); [structural|done| |].
    + intros l Hl. left. exists l, (str "tbody"). split_and!; [done|by left|done].
    + split; [vm_compute; lia|by left].
Qed.
End InTable.

(** ** In caption *)
Section InCaption.
Context (w : bool) (b : TreeBuilder).
Hypotheses (HL : Late w b) (Hmode : b.(mode) = InCaption) (Hr : room (step_cost b) b).

Lemma in_caption_body : body_mode b.(mode) = true.
Proof using Hmode. by rewrite Hmode. Qed.

Lemma in_caption_skel : ∃ l, base l ∧ skel b = l ++ [Ttable; str "caption"].
Proof using HL Hmode. pose proof (placed_body w b in_caption_body (la_placed _ _ HL)) as H. by rewrite Hmode in H. Qed.

Lemma close_caption_spec clear :
  ∃ b1, close_caption clear b = Ok b1 ∧ moves 0 0 b b1 ∧ (Good b1 ∧ body_shape w InTable (skel b1)).
Proof using HL Hmode.
  destruct in_caption_skel as (l & Hl & Hs). unfold close_caption. apply implied_then; [apply HL|].
  intros b1 HG1 Hs1 Hm1. destruct (pop_incl b1 "caption" (l ++ [Ttable]) []) as (b2 & -> & HG2 & Hs2 & Hm2);
    [done|by rewrite Hs1, Hs, <-app_assoc|by destruct l|structural|done|]. cbn [mbind res_bind].
  eexists; split; [done|]. destruct (clear_afe_keeps b2 HG2) as (HG3 & Hs3 & Hm3).
  destruct clear; (split; [|split; [done|left; exists l; split; [done|]]]); try congruence; try done.
  exact (moves_trans 0 0 0 0 _ _ _ Hm2 Hm3).
Qed.

Lemma caption_scope : has_tag_in_scope b (str "caption") [] = Ok true.
Proof using HL Hmode.
  destruct in_caption_skel as (l & Hl & Hs). apply has_scope; [apply HL|structural|]. scope_eq Hs.
Qed.

(** Out of the caption, into the table. *)
Lemma caption_closes clear t r :
  match r with Done => True | Reprocess t' => token_rank t' InTable < token_rank t InCaption ∧ remainder t t' end →
  step_fine w b t (b ← when (has_tag_in_scope b (str "caption") [])
    (λ b, b ← close_caption clear b; Ok (set_mode InTable b)) b; Ok (r, b)).
Proof using HL Hmode.
  intros Hrk. unfold when. rewrite caption_scope. cbn [mbind res_bind].
  destruct (close_caption_spec clear) as (b1 & -> & Hm1 & HG1 & Hs1). cbn [mbind res_bind].
  eexists _, _. split; [done|].
  eapply part_step; [done|apply in_caption_body|done|exact Hm1|unfold step_cost; lia|lia|done|by rewrite Hmode].
Qed.

Lemma caption_body t :
  (∀ n, t = EndTag n → tag_is n "caption" = false ∧ tag_is n "table" = false) → step_fine w b t (step_in_body b t).
Proof using HL Hmode Hr.
  intros He. destruct in_caption_skel as (l & Hl & Hs). apply step_body; [done|apply in_caption_body|done|..].
  - destruct t as [| | |n| |]; try done. destruct (He n eq_refl) as [H1 H2]. split.
    + right. rewrite Hs, last_app. cbn. intros [= <-]. done.
    + by intros ->.
  - intros _ _ _. rewrite Hs. by apply base_caption.
  - intros n _ _. rewrite Hs, rev_app_distr. by cbn.
Qed.

Lemma step_in_caption_ok t : step_fine w b t (step_in_caption b t).
Proof using HL Hmode Hr.
  destruct t as [| |n a s|n|s|]; try (by apply caption_body); cbn [step_in_caption].
  - name_case E1; [|by apply caption_body]. apply (caption_closes true _ (Reprocess _)). split; [|by left].
    apply one_of_spec, list_elem_of_fmap in E1 as (x & -> & Hx).
    repeat (apply elem_of_cons in Hx as [->|Hx]; [vm_compute; lia|]). by apply elem_of_nil in Hx.
  - name_case E1.
    { assert (∀ m f, (b ← when m f b; finish (set_mode InTable b))
        = (b ← (x ← m; if x : bool then f b else Ok b); Ok (Done, set_mode InTable b))) as -> by done.
      rewrite caption_scope. cbn [mbind res_bind].
      destruct (close_caption_spec true) as (b1 & -> & Hm1 & HG1 & Hs1). cbn [mbind res_bind].
      eexists _, _. split; [done|].
      eapply part_step; [done|apply in_caption_body|done|exact Hm1|unfold step_cost; lia|lia|done|done]. }
    name_case E2; [|apply caption_body; by intros n' [= <-]].
    apply (caption_closes false _ (Reprocess _)). apply tag_is_spec in E2 as ->. split; [vm_compute; lia|by left].
Qed.
End InCaption.

(** ** In column group *)
Lemma take_drop_while (s : list N) : s = take_while is_whitespace s ++ trim_start s.
Proof.
  unfold trim_start. induction s as [|c s IH]; [done|]. cbn. destruct (is_whitespace c); [|done].
  cbn. by rewrite <-IH.
Qed.

Lemma blank_forall s : blank s = true ↔ Forall (λ c, is_whitespace c = true) s.
Proof. unfold blank. rewrite forallb_forall, Forall_forall. by setoid_rewrite list_elem_of_In. Qed.

Lemma take_while_ws s : Forall (λ c, is_whitespace c = true) (take_while is_whitespace s).
Proof. induction s as [|c s IH]; cbn; [constructor|]. destruct (is_whitespace c) eqn:E; by constructor. Qed.

(** What is left after leading white space has none, and is not empty if the text was not blank. *)
Lemma trim_rest s :
  blank s = false → trim_start s ≠ [] ∧ take_while is_whitespace (trim_start s) = [].
Proof.
  intros Hb. split.
  - intros He. apply not_true_iff_false in Hb. apply Hb, blank_forall. rewrite (take_drop_while s), He, app_nil_r.
    apply take_while_ws.
  - unfold trim_start. induction s as [|c s IH]; [done|]. cbn. destruct (is_whitespace c) eqn:E; cbn.
    + apply IH. cbn in Hb. by rewrite E in Hb.
    + by rewrite E.
Qed.

Lemma ws_split s ws rest :
  blank s = false → split_leading_whitespace s = Some (ws, rest) →
  rest = trim_start s ∧ leading_ws (Character rest) < leading_ws (Character s) ∧ rest ≠ [].
Proof.
  intros Hb. unfold split_leading_whitespace. destruct (take_while is_whitespace s) as [|c l] eqn:E; [done|].
  intros [= <- <-]. destruct (trim_rest s Hb) as [Hne Hws]. split; [done|]. split; [|done].
  cbn [leading_ws]. rewrite E, Hws. lia.
Qed.

Lemma ws_rank s rest m :
  leading_ws (Character rest) < leading_ws (Character s) →
  token_rank (Character rest) m < token_rank (Character s) m.
Proof. intros H. unfold token_rank. assert (mode_rank (Character rest) m = mode_rank (Character s) m) as -> by (by destruct m). lia. Qed.

(** The whitespace rule inserts text and may leave the rest of it. *)
Lemma whitespace_rule_body w b t :
  Late w b → body_mode b.(mode) = true → room (step_cost b) b →
  (∃ r, whitespace_rule b t = Ok (Some r) ∧ step_fine w b t (Ok r)) ∨ whitespace_rule b t = Ok None.
Proof.
  intros HL Hm Hr. destruct t as [| |n a sc|n|s|]; try (by right). cbn [whitespace_rule].
  assert (∀ ws, Keeps 1 0 b (insert_text b ws)) as Hk.
  { intros ws. apply K_insert_text; [apply HL|]. eapply room_le; [|done]. auto. }
  destruct (blank s) eqn:Eb.
  - left. destruct (Hk s) as (b1 & -> & HG1 & Hs1 & Hm1). cbn [mbind res_bind]. eexists; split; [done|].
    eexists _, _. split; [done|]. eapply (moves_out _ _ _ _ 0); [done..|lia|]. by eapply (moves_weaken 1); [apply cost_part|..].
  - destruct (split_leading_whitespace s) as [[ws rest]|] eqn:Es; [|by right]. left.
    destruct (ws_split s ws rest Eb Es) as (-> & Hlt & Hne).
    destruct (Hk ws) as (b1 & -> & HG1 & Hs1 & Hm1). cbn [mbind res_bind]. eexists; split; [done|].
    eexists _, _. split; [done|].
    assert (out w b (Character s) Done b1) as [H1 H2 H3 H4 _].
    { eapply (moves_out _ _ _ _ 0); [done..|lia|]. by eapply (moves_weaken 1); [apply cost_part|..]. }
    split; try done. rewrite (mv_mode _ _ _ _ Hm1). split; [by apply ws_rank|]. right. eauto.
Qed.

Section InColumnGroup.
Context (w : bool) (b : TreeBuilder).
Hypotheses (HL : Late w b) (Hmode : b.(mode) = InColumnGroup) (Hr : room (step_cost b) b).

Lemma in_column_group_body : body_mode b.(mode) = true.
Proof using Hmode. by rewrite Hmode. Qed.

(** Leaving pops the column group when it is the current node. *)
Lemma column_group_leaves :
  ∃ b1, (b ← when (is_current b "colgroup") (λ b, Ok (set_open (vec_pop b.(open_elements)) b)) b;
         Ok (set_mode InTable b)) = Ok (set_mode InTable b1)
    ∧ Good b1 ∧ moves 0 0 b b1 ∧ body_shape w InTable (skel b1).
Proof using HL Hmode.
  pose proof (placed_body w b in_column_group_body (la_placed _ _ HL)) as Hp. rewrite Hmode in Hp.
  destruct Hp as (l & Hl & Hs). pose proof (la_good _ _ HL) as HG.
  destruct (Good_current b HG) as (x & t & Hc & Hlast & Ht & _). unfold when, is_current.
  rewrite Hc. cbn [mbind res_bind]. rewrite (tag_of_tg _ _ _ Ht). cbn [mbind res_bind is_tag].
  destruct (tag_is t "colgroup") eqn:Et.
  2: { exists b. split_and!; [done..|apply moves_refl, HG|]. do 2 right. left. by exists l. }
  apply tag_is_spec in Et as ->. apply last_Some in Hlast as [o Ho].
  exists (set_open o b). rewrite Ho, vec_pop_app. split; [done|].
  assert (skel (set_open o b) = l ++ [Ttable]) as Hs'.
  { unfold skel, tags in *. rewrite Ho, tags_of_app, (tags_of_one _ _ _ Ht), skel_app, skel_structural in Hs by structural.
    change (l ++ [Ttable; str "colgroup"]) with (l ++ [Ttable] ++ [str "colgroup"]) in Hs. rewrite app_assoc in Hs.
    by apply app_inj_tail in Hs as [? _]. }
  split; [|split; [apply moves_open, HG|left; by exists l]].
  apply (Good_prefix b o [x] HG Ho). intros ->. destruct l; done.
Qed.

Lemma column_group_other t :
  mode_rank t InTable < mode_rank t InColumnGroup →
  step_fine w b t (b ← (b ← when (is_current b "colgroup") (λ b, Ok (set_open (vec_pop b.(open_elements)) b)) b;
                      Ok (set_mode InTable b)); reprocess t b).
Proof using HL Hmode.
  intros Hrk. destruct column_group_leaves as (b1 & -> & HG1 & Hm1 & Hs1). cbn [mbind res_bind].
  eexists _, _. split; [done|].
  eapply part_step; [done|apply in_column_group_body|done|exact Hm1|unfold step_cost; lia|lia|done|].
  split; [|by left]. rewrite Hmode. by apply rank_mode.
Qed.

Lemma column_group_rank n a s :
  tag_is n "col" = false → mode_rank (StartTag n a s) InTable < mode_rank (StartTag n a s) InColumnGroup.
Proof. intros Hn. cbn [mode_rank table_rank]. rewrite Hn. repeat case_match; cbn [plain_rank]; lia. Qed.

Lemma step_in_column_group_ok t : step_fine w b t (step_in_column_group b t).
Proof using HL Hmode Hr.
  unfold step_in_column_group.
  destruct (whitespace_rule_body w b t HL in_column_group_body Hr) as [(r & -> & Hok)| ->]; [exact Hok|].
  cbn [mbind res_bind]. destruct t as [| |n a s|n|s|]; try (apply same_step; [done|apply in_column_group_body]).
  - name_case E1; [|by apply column_group_other, column_group_rank].
    eapply keep_step; [done|apply in_column_group_body|apply K_insert; [apply HL|ordinary_tac|]|..];
      [eapply room_le; [|done]|..]; unfold step_cost; lia.
  - name_case E1; [|apply column_group_other; cbn; lia].
    destruct column_group_leaves as (b1 & -> & HG1 & Hm1 & Hs1). eexists _, _. split; [done|].
    eapply part_step; [done|apply in_column_group_body|done|exact Hm1|unfold step_cost; lia|lia|done|done].
  - apply column_group_other. cbn. lia.
  - apply column_group_other. cbn. lia.
Qed.
End InColumnGroup.
