(* ===== verification/HtmlRows.v ===== *)
(** * Sections, rows and cells *)

From S2P Require Import Prelude Dom DomTree DomWalk DomOps HtmlTokenizer HtmlTotal HtmlTree DomParents.
From S2P Require Import HtmlTreeInv HtmlModes HtmlStack HtmlFormatting HtmlAdoption HtmlAgency HtmlGood HtmlInBody HtmlBody HtmlShape HtmlSteps HtmlTables HtmlTableModes.

Lemma cost_none b : (0 ≤ step_cost b)%N.
Proof. unfold step_cost. lia. Qed.
#[local] Hint Resolve cost_part cost_none : core.

Lemma section_one_of x : is_section x → one_of x SECTIONS = true.
Proof. by intros [->|[->| ->]]. Qed.

(** A name among literals, taken apart. *)
Lemma one_of_cases n l : one_of n l = true → ∃ s, n = str s ∧ s ∈ l.
Proof. by intros (s & -> & Hs)%one_of_spec%list_elem_of_fmap; exists s. Qed.

Ltac each_name Hx tac :=
  repeat (apply elem_of_cons in Hx as [->|Hx]; [tac|]); by apply elem_of_nil in Hx.

(** ** In table body *)
Section InTableBody.
Context (w : bool) (b : TreeBuilder).
Hypotheses (HL : Late w b) (Hmode : b.(mode) = InTableBody) (Hr : room (step_cost b) b).

Lemma in_table_body_body : body_mode b.(mode) = true.
Proof using Hmode. by rewrite Hmode. Qed.
Lemma in_table_body_table : table_mode b.(mode) = true.
Proof using Hmode. by rewrite Hmode. Qed.

Lemma in_table_body_skel :
  ∃ l x k, base l ∧ is_section x ∧ skel b = (l ++ [Ttable]) ++ x :: k
    ∧ (k = [] ∨ (w = true ∧ ∃ c, is_cell c ∧ k = [Ttr; c])).
Proof using HL Hmode.
  pose proof (placed_body w b in_table_body_body (la_placed _ _ HL)) as H. rewrite Hmode in H.
  destruct H as [(l & x & Hl & Hx & ->)|(Hw & l & x & c & Hl & Hx & Hc & ->)].
  - exists l, x, []. rewrite <-app_assoc. split_and!; try done. by left.
  - exists l, x, [Ttr; c]. rewrite <-app_assoc. split_and!; try done. right. eauto.
Qed.

Lemma section_opens_row t attrs r :
  match r with Done => True | Reprocess t' => token_rank t' InRow < token_rank t InTableBody ∧ remainder t t' end →
  step_fine w b t (b ← open_table_part b SECTIONS (str "tr") attrs InRow; Ok (r, b)).
Proof using HL Hmode Hr.
  intros Hrk. destruct in_table_body_skel as (l & x & k & Hl & Hx & Hs & Hk).
  destruct (open_part b SECTIONS (l ++ [Ttable]) x k (str "tr") attrs InRow) as (b1 & -> & HG1 & Hs1 & Hm1);
    [apply HL|done|structural|by apply section_one_of| |structural|by apply section_one_of|eapply room_le; [|done]; auto|].
  { destruct Hk as [->|(_ & c & Hc & ->)]; section_cases; reflexivity. }
  cbn [mbind res_bind]. eexists _, _. split; [done|].
  eapply part_step; [done|apply in_table_body_body|done|exact Hm1|auto|lia| |by rewrite Hmode].
  left. exists l, x. split_and!; [done..|]. by rewrite Hs1, <-app_assoc.
Qed.

Lemma close_section_spec :
  ∃ b1, close_table_section b = Ok b1 ∧ Good b1 ∧ in_table (skel b1) ∧ moves 0 0 b b1.
Proof using HL Hmode.
  destruct in_table_body_skel as (l & x & k & Hl & Hx & Hs & Hk). unfold close_table_section.
  destruct (close_part b (λ t, is_tag t "tbody" || is_tag t "thead" || is_tag t "tfoot") (l ++ [Ttable]) x k)
    as (b1 & -> & HG1 & Hs1 & Hm1); [apply HL|done|by destruct l|by section_cases| | |].
  - intros t Ho. cbn [is_tag]. by rewrite !not_tag_is by (done || structural).
  - destruct Hk as [->|(_ & c & Hc & ->)]; section_cases; reflexivity.
  - exists b1. split_and!; try done. by exists l.
Qed.

Lemma section_leaves t :
  mode_rank t InTable < mode_rank t InTableBody →
  step_fine w b t (b ← close_table_section b; reprocess t (set_mode InTable b)).
Proof using HL Hmode.
  intros Hrk. destruct close_section_spec as (b1 & -> & HG1 & Hs1 & Hm1). cbn [mbind res_bind].
  eexists _, _. split; [done|]. eapply part_step; [done|apply in_table_body_body|done|exact Hm1|auto|lia|by left|].
  split; [|by left]. rewrite Hmode. by apply rank_mode.
Qed.

(** A section end tag: the mode changes whether or not it closed anything. *)
Lemma section_end s t :
  s ∈ SECTIONS →
  step_fine w b t (b ← when (has_tag_in_scope b (str s) []) close_table_section b; finish (set_mode InTable b)).
Proof using HL Hmode.
  intros Hs. assert (str s ∈ STRUCTURE) as Hst by (each_name Hs structural).
  unfold when. rewrite (has_structural b s) by (apply HL || done). cbn [mbind res_bind].
  destruct (sscope _ _); cbn [mbind res_bind].
  - destruct close_section_spec as (b1 & -> & HG1 & Hs1 & Hm1). cbn [mbind res_bind].
    eexists _, _. split; [done|]. by eapply part_step; [done|apply in_table_body_body|done|exact Hm1|auto|lia|left|].
  - eexists _, _. split; [done|].
    eapply part_step; [done|apply in_table_body_body|apply HL|apply (moves_refl 0 0), HL|auto|lia| |done].
    pose proof (placed_body w b in_table_body_body (la_placed _ _ HL)) as H. rewrite Hmode in H.
    destruct H as [H|H]; [by right; left|by do 3 right].
Qed.

Lemma step_in_table_body_ok t : step_fine' w b t (step_in_table_body b t).
Proof using HL Hmode Hr.
  destruct t as [| |n a s|n|s|]; try (by apply table_rest; [..|apply in_table_body_table| |]); cbn [step_in_table_body].
  - name_case E1; [left; apply (section_opens_row _ a Done); done|]. name_case E2.
    { left. apply (section_opens_row _ [] (Reprocess _)). split; [|by left].
      apply one_of_cases in E2 as (x & -> & Hx). each_name Hx ltac:(vm_compute; lia). }
    name_case E3.
    { left. apply section_leaves. apply one_of_cases in E3 as (x & -> & Hx). each_name Hx ltac:(vm_compute; lia). }
    name_case E4.
    { left. apply section_leaves. apply one_of_cases in E4 as (x & -> & Hx). each_name Hx ltac:(vm_compute; lia). }
    apply table_rest; [done|apply in_table_body_table|done|]. intros n' a' s' [= <- _ _].
    unfold TABLE_STARTS, SECTIONS, one_of in *. cbn in *. rewrite !orb_false_iff in *. naive_solver.
  - name_case E1.
    { left. apply one_of_cases in E1 as (x & -> & Hx). by apply section_end. }
    name_case E2; [left; apply section_leaves; cbn; lia|]. by apply table_rest; [..|apply in_table_body_table| |].
Qed.
End InTableBody.

(** ** In row *)
Section InRow.
Context (w : bool) (b : TreeBuilder).
Hypotheses (HL : Late w b) (Hmode : b.(mode) = InRow) (Hr : room (step_cost b) b).

Lemma in_row_body : body_mode b.(mode) = true.
Proof using Hmode. by rewrite Hmode. Qed.
Lemma in_row_table : table_mode b.(mode) = true.
Proof using Hmode. by rewrite Hmode. Qed.

Lemma in_row_skel :
  ∃ l x k, base l ∧ is_section x ∧ skel b = (l ++ [Ttable; x]) ++ Ttr :: k
    ∧ (k = [] ∨ (w = true ∧ in_cell (skel b) ∧ ∃ c, is_cell c ∧ k = [c])).
Proof using HL Hmode.
  pose proof (placed_body w b in_row_body (la_placed _ _ HL)) as H. rewrite Hmode in H.
  destruct H as [(l & x & Hl & Hx & ->)|(Hw & l & x & c & Hl & Hx & Hc & ->)].
  - exists l, x, []. rewrite <-app_assoc. split_and!; try done. by left.
  - exists l, x, [c]. rewrite <-app_assoc. split_and!; try done. right. split; [done|]. split; [|eauto].
    by exists l, x, c.
Qed.

Lemma row_opens_cell t name attrs :
  is_cell name →
  step_fine w b t (b ← open_table_part b ["tr"%string] name attrs InCell; finish (insert_afe_marker b)).
Proof using HL Hmode Hr.
  intros Hn. destruct in_row_skel as (l & x & k & Hl & Hx & Hs & Hk).
  destruct (open_part b ["tr"%string] (l ++ [Ttable; x]) Ttr k name attrs InCell) as (b1 & -> & HG1 & Hs1 & Hm1);
    [apply HL|done|structural|done| |by section_cases; structural|by section_cases|eapply room_le; [|done]; auto|].
  { destruct Hk as [->|(_ & _ & c & Hc & ->)]; section_cases; reflexivity. }
  cbn [mbind res_bind]. eexists _, _. split; [done|].
  change (insert_afe_marker (set_mode InCell b1)) with (set_mode InCell (insert_afe_marker b1)).
  destruct (marker_keeps b1 HG1) as (HG2 & Hs2 & Hm2).
  eapply part_step; [done|apply in_row_body|done|exact (moves_trans _ _ _ _ _ _ _ Hm1 Hm2)|apply cost_part|lia| |done].
  exists l, x, name. split_and!; [done..|]. by rewrite Hs2, Hs1, <-app_assoc.
Qed.

(** The row is closed, or a cell hides it. *)
Lemma row_closes :
  (∃ b1, has_tag_in_scope b (str "tr") [] = Ok true ∧ pop_until_and_including b (str "tr") = Ok b1 ∧ Good b1
     ∧ in_section (skel b1) ∧ moves 0 0 b b1)
  ∨ (w = true ∧ in_cell (skel b) ∧ has_tag_in_scope b (str "tr") [] = Ok false).
Proof using HL Hmode.
  destruct in_row_skel as (l & x & k & Hl & Hx & Hs & [->|(Hw & Hic & c & Hc & ->)]).
  - left. destruct (pop_incl b "tr" (l ++ [Ttable; x]) []) as (b1 & Hp & HG1 & Hs1 & Hm1);
      [apply HL|done|by destruct l|structural|done|].
    exists b1. split; [|split_and!; try done; by exists l, x].
    apply has_scope; [apply HL|structural|]. by rewrite Hs, rev_app_distr.
  - right. split_and!; try done. apply has_scope; [apply HL|structural|].
    rewrite Hs, rev_app_distr. section_cases; reflexivity.
Qed.

Lemma row_leaves t :
  (in_cell (skel b) → stuck b t) → mode_rank t InTableBody < mode_rank t InRow →
  step_fine' w b t (b ← when (has_tag_in_scope b (str "tr") [])
    (λ b, b ← pop_until_and_including b (str "tr"); Ok (set_mode InTableBody b)) b; reprocess t b).
Proof using HL Hmode.
  intros Hst Hrk. unfold when. destruct row_closes as [(b1 & -> & Hp & HG1 & Hs1 & Hm1)|(Hw & Hc & ->)].
  - left. cbn [mbind res_bind]. rewrite Hp. cbn [mbind res_bind]. eexists _, _. split; [done|].
    eapply part_step; [done|apply in_row_body|done|exact Hm1|auto|lia|by left|].
    split; [|by left]. rewrite Hmode. by apply rank_mode.
  - right. split_and!; [done|by apply Hst|done].
Qed.

Lemma row_end t :
  step_fine w b t (b ← when (has_tag_in_scope b (str "tr") []) (λ b, pop_until_and_including b (str "tr")) b;
                 finish (set_mode InTableBody b)).
Proof using HL Hmode.
  unfold when. destruct row_closes as [(b1 & -> & Hp & HG1 & Hs1 & Hm1)|(Hw & Hc & ->)]; cbn [mbind res_bind].
  - rewrite Hp. cbn [mbind res_bind]. eexists _, _. split; [done|].
    by eapply part_step; [done|apply in_row_body|done|exact Hm1|auto|lia|left|].
  - eexists _, _. split; [done|].
    by eapply part_step; [done|apply in_row_body|apply HL|apply (moves_refl 0 0), HL|auto|lia|right|].
Qed.

Lemma step_in_row_ok t : step_fine' w b t (step_in_row b t).
Proof using HL Hmode Hr.
  assert (Good b) as HG by apply HL.
  destruct t as [| |n a s|n|s|]; try (by apply table_rest; [..|apply in_row_table| |]); cbn [step_in_row].
  - name_case E1.
    { left. apply row_opens_cell. apply one_of_cases in E1 as (x & -> & Hx).
      each_name Hx ltac:(unfold is_cell; auto). }
    name_case E2.
    { apply row_leaves.
      - intros Hc. split; [done|]. split; [done|]. rewrite Hmode. unfold one_of in *. cbn in *.
        rewrite !orb_true_iff in *. naive_solver.
      - apply one_of_cases in E2 as (x & -> & Hx). each_name Hx ltac:(vm_compute; lia). }
    apply table_rest; [done|apply in_row_table|done|]. intros n' a' s' [= <- _ _].
    unfold TABLE_STARTS, one_of in *. cbn in *. rewrite !orb_false_iff in *. naive_solver.
  - name_case E1; [apply tag_is_spec in E1 as ->; left; apply row_end|].
    name_case E2; [|by apply table_rest; [..|apply in_row_table| |]].
    apply row_leaves; [|cbn; lia]. intros Hc. split; [done|]. split; [done|]. by rewrite Hmode.
Qed.
End InRow.

(** ** In cell *)

(** An end tag of a cell that is not the open one: the code leaves the cell's mode all the same. *)
Definition bad_cell_end (b : TreeBuilder) (t : Token) : bool :=
  match b.(mode), t with
  | InCell, EndTag n =>
      one_of n ["td"; "th"]
      && negb (match has_tag_in_scope b n [] with Ok h => h | _ => false end)
  | _, _ => false
  end.

Lemma Late_mono w w' b : (w = true → w' = true) → Late w b → Late w' b.
Proof.
  intros Hw [HG Hf Hp HL]. split; [done..| |done].
  destruct Hp as [(Ht & l & n & ? & ? & ?)|Hp]; [left|right; by eapply shape_mono].
  split; [done|]. exists l, n. split_and!; [done..|]. by eapply shape_mono.
Qed.

Lemma out_mono w w' b t r b' : (w = true → w' = true) → out w b t r b' → out w' b t r b'.
Proof. intros Hw [HL ? ? ? ?]. split; try done. by eapply Late_mono. Qed.

Lemma step_ok_mono w w' b t m : (w = true → w' = true) → step_fine w b t m → step_fine w' b t m.
Proof. intros Hw (r & b' & ? & ?). exists r, b'. split; [done|]. by eapply out_mono. Qed.

Section InCell.
Context (w : bool) (b : TreeBuilder).
Hypotheses (HL : Late w b) (Hmode : b.(mode) = InCell) (Hr : room (step_cost b) b).

Lemma in_cell_body : body_mode b.(mode) = true.
Proof using Hmode. by rewrite Hmode. Qed.

Lemma in_cell_skel : ∃ l x c, base l ∧ is_section x ∧ is_cell c ∧ skel b = l ++ [Ttable; x; Ttr; c].
Proof using HL Hmode. pose proof (placed_body w b in_cell_body (la_placed _ _ HL)) as H. by rewrite Hmode in H. Qed.

(** The cell closed, by whatever stops at it. *)
Lemma cell_pops (f : TreeBuilder → res TreeBuilder) (stop : option (list N) → bool) :
  (∀ b, f b = on_stack (pop_through b.(document) stop) b) →
  (∀ t, ordinary t → stop (Some t) = false) → (∀ c, last (skel b) = Some c → stop (Some c) = true) →
  ∃ b1, (b ← generate_implied_end_tags b None; b ← f b; Ok (clear_afe_up_to_last_marker b)) = Ok b1
    ∧ moves 0 0 b b1 ∧ (Good b1 ∧ in_row (skel b1)).
Proof using HL Hmode.
  intros Hf Ho Hst. destruct in_cell_skel as (l & x & c & Hl & Hx & Hc & Hs).
  apply implied_then; [apply HL|]. intros b1 HG1 Hs1 Hm1. rewrite Hf.
  destruct (close_part b1 stop (l ++ [Ttable; x; Ttr]) c []) as (b2 & -> & HG2 & Hs2 & Hm2);
    [done|by rewrite Hs1, Hs, <-app_assoc|by destruct l|apply Hst; by rewrite Hs, last_app|done|done|].
  cbn [mbind res_bind]. destruct (clear_afe_keeps b2 HG2) as (HG3 & Hs3 & Hm3). eexists; split; [done|].
  split; [exact (moves_trans 0 0 0 0 _ _ _ Hm2 Hm3)|]. split; [done|]. rewrite Hs3, Hs2. by exists l, x.
Qed.

Lemma cell_end n :
  is_cell n →
  step_fine (w || bad_cell_end b (EndTag n)) b (EndTag n)
    (b ← when (has_tag_in_scope b n [])
       (λ b, b ← generate_implied_end_tags b None;
             b ← pop_until_and_including b n;
             Ok (clear_afe_up_to_last_marker b)) b;
     finish (set_mode InRow b)).
Proof using HL Hmode.
  intros Hn. destruct in_cell_skel as (l & x & c & Hl & Hx & Hc & Hs).
  assert (has_tag_in_scope b n [] = Ok (bool_decide (n = c))) as Hsc.
  { destruct Hn as [->| ->].
    - apply (has_scope b "td"); [apply HL|structural|]. rewrite Hs, rev_app_distr. section_cases; reflexivity.
    - apply (has_scope b "th"); [apply HL|structural|]. rewrite Hs, rev_app_distr. section_cases; reflexivity. }
  unfold when, bad_cell_end. rewrite Hmode, Hsc. cbn [mbind res_bind]. case_bool_decide as Enc.
  - subst c. destruct (cell_pops (λ b, pop_until_and_including b n) (λ t, bool_decide (t = Some n)))
      as (b1 & -> & Hm1 & HG1 & Hs1); [done| | |].
    { intros t Ho. apply bool_decide_eq_false. intros [= ->]. apply Ho. destruct Hn as [->| ->]; structural. }
    { rewrite Hs, last_app. cbn. intros c [= <-]. by apply bool_decide_eq_true. }
    cbn [mbind res_bind]. apply (step_ok_mono w); [by intros ->|]. eexists _, _. split; [done|].
    by eapply part_step; [done|apply in_cell_body|done|exact Hm1|auto|lia|left|].
  - assert (one_of n ["td"; "th"] = true) as -> by (by destruct Hn as [->| ->]). cbn [andb negb]. rewrite orb_true_r.
    eexists _, _. split; [done|].
    eapply part_step; [by apply (Late_mono w)|apply in_cell_body|apply HL|apply (moves_refl 0 0), HL|auto|lia| |done].
    right. split; [done|]. by exists l, x, c.
Qed.

Lemma cell_scope : has_cell_in_scope b = Ok true.
Proof using HL Hmode.
  destruct in_cell_skel as (l & x & c & Hl & Hx & Hc & Hs). unfold has_cell_in_scope.
  rewrite (has_structural b "td"), (has_structural b "th") by (apply HL || structural).
  rewrite Hs, rev_app_distr. destruct Hc as [->| ->]; reflexivity.
Qed.

Lemma cell_leaves t :
  mode_rank t InRow < mode_rank t InCell →
  step_fine w b t (b ← when (has_cell_in_scope b) close_current_cell b; reprocess t b).
Proof using HL Hmode.
  intros Hrk. unfold when. rewrite cell_scope. cbn [mbind res_bind]. unfold close_current_cell.
  destruct (cell_pops (λ b, on_stack (pop_through b.(document) (λ t, is_tag t "td" || is_tag t "th")) b)
    (λ t, is_tag t "td" || is_tag t "th")) as (b1 & Hb1 & Hm1 & HG1 & Hs1); [done| | |].
  { intros u Ho. cbn [is_tag]. by rewrite !not_tag_is by (done || structural). }
  { destruct in_cell_skel as (l & x & c & Hl & Hx & Hc & ->). rewrite last_app. cbn. intros c' [= <-].
    by destruct Hc as [->| ->]. }
  destruct (generate_implied_end_tags b None) as [b0| |]; [|done..]. cbn [mbind res_bind] in *.
  destruct (on_stack _ b0) as [b2| |]; [|done..]. cbn [mbind res_bind] in *. apply Ok_inj in Hb1 as ->.
  eexists _, _. split; [done|]. eapply part_step; [done|apply in_cell_body|done|exact Hm1|auto|lia|by left|].
  split; [|by left]. rewrite Hmode. by apply rank_mode.
Qed.

Lemma cell_body t :
  (∀ n, t = EndTag n → one_of n ["td"; "th"] = false ∧ tag_is n "table" = false) → step_fine w b t (step_in_body b t).
Proof using HL Hmode Hr.
  intros He. destruct in_cell_skel as (l & x & c & Hl & Hx & Hc & Hs). apply step_body; [done|apply in_cell_body|done|..].
  - destruct t as [| | |n| |]; try done. destruct (He n eq_refl) as [H1 H2]. split.
    + right. rewrite Hs, last_app. cbn. intros [= <-]. by destruct Hc as [->| ->].
    + by intros ->.
  - intros _ _ _. rewrite Hs. by apply base_cell.
  - intros n _ _. rewrite Hs, rev_app_distr. by destruct Hc as [->| ->].
Qed.

Lemma step_in_cell_ok t : step_fine (w || bad_cell_end b t) b t (step_in_cell b t).
Proof using HL Hmode Hr.
  assert (∀ m, step_fine w b t m → step_fine (w || bad_cell_end b t) b t m) as Hw.
  { intros m. apply step_ok_mono. by intros ->. }
  destruct t as [| |n a s|n|s|]; try (by apply Hw, cell_body); cbn [step_in_cell].
  - apply Hw. name_case E1; [|by apply cell_body]. apply cell_leaves.
    apply one_of_cases in E1 as (x & -> & Hx). each_name Hx ltac:(vm_compute; lia).
  - name_case E1.
    { apply cell_end. apply one_of_cases in E1 as (x & -> & Hx). each_name Hx ltac:(unfold is_cell; auto). }
    name_case E2; [|apply Hw, cell_body; intros n' [= <-]; split; [done|]].
    + apply one_of_cases in E2 as (x & -> & Hx). rewrite has_table_scope; [|apply HL|each_name Hx structural].
      cbn [mbind res_bind]. destruct (pscope _ _ _); [|by apply Hw, same_step; [|apply in_cell_body]].
      apply Hw, cell_leaves. cbn. lia.
    + unfold one_of in E2. cbn in E2. rewrite !orb_false_iff in E2. naive_solver.
Qed.
End InCell.
