(* ===== verification/HtmlModeSteps.v ===== *)
(** * The modes around the body

    The body modes outside tables, raw text, and the modes before the body. *)

From S2P Require Import Prelude Dom DomTree DomWalk DomOps HtmlTokenizer HtmlTotal HtmlTree DomParents.
From S2P Require Import HtmlTreeInv HtmlModes HtmlStack HtmlFormatting HtmlAdoption HtmlAgency HtmlGood HtmlInBody HtmlBody HtmlShape HtmlSteps HtmlTables HtmlTableModes HtmlRows.

#[local] Hint Resolve cost_part cost_none : core.

(** ** In body and after it *)
Section Body.
Context (w : bool) (b : TreeBuilder).
Hypotheses (HL : Late w b) (Hr : room (step_cost b) b) (Hs : skel b = [Thtml; Tbody]).
Hypothesis Hmode : b.(mode) = InBody ∨ b.(mode) = AfterBody ∨ b.(mode) = AfterAfterBody.

Lemma flow_body : body_mode b.(mode) = true.
Proof using Hmode. by destruct Hmode as [->|[->| ->]]. Qed.

Lemma step_in_body_ok t : b.(mode) = InBody ∨ is_character t = true → step_fine w b t (step_in_body b t).
Proof using HL Hr Hs Hmode.
  intros Hm. apply step_body; [done|apply flow_body|done|..].
  - destruct t as [| | |n| |]; try done. split; [|by intros ->; rewrite Hs].
    destruct (decide (n = Tbody)) as [->|Hn]; [by left|right]. rewrite Hs. change (Some Tbody ≠ Some n). congruence.
  - intros _ _ _. rewrite Hs. constructor.
  - intros n -> _ _. by destruct Hm.
Qed.

(** White space is processed in body; what follows it goes back there. *)
Lemma after_body_ws t :
  b.(mode) ≠ InBody →
  (∃ r, after_body_whitespace b t = Ok (Some r) ∧ step_fine w b t (Ok r)) ∨ after_body_whitespace b t = Ok None.
Proof using HL Hr Hs Hmode.
  intros Hni. destruct t as [| |n a sc|n|s|]; try (by right). cbn [after_body_whitespace].
  destruct (blank s) eqn:Eb.
  - left. destruct (step_in_body_ok (Character s)) as (r & b' & -> & Ho); [by right|]. cbn [mbind res_bind].
    eexists; split; [done|]. by eexists _, _.
  - destruct (split_leading_whitespace s) as [[ws rest]|] eqn:Es; [|by right]. left.
    destruct (ws_split s ws rest Eb Es) as (-> & Hlt & Hne).
    destruct (step_in_body_out b (Character ws)) as (r & b1 & -> & Ho);
      [apply HL|done|eapply room_le; [apply cost_le|done]|]. cbn [mbind res_bind].
    eexists; split; [done|]. eexists _, _. split; [done|].
    inversion Ho as [t b1' HG1 Hs1 Hm1| | |]; subst.
    eapply part_step; [done|apply flow_body|done|exact Hm1|apply cost_le|lia|by rewrite Hs1|].
    split; [|right; eauto]. unfold token_rank. pose proof (leading_ws_le (Character (trim_start s))).
    destruct Hmode as [?|[->| ->]]; [done|cbn [mode_rank is_html_end]; lia..].
Qed.

Lemma back_to_body t :
  b.(mode) ≠ InBody → mode_rank t InBody < mode_rank t b.(mode) → step_fine w b t (reprocess t (set_mode InBody b)).
Proof using HL Hs Hmode.
  intros Hni Hrk. eexists _, _. split; [done|].
  eapply part_step; [done|apply flow_body|apply HL|apply (moves_refl 0 0), HL|auto|lia|done|].
  split; [by apply rank_mode|by left].
Qed.

Lemma step_after_body_ok t : b.(mode) = AfterBody → step_fine w b t (step_after_body b t).
Proof using HL Hr Hs Hmode.
  intros Hm. assert (mode b ≠ InBody) as Hni by (by rewrite Hm). unfold step_after_body.
  destruct (after_body_ws t Hni) as [(r & -> & Hok)| ->]; [exact Hok|]. cbn [mbind res_bind].
  destruct t as [| |n a s|n|s|]; try (by apply same_step; [|apply flow_body]).
  - apply back_to_body; [done|]. rewrite Hm. cbn. lia.
  - name_case E1.
    + eexists _, _. split; [done|].
      by eapply part_step; [done|apply flow_body|apply HL|apply (moves_refl 0 0), HL|auto|lia|done|].
    + apply back_to_body; [done|]. rewrite Hm. cbn [mode_rank is_html_end]. rewrite E1. lia.
  - apply back_to_body; [done|]. rewrite Hm. cbn. lia.
Qed.

Lemma step_after_after_body_ok t : b.(mode) = AfterAfterBody → step_fine w b t (step_after_after_body b t).
Proof using HL Hr Hs Hmode.
  intros Hm. assert (mode b ≠ InBody) as Hni by (by rewrite Hm). unfold step_after_after_body.
  destruct (after_body_ws t Hni) as [(r & -> & Hok)| ->]; [exact Hok|]. cbn [mbind res_bind].
  destruct t as [| |n a s|n|s|]; try (by apply same_step; [|apply flow_body]).
  all: apply back_to_body; [done|]; rewrite Hm; cbn; lia.
Qed.
End Body.

(** ** Steps that leave the stack as it is *)
Lemma tags_same c b b' :
  Core b → evolves c b.(document) b'.(document) → b'.(open_elements) = b.(open_elements) → tags b' = tags b.
Proof.
  intros HC E Ho. unfold tags. rewrite Ho. eapply tags_of_evolves; [exact E|]. intros x. by apply co_live.
Qed.

Lemma Links_same c b b' r h :
  Core b → Links b r h → evolves c b.(document) b'.(document) → b'.(open_elements) = b.(open_elements) →
  b'.(head_element) = b.(head_element) → b'.(mode) = b.(mode) → Links b' r h.
Proof.
  intros HC [Hr Hh Ho Ht Hn Hhd Hbt Hbd] E Hop He Hm. pose proof (ev_from _ _ _ E) as HW.
  assert (skel b' = skel b) as Hsk by (unfold skel; f_equal; by eapply tags_same).
  assert (anchor b.(document) r) as Har by (left; by apply (root_tg _ _ HW)).
  assert (anchor b.(document) h) as Hah by (by right).
  split; rewrite ?Hsk, ?He, ?Hm, ?Hop; try done.
  - by rewrite (ev_root _ _ _ E).
  - eapply (ev_frozen _ _ _ E); [done|by apply among_spec|done..].
  - intros x Hx. apply Ho. by eapply (ev_top _ _ _ E).
  - by eapply ev_tag.
  - intros x Hx. destruct (Hhd x Hx) as [Hxt Hxp]. split; [by eapply ev_tag|].
    eapply (ev_frozen _ _ _ E); [done|by apply among_spec|done..].
  - intros Hb. destruct (Hbd Hb) as (x & Hx & Hp). exists x. split; [by eapply ev_tag|].
    eapply (ev_frozen _ _ _ E); [done|by apply among_spec|done..].
Qed.

Lemma still_out w b t r b' c k :
  Late w b → Good b' → b'.(open_elements) = b.(open_elements) → moves c k b b' → (c ≤ step_cost b)%N → k ≤ 1 →
  match r with Done => True | Reprocess t' => token_rank t' b.(mode) < token_rank t b.(mode) ∧ remainder t t' end →
  out w b t r b'.
Proof.
  intros [HG Hf Hp (rt & h & HL)] HG' Ho Hm Hc Hk Hr. apply (moves_weaken _ (step_cost b) _ 1) in Hm; [|done..].
  assert (tags b' = tags b) as Htg by (eapply tags_same; [apply HG|apply Hm|done]).
  split; [|apply Hm|apply Hm|left; apply Hm|by rewrite (mv_mode _ _ _ _ Hm)].
  split; [done|by rewrite (mv_foster _ _ _ _ Hm)| |].
  - unfold placed in *. by rewrite Htg, (mv_mode _ _ _ _ Hm), (mv_original _ _ _ _ Hm).
  - exists rt, h. eapply Links_same; [apply HG|done|apply Hm|done|apply Hm|apply Hm].
Qed.

Lemma still_same w b t r :
  Late w b →
  match r with Done => True | Reprocess t' => token_rank t' b.(mode) < token_rank t b.(mode) ∧ remainder t t' end →
  out w b t r b.
Proof. intros HL Hr. eapply still_out; [done|apply HL|done|apply (moves_refl 0 0), HL|auto|lia|done]. Qed.

Lemma still_text w b t r s :
  Late w b → room (step_cost b) b →
  match r with Done => True | Reprocess t' => token_rank t' b.(mode) < token_rank t b.(mode) ∧ remainder t t' end →
  ∃ b', insert_text b s = Ok b' ∧ out w b t r b'.
Proof.
  intros HL Hr Hrk. destruct (Good_Based b (la_good _ _ HL)) as [bs HB].
  assert (room 1 b) as Hr1 by (eapply room_le; [|done]; auto).
  destruct (insert_text_spec b s) as (b' & Hb' & Hm & HC & Ho & Ha & Hf); [apply HL|by eapply Based_nonempty|done|].
  destruct (K_insert_text b s (la_good _ _ HL) Hr1) as (b'' & Hb'' & HG' & _ & _).
  assert (b'' = b') as -> by congruence. exists b'. split; [done|]. by eapply still_out; [done|done|done|exact Hm|auto|lia|].
Qed.

(** ** Raw text *)
Lemma shape_nonempty w m l : shape w m l → l ≠ [].
Proof.
  intros Hs ->. destruct (body_mode m) eqn:Eb; [|by destruct m].
  apply shape_body in Hs; [|done]. apply body_shape_has_body in Hs. by apply elem_of_nil in Hs.
Qed.

Section RawText.
Context (w : bool) (b : TreeBuilder).
Hypotheses (HL : Late w b) (Hr : room (step_cost b) b) (Hmode : b.(mode) = Text).

Lemma text_restored t r :
  match r with Done => True | Reprocess t' => t' = t end →
  out w b t r (set_mode b.(original_mode)
    (set_tokenizer (set_content_model CmData b.(tokenizer)) (set_open (vec_pop b.(open_elements)) b))).
Proof using HL Hmode Hr.
  intros Hrr. destruct HL as [HG Hf Hp (rt & h & HLk)]. pose proof (go_core _ HG) as HC.
  destruct Hp as [(_ & l & n & Htg & Hn & Hsh)|Hp]; [|by rewrite Hmode in Hp].
  destruct (list_snoc_case b.(open_elements)) as [E|(o & x & Ho)].
  { exfalso. unfold tags in Htg. rewrite E in Htg. by destruct l. }
  destruct (co_elem _ HC x) as [tx Hx]; [rewrite Ho; set_solver|].
  unfold tags in Htg. rewrite Ho, tags_of_app, (tags_of_one _ _ _ Hx) in Htg. apply app_inj_tail in Htg as [Hl ->].
  rewrite Ho, vec_pop_app. set (b' := set_mode _ _).
  assert (l ≠ []) as Hlne.
  { by eapply shape_nonempty. }
  assert (o ≠ []) as Hne by (intros ->; by destruct Hlne).
  assert (tags b' = l) as Htg' by exact Hl.
  assert (skel b' = skel b) as Hsk.
  { unfold skel at 2, tags. rewrite Ho, tags_of_app, (tags_of_one _ _ _ Hx), skel_app, (skel_ordinary [n]), app_nil_r, Hl.
    - unfold skel. by rewrite Htg'.
    - by apply Forall_singleton. }
  assert (head o = head b.(open_elements)) as Hhd by (rewrite Ho; by destruct o).
  assert (b.(original_mode) ≠ Text) as Hot by (intros E; by rewrite E in Hsh).
  split; [split|..].
  - apply (Good_fields (set_open o b)); try done. by apply (Good_prefix b o [x]).
  - done.
  - right. change (mode b') with (original_mode b). by rewrite Htg'.
  - exists rt, h. destruct HLk as [H1 H2 H3 H4 H5 H6 H7 H8]. split; try done.
    + intros Hno. by rewrite H5 in Hmode.
    + rewrite Hsk. change (open_elements b') with o. by rewrite Hhd.
    + by rewrite Hsk.
  - apply evolves_refl, HC.
  - change (active_formatting b') with (active_formatting b). lia.
  - right. exists CmData. split; done.
  - destruct r as [|t']; [done|]. subst t'. split; [|by left]. apply rank_mode. rewrite Hmode.
    change (mode b') with (original_mode b). pose proof (table_rank_le t (original_mode b)).
    destruct (original_mode b); cbn [mode_rank]; try done; try lia. destruct (is_html_end t); lia.
Qed.

Lemma step_text_ok t : step_fine w b t (step_text b t).
Proof using HL Hr Hmode.
  destruct t as [| |n a s|n|s|]; cbn [step_text].
  1,2,3: eexists _, _; (split; [done|]); by apply still_same.
  - eexists _, _. split; [done|]. by apply (text_restored (EndTag n) Done).
  - unfold consume_leading_newline_strip. destruct (strip_leading_newline b).
    + destruct (still_text w (set_strip false b) (Character s) Done
        (match s with 10%N :: s' => s' | _ => s end)) as (b' & -> & Ho).
      { destruct HL as [HG Hf Hp (rt & h & Hl)]. split; [by apply (Good_fields b)|done|done|].
        exists rt, h. by destruct Hl. } { exact Hr. } { done. }
      eexists _, _. split; [done|]. destruct Ho as [? ? ? ? ?]. by split.
    + destruct (still_text w b (Character s) Done s) as (b' & -> & Ho); [done..|]. eexists _, _. by split.
  - eexists _, _. split; [done|]. by apply (text_restored Eof (Reprocess Eof)).
Qed.
End RawText.

(** ** Before the body *)

(** A new element's parent, when nothing is foster parented. *)
Lemma insert_element_parent b name attrs id b' p :
  Core b → last b.(open_elements) = Some p → b.(foster_parenting) = false → room 1 b →
  insert_element b name attrs = Ok (id, b') →
  parent_edge b'.(document) id p.
Proof.
  intros HC Hp Hf Hroom Hi. assert (b.(open_elements) ≠ []) as Hne by (intros E; by rewrite E in Hp).
  destruct (current_spot b HC Hne) as (x & Hcur & Hlast & _ & Hs). assert (x = p) as -> by congruence.
  unfold insert_element in Hi.
  destruct (create_evolves b.(document) (NElement name attrs)) as (d0 & Hc & E & Hn & Hnl & Hdet & Ht & Hpe).
  { apply HC. } { unfold room in Hroom. lia. }
  rewrite Hc in Hi. cbn [mbind res_bind] in Hi.
  assert (insertion_point b = Ok (p, None)) as Hpt by (unfold insertion_point, fosters; by rewrite Hf, Hcur).
  rewrite insert_node_point, (insertion_point_evolves 1), Hpt in Hi by done. cbn [mbind res_bind document set_document] in Hi.
  destruct (attach_leaf b d0 (next_node_id (document b)) p None) as (d & Hd & _ & _ & _ & Hpe2); try done.
  rewrite Hd in Hi. cbn [mbind res_bind] in Hi. apply Ok_inj in Hi.
  assert (next_node_id (document b) = id ∧ document b' = d) as [<- ->].
  { destruct (among name VOID_ELEMENTS); by injection Hi as <- <-. }
  apply Hpe2. by right.
Qed.

(** The stack before the body. *)
Lemma length_tags b : Core b → length (tags b) = length b.(open_elements).
Proof.
  intros HC. unfold tags, tags_of. pose proof (co_elem _ HC) as Hel.
  clear HC. induction (open_elements b) as [|x l IH]; [done|]. csimpl. destruct (Hel x) as [t ->]; [by left|].
  cbn. f_equal. apply IH. intros y Hy. apply Hel. by right.
Qed.

Lemma no_body l : forallb (λ t, negb (tag_is t "body")) l = true → Tbody ∉ skel_of l.
Proof.
  rewrite forallb_forall. intros Hl [_ Hin]%list_elem_of_filter. apply list_elem_of_In, Hl in Hin. done.
Qed.

Lemma open_one b r h : Good b → Links b r h → tags b = [Thtml] → b.(open_elements) = [h].
Proof.
  intros HG HL Htg. pose proof (length_tags b (go_core _ HG)) as Hlen. rewrite Htg in Hlen.
  assert (head (open_elements b) = Some h) as Hb.
  { apply (li_bottom _ _ _ HL). unfold skel. rewrite Htg. by apply no_body. }
  destruct (open_elements b) as [|x [|]]; try done. by injection Hb as ->.
Qed.

Lemma open_two b r h :
  Good b → Links b r h → tags b = [Thtml; Thead] → ∃ x, b.(open_elements) = [h; x].
Proof.
  intros HG HL Htg. pose proof (length_tags b (go_core _ HG)) as Hlen. rewrite Htg in Hlen.
  assert (head (open_elements b) = Some h) as Hb.
  { apply (li_bottom _ _ _ HL). unfold skel. rewrite Htg. by apply no_body. }
  destruct (open_elements b) as [|x [|y [|]]]; try done. injection Hb as ->. by exists y.
Qed.

(** A second [html] start tag only merges attributes. *)
Lemma html_start_still w b attrs s t :
  Late w b → step_fine w b t (step_in_body b (StartTag Thtml attrs s)).
Proof.
  intros HL. pose proof (la_good _ _ HL) as HG.
  change (step_in_body b (StartTag Thtml attrs s)) with
    (match head b.(open_elements) with
     | Some html_id => then_finish (merge_onto (λ _, true) b html_id attrs)
     | None => finish b end).
  destruct (head (open_elements b)) as [h|] eqn:Eh.
  2: { eexists _, _. split; [done|]. by apply still_same. }
  apply head_Some_elem_of in Eh. destruct (merge_onto_spec b (λ _, true) h attrs HG Eh) as (d & -> & E & HG' & _).
  eexists _, _. split; [done|].
  eapply still_out; [done|done|done|exact (moves_document 0 b d E)|auto|lia|done].
Qed.

Lemma dropped_ws_step w b t (f : Token → res (StepResult * TreeBuilder)) :
  Late w b → step_fine w b t (f t) →
  step_fine w b t (match split_off_dropped_whitespace t with inl r => Ok (r, b) | inr t => f t end).
Proof.
  intros HL Hf. destruct t as [| |n a sc|n|s|]; try exact Hf. cbn [split_off_dropped_whitespace].
  destruct (blank s) eqn:Eb; [eexists _, _; split; [done|by apply still_same]|].
  destruct (split_leading_whitespace s) as [[ws rest]|] eqn:Es; [|exact Hf].
  destruct (ws_split s ws rest Eb Es) as (-> & Hlt & Hne). eexists _, _. split; [done|].
  apply still_same; [done|]. split; [by apply ws_rank|right; eauto].
Qed.

Section BeforeHead.
Context (w : bool) (b : TreeBuilder).
Hypotheses (HL : Late w b) (Hmode : b.(mode) = BeforeHead) (Hr : room (step_cost b) b).

Lemma before_head_tags : tags b = [Thtml].
Proof using HL Hmode. destruct (la_placed _ _ HL) as [[E _]|Hp]; [congruence|by rewrite Hmode in Hp]. Qed.

Lemma insert_head t attrs r :
  match r with Done => True | Reprocess t' => t' = t end →
  step_fine w b t ('(id, b) ← insert_element b (str "head") attrs; Ok (r, set_mode InHead (set_head (Some id) b))).
Proof using HL Hmode Hr.
  intros Hrr. pose proof before_head_tags as Htg. destruct HL as [HG Hf Hp (rt & h & HLk)].
  pose proof (open_one b rt h HG HLk Htg) as Ho. assert (room 1 b) as Hr1 by (eapply room_le; [|done]; auto).
  destruct (insert_structural b [] Thtml (str "head") attrs) as (id & b1 & Hi & HG1 & Htg1 & Hm1 & Ho1 & Ht1 & Hn1 & Ha1 & Hf1);
    [done..|]. rewrite Hi. cbn [mbind res_bind]. eexists _, _. split; [done|].
  assert (parent_edge b1.(document) id h) as Hpe.
  { eapply insert_element_parent; [apply HG|by rewrite Ho|done|done|done]. }
  assert (Links b1 rt h) as [H1 H2 H3 H4 H5 H6 H7 H8].
  { pose proof (Links_same 1 b (set_open (open_elements b) b1) rt h) as HLs.
    destruct HLs as [H1 H2 H3 H4 H5 H6 H7 H8]; [apply HG|done|apply Hm1|done|apply Hm1|apply Hm1|]. split; try done.
    - intros _. by rewrite Ho1, Ho.
    - unfold skel. rewrite Htg1, Htg. intros Hin. exfalso. revert Hin. by apply no_body. }
  split; [split|..].
  - by apply (Good_fields b1).
  - cbn. by rewrite (mv_foster _ _ _ _ Hm1).
  - right. change (tags b1 = [Thtml; Thead]). by rewrite Htg1, Htg.
  - exists rt, h. split; try done. intros x [= <-]. done.
  - eapply evolves_weaken; [apply cost_part|apply Hm1].
  - cbn. rewrite Ha1. lia.
  - left. apply Hm1.
  - destruct r as [|t']; [done|]. subst t'. split; [|by left]. rewrite Hmode. apply rank_mode. cbn. lia.
Qed.

Lemma step_before_head_ok t : step_fine w b t (step_before_head b t).
Proof using HL Hmode Hr.
  unfold step_before_head. apply (dropped_ws_step w b t (λ t, _)); [done|].
  assert (∀ t', t' = t → step_fine w b t ('(id, b) ← insert_element b (str "head") [];
     reprocess t' (set_mode InHead (set_head (Some id) b)))) as Hother.
  { intros t' ->. by apply (insert_head t [] (Reprocess t)). }
  destruct t as [| |n a s|n|s|]; try (by apply Hother).
  1,2: eexists _, _; (split; [done|]); by apply still_same.
  - name_case E1; [apply tag_is_spec in E1 as ->; by apply html_start_still|].
    name_case E2; [by apply (insert_head _ a Done)|by apply Hother].
  - name_case E1; [|by apply Hother]. eexists _, _. split; [done|]. by apply still_same.
Qed.
End BeforeHead.

(** ** In head, after head *)
Lemma head_rest {A} (l : list A) x : l ≠ [] → head (l ++ [x]) = head l.
Proof. by destruct l. Qed.

(** The places survive a push. *)
Lemma Links_push c b b1 r h x name :
  Core b → Links b r h → evolves c b.(document) b1.(document) → b1.(open_elements) = b.(open_elements) ++ [x] →
  tg b1.(document) x = Some name → ordinary name → b.(open_elements) ≠ [] →
  b1.(head_element) = b.(head_element) → b.(mode) ≠ BeforeHead → skel b1 = skel b ∧ Links b1 r h.
Proof.
  intros HC HL E Ho Hx Hn Hne He Hm.
  assert (skel b1 = skel b) as Hsk.
  { unfold skel, tags. rewrite Ho, tags_of_app, (tags_of_one _ _ _ Hx), skel_app, (skel_ordinary [name]), app_nil_r.
    - f_equal. eapply tags_of_evolves; [done|]. intros y. by apply co_live.
    - by apply Forall_singleton. }
  split; [done|].
  pose proof (Links_same c b (set_mode (mode b) (set_open (open_elements b) b1)) r h) as HLs.
  destruct HLs as [H1 H2 H3 H4 H5 H6 H7 H8]; [done..|].
  assert (skel (set_mode (mode b) (set_open (open_elements b) b1)) = skel b1) as Hsk'.
  { rewrite Hsk. unfold skel, tags. f_equal. eapply tags_of_evolves; [done|]. intros y. by apply co_live. }
  split; try done.
  - intros Hno. by destruct Hm; apply (li_no_head _ _ _ HL); rewrite <-He.
  - rewrite <-Hsk', Ho, head_rest by done. done.
  - by rewrite <-Hsk'.
Qed.

Lemma text_enter_out w b t b1 cm name x a s :
  Late w b → b.(mode) = InHead ∨ b.(mode) = AfterHead → Good b1 → ordinary name →
  moves (step_cost b) 1 b b1 → b1.(open_elements) = b.(open_elements) ++ [x] → tg b1.(document) x = Some name →
  t = StartTag name a s → (cm = CmScriptData → name = str "script") →
  out w b t Done (enter_text cm b1).
Proof.
  intros [HG Hf Hp (rt & h & HL)] Hm HG1 Hn Hmv Ho Hx Ht Hcm.
  assert (b.(open_elements) ≠ []) as Hne. { destruct (Good_Based b HG) as [bs HB]. by eapply Based_nonempty. }
  destruct (Links_push (step_cost b) b b1 rt h x name) as [Hsk HL1];
    [apply HG|done|apply Hmv|done..|apply Hmv|by destruct Hm as [->| ->]|].
  split; [|apply Hmv|apply Hmv| |done].
  - split; [by apply (Good_fields b1)|cbn; by rewrite (mv_foster _ _ _ _ Hmv)| |].
    + left. split; [done|]. exists (tags b), name. split; [|split; [done|]].
      * unfold tags. cbn [document open_elements enter_text set_mode set_original_mode set_tokenizer].
        rewrite Ho, tags_of_app, (tags_of_one _ _ _ Hx). f_equal.
        eapply tags_of_evolves; [apply Hmv|]. intros y. by apply co_live, HG.
      * cbn. rewrite (mv_mode _ _ _ _ Hmv). destruct Hp as [[E _]|Hp]; [by destruct Hm; congruence|done].
    + exists rt, h. destruct HL1 as [H1 H2 H3 H4 H5 H6 H7 H8]. split; try done. intros Hno.
      cbn in Hno. apply H5 in Hno. rewrite (mv_mode _ _ _ _ Hmv) in Hno. by destruct Hm; congruence.
  - right. exists cm. cbn. rewrite (mv_tokenizer _ _ _ _ Hmv). split; [done|]. intros Hc. rewrite (Hcm Hc) in Ht. eauto.
Qed.

(** The whitespace rule before the body. *)
Lemma whitespace_rule_still w b t :
  Late w b → room (step_cost b) b →
  (∃ r, whitespace_rule b t = Ok (Some r) ∧ step_fine w b t (Ok r)) ∨ whitespace_rule b t = Ok None.
Proof.
  intros HL Hr. destruct t as [| |n a sc|n|s|]; try (by right). cbn [whitespace_rule]. destruct (blank s) eqn:Eb.
  - left. destruct (still_text w b (Character s) Done s) as (b1 & -> & Ho); [done..|]. cbn [mbind res_bind].
    eexists; split; [done|]. by eexists _, _.
  - destruct (split_leading_whitespace s) as [[ws rest]|] eqn:Es; [|by right]. left.
    destruct (ws_split s ws rest Eb Es) as (-> & Hlt & Hne).
    destruct (still_text w b (Character s) (Reprocess (Character (trim_start s))) ws) as (b1 & -> & Ho); [done..| |].
    { split; [by apply ws_rank|right; eauto]. }
    cbn [mbind res_bind]. eexists; split; [done|]. by eexists _, _.
Qed.

(** Void elements leave the stack as it is. *)
Lemma void_still w b t name attrs :
  Late w b → room (step_cost b) b → one_of name ["meta"; "link"] = true →
  step_fine w b t (then_finish (insert_element_ b name attrs)).
Proof.
  intros HL Hr Hn. assert (ordinary name ∧ among name VOID_ELEMENTS = true) as [Ho Hv].
  { apply one_of_cases in Hn as (x & -> & Hx). each_name Hx ltac:(split; [ordinary_tac|done]). }
  destruct (insert_good b name attrs) as (id & b1 & Hi & HG1 & _ & Hm1 & Ho1 & _); [apply HL|done|eapply room_le; [|done]; auto|].
  unfold insert_element_. rewrite Hi. cbn [mbind res_bind then_finish]. eexists _, _. split; [done|].
  eapply still_out; [done|done| |exact Hm1|auto|lia|done]. rewrite Ho1. unfold pushed. rewrite Hv. apply app_nil_r.
Qed.

Section InHead.
Context (w : bool) (b : TreeBuilder).
Hypotheses (HL : Late w b) (Hmode : b.(mode) = InHead) (Hr : room (step_cost b) b).

Lemma in_head_tags : tags b = [Thtml; Thead].
Proof using HL Hmode. destruct (la_placed _ _ HL) as [[E _]|Hp]; [congruence|by rewrite Hmode in Hp]. Qed.

Lemma leave_head t r :
  match r with Done => True | Reprocess t' => t' = t end →
  out w b t r (set_mode AfterHead (set_open (vec_pop b.(open_elements)) b)).
Proof using HL Hmode.
  intros Hrr. pose proof in_head_tags as Htg. destruct HL as [HG Hf Hp (rt & h & HLk)].
  destruct (open_two b rt h HG HLk Htg) as [x Ho]. rewrite Ho. change (vec_pop [h; x]) with [h].
  assert (tags (set_open [h] b) = [Thtml]) as Htg'.
  { unfold tags. cbn [document open_elements set_open]. by rewrite (tags_of_one _ _ _ (li_tag _ _ _ HLk)). }
  split; [split|..].
  - apply (Good_fields (set_open [h] b)); try done. by apply (Good_prefix b [h] [x]).
  - done.
  - right. exact Htg'.
  - exists rt, h. destruct HLk as [H1 H2 H3 H4 H5 H6 H7 H8]. split; try done.
    + intros Hno. by rewrite H5 in Hmode.
    + unfold skel. change (tags (set_mode AfterHead (set_open [h] b))) with (tags (set_open [h] b)). rewrite Htg'.
      intros Hin. exfalso. revert Hin. by apply no_body.
  - apply evolves_refl, HG.
  - cbn. lia.
  - by left.
  - destruct r as [|t']; [done|]. subst t'. split; [|by left]. rewrite Hmode. apply rank_mode. cbn. lia.
Qed.

Lemma head_text_out t name a s :
  t = StartTag name a s → one_of name ["title"; "style"; "script"] = true →
  step_fine w b t (then_finish (switch_to_text_mode b name a)).
Proof using HL Hmode Hr.
  intros Ht Hn. assert (ordinary name ∧ among name VOID_ELEMENTS = false) as [Ho Hv].
  { apply one_of_cases in Hn as (x & -> & Hx). each_name Hx ltac:(split; [ordinary_tac|done]). }
  destruct (switch_to_text_spec b name a) as (b1 & x & cm & -> & HG1 & Htg & Hmv & Hop & Hx & Hcm);
    [apply HL|done..|eapply room_le; [|done]; auto|].
  eexists _, _. split; [done|]. eapply (text_enter_out _ _ _ _ _ name x); try done; [by left|].
  eapply moves_weaken; [apply cost_part| |exact Hmv]. lia.
Qed.

Lemma step_in_head_ok t : step_fine w b t (step_in_head b t).
Proof using HL Hmode Hr.
  unfold step_in_head. destruct (whitespace_rule_still w b t HL Hr) as [(r & -> & Hok)| ->]; [exact Hok|].
  cbn [mbind res_bind].
  assert (step_fine w b t (finish b)) as Hsame by (eexists _, _; split; [done|by apply still_same]).
  assert (step_fine w b t (reprocess t (set_mode AfterHead (set_open (vec_pop b.(open_elements)) b)))) as Hleave.
  { eexists _, _. split; [done|]. by apply leave_head. }
  destruct t as [| |n a s|n|s|]; try done.
  - name_case E1; [apply tag_is_spec in E1 as ->; by apply html_start_still|].
    name_case E2; [by apply void_still|]. name_case E3; [by eapply head_text_out|]. by name_case E4.
  - name_case E1; [|by name_case E2]. eexists _, _. split; [done|]. by apply leave_head.
Qed.
End InHead.

Section AfterHead.
Context (w : bool) (b : TreeBuilder).
Hypotheses (HL : Late w b) (Hmode : b.(mode) = AfterHead) (Hr : room (step_cost b) b).

Lemma after_head_tags : tags b = [Thtml].
Proof using HL Hmode. destruct (la_placed _ _ HL) as [[E _]|Hp]; [congruence|by rewrite Hmode in Hp]. Qed.

Lemma insert_body t attrs r :
  match r with Done => True | Reprocess t' => t' = t end →
  step_fine w b t (b ← insert_element_ b Tbody attrs; Ok (r, set_mode InBody b)).
Proof using HL Hmode Hr.
  intros Hrr. pose proof after_head_tags as Htg. destruct HL as [HG Hf Hp (rt & h & HLk)].
  pose proof (open_one b rt h HG HLk Htg) as Ho. assert (room 1 b) as Hr1 by (eapply room_le; [|done]; auto).
  destruct (insert_structural b [] Thtml Tbody attrs) as (id & b1 & Hi & HG1 & Htg1 & Hm1 & Ho1 & Ht1 & Hn1 & Ha1 & Hf1);
    [done..|]. unfold insert_element_. rewrite Hi. cbn [mbind res_bind]. eexists _, _. split; [done|].
  assert (parent_edge b1.(document) id h) as Hpe.
  { eapply insert_element_parent; [apply HG|by rewrite Ho|done|done|done]. }
  assert (skel b1 = [Thtml; Tbody]) as Hsk by (unfold skel; by rewrite Htg1, Htg).
  split; [split|..].
  - by apply (Good_fields b1).
  - cbn. by rewrite (mv_foster _ _ _ _ Hm1).
  - right. exact Hsk.
  - pose proof (Links_same 1 b (set_open (open_elements b) b1) rt h) as HLs.
    destruct HLs as [H1 H2 H3 H4 H5 H6 H7 H8]; [apply HG|done|apply Hm1|done|apply Hm1|apply Hm1|].
    exists rt, h. split; try done.
    + intros Hno. cbn in Hno. apply H5 in Hno. cbn in Hno. rewrite (mv_mode _ _ _ _ Hm1) in Hno. congruence.
    + intros Hin. destruct Hin. change (Tbody ∈ skel b1). rewrite Hsk. right. left.
    + intros _. by exists id.
  - eapply evolves_weaken; [apply cost_part|apply Hm1].
  - cbn. rewrite Ha1. lia.
  - left. apply Hm1.
  - destruct r as [|t']; [done|]. subst t'. split; [|by left]. rewrite Hmode. apply rank_mode. cbn. lia.
Qed.

(** The head element back on the stack. *)
Lemma push_head h hd rt :
  Links b rt h → b.(head_element) = Some hd →
  b.(open_elements) = [h] ∧ h ≠ hd ∧ Good (set_open [h; hd] b) ∧ tg b.(document) hd = Some Thead.
Proof using HL Hmode Hr.
  intros HLk Hhd. pose proof after_head_tags as Htg. pose proof (la_good _ _ HL) as HG. pose proof (go_core _ HG) as HC.
  pose proof (open_one b rt h HG HLk Htg) as Ho. destruct (li_head _ _ _ HLk hd Hhd) as [Ht Hp].
  pose proof (li_tag _ _ _ HLk) as Hth.
  assert (h ≠ hd) as Hne.
  { intros ->. rewrite Hth in Ht. apply (f_equal (λ o, default [] o)) in Ht. vm_compute in Ht. done. }
  split; [done|]. split; [done|]. split; [|done].
  assert (Core (set_open (open_elements b ++ [hd]) b)) as HC'.
  { eapply Core_push; [exact Ht|exact Hp| | |exact HC].
    - rewrite Ho. apply ordered_cons. split; [|by apply ordered_cons; split; [set_solver|constructor]].
      intros y ->%list_elem_of_singleton Ha. apply Hne. apply (anc_antisym b.(document)); [apply HC|by apply anc_parent|done].
    - intros (t & a & Hin)%elem_of_afe_ids. destruct (co_afe _ HC _ _ _ Hin) as [Ht' Hfm].
      rewrite Ht in Ht'. injection Ht' as <-. apply formatting_ordinary in Hfm. apply Hfm. structural. }
  rewrite Ho in HC'. assert (tags (set_open [h; hd] b) = [Thtml; Thead]) as Htg'.
  { unfold tags. cbn [document open_elements set_open]. change [h; hd] with ([h] ++ [hd]).
    by rewrite tags_of_app, (tags_of_one _ _ _ Hth), (tags_of_one _ _ _ Ht). }
  split; [done|by rewrite Htg'..].
Qed.

Lemma after_head_void h hd rt t name a :
  Links b rt h → b.(head_element) = Some hd → one_of name ["meta"; "link"] = true →
  step_fine w b t ('(r, b) ← then_finish (insert_element_ (set_open [h; hd] b) name a);
                 Ok (r, set_open (filter (λ id, id ≠ hd) b.(open_elements)) b)).
Proof using HL Hmode Hr.
  intros HLk Hhd Hn. destruct (push_head h hd rt HLk Hhd) as (Ho & Hne & HG0 & _).
  assert (ordinary name ∧ among name VOID_ELEMENTS = true) as [Hon Hv].
  { apply one_of_cases in Hn as (x & -> & Hx). each_name Hx ltac:(split; [ordinary_tac|done]). }
  destruct (insert_good (set_open [h; hd] b) name a) as (id & b1 & Hi & HG1 & _ & Hm1 & Ho1 & _);
    [done|done|exact (room_le _ _ b (cost_part b) Hr)|].
  unfold insert_element_. rewrite Hi. cbn [mbind res_bind then_finish finish]. eexists _, _. split; [done|].
  unfold pushed in Ho1. rewrite Hv, app_nil_r in Ho1. cbn [open_elements set_open] in Ho1. rewrite Ho1.
  assert (filter (λ id, id ≠ hd) [h; hd] = [h]) as ->.
  { rewrite filter_cons_True, filter_cons_False by (done || by intros H; apply H). done. }
  eapply (still_out _ _ _ _ _ 1 0); [done|by apply (Good_prefix b1 [h] [hd])|by rewrite Ho| |auto|lia|done].
  destruct Hm1. by split.
Qed.

Lemma after_head_text h hd rt t name a s :
  Links b rt h → b.(head_element) = Some hd → t = StartTag name a s →
  one_of name ["title"; "style"; "script"] = true →
  step_fine w b t ('(r, b) ← then_finish (switch_to_text_mode (set_open [h; hd] b) name a);
                 Ok (r, set_open (filter (λ id, id ≠ hd) b.(open_elements)) b)).
Proof using HL Hmode Hr.
  intros HLk Hhd Ht Hn. destruct (push_head h hd rt HLk Hhd) as (Ho & Hne & HG0 & _).
  assert (ordinary name ∧ among name VOID_ELEMENTS = false) as [Hon Hv].
  { apply one_of_cases in Hn as (x & -> & Hx). each_name Hx ltac:(split; [ordinary_tac|done]). }
  destruct (switch_to_text_spec (set_open [h; hd] b) name a) as (b1 & x & cm & -> & HG1 & Htg & Hmv & Hop & Hx & Hcm);
    [done..|exact (room_le _ _ b (cost_part b) Hr)|]. cbn [mbind res_bind then_finish finish].
  eexists _, _. split; [done|]. cbn [open_elements enter_text set_mode set_original_mode set_tokenizer].
  cbn [open_elements set_open] in Hop. pose proof (co_nodup _ (go_core _ HG1)) as Hnd. rewrite Hop in Hnd |- *.
  assert (x ≠ hd) as Hxh.
  { intros ->. apply NoDup_app in Hnd as (_ & Hd & _). apply (Hd hd); [right|]; left. }
  assert (filter (λ id, id ≠ hd) ([h; hd] ++ [x]) = [h] ++ [x]) as ->.
  { cbn [app]. rewrite filter_cons_True, filter_cons_False, filter_cons_True by (done || by intros H; apply H). done. }
  change (set_open ([h] ++ [x]) (enter_text cm b1)) with (enter_text cm (set_open ([h] ++ [x]) b1)).
  assert (moves (step_cost b) 1 b (set_open ([h] ++ [x]) b1)) as Hmv'.
  { apply (moves_weaken _ (step_cost b) _ 1) in Hmv; [|apply cost_part|lia]. destruct Hmv. by split. }
  eapply (text_enter_out _ _ _ _ _ name x); try done; [by right| |cbn; by rewrite Ho].
  assert (tags (set_open ([h] ++ [x]) b1) = [Thtml; name]) as Htg'.
  { unfold tags. cbn [document open_elements set_open]. rewrite tags_of_app, (tags_of_one _ _ _ Hx).
    by rewrite (tags_of_one b1.(document) h Thtml) by (eapply ev_tag; [apply Hmv'|apply HLk]). }
  split; rewrite ?Htg'; [|done|cbn [tight]; by rewrite stands_on_ordinary].
  apply Core_open; [|apply HG1]. rewrite Hop. apply sublist_app; [exact (sublist_inserts_r [hd] [h] [h] (reflexivity _))|reflexivity].
Qed.

Lemma step_after_head_ok t : step_fine w b t (step_after_head b t).
Proof using HL Hmode Hr.
  unfold step_after_head. destruct (whitespace_rule_still w b t HL Hr) as [(r & -> & Hok)| ->]; [exact Hok|].
  cbn [mbind res_bind].
  assert (step_fine w b t (finish b)) as Hsame by (eexists _, _; split; [done|by apply still_same]).
  assert (step_fine w b t (b ← insert_element_ b Tbody []; reprocess t (set_mode InBody b))) as Hopen.
  { by apply (insert_body t [] (Reprocess t)). }
  destruct t as [| |n a s|n|s|]; try done; [|by name_case E1].
  name_case E1; [apply tag_is_spec in E1 as ->; by apply html_start_still|].
  name_case E2; [by apply (insert_body _ a Done)|]. name_case E3; [done|]. name_case E4; [|done].
  destruct (la_links _ _ HL) as (rt & h & HLk).
  destruct (head_element b) as [hd|] eqn:Ehd; [|done]. destruct (push_head h hd rt HLk Ehd) as (Ho & _).
  rewrite Ho. cbn [app]. apply one_of_cases in E4 as (x & -> & Hx). unfold step_in_head.
  repeat (apply elem_of_cons in Hx as [->|Hx];
    [first [by eapply after_head_void|by eapply after_head_text]|]). by apply elem_of_nil in Hx.
Qed.
End AfterHead.
