(* ===== verification/HtmlRun.v ===== *)
(** * Parsing a whole document

    The invariant of every insertion mode put together, the loop that reprocesses a token, and
    the loop over the tokens of the input. *)

From S2P Require Import Prelude Dom DomTree DomWalk DomOps HtmlTokenizer HtmlTotal HtmlProps HtmlTree DomParents.
From S2P Require Import HtmlTreeInv HtmlModes HtmlStack HtmlFormatting HtmlAdoption HtmlAgency HtmlGood HtmlInBody HtmlBody.
From S2P Require Import HtmlShape HtmlSteps HtmlTables HtmlTableModes HtmlRows HtmlModeSteps.

(** ** Before the [html] element *)
Record Early (b : TreeBuilder) : Prop := {
  ea_mode : b.(mode) = Initial ∨ b.(mode) = BeforeHtml;
  ea_wf : WF b.(document);
  ea_edges : ∀ x q, ¬ parent_edge b.(document) x q;
  ea_open : b.(open_elements) = [];
  ea_afe : b.(active_formatting) = [];
  ea_head : b.(head_element) = None;
  ea_form : b.(form_element) = None;
  ea_foster : b.(foster_parenting) = false;
}.

Definition Stage (w : bool) (b : TreeBuilder) : Prop := Early b ∨ Late w b.

(** The ids a step uses, and where new nodes get theirs. *)
Record grows (c : N) (d d' : Document) : Prop := {
  gr_next : (next_node_id d ≤ next_node_id d' ≤ next_node_id d + c)%N;
  gr_fresh : ∀ x, live d' x → live d x ∨ (next_node_id d ≤ x)%N;
}.

Lemma grows_refl c d : grows c d d.
Proof. split; [lia|auto]. Qed.

Lemma grows_trans c1 c2 d1 d2 d3 : grows c1 d1 d2 → grows c2 d2 d3 → grows (c1 + c2) d1 d3.
Proof.
  intros [N1 F1] [N2 F2]. split; [lia|]. intros x Hx. destruct (F2 x Hx) as [Hx'|?]; [|right; lia]. by apply F1.
Qed.

Lemma grows_weaken c c' d d' : (c ≤ c')%N → grows c d d' → grows c' d d'.
Proof. intros Hc [N F]. split; [lia|done]. Qed.

Lemma evolves_grows c d d' : evolves c d d' → grows c d d'.
Proof. intros E. split; apply E. Qed.

Record gout (w : bool) (b : TreeBuilder) (t : Token) (r : StepResult) (b' : TreeBuilder) : Prop := {
  go_stage : Stage w b';
  go_grows : grows (step_cost b) b.(document) b'.(document);
  go_afe : length b'.(active_formatting) ≤ length b.(active_formatting) + 1;
  go_tok : switched t b.(tokenizer) b'.(tokenizer);
  go_rank : match r with
            | Done => True
            | Reprocess t' => token_rank t' b'.(mode) < token_rank t b.(mode) ∧ remainder t t'
            end;
}.

Lemma out_gout w b t r b' : out w b t r b' → gout w b t r b'.
Proof. intros [HL E Ha Ht Hr]. split; try done; [by right|by apply evolves_grows]. Qed.

(** Inserting the [html] element under the root. *)
Lemma insert_html b attrs r :
  Early b → room 1 b → b.(document).(doc_root) = Some r →
  ∃ b1 h, insert_element_ b Thtml attrs = Ok b1 ∧ Late false (set_mode BeforeHead b1)
    ∧ grows 1 b.(document) b1.(document) ∧ b1.(active_formatting) = [] ∧ b1.(tokenizer) = b.(tokenizer)
    ∧ b1.(open_elements) = [h].
Proof.
  intros [Hm HW He Ho Ha Hh Hfm Hf] Hroom Hrt.
  destruct (create_parents b.(document) (NElement Thtml attrs) HW) as
    (d0 & Hc & HW0 & Hr0 & Hn0 & Hnl & Hdet & Ht0 & Hl0 & Htg0 & Hpe0); [unfold room in Hroom; lia|].
  set (h := next_node_id (document b)) in *.
  assert (live (document b) r) as Hlr by (by apply root_live).
  destruct (attach_parents d0 r h None) as (d & Hd & HWd & Hrw & Hpe); [done|apply Hl0; by left|done| | |done|].
  { rewrite Hr0, Hrt. intros [= ->]. done. }
  { intros Hanc. apply anc_leaf in Hanc as ->; [done|]. intros y. rewrite Hpe0. apply He. }
  unfold insert_element_, insert_element. rewrite Hc. cbn [mbind res_bind].
  unfold insert_node, fosters, current_node. cbn [foster_parenting open_elements document set_document].
  rewrite Hf, Ho. cbn [last]. unfold root. rewrite Hr0, Hrt. cbn [mbind res_bind unwrap].
  change (append_child d0 r h) with (insert_before d0 r h None). rewrite Hd. cbn [mbind res_bind].
  change (among Thtml VOID_ELEMENTS) with false. cbn iota.
  cbn [open_elements set_document]. rewrite Ho. cbn [app]. eexists _, h. split; [reflexivity|].
  assert (∀ x q, parent_edge d x q ↔ x = h ∧ q = r) as Hedge.
  { intros x q. rewrite Hpe, Hpe0. split; [intros [?|?]; [by destruct (He x q)|done]|auto]. }
  assert (tg d h = Some Thtml) as Hth by (by rewrite (rewired_tg d0 d)).
  assert (doc_root d = Some r) as Hrd by (destruct Hrw as (_ & -> & _); congruence).
  assert (next_node_id d = (h + 1)%N) as Hnd by (destruct Hrw as (Ha' & _); unfold next_node_id in *; congruence).
  assert (∀ x, live d x ↔ live (document b) x ∨ x = h) as Hld.
  { intros x. rewrite <-Hl0. by apply (rewired_live d0 d). }
  split; [|split_and!; try done].
  - split; [split; [split|..]|exact Hf|right|]; cbn [document open_elements active_formatting set_mode set_open set_document form_element].
    + done.
    + intros x ->%list_elem_of_singleton. eauto.
    + repeat constructor.
    + intros x ->%list_elem_of_singleton. exists r. by apply Hedge.
    + intros x r' Hr' [-> _]%Hedge. done.
    + rewrite Ha. intros ???[]%elem_of_nil.
    + rewrite Ha. constructor.
    + rewrite Ha. apply sublist_nil_l.
    + rewrite Hfm. done.
    + unfold tags. cbn [document open_elements set_mode set_open set_document]. by rewrite (tags_of_one _ _ _ Hth).
    + unfold tags. cbn [document open_elements set_mode set_open set_document]. by rewrite (tags_of_one _ _ _ Hth).
    + change (tags_of d [h] = [Thtml]). by apply tags_of_one.
    + exists r, h. split; cbn; try done.
      * by apply Hedge.
      * by intros x [-> _]%Hedge.
      * rewrite Hh. done.
      * intros Hin. exfalso. revert Hin. apply no_body.
        change (forallb (λ t, negb (tag_is t "body")) (tags_of d [h]) = true). by rewrite (tags_of_one _ _ _ Hth).
  - split; cbn [document set_open set_document].
    + change (next_node_id (document b)) with h. lia.
    + intros x [?| ->]%Hld; [by left|right; lia].
Qed.

Lemma Early_root b : Early b → ∃ r, b.(document).(doc_root) = Some r.
Proof. intros HE. apply WF_root, HE. Qed.

Lemma Early_same b b' :
  Early b → b'.(document) = b.(document) → b'.(open_elements) = b.(open_elements) →
  b'.(active_formatting) = b.(active_formatting) → b'.(head_element) = b.(head_element) →
  b'.(form_element) = b.(form_element) → b'.(foster_parenting) = b.(foster_parenting) →
  b'.(mode) = Initial ∨ b'.(mode) = BeforeHtml → Early b'.
Proof. intros [] H1 H2 H3 H4 H5 H6 Hm. split; rewrite ?H1, ?H2, ?H3, ?H4, ?H5, ?H6; done. Qed.

Definition step_total (w : bool) (b : TreeBuilder) (t : Token) (m : res (StepResult * TreeBuilder)) : Prop :=
  ∃ r b', m = Ok (r, b') ∧ gout w b t r b'.

Lemma early_out w b b' t r :
  Early b → Early b' → b'.(document) = b.(document) → b'.(tokenizer) = b.(tokenizer) →
  match r with Done => True | Reprocess t' => token_rank t' b'.(mode) < token_rank t b.(mode) ∧ remainder t t' end →
  gout w b t r b'.
Proof.
  intros HE HE' Hd Ht Hr. split; [by left|rewrite Hd; apply grows_refl| |by left|done].
  rewrite (ea_afe _ HE'). cbn. lia.
Qed.

Lemma step_initial_total w b t : Early b → b.(mode) = Initial → step_total w b t (step_initial b t).
Proof.
  intros HE Hm.
  assert (∀ q, Early (set_mode BeforeHtml (set_quirks q b))) as HEq.
  { intros q. by eapply Early_same; [..|right]. }
  assert (step_total w b t (reprocess t (set_mode BeforeHtml (set_quirks true b)))) as Hother.
  { eexists _, _. split; [done|]. apply early_out; try done. split; [|by left]. rewrite Hm. apply rank_mode. cbn. lia. }
  assert (step_total w b t (finish b)) as Hsame by (eexists _, _; split; [done|by apply early_out]).
  destruct t as [| |n a s|n|s|]; try done; cbn [step_initial]; [|by destruct (blank s)].
  eexists _, _. split; [done|]. apply early_out; try done. by eapply Early_same; [..|right].
Qed.

Lemma insert_html_step w b t attrs r :
  Early b → b.(mode) = BeforeHtml → room (step_cost b) b →
  match r with Done => True | Reprocess t' => t' = t end →
  step_total w b t (b ← insert_element_ b Thtml attrs; Ok (r, set_mode BeforeHead b)).
Proof.
  intros HE Hm Hr Hrr. destruct (Early_root b HE) as [rt Hrt].
  destruct (insert_html b attrs rt) as (b1 & h & -> & HL & Hg & Ha & Ht & Ho); [done|eapply room_le; [apply cost_part|done]|done|].
  cbn [mbind res_bind]. eexists _, _. split; [done|]. split.
  - right. by apply (Late_mono false).
  - eapply grows_weaken; [apply cost_part|done].
  - cbn. rewrite Ha. cbn. lia.
  - by left.
  - destruct r as [|t']; [done|]. subst t'. split; [|by left]. rewrite Hm. apply rank_mode. cbn. lia.
Qed.

Lemma step_before_html_total w b t :
  Early b → b.(mode) = BeforeHtml → room (step_cost b) b → step_total w b t (step_before_html b t).
Proof.
  intros HE Hm Hr.
  assert (step_total w b t (finish b)) as Hsame by (eexists _, _; split; [done|by apply early_out]).
  assert (∀ t', t' = t → step_total w b t (b ← insert_element_ b Thtml []; reprocess t' (set_mode BeforeHead b))) as Hother.
  { intros t' ->. by apply (insert_html_step w b t [] (Reprocess t)). }
  unfold step_before_html. destruct t as [| |n a s|n|s|]; cbn [split_off_dropped_whitespace]; try done; try (by apply Hother).
  - name_case E1; [by apply (insert_html_step w b _ a Done)|by apply Hother].
  - name_case E1; [done|by apply Hother].
  - destruct (blank s) eqn:Eb; [done|]. destruct (split_leading_whitespace s) as [[ws rest]|] eqn:Es; [|by apply Hother].
    destruct (ws_split s ws rest Eb Es) as (-> & Hlt & Hne). eexists _, _. split; [done|].
    apply early_out; try done. split; [by apply ws_rank|right; eauto].
Qed.

(** ** One step *)
Lemma placed_shape w b m : placed w b → b.(mode) = m → m ≠ Text → shape w m (tags b).
Proof. intros [[E _]|Hs] <-; congruence. Qed.

Lemma dispatch_total w b t :
  Stage w b → room (step_cost b) b →
  step_total (w || bad_cell_end b t) b t (dispatch b t)
  ∨ (w = true ∧ stuck b t ∧ dispatch b t = reprocess t b).
Proof.
  intros [HE|HL] Hr; unfold dispatch.
  { left. destruct (ea_mode _ HE) as [Hm|Hm]; rewrite Hm; [by apply step_initial_total|by apply step_before_html_total]. }
  assert (∀ m, step_fine w b t m → step_total (w || bad_cell_end b t) b t m) as Hf.
  { intros m (r & b' & -> & Ho). eexists _, _. split; [done|]. apply out_gout. eapply out_mono; [|done]. by intros ->. }
  assert (∀ m, step_fine' w b t m → step_total (w || bad_cell_end b t) b t m
    ∨ (w = true ∧ stuck b t ∧ m = reprocess t b)) as Hf'.
  { intros m [Ho|Ho]; [left; by apply Hf|by right]. }
  pose proof (la_placed _ _ HL) as Hp.
  destruct (mode b) eqn:Hm; try (exfalso; by destruct (placed_shape w b _ Hp Hm ltac:(done))).
  - left. by apply Hf, step_before_head_ok.
  - left. by apply Hf, step_in_head_ok.
  - left. by apply Hf, step_after_head_ok.
  - left. apply Hf, step_in_body_ok; [done|done|exact (placed_shape w b _ Hp Hm ltac:(done))|by left|by left].
  - left. by apply Hf, step_text_ok.
  - by apply Hf', step_in_table_ok.
  - left. by apply Hf, step_in_caption_ok.
  - left. by apply Hf, step_in_column_group_ok.
  - by apply Hf', step_in_table_body_ok.
  - by apply Hf', step_in_row_ok.
  - left. destruct (step_in_cell_ok w b HL Hm Hr t) as (r & b' & -> & Ho). eexists _, _. split; [done|]. by apply out_gout.
  - left. apply Hf, step_after_body_ok; [done|done|exact (placed_shape w b _ Hp Hm ltac:(done))|by right; left|done].
  - left. apply Hf, step_after_after_body_ok; [done|done|exact (placed_shape w b _ Hp Hm ltac:(done))|by right; right|done].
Qed.

(** ** Flags that no invariant reads *)
Lemma Stage_strip w v b : Stage w b → Stage w (set_strip v b).
Proof.
  intros [HE|[HG Hf Hp (r & h & HL)]]; [left; by destruct HE|right].
  split; [by apply (Good_fields b)|done|done|]. exists r, h. by destruct HL.
Qed.

Lemma Stage_just_saw w v b : Stage w b → Stage w (set_just_saw v b).
Proof.
  intros [HE|[HG Hf Hp (r & h & HL)]]; [left; by destruct HE|right].
  split; [by apply (Good_fields b)|done|done|]. exists r, h. by destruct HL.
Qed.

Lemma Stage_tokenizer w k b : Stage w b → Stage w (set_tokenizer k b).
Proof.
  intros [HE|[HG Hf Hp (r & h & HL)]]; [left; by destruct HE|right].
  split; [by apply (Good_fields b)|done|done|]. exists r, h. by destruct HL.
Qed.

(** ** The stuck states *)
Lemma cell_hides b tag :
  Good b → in_cell (skel b) → str tag ∈ STRUCTURE → one_of (str tag) ["td"; "th"] = false →
  has_tag_in_scope b (str tag) [] = Ok false.
Proof.
  intros HG (l & x & c & Hl & Hx & Hc & Hs) Ht Hn. apply has_scope; [done..|]. rewrite Hs, rev_app_distr.
  assert (sscope tag (c :: Ttr :: x :: Ttable :: rev l) = false) as H; [|exact H].
  assert (tag_is c tag = false) as Ec.
  { apply bool_decide_eq_false. intros ->. by destruct Hc as [E|E]; rewrite E in Hn. }
  unfold sscope. cbn [pscope]. rewrite Ec. by destruct Hc as [->| ->].
Qed.

Lemma stuck_dispatch b t : stuck b t → dispatch b t = reprocess t b.
Proof.
  intros (HG & Hc & Hst). unfold dispatch.
  assert (∀ t, (b ← close_table b; reprocess t b) = reprocess t b) as Hct.
  { intros t'. unfold close_table, when. by rewrite (cell_hides b "table") by (done || structural). }
  assert (∀ f t, (b ← when (has_tag_in_scope b (str "tr") []) f b; reprocess t b) = reprocess t b) as Htr.
  { intros f t'. unfold when. by rewrite (cell_hides b "tr") by (done || structural). }
  destruct (mode b) eqn:Hm; try done; destruct t as [| |n a s|n|s|]; try done.
  - subst n. apply Hct.
  - subst n. apply Hct.
  - apply one_of_cases in Hst as (x & -> & Hx).
    repeat (apply elem_of_cons in Hx as [->|Hx]; [first [apply Htr|apply Hct]|]). by apply elem_of_nil in Hx.
  - apply one_of_cases in Hst as (x & -> & Hx). each_name Hx ltac:(apply Htr).
Qed.

(** ** One step of the loop *)
Lemma tb_step_total w b t :
  Stage w b → room (step_cost b) b →
  step_total (w || bad_cell_end b t) b t (tb_step b t) ∨ (w = true ∧ stuck b t).
Proof.
  intros HS Hr. unfold tb_step. set (b0 := if is_character t then b else set_strip false b).
  assert (Stage w b0) as HS0 by (unfold b0; destruct (is_character t); [done|by apply Stage_strip]).
  assert (step_total (w || bad_cell_end b0 t) b0 t (dispatch b0 t) ∨ (w = true ∧ stuck b0 t ∧ dispatch b0 t = reprocess t b0)) as H.
  { apply dispatch_total; [done|]. unfold b0. by destruct (is_character t). }
  assert (bad_cell_end b0 t = bad_cell_end b t) as Hbad by (unfold b0; by destruct (is_character t)).
  rewrite Hbad in H. destruct H as [(r & b' & -> & [H1 H2 H3 H4 H5])|(Hw & Hst & _)].
  - left. cbn [mbind res_bind]. eexists _, _. split; [done|].
    revert H2 H3 H4 H5. unfold b0. destruct (is_character t); intros; split; try done; by apply Stage_just_saw.
  - right. split; [done|]. revert Hst. unfold b0. destruct (is_character t); [done|].
    intros (HG & Hc & Hm). split; [by apply (Good_fields (set_strip false b))|done].
Qed.

Lemma stuck_step b t : stuck b t → ∃ b', tb_step b t = Ok (Reprocess t, b') ∧ stuck b' t.
Proof.
  intros Hst. unfold tb_step. set (b0 := if is_character t then b else set_strip false b).
  assert (stuck b0 t) as Hst0.
  { unfold b0. destruct (is_character t); [done|]. destruct Hst as (HG & Hc & Hm). split; [by apply (Good_fields b)|done]. }
  rewrite (stuck_dispatch b0 t Hst0). cbn [mbind res_bind reprocess]. eexists; split; [done|].
  destruct Hst0 as (HG & Hc & Hm). split; [by apply (Good_fields b0)|done].
Qed.

Lemma stuck_forever fuel b t : stuck b t → process_token fuel b t = OutOfFuel.
Proof.
  unfold process_token. revert b. induction fuel as [|fuel IH]; intros b Hst; [done|].
  destruct (stuck_step b t Hst) as (b' & Hb' & Hst'). rewrite (iterate_inl _ _ _ (t, b')); [by apply IH|].
  unfold process_body. cbn [fst snd]. by rewrite Hb'.
Qed.

(** ** The tokenizer while a token is processed *)
Definition ready (t : Token) (k : Tokenizer) : Prop :=
  Inv k ∧ k.(state) = Data ∧ ∀ n a s, t = StartTag n a s → k.(last_start_tag_name) = Some n.

Lemma ready_switched t t' k k' :
  ready t k → switched t k k' → remainder t t' → ready t' k' ∧ work k' = work k ∧ k'.(input) = k.(input).
Proof.
  intros (HI & Hd & Hl) Hs Hrem.
  assert (∀ n a s, t' = StartTag n a s → t = StartTag n a s) as Ht.
  { intros n a s ->. destruct Hrem as [->|(? & ? & _ & ? & _)]; done. }
  destruct Hs as [->|(cm & -> & Hcm)].
  - split; [split_and!; [done..|]; intros n a s H%Ht; by eapply Hl|done].
  - split; [|split; [|done]].
    + split_and!; [|done|intros n a s H%Ht; cbn; by eapply Hl].
      apply set_content_model_Inv; [done|]. intros Hc. destruct (Hcm Hc) as (a & s & ->). by eapply Hl.
    + unfold work, pending. cbn. by rewrite Hd.
Qed.

(** ** One token *)

(** Ids that at most [k + 1] steps use, starting with [a] formatting entries. *)
Definition steps_cost (k : nat) (a : N) : N := ((N.of_nat k + 1) * (a + 42 + N.of_nat k))%N.

(** A token handed back to the loop. *)
Definition turn (s s' : TreeBuilder * Token) : Prop := tb_step s.1 s.2 = Ok (Reprocess s'.2, s'.1).

(** No step of the token's loop meets a cell end tag that does not match the open cell. *)
Fixpoint token_matches (fuel : nat) (b : TreeBuilder) (t : Token) : bool :=
  match fuel with
  | O => true
  | S fuel' =>
      negb (bad_cell_end b t)
      && match tb_step b t with Ok (Reprocess t', b') => token_matches fuel' b' t' | _ => true end
  end.

(** What processing a token leaves. *)
Record processed (w : bool) (k : nat) (b : TreeBuilder) (t : Token) (b' : TreeBuilder) : Prop := {
  pr_stage : Stage w b';
  pr_grows : grows (steps_cost k (afe_len b)) b.(document) b'.(document);
  pr_afe : length b'.(active_formatting) ≤ length b.(active_formatting) + (k + 1);
  pr_inv : Inv b'.(tokenizer) ∧ b'.(tokenizer).(state) = Data;
  pr_work : work b'.(tokenizer) = work b.(tokenizer) ∧ b'.(tokenizer).(input) = b.(tokenizer).(input);
  pr_last : ∃ b1 t1, rtc turn (b, t) (b1, t1) ∧ tb_step b1 t1 = Ok (Done, b') ∧ Stage w b1 ∧ (t = Eof ↔ t1 = Eof);
}.

Lemma steps_cost_mono k k' a : k ≤ k' → (steps_cost k a ≤ steps_cost k' a)%N.
Proof. intros Hk. unfold steps_cost. apply N.mul_le_mono; lia. Qed.

Lemma steps_cost_step k k' a a' :
  k' < k → (a' ≤ a + 1)%N → (a + 42 + steps_cost k' a' ≤ steps_cost k a)%N.
Proof.
  intros Hk Ha. unfold steps_cost.
  transitivity (a + 42 + (N.of_nat k) * (a + 42 + N.of_nat k))%N; [|lia].
  apply N.add_le_mono_l, N.mul_le_mono; lia.
Qed.

Lemma remainder_eof t t' : remainder t t' → (t = Eof ↔ t' = Eof).
Proof. intros [->|(? & ? & -> & -> & _)]; [done|split; done]. Qed.

Lemma process_spec w fuel b t k :
  Stage w b → ready t b.(tokenizer) → token_rank t b.(mode) ≤ k → room (steps_cost k (afe_len b)) b →
  (w = false → token_matches fuel b t = true) →
  match process_token fuel b t with
  | Ok b' => processed w k b t b'
  | Panic => False
  | OutOfFuel => w = true ∨ fuel ≤ k
  end.
Proof.
  unfold process_token. revert b t k. induction fuel as [|fuel IH]; intros b t k HS Hrd Hk Hr Hbad.
  { right. lia. }
  assert (room (step_cost b) b) as Hr1.
  { eapply room_le; [|done]. unfold step_cost, steps_cost. lia. }
  destruct (tb_step_total w b t HS Hr1) as [(r & b1 & Hb1 & Hg)|[Hw Hst]].
  2: { pose proof (stuck_forever (S fuel) b t Hst) as Hf. unfold process_token in Hf. rewrite Hf. by left. }
  assert (w || bad_cell_end b t = w) as Hww.
  { destruct w; [done|]. by apply andb_true_iff in Hbad as [->%negb_true_iff _]. }
  rewrite Hww in Hg. destruct Hg as [HS1 Hg Ha Ht Hrk].
  destruct r as [|t'].
  - rewrite (iterate_inr _ _ _ b1); [|unfold process_body; cbn [fst snd]; by rewrite Hb1].
    destruct (ready_switched t t _ _ Hrd Ht ltac:(by left)) as ((HI & Hd & _) & Hwk & Hin).
    split; try done.
    + eapply grows_weaken; [|done]. unfold step_cost, steps_cost. lia.
    + lia.
    + exists b, t. split_and!; [apply rtc_refl|done..].
  - destruct Hrk as [Hrk Hrem]. rewrite (iterate_inl _ _ _ (t', b1)); [|unfold process_body; cbn [fst snd]; by rewrite Hb1].
    destruct (ready_switched t t' _ _ Hrd Ht Hrem) as (Hrd1 & Hwk & Hin).
    assert (afe_len b1 ≤ afe_len b + 1)%N as Ha' by (unfold afe_len; lia).
    assert (step_cost b + steps_cost (k - 1) (afe_len b1) ≤ steps_cost k (afe_len b))%N as Hcost.
    { apply steps_cost_step; [lia|done]. }
    specialize (IH b1 t' (k - 1) HS1 Hrd1). assert (turn (b, t) (b1, t')) as Htn by exact Hb1.
    destruct (iterate fuel process_body (t', b1)) as [b'| |] eqn:Eit.
    + destruct IH as [P1 P2 P3 P4 [P5 P6] (b2 & t2 & Hrtc & Hdone & HS2 & Heof)]; [lia| | |].
      { unfold room in *. pose proof (gr_next _ _ _ Hg). lia. }
      { intros Hw. specialize (Hbad Hw). cbn [token_matches] in Hbad. rewrite Hb1 in Hbad.
        by apply andb_true_iff in Hbad as [_ ?]. }
      split; try done.
      * eapply grows_weaken; [exact Hcost|]. by eapply grows_trans.
      * lia.
      * split; congruence.
      * exists b2, t2. split_and!; [by eapply rtc_l|done..|]. rewrite <-Heof. by apply remainder_eof.
    + apply IH; [lia| |].
      { unfold room in *. pose proof (gr_next _ _ _ Hg). lia. }
      { intros Hw. specialize (Hbad Hw). cbn [token_matches] in Hbad. rewrite Hb1 in Hbad.
        by apply andb_true_iff in Hbad as [_ ?]. }
    + destruct IH as [?|?]; [lia| | |by left|right; lia].
      { unfold room in *. pose proof (gr_next _ _ _ Hg). lia. }
      { intros Hw. specialize (Hbad Hw). cbn [token_matches] in Hbad. rewrite Hb1 in Hbad.
        by apply andb_true_iff in Hbad as [_ ?]. }
Qed.

(** ** The end of the input *)

(** The page a parse leaves: the root's one child is [html], which has a [head] and a [body]. *)
Definition page_skeleton (d : Document) : Prop :=
  ∃ r h hd bd, d.(doc_root) = Some r ∧ children d r = Ok [h] ∧ tag_of d h = Ok (Some Thtml)
    ∧ parent d hd = Ok (Some h) ∧ tag_of d hd = Ok (Some Thead)
    ∧ parent d bd = Ok (Some h) ∧ tag_of d bd = Ok (Some Tbody).

Lemma only_child d r h :
  WF d → parent_edge d h r → (∀ x, parent_edge d x r → x = h) → children d r = Ok [h].
Proof.
  intros [K HR] Hh Honly. assert (live d r) as Hr by (by apply (parent_edge_live d h r); [exists K|]).
  rewrite (children_K d K r HR Hr). f_equal.
  assert (∀ x, x ∈ K r ↔ x = h) as Hin.
  { intros x. split.
    - intros Hx. apply Honly. by apply (rep_parent_edge _ _ HR).
    - intros ->. by apply (rep_parent_edge _ _ HR) in Hh. }
  pose proof (rep_nodup _ _ HR r) as Hnd. destruct (K r) as [|x [|y l]].
  - specialize (proj2 (Hin h) eq_refl). by intros ?%elem_of_nil.
  - f_equal. apply Hin. by left.
  - exfalso. assert (x = h) by (apply Hin; by left). assert (y = h) by (apply Hin; right; by left). subst.
    apply NoDup_cons in Hnd as [Hn _]. apply Hn. by left.
Qed.

Lemma Late_skeleton w b : Late w b → body_mode b.(mode) = true → page_skeleton b.(document).
Proof.
  intros HL Hm. pose proof (placed_body w b Hm (la_placed _ _ HL)) as Hs%body_shape_has_body.
  pose proof (co_wf _ (go_core _ (la_good _ _ HL))) as HW.
  destruct (la_links _ _ HL) as (r & h & [Hr Hh Ho Ht Hn Hhd _ Hbd]). destruct (Hbd Hs) as (bd & Htb & Hpb).
  destruct (head_element b) as [hd|] eqn:Ehd; [|by rewrite (Hn eq_refl) in Hm].
  destruct (Hhd hd eq_refl) as [Hth Hph]. exists r, h, hd, bd.
  split_and!; [done|by apply only_child|by apply tag_of_tg|by apply parent_of_edge|by apply tag_of_tg
    |by apply parent_of_edge|by apply tag_of_tg].
Qed.

(** The last step, on the end of the input, is one of a body mode. *)
Lemma eof_done b b' : tb_step b Eof = Ok (Done, b') → body_mode b.(mode) = true ∧ b'.(document) = b.(document).
Proof.
  unfold tb_step. cbn [is_character]. intros H. apply bind_Ok in H as ([r b1] & H & Hr). apply Ok_inj in Hr.
  injection Hr as -> <-. unfold dispatch in H. cbn [mode set_strip] in H. cbn [document set_just_saw].
  assert (∀ (m : res TreeBuilder) (f : TreeBuilder → TreeBuilder), (b ← m; reprocess Eof (f b)) = Ok (Done, b1) → False) as Hno.
  { intros m f H'. apply bind_Ok in H' as (b2 & _ & H'). by apply Ok_inj in H'. }
  destruct (mode b) eqn:Hm; cbn [step_initial step_before_html step_before_head step_in_head step_after_head
    step_in_body step_text step_in_table step_in_caption step_in_column_group step_in_table_body step_in_row
    step_in_cell step_after_body step_after_after_body split_off_dropped_whitespace whitespace_rule
    after_body_whitespace mbind res_bind finish reprocess] in H; try (by apply Ok_inj in H);
    try (apply Ok_inj in H; injection H as <-; done).
  - by apply (Hno _ (set_mode BeforeHead)) in H.
  - apply bind_Ok in H as ([id b2] & _ & H). by apply Ok_inj in H.
  - by apply (Hno _ (set_mode InBody)) in H.
  - apply bind_Ok in H as (b2 & _ & H). by apply Ok_inj in H.
Qed.

(** ** The loop over the tokens *)

(** No step of the loop meets a cell end tag that does not match the open cell. *)
Fixpoint cells_match (F fuel : nat) (b : TreeBuilder) : bool :=
  match fuel with
  | O => true
  | S fuel' =>
      match next_token b.(tokenizer) with
      | Ok (t, k) =>
          token_matches F (set_tokenizer k b) t
          && match process_token F (set_tokenizer k b) t with
             | Ok b' => if decide (t = Eof) then true else cells_match F fuel' b'
             | _ => true
             end
      | _ => true
      end
  end.

(** Ids for the rest of the input, [n] units of work away from its end. *)
Definition budget (n : nat) (a : N) : N := (42 * (N.of_nat n + 1) * (a + 83 + 42 * N.of_nat n))%N.

Lemma budget_last n a : (steps_cost 41 a ≤ budget n a)%N.
Proof. unfold steps_cost, budget. nia. Qed.

Lemma budget_step n n' a a' :
  n' < n → (a' ≤ a + 42)%N → (steps_cost 41 a + budget n' a' ≤ budget n a)%N.
Proof.
  intros Hn Ha. transitivity (steps_cost 41 a + 42 * N.of_nat n * (a + 83 + 42 * N.of_nat n))%N.
  - apply N.add_le_mono_l. unfold budget. apply N.mul_le_mono; [lia|]. lia.
  - unfold steps_cost, budget. nia.
Qed.

Lemma run_spec w F fuel b :
  Stage w b → Inv b.(tokenizer) → room (budget (work b.(tokenizer)) (afe_len b)) b →
  (w = false → cells_match F fuel b = true) →
  match iterate fuel (run_body F) b with
  | Ok b' => page_skeleton b'.(document) ∧ WF b'.(document)
             ∧ grows (budget (work b.(tokenizer)) (afe_len b)) b.(document) b'.(document)
  | Panic => False
  | OutOfFuel => w = true ∨ fuel ≤ work b.(tokenizer) ∨ F ≤ 41
  end.
Proof.
  revert b. induction fuel as [|fuel IH]; intros b HS HI Hr Hbad; [right; left; lia|].
  cbn [iterate]. destruct (next_token_ok b.(tokenizer) HI) as ([t k] & Hn & Hpost).
  assert (run_body F b = (b1 ← process_token F (set_tokenizer k b) t; Ok (if decide (t = Eof) then inr b1 else inl b1)))
    as -> by (unfold run_body; by rewrite Hn).
  destruct Hpost as (HI1 & _ & Hd1 & _ & _ & Hwk & Hl).
  cbn [fst snd] in *.
  assert (ready t k) as Hrd by (split_and!; [done..|]; intros n a s ->; by eapply Hl).
  assert (w = false → token_matches F (set_tokenizer k b) t = true ∧
    match process_token F (set_tokenizer k b) t with
    | Ok b' => if decide (t = Eof) then true else cells_match F fuel b' | _ => true end = true) as Hbad'.
  { intros Hw. specialize (Hbad Hw). cbn [cells_match] in Hbad. rewrite Hn in Hbad. by apply andb_true_iff in Hbad. }
  pose proof (process_spec w F (set_tokenizer k b) t 41) as HP.
  destruct (process_token F (set_tokenizer k b) t) as [b1| |] eqn:Ep; cbn [mbind res_bind].
  - destruct HP as [P1 P2 P3 [P4 P4'] [P5 _] (b2 & t2 & Hrtc & Hdone & HS2 & Heof)].
    { by apply Stage_tokenizer. } { done. } { apply rank_le. } { eapply room_le; [apply budget_last|exact Hr]. }
    { intros Hw. by apply Hbad'. }
    destruct (decide (t = Eof)) as [->|Hne].
    + assert (t2 = Eof) as -> by (by apply Heof). destruct (eof_done b2 b1 Hdone) as [Hbm Hdoc].
      destruct HS2 as [HE|HL2]; [exfalso; by destruct (ea_mode _ HE) as [E|E]; rewrite E in Hbm|].
      rewrite Hdoc. split; [by eapply Late_skeleton|]. split; [apply HL2|]. rewrite <-Hdoc.
      eapply grows_weaken; [apply budget_last|exact P2].
    + assert (afe_len b1 ≤ afe_len b + 42)%N as Ha by (unfold afe_len; cbn in P3; lia).
      assert (work (tokenizer b1) < work (tokenizer b)) as Hlt.
      { rewrite P5. cbn. by destruct t. }
      pose proof (budget_step _ _ _ _ Hlt Ha) as Hb.
      assert (grows (steps_cost 41 (afe_len b)) (document b) (document b1)) as P2' by exact P2.
      specialize (IH b1 P1 P4). destruct (iterate fuel (run_body F) b1) as [b'| |] eqn:Eit.
      * destruct IH as (Q1 & Q2 & Q3).
        { unfold room in *. pose proof (gr_next _ _ _ P2'). lia. }
        { intros Hw. destruct (Hbad' Hw) as [_ Hm]. by destruct (decide (t = Eof)). }
        split_and!; [done..|]. eapply grows_weaken; [exact Hb|]. by eapply grows_trans.
      * apply IH.
        { unfold room in *. pose proof (gr_next _ _ _ P2'). lia. }
        { intros Hw. destruct (Hbad' Hw) as [_ Hm]. by destruct (decide (t = Eof)). }
      * destruct IH as [?|[?|?]]; [..|by left|right; left; lia|by right; right].
        { unfold room in *. pose proof (gr_next _ _ _ P2'). lia. }
        { intros Hw. destruct (Hbad' Hw) as [_ Hm]. by destruct (decide (t = Eof)). }
  - apply HP; [by apply Stage_tokenizer|done|apply rank_le|eapply room_le; [apply budget_last|exact Hr]|].
    intros Hw. by apply Hbad'.
  - destruct HP as [?|?]; [by apply Stage_tokenizer|done|apply rank_le|eapply room_le; [apply budget_last|exact Hr]| |by left|by right; right].
    intros Hw. by apply Hbad'.
Qed.
