(* ===== verification/HtmlTermination.v ===== *)
(** * What a parse returns, and when

    The theorems about [parse_continuing_from]: it never panics while ids last, what it returns
    is a well-formed tree with the skeleton of a page and fresh ids, it returns whenever every
    cell end tag it processes matches the open cell, and there is an input without that on which
    it never returns. *)

From S2P Require Import Prelude Dom DomTree DomWalk DomOps HtmlTokenizer HtmlTotal HtmlProps HtmlTree DomParents.
From S2P Require Import HtmlTreeInv HtmlModes HtmlGood HtmlInBody HtmlShape HtmlSteps HtmlRows HtmlRun.

(** Ids that the parse of [s] uses at most: quadratic in its length, because one end tag may
    reconstruct every open formatting element. *)
Definition id_budget (s : list N) : N := (budget (work (new_tokenizer s)) 0 + 1)%N.

Lemma tb_new_spec s n :
  (n + id_budget s ≤ U64_MAX)%N →
  ∃ b, tb_new s n = Ok b ∧ Early b ∧ b.(tokenizer) = new_tokenizer s ∧ afe_len b = 0%N
    ∧ next_node_id b.(document) = (n + 1)%N ∧ (∀ x, live b.(document) x → x = n).
Proof.
  intros Hn. unfold id_budget in Hn. destruct (new_continuing_from_spec n) as (d & Hd & HR & Hnx & Hr & Hnodes); [lia|].
  unfold tb_new. rewrite Hd. cbn [mbind res_bind]. eexists; split; [done|]. split_and!; try done.
  - split; try done; [by left|by eexists|]. intros x q Hq. apply (rep_parent_edge _ _ HR) in Hq.
    unfold edge in Hq. by apply elem_of_nil in Hq.
  - intros x [rec Hx]. cbn in Hx. rewrite Hnodes in Hx. by apply lookup_singleton_Some in Hx as [<- _].
Qed.

(** What a finished parse guarantees. *)
Definition parsed (n : N) (d : Document) : Prop :=
  WF d ∧ page_skeleton d ∧ ∀ x, live d x → (n ≤ x)%N.

Lemma parse_spec w fuel s n :
  (n + id_budget s ≤ U64_MAX)%N →
  (w = false → ∀ b, tb_new s n = Ok b → cells_match fuel fuel b = true) →
  match parse_continuing_from fuel s n with
  | Ok d => parsed n d
  | Panic => False
  | OutOfFuel => w = true ∨ fuel ≤ work (new_tokenizer s) ∨ fuel ≤ 41
  end.
Proof.
  intros Hn Hm. destruct (tb_new_spec s n Hn) as (b & Hb & HE & Ht & Ha & Hnx & Hl).
  unfold parse_continuing_from. rewrite Hb. cbn [mbind res_bind]. unfold tb_run.
  pose proof (run_spec w fuel fuel b) as HR. rewrite Ht, Ha in HR.
  assert (room (budget (work (new_tokenizer s)) 0) b) as Hroom.
  { unfold room. rewrite Hnx. unfold id_budget in Hn. lia. }
  specialize (HR (or_introl HE) (new_Inv s) Hroom (λ Hw, Hm Hw b Hb)).
  destruct (iterate fuel (run_body fuel) b) as [b'| |]; cbn [mbind res_bind]; [|done..].
  destruct HR as (Hsk & HW & Hg). split_and!; [done..|]. intros x Hx.
  destruct (gr_fresh _ _ _ Hg x Hx) as [->%Hl|?]; lia.
Qed.

Lemma parse_fuel_enough s : ¬ (parse_fuel s ≤ work (new_tokenizer s) ∨ parse_fuel s ≤ 41).
Proof. unfold parse_fuel. pose proof (work_fuel (new_tokenizer s)). lia. Qed.

(** ** Theorems *)

(** A short page. *)
Definition sample : list N := str "<p>a<b>c<table><tr><td>d".
Lemma sample_room : (0 + id_budget sample ≤ U64_MAX)%N.
Proof. vm_compute. discriminate. Qed.

(** C5. The parser never panics: whatever the input and however far it is run, no index is out of
    range, no node is missing and no [unreachable!] is reached, while the ids the input may use
    fit the counter. *)
Theorem parse_never_panics fuel s n :
  (n + id_budget s ≤ U64_MAX)%N → parse_continuing_from fuel s n ≠ Panic.
Proof.
  intros Hn Hp. pose proof (parse_spec true fuel s n Hn) as H. rewrite Hp in H. by apply H.
Qed.

Lemma parse_never_panics_witness : parse_continuing_from 40 sample 0 ≠ Panic.
Proof. apply (parse_never_panics 40 sample 0). exact sample_room. Defined.

(** C3. What the parser returns is a well-formed tree whose root has one child, the [html] element,
    with a [head] and a [body] child, whatever the input; and every node's id is one the caller
    had not given out yet. *)
Theorem parse_page_shape fuel s n d :
  (n + id_budget s ≤ U64_MAX)%N → parse_continuing_from fuel s n = Ok d →
  WF d ∧ page_skeleton d ∧ ∀ x, live d x → (n ≤ x)%N.
Proof.
  intros Hn Hp. pose proof (parse_spec true fuel s n Hn) as H. rewrite Hp in H. by apply H.
Qed.

Lemma parse_page_shape_witness :
  ∃ d, parse_continuing_from 200 sample 0 = Ok d ∧ WF d ∧ page_skeleton d ∧ ∀ x, live d x → (0 ≤ x)%N.
Proof.
  destruct (parse_continuing_from 200 sample 0) as [d| |] eqn:E.
  - exists d. split; [reflexivity|]. exact (parse_page_shape 200 sample 0 d sample_room E).
  - vm_compute in E. discriminate.
  - vm_compute in E. discriminate.
Defined.

(** C6. The parser returns, within the bound [parse_fuel], on every input in which no step meets a
    [td] or [th] end tag that does not match the open cell. *)
Theorem parse_returns s n :
  (n + id_budget s ≤ U64_MAX)%N →
  (∀ b, tb_new s n = Ok b → cells_match (parse_fuel s) (parse_fuel s) b = true) →
  ∃ d, parse_html s n = Ok d ∧ page_skeleton d.
Proof.
  intros Hn Hm. pose proof (parse_spec false (parse_fuel s) s n Hn (λ _, Hm)) as H. unfold parse_html.
  destruct (parse_continuing_from (parse_fuel s) s n) as [d| |]; [|done|].
  - exists d. split; [done|apply H].
  - destruct H as [H|H]; [done|]. by apply parse_fuel_enough in H.
Qed.

Lemma parse_returns_witness : ∃ d, parse_html sample 0 = Ok d ∧ page_skeleton d.
Proof.
  apply (parse_returns sample 0 sample_room). intros b Hb. apply Ok_inj in Hb. subst b. vm_compute. reflexivity.
Defined.

(** ** An input on which the parser does not return *)
Definition never_ok (b : TreeBuilder) : Prop := ∀ F fuel r, iterate fuel (run_body F) b ≠ Ok r.

(** The first [n] tokens. *)
Fixpoint run_n (n : nat) (b : TreeBuilder) : res TreeBuilder :=
  match n with
  | O => Ok b
  | S n' => x ← run_body 64 b; match x with inl b' => run_n n' b' | inr _ => Panic end
  end.

Lemma run_body_mono F F' b x : run_body F b = Ok x → F ≤ F' → run_body F' b = Ok x.
Proof.
  unfold run_body. intros H Hle. apply bind_Ok in H as ([t k] & -> & H). cbn [mbind res_bind].
  apply bind_Ok in H as (b1 & H & Hx). unfold process_token in *. by rewrite (iterate_mono _ _ _ _ _ H Hle).
Qed.

Lemma never_run_n n b b' : run_n n b = Ok b' → never_ok b' → never_ok b.
Proof.
  revert b. induction n as [|n IH]; intros b H Hn; [by apply Ok_inj in H as ->|].
  cbn [run_n] in H. apply bind_Ok in H as (x & Hx & H). destruct x as [b1|]; [|done].
  specialize (IH b1 H Hn). intros F fuel r Hit. destruct fuel as [|fuel]; [done|]. cbn [iterate] in Hit.
  apply bind_Ok in Hit as (y & Hy & Hit).
  assert (y = inl b1) as ->.
  { apply (run_body_mono _ (F `max` 64)) in Hy; [|lia]. apply (run_body_mono _ (F `max` 64)) in Hx; [|lia]. congruence. }
  by apply IH in Hit.
Qed.

(** A token that comes back to the same builder comes back for ever. *)
Lemma loop_forever fuel b t : tb_step b t = Ok (Reprocess t, b) → process_token fuel b t = OutOfFuel.
Proof.
  intros H. unfold process_token. induction fuel as [|fuel IH]; [done|].
  rewrite (iterate_inl _ _ _ (t, b)); [done|]. unfold process_body. cbn [fst snd]. by rewrite H.
Qed.

Lemma never_loop b t k :
  next_token b.(tokenizer) = Ok (t, k) →
  tb_step (set_tokenizer k b) t = Ok (Reprocess t, set_tokenizer k b) → never_ok b.
Proof.
  intros Hn Hl F fuel r Hit. destruct fuel as [|fuel]; [done|]. cbn [iterate] in Hit.
  apply bind_Ok in Hit as (y & Hy & _). unfold run_body in Hy. rewrite Hn in Hy. cbn [mbind res_bind] in Hy.
  by rewrite (loop_forever F _ _ Hl) in Hy.
Qed.

Definition hang_input : list N := str "<table><tr><td></th><tr>".

Lemma hang_loops :
  ∃ b0 b t k, tb_new hang_input 0 = Ok b0 ∧ run_n 4 b0 = Ok b ∧ next_token b.(tokenizer) = Ok (t, k)
    ∧ tb_step (set_tokenizer k b) t = Ok (Reprocess t, set_tokenizer k b).
Proof.
  eexists _, _, _, _. split; [reflexivity|]. split; [vm_compute; reflexivity|].
  split; [vm_compute; reflexivity|]. vm_compute. reflexivity.
Qed.

(** C36. The parser does not return on [<table><tr><td></th><tr>]: the mismatched [</th>] leaves the
    cell open and the mode "in row", where the row that [<tr>] is to close is hidden by the cell,
    and the token is handed back unchanged for ever. *)
Theorem parse_never_returns fuel : parse fuel hang_input = OutOfFuel.
Proof.
  destruct hang_loops as (b0 & b & t & k & H0 & Hn & Ht & Hl).
  pose proof (parse_spec true fuel hang_input 0 ltac:(vm_compute; discriminate) ltac:(done)) as Hs.
  unfold parse. destruct (parse_continuing_from fuel hang_input 0) as [d| |] eqn:E; [exfalso|done|done].
  unfold parse_continuing_from in E. rewrite H0 in E. cbn [mbind res_bind] in E.
  apply bind_Ok in E as (b1 & E & _). unfold tb_run in E. revert E.
  apply (never_run_n 4 b0 b Hn). by eapply never_loop.
Qed.
