(* ===== verification/HtmlTreeRoundTrip.v ===== *)
(** * Parsing what was printed: the tree

    A page whose body is a forest of plain elements and text, printed as markup and parsed,
    comes back as the same forest below the body. *)

From S2P Require Import Prelude Dom DomTree DomWalk DomOps HtmlTokenizer HtmlTotal HtmlProps HtmlRoundTrip HtmlTree DomParents.
From S2P Require Import HtmlTreeInv HtmlModes HtmlStack.

(** ** Forests and their markup *)
#[local] Unset Elimination Schemes.
Inductive node := El (tag : list N) (attrs : Attrs) (kids : list node) | Tx (text : list N).
#[local] Set Elimination Schemes.

Section node_induction.
Context (P : node → Prop).
Context (Hel : ∀ tag attrs kids, Forall P kids → P (El tag attrs kids)) (Htx : ∀ s, P (Tx s)).
Fixpoint node_rose_ind (n : node) : P n :=
  match n with
  | El tag attrs kids =>
      Hel tag attrs kids
        ((fix go (l : list node) : Forall P l :=
            match l with [] => Forall_nil_2 P | n' :: l' => Forall_cons_2 P n' l' (node_rose_ind n') (go l') end) kids)
  | Tx s => Htx s
  end.
End node_induction.

Fixpoint node_tokens (n : node) : list Token :=
  match n with
  | El tag attrs kids => StartTag tag attrs false :: mjoin (node_tokens <$> kids) ++ [EndTag tag]
  | Tx s => [Character s]
  end.
Definition forest_tokens (f : list node) : list Token := mjoin (node_tokens <$> f).

Definition page_tokens (f : list node) : list Token :=
  [Doctype; StartTag (str "html") [] false; StartTag (str "head") [] false; EndTag (str "head");
   StartTag (str "body") [] false] ++ forest_tokens f ++ [EndTag (str "body"); EndTag (str "html")].
Definition page_markup (f : list node) : list N := page_tokens f ≫= print.

(** The names for which the rules of "in body" do more than open and close an element. *)
Definition RULED : list (list N) :=
  str <$> ["html"; "body"; "head"; "caption"; "col"; "colgroup"; "tbody"; "td"; "tfoot"; "th"; "thead"; "tr";
           "table"; "form"; "li"; "button"; "a"; "textarea"; "script"; "style"; "title"; "pre"; "select";
           "option"; "optgroup"; "hr"; "input"; "p"; "br"; "img"; "link"; "meta"; "b"; "i"; "em"; "strong";
           "u"; "small"; "code"; "h1"; "h2"; "h3"; "h4"; "h5"; "h6"]%string.
Definition plain_tag (t : list N) : bool := tag_name_ok t && negb (among t RULED).

Definition plain_text (s : list N) : bool :=
  no_cr s && bool_decide (s ≠ []) && forallb (λ c, negb (c =? 0)%N) s.

Definition is_Tx (n : node) : bool := match n with Tx _ => true | _ => false end.
Fixpoint no_adjacent (l : list node) : bool :=
  match l with
  | x :: ((y :: _) as l') => negb (is_Tx x && is_Tx y) && no_adjacent l'
  | _ => true
  end.
Fixpoint plain (n : node) : bool :=
  match n with
  | El tag attrs kids => plain_tag tag && attrs_printable attrs && forallb plain kids && no_adjacent kids
  | Tx s => plain_text s
  end.
Definition plain_forest (f : list node) : bool := forallb plain f && no_adjacent f.

(** Reading the tree back from the document. *)
Fixpoint read_node (fuel : nat) (d : Document) (id : NodeId) : res node :=
  match fuel with
  | O => OutOfFuel
  | S fuel' =>
      dt ← data d id;
      kids ← children d id;
      match dt with
      | NElement tag attrs => ks ← mapM (read_node fuel' d) kids; Ok (El tag attrs ks)
      | NText s => Ok (Tx s)
      | NDocument => Panic
      end
  end.

Fixpoint node_height (n : node) : nat :=
  match n with El _ _ kids => S (max_list (node_height <$> kids)) | Tx _ => 1 end.

(** ** A node shown by a document, with ids in a range *)
Fixpoint shows (d : Document) (K : NodeId → list NodeId) (lo hi : N) (n : node) (id : NodeId) : Prop :=
  (lo ≤ id < hi)%N ∧
  match n with
  | El tag attrs kids =>
      data d id = Ok (NElement tag attrs) ∧
      (fix go (kids : list node) (l : list NodeId) : Prop :=
         match kids, l with
         | [], [] => True
         | k :: kids', i :: l' => shows d K lo hi k i ∧ go kids' l'
         | _, _ => False
         end) kids (K id)
  | Tx s => data d id = Ok (NText s) ∧ K id = []
  end.

Lemma shows_El d K lo hi tag attrs kids id :
  shows d K lo hi (El tag attrs kids) id ↔
  (lo ≤ id < hi)%N ∧ data d id = Ok (NElement tag attrs) ∧ Forall2 (shows d K lo hi) kids (K id).
Proof.
  cbn [shows]. assert (∀ l, (fix go (kids : list node) (l : list NodeId) : Prop :=
    match kids, l with [], [] => True | k :: kids', i :: l' => shows d K lo hi k i ∧ go kids' l' | _, _ => False end) kids l
    ↔ Forall2 (shows d K lo hi) kids l) as Hgo; [|by rewrite Hgo].
  induction kids as [|k kids IH]; intros [|i l]; split; try done; try (by intros H; inversion H).
  - intros [H1 H2]. constructor; [done|]. by apply IH.
  - intros H. inversion H; subst. split; [done|]. by apply IH.
Qed.

(** Nothing outside the range matters. *)
Lemma shows_stable d d' K K' lo hi lo' hi' n :
  (lo' ≤ lo)%N → (hi ≤ hi')%N →
  (∀ y, (lo ≤ y < hi)%N → K' y = K y ∧ ∀ dt, data d y = Ok dt → data d' y = Ok dt) →
  ∀ id, shows d K lo hi n id → shows d' K' lo' hi' n id.
Proof.
  intros Hlo Hhi Hst. induction n as [tag attrs kids IH|s] using node_rose_ind; intros id.
  - rewrite !shows_El. intros (Hr & Hd & Hk). destruct (Hst id Hr) as [HK Hdt]. split; [lia|]. split; [by apply Hdt|].
    rewrite HK. clear -IH Hk. induction Hk as [|k i kids l Hki _ IHk]; [constructor|].
    apply Forall_cons in IH as [IH1 IH2]. constructor; [by apply IH1|by apply IHk].
  - cbn [shows]. intros (Hr & Hd & Hk). destruct (Hst id Hr) as [HK Hdt]. split; [lia|]. split; [by apply Hdt|congruence].
Qed.

(** Shown nodes are read back. *)
Lemma shows_read d K lo hi n fuel id :
  Rep d K → node_height n ≤ fuel → shows d K lo hi n id → read_node fuel d id = Ok n.
Proof.
  intros HR. revert fuel id. induction n as [tag attrs kids IH|s] using node_rose_ind; intros fuel id Hf.
  - rewrite shows_El. intros (_ & Hd & Hk). destruct fuel as [|fuel]; [cbn in Hf; lia|]. cbn [read_node].
    rewrite Hd. cbn [mbind res_bind]. assert (live d id) as Hl.
    { unfold data, index in Hd. destruct (nodes d !! id) eqn:E; [by eexists|done]. }
    rewrite (children_K d K id HR Hl). cbn [mbind res_bind].
    assert (mapM (read_node fuel d) (K id) = Ok kids) as ->; [|done].
    cbn [node_height] in Hf. apply le_S_n in Hf.
    clear -IH Hk Hf. induction Hk as [|k i kids l Hki _ IHk]; [done|].
    apply Forall_cons in IH as [IH1 IH2]. cbn [mapM]. cbn in Hf.
    rewrite (IH1 fuel i) by (done || lia). cbn [mbind res_bind]. rewrite IHk by (done || lia). done.
  - intros (_ & Hd & _). destruct fuel as [|fuel]; [cbn in Hf; lia|]. cbn [read_node]. rewrite Hd. cbn [mbind res_bind].
    assert (live d id) as Hl. { unfold data, index in Hd. destruct (nodes d !! id) eqn:E; [by eexists|done]. }
    by rewrite (children_K d K id HR Hl).
Qed.

(** ** Inserting under the current node *)
Definition keeps_data (d d' : Document) : Prop := ∀ y dt, data d y = Ok dt → data d' y = Ok dt.

Lemma keeps_data_trans d1 d2 d3 : keeps_data d1 d2 → keeps_data d2 d3 → keeps_data d1 d3.
Proof. unfold keeps_data. auto. Qed.

Lemma data_lookup d y dt : data d y = Ok dt ↔ r_data <$> d.(nodes) !! y = Some dt.
Proof.
  unfold data, index. destruct (nodes d !! y); cbn; [|done]. split; [intros ->%Ok_inj|intros [= ->]]; done.
Qed.

Lemma create_append d K p dt :
  Rep d K → live d p → (next_node_id d < U64_MAX)%N →
  ∃ d0 d', create_node d dt = Ok (next_node_id d, d0) ∧ append_child d0 p (next_node_id d) = Ok d'
    ∧ Rep d' (<[p := K p ++ [next_node_id d]]> K) ∧ next_node_id d' = (next_node_id d + 1)%N
    ∧ d'.(doc_root) = d.(doc_root) ∧ data d' (next_node_id d) = Ok dt ∧ keeps_data d d' ∧ K (next_node_id d) = []
    ∧ d0.(doc_root) = d.(doc_root) ∧ keeps_data d d0.
Proof.
  intros HR Hp Hlt. destruct (create_node_spec d K dt HR Hlt) as (d0 & Hc & HR0 & Hn & Hnone & Hnx & Hroot).
  set (n := next_node_id d) in *.
  assert (¬ live d n) as Hnl by (intros [r Hr]; congruence).
  assert (n ≠ p) as Hne by (by intros ->).
  destruct (append_child_spec d0 K p n (detached_record dt)) as (d' & Ha & HR' & Hrw); try done.
  - unfold live. by rewrite Hn, lookup_insert_ne.
  - by rewrite Hn, lookup_insert_eq.
  - rewrite Hroot. intros Hr. destruct (rep_root _ _ HR) as (r & rec & Hr' & Hrec & _). congruence.
  - intros Hanc. apply anc_leaf in Hanc; [by apply Hne|]. intros y (r & Hr & Hpr).
    assert (parent_edge d0 y n) as He by (by exists r). apply (rep_parent_edge _ _ HR0) in He.
    unfold edge in He. rewrite (rep_dom _ _ HR n Hnone) in He. by apply elem_of_nil in He.
  - exists d0, d'. destruct Hrw as (Hal & Hrt & Hdt).
    assert (∀ y, data d0 y = data d' y) as Hdd.
    { intros y. unfold data, index. specialize (Hdt y). destruct (nodes d' !! y), (nodes d0 !! y); try done. cbn in *. congruence. }
    assert (keeps_data d d0) as Hk0.
    { intros y dy Hy. apply data_lookup in Hy as Hy'. apply data_lookup. rewrite Hn, lookup_insert_ne; [done|].
      intros <-. by rewrite Hnone in Hy'. }
    split_and!; try done.
    + unfold next_node_id in *. by rewrite Hal.
    + congruence.
    + rewrite <-Hdd. apply data_lookup. by rewrite Hn, lookup_insert_eq.
    + intros y dy Hy. rewrite <-Hdd. by apply Hk0.
    + by apply (rep_dom _ _ HR).
Qed.

Lemma insert_rep b K p name attrs :
  Rep b.(document) K → current_node b = Ok p → live b.(document) p → b.(foster_parenting) = false →
  (next_node_id b.(document) < U64_MAX)%N → among name VOID_ELEMENTS = false →
  let n := next_node_id b.(document) in
  ∃ d', insert_element b name attrs = Ok (n, set_open (b.(open_elements) ++ [n]) (set_document d' b))
    ∧ Rep d' (<[p := K p ++ [n]]> K) ∧ next_node_id d' = (n + 1)%N ∧ d'.(doc_root) = b.(document).(doc_root)
    ∧ data d' n = Ok (NElement name attrs) ∧ keeps_data b.(document) d' ∧ K n = [].
Proof.
  intros HR Hcur Hp Hf Hlt Hv n.
  destruct (create_append b.(document) K p (NElement name attrs) HR Hp Hlt)
    as (d0 & d' & Hc & Ha & HR' & Hnx & Hrt & Hdn & Hk & HKn & Hr0 & _).
  exists d'. unfold insert_element. rewrite Hc. cbn [mbind res_bind].
  unfold insert_node, fosters. cbn [foster_parenting set_document]. rewrite Hf. cbn [mbind res_bind].
  assert (current_node (set_document d0 b) = Ok p) as ->.
  { revert Hcur. unfold current_node. cbn [open_elements document set_document]. destruct (last _); [done|].
    unfold root. by rewrite Hr0. }
  cbn [mbind res_bind document set_document]. rewrite Ha. cbn [mbind res_bind]. rewrite Hv. by split_and!.
Qed.

(** ** The builder in the flow of the body *)
Definition stacked (t : list N) : Prop := plain_tag t = true ∨ t = str "html" ∨ t = str "body".

Record Flow (b : TreeBuilder) (K : NodeId → list NodeId) (o : list NodeId) : Prop := {
  fl_rep : Rep b.(document) K;
  fl_open : b.(open_elements) = o;
  fl_tags : ∀ y, y ∈ o → ∃ t a, data b.(document) y = Ok (NElement t a) ∧ stacked t ∧ (y < next_node_id b.(document))%N;
  fl_mode : b.(mode) = InBody;
  fl_afe : b.(active_formatting) = [];
  fl_foster : b.(foster_parenting) = false;
  fl_strip : b.(strip_leading_newline) = false;
  fl_saw : b.(just_saw_dropped_comment_or_doctype) = false;
  fl_inv : Inv b.(tokenizer);
}.

Lemma data_live_of d y dt : data d y = Ok dt → live d y.
Proof. unfold data, index. destruct (nodes d !! y) eqn:E; [by eexists|done]. Qed.

Lemma tag_of_data d y t a : data d y = Ok (NElement t a) → tag_of d y = Ok (Some t).
Proof. intros H. unfold tag_of. by rewrite H. Qed.

(** Membership of a literal. *)
Ltac ruled := apply (bool_decide_eq_true_1 (_ ∈ _)); vm_compute; reflexivity.

Lemma ruled_name t s : plain_tag t = true → str s ∈ RULED → tag_is t s = false.
Proof.
  intros [_ H%negb_true_iff]%andb_true_iff Hs. apply bool_decide_eq_false. intros ->. by apply bool_decide_eq_false in H.
Qed.

Lemma ruled_names t l : plain_tag t = true → forallb (λ s, among (str s) RULED) l = true → one_of t l = false.
Proof.
  intros Ht Hl. apply not_true_iff_false. intros H. unfold one_of in H. apply existsb_exists in H as (s & Hs & H).
  rewrite forallb_forall in Hl. rewrite ruled_name in H; [done..|]. by apply (bool_decide_eq_true_1 (_ ∈ _)), Hl.
Qed.

Lemma ruled_among t l : plain_tag t = true → forallb (λ s, among s RULED) l = true → among t l = false.
Proof.
  intros [_ Ht%negb_true_iff]%andb_true_iff Hl. apply not_true_iff_false. intros H. apply bool_decide_eq_true in H.
  rewrite forallb_forall in Hl. apply list_elem_of_In, Hl in H. congruence.
Qed.

Lemma stacked_not_p t : stacked t → bool_decide (t = str "p") = false.
Proof. intros [Hp|[->| ->]]; [|done..]. apply (ruled_name t "p" Hp). ruled. Qed.

(** No [p] is open. *)
Lemma no_p_open b K o : Flow b K o → has_p_in_button_scope b = Ok false.
Proof.
  intros HF. unfold has_p_in_button_scope, has_tag_in_scope. rewrite (fl_open _ _ _ HF).
  assert (∀ l, (∀ y, y ∈ l → y ∈ o) → scope_walk b.(document) (λ t, bool_decide (t = str "p"))
    (λ t, among t DEFAULT_SCOPE_BLOCKERS || one_of t ["button"%string]) l = Ok false) as Hw.
  { induction l as [|y l IH]; intros Hl; [done|]. cbn [scope_walk].
    destruct (fl_tags _ _ _ HF y) as (t & a & Hd & Hs & _); [apply Hl; by left|].
    rewrite (tag_of_data _ _ _ _ Hd). cbn [mbind res_bind]. rewrite stacked_not_p by done.
    destruct (_ || _); [done|]. apply IH. intros z Hz. apply Hl. by right. }
  apply Hw. intros y. by rewrite elem_of_rev.
Qed.

Lemma close_p_no b K o : Flow b K o → close_p_if_open b = Ok b.
Proof. intros HF. unfold close_p_if_open, when. by rewrite (no_p_open b K o HF). Qed.

(** The start tag of a plain element inserts it. *)
Lemma start_plain b K o tag attrs :
  Flow b K o → plain_tag tag = true →
  start_tag_in_body b tag attrs = then_finish (insert_element_ b tag attrs).
Proof.
  intros HF Ht. unfold start_tag_in_body.
  rewrite !(ruled_name tag) by (done || ruled).
  rewrite !(ruled_names tag) by done. rewrite (ruled_among tag FORMATTING_ELEMENTS), (ruled_among tag HEADING_ELEMENTS) by done.
  rewrite (ruled_among tag VOID_ELEMENTS) by done.
  assert (start_ordinary b tag attrs = insert_element_ b tag attrs) as ->.
  { unfold start_ordinary, reconstruct_active_formatting_elements. by rewrite (fl_afe _ _ _ HF). }
  unfold start_block. rewrite (close_p_no b K o HF). by destruct (among tag P_CLOSING_ELEMENTS).
Qed.

(** The end tag of the current plain element closes it. *)
Lemma implied_none b o x tag a ex :
  b.(open_elements) = o ++ [x] → data b.(document) x = Ok (NElement tag a) → plain_tag tag = true →
  generate_implied_end_tags b ex = Ok (set_open (o ++ [x]) b).
Proof.
  intros Ho Hd Ht. unfold generate_implied_end_tags, on_stack. rewrite Ho, rev_snoc. cbn [pop_until].
  rewrite (tag_of_data _ _ _ _ Hd). cbn [mbind res_bind]. rewrite (ruled_among tag IMPLIED_END_TAGS) by done.
  cbn [negb orb mbind res_bind]. by rewrite <-rev_snoc, rev_involutive.
Qed.

Lemma end_plain b o x tag a :
  b.(open_elements) = o ++ [x] → data b.(document) x = Ok (NElement tag a) → plain_tag tag = true →
  end_tag_in_body b tag = finish (set_open o b).
Proof.
  intros Ho Hd Ht. unfold end_tag_in_body. rewrite !(ruled_names tag) by done.
  rewrite !(ruled_name tag) by (done || ruled).
  rewrite (ruled_among tag FORMATTING_ELEMENTS), (ruled_among tag HEADING_ELEMENTS) by done.
  destruct (among tag P_CLOSING_ELEMENTS).
  - unfold close_in_scope, when, has_tag_in_scope. rewrite Ho, rev_snoc. cbn [scope_walk].
    rewrite (tag_of_data _ _ _ _ Hd). cbn [mbind res_bind]. rewrite bool_decide_true by done. cbn [mbind res_bind].
    rewrite (implied_none b o x tag a) by done. cbn [mbind res_bind].
    unfold pop_until_and_including, on_stack. cbn [open_elements set_open document]. rewrite rev_snoc. cbn [pop_through].
    rewrite (tag_of_data _ _ _ _ Hd). cbn [mbind res_bind]. rewrite bool_decide_true by done. cbn [mbind res_bind].
    rewrite rev_involutive. done.
  - unfold any_other_end_tag. rewrite Ho, rev_snoc. cbn [other_end_walk].
    rewrite (tag_of_data _ _ _ _ Hd). cbn [mbind res_bind]. rewrite bool_decide_true by done.
    rewrite (implied_none b o x tag a) by done. cbn [mbind res_bind open_elements set_open].
    rewrite length_rev, take_app_length. done.
Qed.

(** Text goes in as a new last child, unless it follows text. *)
Definition ends_in_text (d : Document) (l : list NodeId) : bool :=
  match last l with
  | Some y => match data d y with Ok (NText _) => true | _ => false end
  | None => false
  end.

Lemma strip_null_plain s : forallb (λ c, negb (c =? 0)%N) s = true → strip_null_characters s = s.
Proof.
  unfold strip_null_characters. induction s as [|c s IH]; [done|]. cbn [forallb].
  intros [Hc%negb_true_iff%N.eqb_neq Hs]%andb_true_iff. rewrite filter_cons_True by done. by rewrite IH.
Qed.

Lemma text_flow b K o x s :
  Flow b K (o ++ [x]) → (next_node_id b.(document) < U64_MAX)%N → plain_text s = true →
  ends_in_text b.(document) (K x) = false →
  let n := next_node_id b.(document) in
  ∃ d', step_in_body b (Character s) = finish (set_document d' b)
    ∧ Rep d' (<[x := K x ++ [n]]> K) ∧ next_node_id d' = (n + 1)%N ∧ d'.(doc_root) = b.(document).(doc_root)
    ∧ data d' n = Ok (NText s) ∧ keeps_data b.(document) d'.
Proof.
  intros HF Hlt [[_ Hne%bool_decide_eq_true]%andb_true_iff Hz]%andb_true_iff Hlast n.
  destruct (fl_tags _ _ _ HF x) as (t & a & Hx & _ & _); [apply elem_of_app; right; left|].
  pose proof (data_live_of _ _ _ Hx) as Hlx.
  destruct (create_append b.(document) K x (NText s) (fl_rep _ _ _ HF) Hlx Hlt)
    as (d0 & d' & Hc & Ha & HR' & Hnx & Hrt & Hdn & Hk & HKn & Hr0 & _).
  exists d'. split; [|by split_and!].
  cbn [step_in_body]. rewrite strip_null_plain by done.
  unfold reconstruct_active_formatting_elements. rewrite (fl_afe _ _ _ HF). cbn [last mbind res_bind].
  unfold consume_leading_newline_strip. rewrite (fl_strip _ _ _ HF).
  destruct s as [|c s]; [done|]. unfold insert_text, fosters. rewrite (fl_foster _ _ _ HF). cbn [mbind res_bind].
  unfold current_node. rewrite (fl_open _ _ _ HF), last_snoc. cbn [mbind res_bind]. rewrite (fl_saw _ _ _ HF).
  assert (last_child b.(document) x = Ok (last (K x))) as ->.
  { destruct Hlx as [r Hr]. unfold last_child, index. rewrite Hr. cbn [mbind res_bind unwrap].
    f_equal. apply (lk_last _ _ _ (rep_links _ _ (fl_rep _ _ _ HF) x r Hr)). }
  cbn [mbind res_bind]. unfold ends_in_text in Hlast.
  assert ((match last (K x) with
     | Some id => dt ← data b.(document) id; Ok (match dt with NText e => Some (id, e) | _ => None end)
     | None => Ok None end) = Ok None) as ->.
  { destruct (last (K x)) as [y|] eqn:Ey; [|done]. apply last_Some in Ey as [l' Hl'].
    assert (y ∈ K x) as Hin by (rewrite Hl'; apply elem_of_app; right; left).
    destruct (rep_child _ _ (fl_rep _ _ _ HF) x y Hin) as (r & Hr & _).
    assert (data b.(document) y = Ok (r_data r)) as Hdy by (apply data_lookup; by rewrite Hr).
    rewrite Hdy in *. cbn [mbind res_bind]. by destruct (r_data r). }
  cbn [mbind res_bind]. rewrite Hc. cbn [mbind res_bind].
  change (insert_before d0 x (next_node_id (document b)) None) with (append_child d0 x (next_node_id (document b))).
  by rewrite Ha.
Qed.

(** ** The loop over printed tokens *)
Definition reaches (c : nat) (b b' : TreeBuilder) : Prop :=
  ∀ F fuel, iterate (c + fuel) (run_body (S F)) b = iterate fuel (run_body (S F)) b'.

Lemma reaches_refl b : reaches 0 b b.
Proof. done. Qed.

Lemma reaches_trans c1 c2 b1 b2 b3 : reaches c1 b1 b2 → reaches c2 b2 b3 → reaches (c1 + c2) b1 b3.
Proof. intros H1 H2 F fuel. by rewrite <-Nat.add_assoc, H1, H2. Qed.

Lemma run_body_done F b t k b' :
  next_token b.(tokenizer) = Ok (t, k) → tb_step (set_tokenizer k b) t = Ok (Done, b') →
  run_body (S F) b = Ok (if decide (t = Eof) then inr b' else inl b').
Proof.
  intros Hn Hs. unfold run_body. rewrite Hn. cbn [mbind res_bind]. unfold process_token.
  rewrite (iterate_inr _ _ _ b'); [done|]. unfold process_body. cbn [fst snd]. by rewrite Hs.
Qed.

(** One printed token, read and processed in one step. *)
Lemma reaches_token b t rest (Q : TreeBuilder → Prop) :
  Inv b.(tokenizer) → printable t = true → between b.(tokenizer) (print t ++ rest) →
  (∀ s, t = Character s → starts_markup rest) →
  (∀ k, Inv k → ∃ b', tb_step (set_tokenizer k b) t = Ok (Done, b') ∧ b'.(tokenizer) = k ∧ Q b') →
  ∃ b', reaches 1 b b' ∧ between b'.(tokenizer) rest ∧ Q b'.
Proof.
  intros HI Hp Hb Hs Hq. destruct (run_print t _ rest Hp Hb Hs) as (k & Hr & Hb').
  pose proof (runs_next _ _ HI Hr) as Hn. destruct (next_token_inv _ _ HI Hn) as (HIk & _).
  destruct (Hq k HIk) as (b' & Hst & Hk & HQ). exists b'. rewrite Hk. split_and!; [|done..].
  intros F fuel. cbn [Nat.add iterate]. rewrite (run_body_done F b t k b' Hn Hst). cbn [mbind res_bind].
  rewrite decide_False; [done|]. by intros ->.
Qed.

(** Flags and the tokenizer of a builder in the flow. *)
Lemma Flow_fields b b' K o :
  Flow b K o → b'.(document) = b.(document) → b'.(open_elements) = b.(open_elements) → b'.(mode) = InBody →
  b'.(active_formatting) = [] → b'.(foster_parenting) = false → b'.(strip_leading_newline) = false →
  b'.(just_saw_dropped_comment_or_doctype) = false → Inv b'.(tokenizer) → Flow b' K o.
Proof. intros [] H1 H2 **. split; rewrite ?H1, ?H2; try done. Qed.

(** What feeding nodes under [x] does to the document. *)
Record fed (b : TreeBuilder) (K : NodeId → list NodeId) (x : NodeId) (f : list node)
    (b' : TreeBuilder) (K' : NodeId → list NodeId) (ids : list NodeId) : Prop := {
  fd_next : (next_node_id b.(document) ≤ next_node_id b'.(document))%N;
  fd_top : K' x = K x ++ ids;
  fd_below : ∀ y, (y < next_node_id b.(document))%N → y ≠ x → K' y = K y;
  fd_data : keeps_data b.(document) b'.(document);
  fd_root : b'.(document).(doc_root) = b.(document).(doc_root);
  fd_shows : Forall2 (shows b'.(document) K' (next_node_id b.(document)) (next_node_id b'.(document))) f ids;
}.

Fixpoint node_size (n : node) : N :=
  match n with El _ _ kids => (1 + foldr N.add 0 (node_size <$> kids))%N | Tx _ => 1%N end.
Definition forest_size (f : list node) : N := foldr N.add 0%N (node_size <$> f).

Definition feeds (f : list node) : Prop := ∀ b K o x rest,
  Flow b K (o ++ [x]) → plain_forest f = true →
  between b.(tokenizer) ((forest_tokens f ≫= print) ++ rest) →
  (∀ n, last f = Some n → is_Tx n = true → starts_markup rest) →
  (∀ n, head f = Some n → is_Tx n = true → ends_in_text b.(document) (K x) = false) →
  (next_node_id b.(document) + forest_size f ≤ U64_MAX)%N →
  ∃ b' K' ids, reaches (length (forest_tokens f)) b b' ∧ Flow b' K' (o ++ [x])
    ∧ between b'.(tokenizer) rest ∧ fed b K x f b' K' ids
    ∧ next_node_id b'.(document) = (next_node_id b.(document) + forest_size f)%N.

Lemma fresh_childless d K : Rep d K → K (next_node_id d) = [].
Proof.
  intros HR. apply (rep_dom _ _ HR). destruct (nodes d !! next_node_id d) eqn:E; [|done].
  apply (rep_fresh _ _ HR) in E. unfold next_node_id in E. lia.
Qed.

(** A text node. *)
Lemma feeds_text s : feeds [Tx s].
Proof.
  intros b K o x rest HF [Hp _]%andb_true_iff Hb Hrest Hlast Hn. cbn in Hp. rewrite andb_true_r in Hp.
  unfold forest_tokens in Hb. cbn in Hb. rewrite app_nil_r in Hb. unfold forest_size in *. cbn in Hn.
  destruct (reaches_token b (Character s) rest (λ b', ∃ d', b'.(document) = d'
    ∧ Flow b' (<[x := K x ++ [next_node_id (document b)]]> K) (o ++ [x])
    ∧ next_node_id d' = (next_node_id b.(document) + 1)%N ∧ d'.(doc_root) = b.(document).(doc_root)
    ∧ data d' (next_node_id (document b)) = Ok (NText s) ∧ keeps_data b.(document) d'))
    as (b' & Hre & Hbt & d' & Hd & HF' & Hnx & Hrt & Hdn & Hk).
  - apply HF.
  - cbn. unfold plain_text in Hp. by apply andb_true_iff in Hp as [-> _].
  - exact Hb.
  - intros _ _. by eapply Hrest.
  - intros k HIk. assert (Flow (set_tokenizer k b) K (o ++ [x])) as HFk.
    { apply (Flow_fields b); try done; apply HF. }
    destruct (text_flow (set_tokenizer k b) K o x s HFk) as (d' & Hst & HR' & Hnx & Hrt & Hdn & Hk);
      [cbn; lia|done|by apply (Hlast (Tx s))|].
    unfold tb_step. cbn [is_character]. unfold dispatch. rewrite (fl_mode _ _ _ HFk), Hst. cbn [mbind res_bind finish].
    eexists; split; [done|]. split; [done|]. exists d'. split_and!; try done.
    destruct HFk as [F1 F2 F3 F4 F5 F6 F7 F8 F9]. split; try done. intros y Hy. destruct (F3 y Hy) as (t & a & Hdy & Hs & Hlt).
    exists t, a. split_and!; [by apply Hk|done|]. cbn in *. lia.
  - exists b', (<[x := K x ++ [next_node_id (document b)]]> K), [next_node_id (document b)]. subst d'.
    assert (x < next_node_id (document b))%N as Hxn.
    { destruct (fl_tags _ _ _ HF x) as (? & ? & _ & _ & ?); [apply elem_of_app; right; left|done]. }
    split_and!; [done..| |cbn; lia]. split; try done.
    + lia.
    + apply fn_lookup_insert.
    + intros y _ Hne. by apply fn_lookup_insert_ne.
    + constructor; [|constructor]. cbn. split; [lia|]. split; [done|]. rewrite fn_lookup_insert_ne by lia.
      apply (fresh_childless _ _ (fl_rep _ _ _ HF)).
Qed.

Lemma Flow_top_below b K o x : Flow b K (o ++ [x]) → (x < next_node_id b.(document))%N.
Proof. intros HF. destruct (fl_tags _ _ _ HF x) as (? & ? & _ & _ & ?); [apply elem_of_app; right; left|done]. Qed.

(** The start tag of an element. *)
Lemma feed_start b K o x tag attrs rest :
  Flow b K (o ++ [x]) → plain_tag tag = true → attrs_printable attrs = true →
  between b.(tokenizer) (print (StartTag tag attrs false) ++ rest) → (next_node_id b.(document) < U64_MAX)%N →
  let n := next_node_id b.(document) in let K1 := <[x := K x ++ [n]]> K in
  ∃ b1, reaches 1 b b1 ∧ between b1.(tokenizer) rest ∧ Flow b1 K1 ((o ++ [x]) ++ [n])
    ∧ next_node_id b1.(document) = (n + 1)%N ∧ b1.(document).(doc_root) = b.(document).(doc_root)
    ∧ data b1.(document) n = Ok (NElement tag attrs) ∧ keeps_data b.(document) b1.(document) ∧ K1 n = [].
Proof.
  intros HF Ht Ha Hb Hlt n K1. pose proof (Flow_top_below _ _ _ _ HF) as Hxn. fold n in Hxn.
  destruct (reaches_token b (StartTag tag attrs false) rest (λ b1, Flow b1 K1 ((o ++ [x]) ++ [n])
    ∧ next_node_id b1.(document) = (n + 1)%N ∧ b1.(document).(doc_root) = b.(document).(doc_root)
    ∧ data b1.(document) n = Ok (NElement tag attrs) ∧ keeps_data b.(document) b1.(document) ∧ K1 n = []))
    as (b1 & Hre & Hbt & HQ); [apply HF| |exact Hb|done| |by exists b1].
  { cbn. apply andb_true_iff in Ht as [-> _]. done. }
  intros k HIk. assert (Flow (set_strip false (set_tokenizer k b)) K (o ++ [x])) as HFk.
  { apply (Flow_fields b); try done; apply HF. }
  destruct (fl_tags _ _ _ HF x) as (tx & ax & Hx & _ & _); [apply elem_of_app; right; left|].
  destruct (insert_rep (set_strip false (set_tokenizer k b)) K x tag attrs) as (d' & Hi & HR' & Hnx & Hrt & Hdn & Hk & HKn).
  { apply HFk. } { unfold current_node. by rewrite (fl_open _ _ _ HFk), last_snoc. } { by eapply data_live_of. }
  { apply HFk. } { done. } { by apply ruled_among. }
  unfold tb_step. cbn [is_character]. unfold dispatch. rewrite (fl_mode _ _ _ HFk). cbn [step_in_body].
  rewrite (start_plain _ K (o ++ [x]) tag attrs HFk Ht). unfold insert_element_. rewrite Hi. cbn [mbind res_bind then_finish finish].
  eexists; split; [done|]. split; [done|]. split_and!; try done.
  - destruct HFk as [F1 F2 F3 F4 F5 F6 F7 F8 F9]. split; try done.
    + cbn. by rewrite (fl_open _ _ _ HF).
    + intros y [Hy| ->%list_elem_of_singleton]%elem_of_app.
      * destruct (F3 y Hy) as (t & a & Hdy & Hs & Hy'). exists t, a. split_and!; [by apply Hk|done|]. cbn in *. lia.
      * exists tag, attrs. split_and!; [done|by left|]. change (n < next_node_id d')%N. rewrite Hnx. change (n < n + 1)%N. lia.
  - unfold K1. rewrite fn_lookup_insert_ne; [exact HKn|]. intros E. rewrite E in Hxn. lia.
Qed.

(** Its end tag. *)
Lemma feed_end b K o x tag attrs rest :
  Flow b K (o ++ [x]) → data b.(document) x = Ok (NElement tag attrs) → plain_tag tag = true → o ≠ [] →
  between b.(tokenizer) (print (EndTag tag) ++ rest) →
  ∃ b1, reaches 1 b b1 ∧ between b1.(tokenizer) rest ∧ Flow b1 K o ∧ b1.(document) = b.(document).
Proof.
  intros HF Hx Ht Hne Hb.
  destruct (reaches_token b (EndTag tag) rest (λ b1, Flow b1 K o ∧ b1.(document) = b.(document)))
    as (b1 & Hre & Hbt & HQ); [apply HF| |exact Hb|done| |by exists b1].
  { cbn. by apply andb_true_iff in Ht as [-> _]. }
  intros k HIk. assert (Flow (set_strip false (set_tokenizer k b)) K (o ++ [x])) as HFk.
  { apply (Flow_fields b); try done; apply HF. }
  unfold tb_step. cbn [is_character]. unfold dispatch. rewrite (fl_mode _ _ _ HFk). cbn [step_in_body].
  rewrite (end_plain _ o x tag attrs); [|apply HFk|done|done]. cbn [mbind res_bind finish].
  eexists; split; [done|]. split; [done|]. split; [|done].
  destruct HFk as [F1 F2 F3 F4 F5 F6 F7 F8 F9]. split; try done. intros y Hy. apply F3. apply elem_of_app. by left.
Qed.

Lemma feeds_element tag attrs kids : feeds kids → feeds [El tag attrs kids].
Proof.
  intros IH b K o x rest HF Hp Hb Hrest _ Hn. unfold plain_forest in Hp. cbn [forallb plain] in Hp.
  rewrite !andb_true_iff in Hp. destruct Hp as [[[[[Ht Ha] Hk] Hadj] _] _].
  unfold forest_tokens in Hb |- *. cbn [fmap list_fmap mjoin list_join node_tokens] in Hb |- *. rewrite app_nil_r in Hb |- *.
  fold (forest_tokens kids) in Hb |- *. cbn [mbind list_bind] in Hb. rewrite bind_app in Hb. cbn [mbind list_bind] in Hb.
  rewrite app_nil_r, <-!app_assoc in Hb.
  assert (forest_size [El tag attrs kids] = 1 + forest_size kids)%N as Hsz by (unfold forest_size; cbn; lia).
  rewrite Hsz in Hn |- *.
  destruct (feed_start b K o x tag attrs _ HF Ht Ha Hb) as (b1 & Hr1 & Hb1 & HF1 & Hn1 & Hrt1 & Hd1 & Hk1 & HK1); [lia|].
  set (n := next_node_id (document b)) in *. set (K1 := <[x := K x ++ [n]]> K) in *.
  pose proof (Flow_top_below _ _ _ _ HF) as Hxn.
  destruct (IH b1 K1 (o ++ [x]) n (print (EndTag tag) ++ rest) HF1) as (b2 & K2 & ids & Hr2 & HF2 & Hb2 & [D1 D2 D3 D4 D5 D6] & Hn2).
  { by apply andb_true_iff. } { exact Hb1. } { right. by eexists. }
  { intros ν _ _. rewrite HK1. done. } { rewrite Hn1. lia. }
  destruct (feed_end b2 K2 (o ++ [x]) n tag attrs rest HF2) as (b3 & Hr3 & Hb3 & HF3 & Hd3).
  { by apply D4. } { done. } { by destruct o. } { exact Hb2. }
  exists b3, K2, [n]. split_and!; [|done|done| |rewrite Hd3, Hn2, Hn1; lia].
  { cbn [length]. rewrite length_app. cbn [length]. replace (S (length (forest_tokens kids) + 1)) with
      (1 + (length (forest_tokens kids) + 1)) by lia. by repeat eapply reaches_trans. }
  split; rewrite ?Hd3.
  - lia.
  - rewrite D3 by lia. unfold K1. apply fn_lookup_insert.
  - intros y Hy Hne. rewrite D3 by lia. unfold K1. by apply fn_lookup_insert_ne.
  - by eapply keeps_data_trans.
  - congruence.
  - constructor; [|constructor]. rewrite shows_El. split; [fold n; lia|]. split; [by apply D4|].
    rewrite D2, HK1. cbn [app]. eapply Forall2_impl; [exact D6|]. intros ν i. apply shows_stable; [rewrite Hn1; fold n; lia|lia|done].
Qed.

Lemma feeds_nil : feeds [].
Proof.
  intros b K o x rest HF _ Hb Hrest _ _. exists b, K, []. unfold forest_size. cbn.
  split_and!; [done..| |lia]. split; [lia|by rewrite app_nil_r|done|by intros ? ?|done|constructor].
Qed.

Lemma feeds_app n f : feeds [n] → feeds f → feeds (n :: f).
Proof.
  intros H1 H2 b K o x rest HF Hp Hb Hrest Hhd Hn.
  unfold plain_forest in Hp. cbn [forallb] in Hp. rewrite !andb_true_iff in Hp. destruct Hp as [[Hpn Hpf] Hadj].
  assert (forest_tokens (n :: f) = forest_tokens [n] ++ forest_tokens f) as Htok.
  { unfold forest_tokens. cbn. by rewrite app_nil_r. }
  assert (forest_size (n :: f) = forest_size [n] + forest_size f)%N as Hsz by (unfold forest_size; cbn; lia).
  rewrite Htok, bind_app, <-app_assoc in Hb. rewrite Hsz in Hn |- *.
  assert (no_adjacent f = true) as Hadj' by (destruct f; [done|]; by apply andb_true_iff in Hadj as [_ ?]).
  destruct (H1 b K o x ((forest_tokens f ≫= print) ++ rest) HF) as (b1 & K1 & ids1 & Hr1 & HF1 & Hb1 & D & Hn1).
  { unfold plain_forest. cbn. by rewrite Hpn. } { exact Hb. }
  { intros m [= <-] Hx. destruct f as [|m f]; [by eapply Hrest|]. cbn [no_adjacent] in Hadj. rewrite Hx in Hadj.
    destruct m as [tag attrs kids|s]; [|done]. right. by eexists. }
  { intros m [= <-]. by apply Hhd. } { lia. }
  destruct D as [D1 D2 D3 D4 D5 D6]. apply Forall2_cons_inv_l in D6 as (i & l & Hi & Hl & ->).
  apply Forall2_nil_inv_l in Hl as ->.
  destruct (H2 b1 K1 o x rest HF1) as (b2 & K2 & ids2 & Hr2 & HF2 & Hb2 & [E1 E2 E3 E4 E5 E6] & Hn2).
  { by apply andb_true_iff. } { exact Hb1. }
  { intros m Hm. apply Hrest. rewrite last_cons. by rewrite Hm. }
  { intros m Hm Hx. destruct f as [|m' f]; [done|]. injection Hm as ->. cbn [no_adjacent] in Hadj.
    unfold ends_in_text. rewrite D2, last_snoc. destruct n as [tag attrs kids|s].
    - apply shows_El in Hi as (_ & Hdi & _). by rewrite Hdi.
    - cbn in Hadj. by rewrite Hx in Hadj. }
  { lia. }
  exists b2, K2, (i :: ids2). split_and!; [|done|done| |lia].
  { rewrite Htok, length_app. by eapply reaches_trans. }
  pose proof (Flow_top_below _ _ _ _ HF) as Hxn. split.
  - lia.
  - by rewrite E2, D2, <-app_assoc.
  - intros y Hy Hne. rewrite E3, D3 by (done || lia). done.
  - by eapply keeps_data_trans.
  - congruence.
  - constructor.
    + revert Hi. apply shows_stable; [lia|lia|]. intros y Hy. split; [apply E3; lia|auto].
    + eapply Forall2_impl; [exact E6|]. intros ν j. apply shows_stable; [lia|lia|done].
Qed.

Lemma feeds_all f : feeds f.
Proof.
  assert (∀ n, feeds [n]) as Hone.
  { induction n as [tag attrs kids IH|s] using node_rose_ind; [|apply feeds_text]. apply feeds_element.
    induction IH as [|n kids Hn _ IHk]; [apply feeds_nil|]. by apply feeds_app. }
  induction f as [|n f IH]; [apply feeds_nil|]. by apply feeds_app.
Qed.

(** ** Around the body *)
Record Before (b : TreeBuilder) (K : NodeId → list NodeId) (m : Mode) (o : list NodeId) (r n : NodeId) : Prop := {
  be_rep : Rep b.(document) K;
  be_root : b.(document).(doc_root) = Some r;
  be_next : next_node_id b.(document) = n;
  be_mode : b.(mode) = m;
  be_open : b.(open_elements) = o;
  be_afe : b.(active_formatting) = [];
  be_foster : b.(foster_parenting) = false;
  be_inv : Inv b.(tokenizer);
}.

Lemma Before_fields b b' K m o r n m' o' :
  Before b K m o r n → b'.(document) = b.(document) → b'.(mode) = m' → b'.(open_elements) = o' →
  b'.(active_formatting) = b.(active_formatting) → b'.(foster_parenting) = b.(foster_parenting) → Inv b'.(tokenizer) →
  Before b' K m' o' r n.
Proof. intros [] H1 H2 H3 H4 H5 H6. split; rewrite ?H1, ?H4, ?H5; done. Qed.

(** An element inserted before the body. *)
Lemma Before_insert b K m o r n p name :
  Before b K m o r n → current_node b = Ok p → live b.(document) p → (n < U64_MAX)%N → among name VOID_ELEMENTS = false →
  ∃ d', insert_element b name [] = Ok (n, set_open (o ++ [n]) (set_document d' b))
    ∧ Before (set_open (o ++ [n]) (set_document d' b)) (<[p := K p ++ [n]]> K) m (o ++ [n]) r (n + 1)
    ∧ data d' n = Ok (NElement name []) ∧ keeps_data b.(document) d' ∧ K n = [].
Proof.
  intros [B1 B2 B3 B4 B5 B6 B7 B8] Hcur Hp Hlt Hv. subst n o.
  destruct (insert_rep b K p name [] B1 Hcur Hp B7 Hlt Hv) as (d' & Hi & HR' & Hnx & Hrt & Hdn & Hk & HKn).
  exists d'. split_and!; try done. split; try done. cbn. congruence.
Qed.

(** A start tag that inserts its element and goes to another mode. *)
Lemma insert_token b K m o r n p name m' (h : NodeId → TreeBuilder → TreeBuilder) rest :
  Before b K m o r n → between b.(tokenizer) (print (StartTag name [] false) ++ rest) → tag_name_ok name = true →
  (match last o with Some x => x | None => r end) = p → (n < U64_MAX)%N → among name VOID_ELEMENTS = false →
  (∀ b, b.(mode) = m → dispatch b (StartTag name [] false)
     = '(id, b) ← insert_element b name []; finish (set_mode m' (h id b))) →
  (∀ id b, ∃ o, h id b = set_head o b) → live b.(document) p →
  ∃ b1, reaches 1 b b1 ∧ between b1.(tokenizer) rest
    ∧ (Before b1 (<[p := K p ++ [n]]> K) m' (o ++ [n]) r (n + 1) ∧ data b1.(document) n = Ok (NElement name [])
    ∧ keeps_data b.(document) b1.(document) ∧ K n = []
    ∧ b1.(strip_leading_newline) = false ∧ b1.(just_saw_dropped_comment_or_doctype) = false).
Proof.
  intros B Hb Hname Hp Hlt Hv Hdisp Hh Hlp.
  apply (reaches_token b (StartTag name [] false) rest); [apply B|cbn; by rewrite Hname|exact Hb|done|].
  intros k HIk. unfold tb_step. cbn [is_character]. set (b0 := set_strip false (set_tokenizer k b)).
  assert (Before b0 K m o r n) as B0 by (destruct B; by eapply Before_fields; [split|..]).
  rewrite Hdisp by apply B0.
  destruct (Before_insert b0 K m o r n p name B0) as (d' & -> & B' & Hd' & Hk' & HKn); try done.
  { unfold current_node. rewrite (be_open _ _ _ _ _ _ B0). destruct (last o); [by subst p|].
    unfold root. rewrite (be_root _ _ _ _ _ _ B0). by subst p. }
  cbn [mbind res_bind finish]. destruct (Hh n (set_open (o ++ [n]) (set_document d' b0))) as [ho ->].
  eexists; split; [done|]. split; [done|]. split_and!; try done. by eapply Before_fields; [exact B'|..].
Qed.

(** A token that only changes the mode or the stack. *)
Lemma still_token b K m o r n t m' o' rest :
  Before b K m o r n → between b.(tokenizer) (print t ++ rest) → printable t = true → (∀ s, t ≠ Character s) →
  (∀ b, b.(mode) = m → b.(open_elements) = o → ∃ b', dispatch b t = finish b' ∧ b'.(document) = b.(document)
     ∧ b'.(mode) = m' ∧ b'.(open_elements) = o' ∧ b'.(active_formatting) = b.(active_formatting)
     ∧ b'.(foster_parenting) = b.(foster_parenting) ∧ b'.(tokenizer) = b.(tokenizer)) →
  ∃ b1, reaches 1 b b1 ∧ between b1.(tokenizer) rest ∧ (Before b1 K m' o' r n ∧ b1.(document) = b.(document)).
Proof.
  intros B Hb Hp Hnc Hd. apply (reaches_token b t rest); [apply B|done|exact Hb|by intros s ->; destruct (Hnc s)|].
  intros k HIk. unfold tb_step. set (b0 := if is_character t then _ else _).
  assert (Before b0 K m o r n ∧ b0.(tokenizer) = k ∧ b0.(document) = b.(document)) as (B0 & Hk & Hd0).
  { unfold b0. destruct (is_character t); (split; [|done]); destruct B; by eapply Before_fields; [split|..]. }
  destruct (Hd b0) as (b' & -> & H1 & H2 & H3 & H4 & H5 & H6); [apply B0..|]. cbn [mbind res_bind finish].
  eexists; split; [done|]. split; [cbn; congruence|]. split; [|cbn; congruence].
  eapply Before_fields; try done. cbn. rewrite H6. apply B0.
Qed.

(** The page's tokens before the forest. *)
Lemma prologue s rest n b0 :
  tb_new s n = Ok b0 → (n + 4 ≤ U64_MAX)%N → between b0.(tokenizer) (((take 5 (page_tokens [])) ≫= print) ++ rest) →
  ∃ b K, reaches 5 b0 b ∧ between b.(tokenizer) rest ∧ Flow b K ([n + 1] ++ [n + 3])%N
    ∧ next_node_id b.(document) = (n + 4)%N ∧ b.(document).(doc_root) = Some n
    ∧ data b.(document) (n + 1) = Ok (NElement (str "html") []) ∧ data b.(document) (n + 2) = Ok (NElement (str "head") [])
    ∧ data b.(document) (n + 3) = Ok (NElement (str "body") [])
    ∧ K n = [n + 1]%N ∧ K (n + 1)%N = [n + 2; n + 3]%N ∧ K (n + 2)%N = [] ∧ K (n + 3)%N = [].
Proof.
  intros Hb0 Hn T0. unfold tb_new in Hb0. apply bind_Ok in Hb0 as (d & Hd & Hb0). apply Ok_inj in Hb0.
  destruct (new_continuing_from_Ok n d Hd) as (HR & Hnx & Hrt & Hnodes).
  assert (Before b0 (λ _, []) Initial [] n (n + 1)) as B0 by (subst b0; split; try done; apply new_Inv).
  assert (live b0.(document) n) as L0 by (subst b0; cbn; unfold live; by rewrite Hnodes, lookup_singleton_eq).
  clear Hb0 HR Hnodes Hrt Hnx Hd. cbn [take page_tokens app mbind list_bind] in T0. rewrite <-!app_assoc, app_nil_l in T0.
  destruct (still_token b0 _ _ _ _ _ Doctype BeforeHtml [] _ B0 T0 eq_refl) as (b1 & R1 & T1 & B1 & E1); [done| |].
  { intros b Hm Ho. unfold dispatch. rewrite Hm. by eexists. }
  destruct (insert_token b1 _ _ _ _ _ n (str "html") BeforeHead (λ _ b, b) _ B1 T1) as (b2 & R2 & T2 & B2 & D2 & P2 & _);
    [done|done|lia|done| | |by rewrite E1|].
  { intros b Hm. unfold dispatch. rewrite Hm.
    change (step_before_html b (StartTag (str "html") [] false)) with
      (b ← insert_element_ b (str "html") []; finish (set_mode BeforeHead b)).
    unfold insert_element_. by destruct (insert_element b (str "html") []) as [[? ?]| |]. }
  { intros _ b. exists b.(head_element). by destruct b. }
  destruct (insert_token b2 _ _ _ _ _ (n + 1)%N (str "head") InHead (λ id b, set_head (Some id) b) _ B2 T2)
    as (b3 & R3 & T3 & B3 & D3 & P3 & _); [done|done|lia|done| |by eexists|by eapply data_live_of|].
  { intros b Hm. unfold dispatch. by rewrite Hm. }
  destruct (still_token b3 _ _ _ _ _ (EndTag (str "head")) AfterHead [n + 1]%N _ B3 T3 eq_refl) as (b4 & R4 & T4 & B4 & E4);
    [done| |].
  { intros b Hm Ho. unfold dispatch. rewrite Hm. eexists. split; [reflexivity|]. cbn. by rewrite Ho. }
  destruct (insert_token b4 _ _ _ _ _ (n + 1)%N (str "body") InBody (λ _ b, b) rest B4 T4)
    as (b5 & R5 & T5 & B5 & D5 & P5 & _ & S5 & J5); [done|done|lia|done| | |rewrite E4; by eapply data_live_of, P3|].
  { intros b Hm. unfold dispatch. rewrite Hm.
    change (step_after_head b (StartTag (str "body") [] false)) with
      (b ← insert_element_ b (str "body") []; finish (set_mode InBody b)).
    unfold insert_element_. by destruct (insert_element b (str "body") []) as [[? ?]| |]. }
  { intros _ b. exists b.(head_element). by destruct b. }
  rewrite E4 in P5.
  replace (n + 1 + 1)%N with (n + 2)%N in * by lia. replace (n + 2 + 1)%N with (n + 3)%N in * by lia.
  replace (n + 3 + 1)%N with (n + 4)%N in * by lia.
  eexists b5, _. split; [exact (reaches_trans _ _ _ _ _ R1 (reaches_trans _ _ _ _ _ R2 (reaches_trans _ _ _ _ _ R3
    (reaches_trans _ _ _ _ _ R4 R5))))|]. split; [exact T5|].
  assert (data b5.(document) (n + 1) = Ok (NElement (str "html") [])) as D2' by (by apply P5, P3).
  destruct B5 as [C1 C2 C3 C4 C5 C6 C7 C8]. split.
  - split; try done. intros y [->%list_elem_of_singleton| ->%list_elem_of_singleton]%elem_of_app.
    + exists (str "html"), []. split_and!; [done|by right; left|]. rewrite C3. lia.
    + exists (str "body"), []. split_and!; [done|by right; right|]. rewrite C3. lia.
  - split_and!; try done; [by apply P5|..].
    all: repeat first [rewrite fn_lookup_insert|rewrite fn_lookup_insert_ne by lia]; done.
Qed.

(** The page as a tree. *)
Definition page_tree (f : list node) : node :=
  El (str "html") [] [El (str "head") [] []; El (str "body") [] f].

(** ** Printability *)
Lemma forallb_mjoin {A} (p : A → bool) (ls : list (list A)) : forallb p (mjoin ls) = forallb (forallb p) ls.
Proof.
  induction ls as [|l ls IH]; [done|]. change (forallb p (l ++ mjoin ls) = forallb p l && forallb (forallb p) ls).
  by rewrite forallb_app, IH.
Qed.

Lemma node_printable n : plain n = true → forallb printable (node_tokens n) = true.
Proof.
  induction n as [tag attrs kids IH|s] using node_rose_ind.
  - cbn [plain node_tokens forallb printable]. rewrite !andb_true_iff. intros [[[[Ht _]%andb_true_iff Ha] Hk] _].
    split; [by rewrite Ht|]. rewrite forallb_app, andb_true_iff. split; [|cbn; by rewrite Ht].
    rewrite forallb_mjoin. induction IH as [|n kids Hn _ IHk]; [done|]. cbn in *. apply andb_true_iff in Hk as [H1 H2].
    by rewrite Hn, IHk.
  - cbn. unfold plain_text. by intros [-> _]%andb_true_iff.
Qed.

Lemma page_printable f : plain_forest f = true → forallb printable (page_tokens f) = true.
Proof.
  intros [Hf _]%andb_true_iff. unfold page_tokens, forest_tokens. rewrite !forallb_app, !andb_true_iff.
  split; [done|]. split; [|done]. rewrite forallb_mjoin. induction f as [|n f IH]; [done|].
  cbn in *. apply andb_true_iff in Hf as [H1 H2]. rewrite node_printable by done. by apply IH.
Qed.

Lemma print_length t : printable t = true → 1 ≤ length (print t).
Proof.
  destruct t as [| |n a sc|n|s|]; cbn [print printable]; try done; try (intros; cbn; lia).
  intros [_ Hne%bool_decide_eq_true]%andb_true_iff. destruct s as [|c s]; [done|]. unfold escape. cbn [mbind list_bind].
  rewrite length_app. assert (1 ≤ length (escape_char false c)); [|lia]. unfold escape_char. repeat case_match; cbn; lia.
Qed.

Lemma tokens_length ts : forallb printable ts = true → length ts ≤ length (ts ≫= print).
Proof.
  induction ts as [|t ts IH]; [done|]. cbn [forallb mbind list_bind length]. intros [Ht Hts]%andb_true_iff.
  rewrite length_app. pose proof (print_length t Ht). specialize (IH Hts). cbn in IH. lia.
Qed.

Lemma markup_normal f : plain_forest f = true → replace_cr (replace_crlf (page_markup f)) = page_markup f.
Proof.
  intros Hf. apply normalize_no_cr. unfold page_markup. rewrite no_cr_bind.
  apply page_printable in Hf. revert Hf. apply forallb_impl, print_no_cr.
Qed.

(** ** The end of the page *)
Lemma eof_token k : Inv k → between k [] → ∃ k', next_token k = Ok (Eof, k').
Proof.
  intros HI (pre & ls & te & sc & ta & ->). eexists. apply (runs_next _ _ HI). apply runs_inr.
  unfold step, step_data. cbn [state content_model cfg]. by rewrite peek_cfg_nil.
Qed.

Lemma epilogue b K h bd r :
  Flow b K ([h] ++ [bd]) → b.(document).(doc_root) = Some r → data b.(document) bd = Ok (NElement (str "body") []) →
  between b.(tokenizer) ([EndTag (str "body"); EndTag (str "html")] ≫= print) →
  ∃ b', b'.(document) = b.(document) ∧ ∀ F fuel, iterate (3 + fuel) (run_body (S F)) b = Ok b'.
Proof.
  intros [F1 F2 F3 F4 F5 F6 F7 F8 F9] Hr Hbd Hb. set (n := next_node_id b.(document)).
  assert (Before b K InBody ([h] ++ [bd]) r n ∧ True) as [B0 _] by (by split; [split|]).
  cbn [mbind list_bind] in Hb. rewrite app_nil_r in Hb.
  assert (∀ k, dispatch (set_strip false (set_tokenizer k b)) (EndTag (str "body"))
    = finish (set_mode AfterBody (set_strip false (set_tokenizer k b)))) as Hd.
  { intros k. unfold dispatch. cbn [mode set_strip set_tokenizer]. rewrite F4.
    cbn [step_in_body]. unfold end_tag_in_body.
    assert (has_tag_in_scope (set_strip false (set_tokenizer k b)) (str "body") [] = Ok true) as Hsc; [|by rewrite Hsc].
    unfold has_tag_in_scope. cbn [open_elements document set_strip set_tokenizer]. rewrite F2, rev_snoc. cbn [scope_walk].
    by rewrite (tag_of_data _ _ _ _ Hbd). }
  destruct (reaches_token b (EndTag (str "body")) (print (EndTag (str "html")))
    (λ b', Before b' K AfterBody ([h] ++ [bd]) r n ∧ b'.(document) = b.(document))) as (b1 & R1 & T1 & B1 & E1);
    [done..| |].
  { intros k HIk. unfold tb_step. cbn [is_character]. rewrite Hd. cbn [mbind res_bind finish].
    eexists; split; [done|]. split; [done|]. split; [|done]. by eapply Before_fields. }
  rewrite <-(app_nil_r (print (EndTag (str "html")))) in T1.
  destruct (still_token b1 _ _ _ _ _ (EndTag (str "html")) AfterAfterBody ([h] ++ [bd]) [] B1 T1 eq_refl) as (b2 & R2 & T2 & B2 & E2);
    [done| |].
  { intros b' Hm Ho. unfold dispatch. rewrite Hm. by eexists. }
  destruct (eof_token b2.(tokenizer) (be_inv _ _ _ _ _ _ B2) T2) as [k Hk].
  eexists. split; [|].
  2: { intros F fuel. change (3 + fuel) with (1 + (1 + (1 + fuel))). rewrite R1, R2. cbn [Nat.add iterate].
       erewrite (run_body_done F b2 Eof k); [rewrite decide_True by done; reflexivity|done|].
       unfold tb_step, dispatch. cbn [is_character mode set_strip set_tokenizer]. rewrite (be_mode _ _ _ _ _ _ B2). reflexivity. }
  cbn. congruence.
Qed.

(** ** The round trip *)
Definition page_end : list N := [EndTag (str "body"); EndTag (str "html")] ≫= print.

Lemma page_end_markup : starts_markup page_end.
Proof. right. eexists. vm_compute. reflexivity. Qed.

Lemma page_markup_split f :
  page_markup f = (take 5 (page_tokens []) ≫= print) ++ (forest_tokens f ≫= print) ++ page_end.
Proof.
  unfold page_markup, page_tokens. rewrite bind_app. cbn [take app]. f_equal. by rewrite bind_app.
Qed.

Lemma parse_fuel_S s : ∃ F, parse_fuel s = S F.
Proof. unfold parse_fuel. exists (token_fuel (new_tokenizer s) + 63). lia. Qed.

Lemma page_fuel f :
  plain_forest f = true → 5 + (length (forest_tokens f) + 3) ≤ parse_fuel (page_markup f).
Proof.
  intros Hf. pose proof (tokens_length _ (page_printable f Hf)) as Hl. fold (page_markup f) in Hl.
  assert (length (page_tokens f) = 5 + (length (forest_tokens f) + 2)) as Hlen.
  { unfold page_tokens. by rewrite !length_app. }
  unfold parse_fuel, token_fuel, new_tokenizer. cbn [input pos]. rewrite (markup_normal f Hf). lia.
Qed.

Lemma page_between f b0 :
  plain_forest f = true → b0.(tokenizer) = new_tokenizer (page_markup f) → between b0.(tokenizer) (page_markup f).
Proof.
  intros Hf ->. exists [], None, false, false, []. unfold new_tokenizer, cfg. cbn [app length].
  by rewrite (markup_normal f Hf).
Qed.

Lemma parse_html_run s n :
  parse_html s n = b ← tb_new s n; b ← iterate (parse_fuel s) (run_body (parse_fuel s)) b; Ok b.(document).
Proof. reflexivity. Qed.

Lemma run_chain P F l extra b0 b1 b2 b3 :
  reaches 5 b0 b1 → reaches l b1 b2 → (∀ F fuel, iterate (3 + fuel) (run_body (S F)) b2 = Ok b3) →
  P = S F → P = 5 + (l + (3 + extra)) → iterate P (run_body P) b0 = Ok b3.
Proof.
  intros R1 R2 Hrun HF Hx. rewrite HF at 2. rewrite Hx. unfold reaches in *. rewrite R1, R2. apply Hrun.
Qed.

Lemma parse_html_Ok s n b0 b :
  tb_new s n = Ok b0 → iterate (parse_fuel s) (run_body (parse_fuel s)) b0 = Ok b → parse_html s n = Ok b.(document).
Proof. intros H0 H. rewrite parse_html_run, H0. cbn [mbind res_bind]. by rewrite H. Qed.

(** The run over a page's tokens is within the bound. *)
Lemma page_run f n b0 b1 b2 b3 :
  plain_forest f = true → tb_new (page_markup f) n = Ok b0 → reaches 5 b0 b1 → reaches (length (forest_tokens f)) b1 b2 →
  (∀ F fuel, iterate (3 + fuel) (run_body (S F)) b2 = Ok b3) →
  parse_html (page_markup f) n = Ok b3.(document).
Proof.
  intros Hf Hb0 R1 R2 Hrun. apply (parse_html_Ok _ n b0); [done|].
  destruct (parse_fuel_S (page_markup f)) as [F HF]. pose proof (page_fuel f Hf) as Hfuel.
  apply Nat.le_exists_sub in Hfuel as (extra & Hx & _).
  eapply (run_chain _ F (length (forest_tokens f)) extra); [exact R1|exact R2|exact Hrun|exact HF|].
  rewrite Hx. lia.
Qed.

(** A document that shows the parts of a page shows the page. *)
Lemma page_shown d K f n ids hi :
  K (n + 1)%N = [n + 2; n + 3]%N → K (n + 2)%N = [] → K (n + 3)%N = ids → (n + 4 ≤ hi)%N →
  data d (n + 1) = Ok (NElement (str "html") []) → data d (n + 2) = Ok (NElement (str "head") []) →
  data d (n + 3) = Ok (NElement (str "body") []) → Forall2 (shows d K (n + 4) hi) f ids →
  shows d K n hi (page_tree f) (n + 1).
Proof.
  intros K1 K2 K3 Hhi D1 D2 D3 Hf. unfold page_tree.
  rewrite shows_El, K1. split; [lia|]. split; [done|]. constructor; [|constructor; [|constructor]].
  - rewrite shows_El, K2. split; [lia|]. split; [done|constructor].
  - rewrite shows_El, K3. split; [lia|]. split; [done|].
    eapply Forall2_impl; [exact Hf|]. intros ν i. apply shows_stable; [lia|lia|done].
Qed.

(** The document that parsing the markup of a page returns. *)
Lemma page_parsed f n :
  plain_forest f = true → (n + (4 + forest_size f) ≤ U64_MAX)%N →
  ∃ d K hi, parse_html (page_markup f) n = Ok d ∧ Rep d K ∧ d.(doc_root) = Some n ∧ K n = [n + 1]%N
    ∧ shows d K n hi (page_tree f) (n + 1).
Proof.
  intros Hf Hn.
  assert (∃ b0, tb_new (page_markup f) n = Ok b0 ∧ b0.(tokenizer) = new_tokenizer (page_markup f)) as (b0 & Hb0 & Ht0).
  { destruct (new_continuing_from_spec n) as (d & Hd & _); [lia|]. unfold tb_new. rewrite Hd. by eexists. }
  pose proof (page_between f b0 Hf Ht0) as Hbt. rewrite page_markup_split in Hbt.
  destruct (prologue _ _ n b0 Hb0 ltac:(lia) Hbt) as (b1 & K1 & R1 & T1 & F1 & N1 & Rt1 & D1 & D2 & D3 & KA & KB & KC & KD).
  destruct (feeds_all f b1 K1 [n + 1]%N (n + 3)%N page_end F1 Hf T1) as (b2 & K2 & ids & R2 & F2 & T2 & [E1 E2 E3 E4 E5 E6] & N2).
  { intros _ _ _. apply page_end_markup. } { intros _ _ _. by rewrite KD. } { rewrite N1. lia. }
  destruct (epilogue b2 K2 (n + 1)%N (n + 3)%N n F2) as (b3 & Hd3 & Hrun); [congruence|by apply E4|exact T2|].
  exists b2.(document), K2, (next_node_id b2.(document)). rewrite <-Hd3 at 1.
  split; [by apply (page_run f n b0 b1 b2 b3)|].
  pose proof (fl_rep _ _ _ F2) as HR. split; [done|]. split; [congruence|].
  assert (∀ y, (y < n + 3)%N → K2 y = K1 y) as HK by (intros y Hy; apply E3; [rewrite N1|]; lia).
  split; [rewrite HK by lia; by rewrite KA|]. rewrite KD in E2. rewrite N1 in E6.
  eapply page_shown; [rewrite HK by lia; exact KB|rewrite HK by lia; exact KC|exact E2| |by apply E4..|exact E6].
  rewrite N1 in N2. lia.
Qed.

(** C4. Print and parse a page: a page whose body is any forest of elements with plain names
    (everything but the names with parsing rules of their own) and text, no two texts adjacent,
    printed as markup and parsed, returns a document from which the same forest is read back, with
    its attributes and text, below [html] and [body]. *)
Theorem parse_print f n :
  plain_forest f = true → (n + (4 + forest_size f) ≤ U64_MAX)%N →
  ∃ d h, parse_html (page_markup f) n = Ok d ∧ d.(doc_root) = Some n ∧ children d n = Ok [h]
    ∧ read_node (node_height (page_tree f)) d h = Ok (page_tree f).
Proof.
  intros Hf Hn. destruct (page_parsed f n Hf Hn) as (d & K & hi & Hd & HR & Hroot & HK & Hs).
  exists d, (n + 1)%N. split; [done|]. split; [done|]. split; [|by apply (shows_read d K n hi)].
  rewrite (children_K _ _ _ HR); [by rewrite HK|]. apply root_live; [by exists K|done].
Qed.

Definition sample_forest : list node :=
  [Tx (str "a & b"); El (str "div") [(str "id", str "x")] [El (str "span") [] [Tx (str "<c>")]]; El (str "ul") [] []].

Lemma parse_print_witness :
  ∃ d h, parse_html (page_markup sample_forest) 7 = Ok d ∧ d.(doc_root) = Some 7%N ∧ children d 7 = Ok [h]
    ∧ read_node (node_height (page_tree sample_forest)) d h = Ok (page_tree sample_forest).
Proof. apply (parse_print sample_forest 7); [vm_compute; reflexivity|vm_compute; discriminate]. Defined.
