(* ===== verification/CssTokenizer.v ===== *)
(** * The CSS tokenizer ([core/css/src/tokenizer.rs])

    The tokenizer's state is what is left of its input: the code looks at and after [pos] only,
    so [rest] stands for [input[pos..]], [peek] is its head and [peek_at k] its [k]-th element. *)

From S2P Require Import Prelude Float.

(** ** Tokens *)
Inductive Token :=
  | Ident (s : list N)
  | AtKeyword (s : list N)
  | Hash (s : list N)
  | QuotedString (s : list N)
  | Number (n : f64)
  | Percentage (n : f64)
  | Dimension (n : f64) (unit_ : list N)
  | Whitespace
  | Colon
  | Semicolon
  | Comma
  | LeftBrace
  | RightBrace
  | LeftParen
  | RightParen
  | LeftBracket
  | RightBracket
  | Delim (c : N)
  | Eof.

#[export] Instance Token_eq_dec : EqDecision Token.
Proof. solve_decision. Defined.

(** Every non-ASCII character belongs to identifiers, so the Unicode classes of
    [char::is_alphabetic] and [char::is_alphanumeric] matter on ASCII only. *)
Definition is_ident_start (c : N) : bool :=
  is_ascii_alphabetic c || (c =? ch "_")%N || (c =? ch "-")%N || negb (is_ascii c).
Definition is_ident_continue (c : N) : bool :=
  is_ascii_alphanumeric c || (c =? ch "_")%N || (c =? ch "-")%N || negb (is_ascii c).

(** [peek_at(k).is_some_and(f)]. *)
Definition some_and (f : N → bool) (o : option N) : bool :=
  match o with Some c => f c | None => false end.
Definition is_char (x : string) (o : option N) : bool := some_and (N.eqb (ch x)) o.

(** ** Comments and strings *)

(** The loop of [skip_comment], after the opening delimiter. *)
Fixpoint comment_rest (s : list N) : list N :=
  match s with
  | [] => []
  | c :: s' => if (c =? ch "*")%N && is_char "/" (s' !! 0) then drop 1 s' else comment_rest s'
  end.
Definition skip_comment (s : list N) : list N := comment_rest (drop 2 s).

(** The loop of [consume_string] after the opening quote. *)
Fixpoint string_loop (quote : N) (s : list N) : list N * list N :=
  match s with
  | [] => ([], [])
  | c :: s' =>
      if (c =? quote)%N then ([], s')
      else if (c =? BACKSLASH)%N then
        match s' with
        | [] => ([], [])
        | escaped :: s'' => let '(b, r) := string_loop quote s'' in (escaped :: b, r)
        end
      else let '(b, r) := string_loop quote s' in (c :: b, r)
  end.
Definition consume_string (s : list N) : res (Token * list N) :=
  quote ← unwrap (s !! 0);
  let '(b, r) := string_loop quote (drop 1 s) in Ok (QuotedString b, r).

(** [while let Some(c) = self.peek() { if f(c) { push } else { break } }]. *)
Definition span_while (f : N → bool) (s : list N) : list N * list N :=
  let b := take_while f s in (b, drop (length b) s).

Definition consume_hash (s : list N) : Token * list N :=
  let '(b, r) := span_while is_ident_continue (drop 1 s) in (Hash b, r).
Definition consume_at_keyword (s : list N) : Token * list N :=
  let '(b, r) := span_while is_ident_continue (drop 1 s) in (AtKeyword b, r).
Definition consume_ident_like (s : list N) : Token * list N :=
  let '(b, r) := span_while is_ident_continue s in (Ident b, r).

(** ** Numbers *)
Definition numeric_sign (s : list N) : list N * list N :=
  match s with
  | c :: s' => if (c =? ch "+")%N || (c =? ch "-")%N then ([c], s') else ([], s)
  | [] => ([], s)
  end.
Definition numeric_fraction (s : list N) : list N * list N :=
  if is_char "." (s !! 0) && some_and is_ascii_digit (s !! 1) then
    let '(ds, r) := span_while is_ascii_digit (drop 1 s) in (ch "." :: ds, r)
  else ([], s).

Definition consume_numeric (s : list N) : Token * list N :=
  let '(sign, s) := numeric_sign s in
  let '(whole, s) := span_while is_ascii_digit s in
  let '(frac, s) := numeric_fraction s in
  let value := default f64_zero (parse_f64 (sign ++ whole ++ frac)) in
  if is_char "%" (s !! 0) then (Percentage value, drop 1 s)
  else if some_and is_ident_start (s !! 0) then
    let '(unit_, r) := span_while is_ident_continue s in (Dimension value (lowercase unit_), r)
  else (Number value, s).

Definition starts_ident_after_minus (s : list N) : bool :=
  match s !! 1 with
  | Some c => is_ident_start c || (c =? ch "-")%N
  | None => false
  end.

(** ** The next token *)

(** One turn of the loop that skips whitespace and comments; the flag is
    [saw_whitespace_char]. *)
Definition space_step (st : bool * list N) : res (bool * list N + bool * list N) :=
  let '(saw, s) := st in
  match s with
  | c :: s' =>
      if is_whitespace c then Ok (inl (true, s'))
      else if (c =? ch "/")%N && is_char "*" (s' !! 0) then Ok (inl (saw, skip_comment s))
      else Ok (inr (saw, s))
  | [] => Ok (inr (saw, s))
  end.
Definition skip_space (s : list N) : res (bool * list N) :=
  iterate (S (length s)) space_step (false, s).

(** The single-character tokens, in the order of the match. *)
Definition punctuation (c : N) : Token :=
  if (c =? ch ":")%N then Colon else if (c =? ch ";")%N then Semicolon
  else if (c =? ch ",")%N then Comma else if (c =? ch "{")%N then LeftBrace
  else if (c =? ch "}")%N then RightBrace else if (c =? ch "(")%N then LeftParen
  else if (c =? ch ")")%N then RightParen else if (c =? ch "[")%N then LeftBracket
  else if (c =? ch "]")%N then RightBracket else Delim c.

Definition token_at (s : list N) : res (Token * list N) :=
  match s with
  | [] => Ok (Eof, s)
  | c :: s' =>
      if (c =? DQUOTE)%N || (c =? ch "'")%N then consume_string s
      else if (c =? ch "#")%N then Ok (consume_hash s)
      else if (c =? ch "@")%N then Ok (consume_at_keyword s)
      else if is_ascii_digit c then Ok (consume_numeric s)
      else if (c =? ch ".")%N && some_and is_ascii_digit (s' !! 0) then Ok (consume_numeric s)
      else if (c =? ch "+")%N
              && some_and (λ d, is_ascii_digit d || (d =? ch ".")%N) (s' !! 0) then
        Ok (consume_numeric s)
      else if (c =? ch "-")%N
              && some_and (λ d, is_ascii_digit d || (d =? ch ".")%N) (s' !! 0) then
        Ok (consume_numeric s)
      else if (c =? ch "-")%N && starts_ident_after_minus s then Ok (consume_ident_like s)
      else if negb (c =? ch "-")%N && is_ident_start c then Ok (consume_ident_like s)
      else Ok (punctuation c, s')
  end.

Definition next_token (s : list N) : res (Token * list N) :=
  '(saw, s) ← skip_space s;
  if saw : bool then Ok (Whitespace, s) else token_at s.

(** ** The whole input *)
Definition tokenize_step (st : list Token * list N) : res (list Token * list N + list Token) :=
  let '(toks, s) := st in
  '(tok, s) ← next_token s;
  if decide (tok = Eof) then Ok (inr toks) else Ok (inl (toks ++ [tok], s)).

Definition tokenize (s : list N) : res (list Token) :=
  iterate (S (length s)) tokenize_step ([], s).

Example tokenize_rule :
  tokenize (str "a.b { color:#fff; margin:-.5em 10% }")
  = Ok [Ident (str "a"); Delim (ch "."); Ident (str "b"); Whitespace; LeftBrace; Whitespace;
        Ident (str "color"); Colon; Hash (str "fff"); Semicolon; Whitespace;
        Ident (str "margin"); Colon; Dimension (SFopp (f64_div (f64_of_Z 1) (f64_of_Z 2))) (str "em");
        Whitespace; Percentage (f64_of_Z 10); Whitespace; RightBrace].
Proof. vm_compute. reflexivity. Qed.

Example tokenize_comment : tokenize (str "/*x*/ /*y*/+.") = Ok [Whitespace; Number f64_zero; Delim (ch ".")].
Proof. vm_compute. reflexivity. Qed.
