(* ===== verification/CssTokenProps.v ===== *)
(** * The CSS tokenizer always ends, and collapses whitespace *)

From S2P Require Import Prelude Float CssTokenizer.

(** ** Progress: what each consumer leaves is shorter *)
Lemma comment_rest_length s : length (comment_rest s) ≤ length s.
Proof.
  induction s as [|c s IH]; cbn; [done|]. case_match; [rewrite length_drop; lia|lia].
Qed.

Lemma skip_comment_length s : 2 ≤ length s → length (skip_comment s) < length s.
Proof.
  intros Hs. unfold skip_comment. pose proof (comment_rest_length (drop 2 s)) as H.
  rewrite length_drop in H. lia.
Qed.

Lemma string_loop_length q s : length (string_loop q s).2 ≤ length s.
Proof.
  induction s as [s IH] using (induction_ltof1 _ (@length N)). unfold ltof in IH.
  destruct s as [|c s]; cbn; [done|]. case_match; [cbn; lia|]. case_match.
  - destruct s as [|e s]; [cbn; lia|]. specialize (IH s). destruct (string_loop q s). cbn in *. lia.
  - specialize (IH s). destruct (string_loop q s). cbn in *. lia.
Qed.

Lemma span_while_length f s : length (span_while f s).2 ≤ length s.
Proof. cbn. rewrite length_drop. lia. Qed.

Lemma span_while_head f s c : s !! 0 = Some c → f c = true → length (span_while f s).2 < length s.
Proof.
  destruct s as [|x s]; cbn; [done|]. intros [= ->] Hf. rewrite Hf. cbn. rewrite length_drop. lia.
Qed.

Lemma is_char_Some x o : is_char x o = true → o = Some (ch x).
Proof. destruct o; cbn; [|done]. by intros <-%N.eqb_eq. Qed.

Lemma numeric_fraction_length s : length (numeric_fraction s).2 ≤ length s.
Proof.
  unfold numeric_fraction. case_match; [|done]. pose proof (span_while_length is_ascii_digit (drop 1 s)) as Hlen.
  destruct (span_while _ _). cbn in *. rewrite length_drop in Hlen. lia.
Qed.

Lemma numeric_fraction_dot s :
  some_and is_ascii_digit ((ch "." :: s) !! 1) = true → length (numeric_fraction (ch "." :: s)).2 ≤ length s.
Proof.
  intros Hd. unfold numeric_fraction. rewrite Hd. change (is_char "." _) with true. cbn [andb].
  change (drop 1 (ch "." :: s)) with s. pose proof (span_while_length is_ascii_digit s).
  by destruct (span_while is_ascii_digit s).
Qed.

(** A number consumes its sign, its digits or its fraction. *)
Lemma consume_numeric_progress s c :
  s !! 0 = Some c →
  is_ascii_digit c = true ∨ c = ch "+" ∨ c = ch "-"
    ∨ (c = ch "." ∧ some_and is_ascii_digit (s !! 1) = true) →
  length (consume_numeric s).2 < length s.
Proof.
  intros Hc Hcase. unfold consume_numeric.
  assert (∃ s1, numeric_sign s = (s1, s) ∧ (is_ascii_digit c = true ∨ c = ch ".") ∨
    ∃ s', numeric_sign s = (s1, s') ∧ length s' < length s) as (s1 & Hs).
  { destruct s as [|x s]; [done|]. injection Hc as ->. cbn.
    destruct (_ || _) eqn:E.
    - exists [c]. right. eexists; split; [done|]. lia.
    - exists []. left. split; [done|]. destruct Hcase as [?|[->|[->|[-> _]]]]; (done || auto). }
  assert (length (numeric_fraction (span_while is_ascii_digit (numeric_sign s).2).2).2 < length s) as Hlt.
  { destruct Hs as [[-> Hd]|(s' & -> & Hlt)]; cbn [snd].
    2: { pose proof (numeric_fraction_length (span_while is_ascii_digit s').2).
         pose proof (span_while_length is_ascii_digit s'). lia. }
    destruct Hd as [Hd| ->].
    { pose proof (numeric_fraction_length (span_while is_ascii_digit s).2).
      pose proof (span_while_head is_ascii_digit s c Hc Hd). lia. }
    destruct Hcase as [?|[?|[?|[_ H1]]]]; try done.
    destruct s as [|x s]; [done|]. injection Hc as ->.
    apply (Nat.le_lt_trans _ (length s)); [exact (numeric_fraction_dot s H1)|cbn; lia]. }
  destruct (numeric_sign s) as [s1' s2]. cbn [snd] in Hlt. destruct (span_while is_ascii_digit s2) as [w s3].
  cbn [snd] in Hlt. destruct (numeric_fraction s3) as [fr s4]. cbn [snd] in Hlt.
  case_match; [cbn; rewrite length_drop; lia|]. case_match; [|done].
  pose proof (span_while_length is_ident_continue s4) as Hsp. destruct (span_while _ s4). cbn in *. lia.
Qed.

(** ** Space *)
Definition at_space (s : list N) : bool :=
  match s with
  | c :: s' => is_whitespace c || ((c =? ch "/")%N && is_char "*" (s' !! 0))
  | [] => false
  end.

Lemma skip_space_total s :
  ∃ saw s', skip_space s = Ok (saw, s') ∧ at_space s' = false ∧ length s' ≤ length s
    ∧ (saw = true → length s' < length s) ∧ (at_space s = false → saw = false ∧ s' = s).
Proof.
  unfold skip_space.
  destruct (iterate_total (λ _, True)
    (λ st r, at_space r.2 = false ∧ length r.2 ≤ length st.2
       ∧ (r.1 = true → st.1 = true ∨ length r.2 < length st.2)
       ∧ (at_space st.2 = false → r = st))
    (λ st, length st.2) space_step) with (S (length s)) (false, s) as ([saw s'] & Hr & Hq).
  - intros [saw u] _. unfold space_step. destruct u as [|c u]; [eexists; split; [done|]; cbn; auto|].
    destruct (is_whitespace c) eqn:Ew.
    { eexists; split; [done|]. cbn. split; [done|]. split; [lia|]. intros [saw' r] (H1 & H2 & H3 & H4).
      cbn in *. rewrite Ew. split_and!; [done|lia|right; lia|done]. }
    destruct ((c =? ch "/")%N && is_char "*" (u !! 0)) eqn:Ec.
    + apply andb_true_iff in Ec as [Ec1 Ec2]. pose proof (is_char_Some _ _ Ec2) as Hu.
      destruct u as [|d u]; [done|].
      pose proof (skip_comment_length (c :: d :: u)) as Hlt.
      eexists; split; [done|]. cbn -[skip_comment]. cbn -[skip_comment] in Hlt.
      split; [done|]. split; [lia|]. intros [saw' r] (H1 & H2 & H3 & H4). cbn -[skip_comment] in *.
      split_and!; [done|lia| |].
      * intros Hs. destruct (H3 Hs); [by left|right; lia].
      * rewrite Ec1. cbn in Ec2. rewrite Ew, Ec2. done.
    + eexists; split; [done|]. cbn. rewrite Ew. cbn in Ec. rewrite Ec. auto.
  - done.
  - cbn. lia.
  - cbn in Hq. destruct Hq as (H1 & H2 & H3 & H4). exists saw, s'. split_and!; [done..| |].
    + intros Hs. destruct (H3 Hs); [done|lia].
    + intros Hs. by injection (H4 Hs) as -> ->.
Qed.

(** ** One token *)

(** A token with content, and less input after it. *)
Definition solid (s : list N) (p : Token * list N) : Prop :=
  p.1 ≠ Whitespace ∧ p.1 ≠ Eof ∧ length p.2 < length s.

Lemma consume_numeric_kind s : (consume_numeric s).1 ≠ Whitespace ∧ (consume_numeric s).1 ≠ Eof.
Proof.
  unfold consume_numeric. destruct (numeric_sign s) as [? s1], (span_while is_ascii_digit s1) as [? s2],
    (numeric_fraction s2) as [? s3]. case_match; [done|]. case_match; [|done].
  by destruct (span_while _ s3).
Qed.

Lemma consume_numeric_solid s c :
  s !! 0 = Some c →
  is_ascii_digit c = true ∨ c = ch "+" ∨ c = ch "-"
    ∨ (c = ch "." ∧ some_and is_ascii_digit (s !! 1) = true) →
  solid s (consume_numeric s).
Proof.
  intros Hc Hcase. destruct (consume_numeric_kind s). split_and!; [done..|].
  by apply (consume_numeric_progress s c).
Qed.

Lemma span_after_one_solid (K : list N → Token) c s :
  (∀ b, K b ≠ Whitespace ∧ K b ≠ Eof) →
  solid (c :: s) (let '(b, r) := span_while is_ident_continue (drop 1 (c :: s)) in (K b, r)).
Proof.
  intros HK. pose proof (span_while_length is_ident_continue s) as Hlen.
  change (drop 1 (c :: s)) with s. destruct (span_while is_ident_continue s) as [b r].
  split_and!; [apply HK..|cbn in *; lia].
Qed.

Lemma ident_start_continue c : is_ident_start c = true → is_ident_continue c = true.
Proof.
  unfold is_ident_start, is_ident_continue, is_ascii_alphanumeric. rewrite !orb_true_iff. naive_solver.
Qed.

Lemma consume_ident_solid c s : is_ident_start c = true → solid (c :: s) (consume_ident_like (c :: s)).
Proof.
  intros Hc%ident_start_continue. unfold consume_ident_like.
  pose proof (span_while_head is_ident_continue (c :: s) c eq_refl Hc) as Hlen.
  destruct (span_while _ _) as [b r]. split_and!; done.
Qed.

Lemma punctuation_kind c : punctuation c ≠ Whitespace ∧ punctuation c ≠ Eof.
Proof. unfold punctuation. repeat case_match; done. Qed.

Lemma token_at_solid c s : ∃ p, token_at (c :: s) = Ok p ∧ solid (c :: s) p.
Proof.
  unfold token_at. destruct (_ || _).
  { change (consume_string (c :: s)) with (let '(b, r) := string_loop c s in Ok (QuotedString b, r)).
    pose proof (string_loop_length c s) as Hlen. destruct (string_loop c s) as [b r].
    eexists; split; [done|]. split_and!; [done..|cbn in *; lia]. }
  destruct (_ =? _)%N eqn:Eh; [eexists; split; [done|]; by apply span_after_one_solid|clear Eh].
  destruct (_ =? _)%N eqn:Eat; [eexists; split; [done|]; by apply span_after_one_solid|clear Eat].
  destruct (is_ascii_digit c) eqn:Ed; [eexists; split; [done|]; by apply (consume_numeric_solid _ c); auto|].
  destruct ((c =? ch ".")%N && _) eqn:E1.
  { apply andb_true_iff in E1 as [->%N.eqb_eq E1]. eexists; split; [done|].
    apply (consume_numeric_solid _ (ch ".")); [done|]. right; right; right. split; [done|exact E1]. }
  destruct ((c =? ch "+")%N && _) eqn:E2.
  { apply andb_true_iff in E2 as [->%N.eqb_eq E2]. eexists; split; [done|].
    apply (consume_numeric_solid _ (ch "+")); auto. }
  destruct ((c =? ch "-")%N && some_and _ _) eqn:E3.
  { apply andb_true_iff in E3 as [->%N.eqb_eq E3]. eexists; split; [done|].
    apply (consume_numeric_solid _ (ch "-")); auto. }
  destruct (_ && starts_ident_after_minus _) eqn:E4.
  { apply andb_true_iff in E4 as [->%N.eqb_eq E4]. eexists; split; [done|]. by apply consume_ident_solid. }
  destruct (_ && is_ident_start c) eqn:E5.
  { apply andb_true_iff in E5 as [_ E5]. eexists; split; [done|]. by apply consume_ident_solid. }
  eexists; split; [done|]. destruct (punctuation_kind c). split_and!; [done..|cbn; lia].
Qed.

(** What a call of [next_token] gives: whitespace only in front of something else, and the end
    only at the end. *)
Lemma css_next_token_total s :
  ∃ tok s', next_token s = Ok (tok, s') ∧ length s' ≤ length s
    ∧ (tok ≠ Eof → length s' < length s)
    ∧ (tok = Whitespace → at_space s' = false) ∧ (at_space s = false → tok ≠ Whitespace).
Proof.
  destruct (skip_space_total s) as (saw & s1 & Hsp & Hns & Hle & Hlt & Hid). unfold next_token.
  rewrite Hsp. cbn [mbind res_bind]. destruct saw.
  { exists Whitespace, s1. split_and!; auto. intros Hs. by destruct (Hid Hs). }
  destruct s1 as [|c s1]; [by exists Eof, []|].
  destruct (token_at_solid c s1) as ([tok s'] & -> & H1 & H2 & H3). exists tok, s'. cbn in *.
  split_and!; (done || lia).
Qed.

(** ** The whole input *)
Fixpoint no_adjacent_space (ts : list Token) : bool :=
  match ts with
  | Whitespace :: ((Whitespace :: _) as ts') => false
  | _ :: ts' => no_adjacent_space ts'
  | [] => true
  end.

Lemma no_adjacent_snoc ts tok :
  no_adjacent_space ts = true → (last ts = Some Whitespace → tok ≠ Whitespace) →
  no_adjacent_space (ts ++ [tok]) = true.
Proof.
  induction ts as [|a ts IH]; intros Hts Hl; [by destruct tok|].
  destruct ts as [|b ts].
  - cbn in *. destruct a, tok; try done. by destruct Hl.
  - assert (no_adjacent_space ((b :: ts) ++ [tok]) = true) as H.
    { apply IH; [by destruct a, b|done]. }
    destruct a, b; done.
Qed.

(** The statement of [css_tokenize_total], shared with the parser. *)
Lemma tokenize_ok s :
  ∃ toks, tokenize s = Ok toks ∧ length toks ≤ length s ∧ Eof ∉ toks
    ∧ no_adjacent_space toks = true.
Proof.
  unfold tokenize.
  destruct (iterate_total
    (λ st : list Token * list N, Eof ∉ st.1 ∧ no_adjacent_space st.1 = true
       ∧ (last st.1 = Some Whitespace → at_space st.2 = false))
    (λ st r, length r ≤ length st.1 + length st.2 ∧ Eof ∉ r ∧ no_adjacent_space r = true)
    (λ st, length st.2) tokenize_step) with (S (length s)) (@nil Token, s) as (r & Hr & Hq).
  - intros [ts u] (He & Hadj & Hlast). unfold tokenize_step.
    destruct (css_next_token_total u) as (tok & u' & -> & Hle & Hlt & Hws & Hns). cbn [mbind res_bind].
    destruct (decide (tok = Eof)) as [->|Hne]; (eexists; split; [done|]); cbn in *.
    + split_and!; [lia|done..].
    + rewrite last_snoc. split_and!.
      * rewrite elem_of_app, list_elem_of_singleton. naive_solver.
      * apply no_adjacent_snoc; auto.
      * naive_solver.
      * auto.
      * intros r (H1 & H2 & H3). rewrite length_app in H1. cbn in H1. specialize (Hlt Hne).
        split_and!; [lia|done..].
  - cbn. split_and!; [set_solver|done..].
  - cbn. lia.
  - exists r. cbn in Hq. naive_solver.
Qed.

(** Tokenizing a style sheet always ends without a panic: the result has at most one token
    per character, holds no [Eof], and never two adjacent whitespace tokens (so whitespace and
    comments in any mixture make one separator). *)
Theorem css_tokenize_total s :
  ∃ toks, tokenize s = Ok toks ∧ length toks ≤ length s ∧ Eof ∉ toks
    ∧ no_adjacent_space toks = true.
Proof. apply tokenize_ok. Qed.
