(* ===== verification/CssValue.v ===== *)
(** * CSS values ([core/css/src/value.rs])

    Types of values and the parsing of a single component.  Slicing a string at a byte offset
    inside a character is a panic, as in Rust. *)

From S2P Require Import Prelude Float CssTokenizer.

Inductive Length :=
  | Px (n : f64)
  | Em (n : f64)
  | Zero.

Inductive Color :=
  | Rgba (r g b a : N)
  | CurrentColor.

Inductive Value :=
  | VKeyword (k : list N)
  | VLength (l : Length)
  | VPercentage (p : f64)
  | VNumber (n : f64)
  | VColor (c : Color).

#[export] Instance Length_eq_dec : EqDecision Length.
Proof. solve_decision. Defined.
#[export] Instance Color_eq_dec : EqDecision Color.
Proof. solve_decision. Defined.
#[export] Instance Value_eq_dec : EqDecision Value.
Proof. solve_decision. Defined.

Definition NAMED_COLORS : list (list N * (N * N * N)) :=
  [(str "black", (0, 0, 0)); (str "white", (255, 255, 255)); (str "red", (255, 0, 0));
   (str "green", (0, 128, 0)); (str "blue", (0, 0, 255)); (str "yellow", (255, 255, 0));
   (str "gray", (128, 128, 128)); (str "grey", (128, 128, 128)); (str "silver", (192, 192, 192));
   (str "orange", (255, 165, 0)); (str "purple", (128, 0, 128)); (str "transparent", (0, 0, 0))]%N.

(** [u8::from_str_radix(s, 16).ok()]: an optional [+], then hex digits, at most 255. *)
Definition u8_from_hex (s : list N) : option N :=
  let digits :=
    match s with
    | c :: ((_ :: _) as s') => if (c =? ch "+")%N then s' else s
    | _ => s
    end in
  match digits with
  | [] => None
  | _ =>
      if forallb is_ascii_hexdigit digits then
        let v := digits_val 16 digits in if (v <=? U8_MAX)%N then Some v else None
      else None
  end.

(** [s[0..n]] and [s[n..]] by byte offset. *)
Fixpoint split_at_byte (n : nat) (s : list N) : res (list N * list N) :=
  match n, s with
  | O, _ => Ok ([], s)
  | _, [] => Panic
  | _, c :: s' =>
      if (len_utf8 c <=? n)%nat then
        '(a, b) ← split_at_byte (n - len_utf8 c) s'; Ok (c :: a, b)
      else Panic
  end.

Definition parse_hex_color (hex : list N) : res (option Color) :=
  let expand c := u8_from_hex [c; c] in
  if decide (str_len hex = 3) then
    Ok (r ← hex !! 0 ≫= expand; g ← hex !! 1 ≫= expand; b ← hex !! 2 ≫= expand;
        Some (Rgba r g b 255))
  else if decide (str_len hex = 6) then
    '(s1, rest1) ← split_at_byte 2 hex;
    match u8_from_hex s1 with
    | None => Ok None
    | Some r =>
        '(s2, rest2) ← split_at_byte 2 rest1;
        match u8_from_hex s2 with
        | None => Ok None
        | Some g =>
            '(s3, _) ← split_at_byte 2 rest2;
            Ok (b ← u8_from_hex s3; Some (Rgba r g b 255))
        end
    end
  else Ok None.

Definition parse_value (tokens : list Token) : res (option Value) :=
  match filter (λ t, t ≠ Whitespace) tokens with
  | [tok] =>
      match tok with
      | Ident name =>
          let lower := lowercase name in
          if decide (lower = str "currentcolor") then Ok (Some (VColor CurrentColor))
          else
            match list_find (λ nc, nc.1 = lower) NAMED_COLORS with
            | Some (_, (_, (r, g, b))) => Ok (Some (VColor (Rgba r g b 255)))
            | None => Ok (Some (VKeyword lower))
            end
      | Hash hex => c ← parse_hex_color hex; Ok (option_map VColor c)
      | Number n => Ok (Some (VNumber n))
      | Percentage n => Ok (Some (VPercentage n))
      | Dimension n unit_ =>
          if decide (unit_ = str "px") then Ok (Some (VLength (Px n)))
          else if decide (unit_ = str "em") then Ok (Some (VLength (Em n)))
          else Ok None
      | _ => Ok None
      end
  | _ => Ok None
  end.

Definition zero_as_length (v : Value) : option Length :=
  match v with
  | VNumber n => if f64_eqb n f64_zero then Some Zero else None
  | VLength l => Some l
  | _ => None
  end.

Example hex3 : parse_hex_color (str "1aF") = Ok (Some (Rgba 17 170 255 255)).
Proof. vm_compute. reflexivity. Qed.
Example hex6 : parse_hex_color (str "01aBff") = Ok (Some (Rgba 1 171 255 255)).
Proof. vm_compute. reflexivity. Qed.
