(* ===== verification/CssSelector.v ===== *)
(** * Selectors ([core/css/src/selector.rs]): parsing, specificity, matching

    Parsing works on the tokens before a rule's block; matching walks up the document of
    [Dom] from a node. *)

From S2P Require Import Prelude Float Dom CssTokenizer.

Inductive SimpleSelector :=
  | Universal
  | Type_ (name : list N)
  | Class_ (name : list N)
  | Id_ (name : list N)
  | AttrPresence (name : list N)
  | AttrEquals (name value : list N).

Inductive Combinator := Descendant | Child.

Record Compound := { simple_selectors : list SimpleSelector }.

Record ComplexSelector := { compounds : list Compound; combinators : list Combinator }.

#[export] Instance SimpleSelector_eq_dec : EqDecision SimpleSelector.
Proof. solve_decision. Defined.
#[export] Instance Combinator_eq_dec : EqDecision Combinator.
Proof. solve_decision. Defined.
#[export] Instance Compound_eq_dec : EqDecision Compound.
Proof. solve_decision. Defined.
#[export] Instance ComplexSelector_eq_dec : EqDecision ComplexSelector.
Proof. solve_decision. Defined.

(** ** Specificity *)

(** (id-count, class-like-count, type-count) at [u32], compared lexicographically. *)
Abbreviation Specificity := (N * N * N)%type (only parsing).

Definition count_simple (acc : Specificity) (s : SimpleSelector) : res Specificity :=
  let '(i, c, t) := acc in
  match s with
  | Id_ _ => i ← checked_add_N U32_MAX i 1; Ok (i, c, t)
  | Class_ _ | AttrPresence _ | AttrEquals _ _ => c ← checked_add_N U32_MAX c 1; Ok (i, c, t)
  | Type_ _ => t ← checked_add_N U32_MAX t 1; Ok (i, c, t)
  | Universal => Ok acc
  end.

(** A loop over a list with an accumulator that may panic. *)
Fixpoint fold_res {A B} (f : B → A → res B) (b : B) (l : list A) : res B :=
  match l with
  | [] => Ok b
  | x :: l' => b ← f b x; fold_res f b l'
  end.

Definition specificity (selector : ComplexSelector) : res Specificity :=
  fold_res (λ acc c, fold_res count_simple acc c.(simple_selectors)) (0, 0, 0)%N selector.(compounds).

(** ** Parsing *)

(** [iter().position(f)] and [iter().rposition(f)]. *)
Fixpoint position {A} (f : A → bool) (l : list A) : option nat :=
  match l with
  | [] => None
  | x :: l' => if f x then Some 0 else S <$> position f l'
  end.
Fixpoint rposition {A} (f : A → bool) (l : list A) : option nat :=
  match l with
  | [] => None
  | x :: l' =>
      match rposition f l' with
      | Some i => Some (S i)
      | None => if f x then Some 0 else None
      end
  end.

Definition not_space (t : Token) : bool := negb (bool_decide (t = Whitespace)).

Definition trim_whitespace (tokens : list Token) : list Token :=
  let start := default (length tokens) (position not_space tokens) in
  let end_ := default 0 (S <$> rposition not_space tokens) in
  if (end_ <=? start)%nat then [] else take (end_ - start) (drop start tokens).

(** [split(f)]: the parts between separators, at least one. *)
Fixpoint split_on {A} (f : A → bool) (l : list A) : list (list A) :=
  match l with
  | [] => [[]]
  | x :: l' =>
      if f x then [] :: split_on f l'
      else
        match split_on f l' with
        | [] => [[x]]
        | p :: ps => (x :: p) :: ps
        end
  end.

(** The loop of [parse_complex_selector]: the finished raw compounds, the one being filled (the
    last of the code's vector), the combinators and the pending-whitespace flag. *)
Record RawSt := MkRaw {
  raw_done : list (list Token);
  raw_last : list Token;
  raw_combs : list Combinator;
  pending_whitespace : bool;
}.

Definition raw_step (st : RawSt) (tok : Token) : RawSt :=
  if decide (tok = Whitespace) then
    MkRaw st.(raw_done) st.(raw_last) st.(raw_combs) true
  else if decide (tok = Delim (ch ">")) then
    MkRaw (st.(raw_done) ++ [st.(raw_last)]) [] (st.(raw_combs) ++ [Child]) false
  else
    let st :=
      if st.(pending_whitespace) && negb (bool_decide (st.(raw_last) = [])) then
        MkRaw (st.(raw_done) ++ [st.(raw_last)]) [] (st.(raw_combs) ++ [Descendant])
          st.(pending_whitespace)
      else st in
    MkRaw st.(raw_done) (st.(raw_last) ++ [tok]) st.(raw_combs) false.

Fixpoint simple_loop (tokens : list Token) : option (list SimpleSelector) :=
  match tokens with
  | [] => Some []
  | Ident name :: rest => cons (Type_ (lowercase name)) <$> simple_loop rest
  | Delim c :: rest =>
      if (c =? ch "*")%N then cons Universal <$> simple_loop rest
      else if (c =? ch ".")%N then
        match rest with
        | Ident name :: rest => cons (Class_ name) <$> simple_loop rest
        | _ => None
        end
      else None
  | Hash name :: rest => cons (Id_ name) <$> simple_loop rest
  | LeftBracket :: rest =>
      match rest with
      | Ident attr :: rest =>
          match rest with
          | RightBracket :: rest => cons (AttrPresence (lowercase attr)) <$> simple_loop rest
          | Delim c :: rest =>
              if (c =? ch "=")%N then
                match rest with
                | QuotedString v :: RightBracket :: rest =>
                    cons (AttrEquals (lowercase attr) v) <$> simple_loop rest
                | Ident v :: RightBracket :: rest =>
                    cons (AttrEquals (lowercase attr) v) <$> simple_loop rest
                | _ => None
                end
              else None
          | _ => None
          end
      | _ => None
      end
  | _ => None
  end.

Definition parse_simple_selectors (tokens : list Token) : option (list SimpleSelector) :=
  match tokens with [] => None | _ => simple_loop tokens end.

Definition parse_complex_selector (tokens : list Token) : option ComplexSelector :=
  match trim_whitespace tokens with
  | [] => None
  | tokens =>
      let st := foldl raw_step (MkRaw [] [] [] false) tokens in
      cs ← mapM (λ toks, Build_Compound <$> parse_simple_selectors toks)
             (st.(raw_done) ++ [st.(raw_last)]);
      Some {| compounds := cs; combinators := st.(raw_combs) |}
  end.

Definition parse_selector_list (tokens : list Token) : list ComplexSelector :=
  omap parse_complex_selector (split_on (λ t, bool_decide (t = Comma)) tokens).

(** ** Matching *)

(** [str::split_whitespace]. *)
Definition split_whitespace (s : list N) : list (list N) :=
  filter (λ w, w ≠ []) (split_on is_whitespace s).

Definition simple_matches (tag_name : list N) (attributes : list (list N * list N))
    (s : SimpleSelector) : bool :=
  match s with
  | Universal => true
  | Type_ t => bool_decide (tag_name = t)
  | Class_ c =>
      existsb (λ kv, bool_decide (kv.1 = str "class")
                     && existsb (λ cls, bool_decide (cls = c)) (split_whitespace kv.2)) attributes
  | Id_ i => existsb (λ kv, bool_decide (kv.1 = str "id") && bool_decide (kv.2 = i)) attributes
  | AttrPresence a => existsb (λ kv, bool_decide (kv.1 = a)) attributes
  | AttrEquals a v => existsb (λ kv, bool_decide (kv.1 = a) && bool_decide (kv.2 = v)) attributes
  end.

Definition compound_matches (doc : Document) (node : NodeId) (compound : Compound) : res bool :=
  dt ← data doc node;
  match dt with
  | NElement tag attrs => Ok (forallb (simple_matches tag attrs) compound.(simple_selectors))
  | _ => Ok false
  end.

(** The [while let Some(a) = ancestor] loop of the descendant case; [rec] is the recursive call
    for the compounds further left. *)
Fixpoint ancestor_loop (fuel : nat) (doc : Document) (compound : Compound)
    (rec : NodeId → res bool) (ancestor : option NodeId) : res bool :=
  match ancestor with
  | None => Ok false
  | Some a =>
      match fuel with
      | O => OutOfFuel
      | S fuel' =>
          m ← compound_matches doc a compound;
          found ← (if m : bool then rec a else Ok false);
          if found : bool then Ok true
          else p ← parent doc a; ancestor_loop fuel' doc compound rec p
      end
  end.

Fixpoint matches_from (doc : Document) (selector : ComplexSelector) (i : nat) (node : NodeId)
    : res bool :=
  match i with
  | O => Ok true
  | S i' =>
      comb ← unwrap (selector.(combinators) !! i');
      match comb with
      | Child =>
          p ← parent doc node;
          match p with
          | None => Ok false
          | Some par =>
              c ← unwrap (selector.(compounds) !! i');
              m ← compound_matches doc par c;
              if m : bool then matches_from doc selector i' par else Ok false
          end
      | Descendant =>
          p ← parent doc node;
          match p with
          | None => Ok false
          | Some _ =>
              c ← unwrap (selector.(compounds) !! i');
              ancestor_loop (walk_fuel doc) doc c (matches_from doc selector i') p
          end
      end
  end.

Definition matches (doc : Document) (node : NodeId) (selector : ComplexSelector) : res bool :=
  let n := length selector.(compounds) in
  if decide (n = 0) then Ok false
  else
    c ← unwrap (selector.(compounds) !! (n - 1));
    m ← compound_matches doc node c;
    if m : bool then matches_from doc selector (n - 1) node else Ok false.
