(* ===== verification/CssSelectorProps.v ===== *)
(** * Selector matching computes the ancestor-chain meaning of a selector

    [selected] is the meaning of a complex selector over the tree; on well-formed documents
    and parsed selectors, [matches] terminates, does not panic and decides it. *)

From S2P Require Import Prelude Float Dom DomTree DomWalk DomOps CssTokenizer CssSelector.

(** ** Parsed selectors are well formed *)
Definition wf_selector (s : ComplexSelector) : Prop :=
  length s.(compounds) = S (length s.(combinators))
  ∧ Forall (λ c, c.(simple_selectors) ≠ []) s.(compounds).

Lemma simple_loop_nonempty tok toks l : simple_loop (tok :: toks) = Some l → l ≠ [].
Proof.
  intros H. destruct tok; cbn in H; try done;
    repeat (case_match; try done);
    repeat match goal with
    | H : _ <$> _ = Some _ |- _ => apply fmap_Some in H as (? & _ & ->)
    end; done.
Qed.

Lemma raw_steps_lengths st toks :
  length st.(raw_combs) = length st.(raw_done) →
  let st' := foldl raw_step st toks in length st'.(raw_combs) = length st'.(raw_done).
Proof.
  revert st; induction toks as [|tok toks IH]; intros st Hst; [done|]. cbn. apply IH.
  unfold raw_step. repeat case_match; cbn; rewrite ?length_app; cbn; lia.
Qed.

Lemma parse_complex_selector_wf toks s : parse_complex_selector toks = Some s → wf_selector s.
Proof.
  unfold parse_complex_selector. destruct (trim_whitespace toks) as [|t ts]; [done|].
  pose proof (raw_steps_lengths (MkRaw [] [] [] false) (t :: ts) eq_refl) as Hst.
  revert Hst. generalize (foldl raw_step (MkRaw [] [] [] false) (t :: ts)). intros st Hst.
  intros (cs & Hcs & [= <-])%bind_Some. apply mapM_Some in Hcs. split; cbn.
  - rewrite <-(Forall2_length _ _ _ Hcs), length_app. cbn in *. lia.
  - apply Forall_forall. intros c (i & Hi)%list_elem_of_lookup.
    destruct (Forall2_lookup_r _ _ _ _ _ Hcs Hi) as (raw & _ & Hraw). cbn in Hraw.
    apply fmap_Some in Hraw as (l & Hl & ->). cbn. destruct raw; [done|].
    by eapply simple_loop_nonempty.
Qed.

(** Every selector that comes out of the selector parser is well formed: one combinator
    between each two compounds and no empty compound, so the indexing of the matcher is safe. *)
Theorem parsed_selectors_well_formed tokens s :
  s ∈ parse_selector_list tokens → wf_selector s.
Proof.
  unfold parse_selector_list. rewrite list_elem_of_omap. intros (toks & _ & H).
  by eapply parse_complex_selector_wf.
Qed.

Definition sample_selector : ComplexSelector :=
  {| compounds := [{| simple_selectors := [Type_ (str "x")] |}; {| simple_selectors := [Type_ (str "y")] |};
                   {| simple_selectors := [Class_ (str "z"); Id_ (str "i")] |}];
     combinators := [Child; Descendant] |}.
Definition sample_tokens : list Token :=
  [Ident (str "x"); Whitespace; Delim (ch ">"); Whitespace; Ident (str "y"); Whitespace;
   Delim (ch "."); Ident (str "z"); Hash (str "i"); Comma; Delim (ch ":")].

Lemma parsed_selectors_well_formed_witness :
  sample_selector ∈ parse_selector_list sample_tokens ∧ wf_selector sample_selector.
Proof.
  split; [vm_compute; left|]. apply (parsed_selectors_well_formed sample_tokens). vm_compute. left.
Defined.

(** ** The meaning of a selector *)
Definition simple_holds (tag : list N) (attrs : list (list N * list N)) (s : SimpleSelector) : Prop :=
  match s with
  | Universal => True
  | Type_ t => tag = t
  | Class_ c => ∃ v, (str "class", v) ∈ attrs ∧ c ∈ split_whitespace v
  | Id_ i => (str "id", i) ∈ attrs
  | AttrPresence a => ∃ v, (a, v) ∈ attrs
  | AttrEquals a v => (a, v) ∈ attrs
  end.

Definition compound_holds (d : Document) (x : NodeId) (c : Compound) : Prop :=
  ∃ r tag attrs, d.(nodes) !! x = Some r ∧ r.(r_data) = NElement tag attrs
    ∧ Forall (simple_holds tag attrs) c.(simple_selectors).

(** [selected d s i x]: the first [i + 1] compounds of [s] hold along a chain of ancestors that
    ends in [x]. *)
Inductive selected (d : Document) (s : ComplexSelector) : nat → NodeId → Prop :=
  | selected_first c x :
      s.(compounds) !! 0 = Some c → compound_holds d x c → selected d s 0 x
  | selected_child i c x p :
      s.(compounds) !! S i = Some c → compound_holds d x c →
      s.(combinators) !! i = Some Child → parent_edge d x p → selected d s i p →
      selected d s (S i) x
  | selected_descendant i c x a :
      s.(compounds) !! S i = Some c → compound_holds d x c →
      s.(combinators) !! i = Some Descendant → tc (parent_edge d) x a → selected d s i a →
      selected d s (S i) x.

Lemma existsb_elem {A} (f : A → bool) (P : A → Prop) l :
  (∀ x, f x = true ↔ P x) → existsb f l = true ↔ ∃ x, x ∈ l ∧ P x.
Proof. intros H. rewrite existsb_exists. setoid_rewrite list_elem_of_In. naive_solver. Qed.

Lemma simple_matches_holds tag attrs s : simple_matches tag attrs s = true ↔ simple_holds tag attrs s.
Proof.
  destruct s; cbn.
  - done.
  - apply bool_decide_eq_true.
  - rewrite (existsb_elem _ (λ kv, kv.1 = str "class" ∧ name ∈ split_whitespace kv.2)).
    + split; [intros ([k v] & Hin & Hk & Hc); cbn in *; subst; eauto|intros (v & ? & ?); by exists (str "class", v)].
    + intros kv. rewrite andb_true_iff, bool_decide_eq_true. apply and_iff_compat_l.
      rewrite (existsb_elem _ (λ c, c = name)); [naive_solver|]. intros; apply bool_decide_eq_true.
  - rewrite (existsb_elem _ (λ kv, kv.1 = str "id" ∧ kv.2 = name))
      by (intros; by rewrite andb_true_iff, !bool_decide_eq_true).
    split; [intros ([k v] & Hin & Hk & Hv); cbn in *; by subst|intros H; by exists (str "id", name)].
  - rewrite (existsb_elem _ (λ kv, kv.1 = name)) by (intros; apply bool_decide_eq_true).
    split; [intros ([k v] & Hin & Hk); cbn in *; subst; eauto|intros (v & ?); by exists (name, v)].
  - rewrite (existsb_elem _ (λ kv, kv.1 = name ∧ kv.2 = value))
      by (intros; by rewrite andb_true_iff, !bool_decide_eq_true).
    split; [intros ([k v] & Hin & Hk & Hv); cbn in *; by subst|intros H; by exists (name, value)].
Qed.

Lemma compound_matches_holds d x c :
  live d x → ∃ b, compound_matches d x c = Ok b ∧ (b = true ↔ compound_holds d x c).
Proof.
  intros [r Hr]. unfold compound_matches, data, index, compound_holds. rewrite Hr. cbn.
  destruct (r_data r) as [|tag attrs|] eqn:Ed;
    try (exists false; split; [done|]; split; [done|];
      intros (r' & ? & ? & [= <-] & Hd & _); congruence).
  eexists; split; [done|]. rewrite forallb_forall. setoid_rewrite <-list_elem_of_In. rewrite <-Forall_forall.
  split.
  - intros H. exists r, tag, attrs. split_and!; [done..|]. revert H.
    rewrite !Forall_forall. intros H s Hs. apply simple_matches_holds, H. done.
  - intros (r' & tag' & attrs' & [= <-] & Hd & H). rewrite Ed in Hd. injection Hd as <- <-.
    revert H. rewrite !Forall_forall. intros H s Hs. apply simple_matches_holds, H. done.
Qed.

(** ** The ancestors of a node *)
Inductive anc_list (d : Document) : option NodeId → list NodeId → Prop :=
  | anc_nil : anc_list d None []
  | anc_cons a r l :
      d.(nodes) !! a = Some r → anc_list d r.(r_parent) l → anc_list d (Some a) (a :: l).

Section Ancestors.
Context (d : Document) (K : NodeId → list NodeId) (HR : Rep d K).

Lemma parent_edge_sn x : sn (parent_edge d) x.
Proof.
  apply tc_finite_sn.
  - intros y Hy. apply (rep_acyclic _ _ HR y).
    assert (∀ a b, tc (parent_edge d) a b → tc (edge K) b a) as H.
    { induction 1 as [a b Hab|a b c Hab _ IH].
      - apply tc_once. by apply (rep_parent_edge _ _ HR).
      - eapply tc_r; [exact IH|]. by apply (rep_parent_edge _ _ HR). }
    by apply H.
  - exists (elements (dom (nodes d))). intros y Hy. apply elem_of_elements, elem_of_dom.
    apply tc_last in Hy as (z & Hz). apply (rep_parent_edge _ _ HR) in Hz.
    exact (proj1 (rep_edge_live _ _ HR _ _ Hz)).
Qed.

Lemma parent_live x r p : d.(nodes) !! x = Some r → r.(r_parent) = Some p → live d p.
Proof.
  intros Hx Hp. assert (parent_edge d x p) as He by by exists r.
  apply (rep_parent_edge _ _ HR) in He. exact (proj1 (rep_edge_live _ _ HR _ _ He)).
Qed.

Lemma anc_list_exists x : live d x → ∃ l, anc_list d (Some x) l.
Proof.
  induction (parent_edge_sn x) as [x _ IH]. intros [r Hr].
  destruct (r_parent r) as [p|] eqn:Ep.
  - destruct (IH p) as [l Hl]; [by exists r|by eapply parent_live|].
    exists (x :: l). econstructor; [done|]. by rewrite Ep.
  - exists [x]. econstructor; [done|]. rewrite Ep. constructor.
Qed.

Lemma anc_list_elem o l a : anc_list d o l → a ∈ l ↔ ∃ x, o = Some x ∧ rtc (parent_edge d) x a.
Proof.
  induction 1 as [|x r l Hx Hl IH].
  - split; [intros Ha; inversion Ha|naive_solver].
  - rewrite elem_of_cons, IH. split.
    + intros [->|(p & Hp & Hrt)]; [by eexists|]. exists x. split; [done|]. eapply rtc_l; [|done]. by exists r.
    + intros (? & [= <-] & Hrt). inversion Hrt as [|? p ? (r' & Hr' & Hp) Hrest]; subst; [by left|].
      right. exists p. rewrite Hx in Hr'. injection Hr' as <-. done.
Qed.

Lemma anc_list_live o l a : anc_list d o l → a ∈ l → live d a.
Proof. induction 1 as [|x r l Hx Hl IH]; [inversion 1|]. intros [->|?]%elem_of_cons; [by exists r|auto]. Qed.

Lemma anc_list_NoDup o l : anc_list d o l → NoDup l.
Proof.
  induction 1 as [|x r l Hx Hl IH]; constructor; [|done].
  rewrite (anc_list_elem _ _ _ Hl). intros (p & Hp & Hrt). apply (rep_acyclic _ _ HR x).
  assert (∀ a b, rtc (parent_edge d) a b → rtc (edge K) b a) as Hflip.
  { induction 1 as [|a b c Hab _ IH']; [done|]. eapply rtc_r; [exact IH'|]. by apply (rep_parent_edge _ _ HR). }
  eapply tc_rtc_l; [by apply Hflip|]. apply tc_once, (rep_parent_edge _ _ HR). by exists r.
Qed.

Lemma anc_list_length o l : anc_list d o l → length l ≤ size d.(nodes).
Proof.
  intros Hl. apply NoDup_live_length; [by eapply anc_list_NoDup|]. intros x. by apply anc_list_live with o.
Qed.

(** ** The loops *)
Lemma ancestor_loop_spec c rec (Q : NodeId → Prop) fuel o l :
  anc_list d o l → length l ≤ fuel →
  (∀ a, a ∈ l → compound_holds d a c → ∃ b, rec a = Ok b ∧ (b = true ↔ Q a)) →
  (∀ a, Q a → compound_holds d a c) →
  ∃ b, ancestor_loop fuel d c rec o = Ok b ∧ (b = true ↔ ∃ a, a ∈ l ∧ Q a).
Proof.
  intros Hl. revert fuel. induction Hl as [|x r l Hx Hl IH]; intros fuel Hfuel Hrec HQ.
  { exists false. split; [by destruct fuel|]. split; [done|]. intros (a & Ha & _). inversion Ha. }
  destruct fuel as [|fuel]; [cbn in Hfuel; lia|]. cbn [ancestor_loop].
  destruct (compound_matches_holds d x c) as (m & -> & Hm); [by exists r|]. cbn [mbind res_bind].
  assert (∃ b, (if m : bool then rec x else Ok false) = Ok b ∧ (b = true ↔ Q x)) as (b & -> & Hb).
  { destruct m; [apply Hrec; [left|by apply Hm]|]. exists false. split; [done|]. split; [done|].
    intros Hq. apply HQ in Hq. by apply Hm in Hq. }
  cbn [mbind res_bind]. destruct b.
  { exists true. split; [done|]. split; [|done]. intros _. exists x. split; [left|]. by apply Hb. }
  unfold parent, index. rewrite Hx. cbn [unwrap mbind res_bind].
  destruct (IH fuel) as (b & -> & Hb'); [cbn in Hfuel; lia|intros; apply Hrec; [by right|done]|done|].
  exists b. split; [done|]. rewrite Hb'. split.
  - intros (a & Ha & Hq). exists a. split; [by right|done].
  - intros (a & Ha & Hq). apply elem_of_cons in Ha as [->|Ha]; [by apply Hb in Hq|eauto].
Qed.

Context (s : ComplexSelector) (Hwf : wf_selector s).

Lemma compound_at i : i < length s.(compounds) → ∃ c, s.(compounds) !! i = Some c.
Proof. apply lookup_lt_is_Some_2. Qed.

Lemma selected_holds i x c : selected d s i x → s.(compounds) !! i = Some c → compound_holds d x c.
Proof. intros H Hc. destruct H; congruence. Qed.

(** The two combinators, read off the record of the node. *)
Lemma selected_child_iff i x r c :
  d.(nodes) !! x = Some r → s.(compounds) !! S i = Some c → compound_holds d x c →
  s.(combinators) !! i = Some Child →
  selected d s (S i) x ↔ ∃ p, r.(r_parent) = Some p ∧ selected d s i p.
Proof.
  intros Hx Hc Hholds Hcomb. split.
  - inversion 1 as [|? ? ? p ? ? ? (r' & Hr' & Hp) Hsel|]; subst; [|congruence].
    exists p. split; [congruence|done].
  - intros (p & Hp & Hsel). eapply selected_child; eauto. by exists r.
Qed.

Lemma selected_descendant_iff i x r c l :
  d.(nodes) !! x = Some r → s.(compounds) !! S i = Some c → compound_holds d x c →
  s.(combinators) !! i = Some Descendant → anc_list d r.(r_parent) l →
  selected d s (S i) x ↔ ∃ a, a ∈ l ∧ selected d s i a.
Proof.
  intros Hx Hc Hholds Hcomb Hl. split.
  - inversion 1 as [| |? ? ? a ? ? ? Ha Hsel]; subst; [congruence|]. exists a. split; [|done].
    apply (anc_list_elem _ _ _ Hl). inversion Ha as [? ? (r' & Hr' & Hp)|? y ? (r' & Hr' & Hp) Hrest]; subst.
    + exists a. split; [congruence|done].
    + exists y. split; [congruence|]. by apply tc_rtc.
  - intros (a & Ha & Hsel). apply (anc_list_elem _ _ _ Hl) in Ha as (p & Hp & Hrt).
    eapply selected_descendant; [done..| |done]. eapply tc_rtc_r; [apply tc_once; by exists r|done].
Qed.

Lemma matches_from_spec i x c :
  live d x → s.(compounds) !! i = Some c → compound_holds d x c →
  ∃ b, matches_from d s i x = Ok b ∧ (b = true ↔ selected d s i x).
Proof.
  revert x c; induction i as [|i IH]; intros x c [r Hx] Hc Hholds.
  { exists true. split; [done|]. split; [|done]. intros _. by econstructor. }
  apply lookup_lt_Some in Hc as Hlt. destruct Hwf as [Hlen _].
  destruct (lookup_lt_is_Some_2 s.(combinators) i) as [comb Hcomb]; [lia|].
  destruct (compound_at i) as [ci Hci]; [lia|]. cbn [matches_from]. rewrite Hcomb. cbn [unwrap mbind res_bind].
  unfold parent, index. rewrite Hx. cbn [unwrap mbind res_bind].
  destruct (anc_list_exists x) as [l0 Hl0]; [by exists r|]. inversion Hl0 as [|? r' l Hx' Hl]; subst.
  rewrite Hx in Hx'. injection Hx' as <-. pose proof (anc_list_length _ _ Hl0) as Hsize. cbn in Hsize.
  assert (∀ p, r.(r_parent) = Some p → live d p) as Hlive by (intros; by eapply parent_live).
  destruct comb; [setoid_rewrite (selected_descendant_iff i x r c l); [|done..]
                 |setoid_rewrite (selected_child_iff i x r c); [|done..]];
    destruct (r_parent r) as [p|] eqn:Ep; rewrite ?Hci; cbn [unwrap mbind res_bind].
  - apply ancestor_loop_spec; [done|unfold walk_fuel; lia| |].
    + intros a Ha Hh. apply (IH a ci); [by eapply anc_list_live|done..].
    + intros a Ha. by apply (selected_holds i).
  - exists false. split; [done|]. split; [done|]. inversion Hl. intros (a & Ha & _). inversion Ha.
  - destruct (compound_matches_holds d p ci) as (m & -> & Hm); [auto|]. cbn [mbind res_bind].
    destruct m.
    + destruct (IH p ci) as (b & -> & Hb); [auto|done|by apply Hm|]. exists b. split; [done|].
      rewrite Hb. naive_solver.
    + exists false. split; [done|]. split; [done|]. intros (p' & [= <-] & Hsel).
      apply (selected_holds i p ci) in Hsel; [|done]. by apply Hm in Hsel.
  - exists false. split; [done|]. split; [done|]. by intros (p' & ? & _).
Qed.

End Ancestors.

(** [matches] returns on well-formed inputs, and decides [selected]. *)
Lemma matches_decides d x s :
  WF d → live d x → wf_selector s →
  ∃ b, matches d x s = Ok b ∧ (b = true ↔ selected d s (length s.(combinators)) x).
Proof.
  intros [K HR] Hx Hwf. unfold matches. pose proof Hwf as [Hlen _].
  rewrite decide_False by lia. rewrite Hlen. replace (S _ - 1) with (length (combinators s)) by lia.
  destruct (lookup_lt_is_Some_2 s.(compounds) (length s.(combinators))) as [c Hc]; [lia|].
  rewrite Hc. cbn [unwrap mbind res_bind].
  destruct (compound_matches_holds d x c Hx) as (m & -> & Hm). cbn [mbind res_bind]. destruct m.
  - apply (matches_from_spec d K HR s Hwf _ x c); [done..|]. by apply Hm.
  - exists false. split; [done|]. split; [done|]. intros Hsel%(selected_holds d s _ x c); [|done].
    by apply Hm in Hsel.
Qed.

Lemma selector_decides d x s : WF d → live d x → wf_selector s → is_Ok (matches d x s).
Proof. intros Hd Hx Hs. destruct (matches_decides d x s Hd Hx Hs) as (b & Hb & _). by exists b. Qed.

(** C30. Selector matching is exactly its tree meaning: on a well-formed document and a
    well-formed selector [matches] terminates without a panic, and answers whether there is a
    chain of ancestors ending in the node along which every compound holds (a child combinator
    steps to the parent, a descendant combinator to any proper ancestor), backtracking included. *)
Theorem matches_selected d x s :
  WF d → live d x → wf_selector s →
  ∃ b, matches d x s = Ok b ∧ (b = true ↔ selected d s (length s.(combinators)) x).
Proof. apply matches_decides. Qed.

(** [x > y z] against a tree whose nearest [y] is not a child of [x]. *)
Definition backtrack_script : list doc_op :=
  [OpCreate (elem "x"); OpAppend 0 1; OpCreate (elem "y"); OpAppend 1 2; OpCreate (elem "div"); OpAppend 2 3;
   OpCreate (elem "y"); OpAppend 3 4; OpCreate (elem "z"); OpAppend 4 5]%N.
Definition backtrack_doc : Document := default default_doc (run_script backtrack_script).
Definition backtrack_selector : ComplexSelector :=
  {| compounds := (λ n, {| simple_selectors := [Type_ (str n)] |}) <$> ["x"; "y"; "z"];
     combinators := [Child; Descendant] |}.

Lemma matches_selected_witness :
  ∃ b, matches backtrack_doc 5 backtrack_selector = Ok b ∧ b = true
    ∧ (b = true ↔ selected backtrack_doc backtrack_selector 2 5).
Proof.
  destruct (matches_selected backtrack_doc 5%N backtrack_selector) as (b & Hb & Hiff).
  - apply reachable_WF, (run_script_reachable backtrack_script). vm_compute. reflexivity.
  - vm_compute. eexists; reflexivity.
  - split; [reflexivity|]. repeat constructor; discriminate.
  - exists b. split_and!; [exact Hb| |exact Hiff]. vm_compute in Hb. injection Hb as <-. reflexivity.
Defined.
