(* ===== verification/CssParser.v ===== *)
(** * The CSS parser ([core/css/src/parser.rs]): declarations, shorthands, rules

    A panic while a colour is read ([CssValue.parse_hex_color]) is a panic of the whole parse,
    so the functions below return in [res]. *)

From S2P Require Import Prelude Float CssTokenizer CssValue CssSelector.

Record Declaration := MkDeclaration { property : list N; dvalue : Value; important : bool }.
Record Rule := MkRule { selectors : list ComplexSelector; declarations : list Declaration }.

#[export] Instance Declaration_eq_dec : EqDecision Declaration.
Proof. solve_decision. Defined.
#[export] Instance Rule_eq_dec : EqDecision Rule.
Proof. solve_decision. Defined.

Definition LENGTH_VALUED_PROPERTIES : list (list N) :=
  str <$> ["width"; "height"; "margin-top"; "margin-right"; "margin-bottom"; "margin-left";
           "padding-top"; "padding-right"; "padding-bottom"; "padding-left"; "border-top-width";
           "border-right-width"; "border-bottom-width"; "border-left-width"; "top"; "right";
           "bottom"; "left"; "flex-basis"; "font-size"].

(** ** Components *)
Definition parse_component_value (property : list N) (tokens : list Token) : res (option Value) :=
  v ← parse_value tokens;
  match v with
  | None => Ok None
  | Some value =>
      if decide (property ∈ LENGTH_VALUED_PROPERTIES) then
        match zero_as_length value with
        | Some len => Ok (Some (VLength len))
        | None => Ok (Some value)
        end
      else Ok (Some value)
  end.

Definition trim_ws (tokens : list Token) : list Token := trim_whitespace tokens.

Definition expand_box_shorthand (values : list Value) : option (Value * Value * Value * Value) :=
  match values with
  | [a] => Some (a, a, a, a)
  | [a; b] => Some (a, b, a, b)
  | [a; b; c] => Some (a, b, c, b)
  | [a; b; c; d] => Some (a, b, c, d)
  | _ => None
  end.

Definition BORDER_STYLE_KEYWORDS : list (list N) :=
  str <$> ["none"; "hidden"; "solid"; "dashed"; "dotted"; "double"; "groove"; "ridge"; "inset"; "outset"].

(** [map(f).collect::<Option<Vec<_>>>()]: stops at the first [None]. *)
Fixpoint collect_option {A B} (f : A → res (option B)) (l : list A) : res (option (list B)) :=
  match l with
  | [] => Ok (Some [])
  | x :: l' =>
      v ← f x;
      match v with
      | None => Ok None
      | Some b => bs ← collect_option f l'; Ok (option_map (cons b) bs)
      end
  end.

(** The non-empty trimmed parts between whitespace tokens. *)
Definition space_components (tokens : list Token) : list (list Token) :=
  filter (λ c, c ≠ []) (trim_ws <$> split_on (λ t, bool_decide (t = Whitespace)) tokens).

Definition SIDES : list (list N) := str <$> ["top"; "right"; "bottom"; "left"].

(** [format!("{prefix}-{side}{suffix}")]. *)
Definition side_property (prefix side suffix : list N) : list N :=
  prefix ++ str "-" ++ side ++ suffix.

Definition expand_box_shorthand_property (prefix suffix : list N) (value_tokens : list Token)
    (is_length : bool) : res (list (list N * Value)) :=
  let probe_property := side_property prefix (str "top") suffix in
  components ← collect_option
    (λ c, if is_length then parse_component_value probe_property c else parse_value c)
    (space_components value_tokens);
  match components ≫= expand_box_shorthand with
  | None => Ok []
  | Some (vtop, vright, vbottom, vleft) =>
      Ok [(side_property prefix (str "top") suffix, vtop);
          (side_property prefix (str "right") suffix, vright);
          (side_property prefix (str "bottom") suffix, vbottom);
          (side_property prefix (str "left") suffix, vleft)]
  end.

(** ** The [border] shorthand *)
Record BorderParts := MkBorder {
  b_width : option Value;
  b_style : option Value;
  b_color : option Value;
}.

Definition border_component (acc : BorderParts) (component : list Token) : res BorderParts :=
  v ← parse_value component;
  Ok match v with
     | None => acc
     | Some v =>
         match v with
         | VColor _ => MkBorder acc.(b_width) acc.(b_style) (Some v)
         | VKeyword k =>
             if decide (k ∈ BORDER_STYLE_KEYWORDS) then MkBorder acc.(b_width) (Some v) acc.(b_color)
             else acc
         | VLength _ => MkBorder (Some v) acc.(b_style) acc.(b_color)
         | VNumber n =>
             if f64_eqb n f64_zero then MkBorder (Some (VLength Zero)) acc.(b_style) acc.(b_color)
             else acc
         | VPercentage _ => acc
         end
     end.

Definition border_side (parts : BorderParts) (side : list N) : list (list N * Value) :=
  let put suffix o := match o with
                      | Some v => [(side_property (str "border") side suffix, v)]
                      | None => []
                      end in
  put (str "-width") parts.(b_width) ++ put (str "-style") parts.(b_style)
  ++ put (str "-color") parts.(b_color).

Definition expand_border (value_tokens : list Token) : res (list (list N * Value)) :=
  parts ← fold_res border_component (MkBorder None None None) (space_components value_tokens);
  Ok (SIDES ≫= border_side parts).

(** ** The first family of [font-family] *)
Definition family_name (t : Token) : option (list N) :=
  match t with
  | Ident s => Some (lowercase s)
  | QuotedString s => Some (lowercase s)
  | _ => None
  end.
Fixpoint find_map {A B} (f : A → option B) (l : list A) : option B :=
  match l with
  | [] => None
  | x :: l' => match f x with Some b => Some b | None => find_map f l' end
  end.

Definition expand_property (property : list N) (value_tokens : list Token)
    : res (list (list N * Value)) :=
  if decide (property = str "margin" ∨ property = str "padding") then
    expand_box_shorthand_property property [] value_tokens true
  else if decide (property = str "border-width") then
    expand_box_shorthand_property (str "border") (str "-width") value_tokens true
  else if decide (property = str "border-style") then
    expand_box_shorthand_property (str "border") (str "-style") value_tokens false
  else if decide (property = str "border-color") then
    expand_box_shorthand_property (str "border") (str "-color") value_tokens false
  else if decide (property = str "border") then expand_border value_tokens
  else if decide (property = str "font-family") then
    match find_map family_name (trim_ws value_tokens) with
    | Some n => Ok [(str "font-family", VKeyword n)]
    | None => Ok []
    end
  else
    v ← parse_component_value property value_tokens;
    Ok match v with Some v => [(property, v)] | None => [] end.

(** ** Declarations *)

(** [if let [rest @ .., last] = tokens]. *)
Definition split_last (tokens : list Token) : option (list Token * Token) :=
  match last tokens with
  | Some t => Some (take (length tokens - 1) tokens, t)
  | None => None
  end.

(** The trailing [!important]. *)
Definition strip_important (value_tokens : list Token) : list Token * bool :=
  match split_last value_tokens with
  | Some (rest, Ident word) =>
      if str_eq_ignore_case word (str "important") then
        match split_last (trim_ws rest) with
        | Some (before, Delim c) =>
            if (c =? ch "!")%N then (trim_ws before, true) else (value_tokens, false)
        | _ => (value_tokens, false)
        end
      else (value_tokens, false)
  | _ => (value_tokens, false)
  end.

(** The closure of [filter_map]: property, value tokens, importance. *)
Definition split_declaration (decl_tokens : list Token) : option (list N * list Token * bool) :=
  match trim_ws decl_tokens with
  | Ident prop :: Colon :: rest =>
      let '(value_tokens, important) := strip_important (trim_ws rest) in
      Some (lowercase prop, value_tokens, important)
  | _ => None
  end.

Definition expand_declaration (d : list N * list Token * bool) : res (list Declaration) :=
  let '(property, value_tokens, important) := d in
  pvs ← expand_property property value_tokens;
  Ok (map (λ pv, MkDeclaration pv.1 pv.2 important) pvs).

Definition parse_declarations (tokens : list Token) : res (list Declaration) :=
  dss ← mapM expand_declaration
          (omap split_declaration (split_on (λ t, bool_decide (t = Semicolon)) tokens));
  Ok (mjoin dss).

(** ** Rules *)

(** [skip_at_rule]: what is left after the at-rule, at brace depth [depth]. *)
Fixpoint skip_at_rule (depth : nat) (tokens : list Token) : list Token :=
  match tokens with
  | [] => []
  | t :: rest =>
      match t with
      | LeftBrace => skip_at_rule (S depth) rest
      | RightBrace =>
          match depth with
          | O => rest
          | S O => rest
          | S d => skip_at_rule d rest
          end
      | Semicolon => match depth with O => rest | _ => skip_at_rule depth rest end
      | _ => skip_at_rule depth rest
      end
  end.

(** The last arm of the loop of [parse_rules]: a block with its selectors, or the end. *)
Definition block_step (rules : list Rule) (toks : list Token)
    : res (list Rule * list Token + list Rule) :=
  match position (λ t, bool_decide (t = LeftBrace)) toks with
  | None => Ok (inr rules)
  | Some brace =>
      let selector_tokens := take brace toks in
      let body := drop (S brace) toks in
      match position (λ t, bool_decide (t = RightBrace)) body with
      | None => Ok (inr rules)
      | Some close_offset =>
          let body_tokens := take close_offset body in
          let rest := drop (S close_offset) body in
          match parse_selector_list selector_tokens with
          | [] => Ok (inl (rules, rest))
          | sels =>
              ds ← parse_declarations body_tokens;
              Ok (inl (rules ++ [MkRule sels ds], rest))
          end
      end
  end.

(** One turn of the [while] loop of [parse_rules], on the tokens from [i] on. *)
Definition rules_step (st : list Rule * list Token) : res (list Rule * list Token + list Rule) :=
  let '(rules, toks) := st in
  match toks with
  | [] => Ok (inr rules)
  | Whitespace :: rest => Ok (inl (rules, rest))
  | AtKeyword _ :: rest => Ok (inl (rules, skip_at_rule 0 rest))
  | _ => block_step rules toks
  end.

Definition parse_rules (tokens : list Token) : res (list Rule) :=
  iterate (S (length tokens)) rules_step ([], tokens).

Definition parse (input : list N) : res (list Rule) :=
  toks ← tokenize input; parse_rules toks.

Example parse_sample :
  parse (str "@media x{a{b:c}} P > .q,[ ] { margin: 0 2PX !important; color:Red; x } junk")
  = Ok [MkRule [{| compounds := [{| simple_selectors := [Type_ (str "p")] |};
                                 {| simple_selectors := [Class_ (str "q")] |}];
                   combinators := [Child] |}]
          [MkDeclaration (str "margin-top") (VLength Zero) true;
           MkDeclaration (str "margin-right") (VLength (Px (f64_of_Z 2))) true;
           MkDeclaration (str "margin-bottom") (VLength Zero) true;
           MkDeclaration (str "margin-left") (VLength (Px (f64_of_Z 2))) true;
           MkDeclaration (str "color") (VColor (Rgba 255 0 0 255)) false]].
Proof. vm_compute. reflexivity. Qed.

Example parse_border :
  parse (str "a{border:solid #f00 0}")
  = Ok [MkRule [{| compounds := [{| simple_selectors := [Type_ (str "a")] |}]; combinators := [] |}]
     (SIDES ≫= λ s, [MkDeclaration (side_property (str "border") s (str "-width")) (VLength Zero) false;
                     MkDeclaration (side_property (str "border") s (str "-style")) (VKeyword (str "solid")) false;
                     MkDeclaration (side_property (str "border") s (str "-color")) (VColor (Rgba 255 0 0 255)) false])].
Proof. vm_compute. reflexivity. Qed.
