(* ===== verification/CssParserProps.v ===== *)
(** * The CSS parser: termination, panic freedom on ASCII, recovery after at-rules *)

From S2P Require Import Prelude Float CssTokenizer CssTokenProps CssValue CssSelector CssParser.

(** ** Parts of a token list hold its tokens *)
Lemma split_on_elem {A} (f : A → bool) l part x : part ∈ split_on f l → x ∈ part → x ∈ l.
Proof.
  revert part; induction l as [|y l IH]; intros part; cbn.
  { intros ->%list_elem_of_singleton. done. }
  destruct (f y).
  - intros [->|Hp]%elem_of_cons; [inversion 1|]. intros Hx. right. eauto.
  - destruct (split_on f l) as [|p ps]; intros [->|Hp]%elem_of_cons Hx.
    + apply list_elem_of_singleton in Hx as ->. left.
    + inversion Hp.
    + apply elem_of_cons in Hx as [->|Hx]; [left|]. right. apply (IH p); [left|done].
    + right. apply (IH part); [by right|done].
Qed.

Lemma trim_elem l x : x ∈ trim_ws l → x ∈ l.
Proof.
  unfold trim_ws, trim_whitespace. case_match; [inversion 1|].
  intros Hx. eapply subseteq_drop. by eapply subseteq_take.
Qed.

Lemma space_components_elem l part x : part ∈ space_components l → x ∈ part → x ∈ l.
Proof.
  unfold space_components. rewrite list_elem_of_filter, list_elem_of_fmap.
  intros (_ & p & -> & Hp) Hx%trim_elem. by eapply split_on_elem.
Qed.

Lemma split_last_elem l rest t x : split_last l = Some (rest, t) → x ∈ rest → x ∈ l.
Proof. unfold split_last. destruct (last l); [|done]. intros [= <- <-]. apply subseteq_take. Qed.

Lemma strip_important_elem l x : x ∈ (strip_important l).1 → x ∈ l.
Proof.
  unfold strip_important. repeat (case_match; cbn; try done).
  intros Hx%trim_elem. simplify_eq.
  repeat match goal with
  | H : split_last _ = Some (_, _) |- _ => eapply split_last_elem in H; [|eassumption]
  | H : _ ∈ trim_ws _ |- _ => apply trim_elem in H
  end. done.
Qed.

(** ** Colours that do not panic *)
Definition hash_ok (t : Token) : Prop :=
  match t with Hash h => is_Ok (parse_hex_color h) | _ => True end.

Lemma parse_value_ok tokens : (∀ t, t ∈ tokens → hash_ok t) → is_Ok (parse_value tokens).
Proof.
  intros Hok. unfold parse_value. destruct (filter _ tokens) as [|t [|u l]] eqn:E; try by eexists.
  assert (t ∈ tokens) as Ht.
  { assert (t ∈ filter (λ t, t ≠ Whitespace) tokens) as H by (rewrite E; left).
    by apply list_elem_of_filter in H as [_ ?]. }
  specialize (Hok t Ht). destruct t; try (by eexists); cbn in *.
  - repeat case_match; by eexists.
  - destruct Hok as [c ->]. by eexists.
  - repeat case_match; by eexists.
Qed.

Lemma parse_component_value_ok p tokens :
  (∀ t, t ∈ tokens → hash_ok t) → is_Ok (parse_component_value p tokens).
Proof.
  intros [v Hv]%parse_value_ok. unfold parse_component_value. rewrite Hv. cbn.
  repeat case_match; by eexists.
Qed.

Lemma collect_option_ok {A B} (f : A → res (option B)) l :
  (∀ x, x ∈ l → is_Ok (f x)) → is_Ok (collect_option f l).
Proof.
  induction l as [|x l IH]; intros H; cbn; [by eexists|]. destruct (H x) as [[b|] ->]; [left| |by eexists].
  cbn. destruct IH as [bs ->]; [intros; apply H; by right|]. by eexists.
Qed.

Lemma fold_res_ok {A B} (f : B → A → res B) l b :
  (∀ b x, x ∈ l → is_Ok (f b x)) → is_Ok (fold_res f b l).
Proof.
  revert b; induction l as [|x l IH]; intros b H; cbn; [by eexists|].
  destruct (H b x) as [b' ->]; [left|]. apply IH. intros. apply H. by right.
Qed.

Lemma mapM_ok {A B} (f : A → res B) l : (∀ x, x ∈ l → is_Ok (f x)) → is_Ok (mapM f l).
Proof.
  induction l as [|x l IH]; intros H; cbn; [by eexists|]. destruct (H x) as [b ->]; [left|]. cbn.
  destruct IH as [bs Hbs]; [intros; apply H; by right|]. rewrite Hbs. by eexists.
Qed.

Lemma expand_box_ok prefix suffix tokens is_length :
  (∀ t, t ∈ tokens → hash_ok t) → is_Ok (expand_box_shorthand_property prefix suffix tokens is_length).
Proof.
  intros Hok. unfold expand_box_shorthand_property.
  match goal with
  | |- context [collect_option ?f ?l] => destruct (collect_option_ok f l) as [cs Hcs]
  end; [|rewrite Hcs; cbn; by repeat case_match; eexists].
  intros c Hc. destruct is_length; [apply parse_component_value_ok|apply parse_value_ok];
    intros t Ht; by eapply Hok, space_components_elem.
Qed.

Lemma expand_property_ok p tokens : (∀ t, t ∈ tokens → hash_ok t) → is_Ok (expand_property p tokens).
Proof.
  intros Hok. unfold expand_property. repeat case_decide; try by apply expand_box_ok.
  - unfold expand_border. edestruct (fold_res_ok border_component) as [parts Hp]; [|rewrite Hp; by eexists].
    intros acc c Hc. unfold border_component. destruct (parse_value_ok c) as [v ->]; [|by eexists].
    intros t Ht. by eapply Hok, space_components_elem.
  - case_match; by eexists.
  - destruct (parse_component_value_ok p tokens Hok) as [v ->]. by eexists.
Qed.

Lemma parse_declarations_ok tokens : (∀ t, t ∈ tokens → hash_ok t) → is_Ok (parse_declarations tokens).
Proof.
  intros Hok. unfold parse_declarations. edestruct (mapM_ok expand_declaration) as [dss Hd];
    [|rewrite Hd; by eexists].
  intros [[p vts] imp] (dts & Hin & Hd)%list_elem_of_omap. unfold expand_declaration.
  edestruct (expand_property_ok p vts) as [pvs ->]; [|by eexists].
  intros t Ht. apply Hok. eapply split_on_elem; [done|]. apply trim_elem.
  unfold split_declaration in Hd. destruct (trim_ws dts) as [|t0 [|t1 rest]]; try done; destruct t0; try done;
    destruct t1; try done.
  destruct (strip_important (trim_ws rest)) as [v i] eqn:Es. injection Hd as _ <- _.
  right; right. apply trim_elem, strip_important_elem. by rewrite Es.
Qed.

(** ** The rules loop *)
Lemma skip_at_rule_suffix n l : ∃ k, l = k ++ skip_at_rule n l.
Proof.
  revert n; induction l as [|t l IH]; intros n; [by exists []|].
  assert (∀ n, ∃ k, t :: l = k ++ skip_at_rule n l) as Hrec.
  { intros n'. destruct (IH n') as [k Hk]. exists (t :: k). cbn. by f_equal. }
  destruct t; cbn; try apply Hrec.
  - destruct n; [by exists [Semicolon]|apply Hrec].
  - destruct n as [|[|n]]; [by exists [RightBrace]..|apply Hrec].
Qed.

(** A turn of the loop leaves a shorter rest of the same tokens. *)
Definition rules_post (toks : list Token) (x : list Rule * list Token + list Rule) : Prop :=
  match x with
  | inl (_, toks') => ∃ k, k ≠ [] ∧ toks = k ++ toks'
  | inr _ => True
  end.

Lemma block_step_ok rules toks :
  (∀ t, t ∈ toks → hash_ok t) → ∃ x, block_step rules toks = Ok x ∧ rules_post toks x.
Proof.
  intros Hok. unfold block_step. destruct (position _ toks) as [brace|] eqn:Eb; [|by eexists]. cbv zeta.
  destruct (position _ (drop (S brace) toks)) as [close|]; [|by eexists].
  assert (∀ rules', rules_post toks (inl (rules', drop (S close) (drop (S brace) toks)))) as Hpost.
  { intros rules'. exists (take (S brace + S close) toks). rewrite drop_drop, take_drop.
    split; [|done]. by destruct toks. }
  case_match; [by eexists|]. edestruct parse_declarations_ok as [ds Hds]; [|rewrite Hds; by eexists].
  intros u Hu. apply Hok. eapply subseteq_drop. by eapply subseteq_take.
Qed.

Lemma rules_step_ok rules toks :
  (∀ t, t ∈ toks → hash_ok t) → ∃ x, rules_step (rules, toks) = Ok x ∧ rules_post toks x.
Proof.
  intros Hok. destruct toks as [|t toks]; [by eexists|].
  destruct t; try (by apply block_step_ok); (eexists; split; [done|]).
  - destruct (skip_at_rule_suffix 0 toks) as [k Hk]. exists (AtKeyword s :: k). split; [done|]. cbn. by f_equal.
  - by exists [Whitespace].
Qed.

Lemma parse_rules_ok toks : (∀ t, t ∈ toks → hash_ok t) → is_Ok (parse_rules toks).
Proof.
  intros Hok. unfold parse_rules.
  destruct (iterate_total (λ st : list Rule * list Token, ∀ t, t ∈ st.2 → hash_ok t) (λ _ _, True)
    (λ st, length st.2) rules_step) with (S (length toks)) (@nil Rule, toks) as (r & Hr & _); [|done|cbn; lia|by exists r].
  intros [rules u] Hu. destruct (rules_step_ok rules u Hu) as (x & -> & Hx). eexists; split; [done|].
  destruct x as [[rules' u']|]; [|done]. destruct Hx as (k & Hk & ->). cbn in *. split_and!; [| |done].
  - intros t Ht. apply Hu, elem_of_app. by right.
  - rewrite length_app. destruct k; [done|]. cbn. lia.
Qed.

(** ** ASCII style sheets *)
Lemma split_at_byte_ascii n s :
  forallb is_ascii s = true → n ≤ length s → split_at_byte n s = Ok (take n s, drop n s).
Proof.
  revert n; induction s as [|c s IH]; intros [|n] Hs Hn; cbn in *; try done; try lia.
  apply andb_true_iff in Hs as [Hc Hs]. unfold is_ascii in Hc. unfold len_utf8. rewrite Hc.
  cbn. rewrite Nat.sub_0_r, (IH n Hs) by lia. done.
Qed.

Lemma forallb_drop {A} (f : A → bool) n l : forallb f l = true → forallb f (drop n l) = true.
Proof.
  rewrite <-(take_drop n l) at 1. rewrite forallb_app. by intros [_ ?]%andb_true_iff.
Qed.

Lemma parse_hex_color_ascii h : forallb is_ascii h = true → is_Ok (parse_hex_color h).
Proof.
  intros Hh. unfold parse_hex_color. case_decide as H3; [by eexists|]. case_decide as H6; [|by eexists].
  rewrite (str_len_ascii h Hh) in H6. pose proof (forallb_drop is_ascii 2 h Hh) as Hh2.
  rewrite split_at_byte_ascii by (done || lia). cbn [mbind res_bind]. case_match; [|by eexists].
  rewrite split_at_byte_ascii by (done || rewrite length_drop; lia). cbn [mbind res_bind].
  case_match; [|by eexists].
  rewrite split_at_byte_ascii; [by eexists|by apply forallb_drop|rewrite !length_drop; lia].
Qed.

Lemma forallb_take_while {A} (f g : A → bool) l : forallb f l = true → forallb f (take_while g l) = true.
Proof.
  induction l as [|x l IH]; cbn; [done|]. intros [Hx Hl]%andb_true_iff. destruct (g x); cbn; [|done].
  by rewrite Hx, IH.
Qed.

(** Each consumer leaves a suffix of its input. *)
Abbreviation is_tail s' s := (∃ n, s' = drop n s) (only parsing).

Lemma tail_trans (s1 s2 s3 : list N) : is_tail s2 s1 → is_tail s3 s2 → is_tail s3 s1.
Proof. intros [n ->] [m ->]. exists (n + m). by rewrite drop_drop. Qed.

Lemma comment_rest_tail s : is_tail (comment_rest s) s.
Proof.
  induction s as [|c s [n IH]]; [by exists 0|]. cbn. case_match; [by exists 2|]. by exists (S n).
Qed.

Lemma string_loop_tail q s : is_tail (string_loop q s).2 s.
Proof.
  induction s as [s IH] using (induction_ltof1 _ (@length N)). unfold ltof in IH.
  destruct s as [|c s]; [by exists 0|]. cbn. case_match; [by exists 1; cbn; rewrite drop_0|]. case_match.
  - destruct s as [|e s]; [by exists 1|]. destruct (IH s) as [n Hn]; [cbn; lia|].
    destruct (string_loop q s). exists (S (S n)). done.
  - destruct (IH s) as [n Hn]; [cbn; lia|]. destruct (string_loop q s). by exists (S n).
Qed.

Lemma span_while_tail f s : is_tail (span_while f s).2 s.
Proof. by eexists. Qed.

Lemma numeric_tail s : is_tail (consume_numeric s).2 s.
Proof.
  unfold consume_numeric.
  assert (is_tail (numeric_sign s).2 s) as H1.
  { unfold numeric_sign. repeat case_match; (by exists 1; cbn; rewrite drop_0) || by exists 0. }
  destruct (numeric_sign s) as [? s1]. cbn in H1.
  pose proof (span_while_tail is_ascii_digit s1) as H2. destruct (span_while _ s1) as [? s2]. cbn in H2.
  assert (is_tail (numeric_fraction s2).2 s2) as H3.
  { unfold numeric_fraction. case_match; [|by exists 0].
    eapply tail_trans; [by exists 1|]. pose proof (span_while_tail is_ascii_digit (drop 1 s2)) as H3.
    by destruct (span_while _ _). }
  destruct (numeric_fraction s2) as [? s3]. cbn in H3.
  assert (is_tail s3 s) as H4 by eauto using tail_trans.
  case_match; [eapply tail_trans; [exact H4|by eexists]|]. case_match; [|done].
  pose proof (span_while_tail is_ident_continue s3) as H5. destruct (span_while _ s3).
  by eapply tail_trans.
Qed.

Lemma span_tail (f : N → bool) (K : list N → Token) s s0 tok s' :
  (let '(b, r) := span_while f s in (K b, r)) = (tok, s') → is_tail s s0 →
  is_tail s' s0 ∧ tok = K (take_while f s).
Proof. cbn. intros [= <- <-] Hs. split; [|done]. eapply tail_trans; [exact Hs|]. by eexists. Qed.

(** A token's rest is a tail of the input, and the text of a hash a run of it. *)
Lemma token_at_tail s tok s' :
  token_at s = Ok (tok, s') →
  is_tail s' s ∧ ∀ h, tok = Hash h → ∃ n, h = take_while is_ident_continue (drop n s).
Proof.
  destruct s as [|c s]; [intros [= <- <-]; split; [by exists 0|done]|]. cbn [token_at].
  assert (Ok (consume_numeric (c :: s)) = Ok (tok, s') →
    is_tail s' (c :: s) ∧ ∀ h, tok = Hash h → ∃ n, h = take_while is_ident_continue (drop n (c :: s))) as Hnum.
  { intros E%Ok_inj. pose proof (numeric_tail (c :: s)) as Ht. rewrite E in Ht. split; [done|].
    intros h ->. unfold consume_numeric in E. exfalso. revert E.
    destruct (numeric_sign _) as [? s1], (span_while is_ascii_digit s1) as [? s2],
      (numeric_fraction s2) as [? s3]. case_match; [done|]. case_match; [|done]. by destruct (span_while _ s3). }
  assert (Ok (consume_ident_like (c :: s)) = Ok (tok, s') →
    is_tail s' (c :: s) ∧ ∀ h, tok = Hash h → ∃ n, h = take_while is_ident_continue (drop n (c :: s))) as Hid.
  { intros E%Ok_inj. destruct (span_tail _ Ident (c :: s) (c :: s) tok s' E) as [? ->]; [by exists 0|done]. }
  destruct (_ || _).
  { change (consume_string (c :: s)) with (let '(b, r) := string_loop c s in Ok (QuotedString b, r)).
    pose proof (string_loop_tail c s) as [n Hn]. destruct (string_loop c s). intros [= <- <-].
    split; [|done]. by exists (S n). }
  destruct (_ =? _)%N.
  { intros E%Ok_inj. destruct (span_tail _ Hash s (c :: s) tok s' E) as [? ->]; [by exists 1; cbn; rewrite drop_0|].
    split; [done|]. intros h [= <-]. exists 1. cbn. by rewrite drop_0. }
  destruct (_ =? _)%N.
  { intros E%Ok_inj. destruct (span_tail _ AtKeyword s (c :: s) tok s' E) as [? ->]; [by exists 1; cbn; rewrite drop_0|].
    done. }
  repeat (case_match; [done|]). intros [= <- <-]. split; [by exists 1; cbn; rewrite drop_0|].
  intros h. unfold punctuation. repeat case_match; done.
Qed.

Lemma skip_space_tail s saw s' : skip_space s = Ok (saw, s') → is_tail s' s.
Proof.
  unfold skip_space.
  apply (iterate_inv (λ st : bool * list N, is_tail st.2 s) (λ r, is_tail r.2 s) space_step); [|by exists 0].
  intros [b u] x Hu Hx. unfold space_step in Hx. destruct u as [|c u]; [injection Hx as <-; done|].
  repeat case_match; simplify_eq/=; try done.
  - eapply tail_trans; [exact Hu|]. by exists 1; cbn; rewrite drop_0.
  - eapply tail_trans; [exact Hu|]. unfold skip_comment.
    eapply tail_trans; [by eexists|apply comment_rest_tail].
Qed.

Lemma tokenize_ascii s toks :
  forallb is_ascii s = true → tokenize s = Ok toks → ∀ t, t ∈ toks → hash_ok t.
Proof.
  intros Hs. unfold tokenize.
  apply (iterate_inv (λ st : list Token * list N, forallb is_ascii st.2 = true ∧ ∀ t, t ∈ st.1 → hash_ok t)
    (λ r, ∀ t, t ∈ r → hash_ok t) tokenize_step); [|split; [done|inversion 1]].
  intros [ts u] x [Hu Hts] Hx. unfold tokenize_step in Hx. apply bind_Ok in Hx as ([tok u'] & Hn & Hx).
  unfold next_token in Hn. apply bind_Ok in Hn as ([saw v] & Hsp & Hn).
  apply skip_space_tail in Hsp as [n ->].
  assert (is_tail u' (drop n u) ∧ hash_ok tok) as [[m ->] Htok].
  { destruct saw; [injection Hn as <- <-; split; [by exists 0; rewrite drop_0|done]|].
    destruct (token_at_tail _ _ _ Hn) as [? Hh]. split; [done|]. destruct tok as [| |h| | | | | | | | | | | | | | | | ]; try done.
    destruct (Hh _ eq_refl) as [k ->]. apply parse_hex_color_ascii, forallb_take_while. by repeat apply forallb_drop. }
  case_decide; injection Hx as <-; [done|]. cbn. split; [by repeat apply forallb_drop|].
  intros t [?| ->%list_elem_of_singleton]%elem_of_app; auto.
Qed.

Lemma parse_rules_ascii s : forallb is_ascii s = true → is_Ok (parse s).
Proof.
  intros Hs. destruct (tokenize_ok s) as (toks & Ht & _). unfold parse. rewrite Ht. cbn.
  apply parse_rules_ok. by apply (tokenize_ascii s).
Qed.

(** Parsing a style sheet of ASCII characters always ends with rules: no input makes the
    tokenizer, the declaration parser or the rule loop panic or run on. *)
Theorem css_parse_total s :
  forallb is_ascii s = true → ∃ rules, parse s = Ok rules.
Proof. apply parse_rules_ascii. Qed.

Lemma css_parse_total_witness : ∃ rules, parse (str "p { color: #12345; } @import x; }{") = Ok rules.
Proof. apply (css_parse_total (str "p { color: #12345; } @import x; }{")). reflexivity. Defined.

(** A colour with a non-ASCII character panics: [parse_hex_color] slices the six bytes of
    [#aébcd] inside the two-byte character, so the style sheet [p{color:#aébcd}] takes the
    parser down instead of being ignored. *)
Theorem non_ascii_colour_panics :
  parse (str "p{color:#a" ++ [233%N] ++ str "bcd}") = Panic.
Proof. vm_compute. reflexivity. Qed.

(** ** Recovery after at-rules *)
Inductive balanced : list Token → Prop :=
  | balanced_nil : balanced []
  | balanced_tok t l : t ≠ LeftBrace → t ≠ RightBrace → balanced l → balanced (t :: l)
  | balanced_block a b : balanced a → balanced b → balanced (LeftBrace :: a ++ RightBrace :: b).

Lemma skip_balanced n l k : balanced l → skip_at_rule (S n) (l ++ k) = skip_at_rule (S n) k.
Proof.
  intros Hl. revert n k. induction Hl as [|t l Ht1 Ht2 _ IH|a b _ IHa _ IHb]; intros n k; [done| |].
  - rewrite <-(IH n k). destruct t; done.
  - cbn. rewrite <-app_assoc. cbn. rewrite IHa. cbn. apply IHb.
Qed.

Lemma skip_prelude p k :
  (∀ t, t ∈ p → t ≠ LeftBrace ∧ t ≠ RightBrace ∧ t ≠ Semicolon) →
  skip_at_rule 0 (p ++ k) = skip_at_rule 0 k.
Proof.
  induction p as [|t p IH]; intros H; [done|]. rewrite <-IH by (intros; apply H; by right).
  destruct (H t) as (? & ? & ?); [left|]. destruct t; done.
Qed.

(** An at-rule is skipped whole: whatever its prelude and however its block nests, the rules
    after it are parsed as if it were not there. *)
Theorem at_rule_skipped name prelude body rest rules :
  (∀ t, t ∈ prelude → t ≠ LeftBrace ∧ t ≠ RightBrace ∧ t ≠ Semicolon) → balanced body →
  parse_rules rest = Ok rules →
  parse_rules (AtKeyword name :: prelude ++ LeftBrace :: body ++ RightBrace :: rest) = Ok rules.
Proof.
  intros Hp Hb Hr. unfold parse_rules in *. rewrite (iterate_inl _ _ _ ([], rest)).
  - eapply iterate_mono; [exact Hr|]. cbn. rewrite length_app. cbn. rewrite length_app. cbn. lia.
  - cbn [rules_step]. rewrite skip_prelude by done. cbn [skip_at_rule]. by rewrite skip_balanced.
Qed.

Lemma at_rule_skipped_witness :
  parse_rules (AtKeyword (str "media") :: [Ident (str "x")] ++ LeftBrace ::
    ([Ident (str "a")] ++ [LeftBrace; RightBrace; Semicolon]) ++ RightBrace :: [Whitespace]) = Ok [].
Proof.
  apply (at_rule_skipped (str "media") [Ident (str "x")]); [| |reflexivity].
  - intros t ->%list_elem_of_singleton. done.
  - apply balanced_tok; [done..|]. apply (balanced_block [] [Semicolon]); repeat constructor; done.
Defined.
