(* ===== verification/CssCascade.v ===== *)
(** * The cascade ([core/css/src/cascade.rs])

    Matched declarations are collected, sorted by (importance, origin, specificity, source
    order) with a stable sort, and the last declaration of each property wins.  Hash maps are
    finite maps. *)

From S2P Require Import Prelude Float Dom CssTokenizer CssValue CssSelector CssParser.

Inductive Origin := Ua | Author.

Record ComputedStyle := MkStyle {
  display : list N;
  color : Color;
  font_size_px : f64;
  font_family : option (list N);
  font_style : option (list N);
  line_height : option Value;
  text_align : option (list N);
  other : gmap (list N) Value;
}.

#[export] Instance ComputedStyle_eq_dec : EqDecision ComputedStyle.
Proof. solve_decision. Defined.

(** ** Accessors used by layout and paint *)
Definition is_bold (s : ComputedStyle) : bool :=
  match s.(other) !! str "font-weight" with
  | Some (VKeyword k) => bool_decide (k = str "bold")
  | Some (VNumber n) => f64_leb (f64_of_Z 600) n
  | _ => false
  end.

Definition is_italic (s : ComputedStyle) : bool := bool_decide (s.(font_style) = Some (str "italic")).

Definition opacity (s : ComputedStyle) : spec_float :=
  match s.(other) !! str "opacity" with
  | Some (VNumber n) => f32_clamp01 (f32_of_f64 n)
  | _ => f32_one
  end.

Definition initial : ComputedStyle :=
  MkStyle (str "inline") (Rgba 0 0 0 255) (f64_of_Z 16) None None None None ∅.

Definition INHERITED_PROPERTIES : list (list N) :=
  str <$> ["color"; "font-family"; "font-size"; "font-style"; "line-height"; "text-align"].
Definition OTHER_INHERITED_PROPERTIES : list (list N) := [str "font-weight"].

(** ** Computed values *)
Definition resolve_font_size (v : Value) (parent_font_size_px : f64) : option f64 :=
  match v with
  | VLength (Px n) => Some n
  | VLength (Em n) => Some (f64_mul n parent_font_size_px)
  | VLength Zero => Some f64_zero
  | VPercentage p => Some (f64_div (f64_mul parent_font_size_px p) (f64_of_Z 100))
  | _ => None
  end.

Definition resolve_color (v : Value) (inherited_color : Color) : option Color :=
  match v with
  | VColor CurrentColor => Some inherited_color
  | VColor c => Some c
  | _ => None
  end.

(** ** Matched declarations *)
Record Matched := MkMatched {
  m_origin : Origin;
  m_specificity : N * N * N;
  m_source_order : N;
  m_declaration : Declaration;
}.

(** [filter(|s| matches(doc, node, s)).map(specificity).max()]. *)
Definition spec_key (s : N * N * N) : list N := let '(i, c, t) := s in [i; c; t].
Definition spec_max (o : option (N * N * N)) (s : N * N * N) : option (N * N * N) :=
  match o with
  | None => Some s
  | Some s0 => Some (if str_leb (spec_key s0) (spec_key s) then s else s0)
  end.
Definition best_specificity (doc : Document) (node : NodeId) (sels : list ComplexSelector)
    : res (option (N * N * N)) :=
  fold_res (λ best s,
    m ← matches doc node s;
    if m : bool then sp ← specificity s; Ok (spec_max best sp) else Ok best) None sels.

Definition match_rule (doc : Document) (node : NodeId) (origin : Origin) (order : nat) (rule : Rule)
    : res (list Matched) :=
  best ← best_specificity doc node rule.(selectors);
  match best with
  | None => Ok []
  | Some sp => Ok (map (MkMatched origin sp (N.of_nat order)) rule.(declarations))
  end.

(** [rules.iter().enumerate()], from [order] on. *)
Fixpoint match_rules (doc : Document) (node : NodeId) (origin : Origin) (order : nat)
    (rules : list Rule) : res (list Matched) :=
  match rules with
  | [] => Ok []
  | rule :: rules' =>
      ms ← match_rule doc node origin order rule;
      rest ← match_rules doc node origin (S order) rules';
      Ok (ms ++ rest)
  end.

Fixpoint match_sheets (doc : Document) (node : NodeId) (stylesheets : list (Origin * list Rule))
    : res (list Matched) :=
  match stylesheets with
  | [] => Ok []
  | (origin, rules) :: sheets' =>
      ms ← match_rules doc node origin 0 rules;
      rest ← match_sheets doc node sheets';
      Ok (ms ++ rest)
  end.

Definition inline_style_declarations (doc : Document) (node : NodeId) : res (list Declaration) :=
  dt ← data doc node;
  match dt with
  | NElement _ attrs =>
      match list_find (λ kv, kv.1 = str "style") attrs with
      | Some (_, (_, style_attr)) => toks ← tokenize style_attr; parse_declarations toks
      | None => Ok []
      end
  | _ => Ok []
  end.

(** The inline style, above every selector. *)
Definition inline_matched : Declaration → Matched := MkMatched Author (U32_MAX, 0, 0)%N U64_MAX.

Definition all_matched (doc : Document) (node : NodeId) (stylesheets : list (Origin * list Rule))
    : res (list Matched) :=
  ms ← match_sheets doc node stylesheets;
  inline ← inline_style_declarations doc node;
  Ok (ms ++ map inline_matched inline).

(** ** The sort key *)
Definition origin_rank (o : Origin) : N := match o with Ua => 0 | Author => 1 end.

(** The tuple [(important, effective_origin_rank, specificity, source_order)] as the list of its
    components, compared lexicographically. *)
Definition sort_key (m : Matched) : list N :=
  let imp := m.(m_declaration).(important) in
  let rank := origin_rank m.(m_origin) in
  let effective := if imp : bool then (1 - rank)%N else rank in
  [(if imp : bool then 1 else 0)%N; effective] ++ spec_key m.(m_specificity) ++ [m.(m_source_order)].

Definition key_leb (a b : Matched) : bool := str_leb (sort_key a) (sort_key b).

(** Insertions in sorted order: the last declaration of a property stays. *)
Definition add_winner (w : gmap (list N) Value) (m : Matched) : gmap (list N) Value :=
  <[m.(m_declaration).(property) := m.(m_declaration).(dvalue)]> w.
Definition winners (matched : list Matched) : gmap (list N) Value :=
  foldl add_winner ∅ (stable_sort key_leb matched).

(** ** From winners to a style *)
Definition keyword_of (o : option Value) : option (list N) :=
  match o with Some (VKeyword k) => Some k | _ => None end.
Definition or_else {A} (o : option A) (alt : option A) : option A :=
  match o with Some _ => o | None => alt end.

(** [currentColor] on the properties kept as specified. *)
Definition resolve_current (c : Color) (v : Value) : Value :=
  match v with VColor CurrentColor => VColor c | _ => v end.

Definition keep_other (c : Color) (prop : list N) (v : Value) : option Value :=
  if decide (prop ∈ INHERITED_PROPERTIES ∨ prop = str "display") then None
  else Some (resolve_current c v).

Definition inherit_other (parent : gmap (list N) Value) (o : gmap (list N) Value) (prop : list N)
    : gmap (list N) Value :=
  match o !! prop with
  | Some _ => o
  | None => match parent !! prop with Some v => <[prop := v]> o | None => o end
  end.

Definition style_of_winners (w : gmap (list N) Value) (parent_style : option ComputedStyle)
    : ComputedStyle :=
  let parent := default initial parent_style in
  let fs := default parent.(font_size_px)
              (w !! str "font-size" ≫= λ v, resolve_font_size v parent.(font_size_px)) in
  let col := default parent.(color) (w !! str "color" ≫= λ v, resolve_color v parent.(color)) in
  MkStyle
    (default initial.(display) (keyword_of (w !! str "display")))
    col fs
    (or_else (keyword_of (w !! str "font-family")) parent.(font_family))
    (or_else (keyword_of (w !! str "font-style")) parent.(font_style))
    (or_else (w !! str "line-height") parent.(line_height))
    (or_else (keyword_of (w !! str "text-align")) parent.(text_align))
    (foldl (inherit_other parent.(other)) (map_imap (keep_other col) w) OTHER_INHERITED_PROPERTIES).

Definition compute_style_for (doc : Document) (node : NodeId)
    (stylesheets : list (Origin * list Rule)) (parent_style : option ComputedStyle)
    : res ComputedStyle :=
  matched ← all_matched doc node stylesheets;
  Ok (style_of_winners (winners matched) parent_style).

(** ** The traversal *)
Definition is_element (dt : NodeData) : bool := match dt with NElement _ _ => true | _ => false end.

Fixpoint cascade_subtree (fuel : nat) (doc : Document) (stylesheets : list (Origin * list Rule))
    (node : NodeId) (parent_style : option ComputedStyle) (styles : gmap NodeId ComputedStyle)
    : res (gmap NodeId ComputedStyle) :=
  match fuel with
  | O => OutOfFuel
  | S fuel' =>
      dt ← data doc node;
      '(own_style, styles) ←
        (if is_element dt then
           style ← compute_style_for doc node stylesheets parent_style;
           Ok (Some style, <[node := style]> styles)
         else Ok (parent_style, styles));
      kids ← children doc node;
      fold_res (λ styles child, cascade_subtree fuel' doc stylesheets child own_style styles) styles kids
  end.

Definition cascade (doc : Document) (stylesheets : list (Origin * list Rule))
    : res (gmap NodeId ComputedStyle) :=
  r ← root doc; cascade_subtree (walk_fuel doc) doc stylesheets r None ∅.

(** ** The built-in style sheet *)
Definition UA_STYLESHEET_SOURCE : list N := str "
html, body, div, p, ul, ol, li, section, article, header, footer, nav,
main, aside, figure, figcaption, blockquote, pre, form, fieldset,
table, thead, tbody, tfoot, tr, td, th, caption, colgroup,
h1, h2, h3, h4, h5, h6 {
  display: block;
}
button, input, select, textarea {
  display: inline-block;
}
head, title, style, script, link, meta, colgroup {
  display: none;
}
b, strong {
  font-weight: bold;
}
i, em {
  font-style: italic;
}
h1 { font-size: 2em; font-weight: bold; }
h2 { font-size: 1.5em; font-weight: bold; }
h3 { font-size: 1.17em; font-weight: bold; }
h4 { font-size: 1em; font-weight: bold; }
h5 { font-size: 0.83em; font-weight: bold; }
h6 { font-size: 0.67em; font-weight: bold; }
".

Definition ua_stylesheet : res (list Rule) := parse UA_STYLESHEET_SOURCE.

(** A heading in a document styled by the built-in sheet and an author sheet. *)
Definition styled_heading : res (option ComputedStyle) :=
  d ← sample_doc;
  ua ← ua_stylesheet;
  author ← parse (str "p { color: red !important; font-size: 50%; } p { color: blue; }");
  st ← cascade d [(Ua, ua); (Author, author)];
  Ok (st !! 1%N).

Example styled_heading_value :
  styled_heading
  = Ok (Some (MkStyle (str "block") (Rgba 255 0 0 255) (f64_of_Z 8) None None None None ∅)).
Proof. vm_compute. reflexivity. Qed.
