(* ===== verification/CssCascadeProps.v ===== *)
(** * The cascade picks the right declaration and styles every element

    [cascade_winner] characterizes the declaration that wins a property; [cascade_total] shows
    that the traversal terminates, styles exactly the elements below the root and computes each
    style from the style of the nearest styled ancestor. *)

From S2P Require Import Prelude Sorting Float Dom DomTree DomWalk DomOps CssTokenizer CssTokenProps.
From S2P Require Import CssValue CssSelector CssSelectorProps CssParser CssParserProps CssCascade.

(** ** Winners *)
Abbreviation prop_of m := (m.(m_declaration).(property)) (only parsing).

Lemma key_leb_trans a b c : key_leb a b = true → key_leb b c = true → key_leb a c = true.
Proof. apply str_leb_trans. Qed.
Lemma key_leb_total a b : key_leb a b = true ∨ key_leb b a = true.
Proof. apply str_leb_total. Qed.

Lemma foldl_winner w l p :
  foldl add_winner w l !! p
  = match last (filter (λ m, prop_of m = p) l) with
    | Some m => Some m.(m_declaration).(dvalue)
    | None => w !! p
    end.
Proof.
  revert w; induction l as [|m l IH]; intros w; [done|]. cbn [foldl]. rewrite IH.
  rewrite filter_cons. case_decide as Hp.
  - rewrite last_cons. destruct (last _); [done|]. unfold add_winner. rewrite <-Hp. apply lookup_insert_eq.
  - destruct (last _); [done|]. unfold add_winner. by rewrite lookup_insert_ne.
Qed.

Lemma winners_best matched p :
  winners matched !! p
  = (λ m, m.(m_declaration).(dvalue)) <$> best key_leb (filter (λ m, prop_of m = p) matched).
Proof.
  unfold winners. rewrite foldl_winner, lookup_empty.
  rewrite (filter_stable_sort key_leb key_leb_trans key_leb_total).
  rewrite (last_stable_sort key_leb key_leb_trans key_leb_total).
  by destruct (best _ _).
Qed.

Lemma filter_split_at {A} (P : A → Prop) `{∀ x, Decision (P x)} l k1 x k2 :
  filter P l = k1 ++ x :: k2 ↔
  ∃ l1 l2, l = l1 ++ x :: l2 ∧ filter P l1 = k1 ∧ filter P l2 = k2 ∧ P x.
Proof.
  split.
  - revert k1; induction l as [|y l IH]; intros k1; [by destruct k1|]. rewrite filter_cons.
    case_decide as Hy.
    + destruct k1 as [|z k1]; intros [= -> Heq].
      * by exists [], l.
      * destruct (IH _ Heq) as (l1 & l2 & -> & <- & <- & Hx). exists (z :: l1), l2.
        split_and!; [done| |done..]. by rewrite filter_cons, decide_True.
    + intros Heq. destruct (IH _ Heq) as (l1 & l2 & -> & <- & <- & Hx). exists (y :: l1), l2.
      split_and!; [done| |done..]. by rewrite filter_cons, decide_False.
  - intros (l1 & l2 & -> & <- & <- & Hx). by rewrite filter_app, filter_cons, decide_True.
Qed.

Lemma Forall_filter_iff {A} (P Q : A → Prop) `{∀ x, Decision (P x)} l :
  Forall Q (filter P l) ↔ ∀ x, x ∈ l → P x → Q x.
Proof. rewrite Forall_forall. setoid_rewrite list_elem_of_filter. naive_solver. Qed.

Lemma winners_Some matched p v :
  winners matched !! p = Some v ↔
  ∃ l1 m l2, matched = l1 ++ m :: l2 ∧ prop_of m = p ∧ m.(m_declaration).(dvalue) = v
    ∧ (∀ x, x ∈ l1 → prop_of x = p → key_leb x m = true)
    ∧ (∀ x, x ∈ l2 → prop_of x = p → key_leb m x = false).
Proof.
  rewrite winners_best, fmap_Some. setoid_rewrite (best_Some key_leb key_leb_trans key_leb_total). split.
  - intros (m & (k1 & k2 & Hf & H1 & H2) & ->).
    apply filter_split_at in Hf as (l1 & l2 & -> & <- & <- & Hp).
    exists l1, m, l2. rewrite Forall_filter_iff in H1, H2. split_and!; eauto.
  - intros (l1 & m & l2 & -> & Hp & <- & H1 & H2). exists m. split; [|done].
    eexists _, _. split_and!; [apply filter_split_at; by exists l1, l2|by apply Forall_filter_iff..].
Qed.

(** ** Which declaration wins

    The specification is written without the sort key: the declarations that apply to an element,
    in the order in which the sheets give them, and the rule of the cascade by cases. *)

(** [a] is strictly stronger than [b]: [!important] beats normal; among normal declarations the
    author beats the user agent, among important ones the user agent beats the author; then the
    specificity decides, component by component; then the place of the rule in its sheet. *)
Definition specificity_lt (a b : N * N * N) : Prop :=
  let '(i, c, t) := a in let '(i', c', t') := b in
  (i < i')%N ∨ (i = i' ∧ ((c < c')%N ∨ (c = c' ∧ (t < t')%N))).

Definition important_of (m : Matched) : bool := m.(m_declaration).(important).

#[export] Instance Origin_eq_dec : EqDecision Origin.
Proof. solve_decision. Defined.

Inductive outranks (a b : Matched) : Prop :=
  | by_importance : important_of a = true → important_of b = false → outranks a b
  | by_normal_origin :
      important_of a = false → important_of b = false →
      a.(m_origin) = Author → b.(m_origin) = Ua → outranks a b
  | by_important_origin :
      important_of a = true → important_of b = true →
      a.(m_origin) = Ua → b.(m_origin) = Author → outranks a b
  | by_specificity :
      important_of a = important_of b → a.(m_origin) = b.(m_origin) →
      specificity_lt b.(m_specificity) a.(m_specificity) → outranks a b
  | by_source_order :
      important_of a = important_of b → a.(m_origin) = b.(m_origin) →
      a.(m_specificity) = b.(m_specificity) → (b.(m_source_order) < a.(m_source_order))%N → outranks a b.

(** The weight of a selector: how many ids, classes and attributes, and types it has. *)
Definition is_id (s : SimpleSelector) : bool := match s with Id_ _ => true | _ => false end.
Definition is_class (s : SimpleSelector) : bool :=
  match s with Class_ _ | AttrPresence _ | AttrEquals _ _ => true | _ => false end.
Definition is_type (s : SimpleSelector) : bool := match s with Type_ _ => true | _ => false end.

Definition count (f : SimpleSelector → bool) (s : ComplexSelector) : N :=
  N.of_nat (length (filter (λ x, f x = true) (mjoin (simple_selectors <$> s.(compounds))))).
Definition weight (s : ComplexSelector) : N * N * N := (count is_id s, count is_class s, count is_type s).

(** [sp] is the greatest weight among the selectors of the list that select [x]. *)
Definition greatest_weight (d : Document) (x : NodeId) (sels : list ComplexSelector) (sp : N * N * N) : Prop :=
  (∃ s, s ∈ sels ∧ selected d s (length s.(combinators)) x ∧ weight s = sp)
  ∧ ∀ s, s ∈ sels → selected d s (length s.(combinators)) x → ¬ specificity_lt sp (weight s).

(** What a rule, the [i]-th of its sheet, contributes to [x]. *)
Inductive contributes (d : Document) (x : NodeId) : Origin * nat * Rule → list Matched → Prop :=
  | contributes_all o i rule sp :
      greatest_weight d x rule.(selectors) sp →
      contributes d x (o, i, rule) (MkMatched o sp (N.of_nat i) <$> rule.(declarations))
  | contributes_none o i rule :
      (∀ s, s ∈ rule.(selectors) → ¬ selected d s (length s.(combinators)) x) →
      contributes d x (o, i, rule) [].

Definition indexed_rules (sheets : list (Origin * list Rule)) : list (Origin * nat * Rule) :=
  mjoin ((λ sheet, imap (λ i rule, (sheet.1, i, rule)) sheet.2) <$> sheets).

(** *** The sort key says the same *)
Lemma str_leb_cons x y a b :
  str_leb (x :: a) (y :: b) = true ↔ (x < y)%N ∨ (x = y ∧ str_leb a b = true).
Proof.
  cbn. destruct (N.compare_spec x y) as [->|H|H].
  - split; [by right|]. intros [?|[_ ?]]; [lia|done].
  - split; [by left|done].
  - split; [done|]. intros [?|[? _]]; lia.
Qed.

(** Specificity, then source order. *)
Definition spec_order_lt (a b : Matched) : Prop :=
  specificity_lt a.(m_specificity) b.(m_specificity)
  ∨ (a.(m_specificity) = b.(m_specificity) ∧ (a.(m_source_order) < b.(m_source_order))%N).

Lemma spec_key_leb a b : str_leb (spec_key a) (spec_key b) = true ↔ ¬ specificity_lt b a.
Proof.
  destruct a as [[i c] t], b as [[i' c'] t']. unfold spec_key, specificity_lt.
  rewrite !str_leb_cons. cbn [str_leb]. split; [lia|].
  intros H. destruct (N.lt_trichotomy i i') as [?|[->|?]]; [by left|right|lia].
  split; [done|]. destruct (N.lt_trichotomy c c') as [?|[->|?]]; [by left|right|lia].
  split; [done|]. destruct (N.lt_trichotomy t t') as [?|[->|?]]; [by left|by right|lia].
Qed.

Lemma spec_order_leb a b :
  str_leb (spec_key a.(m_specificity) ++ [a.(m_source_order)]) (spec_key b.(m_specificity) ++ [b.(m_source_order)]) = true
  ↔ ¬ spec_order_lt b a.
Proof.
  unfold spec_order_lt, specificity_lt. destruct (m_specificity a) as [[i c] t], (m_specificity b) as [[i' c'] t'].
  generalize (m_source_order a) (m_source_order b). intros n n'. cbn [spec_key app].
  rewrite !str_leb_cons. cbn [str_leb]. rewrite !pair_equal_spec. split; [lia|].
  intros H. destruct (N.lt_trichotomy i i') as [?|[->|?]]; [by left|right|lia].
  split; [done|]. destruct (N.lt_trichotomy c c') as [?|[->|?]]; [by left|right|lia].
  split; [done|]. destruct (N.lt_trichotomy t t') as [?|[->|?]]; [by left|right|lia].
  split; [done|]. destruct (N.lt_trichotomy n n') as [?|[->|?]]; [by left|by right|lia].
Qed.

Lemma outranks_same a b :
  important_of a = important_of b → a.(m_origin) = b.(m_origin) → outranks a b ↔ spec_order_lt b a.
Proof.
  intros Hi Ho. split.
  - intros H. destruct H; [congruence..|by left|by right].
  - intros [H|[H ?]]; [by apply by_specificity|by apply by_source_order].
Qed.

#[export] Instance specificity_lt_dec a b : Decision (specificity_lt a b).
Proof. destruct a as [[??]?], b as [[??]?]. unfold specificity_lt. apply _. Defined.
#[export] Instance spec_order_lt_dec a b : Decision (spec_order_lt a b).
Proof. unfold spec_order_lt. apply _. Defined.

(** The key is smaller or equal unless the declaration is stronger. *)
Lemma key_leb_outranks a b : if key_leb a b then ¬ outranks a b else outranks a b.
Proof.
  unfold key_leb, sort_key. change (important (m_declaration a)) with (important_of a).
  change (important (m_declaration b)) with (important_of b).
  destruct (decide (important_of a = important_of b)) as [Hi|Hi]; [destruct (decide (m_origin a = m_origin b)) as [Ho|Ho]|].
  - pose proof (outranks_same a b Hi Ho) as Hs. pose proof (spec_order_leb a b) as H.
    rewrite Hi, Ho. cbn [app str_leb]. rewrite !N.compare_refl. destruct (str_leb _ _).
    + rewrite Hs. by apply H.
    + apply Hs. destruct (decide (spec_order_lt b a)) as [|Hn]; [done|]. by apply H in Hn.
  - rewrite Hi. destruct (important_of b) eqn:Ib, (m_origin a) eqn:Oa, (m_origin b) eqn:Ob; try done; cbn [origin_rank app].
    all: cbn [str_leb N.sub]; rewrite ?N.compare_refl; cbn.
    all: first [by apply by_important_origin|by apply by_normal_origin|intros H; destruct H; congruence].
  - destruct (important_of a) eqn:Ia, (important_of b) eqn:Ib; try done; cbn [app str_leb]; cbn.
    + by apply by_importance.
    + intros H. destruct H; congruence.
Qed.

Lemma key_leb_true a b : key_leb a b = true ↔ ¬ outranks a b.
Proof. pose proof (key_leb_outranks a b) as H. by destruct (key_leb a b). Qed.

Lemma key_leb_false a b : key_leb a b = false ↔ outranks a b.
Proof. pose proof (key_leb_outranks a b) as H. by destruct (key_leb a b). Qed.

(** ** Inline styles *)
Lemma str_leb_cons_lt x y a b : (x < y)%N → str_leb (x :: a) (y :: b) = true.
Proof. intros H. cbn. by rewrite (proj2 (N.compare_lt_iff _ _) H). Qed.

(** A selector's declaration that is not important stays below a normal inline one. *)
Lemma below_inline m d :
  m.(m_declaration).(important) = false → d.(important) = false →
  (m.(m_specificity).1.1 < U32_MAX)%N → key_leb m (inline_matched d) = true.
Proof.
  intros Hm Hd Hs. unfold key_leb, sort_key. rewrite Hm. cbn [m_declaration inline_matched]. rewrite Hd.
  destruct (m_specificity m) as [[i c] t]. cbn in Hs. destruct (m_origin m); cbn [origin_rank app spec_key m_origin m_specificity inline_matched].
  - cbn [str_leb]. by change (0 ?= 1)%N with Lt.
  - cbn [str_leb]. rewrite !N.compare_refl. by rewrite (proj2 (N.compare_lt_iff i U32_MAX) Hs).
Qed.

Lemma inline_leb d d' :
  d.(important) = d'.(important) → key_leb (inline_matched d) (inline_matched d') = true.
Proof. intros H. unfold key_leb, sort_key. cbn [m_declaration inline_matched]. rewrite H. apply str_leb_refl. Qed.

(** Inline declarations beat selectors: when neither the style sheets nor the inline style
    have an important declaration of a property, the last inline declaration of the property
    wins, whatever the specificity and the order of the matched rules (whose selectors have
    fewer than 2^32 - 1 ids). *)
Theorem inline_style_wins ms ds p d1 d d2 :
  ds = d1 ++ d :: d2 → d.(property) = p → (∀ e, e ∈ d2 → e.(property) ≠ p) →
  (∀ e, e ∈ ds → e.(property) = p → e.(important) = false) →
  (∀ m, m ∈ ms → m.(m_declaration).(property) = p →
     m.(m_declaration).(important) = false ∧ (m.(m_specificity).1.1 < U32_MAX)%N) →
  winners (ms ++ map inline_matched ds) !! p = Some d.(dvalue).
Proof.
  intros -> Hp Hlast Hds Hms. apply winners_Some.
  exists (ms ++ map inline_matched d1), (inline_matched d), (map inline_matched d2).
  assert (d.(important) = false) as Hd by (apply Hds; [set_solver|done]).
  split_and!; [by rewrite map_app, <-app_assoc|done..| |].
  - intros x [Hx|Hx]%elem_of_app Hxp.
    + destruct (Hms x Hx Hxp). by apply below_inline.
    + apply list_elem_of_In, in_map_iff in Hx as (e & <- & He%list_elem_of_In).
      apply inline_leb. rewrite Hd. apply Hds; [set_solver|done].
  - intros x Hx Hxp. apply list_elem_of_In, in_map_iff in Hx as (e & <- & He%list_elem_of_In).
    by destruct (Hlast e He).
Qed.

Lemma inline_style_wins_witness :
  let red := MkDeclaration (str "color") (VColor (Rgba 255 0 0 255)) false in
  let blue := MkDeclaration (str "color") (VColor (Rgba 0 0 255 255)) false in
  winners ([MkMatched Author (3, 0, 0)%N 7 red] ++ map inline_matched [red; blue]) !! str "color"
  = Some (VColor (Rgba 0 0 255 255)).
Proof.
  intros red blue.
  apply (inline_style_wins [MkMatched Author (3, 0, 0)%N 7 red] [red; blue] (str "color") [red] blue []).
  - reflexivity.
  - reflexivity.
  - intros e He. inversion He.
  - intros e [->|[->|He]%elem_of_cons]%elem_of_cons; [done..|inversion He].
  - intros m [->|He]%elem_of_cons; [done|inversion He].
Defined.

(** ** Specificity does not overflow *)
Definition simple_count (s : ComplexSelector) : nat :=
  sum_list (length ∘ simple_selectors <$> s.(compounds)).

Definition spec_sum (s : N * N * N) : N := (s.1.1 + s.1.2 + s.2)%N.

Lemma count_simple_ok acc s :
  (spec_sum acc < U32_MAX)%N → ∃ acc', count_simple acc s = Ok acc' ∧ (spec_sum acc' <= spec_sum acc + 1)%N.
Proof.
  destruct acc as [[i c] t]. unfold spec_sum; cbn [fst snd]. intros Hs.
  assert (∀ a, (a <= i + c + t)%N → checked_add_N U32_MAX a 1 = Ok (a + 1)%N) as Hadd.
  { intros a Ha. apply checked_add_N_Ok. split; [done|lia]. }
  destruct s; cbn [count_simple]; rewrite ?Hadd by lia; cbn [mbind res_bind];
    eexists; (split; [reflexivity|]); cbn; lia.
Qed.

Lemma count_simples_ok acc l :
  (spec_sum acc + N.of_nat (length l) <= U32_MAX)%N →
  ∃ acc', fold_res count_simple acc l = Ok acc' ∧ (spec_sum acc' <= spec_sum acc + N.of_nat (length l))%N.
Proof.
  revert acc; induction l as [|s l IH]; intros acc Hl; cbn [fold_res length] in *; [exists acc; split; [done|lia]|].
  destruct (count_simple_ok acc s) as (a1 & -> & H1); [lia|]. cbn [mbind res_bind].
  destruct (IH a1) as (a2 & -> & H2); [lia|]. exists a2. split; [done|lia].
Qed.

Lemma specificity_ok s :
  (N.of_nat (simple_count s) <= U32_MAX)%N → is_Ok (specificity s).
Proof.
  unfold specificity, simple_count.
  assert (∀ acc cs, (spec_sum acc + N.of_nat (sum_list (length ∘ simple_selectors <$> cs)) <= U32_MAX)%N →
    is_Ok (fold_res (λ acc c, fold_res count_simple acc c.(simple_selectors)) acc cs)) as H.
  { intros acc cs; revert acc; induction cs as [|c cs IH]; intros acc Hl; [by eexists|].
    cbn in Hl. cbn [fold_res]. destruct (count_simples_ok acc c.(simple_selectors)) as (a1 & -> & H1); [lia|].
    apply IH. lia. }
  intros Hs. apply H. unfold spec_sum. cbn [fst snd]. lia.
Qed.

(** ** The traversal *)

(** What the cascade asks of its inputs: well-formed selectors of a reasonable size, and inline
    styles that parse. *)
Definition sheets_ok (sheets : list (Origin * list Rule)) : Prop :=
  ∀ o rules rule s, (o, rules) ∈ sheets → rule ∈ rules → s ∈ rule.(selectors) →
    wf_selector s ∧ (N.of_nat (simple_count s) <= U32_MAX)%N.
Definition inline_ok (d : Document) (t : tree) : Prop :=
  ∀ x, x ∈ ids t → is_Ok (inline_style_declarations d x).

Lemma inline_ok_kids d id dt ts : inline_ok d (Tree id dt ts) → ∀ t, t ∈ ts → inline_ok d t.
Proof.
  intros Hin t Ht x Hx. apply Hin. csimpl. right. apply list_elem_of_join. exists (ids t). split; [done|].
  by apply list_elem_of_fmap_2.
Qed.

(** [styles] styles the tree [t] below inherited style [ps]: each element has the style that
    [compute_style_for] gives it under the style of its nearest styled ancestor, other nodes
    have none. *)
Fixpoint styled (d : Document) (sheets : list (Origin * list Rule)) (styles : gmap NodeId ComputedStyle)
    (ps : option ComputedStyle) (t : tree) : Prop :=
  match t with
  | Tree id dt ts =>
      (if is_element dt then ∃ s, styles !! id = Some s ∧ compute_style_for d id sheets ps = Ok s
       else styles !! id = None)
      ∧ let own := if is_element dt then styles !! id else ps in
        foldr and True (styled d sheets styles own <$> ts)
  end.

Section Traversal.
Context (d : Document) (K : NodeId → list NodeId) (HR : Rep d K) (sheets : list (Origin * list Rule)).
Hypothesis (Hsheets : sheets_ok sheets).

Lemma best_specificity_ok x sels :
  live d x → (∀ s, s ∈ sels → wf_selector s ∧ (N.of_nat (simple_count s) <= U32_MAX)%N) →
  is_Ok (best_specificity d x sels).
Proof.
  intros Hx Hs. apply fold_res_ok. intros acc s Hin. destruct (Hs s Hin) as [Hwf Hc].
  destruct (selector_decides d x s) as [b ->]; [by exists K|done..|]. cbn [mbind res_bind].
  destruct b; [|by eexists]. destruct (specificity_ok s Hc) as [sp ->]. by eexists.
Qed.

Lemma match_rules_ok x o order rules :
  live d x → (∀ rule s, rule ∈ rules → s ∈ rule.(selectors) →
    wf_selector s ∧ (N.of_nat (simple_count s) <= U32_MAX)%N) →
  is_Ok (match_rules d x o order rules).
Proof.
  intros Hx. revert order; induction rules as [|rule rules IH]; intros order Hs; [by eexists|].
  cbn [match_rules]. unfold match_rule.
  destruct (best_specificity_ok x rule.(selectors) Hx) as [b ->]; [intros; eapply Hs; [left|done]|].
  cbn [mbind res_bind].
  destruct (IH (S order)) as [ms Hms]; [intros; eapply Hs; [by right|done]|].
  destruct b; cbn [mbind res_bind]; rewrite Hms; by eexists.
Qed.

Lemma compute_style_ok x ps :
  live d x → is_Ok (inline_style_declarations d x) → is_Ok (compute_style_for d x sheets ps).
Proof.
  intros Hx Hinline. unfold compute_style_for, all_matched.
  assert (is_Ok (match_sheets d x sheets)) as [ms ->].
  { revert Hsheets. induction sheets as [|[o rules] sh IH]; intros Hsh; [by eexists|].
    cbn [match_sheets]. destruct (match_rules_ok x o 0 rules Hx) as [ms ->].
    { intros; eapply Hsh; [left|done..]. }
    cbn [mbind res_bind]. destruct IH as [ms' ->]; [|by eexists].
    intros o' rules' rule s Hin. apply (Hsh o' rules'). by right. }
  cbn [mbind res_bind]. destruct Hinline as [ds ->]. by eexists.
Qed.

(** The map restricted to a tree's nodes is all that [styled] looks at. *)
Lemma styled_frame styles styles' ps t :
  (∀ x, x ∈ ids t → styles !! x = styles' !! x) →
  styled d sheets styles ps t → styled d sheets styles' ps t.
Proof.
  revert ps; induction t as [id dt ts IH] using tree_rose_ind. intros ps Hag [Hid Hts]. cbn [ids] in Hag.
  split; [rewrite <-Hag by left; done|]. rewrite <-(Hag id) by left. revert Hts.
  generalize (if is_element dt then styles !! id else ps). intros own.
  assert (∀ x, x ∈ mjoin (ids <$> ts) → styles !! x = styles' !! x) as Hag' by (intros; apply Hag; by right).
  clear Hag Hid. induction ts as [|t ts IHts]; [done|]. apply Forall_cons in IH as [Ht IH].
  intros [H1 H2]. split; [apply Ht; [|done]|apply IHts; [done| |done]];
    intros x Hx; apply Hag'; csimpl; set_solver.
Qed.
(** What one call of [cascade_subtree] does on the tree [t]. *)
Definition subtree_spec (t : tree) : Prop := ∀ fuel ps styles,
  unfolds d.(nodes) K t → length (ids t) ≤ fuel → (∀ x, x ∈ ids t → styles !! x = None) → inline_ok d t →
  ∃ styles', cascade_subtree fuel d sheets (tid t) ps styles = Ok styles'
    ∧ styled d sheets styles' ps t ∧ ∀ x, x ∉ ids t → styles' !! x = styles !! x.

Lemma cascade_kids ts fuel own styles :
  Forall subtree_spec ts → Forall (unfolds d.(nodes) K) ts → NoDup (mjoin (ids <$> ts)) →
  length (mjoin (ids <$> ts)) ≤ fuel → (∀ x, x ∈ mjoin (ids <$> ts) → styles !! x = None) →
  (∀ t, t ∈ ts → inline_ok d t) →
  ∃ styles', fold_res (λ styles child, cascade_subtree fuel d sheets child own styles) styles (tid <$> ts)
             = Ok styles'
    ∧ foldr and True (styled d sheets styles' own <$> ts)
    ∧ ∀ x, x ∉ mjoin (ids <$> ts) → styles' !! x = styles !! x.
Proof.
  revert styles; induction ts as [|t ts IH]; intros styles HIH Hun Hnd Hlen Hnone Hin; [by exists styles|].
  apply Forall_cons in HIH as [Ht HIH], Hun as [Hut Hun]. csimpl in Hnd. csimpl in Hlen. csimpl in Hnone.
  rewrite length_app in Hlen. apply NoDup_app in Hnd as (_ & Hdis & Hnd).
  destruct (Ht fuel own styles Hut) as (s1 & H1 & Hst & Hfr); [lia|set_solver|apply Hin; left|].
  destruct (IH s1 HIH Hun Hnd) as (s2 & H2 & Hsts & Hfrs); [lia| |intros; apply Hin; by right|].
  { intros x Hx. rewrite Hfr; [apply Hnone; set_solver|]. intros Hx'. by apply (Hdis x). }
  exists s2. csimpl. cbn [fold_res]. rewrite H1. cbn [mbind res_bind]. split_and!; [done| |done|].
  - eapply styled_frame; [|exact Hst]. intros x Hx. symmetry. apply Hfrs. by apply Hdis.
  - intros x Hx. rewrite Hfrs, Hfr; [done|set_solver..].
Qed.

Lemma cascade_subtree_ok t : subtree_spec t.
Proof.
  induction t as [id dt ts IH] using tree_rose_ind. intros fuel ps styles Hun Hlen Hnone Hin.
  pose proof (unfolds_NoDup _ _ HR _ Hun) as Hnd. inversion Hun as [? r ? Hr Hts Hall]; subst.
  csimpl in Hlen. csimpl in Hnone. csimpl in Hnd. apply NoDup_cons in Hnd as [Hid Hnd].
  assert (live d id) as Hlive by by exists r.
  destruct fuel as [|fuel]; [lia|]. cbn [cascade_subtree tid]. unfold data, index. rewrite Hr.
  cbn [unwrap mbind res_bind]. destruct (compute_style_ok id ps Hlive (Hin id ltac:(left))) as [s Hs].
  assert (∃ styles1, (if is_element r.(r_data) then
      style ← compute_style_for d id sheets ps; Ok (Some style, <[id := style]> styles)
     else Ok (ps, styles)) = Ok (if is_element r.(r_data) then Some s else ps, styles1)
    ∧ styles1 !! id = (if is_element r.(r_data) then Some s else None)
    ∧ ∀ x, x ≠ id → styles1 !! x = styles !! x) as (styles1 & -> & Hown & Hfr1).
  { destruct (is_element _); [|exists styles; split_and!; [done|apply Hnone; set_solver|done]].
    rewrite Hs. exists (<[id := s]> styles). split_and!; [done|apply lookup_insert_eq|].
    intros x Hx. by rewrite lookup_insert_ne. }
  cbn [mbind res_bind]. rewrite (children_K _ _ _ HR Hlive). cbn [mbind res_bind]. rewrite <-Hts.
  destruct (cascade_kids ts fuel (if is_element r.(r_data) then Some s else ps) styles1) as (s2 & -> & Hsty & Hfr2);
    [done..|lia| |by apply (inline_ok_kids d id r.(r_data))|].
  { intros x Hx. rewrite Hfr1; [apply Hnone; set_solver|set_solver]. }
  exists s2. assert (s2 !! id = styles1 !! id) as Hs2 by by apply Hfr2.
  split_and!; [done| |intros x Hx; rewrite Hfr2, Hfr1; set_solver].
  cbn [styled]. rewrite Hs2, Hown. destruct (is_element _); split; eauto.
Qed.

End Traversal.

(** ** The matched declarations of an element *)
Lemma fold_res_app {A B} (f : B → A → res B) l1 l2 b :
  fold_res f b (l1 ++ l2) = (b' ← fold_res f b l1; fold_res f b' l2).
Proof.
  revert b; induction l1 as [|x l1 IH]; intros b; [done|]. cbn [app fold_res].
  destruct (f b x); cbn [mbind res_bind]; [apply IH|done..].
Qed.

Lemma fold_res_join {A B C} (f : B → A → res B) (g : C → list A) cs b :
  fold_res (λ b c, fold_res f b (g c)) b cs = fold_res f b (mjoin (g <$> cs)).
Proof.
  revert b; induction cs as [|c cs IH]; intros b; [done|]. csimpl. cbn [fold_res]. rewrite fold_res_app.
  destruct (fold_res f b (g c)); cbn [mbind res_bind]; [apply IH|done..].
Qed.

(** Within the bound of [u32] the specificity is the weight. *)
Lemma specificity_weight s :
  (N.of_nat (simple_count s) <= U32_MAX)%N → specificity s = Ok (weight s).
Proof.
  unfold specificity, weight, count, simple_count. rewrite (fold_res_join count_simple simple_selectors).
  replace (sum_list (length ∘ simple_selectors <$> compounds s))
    with (length (mjoin (simple_selectors <$> compounds s))).
  2: { induction (compounds s) as [|c cs IH]; [done|]. csimpl. rewrite length_app, IH. done. }
  generalize (mjoin (simple_selectors <$> compounds s)). intros l.
  set (n f := N.of_nat (length (filter (λ x : SimpleSelector, f x = true) l))).
  assert (∀ i c t, (i + c + t + N.of_nat (length l) <= U32_MAX)%N →
    fold_res count_simple (i, c, t) l = Ok (i + n is_id, c + n is_class, t + n is_type)%N) as Hgo.
  { subst n. induction l as [|x l IH]; intros i c t Hl; cbn [fold_res length] in *; [by rewrite !N.add_0_r|].
    assert (∀ a, (a <= i + c + t)%N → checked_add_N U32_MAX a 1 = Ok (a + 1)%N) as Hadd.
    { intros a Ha. apply checked_add_N_Ok. split; [done|lia]. }
    destruct x; cbn [count_simple]; rewrite ?Hadd by lia; cbn [mbind res_bind]; rewrite IH by lia;
      rewrite !filter_cons; cbn [is_id is_class is_type]; repeat (case_decide; try done); cbn [length];
      repeat match goal with |- Ok _ = Ok _ => f_equal | |- (_, _) = (_, _) => f_equal end; lia. }
  intros Hl. rewrite Hgo by lia. done.
Qed.

(** The best specificity of the selectors seen so far. *)
Definition best_of (d : Document) (x : NodeId) (sels : list ComplexSelector) (b : option (N * N * N)) : Prop :=
  match b with
  | Some sp => greatest_weight d x sels sp
  | None => ∀ s, s ∈ sels → ¬ selected d s (length s.(combinators)) x
  end.

Lemma specificity_lt_irrefl a : ¬ specificity_lt a a.
Proof. destruct a as [[??]?]. unfold specificity_lt. lia. Qed.
Lemma specificity_le_trans a b c : ¬ specificity_lt b a → ¬ specificity_lt c b → ¬ specificity_lt c a.
Proof.
  destruct a as [[i c0] t], b as [[i' c'] t'], c as [[i2 c2] t2]. unfold specificity_lt. intros H1 H2 H.
  destruct (N.lt_trichotomy i i') as [?|[->|?]]; [|destruct (N.lt_trichotomy c0 c') as [?|[->|?]]|]; lia.
Qed.
Lemma specificity_lt_le a b : specificity_lt a b → ¬ specificity_lt b a.
Proof. destruct a as [[??]?], b as [[??]?]. unfold specificity_lt. lia. Qed.

Lemma best_of_snoc d x sels b s :
  best_of d x sels b → selected d s (length s.(combinators)) x →
  best_of d x (sels ++ [s]) (spec_max b (weight s)).
Proof.
  intros Hb Hs. destruct b as [sp|]; cbn [spec_max best_of] in *.
  - destruct Hb as [(s0 & H0 & Hs0 & <-) Hmax].
    destruct (str_leb _ _) eqn:E.
    + apply spec_key_leb in E. split; [exists s; split_and!; [set_solver|done..]|].
      intros s' [H|[-> |H]%elem_of_cons]%elem_of_app Hs'; [|apply specificity_lt_irrefl|by apply not_elem_of_nil in H].
      eapply specificity_le_trans; [exact (Hmax s' H Hs')|exact E].
    + split; [exists s0; split_and!; [set_solver|done..]|].
      intros s' [H|[-> |H]%elem_of_cons]%elem_of_app Hs'; [by apply Hmax| |by apply not_elem_of_nil in H].
      apply specificity_lt_le. destruct (decide (specificity_lt (weight s) (weight s0))) as [|Hn]; [done|].
      apply spec_key_leb in Hn. congruence.
  - split; [exists s; split_and!; [set_solver|done..]|].
    intros s' [H|[-> |H]%elem_of_cons]%elem_of_app Hs'; [by apply Hb in Hs'|apply specificity_lt_irrefl|by apply not_elem_of_nil in H].
Qed.

Lemma best_of_skip d x sels b s :
  best_of d x sels b → ¬ selected d s (length s.(combinators)) x → best_of d x (sels ++ [s]) b.
Proof.
  intros Hb Hs. destruct b as [sp|]; cbn [best_of] in *.
  - destruct Hb as [(s0 & H0 & Hs0 & <-) Hmax]. split; [exists s0; split_and!; [set_solver|done..]|].
    intros s' [H|[-> |H]%elem_of_cons]%elem_of_app Hs'; [by apply Hmax|done|by apply not_elem_of_nil in H].
  - intros s' [H|[-> |H]%elem_of_cons]%elem_of_app; [by apply Hb|done|by apply not_elem_of_nil in H].
Qed.

Section Matched.
Context (d : Document) (x : NodeId) (Hwf : WF d) (Hx : live d x).

Lemma best_specificity_spec sels :
  (∀ s, s ∈ sels → wf_selector s ∧ (N.of_nat (simple_count s) <= U32_MAX)%N) →
  ∃ b, best_specificity d x sels = Ok b ∧ best_of d x sels b.
Proof.
  unfold best_specificity. change sels with ([] ++ sels) at 3.
  assert (best_of d x [] None) as H0 by (intros s H; by apply not_elem_of_nil in H).
  revert H0. generalize (@nil ComplexSelector) as l0, (@None (N * N * N)) as b0.
  induction sels as [|s sels IH]; intros l0 b0 H0 Hs; cbn [fold_res].
  { exists b0. rewrite app_nil_r. by split. }
  destruct (Hs s) as [Hw Hc]; [left|].
  destruct (matches_decides d x s Hwf Hx Hw) as (m & -> & Hm). cbn [mbind res_bind].
  replace (l0 ++ s :: sels) with ((l0 ++ [s]) ++ sels) by by rewrite <-app_assoc.
  destruct m; [rewrite (specificity_weight s Hc)|]; cbn [mbind res_bind];
    (apply IH; [|intros; apply Hs; by right]).
  - apply best_of_snoc; [done|by apply Hm].
  - apply best_of_skip; [done|]. intros H. by apply Hm in H.
Qed.

Lemma match_rules_spec o order rules :
  (∀ rule s, rule ∈ rules → s ∈ rule.(selectors) → wf_selector s ∧ (N.of_nat (simple_count s) <= U32_MAX)%N) →
  ∃ parts, match_rules d x o order rules = Ok (mjoin parts)
    ∧ Forall2 (contributes d x) (imap (λ i rule, (o, order + i, rule)) rules) parts.
Proof.
  revert order; induction rules as [|rule rules IH]; intros order Hs; [by exists []|].
  destruct (IH (S order)) as (parts & Hm & Hparts); [intros; eapply Hs; [by right|done]|].
  destruct (best_specificity_spec rule.(selectors)) as (b & Hb & Hbest); [intros; eapply Hs; [left|done]|].
  assert (∃ part, match_rule d x o order rule = Ok part ∧ contributes d x (o, order, rule) part) as (part & Hp & Hc).
  { unfold match_rule. rewrite Hb. cbn [mbind res_bind]. destruct b as [sp|]; eexists; (split; [done|]);
      by constructor. }
  exists (part :: parts). cbn [match_rules]. rewrite Hp. cbn [mbind res_bind]. rewrite Hm. cbn [mbind res_bind].
  split; [done|]. cbn [imap]. rewrite Nat.add_0_r. constructor; [done|].
  erewrite imap_ext; [exact Hparts|]. intros i y _. cbn. by rewrite Nat.add_succ_r.
Qed.

Lemma match_sheets_spec sheets :
  sheets_ok sheets →
  ∃ parts, match_sheets d x sheets = Ok (mjoin parts) ∧ Forall2 (contributes d x) (indexed_rules sheets) parts.
Proof.
  induction sheets as [|[o rules] sheets IH]; intros Hok; [by exists []|].
  destruct (match_rules_spec o 0 rules) as (p1 & H1 & HP1); [intros; eapply Hok; [left|done..]|].
  destruct IH as (p2 & H2 & HP2); [intros o' rules' rule s Hin; apply (Hok o' rules'); by right|].
  exists (p1 ++ p2). cbn [match_sheets]. rewrite H1. cbn [mbind res_bind]. rewrite H2. cbn [mbind res_bind].
  split; [by rewrite join_app|]. unfold indexed_rules. csimpl. by apply Forall2_app.
Qed.
End Matched.

(** C29. The cascade of an element.  On a well-formed document, for an element whose inline style
    parses, the declarations that apply are computed without a panic and are, in order: for each
    rule of each sheet, all its declarations with the greatest weight among the selectors that
    select the element, or none when no selector does; then the inline declarations.  A property
    gets the value of the declaration that no other one of that property outranks, the last one
    among equals; where [outranks] is the rule of the cascade by cases: important before normal,
    the author before the user agent and the reverse when important, then specificity, then the
    place of the rule in its sheet.  The element's computed style is built from those values. *)
Theorem cascade_winner d x sheets inline :
  WF d → live d x → sheets_ok sheets → inline_style_declarations d x = Ok inline →
  ∃ parts, let ms := mjoin parts ++ map inline_matched inline in
    all_matched d x sheets = Ok ms
    ∧ Forall2 (contributes d x) (indexed_rules sheets) parts
    ∧ (∀ p v, winners ms !! p = Some v ↔
         ∃ l1 m l2, ms = l1 ++ m :: l2 ∧ m.(m_declaration).(property) = p
           ∧ m.(m_declaration).(dvalue) = v
           ∧ (∀ y, y ∈ l1 → y.(m_declaration).(property) = p → ¬ outranks y m)
           ∧ (∀ y, y ∈ l2 → y.(m_declaration).(property) = p → outranks m y))
    ∧ ∀ ps, compute_style_for d x sheets ps = Ok (style_of_winners (winners ms) ps).
Proof.
  intros Hwf Hx Hok Hin. destruct (match_sheets_spec d x Hwf Hx sheets Hok) as (parts & Hm & Hparts).
  exists parts. set (ms := mjoin parts ++ map inline_matched inline).
  assert (all_matched d x sheets = Ok ms) as Hall.
  { unfold all_matched. rewrite Hm. cbn [mbind res_bind]. by rewrite Hin. }
  split_and!; [done..| |].
  - intros p v. rewrite winners_Some. setoid_rewrite key_leb_true. by setoid_rewrite key_leb_false.
  - intros ps. unfold compute_style_for. by rewrite Hall.
Qed.

(** The traversal returns and styles the tree below the root. *)
Lemma cascade_tree_ok d K sheets t :
  Rep d K → sheets_ok sheets → d.(doc_root) = Some (tid t) → unfolds d.(nodes) K t → inline_ok d t →
  ∃ styles, cascade d sheets = Ok styles ∧ styled d sheets styles None t ∧ (∀ x, x ∉ ids t → styles !! x = None).
Proof.
  intros HR Hsh Hroot Ht Hin.
  destruct (cascade_subtree_ok d K HR sheets Hsh t (walk_fuel d) None ∅ Ht) as (styles & Hc & Hst & Hfr).
  - pose proof (unfolds_size _ _ HR _ Ht). unfold walk_fuel. lia.
  - intros x _. apply lookup_empty.
  - done.
  - exists styles. unfold cascade, root. rewrite Hroot. cbn. split_and!; [done..|].
    intros x Hx. rewrite Hfr by done. apply lookup_empty.
Qed.

Lemma cascade_styles_tree d K sheets :
  Rep d K → sheets_ok sheets → (∀ t, unfolds d.(nodes) K t → inline_ok d t) →
  ∃ styles t, cascade d sheets = Ok styles ∧ d.(doc_root) = Some (tid t)
    ∧ unfolds d.(nodes) K t ∧ styled d sheets styles None t ∧ (∀ x, x ∉ ids t → styles !! x = None).
Proof.
  intros HR Hsh Hin. destruct (rep_root _ _ HR) as (r & rec & Hroot & Hrec & _).
  destruct (unfolds_exists _ _ HR r) as (t & Ht & <-); [by exists rec|].
  destruct (cascade_tree_ok d K sheets t HR Hsh Hroot Ht (Hin t Ht)) as (styles & Hc & Hst & Hfr). by exists styles, t.
Qed.

Lemma cascade_styles d sheets :
  WF d → sheets_ok sheets → (∀ K t, Rep d K → unfolds d.(nodes) K t → inline_ok d t) →
  ∃ styles r t, cascade d sheets = Ok styles ∧ d.(doc_root) = Some r ∧ tid t = r
    ∧ styled d sheets styles None t
    ∧ (∀ x, x ∈ ids t ↔ inclusive_ancestor d r x) ∧ (∀ x, x ∉ ids t → styles !! x = None).
Proof.
  intros [K HR] Hsh Hin. destruct (cascade_styles_tree d K sheets HR Hsh (λ t, Hin K t HR)) as (styles & t & Hc & Hr & Ht & Hst & Hout).
  exists styles, (tid t), t. split_and!; [done..| |done].
  intros x. rewrite (rep_inclusive_ancestor _ _ HR). by apply (unfolds_ids d K).
Qed.

(** ** Parsed style sheets meet the cascade's requirements *)
Lemma simple_loop_length toks l : simple_loop toks = Some l → length l ≤ length toks.
Proof.
  revert l. induction toks as [toks IH] using (induction_ltof1 _ (@length Token)). unfold ltof in IH. intros l H.
  destruct toks as [|t toks]; cbn in H; [by injection H as <-|].
  repeat (case_match; try done); subst; cbn [length];
    (apply fmap_Some in H as (k & Hk & ->); apply IH in Hk; cbn in *; lia).
Qed.

Definition raw_size (st : RawSt) : nat := sum_list (length <$> st.(raw_done)) + length st.(raw_last).

Lemma sum_list_snoc l n : sum_list (l ++ [n]) = sum_list l + n.
Proof. rewrite (sum_list_with_app id). cbn. lia. Qed.

Lemma raw_step_size st t : raw_size (raw_step st t) ≤ S (raw_size st).
Proof.
  unfold raw_size, raw_step. repeat case_match; cbn; rewrite ?fmap_app; cbn;
    rewrite ?sum_list_snoc, ?length_app; cbn; lia.
Qed.

Lemma raw_steps_size st toks : raw_size (foldl raw_step st toks) ≤ raw_size st + length toks.
Proof.
  revert st; induction toks as [|t toks IH]; intros st; cbn; [lia|].
  specialize (IH (raw_step st t)). pose proof (raw_step_size st t). lia.
Qed.

Lemma trim_length l : length (trim_whitespace l) ≤ length l.
Proof. unfold trim_whitespace. case_match; cbn; [lia|]. rewrite length_take, length_drop. lia. Qed.

Lemma compounds_size raws cs :
  mapM (λ toks, Build_Compound <$> parse_simple_selectors toks) raws = Some cs →
  sum_list (length ∘ simple_selectors <$> cs) ≤ sum_list (length <$> raws).
Proof.
  intros H%mapM_Some. induction H as [|raw c raws cs Hc _ IH]; [done|]. cbn.
  apply fmap_Some in Hc as (l & Hl & ->). destruct raw as [|t raw]; [done|].
  apply simple_loop_length in Hl. cbn in *. lia.
Qed.

Lemma parse_complex_selector_size toks s : parse_complex_selector toks = Some s → simple_count s ≤ length toks.
Proof.
  unfold parse_complex_selector. pose proof (trim_length toks) as Htr.
  destruct (trim_whitespace toks) as [|t ts]; [done|].
  pose proof (raw_steps_size (MkRaw [] [] [] false) (t :: ts)) as Hsz. revert Hsz.
  generalize (foldl raw_step (MkRaw [] [] [] false) (t :: ts)). intros st Hsz.
  intros (cs & Hcs & [= <-])%bind_Some. unfold simple_count. cbn [compounds].
  apply compounds_size in Hcs. rewrite fmap_app in Hcs. cbn in Hcs. rewrite sum_list_snoc in Hcs.
  unfold raw_size in Hsz. cbn in Hsz, Htr. lia.
Qed.

Lemma split_on_length {A} (f : A → bool) l part : part ∈ split_on f l → length part ≤ length l.
Proof.
  revert part; induction l as [|y l IH]; intros part; cbn.
  { intros ->%list_elem_of_singleton. done. }
  destruct (f y); [intros [->|Hp]%elem_of_cons; [cbn; lia|]; specialize (IH _ Hp); lia|].
  destruct (split_on f l) as [|p ps]; intros [->|Hp]%elem_of_cons; cbn; [lia|inversion Hp| |].
  - specialize (IH p). cbn in *. assert (p ∈ p :: ps) as H by left. specialize (IH H). lia.
  - specialize (IH part). assert (part ∈ p :: ps) as H by (by right). specialize (IH H). lia.
Qed.

(** A rule of a sheet whose tokens number at most [n]. *)
Definition rule_ok (n : nat) (rule : Rule) : Prop :=
  ∀ s, s ∈ rule.(selectors) → wf_selector s ∧ simple_count s ≤ n.

(** The loop's states: rules with that property, and a rest no longer than the sheet. *)
Definition rules_inv (n : nat) (x : list Rule * list Token + list Rule) : Prop :=
  match x with
  | inl st => Forall (rule_ok n) st.1 ∧ length st.2 ≤ n
  | inr rules => Forall (rule_ok n) rules
  end.

Lemma selector_list_ok n toks ds :
  length toks ≤ n → rule_ok n (MkRule (parse_selector_list toks) ds).
Proof.
  intros Hn s Hs. apply list_elem_of_omap in Hs as (part & Hp & Hs).
  split; [by eapply parse_complex_selector_wf|]. apply parse_complex_selector_size in Hs.
  apply split_on_length in Hp. lia.
Qed.

Lemma block_step_inv n rs u x :
  Forall (rule_ok n) rs → length u ≤ n → block_step rs u = Ok x → rules_inv n x.
Proof.
  intros Hrs Hu. unfold block_step. destruct (position _ u) as [brace|]; [|by intros [= <-]].
  destruct (position _ (drop (S brace) u)) as [close|]; [|by intros [= <-]]. cbv zeta.
  pose proof (λ ds, selector_list_ok n (take brace u) ds) as Hsel.
  destruct (parse_selector_list (take brace u)) as [|sel sels].
  - intros [= <-]. split; [done|]. cbn. rewrite !length_drop. lia.
  - intros (ds & _ & [= <-])%bind_Ok. split; cbn; [|rewrite !length_drop; lia].
    apply Forall_app. split; [done|]. constructor; [|done]. apply Hsel. rewrite length_take. lia.
Qed.

Lemma parse_rules_rule_ok toks rules :
  parse_rules toks = Ok rules → Forall (rule_ok (length toks)) rules.
Proof.
  unfold parse_rules. set (n := length toks).
  apply (iterate_inv (λ st, rules_inv n (inl st)) (λ r, rules_inv n (inr r)) rules_step); [|by split].
  intros [rs u] x [Hrs Hu] Hx. cbn [fst snd] in *.
  assert (rules_inv n x) as Hgoal; [|by destruct x].
  destruct u as [|t u]; [by injection Hx as <-|].
  destruct t; try (by eapply block_step_inv); injection Hx as <-; cbn in *; (split; [done|]); cbn; [|lia].
  destruct (skip_at_rule_suffix 0 u) as [k Hk]. rewrite Hk, length_app in Hu. lia.
Qed.

Lemma parse_sheet_ok s rules :
  parse s = Ok rules → (N.of_nat (length s) <= U32_MAX)%N →
  ∀ rule sel, rule ∈ rules → sel ∈ rule.(selectors) →
  wf_selector sel ∧ (N.of_nat (simple_count sel) <= U32_MAX)%N.
Proof.
  intros Hp Hlen rule sel Hr Hs. unfold parse in Hp. apply bind_Ok in Hp as (toks & Ht & Hp).
  destruct (tokenize_ok s) as (toks' & Ht' & Hl & _). rewrite Ht in Ht'. injection Ht' as <-.
  apply parse_rules_rule_ok in Hp. rewrite Forall_forall in Hp. destruct (Hp rule Hr sel Hs) as [? ?].
  split; [done|lia].
Qed.

(** ** The whole pipeline on ASCII pages *)
Definition ascii_attributes (dt : NodeData) : bool :=
  match dt with
  | NElement _ attrs => forallb (λ kv, forallb is_ascii kv.2) attrs
  | _ => true
  end.
Definition ascii_document (d : Document) : bool :=
  forallb (λ kr, ascii_attributes kr.2.(r_data)) (map_to_list d.(nodes)).

Lemma ascii_inline_ok d K t : Rep d K → ascii_document d = true → unfolds d.(nodes) K t → inline_ok d t.
Proof.
  intros HR Hd Hun x Hx. destruct (unfolds_live _ _ HR t x Hun Hx) as [r Hr]. unfold inline_style_declarations, data, index. rewrite Hr. cbn [unwrap mbind res_bind].
  unfold ascii_document in Hd. rewrite forallb_forall in Hd.
  specialize (Hd (x, r)). rewrite <-list_elem_of_In, elem_of_map_to_list in Hd. specialize (Hd Hr). cbn in Hd.
  destruct (r_data r) as [|tag attrs|]; try by eexists. cbn in Hd.
  destruct (list_find _ attrs) as [[i [k v]]|] eqn:Ef; [|by eexists].
  apply list_find_Some in Ef as (Hi & _ & _). rewrite forallb_forall in Hd.
  assert (forallb is_ascii v = true) as Hv.
  { apply (Hd (k, v)). apply list_elem_of_In. by eapply list_elem_of_lookup_2. }
  destruct (tokenize_ok v) as (toks & Ht & _). rewrite Ht. cbn [mbind res_bind].
  apply parse_declarations_ok. by apply (tokenize_ascii v).
Qed.

Lemma parsed_sheets_ok ua author s1 s2 :
  parse s1 = Ok ua → parse s2 = Ok author →
  (N.of_nat (length s1) <= U32_MAX)%N → (N.of_nat (length s2) <= U32_MAX)%N →
  sheets_ok [(Ua, ua); (Author, author)].
Proof.
  intros H1 H2 L1 L2 o rules rule s Hin Hr Hs.
  apply elem_of_cons in Hin as [[= -> ->]|[[= -> ->]|Hin]%elem_of_cons].
  - by apply (parse_sheet_ok s1 ua H1 L1 rule).
  - by apply (parse_sheet_ok s2 author H2 L2 rule).
  - inversion Hin.
Qed.

(** Styling an ASCII page never fails: the built-in sheet and any author sheet of at most
    2^32 - 1 ASCII characters parse, and the cascade over any well-formed document with ASCII
    attributes returns a style for exactly its elements. *)
Theorem style_pipeline_total d s :
  WF d → ascii_document d = true → forallb is_ascii s = true → (N.of_nat (length s) <= U32_MAX)%N →
  ∃ ua author styles r t,
    ua_stylesheet = Ok ua ∧ parse s = Ok author
    ∧ cascade d [(Ua, ua); (Author, author)] = Ok styles
    ∧ d.(doc_root) = Some r ∧ tid t = r ∧ styled d [(Ua, ua); (Author, author)] styles None t
    ∧ (∀ x, x ∈ ids t ↔ inclusive_ancestor d r x) ∧ (∀ x, x ∉ ids t → styles !! x = None).
Proof.
  intros Hwf Hd Hs Hlen.
  destruct (parse_rules_ascii UA_STYLESHEET_SOURCE) as [ua Hua]; [vm_compute; reflexivity|].
  destruct (parse_rules_ascii s Hs) as [author Hau].
  destruct (cascade_styles d [(Ua, ua); (Author, author)] Hwf) as (styles & r & t & H);
    [eapply parsed_sheets_ok; eauto; vm_compute; discriminate|by intros; eapply ascii_inline_ok|].
  exists ua, author, styles, r, t. split; [done|]. split; [done|]. exact H.
Qed.

Lemma style_pipeline_total_witness :
  ∃ ua author styles r t,
    ua_stylesheet = Ok ua ∧ parse (str "p { color: red }") = Ok author
    ∧ cascade demo [(Ua, ua); (Author, author)] = Ok styles
    ∧ demo.(doc_root) = Some r ∧ tid t = r ∧ styled demo [(Ua, ua); (Author, author)] styles None t
    ∧ (∀ x, x ∈ ids t ↔ inclusive_ancestor demo r x) ∧ (∀ x, x ∉ ids t → styles !! x = None).
Proof.
  apply (style_pipeline_total demo (str "p { color: red }")).
  - apply demo_WF.
  - vm_compute. reflexivity.
  - reflexivity.
  - vm_compute. discriminate.
Defined.

(** A paragraph with an inline colour; both sheets have an important colour, and the author's rule
    has the greater specificity. *)
Definition contested_doc : Document :=
  default default_doc (run_script [OpCreate (NElement (str "p") [(str "id", str "a"); (str "style", str "color: green")]);
                                   OpAppend 0 1]%N).
Definition sheet_of (s : string) : list Rule := default [] (res_to_option (parse (str s))).
Definition contested_sheets : list (Origin * list Rule) :=
  [(Ua, sheet_of "p { color: red !important }");
   (Author, sheet_of "p { color: blue } #a { color: blue !important }")].
Definition contested_inline : list Declaration :=
  default [] (res_to_option (inline_style_declarations contested_doc 1)).

(** The user agent's important colour wins. *)
Example contested_colour :
  (s ← compute_style_for contested_doc 1 contested_sheets None; Ok s.(color)) = Ok (Rgba 255 0 0 255).
Proof. vm_compute. reflexivity. Qed.

Lemma cascade_winner_witness :
  ∃ parts, let ms := mjoin parts ++ map inline_matched contested_inline in
    all_matched contested_doc 1%N contested_sheets = Ok ms
    ∧ Forall2 (contributes contested_doc 1%N) (indexed_rules contested_sheets) parts
    ∧ (∀ p v, winners ms !! p = Some v ↔
         ∃ l1 m l2, ms = l1 ++ m :: l2 ∧ m.(m_declaration).(property) = p
           ∧ m.(m_declaration).(dvalue) = v
           ∧ (∀ y, y ∈ l1 → y.(m_declaration).(property) = p → ¬ outranks y m)
           ∧ (∀ y, y ∈ l2 → y.(m_declaration).(property) = p → outranks m y))
    ∧ ∀ ps, compute_style_for contested_doc 1%N contested_sheets ps = Ok (style_of_winners (winners ms) ps).
Proof.
  apply (cascade_winner contested_doc 1%N contested_sheets contested_inline).
  - apply reachable_WF, (run_script_reachable [OpCreate (NElement (str "p") [(str "id", str "a"); (str "style", str "color: green")]);
      OpAppend 0 1]%N). vm_compute. reflexivity.
  - unfold live. vm_compute. eauto.
  - apply (parsed_sheets_ok _ _ (str "p { color: red !important }") (str "p { color: blue } #a { color: blue !important }"));
      [vm_compute; reflexivity..|vm_compute; discriminate|vm_compute; discriminate].
  - vm_compute. reflexivity.
Defined.
