(* ===== verification/Layout.v ===== *)
(** * Layout ([core/layout/src/]): styled document to fragment tree

    Text measurement ([blueice_font], which wraps a font library and an embedded font) is the
    parameter [measure]; everything else is modelled at binary64. *)

From S2P Require Import Prelude Float Dom CssTokenizer CssValue CssSelector CssParser CssCascade.

(** ** Fragments *)
Inductive FragmentKind := FBlock | FLine | FText (text : list N).

#[local] Unset Elimination Schemes.
Inductive Fragment := MkFragment {
  f_node : option NodeId;
  f_kind : FragmentKind;
  f_x : f64;
  f_y : f64;
  f_width : f64;
  f_height : f64;
  f_children : list Fragment;
}.
#[local] Set Elimination Schemes.

Definition empty_block : Fragment := MkFragment None FBlock f64_zero f64_zero f64_zero f64_zero [].

Record Constraints := { available_width : f64 }.

Abbreviation StyleMap := (gmap NodeId ComputedStyle) (only parsing).

(** ** Words and lines ([text.rs]) *)
Record Word := MkWord { w_text : list N; w_width : f64; style_node : NodeId }.

Definition default_line_height (font_size_px : f64) : f64 := f64_mul font_size_px (f64_lit "1.2").

(** The loop of [break_into_lines]: finished lines, the current line [words[line_start..i]] and
    its width. *)
Record LineSt := MkLineSt { ls_lines : list (list Word); ls_line : list Word; ls_width : f64 }.

Definition line_step (available_width space_width : f64) (st : LineSt) (w : Word) : LineSt :=
  let first := bool_decide (st.(ls_line) = []) in
  let would_add := if first then w.(w_width) else f64_add space_width w.(w_width) in
  if negb first && f64_ltb available_width (f64_add st.(ls_width) would_add) then
    MkLineSt (st.(ls_lines) ++ [st.(ls_line)]) [w] w.(w_width)
  else MkLineSt st.(ls_lines) (st.(ls_line) ++ [w]) (f64_add st.(ls_width) would_add).

#[export] Instance Word_eq_dec : EqDecision Word.
Proof. solve_decision. Defined.

Definition break_into_lines (words : list Word) (available_width space_width : f64)
    : list (list Word) :=
  match words with
  | [] => []
  | _ =>
      let st := foldl (line_step available_width space_width) (MkLineSt [] [] f64_zero) words in
      st.(ls_lines) ++ [st.(ls_line)]
  end.

(** One line box; [x] is where the next word goes. *)
Definition line_word (line_height space_width : f64) (acc : list Fragment * f64) (w : Word)
    : list Fragment * f64 :=
  let '(children, x) := acc in
  let x := if bool_decide (length children = 0) then x else f64_add x space_width in
  (children ++ [MkFragment (Some w.(style_node)) (FText w.(w_text)) x f64_zero w.(w_width) line_height []],
   f64_add x w.(w_width)).

Definition layout_line (words : list Word) (line_height y space_width : f64) : Fragment :=
  let '(children, x) := foldl (line_word line_height space_width) ([], f64_zero) words in
  MkFragment None FLine f64_zero y x line_height children.

(** A loop that appends the results of its turns. *)
Definition concat_mapM {A B} (f : A → res (list B)) (l : list A) : res (list B) :=
  ys ← mapM f l; Ok (concat ys).

Section Measured.
(** [blueice_font::measure_text_width(text, font_size, bold, italic)]. *)
Context (measure : list N → f64 → bool → bool → f64).

Definition space_width (font_size_px : f64) : f64 := measure (str " ") font_size_px false false.

Fixpoint collect_words (fuel : nat) (doc : Document) (styles : StyleMap) (node style_node : NodeId)
    : res (list Word) :=
  match fuel with
  | O => OutOfFuel
  | S fuel' =>
      dt ← data doc node;
      match dt with
      | NText t =>
          let style := styles !! style_node in
          let font_size := from_option font_size_px (f64_of_Z 16) style in
          let bold := from_option is_bold false style in
          let italic := from_option is_italic false style in
          Ok (map (λ word, MkWord word (measure word font_size bold italic) style_node)
                (split_whitespace t))
      | NElement _ _ =>
          kids ← children doc node;
          concat_mapM (λ child, collect_words fuel' doc styles child node) kids
      | NDocument => Ok []
      end
  end.

(** ** Block layout ([block.rs]) *)
Inductive BoxGen := BGBlock | BGInline | BGNone.

Definition classify_data (dt : NodeData) (style : option ComputedStyle) : BoxGen :=
  match dt with
  | NText _ => BGInline
  | NElement _ _ =>
      match style with
      | Some s =>
          if decide (s.(display) = str "none") then BGNone
          else if decide (s.(display) = str "inline") then BGInline
          else BGBlock
      | None => BGBlock
      end
  | NDocument => BGNone
  end.
Definition classify (doc : Document) (styles : StyleMap) (node : NodeId) : res BoxGen :=
  dt ← data doc node; Ok (classify_data dt (styles !! node)).

Definition length_px (v : Value) (font_size percentage_base : f64) : option f64 :=
  match v with
  | VLength (Px n) => Some n
  | VLength (Em n) => Some (f64_mul n font_size)
  | VLength Zero => Some f64_zero
  | VPercentage p => Some (f64_div (f64_mul percentage_base p) (f64_of_Z 100))
  | _ => None
  end.

Definition side (oth : gmap (list N) Value) (prop : string) (font_size percentage_base : f64) : f64 :=
  default f64_zero (oth !! str prop ≫= λ v, length_px v font_size percentage_base).

Definition is_border_box (oth : gmap (list N) Value) : bool :=
  bool_decide (oth !! str "box-sizing" = Some (VKeyword (str "border-box"))).

Definition resolve_width (oth : gmap (list N) Value) (font_size containing_width : f64) : option f64 :=
  match oth !! str "width" with
  | None => None
  | Some v => if decide (v = VKeyword (str "auto")) then None else length_px v font_size containing_width
  end.

Definition resolve_height (oth : gmap (list N) Value) (font_size : f64) : option f64 :=
  match oth !! str "height" with
  | Some (VLength (Px n)) => Some n
  | Some (VLength (Em n)) => Some (f64_mul n font_size)
  | Some (VLength Zero) => Some f64_zero
  | _ => None
  end.

Definition resolve_line_height (v : Value) (font_size : f64) : option f64 :=
  match v with
  | VNumber n => Some (f64_mul n font_size)
  | VLength (Px n) => Some n
  | VLength (Em n) => Some (f64_mul n font_size)
  | VLength Zero => Some f64_zero
  | VPercentage p => Some (f64_div (f64_mul font_size p) (f64_of_Z 100))
  | _ => None
  end.

(** The words of a pending node; a text node takes the style of its parent. *)
Definition pending_words (doc : Document) (styles : StyleMap) (n : NodeId) : res (list Word) :=
  dt ← data doc n;
  match dt with
  | NText _ =>
      p ← parent doc n;
      match p with
      | Some par => collect_words (walk_fuel doc) doc styles n par
      | None => Ok []
      end
  | NElement _ _ => collect_words (walk_fuel doc) doc styles n n
  | NDocument => Ok []
  end.

(** The line boxes, stacked from [y]. *)
Fixpoint stack_lines (lines : list (list Word)) (line_height y space : f64) : list Fragment :=
  match lines with
  | [] => []
  | l :: lines' =>
      layout_line l line_height y space :: stack_lines lines' line_height (f64_add y line_height) space
  end.

Definition layout_inline_run (doc : Document) (pending : list NodeId) (styles : StyleMap)
    (available y_offset : f64) : res (list Fragment * f64) :=
  words ← concat_mapM (pending_words doc styles) pending;
  match words with
  | [] => Ok ([], f64_zero)
  | w0 :: _ =>
      let first_style := styles !! w0.(style_node) in
      let font_size := from_option font_size_px (f64_of_Z 16) first_style in
      let line_height :=
        match first_style ≫= line_height with
        | Some v => default (default_line_height font_size) (resolve_line_height v font_size)
        | None => default_line_height font_size
        end in
      let space := space_width font_size in
      let lines := break_into_lines words available space in
      Ok (stack_lines lines line_height y_offset space,
          f64_mul (f64_of_Z (Z.of_nat (length lines))) line_height)
  end.

(** The loop over the children: fragments, cursor and pending inline nodes. *)
Record FlowSt := MkFlow { fl_fragments : list Fragment; cursor_y : f64; pending_inline : list NodeId }.

Definition flush_inline (doc : Document) (styles : StyleMap) (content_width : f64) (st : FlowSt)
    : res FlowSt :=
  match st.(pending_inline) with
  | [] => Ok st
  | pending =>
      '(lines, used_height) ← layout_inline_run doc pending styles content_width st.(cursor_y);
      Ok (MkFlow (st.(fl_fragments) ++ lines) (f64_add st.(cursor_y) used_height) [])
  end.

Definition move_to (x y : f64) (f : Fragment) : Fragment :=
  MkFragment f.(f_node) f.(f_kind) x y f.(f_width) f.(f_height) f.(f_children).

(** One child of the flow; [rec] lays a block child out in the content width. *)
Definition flow_child (rec : NodeId → res Fragment) (doc : Document) (styles : StyleMap)
    (font_size content_width : f64) (st : FlowSt) (child : NodeId) : res FlowSt :=
  c ← classify doc styles child;
  match c with
  | BGNone => Ok st
  | BGInline => Ok (MkFlow st.(fl_fragments) st.(cursor_y) (st.(pending_inline) ++ [child]))
  | BGBlock =>
      st ← flush_inline doc styles content_width st;
      let child_style := styles !! child in
      let child_font_size := from_option font_size_px font_size child_style in
      let child_other := from_option other ∅ child_style in
      let margin p := side child_other p child_font_size content_width in
      let y := f64_add st.(cursor_y) (margin "margin-top") in
      f ← rec child;
      let f := move_to (margin "margin-left") y f in
      Ok (MkFlow (st.(fl_fragments) ++ [f])
            (f64_add y (f64_add f.(f_height) (margin "margin-bottom"))) st.(pending_inline))
  end.

Definition shift_by (dx dy : f64) (f : Fragment) : Fragment :=
  move_to (f64_add f.(f_x) dx) (f64_add f.(f_y) dy) f.

Fixpoint layout_block (fuel : nat) (doc : Document) (styles : StyleMap) (node : NodeId)
    (available : f64) : res Fragment :=
  match fuel with
  | O => OutOfFuel
  | S fuel' =>
      let style := styles !! node in
      let font_size := from_option font_size_px (f64_of_Z 16) style in
      let oth := from_option other ∅ style in
      let s p := side oth p font_size available in
      let border_box_sizing := is_border_box oth in
      let horizontal_padding_border :=
        f64_add (f64_add (f64_add (s "padding-left") (s "padding-right")) (s "border-left-width"))
          (s "border-right-width") in
      let content_width :=
        match resolve_width oth font_size available with
        | Some w => if border_box_sizing then f64_max (f64_sub w horizontal_padding_border) f64_zero else w
        | None =>
            f64_max (f64_sub (f64_sub (f64_sub available (s "margin-left")) (s "margin-right"))
                       horizontal_padding_border) f64_zero
        end in
      kids ← children doc node;
      st ← fold_res (flow_child (λ child, layout_block fuel' doc styles child content_width)
                       doc styles font_size content_width) (MkFlow [] f64_zero []) kids;
      st ← flush_inline doc styles content_width st;
      let content_height :=
        match resolve_height oth font_size with
        | Some h =>
            if border_box_sizing then
              f64_max (f64_sub (f64_sub (f64_sub (f64_sub h (s "padding-top")) (s "padding-bottom"))
                                 (s "border-top-width")) (s "border-bottom-width")) f64_zero
            else h
        | None => st.(cursor_y)
        end in
      let content_origin_x := f64_add (s "padding-left") (s "border-left-width") in
      let content_origin_y := f64_add (s "padding-top") (s "border-top-width") in
      Ok (MkFragment (Some node) FBlock f64_zero f64_zero
            (f64_add content_width horizontal_padding_border)
            (f64_add (f64_add (f64_add (f64_add content_height (s "padding-top")) (s "padding-bottom"))
                        (s "border-top-width")) (s "border-bottom-width"))
            (map (shift_by content_origin_x content_origin_y) st.(fl_fragments)))
  end.

(** ** The entry point ([lib.rs]) *)
Definition layout (doc : Document) (root : NodeId) (styles : StyleMap) (c : Constraints)
    : res Fragment :=
  effective_root ←
    (if decide (is_Some (styles !! root)) then Ok (Some root)
     else kids ← children doc root;
          Ok (snd <$> list_find (λ k, is_Some (styles !! k)) kids));
  match effective_root with
  | Some node => layout_block (walk_fuel doc) doc styles node c.(available_width)
  | None => Ok empty_block
  end.
End Measured.
