(* ===== verification/LayoutProps.v ===== *)
(** * Layout: greedy lines, termination, and conservation of text *)

From S2P Require Import Prelude Float Dom DomTree DomWalk DomOps CssTokenizer CssValue CssSelector.
From S2P Require Import CssParser CssParserProps CssCascade Layout.

(** ** Line breaking *)
Section Lines.
Context (avail space : f64).

(** The width the algorithm has accumulated for a line. *)
Definition line_width_is (l : list Word) (W : f64) : Prop :=
  ∃ w0 rest a, l = w0 :: rest ∧ (a = w0.(w_width) ∨ a = f64_add f64_zero w0.(w_width))
    ∧ W = foldl (λ acc w, f64_add acc (f64_add space w.(w_width))) a rest.

(** A line fits, or is a single word. *)
Definition line_fits (l : list Word) : Prop :=
  ∃ W, line_width_is l W ∧ (f64_ltb avail W = false ∨ length l = 1).

(** The next word would not have fitted on the line before it. *)
Definition break_needed (l l' : list Word) : Prop :=
  ∃ W w rest, line_width_is l W ∧ l' = w :: rest
    ∧ f64_ltb avail (f64_add W (f64_add space w.(w_width))) = true.

Fixpoint breaks_needed (lines : list (list Word)) : Prop :=
  match lines with
  | l :: ((l' :: _) as rest) => break_needed l l' ∧ breaks_needed rest
  | _ => True
  end.

Lemma breaks_snoc lines l l' :
  breaks_needed (lines ++ [l]) → break_needed l l' → breaks_needed ((lines ++ [l]) ++ [l']).
Proof.
  induction lines as [|a lines IH]; [done|]. destruct lines as [|b lines]; cbn in *; [tauto|].
  intros [H1 H2] Hb. split; [done|]. by apply IH.
Qed.

Lemma breaks_last lines l x :
  l ≠ [] → breaks_needed (lines ++ [l]) → breaks_needed (lines ++ [l ++ [x]]).
Proof.
  intros Hl. induction lines as [|a lines IH]; [done|].
  destruct lines as [|b lines]; cbn in *; [|intros [? ?]; split; [done|by apply IH]].
  intros [(W & w & rest & HW & -> & Hlt) _]. split; [|done]. by exists W, w, (rest ++ [x]).
Qed.

(** The invariant of the loop, with a current line. *)
Record line_inv (done_ : list Word) (st : LineSt) : Prop := {
  li_words : concat st.(ls_lines) ++ st.(ls_line) = done_;
  li_fits : Forall line_fits st.(ls_lines);
  li_width : line_width_is st.(ls_line) st.(ls_width);
  li_cur : f64_ltb avail st.(ls_width) = false ∨ length st.(ls_line) = 1;
  li_breaks : breaks_needed (st.(ls_lines) ++ [st.(ls_line)]);
}.

Lemma line_width_snoc l W w :
  line_width_is l W → line_width_is (l ++ [w]) (f64_add W (f64_add space w.(w_width))).
Proof.
  intros (w0 & rest & a & -> & Ha & ->). exists w0, (rest ++ [w]), a. split_and!; [done..|].
  by rewrite foldl_app.
Qed.

Lemma line_step_inv done_ st w :
  line_inv done_ st → line_inv (done_ ++ [w]) (line_step avail space st w).
Proof.
  intros [H1 H2 H3 H4 H5]. unfold line_step.
  assert (ls_line st ≠ []) as Hne by (destruct H3 as (w0 & rest & a & -> & _); done).
  rewrite bool_decide_false by done. cbn [negb andb].
  destruct (f64_ltb avail (f64_add _ _)) eqn:Elt; split; cbn [ls_lines ls_line ls_width].
  - rewrite concat_app. cbn [concat]. by rewrite app_nil_r, H1.
  - apply Forall_app. split; [done|]. constructor; [|done]. by exists (ls_width st).
  - exists w, [], w.(w_width). split_and!; auto.
  - by right.
  - apply breaks_snoc; [done|]. by exists (ls_width st), w, [].
  - by rewrite app_assoc, H1.
  - done.
  - by apply line_width_snoc.
  - by left.
  - by apply breaks_last.
Qed.

Lemma foldl_line_inv done_ st ws :
  line_inv done_ st → line_inv (done_ ++ ws) (foldl (line_step avail space) st ws).
Proof.
  revert done_ st; induction ws as [|w ws IH]; intros done_ st Hst; cbn; [by rewrite app_nil_r|].
  replace (done_ ++ w :: ws) with ((done_ ++ [w]) ++ ws) by by rewrite <-app_assoc.
  by apply IH, line_step_inv.
Qed.

Lemma break_into_lines_spec words :
  concat (break_into_lines words avail space) = words
  ∧ Forall line_fits (break_into_lines words avail space)
  ∧ breaks_needed (break_into_lines words avail space).
Proof.
  destruct words as [|w ws]; [split_and!; [done|constructor|done]|]. unfold break_into_lines. cbn [foldl].
  assert (line_inv [w] (line_step avail space (MkLineSt [] [] f64_zero) w)) as H0.
  { unfold line_step. cbn. split; cbn; [done|done| |by right|done].
    exists w, [], (f64_add f64_zero (w_width w)). split_and!; auto. }
  destruct (foldl_line_inv _ _ ws H0) as [H1 H2 H3 H4 H5]. rewrite concat_app. cbn [concat].
  split_and!; [by rewrite app_nil_r| |done]. apply Forall_app. split; [done|]. constructor; [|done]. by eexists.
Qed.
End Lines.

(** Line breaking is greedy and loses nothing: the lines are the words in order, every line
    fits the available width or is one word, and every break was needed (the first word of a
    line would have overflowed the line before). *)
Theorem line_breaking_greedy words avail space :
  let lines := break_into_lines words avail space in
  concat lines = words ∧ Forall (line_fits avail space) lines ∧ breaks_needed avail space lines.
Proof. apply break_into_lines_spec. Qed.

(** ** The words of a document *)
Section Text.
Context (measure : list N → f64 → bool → bool → f64) (styles : gmap NodeId ComputedStyle).

Definition word_of (sn : NodeId) (text : list N) : Word :=
  let style := styles !! sn in
  MkWord text (measure text (from_option font_size_px (f64_of_Z 16) style) (from_option is_bold false style)
                 (from_option is_italic false style)) sn.

(** All the text below an inline node, with the nearest element as its style. *)
Fixpoint inline_words (sn : NodeId) (t : tree) : list Word :=
  match t with
  | Tree id dt ts =>
      match dt with
      | NText s => map (word_of sn) (split_whitespace s)
      | NElement _ _ => concat (map (inline_words id) ts)
      | NDocument => []
      end
  end.

(** The text a block box shows: that of its inline runs and of its block children; children with
    [display: none] are left out. *)
Fixpoint block_words (t : tree) : list Word :=
  match t with
  | Tree id _ ts =>
      concat (map (λ c,
        match classify_data (tdata c) (styles !! tid c) with
        | BGNone => []
        | BGInline => inline_words (match tdata c with NText _ => id | _ => tid c end) c
        | BGBlock => block_words c
        end) ts)
  end.

(** The text fragments of a fragment tree, in order, with their nodes. *)
Fixpoint fragment_words (f : Fragment) : list (list N * option NodeId) :=
  match f with
  | MkFragment node kind _ _ _ _ kids =>
      match kind with
      | FText s => (s, node) :: concat (map fragment_words kids)
      | _ => concat (map fragment_words kids)
      end
  end.

Definition shown (w : Word) : list N * option NodeId := (w.(w_text), Some w.(style_node)).

Lemma fragment_words_move x y f : fragment_words (move_to x y f) = fragment_words f.
Proof. by destruct f. Qed.

Lemma fragment_words_shift dx dy l :
  concat (map fragment_words (map (shift_by dx dy) l)) = concat (map fragment_words l).
Proof. rewrite map_map. f_equal. apply map_ext. intros f. apply fragment_words_move. Qed.

Lemma layout_line_words ws lh y sp : fragment_words (layout_line ws lh y sp) = map shown ws.
Proof.
  unfold layout_line.
  assert (∀ acc x, concat (map fragment_words (foldl (line_word lh sp) (acc, x) ws).1)
    = concat (map fragment_words acc) ++ map shown ws) as H.
  { induction ws as [|w ws IH]; intros acc x; cbn [foldl map]; [by rewrite app_nil_r|].
    cbn [line_word]. rewrite IH, map_app, concat_app, <-app_assoc. done. }
  specialize (H [] f64_zero). destruct (foldl _ _ ws) as [kids x]. exact H.
Qed.

Lemma stack_lines_words lines lh y sp :
  concat (map fragment_words (stack_lines lines lh y sp)) = map shown (concat lines).
Proof.
  revert y; induction lines as [|l lines IH]; intros y; [done|]. cbn [stack_lines map concat].
  by rewrite layout_line_words, IH, map_app.
Qed.

Section Document.
Context (d : Document) (K : NodeId → list NodeId) (HR : Rep d K).

Lemma concat_mapM_map {A B C} (f : B → res (list C)) (g : A → list C) (h : A → B) l :
  (∀ x, x ∈ l → f (h x) = Ok (g x)) → concat_mapM f (map h l) = Ok (concat (map g l)).
Proof.
  intros H. unfold concat_mapM. assert (mapM f (map h l) = Ok (map g l)) as ->; [|done].
  induction l as [|x l IH]; [done|]. cbn. rewrite H by left. cbn. rewrite IH by (intros; apply H; by right). done.
Qed.

Lemma unfolds_data id dt ts :
  unfolds d.(nodes) K (Tree id dt ts) →
  data d id = Ok dt ∧ children d id = Ok (map tid ts) ∧ Forall (unfolds d.(nodes) K) ts ∧ live d id.
Proof.
  intros Hun. inversion Hun as [? r ? Hr Hts Hall]; subst. unfold data, index. rewrite Hr.
  assert (live d id) as Hl by by exists r. rewrite (children_K _ _ _ HR Hl), <-Hts. done.
Qed.

Lemma collect_words_spec t fuel sn :
  unfolds d.(nodes) K t → length (ids t) ≤ fuel →
  collect_words measure fuel d styles (tid t) sn = Ok (inline_words sn t).
Proof.
  revert fuel sn; induction t as [id dt ts IH] using tree_rose_ind. intros fuel sn Hun Hlen.
  destruct (unfolds_data _ _ _ Hun) as (Hd & Hc & Hall & _). csimpl in Hlen.
  destruct fuel as [|fuel]; [lia|]. cbn [collect_words tid]. rewrite Hd. cbn [mbind res_bind].
  destruct dt as [|tag attrs|s]; [done| |done].
  rewrite Hc. cbn [mbind res_bind inline_words]. apply concat_mapM_map. intros c Hc'.
  rewrite Forall_forall in IH, Hall. apply IH; [done|by apply Hall|].
  pose proof (length_ids_kid c ts Hc'). lia.
Qed.

(** Inline children of [p], as the loop of [layout_inline_run] sees them. *)
Definition child_inline_words (p : NodeId) (c : tree) : list Word :=
  inline_words (match tdata c with NText _ => p | _ => tid c end) c.

Lemma pending_words_spec p c :
  unfolds d.(nodes) K c → edge K p (tid c) → tdata c ≠ NDocument →
  pending_words measure d styles (tid c) = Ok (child_inline_words p c).
Proof.
  intros Hun He Hnd. destruct c as [id dt ts]. destruct (unfolds_data _ _ _ Hun) as (Hd & _ & _ & _).
  assert (length (ids (Tree id dt ts)) ≤ walk_fuel d) as Hlen.
  { pose proof (unfolds_size _ _ HR _ Hun). unfold walk_fuel. lia. }
  unfold pending_words, child_inline_words. cbn [tid tdata] in *. rewrite Hd. cbn [mbind res_bind].
  destruct dt as [|tag attrs|s]; [done| |].
  - apply (collect_words_spec (Tree id (NElement tag attrs) ts)); done.
  - apply (rep_parent_edge _ _ HR) in He as (r & Hr & Hp). assert (parent d id = Ok (Some p)) as -> by (unfold parent, index; rewrite Hr; cbn; by rewrite Hp). cbn [mbind res_bind].
    apply (collect_words_spec (Tree id (NText s) ts)); done.
Qed.

Definition frag_words (l : list Fragment) : list (list N * option NodeId) := concat (map fragment_words l).
Definition inline_kid (p : NodeId) (c : tree) : Prop :=
  unfolds d.(nodes) K c ∧ edge K p (tid c) ∧ tdata c ≠ NDocument.

Lemma layout_inline_run_spec p cs avail y :
  Forall (inline_kid p) cs →
  ∃ lines h, layout_inline_run measure d (map tid cs) styles avail y = Ok (lines, h)
    ∧ frag_words lines = map shown (concat (map (child_inline_words p) cs)).
Proof.
  intros Hcs. unfold layout_inline_run.
  rewrite (concat_mapM_map _ (child_inline_words p) tid).
  2:{ rewrite Forall_forall in Hcs. intros c (? & ? & ?)%Hcs. by apply pending_words_spec. }
  cbn [mbind res_bind]. destruct (concat _) as [|w ws]; [by eexists _, _|].
  eexists _, _. split; [done|]. unfold frag_words. rewrite stack_lines_words.
  by destruct (break_into_lines_spec avail
    (space_width measure (from_option font_size_px (f64_of_Z 16) (styles !! style_node w))) (w :: ws)) as [-> _].
Qed.

(** The invariant of the loop over the children of [p]: what is laid out, then what is pending,
    shows the text [ws]. *)
Definition flow_inv (p : NodeId) (ws : list Word) (st : FlowSt) : Prop :=
  ∃ cs, st.(pending_inline) = map tid cs ∧ Forall (inline_kid p) cs
    ∧ frag_words st.(fl_fragments) ++ map shown (concat (map (child_inline_words p) cs)) = map shown ws.

Lemma frag_words_app l1 l2 : frag_words (l1 ++ l2) = frag_words l1 ++ frag_words l2.
Proof. unfold frag_words. by rewrite map_app, concat_app. Qed.

Lemma flush_inline_spec p ws st w :
  flow_inv p ws st →
  ∃ st', flush_inline measure d styles w st = Ok st' ∧ st'.(pending_inline) = []
    ∧ frag_words st'.(fl_fragments) = map shown ws.
Proof.
  intros (cs & Hp & Hcs & Hws). unfold flush_inline. destruct (pending_inline st) as [|a l] eqn:E.
  { destruct cs; [|done]. exists st. cbn in Hws. by rewrite app_nil_r in Hws. }
  destruct (layout_inline_run_spec p cs w (cursor_y st) Hcs) as (lines & h & Hrun & Hl).
  rewrite Hp, Hrun. eexists. split; [done|]. split; [done|]. cbn [fl_fragments].
  by rewrite frag_words_app, Hl.
Qed.

(** The text a child of [p] shows. *)
Definition kid_words (p : NodeId) (c : tree) : list Word :=
  match classify_data (tdata c) (styles !! tid c) with
  | BGNone => []
  | BGInline => child_inline_words p c
  | BGBlock => block_words c
  end.

Lemma block_words_unfold id dt ts : block_words (Tree id dt ts) = concat (map (kid_words id) ts).
Proof. done. Qed.

Lemma flow_child_spec rec p ws st c fs w :
  flow_inv p ws st → unfolds d.(nodes) K c → edge K p (tid c) →
  (∃ f, rec (tid c) = Ok f ∧ fragment_words f = map shown (block_words c)) →
  ∃ st', flow_child measure rec d styles fs w st (tid c) = Ok st' ∧ flow_inv p (ws ++ kid_words p c) st'.
Proof.
  intros Hinv Hun He (f & Hrec & Hf). unfold flow_child, classify.
  assert (data d (tid c) = Ok (tdata c)) as Hd.
  { destruct c as [id dt ts]. by apply unfolds_data in Hun as (? & _). }
  rewrite Hd. cbn [mbind res_bind]. unfold kid_words. destruct (classify_data _ _) eqn:Ec.
  - destruct (flush_inline_spec p ws st w Hinv) as (st' & -> & Hp & Hst'). cbn [mbind res_bind].
    rewrite Hrec. eexists. split; [done|]. exists []. cbn [pending_inline fl_fragments map concat].
    split_and!; [done|constructor|]. rewrite app_nil_r, frag_words_app, Hst', map_app, <-Hf.
    f_equal. unfold frag_words. cbn [map concat]. by rewrite app_nil_r, fragment_words_move.
  - eexists. split; [done|]. destruct Hinv as (cs & Hp & Hcs & Hws). exists (cs ++ [c]).
    cbn [pending_inline fl_fragments]. rewrite Hp, !map_app, concat_app, <-Hws, map_app. split_and!; [done| |].
    + apply Forall_app. split; [done|]. constructor; [|done]. split_and!; [done..|].
      intros Hx. rewrite Hx in Ec. done.
    + cbn [map concat]. by rewrite app_nil_r, app_assoc.
  - exists st. split; [done|]. by rewrite app_nil_r.
Qed.

Lemma flow_children_spec rec p fs w ts : ∀ ws st,
  flow_inv p ws st → Forall (unfolds d.(nodes) K) ts → (∀ c, c ∈ ts → edge K p (tid c)) →
  (∀ c, c ∈ ts → ∃ f, rec (tid c) = Ok f ∧ fragment_words f = map shown (block_words c)) →
  ∃ st', fold_res (flow_child measure rec d styles fs w) st (map tid ts) = Ok st'
    ∧ flow_inv p (ws ++ concat (map (kid_words p) ts)) st'.
Proof.
  induction ts as [|c ts IH]; intros ws st Hinv Hun He Hrec; cbn [map fold_res concat].
  { exists st. by rewrite app_nil_r. }
  inversion_clear Hun.
  destruct (flow_child_spec rec p ws st c fs w) as (st' & -> & Hinv'); [done|done|apply He; by left|apply Hrec; by left|].
  cbn [mbind res_bind]. rewrite app_assoc. apply IH; [done|done| |]; intros; [apply He|apply Hrec]; by right.
Qed.

Lemma layout_block_spec t fuel avail :
  unfolds d.(nodes) K t → length (ids t) ≤ fuel →
  ∃ f, layout_block measure fuel d styles (tid t) avail = Ok f
    ∧ fragment_words f = map shown (block_words t).
Proof.
  revert fuel avail; induction t as [id dt ts IH] using tree_rose_ind. intros fuel avail Hun Hlen.
  destruct (unfolds_data _ _ _ Hun) as (Hd & Hc & Hall & Hlive). csimpl in Hlen.
  destruct fuel as [|fuel]; [lia|]. cbn [layout_block tid]. rewrite Hc. cbn [mbind res_bind].
  match goal with |- context [fold_res (flow_child _ ?rec _ _ ?fs ?w) ?st _] =>
    destruct (flow_children_spec rec id fs w ts [] st) as (st' & Hst' & Hinv) end.
  - by exists [].
  - done.
  - inversion Hun as [? r ? Hr Hts _]; subst. intros c Hin. unfold edge. rewrite <-Hts. by apply list_elem_of_fmap_2.
  - rewrite Forall_forall in IH, Hall. intros c Hin. apply IH; [done|by apply Hall|].
    pose proof (length_ids_kid c ts Hin). lia.
  - rewrite Hst'. cbn [mbind res_bind].
    match goal with |- context [flush_inline _ _ _ ?w _] =>
      destruct (flush_inline_spec id _ st' w Hinv) as (st2 & -> & _ & Hw) end.
    eexists. split; [done|]. cbn [fragment_words]. rewrite fragment_words_shift. exact Hw.
Qed.
End Document.
End Text.

(** ** Theorems *)

(** The box that [layout] starts from: the given node, or its first styled child. *)
Definition starts_from (d : Document) (styles : gmap NodeId ComputedStyle) (root r : NodeId) : Prop :=
  (is_Some (styles !! root) ∧ r = root)
  ∨ (styles !! root = None ∧ is_Some (styles !! r)
     ∧ ∃ l1 l2, children d root = Ok (l1 ++ r :: l2) ∧ ∀ x, x ∈ l1 → styles !! x = None).

Lemma layout_conserves measure d styles root c :
  WF d → live d root →
  ∃ f, layout measure d root styles c = Ok f
    ∧ ((∃ K t, Rep d K ∧ unfolds d.(nodes) K t ∧ starts_from d styles root (tid t)
          ∧ fragment_words f = map shown (block_words measure styles t))
       ∨ (f = empty_block ∧ styles !! root = None
          ∧ ∃ l, children d root = Ok l ∧ ∀ x, x ∈ l → styles !! x = None)).
Proof.
  intros [K HR] Hl. unfold layout.
  assert (∀ r, live d r → starts_from d styles root r →
    ∃ f, layout_block measure (walk_fuel d) d styles r (available_width c) = Ok f
      ∧ ∃ K t, Rep d K ∧ unfolds d.(nodes) K t ∧ starts_from d styles root (tid t)
          ∧ fragment_words f = map shown (block_words measure styles t)) as Hgo.
  { intros r Hr Hs. destruct (unfolds_exists d K HR r Hr) as (t & Ht & <-).
    destruct (layout_block_spec measure styles d K HR t (walk_fuel d) (available_width c) Ht) as (f & Hf & Hw).
    { pose proof (unfolds_size _ _ HR _ Ht). unfold walk_fuel. lia. }
    exists f. split; [done|]. by exists K, t. }
  case_decide as Hs.
  { destruct (Hgo root Hl) as (f & Hf & Hw); [by left|]. exists f. split; [exact Hf|by left]. }
  assert (styles !! root = None) as Hn by by apply eq_None_not_Some.
  rewrite (children_K d K root HR Hl). cbn [mbind res_bind].
  destruct (list_find _ _) as [[i r]|] eqn:E; cbn [fmap option_fmap option_map snd].
  - apply list_find_Some in E as (Hi & Hr & Hbefore).
    assert (edge K root r) as He by by apply list_elem_of_lookup_2 in Hi.
    destruct (Hgo r) as (f & Hf & Hw).
    { by apply (rep_edge_live d K HR root r). }
    { right. split_and!; [done..|]. exists (take i (K root)), (drop (S i) (K root)).
      rewrite (take_drop_middle _ _ _ Hi). split; [exact (children_K _ _ _ HR Hl)|].
      intros x (j & Hj)%list_elem_of_lookup_1. apply lookup_take_Some in Hj as [Hj Hlt].
      apply eq_None_not_Some. by eapply Hbefore. }
    exists f. split; [exact Hf|by left].
  - exists empty_block. split; [done|]. right. split_and!; [done..|]. exists (K root).
    split; [done|]. apply list_find_None in E. rewrite Forall_forall in E.
    intros x Hx. by apply eq_None_not_Some, E.
Qed.

(** Layout terminates on every well-formed document, whatever the styles and the widths, and
    conserves text: the text fragments of the result, read in order, are exactly the words that the
    flow of the laid out subtree meets (all of them but those below a child of a block box with
    [display: none]), each tagged with the element that styles it; with nothing styled the result is the empty block. *)
Theorem layout_text_conserved measure d styles root c :
  WF d → live d root →
  ∃ f, layout measure d root styles c = Ok f
    ∧ ((∃ K t, Rep d K ∧ unfolds d.(nodes) K t ∧ starts_from d styles root (tid t)
          ∧ fragment_words f = map shown (block_words measure styles t))
       ∨ (f = empty_block ∧ styles !! root = None
          ∧ ∃ l, children d root = Ok l ∧ ∀ x, x ∈ l → styles !! x = None)).
Proof. apply layout_conserves. Qed.

(** A page whose paragraph holds [<b>shown <span style="display:none">hidden</span></b>]. *)
Definition el (name : string) (at_ : list (list N * list N)) : NodeData := NElement (str name) at_.
Definition nested_none_script : list doc_op :=
  [OpCreate (el "p" []); OpAppend 0 1; OpCreate (el "b" []); OpAppend 1 2;
   OpCreate (NText (str "shown ")); OpAppend 2 3;
   OpCreate (el "span" [(str "style", str "display:none")]); OpAppend 2 4;
   OpCreate (NText (str "hidden")); OpAppend 4 5]%N.
Definition nested_none : Document := default default_doc (run_script nested_none_script).

Definition style_and_layout (d : Document) : res (gmap NodeId ComputedStyle * Fragment) :=
  ua ← ua_stylesheet;
  styles ← cascade d [(Ua, ua)];
  root ← Dom.root d;
  f ← layout (λ _ _ _ _, f64_zero) d root styles {| available_width := f64_of_Z 800 |};
  Ok (styles, f).

(** What is observed of a run: the display of a node and the words laid out. *)
Definition observe (n : NodeId) (r : res (gmap NodeId ComputedStyle * Fragment))
    : option (option (list N) * list (list N * option NodeId)) :=
  match r with Ok (styles, f) => Some (display <$> (styles !! n), fragment_words f) | _ => None end.

Lemma observe_Some n r dsp ws :
  observe n r = Some (dsp, ws) →
  ∃ styles f, r = Ok (styles, f) ∧ display <$> (styles !! n) = dsp ∧ fragment_words f = ws.
Proof. destruct r as [[styles f]| |]; [|done..]. cbn. intros [= <- <-]. by exists styles, f. Qed.

(** [display: none] removes an element only when the element is a child of a block box: inside
    an inline element it is ignored.  In [nested_none] the cascade gives the [span] the display
    [none], and layout shows its text all the same. *)
Theorem display_none_inside_inline_is_shown :
  ∃ styles f, style_and_layout nested_none = Ok (styles, f)
    ∧ display <$> (styles !! 4%N) = Some (str "none")
    ∧ fragment_words f = [(str "shown", Some 2%N); (str "hidden", Some 4%N)].
Proof. apply observe_Some. vm_compute. reflexivity. Qed.

Lemma layout_text_conserved_witness :
  ∃ f, layout (λ _ _ _ _, f64_of_Z 10) demo 0%N ∅ {| available_width := f64_of_Z 800 |} = Ok f
    ∧ ((∃ K t, Rep demo K ∧ unfolds demo.(nodes) K t ∧ starts_from demo ∅ 0%N (tid t)
          ∧ fragment_words f = map shown (block_words (λ _ _ _ _, f64_of_Z 10) ∅ t))
       ∨ (f = empty_block ∧ (∅ : gmap NodeId ComputedStyle) !! 0%N = None
          ∧ ∃ l, children demo 0%N = Ok l ∧ ∀ x, x ∈ l → (∅ : gmap NodeId ComputedStyle) !! x = None)).
Proof.
  apply (layout_text_conserved (λ _ _ _ _, f64_of_Z 10) demo ∅ 0%N {| available_width := f64_of_Z 800 |}).
  - apply demo_WF.
  - vm_compute. by eexists.
Defined.
