(* ===== verification/Paint.v ===== *)
(** * Paint ([core/paint/src/lib.rs]): fragment tree to display list *)

From S2P Require Import Prelude Float Dom CssTokenizer CssValue CssSelector CssParser CssCascade.
From S2P Require Import Layout.

Record Rect := MkRect { rect_x : f64; rect_y : f64; rect_width : f64; rect_height : f64 }.

Inductive PaintCommand :=
  | PRect (rect : Rect) (c : Color)
  | PBorderEdge (rect : Rect) (c : Color)
  | PText (x y : f64) (text : list N) (c : Color) (size : f64) (bold italic : bool).

Record Frame := MkFrame { frame_width : f64; frame_height : f64; commands : list PaintCommand }.

Inductive BorderSide := Top | Right | Bottom | Left.
Definition BORDER_SIDES : list BorderSide := [Top; Right; Bottom; Left].
Definition side_name (s : BorderSide) : list N :=
  match s with Top => str "top" | Right => str "right" | Bottom => str "bottom" | Left => str "left" end.
Definition border_prop (s : BorderSide) (suffix : string) : list N :=
  str "border-" ++ side_name s ++ str suffix.

(** Paint knows no font size: an [em] length is no length here. *)
Definition paint_length_px (v : Value) : option f64 :=
  match v with
  | VLength (Px n) => Some n
  | VLength (Em _) => None
  | VLength Zero => Some f64_zero
  | _ => None
  end.

Definition as_color (v : Value) (current_color : Color) : option Color :=
  match v with
  | VColor CurrentColor => Some current_color
  | VColor c => Some c
  | _ => None
  end.

Definition border_style_ok (o : option Value) : bool :=
  match o with
  | Some (VKeyword k) => bool_decide (k ≠ str "none") && bool_decide (k ≠ str "hidden")
  | _ => false
  end.

Definition edge_rect (s : BorderSide) (b : Rect) (width : f64) : Rect :=
  match s with
  | Top => MkRect b.(rect_x) b.(rect_y) b.(rect_width) width
  | Bottom =>
      MkRect b.(rect_x) (f64_sub (f64_add b.(rect_y) b.(rect_height)) width) b.(rect_width) width
  | Left => MkRect b.(rect_x) b.(rect_y) width b.(rect_height)
  | Right =>
      MkRect (f64_sub (f64_add b.(rect_x) b.(rect_width)) width) b.(rect_y) width b.(rect_height)
  end.

Definition border_side_rect (s : BorderSide) (box_rect : Rect) (oth : gmap (list N) Value)
    : option (Rect * f64) :=
  if negb (border_style_ok (oth !! border_prop s "-style")) then None
  else
    match oth !! border_prop s "-width" ≫= paint_length_px with
    | None => None
    | Some width =>
        if f64_leb width f64_zero then None else Some (edge_rect s box_rect width, width)
    end.

Definition apply_opacity (c : Color) (opacity : spec_float) : Color :=
  match c with
  | Rgba r g b a => Rgba r g b (Z.to_N (round_as_u8 (f32_mul (f32_of_Z (Z.of_N a)) opacity)))
  | CurrentColor => CurrentColor
  end.

Definition paint_edge (style : ComputedStyle) (rect : Rect) (out : list PaintCommand) (s : BorderSide)
    : list PaintCommand :=
  match border_side_rect s rect style.(other) with
  | Some (edge, _) =>
      let c := default style.(color)
                 (style.(other) !! border_prop s "-color" ≫= λ v, as_color v style.(color)) in
      out ++ [PBorderEdge edge (apply_opacity c (opacity style))]
  | None => out
  end.

Definition paint_box (style : ComputedStyle) (rect : Rect) (out : list PaintCommand)
    : list PaintCommand :=
  let out :=
    match style.(other) !! str "background-color" ≫= λ v, as_color v style.(color) with
    | Some bg => out ++ [PRect rect (apply_opacity bg (opacity style))]
    | None => out
    end in
  foldl (paint_edge style rect) out BORDER_SIDES.

Definition style_of (styles : gmap NodeId ComputedStyle) (f : Fragment) : option ComputedStyle :=
  f.(f_node) ≫= λ n, styles !! n.

(** What a fragment itself draws at its absolute position [x], [y]. *)
Definition paint_own (styles : gmap NodeId ComputedStyle) (f : Fragment) (x y : f64)
    (out : list PaintCommand) : list PaintCommand :=
  match f.(f_kind) with
  | FBlock =>
      match style_of styles f with
      | Some style => paint_box style (MkRect x y f.(f_width) f.(f_height)) out
      | None => out
      end
  | FLine => out
  | FText text =>
      match style_of styles f with
      | Some style =>
          out ++ [PText x y text (apply_opacity style.(color) (opacity style)) style.(font_size_px)
                    (is_bold style) (is_italic style)]
      | None => out
      end
  end.

Fixpoint paint_fragment (styles : gmap NodeId ComputedStyle) (f : Fragment) (offset_x offset_y : f64)
    (out : list PaintCommand) : list PaintCommand :=
  let x := f64_add offset_x f.(f_x) in
  let y := f64_add offset_y f.(f_y) in
  let out := paint_own styles f x y out in
  (fix go (kids : list Fragment) (out : list PaintCommand) : list PaintCommand :=
     match kids with
     | [] => out
     | k :: kids' => go kids' (paint_fragment styles k x y out)
     end) f.(f_children) out.

Definition paint (f : Fragment) (styles : gmap NodeId ComputedStyle) : Frame :=
  MkFrame f.(f_width) f.(f_height) (paint_fragment styles f f64_zero f64_zero []).
