(* ===== verification/PaintProps.v ===== *)
(** * Paint: the display list shows the visible text of a page, styled by its element *)

From S2P Require Import Prelude Float Dom DomTree DomWalk DomOps CssTokenizer CssValue CssSelector.
From S2P Require Import CssParser CssParserProps CssCascade CssCascadeProps Layout LayoutProps.
From S2P Require Import Paint.

(** ** Commands are appended *)
Ltac split_edges :=
  repeat match goal with
    |- context [border_side_rect ?k ?r ?o] => destruct (border_side_rect k r o) as [[? ?]|]
  end.

Lemma paint_own_app styles f x y out : paint_own styles f x y out = out ++ paint_own styles f x y [].
Proof.
  unfold paint_own, paint_box, paint_edge. destruct (f_kind f); [|by rewrite app_nil_r|].
  - destruct (style_of styles f) as [s|]; [|by rewrite app_nil_r].
    destruct (_ ≫= _); cbn [foldl BORDER_SIDES]; split_edges; by rewrite <-?app_assoc, ?app_nil_r.
  - destruct (style_of styles f); [done|by rewrite app_nil_r].
Qed.

Section Fragment_induction.
Context (P : Fragment → Prop).
Context (step : ∀ n k x y w h kids, Forall P kids → P (MkFragment n k x y w h kids)).
Fixpoint fragment_rose_ind (f : Fragment) : P f :=
  match f with
  | MkFragment n k x y w h kids =>
      step n k x y w h kids
        ((fix go (l : list Fragment) : Forall P l :=
            match l with
            | [] => Forall_nil_2 P
            | f' :: l' => Forall_cons_2 P f' l' (fragment_rose_ind f') (go l')
            end) kids)
  end.
End Fragment_induction.

Lemma paint_fragment_unfold styles f ox oy out :
  paint_fragment styles f ox oy out =
    foldl (λ out k, paint_fragment styles k (f64_add ox f.(f_x)) (f64_add oy f.(f_y)) out)
      (paint_own styles f (f64_add ox f.(f_x)) (f64_add oy f.(f_y)) out) f.(f_children).
Proof.
  destruct f as [n k x y w h kids]. cbn [paint_fragment f_x f_y f_children].
  generalize (paint_own styles (MkFragment n k x y w h kids) (f64_add ox x) (f64_add oy y) out).
  induction kids as [|c kids IH]; intros o; [done|]. cbn [foldl]. apply IH.
Qed.

Lemma foldl_append {A B} (g : list B → A → list B) l :
  (∀ a o, a ∈ l → g o a = o ++ g [] a) → ∀ o, foldl g o l = o ++ concat (map (g []) l).
Proof.
  induction l as [|a l IH]; intros H o; cbn [foldl map concat]; [by rewrite app_nil_r|].
  rewrite H by left. rewrite IH by (intros; apply H; by right). by rewrite app_assoc.
Qed.

Lemma paint_fragment_app styles f : ∀ ox oy out,
  paint_fragment styles f ox oy out = out ++ paint_fragment styles f ox oy [].
Proof.
  induction f as [n k x y w h kids IH] using fragment_rose_ind. intros ox oy out.
  rewrite Forall_forall in IH. rewrite !(paint_fragment_unfold _ (MkFragment _ _ _ _ _ _ _)). cbn [f_children f_x f_y].
  rewrite !foldl_append by (intros; by apply IH). rewrite paint_own_app. by rewrite app_assoc.
Qed.

(** A fragment's commands come first, then those of its children in order, at positions relative
    to it. *)
Lemma paint_fragment_pre styles f ox oy :
  let x := f64_add ox f.(f_x) in
  let y := f64_add oy f.(f_y) in
  paint_fragment styles f ox oy [] =
    paint_own styles f x y [] ++ concat (map (λ k, paint_fragment styles k x y []) f.(f_children)).
Proof.
  cbv zeta. rewrite paint_fragment_unfold, foldl_append; [done|]. intros. apply paint_fragment_app.
Qed.

(** ** Text *)

(** What a text command shows, without its position. *)
Definition text_command (c : PaintCommand) : option (list N * Color * f64 * bool * bool) :=
  match c with
  | PText _ _ text col size bold italic => Some (text, col, size, bold, italic)
  | _ => None
  end.

Definition text_in_style (text : list N) (s : ComputedStyle) : list N * Color * f64 * bool * bool :=
  (text, apply_opacity s.(color) (opacity s), s.(font_size_px), is_bold s, is_italic s).

Definition shown_text (styles : gmap NodeId ComputedStyle) (p : list N * option NodeId)
    : option (list N * Color * f64 * bool * bool) :=
  text_in_style p.1 <$> (p.2 ≫= λ n, styles !! n).

Lemma omap_app_concat {A B} (f : A → option B) (l : list (list A)) :
  omap f (concat l) = concat (map (omap f) l).
Proof. induction l as [|x l IH]; [done|]. cbn [concat map]. by rewrite omap_app, IH. Qed.

Lemma paint_box_no_text style rect : omap text_command (paint_box style rect []) = [].
Proof.
  unfold paint_box, paint_edge.
  destruct (_ ≫= _); cbn [foldl BORDER_SIDES]; split_edges; done.
Qed.

Lemma paint_own_text styles f x y :
  omap text_command (paint_own styles f x y []) =
    match f.(f_kind) with FText s => omap (shown_text styles) [(s, f.(f_node))] | _ => [] end.
Proof.
  unfold paint_own, style_of. destruct (f_kind f) as [| |s] eqn:E; [|done|].
  - destruct (_ ≫= _); [apply paint_box_no_text|done].
  - cbn. unfold shown_text. cbn. by destruct (_ ≫= _).
Qed.

Lemma paint_fragment_text styles f : ∀ ox oy,
  omap text_command (paint_fragment styles f ox oy []) = omap (shown_text styles) (fragment_words f).
Proof.
  induction f as [n k x y w h kids IH] using fragment_rose_ind. intros ox oy. rewrite Forall_forall in IH.
  rewrite paint_fragment_pre, omap_app, paint_own_text, omap_app_concat, map_map. cbn [f_kind f_node f_children f_x f_y].
  assert (map (λ c, omap text_command (paint_fragment styles c (f64_add ox x) (f64_add oy y) [])) kids
    = map (omap (shown_text styles)) (map fragment_words kids)) as ->.
  { rewrite map_map. apply map_ext_in. intros c Hc. apply IH. by apply list_elem_of_In. }
  rewrite <-omap_app_concat. destruct k; cbn [fragment_words app]; [done|done|].
  by rewrite <-omap_app.
Qed.

(** ** Every visible word has a styled element *)
Section Styled.
Context (measure : list N → f64 → bool → bool → f64) (d : Document) (sheets : list (Origin * list Rule)).
Context (styles : gmap NodeId ComputedStyle).

Definition word_styled (w : Word) : Prop := is_Some (styles !! w.(style_node)).

Lemma styled_kids ps id dt ts :
  styled d sheets styles ps (Tree id dt ts) →
  (is_element dt = true → is_Some (styles !! id)) ∧ (is_element dt = false → styles !! id = None)
  ∧ ∀ c, c ∈ ts → ∃ ps', styled d sheets styles ps' c.
Proof.
  cbn [styled]. intros [Hid Hts]. split_and!.
  - intros He. rewrite He in Hid. destruct Hid as (s & Hs & _). by exists s.
  - intros He. by rewrite He in Hid.
  - intros c Hc. induction ts as [|a ts IH]; [by apply elem_of_nil in Hc|]. cbn in Hts. destruct Hts as [Ha Hts].
    apply elem_of_cons in Hc as [->|Hc]; [eauto|by apply IH].
Qed.

Lemma Forall_concat_map {A B} (P : B → Prop) (f : A → list B) l :
  (∀ a, a ∈ l → Forall P (f a)) → Forall P (concat (map f l)).
Proof.
  induction l as [|a l IH]; intros H; [constructor|]. cbn [map concat].
  apply Forall_app. split; [apply H; by left|apply IH; intros; apply H; by right].
Qed.

Lemma inline_words_styled t : ∀ ps sn,
  styled d sheets styles ps t → is_Some (styles !! sn) → Forall word_styled (inline_words measure styles sn t).
Proof.
  induction t as [id dt ts IH] using tree_rose_ind. intros ps sn Hst Hsn. rewrite Forall_forall in IH.
  destruct (styled_kids _ _ _ _ Hst) as (He & _ & Hk). cbn [inline_words]. destruct dt as [|tag at_|s].
  - constructor.
  - apply Forall_concat_map. intros c Hc. destruct (Hk c Hc) as [ps' Hps']. eapply IH; [done|done|by apply He].
  - apply Forall_forall. intros w (s' & -> & _)%list_elem_of_fmap_1. exact Hsn.
Qed.

Lemma block_words_styled t : ∀ ps,
  styled d sheets styles ps t → is_element (tdata t) = true → Forall word_styled (block_words measure styles t).
Proof.
  induction t as [id dt ts IH] using tree_rose_ind. intros ps Hst Hel. rewrite Forall_forall in IH.
  destruct (styled_kids _ _ _ _ Hst) as (He & _ & Hk). rewrite block_words_unfold. apply Forall_concat_map.
  intros c Hc. destruct (Hk c Hc) as [ps' Hps']. unfold kid_words, child_inline_words.
  destruct c as [id' dt' ts']. cbn [tid tdata].
  pose proof (styled_kids _ _ _ _ Hps') as (He' & _ & _).
  destruct (classify_data dt' (styles !! id')) eqn:Ec; [|clear IH|constructor].
  - eapply IH; [done|done|]. cbn [tdata]. by destruct dt'.
  - eapply inline_words_styled; [done|]. destruct dt'; [done|by apply He'|by apply He].
Qed.
End Styled.

(** The words that the layout of a document meets: those of its first element. *)
Definition flow_words (measure : list N → f64 → bool → bool → f64) (styles : gmap NodeId ComputedStyle)
    (t : tree) : list Word :=
  match List.find (λ c, is_element (tdata c)) (tkids t) with
  | Some c => block_words measure styles c
  | None => []
  end.

Lemma list_find_is_find {A} (P : A → Prop) `{∀ x, Decision (P x)} (b : A → bool) l :
  (∀ x, x ∈ l → P x ↔ b x = true) → snd <$> list_find P l = List.find b l.
Proof.
  induction l as [|x l IH]; intros H'; [done|]. cbn [list_find List.find].
  assert (P x ↔ b x = true) as Hx by (apply H'; by left). case_decide as Hp.
  - by rewrite (proj1 Hx Hp).
  - destruct (b x); [naive_solver|]. rewrite <-IH by (intros; apply H'; by right).
    by destruct (list_find P l) as [[? ?]|].
Qed.

Lemma styled_element d sheets styles ps c :
  styled d sheets styles ps c → is_Some (styles !! tid c) ↔ is_element (tdata c) = true.
Proof.
  destruct c as [id dt ts]. intros (He & Hn & _)%styled_kids. cbn [tid tdata].
  destruct (is_element dt) eqn:E; [split; auto|]. rewrite Hn by done. split; [by intros [? ?]|done].
Qed.

(** Layout of a styled document shows the words it meets. *)
Lemma layout_root_spec measure d K sheets styles t c :
  Rep d K → unfolds d.(nodes) K t → tdata t = NDocument → styled d sheets styles None t →
  ∃ f, layout measure d (tid t) styles c = Ok f
    ∧ fragment_words f = map shown (flow_words measure styles t)
    ∧ Forall (word_styled styles) (flow_words measure styles t).
Proof.
  intros HR Hun Hdoc Hst. destruct t as [id dt ts]. cbn [tid tdata] in *. subst dt.
  destruct (unfolds_data d K HR id NDocument ts Hun) as (_ & Hc & Hall & _).
  destruct (styled_kids _ _ _ _ _ _ _ Hst) as (_ & Hn & Hk). unfold layout, flow_words. cbn [tkids].
  rewrite decide_False by (rewrite Hn by done; by intros [? ?]). rewrite Hc. cbn [mbind res_bind].
  change (map tid ts) with (tid <$> ts). rewrite list_find_fmap.
  rewrite <-(list_find_is_find (λ c, is_Some (styles !! tid c)) (λ c, is_element (tdata c))).
  2:{ intros k Hk'. destruct (Hk k Hk') as [ps Hps]. by eapply styled_element. }
  change ((λ k : N, is_Some (styles !! k)) ∘ tid) with (λ c : tree, is_Some (styles !! tid c)).
  destruct (list_find _ ts) as [[i e]|] eqn:Ef; cbn [fmap option_fmap option_map prod_map snd]; [|by eexists].
  apply list_find_Some in Ef as (Hi & Hse & _). apply list_elem_of_lookup_2 in Hi.
  destruct (Hk e Hi) as [ps Hps]. rewrite Forall_forall in Hall.
  destruct (layout_block_spec measure styles d K HR e (walk_fuel d) (available_width c) (Hall e Hi)) as (f & Hf & Hw).
  { pose proof (unfolds_size _ _ HR _ (Hall e Hi)). unfold walk_fuel. lia. }
  exists f. split_and!; [exact Hf|exact Hw|]. eapply block_words_styled; [done|]. by eapply styled_element.
Qed.

(** The text an element's style makes of a word. *)
Definition word_in_style (styles : gmap NodeId ComputedStyle) (w : Word)
    : option (list N * Color * f64 * bool * bool) :=
  text_in_style w.(w_text) <$> (styles !! w.(style_node)).

Lemma words_painted styles ws :
  Forall (word_styled styles) ws →
  map Some (omap (shown_text styles) (map shown ws)) = map (word_in_style styles) ws.
Proof.
  induction 1 as [|w ws [s Hs] _ IH]; [done|]. cbn [map]. rewrite <-IH.
  unfold word_in_style, shown_text at 1, shown at 1. cbn. by rewrite Hs.
Qed.

(** ** The text of a page

    What a page ought to show, without boxes: the words of its text nodes in document order, each
    with its element, and whether [display: none] hides it, on the element or on one above it. *)
Definition displays (styles : gmap NodeId ComputedStyle) (n : NodeId) (v : list N) : Prop :=
  ∃ s, styles !! n = Some s ∧ s.(display) = v.

#[export] Instance displays_dec styles n v : Decision (displays styles n v).
Proof.
  unfold displays. destruct (styles !! n) as [s|]; [|right; naive_solver].
  destruct (decide (s.(display) = v)); [left; eauto|right; naive_solver].
Defined.

Record PageWord := MkPageWord { pw_text : list N; pw_element : NodeId; pw_hidden : bool }.

Fixpoint page_words (styles : gmap NodeId ComputedStyle) (hidden : bool) (parent : NodeId) (t : tree) : list PageWord :=
  match t with
  | Tree id (NElement _ _) ts =>
      concat (map (page_words styles (hidden || bool_decide (displays styles id (str "none"))) id) ts)
  | Tree _ (NText s) _ => map (λ w, MkPageWord w parent hidden) (split_whitespace s)
  | Tree _ NDocument _ => []
  end.

(** The page is the first element of the document. *)
Definition page_element (t : tree) : option tree := List.find (λ c, is_element (tdata c)) (tkids t).
Definition page_text (styles : gmap NodeId ComputedStyle) (t : tree) : list PageWord :=
  match page_element t with Some c => page_words styles false (tid t) c | None => [] end.

Definition visible (l : list PageWord) : list PageWord := filter (λ w, w.(pw_hidden) = false) l.

(** An element with [display: none] that layout shows all the same, with everything below it: the
    page's own element, and one inside an element with [display: inline]. *)
Definition none_ignored (K : NodeId → list NodeId) (styles : gmap NodeId ComputedStyle) (t : tree) (e : NodeId) : Prop :=
  displays styles e (str "none")
  ∧ (tid <$> page_element t = Some e ∨ ∃ a, displays styles a (str "inline") ∧ tc (edge K) a e).

(** The text command of a word. *)
Definition drawn_word (styles : gmap NodeId ComputedStyle) (w : PageWord)
    : option (list N * Color * f64 * bool * bool) :=
  text_in_style w.(pw_text) <$> (styles !! w.(pw_element)).

Definition word_pair (w : Word) : list N * NodeId := (w.(w_text), w.(style_node)).
Definition page_pair (w : PageWord) : list N * NodeId := (w.(pw_text), w.(pw_element)).

Lemma drawn_pairs styles ws k :
  map word_pair ws = map page_pair k → map (word_in_style styles) ws = map (drawn_word styles) k.
Proof.
  revert k; induction ws as [|w ws IH]; intros [|x k]; [done..|]. cbn [map]. intros [= Ht Hn Hk].
  unfold word_in_style at 1, drawn_word at 1. rewrite Ht, Hn. f_equal. by apply IH.
Qed.

Lemma visible_app l1 l2 : visible (l1 ++ l2) = visible l1 ++ visible l2.
Proof. apply filter_app. Qed.

Lemma visible_all l : (∀ w, w ∈ l → w.(pw_hidden) = false) → visible l = l.
Proof.
  induction l as [|w l IH]; intros H; [done|]. unfold visible. rewrite filter_cons_True by (apply H; left).
  f_equal. apply IH. intros x Hx. apply H. by right.
Qed.

Lemma page_words_hidden styles t : ∀ p, visible (page_words styles true p t) = [].
Proof.
  induction t as [id dt ts IH] using tree_rose_ind. intros p. rewrite Forall_forall in IH.
  destruct dt as [|tag at_|s]; cbn [page_words orb]; [done| |].
  - induction ts as [|c ts IHts]; [done|]. cbn [map concat]. rewrite visible_app, IH by left.
    apply IHts. intros x Hx. apply IH. by right.
  - by induction (split_whitespace s).
Qed.

(** Inside an inline element every word is laid out, hidden or not. *)
Lemma inline_page_words measure styles t : ∀ h sn,
  map word_pair (inline_words measure styles sn t) = map page_pair (page_words styles h sn t).
Proof.
  induction t as [id dt ts IH] using tree_rose_ind. intros h sn. rewrite Forall_forall in IH.
  destruct dt as [|tag at_|s]; cbn [inline_words page_words]; [done| |by rewrite !map_map].
  rewrite !concat_map, !map_map. f_equal. apply map_ext_in. intros c Hc%list_elem_of_In. by apply IH.
Qed.

Section PageText.
Context (measure : list N → f64 → bool → bool → f64) (d : Document) (K : NodeId → list NodeId) (HR : Rep d K).
Context (styles : gmap NodeId ComputedStyle).

Lemma page_word_element t : ∀ h p w,
  unfolds d.(nodes) K t → w ∈ page_words styles h p t → w.(pw_element) = p ∨ rtc (edge K) (tid t) w.(pw_element).
Proof.
  induction t as [id dt ts IH] using tree_rose_ind. intros h p w Hun Hw. rewrite Forall_forall in IH.
  inversion Hun as [? r ? Hr Hts Hall]; subst. rewrite Forall_forall in Hall.
  destruct (r_data r) as [|tag at_|s]; cbn [page_words orb tid] in *; [by apply elem_of_nil in Hw| |].
  - right. apply list_elem_of_In, in_concat in Hw as (l & Hl & Hw). apply in_map_iff in Hl as (c & <- & Hc).
    rewrite <-list_elem_of_In in Hc. rewrite <-list_elem_of_In in Hw. apply IH in Hw as [->|Hw]; [done| |done|by apply Hall].
    eapply rtc_l; [|exact Hw]. unfold edge. rewrite <-Hts. by apply list_elem_of_fmap_2.
  - left. apply list_elem_of_In, in_map_iff in Hw as (x & <- & _). done.
Qed.

(** A hidden word has an element with [display: none] above it. *)
Lemma page_word_hidden t : ∀ p w,
  unfolds d.(nodes) K t → w ∈ page_words styles false p t → w.(pw_hidden) = true →
  ∃ e, displays styles e (str "none") ∧ rtc (edge K) (tid t) e ∧ rtc (edge K) e w.(pw_element).
Proof.
  induction t as [id dt ts IH] using tree_rose_ind. intros p w Hun Hw Hh. rewrite Forall_forall in IH.
  inversion Hun as [? r ? Hr Hts Hall]; subst. rewrite Forall_forall in Hall.
  assert (∀ c, c ∈ ts → edge K id (tid c)) as He by (unfold edge; rewrite <-Hts; intros; by apply list_elem_of_fmap_2).
  destruct (r_data r) as [|tag at_|s]; cbn [page_words orb tid] in *; [by apply elem_of_nil in Hw| |].
  - apply list_elem_of_In, in_concat in Hw as (l & Hl & Hw). apply in_map_iff in Hl as (c & <- & Hc).
    rewrite <-list_elem_of_In in Hc. rewrite <-list_elem_of_In in Hw. case_bool_decide as Hnone.
    + exists id. split_and!; [done..|]. apply page_word_element in Hw as [->|Hw]; [done| |by apply Hall].
      eapply rtc_l; [by apply He|done].
    + destruct (IH c Hc id w (Hall c Hc) Hw Hh) as (e & ? & ? & ?). exists e. split_and!; [done| |done].
      eapply rtc_l; [by apply He|done].
  - apply list_elem_of_In, in_map_iff in Hw as (x & <- & _). done.
Qed.

(** The words [ws] drawn of the text [W]: all the visible ones, and hidden ones only where [L] says. *)
Definition drawn_of (L : PageWord → Prop) (ws : list Word) (W : list PageWord) : Prop :=
  ∃ k, map word_pair ws = map page_pair k ∧ k `sublist_of` W ∧ visible k = visible W
    ∧ ∀ w, w ∈ k → w.(pw_hidden) = true → L w.

Lemma drawn_of_app L ws1 ws2 W1 W2 :
  drawn_of L ws1 W1 → drawn_of L ws2 W2 → drawn_of L (ws1 ++ ws2) (W1 ++ W2).
Proof.
  intros (k1 & Hp1 & Hs1 & Hv1 & HL1) (k2 & Hp2 & Hs2 & Hv2 & HL2). exists (k1 ++ k2). split_and!.
  - by rewrite !map_app, Hp1, Hp2.
  - by apply sublist_app.
  - by rewrite !visible_app, Hv1, Hv2.
  - intros w [Hw|Hw]%elem_of_app; auto.
Qed.

Lemma drawn_of_concat {A} L (f : A → list Word) (g : A → list PageWord) l :
  (∀ x, x ∈ l → drawn_of L (f x) (g x)) → drawn_of L (concat (map f l)) (concat (map g l)).
Proof.
  induction l as [|x l IH]; intros H; [exists []; split_and!; try done; intros w Hw; by apply elem_of_nil in Hw|].
  cbn [map concat]. apply drawn_of_app; [apply H; left|apply IH; intros; apply H; by right].
Qed.

(** Where layout shows a hidden word of a block: below an element hidden inside an inline one. *)
Definition leaks (h : bool) (w : PageWord) : Prop :=
  h = true ∨ ∃ e a, displays styles e (str "none") ∧ displays styles a (str "inline")
                ∧ tc (edge K) a e ∧ rtc (edge K) e w.(pw_element).

Lemma inline_drawn h p c :
  unfolds d.(nodes) K c → classify_data (tdata c) (styles !! tid c) = BGInline →
  drawn_of (leaks h) (child_inline_words measure styles p c) (page_words styles h p c).
Proof.
  intros Hun Hc. exists (page_words styles h p c). split_and!; [|done..|].
  - unfold child_inline_words. destruct c as [id [|tag at_|s] ts]; [done| |apply (inline_page_words _ _ (Tree id (NText s) ts))].
    cbn [tid tdata]. rewrite (inline_page_words measure styles (Tree id (NElement tag at_) ts) h id). done.
  - intros w Hw Hh. destruct h; [by left|right].
    destruct (page_word_hidden c p w Hun Hw Hh) as (e & He & Hce & Hew).
    destruct c as [id [|tag at_|s] ts]; cbn [tid tdata page_words] in *; [done| |].
    + unfold classify_data in Hc. destruct (styles !! id) as [st|] eqn:Es; [|done].
      destruct (decide (display st = str "none")) as [|Hnn]; [done|]. case_decide as Hi; [|done].
      exists e, id. split_and!; [done|by exists st| |done].
      apply rtc_tc in Hce as [->|?]; [|done]. destruct He as (st' & Hst' & Hn). congruence.
    + apply list_elem_of_In, in_map_iff in Hw as (x & <- & _). done.
Qed.

Lemma block_drawn t : ∀ h,
  unfolds d.(nodes) K t →
  drawn_of (leaks h) (block_words measure styles t) (concat (map (page_words styles h (tid t)) (tkids t))).
Proof.
  induction t as [id dt ts IH] using tree_rose_ind. intros h Hun. rewrite Forall_forall in IH.
  inversion Hun as [? r ? Hr Hts Hall]; subst. rewrite Forall_forall in Hall.
  rewrite block_words_unfold. cbn [tid tkids]. apply drawn_of_concat. intros c Hc. unfold kid_words.
  destruct (classify_data _ _) eqn:Ec.
  - specialize (IH c Hc h (Hall c Hc)). destruct c as [id' [|tag at_|s] ts']; cbn [tid tdata tkids] in *; [done| |done].
    cbn [page_words]. assert (bool_decide (displays styles id' (str "none")) = false) as ->; [|by rewrite orb_false_r].
    apply bool_decide_eq_false. intros (st & Hst & Hn). unfold classify_data in Ec. rewrite Hst in Ec.
    by rewrite decide_True in Ec.
  - apply inline_drawn; [by apply Hall|done].
  - exists []. split_and!; [done|apply sublist_nil_l| |intros w Hw; by apply elem_of_nil in Hw].
    destruct c as [id' [|tag at_|s] ts']; cbn [tid tdata] in *; [done| |done].
    unfold classify_data in Ec. destruct (styles !! id') as [st|] eqn:Es; [|done].
    case_decide as Hn; [|by case_decide]. cbn [page_words].
    rewrite (bool_decide_eq_true_2 (displays styles id' (str "none"))) by by exists st. rewrite orb_true_r.
    clear. induction ts' as [|c ts' IH]; [done|]. cbn [map concat]. by rewrite visible_app, page_words_hidden.
Qed.

(** What layout shows of a page. *)
Lemma flow_drawn t :
  unfolds d.(nodes) K t →
  drawn_of (λ w, ∃ e, none_ignored K styles t e ∧ rtc (edge K) e w.(pw_element))
    (flow_words measure styles t) (page_text styles t).
Proof.
  intros Hun. unfold flow_words, page_text, none_ignored, page_element.
  destruct (List.find _ _) as [c|] eqn:Ef; [|exists []; split_and!; try done; intros w Hw; by apply elem_of_nil in Hw].
  apply find_some in Ef as [Hin%list_elem_of_In Hel].
  inversion Hun as [id r ts Hr Hts Hall]; subst. cbn [tid tkids] in *. rewrite Forall_forall in Hall.
  pose proof (block_drawn c (bool_decide (displays styles (tid c) (str "none"))) (Hall c Hin)) as (k & Hp & Hs & Hv & HL).
  assert (page_words styles false id c
    = concat (map (page_words styles (bool_decide (displays styles (tid c) (str "none"))) (tid c)) (tkids c))) as Hw.
  { by destruct c as [? [] ?]. }
  exists k. rewrite Hw. split_and!; [done..|]. intros w Hwk Hh.
  destruct (HL w Hwk Hh) as [Hn%bool_decide_eq_true|(e & a & He & Ha & Hae & Hew)].
  - exists (tid c). split; [split; [done|by left]|].
    apply elem_of_sublist with (2 := Hs) in Hwk. rewrite <-Hw in Hwk.
    destruct c as [id' [|tag at_|s] ts']; [done| |done]. cbn [tid page_words] in *.
    apply list_elem_of_In, in_concat in Hwk as (l & Hl & Hwk). apply in_map_iff in Hl as (c & <- & Hc).
    rewrite <-list_elem_of_In in Hc. rewrite <-list_elem_of_In in Hwk. pose proof (Hall _ Hin) as Hun'.
    inversion Hun' as [? r' ? Hr' Hts' Hall']; subst. rewrite Forall_forall in Hall'.
    apply page_word_element in Hwk as [->|Hwk]; [done| |by apply Hall'].
    eapply rtc_l; [|exact Hwk]. unfold edge. rewrite <-Hts'. by apply list_elem_of_fmap_2.
  - exists e. split; [split; [done|right; by exists a]|done].
Qed.
End PageText.

(** ** Theorems *)

(** C7. Rendering conserves text end to end.  For a well-formed document with ASCII attributes and
    an ASCII author sheet the style, layout and paint stages all return.  The text commands of the
    frame are, in document order, words of the page's text, each in the colour, opacity, size,
    weight and slant of its element; every word that no [display: none] hides, on its element or
    above, is among them; and a hidden word is drawn only when it is below an element whose
    [display: none] layout ignores: the page's own element, or one inside an inline element.  When
    there is no such element, the frame shows exactly the visible words. *)
Theorem rendering_conserves_text measure d s c :
  WF d → ascii_document d = true → forallb is_ascii s = true → (N.of_nat (length s) <= U32_MAX)%N →
  ∃ K t ua author styles f drawn,
    Rep d K ∧ unfolds d.(nodes) K t ∧ d.(doc_root) = Some (tid t)
    ∧ ua_stylesheet = Ok ua ∧ parse s = Ok author
    ∧ cascade d [(Ua, ua); (Author, author)] = Ok styles
    ∧ layout measure d (tid t) styles c = Ok f
    ∧ map Some (omap text_command (paint f styles).(commands)) = map (drawn_word styles) drawn
    ∧ drawn `sublist_of` page_text styles t
    ∧ visible drawn = visible (page_text styles t)
    ∧ (∀ w, w ∈ drawn → w.(pw_hidden) = true →
         ∃ e, none_ignored K styles t e ∧ rtc (edge K) e w.(pw_element))
    ∧ ((∀ e, ¬ none_ignored K styles t e) → drawn = visible (page_text styles t)).
Proof.
  intros [K HR] Hd Hs Hlen.
  destruct (parse_rules_ascii UA_STYLESHEET_SOURCE) as [ua Hua]; [vm_compute; reflexivity|].
  destruct (parse_rules_ascii s Hs) as [author Hau].
  destruct (cascade_styles_tree d K [(Ua, ua); (Author, author)] HR) as (styles & t & Hc & Hroot & Hun & Hst & _);
    [eapply parsed_sheets_ok; eauto; vm_compute; discriminate|by intros; eapply ascii_inline_ok|].
  assert (tdata t = NDocument) as Hdoc.
  { destruct (rep_root _ _ HR) as (r & rec & Hr & Hrec & Hdt & _). rewrite Hroot in Hr. injection Hr as <-.
    destruct t as [id dt ts]. inversion Hun; subst. cbn [tid tdata] in *. by simplify_eq. }
  destruct (layout_root_spec measure d K _ styles t c HR Hun Hdoc Hst) as (f & Hf & Hw & Hws).
  destruct (flow_drawn measure d K styles t Hun) as (drawn & Hp & Hsub & Hv & HL).
  exists K, t, ua, author, styles, f, drawn. split_and!; [done..| |done|done|done|].
  - unfold paint. cbn [commands]. rewrite paint_fragment_text, Hw, (words_painted _ _ Hws). by apply drawn_pairs.
  - intros Hno. rewrite <-Hv. symmetry. apply visible_all. intros w Hwk.
    destruct (pw_hidden w) eqn:Eh; [|done]. destruct (HL w Hwk Eh) as (e & He & _). by apply Hno in He.
Qed.

Lemma rendering_conserves_text_witness :
  ∃ K t ua author styles f drawn,
    Rep nested_none K ∧ unfolds nested_none.(nodes) K t ∧ nested_none.(doc_root) = Some (tid t)
    ∧ ua_stylesheet = Ok ua ∧ parse (str "p { color: red }") = Ok author
    ∧ cascade nested_none [(Ua, ua); (Author, author)] = Ok styles
    ∧ layout (λ _ _ _ _, f64_of_Z 10) nested_none (tid t) styles {| available_width := f64_of_Z 800 |} = Ok f
    ∧ map Some (omap text_command (paint f styles).(commands)) = map (drawn_word styles) drawn
    ∧ drawn `sublist_of` page_text styles t
    ∧ visible drawn = visible (page_text styles t)
    ∧ (∀ w, w ∈ drawn → w.(pw_hidden) = true →
         ∃ e, none_ignored K styles t e ∧ rtc (edge K) e w.(pw_element))
    ∧ ((∀ e, ¬ none_ignored K styles t e) → drawn = visible (page_text styles t)).
Proof.
  apply (rendering_conserves_text (λ _ _ _ _, f64_of_Z 10) nested_none (str "p { color: red }")
           {| available_width := f64_of_Z 800 |}).
  - apply reachable_WF, (run_script_reachable nested_none_script). vm_compute. reflexivity.
  - vm_compute. reflexivity.
  - reflexivity.
  - vm_compute. discriminate.
Defined.

(** The page's own element is drawn whatever its [display]: here [html { display: none }]. *)
Definition hidden_root : Document :=
  default default_doc (run_script [OpCreate (el "html" [(str "style", str "display:none")]); OpAppend 0 1;
                                   OpCreate (NText (str "text")); OpAppend 1 2]%N).

Theorem display_none_on_root_is_shown :
  ∃ styles f, style_and_layout hidden_root = Ok (styles, f)
    ∧ display <$> (styles !! 1%N) = Some (str "none")
    ∧ fragment_words f = [(str "text", Some 1%N)].
Proof. apply observe_Some. vm_compute. reflexivity. Qed.

(** One empty paragraph with an inline style. *)
Definition paragraph (style : string) : Document :=
  default default_doc (run_script [OpCreate (el "p" [(str "style", str style)]); OpAppend 0 1]%N).
Arguments paragraph _%_string.

(** The height of the box and the commands that [style] leads to. *)
Definition rendered (style : string) : option (f64 * list PaintCommand) :=
  match style_and_layout (paragraph style) with
  | Ok (styles, f) => Some (f.(f_height), (paint f styles).(commands))
  | _ => None
  end.
Arguments rendered _%_string.

(** A border given in [em] takes its room in layout and is never painted: paint expects every
    length in pixels, and the cascade keeps the specified [em].  The same border in pixels paints
    its four edges. *)
Theorem em_border_laid_out_not_painted :
  rendered "border: 1em solid red" = Some (f64_of_Z 32, [])
  ∧ (option_map (prod_map id length) (rendered "border: 16px solid red")) = Some (f64_of_Z 32, 4).
Proof. split; vm_compute; reflexivity. Qed.

(** The colour [transparent] is painted as opaque black: its entry in the table of named
    colours has no alpha and every named colour gets alpha 255. *)
Theorem transparent_paints_black :
  (option_map snd (rendered "background-color: transparent; height: 10px"))
    = Some [PRect (MkRect f64_zero f64_zero (f64_of_Z 800) (f64_of_Z 10)) (Rgba 0 0 0 255)].
Proof. vm_compute. reflexivity. Qed.
