(* ===== verification/Raster.v ===== *)
(** * Rasterization ([core/raster/src/lib.rs]): display list to pixels

    The glyph rasterizer of [blueice_font] is the parameter [rasterize_glyph]; pixel indices are
    computed at 32 bits, as in the code, and an overflow is a panic. *)

From S2P Require Import Prelude Float Dom CssTokenizer CssValue CssSelector CssParser CssCascade.
From S2P Require Import Layout Paint.

Definition ASSUMED_ASCENT_RATIO : f64 := f64_lit "0.8".
Definition BACKGROUND : list N := [255; 255; 255; 255]%N.

Record TextRun := MkTextRun {
  run_x : f64; run_y : f64; run_text : list N; run_color : Color; run_font_size_px : f64;
  run_bold : bool; run_italic : bool;
}.

Record Pixmap := MkPixmap { pm_width : N; pm_height : N; pixels : list N }.

(** [isize::MAX], the largest capacity of a [Vec<u8>]. *)
Definition ISIZE_MAX : N := 2 ^ 63 - 1.

Definition blank (width height : N) : res Pixmap :=
  if (width * height * 4 <=? ISIZE_MAX)%N then
    Ok (MkPixmap width height (concat (replicate (N.to_nat (width * height)) BACKGROUND)))
  else Panic.

(** [((y * width + x) * 4) as usize], at [u32]. *)
Definition checked_mul_N (max a b : N) : res N := if (a * b <=? max)%N then Ok (a * b)%N else Panic.
Definition pixel_index (width x y : N) : res nat :=
  row ← checked_mul_N U32_MAX y width;
  i ← checked_add_N U32_MAX row x;
  i4 ← checked_mul_N U32_MAX i 4;
  Ok (N.to_nat i4).

Definition get_pixel (p : Pixmap) (x y : N) : res (list N) :=
  idx ← pixel_index p.(pm_width) x y;
  mapM (λ i, unwrap (p.(pixels) !! (idx + i)%nat)) [0; 1; 2; 3].

Definition with_pixels (p : Pixmap) (px : list N) : Pixmap := MkPixmap p.(pm_width) p.(pm_height) px.

(** [copy_from_slice] on [pixels[idx..idx + 4]]. *)
Definition copy_pixel (idx : nat) (src px : list N) : res (list N) :=
  if decide (idx + 4 ≤ length px) then Ok (list_inserts idx src px) else Panic.

Definition blend (channel existing a : N) : N :=
  (((channel * a + existing * (255 - a)) / 255) mod 256)%N.

Definition blend_channel (idx : nat) (a : N) (px : list N) (ic : nat * N) : res (list N) :=
  existing ← unwrap (px !! (idx + ic.1)%nat);
  Ok (<[(idx + ic.1)%nat := blend ic.2 existing a]> px).

Definition set_pixel_blended (p : Pixmap) (x y : Z) (r g b a : N) : res Pixmap :=
  if (x <? 0)%Z || (y <? 0)%Z || (Z.of_N p.(pm_width) <=? x)%Z || (Z.of_N p.(pm_height) <=? y)%Z
     || (a =? 0)%N
  then Ok p
  else
    idx ← pixel_index p.(pm_width) (Z.to_N x) (Z.to_N y);
    if (a =? 255)%N then
      px ← copy_pixel idx [r; g; b; 255%N] p.(pixels);
      Ok (with_pixels p px)
    else
      px ← fold_res (blend_channel idx a) p.(pixels) [(0, r); (1, g); (2, b)];
      Ok (with_pixels p px).

(** The half-open range of a [for] loop. *)
Definition range (lo hi : Z) : list Z := seqZ lo (hi - lo).

Definition fill_rect (p : Pixmap) (x y w h : f64) (c : Color) : res Pixmap :=
  match c with
  | CurrentColor => Ok p
  | Rgba r g b a =>
      let x0 := round_as_i64 x in
      let y0 := round_as_i64 y in
      let x1 := round_as_i64 (f64_add x w) in
      let y1 := round_as_i64 (f64_add y h) in
      fold_res (λ p py, fold_res (λ p px, set_pixel_blended p px py r g b a) p (range x0 x1))
        p (range y0 y1)
  end.

(** [fontdue::Metrics], the fields that are used. *)
Record Metrics := MkMetrics {
  xmin : Z; ymin : Z; m_width : nat; m_height : nat; advance_width : spec_float;
}.

Section Fonts.
(** [font_for_char(ch, bold, italic).rasterize(ch, size)]. *)
Context (rasterize_glyph : N → bool → bool → spec_float → Metrics * list N).

Definition draw_dot (m : Metrics) (bitmap : list N) (bitmap_left bitmap_top : f64) (r g b a : N)
    (row : nat) (p : Pixmap) (col : nat) : res Pixmap :=
  coverage ← unwrap (bitmap !! (row * m.(m_width) + col)%nat);
  if (coverage =? 0)%N then Ok p
  else
    let px := round_as_i64 (f64_add bitmap_left (f64_of_Z (Z.of_nat col))) in
    let py := round_as_i64 (f64_add bitmap_top (f64_of_Z (Z.of_nat row))) in
    set_pixel_blended p px py r g b (((coverage * a) / 255) mod 256)%N.

Definition draw_char (run : TextRun) (r g b a : N) (baseline_y : f64) (st : Pixmap * f64) (c : N)
    : res (Pixmap * f64) :=
  let '(p, pen_x) := st in
  let '(m, bitmap) := rasterize_glyph c run.(run_bold) run.(run_italic) (f32_of_f64 run.(run_font_size_px)) in
  let bitmap_top :=
    f64_sub baseline_y (f64_add (f64_of_Z m.(ymin)) (f64_of_Z (Z.of_nat m.(m_height)))) in
  let bitmap_left := f64_add pen_x (f64_of_Z m.(xmin)) in
  p ← fold_res (λ p row, fold_res (draw_dot m bitmap bitmap_left bitmap_top r g b a row) p (seq 0 m.(m_width)))
        p (seq 0 m.(m_height));
  Ok (p, f64_add pen_x (f64_of_f32 m.(advance_width))).

Definition draw_text (p : Pixmap) (run : TextRun) : res Pixmap :=
  match run.(run_color) with
  | CurrentColor => Ok p
  | Rgba r g b a =>
      let baseline_y := f64_add run.(run_y) (f64_mul run.(run_font_size_px) ASSUMED_ASCENT_RATIO) in
      fst <$> fold_res (draw_char run r g b a baseline_y) (p, run.(run_x)) run.(run_text)
  end.

Definition draw_command (p : Pixmap) (cmd : PaintCommand) : res Pixmap :=
  match cmd with
  | PRect rc c | PBorderEdge rc c =>
      fill_rect p rc.(rect_x) rc.(rect_y) rc.(rect_width) rc.(rect_height) c
  | PText x y text c size bold italic => draw_text p (MkTextRun x y text c size bold italic)
  end.

Definition rasterize (frame : Frame) : res Pixmap :=
  p ← blank (Z.to_N (ceil_as_u32 frame.(frame_width))) (Z.to_N (ceil_as_u32 frame.(frame_height)));
  fold_res draw_command p frame.(commands).
End Fonts.
