(* ===== verification/RasterProps.v ===== *)
(** * Rasterization: the pixel buffer keeps its shape, and what each drawing operation changes *)

From S2P Require Import Prelude Float Dom CssTokenizer CssValue CssSelector CssParser CssCascade.
From S2P Require Import Layout Paint Raster.

(** ** The invariant *)

Definition is_byte (n : N) : Prop := (n ≤ 255)%N.

(** Four bytes per pixel, row by row. *)
Record pixmap_ok (p : Pixmap) : Prop := {
  ok_length : length p.(pixels) = N.to_nat (4 * (p.(pm_width) * p.(pm_height)));
  ok_bytes : Forall is_byte p.(pixels);
}.

(** Every byte index fits in [u32]. *)
Definition indexable (w h : N) : Prop := (4 * (w * h) ≤ U32_MAX + 1)%N.

Definition same_size (p p' : Pixmap) : Prop := p'.(pm_width) = p.(pm_width) ∧ p'.(pm_height) = p.(pm_height).

#[export] Instance same_size_preorder : PreOrder same_size.
Proof. split; [done|]. intros p q r [H1 H2] [H3 H4]. split; congruence. Qed.

(** Channel [k] of the pixel at column [i] and row [j]. *)
Definition byte_index (w i j : N) (k : nat) : nat := N.to_nat (4 * (j * w + i)) + k.
Definition channel (p : Pixmap) (i j : N) (k : nat) : option N := p.(pixels) !! byte_index p.(pm_width) i j k.
Definition inside (p : Pixmap) (i j : N) : Prop := (i < p.(pm_width))%N ∧ (j < p.(pm_height))%N.

Lemma pixel_index_ok w h x y :
  indexable w h → (x < w)%N → (y < h)%N → pixel_index w x y = Ok (N.to_nat (4 * (y * w + x))).
Proof.
  unfold indexable, pixel_index, checked_mul_N, checked_add_N. intros Hi Hx Hy.
  assert (y * w + x + 1 ≤ w * h)%N as Hb by nia.
  rewrite (proj2 (N.leb_le (y * w) U32_MAX)) by lia. cbn [mbind res_bind].
  rewrite (proj2 (N.leb_le (y * w + x) U32_MAX)) by lia. cbn [mbind res_bind].
  rewrite (proj2 (N.leb_le ((y * w + x) * 4) U32_MAX)) by lia. cbn [mbind res_bind].
  by rewrite (N.mul_comm 4).
Qed.

Lemma byte_index_inj w i j k i' j' k' :
  (i < w)%N → (i' < w)%N → k < 4 → k' < 4 →
  byte_index w i j k = byte_index w i' j' k' → i = i' ∧ j = j' ∧ k = k'.
Proof.
  unfold byte_index. intros Hi Hi' Hk Hk' H. assert (j * w + i = j' * w + i')%N as He by lia.
  assert (j = j') as -> by nia. split_and!; [lia|done|lia].
Qed.

Lemma byte_index_bound p i j k :
  pixmap_ok p → inside p i j → k < 4 → byte_index p.(pm_width) i j k < length p.(pixels).
Proof.
  intros [Hl _] [Hi Hj] Hk. rewrite Hl. unfold byte_index.
  assert (j * pm_width p + i + 1 ≤ pm_width p * pm_height p)%N by nia. lia.
Qed.

(** ** One pixel *)
Definition blended (r g b a : N) (k : nat) (old : N) : N :=
  if (a =? 255)%N then nth k [r; g; b; 255%N] 0%N
  else match k with 0 => blend r old a | 1 => blend g old a | 2 => blend b old a | _ => old end.

Lemma blend_byte c old a : is_byte (blend c old a).
Proof. unfold blend, is_byte. pose proof (N.mod_upper_bound ((c * a + old * (255 - a)) / 255) 256). lia. Qed.

Lemma blended_byte r g b a k old :
  is_byte r → is_byte g → is_byte b → is_byte old → is_byte (blended r g b a k old).
Proof.
  intros. unfold blended. destruct (a =? 255)%N.
  - destruct k as [|[|[|[|k]]]]; cbn; try done; destruct k; done.
  - destruct k as [|[|[|k]]]; auto using blend_byte.
Qed.

(** A buffer that differs from [px] only in the four bytes from [idx]. *)
Definition written (px px' : list N) (idx : nat) (f : nat → N → N) : Prop :=
  length px' = length px
  ∧ (∀ k old, k < 4 → px !! (idx + k) = Some old → px' !! (idx + k) = Some (f k old))
  ∧ (∀ i, i < idx ∨ idx + 4 ≤ i → px' !! i = px !! i).

Lemma copy_pixel_written px idx r g b :
  idx + 4 ≤ length px →
  ∃ px', copy_pixel idx [r; g; b; 255%N] px = Ok px' ∧ written px px' idx (blended r g b 255).
Proof.
  intros Hlen. unfold copy_pixel. rewrite decide_True by done. eexists. split; [done|].
  split_and!.
  - by rewrite length_inserts.
  - intros k old Hk _. rewrite list_lookup_inserts by (cbn; lia).
    replace (idx + k - idx) with k by lia. destruct k as [|[|[|[|k]]]]; [done..|lia].
  - intros i [Hi|Hi]; [by rewrite list_lookup_inserts_lt|by rewrite list_lookup_inserts_ge].
Qed.

Lemma blend_written px idx r g b a :
  idx + 4 ≤ length px → (a =? 255)%N = false →
  ∃ px', fold_res (blend_channel idx a) px [(0, r); (1, g); (2, b)] = Ok px'
    ∧ written px px' idx (blended r g b a).
Proof.
  intros Hlen Ha.
  destruct (lookup_lt_is_Some_2 px (idx + 0)) as [o0 H0]; [lia|].
  destruct (lookup_lt_is_Some_2 px (idx + 1)) as [o1 H1]; [lia|].
  destruct (lookup_lt_is_Some_2 px (idx + 2)) as [o2 H2]; [lia|].
  unfold fold_res, blend_channel. cbn [fst snd]. rewrite H0. cbn [unwrap mbind res_bind].
  rewrite list_lookup_insert_ne, H1 by lia. cbn [unwrap mbind res_bind].
  rewrite !list_lookup_insert_ne, H2 by lia. cbn [unwrap mbind res_bind].
  eexists. split; [done|]. unfold written, blended. rewrite Ha, !length_insert. split_and!; [done| |].
  - intros k old Hk Hold. destruct k as [|[|[|[|k]]]]; [..|lia].
    + rewrite !list_lookup_insert_ne by lia. rewrite list_lookup_insert_eq by lia. congruence.
    + rewrite list_lookup_insert_ne by lia. rewrite list_lookup_insert_eq by (rewrite ?length_insert; lia). congruence.
    + rewrite list_lookup_insert_eq by (rewrite ?length_insert; lia). congruence.
    + by rewrite !list_lookup_insert_ne by lia.
  - intros i Hi. by rewrite !list_lookup_insert_ne by lia.
Qed.

Definition at_pixel (x y : Z) (i j : N) : Prop := x = Z.of_N i ∧ y = Z.of_N j.
#[export] Instance at_pixel_dec x y i j : Decision (at_pixel x y i j).
Proof. unfold at_pixel. apply _. Defined.

(** What a drawing operation keeps: the size, the shape of the buffer and the byte range. *)
Definition drawn (p p' : Pixmap) : Prop := same_size p p' ∧ pixmap_ok p'.

Lemma written_bytes px px' idx r g b a :
  idx + 4 ≤ length px → is_byte r → is_byte g → is_byte b → Forall is_byte px →
  written px px' idx (blended r g b a) → Forall is_byte px'.
Proof.
  intros Hroom Hr Hg Hb Hpx (Hlen & Hnew & Hold). apply Forall_lookup. intros n v Hv.
  destruct (decide (n < idx ∨ idx + 4 ≤ n)) as [Hn|Hn].
  - rewrite Hold in Hv by done. exact (Forall_lookup_1 _ _ _ _ Hpx Hv).
  - replace n with (idx + (n - idx)) in Hv by lia.
    destruct (lookup_lt_is_Some_2 px (idx + (n - idx))) as [o Ho]; [lia|].
    rewrite (Hnew (n - idx) o) in Hv by (lia || done). injection Hv as <-.
    apply blended_byte; [done..|]. exact (Forall_lookup_1 _ _ _ _ Hpx Ho).
Qed.

Lemma written_drawn p px' i j r g b a :
  pixmap_ok p → inside p i j → is_byte r → is_byte g → is_byte b →
  written p.(pixels) px' (byte_index p.(pm_width) i j 0) (blended r g b a) →
  drawn p (with_pixels p px')
  ∧ ∀ i' j' k, inside p i' j' → k < 4 →
      channel (with_pixels p px') i' j' k =
        if decide (i' = i ∧ j' = j) then blended r g b a k <$> channel p i' j' k else channel p i' j' k.
Proof.
  intros Hok Hin Hr Hg Hb Hw.
  pose proof (byte_index_bound p i j 3 Hok Hin ltac:(lia)) as Hbound.
  assert (byte_index (pm_width p) i j 0 + 4 ≤ length (pixels p)) as Hroom by (unfold byte_index in *; lia).
  split; [split; [done|split]|].
  - cbn [pixels with_pixels pm_width pm_height]. rewrite (proj1 Hw). apply Hok.
  - exact (written_bytes _ _ _ _ _ _ _ Hroom Hr Hg Hb (ok_bytes _ Hok) Hw).
  - destruct Hw as (Hlen & Hnew & Hold). intros i' j' k Hin' Hk. unfold channel. cbn [pixels pm_width with_pixels].
    case_decide as Hd.
    + destruct Hd as [-> ->].
      replace (byte_index (pm_width p) i j k) with (byte_index (pm_width p) i j 0 + k) by (unfold byte_index; lia).
      destruct (lookup_lt_is_Some_2 (pixels p) (byte_index (pm_width p) i j 0 + k)) as [o Ho]; [lia|].
      rewrite Ho. cbn. by apply Hnew.
    + apply Hold. destruct (decide (byte_index (pm_width p) i' j' k < byte_index (pm_width p) i j 0)); [by left|].
      destruct (decide (byte_index (pm_width p) i j 0 + 4 ≤ byte_index (pm_width p) i' j' k)); [by right|].
      exfalso. apply Hd.
      destruct (byte_index_inj (pm_width p) i' j' k i j (byte_index (pm_width p) i' j' k - byte_index (pm_width p) i j 0))
        as (? & ? & _); [apply Hin'|apply Hin|done|lia| |done].
      unfold byte_index in *. lia.
Qed.

Lemma set_pixel_spec p x y r g b a :
  pixmap_ok p → indexable p.(pm_width) p.(pm_height) → is_byte r → is_byte g → is_byte b → 
  ∃ p', set_pixel_blended p x y r g b a = Ok p' ∧ drawn p p'
    ∧ ∀ i j k, inside p i j → k < 4 →
        channel p' i j k =
          if decide (at_pixel x y i j ∧ a ≠ 0%N) then blended r g b a k <$> channel p i j k
          else channel p i j k.
Proof.
  intros Hok Hidx Hr Hg Hb. unfold set_pixel_blended. destruct (_ || _) eqn:E.
  { exists p. split_and!; [done|split; [done|by apply Hok]|]. intros i j k [Hi Hj] Hk.
    rewrite decide_False; [done|]. intros [[-> ->] Ha].
    rewrite !orb_true_iff, !Z.ltb_lt, !Z.leb_le, N.eqb_eq in E. lia. }
  apply orb_false_iff in E as [[[[Hx Hy]%orb_false_iff Hw]%orb_false_iff Hh]%orb_false_iff Ha].
  apply Z.ltb_ge in Hx, Hy. apply Z.leb_gt in Hw, Hh. apply N.eqb_neq in Ha.
  assert (inside p (Z.to_N x) (Z.to_N y)) as Hin by (unfold inside; lia).
  rewrite (pixel_index_ok _ (pm_height p)) by (done || apply Hin). cbn [mbind res_bind].
  assert (N.to_nat (4 * (Z.to_N y * pm_width p + Z.to_N x)) = byte_index (pm_width p) (Z.to_N x) (Z.to_N y) 0) as ->
    by (unfold byte_index; lia).
  pose proof (byte_index_bound p _ _ 3 Hok Hin ltac:(lia)) as Hbound.
  assert (byte_index (pm_width p) (Z.to_N x) (Z.to_N y) 0 + 4 ≤ length (pixels p)) as Hroom by (unfold byte_index in *; lia).
  assert (∃ px', (if (a =? 255)%N then px ← copy_pixel (byte_index (pm_width p) (Z.to_N x) (Z.to_N y) 0) [r; g; b; 255%N] (pixels p); Ok (with_pixels p px)
      else px ← fold_res (blend_channel (byte_index (pm_width p) (Z.to_N x) (Z.to_N y) 0) a) (pixels p) [(0, r); (1, g); (2, b)]; Ok (with_pixels p px))
      = Ok (with_pixels p px')
      ∧ written (pixels p) px' (byte_index (pm_width p) (Z.to_N x) (Z.to_N y) 0) (blended r g b a)) as (px' & -> & Hwr).
  { destruct (a =? 255)%N eqn:E255.
    - apply N.eqb_eq in E255 as ->. destruct (copy_pixel_written (pixels p) _ r g b Hroom) as (px' & -> & ?). by exists px'.
    - destruct (blend_written (pixels p) _ r g b a Hroom E255) as (px' & -> & ?). by exists px'. }
  destruct (written_drawn p px' _ _ r g b a Hok Hin Hr Hg Hb Hwr) as [Hdr Hch].
  eexists. split_and!; [done|done|]. intros i j k Hij Hk. rewrite Hch by done.
  assert ((i = Z.to_N x ∧ j = Z.to_N y) ↔ at_pixel x y i j ∧ a ≠ 0%N) as Hiff by (unfold at_pixel; lia).
  by rewrite (decide_ext _ _ _ _ Hiff).
Qed.

(** ** Loops *)

(** Blend the colour once into the pixels of the region [S], and leave the others. *)
Definition effect (r g b a : N) (S : N → N → bool) (p p' : Pixmap) : Prop :=
  drawn p p' ∧
  ∀ i j k, inside p i j → k < 4 →
    channel p' i j k = if S i j then blended r g b a k <$> channel p i j k else channel p i j k.

Lemma effect_none r g b a S p : pixmap_ok p → (∀ i j, inside p i j → S i j = false) → effect r g b a S p p.
Proof. intros Hok HS. split; [by split|]. intros i j k Hin Hk. by rewrite HS. Qed.

Lemma effect_inside r g b a S p p' i j : effect r g b a S p p' → inside p i j → inside p' i j.
Proof. intros [[[Hw Hh] _] _] [Hi Hj]. unfold inside. by rewrite Hw, Hh. Qed.

Lemma effect_trans r g b a S1 S2 p p1 p2 :
  effect r g b a S1 p p1 → effect r g b a S2 p1 p2 → (∀ i j, S1 i j = true → S2 i j = false) →
  effect r g b a (λ i j, S1 i j || S2 i j) p p2.
Proof.
  intros H1 H2 Hdis. split.
  - split; [etrans; [apply H1|apply H2]|apply H2].
  - intros i j k Hin Hk. rewrite (proj2 H2) by (eauto using effect_inside || done).
    rewrite (proj2 H1) by done. specialize (Hdis i j).
    destruct (S1 i j) eqn:E1, (S2 i j) eqn:E2; try done. naive_solver.
Qed.

Lemma effect_ext r g b a S S' p p' :
  (∀ i j, inside p i j → S i j = S' i j) → effect r g b a S p p' → effect r g b a S' p p'.
Proof. intros HS [Hd H]. split; [done|]. intros i j k Hin Hk. rewrite <-HS by done. by apply H. Qed.

(** A loop whose turns touch disjoint regions touches their union, each pixel once. *)
Lemma fold_effect {A} (f : Pixmap → A → res Pixmap) (S : A → N → N → bool) r g b a w h l :
  NoDup l →
  (∀ x, x ∈ l → ∀ p, pixmap_ok p → p.(pm_width) = w → p.(pm_height) = h →
     ∃ p', f p x = Ok p' ∧ effect r g b a (S x) p p') →
  (∀ x y i j, x ≠ y → S x i j = true → S y i j = false) →
  ∀ p, pixmap_ok p → p.(pm_width) = w → p.(pm_height) = h →
  ∃ p', fold_res f p l = Ok p' ∧ effect r g b a (λ i j, existsb (λ x, S x i j) l) p p'.
Proof.
  intros Hnd Hf Hdis. induction l as [|x l IH]; intros p Hok Hw Hh; cbn [fold_res existsb].
  { exists p. split; [done|]. by apply effect_none. }
  apply NoDup_cons in Hnd as [Hx Hnd].
  destruct (Hf x (list_elem_of_here _ _) p Hok Hw Hh) as (p1 & -> & H1). cbn [mbind res_bind].
  destruct (IH Hnd) with (p := p1) as (p2 & Hp2 & H2).
  { intros y Hy. apply Hf. by right. }
  { apply H1. } { by rewrite (proj1 (proj1 (proj1 H1))). } { by rewrite (proj2 (proj1 (proj1 H1))). }
  exists p2. split; [done|]. apply (effect_trans _ _ _ _ _ _ _ p1); [done|done|].
  intros i j HS. apply not_true_iff_false. intros (y & Hy & HSy)%existsb_exists.
  rewrite (Hdis x y) in HSy; [done| |done]. intros ->. apply Hx. by apply list_elem_of_In.
Qed.

Definition at_b (x y : Z) (i j : N) : bool := (x =? Z.of_N i)%Z && (y =? Z.of_N j)%Z.

Lemma existsb_range lo hi (P : Z → bool) :
  existsb P (range lo hi) = true ↔ ∃ z, (lo <= z < hi)%Z ∧ P z = true.
Proof.
  rewrite existsb_exists. unfold range. split; intros (z & Hz & HP); exists z; (split; [|done]).
  - apply list_elem_of_In, elem_of_seqZ in Hz. lia.
  - apply list_elem_of_In, elem_of_seqZ. lia.
Qed.

(** The region of a rectangle with corners [x0, y0] and [x1, y1]. *)
Definition in_rect (x0 y0 x1 y1 : Z) (i j : N) : bool :=
  ((x0 <=? Z.of_N i) && (Z.of_N i <? x1) && (y0 <=? Z.of_N j) && (Z.of_N j <? y1))%Z.

Lemma bool_iff (b c : bool) : (b = true ↔ c = true) → b = c.
Proof. destruct b, c; naive_solver. Qed.

Lemma fill_loop_spec p x0 y0 x1 y1 r g b a :
  pixmap_ok p → indexable p.(pm_width) p.(pm_height) → is_byte r → is_byte g → is_byte b →
  ∃ p', fold_res (λ p py, fold_res (λ p px, set_pixel_blended p px py r g b a) p (range x0 x1))
          p (range y0 y1) = Ok p'
    ∧ effect r g b a (λ i j, in_rect x0 y0 x1 y1 i j && negb (a =? 0)%N) p p'.
Proof.
  intros Hok Hidx Hr Hg Hb.
  set (row py i j := existsb (λ px, at_b px py i j && negb (a =? 0)%N) (range x0 x1)).
  assert (∀ py i j, row py i j = true ↔ (x0 <= Z.of_N i < x1)%Z ∧ py = Z.of_N j ∧ a ≠ 0%N) as Hrow.
  { intros py i j. unfold row, at_b. rewrite existsb_range. split.
    - intros (z & Hz & H). rewrite !andb_true_iff, negb_true_iff, !Z.eqb_eq, N.eqb_neq in H. lia.
    - intros (H1 & -> & H3). exists (Z.of_N i). split; [done|].
      rewrite !andb_true_iff, negb_true_iff, !Z.eqb_eq, N.eqb_neq. done. }
  destruct (fold_effect (λ p py, fold_res (λ p px, set_pixel_blended p px py r g b a) p (range x0 x1))
    row r g b a p.(pm_width) p.(pm_height) (range y0 y1)) with (p := p) as (p' & Hp' & He); try done.
  - apply NoDup_seqZ.
  - intros py _ q Hq Hw Hh.
    apply (fold_effect (λ p px, set_pixel_blended p px py r g b a) (λ px i j, at_b px py i j && negb (a =? 0)%N)
             r g b a q.(pm_width) q.(pm_height)); try done.
    + apply NoDup_seqZ.
    + intros px _ q' Hq' Hw' Hh'. rewrite <-Hw, <-Hh in Hidx.
      destruct (set_pixel_spec q' px py r g b a Hq') as (q2 & Hq2 & Hd & Hch); [by rewrite Hw', Hh'|done..|].
      exists q2. split; [done|]. split; [done|]. intros i j k Hin Hk. rewrite Hch by done.
      unfold at_b. destruct (decide (at_pixel px py i j ∧ a ≠ 0%N)) as [[[-> ->] Ha]|Hc].
      * rewrite !Z.eqb_refl. by apply N.eqb_neq in Ha as ->.
      * destruct (_ && _) eqn:E; [|done].
        rewrite !andb_true_iff, negb_true_iff, !Z.eqb_eq, N.eqb_neq in E. unfold at_pixel in Hc. naive_solver.
    + intros x y i j Hxy. unfold at_b. rewrite !andb_true_iff, !andb_false_iff, !Z.eqb_eq, !Z.eqb_neq. naive_solver.
  - intros y y' i j Hy (_ & -> & _)%Hrow. apply not_true_iff_false. intros (_ & -> & _)%Hrow. done.
  - exists p'. split; [done|]. eapply effect_ext; [|exact He]. intros i j _. cbn beta. apply bool_iff.
    rewrite existsb_range. unfold in_rect. setoid_rewrite Hrow.
    rewrite !andb_true_iff, negb_true_iff, !Z.leb_le, !Z.ltb_lt, N.eqb_neq. split.
    + intros (z & Hz & H1 & -> & H3). lia.
    + intros H. exists (Z.of_N j). lia.
Qed.

(** A loop whose turns return and keep the shape returns and keeps the shape. *)
Lemma fold_drawn {A} (f : Pixmap → A → res Pixmap) l : ∀ p,
  pixmap_ok p →
  (∀ x q, x ∈ l → drawn p q → ∃ q', f q x = Ok q' ∧ drawn q q') →
  ∃ p', fold_res f p l = Ok p' ∧ drawn p p'.
Proof.
  induction l as [|x l IH]; intros p Hok Hf; cbn [fold_res]; [by exists p|].
  destruct (Hf x p) as (p1 & -> & H1); [by left|by split|]. cbn [mbind res_bind].
  destruct (IH p1) as (p2 & Hp2 & H2); [apply H1| |].
  - intros y q Hy Hq. apply Hf; [by right|]. split; [|apply Hq]. etrans; [apply H1|apply Hq].
  - exists p2. split; [done|]. split; [|apply H2]. etrans; [apply H1|apply H2].
Qed.

Definition color_ok (c : Color) : Prop :=
  match c with Rgba r g b a => is_byte r ∧ is_byte g ∧ is_byte b ∧ is_byte a | CurrentColor => True end.

Lemma fill_rect_drawn p x y w h c :
  pixmap_ok p → indexable p.(pm_width) p.(pm_height) → color_ok c →
  ∃ p', fill_rect p x y w h c = Ok p' ∧ drawn p p'.
Proof.
  intros Hok Hidx Hc. destruct c as [r g b a|]; [|by exists p].
  destruct Hc as (Hr & Hg & Hb & _).
  destruct (fill_loop_spec p (round_as_i64 x) (round_as_i64 y) (round_as_i64 (f64_add x w))
    (round_as_i64 (f64_add y h)) r g b a Hok Hidx Hr Hg Hb) as (p' & Hp' & He).
  exists p'. split; [exact Hp'|apply He].
Qed.

Section Fonts.
Context (glyph : N → bool → bool → spec_float → Metrics * list N).

(** What the font library documents: one coverage byte per cell of the bitmap. *)
Definition glyphs_ok : Prop :=
  ∀ c bold italic size, let '(m, bitmap) := glyph c bold italic size in
    length bitmap = m.(m_width) * m.(m_height).

Context (Hglyphs : glyphs_ok).

Lemma drawn_indexable p q : drawn p q → indexable p.(pm_width) p.(pm_height) → indexable q.(pm_width) q.(pm_height).
Proof. by intros [[-> ->] _]. Qed.

Lemma draw_char_drawn run r g b a base p pen c :
  pixmap_ok p → indexable p.(pm_width) p.(pm_height) → is_byte r → is_byte g → is_byte b →
  ∃ p' pen', draw_char glyph run r g b a base (p, pen) c = Ok (p', pen') ∧ drawn p p'.
Proof.
  intros Hok Hidx Hr Hg Hb. unfold draw_char.
  pose proof (Hglyphs c (run_bold run) (run_italic run) (f32_of_f64 (run_font_size_px run))) as Hm.
  destruct (glyph _ _ _ _) as [m bitmap].
  cbv zeta. match goal with |- context [fold_res ?f p ?l] =>
    destruct (fold_drawn f l p Hok) as (p' & -> & Hp') end.
  - intros row q Hrow Hq. apply elem_of_seq in Hrow. apply fold_drawn; [apply Hq|]. intros col q' Hcol Hq'.
    apply elem_of_seq in Hcol. unfold draw_dot.
    destruct (lookup_lt_is_Some_2 bitmap (row * m_width m + col)) as [cov ->]; [rewrite Hm; nia|].
    cbn [unwrap mbind res_bind]. destruct (cov =? 0)%N; [exists q'; split; [done|]; split; [done|apply Hq']|].
    match goal with |- context [set_pixel_blended q' ?x ?y r g b ?al] =>
      destruct (set_pixel_spec q' x y r g b al) as (q2 & Hq2 & Hd & _) end;
      [apply Hq'|by eapply drawn_indexable, drawn_indexable|done..|]. by exists q2.
  - cbn [mbind res_bind]. by eexists _, _.
Qed.

Lemma draw_text_drawn p run :
  pixmap_ok p → indexable p.(pm_width) p.(pm_height) → color_ok run.(run_color) →
  ∃ p', draw_text glyph p run = Ok p' ∧ drawn p p'.
Proof.
  intros Hok Hidx Hc. unfold draw_text. destruct (run_color run) as [r g b a|]; [|by exists p].
  destruct Hc as (Hr & Hg & Hb & _). set (base := f64_add _ _). generalize (run_x run) as pen.
  revert p Hok Hidx. induction (run_text run) as [|c cs IH]; intros p Hok Hidx pen; cbn [fold_res]; [by exists p|].
  destruct (draw_char_drawn run r g b a base p pen c) as (p1 & pen1 & -> & H1); [done..|]. cbn [mbind res_bind].
  destruct (IH p1) with (pen := pen1) as (p2 & Hp2 & H2); [apply H1|by eapply drawn_indexable|].
  exists p2. split; [done|]. split; [|apply H2]. etrans; [apply H1|apply H2].
Qed.

Definition command_color (cmd : PaintCommand) : Color :=
  match cmd with PRect _ c | PBorderEdge _ c => c | PText _ _ _ c _ _ _ => c end.

Lemma draw_command_drawn p cmd :
  pixmap_ok p → indexable p.(pm_width) p.(pm_height) → color_ok (command_color cmd) →
  ∃ p', draw_command glyph p cmd = Ok p' ∧ drawn p p'.
Proof. destruct cmd; intros; [by apply fill_rect_drawn..|by apply draw_text_drawn]. Qed.
End Fonts.

Lemma length_concat_replicate {A} n (l : list A) : length (concat (replicate n l)) = n * length l.
Proof. induction n as [|n IH]; [done|]. cbn. by rewrite length_app, IH. Qed.

Lemma blank_ok w h : indexable w h → ∃ p, blank w h = Ok p ∧ pixmap_ok p ∧ p.(pm_width) = w ∧ p.(pm_height) = h.
Proof.
  unfold indexable, blank. intros Hi. rewrite (proj2 (N.leb_le (w * h * 4) ISIZE_MAX)) by (unfold U32_MAX, ISIZE_MAX in *; lia).
  eexists. split; [done|]. split; [split|done]; cbn [pixels pm_width pm_height].
  - rewrite length_concat_replicate. cbn [length BACKGROUND]. lia.
  - induction (N.to_nat (w * h)) as [|n IH]; [constructor|]. cbn [replicate concat].
    apply Forall_app. split; [|done]. repeat constructor; unfold is_byte; lia.
Qed.

(** ** Theorems *)

(** Rasterization is total and keeps the buffer's shape: for every frame whose pixels can be
    indexed at 32 bits and whose colours are bytes, whatever the coordinates (negative, out of the
    canvas, infinite or NaN), it returns a buffer of exactly four bytes per pixel of the rounded-up
    frame size, every one at most 255. *)
Theorem rasterize_total glyph frame :
  glyphs_ok glyph → Forall (λ cmd, color_ok (command_color cmd)) frame.(commands) →
  let w := Z.to_N (ceil_as_u32 frame.(frame_width)) in
  let h := Z.to_N (ceil_as_u32 frame.(frame_height)) in
  indexable w h →
  ∃ p, rasterize glyph frame = Ok p ∧ p.(pm_width) = w ∧ p.(pm_height) = h
    ∧ length p.(pixels) = N.to_nat (4 * (w * h)) ∧ Forall is_byte p.(pixels).
Proof.
  intros Hg Hcs w h Hidx. unfold rasterize. fold w h.
  destruct (blank_ok w h Hidx) as (p & -> & Hok & Hw & Hh). cbn [mbind res_bind].
  destruct (fold_drawn (draw_command glyph) (commands frame) p Hok) as (p' & Hp' & [[Hw' Hh'] [Hl Hb]]).
  - rewrite Forall_forall in Hcs. intros cmd q Hcmd Hq.
    apply draw_command_drawn; [done|apply Hq|by rewrite (proj1 (proj1 Hq)), (proj2 (proj1 Hq)), Hw, Hh|by apply Hcs].
  - exists p'. rewrite Hl, Hw', Hh', Hw, Hh. done.
Qed.

(** Filling a rectangle blends the colour exactly once into each pixel of the canvas whose
    coordinates lie in the rounded rectangle, and changes no other pixel. *)
Theorem fill_rect_pixels p x y w h r g b a :
  pixmap_ok p → indexable p.(pm_width) p.(pm_height) → color_ok (Rgba r g b a) →
  ∃ p', fill_rect p x y w h (Rgba r g b a) = Ok p' ∧ same_size p p' ∧ pixmap_ok p'
    ∧ ∀ i j k, inside p i j → k < 4 →
        channel p' i j k =
          if in_rect (round_as_i64 x) (round_as_i64 y) (round_as_i64 (f64_add x w))
               (round_as_i64 (f64_add y h)) i j && negb (a =? 0)%N
          then blended r g b a k <$> channel p i j k
          else channel p i j k.
Proof.
  intros Hok Hidx (Hr & Hg & Hb & _).
  destruct (fill_loop_spec p (round_as_i64 x) (round_as_i64 y) (round_as_i64 (f64_add x w))
    (round_as_i64 (f64_add y h)) r g b a Hok Hidx Hr Hg Hb) as (p' & Hp' & [[Hs Hok'] Hch]).
  by exists p'.
Qed.

(** The 32-bit index arithmetic limits the canvas: as soon as the buffer has more than 2^32
    bytes (a page 800 pixels wide and 1,342,178 tall), drawing the last pixel overflows. *)
Theorem large_canvas_overflows p r g b a :
  (0 < p.(pm_width))%N → (0 < p.(pm_height))%N → ¬ indexable p.(pm_width) p.(pm_height) → a ≠ 0%N →
  set_pixel_blended p (Z.of_N p.(pm_width) - 1) (Z.of_N p.(pm_height) - 1) r g b a = Panic.
Proof.
  intros Hw Hh Hi Ha. unfold set_pixel_blended. destruct (_ || _) eqn:E.
  { rewrite !orb_true_iff, !Z.ltb_lt, !Z.leb_le, N.eqb_eq in E. lia. }
  unfold pixel_index, checked_mul_N, checked_add_N.
  replace (Z.to_N (Z.of_N (pm_width p) - 1)) with (pm_width p - 1)%N by lia.
  replace (Z.to_N (Z.of_N (pm_height p) - 1)) with (pm_height p - 1)%N by lia.
  destruct ((pm_height p - 1) * pm_width p <=? U32_MAX)%N; [cbn [mbind res_bind]|done].
  destruct (_ <=? U32_MAX)%N; [cbn [mbind res_bind]|done].
  rewrite (proj2 (N.leb_gt _ _)); [done|]. unfold indexable in Hi.
  assert ((pm_height p - 1) * pm_width p + (pm_width p - 1) = pm_width p * pm_height p - 1)%N as -> by nia.
  change U32_MAX with 4294967295%N in *. lia.
Qed.

(** Every glyph is one opaque dot. *)
Definition dot_glyph (_ : N) (_ _ : bool) (_ : spec_float) : Metrics * list N :=
  (MkMetrics 0 0 1 1 (f32_of_Z 1), [255%N]).
Definition small_frame : Frame :=
  MkFrame (f64_of_Z 2) (f64_lit "1.5")
    [PRect (MkRect (f64_of_Z (-3)) f64_zero (f64_of_Z 4) (f64_of_Z 7)) (Rgba 0 255 0 128);
     PText f64_zero f64_zero (str "x") (Rgba 0 0 0 255) (f64_of_Z 1) false false].

Lemma rasterize_total_witness :
  ∃ p, rasterize dot_glyph small_frame = Ok p ∧ p.(pm_width) = 2%N ∧ p.(pm_height) = 2%N
    ∧ length p.(pixels) = N.to_nat (4 * (2 * 2)) ∧ Forall is_byte p.(pixels).
Proof.
  apply (rasterize_total dot_glyph small_frame).
  - intros c bold italic size. reflexivity.
  - repeat constructor; cbn; unfold is_byte; lia.
  - vm_compute. discriminate.
Defined.

Definition blank_2x1 : Pixmap := MkPixmap 2 1 [255; 255; 255; 255; 255; 255; 255; 255]%N.

Lemma blank_2x1_ok : pixmap_ok blank_2x1.
Proof. split; [reflexivity|]. repeat constructor; unfold is_byte; lia. Qed.

Lemma fill_rect_pixels_witness :
  ∃ p', fill_rect blank_2x1 f64_zero f64_zero (f64_of_Z 1) (f64_of_Z 1) (Rgba 1 2 3 128) = Ok p'
    ∧ same_size blank_2x1 p' ∧ pixmap_ok p'
    ∧ ∀ i j k, inside blank_2x1 i j → k < 4 →
        channel p' i j k =
          if in_rect 0 0 1 1 i j && negb (128 =? 0)%N
          then blended 1 2 3 128 k <$> channel blank_2x1 i j k
          else channel blank_2x1 i j k.
Proof.
  apply (fill_rect_pixels blank_2x1 f64_zero f64_zero (f64_of_Z 1) (f64_of_Z 1) 1 2 3 128).
  - apply blank_2x1_ok.
  - vm_compute. discriminate.
  - cbn. unfold is_byte. lia.
Defined.

Lemma large_canvas_overflows_witness :
  set_pixel_blended (MkPixmap 65536 65536 []) (Z.of_N 65536 - 1) (Z.of_N 65536 - 1) 0 0 0 255 = Panic.
Proof.
  apply (large_canvas_overflows (MkPixmap 65536 65536 []) 0 0 0 255).
  - reflexivity.
  - reflexivity.
  - vm_compute. intros H. by apply H.
  - discriminate.
Defined.
