(* ===== verification/Page.v ===== *)
(** * Pages ([core/engine/src/page.rs], [stylesheet.rs])

    A page keeps its document, styles and fragment tree across calls.  Text measurement, the glyph
    rasterizer and the HTML parser are parameters; [PageLoad] supplies the parser.  The process-wide counter of script node
    handles is threaded explicitly.  A [Result] is a sum with the error on the left. *)

From S2P Require Import Prelude Float Dom CssTokenizer CssValue CssSelector CssParser CssCascade.
From S2P Require Import Layout Paint Raster.

(** ** Inline style sheets ([stylesheet.rs]) *)

Definition text_of (doc : Document) (n : NodeId) : res (list N) :=
  dt ← data doc n; Ok (match dt with NText t => t | _ => [] end).

Fixpoint collect (fuel : nat) (doc : Document) (node : NodeId) (rules : list Rule) : res (list Rule) :=
  match fuel with
  | O => OutOfFuel
  | S fuel' =>
      dt ← data doc node;
      kids ← children doc node;
      rules ←
        match dt with
        | NElement tag_name _ =>
            if decide (tag_name = str "style") then
              css_text ← concat_mapM (text_of doc) kids;
              more ← parse css_text;
              Ok (rules ++ more)
            else Ok rules
        | _ => Ok rules
        end;
      fold_res (λ rules child, collect fuel' doc child rules) rules kids
  end.

Definition extract_inline_stylesheets (doc : Document) : res (list Rule) :=
  r ← root doc; collect (walk_fuel doc) doc r [].

(** ** State *)
Record Page := MkPage {
  pg_doc : Document;
  pg_styles : gmap NodeId ComputedStyle;
  pg_fragment : Fragment;
  pg_ua : list Rule;
  viewport_width : f64;
  viewport_height : f64;
  scroll_y : f64;
  pg_url : option (list N);
  document_generation : N;
  script_nodes : gmap N NodeId;
  script_node_handles : gmap NodeId N;
  hovered : option NodeId;
  focused : option NodeId;
  highlighted : option NodeId;
}.

Definition set_doc (d : Document) (p : Page) : Page :=
  MkPage d p.(pg_styles) p.(pg_fragment) p.(pg_ua) p.(viewport_width) p.(viewport_height) p.(scroll_y) p.(pg_url)
    p.(document_generation) p.(script_nodes) p.(script_node_handles) p.(hovered) p.(focused) p.(highlighted).
Definition set_styles (s : gmap NodeId ComputedStyle) (p : Page) : Page :=
  MkPage p.(pg_doc) s p.(pg_fragment) p.(pg_ua) p.(viewport_width) p.(viewport_height) p.(scroll_y) p.(pg_url)
    p.(document_generation) p.(script_nodes) p.(script_node_handles) p.(hovered) p.(focused) p.(highlighted).
Definition set_fragment (f : Fragment) (p : Page) : Page :=
  MkPage p.(pg_doc) p.(pg_styles) f p.(pg_ua) p.(viewport_width) p.(viewport_height) p.(scroll_y) p.(pg_url)
    p.(document_generation) p.(script_nodes) p.(script_node_handles) p.(hovered) p.(focused) p.(highlighted).
Definition set_viewport (w h : f64) (p : Page) : Page :=
  MkPage p.(pg_doc) p.(pg_styles) p.(pg_fragment) p.(pg_ua) w h p.(scroll_y) p.(pg_url)
    p.(document_generation) p.(script_nodes) p.(script_node_handles) p.(hovered) p.(focused) p.(highlighted).
Definition set_scroll (y : f64) (p : Page) : Page :=
  MkPage p.(pg_doc) p.(pg_styles) p.(pg_fragment) p.(pg_ua) p.(viewport_width) p.(viewport_height) y p.(pg_url)
    p.(document_generation) p.(script_nodes) p.(script_node_handles) p.(hovered) p.(focused) p.(highlighted).
Definition set_url (u : option (list N)) (p : Page) : Page :=
  MkPage p.(pg_doc) p.(pg_styles) p.(pg_fragment) p.(pg_ua) p.(viewport_width) p.(viewport_height) p.(scroll_y) u
    p.(document_generation) p.(script_nodes) p.(script_node_handles) p.(hovered) p.(focused) p.(highlighted).
Definition set_generation (g : N) (p : Page) : Page :=
  MkPage p.(pg_doc) p.(pg_styles) p.(pg_fragment) p.(pg_ua) p.(viewport_width) p.(viewport_height) p.(scroll_y) p.(pg_url)
    g p.(script_nodes) p.(script_node_handles) p.(hovered) p.(focused) p.(highlighted).
Definition set_handles (sn : gmap N NodeId) (sh : gmap NodeId N) (p : Page) : Page :=
  MkPage p.(pg_doc) p.(pg_styles) p.(pg_fragment) p.(pg_ua) p.(viewport_width) p.(viewport_height) p.(scroll_y) p.(pg_url)
    p.(document_generation) sn sh p.(hovered) p.(focused) p.(highlighted).
Definition set_interaction (hov foc hig : option NodeId) (p : Page) : Page :=
  MkPage p.(pg_doc) p.(pg_styles) p.(pg_fragment) p.(pg_ua) p.(viewport_width) p.(viewport_height) p.(scroll_y) p.(pg_url)
    p.(document_generation) p.(script_nodes) p.(script_node_handles) hov foc hig.

(** ** Geometry *)

(** [f64::clamp] panics unless [lo <= hi]. *)
Definition f64_clamp (lo hi x : f64) : res f64 :=
  if f64_leb lo hi then Ok (if f64_ltb x lo then lo else if f64_ltb hi x then hi else x) else Panic.

Definition max_scroll (p : Page) : f64 :=
  f64_max (f64_sub p.(pg_fragment).(f_height) p.(viewport_height)) f64_zero.

Fixpoint hit_test_rec (f : Fragment) (x y offset_x offset_y : f64) : option NodeId :=
  let fx := f64_add offset_x f.(f_x) in
  let fy := f64_add offset_y f.(f_y) in
  if f64_ltb x fx || f64_ltb y fy || f64_ltb (f64_add fx f.(f_width)) x
     || f64_ltb (f64_add fy f.(f_height)) y
  then None
  else
    match
      (fix first (kids : list Fragment) : option NodeId :=
         match kids with
         | [] => None
         | k :: kids' =>
             match hit_test_rec k x y fx fy with Some hit => Some hit | None => first kids' end
         end) f.(f_children)
    with
    | Some hit => Some hit
    | None => f.(f_node)
    end.
Definition hit_test (f : Fragment) (x y : f64) : option NodeId := hit_test_rec f x y f64_zero f64_zero.

(** [blueice_ipc::Bounds] has the fields of a [Rect]. *)
Fixpoint find_fragment_bounds (f : Fragment) (id : NodeId) (offset_x offset_y : f64) : option Rect :=
  let x := f64_add offset_x f.(f_x) in
  let y := f64_add offset_y f.(f_y) in
  if decide (f.(f_node) = Some id) then Some (MkRect x y f.(f_width) f.(f_height))
  else
    (fix first (kids : list Fragment) : option Rect :=
       match kids with
       | [] => None
       | k :: kids' =>
           match find_fragment_bounds k id x y with Some b => Some b | None => first kids' end
       end) f.(f_children).

Fixpoint nearest_link_href (fuel : nat) (doc : Document) (node : NodeId) : res (option (list N)) :=
  match fuel with
  | O => OutOfFuel
  | S fuel' =>
      dt ← data doc node;
      let href :=
        match dt with
        | NElement tag_name attributes =>
            if decide (tag_name = str "a") then snd <$> List.find (λ kv, bool_decide (kv.1 = str "href")) attributes
            else None
        | _ => None
        end in
      match href with
      | Some h => Ok (Some h)
      | None =>
          p ← parent doc node;
          match p with Some q => nearest_link_href fuel' doc q | None => Ok None end
      end
  end.

Fixpoint element_ancestor (fuel : nat) (doc : Document) (node : NodeId) : res (option NodeId) :=
  match fuel with
  | O => OutOfFuel
  | S fuel' =>
      dt ← data doc node;
      if is_element dt then Ok (Some node)
      else p ← parent doc node; match p with Some q => element_ancestor fuel' doc q | None => Ok None end
  end.

(** ** Searches *)
Definition has_id (id : list N) (dt : NodeData) : bool :=
  match dt with
  | NElement _ attributes => existsb (λ kv, bool_decide (kv.1 = str "id") && bool_decide (kv.2 = id)) attributes
  | _ => false
  end.

(** [Iterator::find_map] over fallible results. *)
Fixpoint find_mapM {A B} (f : A → res (option B)) (l : list A) : res (option B) :=
  match l with
  | [] => Ok None
  | x :: l' => o ← f x; match o with Some b => Ok (Some b) | None => find_mapM f l' end
  end.

Fixpoint find_element_by_id (fuel : nat) (doc : Document) (node : NodeId) (id : list N) : res (option NodeId) :=
  match fuel with
  | O => OutOfFuel
  | S fuel' =>
      dt ← data doc node;
      if has_id id dt then Ok (Some node)
      else kids ← children doc node; find_mapM (λ c, find_element_by_id fuel' doc c id) kids
  end.

Fixpoint node_text_content (fuel : nat) (doc : Document) (node : NodeId) : res (list N) :=
  match fuel with
  | O => OutOfFuel
  | S fuel' =>
      dt ← data doc node;
      match dt with
      | NText t => Ok t
      | _ => kids ← children doc node; concat_mapM (node_text_content fuel' doc) kids
      end
  end.

(** ** Cropping *)
Definition round_as_u32 (x : f64) : Z := cast_sat 0 (Z.of_N U32_MAX) round_Z x.

(** [Vec::resize]. *)
Definition vec_resize {A} (n : nat) (v : A) (l : list A) : list A := take n l ++ replicate (n - length l) v.

Definition crop_row (pixmap : Pixmap) (top w : N) (out : list N) (row : nat) : res (list N) :=
  src_row ← checked_add_N U32_MAX top (N.of_nat row);
  if (src_row <? pixmap.(pm_height))%N then
    a ← checked_mul_N U32_MAX src_row pixmap.(pm_width);
    start4 ← checked_mul_N U32_MAX a 4;
    let start := N.to_nat start4 in
    let stop := Nat.min (start + N.to_nat w * 4) (length pixmap.(pixels)) in
    if decide (start ≤ stop) then
      Ok (vec_resize ((row + 1) * N.to_nat w * 4) 255%N
            (out ++ take (stop - start) (drop start pixmap.(pixels))))
    else Panic
  else Ok (out ++ replicate (N.to_nat w * 4) 255%N).

Definition crop (pixmap : Pixmap) (top width height : f64) : res Pixmap :=
  let top := Z.to_N (round_as_u32 top) in
  let w := N.min (Z.to_N (round_as_u32 width)) (N.max pixmap.(pm_width) 1) in
  let h := Z.to_N (round_as_u32 height) in
  px ← fold_res (crop_row pixmap top w) [] (seq 0 (N.to_nat h));
  Ok (MkPixmap w h px).

(** ** Operations *)
Inductive NodeAction := ActClick | ActFocus | ActSetValue (value : list N) | ActScrollIntoView.

Definition HIGHLIGHT_COLOR : Color := Rgba 255 149 0 255.
Definition HIGHLIGHT_THICKNESS : f64 := f64_of_Z 2.

Definition highlight_border_commands (b : Rect) : list PaintCommand :=
  let t := HIGHLIGHT_THICKNESS in
  [PBorderEdge (MkRect b.(rect_x) b.(rect_y) b.(rect_width) t) HIGHLIGHT_COLOR;
   PBorderEdge (MkRect (f64_sub (f64_add b.(rect_x) b.(rect_width)) t) b.(rect_y) t b.(rect_height)) HIGHLIGHT_COLOR;
   PBorderEdge (MkRect b.(rect_x) (f64_sub (f64_add b.(rect_y) b.(rect_height)) t) b.(rect_width) t) HIGHLIGHT_COLOR;
   PBorderEdge (MkRect b.(rect_x) b.(rect_y) t b.(rect_height)) HIGHLIGHT_COLOR].

(** The first attribute [value] is overwritten, or one is added. *)
Fixpoint set_attribute (k v : list N) (attributes : list (list N * list N)) : list (list N * list N) :=
  match attributes with
  | [] => [(k, v)]
  | (k', v') :: rest => if decide (k' = k) then (k', v) :: rest else (k', v') :: set_attribute k v rest
  end.

Definition set_value (value : list N) (dt : NodeData) : NodeData :=
  match dt with
  | NElement tag attributes => NElement tag (set_attribute (str "value") value attributes)
  | _ => dt
  end.

Section Pages.
Context (measure : list N → f64 → bool → bool → f64).

Definition page_new (w h : f64) : res Page :=
  d ← new_document;
  ua ← ua_stylesheet;
  Ok (MkPage d ∅ empty_block ua w h f64_zero None 0 ∅ ∅ None None None).

Definition relayout (p : Page) : res Page :=
  r ← root p.(pg_doc);
  f ← layout measure p.(pg_doc) r p.(pg_styles) {| available_width := p.(viewport_width) |};
  let p := set_fragment f p in
  Ok (set_scroll (f64_min p.(scroll_y) (max_scroll p)) p).

Definition recascade (p : Page) : res Page :=
  author ← extract_inline_stylesheets p.(pg_doc);
  styles ← cascade p.(pg_doc) [(Ua, p.(pg_ua)); (Author, author)];
  Ok (set_styles styles p).

(** [parse_continuing_from] is the HTML tree builder. *)
Definition load_html (parse_continuing_from : list N → N → res Document) (p : Page) (html : list N) : res Page :=
  d ← parse_continuing_from html (next_node_id p.(pg_doc));
  let p := set_doc d p in
  let p := set_generation ((p.(document_generation) + 1) mod 2 ^ 64)%N p in
  let p := set_handles ∅ ∅ p in
  p ← recascade p;
  let p := set_scroll f64_zero p in
  let p := set_interaction None None None p in
  relayout p.

Definition load_html_str parse_continuing_from (p : Page) (html : list N) (url : option (list N)) : res Page :=
  p ← load_html parse_continuing_from p html; Ok (set_url url p).

(** The clearance is taken by value and never read; it exists for the type checker. *)
Definition apply_fetched parse_continuing_from (p : Page) (url html : list N) : res Page :=
  p ← load_html parse_continuing_from p html; Ok (set_url (Some url) p).

Definition resize (p : Page) (w h : f64) : res Page := relayout (set_viewport w h p).

Definition scroll_by (p : Page) (delta_y : f64) : res Page :=
  y ← f64_clamp f64_zero (max_scroll p) (f64_add p.(scroll_y) delta_y);
  Ok (set_scroll y p).

Definition click (p : Page) (x y : f64) : res (option (list N)) :=
  match hit_test p.(pg_fragment) x (f64_add y p.(scroll_y)) with
  | None => Ok None
  | Some node => nearest_link_href (walk_fuel p.(pg_doc)) p.(pg_doc) node
  end.

Definition event_element_target (p : Page) (node : NodeId) : res (option NodeId) :=
  if contains p.(pg_doc) node then element_ancestor (walk_fuel p.(pg_doc)) p.(pg_doc) node else Ok None.

Definition click_event_target (p : Page) (x y : f64) : res (option NodeId) :=
  match hit_test p.(pg_fragment) x (f64_add y p.(scroll_y)) with
  | None => Ok None
  | Some node => event_element_target p node
  end.

Definition hover_at (p : Page) (x y : f64) : Page :=
  set_interaction (hit_test p.(pg_fragment) x (f64_add y p.(scroll_y))) p.(focused) p.(highlighted) p.

Definition set_highlight (p : Page) (id : option NodeId) : Page :=
  set_interaction p.(hovered) p.(focused) id p.

Definition act (p : Page) (id : NodeId) (action : NodeAction) : res (option (list N) * Page) :=
  if negb (contains p.(pg_doc) id) then Ok (None, p)
  else
    match action with
    | ActClick => u ← nearest_link_href (walk_fuel p.(pg_doc)) p.(pg_doc) id; Ok (u, p)
    | ActFocus => Ok (None, set_interaction p.(hovered) (Some id) p.(highlighted) p)
    | ActSetValue value =>
        d ← data_mut p.(pg_doc) id (set_value value);
        p ← relayout (set_doc d p);
        Ok (None, p)
    | ActScrollIntoView =>
        match find_fragment_bounds p.(pg_fragment) id f64_zero f64_zero with
        | Some b => y ← f64_clamp f64_zero (max_scroll p) b.(rect_y); Ok (None, set_scroll y p)
        | None => Ok (None, p)
        end
    end.

(** *** The script surface *)
Definition script_get_element_by_id (p : Page) (id : list N) : res (option NodeId) :=
  r ← root p.(pg_doc); find_element_by_id (walk_fuel p.(pg_doc)) p.(pg_doc) r id.

(** [next] is the process-wide [NEXT_SCRIPT_NODE_HANDLE]. *)
Definition script_handle_for_node (next : N) (p : Page) (node : NodeId) : res (N * N * Page) :=
  if negb (contains p.(pg_doc) node) then Panic
  else
    match p.(script_node_handles) !! node with
    | Some handle => Ok (handle, next, p)
    | None =>
        next' ← checked_add_N U64_MAX next 1;
        Ok (next, next', set_handles (<[next := node]> p.(script_nodes)) (<[node := next]> p.(script_node_handles)) p)
    end.

Definition script_handle_for_raw_node (next : N) (p : Page) (raw : N) : res (option (N * N * Page)) :=
  if contains p.(pg_doc) (from_u64 raw) then Some <$> script_handle_for_node next p (from_u64 raw) else Ok None.

Definition UNKNOWN_HANDLE : list N := str "unknown script node handle".

Definition script_node (p : Page) (raw : N) : list N + NodeId :=
  match p.(script_nodes) !! raw with
  | Some node => if contains p.(pg_doc) node then inr node else inl UNKNOWN_HANDLE
  | None => inl UNKNOWN_HANDLE
  end.

Definition script_validate_node (p : Page) (node : N) : list N + unit :=
  match script_node p node with inl e => inl e | inr _ => inr tt end.

Definition script_create_element (p : Page) (tag_name : list N) : res (list N + NodeId * Page) :=
  match tag_name with
  | [] => Ok (inl (str "element tag name must not be empty"))
  | _ => '(id, d) ← create_node p.(pg_doc) (NElement tag_name []); Ok (inr (id, set_doc d p))
  end.

Definition script_create_text_node (p : Page) (dt : list N) : res (NodeId * Page) :=
  '(id, d) ← create_node p.(pg_doc) (NText dt); Ok (id, set_doc d p).

Definition is_text (dt : NodeData) : bool := match dt with NText _ => true | _ => false end.

Definition script_append_child (p : Page) (parent_ child : N) : res (list N + Page) :=
  match script_node p parent_ with
  | inl e => Ok (inl e)
  | inr par =>
      match script_node p child with
      | inl e => Ok (inl e)
      | inr ch_ =>
          r ← root p.(pg_doc);
          dt ← data p.(pg_doc) par;
          q ← parent p.(pg_doc) ch_;
          if decide (par = ch_) then Ok (inl (str "a node cannot be appended to itself"))
          else if decide (ch_ = r) then Ok (inl (str "the document root cannot be appended"))
          else if is_text dt then Ok (inl (str "a text node cannot have children"))
          else if decide (is_Some q) then Ok (inl (str "the child node is already attached"))
          else
            d ← append_child p.(pg_doc) par ch_;
            p ← recascade (set_doc d p);
            p ← relayout p;
            Ok (inr p)
      end
  end.

Definition script_text_content (p : Page) (node : N) : res (list N + list N) :=
  match script_node p node with
  | inl e => Ok (inl e)
  | inr n => t ← node_text_content (walk_fuel p.(pg_doc)) p.(pg_doc) n; Ok (inr t)
  end.

Definition script_document_text_content (p : Page) : res (list N) :=
  r ← root p.(pg_doc); node_text_content (walk_fuel p.(pg_doc)) p.(pg_doc) r.

Definition replace_children (d : Document) (n : NodeId) (value : list N) : res Document :=
  kids ← children d n;
  d ← fold_res remove_subtree d kids;
  match value with
  | [] => Ok d
  | _ => '(t, d) ← create_node d (NText value); append_child d n t
  end.

Definition script_set_text_content (p : Page) (node : N) (value : list N) : res (list N + Page) :=
  match script_node p node with
  | inl e => Ok (inl e)
  | inr n =>
      dt ← data p.(pg_doc) n;
      d ← (if is_text dt then data_mut p.(pg_doc) n (λ _, NText value)
           else replace_children p.(pg_doc) n value);
      p ← relayout (set_doc d p);
      Ok (inr p)
  end.

Definition dom_dump (p : Page) : res (list N) := dump p.(pg_doc).

(** *** Rendering *)
Definition render (p : Page) : Frame :=
  let frame := paint p.(pg_fragment) p.(pg_styles) in
  match p.(highlighted) ≫= λ id, find_fragment_bounds p.(pg_fragment) id f64_zero f64_zero with
  | Some b => MkFrame frame.(frame_width) frame.(frame_height) (frame.(commands) ++ highlight_border_commands b)
  | None => frame
  end.

Definition render_visible (rasterize_glyph : N → bool → bool → spec_float → Metrics * list N) (p : Page) : res Pixmap :=
  full ← rasterize rasterize_glyph (render p);
  crop full p.(scroll_y) p.(viewport_width) p.(viewport_height).
End Pages.
