(* ===== verification/PageProps.v ===== *)
(** * Pages: script handles, text content, scrolling, hit testing and cropping *)

From S2P Require Import Prelude Float Dom DomTree DomWalk DomOps CssTokenizer CssValue CssSelector.
From S2P Require Import CssParser CssParserProps CssCascade CssCascadeProps Layout LayoutProps.
From S2P Require Import Paint PaintProps Raster RasterProps Page.

(** ** Script handles *)

(** The two tables are inverse to each other and hold handles below the process-wide counter. *)
Record handles_ok (next : N) (p : Page) : Prop := {
  ho_inverse : ∀ h n, p.(script_nodes) !! h = Some n ↔ p.(script_node_handles) !! n = Some h;
  ho_below : ∀ h n, p.(script_nodes) !! h = Some n → (h < next)%N;
}.

Lemma script_node_Some p h n :
  script_node p h = inr n ↔ p.(script_nodes) !! h = Some n ∧ contains p.(pg_doc) n = true.
Proof.
  unfold script_node. destruct (script_nodes p !! h) as [m|]; [|split; [done|by intros [? _]]].
  destruct (contains (pg_doc p) m) eqn:E; split; [by intros [= ->]|by intros [[= ->] _]|done|].
  intros [[= ->] H]. congruence.
Qed.

Lemma handles_ok_mono next next' p : handles_ok next p → (next ≤ next')%N → handles_ok next' p.
Proof. intros [H1 H2] Hle. split; [done|]. intros h n Hh. specialize (H2 h n Hh). lia. Qed.

Lemma mint_handles_ok next p node h next' p' :
  handles_ok next p → script_handle_for_node next p node = Ok (h, next', p') →
  handles_ok next' p' ∧ (next ≤ next')%N ∧ p'.(pg_doc) = p.(pg_doc) ∧ script_node p' h = inr node
  ∧ (∀ raw n, script_node p raw = inr n → script_node p' raw = inr n).
Proof.
  intros [Hinv Hlt]. unfold script_handle_for_node.
  destruct (contains (pg_doc p) node) eqn:Hc; [|done]. cbn [negb].
  destruct (script_node_handles p !! node) as [h0|] eqn:Hh.
  { intros [= <- <- <-]. split_and!; [done|lia|done| |done]. rewrite script_node_Some. by rewrite Hinv. }
  unfold checked_add_N. destruct (_ <=? U64_MAX)%N; [|done]. cbn [mbind res_bind]. intros [= <- <- <-].
  assert (script_nodes p !! next = None) as Hfresh.
  { destruct (script_nodes p !! next) as [m|] eqn:E; [|done]. apply Hlt in E. lia. }
  split_and!; [|lia|done| |].
  - split; cbn [script_nodes script_node_handles set_handles].
    + intros h n. rewrite !lookup_insert_Some. split.
      * intros [[<- <-]|[Hne Hs]]; [by left|]. right. split; [|by apply Hinv].
        intros <-. apply Hinv in Hs. by rewrite Hh in Hs.
      * intros [[<- <-]|[Hne Hs]]; [by left|]. right. split; [|by apply Hinv].
        intros <-. apply Hinv in Hs. by rewrite Hfresh in Hs.
    + intros h n [[<- <-]|[Hne Hs]]%lookup_insert_Some; [lia|]. apply Hlt in Hs. lia.
  - rewrite script_node_Some. cbn. by rewrite lookup_insert_eq.
  - intros raw n [Hs Hcn]%script_node_Some. rewrite script_node_Some. cbn. split; [|done].
    rewrite lookup_insert_ne; [done|]. intros <-. by rewrite Hfresh in Hs.
Qed.

(** Operations that leave the handle tables alone. *)
Definition same_handles (p p' : Page) : Prop :=
  p'.(script_nodes) = p.(script_nodes) ∧ p'.(script_node_handles) = p.(script_node_handles).

Lemma same_handles_ok next p p' : same_handles p p' → handles_ok next p → handles_ok next p'.
Proof. intros [H1 H2] [Hinv Hlt]. split; rewrite ?H1, ?H2; done. Qed.

Ltac split_bind :=
  repeat match goal with
    | H : mbind _ ?m = Ok _ |- _ => destruct m eqn:?; cbn [mbind res_bind] in H; [|discriminate H..]
    | H : (let '(_, _) := ?x in _) = Ok _ |- _ => destruct x
  end.

Section Handles.
Context (measure : list N → f64 → bool → bool → f64).

Lemma relayout_keeps p p' : relayout measure p = Ok p' → same_handles p p' ∧ p'.(pg_doc) = p.(pg_doc).
Proof. unfold relayout. intros H. split_bind. apply Ok_inj in H as <-. done. Qed.

Lemma recascade_keeps p p' : recascade p = Ok p' → same_handles p p' ∧ p'.(pg_doc) = p.(pg_doc).
Proof. unfold recascade. intros H. split_bind. apply Ok_inj in H as <-. done. Qed.

Lemma load_html_str_clears parse_html p html url p' :
  load_html_str measure parse_html p html url = Ok p' →
  p'.(script_nodes) = ∅ ∧ p'.(script_node_handles) = ∅ ∧ p'.(pg_url) = url
  ∧ p'.(hovered) = None ∧ p'.(focused) = None ∧ p'.(highlighted) = None
  ∧ p'.(document_generation) = ((p.(document_generation) + 1) mod 2 ^ 64)%N.
Proof.
  unfold load_html_str, load_html, relayout, recascade. intros H. split_bind. apply Ok_inj in H as <-.
  repeat match goal with H : Ok _ = Ok _ |- _ => apply Ok_inj in H as <- end. done.
Qed.

Lemma resize_keeps p w h p' : resize measure p w h = Ok p' → same_handles p p'.
Proof. intros [H _]%relayout_keeps. exact H. Qed.

Lemma scroll_by_keeps p dy p' : scroll_by p dy = Ok p' → same_handles p p'.
Proof. unfold scroll_by. intros H. split_bind. apply Ok_inj in H as <-. done. Qed.

Lemma act_keeps p id a u p' : act measure p id a = Ok (u, p') → same_handles p p'.
Proof.
  unfold act. destruct (negb _); [by intros [= <- <-]|]. destruct a as [| |v|]; intros H.
  - split_bind. by injection H as <- <-.
  - by injection H as <- <-.
  - split_bind. injection H as <- <-.
    match goal with H : relayout _ _ = Ok _ |- _ => by apply relayout_keeps in H as [? _] end.
  - destruct (find_fragment_bounds _ _ _ _); [split_bind|]; by injection H as <- <-.
Qed.

Lemma script_append_child_Ok p a b p' :
  script_append_child measure p a b = Ok (inr p') →
  ∃ par ch_ d', script_node p a = inr par ∧ script_node p b = inr ch_ ∧ par ≠ ch_
    ∧ root p.(pg_doc) ≠ Ok ch_ ∧ parent p.(pg_doc) ch_ = Ok None
    ∧ append_child p.(pg_doc) par ch_ = Ok d' ∧ same_handles p p' ∧ p'.(pg_doc) = d'.
Proof.
  unfold script_append_child. destruct (script_node p a) as [|par]; [done|].
  destruct (script_node p b) as [|ch_]; [done|]. intros H.
  destruct (root (pg_doc p)) as [r| |]; [|done..]. cbn [mbind res_bind] in H.
  destruct (data (pg_doc p) par) as [dt| |]; [|done..]. cbn [mbind res_bind] in H.
  destruct (parent (pg_doc p) ch_) as [q| |] eqn:Eq; [|done..]. cbn [mbind res_bind] in H.
  case_decide; [done|]. case_decide; [done|]. destruct (is_text dt); [done|]. case_decide as Hq; [done|].
  split_bind. apply Ok_inj in H. injection H as <-.
  repeat match goal with
    | H : recascade _ = Ok _ |- _ => apply recascade_keeps in H as [[? ?] ?]
    | H : relayout _ _ = Ok _ |- _ => apply relayout_keeps in H as [[? ?] ?]
  end.
  exists par, ch_, a0. split_and!; [done..| |by apply eq_None_not_Some in Hq as ->|done| |].
  - intros [= <-]. done.
  - unfold same_handles in *. cbn in *. split; congruence.
  - cbn in *. congruence.
Qed.

Lemma script_set_text_keeps p n v p' : script_set_text_content measure p n v = Ok (inr p') → same_handles p p'.
Proof.
  unfold script_set_text_content. destruct (script_node p n); [done|]. intros H. split_bind.
  apply Ok_inj in H. injection H as <-.
  match goal with H : relayout _ _ = Ok _ |- _ => by apply relayout_keeps in H as [? _] end.
Qed.
End Handles.

(** One call on a page, with the process-wide counter before and after. *)
Inductive page_step (measure : list N → f64 → bool → bool → f64)
    (parse_html : list N → N → res Document) : N * Page → N * Page → Prop :=
  | step_mint next p node h next' p' :
      script_handle_for_node next p node = Ok (h, next', p') → page_step measure parse_html (next, p) (next', p')
  | step_other_page next p next' :
      (next ≤ next')%N → page_step measure parse_html (next, p) (next', p)
  | step_load next p html url p' :
      load_html_str measure parse_html p html url = Ok p' → page_step measure parse_html (next, p) (next, p')
  | step_resize next p w h p' : resize measure p w h = Ok p' → page_step measure parse_html (next, p) (next, p')
  | step_scroll next p dy p' : scroll_by p dy = Ok p' → page_step measure parse_html (next, p) (next, p')
  | step_hover next p x y : page_step measure parse_html (next, p) (next, hover_at p x y)
  | step_highlight next p id : page_step measure parse_html (next, p) (next, set_highlight p id)
  | step_act next p id a u p' : act measure p id a = Ok (u, p') → page_step measure parse_html (next, p) (next, p')
  | step_create_el next p tag id p' :
      script_create_element p tag = Ok (inr (id, p')) → page_step measure parse_html (next, p) (next, p')
  | step_create_text next p t id p' :
      script_create_text_node p t = Ok (id, p') → page_step measure parse_html (next, p) (next, p')
  | step_append_child next p a b p' :
      script_append_child measure p a b = Ok (inr p') → page_step measure parse_html (next, p) (next, p')
  | step_set_text next p n v p' :
      script_set_text_content measure p n v = Ok (inr p') → page_step measure parse_html (next, p) (next, p').


Lemma page_step_keeps measure parse_html s s' :
  page_step measure parse_html s s' → handles_ok s.1 s.2 → handles_ok s'.1 s'.2 ∧ (s.1 ≤ s'.1)%N.
Proof.
  intros Hst Hok. destruct Hst as [? ? ? ? ? ? H|? ? ? H|? ? ? ? ? H|? ? ? ? ? H|? ? ? ? H| | |? ? ? ? ? ? H
    |? ? ? ? ? H|? ? ? ? ? H|? ? ? ? ? H|? ? ? ? ? H]; cbn [fst snd] in *.
  - destruct (mint_handles_ok _ _ _ _ _ _ Hok H) as (? & ? & _). done.
  - split; [by eapply handles_ok_mono|done].
  - apply load_html_str_clears in H as (H1 & H2 & _). split; [|lia]. split; rewrite H1, ?H2.
    + intros h n. by rewrite !lookup_empty.
    + intros h n. by rewrite lookup_empty.
  - split; [|lia]. eapply same_handles_ok; [by eapply resize_keeps|done].
  - split; [|lia]. eapply same_handles_ok; [by eapply scroll_by_keeps|done].
  - split; [|lia]. eapply same_handles_ok; [|exact Hok]. done.
  - split; [|lia]. eapply same_handles_ok; [|exact Hok]. done.
  - split; [|lia]. eapply same_handles_ok; [by eapply act_keeps|done].
  - split; [|lia]. destruct tag; [done|]. cbn in H. split_bind. apply Ok_inj in H. injection H as <- <-.
    eapply same_handles_ok; [|exact Hok]. done.
  - split; [|lia]. unfold script_create_text_node in H. split_bind. apply Ok_inj in H. injection H as <- <-.
    eapply same_handles_ok; [|exact Hok]. done.
  - split; [|lia]. apply script_append_child_Ok in H as (? & ? & ? & _ & _ & _ & _ & _ & _ & H & _). by eapply same_handles_ok.
  - split; [|lia]. eapply same_handles_ok; [by eapply script_set_text_keeps|done].
Qed.

(** Handles still to come are at least [lo], and so are all the page knows. *)
Definition handles_from (lo : N) (s : N * Page) : Prop :=
  handles_ok s.1 s.2 ∧ (lo ≤ s.1)%N ∧ ∀ h n, s.2.(script_nodes) !! h = Some n → (lo ≤ h)%N.

Lemma page_step_nodes measure parse_html s s' h n :
  page_step measure parse_html s s' → s'.2.(script_nodes) !! h = Some n →
  s.2.(script_nodes) !! h = Some n ∨ h = s.1.
Proof.
  intros Hst. destruct Hst as [? ? ? ? ? ? H|? ? ? H|? ? ? ? ? H|? ? ? ? ? H|? ? ? ? H| | |? ? ? ? ? ? H
    |? ? ? ? ? H|? ? ? ? ? H|? ? ? ? ? H|? ? ? ? ? H]; cbn [fst snd] in *; auto.
  - unfold script_handle_for_node in H. destruct (negb _); [done|].
    destruct (script_node_handles p !! node); [injection H as <- <- <-; auto|]. split_bind.
    injection H as <- <- <-. cbn. rewrite lookup_insert_Some. naive_solver.
  - apply load_html_str_clears in H as (-> & _). by rewrite lookup_empty.
  - apply resize_keeps in H as [-> _]. auto.
  - apply scroll_by_keeps in H as [-> _]. auto.
  - apply act_keeps in H as [-> _]. auto.
  - destruct tag; [done|]. cbn in H. split_bind. apply Ok_inj in H. injection H as <- <-. auto.
  - unfold script_create_text_node in H. split_bind. apply Ok_inj in H. injection H as <- <-. auto.
  - apply script_append_child_Ok in H as (? & ? & ? & _ & _ & _ & _ & _ & _ & [-> _] & _). auto.
  - apply script_set_text_keeps in H as [-> _]. auto.
Qed.

Lemma run_handles_from measure parse_html lo s s' :
  rtc (page_step measure parse_html) s s' → handles_from lo s → handles_from lo s'.
Proof.
  induction 1 as [|s1 s2 s3 Hst _ IH]; [done|]. intros (Hok & Hlo & Hnodes). apply IH.
  destruct (page_step_keeps _ _ _ _ Hst Hok) as [Hok' Hle]. split_and!; [done|lia|].
  intros h n Hh. destruct (page_step_nodes _ _ _ _ _ _ Hst Hh) as [Hold| ->]; [by eapply Hnodes|done].
Qed.

Lemma empty_handles_from lo next p :
  p.(script_nodes) = ∅ → p.(script_node_handles) = ∅ → (lo ≤ next)%N → handles_from lo (next, p).
Proof.
  intros H1 H2 Hle. unfold handles_from. cbn [fst snd]. split_and!; [split| |]; rewrite ?H1, ?H2; [| |done|].
  - intros h n. by rewrite !lookup_empty.
  - intros h n. by rewrite lookup_empty.
  - intros h n. by rewrite lookup_empty.
Qed.

Lemma page_new_handles w h p : page_new w h = Ok p → p.(script_nodes) = ∅ ∧ p.(script_node_handles) = ∅.
Proof.
  unfold page_new. generalize ua_stylesheet as ua. intros ua H. destruct new_document; [|done..].
  destruct ua; [|done..]. by apply Ok_inj in H as <-.
Qed.

(** ** Theorems on handles *)

(** C34. Script node handles are sound: in every run of page operations, a node has one handle, a
    minted handle resolves to its node and keeps the others, and a handle from before a
    navigation never resolves again, in the new document or in any later state. *)
Theorem script_handles_sound measure parse_html w h n0 p0 next p :
  page_new w h = Ok p0 → rtc (page_step measure parse_html) (n0, p0) (next, p) →
  (∀ a b n, script_node p a = inr n → script_node p b = inr n → a = b)
  ∧ (∀ node a next' p', script_handle_for_node next p node = Ok (a, next', p') →
       script_node p' a = inr node ∧ ∀ b n, script_node p b = inr n → script_node p' b = inr n)
  ∧ (∀ html url p1 next2 p2, load_html_str measure parse_html p html url = Ok p1 →
       rtc (page_step measure parse_html) (next, p1) (next2, p2) →
       ∀ a, (a < next)%N → script_node p2 a = inl UNKNOWN_HANDLE).
Proof.
  intros Hnew Hrun.
  assert (handles_from 0 (next, p)) as (Hok & _ & _).
  { eapply run_handles_from; [exact Hrun|]. apply page_new_handles in Hnew as [H1 H2]. apply empty_handles_from; [done|done|lia]. }
  split_and!.
  - intros a b n [Ha _]%script_node_Some [Hb _]%script_node_Some. apply (ho_inverse _ _ Hok) in Ha, Hb. cbn in *. congruence.
  - intros node a next' p' H. destruct (mint_handles_ok _ _ _ _ _ _ Hok H) as (_ & _ & _ & ? & ?). split; assumption.
  - intros html url p1 next2 p2 Hload Hrun2 a Ha.
    assert (handles_from next (next2, p2)) as (_ & _ & Hge).
    { eapply run_handles_from; [exact Hrun2|]. apply load_html_str_clears in Hload as (H1 & H2 & _).
      apply empty_handles_from; [done|done|lia]. }
    cbn in Hge. unfold script_node. destruct (script_nodes p2 !! a) as [n|] eqn:E; [|done].
    apply Hge in E. lia.
Qed.

Definition blank_page : Page := default (MkPage default_doc ∅ empty_block [] f64_zero f64_zero f64_zero None 0 ∅ ∅ None None None)
  (res_to_option (page_new (f64_of_Z 800) (f64_of_Z 600))).

Lemma blank_page_new : page_new (f64_of_Z 800) (f64_of_Z 600) = Ok blank_page.
Proof. vm_compute. reflexivity. Qed.

(** A parser that reads no markup: an empty document. *)
Definition empty_parser (_ : list N) (n : N) : res Document := new_continuing_from n.
Definition no_measure (_ : list N) (_ : f64) (_ _ : bool) : f64 := f64_zero.

Lemma script_handles_sound_witness :
  (∀ a b n, script_node blank_page a = inr n → script_node blank_page b = inr n → a = b)
  ∧ (∀ node a next' p', script_handle_for_node 1 blank_page node = Ok (a, next', p') →
       script_node p' a = inr node ∧ ∀ b n, script_node blank_page b = inr n → script_node p' b = inr n)
  ∧ (∀ html url p1 next2 p2, load_html_str no_measure empty_parser blank_page html url = Ok p1 →
       rtc (page_step no_measure empty_parser) (1%N, p1) (next2, p2) →
       ∀ a, (a < 1)%N → script_node p2 a = inl UNKNOWN_HANDLE).
Proof.
  apply (script_handles_sound no_measure empty_parser (f64_of_Z 800) (f64_of_Z 600) 1%N blank_page 1%N blank_page).
  - apply blank_page_new.
  - apply rtc_refl.
Defined.

(** ** A cycle through the script surface *)

(** Two detached [div]s with handles 1 and 2, appended into each other. *)
Definition cycle_script : res Page :=
  a ← script_create_element blank_page (str "div");
  match a with
  | inl _ => Panic
  | inr (n1, p) =>
      b ← script_create_element p (str "div");
      match b with
      | inl _ => Panic
      | inr (n2, p) =>
          '(h1, next, p) ← script_handle_for_node 1 p n1;
          '(h2, next, p) ← script_handle_for_node next p n2;
          c ← script_append_child no_measure p h1 h2;
          match c with
          | inl _ => Panic
          | inr p =>
              e ← script_append_child no_measure p h2 h1;
              match e with inl _ => Panic | inr p => Ok p end
          end
      end
  end.

Definition cycle_page : Page := default blank_page (res_to_option cycle_script).

Lemma parent_Ok_edge d x q : parent d x = Ok (Some q) → parent_edge d x q.
Proof.
  unfold parent, index. destruct (nodes d !! x) as [r|] eqn:E; [|done]. cbn. intros H.
  apply Ok_inj in H. by exists r.
Qed.

Lemma two_cycle_diverges d a b tag tag' at1 at2 :
  data d a = Ok (NElement tag at1) → data d b = Ok (NElement tag' at2) →
  children d a = Ok [b] → children d b = Ok [a] →
  ∀ fuel, node_text_content fuel d a = OutOfFuel ∧ node_text_content fuel d b = OutOfFuel.
Proof.
  intros Ha Hb Hca Hcb. induction fuel as [|fuel [IHa IHb]]; [done|]. cbn [node_text_content].
  rewrite Ha, Hb. cbn [mbind res_bind]. rewrite Hca, Hcb. unfold concat_mapM. cbn. by rewrite IHa, IHb.
Qed.

(** C40. [script_append_child] accepts a child that is an ancestor of its new parent as long as that
    ancestor is detached.  The four calls below all succeed, build a document that is no tree, and
    reading the text content of either node then recurses without end. *)
Theorem script_append_child_builds_cycle :
  cycle_script = Ok cycle_page ∧ script_node cycle_page 1 = inr 1%N ∧ script_node cycle_page 2 = inr 2%N
  ∧ ¬ WF cycle_page.(pg_doc)
  ∧ ∀ fuel, node_text_content fuel cycle_page.(pg_doc) 1 = OutOfFuel.
Proof.
  assert (parent cycle_page.(pg_doc) 1 = Ok (Some 2%N)) as Hp1 by (vm_compute; reflexivity).
  assert (parent cycle_page.(pg_doc) 2 = Ok (Some 1%N)) as Hp2 by (vm_compute; reflexivity).
  split_and!; [vm_compute; reflexivity..| |].
  - intros [K HR]. apply (rep_acyclic _ _ HR 1%N).
    assert (∀ x q, parent (pg_doc cycle_page) x = Ok (Some q) → edge K q x) as He.
    { intros x q Hx. apply (rep_parent_edge _ _ HR). by apply parent_Ok_edge. }
    eapply tc_l; [by apply He|]. apply tc_once. by apply He.
  - intros fuel. apply (two_cycle_diverges _ 1%N 2%N (str "div") (str "div") [] []); vm_compute; reflexivity.
Qed.

(** ** Text content *)
Section TextContent.
Context (d : Document) (K : NodeId → list NodeId) (HR : Rep d K).

(** The text below a node of an abstract tree. *)
Fixpoint tree_text (t : tree) : list N :=
  match t with Tree _ dt ts => match dt with NText s => s | _ => concat (map tree_text ts) end end.

Lemma node_text_content_spec t fuel :
  unfolds d.(nodes) K t → length (ids t) ≤ fuel → node_text_content fuel d (tid t) = Ok (tree_text t).
Proof.
  revert fuel; induction t as [id dt ts IH] using tree_rose_ind. intros fuel Hun Hlen.
  destruct (unfolds_data d K HR id dt ts Hun) as (Hd & Hc & Hall & _). csimpl in Hlen.
  destruct fuel as [|fuel]; [lia|]. cbn [node_text_content tid]. rewrite Hd. cbn [mbind res_bind].
  assert (concat_mapM (node_text_content fuel d) (map tid ts) = Ok (concat (map tree_text ts))) as Hk.
  { apply concat_mapM_map. intros c Hin. rewrite Forall_forall in IH, Hall. apply IH; [done|by apply Hall|].
    pose proof (length_ids_kid c ts Hin). lia. }
  destruct dt as [|tag at_|s]; rewrite ?Hc; [exact Hk|exact Hk|done].
Qed.

Lemma text_content_live n : live d n → ∃ t, unfolds d.(nodes) K t ∧ tid t = n
  ∧ node_text_content (walk_fuel d) d n = Ok (tree_text t).
Proof.
  intros Hl. destruct (unfolds_exists d K HR n Hl) as (t & Ht & <-). exists t. split_and!; [done..|].
  apply node_text_content_spec; [done|]. pose proof (unfolds_size _ _ HR _ Ht). unfold walk_fuel. lia.
Qed.
End TextContent.

(** ** Replacing the children *)
Lemma rep_child_not_root d K p c : Rep d K → edge K p c → d.(doc_root) ≠ Some c.
Proof.
  intros HR He Hroot. destruct (rep_root _ _ HR) as (r & rec & Hr & Hrec & _ & Hpar).
  rewrite Hroot in Hr. injection Hr as <-. apply (rep_parent_edge _ _ HR) in He as (rc & Hrc & Hp). congruence.
Qed.

Lemma remove_children_spec n l : ∀ d K,
  Rep d K → live d n → K n = l →
  ∃ d' K', fold_res remove_subtree d l = Ok d' ∧ Rep d' K' ∧ K' n = [] ∧ live d' n
    ∧ data d' n = data d n ∧ d'.(doc_root) = d.(doc_root) ∧ next_node_id d' = next_node_id d.
Proof.
  induction l as [|id l IH]; intros d K HR Hn HK; cbn [fold_res]; [by exists d, K|].
  assert (edge K n id) as He by (unfold edge; rewrite HK; by left).
  destruct (rep_edge_live _ _ HR _ _ He) as [_ Hid].
  destruct (remove_subtree_spec d K id HR Hid) as (d1 & S & -> & HS & HR1 & Hal & Hrt & Hdata);
    [by eapply rep_child_not_root|]. cbn [mbind res_bind].
  assert (n ∉ S) as HnS.
  { rewrite HS, (rep_inclusive_ancestor _ _ HR). intros Hin. apply (rep_acyclic _ _ HR n).
    eapply tc_rtc_r; [by apply tc_once|done]. }
  specialize (Hdata n) as Hdn. rewrite decide_False in Hdn by done. destruct Hn as [r Hr]. rewrite Hr in Hdn.
  apply fmap_Some in Hdn as (r1 & Hr1 & Hd1).
  assert (prune (unlink K id) S n = l) as HK1.
  { unfold prune. rewrite decide_False by done. unfold unlink. rewrite HK.
    assert (NoDup (K n)) as Hnd by apply (rep_nodup _ _ HR). rewrite HK in Hnd. apply NoDup_cons in Hnd as [Hni _].
    rewrite filter_cons_False by naive_solver. by apply filter_ne_id. }
  destruct (IH d1 _ HR1) as (d' & K' & H1 & H2 & H3 & H4 & H5 & H6 & H7); [by exists r1|done|].
  exists d', K'. split_and!; [done..| | |].
  - rewrite H5. unfold data, index. rewrite Hr, Hr1. cbn. by rewrite Hd1.
  - by rewrite H6.
  - rewrite H7. unfold next_node_id. by rewrite Hal.
Qed.

Lemma data_Ok d n dt : data d n = Ok dt ↔ ∃ r, d.(nodes) !! n = Some r ∧ r.(r_data) = dt.
Proof.
  unfold data, index. destruct (nodes d !! n) as [r|]; cbn; [|naive_solver].
  split; [intros H%Ok_inj; eauto|]. by intros (? & [= <-] & ->).
Qed.

(** The text content of a node whose only child is a text node. *)
Lemma text_content_single d K n t dt v :
  Rep d K → live d n → data d n = Ok dt → is_text dt = false → K n = [t] → data d t = Ok (NText v) →
  node_text_content (walk_fuel d) d n = Ok v.
Proof.
  intros HR Hl Hd Hnt HK Ht. destruct (text_content_live d K HR n Hl) as (tr & Htr & <- & ->).
  destruct tr as [id dt' ts]. destruct (unfolds_data d K HR id dt' ts Htr) as (Hd' & Hc & Hall & _). cbn [tid] in *.
  rewrite Hd in Hd'. apply Ok_inj in Hd' as <-.
  rewrite (children_K d K id HR Hl), HK in Hc. apply Ok_inj in Hc. symmetry in Hc.
  destruct ts as [|[i1 d1 k1] [|]]; [done| |done]. injection Hc as ->. inversion_clear Hall as [|? ? Hu _].
  apply (unfolds_data d K HR) in Hu as (Hd1 & _). rewrite Ht in Hd1. apply Ok_inj in Hd1 as <-.
  f_equal. destruct dt; cbn; rewrite ?app_nil_r; done.
Qed.

Lemma text_content_empty d K n dt :
  Rep d K → live d n → data d n = Ok dt → is_text dt = false → K n = [] →
  node_text_content (walk_fuel d) d n = Ok [].
Proof.
  intros HR Hl Hd Hnt HK. destruct (text_content_live d K HR n Hl) as (tr & Htr & <- & ->).
  destruct tr as [id dt' ts]. destruct (unfolds_data d K HR id dt' ts Htr) as (Hd' & Hc & _ & _). cbn [tid] in *.
  rewrite Hd in Hd'. apply Ok_inj in Hd' as <-. rewrite (children_K d K id HR Hl), HK in Hc. apply Ok_inj in Hc.
  destruct ts; [|done]. by destruct dt.
Qed.

Lemma replace_children_spec d K n dt v :
  Rep d K → data d n = Ok dt → is_text dt = false → (next_node_id d < U64_MAX)%N →
  ∃ d', replace_children d n v = Ok d' ∧ WF d' ∧ live d' n ∧ d'.(doc_root) = d.(doc_root)
    ∧ node_text_content (walk_fuel d') d' n = Ok v.
Proof.
  intros HR Hd Hnt Hlt. assert (live d n) as Hl by (apply data_Ok in Hd as (r & ? & _); by exists r).
  unfold replace_children. rewrite (children_K d K n HR Hl). cbn [mbind res_bind].
  destruct (remove_children_spec n (K n) d K HR Hl eq_refl) as (d1 & K1 & -> & HR1 & HK1 & Hl1 & Hd1 & Hr1 & Hn1).
  cbn [mbind res_bind]. rewrite Hd in Hd1. destruct v as [|c v].
  { exists d1. split_and!; [done|by exists K1|done|done|by eapply text_content_empty]. }
  destruct (create_node_spec d1 K1 (NText (c :: v)) HR1) as (d2 & -> & HR2 & Hnodes & Hfresh & Hn2 & Hr2); [lia|].
  cbn [mbind res_bind]. set (t := next_node_id d1) in *.
  assert (n ≠ t) as Hnt' by (intros ->; destruct Hl1 as [? Hx]; congruence).
  assert (live d2 n) as Hl2 by (unfold live; rewrite Hnodes, lookup_insert_ne by done; done).
  assert (nodes d2 !! t = Some (detached_record (NText (c :: v)))) as Ht by (rewrite Hnodes; by rewrite lookup_insert_eq).
  destruct (append_child_spec d2 K1 n t _ HR2 Hl2 Ht) as (d3 & -> & HR3 & Hrw); [done| | |].
  - rewrite Hr2. intros Hroot. destruct (rep_root _ _ HR1) as (r & rec & Hr & Hrec & _). congruence.
  - rewrite (rep_inclusive_ancestor _ _ HR2). intros Hrtc. apply rtc_inv in Hrtc as [Heq|(y & Hy & _)]; [congruence|].
    unfold edge in Hy. rewrite (rep_dom _ _ HR1 t Hfresh) in Hy. by apply elem_of_nil in Hy.
  - exists d3. assert (live d3 n) as Hl3 by (by apply (rewired_live d2 d3)). split_and!; [done|by eexists|done| |].
    + destruct Hrw as (_ & -> & _). congruence.
    + eapply (text_content_single d3 _ n t); [exact HR3|done| |done| |].
      * rewrite (rewired_data _ _ _ Hrw). apply data_Ok. apply data_Ok in Hd1 as (r & Hr & <-). exists r.
        split; [|done]. rewrite Hnodes. by rewrite lookup_insert_ne.
      * by rewrite fn_lookup_insert, HK1.
      * rewrite (rewired_data _ _ _ Hrw). apply data_Ok. by eexists.
Qed.

Lemma relayout_total measure p :
  WF p.(pg_doc) → ∃ f y, relayout measure p = Ok (set_scroll y (set_fragment f p)).
Proof.
  intros Hwf. pose proof Hwf as [K HR]. destruct (rep_root _ _ HR) as (r & rec & Hr & Hrec & _).
  unfold relayout, root. rewrite Hr. cbn [unwrap mbind res_bind].
  destruct (layout_conserves measure (pg_doc p) (pg_styles p) r {| available_width := viewport_width p |} Hwf)
    as (f & -> & _); [by exists rec|]. cbn [mbind res_bind]. by eexists _, _.
Qed.

Lemma contains_live d n : contains d n = true ↔ live d n.
Proof. unfold contains. apply bool_decide_eq_true. Qed.

(** Setting the text content of a node, on a well-formed document with ids left, succeeds,
    keeps the document well formed, and reading it back returns exactly the string that was set,
    for text nodes, elements with any subtree, and the document node alike. *)
Theorem set_text_content_round_trip measure p h n v :
  WF p.(pg_doc) → script_node p h = inr n → (next_node_id p.(pg_doc) < U64_MAX)%N →
  ∃ p', script_set_text_content measure p h v = Ok (inr p') ∧ WF p'.(pg_doc)
    ∧ script_text_content p' h = Ok (inr v).
Proof.
  intros [K HR] Hh Hlt. pose proof Hh as [Hsn Hc%contains_live]%script_node_Some. pose proof Hc as [r Hr].
  assert (data (pg_doc p) n = Ok (r_data r)) as Hd by (apply data_Ok; by exists r).
  assert (∃ d', (if is_text (r_data r) then data_mut (pg_doc p) n (λ _, NText v) else replace_children (pg_doc p) n v) = Ok d'
    ∧ WF d' ∧ live d' n ∧ node_text_content (walk_fuel d') d' n = Ok v) as (d' & Hrun & Hwf & Hl' & Htext).
  { destruct (is_text (r_data r)) eqn:Et.
    - destruct (data_mut_spec (pg_doc p) K n (λ _, NText v) HR Hc) as (d' & -> & HR' & Hnodes).
      { intros Hroot. destruct (rep_root _ _ HR) as (r0 & rec & Hr0 & Hrec & Hdt & _).
        rewrite Hroot in Hr0. injection Hr0 as <-. rewrite Hr in Hrec. injection Hrec as <-. by rewrite Hdt in Et. }
      exists d'. assert (nodes d' !! n = Some (set_data (NText v) r)) as Hn by (rewrite Hnodes, lookup_alter_eq, Hr; done).
      split_and!; [done|by exists K|by eexists|]. cbn [node_text_content walk_fuel].
      assert (data d' n = Ok (NText v)) as -> by (apply data_Ok; by eexists). done.
    - destruct (replace_children_spec (pg_doc p) K n (r_data r) v HR Hd Et Hlt) as (d' & ? & ? & ? & _ & ?). by exists d'. }
  unfold script_set_text_content. rewrite Hh, Hd. cbn [mbind res_bind]. rewrite Hrun. cbn [mbind res_bind].
  destruct (relayout_total measure (set_doc d' p)) as (f & y & ->); [done|]. cbn [mbind res_bind].
  eexists. split; [done|]. split; [done|]. unfold script_text_content.
  assert (script_node (set_scroll y (set_fragment f (set_doc d' p))) h = inr n) as ->
    by (apply script_node_Some; cbn; by rewrite contains_live).
  cbn [pg_doc set_scroll set_fragment set_doc]. by rewrite Htext.
Qed.

(** The blank page with the document [<p><b></b>x</p>] and a handle for its paragraph. *)
Definition demo_page : Page := set_handles {[7%N := 1%N]} {[1%N := 7%N]} (set_doc demo blank_page).

Lemma set_text_content_round_trip_witness :
  ∃ p', script_set_text_content no_measure demo_page 7 (str "hello") = Ok (inr p') ∧ WF p'.(pg_doc)
    ∧ script_text_content p' 7 = Ok (inr (str "hello")).
Proof.
  apply (set_text_content_round_trip no_measure demo_page 7 1%N (str "hello")).
  - apply demo_WF.
  - vm_compute. reflexivity.
  - vm_compute. reflexivity.
Defined.

(** ** Scrolling *)
Lemma SFltb_zero_false x : x ≠ S754_nan → f64_ltb x f64_zero = false → f64_leb f64_zero x = true.
Proof. destruct x as [[]|[]| |[] m e]; done. Qed.

Lemma max_scroll_nonneg p : f64_leb f64_zero (max_scroll p) = true.
Proof.
  unfold max_scroll. generalize (f64_sub (f_height (pg_fragment p)) (viewport_height p)). intros x.
  destruct x as [[]|[]| |[] m e]; try reflexivity.
Qed.

(** Scrolling never panics and stays in range: the clamp's bounds are always ordered, the page
    is otherwise unchanged, and the new offset is neither below zero nor above the largest
    offset, whatever the delta. *)
Theorem scroll_by_in_range p dy :
  ∃ y, scroll_by p dy = Ok (set_scroll y p)
    ∧ f64_ltb y f64_zero = false ∧ f64_ltb (max_scroll p) y = false.
Proof.
  unfold scroll_by, f64_clamp. pose proof (max_scroll_nonneg p) as Hm. rewrite Hm. cbn [mbind res_bind].
  eexists. split; [done|]. generalize dependent (max_scroll p). intros m Hm.
  destruct (f64_ltb (f64_add (scroll_y p) dy) f64_zero) eqn:E1; [|destruct (f64_ltb m _) eqn:E2].
  - split; [done|]. revert Hm. destruct m as [[]|[]| |[] ? ?]; done.
  - split; revert Hm; unfold f64_ltb, SFltb, f64_leb, SFleb.
    + destruct m as [[]|[]| |[] ? ?]; done.
    + intros _. destruct m as [[]|[]| |[] q e]; try done; cbn.
      * rewrite Z.compare_refl, Pcompare_refl. done.
      * rewrite Z.compare_refl, Pcompare_refl. done.
  - done.
Qed.

(** ** Hit testing *)

(** [located f ox oy g gx gy]: [g] is [f] or lies below it, and its absolute position is
    [gx], [gy] when the parent of [f] is at [ox], [oy]. *)
Inductive located : Fragment → f64 → f64 → Fragment → f64 → f64 → Prop :=
  | located_here f ox oy : located f ox oy f (f64_add ox f.(f_x)) (f64_add oy f.(f_y))
  | located_below f ox oy k g gx gy :
      k ∈ f.(f_children) → located k (f64_add ox f.(f_x)) (f64_add oy f.(f_y)) g gx gy → located f ox oy g gx gy.

Definition covers (g : Fragment) (gx gy x y : f64) : bool :=
  negb (f64_ltb x gx || f64_ltb y gy || f64_ltb (f64_add gx g.(f_width)) x || f64_ltb (f64_add gy g.(f_height)) y).

Fixpoint first_some {A B} (f : A → option B) (l : list A) : option B :=
  match l with [] => None | x :: l' => match f x with Some b => Some b | None => first_some f l' end end.

Lemma first_some_Some {A B} (f : A → option B) l b : first_some f l = Some b → ∃ x, x ∈ l ∧ f x = Some b.
Proof.
  induction l as [|x l IH]; [done|]. cbn. destruct (f x) eqn:E; intros H.
  - exists x. split; [by left|congruence].
  - destruct (IH H) as (y & ? & ?). exists y. split; [by right|done].
Qed.

Lemma first_some_None {A B} (f : A → option B) l : first_some f l = None → ∀ x, x ∈ l → f x = None.
Proof.
  induction l as [|a l IH]; cbn; [by intros _ x ?%elem_of_nil|]. destruct (f a) eqn:E; [done|].
  intros H x [->|Hx]%elem_of_cons; [done|by apply IH].
Qed.

Lemma hit_test_rec_unfold f x y ox oy :
  hit_test_rec f x y ox oy =
    if covers f (f64_add ox f.(f_x)) (f64_add oy f.(f_y)) x y then
      match first_some (λ k, hit_test_rec k x y (f64_add ox f.(f_x)) (f64_add oy f.(f_y))) f.(f_children) with
      | Some hit => Some hit
      | None => f.(f_node)
      end
    else None.
Proof.
  destruct f as [n k fx fy w h kids]. cbn [hit_test_rec f_x f_y f_width f_height f_children f_node covers].
  unfold covers. cbn [f_width f_height]. destruct (_ || _); cbn [negb]; [done|].
  match goal with |- match ?a with _ => _ end = match ?b with _ => _ end => assert (a = b) as ->; [|done] end.
  induction kids as [|c kids IH]; [done|]. cbn [first_some]. destruct (hit_test_rec c _ _ _ _); [done|apply IH].
Qed.

Lemma hit_test_rec_sound f : ∀ x y ox oy n,
  hit_test_rec f x y ox oy = Some n →
  ∃ g gx gy, located f ox oy g gx gy ∧ g.(f_node) = Some n ∧ covers g gx gy x y = true
    ∧ ∀ k, k ∈ g.(f_children) → hit_test_rec k x y gx gy = None.
Proof.
  induction f as [nd kd fx fy w h kids IH] using fragment_rose_ind. intros x y ox oy n Hit.
  rewrite hit_test_rec_unfold in Hit. destruct (covers _ _ _ _ _) eqn:Ec; [|done].
  rewrite Forall_forall in IH. cbn [f_children] in Hit. destruct (first_some _ _) as [m|] eqn:Ef.
  - injection Hit as ->. apply first_some_Some in Ef as (k & Hk & Hm).
    destruct (IH k Hk _ _ _ _ _ Hm) as (g & gx & gy & Hl & Hrest). exists g, gx, gy. split; [|done].
    by eapply located_below.
  - exists (MkFragment nd kd fx fy w h kids), (f64_add ox fx), (f64_add oy fy). split_and!; [constructor|done|done|].
    cbn [f_children]. intros k Hk. by apply (first_some_None _ _ Ef k).
Qed.

(** Hit testing finds the innermost box: the node returned belongs to a fragment of the tree
    whose absolute rectangle covers the point and none of whose children is hit; and a point
    covered by the root's rectangle always hits something when the root has a node. *)
Theorem hit_test_innermost f x y :
  (∀ n, hit_test f x y = Some n →
     ∃ g gx gy, located f f64_zero f64_zero g gx gy ∧ g.(f_node) = Some n ∧ covers g gx gy x y = true
       ∧ ∀ k, k ∈ g.(f_children) → hit_test_rec k x y gx gy = None)
  ∧ (covers f (f64_add f64_zero f.(f_x)) (f64_add f64_zero f.(f_y)) x y = true → is_Some f.(f_node) →
     is_Some (hit_test f x y)).
Proof.
  split; [intros n; apply hit_test_rec_sound|]. intros Hc Hn. unfold hit_test.
  rewrite hit_test_rec_unfold, Hc. by destruct (first_some _ _).
Qed.

(** ** Cropping *)

(** Byte [k] of column [i] in row [j] of a cropped buffer: the source byte [top] rows below, white
    outside the source. *)
Definition cropped_byte (src : Pixmap) (top i j : N) (k : nat) : option N :=
  if (top + j <? src.(pm_height))%N && (i <? src.(pm_width))%N then channel src i (top + j) k else Some 255%N.

(** The bytes of one row, [w] pixels wide, of the crop. *)
Definition cropped_row (src : Pixmap) (top w : N) (row : nat) : list N :=
  if (top + N.of_nat row <? src.(pm_height))%N then
    let start := N.to_nat ((top + N.of_nat row) * src.(pm_width) * 4) in
    let stop := Nat.min (start + N.to_nat w * 4) (length src.(pixels)) in
    take (stop - start) (drop start src.(pixels)) ++ replicate (N.to_nat w * 4 - (stop - start)) 255%N
  else replicate (N.to_nat w * 4) 255%N.

Lemma crop_row_spec src top w out row :
  pixmap_ok src → indexable src.(pm_width) src.(pm_height) → (top + N.of_nat row ≤ U32_MAX)%N →
  length out = row * N.to_nat w * 4 →
  crop_row src top w out row = Ok (out ++ cropped_row src top w row).
Proof.
  intros Hok Hidx Htop Hout. unfold crop_row, cropped_row, checked_add_N, checked_mul_N.
  rewrite (proj2 (N.leb_le _ _) Htop). cbn [mbind res_bind].
  destruct (top + N.of_nat row <? pm_height src)%N eqn:Eh; [|done]. apply N.ltb_lt in Eh.
  set (s := (top + N.of_nat row)%N) in *. unfold indexable in Hidx.
  assert ((s + 1) * pm_width src ≤ pm_width src * pm_height src)%N as Hb by nia.
  assert (s * pm_width src * 4 ≤ U32_MAX)%N as Hb4.
  { destruct (decide (pm_width src = 0%N)) as [->|]; [lia|]. nia. }
  rewrite (proj2 (N.leb_le (s * pm_width src) U32_MAX)) by lia. cbn [mbind res_bind].
  rewrite (proj2 (N.leb_le (s * pm_width src * 4) U32_MAX)) by lia. cbn [mbind res_bind].
  assert (N.to_nat (s * pm_width src * 4) ≤ length (pixels src)) as Hs by (rewrite (ok_length _ Hok); lia).
  rewrite decide_True by lia. f_equal. unfold vec_resize. set (st := N.to_nat (s * pm_width src * 4)) in *.
  set (sp := Nat.min (st + N.to_nat w * 4) (length (pixels src))) in *.
  assert (length (take (sp - st) (drop st (pixels src))) = sp - st) as Hlen by (rewrite length_take, length_drop; lia).
  rewrite take_ge by (rewrite length_app, Hout, Hlen; lia).
  rewrite length_app, Hout, Hlen, <-app_assoc. f_equal. f_equal. f_equal. lia.
Qed.

Lemma cropped_row_length src top w row : length (cropped_row src top w row) = N.to_nat w * 4.
Proof.
  unfold cropped_row. destruct (_ <? _)%N; [|apply length_replicate].
  rewrite length_app, length_replicate, length_take, length_drop. lia.
Qed.

Lemma crop_rows_spec src top w h :
  pixmap_ok src → indexable src.(pm_width) src.(pm_height) → (top + N.of_nat h ≤ U32_MAX)%N → ∀ n s out,
  s + n ≤ h → length out = s * N.to_nat w * 4 →
  fold_res (crop_row src top w) out (seq s n) = Ok (out ++ concat (map (cropped_row src top w) (seq s n))).
Proof.
  intros Hok Hidx Htop. induction n as [|n IH]; intros s out Hs Hout; cbn [seq fold_res map concat]; [by rewrite app_nil_r|].
  rewrite crop_row_spec by (done || lia). cbn [mbind res_bind]. rewrite IH; [by rewrite app_assoc|lia|].
  rewrite length_app, cropped_row_length, Hout. lia.
Qed.

Lemma lookup_concat_rows {A} (f : nat → list A) L n : ∀ s j m,
  (∀ i, length (f i) = L) → m < L → j < n →
  concat (map f (seq s n)) !! (j * L + m) = f (s + j) !! m.
Proof.
  induction n as [|n IH]; intros s j m Hlen Hm Hj; [lia|]. cbn [seq map concat]. destruct j as [|j].
  - rewrite lookup_app_l by (rewrite Hlen; lia). by rewrite Nat.add_0_r.
  - rewrite lookup_app_r by (rewrite Hlen; lia). rewrite Hlen.
    replace (S j * L + m - L) with (j * L + m) by lia. rewrite IH by (done || lia). f_equal. f_equal. lia.
Qed.

Lemma cropped_row_byte src top w i (j : nat) k :
  pixmap_ok src → (w ≤ N.max src.(pm_width) 1)%N → (i < w)%N → k < 4 →
  cropped_row src top w j !! (N.to_nat i * 4 + k) = cropped_byte src top i (N.of_nat j) k.
Proof.
  intros Hok Hw Hi Hk. unfold cropped_row, cropped_byte.
  destruct (top + N.of_nat j <? pm_height src)%N eqn:Eh; cbn [andb].
  2:{ by rewrite lookup_replicate_2 by lia. }
  apply N.ltb_lt in Eh. set (s := (top + N.of_nat j)%N) in *. set (st := N.to_nat (s * pm_width src * 4)).
  pose proof (ok_length _ Hok) as Hlen. destruct (i <? pm_width src)%N eqn:Ei.
  - apply N.ltb_lt in Ei. assert (st + N.to_nat (pm_width src) * 4 ≤ length (pixels src)) as Hroom.
    { rewrite Hlen. unfold st. assert ((s + 1) * pm_width src ≤ pm_width src * pm_height src)%N by nia. lia. }
    rewrite lookup_app_l by (rewrite length_take, length_drop; lia).
    rewrite lookup_take, decide_True by lia. rewrite lookup_drop. unfold channel, byte_index, st. f_equal. clearbody s. lia.
  - apply N.ltb_ge in Ei. assert (pm_width src = 0%N) as H0 by lia.
    assert (length (pixels src) = 0) as Hl0 by (rewrite Hlen, H0; lia).
    rewrite lookup_app_r by (rewrite length_take, length_drop; lia).
    rewrite lookup_replicate_2; [done|]. rewrite length_take, length_drop. lia.
Qed.

Lemma Forall_concat_rows {A} (P : A → Prop) (f : nat → list A) l :
  (∀ i, Forall P (f i)) → Forall P (concat (map f l)).
Proof. intros H. induction l; [constructor|]. cbn. by apply Forall_app. Qed.

Lemma cropped_row_bytes src top w row : pixmap_ok src → Forall is_byte (cropped_row src top w row).
Proof.
  intros Hok. assert (∀ n, Forall is_byte (replicate n 255%N)) as Hr.
  { intros n. apply Forall_replicate. unfold is_byte. lia. }
  unfold cropped_row. destruct (_ <? _)%N; [|done]. apply Forall_app. split; [|done].
  apply Forall_take, Forall_drop. apply Hok.
Qed.

(** The visible part of a page is exact: cropping a rendered page returns a buffer of the
    viewport's size (no wider than the page) whose byte at every position is the page's byte
    [top] rows further down, and white where the page ends. *)
Theorem crop_exact src top width height :
  pixmap_ok src → indexable src.(pm_width) src.(pm_height) →
  let t := Z.to_N (round_as_u32 top) in
  let w := N.min (Z.to_N (round_as_u32 width)) (N.max src.(pm_width) 1) in
  let h := Z.to_N (round_as_u32 height) in
  (t + h ≤ U32_MAX)%N →
  ∃ p, crop src top width height = Ok p ∧ p.(pm_width) = w ∧ p.(pm_height) = h ∧ pixmap_ok p
    ∧ ∀ i j k, (i < w)%N → (j < h)%N → k < 4 → channel p i j k = cropped_byte src t i j k.
Proof.
  intros Hok Hidx t w h Hth. unfold crop. fold t w h.
  assert (w ≤ N.max (pm_width src) 1)%N as Hw by (unfold w; lia). clearbody t w h.
  rewrite (crop_rows_spec src t w (N.to_nat h)) by (done || lia). cbn [mbind res_bind app].
  eexists. split; [done|]. cbn [pm_width pm_height]. split_and!; [done|done| |].
  - split; cbn [pixels pm_width pm_height]; [|by apply Forall_concat_rows; intros; apply cropped_row_bytes].
    rewrite length_concat, map_map. erewrite (map_ext _ (λ _, N.to_nat w * 4)) by (intros; apply cropped_row_length).
    assert (∀ n s, sum_list (map (λ _ : nat, N.to_nat w * 4) (seq s n)) = n * (N.to_nat w * 4)) as Hsum.
    { induction n as [|n IH]; intros s; [done|]. cbn. rewrite IH. lia. }
    rewrite ?Hsum. lia.
  - intros i j k Hi Hj Hk. unfold channel. cbn [pixels pm_width]. unfold byte_index.
    replace (N.to_nat (4 * (j * w + i)) + k) with (N.to_nat j * (N.to_nat w * 4) + (N.to_nat i * 4 + k)) by lia.
    rewrite (lookup_concat_rows _ (N.to_nat w * 4)) by (lia || (intros; apply cropped_row_length)).
    rewrite cropped_row_byte by done. cbn [plus]. by rewrite N2Nat.id.
Qed.

Lemma crop_exact_witness :
  ∃ p, crop blank_2x1 f64_zero (f64_of_Z 3) (f64_of_Z 2) = Ok p ∧ p.(pm_width) = 2%N ∧ p.(pm_height) = 2%N ∧ pixmap_ok p
    ∧ ∀ i j k, (i < 2)%N → (j < 2)%N → k < 4 → channel p i j k = cropped_byte blank_2x1 0 i j k.
Proof.
  apply (crop_exact blank_2x1 f64_zero (f64_of_Z 3) (f64_of_Z 2)).
  - apply blank_2x1_ok.
  - vm_compute. discriminate.
  - vm_compute. discriminate.
Defined.
