(* ===== verification/PageLoad.v ===== *)
(** * Loading a page: from markup to the display list

    [Page.load_html] with the parser of [HtmlModes] in the place of its parameter.  The style
    elements of the parsed document give the author sheet, the cascade styles the tree, layout
    and paint show its words. *)

From S2P Require Import Prelude Float Dom DomTree DomWalk DomOps.
From S2P Require Import HtmlTokenizer HtmlRoundTrip HtmlTree HtmlModes HtmlSteps HtmlRun HtmlTermination HtmlTreeRoundTrip.
From S2P Require Import CssTokenizer CssValue CssSelector CssSelectorProps CssParser CssParserProps CssCascade CssCascadeProps.
From S2P Require Import Layout LayoutProps Paint PaintProps Raster Page PageProps.

(** ** Style elements *)
Definition node_text (t : tree) : list N := match tdata t with NText s => s | _ => [] end.

(** The text of the [style] elements of a tree, in document order. *)
Fixpoint sheet_texts (t : tree) : list (list N) :=
  match t with
  | Tree _ dt ts =>
      match dt with
      | NElement tag _ => if decide (tag = str "style") then [concat (map node_text ts)] else []
      | _ => []
      end ++ concat (map sheet_texts ts)
  end.

Definition parses (s : list N) (rules : list Rule) : Prop := CssParser.parse s = Ok rules.

Section Sheets.
Context (d : Document) (K : NodeId → list NodeId) (HR : Rep d K).

Definition collects (t : tree) : Prop := ∀ fuel rss rules,
  unfolds d.(nodes) K t → length (ids t) ≤ fuel → Forall2 parses (sheet_texts t) rss →
  collect fuel d (tid t) rules = Ok (rules ++ concat rss).

Lemma collect_kids ts fuel rss rules :
  Forall collects ts → Forall (unfolds d.(nodes) K) ts → length (mjoin (ids <$> ts)) ≤ fuel →
  Forall2 parses (concat (map sheet_texts ts)) rss →
  fold_res (λ rules child, collect fuel d child rules) rules (map tid ts) = Ok (rules ++ concat rss).
Proof.
  revert rss rules; induction ts as [|t ts IH]; intros rss rules Hc Hun Hlen Hp.
  { apply Forall2_nil_inv_l in Hp as ->. cbn. by rewrite app_nil_r. }
  apply Forall_cons in Hc as [Hc1 Hc2], Hun as [Hu1 Hu2]. csimpl in Hlen. rewrite length_app in Hlen.
  cbn [map concat] in Hp. apply Forall2_app_inv_l in Hp as (r1 & r2 & H1 & H2 & ->).
  cbn [map fold_res]. rewrite (Hc1 fuel r1) by (done || lia). cbn [mbind res_bind].
  rewrite (IH r2) by (done || lia). by rewrite concat_app, app_assoc.
Qed.

Lemma text_of_kids ts :
  Forall (unfolds d.(nodes) K) ts → concat_mapM (text_of d) (map tid ts) = Ok (concat (map node_text ts)).
Proof.
  intros Hun. apply concat_mapM_map. intros t Ht. rewrite Forall_forall in Hun. destruct t as [id dt us].
  destruct (unfolds_data d K HR id dt us (Hun _ Ht)) as (Hd & _). unfold text_of. cbn [tid]. by rewrite Hd.
Qed.

(** [collect] appends the parsed style elements of a subtree, in document order. *)
Lemma collect_spec t : collects t.
Proof.
  induction t as [id dt ts IH] using tree_rose_ind. intros fuel rss rules Hun Hlen Hp.
  destruct (unfolds_data d K HR id dt ts Hun) as (Hd & Hc & Hall & _). csimpl in Hlen.
  destruct fuel as [|fuel]; [lia|]. cbn [collect tid]. rewrite Hd. cbn [mbind res_bind]. rewrite Hc. cbn [mbind res_bind].
  cbn [sheet_texts] in Hp. apply Forall2_app_inv_l in Hp as (r1 & r2 & H1 & H2 & ->). rewrite concat_app, app_assoc.
  assert (match dt with
    | NElement tag_name _ => if decide (tag_name = str "style") then
        css_text ← concat_mapM (text_of d) (map tid ts); more ← CssParser.parse css_text; Ok (rules ++ more) else Ok rules
    | _ => Ok rules end = Ok (rules ++ concat r1)) as ->.
  { assert (Forall2 parses [] r1 → Ok rules = Ok (rules ++ concat r1)) as Hnone
      by (intros ->%Forall2_nil_inv_l; cbn; by rewrite app_nil_r).
    destruct dt as [|tag attrs|s]; [by apply Hnone| |by apply Hnone].
    destruct (decide (tag = str "style")); [|by apply Hnone]. rewrite text_of_kids by done. cbn [mbind res_bind].
    apply Forall2_cons_inv_l in H1 as (r & r' & Hr & ->%Forall2_nil_inv_l & ->). unfold parses in Hr. rewrite Hr.
    cbn. by rewrite app_nil_r. }
  cbn [mbind res_bind]. apply collect_kids; [done|done|lia|done].
Qed.

Lemma extract_spec t rss :
  unfolds d.(nodes) K t → d.(doc_root) = Some (tid t) → Forall2 parses (sheet_texts t) rss →
  extract_inline_stylesheets d = Ok (concat rss).
Proof.
  intros Hun Hr Hp. unfold extract_inline_stylesheets, root. rewrite Hr. cbn [unwrap mbind res_bind].
  apply (collect_spec t (walk_fuel d) rss []); [done| |done].
  pose proof (unfolds_size _ _ HR _ Hun). unfold walk_fuel. lia.
Qed.
End Sheets.

(** A style text that parses to selectors of a size the cascade can count. *)
Definition sheet_text_ok (s : list N) : Prop := forallb is_ascii s = true ∧ (N.of_nat (length s) <= U32_MAX)%N.

Lemma sheets_parse texts :
  Forall sheet_text_ok texts → ∃ rss, Forall2 parses texts rss ∧ ∀ rs rule sel,
    rs ∈ rss → rule ∈ rs → sel ∈ rule.(selectors) → wf_selector sel ∧ (N.of_nat (simple_count sel) <= U32_MAX)%N.
Proof.
  induction 1 as [|s texts [Ha Hl] _ (rss & Hp & Hok)].
  { exists []. split; [constructor|]. intros ? ? ? H. by apply elem_of_nil in H. }
  destruct (parse_rules_ascii s Ha) as [rs Hrs]. exists (rs :: rss). split; [by constructor|].
  intros rs' rule sel [->|Hin]%elem_of_cons; [by apply (parse_sheet_ok s)|by apply Hok].
Qed.

Lemma ua_rules_ok ua : ua_stylesheet = Ok ua → ∀ rule sel, rule ∈ ua → sel ∈ rule.(selectors) →
  wf_selector sel ∧ (N.of_nat (simple_count sel) <= U32_MAX)%N.
Proof.
  unfold ua_stylesheet. intros Hua rule sel. apply (parse_sheet_ok UA_STYLESHEET_SOURCE ua Hua). vm_compute. discriminate.
Qed.

(** ** Loading *)
Section Load.
Context (measure : list N → f64 → bool → bool → f64).

(** The text of a frame: what its text commands draw. *)
Definition frame_text (f : Frame) : list (option (list N * Color * f64 * bool * bool)) :=
  map Some (omap text_command f.(commands)).

Lemma recascade_spec p K t :
  Rep p.(pg_doc) K → p.(pg_doc).(doc_root) = Some (tid t) → unfolds p.(pg_doc).(nodes) K t →
  ua_stylesheet = Ok p.(pg_ua) → Forall sheet_text_ok (sheet_texts t) → inline_ok p.(pg_doc) t →
  ∃ styles rss, recascade p = Ok (set_styles styles p) ∧ Forall2 parses (sheet_texts t) rss
    ∧ styled p.(pg_doc) [(Ua, p.(pg_ua)); (Author, concat rss)] styles None t.
Proof.
  intros HR Hroot Hun Hua Hok Hin. destruct (sheets_parse _ Hok) as (rss & Hp & Hsel).
  destruct (cascade_tree_ok p.(pg_doc) K [(Ua, p.(pg_ua)); (Author, concat rss)] t HR) as (styles & Hc & Hst & _);
    [|assumption..|].
  - intros o rules rule sel [[= -> ->]|[[= -> ->]|Hx%elem_of_nil]%elem_of_cons]%elem_of_cons Hr Hs; [| |done].
    + exact (ua_rules_ok p.(pg_ua) Hua rule sel Hr Hs).
    + apply list_elem_of_In, in_concat in Hr as (rs & Hrs & Hr). rewrite <-list_elem_of_In in Hrs. rewrite <-list_elem_of_In in Hr.
      exact (Hsel rs rule sel Hrs Hr Hs).
  - exists styles, rss. split; [|split; assumption]. unfold recascade. rewrite (extract_spec _ K HR t rss Hun Hroot Hp).
    cbn [mbind res_bind]. by rewrite Hc.
Qed.

(** A page whose document is styled shows the words that layout meets. *)
Lemma relayout_shows p K t sheets :
  Rep p.(pg_doc) K → p.(pg_doc).(doc_root) = Some (tid t) → unfolds p.(pg_doc).(nodes) K t →
  styled p.(pg_doc) sheets p.(pg_styles) None t → p.(highlighted) = None →
  ∃ f y, relayout measure p = Ok (set_scroll y (set_fragment f p))
    ∧ frame_text (render (set_scroll y (set_fragment f p)))
      = map (word_in_style p.(pg_styles)) (flow_words measure p.(pg_styles) t).
Proof.
  intros HR Hroot Hun Hst Hh.
  destruct (layout_root_spec measure p.(pg_doc) K sheets p.(pg_styles) t {| available_width := viewport_width p |} HR Hun)
    as (f & Hf & Hw & Hws); [|assumption|].
  { destruct (rep_root _ _ HR) as (r & rec & Hr & Hrec & Hdt & _). rewrite Hroot in Hr. injection Hr as <-.
    destruct t as [id dt ts]. inversion Hun; subst. cbn [tid tdata] in *. by simplify_eq. }
  eexists f, _. split.
  - unfold relayout, root. rewrite Hroot. cbn [unwrap mbind res_bind]. rewrite Hf. reflexivity.
  - unfold render. cbn [highlighted set_scroll set_fragment pg_fragment pg_styles]. rewrite Hh. cbn [mbind option_bind].
    unfold frame_text, paint. cbn [commands]. rewrite paint_fragment_text, Hw. by apply words_painted.
Qed.

(** What loading a document does, whichever parser returned it. *)
Lemma load_spec parser p html url d K t :
  parser html (next_node_id p.(pg_doc)) = Ok d → Rep d K → d.(doc_root) = Some (tid t) → unfolds d.(nodes) K t →
  ua_stylesheet = Ok p.(pg_ua) → Forall sheet_text_ok (sheet_texts t) → inline_ok d t →
  ∃ p' rss, load_html_str measure parser p html url = Ok p' ∧ p'.(pg_doc) = d ∧ p'.(pg_url) = url
    ∧ Forall2 parses (sheet_texts t) rss
    ∧ styled d [(Ua, p.(pg_ua)); (Author, concat rss)] p'.(pg_styles) None t
    ∧ frame_text (render p') = map (word_in_style p'.(pg_styles)) (flow_words measure p'.(pg_styles) t).
Proof.
  intros Hp HR Hroot Hun Hua Hok Hin. unfold load_html_str, load_html. rewrite Hp. cbn [mbind res_bind]. cbv zeta.
  match goal with |- context [recascade ?q] =>
    destruct (recascade_spec q K t HR Hroot Hun Hua Hok Hin) as (styles & rss & -> & Hps & Hst) end.
  cbn [mbind res_bind].
  match goal with |- context [relayout measure ?q] =>
    destruct (relayout_shows q K t [(Ua, p.(pg_ua)); (Author, concat rss)] HR Hroot Hun) as (f & y & -> & Hf); [exact Hst|reflexivity|] end.
  cbn [mbind res_bind]. eexists _, rss. split; [reflexivity|]. split_and!; [reflexivity|reflexivity|assumption|assumption|exact Hf].
Qed.
End Load.

(** ** The built-in sheet hides few elements *)
Definition HIDDEN : list (list N) := str <$> ["head"; "title"; "style"; "script"; "link"; "meta"; "colgroup"]%string.

(** The tag that a selector asks of the element it selects. *)
Definition selector_tags (sel : ComplexSelector) : list (list N) :=
  match last sel.(compounds) with
  | Some c => omap (λ s, match s with Type_ t => Some t | _ => None end) c.(simple_selectors)
  | None => []
  end.

Definition hides (dc : Declaration) : bool :=
  bool_decide (dc.(property) = str "display" ∧ dc.(dvalue) = VKeyword (str "none")).

(** Every rule with [display: none] selects hidden elements only. *)
Definition hides_only (tags : list (list N)) (rules : list Rule) : bool :=
  forallb (λ rule, negb (existsb hides rule.(declarations))
    || forallb (λ sel, existsb (λ t, bool_decide (t ∈ tags)) (selector_tags sel)) rule.(selectors)) rules.

Lemma ua_hides_only ua : ua_stylesheet = Ok ua → hides_only HIDDEN ua = true.
Proof.
  intros Hua. assert (match ua_stylesheet with Ok u => hides_only HIDDEN u | _ => false end = true) as H
    by (vm_compute; reflexivity). by rewrite Hua in H.
Qed.

Section Hiding.
Context (d : Document) (x : NodeId) (tag : list N) (attrs : list (list N * list N)).
Hypothesis (Hdata : data d x = Ok (NElement tag attrs)).

Lemma matches_tags sel t : matches d x sel = Ok true → t ∈ selector_tags sel → tag = t.
Proof.
  unfold matches, selector_tags. rewrite last_lookup. cbv zeta. intros Hm.
  destruct (decide (length (compounds sel) = 0)) as [|_]; [by apply Ok_inj in Hm|].
  replace (length (compounds sel) - 1) with (pred (length (compounds sel))) in Hm by lia.
  destruct (compounds sel !! pred _) as [c|]; [|done]. cbn [unwrap mbind res_bind] in Hm.
  unfold compound_matches in Hm. rewrite Hdata in Hm. cbn [mbind res_bind] in Hm.
  destruct (forallb _ _) eqn:E; [|by apply Ok_inj in Hm]. rewrite forallb_forall in E.
  intros (s & Hs & Ht)%list_elem_of_omap. destruct s; try done. injection Ht as ->.
  apply list_elem_of_In in Hs. apply E in Hs. by apply bool_decide_eq_true in Hs.
Qed.

Lemma best_specificity_matches sels sp :
  best_specificity d x sels = Ok (Some sp) → ∃ sel, sel ∈ sels ∧ matches d x sel = Ok true.
Proof.
  unfold best_specificity. assert (∀ o, fold_res (λ best s, m ← matches d x s;
    if m : bool then sp ← specificity s; Ok (spec_max best sp) else Ok best) o sels = Ok (Some sp) →
    (∃ sel, sel ∈ sels ∧ matches d x sel = Ok true) ∨ o = Some sp) as H.
  { induction sels as [|s sels IH]; intros o; cbn [fold_res]; [intros ->%Ok_inj; by right|].
    intros (b & (m & Hm & Hb)%bind_Ok & H)%bind_Ok. destruct (IH b H) as [(sel & ? & ?)| ->].
    { left. exists sel. split; [by right|done]. }
    destruct m; [left; exists s; split; [left|done]|]. apply Ok_inj in Hb as ->. by right. }
  intros [Hs|Hn]%H; [exact Hs|discriminate].
Qed.

Lemma match_rules_hides o order rules ms m :
  hides_only HIDDEN rules = true → tag ∉ HIDDEN → match_rules d x o order rules = Ok ms → m ∈ ms →
  hides m.(m_declaration) = false.
Proof.
  intros Hh Ht. revert order ms; induction rules as [|rule rules IH]; intros order ms; cbn [match_rules].
  { intros <-%Ok_inj Hm. by apply elem_of_nil in Hm. }
  cbn [hides_only forallb] in Hh. apply andb_true_iff in Hh as [Hr Hh].
  intros (ms1 & H1 & (ms2 & H2 & <-%Ok_inj)%bind_Ok)%bind_Ok [Hm|Hm]%elem_of_app; [|by eapply (IH Hh)].
  unfold match_rule in H1. apply bind_Ok in H1 as (best & Hb & H1).
  destruct best as [sp|]; apply Ok_inj in H1 as <-; [|by apply elem_of_nil in Hm].
  apply list_elem_of_fmap in Hm as (dc & -> & Hdc). cbn [m_declaration].
  destruct (best_specificity_matches _ _ Hb) as (sel & Hsel & Hmt).
  destruct (hides dc) eqn:E; [exfalso|done]. apply orb_true_iff in Hr as [Hr|Hr].
  - apply negb_true_iff in Hr. rewrite <-not_true_iff_false, existsb_exists in Hr. apply Hr.
    exists dc. split; [by apply list_elem_of_In|done].
  - rewrite forallb_forall in Hr. apply list_elem_of_In, Hr, existsb_exists in Hsel as (t & Hin & Htt).
    apply bool_decide_eq_true in Htt. apply list_elem_of_In in Hin.
    by rewrite (matches_tags sel t Hmt Hin) in Ht.
Qed.

(** An element without a style attribute that the built-in sheet does not hide is displayed. *)
Lemma unstyled_displayed ua ps s :
  ua_stylesheet = Ok ua → tag ∉ HIDDEN → Forall (λ kv, kv.1 ≠ str "style") attrs →
  compute_style_for d x [(Ua, ua); (Author, [])] ps = Ok s → s.(display) ≠ str "none".
Proof.
  intros Hua Ht Ha (ms & Hms & <-%Ok_inj)%bind_Ok. unfold all_matched in Hms.
  apply bind_Ok in Hms as (ms1 & Hs & (inl & Hi & <-%Ok_inj)%bind_Ok).
  assert (inl = []) as ->.
  { unfold inline_style_declarations in Hi. rewrite Hdata in Hi. cbn [mbind res_bind] in Hi.
    rewrite (proj2 (list_find_None _ _) Ha) in Hi. by apply Ok_inj in Hi. }
  cbn [map]. rewrite app_nil_r. cbn [match_sheets] in Hs.
  apply bind_Ok in Hs as (mu & Hu & (rest & Hr & <-%Ok_inj)%bind_Ok).
  apply bind_Ok in Hr as (ma & [= <-] & (e & [= <-] & <-%Ok_inj)%bind_Ok). rewrite !app_nil_r.
  pose proof (λ m, match_rules_hides Ua 0 ua mu m (ua_hides_only ua Hua) Ht Hu) as Hno.
  cbn [style_of_winners display]. destruct (winners mu !! str "display") as [v|] eqn:E; [|by vm_compute].
  apply winners_Some in E as (l1 & m & l2 & -> & Hp & Hv & _).
  specialize (Hno m (proj2 (elem_of_app _ _ _) (or_intror (list_elem_of_here _ _)))). unfold hides in Hno. apply bool_decide_eq_false in Hno.
  destruct v; cbn [keyword_of default from_option]; try by vm_compute. intros Hk. apply Hno. split; [assumption|].
  rewrite Hv. f_equal. exact Hk.
Qed.
End Hiding.

(** ** Printed pages *)

(** The tree in memory that holds a node. *)
#[local] Unset Elimination Schemes.
Inductive same : node → tree → Prop :=
  | same_El tag attrs kids id ts : Forall2 same kids ts → same (El tag attrs kids) (Tree id (NElement tag attrs) ts)
  | same_Tx s id : same (Tx s) (Tree id (NText s) []).
#[local] Set Elimination Schemes.

Lemma same_El_inv tag attrs kids t :
  same (El tag attrs kids) t → ∃ id ts, t = Tree id (NElement tag attrs) ts ∧ Forall2 same kids ts.
Proof. inversion 1; subst. eauto. Qed.
Lemma same_Tx_inv s t : same (Tx s) t → ∃ id, t = Tree id (NText s) [].
Proof. inversion 1; subst. eauto. Qed.

(** No element of a node has a style attribute. *)
Fixpoint unstyled (n : node) : bool :=
  match n with
  | El _ attrs kids => forallb (λ kv, bool_decide (kv.1 ≠ str "style")) attrs && forallb unstyled kids
  | Tx _ => true
  end.

(** An element that the built-in sheet shows, without a style attribute, and so below it. *)
Fixpoint calm (n : node) : bool :=
  match n with
  | El tag attrs kids =>
      bool_decide (tag ∉ HIDDEN) && forallb (λ kv, bool_decide (kv.1 ≠ str "style")) attrs && forallb calm kids
  | Tx _ => true
  end.

Fixpoint node_words (n : node) : list (list N) :=
  match n with El _ _ kids => concat (map node_words kids) | Tx s => split_whitespace s end.
Definition forest_words (f : list node) : list (list N) := concat (map node_words f).

Lemma shows_same d K lo hi n t :
  unfolds d.(nodes) K t → shows d K lo hi n (tid t) → same n t.
Proof.
  revert t; induction n as [tag attrs kids IH|s] using node_rose_ind; intros t Hun.
  - inversion Hun as [id r ts Hr Hts Hall]; subst. cbn [tid]. rewrite shows_El. intros (_ & Hd & Hk).
    apply data_lookup in Hd. rewrite Hr in Hd. injection Hd as ->. constructor.
    rewrite <-Hts in Hk. clear -IH Hall Hk. revert kids IH Hk. induction ts as [|t ts IHts]; intros kids IH Hk.
    { apply Forall2_nil_inv_r in Hk as ->. constructor. }
    csimpl in Hk. apply Forall2_cons_inv_r in Hk as (k & ks & Hk & Hks & ->).
    apply Forall_cons in IH as [IH1 IH2], Hall as [H1 H2]. constructor; [by apply IH1|by apply IHts].
  - inversion Hun as [id r ts Hr Hts Hall]; subst. cbn [tid shows]. intros (_ & Hd & Hk).
    apply data_lookup in Hd. rewrite Hr in Hd. injection Hd as ->. rewrite Hk in Hts.
    destruct ts; [constructor|done].
Qed.

Lemma map_concat_words {A B C} (f : A → list B) (g : C → list (list N)) (h : B → list N) (l : list A) (l' : list C) :
  Forall2 (λ y x, map h (f x) = g y) l' l → map h (concat (map f l)) = concat (map g l').
Proof. induction 1 as [|y x l' l H _ IH]; [done|]. cbn [map concat]. by rewrite map_app, H, IH. Qed.

Section Words.
Context (measure : list N → f64 → bool → bool → f64).

Lemma word_of_text styles sn s : map w_text (map (word_of measure styles sn) s) = s.
Proof. rewrite map_map. induction s; cbn; f_equal; done. Qed.

Lemma same_inline styles sn n t : same n t → map w_text (inline_words measure styles sn t) = node_words n.
Proof.
  revert sn t; induction n as [tag attrs kids IH|s] using node_rose_ind; intros sn t Hs.
  - apply same_El_inv in Hs as (id & ts & -> & Hk). cbn [inline_words node_words]. apply map_concat_words.
    induction Hk as [|k t kids ts Hkt _ IHk]; [constructor|]. apply Forall_cons in IH as [IH1 IH2].
    constructor; [by apply IH1|by apply IHk].
  - apply same_Tx_inv in Hs as [id ->]. cbn [inline_words node_words]. apply word_of_text.
Qed.

Lemma calm_El tag attrs kids :
  calm (El tag attrs kids) = true →
  tag ∉ HIDDEN ∧ Forall (λ kv, kv.1 ≠ str "style") attrs ∧ Forall (λ k, calm k = true) kids.
Proof.
  cbn [calm]. rewrite !andb_true_iff, !forallb_forall. intros [[H1%bool_decide_eq_true H2] H3].
  split_and!; [done|apply Forall_forall; intros kv Hkv%list_elem_of_In; by apply H2, bool_decide_eq_true in Hkv|].
  apply Forall_forall. intros k Hk%list_elem_of_In. by apply H3.
Qed.

(** Calm nodes carry no style sheet and no inline style. *)
Lemma calm_sheets n t : same n t → calm n = true → sheet_texts t = [].
Proof.
  revert t; induction n as [tag attrs kids IH|s] using node_rose_ind; intros t Hs.
  - apply same_El_inv in Hs as (id & ts & -> & Hk). intros (Ht & _ & Hc)%calm_El. cbn [sheet_texts].
    rewrite decide_False by (intros ->; apply Ht; by apply (bool_decide_unpack _); vm_compute). cbn [app].
    induction Hk as [|k t kids ts Hkt _ IHk]; [done|]. apply Forall_cons in IH as [IH1 IH2], Hc as [Hc1 Hc2].
    cbn [map concat]. rewrite (IH1 t Hkt Hc1). by apply IHk.
  - apply same_Tx_inv in Hs as [id ->]. done.
Qed.

Section Styled.
Context (d : Document) (K : NodeId → list NodeId) (HR : Rep d K).

Lemma unstyled_El tag attrs kids :
  unstyled (El tag attrs kids) = true →
  Forall (λ kv, kv.1 ≠ str "style") attrs ∧ Forall (λ k, unstyled k = true) kids.
Proof.
  cbn [unstyled]. rewrite andb_true_iff, !forallb_forall. intros [H1 H2]. split; apply Forall_forall.
  - intros kv Hkv%list_elem_of_In. by apply H1, bool_decide_eq_true in Hkv.
  - intros k Hk%list_elem_of_In. by apply H2.
Qed.

Lemma unstyled_inline n t :
  same n t → unstyled n = true → unfolds d.(nodes) K t → inline_ok d t.
Proof.
  revert t; induction n as [tag attrs kids IH|s] using node_rose_ind; intros t Hs.
  - apply same_El_inv in Hs as (id & ts & -> & Hk). intros [Ha Hc]%unstyled_El Hun.
    destruct (unfolds_data d K HR _ _ _ Hun) as (Hd & _ & Hall & _). intros x Hx. csimpl in Hx.
    apply elem_of_cons in Hx as [->|Hx].
    { unfold inline_style_declarations. rewrite Hd. cbn [mbind res_bind].
      rewrite (proj2 (list_find_None _ _) Ha). by eexists. }
    clear Hun Hd. induction Hk as [|k t kids ts Hkt _ IHk]; [by apply elem_of_nil in Hx|].
    apply Forall_cons in IH as [IH1 IH2], Hc as [Hc1 Hc2], Hall as [Hu1 Hu2]. csimpl in Hx.
    apply elem_of_app in Hx as [Hx|Hx]; [by apply (IH1 t)|by apply IHk].
  - apply same_Tx_inv in Hs as [id ->]. intros _ Hun. destruct (unfolds_data d K HR _ _ _ Hun) as (Hd & _).
    intros x ->%list_elem_of_singleton. unfold inline_style_declarations. rewrite Hd. by eexists.
Qed.

Context (ua : list Rule) (Hua : ua_stylesheet = Ok ua) (styles : gmap NodeId ComputedStyle).

(** A calm node below any node shows all of its words. *)
Lemma calm_words n t ps p :
  same n t → calm n = true → unfolds d.(nodes) K t → styled d [(Ua, ua); (Author, [])] styles ps t →
  map w_text (kid_words measure styles p t) = node_words n.
Proof.
  revert t ps p; induction n as [tag attrs kids IH|s] using node_rose_ind; intros t ps p Hs.
  - pose proof Hs as (id & ts & -> & Hk)%same_El_inv. intros (Ht & Ha & Hc)%calm_El Hun Hst.
    destruct (unfolds_data d K HR _ _ _ Hun) as (Hd & _ & Hall & _).
    destruct (styled_kids _ _ _ _ _ _ _ Hst) as (_ & _ & Hkids).
    destruct Hst as [(s & Hsty & Hcomp) _]. unfold kid_words. cbn [tdata tid]. rewrite Hsty. cbn [classify_data].
    rewrite decide_False by (by eapply (unstyled_displayed d id tag attrs Hd ua)).
    case_decide.
    + apply (same_inline styles id (El tag attrs kids)). exact Hs.
    + rewrite block_words_unfold. cbn [node_words]. apply map_concat_words. clear Hs Hun Hd Hcomp Hsty.
      induction Hk as [|k t kids ts Hkt _ IHk]; [constructor|].
      apply Forall_cons in IH as [IH1 IH2], Hc as [Hc1 Hc2], Hall as [Hu1 Hu2]. constructor.
      * destruct (Hkids t) as [ps' Hps]; [by left|]. by apply (IH1 t ps').
      * apply IHk; try done. intros c Hin. apply Hkids. by right.
  - intros _ _ _. apply same_Tx_inv in Hs as [id ->]. unfold kid_words, child_inline_words. cbn [tdata tid classify_data].
    apply (same_inline styles p (Tx s)). constructor.
Qed.
End Styled.
End Words.

(** The words a frame draws, in order. *)
Definition drawn_words (f : Frame) : list (list N) :=
  omap (λ c, match c with PText _ _ text _ _ _ _ => Some text | _ => None end) f.(commands).

Lemma drawn_frame_text styles f ws :
  frame_text f = map (word_in_style styles) ws → drawn_words f = map w_text ws.
Proof.
  unfold frame_text, drawn_words. revert ws. induction (commands f) as [|c l IH]; intros ws; cbn [omap list_omap].
  { destruct ws; [done|discriminate]. }
  destruct c; cbn [text_command]; try apply IH. destruct ws as [|w ws]; [discriminate|]. cbn [map].
  intros [= Hw Hws]. f_equal; [|by apply IH]. unfold word_in_style in Hw.
  destruct (styles !! style_node w); [|discriminate]. injection Hw. congruence.
Qed.

Lemma hidden_ruled t : t ∈ HIDDEN → t ∈ RULED.
Proof.
  assert (Forall (λ t, t ∈ RULED) HIDDEN) as H by (apply (bool_decide_unpack _); vm_compute; exact I).
  rewrite Forall_forall in H. apply H.
Qed.

Lemma plain_calm n : plain n = true → unstyled n = true → calm n = true.
Proof.
  induction n as [tag attrs kids IH|s] using node_rose_ind; [|done]. cbn [plain unstyled calm].
  rewrite !andb_true_iff. intros [[[Ht _] Hk] _] [Ha Hu]. unfold plain_tag in Ht. apply andb_true_iff in Ht as [_ Ht].
  apply negb_true_iff, bool_decide_eq_false in Ht. split_and!; [|done|].
  - apply bool_decide_eq_true. intros H. by apply Ht, hidden_ruled.
  - rewrite forallb_forall in Hk, Hu |- *. rewrite Forall_forall in IH. intros k Hin.
    apply IH; [by apply list_elem_of_In|by apply Hk|by apply Hu].
Qed.

(** The tree of a parsed page. *)
Lemma page_unfolds d K f n hi :
  Rep d K → d.(doc_root) = Some n → K n = [n + 1]%N → shows d K n hi (page_tree f) (n + 1) →
  ∃ tp, unfolds d.(nodes) K (Tree n NDocument [tp]) ∧ same (page_tree f) tp.
Proof.
  intros HR Hroot HK Hs. destruct (rep_root _ _ HR) as (r & rec & Hr & Hrec & Hdt & _).
  assert (r = n) as -> by congruence. destruct (unfolds_exists _ _ HR n) as (t & Hun & Ht); [by exists rec|].
  inversion Hun as [id rec' ts Hid Hts Hall]; subst. cbn [tid] in *. rewrite HK in Hts.
  assert (rec' = rec) as -> by congruence. rewrite Hdt in Hun.
  destruct ts as [|tp [|]]; try discriminate. exists tp. split; [done|]. apply Forall_cons in Hall as [Htp _].
  injection Hts as Htid. eapply shows_same; [exact Htp|]. by rewrite Htid.
Qed.

Lemma page_calm f : plain_forest f = true → forallb unstyled f = true → calm (El (str "body") [] f) = true.
Proof.
  intros [Hp _]%andb_true_iff Hu. cbn [calm]. rewrite !andb_true_iff. split_and!; [by vm_compute|done|].
  rewrite forallb_forall in Hp, Hu |- *. intros k Hk. apply plain_calm; auto.
Qed.

Lemma page_parts f tp :
  same (page_tree f) tp →
  ∃ i ih ib tb, tp = Tree i (NElement (str "html") []) [Tree ih (NElement (str "head") []) []; tb]
    ∧ same (El (str "body") [] f) tb ∧ tid tb = ib.
Proof.
  intros (i & ts & -> & Hk)%same_El_inv. apply Forall2_cons_inv_l in Hk as (th & ts' & Hh & Hk & ->).
  apply Forall2_cons_inv_l in Hk as (tb & ts'' & Hb & ->%Forall2_nil_inv_l & ->).
  apply same_El_inv in Hh as (ih & ts & -> & ->%Forall2_nil_inv_l). by exists i, ih, (tid tb), tb.
Qed.

Lemma page_sheets f tp n : same (page_tree f) tp → calm (El (str "body") [] f) = true →
  sheet_texts (Tree n NDocument [tp]) = [].
Proof.
  intros (i & ih & ib & tb & -> & Hb & _)%page_parts Hc. cbn [sheet_texts map concat app].
  rewrite (calm_sheets _ tb Hb Hc). by vm_compute.
Qed.

Lemma page_inline d K f n tp :
  Rep d K → same (page_tree f) tp → forallb unstyled f = true → unfolds d.(nodes) K (Tree n NDocument [tp]) →
  inline_ok d (Tree n NDocument [tp]).
Proof.
  intros HR Hs Hu Hun. destruct (unfolds_data d K HR _ _ _ Hun) as (Hd & _ & [Htp _]%Forall_cons & _).
  intros x Hx. csimpl in Hx. rewrite app_nil_r in Hx. apply elem_of_cons in Hx as [->|Hx].
  - unfold inline_style_declarations. rewrite Hd. by eexists.
  - apply (unstyled_inline d K HR (page_tree f) tp Hs); [|done..]. cbn. by rewrite Hu.
Qed.

Lemma blank_page_ua : ua_stylesheet = Ok blank_page.(pg_ua).
Proof. vm_compute. reflexivity. Qed.

Section Shown.
Context (measure : list N → f64 → bool → bool → f64).

Lemma page_words d K f n tp ua styles :
  Rep d K → same (page_tree f) tp → calm (El (str "body") [] f) = true → ua_stylesheet = Ok ua →
  unfolds d.(nodes) K (Tree n NDocument [tp]) → styled d [(Ua, ua); (Author, [])] styles None (Tree n NDocument [tp]) →
  map w_text (flow_words measure styles (Tree n NDocument [tp])) = forest_words f.
Proof.
  intros HR Hs Hc Hua Hun Hst. destruct (unfolds_data d K HR _ _ _ Hun) as (_ & _ & [Htp _]%Forall_cons & _).
  destruct (styled_kids _ _ _ _ _ _ _ Hst) as (_ & _ & Hk). destruct (Hk tp) as [ps Hps]; [by left|].
  apply page_parts in Hs as (i & ih & ib & tb & -> & Hb & _).
  destruct (unfolds_data d K HR _ _ _ Htp) as (_ & _ & [_ [Htb _]%Forall_cons]%Forall_cons & _).
  destruct (styled_kids _ _ _ _ _ _ _ Hps) as (_ & _ & Hk2). destruct (Hk2 tb) as [ps2 Hps2]; [by right; left|].
  unfold flow_words. cbn [tkids List.find is_element tdata]. rewrite block_words_unfold. cbn [map concat].
  rewrite app_nil_r, map_app, (calm_words measure d K HR ua Hua styles _ tb ps2 i Hb Hc Htb Hps2).
  assert (kid_words measure styles i (Tree ih (NElement (str "head") []) []) = []) as ->; [|done].
  unfold kid_words. destruct (classify_data _ _); done.
Qed.

(** C2. End to end: loading the markup of a page of plain elements without style attributes, on
    any page with ids left, succeeds, and the frame it renders draws exactly the words of the
    page's text, in order: nothing is lost, added or reordered by parsing, styling, layout and
    painting. *)
Theorem printed_page_shown p f url :
  ua_stylesheet = Ok p.(pg_ua) → plain_forest f = true → forallb unstyled f = true →
  (next_node_id p.(pg_doc) + (4 + forest_size f) ≤ U64_MAX)%N →
  ∃ p', load_html_str measure parse_html p (page_markup f) url = Ok p' ∧ p'.(pg_url) = url
    ∧ drawn_words (render p') = forest_words f.
Proof.
  intros Hua Hf Hu Hn. destruct (page_parsed f _ Hf Hn) as (d & K & hi & Hd & HR & Hroot & HK & Hs).
  destruct (page_unfolds d K f _ hi HR Hroot HK Hs) as (tp & Hun & Hsame). pose proof (page_calm f Hf Hu) as Hc.
  pose proof (page_sheets f tp (next_node_id (pg_doc p)) Hsame Hc) as Hsh.
  destruct (load_spec measure parse_html p (page_markup f) url d K (Tree (next_node_id (pg_doc p)) NDocument [tp])
    Hd HR Hroot Hun Hua)
    as (p' & rss & Hl & _ & Hurl & Hrss & Hst & Hft).
  - rewrite Hsh. constructor.
  - by apply (page_inline d K f).
  - exists p'. split; [exact Hl|]. split; [exact Hurl|]. rewrite Hsh in Hrss. apply Forall2_nil_inv_l in Hrss as ->.
    rewrite (drawn_frame_text _ _ _ Hft). by apply (page_words d K f _ tp (pg_ua p)).
Qed.
End Shown.

Lemma printed_page_shown_witness :
  ∃ p', load_html_str (λ _ _ _ _, f64_of_Z 10) parse_html blank_page (page_markup sample_forest) None = Ok p'
    ∧ p'.(pg_url) = None ∧ drawn_words (render p') = forest_words sample_forest.
Proof.
  apply (printed_page_shown (λ _ _ _ _, f64_of_Z 10) blank_page sample_forest None).
  - apply blank_page_ua.
  - vm_compute. reflexivity.
  - vm_compute. reflexivity.
  - vm_compute. discriminate.
Defined.
