(* ===== verification/AiSnapshot.v ===== *)
(** * The AI snapshot of a page ([core/engine/src/ai_snapshot.rs], [ipc/src/ai.rs])

    The represented elements of a page in document order, each with its role, name, state, box and
    nearest represented ancestor; the child lists; and the strongest later overlap of each box. *)

From S2P Require Import Prelude Float Dom CssSelector CssCascade Layout Paint Page.

(** ** Data ([ipc/src/ai.rs]) *)
Inductive Role :=
  | Heading (level : N) | Link | Button | TextBox | CheckBox | ListRole | ListItem | Paragraph
  | Image | Generic.

Inductive NameFrom := Contents | Attribute (name : list N) | Placeholder | Title.

Record NodeState := MkNodeState {
  checked : option bool;
  disabled : bool;
  required : bool;
  selected : bool;
  ns_hovered : bool;
  ns_focused : bool;
}.

(** [blueice_ipc::Bounds] has the fields of a [Rect]. *)
Record AiNode := MkAiNode {
  ai_id : N;
  ai_parent : option N;
  ai_children : list N;
  ai_role : Role;
  ai_name : option (list N);
  ai_name_from : option NameFrom;
  ai_state : NodeState;
  ai_bounds : Rect;
  ai_opacity : spec_float;
  occluded : bool;
  occluded_by : option N;
  occluded_fraction : spec_float;
}.

Record Snapshot := MkSnapshot {
  sn_generation : N;
  sn_tab_id : N;
  sn_url : option (list N);
  sn_scroll_y : f64;
  sn_nodes : list AiNode;
}.

Definition set_children (l : list N) (n : AiNode) : AiNode :=
  MkAiNode n.(ai_id) n.(ai_parent) l n.(ai_role) n.(ai_name) n.(ai_name_from) n.(ai_state) n.(ai_bounds)
    n.(ai_opacity) n.(occluded) n.(occluded_by) n.(occluded_fraction).
Definition set_occluded (by_ : N) (fraction : spec_float) (n : AiNode) : AiNode :=
  MkAiNode n.(ai_id) n.(ai_parent) n.(ai_children) n.(ai_role) n.(ai_name) n.(ai_name_from) n.(ai_state)
    n.(ai_bounds) n.(ai_opacity) true (Some by_) fraction.

(** ** Roles *)
Definition attr (attributes : list (list N * list N)) (name : string) : option (list N) :=
  snd <$> List.find (λ kv, bool_decide (kv.1 = str name)) attributes.
Definition has_attr (attributes : list (list N * list N)) (name : string) : bool :=
  existsb (λ kv, bool_decide (kv.1 = str name)) attributes.

(** [str::parse::<u8>]: an optional plus sign, then digits. *)
Definition is_digit (c : N) : bool := (48 <=? c)%N && (c <=? 57)%N.
Definition parse_u8 (s : list N) : option N :=
  let digits := match s with 43%N :: s' => s' | _ => s end in
  if bool_decide (digits = []) || negb (forallb is_digit digits) then None
  else
    let v := foldl (λ acc c, acc * 10 + (c - 48))%N 0%N digits in
    if (v <=? 255)%N then Some v else None.

Definition heading_level (tag : list N) : option N :=
  match tag with
  | 104%N :: rest =>
      match parse_u8 rest with
      | Some l => if (1 <=? l)%N && (l <=? 6)%N then Some l else None
      | None => None
      end
  | _ => None
  end.

Definition tag_in (tag : list N) (l : list string) : bool := existsb (λ s, bool_decide (tag = str s)) l.
Definition value_in (v : option (list N)) (l : list string) : bool :=
  existsb (λ s, bool_decide (v = Some (str s))) l.

Definition infer_role (tag : list N) (attributes : list (list N * list N)) : option Role :=
  match heading_level tag with
  | Some level => Some (Heading level)
  | None =>
      let generic :=
        if bool_decide (is_Some (attr attributes "role")) || bool_decide (is_Some (attr attributes "aria-label"))
        then Some Generic else None in
      if tag_in tag ["a"%string] && bool_decide (is_Some (attr attributes "href")) then Some Link
      else if tag_in tag ["button"%string] then Some Button
      else if tag_in tag ["input"%string] then
        Some (if value_in (attr attributes "type") ["checkbox"; "radio"]%string then CheckBox
              else if value_in (attr attributes "type") ["submit"; "button"; "reset"]%string then Button
              else TextBox)
      else if tag_in tag ["textarea"%string] then Some TextBox
      else if tag_in tag ["ul"; "ol"]%string then Some ListRole
      else if tag_in tag ["li"%string] then Some ListItem
      else if tag_in tag ["p"%string] then Some Paragraph
      else if tag_in tag ["img"%string] then Some Image
      else generic
  end.

Definition has_role (dt : NodeData) : bool :=
  match dt with NElement tag attributes => bool_decide (is_Some (infer_role tag attributes)) | _ => false end.

(** ** Names *)

(** The text below a node, each text node followed by a space, except below a descendant with a
    role of its own. *)
Fixpoint collect_text (fuel : nat) (doc : Document) (node : NodeId) (is_root : bool) : res (list N) :=
  match fuel with
  | O => OutOfFuel
  | S fuel' =>
      dt ← data doc node;
      match dt with
      | NText t => Ok (t ++ [32%N])
      | _ =>
          if negb is_root && has_role dt then Ok []
          else kids ← children doc node; concat_mapM (λ c, collect_text fuel' doc c false) kids
      end
  end.

(** [join(" ")]. *)
Fixpoint join_spaces (l : list (list N)) : list N :=
  match l with
  | [] => []
  | [w] => w
  | w :: l' => w ++ 32%N :: join_spaces l'
  end.

Definition text_content (doc : Document) (node : NodeId) : res (list N) :=
  raw ← collect_text (walk_fuel doc) doc node true; Ok (join_spaces (split_whitespace raw)).

(** [None] as an empty text does not stop the search. *)
Fixpoint label_walk (fuel : nat) (doc : Document) (id_attr : list N) (node : NodeId) : res (option (list N)) :=
  match fuel with
  | O => OutOfFuel
  | S fuel' =>
      dt ← data doc node;
      let is_label :=
        match dt with
        | NElement tag attributes =>
            bool_decide (tag = str "label")
            && existsb (λ kv, bool_decide (kv.1 = str "for") && bool_decide (kv.2 = id_attr)) attributes
        | _ => false
        end in
      text ← (if is_label then text_content doc node else Ok []);
      match text with
      | [] => kids ← children doc node; find_mapM (label_walk fuel' doc id_attr) kids
      | _ => Ok (Some text)
      end
  end.

Definition find_label_text_for (doc : Document) (id_attr : list N) : res (option (list N)) :=
  r ← root doc; label_walk (walk_fuel doc) doc id_attr r.

Definition Name : Type := option (list N) * option NameFrom.
Definition named (v : option (list N)) (from : NameFrom) : Name :=
  match v with Some s => (Some s, Some from) | None => (None, None) end.

Definition compute_name (doc : Document) (node : NodeId) (tag : list N)
    (attributes : list (list N * list N)) : res Name :=
  match attr attributes "aria-label" with
  | Some label => Ok (Some label, Some (Attribute (str "aria-label")))
  | None =>
      if tag_in tag ["img"%string] then Ok (named (attr attributes "alt") (Attribute (str "alt")))
      else if tag_in tag ["input"; "textarea"]%string then
        label ← match attr attributes "id" with
                | Some id_attr => find_label_text_for doc id_attr
                | None => Ok None
                end;
        match label with
        | Some text => Ok (Some text, Some Contents)
        | None => Ok (named (attr attributes "placeholder") Placeholder)
        end
      else
        match attr attributes "title" with
        | Some title => Ok (Some title, Some Title)
        | None =>
            text ← text_content doc node;
            match text with [] => Ok (None, None) | _ => Ok (Some text, Some Contents) end
        end
  end.

(** ** Nodes *)
Definition compute_state (page : Page) (node : NodeId) (tag : list N)
    (attributes : list (list N * list N)) : NodeState :=
  MkNodeState
    (if tag_in tag ["input"%string] && value_in (attr attributes "type") ["checkbox"; "radio"]%string
     then Some (has_attr attributes "checked") else None)
    (has_attr attributes "disabled") (has_attr attributes "required")
    (tag_in tag ["option"%string] && has_attr attributes "selected")
    (bool_decide (page.(hovered) = Some node)) (bool_decide (page.(focused) = Some node)).

Definition to_ai_node (page : Page) (doc : Document) (node : NodeId) (parent : option N)
    : res (option AiNode) :=
  dt ← data doc node;
  match dt with
  | NElement tag attributes =>
      match infer_role tag attributes, find_fragment_bounds page.(pg_fragment) node f64_zero f64_zero with
      | Some role, Some bounds =>
          '(name, name_from) ← compute_name doc node tag attributes;
          let opacity := match page.(pg_styles) !! node with Some s => opacity s | None => f32_one end in
          Ok (Some (MkAiNode (as_u64 node) parent [] role name name_from
            (compute_state page node tag attributes) bounds opacity false None (f32_of_Z 0)))
      | _, _ => Ok None
      end
  | _ => Ok None
  end.

Fixpoint collect_nodes (fuel : nat) (page : Page) (doc : Document) (node : NodeId)
    (nearest_represented_ancestor : option N) (out : list AiNode) : res (list AiNode) :=
  match fuel with
  | O => OutOfFuel
  | S fuel' =>
      represented ← to_ai_node page doc node nearest_represented_ancestor;
      let next_ancestor :=
        match represented with Some n => Some n.(ai_id) | None => nearest_represented_ancestor end in
      let out := match represented with Some n => out ++ [n] | None => out end in
      kids ← children doc node;
      fold_res (λ out child, collect_nodes fuel' page doc child next_ancestor out) out kids
  end.

(** ** Child lists *)

(** The map from ids to indices: the last index of an id. *)
Definition id_to_index (nodes : list AiNode) : gmap N nat :=
  foldl (λ m in_, <[(in_.2).(ai_id) := in_.1]> m) ∅ (imap pair nodes).

Definition child_links (nodes : list AiNode) : list (nat * N) :=
  omap (λ n, p ← n.(ai_parent); pi ← id_to_index nodes !! p; Some (pi, n.(ai_id))) nodes.

Definition add_child (nodes : list AiNode) (link : nat * N) : list AiNode :=
  alter (λ n, set_children (n.(ai_children) ++ [link.2]) n) link.1 nodes.

Definition link_children (nodes : list AiNode) : list AiNode :=
  foldl add_child nodes (child_links nodes).

(** ** Occlusion *)
Definition rect_of (n : AiNode) : Rect := n.(ai_bounds).

Definition overlap_fraction (a b : Rect) : res f64 :=
  let ix0 := f64_max a.(rect_x) b.(rect_x) in
  let iy0 := f64_max a.(rect_y) b.(rect_y) in
  let ix1 := f64_min (f64_add a.(rect_x) a.(rect_width)) (f64_add b.(rect_x) b.(rect_width)) in
  let iy1 := f64_min (f64_add a.(rect_y) a.(rect_height)) (f64_add b.(rect_y) b.(rect_height)) in
  let iw := f64_max (f64_sub ix1 ix0) f64_zero in
  let ih := f64_max (f64_sub iy1 iy0) f64_zero in
  let area := f64_mul a.(rect_width) a.(rect_height) in
  if f64_leb area f64_zero then Ok f64_zero
  else f64_clamp f64_zero (f64_of_Z 1) (f64_div (f64_mul iw ih) area).

(** The loop over the later rectangles: the first of the largest positive fraction. *)
Definition occlusion_step (r : Rect) (best : option (N * f64)) (later : N * Rect) : res (option (N * f64)) :=
  fraction ← overlap_fraction r later.2;
  Ok (if f64_ltb f64_zero fraction
         && match best with None => true | Some (_, bf) => f64_ltb bf fraction end
      then Some (later.1, fraction) else best).

Definition strongest (r : Rect) (later : list (N * Rect)) : res (option (N * f64)) :=
  fold_res (occlusion_step r) None later.

(** The loop over the nodes, each against the rectangles after it. *)
Fixpoint compute_occlusion (nodes : list AiNode) : res (list AiNode) :=
  match nodes with
  | [] => Ok []
  | n :: later =>
      best ← strongest (rect_of n) (map (λ m, (m.(ai_id), rect_of m)) later);
      rest ← compute_occlusion later;
      Ok (match best with Some (o, f) => set_occluded o (f32_of_f64 f) n | None => n end :: rest)
  end.

Definition build (page : Page) (generation tab_id : N) : res Snapshot :=
  r ← root page.(pg_doc);
  nodes ← collect_nodes (walk_fuel page.(pg_doc)) page page.(pg_doc) r None [];
  nodes ← compute_occlusion (link_children nodes);
  Ok (MkSnapshot generation tab_id page.(pg_url) page.(scroll_y) nodes).

(** [Page::snapshot]. *)
Definition snapshot (page : Page) (generation tab_id : N) : res Snapshot := build page generation tab_id.
