(* ===== verification/AiSnapshotProps.v ===== *)
(** * Properties of AI snapshots

    A snapshot is total on well-formed documents; it lists the represented elements once, in
    document order, under their nearest represented ancestor; child lists agree with parents; and
    a node is occluded by the first later box of the largest overlap. *)

From S2P Require Import Prelude Float Dom DomTree DomWalk DomOps CssSelector CssCascade.
From S2P Require Import Layout LayoutProps Paint Page PageProps AiSnapshot.

Lemma fst_concat_map {A B C} (f : A → list (B * C)) (g : A → list B) l :
  (∀ x, x ∈ l → map fst (f x) = g x) → map fst (concat (map f l)) = concat (map g l).
Proof.
  induction l as [|x l IH]; intros H; [done|]. cbn [map concat]. rewrite map_app, H by left.
  f_equal. apply IH. intros y Hy. apply H. by right.
Qed.

(** ** Nearest represented ancestors, on trees *)
Section Represented.
Context (rep : NodeId → bool).

(** The represented nodes of a tree below the represented ancestor [anc], each with its nearest
    represented ancestor. *)
Fixpoint rep_pairs (anc : option NodeId) (t : tree) : list (NodeId * option NodeId) :=
  match t with
  | Tree id _ ts =>
      (if rep id then [(id, anc)] else [])
      ++ concat (map (rep_pairs (if rep id then Some id else anc)) ts)
  end.

Lemma filter_concat_map (ls : list (list NodeId)) :
  filter (λ x, rep x = true) (mjoin ls) = concat (map (filter (λ x, rep x = true)) ls).
Proof. induction ls as [|l ls IH]; [done|]. cbn [map concat]. csimpl. by rewrite filter_app, IH. Qed.

Lemma rep_pairs_ids t : ∀ anc, map fst (rep_pairs anc t) = filter (λ x, rep x = true) (ids t).
Proof.
  induction t as [id dt ts IH] using tree_rose_ind; intros anc. cbn [rep_pairs]. rewrite map_app.
  rewrite (fst_concat_map _ (λ t, filter (λ x, rep x = true) (ids t))).
  2:{ intros t Ht. rewrite Forall_forall in IH. by apply IH. }
  csimpl. rewrite filter_cons, filter_concat_map. change (ids <$> ts) with (map ids ts). rewrite map_map.
  destruct (rep id); by repeat case_decide.
Qed.

Context (d : Document) (K : NodeId → list NodeId) (HR : Rep d K).
#[local] Abbreviation E := (edge K).

(** [p] is the nearest represented proper ancestor of [x] among the nodes below [top]. *)
Definition nearest_below (top x : NodeId) (anc p : option NodeId) : Prop :=
  (p = anc ∧ ∀ b, rep b = true → rtc E top b → ¬ tc E b x)
  ∨ ∃ a, p = Some a ∧ rep a = true ∧ rtc E top a ∧ tc E a x
      ∧ ∀ b, rep b = true → rtc E top b → tc E b x → rtc E b a.

Lemma below_child id c x b :
  E id c → rtc E c x → rtc E id b → tc E b x → b = id ∨ rtc E c b.
Proof.
  intros Hc Hx Hb Hbx. apply rtc_inv in Hb as [<-|(c' & Hc' & Hb')]; [by left|right].
  destruct (decide (c' = c)) as [->|Hne]; [done|]. exfalso.
  apply (siblings_disjoint d K HR id c' c x (rep_acyclic_below d K HR id) Hc' Hc Hne); [|done]. etrans; [exact Hb'|]. by apply tc_rtc.
Qed.

Lemma rep_pairs_nearest t : ∀ anc x p,
  unfolds d.(nodes) K t → (x, p) ∈ rep_pairs anc t → nearest_below (tid t) x anc p.
Proof.
  induction t as [id dt ts IH] using tree_rose_ind. intros anc x p Hun Hin. cbn [rep_pairs tid] in *.
  apply elem_of_app in Hin as [Hin|Hin].
  { destruct (rep id); [|by apply elem_of_nil in Hin]. apply list_elem_of_singleton in Hin. injection Hin as -> ->.
    left. split; [done|]. intros b _ Hb Hbx. apply (rep_acyclic _ _ HR id). eapply tc_rtc_l; [exact Hb|exact Hbx]. }
  apply list_elem_of_In, in_concat in Hin as (l & Hl & Hin). apply in_map_iff in Hl as (c & <- & Hc).
  rewrite <-list_elem_of_In in Hc. rewrite <-list_elem_of_In in Hin.
  inversion Hun as [? r ? Hr Hts Hall]; subst. rewrite Forall_forall in IH, Hall.
  assert (E id (tid c)) as He by (unfold edge; rewrite <-Hts; by apply list_elem_of_fmap_2).
  assert (rtc E (tid c) x) as Hx.
  { apply (unfolds_ids d K c x (Hall c Hc)).
    assert (x ∈ map fst (rep_pairs (if rep id then Some id else anc) c)) as H by (by apply (list_elem_of_fmap_2 fst) in Hin).
    rewrite rep_pairs_ids in H. by apply list_elem_of_filter in H as [_ H]. }
  destruct (IH c Hc _ x p (Hall c Hc) Hin) as [[-> Hno]|(a & -> & Ha & Hca & Hax & Hnear)].
  - destruct (rep id) eqn:Eid.
    + right. exists id. split_and!; [done..|eapply tc_rtc_r; [by apply tc_once|exact Hx]|].
      intros b Hb Hib Hbx. destruct (below_child id (tid c) x b He Hx Hib Hbx) as [->|Hcb]; [done|].
      by destruct (Hno b Hb Hcb Hbx).
    + left. split; [done|]. intros b Hb Hib Hbx.
      destruct (below_child id (tid c) x b He Hx Hib Hbx) as [->|Hcb]; [congruence|]. by apply (Hno b).
  - right. exists a. split_and!; [done|done|by eapply rtc_l|done|]. intros b Hb Hib Hbx.
    destruct (below_child id (tid c) x b He Hx Hib Hbx) as [->|Hcb]; [by eapply rtc_l|by apply Hnear].
Qed.
End Represented.

(** ** Totality *)
Section Total.
Context (d : Document) (K : NodeId → list NodeId) (HR : Rep d K).

Lemma mapM_is_Ok {A B} (f : A → res B) l : (∀ x, x ∈ l → is_Ok (f x)) → is_Ok (mapM f l).
Proof.
  induction l as [|x l IH]; intros H; [by eexists|]. cbn.
  destruct (H x) as [y ->]; [by left|]. cbn. destruct IH as [ys ->]; [intros; apply H; by right|]. by eexists.
Qed.

Lemma concat_mapM_is_Ok {A B} (f : A → res (list B)) l : (∀ x, x ∈ l → is_Ok (f x)) → is_Ok (concat_mapM f l).
Proof. intros H. unfold concat_mapM. destruct (mapM_is_Ok f l H) as [ys ->]. by eexists. Qed.

Lemma find_mapM_is_Ok {A B} (f : A → res (option B)) l : (∀ x, x ∈ l → is_Ok (f x)) → is_Ok (find_mapM f l).
Proof.
  induction l as [|x l IH]; intros H; [by eexists|]. cbn [find_mapM].
  destruct (H x) as [[b|] ->]; [by left| |]; cbn [mbind res_bind]; [by eexists|]. apply IH. intros; apply H; by right.
Qed.

(** A recursive walk over the children of a node. *)
Lemma kids_is_Ok {A} (f : NodeId → res A) ts id dt fuel :
  unfolds d.(nodes) K (Tree id dt ts) → length (ids (Tree id dt ts)) ≤ S fuel →
  Forall (λ t, unfolds d.(nodes) K t → length (ids t) ≤ fuel → is_Ok (f (tid t))) ts →
  ∀ c, c ∈ map tid ts → is_Ok (f c).
Proof.
  intros Hun Hlen IH c Hc. change (map tid ts) with (tid <$> ts) in Hc. apply list_elem_of_fmap in Hc as (t & -> & Ht).
  destruct (unfolds_data d K HR id dt ts Hun) as (_ & _ & Hall & _). rewrite Forall_forall in IH, Hall.
  apply IH; [done|by apply Hall|]. pose proof (length_ids_kid t ts Ht). csimpl in Hlen. lia.
Qed.

Lemma collect_text_ok t : ∀ fuel top,
  unfolds d.(nodes) K t → length (ids t) ≤ fuel → is_Ok (collect_text fuel d (tid t) top).
Proof.
  induction t as [id dt ts IH] using tree_rose_ind. intros fuel top Hun Hlen.
  destruct (unfolds_data d K HR id dt ts Hun) as (Hd & Hc & _).
  destruct fuel as [|fuel]; [csimpl in Hlen; lia|]. cbn [collect_text tid]. rewrite Hd. cbn [mbind res_bind].
  assert (is_Ok (kids ← children d id; concat_mapM (λ c, collect_text fuel d c false) kids)) as Hk.
  { rewrite Hc. cbn [mbind res_bind]. apply concat_mapM_is_Ok.
    apply (kids_is_Ok (λ c, collect_text fuel d c false) ts id dt fuel Hun Hlen).
    eapply Forall_impl; [exact IH|]. cbn. auto. }
  destruct dt; [| |by eexists]; (case_match; [by eexists|exact Hk]).
Qed.

Lemma text_content_ok x : live d x → is_Ok (text_content d x).
Proof.
  intros Hl. destruct (unfolds_exists d K HR x Hl) as (t & Ht & <-). unfold text_content.
  destruct (collect_text_ok t (walk_fuel d) true Ht) as [s ->]; [|by eexists].
  pose proof (unfolds_size _ _ HR _ Ht). unfold walk_fuel. lia.
Qed.

Lemma label_walk_ok id_attr t : ∀ fuel,
  unfolds d.(nodes) K t → length (ids t) ≤ fuel → is_Ok (label_walk fuel d id_attr (tid t)).
Proof.
  induction t as [id dt ts IH] using tree_rose_ind. intros fuel Hun Hlen.
  destruct (unfolds_data d K HR id dt ts Hun) as (Hd & Hc & _ & Hl).
  destruct fuel as [|fuel]; [csimpl in Hlen; lia|]. cbn [label_walk tid]. rewrite Hd. cbn [mbind res_bind]. cbv zeta.
  match goal with |- context [if ?b then text_content d id else _] => assert (is_Ok (if b then text_content d id else Ok [])) as [s ->] end.
  { case_match; [by apply text_content_ok|by eexists]. }
  cbn [mbind res_bind]. destruct s; [|by eexists]. rewrite Hc. cbn [mbind res_bind].
  apply find_mapM_is_Ok. apply (kids_is_Ok _ ts id dt fuel Hun Hlen).
  eapply Forall_impl; [exact IH|]. cbn. auto.
Qed.

Lemma compute_name_ok x tag attributes : live d x → is_Ok (compute_name d x tag attributes).
Proof.
  intros Hl. unfold compute_name. destruct (attr _ "aria-label"); [by eexists|]. case_match; [by eexists|]. case_match.
  - assert (is_Ok (match attr attributes "id" with Some i => find_label_text_for d i | None => Ok None end)) as [o ->].
    { destruct (attr _ "id") as [i|]; [|by eexists]. unfold find_label_text_for, root.
      destruct (rep_root _ _ HR) as (r & rec & -> & Hrec & _). cbn [unwrap mbind res_bind].
      destruct (unfolds_exists d K HR r) as (t & Ht & <-); [by exists rec|]. apply label_walk_ok; [done|].
      pose proof (unfolds_size _ _ HR _ Ht). unfold walk_fuel. lia. }
    cbn [mbind res_bind]. destruct o; by eexists.
  - destruct (attr _ "title"); [by eexists|]. destruct (text_content_ok x Hl) as [s ->]. cbn [mbind res_bind].
    destruct s; by eexists.
Qed.

(** *** Which nodes are represented *)

(** An entry before the child lists and the occlusion are computed. *)
Definition unlinked (n : AiNode) : Prop :=
  n.(ai_children) = [] ∧ n.(occluded) = false ∧ n.(occluded_by) = None.

Context (page : Page).

(** An element with a role and a box. *)
Definition represented (x : NodeId) : bool :=
  match data d x with
  | Ok dt => has_role dt && bool_decide (is_Some (find_fragment_bounds page.(pg_fragment) x f64_zero f64_zero))
  | _ => false
  end.

Lemma to_ai_node_spec x anc :
  live d x → ∃ o, to_ai_node page d x anc = Ok o
    ∧ if represented x then ∃ n, o = Some n ∧ n.(ai_id) = x ∧ n.(ai_parent) = anc ∧ unlinked n else o = None.
Proof.
  intros Hl. pose proof Hl as [r Hr]. unfold to_ai_node, represented.
  assert (data d x = Ok r.(r_data)) as -> by (unfold data, index; by rewrite Hr). cbn [mbind res_bind].
  destruct (r_data r) as [|tag attributes|s]; cbn [has_role]; try by eexists.
  destruct (infer_role tag attributes) as [role|]; [|by eexists].
  destruct (find_fragment_bounds _ _ _ _) as [b|]; [|by eexists].
  destruct (compute_name_ok x tag attributes Hl) as [[nm nf] ->]. cbn [mbind res_bind].
  eexists. split; [done|]. cbn. by eexists.
Qed.

Definition pair_of (n : AiNode) : NodeId * option NodeId := (n.(ai_id), n.(ai_parent)).

(** What one call of [collect_nodes] adds to the list. *)
Definition collects (t : tree) : Prop := ∀ fuel anc out,
  unfolds d.(nodes) K t → length (ids t) ≤ fuel →
  ∃ l, collect_nodes fuel page d (tid t) anc out = Ok (out ++ l)
    ∧ map pair_of l = rep_pairs represented anc t ∧ Forall unlinked l.

Lemma collect_nodes_kids ts fuel anc out :
  Forall collects ts → Forall (unfolds d.(nodes) K) ts → length (mjoin (ids <$> ts)) ≤ fuel →
  ∃ l, fold_res (λ out child, collect_nodes fuel page d child anc out) out (map tid ts) = Ok (out ++ l)
    ∧ map pair_of l = concat (map (rep_pairs represented anc) ts) ∧ Forall unlinked l.
Proof.
  revert out; induction ts as [|t ts IH]; intros out Hc Hun Hlen.
  { exists []. split; [by rewrite app_nil_r|]. split; [done|constructor]. }
  apply Forall_cons in Hc as [Hc1 Hc2], Hun as [Hu1 Hu2]. csimpl in Hlen. rewrite length_app in Hlen.
  cbn [map fold_res]. destruct (Hc1 fuel anc out Hu1) as (l1 & -> & H1 & F1); [lia|]. cbn [mbind res_bind].
  destruct (IH (out ++ l1) Hc2 Hu2) as (l2 & -> & H2 & F2); [lia|].
  exists (l1 ++ l2). rewrite app_assoc. split; [done|]. cbn [map concat]. rewrite map_app, H1, H2.
  split; [done|]. by apply Forall_app.
Qed.

Lemma collect_nodes_spec t : collects t.
Proof.
  induction t as [id dt ts IH] using tree_rose_ind. intros fuel anc out Hun Hlen.
  destruct (unfolds_data d K HR id dt ts Hun) as (_ & Hc & Hall & Hl). csimpl in Hlen.
  destruct fuel as [|fuel]; [lia|]. cbn [collect_nodes tid rep_pairs].
  destruct (to_ai_node_spec id anc Hl) as (o & -> & Ho). cbn [mbind res_bind]. cbv zeta.
  rewrite Hc. cbn [mbind res_bind]. destruct (represented id).
  - destruct Ho as (n & -> & Hid & Hp & Hch). rewrite Hid.
    destruct (collect_nodes_kids ts fuel (Some id) (out ++ [n]) IH Hall) as (l & -> & Hm & Hf); [lia|].
    exists (n :: l). rewrite <-app_assoc. split; [done|]. cbn [map app]. rewrite Hm. unfold pair_of at 1.
    rewrite Hid, Hp. split; [done|]. by constructor.
  - subst o. destruct (collect_nodes_kids ts fuel anc out IH Hall) as (l & -> & Hm & Hf); [lia|].
    exists l. cbn [app]. done.
Qed.
End Total.

(** ** Child lists *)
Lemma id_to_index_from nodes (m : gmap N nat) k p i :
  NoDup (map ai_id nodes) → (∀ q j, m !! q = Some j → j < k ∧ q ∉ map ai_id nodes) →
  foldl (λ m in_, <[(in_.2).(ai_id) := in_.1]> m) m (imap (λ j n, (k + j, n)) nodes) !! p = Some i ↔
  m !! p = Some i ∨ ∃ j n, i = k + j ∧ nodes !! j = Some n ∧ n.(ai_id) = p.
Proof.
  revert m k; induction nodes as [|a nodes IH]; intros m k Hnd Hm.
  { cbn. split; [by left|]. intros [?|(j & n & _ & H & _)]; [done|]. by rewrite lookup_nil in H. }
  cbn [map] in Hnd. apply NoDup_cons in Hnd as [Ha Hnd]. cbn [imap foldl fst snd]. rewrite Nat.add_0_r.
  rewrite (imap_ext ((λ j n, (k + j, n)) ∘ S) (λ j n, (S k + j, n))) by (intros j x _; unfold compose; f_equal; lia).
  rewrite IH; [|done|].
  2:{ intros q j. rewrite lookup_insert_Some. intros [[<- <-]|[Hne [Hj Hq]%Hm]]; [split; [lia|done]|].
      split; [lia|]. cbn [map] in Hq. set_solver. }
  rewrite lookup_insert_Some. split.
  - intros [[[<- <-]|[_ Hmp]]|(j & n & -> & Hj & Hid)]; [right|by left|right].
    + exists 0, a. by rewrite Nat.add_0_r.
    + exists (S j), n. split; [lia|done].
  - intros [Hmp|(j & n & -> & Hj & Hid)].
    + left. right. split; [|done]. intros <-. destruct (Hm _ _ Hmp) as [_ Hnin]. cbn in Hnin. set_solver.
    + destruct j as [|j]; cbn in Hj.
      * injection Hj as ->. left. left. split; [done|lia].
      * right. exists j, n. split; [lia|done].
Qed.

Lemma id_to_index_spec nodes p i :
  NoDup (map ai_id nodes) → id_to_index nodes !! p = Some i ↔ ∃ n, nodes !! i = Some n ∧ n.(ai_id) = p.
Proof.
  intros Hnd. unfold id_to_index. change (imap pair nodes) with (imap (λ j n, (0 + j, n)) nodes).
  rewrite id_to_index_from; [|done|intros q j H; by rewrite lookup_empty in H].
  rewrite lookup_empty. split; [intros [?|(j & n & -> & ?)]; [done|by exists n]|intros (n & H); right; by exists i, n].
Qed.

Lemma add_child_lookup links nodes i :
  foldl add_child nodes links !! i
  = (λ n, set_children (n.(ai_children) ++ omap (λ l, if decide (l.1 = i) then Some l.2 else None) links) n) <$> nodes !! i.
Proof.
  revert nodes; induction links as [|[k c] links IH]; intros nodes; cbn [foldl].
  { destruct (nodes !! i) as [n|]; [|done]. cbn. by rewrite app_nil_r; destruct n. }
  rewrite IH. unfold add_child at 1. cbn [fst snd omap list_omap]. destruct (decide (k = i)) as [->|Hne].
  - rewrite list_lookup_alter_eq. destruct (nodes !! i) as [n|]; [|done]. cbn. by rewrite <-app_assoc.
  - rewrite list_lookup_alter_ne by done. by destruct (nodes !! i).
Qed.

(** The children of a node are, in order, the nodes that name it as their parent. *)
Definition children_in (nodes : list AiNode) (n : AiNode) : list N :=
  map ai_id (filter (λ m, m.(ai_parent) = Some n.(ai_id)) nodes).

Lemma child_links_of nodes i n l :
  NoDup (map ai_id nodes) → nodes !! i = Some n →
  omap (λ k, if decide (k.1 = i) then Some k.2 else None)
    (omap (λ m, p ← m.(ai_parent); pi ← id_to_index nodes !! p; Some (pi, m.(ai_id))) l)
  = map ai_id (filter (λ m, m.(ai_parent) = Some n.(ai_id)) l).
Proof.
  intros Hnd Hn. induction l as [|m l IH]; [done|]. cbn [omap list_omap]. rewrite filter_cons.
  destruct (ai_parent m) as [p|]; cbn [mbind option_bind]; [|by rewrite decide_False].
  destruct (id_to_index nodes !! p) as [pi|] eqn:Ep; cbn [mbind option_bind].
  - apply (id_to_index_spec nodes p pi Hnd) in Ep as (q & Hq & <-). cbn [omap list_omap fst snd].
    destruct (decide (pi = i)) as [->|Hne].
    + rewrite Hn in Hq. injection Hq as ->. rewrite decide_True by done. cbn [map]. by rewrite IH.
    + rewrite decide_False; [exact IH|]. intros [= Hid]. apply Hne.
      apply (NoDup_lookup (map ai_id nodes) pi i (ai_id q)); [done| |]; change (map ai_id nodes) with (ai_id <$> nodes);
        rewrite list_lookup_fmap, ?Hq, ?Hn; cbn; [done|by rewrite Hid].
  - rewrite decide_False; [exact IH|]. intros [= ->].
    assert (id_to_index nodes !! n.(ai_id) = Some i) by (apply id_to_index_spec; [done|by exists n]). congruence.
Qed.

Lemma link_children_spec nodes :
  NoDup (map ai_id nodes) → Forall unlinked nodes →
  link_children nodes = map (λ n, set_children (children_in nodes n) n) nodes.
Proof.
  intros Hnd Hc. apply list_eq. intros i. unfold link_children. rewrite add_child_lookup.
  change (map (λ n, set_children (children_in nodes n) n) nodes) with ((λ n, set_children (children_in nodes n) n) <$> nodes).
  rewrite list_lookup_fmap. destruct (nodes !! i) as [n|] eqn:Hn; [|done]. cbn. f_equal. f_equal.
  rewrite Forall_forall in Hc. rewrite (proj1 (Hc n (list_elem_of_lookup_2 _ _ _ Hn))). cbn [app].
  by apply child_links_of.
Qed.

(** ** Occlusion *)
Lemma CompOpp_inv c c' : CompOpp c = c' → c = CompOpp c'.
Proof. by intros <-; destruct c. Qed.

Ltac compare_lia :=
  repeat match goal with
  | H : CompOpp _ = _ |- _ => apply CompOpp_inv in H; cbn [CompOpp] in H
  | H : _ = Eq |- _ => first [apply Z.compare_eq in H | apply Pos.compare_eq in H]; subst
  | H : _ = Lt |- _ => first [apply (proj1 (Z.compare_lt_iff _ _)) in H | apply (proj1 (Pos.compare_lt_iff _ _)) in H]
  | H : _ = Gt |- _ => first [apply (proj1 (Z.compare_gt_iff _ _)) in H | apply (proj1 (Pos.compare_gt_iff _ _)) in H]
  end; lia.

Lemma f64_ltb_trans x y z : f64_ltb x y = true → f64_ltb y z = true → f64_ltb x z = true.
Proof.
  unfold f64_ltb, SFltb. destruct x as [[]|[]| |[] mx ex], y as [[]|[]| |[] my ey], z as [[]|[]| |[] mz ez];
    cbn; try done; repeat (case_match; try done); intros; subst; try done; compare_lia.
Qed.

Lemma f64_ltb_irrefl x : f64_ltb x x = false.
Proof.
  unfold f64_ltb, SFltb. destruct x as [[]|[]| |[] mx ex]; cbn; try done; rewrite Z.compare_refl;
    change (PosDef.Pos.compare_cont Eq mx mx) with (Pos.compare mx mx); by rewrite Pos.compare_refl.
Qed.

(** A number that is not above the smaller of two is below the larger. *)
Lemma f64_ltb_between g x y :
  f64_ltb f64_zero g = true → f64_ltb x g = false → f64_ltb x y = true → f64_ltb g y = true.
Proof.
  unfold f64_ltb, SFltb. destruct g as [[]|[]| |[] mg eg], x as [[]|[]| |[] mx ex], y as [[]|[]| |[] my ey];
    cbn; try done; repeat (case_match; try done); intros; subst; try done; compare_lia.
Qed.

Lemma overlap_fraction_ok a b : is_Ok (overlap_fraction a b).
Proof. unfold overlap_fraction. cbv zeta. case_match; [by eexists|]. unfold f64_clamp. rewrite (eq_refl : f64_leb f64_zero (f64_of_Z 1) = true). by eexists. Qed.

(** [f] is the first of the largest positive overlaps of [r] with [later]. *)
Definition first_strongest (r : Rect) (later : list (N * Rect)) (best : option (N * f64)) : Prop :=
  match best with
  | None => ∀ o b, (o, b) ∈ later → ∃ g, overlap_fraction r b = Ok g ∧ f64_ltb f64_zero g = false
  | Some (o, f) =>
      ∃ l1 b l2, later = l1 ++ (o, b) :: l2 ∧ overlap_fraction r b = Ok f ∧ f64_ltb f64_zero f = true
        ∧ (∀ o' b', (o', b') ∈ l1 → ∃ g, overlap_fraction r b' = Ok g ∧ (f64_ltb f64_zero g = false ∨ f64_ltb g f = true))
        ∧ (∀ o' b', (o', b') ∈ l2 → ∃ g, overlap_fraction r b' = Ok g ∧ (f64_ltb f64_zero g = false ∨ f64_ltb f g = false))
  end.

Lemma fold_res_snoc {A B} (f : B → A → res B) acc l x :
  fold_res f acc (l ++ [x]) = (y ← fold_res f acc l; f y x).
Proof.
  revert acc; induction l as [|y l IH]; intros acc; cbn; [by destruct (f acc x)|].
  destruct (f acc y); cbn; [apply IH|done..].
Qed.

Lemma strongest_spec r later : ∃ best, strongest r later = Ok best ∧ first_strongest r later best.
Proof.
  unfold strongest. rewrite <-(rev_involutive later).
  induction (rev later) as [|[o b] l IH]; [exists None; split; [done|intros ? ? H; by apply elem_of_nil in H]|].
  cbn [rev]. destruct IH as (best & Hb & Hs).
  rewrite fold_res_snoc, Hb. cbn [mbind res_bind]. unfold occlusion_step. cbn [fst snd].
  destruct (overlap_fraction_ok r b) as [f Hf]. rewrite Hf. cbn [mbind res_bind]. eexists. split; [reflexivity|].
  destruct (f64_ltb f64_zero f) eqn:Epos; cbn [andb].
  2:{ destruct best as [[o' f']|]; cbn [first_strongest] in *.
      - destruct Hs as (l1 & b' & l2 & -> & H1 & H2 & H3 & H4). exists l1, b', (l2 ++ [(o, b)]).
        rewrite <-app_assoc. split_and!; [done..|]. intros o1 b1 [Hin|Hin]%elem_of_app; [by eapply H4|].
        apply list_elem_of_singleton in Hin. injection Hin as -> ->. exists f. auto.
      - intros o1 b1 [Hin|Hin]%elem_of_app; [by eapply Hs|].
        apply list_elem_of_singleton in Hin. injection Hin as -> ->. by exists f. }
  destruct best as [[o' f']|]; cbn [first_strongest] in *.
  - destruct Hs as (l1 & b' & l2 & Hl & H1 & H2 & H3 & H4). destruct (f64_ltb f' f) eqn:Elt; cbn [first_strongest].
    + exists (rev l), b, []. split_and!; [done..| |intros ? ? H; by apply elem_of_nil in H].
      intros o1 b1 Hin. rewrite Hl in Hin. apply elem_of_app in Hin as [Hin|[[= -> ->]|Hin]%elem_of_cons].
      * destruct (H3 _ _ Hin) as (g & Hg & [?|Hlt]); exists g; split; [done|by left|done|]. right. by eapply f64_ltb_trans.
      * exists f'. split; [done|by right].
      * destruct (H4 _ _ Hin) as (g & Hg & [?|Hge]); exists g; (split; [done|]); [by left|].
        destruct (f64_ltb f64_zero g) eqn:Eg; [right|by left]. by eapply f64_ltb_between.
    + exists l1, b', (l2 ++ [(o, b)]). rewrite Hl, <-app_assoc. split_and!; [done..|].
      intros o1 b1 [Hin|Hin]%elem_of_app; [by eapply H4|]. apply list_elem_of_singleton in Hin. injection Hin as -> ->.
      exists f. auto.
  - exists (rev l), b, []. split_and!; [done..| |intros ? ? H; by apply elem_of_nil in H].
    intros o1 b1 Hin. destruct (Hs _ _ Hin) as (g & Hg & ?). exists g. auto.
Qed.

Definition labelled (nodes : list AiNode) : list (N * Rect) := map (λ m, (m.(ai_id), rect_of m)) nodes.

Definition with_occluder (best : option (N * f64)) (n : AiNode) : AiNode :=
  match best with Some (o, f) => set_occluded o (f32_of_f64 f) n | None => n end.

Lemma with_occluder_fields best n :
  let n' := with_occluder best n in
  n'.(ai_id) = n.(ai_id) ∧ n'.(ai_parent) = n.(ai_parent) ∧ n'.(ai_children) = n.(ai_children) ∧ rect_of n' = rect_of n.
Proof. by destruct best as [[]|]. Qed.

Lemma compute_occlusion_spec nodes :
  ∃ bests, compute_occlusion nodes = Ok (zip_with with_occluder bests nodes) ∧ length bests = length nodes
    ∧ ∀ i n, nodes !! i = Some n → ∃ best, bests !! i = Some best ∧ first_strongest (rect_of n) (labelled (drop (S i) nodes)) best.
Proof.
  induction nodes as [|n nodes (bests & Hc & Hl & IH)]; [by exists []|]. cbn [compute_occlusion].
  destruct (strongest_spec (rect_of n) (labelled nodes)) as (best & Hb & Hs). unfold labelled in Hb. rewrite Hb.
  cbn [mbind res_bind]. rewrite Hc. cbn [mbind res_bind]. exists (best :: bests). split; [done|].
  split; [cbn; by f_equal|]. intros [|i] m Hm; [|by apply IH]. injection Hm as <-. by exists best.
Qed.

Lemma map_with_occluder {A} (f : AiNode → A) bests nodes :
  length bests = length nodes → (∀ best n, f (with_occluder best n) = f n) →
  map f (zip_with with_occluder bests nodes) = map f nodes.
Proof.
  revert bests; induction nodes as [|n nodes IH]; intros [|b bests] Hl Hf; try done. cbn [zip_with map].
  rewrite Hf, IH; [done|by injection Hl|done].
Qed.

Lemma overlap_fraction_le_1 a b f : overlap_fraction a b = Ok f → f64_ltb (f64_of_Z 1) f = false.
Proof.
  unfold overlap_fraction. cbv zeta. case_match; [by intros <-%Ok_inj|]. unfold f64_clamp.
  rewrite (eq_refl : f64_leb f64_zero (f64_of_Z 1) = true). case_match; [by intros <-%Ok_inj|].
  case_match; intros <-%Ok_inj; [by vm_compute|done].
Qed.

Lemma with_occluder_occluded best n :
  n.(occluded) = false → n.(occluded_by) = None →
  (with_occluder best n).(occluded) = bool_decide (is_Some best) ∧ (with_occluder best n).(occluded_by) = fst <$> best.
Proof. by destruct best as [[]|]. Qed.

(** ** Theorems *)
Definition nearest_represented (d : Document) (K : NodeId → list NodeId) (page : Page) (x : NodeId) (p : option NodeId) : Prop :=
  match p with
  | Some a => represented d page a = true ∧ tc (edge K) a x
              ∧ ∀ b, represented d page b = true → tc (edge K) b x → rtc (edge K) b a
  | None => ∀ b, represented d page b = true → ¬ tc (edge K) b x
  end.

Section Snapshot.
Context (page : Page).
Let d := page.(pg_doc).

(** The list before occlusion. *)
Lemma linked_nodes K t :
  Rep d K → d.(doc_root) = Some (tid t) → unfolds d.(nodes) K t →
  ∃ l, collect_nodes (walk_fuel d) page d (tid t) None [] = Ok l
    ∧ map pair_of l = rep_pairs (represented d page) None t ∧ map ai_id l = filter (λ x, represented d page x = true) (ids t)
    ∧ link_children l = map (λ n, set_children (children_in l n) n) l ∧ Forall unlinked l.
Proof.
  intros HR Hr Hun. pose proof (unfolds_size _ _ HR _ Hun) as Hsz.
  destruct (collect_nodes_spec d K HR page t (walk_fuel d) None [] Hun) as (l & Hl & Hp & Hc); [unfold walk_fuel; lia|].
  exists l. split; [exact Hl|]. split; [done|].
  assert (map ai_id l = filter (λ x, represented d page x = true) (ids t)) as Hids.
  { rewrite <-(rep_pairs_ids _ t None), <-Hp, map_map. done. }
  split; [done|]. split; [|done]. apply link_children_spec; [|done]. rewrite Hids. apply NoDup_filter. by apply (unfolds_NoDup d K HR).
Qed.

Lemma pairs_nearest K t x p :
  Rep d K → d.(doc_root) = Some (tid t) → unfolds d.(nodes) K t →
  (x, p) ∈ rep_pairs (represented d page) None t → nearest_represented d K page x p.
Proof.
  intros HR Hr Hun Hin. assert (∀ b, represented d page b = true → tc (edge K) b x → rtc (edge K) (tid t) b) as Htop.
  { intros b _ Hb. assert (x ∈ ids t) as Hx.
    { apply (list_elem_of_fmap_2 fst) in Hin. change (fst <$> ?l) with (map fst l) in Hin.
      rewrite rep_pairs_ids in Hin. by apply list_elem_of_filter in Hin as [_ ?]. }
    apply (unfolds_ids d K t x Hun) in Hx. destruct (rep_paths_nested _ _ HR _ _ _ Hx (tc_rtc _ _ Hb)) as [?|Hbt]; [done|].
    apply rtc_inv_r in Hbt as [->|(q & _ & Hq)]; [done|]. by destruct (rep_child_not_root d K q (tid t) HR Hq). }
  destruct (rep_pairs_nearest _ d K HR t None x p Hun Hin) as [[-> Hno]|(a & -> & Ha & _ & Hax & Hnear)]; cbn.
  - intros b Hb Hbx. by apply (Hno b Hb (Htop b Hb Hbx)).
  - split_and!; [done..|]. intros b Hb Hbx. by apply (Hnear b Hb (Htop b Hb Hbx)).
Qed.

(** What [build] returns, in terms of the list before occlusion. *)
Lemma snapshot_nodes K t generation tab_id :
  Rep d K → d.(doc_root) = Some (tid t) → unfolds d.(nodes) K t →
  ∃ l bests, collect_nodes (walk_fuel d) page d (tid t) None [] = Ok l
    ∧ map pair_of l = rep_pairs (represented d page) None t
    ∧ map ai_id l = filter (λ x, represented d page x = true) (ids t) ∧ Forall unlinked l
    ∧ let linked := map (λ n, set_children (children_in l n) n) l in
      snapshot page generation tab_id
        = Ok (MkSnapshot generation tab_id page.(pg_url) page.(scroll_y) (zip_with with_occluder bests linked))
      ∧ length bests = length linked
      ∧ ∀ i n, linked !! i = Some n →
        ∃ best, bests !! i = Some best ∧ first_strongest (rect_of n) (labelled (drop (S i) linked)) best.
Proof.
  intros HR Hr Hun. destruct (linked_nodes K t HR Hr Hun) as (l & Hl & Hp & Hids & Hlink & Hun').
  destruct (compute_occlusion_spec (map (λ n, set_children (children_in l n) n) l)) as (bests & Hc & Hlen & Hs).
  exists l, bests. split_and!; [done..|]. cbv zeta. split_and!; [|done..]. unfold snapshot, build.
  fold d. unfold root. rewrite Hr. cbn [unwrap mbind res_bind]. rewrite Hl. cbn [mbind res_bind].
  by rewrite Hlink, Hc.
Qed.
End Snapshot.

(** C39. On a well-formed document a snapshot is always produced.  It lists the represented elements,
    those with a role and a box, each once and in document order; the parent of an entry is its
    nearest represented ancestor in the document; and the children of an entry are, in document
    order, the entries that name it as their parent. *)
Theorem snapshot_structure page generation tab_id :
  WF page.(pg_doc) →
  ∃ K t s, Rep page.(pg_doc) K ∧ unfolds page.(pg_doc).(nodes) K t ∧ page.(pg_doc).(doc_root) = Some (tid t)
    ∧ snapshot page generation tab_id = Ok s
    ∧ map ai_id s.(sn_nodes) = filter (λ x, represented page.(pg_doc) page x = true) (ids t)
    ∧ ∀ n, n ∈ s.(sn_nodes) →
        nearest_represented page.(pg_doc) K page n.(ai_id) n.(ai_parent)
        ∧ n.(ai_children) = map ai_id (filter (λ m, m.(ai_parent) = Some n.(ai_id)) s.(sn_nodes)).
Proof.
  intros [K HR]. destruct (rep_root _ _ HR) as (r & rec & Hroot & Hrec & _).
  destruct (unfolds_exists _ _ HR r) as (t & Hun & <-); [by exists rec|].
  destruct (snapshot_nodes page K t generation tab_id HR Hroot Hun) as (l & bests & _ & Hp & Hids & _ & Hs & Hlen & _).
  eexists K, t, _. split_and!; [done..|exact Hs| |]; cbn [sn_nodes].
  { rewrite map_with_occluder, map_map by (done || by intros [[]|]). exact Hids. }
  set (linked := map (λ n, set_children (children_in l n) n) l) in *.
  assert (∀ a, map ai_id (filter (λ m, m.(ai_parent) = Some a) (zip_with with_occluder bests linked))
               = map ai_id (filter (λ m, m.(ai_parent) = Some a) l)) as Hkids.
  { intros a. assert (∀ l1 l2, map pair_of l1 = map pair_of l2 →
      map ai_id (filter (λ m, m.(ai_parent) = Some a) l1) = map ai_id (filter (λ m, m.(ai_parent) = Some a) l2)) as Hext.
    { intros l1. induction l1 as [|n1 l1 IH]; intros [|n2 l2] H; try done. cbn [map] in H.
      injection H as E1 E2 H1. rewrite !filter_cons, E2. case_decide; cbn [map]; [rewrite E1; f_equal|]; apply (IH l2 H1). }
    apply Hext. rewrite map_with_occluder by (done || by intros [[]|]). unfold linked. rewrite map_map. done. }
  intros n Hn. apply list_elem_of_lookup in Hn as (i & Hi). apply lookup_zip_with_Some in Hi as (best & m & -> & _ & Hm).
  destruct (with_occluder_fields best m) as (-> & -> & -> & _). unfold linked in Hm.
  change (map ?f l) with (f <$> l) in Hm. rewrite list_lookup_fmap in Hm. destruct (l !! i) as [n0|] eqn:Hn0; [|done].
  injection Hm as <-. cbn [ai_id ai_parent ai_children set_children]. split; [|by rewrite Hkids].
  eapply pairs_nearest; [done..|]. rewrite <-Hp. apply (list_elem_of_fmap_2 pair_of l n0). by eapply list_elem_of_lookup_2.
Qed.

(** An entry of a snapshot is marked occluded exactly when the box of a later entry overlaps
    its own; the occluder is the first later entry of the largest overlap, and the fraction
    recorded is that overlap, which is in [0, 1]. *)
Theorem snapshot_occlusion page generation tab_id s i n :
  WF page.(pg_doc) → snapshot page generation tab_id = Ok s → s.(sn_nodes) !! i = Some n →
  ∃ best, first_strongest n.(ai_bounds) (labelled (drop (S i) s.(sn_nodes))) best
    ∧ n.(occluded) = bool_decide (is_Some best) ∧ n.(occluded_by) = fst <$> best
    ∧ match best with
      | Some (_, f) => n.(occluded_fraction) = f32_of_f64 f ∧ f64_ltb (f64_of_Z 1) f = false
      | None => True
      end.
Proof.
  intros [K HR] Hsn Hi. destruct (rep_root _ _ HR) as (r & rec & Hroot & Hrec & _).
  destruct (unfolds_exists _ _ HR r) as (t & Hun & <-); [by exists rec|].
  destruct (snapshot_nodes page K t generation tab_id HR Hroot Hun) as (l & bests & _ & _ & _ & Hul & Hs & Hlen & Hocc).
  rewrite Hsn in Hs. apply Ok_inj in Hs as ->. cbn [sn_nodes] in *.
  apply lookup_zip_with_Some in Hi as (best & m & -> & Hb & Hm). destruct (Hocc i m Hm) as (best' & Hb' & Hfs).
  assert (best' = best) as -> by congruence. exists best.
  destruct (with_occluder_fields best m) as (_ & _ & _ & Hrect). unfold rect_of at 1 in Hrect. rewrite Hrect.
  unfold labelled in *. rewrite <-skipn_map, map_with_occluder by (done || by intros [[]|]).
  rewrite skipn_map. split; [exact Hfs|]. change (map ?f l) with (f <$> l) in Hm. rewrite list_lookup_fmap in Hm.
  destruct (l !! i) as [n0|] eqn:Hn0; [|done]. injection Hm as <-. rewrite Forall_forall in Hul.
  destruct (Hul n0 (list_elem_of_lookup_2 _ _ _ Hn0)) as (_ & Ho & Hby).
  destruct (with_occluder_occluded best (set_children (children_in l n0) n0)) as [-> ->]; [done..|].
  split_and!; [done..|]. destruct best as [[o f]|]; [|done]. split; [done|].
  destruct Hfs as (l1 & b & l2 & _ & Hf & _). by apply overlap_fraction_le_1 in Hf.
Qed.

(** ** A page to look at *)
Definition frag (x : N) (l t w h : Z) (kids : list Fragment) : Fragment :=
  MkFragment (Some x) FBlock (f64_of_Z l) (f64_of_Z t) (f64_of_Z w) (f64_of_Z h) kids.

(** [<ul><li>buy</li><div><p></p></div></ul>]: list 1, item 2, text 3, division 4, paragraph 5. *)
Definition list_script : list doc_op :=
  [OpCreate (elem "ul"); OpAppend 0 1; OpCreate (elem "li"); OpAppend 1 2; OpCreate (NText (str "buy")); OpAppend 2 3;
   OpCreate (elem "div"); OpAppend 1 4; OpCreate (elem "p"); OpAppend 4 5]%N.
Definition list_doc : Document := default default_doc (run_script list_script).
Lemma list_doc_WF : WF list_doc.
Proof. apply reachable_WF, (run_script_reachable list_script). vm_compute. reflexivity. Qed.

(** The list's box is 100 wide and 40 high; the paragraph covers half of the item. *)
Definition list_page : Page :=
  set_fragment (frag 1 0 0 100 40 [frag 2 0 0 100 20 []; frag 4 0 10 100 20 [frag 5 0 0 50 20 []]])
    (set_doc list_doc blank_page).

Definition nodes_of (p : Page) : list AiNode := match snapshot p 1 2 with Ok s => s.(sn_nodes) | _ => [] end.

(** The division has no role; the item's name is its text, the list's is left to the item. *)
Example list_snapshot :
  map (λ n, (n.(ai_id), n.(ai_parent), n.(ai_children), n.(ai_name), n.(occluded_by))) (nodes_of list_page)
  = [(1, None, [2; 5], None, Some 2); (2, Some 1, [], Some (str "buy"), Some 5); (5, Some 1, [], None, None)]%N.
Proof. vm_compute. reflexivity. Qed.

Lemma snapshot_structure_witness :
  ∃ K t s, Rep list_doc K ∧ unfolds list_doc.(nodes) K t ∧ list_doc.(doc_root) = Some (tid t)
    ∧ snapshot list_page 1 2 = Ok s
    ∧ map ai_id s.(sn_nodes) = filter (λ x, represented list_doc list_page x = true) (ids t)
    ∧ ∀ n, n ∈ s.(sn_nodes) →
        nearest_represented list_doc K list_page n.(ai_id) n.(ai_parent)
        ∧ n.(ai_children) = map ai_id (filter (λ m, m.(ai_parent) = Some n.(ai_id)) s.(sn_nodes)).
Proof. apply (snapshot_structure list_page 1 2). exact list_doc_WF. Defined.

Lemma snapshot_occlusion_witness :
  ∃ s n best, snapshot list_page 1 2 = Ok s ∧ s.(sn_nodes) !! 1 = Some n ∧ n.(occluded) = true
    ∧ first_strongest n.(ai_bounds) (labelled (drop 2 s.(sn_nodes))) best
    ∧ n.(occluded) = bool_decide (is_Some best) ∧ n.(occluded_by) = fst <$> best
    ∧ match best with
      | Some (_, f) => n.(occluded_fraction) = f32_of_f64 f ∧ f64_ltb (f64_of_Z 1) f = false
      | None => True
      end.
Proof.
  destruct (snapshot list_page 1 2) as [s| |] eqn:E; [|vm_compute in E; discriminate..].
  destruct (sn_nodes s !! 1) as [n|] eqn:Hn; [|vm_compute in E; apply Ok_inj in E as <-; discriminate].
  destruct (snapshot_occlusion list_page 1 2 s 1 n list_doc_WF E Hn) as (best & Hb).
  exists s, n, best. split; [reflexivity|]. split; [exact Hn|]. split; [|exact Hb].
  vm_compute in E. apply Ok_inj in E as <-. apply Some_inj in Hn as <-. reflexivity.
Defined.
