(* ===== verification/Tabs.v ===== *)
(** * Tabs ([core/engine/src/tabs.rs])

    [TabManager] is polymorphic in the page type: it stores pages, hands them out and creates
    them with [page_new], and never looks inside. *)

From S2P Require Import Prelude Float.
From Stdlib Require Import Sorted.

Abbreviation TabId := N (only parsing).
Definition tab_as_u64 (id : TabId) : N := id.
Definition tab_from_u64 (id : N) : TabId := id.

Section Tabs.
Context {Page : Type} (page_new : f64 → f64 → Page).

Record TabManager := MkTabs {
  tabs : gmap TabId Page;
  order : list TabId;
  next_tab_id : N;
  default_tab : TabId;
  tm_viewport_width : f64;
  tm_viewport_height : f64;
}.

Definition new_tabs (viewport_width viewport_height : f64) : TabManager :=
  MkTabs {[ 1%N := page_new viewport_width viewport_height ]} [1%N] 2 1 viewport_width viewport_height.

(** Opens a tab at the window's size; the counter is a [u64]. *)
Definition open_tab (t : TabManager) : res (TabId * TabManager) :=
  let id := t.(next_tab_id) in
  next ← checked_add_N U64_MAX id 1;
  Ok (id, MkTabs (<[id := page_new t.(tm_viewport_width) t.(tm_viewport_height)]> t.(tabs))
            (t.(order) ++ [id]) next t.(default_tab) t.(tm_viewport_width) t.(tm_viewport_height)).

Definition close_tab (t : TabManager) (id : TabId) : bool * TabManager :=
  let existed := bool_decide (is_Some (t.(tabs) !! id)) in
  let tabs' := delete id t.(tabs) in
  let order' := if existed then filter (λ x, x ≠ id) t.(order) else t.(order) in
  (existed, MkTabs tabs' order' t.(next_tab_id) t.(default_tab)
              t.(tm_viewport_width) t.(tm_viewport_height)).

Definition get (t : TabManager) (id : TabId) : option Page := t.(tabs) !! id.

(** [get_mut]: the caller's update of the page, if the tab exists. *)
Definition get_mut (t : TabManager) (id : TabId) (f : Page → Page) : option TabManager :=
  match t.(tabs) !! id with
  | Some p => Some (MkTabs (<[id := f p]> t.(tabs)) t.(order) t.(next_tab_id) t.(default_tab)
                      t.(tm_viewport_width) t.(tm_viewport_height))
  | None => None
  end.

Definition ids (t : TabManager) : list TabId := t.(order).

Definition set_window_size (t : TabManager) (width height : f64) : TabManager :=
  MkTabs t.(tabs) t.(order) t.(next_tab_id) t.(default_tab) width height.

(** ** Reachable managers *)
Inductive tab_step : TabManager → TabManager → Prop :=
  | step_open t id t' : open_tab t = Ok (id, t') → tab_step t t'
  | step_close t id b t' : close_tab t id = (b, t') → tab_step t t'
  | step_page t id f t' : get_mut t id f = Some t' → tab_step t t'
  | step_resize t w h : tab_step t (set_window_size t w h).

Definition tabs_reachable (t : TabManager) : Prop := ∃ w h, rtc tab_step (new_tabs w h) t.

Record tabs_inv (t : TabManager) : Prop := {
  ti_order : ∀ id, id ∈ t.(order) ↔ is_Some (t.(tabs) !! id);
  ti_sorted : StronglySorted N.lt t.(order);
  ti_bound : ∀ id, id ∈ t.(order) → (id < t.(next_tab_id))%N;
  ti_default : (t.(default_tab) < t.(next_tab_id))%N;
}.

Lemma sorted_snoc (l : list N) x :
  StronglySorted N.lt l → (∀ y, y ∈ l → (y < x)%N) → StronglySorted N.lt (l ++ [x]).
Proof.
  induction 1 as [|y l Hs IH Hy]; intros Hlt; cbn; [repeat constructor|].
  constructor; [apply IH; set_solver|]. apply Forall_app. split; [done|]. constructor; [|done].
  apply Hlt. left.
Qed.

Lemma sorted_filter (P : N → Prop) `{∀ x, Decision (P x)} (l : list N) :
  StronglySorted N.lt l → StronglySorted N.lt (filter P l).
Proof.
  induction 1 as [|y l Hs IH Hy]; [constructor|]. rewrite filter_cons. case_decide; [|done].
  constructor; [done|]. apply Forall_forall. intros x [_ Hx]%list_elem_of_filter.
  by eapply Forall_forall in Hy.
Qed.

Lemma new_tabs_inv w h : tabs_inv (new_tabs w h).
Proof.
  split; cbn; [|repeat constructor| |lia].
  - intros id. rewrite list_elem_of_singleton. split; [intros ->; rewrite lookup_singleton_eq; eauto|].
    intros [p Hp]. by apply lookup_singleton_Some in Hp as [<- _].
  - intros id ->%list_elem_of_singleton. lia.
Qed.

Lemma open_tab_inv t id t' : tabs_inv t → open_tab t = Ok (id, t') → tabs_inv t' ∧ id ∉ t.(order)
  ∧ id = t.(next_tab_id) ∧ t'.(next_tab_id) = (id + 1)%N.
Proof.
  intros [H1 H2 H3 H4] Ho. unfold open_tab in Ho.
  apply bind_Ok in Ho as (next & Hn%checked_add_N_Ok & Ho). destruct Hn as [-> _].
  injection Ho as <- <-. assert (next_tab_id t ∉ order t) as Hfresh by (intros Hin; apply H3 in Hin; lia).
  split_and!; try done. split; cbn.
  - intros x. rewrite elem_of_app, list_elem_of_singleton, H1. destruct (decide (x = next_tab_id t)) as [->|Hne].
    + rewrite lookup_insert_eq. naive_solver.
    + rewrite lookup_insert_ne by done. naive_solver.
  - apply sorted_snoc; auto.
  - intros x [Hx| ->%list_elem_of_singleton]%elem_of_app; [specialize (H3 _ Hx)|]; lia.
  - lia.
Qed.

Lemma close_tab_inv t id b t' : tabs_inv t → close_tab t id = (b, t') → tabs_inv t'.
Proof.
  intros [H1 H2 H3 H4] Hc. unfold close_tab in Hc. injection Hc as <- <-.
  assert (∀ x, x ∈ (if bool_decide (is_Some (tabs t !! id)) then filter (λ x, x ≠ id) (order t) else order t)
    ↔ x ∈ order t ∧ x ≠ id) as Hin.
  { intros x. case_bool_decide as Hid; [rewrite list_elem_of_filter; naive_solver|].
    rewrite <-H1 in Hid. split; [intros Hx; split; [done|congruence]|naive_solver]. }
  split; cbn.
  - intros x. rewrite Hin, H1. destruct (decide (x = id)) as [->|Hne].
    + rewrite lookup_delete_eq. split; [naive_solver|by intros [? ?]].
    + rewrite lookup_delete_ne by done. naive_solver.
  - case_match; [by apply sorted_filter|done].
  - intros x Hx%Hin. apply H3, Hx.
  - done.
Qed.

Lemma tab_step_inv t t' :
  tab_step t t' → tabs_inv t → tabs_inv t' ∧ (t.(next_tab_id) <= t'.(next_tab_id))%N
    ∧ t'.(default_tab) = t.(default_tab).
Proof.
  intros [u id u' Ho|u id b u' Hc|u id f u' Hg|u w h] HI.
  - destruct (open_tab_inv _ _ _ HI Ho) as (? & _ & -> & ->). split_and!; [done|lia|].
    unfold open_tab in Ho. apply bind_Ok in Ho as (? & _ & [= <-]). done.
  - split; [by eapply close_tab_inv|]. unfold close_tab in Hc. injection Hc as <- <-. cbn. split; [lia|done].
  - unfold get_mut in Hg. destruct (tabs u !! id) as [p|] eqn:Hp; [|done]. injection Hg as <-.
    destruct HI as [H1 H2 H3 H4]. cbn. split_and!; [|lia|done]. split; cbn; [|done..].
    intros x. rewrite H1. destruct (decide (x = id)) as [->|]; [rewrite lookup_insert_eq, Hp; split; by eexists|].
    by rewrite lookup_insert_ne.
  - split; [by destruct HI|]. cbn. split; [lia|done].
Qed.

Lemma tab_steps_inv t t' :
  rtc tab_step t t' → tabs_inv t → tabs_inv t' ∧ (t.(next_tab_id) <= t'.(next_tab_id))%N
    ∧ t'.(default_tab) = t.(default_tab).
Proof.
  induction 1 as [|t u t' Hs _ IH]; intros HI; [split_and!; [done|lia|done]|].
  destruct (tab_step_inv _ _ Hs HI) as (HI' & Hle & Hd). destruct (IH HI') as (? & ? & ?).
  split_and!; [done|lia|congruence].
Qed.
End Tabs.

(** The tab list is right in every reachable manager: [ids] lists exactly the tabs that
    [get] finds, each once and in creation order, and the default tab's identity never changes. *)
Theorem tab_list_correct {Page} (page_new : f64 → f64 → Page) t :
  tabs_reachable page_new t →
  (∀ id, id ∈ ids t ↔ is_Some (get t id)) ∧ StronglySorted N.lt (ids t) ∧ t.(default_tab) = 1%N.
Proof.
  intros (w & h & Hr). destruct (tab_steps_inv page_new _ _ Hr) as (HI & _ & Hd); [apply new_tabs_inv|].
  split_and!; [apply (ti_order _ HI)|apply (ti_sorted _ HI)|done].
Qed.

(** Two tabs opened, the default one closed. *)
Definition demo_tabs : res (@TabManager unit) :=
  '(_, t) ← open_tab (λ _ _, ()) (new_tabs (λ _ _, ()) f64_zero f64_zero);
  '(_, t) ← open_tab (λ _ _, ()) t;
  Ok (close_tab t 1%N).2.
Definition demo_tabs_value : @TabManager unit :=
  match demo_tabs with Ok t => t | _ => new_tabs (λ _ _, ()) f64_zero f64_zero end.

Lemma demo_tabs_reachable : tabs_reachable (λ _ _, ()) demo_tabs_value.
Proof.
  exists f64_zero, f64_zero. eapply rtc_l; [eapply step_open; reflexivity|].
  eapply rtc_l; [eapply step_open; reflexivity|]. eapply rtc_l; [|reflexivity].
  eapply (step_close _ _ 1%N). reflexivity.
Qed.

Lemma tab_list_correct_witness :
  ids demo_tabs_value = [2; 3]%N ∧ (∀ id, id ∈ ids demo_tabs_value ↔ is_Some (get demo_tabs_value id)).
Proof.
  split; [reflexivity|]. apply (tab_list_correct (λ _ _, ()) demo_tabs_value). apply demo_tabs_reachable.
Defined.

(** Tab ids are never reused: an id that was open at some point and is closed later is never
    returned by a later [open_tab]. *)
Theorem tab_ids_never_reused {Page} (page_new : f64 → f64 → Page) t id t' new t'' :
  tabs_reachable page_new t → is_Some (get t id) → rtc (tab_step page_new) t t' →
  open_tab page_new t' = Ok (new, t'') → (id < new)%N.
Proof.
  intros (w & h & Hr) Hid Hsteps Ho.
  destruct (tab_steps_inv page_new _ _ Hr) as (HI & _); [apply new_tabs_inv|].
  destruct (tab_steps_inv page_new _ _ Hsteps HI) as (HI' & Hle & _).
  destruct (open_tab_inv page_new _ _ _ HI' Ho) as (_ & _ & -> & _).
  apply (ti_order _ HI) in Hid. apply (ti_bound _ HI) in Hid. lia.
Qed.

Lemma tab_ids_never_reused_witness :
  ∃ t'', open_tab (λ _ _, ()) demo_tabs_value = Ok (4%N, t'') ∧ (2 < 4)%N.
Proof.
  eexists; split; [reflexivity|].
  eapply (tab_ids_never_reused (λ _ _, ()) demo_tabs_value 2%N demo_tabs_value 4%N).
  - apply demo_tabs_reachable.
  - vm_compute. eexists; reflexivity.
  - reflexivity.
  - reflexivity.
Defined.
