(* ===== verification/IpcFrame.v ===== *)
(** * IPC framing ([ipc/src/lib.rs], [launcher/src/control.rs])

    Length-prefixed frames over a byte stream.  What a reader returns call by call is a list of
    events, so every chunking of the bytes and every placement of interrupts, timeouts and errors
    is an event list.  The JSON encoder and decoder are the third-party [serde_json]: parameters
    of the envelope functions. *)

From S2P Require Import Prelude.

Inductive ErrorKind :=
  | UnexpectedEof | InvalidInput | InvalidData | Interrupted | WouldBlock | TimedOut | OtherError.

#[export] Instance ErrorKind_eq_dec : EqDecision ErrorKind.
Proof. solve_decision. Defined.

(** [io::Result]. *)
Inductive io_res (A : Type) := IoOk (a : A) | IoErr (e : ErrorKind).
Arguments IoOk {A} a.
Arguments IoErr {A} e.

Lemma IoOk_inj {A} (a b : A) : IoOk a = IoOk b → a = b.
Proof. by intros [= ->]. Qed.

(** ** Little-endian length prefixes *)
Abbreviation byte := N (only parsing).

Definition u32_to_le_bytes (n : N) : list byte :=
  [n mod 256; (n / 256) mod 256; (n / 65536) mod 256; (n / 16777216) mod 256]%N.
Definition u32_from_le_bytes (bs : list byte) : N :=
  match bs with
  | [a; b; c; d] => a + 256 * b + 65536 * c + 16777216 * d
  | _ => 0
  end%N.

(** ** Writing *)

(** [usize::MAX]. *)
Definition USIZE_MAX : N := U64_MAX.

(** The bytes appended to the writer; [encoded] is [serde_json::to_vec(msg)]. *)
Definition write_framed_with_limit (encoded : option (list byte)) (max_bytes : N)
    : io_res (list byte) :=
  match encoded with
  | None => IoErr OtherError
  | Some bytes =>
      let n := N.of_nat (length bytes) in
      if (max_bytes <? n)%N then IoErr InvalidInput
      else if (U32_MAX <? n)%N then IoErr OtherError
      else IoOk (u32_to_le_bytes n ++ bytes)
  end.
Definition write_framed (encoded : option (list byte)) : io_res (list byte) :=
  write_framed_with_limit encoded USIZE_MAX.

(** ** Reading *)

(** What the next call of [read] returns: data (cut to the caller's buffer, the rest stays for
    the next call; no data is the end of the stream) or an error. *)
Inductive REvent := Data (bs : list byte) | Error (e : ErrorKind).

Definition is_timeout (e : ErrorKind) : bool := bool_decide (e = WouldBlock ∨ e = TimedOut).

(** [read_exact_no_progress_loss] for a buffer of [n] bytes, [filled] being those read so far. *)
Fixpoint read_exact (n : nat) (filled : list byte) (evs : list REvent)
    : io_res (list byte) * list REvent :=
  if (n <=? length filled)%nat then (IoOk filled, evs)
  else
    match evs with
    | [] => (IoErr UnexpectedEof, [])
    | Data [] :: evs' => (IoErr UnexpectedEof, evs')
    | Data bs :: evs' =>
        let k := n - length filled in
        if (length bs <=? k)%nat then read_exact n (filled ++ bs) evs'
        else (IoOk (filled ++ take k bs), Data (drop k bs) :: evs')
    | Error e :: evs' =>
        if decide (e = Interrupted) then read_exact n filled evs'
        else if (0 <? length filled)%nat && is_timeout e then read_exact n filled evs'
        else (IoErr e, evs')
    end.

Definition read_exact_no_progress_loss (n : nat) (evs : list REvent)
    : io_res (list byte) * list REvent := read_exact n [] evs.

Definition read_frame_bytes_with_limit (max_bytes : N) (evs : list REvent)
    : io_res (list byte) * list REvent :=
  match read_exact_no_progress_loss 4 evs with
  | (IoErr e, evs) => (IoErr e, evs)
  | (IoOk len_bytes, evs) =>
      let len := u32_from_le_bytes len_bytes in
      if (max_bytes <? len)%N then (IoErr InvalidData, evs)
      else read_exact_no_progress_loss (N.to_nat len) evs
  end.
Definition read_frame_bytes (evs : list REvent) : io_res (list byte) * list REvent :=
  read_frame_bytes_with_limit USIZE_MAX evs.

Definition read_frame_bytes_bounded (evs : list REvent) (maximum_bytes : N)
    : io_res (list byte) * list REvent :=
  read_frame_bytes_with_limit maximum_bytes evs.

(** ** Envelopes *)
Record Envelope (Msg : Type) := MkEnvelope {
  request_id : option N;
  env_tab_id : option N;
  message : Msg;
}.
Arguments MkEnvelope {Msg}.
Arguments request_id {Msg}.
Arguments env_tab_id {Msg}.
Arguments message {Msg}.

Section Envelopes.
(** [serde_json]: a value type, its parser, the typed decoder, and field access. *)
Context {Json Msg : Type}.
Context (from_slice : list byte → option Json) (from_value : Json → option (Envelope Msg)).
Context (get_u64 : Json → list N → option N) (Unknown : Msg).

(** [read_client_envelope] and [read_server_envelope], which differ in the message type. *)
Definition read_envelope (evs : list REvent) : io_res (Envelope Msg) * list REvent :=
  match read_frame_bytes evs with
  | (IoErr e, evs) => (IoErr e, evs)
  | (IoOk buf, evs) =>
      match from_slice buf with
      | None => (IoErr OtherError, evs)
      | Some value =>
          match from_value value with
          | Some envelope => (IoOk envelope, evs)
          | None =>
              (IoOk (MkEnvelope (get_u64 value (str "request_id")) (get_u64 value (str "tab_id")) Unknown), evs)
          end
      end
  end.
End Envelopes.

(** ** What a stream delivers *)
Fixpoint delivered (evs : list REvent) : list byte :=
  match evs with
  | [] => []
  | Data bs :: evs' => bs ++ delivered evs'
  | Error _ :: evs' => delivered evs'
  end.

(** No end of stream and no errors other than those of [ok]. *)
Definition only_errors (ok : ErrorKind → bool) (evs : list REvent) : Prop :=
  Forall (λ ev, match ev with Data bs => bs ≠ [] | Error e => ok e = true end) evs.

Definition interrupts (e : ErrorKind) : bool := bool_decide (e = Interrupted).
Definition transient (e : ErrorKind) : bool := interrupts e || is_timeout e.

(** The read loop once it has started: interrupts and timeouts lose nothing. *)
Lemma read_exact_run ok n filled evs :
  (∀ e, ok e = true → e = Interrupted ∨ is_timeout e = true ∧ filled ≠ []) →
  only_errors ok evs → length filled ≤ n → n ≤ length filled + length (delivered evs) →
  ∃ evs', read_exact n filled evs = (IoOk (filled ++ take (n - length filled) (delivered evs)), evs')
    ∧ delivered evs' = drop (n - length filled) (delivered evs) ∧ only_errors ok evs'.
Proof.
  intros Hok Hev. revert filled Hok. induction Hev as [|ev evs Hhd Hev IH]; intros filled Hok Hlo Hhi.
  { cbn in Hhi |- *. rewrite (proj2 (Nat.leb_le n (length filled))) by lia. exists [].
    rewrite take_nil, drop_nil, app_nil_r. split; [done|]. split; [done|constructor]. }
  cbn [read_exact]. destruct (Nat.leb_spec n (length filled)) as [Hle|Hlt].
  { exists (ev :: evs). replace (n - length filled) with 0 by lia. rewrite take_0, drop_0, app_nil_r.
    split; [done|]. split; [done|by constructor]. }
  destruct ev as [bs|e].
  - destruct bs as [|b bs]; [done|]. cbn [delivered] in *. set (chunk := b :: bs) in *.
    rewrite length_app in Hhi. destruct (Nat.leb_spec (length chunk) (n - length filled)) as [Hc|Hc].
    + destruct (IH (filled ++ chunk)) as (evs' & -> & Hd & Ho).
      { intros e He. destruct (Hok e He) as [->|[? ?]]; [by left|right]. split; [done|]. by destruct filled. }
      { rewrite length_app. lia. }
      { rewrite length_app. lia. }
      exists evs'. rewrite length_app in Hd |- *.
      rewrite take_app_ge, drop_app_ge by lia. split_and!; [|rewrite Hd; f_equal; lia|done].
      rewrite <-app_assoc. by rewrite Nat.sub_add_distr.
    + rewrite take_app_le, drop_app_le by lia. eexists; split; [done|]. cbn [delivered].
      split; [done|]. constructor; [|done].
      assert (length (drop (n - length filled) chunk) ≠ 0) by (rewrite length_drop; lia). by destruct (drop _ chunk).
  - cbn [delivered] in Hhi |- *. case_decide as He; [by apply IH|].
    destruct (Hok e Hhd) as [->|[Ht Hf]]; [done|]. rewrite Ht.
    destruct filled as [|f filled]; [done|]. cbn [length Nat.ltb Nat.leb andb]. by apply IH.
Qed.

Lemma read_exact_interrupts n evs :
  only_errors interrupts evs → n ≤ length (delivered evs) →
  ∃ evs', read_exact_no_progress_loss n evs = (IoOk (take n (delivered evs)), evs')
    ∧ delivered evs' = drop n (delivered evs) ∧ only_errors interrupts evs'.
Proof.
  intros Hev Hn. destruct (read_exact_run interrupts n [] evs) as (evs' & H1 & H2 & H3); [|done|cbn; lia|done|].
  { intros e He%bool_decide_eq_true. by left. }
  cbn in *. rewrite Nat.sub_0_r in *. by exists evs'.
Qed.

Lemma u32_le_round_trip n : (n <= U32_MAX)%N → u32_from_le_bytes (u32_to_le_bytes n) = n.
Proof.
  unfold U32_MAX. intros Hn. unfold u32_to_le_bytes, u32_from_le_bytes.
  replace 65536%N with (256 * 256)%N by done. replace 16777216%N with (256 * 256 * 256)%N by done.
  rewrite <-!N.Div0.div_div. rewrite (N.mod_small (n / 256 / 256 / 256)) by (repeat apply N.Div0.div_lt_upper_bound; lia).
  pose proof (N.div_mod n 256). pose proof (N.div_mod (n / 256) 256). pose proof (N.div_mod (n / 256 / 256) 256). lia.
Qed.

(** One frame at the head of a stream. *)
Lemma read_frame_run limit bytes frame evs rest :
  write_framed (Some bytes) = IoOk frame → (N.of_nat (length bytes) <= limit)%N →
  only_errors interrupts evs → delivered evs = frame ++ rest →
  ∃ evs', read_frame_bytes_with_limit limit evs = (IoOk bytes, evs')
    ∧ delivered evs' = rest ∧ only_errors interrupts evs'.
Proof.
  unfold write_framed, write_framed_with_limit. intros Hw Hlim Hev Hd.
  destruct (USIZE_MAX <? _)%N; [done|]. destruct (N.ltb_spec U32_MAX (N.of_nat (length bytes))) as [|Hle]; [done|].
  apply IoOk_inj in Hw as <-. unfold read_frame_bytes_with_limit.
  destruct (read_exact_interrupts 4 evs Hev) as (evs1 & -> & Hd1 & Hev1).
  { rewrite Hd, !length_app. cbn. lia. }
  rewrite <-app_assoc in Hd. rewrite Hd in Hd1 |- *.
  set (prefix := u32_to_le_bytes (N.of_nat (length bytes))) in *.
  assert (take 4 (prefix ++ bytes ++ rest) = prefix ∧ drop 4 (prefix ++ bytes ++ rest) = bytes ++ rest)
    as [-> E2] by done.
  rewrite E2 in Hd1. unfold prefix. rewrite u32_le_round_trip by done.
  destruct (N.ltb_spec limit (N.of_nat (length bytes))); [lia|]. rewrite Nat2N.id.
  destruct (read_exact_interrupts (length bytes) evs1 Hev1) as (evs2 & -> & Hd2 & Hev2).
  { rewrite Hd1, length_app. lia. }
  rewrite Hd1, take_app_length. rewrite Hd1, drop_app_length in Hd2. by exists evs2.
Qed.

(** Reads [k] frames one after the other. *)
Fixpoint read_frames (k : nat) (evs : list REvent) : io_res (list (list byte)) * list REvent :=
  match k with
  | O => (IoOk [], evs)
  | S k' =>
      match read_frame_bytes evs with
      | (IoErr e, evs) => (IoErr e, evs)
      | (IoOk b, evs) =>
          match read_frames k' evs with
          | (IoErr e, evs) => (IoErr e, evs)
          | (IoOk bs, evs) => (IoOk (b :: bs), evs)
          end
      end
  end.

(** C35. Frames round trip: messages written one after the other are read back in order and
    exactly, however the stream cuts the bytes into reads and however often a read is
    interrupted, and what follows them is left untouched. *)
Theorem frames_round_trip payloads frames evs rest :
  Forall2 (λ p f, write_framed (Some p) = IoOk f) payloads frames →
  only_errors interrupts evs → delivered evs = mjoin frames ++ rest →
  ∃ evs', read_frames (length payloads) evs = (IoOk payloads, evs') ∧ delivered evs' = rest.
Proof.
  intros Hw. revert evs. induction Hw as [|p f ps fs Hp _ IH]; intros evs Hev Hd; cbn [read_frames length].
  { by exists evs. }
  csimpl in Hd. rewrite <-app_assoc in Hd.
  assert (N.of_nat (length p) <= USIZE_MAX)%N as Hlim.
  { unfold write_framed, write_framed_with_limit in Hp. destruct (N.ltb_spec USIZE_MAX (N.of_nat (length p))); [done|lia]. }
  destruct (read_frame_run USIZE_MAX p f evs (mjoin fs ++ rest) Hp Hlim Hev Hd) as (evs1 & Hr & Hd1 & Hev1).
  unfold read_frame_bytes. rewrite Hr. destruct (IH evs1 Hev1 Hd1) as (evs2 & -> & Hd2). by exists evs2.
Qed.

Lemma frames_round_trip_witness :
  let evs := [Data [2]; Error Interrupted; Data [0; 0]; Data [0; 7; 8; 1; 0]; Data [0; 0; 9; 42]]%N in
  ∃ evs', read_frames 2 evs = (IoOk [[7; 8]; [9]]%N, evs') ∧ delivered evs' = [42]%N.
Proof.
  apply (frames_round_trip [[7; 8]; [9]]%N [[2; 0; 0; 0; 7; 8]; [1; 0; 0; 0; 9]]%N).
  - repeat constructor.
  - repeat constructor; discriminate.
  - reflexivity.
Defined.

(** A timeout in the middle of a read loses nothing: once the first byte has arrived, reading
    [n] bytes succeeds with exactly the next [n] bytes of the stream whatever interrupts and
    timeouts come between them. *)
Theorem partial_read_survives_timeouts n b bs evs :
  only_errors transient (Data (b :: bs) :: evs) → 0 < n → n ≤ length (delivered (Data (b :: bs) :: evs)) →
  ∃ evs', read_exact_no_progress_loss n (Data (b :: bs) :: evs)
            = (IoOk (take n (delivered (Data (b :: bs) :: evs))), evs')
    ∧ delivered evs' = drop n (delivered (Data (b :: bs) :: evs)).
Proof.
  intros Hev Hn Hlen. unfold read_exact_no_progress_loss. cbn [read_exact length].
  rewrite (proj2 (Nat.leb_gt n 0)) by lia. rewrite Nat.sub_0_r. cbn [app].
  apply Forall_cons in Hev as [_ Hev]. cbn [delivered] in *.
  destruct (Nat.leb_spec (S (length bs)) n) as [Hle|Hgt].
  - destruct (read_exact_run transient n (b :: bs) evs) as (evs' & Hr & Hd & _);
      [|done|done|by rewrite length_app in Hlen|].
    { intros e He. apply orb_true_iff in He as [He|He]; [left; by apply bool_decide_eq_true in He|].
      right. split; [exact He|discriminate]. }
    exists evs'. rewrite take_app_ge, drop_app_ge by done. cbn [length] in *. rewrite Hr. done.
  - rewrite take_app_le, drop_app_le by (cbn; lia). by eexists.
Qed.

Lemma partial_read_survives_timeouts_witness :
  ∃ evs', read_exact_no_progress_loss 3 [Data [1]; Error TimedOut; Data [2; 3; 4]]%N = (IoOk [1; 2; 3]%N, evs')
    ∧ delivered evs' = [4]%N.
Proof.
  apply (partial_read_survives_timeouts 3 1%N [] [Error TimedOut; Data [2; 3; 4]%N]).
  - repeat constructor; discriminate.
  - lia.
  - cbn. lia.
Defined.

(** A timeout between the length prefix and the payload desynchronizes the stream: the prefix
    is consumed and lost although the frame is complete, and the next read takes the payload for
    a length.  The framing documentation promises that a frame is never abandoned mid-read. *)
Theorem timeout_after_prefix_loses_frame payload frame rest :
  payload ≠ [] → write_framed (Some payload) = IoOk frame →
  ∃ evs evs', delivered evs = frame ++ rest
    ∧ read_frame_bytes evs = (IoErr TimedOut, evs') ∧ delivered evs' = payload ++ rest.
Proof.
  unfold write_framed, write_framed_with_limit. intros Hne Hw.
  destruct (N.ltb_spec USIZE_MAX (N.of_nat (length payload))) as [|Hle1]; [done|].
  destruct (N.ltb_spec U32_MAX (N.of_nat (length payload))) as [|Hle]; [done|]. apply IoOk_inj in Hw as <-.
  set (prefix := u32_to_le_bytes (N.of_nat (length payload))).
  exists [Data prefix; Error TimedOut; Data (payload ++ rest)], [Data (payload ++ rest)].
  split_and!; [cbn [delivered]; by rewrite app_nil_r, <-app_assoc| |cbn; by rewrite app_nil_r].
  unfold read_frame_bytes, read_frame_bytes_with_limit.
  replace (read_exact_no_progress_loss 4 _)
    with (IoOk prefix, [Error TimedOut; Data (payload ++ rest)]) by done.
  unfold prefix. rewrite u32_le_round_trip by done. destruct (N.ltb_spec USIZE_MAX (N.of_nat (length payload))); [lia|].
  unfold read_exact_no_progress_loss. rewrite Nat2N.id. cbn [read_exact length].
  destruct payload; [done|]. reflexivity.
Qed.

Lemma timeout_after_prefix_loses_frame_witness :
  ∃ evs evs', delivered evs = [2; 0; 0; 0; 7; 8]%N ++ []
    ∧ read_frame_bytes evs = (IoErr TimedOut, evs') ∧ delivered evs' = [7; 8]%N ++ [].
Proof.
  apply (timeout_after_prefix_loses_frame [7; 8]%N [2; 0; 0; 0; 7; 8]%N []); [discriminate|reflexivity].
Defined.

(** The reader is fail-soft on whole messages: when a frame holds well-formed JSON that is
    not a known message, the envelope is [Unknown] with the correlation fields kept; only a
    failed frame or malformed JSON is an error. *)
Theorem envelope_fail_soft {Json Msg} (from_slice : list N → option Json)
    (from_value : Json → option (Envelope Msg)) get_u64 (Unknown : Msg) evs evs' buf value :
  read_frame_bytes evs = (IoOk buf, evs') → from_slice buf = Some value →
  ∃ env, read_envelope from_slice from_value get_u64 Unknown evs = (IoOk env, evs')
    ∧ (from_value value = Some env
       ∨ from_value value = None ∧ message env = Unknown
         ∧ request_id env = get_u64 value (str "request_id")
         ∧ env_tab_id env = get_u64 value (str "tab_id")).
Proof.
  intros Hr Hv. unfold read_envelope. rewrite Hr, Hv. destruct (from_value value) as [env|] eqn:Ev.
  - exists env. auto.
  - eexists; split; [done|]. right. done.
Qed.

(** A toy codec: the JSON value is the bytes, and a single zero byte is the only known message. *)
Lemma envelope_fail_soft_witness :
  let from_value (v : list N) := if decide (v = [0%N]) then Some (MkEnvelope None None true) else None in
  ∃ env, read_envelope Some from_value (λ _ _, Some 5%N) false [Data [1; 0; 0; 0; 3]%N] = (IoOk env, [])
    ∧ (from_value [3%N] = Some env
       ∨ from_value [3%N] = None ∧ message env = false ∧ request_id env = Some 5%N ∧ env_tab_id env = Some 5%N).
Proof.
  intros from_value.
  apply (envelope_fail_soft Some from_value (λ _ _, Some 5%N) false [Data [1; 0; 0; 0; 3]%N] [] [3%N] [3%N]);
    reflexivity.
Defined.
