(* ===== verification/Gatekeeper.v ===== *)
(** * Gated navigation ([core/engine/src/gatekeeper_client.rs], [ipc/src/gatekeeper.rs])

    The gatekeeper process and the network are outside the program: an environment answers each
    connection attempt and each fetch.  The client records what it asked, so that the order of the
    stages is observable. *)

From S2P Require Import Prelude.

(** ** The protocol *)
Inductive GatekeeperRequest :=
  | CheckUrl (url : list N)
  | CheckContent (url html : list N).

Inductive GatekeeperReply :=
  | ReplyCleared
  | ReplyRejected (reason category : list N).

#[export] Instance GatekeeperRequest_eq_dec : EqDecision GatekeeperRequest.
Proof. solve_decision. Defined.
#[export] Instance GatekeeperReply_eq_dec : EqDecision GatekeeperReply.
Proof. solve_decision. Defined.

Record Fetched := MkFetched { final_url : list N; body : list N }.

(** Proof that both stages cleared; built by [check_and_fetch] alone. *)
Record GatekeeperClearance := MkClearance { cl_tab_id : N; cl_url : list N }.

Inductive NavOutcome :=
  | Cleared (clearance : GatekeeperClearance) (final_url html : list N)
  | GatekeeperBlocked (reason category url : list N)
  | FetchFailed (message : list N).

Inductive StageOutcome :=
  | StageCleared
  | StageRejected (reason category : list N).

(** What the client does, in order. *)
Inductive action :=
  | Asked (r : GatekeeperRequest)
  | Fetch (url : list N).

(** ** The client *)
Section Client.
(** The outcome of connect, write and read for a request after the actions so far ([None] is any
    I/O failure or malformed reply), and of a network fetch. *)
Context (gatekeeper : list action → GatekeeperRequest → option GatekeeperReply).
Context (fetch : list action → list N → Fetched + list N).

Definition check_stage (log : list action) (request : GatekeeperRequest)
    : StageOutcome * list action :=
  let log' := log ++ [Asked request] in
  match gatekeeper log request with
  | Some ReplyCleared => (StageCleared, log')
  | Some (ReplyRejected reason category) => (StageRejected reason category, log')
  | None =>
      (StageRejected (str "the gatekeeper is unreachable") (str "gatekeeper-unavailable"), log')
  end.

Definition check_and_fetch (tab_id : N) (url : list N) : NavOutcome * list action :=
  match check_stage [] (CheckUrl url) with
  | (StageRejected reason category, log) => (GatekeeperBlocked reason category url, log)
  | (StageCleared, log) =>
      match fetch log url with
      | inr message => (FetchFailed message, log ++ [Fetch url])
      | inl fetched =>
          match check_stage (log ++ [Fetch url]) (CheckContent fetched.(final_url) fetched.(body)) with
          | (StageRejected reason category, log) =>
              (GatekeeperBlocked reason category fetched.(final_url), log)
          | (StageCleared, log) =>
              (Cleared (MkClearance tab_id fetched.(final_url)) fetched.(final_url) fetched.(body), log)
          end
      end
  end.

(** C33. Navigation is fail-closed: a page is handed on only when the gatekeeper explicitly cleared
    the requested address before the fetch and explicitly cleared the very document that is
    handed on, and nothing was fetched before the first clearance. *)
Theorem navigation_fail_closed tab_id url cl u html log :
  check_and_fetch tab_id url = (Cleared cl u html, log) →
  gatekeeper [] (CheckUrl url) = Some ReplyCleared
  ∧ gatekeeper [Asked (CheckUrl url); Fetch url] (CheckContent u html) = Some ReplyCleared
  ∧ fetch [Asked (CheckUrl url)] url = inl (MkFetched u html)
  ∧ cl = MkClearance tab_id u
  ∧ log = [Asked (CheckUrl url); Fetch url; Asked (CheckContent u html)].
Proof.
  unfold check_and_fetch, check_stage. cbn.
  destruct (gatekeeper [] (CheckUrl url)) as [[|r c]|] eqn:E1; try done.
  destruct (fetch _ url) as [[u' b']|m] eqn:E2; [|done]. cbn.
  destruct (gatekeeper _ (CheckContent u' b')) as [[|r c]|] eqn:E3; try done.
  intros [= <- <- <- <-]. done.
Qed.

(** A rejected or unreachable gatekeeper stops the navigation: without an explicit clearance
    of the address the network is never touched, and without an explicit clearance of the
    content the outcome is a block naming the fetched address. *)
Theorem navigation_blocked tab_id url :
  (gatekeeper [] (CheckUrl url) ≠ Some ReplyCleared →
     ∃ r c, check_and_fetch tab_id url = (GatekeeperBlocked r c url, [Asked (CheckUrl url)]))
  ∧ (∀ f, gatekeeper [] (CheckUrl url) = Some ReplyCleared →
     fetch [Asked (CheckUrl url)] url = inl f →
     gatekeeper [Asked (CheckUrl url); Fetch url] (CheckContent f.(final_url) f.(body)) ≠ Some ReplyCleared →
     ∃ r c, (check_and_fetch tab_id url).1 = GatekeeperBlocked r c f.(final_url)).
Proof.
  unfold check_and_fetch, check_stage. cbn. split.
  - intros Hne. destruct (gatekeeper [] (CheckUrl url)) as [[|r c]|]; [done|by eexists _, _..].
  - intros f -> -> Hne. cbn. destruct (gatekeeper _ (CheckContent _ _)) as [[|r c]|]; [done|by eexists _, _..].
Qed.
End Client.

(** A gatekeeper that clears everything but a bad page, and a network that redirects. *)
Definition demo_gatekeeper (_ : list action) (r : GatekeeperRequest) : option GatekeeperReply :=
  match r with
  | CheckUrl u => if decide (u = str "down") then None else Some ReplyCleared
  | CheckContent _ h =>
      if decide (h = str "bad") then Some (ReplyRejected (str "hidden text") (str "injection"))
      else Some ReplyCleared
  end.
Definition demo_fetch (_ : list action) (u : list N) : Fetched + list N :=
  inl (MkFetched (str "final") (if decide (u = str "evil") then str "bad" else str "hi")).

Lemma navigation_fail_closed_witness :
  demo_gatekeeper [] (CheckUrl (str "ok")) = Some ReplyCleared.
Proof.
  apply (navigation_fail_closed demo_gatekeeper demo_fetch 1 (str "ok") (MkClearance 1 (str "final"))
           (str "final") (str "hi")
           [Asked (CheckUrl (str "ok")); Fetch (str "ok"); Asked (CheckContent (str "final") (str "hi"))]).
  vm_compute. reflexivity.
Defined.

Lemma navigation_blocked_witness :
  ∃ r c, check_and_fetch demo_gatekeeper demo_fetch 1 (str "down")
         = (GatekeeperBlocked r c (str "down"), [Asked (CheckUrl (str "down"))]).
Proof.
  apply (navigation_blocked demo_gatekeeper demo_fetch 1 (str "down")). vm_compute. discriminate.
Defined.
