(* ===== verification/Extension.v ===== *)
(** * The extension host ([extension/src/lib.rs], [ipc/src/extension.rs])

    One connection is a list of what the peer sends (a request, or bytes that do not parse, the end
    of the list being the disconnection); the host's replies are its output, and a failed write ends
    the connection with an error. *)

From S2P Require Import Prelude.

Inductive ExtensionRequest :=
  | Hello (extension_id : list N) (capability_versions : gmap (list N) N)
  | DomRead
  | DomWrite (value : list N).

Inductive ExtensionReply :=
  | HelloAck
  | DomReadResult (value : list N)
  | DomWriteAck
  | CapabilityDenied (capability reason : list N).

#[export] Instance ExtensionReply_eq_dec : EqDecision ExtensionReply.
Proof. solve_decision. Defined.

Definition MINIMAL_SLICE_EXTENSION_ID : list N := str "minimal-slice-extension".
Definition CAPABILITY_DOM_READ : list N := str "dom:read".
Definition CAPABILITY_DOM_WRITE : list N := str "dom:write".
Definition PLACEHOLDER_DOM_READ_VALUE : list N :=
  str "<blueice-extension-host: no real Page is wired into this minimal slice>".

(** ** The registry *)
Record ExtensionRegistry := MkRegistry { grants : gmap (list N) (gset (list N)) }.

Definition new_registry : ExtensionRegistry := MkRegistry ∅.

Definition grant (r : ExtensionRegistry) (extension_id capability : list N) : ExtensionRegistry :=
  MkRegistry (<[extension_id := {[ capability ]} ∪ default ∅ (r.(grants) !! extension_id)]> r.(grants)).

Definition has_capability (r : ExtensionRegistry) (extension_id capability : list N) : bool :=
  match r.(grants) !! extension_id with
  | Some caps => bool_decide (capability ∈ caps)
  | None => false
  end.

Definition minimal_slice : ExtensionRegistry :=
  grant new_registry MINIMAL_SLICE_EXTENSION_ID CAPABILITY_DOM_READ.

(** ** A connection *)

(** What [read_extension_request] returns next: a request, or an error. *)
Abbreviation incoming := (option ExtensionRequest) (only parsing).

(** [format!("{extension_id} is not granted {capability}")]. *)
Definition denied (extension_id capability : list N) : ExtensionReply :=
  CapabilityDenied capability (extension_id ++ str " is not granted " ++ capability).

(** The reply to a request, and the identity the later requests are checked against. *)
Definition answer (r : ExtensionRegistry) (extension_id : list N) (req : ExtensionRequest)
    : ExtensionReply * list N :=
  match req with
  | Hello new_id _ => (HelloAck, new_id)
  | DomRead =>
      (if has_capability r extension_id CAPABILITY_DOM_READ
       then DomReadResult PLACEHOLDER_DOM_READ_VALUE
       else denied extension_id CAPABILITY_DOM_READ, extension_id)
  | DomWrite _ =>
      (if has_capability r extension_id CAPABILITY_DOM_WRITE then DomWriteAck
       else denied extension_id CAPABILITY_DOM_WRITE, extension_id)
  end.

Section Connection.
Context (r : ExtensionRegistry).
(** Whether the next write succeeds, given the replies written so far. *)
Context (write_ok : list ExtensionReply → bool).

(** The loop after the handshake; the flag is the [io::Result] of the whole call. *)
Fixpoint serve (extension_id : list N) (out : list ExtensionReply) (ins : list incoming)
    : list ExtensionReply * bool :=
  match ins with
  | [] => (out, true)
  | None :: _ => (out, true)
  | Some req :: ins' =>
      let '(reply, extension_id) := answer r extension_id req in
      if write_ok out then serve extension_id (out ++ [reply]) ins' else (out, false)
  end.

Definition handle_extension_connection (ins : list incoming) : list ExtensionReply * bool :=
  match ins with
  | Some (Hello extension_id _) :: ins' =>
      if write_ok [] then serve extension_id [HelloAck] ins' else ([], false)
  | _ => ([], true)
  end.

(** The identity declared last among the requests answered. *)
Fixpoint identity (ins : list incoming) : option (list N) :=
  match ins with
  | [] => None
  | Some (Hello i _) :: ins' => Some (default i (identity ins'))
  | _ :: ins' => identity ins'
  end.

(** Replies pair up with requests: reply [k] answers request [k]. *)
Lemma serve_replies id out ins replies ok :
  serve id out ins = (replies, ok) →
  ∃ tail, replies = out ++ tail ∧ length tail ≤ length ins
    ∧ ∀ k reply, tail !! k = Some reply →
        ∃ req, ins !! k = Some (Some req)
          ∧ reply = (answer r (default id (identity (take k ins))) req).1.
Proof.
  revert id out; induction ins as [|i ins IH]; intros id out; cbn [serve].
  { intros [= <- <-]. exists []. rewrite app_nil_r. split_and!; [done|cbn; lia|done]. }
  destruct i as [req|]; [|intros [= <- <-]; exists []; rewrite app_nil_r; split_and!; [done|cbn; lia|done]].
  destruct (answer r id req) as [reply id'] eqn:Ea. destruct (write_ok out).
  2: { intros [= <- <-]. exists []. rewrite app_nil_r. split_and!; [done|cbn; lia|done]. }
  intros Hs. destruct (IH _ _ Hs) as (tail & -> & Hlen & Hk). exists (reply :: tail).
  split_and!; [by rewrite <-app_assoc|cbn; lia|]. intros [|k] rep Hrep; cbn in Hrep.
  - injection Hrep as <-. exists req. split; [done|]. cbn. by rewrite Ea.
  - destruct (Hk k rep Hrep) as (req' & Hreq & ->). exists req'. split; [done|]. f_equal. f_equal. cbn.
    destruct req; cbn in Ea; injection Ea as <- <-; [|done..]. by destruct (identity _).
Qed.

Definition is_hello (i : incoming) : bool := match i with Some (Hello _ _) => true | _ => false end.

Lemma connection_replies ins replies ok :
  handle_extension_connection ins = (replies, ok) →
  ∀ k reply, replies !! k = Some reply →
    ∃ req id, ins !! k = Some (Some req) ∧ identity (take (S k) ins) = Some id
      ∧ (reply = HelloAck → is_hello (Some req) = true)
      ∧ (∀ v, reply = DomReadResult v → has_capability r id CAPABILITY_DOM_READ = true ∧ req = DomRead)
      ∧ (reply = DomWriteAck → has_capability r id CAPABILITY_DOM_WRITE = true ∧ ∃ v, req = DomWrite v).
Proof.
  unfold handle_extension_connection. destruct ins as [|[[id0 vs| |v]|] ins]; try (by intros [= <- <-]).
  destruct (write_ok []); [|by intros [= <- <-]]. intros Hs.
  destruct (serve_replies _ _ _ _ _ Hs) as (tail & -> & _ & Hk). intros [|k] reply Hrep.
  { injection Hrep as <-. exists (Hello id0 vs), id0. split_and!; done. }
  cbn in Hrep. destruct (Hk k reply Hrep) as (req & Hreq & ->). exists req.
  rewrite (take_S_r _ _ (Some req)) by done.
  assert (∀ l i, identity (l ++ [i]) = match i with
    | Some (Hello j _) => Some j
    | _ => identity l end) as Hsnoc.
  { intros l i. induction l as [|[[]|] l IH]; cbn; [by destruct i as [[]|]|rewrite IH; by destruct i as [[]|]|done..]. }
  cbn. rewrite Hsnoc.
  destruct req as [j ?| |w]; eexists; (split; [done|]); (split; [reflexivity|]); cbn; unfold denied;
    repeat case_match; split_and!; try done; intros; naive_solver.
Qed.
End Connection.

(** C38. Capabilities are enforced on every reply of every connection: the k-th reply answers the
    k-th request; nothing is answered before a [Hello] (so the connection has an identity); and a
    read result or a write acknowledgement goes out only if the identity declared last by then
    holds the capability. *)
Theorem extension_capabilities_enforced r write_ok ins replies ok k reply :
  handle_extension_connection r write_ok ins = (replies, ok) → replies !! k = Some reply →
  ∃ req id, ins !! k = Some (Some req) ∧ identity (take (S k) ins) = Some id
    ∧ (reply = HelloAck → is_hello (Some req) = true)
    ∧ (∀ v, reply = DomReadResult v → has_capability r id CAPABILITY_DOM_READ = true ∧ req = DomRead)
    ∧ (reply = DomWriteAck → has_capability r id CAPABILITY_DOM_WRITE = true ∧ ∃ v, req = DomWrite v).
Proof. intros Hc. by apply (connection_replies r write_ok ins replies ok Hc). Qed.

Definition demo_connection : list (option ExtensionRequest) :=
  [Some (Hello MINIMAL_SLICE_EXTENSION_ID ∅); Some DomRead; Some (DomWrite (str "x"));
   Some (Hello (str "other") ∅); Some DomRead; None; Some DomRead].

Lemma extension_capabilities_enforced_witness :
  handle_extension_connection minimal_slice (λ _, true) demo_connection
  = ([HelloAck; DomReadResult PLACEHOLDER_DOM_READ_VALUE;
      denied MINIMAL_SLICE_EXTENSION_ID CAPABILITY_DOM_WRITE; HelloAck;
      denied (str "other") CAPABILITY_DOM_READ], true)
  ∧ ∃ id, has_capability minimal_slice id CAPABILITY_DOM_READ = true.
Proof.
  split; [vm_compute; reflexivity|].
  destruct (extension_capabilities_enforced minimal_slice (λ _, true) demo_connection
    [HelloAck; DomReadResult PLACEHOLDER_DOM_READ_VALUE;
      denied MINIMAL_SLICE_EXTENSION_ID CAPABILITY_DOM_WRITE; HelloAck;
      denied (str "other") CAPABILITY_DOM_READ] true 1 (DomReadResult PLACEHOLDER_DOM_READ_VALUE))
    as (req & id & _ & _ & _ & H & _); [vm_compute; reflexivity|reflexivity|].
  exists id. apply (H _ eq_refl).
Defined.

(** The shipped registry never lets an extension write: whatever identities a connection
    declares and whatever it sends, no write is ever acknowledged. *)
Theorem minimal_slice_never_writes write_ok ins replies ok :
  handle_extension_connection minimal_slice write_ok ins = (replies, ok) → DomWriteAck ∉ replies.
Proof.
  intros Hc (k & Hk)%list_elem_of_lookup.
  destruct (connection_replies _ _ _ _ _ Hc k _ Hk) as (req & id & _ & _ & _ & _ & Hw).
  destruct (Hw eq_refl) as [Hcap _]. unfold has_capability, minimal_slice, grant in Hcap. cbn in Hcap.
  destruct (decide (id = MINIMAL_SLICE_EXTENSION_ID)) as [->|Hne].
  - rewrite lookup_insert_eq in Hcap. apply bool_decide_eq_true in Hcap.
    rewrite lookup_empty in Hcap. cbn in Hcap. set_solver.
  - by rewrite lookup_insert_ne, lookup_empty in Hcap.
Qed.

Lemma minimal_slice_never_writes_witness :
  DomWriteAck ∉ (handle_extension_connection minimal_slice (λ _, true) demo_connection).1.
Proof.
  apply (minimal_slice_never_writes (λ _, true) demo_connection _ true). vm_compute. reflexivity.
Defined.
