(* ===== verification/Supervisor.v ===== *)
(** * The process supervisor ([launcher/src/supervisor.rs], [launcher/src/memory_pressure.rs])

    Child processes are named by an identifier and the effect of [kill] and [wait] on them is the
    list of processes killed.  Instants and durations are nanoseconds; the clock is injected, as in
    the code. *)

From S2P Require Import Prelude Float.

Abbreviation Child := N (only parsing).
Abbreviation Instant := N (only parsing).
Abbreviation Duration := N (only parsing).

Inductive ProcessPolicy :=
  | AlwaysResident
  | OnDemand (idle_timeout : Duration)
  | IdleTeardown (idle_timeout : Duration).

#[export] Instance ProcessPolicy_eq_dec : EqDecision ProcessPolicy.
Proof. solve_decision. Defined.

Definition policy_idle_timeout (p : ProcessPolicy) : option Duration :=
  match p with
  | AlwaysResident => None
  | OnDemand t | IdleTeardown t => Some t
  end.

Record SupervisedProcess := MkProcess {
  policy : ProcessPolicy;
  resident : option Child;
  last_active : Instant;
}.

Record ProcessRegistry := MkProcesses { entries : gmap (list N) SupervisedProcess }.

Definition new_processes : ProcessRegistry := MkProcesses ∅.

(** ** Operations *)
Definition register_role (r : ProcessRegistry) (role : list N) (p : ProcessPolicy)
    (child : option Child) (now : Instant) : ProcessRegistry :=
  MkProcesses (<[role := MkProcess p child now]> r.(entries)).

Definition mark_active (r : ProcessRegistry) (role : list N) (now : Instant) : ProcessRegistry :=
  match r.(entries) !! role with
  | Some e => MkProcesses (<[role := MkProcess e.(policy) e.(resident) now]> r.(entries))
  | None => r
  end.

Definition is_resident (r : ProcessRegistry) (role : list N) : bool :=
  match r.(entries) !! role with
  | Some e => bool_decide (e.(policy) = AlwaysResident) || bool_decide (is_Some e.(resident))
  | None => false
  end.

(** Returns the child when the role is not registered. *)
Definition set_resident (r : ProcessRegistry) (role : list N) (child : Child) (now : Instant)
    : option Child * ProcessRegistry :=
  match r.(entries) !! role with
  | Some e => (None, MkProcesses (<[role := MkProcess e.(policy) (Some child) now]> r.(entries)))
  | None => (Some child, r)
  end.

(** [now.saturating_duration_since(last) >= idle_timeout], for a resident role that has one. *)
Definition idle_eligible (now : Instant) (e : SupervisedProcess) : bool :=
  match e.(resident), policy_idle_timeout e.(policy) with
  | Some _, Some t => (t <=? now - e.(last_active))%N
  | _, _ => false
  end.

(** Hash-map order is unspecified: this is one order of it, and [poll_order_irrelevant] shows that
    the order does not matter to the caller. *)
Definition idle_eligible_for_teardown (r : ProcessRegistry) (now : Instant) : list (list N) :=
  (filter (λ kv, idle_eligible now kv.2 = true) (map_to_list r.(entries))).*1.

(** The registry after, and the processes killed and reaped. *)
Definition teardown (r : ProcessRegistry) (role : list N) : ProcessRegistry * list Child :=
  match r.(entries) !! role with
  | Some e =>
      (MkProcesses (<[role := MkProcess e.(policy) None e.(last_active)]> r.(entries)),
       option_list e.(resident))
  | None => (r, [])
  end.

(** ** Memory pressure *)
Class MemorySource (S : Type) := available_ratio : S → f64.

Record FixedMemorySource := MkFixed { fixed_ratio : f64 }.
#[export] Instance fixed_memory_source : MemorySource FixedMemorySource := fixed_ratio.

(** [sysinfo]'s readings after a refresh; a zero total means no pressure. *)
Record SystemMemorySource := MkSystem { total_memory : N; available_memory : N }.
#[export] Instance system_memory_source : MemorySource SystemMemorySource := λ s,
  if (s.(total_memory) =? 0)%N then f64_of_Z 1
  else f64_div (f64_of_Z (Z.of_N s.(available_memory))) (f64_of_Z (Z.of_N s.(total_memory))).

Fixpoint teardown_all (r : ProcessRegistry) (roles : list (list N)) : ProcessRegistry * list Child :=
  match roles with
  | [] => (r, [])
  | role :: roles' =>
      let '(r, k1) := teardown r role in
      let '(r, k2) := teardown_all r roles' in
      (r, k1 ++ k2)
  end.

Definition poll_once {S} `{MemorySource S} (r : ProcessRegistry) (source : S) (threshold : f64)
    (now : Instant) : ProcessRegistry * list Child :=
  if f64_leb threshold (available_ratio source) then (r, [])
  else teardown_all r (idle_eligible_for_teardown r now).

(** ** What tearing down does *)
Definition torn (e : SupervisedProcess) : SupervisedProcess :=
  MkProcess e.(policy) None e.(last_active).

Lemma teardown_entries r role x :
  (teardown r role).1.(entries) !! x
  = if decide (x = role) then torn <$> r.(entries) !! role else r.(entries) !! x.
Proof.
  unfold teardown. destruct (entries r !! role) as [e|] eqn:E; case_decide as Hx; subst; cbn; rewrite ?E; try done.
  - by rewrite lookup_insert_eq.
  - by rewrite lookup_insert_ne.
Qed.

Lemma teardown_all_entries r roles x :
  (teardown_all r roles).1.(entries) !! x
  = if decide (x ∈ roles) then torn <$> r.(entries) !! x else r.(entries) !! x.
Proof.
  revert r; induction roles as [|role roles IH]; intros r; cbn [teardown_all].
  { rewrite decide_False; [done|]. inversion 1. }
  pose proof (teardown_entries r role x) as Ht. destruct (teardown r role) as [r1 k1]. cbn in Ht.
  specialize (IH r1). destruct (teardown_all r1 roles) as [r2 k2]. cbn in *. rewrite IH, Ht.
  destruct (decide (x = role)) as [->|Hne].
  - rewrite (decide_True (P := role ∈ role :: roles)) by left.
    case_decide; [|done]. by destruct (entries r !! role).
  - destruct (decide (x ∈ roles)); [rewrite decide_True by (by right); done|].
    rewrite decide_False; [done|]. intros [?|?]%elem_of_cons; done.
Qed.

Lemma teardown_all_killed r roles c :
  NoDup roles → c ∈ (teardown_all r roles).2 ↔
  ∃ role e, role ∈ roles ∧ r.(entries) !! role = Some e ∧ e.(resident) = Some c.
Proof.
  intros Hnd. revert r; induction Hnd as [|role roles Hnew _ IH]; intros r; cbn [teardown_all].
  { split; [inversion 1|]. intros (? & ? & Hin & _). inversion Hin. }
  pose proof (λ x, teardown_entries r role x) as Ht.
  assert (∀ c, c ∈ (teardown r role).2 ↔ ∃ e, r.(entries) !! role = Some e ∧ e.(resident) = Some c) as Hk.
  { intros c'. unfold teardown. destruct (entries r !! role) as [e|]; cbn.
    - destruct (resident e) as [c0|] eqn:Er; cbn.
      + rewrite list_elem_of_singleton. split; [intros ->; eauto|]. intros (e' & [= <-] & He). congruence.
      + split; [inversion 1|]. intros (e' & [= <-] & He). congruence.
    - split; [inversion 1|]. by intros (? & ? & _). }
  destruct (teardown r role) as [r1 k1]. cbn in *. specialize (IH r1).
  destruct (teardown_all r1 roles) as [r2 k2]. cbn in *. rewrite elem_of_app, Hk, IH. split.
  - intros [(e & He & Hr)|(role' & e & Hin & He & Hr)]; [exists role, e; split_and!; [left|done..]|].
    exists role', e. rewrite Ht in He. rewrite decide_False in He by (intros ->; done). split_and!; [by right|done..].
  - intros (role' & e & [->|Hin]%elem_of_cons & He & Hr); [left; eauto|right]. exists role', e.
    rewrite Ht, decide_False by (intros ->; done). done.
Qed.

Lemma idle_eligible_elem r now role :
  role ∈ idle_eligible_for_teardown r now ↔ ∃ e, r.(entries) !! role = Some e ∧ idle_eligible now e = true.
Proof.
  unfold idle_eligible_for_teardown. rewrite list_elem_of_fmap. split.
  - intros ([k e] & -> & Hin). apply list_elem_of_filter in Hin as [He Hin].
    apply elem_of_map_to_list in Hin. by exists e.
  - intros (e & He & Hi). exists (role, e). split; [done|]. apply list_elem_of_filter. split; [done|].
    by apply elem_of_map_to_list.
Qed.

Lemma idle_eligible_NoDup r now : NoDup (idle_eligible_for_teardown r now).
Proof.
  unfold idle_eligible_for_teardown. pose proof (NoDup_fst_map_to_list r.(entries)) as Hnd. revert Hnd.
  generalize (map_to_list (entries r)). intros l. induction l as [|[k e] l IH]; [done|].
  csimpl. intros [Hk Hnd]%NoDup_cons. rewrite filter_cons. case_decide; [|auto]. csimpl.
  apply NoDup_cons. split; [|auto]. rewrite list_elem_of_fmap. intros ([k' e'] & -> & Hin).
  apply list_elem_of_filter in Hin as [_ Hin]. apply Hk, list_elem_of_fmap. by exists (k', e').
Qed.

(** The effect of a poll in the order [roles]. *)
Lemma teardown_eligible r now roles :
  roles ≡ₚ idle_eligible_for_teardown r now →
  (∀ x, (teardown_all r roles).1.(entries) !! x
     = (λ e, if idle_eligible now e then torn e else e) <$> r.(entries) !! x)
  ∧ ∀ c, c ∈ (teardown_all r roles).2 ↔
      ∃ role e, r.(entries) !! role = Some e ∧ e.(resident) = Some c ∧ idle_eligible now e = true.
Proof.
  intros Hp. split.
  - intros x. rewrite teardown_all_entries. case_decide as Hx; rewrite Hp, idle_eligible_elem in Hx.
    + destruct Hx as (e & -> & He). cbn. by rewrite He.
    + destruct (entries r !! x) as [e|] eqn:E; [|done]. cbn. destruct (idle_eligible now e) eqn:He; [|done].
      destruct Hx. by exists e.
  - intros c. rewrite teardown_all_killed by (rewrite Hp; apply idle_eligible_NoDup).
    setoid_rewrite Hp. setoid_rewrite idle_eligible_elem. split.
    + intros (role & e & (e' & He' & Hi) & He & Hr). rewrite He in He'. injection He' as <-. by exists role, e.
    + intros (role & e & He & Hr & Hi). exists role, e. split_and!; [by exists e|done..].
Qed.

(** A poll under memory pressure tears down exactly the idle roles, in whatever order the
    hash map yields them: a role with a timeout that is resident and has been idle that long
    loses its process, which is killed; every other role is left as it was, and an
    always-resident role always is.  Without pressure nothing changes. *)
Theorem poll_tears_down_idle {S} `{MemorySource S} r (source : S) threshold now :
  let '(r', killed) := poll_once r source threshold now in
  if f64_leb threshold (available_ratio source) then r' = r ∧ killed = []
  else
    (∀ role, r'.(entries) !! role
       = (λ e, if idle_eligible now e then torn e else e) <$> r.(entries) !! role)
    ∧ (∀ c, c ∈ killed ↔ ∃ role e, r.(entries) !! role = Some e ∧ e.(resident) = Some c
         ∧ idle_eligible now e = true)
    ∧ (∀ role e, r.(entries) !! role = Some e → e.(policy) = AlwaysResident → r'.(entries) !! role = Some e)
    ∧ ∀ roles, roles ≡ₚ idle_eligible_for_teardown r now → (teardown_all r roles).1 = r'.
Proof.
  unfold poll_once. destruct (f64_leb _ _); [done|].
  pose proof (teardown_eligible r now (idle_eligible_for_teardown r now) (reflexivity _)) as [He Hk].
  destruct (teardown_all r _) as [r' killed]. cbn in He, Hk. split_and!; [done..| |].
  - intros role e Hr Hp. rewrite He, Hr. cbn. unfold idle_eligible. rewrite Hp. cbn. by destruct (resident e).
  - intros roles Hperm. destruct (teardown_eligible r now roles Hperm) as [He' _].
    destruct (teardown_all r roles) as [r2 k2]. cbn in *. destruct r2, r'. f_equal. apply map_eq.
    intros x. cbn in *. by rewrite He, He'.
Qed.

(** ** No process is lost *)

(** The children the registry owns: a [Child] is a handle, held by one role at a time. *)
Definition residents (r : ProcessRegistry) : list Child :=
  omap (λ kv, kv.2.(resident)) (map_to_list r.(entries)).

Definition resident_of (r : ProcessRegistry) (role : list N) : list Child :=
  option_list (r.(entries) !! role ≫= resident).

(** The launcher's calls; nothing is assumed of the role they name.  A teardown poll carries the
    order in which the hash map yields the idle roles. *)
Inductive launch_call :=
  | CallRegister (role : list N) (p : ProcessPolicy) (child : option Child) (now : Instant)
  | CallActive (role : list N) (now : Instant)
  | CallResident (role : list N) (child : Child) (now : Instant)
  | CallTeardown (role : list N)
  | CallPoll (available threshold : f64) (now : Instant) (order : list (list N)).

(** The call's effect: the registry after it, the processes killed and reaped, and those handed
    back to the caller. *)
Inductive launch_step (r : ProcessRegistry) : launch_call → ProcessRegistry → list Child → list Child → Prop :=
  | launch_register role p child now :
      launch_step r (CallRegister role p child now) (register_role r role p child now) [] []
  | launch_active role now : launch_step r (CallActive role now) (mark_active r role now) [] []
  | launch_resident role child now back r' :
      set_resident r role child now = (back, r') →
      launch_step r (CallResident role child now) r' [] (option_list back)
  | launch_teardown role r' killed :
      teardown r role = (r', killed) → launch_step r (CallTeardown role) r' killed []
  | launch_no_pressure available threshold now order :
      f64_leb threshold available = true →
      launch_step r (CallPoll available threshold now order) r [] []
  | launch_pressure available threshold now order r' killed :
      f64_leb threshold available = false →
      order ≡ₚ idle_eligible_for_teardown r now → teardown_all r order = (r', killed) →
      launch_step r (CallPoll available threshold now order) r' killed [].

(** The handles a call brings in, and the handle it overwrites: the one of the role that is
    registered again, or filled again. *)
Definition given (call : launch_call) : list Child :=
  match call with
  | CallRegister _ _ child _ => option_list child
  | CallResident _ child _ => [child]
  | _ => []
  end.

Definition overwritten (r : ProcessRegistry) (call : launch_call) : list Child :=
  match call with
  | CallRegister role _ _ _ | CallResident role _ _ => resident_of r role
  | _ => []
  end.

(** A run of calls, with everything killed, handed back and overwritten on the way. *)
Inductive launch_run (r : ProcessRegistry) :
    list launch_call → ProcessRegistry → list Child → list Child → list Child → Prop :=
  | run_done : launch_run r [] r [] [] []
  | run_call call calls r1 r2 killed1 killed2 back1 back2 dropped :
      launch_step r call r1 killed1 back1 →
      launch_run r1 calls r2 killed2 back2 dropped →
      launch_run r (call :: calls) r2 (killed1 ++ killed2) (back1 ++ back2)
        (overwritten r call ++ dropped).

Lemma residents_insert r role e :
  residents (MkProcesses (<[role := e]> r.(entries))) ++ resident_of r role
  ≡ₚ option_list e.(resident) ++ residents r.
Proof.
  assert (∀ m e', residents (MkProcesses (<[role := e']> (delete role m)))
    ≡ₚ option_list e'.(resident) ++ residents (MkProcesses (delete role m))) as Hins.
  { intros m e'. unfold residents. cbn [entries].
    rewrite map_to_list_insert by apply lookup_delete_eq. cbn. by destruct (resident e'). }
  rewrite <- insert_delete_eq, Hins, <- app_assoc. f_equiv. unfold resident_of.
  destruct (entries r !! role) as [e0|] eqn:E; cbn [mbind option_bind].
  - replace r with (MkProcesses (<[role := e0]> (delete role (entries r)))) at 2
      by (destruct r; cbn in *; by rewrite insert_delete_id).
    rewrite Hins. by rewrite Permutation_app_comm.
  - cbn. rewrite delete_id by done. destruct r. by rewrite app_nil_r.
Qed.

Lemma resident_of_Some r role e :
  r.(entries) !! role = Some e → resident_of r role = option_list e.(resident).
Proof. unfold resident_of. by intros ->. Qed.

Lemma residents_teardown r role :
  residents (teardown r role).1 ++ (teardown r role).2 ≡ₚ residents r.
Proof.
  unfold teardown. destruct (entries r !! role) as [e|] eqn:E; cbn [fst snd]; [|by rewrite app_nil_r].
  rewrite <- (resident_of_Some _ _ _ E). by rewrite residents_insert.
Qed.

Lemma residents_teardown_all r roles :
  residents (teardown_all r roles).1 ++ (teardown_all r roles).2 ≡ₚ residents r.
Proof.
  revert r; induction roles as [|role roles IH]; intros r; cbn [teardown_all]; [by rewrite app_nil_r|].
  pose proof (residents_teardown r role) as H1. destruct (teardown r role) as [r1 k1]. specialize (IH r1).
  destruct (teardown_all r1 roles) as [r2 k2]. cbn in *. rewrite <- H1, <- IH, <- app_assoc.
  f_equiv. apply Permutation_app_comm.
Qed.

Lemma residents_step r call r' killed back :
  launch_step r call r' killed back →
  residents r ++ given call ≡ₚ residents r' ++ killed ++ back ++ overwritten r call.
Proof.
  destruct 1 as [role p child now|role now|role child now back r' Hset|role r' killed Ht
    |available threshold now order _|available threshold now order r' killed _ _ Ht]; cbn [given overwritten app];
    rewrite ?app_nil_r.
  - unfold register_role. rewrite residents_insert. apply Permutation_app_comm.
  - unfold mark_active. destruct (entries r !! role) as [e|] eqn:E; [|done].
    pose proof (residents_insert r role (MkProcess (policy e) (resident e) now)) as Hi.
    rewrite (resident_of_Some _ _ _ E) in Hi. cbn [resident] in Hi.
    rewrite (Permutation_app_comm _ (residents r)) in Hi.
    symmetry. eapply Permutation_app_inv_r; exact Hi.
  - unfold set_resident in Hset. destruct (entries r !! role) as [e|] eqn:E; injection Hset as <- <-; cbn [option_list app].
    + rewrite residents_insert. apply Permutation_app_comm.
    + unfold resident_of. rewrite E. done.
  - pose proof (residents_teardown r role) as Hr. rewrite Ht in Hr. by symmetry.
  - done.
  - pose proof (residents_teardown_all r order) as Hr. rewrite Ht in Hr. by symmetry.
Qed.

(** C37. Processes are conserved by the launcher.  In any run of calls, in any order and with any
    role names, the processes held at the start and those handed in with the calls are, counted
    with multiplicity, those held at the end, those killed and reaped, those handed back to the
    caller, and those whose handle was overwritten.  The last are the only ones lost, and there are
    some only when a role that holds a process is registered or filled again: a run that fills only
    vacant roles loses nothing. *)
Theorem no_process_lost r calls r' killed back dropped :
  launch_run r calls r' killed back dropped →
  residents r ++ concat (given <$> calls) ≡ₚ residents r' ++ killed ++ back ++ dropped.
Proof.
  induction 1 as [r|r call calls r1 r2 k1 k2 b1 b2 dropped Hs _ IH]; [by rewrite !app_nil_r|].
  cbn [fmap list_fmap concat]. apply residents_step in Hs. rewrite app_assoc, Hs.
  rewrite (Permutation_app_comm (residents r1)), <- app_assoc, IH. solve_Permutation.
Qed.

(** Two roles registered, one filled twice, a poll under pressure and a child handed back. *)
Definition demo_calls : list launch_call :=
  [CallRegister (str "core") AlwaysResident None 0;
   CallRegister (str "mcp-server") (IdleTeardown 100) (Some 7%N) 0;
   CallResident (str "mcp-server") 8%N 10;
   CallResident (str "plugin") 9%N 20;
   CallPoll (f64_of_Z 0) (f64_of_Z 1) 500 [str "mcp-server"]].

Definition demo_processes : ProcessRegistry :=
  register_role (register_role new_processes (str "core") AlwaysResident None 0)
    (str "mcp-server") (IdleTeardown 100) (Some 7%N) 0.

Definition filled_processes : ProcessRegistry := (set_resident demo_processes (str "mcp-server") 8%N 10).2.

Definition torn_processes : ProcessRegistry := (teardown_all filled_processes [str "mcp-server"]).1.

(** Child 8 is killed, child 9 handed back, and child 7, still running, is lost: its role was
    filled again. *)
Lemma no_process_lost_witness :
  residents new_processes ++ concat (given <$> demo_calls) ≡ₚ residents torn_processes ++ [8%N] ++ [9%N] ++ [7%N].
Proof.
  apply (no_process_lost new_processes demo_calls torn_processes [8%N] [9%N] [7%N]).
  refine (run_call _ _ _ _ _ [] _ [] _ _ (launch_register _ _ _ _ _) _).
  refine (run_call _ _ _ _ _ [] _ [] _ _ (launch_register _ _ _ _ _) _).
  refine (run_call _ _ _ filled_processes _ [] _ [] _ _ (launch_resident _ _ _ _ None _ _) _); [vm_compute; reflexivity|].
  refine (run_call _ _ _ filled_processes _ [] _ [9%N] _ _ (launch_resident _ _ _ _ (Some 9%N) _ _) _); [vm_compute; reflexivity|].
  refine (run_call _ _ _ torn_processes _ [8%N] _ [] _ _ (launch_pressure _ _ _ _ _ _ _ _ _ _) (run_done _)).
  - vm_compute; reflexivity.
  - assert (idle_eligible_for_teardown filled_processes 500 = [str "mcp-server"]) as -> by (vm_compute; reflexivity).
    reflexivity.
  - vm_compute; reflexivity.
Defined.
