(* ===== verification/JsValue.v ===== *)
(** * BlueJS values (bluejs/src/value.rs, string.rs, property.rs)

    Object handles, UTF-16 strings, symbols, values, property names and descriptors, with the
    byte charges of the heap's budget and the value comparisons of ECMAScript.  A [BigInt] is an
    integer; the length of its two's complement form comes from the [num-bigint] crate and is a
    parameter ([bigint_bytes] of [JsHost]). *)

From S2P Require Import Prelude Float.

(** [value.rs]: an opaque object identity.  The heap identity keeps a handle of another heap
    from naming one of this heap's objects. *)
Record ObjectId := mkObjectId { oid_heap : N; oid_serial : N }.

#[export] Instance ObjectId_eq_dec : EqDecision ObjectId.
Proof. solve_decision. Defined.
#[export] Instance ObjectId_countable : Countable ObjectId.
Proof.
  refine (inj_countable' (λ o, (oid_heap o, oid_serial o)) (λ p, mkObjectId p.1 p.2) _).
  by intros [].
Defined.

(** [string.rs]: a sequence of UTF-16 code units. *)
Abbreviation JsString := (list N) (only parsing).

(** [size_of::<u16>()] bytes for each unit. *)
Definition byte_len (s : JsString) : N := N.of_nat (length s) * 2.

(** [string.rs] [push_code_point]: a code point above the basic plane becomes a surrogate pair. *)
Definition push_code_point (s : JsString) (code : N) : JsString :=
  if (code <=? 0xffff)%N then s ++ [code]
  else s ++ [(code - 0x10000) / 0x400 + 0xd800; (code - 0x10000) mod 0x400 + 0xdc00]%N.

(** [str::encode_utf16]. *)
Definition encode_utf16 (s : rstring) : JsString := foldl push_code_point [] s.

Definition USIZE_MAX : N := U64_MAX.

(** [checked_mul]/[checked_add] on [usize]. *)
Definition checked_usize (n : N) : option N := if (n <=? USIZE_MAX)%N then Some n else None.

(** [JsString::index]: a canonical array index or other canonical decimal integer. *)
Fixpoint index_digits (acc : N) (units : JsString) : option N :=
  match units with
  | [] => Some acc
  | u :: us =>
      if negb ((48 <=? u) && (u <=? 57))%N then None
      else
        acc ← checked_usize (acc * 10);
        acc ← checked_usize (acc + (u - 48));
        index_digits acc us
  end.

Definition js_index (s : JsString) : option N :=
  match s with
  | [] => None
  | u :: us => if negb (length us =? 0) && (u =? 48)%N then None else index_digits 0 s
  end.

(** [property.rs]: a symbol is its identity; the description is carried along. *)
Record JsSymbol := mkJsSymbol { sym_id : N; sym_description : option JsString }.

Definition symbol_eqb (a b : JsSymbol) : bool := (sym_id a =? sym_id b)%N.

Definition WELL_KNOWN : list string :=
  ["iterator"; "match"; "matchAll"; "replace"; "search"; "split"; "toPrimitive"; "toStringTag";
   "species"; "hasInstance"; "isConcatSpreadable"; "unscopables"; "asyncIterator"; "dispose";
   "asyncDispose"; "metadata"]%string.

Fixpoint name_position (name : rstring) (l : list string) : option nat :=
  match l with
  | [] => None
  | n :: l => if bool_decide (str n = name) then Some 0 else S <$> name_position name l
  end.

Definition well_known (name : rstring) : res JsSymbol :=
  i ← unwrap (name_position name WELL_KNOWN);
  Ok (mkJsSymbol (N.of_nat i + 1) (Some (encode_utf16 (str "Symbol." ++ name)))).

Definition descriptive_string (s : JsSymbol) : JsString :=
  str "Symbol(" ++ default [] (sym_description s) ++ str ")".

Inductive Value :=
  | VUndefined
  | VNull
  | VBool (b : bool)
  | VNumber (n : f64)
  | VBigInt (n : Z)
  | VString (s : JsString)
  | VSymbol (s : JsSymbol)
  | VObject (id : ObjectId).

Definition as_string (v : Value) : option JsString :=
  match v with VString s => Some s | _ => None end.
Definition as_number (v : Value) : option f64 :=
  match v with VNumber n => Some n | _ => None end.
Definition as_bigint (v : Value) : option Z :=
  match v with VBigInt n => Some n | _ => None end.
Definition object_id (v : Value) : option ObjectId :=
  match v with VObject id => Some id | _ => None end.

(** The derived [PartialEq]: numbers compare as IEEE numbers, symbols by identity. *)
Definition value_eqb (a b : Value) : bool :=
  match a, b with
  | VUndefined, VUndefined | VNull, VNull => true
  | VBool a, VBool b => Bool.eqb a b
  | VNumber a, VNumber b => f64_eqb a b
  | VBigInt a, VBigInt b => (a =? b)%Z
  | VString a, VString b => bool_decide (a = b)
  | VSymbol a, VSymbol b => symbol_eqb a b
  | VObject a, VObject b => bool_decide (a = b)
  | _, _ => false
  end.

Definition is_nan (x : f64) : bool := match x with S754_nan => true | _ => false end.

(** [heap.rs] [same_value_zero] and [same_value]; a non-NaN number is determined by its bits, so
    [to_bits] equality is equality. *)
Definition same_value_zero (left right : Value) : bool :=
  value_eqb left right ||
  match left, right with VNumber a, VNumber b => is_nan a && is_nan b | _, _ => false end.

Definition same_value (a b : Value) : bool :=
  match a, b with
  | VNumber a, VNumber b => (is_nan a && is_nan b) || bool_decide (a = b)
  | _, _ => value_eqb a b
  end.

(** What [same_value_zero_hash] feeds to the hasher: a tag and the canonical payload, where all
    NaNs and both zeros are one number. *)
Inductive hash_input :=
  | HUndefined
  | HNull
  | HBool (b : bool)
  | HNumber (bits : f64)
  | HBigInt (n : Z)
  | HString (s : JsString)
  | HSymbol (id : N)
  | HObject (id : ObjectId).

Definition canonical_number (n : f64) : f64 :=
  if is_nan n then S754_nan else if f64_eqb n f64_zero then f64_zero else n.

Definition same_value_zero_input (v : Value) : hash_input :=
  match v with
  | VUndefined => HUndefined
  | VNull => HNull
  | VBool b => HBool b
  | VNumber n => HNumber (canonical_number n)
  | VBigInt n => HBigInt n
  | VString s => HString s
  | VSymbol s => HSymbol (sym_id s)
  | VObject id => HObject id
  end.

Definition normalize_collection_key (key : Value) : Value :=
  match key with
  | VNumber n => if f64_eqb n f64_zero then VNumber f64_zero else key
  | _ => key
  end.

(** [property.rs] [PropertyName]; equality and hashing see a symbol's identity only, so a map
    keyed by property names is keyed by [pkey]. *)
Inductive PropertyName :=
  | PString (s : JsString)
  | PSymbol (s : JsSymbol).

Abbreviation PKey := (JsString + N)%type (only parsing).
Definition pkey (k : PropertyName) : PKey :=
  match k with PString s => inl s | PSymbol s => inr (sym_id s) end.

Definition name_eqb (a b : PropertyName) : bool := bool_decide (pkey a = pkey b).

Definition into_string (k : PropertyName) : option JsString :=
  match k with PString s => Some s | PSymbol _ => None end.

Definition name_byte_len (k : PropertyName) : N :=
  match k with
  | PString s => byte_len s
  | PSymbol s => match sym_description s with Some d => byte_len d | None => 0 end
  end.

Definition name_index (k : PropertyName) : option N :=
  match k with PString s => js_index s | PSymbol _ => None end.

Definition name_value (k : PropertyName) : Value :=
  match k with PString s => VString s | PSymbol s => VSymbol s end.

(** [key == "length"] and other comparisons with a literal. *)
Definition is_name (k : PropertyName) (s : rstring) : bool :=
  match k with PString t => bool_decide (t = encode_utf16 s) | PSymbol _ => false end.

(** [heap.rs] [array_index]: every index but [u32::MAX]. *)
Definition array_index (k : PropertyName) : option N :=
  match name_index k with
  | Some i => if (i <? U32_MAX)%N then Some i else None
  | None => None
  end.

Record PropertyDescriptor := mkPropertyDescriptor {
  pd_value : option Value;
  pd_writable : option bool;
  pd_get : option Value;
  pd_set : option Value;
  pd_enumerable : option bool;
  pd_configurable : option bool;
}.

(** [PropertyDescriptor::data]. *)
Definition data_descriptor (value : Value) (writable enumerable configurable : bool) :=
  mkPropertyDescriptor (Some value) (Some writable) None None (Some enumerable) (Some configurable).

Definition accessor (d : PropertyDescriptor) : bool :=
  bool_decide (is_Some (pd_get d)) || bool_decide (is_Some (pd_set d)).

(** [JsString::own_property]: the virtual properties of a boxed string. *)
Definition string_own_property (s key : JsString) : option Value :=
  if bool_decide (key = encode_utf16 (str "length"))
  then Some (VNumber (f64_of_Z (Z.of_nat (length s))))
  else
    i ← js_index key;
    unit ← s !! N.to_nat i;
    Some (VString [unit]).

(** [heap.rs] [string_property]. *)
Definition string_property (s : JsString) (key : PropertyName) : option Value :=
  match key with PString k => string_own_property s k | PSymbol _ => None end.

(** ** Comparison of values

    SameValueZero is equality of what is hashed, hence an equivalence that the hash respects. *)
#[export] Instance hash_input_eq_dec : EqDecision hash_input.
Proof. solve_decision. Defined.

Lemma f64_eqb_spec x y :
  f64_eqb x y = true ↔
  (∃ s t, x = S754_zero s ∧ y = S754_zero t) ∨ (x = y ∧ is_nan x = false).
Proof.
  unfold f64_eqb, SFeqb. destruct x as [s|s| |s m e], y as [t|t| |t m' e']; cbn;
    try (split; [intros E; try destruct s; try destruct t; cbn in E; try discriminate; naive_solver
                |intros [(? & ? & [=] & [=])|[[=] [=]]]; subst; try destruct s; try destruct t; done]).
  all: try (destruct s, t; split; naive_solver).
  change (PosDef.Pos.compare_cont Eq m m') with (Pos.compare m m').
  split.
  - intros E. right. assert (s = t ∧ e = e' ∧ m = m') as (-> & -> & ->); [|done].
    revert E. destruct s, t; try discriminate;
      destruct (Z.compare_spec e e') as [->|?|?]; try discriminate;
      destruct (m ?= m')%positive eqn:Em; try discriminate;
      by apply Pos.compare_eq in Em as ->.
  - intros [(? & ? & [=] & ?)|[[= -> -> ->] _]]. rewrite Z.compare_refl, Pos.compare_refl.
    by destruct t.
Qed.

Lemma f64_eqb_zero_r x : f64_eqb x f64_zero = true ↔ ∃ s, x = S754_zero s.
Proof. rewrite f64_eqb_spec. unfold f64_zero. split; [|naive_solver]. intros [(s & t & -> & _)|[-> _]]; eauto. Qed.

(** SameValueZero compares exactly what is hashed. *)
Lemma same_value_zero_spec a b :
  same_value_zero a b = true ↔ same_value_zero_input a = same_value_zero_input b.
Proof.
  unfold same_value_zero.
  destruct a, b; cbn -[f64_eqb canonical_number]; rewrite ?orb_false_r; try (split; discriminate); try done.
  - rewrite eqb_true_iff. split; congruence.
  - rewrite orb_true_iff, andb_true_iff, f64_eqb_spec.
    assert (∀ x, is_nan x = true → x = S754_nan) as Hn by (by intros []).
    assert (∀ x, (is_nan x = true ∧ canonical_number x = S754_nan) ∨ (∃ s, x = S754_zero s ∧ canonical_number x = f64_zero)
                 ∨ (is_nan x = false ∧ (∀ s, x ≠ S754_zero s) ∧ canonical_number x = x)) as Hc.
    { intros x. unfold canonical_number. destruct (is_nan x) eqn:E; [auto|].
      destruct (f64_eqb x f64_zero) eqn:E0.
      - apply f64_eqb_zero_r in E0 as [s ->]. eauto.
      - right; right. split_and!; [done|intros s ->|done]. by destruct s. }
    split.
    + intros [[(s & t & -> & ->)|[-> _]]|[->%Hn ->%Hn]]; [|done|done]. by destruct s, t.
    + intros [= E].
      destruct (Hc n) as [[H1 H2]|[(s & -> & H2)|(H1 & H2 & H3)]],
               (Hc n0) as [[H4 H5]|[(t & -> & H5)|(H4 & H5 & H6)]]; rewrite ?H2, ?H3, ?H5, ?H6 in E;
        try naive_solver.
      all: try (subst; cbn in *; naive_solver).
  - rewrite Z.eqb_eq. split; congruence.
  - rewrite bool_decide_eq_true. split; congruence.
  - unfold symbol_eqb. rewrite N.eqb_eq. split; congruence.
  - rewrite bool_decide_eq_true. split; congruence.
Qed.

Lemma same_value_zero_refl v : same_value_zero v v = true.
Proof. by apply same_value_zero_spec. Qed.

Lemma same_value_zero_sym a b : same_value_zero a b = same_value_zero b a.
Proof.
  apply eq_true_iff_eq. rewrite !same_value_zero_spec. naive_solver.
Qed.

Lemma same_value_zero_trans a b c :
  same_value_zero a b = true → same_value_zero b c = true → same_value_zero a c = true.
Proof. rewrite !same_value_zero_spec. congruence. Qed.

(** Normalizing a key keeps its identity. *)
Lemma normalize_collection_key_same k : same_value_zero (normalize_collection_key k) k = true.
Proof.
  destruct k as [| |b|x|z|s|y|o]; try apply same_value_zero_refl.
  unfold normalize_collection_key.
  destruct (f64_eqb x f64_zero) eqn:E; [|apply same_value_zero_refl].
  apply f64_eqb_zero_r in E as [s ->]. by destruct s.
Qed.
