(* ===== verification/JsObject.v ===== *)
(** * BlueJS heap objects (bluejs/src/heap.rs, value.rs, native.rs)

    The data of the JavaScript heap: every kind of object with its internal slots, the frames of
    suspended generators, insertion-ordered collections, and the heap itself.  [references]
    lists the strong edges the collector follows out of an object; the functions named
    [..._bytes] are the charges of the managed-byte budget.

    [JsHost] collects what the heap only stores or measures: compiled code, the built-in
    functions that hold no handle, locale data, shared buffers, the standard library's hasher,
    the description each symbol identity was created with, and Rust's struct sizes. *)

From S2P Require Import Prelude Float JsValue.

Class JsHost := {
  Bytecode : Type;
  code_source_text : Bytecode → option JsString;
  code_constructible : Bytecode → bool;
  HostFunction : Type;
  host_has_construct : HostFunction → bool;
  IntlData : Type;
  intl_bytes : IntlData → N;
  segment_records : IntlData → N;
  SharedBuffer : Type;
  DurationRecord : Type;
  bigint_bytes : Z → N;
  symbol_description : N → option JsString;
  hasher : hash_input → N;
  OBJECT_BYTES : N;
  PRIVATE_DATA_BYTES : N;
  CLOSURE_METADATA_BYTES : N;
  SZ_Value : N;
  SZ_ObjectId : N;
  SZ_PropertyName : N;
  SZ_Property : N;
  SZ_Attribute : N;
  SZ_PrivateElement : N;
  SZ_PrivateSlot : N;
  SZ_MapEntry : N;
  SZ_WeakEntry : N;
  SZ_FinalizationCell : N;
  SZ_ParameterEntry : N;
  SZ_Export : N;
  SZ_CaptureName : N;
  SZ_TemporalValue : N;
  SZ_AsyncRequest : N;
  SZ_HandlerFrame : N;
  SZ_PendingCompletion : N;
  SZ_CompletionSave : N;
  SZ_AsyncDelegate : N;
  SZ_Delegate : N;
}.

Fixpoint sumN (l : list N) : N :=
  match l with [] => 0 | x :: l => x + sumN l end.

(** [self.iter().filter_map(Value::object_id)] *)
Definition object_ids (l : list Value) : list ObjectId := omap object_id l.

Section objects.
Context {H : JsHost}.

(** [value.rs] *)
Definition payload_bytes (v : Value) : N :=
  match v with
  | VString s => byte_len s
  | VSymbol s => match sym_description s with Some d => byte_len d | None => 0 end
  | VBigInt n => bigint_bytes n
  | _ => 0
  end.

(** A symbol's description is fixed when its identity is drawn ([JsSymbol::new]). *)
Definition wf_symbol (s : JsSymbol) : Prop := sym_description s = symbol_description (sym_id s).
Definition wf_value (v : Value) : Prop := ∀ s, v = VSymbol s → wf_symbol s.

(** [native.rs]: the built-in functions that hold handles, and the others. *)
Inductive NativeFunction :=
  | ProxyRevoker (proxy : ObjectId)
  | PromiseResolvingFunction (promise : ObjectId) (fulfill : bool) (state : ObjectId)
  | PromiseCapabilityExecutor (storage : ObjectId)
  | ArrayFromAsyncResume (state : ObjectId) (rejected : bool)
  | AsyncFromSyncFulfill (target : ObjectId) (done : bool)
  | AsyncFromSyncReject (target record : ObjectId)
  | PromiseElement (state : ObjectId) (index : N)
  | PromiseFinallyFunction (state : ObjectId) (catch : bool)
  | PromiseValueThunk (state : ObjectId) (thrower : bool)
  | DecoratorAddInitializer (state : ObjectId)
  | DecoratorAccess (state : ObjectId)
  | OtherNative (f : HostFunction).

Definition native_references (f : NativeFunction) : list ObjectId :=
  match f with
  | ProxyRevoker proxy => [proxy]
  | PromiseResolvingFunction promise _ state => [promise; state]
  | PromiseCapabilityExecutor storage => [storage]
  | ArrayFromAsyncResume state _ => [state]
  | AsyncFromSyncFulfill target _ => [target]
  | AsyncFromSyncReject target record => [target; record]
  | PromiseElement state _ | PromiseFinallyFunction state _ | PromiseValueThunk state _
  | DecoratorAddInitializer state | DecoratorAccess state => [state]
  | OtherNative _ => []
  end.

(** ** Private class elements and closure metadata *)
Inductive PrivateElement :=
  | PField
  | PMethod (value : Value)
  | PAccessor (get set : option Value).

Definition private_element_references (e : PrivateElement) : list ObjectId :=
  match e with
  | PField => []
  | PMethod value => option_list (object_id value)
  | PAccessor get set => object_ids (option_list get ++ option_list set)
  end.

Record ClosureMetadata := mkClosureMetadata {
  cm_home : option ObjectId;
  cm_fields : option ObjectId;
  cm_with_objects : list Value;
  cm_new_target : option Value;
}.

Definition default_metadata : ClosureMetadata := mkClosureMetadata None None [] None.

Definition metadata_references (m : ClosureMetadata) : list ObjectId :=
  option_list (cm_home m) ++ option_list (cm_fields m) ++ object_ids (cm_with_objects m)
  ++ object_ids (option_list (cm_new_target m)).

(** ** Suspended generators *)
Inductive GeneratorHandlerState := HTry | HCatch | HFinally.

Record GeneratorHandlerFrame := mkHandlerFrame {
  hf_metadata : N;
  hf_stack_depth : N;
  hf_scope_depth : N;
  hf_iterator_depth : N;
  hf_with_depth : N;
  hf_state : GeneratorHandlerState;
  hf_pending : option N;
}.

Inductive GeneratorPendingCompletion :=
  | PCThrow (v : Value)
  | PCReferenceError (message : rstring)
  | PCTypeError (message : rstring)
  | PCRangeError (message : rstring)
  | PCSyntaxError (message : rstring)
  | PCTest262 (message : rstring)
  | PCReturn (v : Value)
  | PCTailRecur (values : list Value)
  | PCJump (cleanup target : N).

Definition pending_references (p : GeneratorPendingCompletion) : list ObjectId :=
  match p with
  | PCThrow v | PCReturn v => option_list (object_id v)
  | PCTailRecur values => object_ids values
  | _ => []
  end.

Definition pending_bytes (p : GeneratorPendingCompletion) : N :=
  match p with
  | PCThrow v | PCReturn v => payload_bytes v
  | PCReferenceError m | PCTypeError m | PCRangeError m | PCSyntaxError m | PCTest262 m =>
      N.of_nat (str_len m)
  | PCTailRecur values =>
      N.of_nat (length values) * SZ_Value + sumN (payload_bytes <$> values)
  | PCJump _ _ => 0
  end.

(** [AsyncGeneratorDelegate] and [GeneratorDelegate]. *)
Record Delegate := mkDelegate { dg_record : Value; dg_exit_pc : N }.

Record StartFrame := mkStartFrame {
  st_code : Bytecode;
  st_captures : list ObjectId;
  st_callee : Value;
  st_receiver : Value;
  st_args : list Value;
  st_home : option ObjectId;
  st_with_objects : list Value;
}.

Record SuspendedFrame := mkSuspendedFrame {
  sf_code : Bytecode;
  sf_pc : N;
  sf_stack : list Value;
  sf_bindings : list (option Value);
  sf_cells : list (N * ObjectId);
  sf_this : Value;
  sf_args : list Value;
  sf_completion : Value;
  sf_completion_empty : bool;
  sf_active_scopes : list N;
  sf_iterators : list Value;
  sf_handlers : list GeneratorHandlerFrame;
  sf_pending_completions : list GeneratorPendingCompletion;
  sf_completion_saves : list (Value * bool);
  sf_async_delegate : option Delegate;
  sf_delegate : option Delegate;
  sf_dynamic_bindings : list (rstring * ObjectId * list ObjectId);
  sf_home : option ObjectId;
  sf_callee : Value;
  sf_with_objects : list Value;
}.

Inductive GeneratorState :=
  | GStart (f : StartFrame)
  | GSuspended (f : SuspendedFrame)
  | GRunning
  | GDone.

Definition generator_references (g : GeneratorState) : list ObjectId :=
  match g with
  | GStart f =>
      st_captures f ++ option_list (object_id (st_callee f))
      ++ option_list (object_id (st_receiver f)) ++ object_ids (st_args f)
      ++ option_list (st_home f) ++ object_ids (st_with_objects f)
  | GSuspended f =>
      object_ids
        (sf_stack f ++ sf_with_objects f ++ omap id (sf_bindings f) ++ [sf_this f] ++ sf_args f
         ++ [sf_completion f] ++ sf_iterators f ++ (fst <$> sf_completion_saves f)
         ++ (dg_record <$> option_list (sf_async_delegate f))
         ++ (dg_record <$> option_list (sf_delegate f)))
      ++ (snd <$> sf_cells f)
      ++ mjoin ((λ b : rstring * ObjectId * list ObjectId, b.1.2 :: b.2) <$> sf_dynamic_bindings f)
      ++ option_list (sf_home f) ++ option_list (object_id (sf_callee f))
      ++ mjoin (pending_references <$> sf_pending_completions f)
  | GRunning | GDone => []
  end.

Definition delegate_bytes (size : N) (d : option Delegate) : N :=
  match d with Some d => size + payload_bytes (dg_record d) | None => 0 end.

Definition generator_bytes (g : GeneratorState) : N :=
  let reference_bytes := (N.of_nat (length (generator_references g)) * SZ_ObjectId)%N in
  match g with
  | GSuspended f =>
      reference_bytes
      + N.of_nat (length (sf_handlers f)) * SZ_HandlerFrame
      + N.of_nat (length (sf_pending_completions f)) * SZ_PendingCompletion
      + sumN (pending_bytes <$> sf_pending_completions f)
      + N.of_nat (length (sf_completion_saves f)) * SZ_CompletionSave
      + sumN (payload_bytes <$> (fst <$> sf_completion_saves f))
      + delegate_bytes SZ_AsyncDelegate (sf_async_delegate f)
      + delegate_bytes SZ_Delegate (sf_delegate f)
  | GStart f => reference_bytes + sumN (payload_bytes <$> st_args f)
  | GRunning | GDone => reference_bytes
  end%N.

Inductive AsyncGeneratorCompletion :=
  | ACNext (v : Value)
  | ACReturn (v : Value)
  | ACThrow (v : Value)
  | ACReturnAwaited (v : Value)
  | ACResumeReturn (v : Value)
  | ACResumeThrow (v : Value).

Definition completion_value (c : AsyncGeneratorCompletion) : Value :=
  match c with
  | ACNext v | ACReturn v | ACThrow v | ACReturnAwaited v | ACResumeReturn v | ACResumeThrow v => v
  end.

Record AsyncGeneratorRequest := mkAsyncRequest {
  ar_id : N;
  ar_completion : AsyncGeneratorCompletion;
  ar_target : ObjectId;
}.

Inductive AsyncGeneratorStatus :=
  ASuspendedStart | ASuspendedYield | AAwaiting | AExecuting | ACompleted.

Record AsyncGeneratorControl := mkAsyncControl {
  ag_status : AsyncGeneratorStatus;
  ag_requests : list AsyncGeneratorRequest;
  ag_next_request_id : N;
}.

Definition default_control : AsyncGeneratorControl := mkAsyncControl ASuspendedStart [] 0.

Definition control_bytes (c : AsyncGeneratorControl) : N :=
  N.of_nat (length (ag_requests c)) * SZ_AsyncRequest
  + sumN ((λ r, payload_bytes (completion_value (ar_completion r))) <$> ag_requests c).

Definition control_references (c : AsyncGeneratorControl) : list ObjectId :=
  mjoin ((λ r, ar_target r :: option_list (object_id (completion_value (ar_completion r))))
         <$> ag_requests c).

Record BoundFunction := mkBoundFunction {
  bf_target : ObjectId;
  bf_this : Value;
  bf_args : list Value;
  bf_constructible : bool;
}.

(** ** Temporal values and regular expressions *)
Inductive TemporalKind :=
  | TKDuration | TKInstant | TKPlainDate | TKPlainDateTime | TKPlainMonthDay | TKPlainTime
  | TKPlainYearMonth | TKZonedDateTime.

Record TemporalValue := mkTemporalValue {
  tv_kind : TemporalKind;
  tv_duration : option DurationRecord;
  tv_year : Z;
  tv_month : N;
  tv_day : N;
  tv_hour : N;
  tv_minute : N;
  tv_second : N;
  tv_millisecond : N;
  tv_microsecond : N;
  tv_nanosecond : N;
  tv_epoch_nanoseconds : Z;
  tv_calendar : rstring;
  tv_time_zone : rstring;
}.

Definition temporal_bytes (t : TemporalValue) : N :=
  SZ_TemporalValue + bigint_bytes (tv_epoch_nanoseconds t) + N.of_nat (str_len (tv_calendar t))
  + N.of_nat (str_len (tv_time_zone t)).

(** [regexp.rs] *)
Record RegExp := mkRegExp {
  re_source : JsString;
  re_flags : rstring;
  re_capture_names : list (rstring * N);
  re_legacy_features : bool;
}.

(** [heap/exotic.rs] *)
Definition regexp_bytes (r : RegExp) : N :=
  byte_len (re_source r) + N.of_nat (str_len (re_flags r))
  + sumN ((λ c, N.of_nat (str_len c.1) + SZ_CaptureName)%N <$> re_capture_names r).

End objects.
