(* ===== verification/JsCollectionProps.v ===== *)
(** * Collections are insertion-ordered maps

    A well-formed collection is its list of live entries: every operation returns, answers as an
    association list under SameValueZero does, and keeps slot positions, for every hash
    function. *)

From S2P Require Import Prelude Float JsValue JsObject JsCollection.

(** ** The reference: an association list in insertion order *)
Fixpoint assoc_get (key : Value) (l : list (Value * Value)) : option (Value * Value) :=
  match l with
  | [] => None
  | e :: l => if same_value_zero e.1 key then Some e else assoc_get key l
  end.

Fixpoint assoc_set (key value : Value) (l : list (Value * Value)) : list (Value * Value) :=
  match l with
  | [] => [(key, value)]
  | e :: l => if same_value_zero e.1 key then (key, value) :: l else e :: assoc_set key value l
  end.

Fixpoint assoc_delete (key : Value) (l : list (Value * Value)) : list (Value * Value) :=
  match l with
  | [] => []
  | e :: l => if same_value_zero e.1 key then l else e :: assoc_delete key l
  end.

Section props.
Context {H : JsHost}.

Lemma same_value_zero_hash_eq a b :
  same_value_zero a b = true → same_value_zero_hash a = same_value_zero_hash b.
Proof. intros E%same_value_zero_spec. unfold same_value_zero_hash. by rewrite E. Qed.

(** The slots listed under a hash are exactly the live slots whose key has it. *)
Record wf_collection (c : OrderedCollection) : Prop := {
  wf_index h l :
    oc_indexes c !! h = Some l →
    NoDup l ∧ ∀ i, i ∈ l → ∃ k v, oc_entries c !! i = Some (Some (k, v)) ∧ same_value_zero_hash k = h;
  wf_found i k v :
    oc_entries c !! i = Some (Some (k, v)) →
    ∃ l, oc_indexes c !! same_value_zero_hash k = Some l ∧ i ∈ l;
  wf_distinct i j k v k' v' :
    oc_entries c !! i = Some (Some (k, v)) → oc_entries c !! j = Some (Some (k', v')) →
    same_value_zero k k' = true → i = j;
  wf_len : oc_len c = length (live_entries c);
}.

Lemma wf_empty : wf_collection empty_collection.
Proof. split; cbn; try done; intros *; rewrite ?lookup_empty, ?lookup_nil; discriminate. Qed.

(** ** Searching *)
Lemma find_slot_spec entries key l :
  (∀ i, i ∈ l → ∃ k v, entries !! i = Some (Some (k, v))) →
  (∃ i k v, find_slot entries key l = Ok (Some i) ∧ i ∈ l ∧ entries !! i = Some (Some (k, v))
            ∧ same_value_zero k key = true)
  ∨ (find_slot entries key l = Ok None
     ∧ ∀ i k v, i ∈ l → entries !! i = Some (Some (k, v)) → same_value_zero k key = false).
Proof.
  induction l as [|i l IH]; intros Hl; cbn.
  - right. split; [done|]. by intros * ?%elem_of_nil.
  - destruct (Hl i) as (k & v & E); [constructor|]. rewrite E. cbn.
    destruct (same_value_zero k key) eqn:Es.
    + left. exists i, k, v. split_and!; [done|constructor|done|done].
    + destruct IH as [(j & k' & v' & ? & ? & ? & ?)|[-> Hno]].
      * intros j Hj. apply Hl. by constructor.
      * left. exists j, k', v'. split_and!; [done|by constructor|done|done].
      * right. split; [done|]. intros j k' v' [->|Hj]%elem_of_cons Hj'; [congruence|eauto].
Qed.

Lemma find_index_spec c key :
  wf_collection c →
  (∃ i k v, find_index c key = Ok (Some i) ∧ oc_entries c !! i = Some (Some (k, v))
            ∧ same_value_zero k key = true)
  ∨ (find_index c key = Ok None
     ∧ ∀ i k v, oc_entries c !! i = Some (Some (k, v)) → same_value_zero k key = false).
Proof.
  intros W. unfold find_index.
  destruct (oc_indexes c !! same_value_zero_hash key) as [l|] eqn:El.
  - destruct (find_slot_spec (oc_entries c) key l) as [(i & k & v & ? & ? & ? & ?)|[E Hno]].
    + intros i Hi. apply (wf_index c W _ _ El) in Hi. naive_solver.
    + left. eauto 10.
    + right. split; [done|]. intros i k v Hi. destruct (same_value_zero k key) eqn:Es; [|done].
      destruct (wf_found c W _ _ _ Hi) as (l' & El' & Hl').
      rewrite (same_value_zero_hash_eq _ _ Es), El in El'. simplify_eq.
      rewrite (Hno i k v Hl' Hi) in Es. done.
  - right. split; [done|]. intros i k v Hi. destruct (same_value_zero k key) eqn:Es; [|done].
    destruct (wf_found c W _ _ _ Hi) as (l' & El' & _).
    rewrite (same_value_zero_hash_eq _ _ Es), El in El'. done.
Qed.

(** ** The live entries of changed slots *)
Lemma live_get entries key i k v :
  entries !! i = Some (Some (k, v)) → same_value_zero k key = true →
  (∀ j k' v', j < i → entries !! j = Some (Some (k', v')) → same_value_zero k' key = false) →
  assoc_get key (omap id entries) = Some (k, v)
  ∧ (∀ value, omap id (<[i := Some (key, value)]> entries) = assoc_set key value (omap id entries))
  ∧ omap id (<[i := None]> entries) = assoc_delete key (omap id entries)
  ∧ length (omap id entries) = S (length (omap id (<[i := None]> entries))).
Proof.
  revert i. induction entries as [|[[k0 v0]|] entries IH]; intros [|i] E Es Hlt; cbn in *; simplify_eq.
  - rewrite Es. done.
  - rewrite (Hlt 0 k0 v0); [|lia|done].
    destruct (IH i) as (? & Hs & Hd & Hn); [done|done| |].
    { intros j k' v' ? ?. apply (Hlt (S j) k' v'); [lia|done]. }
    split_and!; [done|intros value; f_equal; apply Hs|f_equal; apply Hd|f_equal; apply Hn].
  - destruct (IH i) as (? & Hs & ? & ?); [done|done| |by split_and!].
    intros j k' v' ? ?. apply (Hlt (S j) k' v'); [lia|done].
Qed.

Lemma live_absent entries key :
  (∀ j k v, entries !! j = Some (Some (k, v)) → same_value_zero k key = false) →
  assoc_get key (omap id entries) = None
  ∧ (∀ value, omap id (entries ++ [Some (key, value)]) = assoc_set key value (omap id entries))
  ∧ omap id entries = assoc_delete key (omap id entries).
Proof.
  induction entries as [|[[k0 v0]|] entries IH]; intros Hno; cbn; [done|..].
  - rewrite (Hno 0 k0 v0 eq_refl). destruct IH as (? & Hs & ?).
    { intros j. apply (Hno (S j)). }
    split_and!; [done|intros value; f_equal; apply Hs|by f_equal].
  - apply IH. intros j. apply (Hno (S j)).
Qed.

(** In a well-formed collection the match is the only one, so the first one. *)
Lemma wf_first c key i k v :
  wf_collection c → oc_entries c !! i = Some (Some (k, v)) → same_value_zero k key = true →
  ∀ j k' v', j ≠ i → oc_entries c !! j = Some (Some (k', v')) → same_value_zero k' key = false.
Proof.
  intros W Hi Hk j k' v' Hj Hj'. destruct (same_value_zero k' key) eqn:E; [|done].
  exfalso. apply Hj. apply (wf_distinct c W _ _ _ _ _ _ Hj' Hi).
  apply (same_value_zero_trans _ key); [done|]. by rewrite same_value_zero_sym.
Qed.

(** ** Operations *)
Lemma oc_get_spec c key :
  wf_collection c → oc_get c key = Ok (snd <$> assoc_get key (live_entries c)).
Proof.
  intros W. unfold oc_get, live_entries.
  destruct (find_index_spec c key W) as [(i & k & v & -> & E & Es)|[-> Hno]]; cbn.
  - rewrite E. cbn. edestruct (live_get (oc_entries c) key i k v) as (-> & _); [done|done| |done].
    intros j k' v' Hj Hj'. apply (wf_first c key i k v W E Es j k' v'); [lia|done].
  - by destruct (live_absent (oc_entries c) key Hno) as (-> & _).
Qed.

Lemma oc_has_spec c key :
  wf_collection c → oc_has c key = Ok (bool_decide (is_Some (assoc_get key (live_entries c)))).
Proof.
  intros W. unfold oc_has, live_entries.
  destruct (find_index_spec c key W) as [(i & k & v & -> & E & Es)|[-> Hno]]; cbn.
  - edestruct (live_get (oc_entries c) key i k v) as (-> & _); [done|done| |by rewrite !bool_decide_true by eauto].
    intros j k' v' Hj Hj'. apply (wf_first c key i k v W E Es j k' v'); [lia|done].
  - destruct (live_absent (oc_entries c) key Hno) as (-> & _). by rewrite !bool_decide_false by (by intros []).
Qed.

Lemma live_slot c i k v :
  oc_entries c !! i = Some (Some (k, v)) → (k, v) ∈ live_entries c.
Proof.
  intros E. apply list_elem_of_omap. exists (Some (k, v)). split; [|done].
  by eapply list_elem_of_lookup_2.
Qed.

(** Replacing the entry of a key keeps the index. *)
Lemma wf_replace c i k v key value :
  wf_collection c → oc_entries c !! i = Some (Some (k, v)) → same_value_zero k key = true →
  wf_collection (mkCollection (<[i := Some (key, value)]> (oc_entries c)) (oc_indexes c) (oc_len c)).
Proof.
  intros W E Es. pose proof (wf_first c key i k v W E Es) as Hf.
  destruct (live_get (oc_entries c) key i k v E Es) as (Hg & Hs & _ & _).
  { intros j k' v' Hj. apply Hf. lia. }
  pose proof (same_value_zero_hash_eq _ _ Es) as Eh.
  assert (i < length (oc_entries c)) as Hi by (by eapply lookup_lt_Some).
  split; cbn.
  - intros h l Hl. destruct (wf_index c W h l Hl) as [Hnd Hin]. split; [done|].
    intros j (k' & v' & Hj & Hh)%Hin. destruct (decide (i = j)) as [<-|Hij].
    + rewrite list_lookup_insert_eq by done. naive_solver.
    + rewrite list_lookup_insert_ne by done. eauto.
  - intros j k' v' Hj. apply list_lookup_insert_Some in Hj as [(<- & [= <- <-] & _)|[_ Hj]].
    + rewrite <-Eh. by apply (wf_found c W i k v).
    + by apply (wf_found c W j k' v').
  - intros j j' k1 v1 k2 v2 H1 H2 H12.
    apply list_lookup_insert_Some in H1 as [(<- & [= <- <-] & _)|[N1 H1]],
      H2 as [(<- & [= <- <-] & _)|[N2 H2]].
    + done.
    + rewrite same_value_zero_sym in H12. by rewrite (Hf j' k2 v2) in H12.
    + by rewrite (Hf j k1 v1) in H12.
    + by apply (wf_distinct c W j j' k1 v1 k2 v2).
  - rewrite (wf_len c W). unfold live_entries. cbn. rewrite Hs. clear -Hg.
    induction (omap id (oc_entries c)) as [|e l IH]; [done|]. cbn in *.
    destruct (same_value_zero e.1 key); [done|]. cbn. by rewrite <-IH.
Qed.

(** Appending an entry for a new key. *)
Lemma wf_append c key value (h := same_value_zero_hash key) (n := length (oc_entries c)) :
  wf_collection c →
  (∀ i k v, oc_entries c !! i = Some (Some (k, v)) → same_value_zero k key = false) →
  wf_collection (mkCollection (oc_entries c ++ [Some (key, value)])
    (<[h := default [] (oc_indexes c !! h) ++ [n]]> (oc_indexes c)) (S (oc_len c))).
Proof.
  intros W Hno.
  assert (∀ i, n ∈ default [] (oc_indexes c !! i) → False) as Hn.
  { intros i Hi. destruct (oc_indexes c !! i) as [l|] eqn:El; [|by apply elem_of_nil in Hi].
    apply (wf_index c W _ _ El) in Hi as (? & ? & ?%lookup_lt_Some & _). unfold n in *. lia. }
  assert (∀ j k' v', (oc_entries c ++ [Some (key, value)]) !! j = Some (Some (k', v')) →
            oc_entries c !! j = Some (Some (k', v')) ∨ (j = n ∧ k' = key ∧ v' = value)) as Hlk.
  { intros j k' v' [Hj|[? Hj]]%lookup_app_Some; [by left|right].
    apply list_lookup_singleton_Some in Hj as [? [= <- <-]]. split_and!; [unfold n; lia|done..]. }
  split; cbn.
  - intros h' l Hl. destruct (decide (h = h')) as [<-|Hh].
    + rewrite lookup_insert_eq in Hl. injection Hl as <-. split.
      * apply NoDup_app. split_and!; [|intros x Hx ->%list_elem_of_singleton; by apply Hn in Hx|by apply NoDup_singleton].
        destruct (oc_indexes c !! h) as [l|] eqn:El; [|constructor]. by apply (wf_index c W _ _ El).
      * intros i [Hi| ->%list_elem_of_singleton]%elem_of_app.
        -- destruct (oc_indexes c !! h) as [l|] eqn:El; [|by apply elem_of_nil in Hi].
           apply (wf_index c W _ _ El) in Hi as (k & v & Hi & Hh). exists k, v. split; [|done].
           by apply lookup_app_l_Some.
        -- exists key, value. split; [|done]. unfold n. by rewrite lookup_app_r, Nat.sub_diag by done.
    + rewrite lookup_insert_ne in Hl by done. destruct (wf_index c W _ _ Hl) as [? Hin].
      split; [done|]. intros i (k & v & ? & ?)%Hin. exists k, v. split; [|done]. by apply lookup_app_l_Some.
  - intros i k v [Hi|(-> & -> & ->)]%Hlk.
    + destruct (wf_found c W _ _ _ Hi) as (l & Hl & Hil). destruct (decide (h = same_value_zero_hash k)) as [->|Hh].
      * rewrite lookup_insert_eq, Hl. eexists; split; [done|]. apply elem_of_app. by left.
      * rewrite lookup_insert_ne by done. eauto.
    + fold h. rewrite lookup_insert_eq. eexists; split; [done|].
      apply elem_of_app. right. by apply list_elem_of_singleton.
  - intros i j k1 v1 k2 v2 [H1|(-> & -> & ->)]%Hlk [H2|(-> & -> & ->)]%Hlk Hk.
    + by apply (wf_distinct c W i j k1 v1 k2 v2).
    + by rewrite (Hno i k1 v1 H1) in Hk.
    + rewrite same_value_zero_sym in Hk. by rewrite (Hno j k2 v2 H2) in Hk.
    + done.
  - rewrite (wf_len c W). unfold live_entries. cbn. rewrite omap_app. cbn. rewrite length_app. cbn. lia.
Qed.

Lemma oc_set_spec c key value :
  wf_collection c →
  ∃ c', oc_set c key value = Ok (c', assoc_get key (live_entries c))
    ∧ wf_collection c' ∧ live_entries c' = assoc_set key value (live_entries c).
Proof.
  intros W. unfold oc_set. destruct (find_index_spec c key W) as [(i & k & v & -> & E & Es)|[-> Hno]]; cbn.
  - rewrite E. cbn. destruct (live_get (oc_entries c) key i k v E Es) as (Hg & Hs & _ & _).
    { intros j k' v' Hj. apply (wf_first c key i k v W E Es). lia. }
    eexists. split; [unfold live_entries; by rewrite Hg|]. split; [by eapply wf_replace|apply Hs].
  - destruct (live_absent (oc_entries c) key Hno) as (Hg & Hs & _).
    eexists. split; [unfold live_entries; by rewrite Hg|]. split; [by apply wf_append|apply Hs].
Qed.

(** ** Deletion *)
Lemma slot_position_spec index l : index ∈ l → ∃ p, slot_position index l = Some p ∧ l !! p = Some index.
Proof.
  induction l as [|i l IH]; [by intros ?%elem_of_nil|]. cbn. intros Hi.
  destruct (Nat.eqb_spec i index) as [->|Hne]; [by exists 0|].
  apply elem_of_cons in Hi as [->|Hi]; [done|]. destruct (IH Hi) as (p & -> & Hp). by exists (S p).
Qed.

Lemma swap_remove_perm {A} (l : list A) p x : l !! p = Some x → l ≡ₚ x :: swap_remove l p.
Proof.
  intros Hp. unfold swap_remove. destruct (last l) as [y|] eqn:El.
  2: { apply last_None in El as ->. done. }
  apply last_Some in El as [l' ->]. rewrite removelast_last, length_app. cbn.
  destruct (Nat.eqb_spec p (length l' + 1 - 1)) as [->|Hne].
  - rewrite lookup_app_r in Hp by lia. replace (_ - _) with 0 in Hp by lia. injection Hp as ->.
    by rewrite Permutation_app_comm.
  - assert (p < length l') as Hlt.
    { apply lookup_lt_Some in Hp. rewrite length_app in Hp. cbn in Hp. lia. }
    rewrite lookup_app_l in Hp by done. rewrite insert_take_drop by done.
    rewrite <-(take_drop_middle l' p x Hp) at 1.
    solve_Permutation.
Qed.

Lemma wf_remove c i k v key l p (h := same_value_zero_hash key) (l' := swap_remove l p) :
  wf_collection c → oc_entries c !! i = Some (Some (k, v)) → same_value_zero k key = true →
  oc_indexes c !! h = Some l → l !! p = Some i →
  wf_collection (mkCollection (<[i := None]> (oc_entries c))
    (match l' with [] => delete h (oc_indexes c) | _ => <[h := l']> (oc_indexes c) end) (pred (oc_len c))).
Proof.
  intros W E Es El Hp.
  destruct (wf_index c W _ _ El) as [Hnd Hin].
  pose proof (swap_remove_perm l p i Hp) as Hperm. fold l' in Hperm.
  assert (NoDup l' ∧ i ∉ l') as [Hnd' Hni].
  { rewrite Hperm in Hnd. by apply NoDup_cons in Hnd as [? ?]. }
  set (table := match l' with [] => _ | _ => _ end).
  assert (∀ h' j, j ∈ default [] (table !! h') ↔ j ∈ default [] (oc_indexes c !! h') ∧ j ≠ i) as Htab.
  { intros h' j. destruct (decide (h = h')) as [<-|Hh].
    - rewrite El. cbn. rewrite Hperm, elem_of_cons. unfold table. destruct l' eqn:El'.
      + rewrite lookup_delete_eq. cbn. rewrite elem_of_nil. naive_solver.
      + rewrite lookup_insert_eq. cbn. naive_solver.
    - assert (table !! h' = oc_indexes c !! h') as ->.
      { unfold table. destruct l'; [by rewrite lookup_delete_ne|by rewrite lookup_insert_ne]. }
      split; [|naive_solver]. intros Hj. split; [done|]. intros ->.
      destruct (oc_indexes c !! h') as [l1|] eqn:E1; [|by apply elem_of_nil in Hj].
      apply (wf_index c W _ _ E1) in Hj as (k1 & v1 & Hk1 & Hh1). simplify_eq.
      apply Hh. unfold h. symmetry. by apply same_value_zero_hash_eq. }
  split; cbn.
  - intros h' l1 Hl1. assert (∀ j, j ∈ l1 ↔ j ∈ default [] (oc_indexes c !! h') ∧ j ≠ i) as Hl1'.
    { intros j. by rewrite <-Htab, Hl1. }
    split.
    + unfold table in Hl1. destruct l' as [|y l''] eqn:El'.
      * apply lookup_delete_Some in Hl1 as [_ ?]. by eapply wf_index.
      * apply lookup_insert_Some in Hl1 as [[_ <-]|[_ ?]]; [done|by eapply wf_index].
    + intros j [Hj Hji]%Hl1'. rewrite list_lookup_insert_ne by done.
      destruct (oc_indexes c !! h') eqn:E1; [|by apply elem_of_nil in Hj]. by apply (wf_index c W _ _ E1).
  - intros j k1 v1 Hj. apply list_lookup_insert_Some in Hj as [(_ & ? & _)|[Hij Hj]]; [done|].
    destruct (wf_found c W _ _ _ Hj) as (l1 & Hl1 & Hjl1). specialize (Htab (same_value_zero_hash k1) j).
    rewrite Hl1 in Htab. cbn in Htab. destruct (table !! _) as [l2|]; [|cbn in Htab; set_solver].
    exists l2. split; [done|]. apply Htab. naive_solver.
  - intros j j' k1 v1 k2 v2 H1 H2. apply list_lookup_insert_Some in H1 as [(_ & ? & _)|[_ H1]]; [done|].
    apply list_lookup_insert_Some in H2 as [(_ & ? & _)|[_ H2]]; [done|]. by eapply wf_distinct.
  - rewrite (wf_len c W). unfold live_entries. cbn.
    destruct (live_get (oc_entries c) key i k v E Es) as (_ & _ & _ & ->); [|done].
    intros j k' v' Hj. apply (wf_first c key i k v W E Es). lia.
Qed.

Lemma oc_delete_spec c key :
  wf_collection c →
  ∃ c', oc_delete c key = Ok (c', assoc_get key (live_entries c))
    ∧ wf_collection c' ∧ live_entries c' = assoc_delete key (live_entries c).
Proof.
  intros W. unfold oc_delete. destruct (find_index_spec c key W) as [(i & k & v & -> & E & Es)|[-> Hno]]; cbn.
  - destruct (live_get (oc_entries c) key i k v E Es) as (Hg & _ & Hd & Hn).
    { intros j k' v' Hj. apply (wf_first c key i k v W E Es). lia. }
    destruct (wf_found c W _ _ _ E) as (l & El & Hil). rewrite (same_value_zero_hash_eq _ _ Es) in El.
    rewrite El. cbn. destruct (slot_position_spec i l Hil) as (p & -> & Hp). cbn.
    pose proof (wf_remove c i k v key l p W E Es El Hp) as W'.
    rewrite (wf_len c W) in W' |- *. unfold live_entries in *. rewrite Hn in W' |- *. cbn in W' |- *.
    rewrite E. cbn. eexists. split; [by rewrite Hg|]. split; [exact W'|apply Hd].
  - destruct (live_absent (oc_entries c) key Hno) as (Hg & _ & Hd).
    eexists. split; [unfold live_entries; by rewrite Hg|]. by split.
Qed.

Lemma oc_clear_spec c : wf_collection (oc_clear c) ∧ live_entries (oc_clear c) = [].
Proof.
  assert (∀ i e, (oc_entries (oc_clear c)) !! i = Some (Some e) → False) as Hno.
  { intros i e. cbn. rewrite list_lookup_fmap. by destruct (oc_entries c !! i). }
  assert (live_entries (oc_clear c) = []) as Hl.
  { unfold live_entries, oc_clear. cbn. by induction (oc_entries c) as [|x l IH]. }
  split; [|done]. split.
  - cbn. intros *. by rewrite lookup_empty.
  - by intros * ?%Hno.
  - by intros * ?%Hno.
  - by rewrite Hl.
Qed.

(** ** Runs *)
Inductive collection_op :=
  | OpGet (key : Value)
  | OpHas (key : Value)
  | OpSet (key value : Value)
  | OpDelete (key : Value)
  | OpClear
  | OpLen.

Inductive collection_answer :=
  | AnsValue (v : option Value)
  | AnsBool (b : bool)
  | AnsEntry (e : option (Value * Value))
  | AnsUnit
  | AnsLen (n : nat).

Definition run_op (c : OrderedCollection) (op : collection_op) : res (OrderedCollection * collection_answer) :=
  match op with
  | OpGet key => v ← oc_get c key; Ok (c, AnsValue v)
  | OpHas key => b ← oc_has c key; Ok (c, AnsBool b)
  | OpSet key value => r ← oc_set c key value; Ok (r.1, AnsEntry r.2)
  | OpDelete key => r ← oc_delete c key; Ok (r.1, AnsEntry r.2)
  | OpClear => Ok (oc_clear c, AnsUnit)
  | OpLen => Ok (c, AnsLen (oc_len c))
  end.

Fixpoint run_ops (c : OrderedCollection) (ops : list collection_op)
    : res (OrderedCollection * list collection_answer) :=
  match ops with
  | [] => Ok (c, [])
  | op :: ops => r ← run_op c op; r' ← run_ops r.1 ops; Ok (r'.1, r.2 :: r'.2)
  end.

(** The same operations on an association list. *)
Definition assoc_op (l : list (Value * Value)) (op : collection_op)
    : list (Value * Value) * collection_answer :=
  match op with
  | OpGet key => (l, AnsValue (snd <$> assoc_get key l))
  | OpHas key => (l, AnsBool (bool_decide (is_Some (assoc_get key l))))
  | OpSet key value => (assoc_set key value l, AnsEntry (assoc_get key l))
  | OpDelete key => (assoc_delete key l, AnsEntry (assoc_get key l))
  | OpClear => ([], AnsUnit)
  | OpLen => (l, AnsLen (length l))
  end.

Fixpoint assoc_ops (l : list (Value * Value)) (ops : list collection_op)
    : list (Value * Value) * list collection_answer :=
  match ops with
  | [] => (l, [])
  | op :: ops => let r := assoc_op l op in let r' := assoc_ops r.1 ops in (r'.1, r.2 :: r'.2)
  end.

Lemma run_op_spec c op :
  wf_collection c →
  ∃ c', run_op c op = Ok (c', (assoc_op (live_entries c) op).2)
    ∧ wf_collection c' ∧ live_entries c' = (assoc_op (live_entries c) op).1.
Proof.
  intros W. destruct op as [key|key|key value|key| |]; cbn.
  - rewrite oc_get_spec by done. by exists c.
  - rewrite oc_has_spec by done. by exists c.
  - destruct (oc_set_spec c key value W) as (c' & -> & ? & ?). by exists c'.
  - destruct (oc_delete_spec c key W) as (c' & -> & ? & ?). by exists c'.
  - destruct (oc_clear_spec c). by exists (oc_clear c).
  - exists c. by rewrite <-(wf_len c W).
Qed.

(** C13. Refinement of [Map] and [Set] storage: whatever the hash function, every sequence of
    operations on a new collection returns without a panic, and its answers and remaining
    entries, in order, are those of an association list compared by SameValueZero in which a
    replaced entry keeps its place and a deleted key comes back last. *)
Theorem collection_refines_list ops :
  ∃ c, run_ops empty_collection ops = Ok (c, (assoc_ops [] ops).2)
    ∧ wf_collection c ∧ live_entries c = (assoc_ops [] ops).1.
Proof.
  assert (∀ c, wf_collection c →
    ∃ c', run_ops c ops = Ok (c', (assoc_ops (live_entries c) ops).2)
      ∧ wf_collection c' ∧ live_entries c' = (assoc_ops (live_entries c) ops).1) as Hgen.
  { induction ops as [|op ops IH]; intros c W; cbn; [by exists c|].
    destruct (run_op_spec c op W) as (c1 & -> & W1 & E1). cbn.
    destruct (IH c1 W1) as (c2 & -> & W2 & E2). cbn. exists c2. by rewrite <-E1. }
  apply (Hgen empty_collection), wf_empty.
Qed.

End props.
