(* ===== verification/JsHeap.v ===== *)
(** * The BlueJS heap and its collector (bluejs/src/heap.rs, heap/lifecycle.rs)

    An object has a kind with internal slots, properties, and the bookkeeping of the collector:
    a generation and a byte charge.  The heap owns the objects, the explicit and scoped roots,
    the nursery, the remembered set and the byte budget.  [mark] traces strong references with a
    work list and weak collections as ephemerons; [minor_gc] and [major_gc] sweep.  Operations
    are in the monad [hm]: they thread the heap, may answer an error and may panic. *)

From S2P Require Import Prelude Float JsValue JsObject JsCollection.

Inductive ArrayIteratorKind := IterKeys | IterValues | IterEntries.

Inductive TypedArrayKind :=
  | TInt8 | TUint8 | TUint8Clamped | TInt16 | TUint16 | TInt32 | TUint32
  | TFloat16 | TFloat32 | TFloat64 | TBigInt64 | TBigUint64.

Inductive IteratorHelperKind :=
  HConcat | HZip | HZipKeyed | HChunks | HWindows | HMap | HFilter | HFlatMap | HTake | HDrop.

(** The key of a weak table or the target of a weak reference. *)
Inductive WeakCollectionKey :=
  | WKObject (id : ObjectId)
  | WKSymbol (s : JsSymbol).

Definition weak_key_from_value (v : Value) : option WeakCollectionKey :=
  match v with
  | VObject id => Some (WKObject id)
  | VSymbol s => Some (WKSymbol s)
  | _ => None
  end.

(** Equality of keys sees a symbol's identity only; tables are keyed by [wkey]. *)
Abbreviation WKey := (ObjectId + N)%type (only parsing).
Definition wkey (k : WeakCollectionKey) : WKey :=
  match k with WKObject id => inl id | WKSymbol s => inr (sym_id s) end.

Definition weak_key_object (k : WeakCollectionKey) : option ObjectId :=
  match k with WKObject id => Some id | WKSymbol _ => None end.

Record RootId := mkRootId { rid_heap : N; rid_serial : N }.
#[export] Instance RootId_eq_dec : EqDecision RootId.
Proof. solve_decision. Defined.
#[export] Instance RootId_countable : Countable RootId.
Proof.
  refine (inj_countable' (λ o, (rid_heap o, rid_serial o)) (λ p, mkRootId p.1 p.2) _).
  by intros [].
Defined.

Record HeapConfig := mkHeapConfig {
  nursery_capacity : N;
  major_threshold_bytes : N;
  max_heap_bytes : N;
}.

Definition default_config : HeapConfig := mkHeapConfig 256 (256 * 1024) (16 * 1024 * 1024).

Inductive HeapError :=
  | InvalidConfig
  | InvalidWeakTarget
  | InvalidObject (id : ObjectId)
  | InvalidInternalSlot (id : ObjectId)
  | RevokedProxy
  | InvalidRoot (id : RootId)
  | PrototypeCycle
  | InvalidArrayLength
  | InvalidBufferRange
  | DetachedArrayBuffer
  | ImmutableArrayBuffer
  | UninitializedModuleExport
  | ReadOnlyProperty
  | HeapLimitExceeded (limit : N)
  | IdExhausted.

(** [Result<T, HeapError>] *)
Inductive hresult (A : Type) : Type :=
  | HOk (a : A)
  | HErr (e : HeapError).
Arguments HOk {A} a.
Arguments HErr {A} e.

#[export] Instance hresult_bind : MBind hresult := λ A B f m,
  match m with HOk a => f a | HErr e => HErr e end.
#[export] Instance hresult_fmap : FMap hresult := λ A B f m,
  match m with HOk a => HOk (f a) | HErr e => HErr e end.

Definition ok_or {A} (o : option A) (e : HeapError) : hresult A :=
  match o with Some a => HOk a | None => HErr e end.

Definition U64_saturating_add (a b : N) : N := N.min (a + b) USIZE_MAX.
Definition saturating_sub (a b : N) : N := (a - b)%N.

(** [a - b] on [usize] panics below zero. *)
Definition checked_sub_N (a b : N) : res N := if (b <=? a)%N then Ok (a - b)%N else Panic.

Section heap.
Context {H : JsHost}.

Record FinalizationCell := mkCell {
  fc_target : option WeakCollectionKey;
  fc_holdings : Value;
  fc_unregister_token : option WeakCollectionKey;
}.

Abbreviation WeakTable := (gmap WKey (WeakCollectionKey * Value)) (only parsing).

Inductive ObjectKind :=
  | Ordinary
  | RawJson
  | Collator (data : IntlData) (compare : option ObjectId)
  | NumberFormat (data : IntlData) (format : option ObjectId)
  | DateTimeFormat (data : IntlData) (format : option ObjectId)
  | DisplayNames (data : IntlData)
  | DurationFormat (data : IntlData)
  | ListFormat (data : IntlData)
  | PluralRules (data : IntlData)
  | RelativeTimeFormat (data : IntlData)
  | Segmenter (data : IntlData)
  | Segments (data : IntlData)
  | SegmentIterator (data : IntlData) (next : N)
  | IntlLocale (data : IntlData)
  | KArray (length : N)
  | KDate (time : f64)
  | KTemporal (value : TemporalValue)
  | KMap (entries : OrderedCollection)
  | KSet (entries : OrderedCollection)
  | KError
  | WeakCollection (is_map : bool) (entries : WeakTable)
  | WeakRef (target : option WeakCollectionKey)
  | FinalizationRegistry (cleanup_callback : Value) (cells : list FinalizationCell)
  | ArrayBuffer (bytes : list N) (shared_backing : option SharedBuffer) (detached : bool)
      (max_byte_length : option N) (shared immutable : bool)
  | DataView (buffer : ObjectId) (byte_offset byte_length : N) (length_tracking : bool)
  | TypedArray (buffer : ObjectId) (byte_offset length : N) (length_tracking : bool)
      (kind : TypedArrayKind)
  | KProxy (target handler : option ObjectId) (callable constructible : bool)
  | Arguments_ (parameter_map : gmap PKey ObjectId)
  | KString (s : JsString)
  | KNativeFunction (function : NativeFunction) (initial_name : rstring)
  | Closure (code : Bytecode) (captures : list ObjectId) (this : Value)
  | Generator (state : GeneratorState) (state_bytes : N)
      (async_control : option AsyncGeneratorControl) (async_control_bytes : N)
  | KBoundFunction (bound : BoundFunction)
  | StringIterator (string : JsString) (position : N)
  | KRegExp (regexp : RegExp)
  | BoxedPrimitive (value : Value)
  | ArrayIterator (object : ObjectId) (index : N) (done : bool) (kind : ArrayIteratorKind)
  | CollectionIterator (collection : option ObjectId) (index : N) (kind : ArrayIteratorKind)
      (is_map : bool)
  | IteratorWrapper (iterator : ObjectId) (next : Value)
  | IteratorHelper (record : ObjectId) (callback : Value) (index : N) (done executing : bool)
      (kind : IteratorHelperKind)
  | RegExpIterator (matcher : ObjectId) (string : JsString) (global unicode done : bool)
  | ModuleNamespace (exports : list (JsString * ObjectId)).

(** Private internal slots of one object. *)
Record PrivateData := mkPrivateData {
  pr_elements : gmap JsString PrivateElement;
  pr_brands : gset ObjectId;
  pr_slots : gmap (ObjectId * JsString) Value;
}.
Definition default_private : PrivateData := mkPrivateData ∅ ∅ ∅.

Record Object := mkObject {
  o_kind : ObjectKind;
  o_is_html_dda : bool;
  o_properties : gmap PKey Value;
  o_order : list PropertyName;
  o_attributes : gmap PKey PropertyDescriptor;
  o_private : option PrivateData;
  o_extensible : bool;
  o_prototype : option ObjectId;
  o_young : bool;
  o_bytes : N;
}.

Definition o_set_kind (v : ObjectKind) (x : Object) : Object :=
  mkObject v (o_is_html_dda x) (o_properties x) (o_order x) (o_attributes x) (o_private x) (o_extensible x) (o_prototype x) (o_young x) (o_bytes x).
Definition o_set_is_html_dda (v : bool) (x : Object) : Object :=
  mkObject (o_kind x) v (o_properties x) (o_order x) (o_attributes x) (o_private x) (o_extensible x) (o_prototype x) (o_young x) (o_bytes x).
Definition o_set_properties (v : gmap PKey Value) (x : Object) : Object :=
  mkObject (o_kind x) (o_is_html_dda x) v (o_order x) (o_attributes x) (o_private x) (o_extensible x) (o_prototype x) (o_young x) (o_bytes x).
Definition o_set_order (v : list PropertyName) (x : Object) : Object :=
  mkObject (o_kind x) (o_is_html_dda x) (o_properties x) v (o_attributes x) (o_private x) (o_extensible x) (o_prototype x) (o_young x) (o_bytes x).
Definition o_set_attributes (v : gmap PKey PropertyDescriptor) (x : Object) : Object :=
  mkObject (o_kind x) (o_is_html_dda x) (o_properties x) (o_order x) v (o_private x) (o_extensible x) (o_prototype x) (o_young x) (o_bytes x).
Definition o_set_private (v : option PrivateData) (x : Object) : Object :=
  mkObject (o_kind x) (o_is_html_dda x) (o_properties x) (o_order x) (o_attributes x) v (o_extensible x) (o_prototype x) (o_young x) (o_bytes x).
Definition o_set_extensible (v : bool) (x : Object) : Object :=
  mkObject (o_kind x) (o_is_html_dda x) (o_properties x) (o_order x) (o_attributes x) (o_private x) v (o_prototype x) (o_young x) (o_bytes x).
Definition o_set_prototype (v : option ObjectId) (x : Object) : Object :=
  mkObject (o_kind x) (o_is_html_dda x) (o_properties x) (o_order x) (o_attributes x) (o_private x) (o_extensible x) v (o_young x) (o_bytes x).
Definition o_set_young (v : bool) (x : Object) : Object :=
  mkObject (o_kind x) (o_is_html_dda x) (o_properties x) (o_order x) (o_attributes x) (o_private x) (o_extensible x) (o_prototype x) v (o_bytes x).
Definition o_set_bytes (v : N) (x : Object) : Object :=
  mkObject (o_kind x) (o_is_html_dda x) (o_properties x) (o_order x) (o_attributes x) (o_private x) (o_extensible x) (o_prototype x) (o_young x) v.

(** ** Strong references *)

(** The handles in the internal slots of a kind.  Weak tables, weak references and the targets
    of finalization cells are not among them. *)
Definition kind_references (k : ObjectKind) : list ObjectId :=
  match k with
  | Closure _ captures this => captures ++ option_list (object_id this)
  | Generator state _ control _ =>
      generator_references state ++ mjoin (control_references <$> option_list control)
  | KBoundFunction bound =>
      bf_target bound :: option_list (object_id (bf_this bound)) ++ object_ids (bf_args bound)
  | KNativeFunction function _ => native_references function
  | Collator _ f | NumberFormat _ f | DateTimeFormat _ f => option_list f
  | RegExpIterator matcher _ _ _ _ => [matcher]
  | ArrayIterator object _ _ _ => [object]
  | CollectionIterator collection _ _ _ => option_list collection
  | IteratorWrapper iterator next => iterator :: option_list (object_id next)
  | IteratorHelper record callback _ _ _ _ => record :: option_list (object_id callback)
  | DataView buffer _ _ _ | TypedArray buffer _ _ _ _ => [buffer]
  | KMap entries | KSet entries => oc_references entries
  | KProxy target handler _ _ => option_list target ++ option_list handler
  | Arguments_ parameter_map => snd <$> map_to_list parameter_map
  | FinalizationRegistry cleanup_callback cells =>
      option_list (object_id cleanup_callback) ++ object_ids (fc_holdings <$> cells)
  | ModuleNamespace exports => snd <$> exports
  | _ => []
  end.

Definition private_references (p : PrivateData) : list ObjectId :=
  elements (pr_brands p) ++ ((λ s : ObjectId * JsString * Value, s.1.1) <$> map_to_list (pr_slots p))
  ++ object_ids (snd <$> map_to_list (pr_slots p))
  ++ mjoin ((λ e : JsString * PrivateElement, private_element_references e.2)
            <$> map_to_list (pr_elements p)).

Definition references (o : Object) : list ObjectId :=
  option_list (o_prototype o)
  ++ object_ids (snd <$> map_to_list (o_properties o))
  ++ mjoin ((λ d : PKey * PropertyDescriptor,
               object_ids (option_list (pd_get d.2) ++ option_list (pd_set d.2)))
            <$> map_to_list (o_attributes o))
  ++ mjoin (private_references <$> option_list (o_private o))
  ++ kind_references (o_kind o).

(** What a collection during an allocation must keep. *)
Definition allocation_references (k : ObjectKind) (prototype : option ObjectId) : list ObjectId :=
  option_list prototype ++ kind_references k.

(** ** Charges *)
Definition property_bytes (key : PropertyName) (v : Value) : N :=
  SZ_Property + SZ_PropertyName + name_byte_len key * 2 + payload_bytes v.

Definition attribute_bytes (key : PropertyName) (d : PropertyDescriptor) : N :=
  SZ_Attribute + name_byte_len key
  + sumN (payload_bytes <$> (option_list (pd_get d) ++ option_list (pd_set d))).

Definition private_element_bytes (name : JsString) (e : PrivateElement) : N :=
  SZ_PrivateElement + byte_len name
  + match e with
    | PField => 0
    | PMethod v => payload_bytes v
    | PAccessor get set => sumN (payload_bytes <$> (option_list get ++ option_list set))
    end.

Definition private_slot_bytes (name : JsString) (v : Value) : N :=
  SZ_PrivateSlot + byte_len name + payload_bytes v.

Definition weak_collection_key_bytes (k : WeakCollectionKey) : N :=
  match k with WKObject _ => 0 | WKSymbol s => payload_bytes (VSymbol s) end.

Definition weak_collection_entry_bytes (k : WeakCollectionKey) (v : Value) : N :=
  SZ_WeakEntry + weak_collection_key_bytes k + payload_bytes v.

Definition option_key_bytes (k : option WeakCollectionKey) : N :=
  match k with Some k => weak_collection_key_bytes k | None => 0 end.

Definition finalization_cell_bytes (target : option WeakCollectionKey) (holdings : Value)
    (token : option WeakCollectionKey) : N :=
  SZ_FinalizationCell + option_key_bytes target + payload_bytes holdings + option_key_bytes token.

(** The charge of a new object beyond its record. *)
Definition allocation_bytes (k : ObjectKind) : N :=
  match k with
  | KString s | StringIterator s _ | RegExpIterator _ s _ _ _ => byte_len s
  | ArrayBuffer bytes _ _ _ _ _ => N.of_nat (length bytes)
  | KRegExp r => regexp_bytes r
  | Collator d _ | NumberFormat d _ | DateTimeFormat d _ | DisplayNames d | DurationFormat d
  | ListFormat d | PluralRules d | RelativeTimeFormat d | Segmenter d | Segments d
  | IntlLocale d => intl_bytes d
  | SegmentIterator _ _ => 0
  | KTemporal t => temporal_bytes t
  | BoxedPrimitive v => payload_bytes v
  | KNativeFunction _ name => byte_len (encode_utf16 name)
  | Closure _ captures this => N.of_nat (length captures) * SZ_ObjectId + payload_bytes this
  | Generator _ state_bytes _ _ => state_bytes
  | KBoundFunction b =>
      payload_bytes (bf_this b) + N.of_nat (length (bf_args b)) * SZ_Value
      + sumN (payload_bytes <$> bf_args b)
  | Arguments_ m => N.of_nat (size m) * SZ_ParameterEntry
  | ModuleNamespace exports => sumN ((λ e, byte_len e.1 + SZ_Export)%N <$> exports)
  | _ => 0
  end.

(** ** The heap *)
Record Heap := mkHeap {
  h_identity : N;
  h_next_object : N;
  h_next_root : N;
  h_config : HeapConfig;
  h_objects : gmap ObjectId Object;
  h_closure_metadata : gmap ObjectId ClosureMetadata;
  h_nursery : list ObjectId;
  h_remembered : gset ObjectId;
  h_roots : gmap RootId ObjectId;
  h_scoped_roots : list (list ObjectId);
  h_managed_bytes : N;
  h_next_major_bytes : N;
  h_minor_collections : N;
  h_major_collections : N;
  h_root_registrations : N;
  h_structure_epoch : N;
}.

Definition h_set_next_object (v : N) (x : Heap) : Heap :=
  mkHeap (h_identity x) v (h_next_root x) (h_config x) (h_objects x) (h_closure_metadata x) (h_nursery x) (h_remembered x) (h_roots x) (h_scoped_roots x) (h_managed_bytes x) (h_next_major_bytes x) (h_minor_collections x) (h_major_collections x) (h_root_registrations x) (h_structure_epoch x).
Definition h_set_next_root (v : N) (x : Heap) : Heap :=
  mkHeap (h_identity x) (h_next_object x) v (h_config x) (h_objects x) (h_closure_metadata x) (h_nursery x) (h_remembered x) (h_roots x) (h_scoped_roots x) (h_managed_bytes x) (h_next_major_bytes x) (h_minor_collections x) (h_major_collections x) (h_root_registrations x) (h_structure_epoch x).
Definition h_set_objects (v : gmap ObjectId Object) (x : Heap) : Heap :=
  mkHeap (h_identity x) (h_next_object x) (h_next_root x) (h_config x) v (h_closure_metadata x) (h_nursery x) (h_remembered x) (h_roots x) (h_scoped_roots x) (h_managed_bytes x) (h_next_major_bytes x) (h_minor_collections x) (h_major_collections x) (h_root_registrations x) (h_structure_epoch x).
Definition h_set_closure_metadata (v : gmap ObjectId ClosureMetadata) (x : Heap) : Heap :=
  mkHeap (h_identity x) (h_next_object x) (h_next_root x) (h_config x) (h_objects x) v (h_nursery x) (h_remembered x) (h_roots x) (h_scoped_roots x) (h_managed_bytes x) (h_next_major_bytes x) (h_minor_collections x) (h_major_collections x) (h_root_registrations x) (h_structure_epoch x).
Definition h_set_nursery (v : list ObjectId) (x : Heap) : Heap :=
  mkHeap (h_identity x) (h_next_object x) (h_next_root x) (h_config x) (h_objects x) (h_closure_metadata x) v (h_remembered x) (h_roots x) (h_scoped_roots x) (h_managed_bytes x) (h_next_major_bytes x) (h_minor_collections x) (h_major_collections x) (h_root_registrations x) (h_structure_epoch x).
Definition h_set_remembered (v : gset ObjectId) (x : Heap) : Heap :=
  mkHeap (h_identity x) (h_next_object x) (h_next_root x) (h_config x) (h_objects x) (h_closure_metadata x) (h_nursery x) v (h_roots x) (h_scoped_roots x) (h_managed_bytes x) (h_next_major_bytes x) (h_minor_collections x) (h_major_collections x) (h_root_registrations x) (h_structure_epoch x).
Definition h_set_roots (v : gmap RootId ObjectId) (x : Heap) : Heap :=
  mkHeap (h_identity x) (h_next_object x) (h_next_root x) (h_config x) (h_objects x) (h_closure_metadata x) (h_nursery x) (h_remembered x) v (h_scoped_roots x) (h_managed_bytes x) (h_next_major_bytes x) (h_minor_collections x) (h_major_collections x) (h_root_registrations x) (h_structure_epoch x).
Definition h_set_scoped_roots (v : list (list ObjectId)) (x : Heap) : Heap :=
  mkHeap (h_identity x) (h_next_object x) (h_next_root x) (h_config x) (h_objects x) (h_closure_metadata x) (h_nursery x) (h_remembered x) (h_roots x) v (h_managed_bytes x) (h_next_major_bytes x) (h_minor_collections x) (h_major_collections x) (h_root_registrations x) (h_structure_epoch x).
Definition h_set_managed_bytes (v : N) (x : Heap) : Heap :=
  mkHeap (h_identity x) (h_next_object x) (h_next_root x) (h_config x) (h_objects x) (h_closure_metadata x) (h_nursery x) (h_remembered x) (h_roots x) (h_scoped_roots x) v (h_next_major_bytes x) (h_minor_collections x) (h_major_collections x) (h_root_registrations x) (h_structure_epoch x).
Definition h_set_next_major_bytes (v : N) (x : Heap) : Heap :=
  mkHeap (h_identity x) (h_next_object x) (h_next_root x) (h_config x) (h_objects x) (h_closure_metadata x) (h_nursery x) (h_remembered x) (h_roots x) (h_scoped_roots x) (h_managed_bytes x) v (h_minor_collections x) (h_major_collections x) (h_root_registrations x) (h_structure_epoch x).
Definition h_set_minor_collections (v : N) (x : Heap) : Heap :=
  mkHeap (h_identity x) (h_next_object x) (h_next_root x) (h_config x) (h_objects x) (h_closure_metadata x) (h_nursery x) (h_remembered x) (h_roots x) (h_scoped_roots x) (h_managed_bytes x) (h_next_major_bytes x) v (h_major_collections x) (h_root_registrations x) (h_structure_epoch x).
Definition h_set_major_collections (v : N) (x : Heap) : Heap :=
  mkHeap (h_identity x) (h_next_object x) (h_next_root x) (h_config x) (h_objects x) (h_closure_metadata x) (h_nursery x) (h_remembered x) (h_roots x) (h_scoped_roots x) (h_managed_bytes x) (h_next_major_bytes x) (h_minor_collections x) v (h_root_registrations x) (h_structure_epoch x).
Definition h_set_root_registrations (v : N) (x : Heap) : Heap :=
  mkHeap (h_identity x) (h_next_object x) (h_next_root x) (h_config x) (h_objects x) (h_closure_metadata x) (h_nursery x) (h_remembered x) (h_roots x) (h_scoped_roots x) (h_managed_bytes x) (h_next_major_bytes x) (h_minor_collections x) (h_major_collections x) v (h_structure_epoch x).
Definition h_set_structure_epoch (v : N) (x : Heap) : Heap :=
  mkHeap (h_identity x) (h_next_object x) (h_next_root x) (h_config x) (h_objects x) (h_closure_metadata x) (h_nursery x) (h_remembered x) (h_roots x) (h_scoped_roots x) (h_managed_bytes x) (h_next_major_bytes x) (h_minor_collections x) (h_major_collections x) (h_root_registrations x) v.

(** ** Heap operations

    An operation threads the heap through an answer or an error; a panic has no heap. *)
Definition hm (A : Type) : Type := Heap → res (Heap * hresult A).

#[export] Instance hm_ret : MRet hm := λ A a h, Ok (h, HOk a).
#[export] Instance hm_bind : MBind hm := λ A B f m h,
  match m h with
  | Ok (h', HOk a) => f a h'
  | Ok (h', HErr e) => Ok (h', HErr e)
  | Panic => Panic
  | OutOfFuel => OutOfFuel
  end.

Definition hfail {A} (e : HeapError) : hm A := λ h, Ok (h, HErr e).
Definition hpanic {A} : hm A := λ _, Panic.
(** A read of the heap, [?] applied to its result. *)
Definition hread {A} (f : Heap → hresult A) : hm A := λ h, Ok (h, f h).
Definition hget {A} (f : Heap → A) : hm A := λ h, Ok (h, HOk (f h)).
Definition hmod (f : Heap → Heap) : hm unit := λ h, Ok (f h, HOk ()).
(** A state update that can panic. *)
Definition hupd (f : Heap → res Heap) : hm unit := λ h,
  match f h with Ok h' => Ok (h', HOk ()) | Panic => Panic | OutOfFuel => OutOfFuel end.
Definition hres {A} (m : res A) : hm A := λ h,
  match m with Ok a => Ok (h, HOk a) | Panic => Panic | OutOfFuel => OutOfFuel end.
(** [Result::expect] *)
Definition hexpect {A} (m : hm A) : hm A := λ h,
  match m h with Ok (_, HErr _) => Panic | r => r end.

(** [Heap::object] *)
Definition object (h : Heap) (id : ObjectId) : hresult Object :=
  ok_or (h_objects h !! id) (InvalidObject id).

(** The edges the collector follows out of an object: its references and those of its closure
    metadata. *)
Definition metadata_edges (h : Heap) (id : ObjectId) : list ObjectId :=
  match h_closure_metadata h !! id with Some m => metadata_references m | None => [] end.
Definition edges (h : Heap) (id : ObjectId) (o : Object) : list ObjectId :=
  references o ++ metadata_edges h id.

(** [write_barrier]: an old owner of a young target is remembered; indexing a missing object
    panics. *)
Definition write_barrier (owner : ObjectId) (target : option ObjectId) (h : Heap) : res Heap :=
  match target with
  | None => Ok h
  | Some target =>
      o ← unwrap (h_objects h !! owner);
      if o_young o then Ok h
      else
        t ← unwrap (h_objects h !! target);
        if o_young t then Ok (h_set_remembered ({[owner]} ∪ h_remembered h) h) else Ok h
  end.

(** ** Marking *)

(** The work list of [mark]: pops from the end, so [extend] puts the last reference on top. *)
Fixpoint mark_loop (fuel : nat) (h : Heap) (young_only : bool) (work : list ObjectId)
    (marked : gset ObjectId) : res (gset ObjectId) :=
  match fuel, work with
  | _, [] => Ok marked
  | O, _ => OutOfFuel
  | S fuel, id :: work =>
      o ← unwrap (h_objects h !! id);
      if (young_only && negb (o_young o)) || bool_decide (id ∈ marked)
      then mark_loop fuel h young_only work marked
      else mark_loop fuel h young_only (rev (edges h id o) ++ work) ({[id]} ∪ marked)
  end.

Definition key_is_live (h : Heap) (young_only : bool) (key : ObjectId) (marked : gset ObjectId) : bool :=
  if young_only then
    match h_objects h !! key with
    | Some o => negb (o_young o) || bool_decide (key ∈ marked)
    | None => false
    end
  else bool_decide (key ∈ marked).

(** The waiting table and the work list of the ephemeron phase. *)
Definition ephemerons : Type := gmap ObjectId (list ObjectId) * list ObjectId.

(** One entry of a table that becomes live: its value is released, or waits on its key. *)
Definition activate_entry (h : Heap) (young_only : bool) (marked : gset ObjectId)
    (e : WeakCollectionKey * Value) (st : ephemerons) : ephemerons :=
  match object_id e.2 with
  | Some value =>
      if bool_decide (is_Some (h_objects h !! value)) then
        match e.1 with
        | WKObject target =>
            if key_is_live h young_only target marked then (st.1, value :: st.2)
            else (<[target := default [] (st.1 !! target) ++ [value]]> st.1, st.2)
        | WKSymbol _ => (st.1, value :: st.2)
        end
      else st
  | None => st
  end.

Definition activate (h : Heap) (young_only : bool) (marked : gset ObjectId)
    (entries : WeakTable) (st : ephemerons) : ephemerons :=
  foldl (λ st e, activate_entry h young_only marked e st) st (snd <$> map_to_list entries).

Definition weak_table (o : Object) : option WeakTable :=
  match o_kind o with WeakCollection _ entries => Some entries | _ => None end.

(** The entries a newly live object activates. *)
Definition activate_object (h : Heap) (young_only : bool) (marked : gset ObjectId) (o : Object)
    (st : ephemerons) : ephemerons :=
  match weak_table o with Some entries => activate h young_only marked entries st | None => st end.

Definition table_live (young_only : bool) (marked : gset ObjectId) (p : ObjectId * Object) : bool :=
  if young_only then negb (o_young p.2) || bool_decide (p.1 ∈ marked)
  else bool_decide (p.1 ∈ marked).

Definition activate_live (h : Heap) (young_only : bool) (marked : gset ObjectId) : ephemerons :=
  foldl (λ st p, if table_live young_only marked p then activate_object h young_only marked p.2 st else st)
    (∅, []) (map_to_list (h_objects h)).

Fixpoint ephemeron_loop (fuel : nat) (h : Heap) (young_only : bool) (st : ephemerons)
    (marked : gset ObjectId) : res (gset ObjectId) :=
  match fuel, st.2 with
  | _, [] => Ok marked
  | O, _ => OutOfFuel
  | S fuel, id :: work =>
      o ← unwrap (h_objects h !! id);
      if (young_only && negb (o_young o)) || bool_decide (id ∈ marked)
      then ephemeron_loop fuel h young_only (st.1, work) marked
      else
        let marked := {[id]} ∪ marked in
        let work := rev (edges h id o) ++ work in
        let released := default [] (st.1 !! id) in
        let st := (delete id st.1, rev released ++ work) in
        ephemeron_loop fuel h young_only (activate_object h young_only marked o st) marked
  end.

(** The roots of a collection: explicit roots, the scoped roots that name live objects, what the
    operation protects, and in a minor collection the edges out of remembered objects. *)
Definition live_scoped (h : Heap) : list ObjectId :=
  filter (λ id, is_Some (h_objects h !! id)) (mjoin (h_scoped_roots h)).

Definition mark_roots (h : Heap) (protected : list ObjectId) : list ObjectId :=
  (snd <$> map_to_list (h_roots h)) ++ live_scoped h ++ protected.

Definition remembered_edges (h : Heap) : res (list ObjectId) :=
  ls ← mapM (λ id, o ← unwrap (h_objects h !! id); Ok (edges h id o)) (elements (h_remembered h));
  Ok (mjoin ls).

Definition waiting_size (waiting : gmap ObjectId (list ObjectId)) : nat :=
  sum_list ((length ∘ snd) <$> map_to_list waiting).

(** Enough steps for both loops: every object is expanded once, every weak entry released once. *)
Definition object_cost (h : Heap) (p : ObjectId * Object) : nat :=
  length (edges h p.1 p.2) + match weak_table p.2 with Some entries => size entries | None => 0 end.
Definition heap_cost (h : Heap) : nat := sum_list (object_cost h <$> map_to_list (h_objects h)).

Definition mark (h : Heap) (young_only : bool) (protected : list ObjectId) : res (gset ObjectId) :=
  extra ← (if young_only then remembered_edges h else Ok []);
  let work := rev (mark_roots h protected ++ extra) in
  marked ← mark_loop (length work + heap_cost h) h young_only work ∅;
  let st := activate_live h young_only marked in
  ephemeron_loop (length st.2 + waiting_size st.1 + heap_cost h) h young_only st marked.

(** ** Sweeping *)

(** Drops the weak entries whose key is dead, clears the weak references and cells whose target
    is; the freed charge is subtracted from the object. *)
Definition weak_dead (dead : ObjectId → bool) (k : WeakCollectionKey) : bool :=
  match k with WKObject id => dead id | WKSymbol _ => false end.

Definition clear_target (dead : ObjectId → bool) (t : option WeakCollectionKey) : option WeakCollectionKey :=
  match t with Some k => if weak_dead dead k then None else Some k | None => None end.

Definition weak_released (dead : ObjectId → bool) (o : Object) : N :=
  match o_kind o with
  | WeakCollection _ entries =>
      sumN ((λ e : WKey * (WeakCollectionKey * Value), weak_collection_entry_bytes e.2.1 e.2.2)
            <$> map_to_list (filter (λ e : WKey * (WeakCollectionKey * Value), weak_dead dead e.2.1 = true) entries))
  | _ => 0
  end.

Definition sweep_kind (dead : ObjectId → bool) (k : ObjectKind) : ObjectKind :=
  match k with
  | WeakCollection is_map entries =>
      WeakCollection is_map
        (filter (λ e : WKey * (WeakCollectionKey * Value), weak_dead dead e.2.1 = false) entries)
  | WeakRef target => WeakRef (clear_target dead target)
  | FinalizationRegistry callback cells =>
      FinalizationRegistry callback
        ((λ c, mkCell (clear_target dead (fc_target c)) (fc_holdings c) (fc_unregister_token c)) <$> cells)
  | _ => k
  end.

Definition sweep_object (dead : ObjectId → bool) (o : Object) : Object :=
  o_set_bytes (o_bytes o - weak_released dead o)%N (o_set_kind (sweep_kind dead (o_kind o)) o).

(** The loop over all objects that both collections start with: a charge below zero panics. *)
Definition sweep_weak (dead : ObjectId → bool) (h : Heap) : res Heap :=
  if forallb (λ p : ObjectId * Object, (weak_released dead p.2 <=? o_bytes p.2)%N) (map_to_list (h_objects h))
  then
    managed ← checked_sub_N (h_managed_bytes h)
                (sumN ((λ p : ObjectId * Object, weak_released dead p.2) <$> map_to_list (h_objects h)));
    Ok (h_set_managed_bytes managed (h_set_objects (sweep_object dead <$> h_objects h) h))
  else Panic.

(** One nursery handle of a minor collection: promoted or reclaimed. *)
Definition minor_sweep_one (marked : gset ObjectId) (id : ObjectId) (h : Heap) : res Heap :=
  o ← unwrap (h_objects h !! id);
  if bool_decide (id ∈ marked) then
    Ok (h_set_objects (<[id := o_set_young false o]> (h_objects h)) h)
  else
    managed ← checked_sub_N (h_managed_bytes h) (o_bytes o);
    let h := h_set_managed_bytes managed (h_set_objects (delete id (h_objects h)) h) in
    match h_closure_metadata h !! id with
    | Some _ =>
        managed ← checked_sub_N managed CLOSURE_METADATA_BYTES;
        Ok (h_set_managed_bytes managed
              (h_set_closure_metadata (delete id (h_closure_metadata h)) h))
    | None => Ok h
    end.

Fixpoint minor_sweep (marked : gset ObjectId) (nursery : list ObjectId) (h : Heap) : res Heap :=
  match nursery with
  | [] => Ok h
  | id :: nursery => h ← minor_sweep_one marked id h; minor_sweep marked nursery h
  end.

Definition minor_dead (h : Heap) (marked : gset ObjectId) (id : ObjectId) : bool :=
  bool_decide (id ∈ h_nursery h) && bool_decide (id ∉ marked).

Definition minor_gc (protected : list ObjectId) (h : Heap) : res Heap :=
  marked ← mark h true protected;
  h ← sweep_weak (minor_dead h marked) h;
  h ← minor_sweep marked (h_nursery h) (h_set_nursery [] h);
  Ok (h_set_minor_collections (h_minor_collections h + 1)%N (h_set_remembered ∅ h)).

Definition major_gc (protected : list ObjectId) (h : Heap) : res Heap :=
  marked ← mark h false protected;
  h ← sweep_weak (λ id, bool_decide (id ∉ marked)) h;
  let dead := filter (λ p : ObjectId * Object, p.1 ∉ marked) (h_objects h) in
  let dead_metadata := filter (λ p : ObjectId * ClosureMetadata, p.1 ∉ marked) (h_closure_metadata h) in
  managed ← checked_sub_N (h_managed_bytes h) (sumN ((o_bytes ∘ snd) <$> map_to_list dead));
  managed ← checked_sub_N managed (N.of_nat (size dead_metadata) * CLOSURE_METADATA_BYTES);
  let h := h_set_objects (o_set_young false <$> filter (λ p : ObjectId * Object, p.1 ∈ marked) (h_objects h)) h in
  let h := h_set_closure_metadata (filter (λ p : ObjectId * ClosureMetadata, p.1 ∈ marked) (h_closure_metadata h)) h in
  let h := h_set_managed_bytes managed (h_set_nursery [] (h_set_remembered ∅ h)) in
  let config := h_config h in
  let next := N.min (N.max (N.min (managed * 2) USIZE_MAX) (major_threshold_bytes config)) (max_heap_bytes config) in
  Ok (h_set_major_collections (h_major_collections h + 1)%N (h_set_next_major_bytes next h)).

Definition collect_minor : hm unit := hupd (minor_gc []).
Definition collect_major : hm unit := hupd (major_gc []).

(** ** Room for growth *)
Definition ensure_room (additional : N) (protected : list ObjectId) : hm unit := λ h,
  if (additional =? 0)%N then Ok (h, HOk ())
  else
    h ← (match checked_usize (h_managed_bytes h + additional) with
         | Some bytes => if (h_next_major_bytes h <=? bytes)%N then major_gc protected h else Ok h
         | None => major_gc protected h
         end);
    match checked_usize (h_managed_bytes h + additional) with
    | Some bytes =>
        if (max_heap_bytes (h_config h) <? bytes)%N
        then Ok (h, HErr (HeapLimitExceeded (max_heap_bytes (h_config h)))) else Ok (h, HOk ())
    | None => Ok (h, HErr (HeapLimitExceeded (max_heap_bytes (h_config h))))
    end.

(** [self.managed_bytes = self.managed_bytes - old + new] *)
Definition recharge (old new : N) : hm unit := hupd (λ h,
  managed ← checked_sub_N (h_managed_bytes h) old;
  managed ← checked_add_N USIZE_MAX managed new;
  Ok (h_set_managed_bytes managed h)).

(** [object.bytes = object.bytes - old + new] *)
Definition recharge_object (old new : N) (o : Object) : res Object :=
  bytes ← checked_sub_N (o_bytes o) old;
  bytes ← checked_add_N USIZE_MAX bytes new;
  Ok (o_set_bytes bytes o).

(** A write to an object that is known to be there. *)
Definition update_object (id : ObjectId) (f : Object → res Object) : hm unit := hupd (λ h,
  o ← unwrap (h_objects h !! id);
  o ← f o;
  Ok (h_set_objects (<[id := o]> (h_objects h)) h)).

(** ** Allocation and roots *)
Definition new_object (k : ObjectKind) (prototype : option ObjectId) (bytes : N) : Object :=
  mkObject k false ∅ [] ∅ None true prototype true bytes.

Definition alloc (k : ObjectKind) (prototype : option ObjectId) : hm ObjectId :=
  (match prototype with Some id => _ ← hread (λ h, object h id); mret () | None => mret () end);;
  next ← hread (λ h, ok_or (checked_usize (h_next_object h + 1)) IdExhausted);
  full ← hget (λ h, (nursery_capacity (h_config h) <=? N.of_nat (length (h_nursery h)))%N);
  (if full : bool then hupd (minor_gc (allocation_references k prototype)) else mret ());;
  let bytes := (OBJECT_BYTES + allocation_bytes k)%N in
  tight ← hget (λ h, match checked_usize (h_managed_bytes h + bytes) with
                     | Some total => (h_next_major_bytes h <=? total)%N | None => true end);
  (if tight : bool then ensure_room bytes (allocation_references k prototype) else mret ());;
  id ← hget (λ h, mkObjectId (h_identity h) (h_next_object h));
  hmod (h_set_next_object next);;
  hmod (λ h, h_set_objects (<[id := new_object k prototype bytes]> (h_objects h)) h);;
  hmod (λ h, h_set_nursery (h_nursery h ++ [id]) h);;
  recharge 0 bytes;;
  mret id.

Definition contains (h : Heap) (id : ObjectId) : bool := bool_decide (is_Some (h_objects h !! id)).

Definition root (id : ObjectId) : hm RootId :=
  _ ← hread (λ h, object h id);
  next ← hread (λ h, ok_or (checked_usize (h_next_root h + 1)) IdExhausted);
  r ← hget (λ h, mkRootId (h_identity h) (h_next_root h));
  hmod (h_set_next_root next);;
  hmod (λ h, h_set_roots (<[r := id]> (h_roots h)) h);;
  hmod (λ h, h_set_root_registrations (h_root_registrations h + 1)%N h);;
  mret r.

Definition unroot (r : RootId) : hm ObjectId :=
  id ← hread (λ h, ok_or (h_roots h !! r) (InvalidRoot r));
  hmod (λ h, h_set_roots (delete r (h_roots h)) h);;
  mret id.

Definition push_scoped_roots (roots : list ObjectId) : hm unit :=
  hmod (λ h, h_set_scoped_roots (h_scoped_roots h ++ [roots]) h).
Definition pop_scoped_roots : hm unit :=
  hmod (λ h, h_set_scoped_roots (removelast (h_scoped_roots h)) h).

(** [Heap::new_with_identity_source]: [identity] is the next value of the counter. *)
Definition new_heap (config : HeapConfig) (identity : N) : hresult (Heap * N) :=
  if (nursery_capacity config =? 0)%N || (major_threshold_bytes config =? 0)%N
     || (max_heap_bytes config <? OBJECT_BYTES)%N
     || (max_heap_bytes config <? major_threshold_bytes config)%N
  then HErr InvalidConfig
  else
    next ← ok_or (checked_usize (identity + 1)) IdExhausted;
    HOk (mkHeap identity 1 1 config ∅ ∅ [] ∅ ∅ [] 0 (major_threshold_bytes config) 0 0 0 0, next).

(** ** Prototypes *)
Definition prototype (h : Heap) (id : ObjectId) : hresult (option ObjectId) :=
  o_prototype <$> object h id.

Definition is_extensible (h : Heap) (id : ObjectId) : hresult bool := o_extensible <$> object h id.

Definition prevent_extensions (id : ObjectId) : hm unit :=
  o ← hread (λ h, object h id);
  hmod (λ h, h_set_objects (<[id := o_set_extensible false o]> (h_objects h)) h).

(** The walk up from the new prototype: reaching the object is a cycle. *)
Fixpoint prototype_walk (fuel : nat) (h : Heap) (target : ObjectId) (current : option ObjectId)
    : res (hresult unit) :=
  match fuel, current with
  | _, None => Ok (HOk ())
  | O, _ => OutOfFuel
  | S fuel, Some id =>
      if bool_decide (id = target) then Ok (HErr PrototypeCycle)
      else match object h id with
           | HOk o => prototype_walk fuel h target (o_prototype o)
           | HErr e => Ok (HErr e)
           end
  end.

Definition set_prototype (id : ObjectId) (proto : option ObjectId) : hm unit :=
  o ← hread (λ h, object h id);
  if negb (o_extensible o) && negb (bool_decide (o_prototype o = proto)) then hfail ReadOnlyProperty
  else
    walk ← (λ h, match prototype_walk (S (size (h_objects h))) h id proto with
                 | Ok r => Ok (h, r) | Panic => Panic | OutOfFuel => OutOfFuel end);
    hupd (write_barrier id proto);;
    hmod (λ h, h_set_structure_epoch (h_structure_epoch h + 1)%N h);;
    update_object id (λ o, Ok (o_set_prototype proto o)).

Record HeapStats := mkHeapStats {
  stat_nursery_objects : N;
  stat_tenured_objects : N;
  stat_managed_bytes : N;
  stat_next_major_bytes : N;
  stat_minor_collections : N;
  stat_major_collections : N;
  stat_root_registrations : N;
}.

Definition stats (h : Heap) : res HeapStats :=
  tenured ← checked_sub_N (N.of_nat (size (h_objects h))) (N.of_nat (length (h_nursery h)));
  Ok (mkHeapStats (N.of_nat (length (h_nursery h))) tenured (h_managed_bytes h) (h_next_major_bytes h)
        (h_minor_collections h) (h_major_collections h) (h_root_registrations h)).

End heap.
