(* ===== verification/JsMark.v ===== *)
(** * Marking computes reachability

    [reach] is the declarative meaning of a collection's liveness: roots, strong edges, and the
    ephemeron rule for weak collections.  On a heap without dangling handles [mark] returns
    exactly the reachable set, in both modes, whatever the order of the hash tables. *)

From S2P Require Import Prelude Float JsValue JsObject JsCollection JsHeap.

Lemma in_rev {A} (x : A) l : x ∈ rev l ↔ x ∈ l.
Proof. rewrite !list_elem_of_In. symmetry. apply in_rev. Qed.

Section mark.
Context {H : JsHost}.

Definition present (h : Heap) (id : ObjectId) : Prop := is_Some (h_objects h !! id).

(** A minor collection marks young objects only. *)
Definition traced (h : Heap) (y : bool) (id : ObjectId) : Prop :=
  ∃ o, h_objects h !! id = Some o ∧ (y = true → o_young o = true).

Definition old (h : Heap) (id : ObjectId) : Prop :=
  ∃ o, h_objects h !! id = Some o ∧ o_young o = false.

Definition succs (h : Heap) (id : ObjectId) : list ObjectId :=
  match h_objects h !! id with Some o => edges h id o | None => [] end.

(** Live for the ephemeron rule: marked, or old during a minor collection. *)
Definition live (h : Heap) (y : bool) (P : ObjectId → Prop) (id : ObjectId) : Prop :=
  (y = true ∧ old h id) ∨ P id.

Definition live_key (h : Heap) (y : bool) (P : ObjectId → Prop) (k : WeakCollectionKey) : Prop :=
  ∀ id, weak_key_object k = Some id → live h y P id.

(** [t] is a weak table with an entry from [k] to the object [id]. *)
Definition weak_entry (h : Heap) (t : ObjectId) (k : WeakCollectionKey) (id : ObjectId) : Prop :=
  ∃ o entries i v, h_objects h !! t = Some o ∧ weak_table o = Some entries
    ∧ entries !! i = Some (k, v) ∧ object_id v = Some id.

Inductive reach (h : Heap) (y : bool) (roots : ObjectId → Prop) : ObjectId → Prop :=
  | reach_root id : roots id → traced h y id → reach h y roots id
  | reach_edge a b : reach h y roots a → b ∈ succs h a → traced h y b → reach h y roots b
  | reach_ephemeron t k id :
      weak_entry h t k id → live h y (reach h y roots) t → live_key h y (reach h y roots) k →
      traced h y id → reach h y roots id.

(** No dangling handles: what is referred to is there. *)
Definition closed (h : Heap) : Prop := ∀ a b, b ∈ succs h a → present h b.

Lemma live_mono h y (P Q : ObjectId → Prop) id : (∀ a, P a → Q a) → live h y P id → live h y Q id.
Proof. unfold live. naive_solver. Qed.
Lemma live_key_mono h y (P Q : ObjectId → Prop) k : (∀ a, P a → Q a) → live_key h y P k → live_key h y Q k.
Proof. intros HPQ Hk id Hid. eapply live_mono; eauto. Qed.

(** Predicates closed under the rules of [reach]; [reach] is the least of them. *)
Record saturated (h : Heap) (y : bool) (roots P : ObjectId → Prop) : Prop := {
  sat_root id : roots id → traced h y id → P id;
  sat_edge a b : P a → b ∈ succs h a → traced h y b → P b;
  sat_ephemeron t k id :
    weak_entry h t k id → live h y P t → live_key h y P k → traced h y id → P id;
}.

Lemma reach_least h y roots P : saturated h y roots P → ∀ id, reach h y roots id → P id.
Proof.
  intros HP. fix IH 2. intros id R. destruct R as [id Hr Ht|a b Ha Hb Ht|t k id He Ht Hk Htr].
  - by apply (sat_root _ _ _ _ HP).
  - apply (sat_edge _ _ _ _ HP a); [apply IH, Ha|done|done].
  - apply (sat_ephemeron _ _ _ _ HP t k); [done| | |done].
    + destruct Ht as [?|Ht]; [by left|right; apply IH, Ht].
    + intros kid Hkid. destruct (Hk kid Hkid) as [?|Hr]; [by left|right; apply IH, Hr].
Qed.

Lemma traced_present h y id : traced h y id → present h id.
Proof. intros (o & E & _). by exists o. Qed.

(** ** Costs *)
Definition unmarked_cost (h : Heap) (marked : gset ObjectId) : nat :=
  sum_list (object_cost h <$> filter (λ p, p.1 ∉ marked) (map_to_list (h_objects h))).

Lemma sum_filter_mark (f : ObjectId * Object → nat) (l : list (ObjectId * Object)) id o (marked : gset ObjectId) :
  NoDup l.*1 → (id, o) ∈ l → id ∉ marked →
  sum_list (f <$> filter (λ p, p.1 ∉ marked) l)
  = f (id, o) + sum_list (f <$> filter (λ p, p.1 ∉ {[id]} ∪ marked) l).
Proof.
  induction l as [|[a oa] l IH]; [by intros _ ?%elem_of_nil|].
  cbn [fmap list_fmap]. intros [Ha Hnd]%NoDup_cons Hin Hid. rewrite !filter_cons. cbn [fst].
  apply elem_of_cons in Hin as [[= <- <-]|Hin].
  - rewrite decide_True by done. rewrite decide_False by set_solver. cbn. f_equal. f_equal. f_equal.
    clear IH Hnd. induction l as [|[b ob] l IH]; [done|]. cbn in Ha. apply not_elem_of_cons in Ha as [? ?].
    rewrite !filter_cons. cbn [fst]. specialize (IH ltac:(done)).
    destruct (decide (b ∉ marked)); [rewrite decide_True by set_solver|rewrite decide_False by set_solver];
      congruence.
  - assert (a ≠ id). { intros ->. apply Ha. apply list_elem_of_fmap. by exists (id, o). }
    destruct (decide (a ∉ marked)); [rewrite decide_True by set_solver|rewrite decide_False by set_solver].
    + cbn. rewrite IH by done. lia.
    + by apply IH.
Qed.

Lemma unmarked_cost_mark h marked id o :
  h_objects h !! id = Some o → id ∉ marked →
  unmarked_cost h marked = object_cost h (id, o) + unmarked_cost h ({[id]} ∪ marked).
Proof.
  intros E Hid. apply sum_filter_mark; [apply NoDup_fst_map_to_list|by apply elem_of_map_to_list|done].
Qed.

Lemma unmarked_cost_bound h marked : unmarked_cost h marked ≤ heap_cost h.
Proof.
  unfold unmarked_cost, heap_cost. induction (map_to_list (h_objects h)) as [|p l IH]; [done|].
  rewrite filter_cons. destruct (decide _); cbn; lia.
Qed.

Lemma object_cost_edges h id o : length (edges h id o) ≤ object_cost h (id, o).
Proof. unfold object_cost. cbn. lia. Qed.

(** ** The first loop *)

(** What both loops establish of a marked set relative to what is still to do. *)
Definition covered (h : Heap) (y : bool) (work : list ObjectId) (marked : gset ObjectId) : Prop :=
  (∀ a, a ∈ marked → traced h y a)
  ∧ (∀ a b, a ∈ marked → b ∈ succs h a → traced h y b → b ∈ marked ∨ b ∈ work)
  ∧ (∀ a, a ∈ work → present h a).

Lemma covered_skip h y id work marked o :
  h_objects h !! id = Some o → (y && negb (o_young o)) || bool_decide (id ∈ marked) = true →
  covered h y (id :: work) marked → covered h y work marked.
Proof.
  intros E Hs (C1 & C2 & C3). split_and!; [done| |set_solver].
  intros a b Ha Hb Ht. destruct (C2 a b Ha Hb Ht) as [|[->|]%elem_of_cons]; [by left| |by right].
  apply orb_true_iff in Hs as [[-> Hy]%andb_true_iff|Hs%bool_decide_eq_true]; [|by left].
  destruct Ht as (o' & E' & Hy'). rewrite E in E'. simplify_eq. rewrite Hy' in Hy by done. done.
Qed.

Lemma covered_mark h y id work marked o :
  closed h → h_objects h !! id = Some o → (y && negb (o_young o)) || bool_decide (id ∈ marked) = false →
  covered h y (id :: work) marked → covered h y (rev (edges h id o) ++ work) ({[id]} ∪ marked).
Proof.
  intros Hcl E [Hs1 Hs2]%orb_false_iff (C1 & C2 & C3).
  assert (succs h id = edges h id o) as Es by (unfold succs; by rewrite E).
  split_and!.
  - intros a [->%elem_of_singleton|Ha]%elem_of_union; [|auto]. exists o. split; [done|].
    intros ->. by destruct (o_young o).
  - intros a b [->%elem_of_singleton|Ha]%elem_of_union Hb Ht.
    + right. rewrite Es in Hb. apply elem_of_app. left. by apply in_rev.
    + destruct (C2 a b Ha Hb Ht) as [|[->|]%elem_of_cons];
        [left; by apply elem_of_union_r|left; by apply elem_of_union_l, elem_of_singleton
        |right; apply elem_of_app; by right].
  - intros a [Ha|Ha]%elem_of_app; [|apply C3; by constructor].
    apply (Hcl id). rewrite Es. by rewrite in_rev in Ha.
Qed.

Lemma mark_loop_spec h y :
  closed h →
  ∀ fuel work marked, covered h y work marked → length work + unmarked_cost h marked ≤ fuel →
  ∃ S, mark_loop fuel h y work marked = Ok S ∧ marked ⊆ S ∧ covered h y [] S
    ∧ (∀ a, a ∈ work → traced h y a → a ∈ S)
    ∧ (∀ P : ObjectId → Prop, (∀ a, a ∈ marked → P a) → (∀ a, a ∈ work → traced h y a → P a) →
        (∀ a b, P a → b ∈ succs h a → traced h y b → P b) → ∀ a, a ∈ S → P a).
Proof.
  intros Hcl fuel. induction fuel as [|fuel IH]; intros [|id work] marked C Hf; cbn in Hf; try lia.
  1,2: exists marked; split_and!; [done..|by intros a ?%elem_of_nil|auto].
  cbn. destruct (proj2 (proj2 C) id) as [o E]; [constructor|]. rewrite E. cbn.
  destruct ((y && negb (o_young o)) || bool_decide (id ∈ marked)) eqn:Es.
  - pose proof (covered_skip h y id work marked o E Es C) as C'.
    destruct (IH work marked C') as (S & -> & ? & ? & Hw & Hleast); [lia|].
    exists S. split_and!; [done..| |].
    + intros a [->|Ha]%elem_of_cons Ht; [|auto].
      apply orb_true_iff in Es as [[-> Hy]%andb_true_iff|Es%bool_decide_eq_true]; [|set_solver].
      destruct Ht as (o' & E' & Hy'). rewrite E in E'. simplify_eq. rewrite Hy' in Hy by done. done.
    + intros P HP Hwk Hcl'. apply Hleast; [done| |done]. intros a Ha. apply Hwk. by constructor.
  - pose proof (covered_mark h y id work marked o Hcl E Es C) as C'.
    assert (id ∉ marked) as Hid. { apply orb_false_iff in Es as [_ Es]. by apply bool_decide_eq_false in Es. }
    pose proof (unmarked_cost_mark h marked id o E Hid) as Hc.
    pose proof (object_cost_edges h id o).
    destruct (IH _ _ C') as (S & -> & Hsub & ? & Hw & Hleast); [rewrite length_app, length_rev; lia|].
    assert (traced h y id) as Hti. { apply C'. set_solver. }
    exists S. split_and!; [done|set_solver|done| |].
    + intros a [->|Ha]%elem_of_cons Ht; [set_solver|]. apply Hw; [|done]. apply elem_of_app. by right.
    + intros P HP Hwk Hstep. assert (P id) by (apply Hwk; [constructor|done]).
      apply Hleast; [set_solver| |done].
      intros a [Ha|Ha]%elem_of_app Ht; [|apply Hwk; [by constructor|done]].
      rewrite in_rev in Ha. apply (Hstep id); [done| |done]. unfold succs. by rewrite E.
Qed.

(** ** The waiting table *)
Definition waiting_at (w : gmap ObjectId (list ObjectId)) (k : ObjectId) : list ObjectId := default [] (w !! k).

Lemma waiting_size_insert w k l : w !! k = None → waiting_size (<[k := l]> w) = length l + waiting_size w.
Proof. intros E. unfold waiting_size. by rewrite (map_to_list_insert w k l E). Qed.

Lemma waiting_size_delete w k : waiting_size w = length (waiting_at w k) + waiting_size (delete k w).
Proof.
  unfold waiting_at. destruct (w !! k) as [l|] eqn:E; cbn.
  - rewrite <-(insert_delete_id w k l E) at 1. apply waiting_size_insert, lookup_delete_eq.
  - by rewrite delete_id.
Qed.

Lemma waiting_size_push w k v : waiting_size (<[k := waiting_at w k ++ [v]]> w) = S (waiting_size w).
Proof.
  rewrite <-insert_delete_eq, waiting_size_insert, length_app by apply lookup_delete_eq.
  rewrite (waiting_size_delete w k). cbn. lia.
Qed.

(** ** Activation *)

(** [st'] is [st] with the entries [E] activated: each is released or waits on its key, and
    nothing else is added. *)
Record activated (h : Heap) (y : bool) (marked : gset ObjectId)
    (E : WeakCollectionKey → ObjectId → Prop) (n : nat) (st st' : ephemerons) : Prop := {
  act_work a : a ∈ st.2 → a ∈ st'.2;
  act_waiting k a : a ∈ waiting_at st.1 k → a ∈ waiting_at st'.1 k;
  act_done k a : E k a → present h a →
    a ∈ st'.2 ∨ ∃ kid, weak_key_object k = Some kid ∧ ¬ live h y (.∈ marked) kid ∧ a ∈ waiting_at st'.1 kid;
  act_new_work a : a ∈ st'.2 →
    a ∈ st.2 ∨ ∃ k, E k a ∧ present h a ∧ live_key h y (.∈ marked) k;
  act_new_waiting kid a : a ∈ waiting_at st'.1 kid →
    a ∈ waiting_at st.1 kid ∨ ∃ k, E k a ∧ present h a ∧ weak_key_object k = Some kid;
  act_size : length st'.2 + waiting_size st'.1 ≤ n + (length st.2 + waiting_size st.1);
}.

Lemma activated_refl h y marked (E : WeakCollectionKey → ObjectId → Prop) n st :
  (∀ k a, ¬ E k a) → activated h y marked E n st st.
Proof. intros HE. split; try naive_solver. lia. Qed.

Lemma activated_trans h y marked (E1 E2 E : WeakCollectionKey → ObjectId → Prop) n1 n2 n st st1 st2 :
  activated h y marked E1 n1 st st1 → activated h y marked E2 n2 st1 st2 →
  (∀ k a, E k a ↔ E1 k a ∨ E2 k a) → n1 + n2 ≤ n → activated h y marked E n st st2.
Proof.
  intros A B HE Hn. split.
  - intros a Ha. by apply (act_work _ _ _ _ _ _ _ B), (act_work _ _ _ _ _ _ _ A).
  - intros k a Ha. by apply (act_waiting _ _ _ _ _ _ _ B), (act_waiting _ _ _ _ _ _ _ A).
  - intros k a [Ha|Ha]%HE Hp.
    + destruct (act_done _ _ _ _ _ _ _ A k a Ha Hp) as [?|(kid & ? & ? & ?)].
      * left. by apply (act_work _ _ _ _ _ _ _ B).
      * right. exists kid. split_and!; [done..|]. by apply (act_waiting _ _ _ _ _ _ _ B).
    + by apply (act_done _ _ _ _ _ _ _ B).
  - intros a [Ha|(k & ? & ?)]%(act_new_work _ _ _ _ _ _ _ B).
    + apply (act_new_work _ _ _ _ _ _ _ A) in Ha as [?|(k & ? & ?)]; [by left|].
      right. exists k. split; [apply HE; by left|done].
    + right. exists k. split; [apply HE; by right|done].
  - intros kid a [Ha|(k & ? & ?)]%(act_new_waiting _ _ _ _ _ _ _ B).
    + apply (act_new_waiting _ _ _ _ _ _ _ A) in Ha as [?|(k & ? & ?)]; [by left|].
      right. exists k. split; [apply HE; by left|done].
    + right. exists k. split; [apply HE; by right|done].
  - pose proof (act_size _ _ _ _ _ _ _ A). pose proof (act_size _ _ _ _ _ _ _ B). lia.
Qed.

Lemma key_is_live_spec h y key marked :
  (∀ a, a ∈ marked → traced h y a) → key_is_live h y key marked = true ↔ live h y (.∈ marked) key.
Proof.
  intros Hm. unfold key_is_live, live, old. destruct y.
  - split.
    + destruct (h_objects h !! key) as [o|] eqn:E; [|done].
      intros [Ho|Hk%bool_decide_eq_true]%orb_true_iff; [left|by right].
      split; [done|]. exists o. split; [done|]. by destruct (o_young o).
    + intros [(_ & o & -> & ->)|Hk]; [done|]. destruct (Hm _ Hk) as (o & -> & _).
      apply orb_true_iff. right. by apply bool_decide_eq_true.
  - rewrite bool_decide_eq_true. naive_solver.
Qed.

Lemma activated_entry h y marked k v st :
  (∀ a, a ∈ marked → traced h y a) →
  activated h y marked (λ k' a, k' = k ∧ object_id v = Some a) 1 st (activate_entry h y marked (k, v) st).
Proof.
  intros Hm. unfold activate_entry. cbn [fst snd].
  destruct (object_id v) as [a|] eqn:Ea; [|apply activated_refl; naive_solver].
  case_bool_decide as Hp; [|split; try naive_solver; lia].
  assert (live_key h y (.∈ marked) k → activated h y marked (λ k' a', k' = k ∧ Some a = Some a') 1 st (st.1, a :: st.2)) as Hrel.
  { intros Hk. split; cbn.
    - intros a' ?. by constructor.
    - done.
    - intros k' a' [-> [= <-]] _. left. constructor.
    - intros a' [->|?]%elem_of_cons; [right; exists k; by split_and!|by left].
    - by left.
    - lia. }
  destruct k as [target|sym]; [|apply Hrel; by intros ?].
  destruct (key_is_live h y target marked) eqn:Ek.
  - apply Hrel. intros ? [= <-]. by apply key_is_live_spec.
  - assert (∀ x a', a' ∈ waiting_at (<[target := default [] (st.1 !! target) ++ [a]]> st.1) x ↔
              a' ∈ waiting_at st.1 x ∨ (x = target ∧ a' = a)) as Hw.
    { intros x a'. unfold waiting_at. destruct (decide (x = target)) as [->|Hne].
      - rewrite lookup_insert_eq. cbn. rewrite elem_of_app, list_elem_of_singleton. naive_solver.
      - rewrite lookup_insert_ne by done. naive_solver. }
    split; cbn [fst snd].
    + done.
    + intros x a' ?. apply Hw. by left.
    + intros k' a' [-> [= <-]] _. right. exists target. split_and!; [done| |apply Hw; by right].
      rewrite <-key_is_live_spec by done. by rewrite Ek.
    + intros. by left.
    + intros x a' [?|[-> ->]]%Hw; [by left|]. right. exists (WKObject target). by split_and!.
    + pose proof (waiting_size_push st.1 target a). unfold waiting_at in *. lia.
Qed.

Lemma activated_fold h y marked (l : list (WeakCollectionKey * Value)) st :
  (∀ a, a ∈ marked → traced h y a) →
  activated h y marked (λ k a, ∃ v, (k, v) ∈ l ∧ object_id v = Some a) (length l) st
    (foldl (λ st e, activate_entry h y marked e st) st l).
Proof.
  intros Hm. revert st. induction l as [|[k v] l IH]; intros st.
  - apply activated_refl. intros k a (v & Hv & _). by apply elem_of_nil in Hv.
  - cbn. eapply activated_trans; [by apply activated_entry|apply IH| |done].
    cbn. intros k' a. split.
    + intros (v' & [[= -> ->]|?]%elem_of_cons & ?); [by left|right; eauto].
    + intros [[-> ?]|(v' & ? & ?)]; [exists v; by split; [constructor|]|exists v'; by split; [constructor|]].
Qed.

Lemma activated_object h y marked t o st :
  (∀ a, a ∈ marked → traced h y a) → h_objects h !! t = Some o →
  activated h y marked (weak_entry h t) (object_cost h (t, o) - length (edges h t o)) st
    (activate_object h y marked o st).
Proof.
  intros Hm Et. unfold activate_object, object_cost. cbn [fst snd].
  destruct (weak_table o) as [entries|] eqn:Ew.
  2: { apply activated_refl. intros k a (o' & ? & ? & ? & ? & ? & _). congruence. }
  pose proof (activated_fold h y marked (snd <$> map_to_list entries) st Hm) as A.
  rewrite length_fmap, length_map_to_list in A.
  assert (∀ k a, weak_entry h t k a ↔ ∃ v, (k, v) ∈ (snd <$> map_to_list entries) ∧ object_id v = Some a) as HE.
  { intros k a. split.
    - intros (o' & es & i & v & E' & E2 & E3 & E4). simplify_eq. exists v. split; [|done].
      apply list_elem_of_fmap. exists (i, (k, v)). split; [done|]. by apply elem_of_map_to_list.
    - intros (v & ([i [k' v']] & [= -> ->] & Hi%elem_of_map_to_list)%list_elem_of_fmap & ?).
      by exists o, entries, i, v'. }
  eapply activated_trans; [exact A|by apply (activated_refl h y marked (λ _ _, False) 0); naive_solver| |lia].
  intros k a. rewrite HE. naive_solver.
Qed.

(** The tables that are live when the phase starts. *)
Lemma activated_live h y marked :
  (∀ a, a ∈ marked → traced h y a) →
  activated h y marked (λ k a, ∃ t, live h y (.∈ marked) t ∧ weak_entry h t k a) (heap_cost h)
    (∅, []) (activate_live h y marked).
Proof.
  intros Hm. unfold activate_live, heap_cost.
  assert (∀ l st, (∀ t o, (t, o) ∈ l → h_objects h !! t = Some o) →
    activated h y marked (λ k a, ∃ t o, (t, o) ∈ l ∧ live h y (.∈ marked) t ∧ weak_entry h t k a)
      (sum_list (object_cost h <$> l)) st
      (foldl (λ st p, if table_live y marked p then activate_object h y marked p.2 st else st) st l)) as Hgen.
  { induction l as [|[t o] l IH]; intros st Hl.
    { apply activated_refl. intros k a (t & o & Ht & _). by apply elem_of_nil in Ht. }
    assert (h_objects h !! t = Some o) as Et by (apply Hl; constructor).
    assert (table_live y marked (t, o) = true ↔ live h y (.∈ marked) t) as Hlive.
    { rewrite <-key_is_live_spec by done. unfold table_live, key_is_live. cbn. by rewrite Et. }
    cbn [foldl fmap list_fmap sum_list]. eapply activated_trans; [|apply IH| |].
    - instantiate (2 := λ k a, live h y (.∈ marked) t ∧ weak_entry h t k a).
      instantiate (1 := object_cost h (t, o)).
      destruct (table_live y marked (t, o)) eqn:El.
      + eapply activated_trans;
          [by apply (activated_object h y marked t o)|by apply (activated_refl h y marked (λ _ _, False) 0); naive_solver| |].
        * intros k a. rewrite <-Hlive. naive_solver.
        * unfold object_cost. cbn. lia.
      + apply activated_refl. intros k a [?%Hlive _]. done.
    - intros t' o' ?. apply Hl. by constructor.
    - cbn. intros k a. split.
      + intros (t' & o' & [[= -> ->]|?]%elem_of_cons & ? & ?); [by left|right; by exists t', o'].
      + intros [[? ?]|(t' & o' & ? & ? & ?)]; [exists t, o|exists t', o']; by split_and!; [constructor|..].
    - done. }
  eapply activated_trans; [apply Hgen| by apply (activated_refl h y marked (λ _ _, False) 0); naive_solver| |lia].
  - intros t o. by rewrite elem_of_map_to_list.
  - cbn. intros k a. split.
    + intros (t & Ht & He). left. destruct He as (o & ? & ? & ? & Ho & ?).
      exists t, o. split; [by apply elem_of_map_to_list|]. split; [done|]. unfold weak_entry. eauto 10.
    + intros [(t & o & _ & ? & ?)|[]]. eauto.
Qed.

(** ** The second loop *)

(** Every entry of a live table is settled, released, or waits on a key that is not live. *)
Record ephemeron_inv (h : Heap) (y : bool) (st : ephemerons) (marked : gset ObjectId) : Prop := {
  ei_covered : covered h y st.2 marked;
  ei_present k a : a ∈ waiting_at st.1 k → present h a;
  ei_tables t k a :
    weak_entry h t k a → live h y (.∈ marked) t → present h a →
    a ∈ st.2 ∨ (traced h y a → a ∈ marked)
    ∨ ∃ kid, weak_key_object k = Some kid ∧ ¬ live h y (.∈ marked) kid ∧ a ∈ waiting_at st.1 kid;
}.

Lemma ephemeron_inv_skip h y id waiting work marked o :
  h_objects h !! id = Some o → (y && negb (o_young o)) || bool_decide (id ∈ marked) = true →
  ephemeron_inv h y (waiting, id :: work) marked → ephemeron_inv h y (waiting, work) marked.
Proof.
  intros E Hs [C1 C2 C3]. split; cbn in *; [by eapply covered_skip|done|].
  intros t k a He Ht Hp. destruct (C3 t k a He Ht Hp) as [[->|?]%elem_of_cons|[?|?]]; [|by left|by right; left|by right; right].
  right; left. intros (o' & E' & Hy'). rewrite E in E'. simplify_eq.
  apply orb_true_iff in Hs as [[-> Hy]%andb_true_iff|Hs%bool_decide_eq_true]; [|done].
  rewrite Hy' in Hy by done. done.
Qed.

(** The state after marking [id]: its edges and the values waiting on it join the work. *)
Definition released_state (h : Heap) (id : ObjectId) (o : Object) (waiting : gmap ObjectId (list ObjectId))
    (work : list ObjectId) : ephemerons :=
  (delete id waiting, rev (waiting_at waiting id) ++ rev (edges h id o) ++ work).

Lemma waiting_at_delete w id k a : a ∈ waiting_at (delete id w) k ↔ k ≠ id ∧ a ∈ waiting_at w k.
Proof.
  unfold waiting_at. destruct (decide (k = id)) as [->|].
  - rewrite lookup_delete_eq. cbn. rewrite elem_of_nil. naive_solver.
  - rewrite lookup_delete_ne by done. naive_solver.
Qed.

Lemma ephemeron_inv_mark h y id waiting work marked o st' :
  closed h → h_objects h !! id = Some o → (y && negb (o_young o)) || bool_decide (id ∈ marked) = false →
  ephemeron_inv h y (waiting, id :: work) marked →
  activated h y ({[id]} ∪ marked) (weak_entry h id) (object_cost h (id, o) - length (edges h id o))
    (released_state h id o waiting work) st' →
  ephemeron_inv h y st' ({[id]} ∪ marked).
Proof.
  intros Hcl E Hs [C1 C2 C3] A. cbn in C1, C2, C3.
  pose proof (covered_mark h y id work marked o Hcl E Hs C1) as (D1 & D2 & D3).
  assert (∀ a, live h y (.∈ {[id]} ∪ marked) a → live h y (.∈ marked) a ∨ a = id) as Hlive.
  { intros a [?|[->%elem_of_singleton|?]%elem_of_union]; [left; by left|by right|left; by right]. }
  split.
  - split_and!; [done| |].
    + intros a b Ha Hb Ht. destruct (D2 a b Ha Hb Ht) as [?|Hw]; [by left|right].
      apply (act_work _ _ _ _ _ _ _ A). cbn. apply elem_of_app. by right.
    + intros a [Ha|(k & _ & ? & _)]%(act_new_work _ _ _ _ _ _ _ A); [|done]. cbn in Ha.
      apply elem_of_app in Ha as [Ha|Ha]; [|by apply D3]. rewrite in_rev in Ha. by apply (C2 id).
  - intros k a [Ha|(k' & _ & ? & _)]%(act_new_waiting _ _ _ _ _ _ _ A); [|done].
    cbn in Ha. apply waiting_at_delete in Ha as [_ Ha]. by apply (C2 k).
  - intros t k a He [Ht| ->]%Hlive Hp.
    2: { destruct (act_done _ _ _ _ _ _ _ A k a He Hp) as [?|?]; [by left|right; by right]. }
    destruct (C3 t k a He Ht Hp) as [[->|Ha]%elem_of_cons|[Ha|(kid & Hk & Hn & Ha)]].
    + right; left. intros _. by apply elem_of_union_l, elem_of_singleton.
    + left. apply (act_work _ _ _ _ _ _ _ A). cbn. rewrite !elem_of_app. auto.
    + right; left. intros Ht'. apply elem_of_union_r; auto.
    + destruct (decide (kid = id)) as [->|Hne].
      * left. apply (act_work _ _ _ _ _ _ _ A). cbn. rewrite !elem_of_app, in_rev. auto.
      * right; right. exists kid. split_and!; [done|by intros [?| ->]%Hlive|].
        apply (act_waiting _ _ _ _ _ _ _ A). cbn. by apply waiting_at_delete.
Qed.

(** Closed under strong edges and the ephemeron rule. *)
Record steps_closed (h : Heap) (y : bool) (P : ObjectId → Prop) : Prop := {
  sc_edge a b : P a → b ∈ succs h a → traced h y b → P b;
  sc_ephemeron t k id :
    weak_entry h t k id → live h y P t → live_key h y P k → traced h y id → P id;
}.

(** What the work list and the waiting table may still add to [P]. *)
Definition justified (h : Heap) (y : bool) (P : ObjectId → Prop) (st : ephemerons) : Prop :=
  (∀ a, a ∈ st.2 → traced h y a → P a)
  ∧ (∀ k a, a ∈ waiting_at st.1 k → live h y P k → traced h y a → P a).

Lemma justified_mark h y P id waiting work marked o st' n :
  steps_closed h y P → h_objects h !! id = Some o → traced h y id →
  (∀ a, a ∈ marked → P a) → justified h y P (waiting, id :: work) →
  activated h y ({[id]} ∪ marked) (weak_entry h id) n (released_state h id o waiting work) st' →
  (∀ a, a ∈ {[id]} ∪ marked → P a) ∧ justified h y P st'.
Proof.
  intros HP E Ht Hm [Hw Hwt] A. cbn in Hw, Hwt.
  assert (P id) as Hid by (apply Hw; [constructor|done]).
  assert (∀ a, a ∈ {[id]} ∪ marked → P a) as Hm' by (intros a [->%elem_of_singleton|?]%elem_of_union; auto).
  assert (∀ a, live h y (.∈ {[id]} ∪ marked) a → live h y P a) as Hlive by (intros a; by apply live_mono).
  split; [done|split].
  - intros a [Ha|(k & He & Hp & Hk)]%(act_new_work _ _ _ _ _ _ _ A) Hta.
    + cbn in Ha. rewrite !elem_of_app, !in_rev in Ha. destruct Ha as [Ha|[Ha|Ha]].
      * apply (Hwt id a Ha); [by right|done].
      * apply (sc_edge _ _ _ HP id); [done| |done]. unfold succs. by rewrite E.
      * apply Hw; [by constructor|done].
    + apply (sc_ephemeron _ _ _ HP id k); [done|by right| |done].
      intros kid Hkid. by apply Hlive, Hk.
  - intros kid a [Ha|(k & He & Hp & Hk)]%(act_new_waiting _ _ _ _ _ _ _ A) Hl Hta.
    + cbn in Ha. apply waiting_at_delete in Ha as [_ Ha]. by apply (Hwt kid).
    + apply (sc_ephemeron _ _ _ HP id k); [done|by right| |done].
      intros kid' Hkid'. by simplify_eq.
Qed.

Lemma ephemeron_loop_spec h y :
  closed h →
  ∀ fuel st marked, ephemeron_inv h y st marked →
  length st.2 + waiting_size st.1 + unmarked_cost h marked ≤ fuel →
  ∃ S waiting, ephemeron_loop fuel h y st marked = Ok S ∧ marked ⊆ S ∧ ephemeron_inv h y (waiting, []) S
    ∧ (∀ P, steps_closed h y P → (∀ a, a ∈ marked → P a) → justified h y P st → ∀ a, a ∈ S → P a).
Proof.
  intros Hcl fuel. induction fuel as [|fuel IH]; intros [waiting [|id work]] marked C Hf; cbn in Hf; try lia.
  1,2: exists marked, waiting; by split_and!.
  cbn. destruct (proj2 (proj2 (ei_covered _ _ _ _ C)) id) as [o E]; [constructor|]. rewrite E. cbn.
  destruct ((y && negb (o_young o)) || bool_decide (id ∈ marked)) eqn:Es.
  - destruct (IH (waiting, work) marked) as (S & w & -> & ? & ? & Hleast); [by eapply ephemeron_inv_skip|cbn; lia|].
    exists S, w. split_and!; [done..|]. intros P HP Hm [Hw Hwt]. apply Hleast; [done..|].
    split; [|done]. intros a Ha. apply Hw. by constructor.
  - assert (id ∉ marked) as Hid. { apply orb_false_iff in Es as [_ Es]. by apply bool_decide_eq_false in Es. }
    pose proof (proj1 (covered_mark h y id work marked o Hcl E Es (ei_covered _ _ _ _ C))) as Htr.
    pose proof (activated_object h y ({[id]} ∪ marked) id o (released_state h id o waiting work) Htr E) as A.
    fold (waiting_at waiting id). change (delete id waiting, _) with (released_state h id o waiting work).
    pose proof (unmarked_cost_mark h marked id o E Hid) as Hc.
    pose proof (object_cost_edges h id o). pose proof (act_size _ _ _ _ _ _ _ A) as Hsz.
    cbn in Hsz. rewrite !length_app, !length_rev in Hsz. pose proof (waiting_size_delete waiting id).
    destruct (IH (activate_object h y ({[id]} ∪ marked) o (released_state h id o waiting work)) ({[id]} ∪ marked))
      as (S & w & -> & Hsub & ? & Hleast); [by eapply ephemeron_inv_mark|lia|].
    exists S, w. split_and!; [done|set_solver|done|]. intros P HP Hm Hj.
    destruct (justified_mark h y P id waiting work marked o _ _ HP E (Htr id ltac:(set_solver)) Hm Hj A).
    by apply Hleast.
Qed.

(** ** The whole of [mark] *)

(** Everything a collection starts from is there. *)
Record collectable (h : Heap) (protected : list ObjectId) : Prop := {
  co_closed : closed h;
  co_roots r id : h_roots h !! r = Some id → present h id;
  co_protected id : id ∈ protected → present h id;
  co_remembered id : id ∈ h_remembered h → present h id;
}.

(** The roots of the traversal: in a minor collection, also what remembered objects refer to. *)
Definition gc_roots (h : Heap) (y : bool) (protected : list ObjectId) (id : ObjectId) : Prop :=
  id ∈ mark_roots h protected ∨ (y = true ∧ ∃ a, a ∈ h_remembered h ∧ id ∈ succs h a).

Lemma mark_roots_present h protected id : collectable h protected → id ∈ mark_roots h protected → present h id.
Proof.
  intros C. unfold mark_roots, live_scoped. rewrite !elem_of_app. intros [Hr|[Hs|Hp]].
  - apply list_elem_of_fmap in Hr as ([r i] & -> & Hr%elem_of_map_to_list). by apply (co_roots _ _ C r).
  - apply list_elem_of_filter in Hs as [Hs _]. done.
  - by apply (co_protected _ _ C).
Qed.

Lemma remembered_edges_spec h protected :
  collectable h protected →
  ∃ l, remembered_edges h = Ok l ∧ ∀ id, id ∈ l ↔ ∃ a, a ∈ h_remembered h ∧ id ∈ succs h a.
Proof.
  intros C. unfold remembered_edges.
  assert (∀ l, (∀ a, a ∈ l → present h a) →
    ∃ ls : list (list ObjectId), mapM (λ id, o ← unwrap (h_objects h !! id); Ok (edges h id o)) l = Ok ls
      ∧ ∀ id, id ∈ mjoin ls ↔ ∃ a, a ∈ l ∧ id ∈ succs h a) as Hgen.
  { induction l as [|a l IH]; intros Hl; cbn.
    - exists []. split; [done|]. intros id. cbn. rewrite elem_of_nil. split; [done|].
      intros (a & Ha & _). by apply elem_of_nil in Ha.
    - destruct (Hl a) as [o E]; [constructor|]. rewrite E. cbn.
      destruct IH as (ls & -> & Hls). { intros a' ?. apply Hl. by constructor. }
      cbn. eexists. split; [done|]. intros id. cbn. rewrite elem_of_app, Hls. unfold succs at 2.
      setoid_rewrite elem_of_cons. split.
      + intros [Hid|(a' & ? & ?)]; [exists a|exists a']; [rewrite E|]; eauto.
      + intros (a' & [->|?] & Hid); [left|right; eauto]. by rewrite E in Hid. }
  destruct (Hgen (elements (h_remembered h))) as (ls & -> & Hls).
  { intros a Ha%elem_of_elements. by apply (co_remembered _ _ C). }
  cbn. eexists. split; [done|]. intros id. rewrite Hls. by setoid_rewrite elem_of_elements.
Qed.

Lemma mark_spec h y protected :
  collectable h protected →
  ∃ S, mark h y protected = Ok S ∧ ∀ id, id ∈ S ↔ reach h y (gc_roots h y protected) id.
Proof.
  intros C. pose proof (co_closed _ _ C) as Hcl. unfold mark.
  assert (∃ extra, (if y then remembered_edges h else Ok []) = Ok extra
    ∧ ∀ id, id ∈ rev (mark_roots h protected ++ extra) ↔ gc_roots h y protected id) as (extra & -> & Hextra).
  { unfold gc_roots. destruct y.
    - destruct (remembered_edges_spec h protected C) as (l & -> & Hl). exists l. split; [done|].
      intros id. rewrite in_rev, elem_of_app, Hl. naive_solver.
    - exists []. split; [done|]. intros id. rewrite in_rev, app_nil_r. naive_solver. }
  cbn. set (work := rev (mark_roots h protected ++ extra)) in *.
  assert (∀ id, id ∈ work → present h id) as Hwork.
  { intros id [Hid|(_ & a & _ & Ha)]%Hextra; [by eapply mark_roots_present|by apply (Hcl a)]. }
  destruct (mark_loop_spec h y Hcl (length work + heap_cost h) work ∅) as (S1 & -> & _ & C1 & Hw1 & L1).
  { split_and!; [intros a Ha; by apply not_elem_of_empty in Ha|intros a b Ha; by apply not_elem_of_empty in Ha|done]. }
  { pose proof (unmarked_cost_bound h ∅). lia. }
  cbn. pose proof (activated_live h y S1 (proj1 C1)) as A.
  set (st := activate_live h y S1) in *.
  assert (ephemeron_inv h y st S1) as C2.
  { split.
    - destruct C1 as (D1 & D2 & _). split_and!; [done| |].
      + intros a b Ha Hb Ht. destruct (D2 a b Ha Hb Ht) as [?|Hn]; [by left|by apply elem_of_nil in Hn].
      + by intros a [Hn%elem_of_nil|(k & _ & ? & _)]%(act_new_work _ _ _ _ _ _ _ A).
    - intros k a [Hn|(k' & _ & ? & _)]%(act_new_waiting _ _ _ _ _ _ _ A); [|done].
      cbn in Hn. unfold waiting_at in Hn. rewrite lookup_empty in Hn. by apply elem_of_nil in Hn.
    - intros t k a He Ht Hp. destruct (act_done _ _ _ _ _ _ _ A k a) as [?|?]; [by exists t|done|by left|by do 2 right]. }
  destruct (ephemeron_loop_spec h y Hcl (length st.2 + waiting_size st.1 + heap_cost h) st S1 C2)
    as (S & w & -> & Hsub & [D1 D2 D3] & L2).
  { pose proof (unmarked_cost_bound h S1). lia. }
  exists S. split; [done|]. intros id. split.
  - apply L2.
    + split; [intros; by eapply reach_edge|intros; by eapply reach_ephemeron].
    + apply L1; [intros a Ha; by apply not_elem_of_empty in Ha| |intros; by eapply reach_edge].
      intros a Ha Hta. apply reach_root; [by apply Hextra|done].
    + assert (∀ a, a ∈ S1 → reach h y (gc_roots h y protected) a) as HS1.
      { apply L1; [intros a Ha; by apply not_elem_of_empty in Ha| |intros; by eapply reach_edge].
        intros a Ha Hta. apply reach_root; [by apply Hextra|done]. }
      split.
      * intros a [Hn%elem_of_nil|(k & (t & Ht & He) & Hp & Hk)]%(act_new_work _ _ _ _ _ _ _ A) Hta; [done|].
        eapply reach_ephemeron; [done| | |done];
          [by apply (live_mono h y (.∈ S1))|by apply (live_key_mono h y (.∈ S1))].
      * intros kid a [Hn|(k & (t & Ht & He) & Hp & Hk)]%(act_new_waiting _ _ _ _ _ _ _ A) Hl Hta.
        { cbn in Hn. unfold waiting_at in Hn. rewrite lookup_empty in Hn. by apply elem_of_nil in Hn. }
        eapply reach_ephemeron; [done|by apply (live_mono h y (.∈ S1))| |done].
        intros kid' Hkid'. by simplify_eq.
  - revert id. apply (reach_least h y (gc_roots h y protected) (.∈ S)). destruct D1 as (D1 & D1' & _). split.
    + intros a Ha%Hextra Hta. by apply Hsub, Hw1.
    + intros a b Ha Hb Hta. destruct (D1' a b Ha Hb Hta) as [?|Hn]; [done|by apply elem_of_nil in Hn].
    + intros t k a He Ht Hk Hta. destruct (D3 t k a He Ht) as [Hn|[?|(kid & Hkid & Hn & _)]].
      * by eapply traced_present.
      * by apply elem_of_nil in Hn.
      * auto.
      * exfalso. by apply Hn, Hk.
Qed.

End mark.
