(* ===== verification/JsGc.v ===== *)
(** * The collector keeps exactly what is reachable

    [heap_ok] is the invariant of the heap between operations: no dangling handle, a nursery that
    lists the young objects, a remembered set that covers every old-to-young edge, and exact byte
    accounting within the budget.  A major collection keeps the reachable objects and no others;
    a minor one reclaims only unreachable young objects; both preserve the invariant. *)

From S2P Require Import Prelude Float JsValue JsObject JsCollection JsCollectionProps JsHeap JsMark.

(** ** Sums over maps *)
Lemma sumN_perm l k : l ≡ₚ k → sumN l = sumN k.
Proof. induction 1; cbn; lia. Qed.
Lemma sumN_app l k : sumN (l ++ k) = (sumN l + sumN k)%N.
Proof. induction l as [|x l IH]; cbn; [done|]. rewrite IH. lia. Qed.
Lemma sumN_le {A} (f g : A → N) l : (∀ x, x ∈ l → (f x <= g x)%N) → (sumN (f <$> l) <= sumN (g <$> l))%N.
Proof.
  induction l as [|x l IH]; intros Hle; cbn; [lia|].
  specialize (IH ltac:(intros; apply Hle; by constructor)). specialize (Hle x ltac:(constructor)). lia.
Qed.

(** [f] summed over the values of a map. *)
Definition msum {K A} `{Countable K} (f : A → N) (m : gmap K A) : N := sumN ((f ∘ snd) <$> map_to_list m).

Section msum.
Context {K A : Type} `{Countable K}.
Implicit Types (m : gmap K A) (f g : A → N).

Lemma msum_empty f : msum f (∅ : gmap K A) = 0%N.
Proof. unfold msum. by rewrite map_to_list_empty. Qed.
Lemma msum_insert f m i x : m !! i = None → msum f (<[i := x]> m) = (f x + msum f m)%N.
Proof. intros E. unfold msum. by rewrite (sumN_perm _ _ (fmap_Permutation _ _ _ (map_to_list_insert m i x E))). Qed.
Lemma msum_delete f m i x : m !! i = Some x → msum f m = (f x + msum f (delete i m))%N.
Proof.
  intros E. rewrite <-(insert_delete_id m i x E) at 1. apply msum_insert, lookup_delete_eq.
Qed.
Lemma msum_update f m i x y : m !! i = Some x → (msum f (<[i := y]> m) + f x = msum f m + f y)%N.
Proof.
  intros E. rewrite (msum_delete f m i x E), <-insert_delete_eq, msum_insert by apply lookup_delete_eq. lia.
Qed.
Lemma msum_le f g m : (∀ i x, m !! i = Some x → (f x <= g x)%N) → (msum f m <= msum g m)%N.
Proof. intros Hle. apply sumN_le. intros [i x] Hx%elem_of_map_to_list. by apply (Hle i). Qed.
Lemma msum_elem f m i x : m !! i = Some x → (f x <= msum f m)%N.
Proof. intros E. rewrite (msum_delete f m i x E). lia. Qed.
Lemma msum_filter_split f m (P : K * A → Prop) `{∀ p, Decision (P p)} :
  msum f m = (msum f (filter P m) + msum f (filter (λ p, ¬ P p) m))%N.
Proof.
  induction m as [|i x m E IH] using map_ind.
  - rewrite !map_filter_empty, !msum_empty. done.
  - assert (∀ (Q : K * A → Prop) `{∀ p, Decision (Q p)}, filter Q m !! i = None) as HN.
    { intros Q ?. apply map_lookup_filter_None. by left. }
    rewrite msum_insert, IH by done. destruct (decide (P (i, x))) as [HP|HP].
    + rewrite (map_filter_insert_True P) by done.
      rewrite (map_filter_insert_False (λ p, ¬ P p)), delete_id, msum_insert by (auto || naive_solver). lia.
    + rewrite (map_filter_insert_False P), delete_id by done.
      rewrite (map_filter_insert_True (λ p, ¬ P p)), msum_insert by auto. lia.
Qed.
Lemma msum_ext f g m : (∀ i x, m !! i = Some x → f x = g x) → msum f m = msum g m.
Proof. intros E. apply N.le_antisymm; apply msum_le; intros i x Hx; rewrite (E i x Hx); lia. Qed.
Lemma msum_add f g m : msum (λ x, (f x + g x)%N) m = (msum f m + msum g m)%N.
Proof.
  induction m as [|i x m E IH] using map_ind; [by rewrite !msum_empty|].
  rewrite !msum_insert by done. lia.
Qed.
Lemma msum_const c m : msum (λ _, c) m = (N.of_nat (size m) * c)%N.
Proof.
  induction m as [|i x m E IH] using map_ind; [by rewrite msum_empty, map_size_empty|].
  rewrite msum_insert, map_size_insert_None by done. lia.
Qed.
End msum.

Lemma msum_fmap {K A B} `{Countable K} (f : A → N) (g : B → A) (m : gmap K B) : msum f (g <$> m) = msum (f ∘ g) m.
Proof.
  induction m as [|i x m E IH] using map_ind.
  - by rewrite fmap_empty, !msum_empty.
  - rewrite fmap_insert, msum_insert by (by rewrite lookup_fmap, E). rewrite msum_insert by done. by rewrite IH.
Qed.

(** [f] summed over the entries of a map, keys included. *)
Definition isum {K A} `{Countable K} (f : K → A → N) (m : gmap K A) : N :=
  sumN ((λ p : K * A, f p.1 p.2) <$> map_to_list m).

Section isum.
Context {K A : Type} `{Countable K}.
Implicit Types (m : gmap K A) (f : K → A → N).

Lemma isum_insert f m i x : m !! i = None → isum f (<[i := x]> m) = (f i x + isum f m)%N.
Proof. intros E. unfold isum. by rewrite (sumN_perm _ _ (fmap_Permutation _ _ _ (map_to_list_insert m i x E))). Qed.
Lemma isum_delete f m i x : m !! i = Some x → isum f m = (f i x + isum f (delete i m))%N.
Proof. intros E. rewrite <-(insert_delete_id m i x E) at 1. apply isum_insert, lookup_delete_eq. Qed.
Lemma isum_set f m i y :
  (isum f (<[i := y]> m) + match m !! i with Some x => f i x | None => 0 end = isum f m + f i y)%N.
Proof.
  destruct (m !! i) as [x|] eqn:E.
  - rewrite (isum_delete f m i x E), <-insert_delete_eq, isum_insert by apply lookup_delete_eq. lia.
  - rewrite isum_insert by done. lia.
Qed.
Lemma isum_elem f m i x : m !! i = Some x → (f i x <= isum f m)%N.
Proof. intros E. rewrite (isum_delete f m i x E). lia. Qed.
Lemma isum_empty f : isum f (∅ : gmap K A) = 0%N.
Proof. unfold isum. by rewrite map_to_list_empty. Qed.
End isum.

Lemma checked_sub_N_Ok a b : (b <= a)%N → checked_sub_N a b = Ok (a - b)%N.
Proof. intros. unfold checked_sub_N. by rewrite (proj2 (N.leb_le b a)). Qed.

Section gc.
Context {H : JsHost}.

(** ** What an object owns of its charge

    The charges of the slots that an operation may later release.  The charge of an object is at
    least this, so releasing never underflows. *)
Definition owned_kind_bytes (k : ObjectKind) : N :=
  match k with
  | KMap entries | KSet entries => oc_bytes entries
  | WeakCollection _ entries => msum (λ e, weak_collection_entry_bytes e.1 e.2) entries
  | FinalizationRegistry _ cells =>
      sumN ((λ c, finalization_cell_bytes (fc_target c) (fc_holdings c) (fc_unregister_token c)) <$> cells)
  | ArrayBuffer bytes _ _ _ _ _ => N.of_nat (length bytes)
  | KRegExp r => regexp_bytes r
  | Generator _ state_bytes _ control_bytes => state_bytes + control_bytes
  | _ => 0
  end.

(** The charge of a stored name, from its identity. *)
Definition pkey_byte_len (k : PKey) : N :=
  match k with
  | inl s => byte_len s
  | inr id => match symbol_description id with Some d => byte_len d | None => 0 end
  end.

Definition private_bytes (p : option PrivateData) : N :=
  match p with
  | Some p =>
      isum private_element_bytes (pr_elements p)
      + isum (λ k, private_slot_bytes k.2) (pr_slots p)
  | None => 0
  end.

Definition stored_property_bytes (k : PKey) (v : Value) : N :=
  SZ_Property + SZ_PropertyName + pkey_byte_len k * 2 + payload_bytes v.
Definition stored_attribute_bytes (k : PKey) (d : PropertyDescriptor) : N :=
  SZ_Attribute + pkey_byte_len k
  + sumN (payload_bytes <$> (option_list (pd_get d) ++ option_list (pd_set d))).

Definition owned_bytes (o : Object) : N :=
  owned_kind_bytes (o_kind o) + private_bytes (o_private o)
  + isum stored_property_bytes (o_properties o) + isum stored_attribute_bytes (o_attributes o).

(** The data of a kind is well formed: a weak table is keyed by the identity of its keys, which
    name objects that are there; a collection is one of [JsCollectionProps]. *)
Definition kind_ok (h : Heap) (k : ObjectKind) : Prop :=
  match k with
  | WeakCollection _ entries =>
      ∀ i key v, entries !! i = Some (key, v) →
        i = wkey key ∧ (∀ s, key = WKSymbol s → wf_symbol s)
        ∧ ∀ id, weak_key_object key = Some id → present h id
  | KMap entries | KSet entries =>
      wf_collection entries ∧ ∀ e, e ∈ live_entries entries → wf_value e.1
  | _ => True
  end.

Definition heap_bytes (h : Heap) : N :=
  (msum o_bytes (h_objects h) + N.of_nat (size (h_closure_metadata h)) * CLOSURE_METADATA_BYTES)%N.

Definition young (h : Heap) (id : ObjectId) : Prop :=
  ∃ o, h_objects h !! id = Some o ∧ o_young o = true.

Definition proto_edge (h : Heap) (a b : ObjectId) : Prop :=
  ∃ o, h_objects h !! a = Some o ∧ o_prototype o = Some b.

(** No prototype chain contains a cycle. *)
Definition acyclic (h : Heap) : Prop := ∀ a, ¬ tc (proto_edge h) a a.

Lemma acyclic_mono h h' : (∀ a b, proto_edge h' a b → proto_edge h a b) → acyclic h → acyclic h'.
Proof.
  intros Hsub Hac a Ha. apply (Hac a). revert Ha. generalize a at 2 4. intros z Ha.
  induction Ha as [a b Hab|a b c Hab _ IH].
  - by apply tc_once, Hsub.
  - eapply tc_l; [by apply Hsub|done].
Qed.

Record heap_ok (h : Heap) : Prop := {
  ok_closed : closed h;
  ok_acyclic : acyclic h;
  ok_roots r id : h_roots h !! r = Some id → present h id;
  ok_remembered id : id ∈ h_remembered h → present h id;
  ok_metadata id m : h_closure_metadata h !! id = Some m → present h id;
  ok_nursery : NoDup (h_nursery h);
  ok_young id : id ∈ h_nursery h ↔ young h id;
  ok_barrier a b : old h a → b ∈ succs h a → young h b → a ∈ h_remembered h;
  ok_ids id : present h id → oid_heap id = h_identity h ∧ (oid_serial id < h_next_object h)%N;
  ok_root_ids r id : h_roots h !! r = Some id → rid_heap r = h_identity h ∧ (rid_serial r < h_next_root h)%N;
  ok_charge : h_managed_bytes h = heap_bytes h;
  ok_owned id o : h_objects h !! id = Some o → (owned_bytes o <= o_bytes o)%N;
  ok_kinds id o : h_objects h !! id = Some o → kind_ok h (o_kind o);
  ok_budget : (h_managed_bytes h <= max_heap_bytes (h_config h))%N;
  ok_trigger : (h_next_major_bytes h <= max_heap_bytes (h_config h))%N;
  ok_usize : (max_heap_bytes (h_config h) <= USIZE_MAX)%N;
}.

Lemma heap_ok_collectable h protected :
  heap_ok h → (∀ id, id ∈ protected → present h id) → collectable h protected.
Proof. intros K Hp. split; [apply K|apply K|done|apply K]. Qed.

Lemma old_or_young h id : present h id → old h id ∨ young h id.
Proof. intros [o E]. destruct (o_young o) eqn:Ey; [right|left]; by exists o. Qed.

Lemma not_old_young h id : old h id → young h id → False.
Proof. intros (o & E & Ey) (o' & E' & Ey'). congruence. Qed.

Lemma traced_false h id : traced h false id ↔ present h id.
Proof. unfold traced, present. split; [intros (o & E & _); by exists o|intros [o E]; by exists o]. Qed.

Lemma traced_true h id : traced h true id ↔ young h id.
Proof. unfold traced, young. naive_solver. Qed.

(** ** The strong reachability of the whole heap *)
Definition strong (h : Heap) (protected : list ObjectId) : ObjectId → Prop :=
  reach h false (λ id, id ∈ mark_roots h protected).

Lemma gc_roots_false h protected id : gc_roots h false protected id ↔ id ∈ mark_roots h protected.
Proof. unfold gc_roots. naive_solver. Qed.

(** A minor collection misses no reachable young object: the remembered set stands for the old
    generation. *)
Lemma strong_minor h protected id :
  heap_ok h → strong h protected id → old h id ∨ reach h true (gc_roots h true protected) id.
Proof.
  intros K. revert id. apply reach_least. split.
  - intros id Hr [?|Hy]%traced_false%old_or_young; [by left|right].
    apply reach_root; [by left|by apply traced_true].
  - intros a b Ha Hb [?|Hy]%traced_false%old_or_young; [by left|right].
    destruct Ha as [Ho|Ha]; [|apply (reach_edge _ _ _ a); [done|done|by apply traced_true]].
    apply reach_root; [|by apply traced_true]. right. split; [done|]. exists a. split; [|done].
    by apply (ok_barrier _ K a b).
  - intros t k id He Ht Hk [?|Hy]%traced_false%old_or_young; [by left|right].
    apply (reach_ephemeron _ _ _ t k); [done| | |by apply traced_true].
    + destruct Ht as [[? ?]|[?|?]]; [done|by left|by right].
    + intros kid Hkid. destruct (Hk kid Hkid) as [[? ?]|[?|?]]; [done|by left|by right].
Qed.

(** ** Sweeping weak slots *)
Lemma clear_target_bytes dead t : option_key_bytes (clear_target dead t) = option_key_bytes t.
Proof. destruct t as [[id|sym]|]; cbn; [by destruct (dead id)|done..]. Qed.

Lemma owned_sweep_kind dead o :
  (owned_kind_bytes (sweep_kind dead (o_kind o)) + weak_released dead o = owned_kind_bytes (o_kind o))%N.
Proof.
  unfold weak_released. destruct (o_kind o); cbn; try lia.
  - rewrite (msum_filter_split _ entries (λ e : WKey * (WeakCollectionKey * Value), weak_dead dead e.2.1 = true)).
    rewrite N.add_comm. f_equal. unfold msum. do 3 f_equal. apply map_filter_ext.
    intros. by rewrite not_true_iff_false.
  - rewrite N.add_0_r. induction cells as [|c cells IH]; [done|]. cbn. rewrite IH. f_equal.
    unfold finalization_cell_bytes. cbn. by rewrite clear_target_bytes.
Qed.

Lemma sweep_object_bytes dead o :
  (owned_bytes o <= o_bytes o)%N →
  (o_bytes (sweep_object dead o) + weak_released dead o = o_bytes o
   ∧ owned_bytes (sweep_object dead o) <= o_bytes (sweep_object dead o))%N.
Proof. intros Ho. pose proof (owned_sweep_kind dead o). unfold owned_bytes in *. cbn. lia. Qed.

Lemma sweep_references dead o : references (sweep_object dead o) = references o.
Proof.
  unfold references. cbn. do 4 f_equal. destruct (o_kind o); try done. cbn. f_equal.
  by rewrite <-list_fmap_compose.
Qed.

Lemma sweep_young dead o : o_young (sweep_object dead o) = o_young o.
Proof. done. Qed.

Lemma sweep_weak_spec dead h :
  (∀ id o, h_objects h !! id = Some o → (owned_bytes o <= o_bytes o)%N) →
  h_managed_bytes h = heap_bytes h →
  ∃ managed, sweep_weak dead h
    = Ok (h_set_managed_bytes managed (h_set_objects (sweep_object dead <$> h_objects h) h))
    ∧ (managed = msum o_bytes (sweep_object dead <$> h_objects h)
         + N.of_nat (size (h_closure_metadata h)) * CLOSURE_METADATA_BYTES)%N.
Proof.
  intros Ho Hc. unfold sweep_weak.
  assert (msum o_bytes (h_objects h)
    = msum o_bytes (sweep_object dead <$> h_objects h) + msum (weak_released dead) (h_objects h))%N as E.
  { rewrite msum_fmap, <-msum_add. apply msum_ext. intros id o Eo. cbn.
    destruct (sweep_object_bytes dead o (Ho id o Eo)) as [Hb _]. cbn in Hb |- *. lia. }
  rewrite (proj2 (forallb_forall _ _)).
  2: { intros [id o] Hin%list_elem_of_In%elem_of_map_to_list. cbn.
       apply N.leb_le. pose proof (Ho id o Hin). pose proof (owned_sweep_kind dead o). unfold owned_bytes in *. lia. }
  change (sumN _) with (msum (weak_released dead) (h_objects h)).
  rewrite checked_sub_N_Ok by (unfold heap_bytes in Hc; lia). cbn.
  eexists. split; [done|]. unfold heap_bytes in Hc. lia.
Qed.

(** ** Collections

    [h'] is [h] after a collection that kept [keep]: survivors keep their contents, lose weak
    entries and targets that died, and are old. *)
Record swept (h h' : Heap) (keep : ObjectId → Prop) (dead : ObjectId → bool) : Prop := {
  sw_objects id o' :
    h_objects h' !! id = Some o' ↔
    ∃ o, h_objects h !! id = Some o ∧ keep id ∧ o' = o_set_young false (sweep_object dead o);
  sw_metadata id m :
    h_closure_metadata h' !! id = Some m ↔ h_closure_metadata h !! id = Some m ∧ keep id;
  sw_dead id : present h id → dead id = false ↔ keep id;
  sw_nursery : h_nursery h' = [];
  sw_remembered : h_remembered h' = ∅;
  sw_same : h_identity h' = h_identity h ∧ h_next_object h' = h_next_object h
    ∧ h_next_root h' = h_next_root h ∧ h_config h' = h_config h ∧ h_roots h' = h_roots h
    ∧ h_scoped_roots h' = h_scoped_roots h ∧ h_structure_epoch h' = h_structure_epoch h;
  sw_managed : (h_managed_bytes h' <= h_managed_bytes h)%N;
}.

Lemma swept_present h h' keep dead id : swept h h' keep dead → present h' id ↔ present h id ∧ keep id.
Proof.
  intros W. split.
  - intros [o' (o & ? & ? & _)%(sw_objects _ _ _ _ W)]. split; [by exists o|done].
  - intros [[o Eo] Hk]. eexists. apply (sw_objects _ _ _ _ W). eauto.
Qed.

Lemma swept_succs h h' keep dead a b : swept h h' keep dead → b ∈ succs h' a → keep a ∧ b ∈ succs h a.
Proof.
  intros W. unfold succs. destruct (h_objects h' !! a) as [o'|] eqn:E'; [|by intros ?%elem_of_nil].
  apply (sw_objects _ _ _ _ W) in E' as (o & E & Hk & ->). rewrite E.
  unfold edges. change (references (o_set_young false (sweep_object dead o))) with (references (sweep_object dead o)).
  rewrite sweep_references. rewrite !elem_of_app. unfold metadata_edges.
  destruct (h_closure_metadata h' !! a) as [m|] eqn:Em.
  - apply (sw_metadata _ _ _ _ W) in Em as [-> _]. done.
  - intros [?|?%elem_of_nil]; auto. done.
Qed.

(** Collections preserve the invariant. *)
Lemma swept_ok h h' keep dead :
  heap_ok h → swept h h' keep dead →
  (∀ a b, keep a → b ∈ succs h a → keep b) →
  (∀ r id, h_roots h !! r = Some id → keep id) →
  h_managed_bytes h' = heap_bytes h' → (h_next_major_bytes h' <= max_heap_bytes (h_config h))%N →
  heap_ok h'.
Proof.
  intros K W Hcl Hroots Hc Hn. destruct (sw_same _ _ _ _ W) as (E1 & E2 & E3 & E4 & E5 & E6 & E7).
  pose proof (swept_present h h' keep dead) as Hpr.
  assert (∀ id, young h' id → False) as Hy.
  { intros id (o' & Eo & Ey). apply (sw_objects _ _ _ _ W) in Eo as (o & _ & _ & ->). done. }
  split.
  - intros a b [Hka Hb]%(swept_succs _ _ _ _ _ _ W). apply Hpr; [done|].
    split; [by apply (ok_closed _ K a)|by apply (Hcl a)].
  - apply (acyclic_mono h); [|apply K].
    intros a b (o' & (o & Eo & _ & ->)%(sw_objects _ _ _ _ W) & Ep). by exists o.
  - rewrite E5. intros r id Hr. apply Hpr; [done|]. split; [by apply (ok_roots _ K r)|by apply (Hroots r)].
  - intros id Hid. rewrite (sw_remembered _ _ _ _ W) in Hid. by apply not_elem_of_empty in Hid.
  - intros id m [Hm ?]%(sw_metadata _ _ _ _ W). apply Hpr; [done|]. split; [by apply (ok_metadata _ K id m)|done].
  - rewrite (sw_nursery _ _ _ _ W). constructor.
  - intros id. rewrite (sw_nursery _ _ _ _ W). split; [by intros ?%elem_of_nil|by intros ?%Hy].
  - by intros a b _ _ ?%Hy.
  - intros id [? _]%Hpr; [|done]. rewrite E1, E2. by apply (ok_ids _ K).
  - rewrite E5, E1, E3. apply (ok_root_ids _ K).
  - done.
  - intros id o' (o & Eo & _ & ->)%(sw_objects _ _ _ _ W).
    apply (sweep_object_bytes dead o), (ok_owned _ K id o Eo).
  - intros id o' (o & Eo & _ & ->)%(sw_objects _ _ _ _ W). cbn.
    pose proof (ok_kinds _ K id o Eo) as Hk. destruct (o_kind o); cbn in *; try done.
    intros i key v [Hi Hd]%map_lookup_filter_Some. cbn in Hd. destruct (Hk i key v Hi) as (-> & Hsym & Hp).
    split_and!; [done..|]. intros kid Hkid. apply Hpr; [done|]. split; [auto|].
    apply (sw_dead _ _ _ _ W); [auto|]. by destruct key; simplify_eq/=.
  - rewrite E4. etrans; [apply (sw_managed _ _ _ _ W)|apply K].
  - by rewrite E4.
  - rewrite E4. apply K.
Qed.

(** *** Major collections *)
Lemma strong_present h protected id : strong h protected id → present h id.
Proof. revert id. apply reach_least. by split; intros; apply traced_false. Qed.

Lemma strong_succs h protected a b : heap_ok h → strong h protected a → b ∈ succs h a → strong h protected b.
Proof.
  intros K Ha Hb. apply (reach_edge _ _ _ a); [done|done|]. apply traced_false. by apply (ok_closed _ K a).
Qed.

Lemma strong_root h protected id : present h id → id ∈ mark_roots h protected → strong h protected id.
Proof. intros. apply reach_root; [done|by apply traced_false]. Qed.

Lemma reach_ext h y (R R' : ObjectId → Prop) id : (∀ a, R a ↔ R' a) → reach h y R id ↔ reach h y R' id.
Proof.
  intros HR. split; revert id; apply reach_least; split;
    intros; first [apply reach_root; [by apply HR|done]|by eapply reach_edge|by eapply reach_ephemeron].
Qed.

Lemma explicit_root h protected r id : h_roots h !! r = Some id → id ∈ mark_roots h protected.
Proof.
  intros Hr. unfold mark_roots. rewrite !elem_of_app. left. apply list_elem_of_fmap.
  exists (r, id). split; [done|]. by apply elem_of_map_to_list.
Qed.

Lemma size_filter_split {K A} `{Countable K} (m : gmap K A) (P : K * A → Prop) `{∀ p, Decision (P p)} :
  size m = size (filter P m) + size (filter (λ p, ¬ P p) m).
Proof.
  pose proof (msum_filter_split (λ _, 1%N) m P) as E. rewrite !msum_const in E. lia.
Qed.

Lemma major_gc_spec h protected :
  heap_ok h → (∀ id, id ∈ protected → present h id) →
  ∃ h' dead, major_gc protected h = Ok h' ∧ heap_ok h' ∧ swept h h' (strong h protected) dead.
Proof.
  intros K Hp. unfold major_gc.
  destruct (mark_spec h false protected (heap_ok_collectable h protected K Hp)) as (marked & -> & Hm).
  assert (∀ id, id ∈ marked ↔ strong h protected id) as Hs.
  { intros id. rewrite Hm. apply reach_ext, gc_roots_false. }
  cbn. set (dead := λ id, bool_decide (id ∉ marked)).
  destruct (sweep_weak_spec dead h (ok_owned _ K) (ok_charge _ K)) as (managed & -> & Hman). cbn.
  set (objs := sweep_object dead <$> h_objects h) in *.
  set (meta := h_closure_metadata h) in *.
  pose proof (msum_filter_split o_bytes objs (λ p, p.1 ∈ marked)) as So.
  pose proof (size_filter_split meta (λ p, p.1 ∈ marked)) as Sm.
  change (sumN _) with (msum o_bytes (filter (λ p : ObjectId * Object, p.1 ∉ marked) objs)).
  rewrite checked_sub_N_Ok by lia. cbn. rewrite checked_sub_N_Ok by (rewrite Hman, So, Sm; lia). cbn.
  eexists _, dead. split; [done|].
  match goal with |- heap_ok ?x ∧ _ => set (h' := x) end.
  assert (swept h h' (strong h protected) dead) as W.
  { split; try done.
    - intros id o'. cbn. rewrite lookup_fmap_Some. setoid_rewrite map_lookup_filter_Some. cbn.
      unfold objs. setoid_rewrite lookup_fmap_Some. setoid_rewrite Hs. naive_solver.
    - intros id m. cbn. rewrite map_lookup_filter_Some. cbn. by rewrite Hs.
    - intros id _. unfold dead. rewrite bool_decide_eq_false, Hs. split; [|tauto].
      intros Hn. destruct (decide (id ∈ marked)) as [?%Hs|Hn']; [done|]. exfalso. apply Hn. by rewrite <-Hs.
    - cbn. pose proof (msum_fmap o_bytes (sweep_object dead) (h_objects h)).
      rewrite (ok_charge _ K). unfold heap_bytes. fold meta.
      assert (msum o_bytes objs <= msum o_bytes (h_objects h))%N; [|etrans; [apply N.le_sub_l|]; etrans; [apply N.le_sub_l|]; rewrite Hman; by apply N.add_le_mono_r].
      unfold objs. rewrite msum_fmap. apply msum_le. intros. cbn. lia. }
  split; [|done]. apply (swept_ok h h' (strong h protected) dead); try done.
  - intros a b. by apply strong_succs.
  - intros r id Hr. apply strong_root; [by apply (ok_roots _ K r)|by eapply explicit_root].
  - unfold heap_bytes. cbn. rewrite msum_fmap. change (o_bytes ∘ o_set_young false) with o_bytes.
    rewrite Hman, So, Sm. lia.
  - cbn. lia.
Qed.

(** *** Minor collections *)
Definition sweep_nursery (marked : gset ObjectId) (nursery : list ObjectId) (id : ObjectId) (o : Object) : option Object :=
  if bool_decide (id ∈ nursery) then
    if bool_decide (id ∈ marked) then Some (o_set_young false o) else None
  else Some o.

(** A dead nursery object is removed with its metadata and its charge. *)
Lemma minor_sweep_dead marked h id o :
  h_objects h !! id = Some o → id ∉ marked → h_managed_bytes h = heap_bytes h →
  ∃ h', minor_sweep_one marked id h = Ok h'
    ∧ h_objects h' = delete id (h_objects h) ∧ h_closure_metadata h' = delete id (h_closure_metadata h)
    ∧ h_managed_bytes h' = heap_bytes h' ∧ (h_managed_bytes h' <= h_managed_bytes h)%N
    ∧ h' = h_set_managed_bytes (h_managed_bytes h') (h_set_closure_metadata (h_closure_metadata h')
             (h_set_objects (h_objects h') h)).
Proof.
  intros E Hid Hc. unfold minor_sweep_one. rewrite E. cbn. rewrite bool_decide_false by done.
  pose proof (msum_delete o_bytes (h_objects h) id o E) as Hd. unfold heap_bytes in Hc.
  rewrite checked_sub_N_Ok by (rewrite Hc, Hd; lia). cbn.
  destruct (h_closure_metadata h !! id) as [m|] eqn:Em.
  - assert (size (h_closure_metadata h) = S (size (delete id (h_closure_metadata h)))) as Hsz.
    { pose proof (msum_delete (λ _, 1%N) _ id m Em) as Hs. rewrite !msum_const in Hs. lia. }
    rewrite checked_sub_N_Ok by (rewrite Hc, Hd, Hsz; lia). cbn. eexists. split; [done|].
    split_and!; try done; unfold heap_bytes; cbn; rewrite ?Hc, ?Hd, ?Hsz; lia.
  - eexists. split; [done|]. cbn. rewrite (delete_id _ _ Em).
    split_and!; try done; try (by destruct h); unfold heap_bytes; cbn; rewrite ?Hc, ?Hd; lia.
Qed.

Lemma elem_of_cons_ne (a id : ObjectId) l :
  a ≠ id → bool_decide (a ∈ id :: l) = bool_decide (a ∈ l).
Proof. intros Hne. apply bool_decide_ext. rewrite elem_of_cons. naive_solver. Qed.

Lemma minor_sweep_spec marked nursery h :
  NoDup nursery → (∀ id, id ∈ nursery → present h id) → h_managed_bytes h = heap_bytes h →
  ∃ h', minor_sweep marked nursery h = Ok h'
    ∧ (∀ id, h_objects h' !! id = h_objects h !! id ≫= sweep_nursery marked nursery id)
    ∧ (∀ id, h_closure_metadata h' !! id
         = if bool_decide (id ∈ nursery) && bool_decide (id ∉ marked) then None else h_closure_metadata h !! id)
    ∧ h_managed_bytes h' = heap_bytes h' ∧ (h_managed_bytes h' <= h_managed_bytes h)%N
    ∧ h' = h_set_managed_bytes (h_managed_bytes h') (h_set_closure_metadata (h_closure_metadata h')
             (h_set_objects (h_objects h') h)).
Proof.
  revert h. induction nursery as [|id nursery IH]; intros h Hnd Hp Hc; cbn.
  - exists h. split_and!; try done; [|by destruct h].
    intros id. unfold sweep_nursery. by destruct (h_objects h !! id).
  - apply NoDup_cons in Hnd as [Hid Hnd].
    destruct (Hp id) as [o E]; [constructor|].
    assert (∃ h1, minor_sweep_one marked id h = Ok h1
      ∧ (∀ a, h_objects h1 !! a = if decide (a = id) then sweep_nursery marked [id] id o else h_objects h !! a)
      ∧ (∀ a, h_closure_metadata h1 !! a
           = if decide (a = id ∧ id ∉ marked) then None else h_closure_metadata h !! a)
      ∧ h_managed_bytes h1 = heap_bytes h1 ∧ (h_managed_bytes h1 <= h_managed_bytes h)%N
      ∧ h1 = h_set_managed_bytes (h_managed_bytes h1) (h_set_closure_metadata (h_closure_metadata h1)
               (h_set_objects (h_objects h1) h))) as (h1 & -> & Ho1 & Hm1 & Hc1 & Hle1 & E1).
    { destruct (decide (id ∈ marked)) as [Hmk|Hmk].
      - unfold minor_sweep_one. rewrite E. cbn. rewrite bool_decide_true by done.
        eexists. split; [done|]. cbn. split_and!; try done.
        + intros a. unfold sweep_nursery. rewrite !bool_decide_true by (done || constructor).
          destruct (decide (a = id)) as [->|]; [by rewrite lookup_insert_eq|by rewrite lookup_insert_ne].
        + intros a. by rewrite decide_False by naive_solver.
        + rewrite Hc. unfold heap_bytes. cbn. f_equal.
          pose proof (msum_update o_bytes (h_objects h) id o (o_set_young false o) E). cbn in *. lia.
      - destruct (minor_sweep_dead marked h id o E Hmk Hc) as (h1 & E1 & Ho & Hm & ? & ? & ?).
        exists h1. split_and!; try done.
        + intros a. rewrite Ho. unfold sweep_nursery. rewrite bool_decide_true by constructor.
          rewrite bool_decide_false by done.
          destruct (decide (a = id)) as [->|]; [by rewrite lookup_delete_eq|by rewrite lookup_delete_ne].
        + intros a. rewrite Hm. destruct (decide (a = id)) as [->|].
          * rewrite lookup_delete_eq. by rewrite decide_True.
          * rewrite lookup_delete_ne by done. by rewrite decide_False by naive_solver. }
    cbn. destruct (IH h1) as (h2 & -> & Ho2 & Hm2 & Hc2 & Hle2 & E2); [done| |done|].
    { intros a Ha. destruct (Hp a) as [oa Ea]; [by constructor|]. exists oa. rewrite Ho1.
      by rewrite decide_False by (by intros ->). }
    exists h2. split; [done|]. split_and!.
    + intros a. rewrite Ho2, Ho1. destruct (decide (a = id)) as [->|Hne].
      * rewrite E. cbn. unfold sweep_nursery.
        rewrite (bool_decide_true (id ∈ [id])), (bool_decide_true (id ∈ id :: nursery)) by constructor.
        destruct (bool_decide (id ∈ marked)); [|done]. cbn. by rewrite bool_decide_false.
      * destruct (h_objects h !! a) as [oa|]; [|done]. cbn. unfold sweep_nursery.
        by rewrite elem_of_cons_ne.
    + intros a. rewrite Hm2, Hm1. destruct (decide (a = id)) as [->|Hne].
      * rewrite (bool_decide_false (id ∈ nursery)), (bool_decide_true (id ∈ id :: nursery)) by (done || constructor).
        cbn. destruct (decide (id ∈ marked)).
        -- rewrite decide_False by naive_solver. by rewrite bool_decide_false by naive_solver.
        -- rewrite decide_True by done. by rewrite bool_decide_true.
      * rewrite decide_False by naive_solver.
        by rewrite elem_of_cons_ne.
    + done.
    + lia.
    + rewrite E2 at 1. clear -E1. destruct h, h1. cbn in E1 |- *.
      unfold h_set_managed_bytes, h_set_closure_metadata, h_set_objects in *. cbn in *.
      injection E1; intros. by f_equal.
Qed.

(** The survivors of a minor collection. *)
Definition minor_keep (h : Heap) (protected : list ObjectId) (id : ObjectId) : Prop :=
  old h id ∨ reach h true (gc_roots h true protected) id.

Lemma minor_keep_succs h protected a b :
  heap_ok h → minor_keep h protected a → b ∈ succs h a → minor_keep h protected b.
Proof.
  intros K Ha Hb. destruct (old_or_young h b (ok_closed _ K a b Hb)) as [?|Hy]; [by left|right].
  destruct Ha as [Ho|Ha]; [|apply (reach_edge _ _ _ a); [done|done|by apply traced_true]].
  apply reach_root; [|by apply traced_true]. right. split; [done|]. exists a. split; [|done].
  by apply (ok_barrier _ K a b).
Qed.

Lemma minor_keep_root h protected id : present h id → id ∈ mark_roots h protected → minor_keep h protected id.
Proof.
  intros [?|Hy]%old_or_young Hr; [by left|right]. apply reach_root; [by left|by apply traced_true].
Qed.

Lemma minor_gc_spec h protected :
  heap_ok h → (∀ id, id ∈ protected → present h id) →
  ∃ h' dead, minor_gc protected h = Ok h' ∧ heap_ok h' ∧ swept h h' (minor_keep h protected) dead.
Proof.
  intros K Hp. unfold minor_gc.
  destruct (mark_spec h true protected (heap_ok_collectable h protected K Hp)) as (marked & -> & Hm).
  cbn. set (dead := minor_dead h marked).
  destruct (sweep_weak_spec dead h (ok_owned _ K) (ok_charge _ K)) as (managed & -> & Hman). cbn.
  set (objs := sweep_object dead <$> h_objects h) in *.
  assert (managed <= h_managed_bytes h)%N as Hle.
  { rewrite Hman, (ok_charge _ K). apply N.add_le_mono_r. unfold objs. rewrite msum_fmap.
    apply msum_le. intros. cbn. lia. }
  match goal with |- context [minor_sweep _ _ ?x] => set (h1 := x) end.
  destruct (minor_sweep_spec marked (h_nursery h) h1) as (h2 & -> & Ho & Hmd & Hc & Hle2 & E2).
  { apply (ok_nursery _ K). }
  { intros id Hid. apply (ok_young _ K) in Hid as (o & Eo & _). exists (sweep_object dead o).
    cbn. unfold objs. by rewrite lookup_fmap, Eo. }
  { cbn. unfold heap_bytes. cbn. exact Hman. }
  cbn. eexists _, dead. split; [done|].
  match goal with |- heap_ok ?x ∧ _ => set (h' := x) end.
  assert (∀ id o, h_objects h !! id = Some o → (id ∈ h_nursery h ↔ o_young o = true)) as Hny.
  { intros id o Eo. rewrite (ok_young _ K). unfold young. naive_solver. }
  assert (∀ id o, h_objects h !! id = Some o →
    minor_keep h protected id ↔ (id ∈ h_nursery h → id ∈ marked)) as Hkeep.
  { intros id o Eo. unfold minor_keep, old. rewrite <-Hm, (Hny id o Eo). split.
    - intros [(o' & ? & ?)|?]; [simplify_eq; congruence|done].
    - intros Hi. destruct (o_young o) eqn:Ey; [right; auto|left; eauto]. }
  assert (swept h h' (minor_keep h protected) dead) as W.
  { assert (h_objects h' = h_objects h2 ∧ h_closure_metadata h' = h_closure_metadata h2) as [Eo' Em'] by done.
    assert (∀ id, h_objects h1 !! id = sweep_object dead <$> h_objects h !! id) as E1 by (intros; apply lookup_fmap).
    split.
    - intros id o'. rewrite Eo', Ho, E1. destruct (h_objects h !! id) as [o|] eqn:Eo; [|naive_solver].
      cbn. unfold sweep_nursery. specialize (Hkeep id o Eo). specialize (Hny id o Eo).
      case_bool_decide as Hn; [case_bool_decide as Hk|].
      + naive_solver.
      + naive_solver.
      + assert (o_young o = false) as Ey by (destruct (o_young o); naive_solver).
        assert (o_set_young false (sweep_object dead o) = sweep_object dead o) as Heq.
        { unfold o_set_young. cbn. rewrite <-Ey. by destruct o. }
        split.
        * intros [= <-]. exists o. split_and!; [done|naive_solver|done].
        * intros (o0 & [= <-] & _ & ->). by rewrite Heq.
    - intros id m. rewrite Em', Hmd. change (h_closure_metadata h1) with (h_closure_metadata h).
      destruct (h_closure_metadata h !! id) as [m'|] eqn:Em.
      2: { destruct (_ && _); naive_solver. }
      destruct (ok_metadata _ K id m' Em) as [o Eo]. rewrite (Hkeep id o Eo).
      destruct (bool_decide _ && _) eqn:Eb.
      + apply andb_true_iff in Eb as [Hn%bool_decide_eq_true Hk%bool_decide_eq_true].
        split; [done|intros [_ Hk']; by apply Hk' in Hn].
      + rewrite andb_false_iff, !bool_decide_eq_false in Eb. split; [|by intros [? _]].
        intros E. split; [done|]. intros Hn. destruct Eb as [?|Hk]; [done|].
        by destruct (decide (id ∈ marked)).
    - intros id [o Eo]. rewrite (Hkeep id o Eo). unfold dead, minor_dead.
      rewrite andb_false_iff, !bool_decide_eq_false. destruct (decide (id ∈ marked)); naive_solver.
    - cbn. rewrite E2. done.
    - done.
    - cbn. rewrite E2. done.
    - cbn. etrans; [exact Hle2|done]. }
  split; [|done]. apply (swept_ok h h' (minor_keep h protected) dead); try done.
  - intros a b. by apply minor_keep_succs.
  - intros r id Hr. apply minor_keep_root; [by apply (ok_roots _ K r)|by eapply explicit_root].
  - cbn. rewrite E2. cbn. apply (ok_trigger _ K).
Qed.

End gc.
