(* ===== verification/JsCore.v ===== *)
(** * Objects with internal slots (bluejs/src/heap/core.rs, heap/collection_iteration.rs)

    Maps, sets and their iterators, weak collections, weak references, finalization registries,
    private class elements and dates.  Every operation that can grow the heap asks for room
    first, with its operands protected, then writes, charges the difference and runs the write
    barrier; the definitions keep that order. *)

From S2P Require Import Prelude Float JsValue JsObject JsCollection JsHeap.

Section core.
Context {H : JsHost}.

(** [if let Some(reference) = value.object_id() { self.object(reference)?; }] *)
Definition check_ref (r : option ObjectId) : hm unit :=
  match r with Some id => _ ← hread (λ h, object h id); mret () | None => mret () end.

Fixpoint check_refs (l : list ObjectId) : hm unit :=
  match l with [] => mret () | id :: l => check_ref (Some id);; check_refs l end.

Definition barrier (owner : ObjectId) (target : option ObjectId) : hm unit := hupd (write_barrier owner target).

Fixpoint barriers (owner : ObjectId) (targets : list ObjectId) : hm unit :=
  match targets with
  | [] => mret ()
  | t :: targets => barrier owner (Some t);; barriers owner targets
  end.

(** The kind of an object that must be there. *)
Definition kind_of (h : Heap) (id : ObjectId) : hresult ObjectKind := o_kind <$> object h id.

(** ** Allocation *)
Definition alloc_object (proto : option ObjectId) : hm ObjectId := alloc Ordinary proto.
Definition alloc_raw_json : hm ObjectId := alloc RawJson None.
Definition alloc_weak_collection (is_map : bool) (proto : option ObjectId) : hm ObjectId :=
  alloc (WeakCollection is_map ∅) proto.
Definition alloc_map (proto : option ObjectId) : hm ObjectId := alloc (KMap empty_collection) proto.
Definition alloc_set (proto : option ObjectId) : hm ObjectId := alloc (KSet empty_collection) proto.
Definition alloc_finalization_registry (callback : Value) (proto : option ObjectId) : hm ObjectId :=
  alloc (FinalizationRegistry callback []) proto.
Definition alloc_array (length : N) (proto : option ObjectId) : hm ObjectId := alloc (KArray length) proto.
Definition alloc_date (time : f64) (proto : option ObjectId) : hm ObjectId := alloc (KDate time) proto.
Definition alloc_error (proto : option ObjectId) : hm ObjectId := alloc KError proto.
Definition alloc_temporal (value : TemporalValue) (proto : option ObjectId) : hm ObjectId :=
  alloc (KTemporal value) proto.

Definition alloc_weak_ref (target : Value) (proto : option ObjectId) : hm ObjectId :=
  target ← hread (λ _, ok_or (weak_key_from_value target) InvalidWeakTarget);
  check_ref (weak_key_object target);;
  alloc (WeakRef (Some target)) proto.

(** ** Brands *)
Definition is_raw_json (h : Heap) (id : ObjectId) : hresult bool :=
  (λ k, match k with RawJson => true | _ => false end) <$> kind_of h id.
Definition is_map (h : Heap) (id : ObjectId) : hresult bool :=
  (λ k, match k with KMap _ => true | _ => false end) <$> kind_of h id.
Definition is_set (h : Heap) (id : ObjectId) : hresult bool :=
  (λ k, match k with KSet _ => true | _ => false end) <$> kind_of h id.
Definition is_finalization_registry (h : Heap) (id : ObjectId) : hresult bool :=
  (λ k, match k with FinalizationRegistry _ _ => true | _ => false end) <$> kind_of h id.
Definition is_weak_collection (h : Heap) (id : ObjectId) (map : bool) : hresult bool :=
  (λ k, match k with WeakCollection actual _ => Bool.eqb actual map | _ => false end) <$> kind_of h id.
Definition is_error (h : Heap) (id : ObjectId) : hresult bool :=
  (λ k, match k with KError => true | _ => false end) <$> kind_of h id.
Definition is_date (h : Heap) (id : ObjectId) : hresult bool :=
  (λ k, match k with KDate _ => true | _ => false end) <$> kind_of h id.
Definition is_html_dda (h : Heap) (id : ObjectId) : hresult bool := o_is_html_dda <$> object h id.

(** ** Map *)
Definition map_entries (h : Heap) (id : ObjectId) : hresult OrderedCollection :=
  k ← kind_of h id;
  match k with KMap entries => HOk entries | _ => HErr (InvalidInternalSlot id) end.

Definition map_size (h : Heap) (id : ObjectId) : hresult nat := oc_len <$> map_entries h id.

Definition map_get (id : ObjectId) (key : Value) : hm (option Value) :=
  entries ← hread (λ h, map_entries h id); hres (oc_get entries key).
Definition map_has (id : ObjectId) (key : Value) : hm bool :=
  entries ← hread (λ h, map_entries h id); hres (oc_has entries key).

Definition old_entry_bytes (entries : OrderedCollection) (key : Value) : hm N :=
  v ← hres (oc_get entries key);
  mret (match v with Some v => map_entry_bytes key v | None => 0%N end).

(** [ordered_collection_mut(object, map)] with the write and its charge. *)
Definition write_entries (is_map : bool) (old new : N)
    (f : OrderedCollection → res OrderedCollection) (o : Object) : res Object :=
  match o_kind o, is_map with
  | KMap entries, true => entries ← f entries; recharge_object old new (o_set_kind (KMap entries) o)
  | KSet entries, false => entries ← f entries; recharge_object old new (o_set_kind (KSet entries) o)
  | _, _ => Panic
  end.

Definition map_set (id : ObjectId) (key value : Value) : hm unit :=
  let key := normalize_collection_key key in
  check_ref (object_id key);;
  check_ref (object_id value);;
  entries ← hread (λ h, map_entries h id);
  old ← old_entry_bytes entries key;
  let new := map_entry_bytes key value in
  ensure_room (saturating_sub new old) (id :: option_list (object_id key) ++ option_list (object_id value));;
  update_object id (write_entries true old new (λ c, fst <$> oc_set c key value));;
  recharge old new;;
  barrier id (object_id key);;
  barrier id (object_id value).

(** [map_delete] and [set_delete]: [is_map] tells which. *)
Definition collection_delete (is_map : bool) (id : ObjectId) (key : Value) : hm bool :=
  o ← hread (λ h, object h id);
  entries ← hread (λ _, match o_kind o, is_map with
                        | KMap entries, true | KSet entries, false => HOk entries
                        | _, _ => HErr (InvalidInternalSlot id)
                        end);
  r ← hres (oc_delete entries key);
  match r.2 with
  | None => mret false
  | Some (stored_key, stored_value) =>
      let bytes := map_entry_bytes stored_key stored_value in
      update_object id (write_entries is_map bytes 0 (λ _, Ok r.1));;
      recharge bytes 0;;
      mret true
  end.
Definition map_delete : ObjectId → Value → hm bool := collection_delete true.

(** ** Set *)
Definition set_entries (h : Heap) (id : ObjectId) : hresult OrderedCollection :=
  k ← kind_of h id;
  match k with KSet entries => HOk entries | _ => HErr (InvalidInternalSlot id) end.

Definition set_size (h : Heap) (id : ObjectId) : hresult nat := oc_len <$> set_entries h id.
Definition set_has (id : ObjectId) (key : Value) : hm bool :=
  entries ← hread (λ h, set_entries h id); hres (oc_has entries key).

Definition set_add (id : ObjectId) (key : Value) : hm unit :=
  let key := normalize_collection_key key in
  check_ref (object_id key);;
  entries ← hread (λ h, set_entries h id);
  exists_ ← hres (oc_has entries key);
  let bytes := map_entry_bytes key VUndefined in
  (if exists_ : bool then mret () else ensure_room bytes (id :: option_list (object_id key)));;
  entries ← hexpect (hread (λ h, set_entries h id));
  r ← hres (oc_set entries key VUndefined);
  let grown := match r.2 with None => bytes | Some _ => 0%N end in
  update_object id (write_entries false 0 grown (λ _, Ok r.1));;
  recharge 0 grown;;
  barrier id (object_id key).

Definition set_delete : ObjectId → Value → hm bool := collection_delete false.

(** ** Iteration (collection_iteration.rs) *)
Inductive CollectionEntry :=
  | Present (key value : Value)
  | Deleted
  | End_.

Definition collection_entries (h : Heap) (id : ObjectId) : hresult OrderedCollection :=
  k ← kind_of h id;
  match k with KMap entries | KSet entries => HOk entries | _ => HErr (InvalidInternalSlot id) end.

Definition alloc_collection_iterator (collection : ObjectId) (map : bool) (kind : ArrayIteratorKind)
    (proto : ObjectId) : hm ObjectId :=
  alloc (CollectionIterator (Some collection) 0 kind map) (Some proto).

Definition entry_at (entries : OrderedCollection) (index : nat) : CollectionEntry :=
  match oc_entries entries !! index with
  | None => End_
  | Some None => Deleted
  | Some (Some (key, value)) => Present key value
  end.

Definition collection_entry_at (h : Heap) (collection : ObjectId) (index : N) : hresult CollectionEntry :=
  entries ← collection_entries h collection;
  HOk (entry_at entries (N.to_nat index)).

(** The loop of [collection_iterator_next]: past tombstones, to an entry or the end. *)
Fixpoint next_entry (fuel : nat) (entries : OrderedCollection) (index : nat)
    : res (nat * option (Value * Value)) :=
  match fuel with
  | O => OutOfFuel
  | S fuel =>
      match entry_at entries index with
      | Present key value => Ok (S index, Some (key, value))
      | Deleted => next_entry fuel entries (S index)
      | End_ => Ok (index, None)
      end
  end.

Definition set_collection_iterator_progress (id : ObjectId) (index : N) (finished : bool) : hm unit :=
  k ← hread (λ h, kind_of h id);
  match k with
  | CollectionIterator collection _ kind map =>
      update_object id (λ o, Ok (o_set_kind
        (CollectionIterator (if finished then None else collection) index kind map) o))
  | _ => hfail (InvalidInternalSlot id)
  end.

Definition collection_iterator_next (id : ObjectId) (map : bool)
    : hm (option (option (Value * Value * ArrayIteratorKind))) :=
  k ← hread (λ h, kind_of h id);
  match k with
  | CollectionIterator collection index kind iterator_map =>
      if Bool.eqb iterator_map map then
        match collection with
        | None => mret (Some None)
        | Some collection =>
            entries ← hread (λ h, collection_entries h collection);
            step ← hres (next_entry (S (length (oc_entries entries))) entries (N.to_nat index));
            hexpect (set_collection_iterator_progress id (N.of_nat step.1) (bool_decide (step.2 = None)));;
            mret (Some ((λ e, (e, kind)) <$> step.2))
        end
      else mret None
  | _ => mret None
  end.

Definition collection_clear (id : ObjectId) : hm unit :=
  o ← hread (λ h, object h id);
  match o_kind o with
  | KMap entries =>
      let released := oc_bytes entries in
      update_object id (write_entries true released 0 (λ c, Ok (oc_clear c)));; recharge released 0
  | KSet entries =>
      let released := oc_bytes entries in
      update_object id (write_entries false released 0 (λ c, Ok (oc_clear c)));; recharge released 0
  | _ => hfail (InvalidInternalSlot id)
  end.

End core.
