(* ===== verification/JsSlots.v ===== *)
(** * Internal slots (heap/core.rs, heap/exotic.rs, heap/capabilities.rs)

    Private class elements, module namespaces, proxies, closures and their metadata, generators
    and their request queues, iterator helpers, regular expressions and the locale objects; weak
    references, weak collections and finalization registries (a weak table's entries are
    ephemerons; a registry holds its callback and holdings strongly, its targets and tokens
    weakly); dates, array and string iterators, which add no references. *)

From S2P Require Import Prelude Float JsValue JsObject JsCollection JsHeap JsCore.

Section slots.
Context {H : JsHost}.

(** ** Private class elements *)
Definition private_of (o : Object) : PrivateData := default default_private (o_private o).

Definition ensure_private_data (id : ObjectId) (protected : list ObjectId) : hm unit :=
  o ← hread (λ h, object h id);
  match o_private o with
  | Some _ => mret ()
  | None =>
      ensure_room PRIVATE_DATA_BYTES (id :: protected);;
      update_object id (λ o, recharge_object 0 PRIVATE_DATA_BYTES (o_set_private (Some default_private) o));;
      recharge 0 PRIVATE_DATA_BYTES
  end.

(** A write to private data that must be installed. *)
Definition write_private (old new : N) (f : PrivateData → PrivateData) (o : Object) : res Object :=
  p ← unwrap (o_private o); recharge_object old new (o_set_private (Some (f p)) o).

Definition define_private_element (owner : ObjectId) (name : JsString) (element : PrivateElement) : hm unit :=
  _ ← hread (λ h, object h owner);
  let refs := private_element_references element in
  check_refs refs;;
  ensure_private_data owner refs;;
  o ← hexpect (hread (λ h, object h owner));
  p ← hres (unwrap (o_private o));
  let old := match pr_elements p !! name with Some e => private_element_bytes name e | None => 0%N end in
  let new := private_element_bytes name element in
  ensure_room (saturating_sub new old) (owner :: refs);;
  update_object owner (write_private old new
    (λ p, mkPrivateData (<[name := element]> (pr_elements p)) (pr_brands p) (pr_slots p)));;
  recharge old new;;
  barriers owner refs.

Definition define_private_field (owner : ObjectId) (name : JsString) : hm unit :=
  define_private_element owner name PField.
Definition define_private_method (owner : ObjectId) (name : JsString) (function : Value) : hm unit :=
  define_private_element owner name (PMethod function).

Definition private_element (h : Heap) (owner : ObjectId) (name : JsString) : hresult (option PrivateElement) :=
  (λ o, p ← o_private o; pr_elements p !! name) <$> object h owner.

(** A getter and a setter of one name merge into one accessor. *)
Definition merge_accessor (existing : option PrivateElement) (function : Value) (setter : bool) : hresult PrivateElement :=
  match existing with
  | None => HOk (if setter then PAccessor None (Some function) else PAccessor (Some function) None)
  | Some (PAccessor get set) =>
      HOk (if setter then PAccessor get (Some function) else PAccessor (Some function) set)
  | Some _ => HErr ReadOnlyProperty
  end.

Definition define_private_accessor (owner : ObjectId) (name : JsString) (function : Value) (setter : bool) : hm unit :=
  existing ← hread (λ h, private_element h owner name);
  element ← hread (λ _, merge_accessor existing function setter);
  define_private_element owner name element.

Definition has_private_brand (h : Heap) (receiver owner : ObjectId) : hresult bool :=
  (λ o, match o_private o with Some p => bool_decide (owner ∈ pr_brands p) | None => false end)
  <$> object h receiver.

Definition add_private_brand (receiver owner : ObjectId) : hm unit :=
  _ ← hread (λ h, object h receiver);
  _ ← hread (λ h, object h owner);
  present ← hread (λ h, has_private_brand h receiver owner);
  if present : bool then mret ()
  else
    ensure_private_data receiver [owner];;
    ensure_room SZ_ObjectId [receiver; owner];;
    update_object receiver (write_private 0 SZ_ObjectId
      (λ p, mkPrivateData (pr_elements p) ({[owner]} ∪ pr_brands p) (pr_slots p)));;
    recharge 0 SZ_ObjectId;;
    barrier receiver (Some owner).

Definition private_slot (h : Heap) (receiver owner : ObjectId) (name : JsString) : hresult (option Value) :=
  (λ o, p ← o_private o; pr_slots p !! (owner, name)) <$> object h receiver.

Definition set_private_slot (receiver owner : ObjectId) (name : JsString) (value : Value) : hm unit :=
  _ ← hread (λ h, object h receiver);
  _ ← hread (λ h, object h owner);
  check_ref (object_id value);;
  ensure_private_data receiver (owner :: option_list (object_id value));;
  o ← hexpect (hread (λ h, object h receiver));
  p ← hres (unwrap (o_private o));
  let old := match pr_slots p !! (owner, name) with Some v => private_slot_bytes name v | None => 0%N end in
  let new := private_slot_bytes name value in
  ensure_room (saturating_sub new old) (receiver :: owner :: option_list (object_id value));;
  update_object receiver (write_private old new
    (λ p, mkPrivateData (pr_elements p) (pr_brands p) (<[(owner, name) := value]> (pr_slots p))));;
  recharge old new;;
  barrier receiver (Some owner);;
  barrier receiver (object_id value).

(** ** Module namespaces *)

(** [sort_by] on the code units of the names: a stable insertion sort. *)
Fixpoint units_leb (a b : JsString) : bool :=
  match a, b with
  | [], _ => true
  | _ :: _, [] => false
  | x :: a, y :: b => if (x =? y)%N then units_leb a b else (x <? y)%N
  end.

Fixpoint insert_export (e : JsString * ObjectId) (l : list (JsString * ObjectId)) : list (JsString * ObjectId) :=
  match l with
  | [] => [e]
  | f :: l => if units_leb e.1 f.1 then e :: f :: l else f :: insert_export e l
  end.

Definition sort_exports (l : list (JsString * ObjectId)) : list (JsString * ObjectId) :=
  foldr insert_export [] l.

Definition export_bytes (e : JsString * ObjectId) : N := (byte_len e.1 + SZ_Export)%N.

(** The exports of a placeholder namespace.  The heap is charged for them, the object is not. *)
Definition initialize_module_namespace (namespace : ObjectId) (exports : list (JsString * ObjectId)) : hm unit :=
  check_refs (snd <$> exports);;
  let exports := sort_exports exports in
  let additional := sumN (export_bytes <$> exports) in
  ensure_room additional [namespace];;
  barriers namespace (snd <$> exports);;
  o ← hread (λ h, object h namespace);
  match o_kind o with
  | ModuleNamespace [] =>
      update_object namespace (λ o, Ok (o_set_kind (ModuleNamespace exports) o));;
      recharge 0 additional
  | _ => hfail (InvalidObject namespace)
  end.

(** ** Proxies, functions and bound functions *)
Definition alloc_proxy (target handler : ObjectId) (proto : option ObjectId) (callable constructible : bool) : hm ObjectId :=
  check_ref (Some target);; check_ref (Some handler);;
  alloc (KProxy (Some target) (Some handler) callable constructible) proto.

Definition proxy (h : Heap) (id : ObjectId) : hresult (option (ObjectId * ObjectId)) :=
  k ← kind_of h id;
  match k with
  | KProxy (Some target) (Some handler) _ _ => HOk (Some (target, handler))
  | KProxy _ _ _ _ => HErr RevokedProxy
  | _ => HOk None
  end.

Definition revoke_proxy (id : ObjectId) : hm unit :=
  k ← hread (λ h, kind_of h id);
  match k with
  | KProxy _ _ callable constructible =>
      update_object id (λ o, Ok (o_set_kind (KProxy None None callable constructible) o))
  | _ => hfail (InvalidInternalSlot id)
  end.

Definition alloc_arguments (parameter_map : gmap PKey ObjectId) (proto : ObjectId) : hm ObjectId :=
  alloc (Arguments_ parameter_map) (Some proto).
Definition alloc_string (s : JsString) (proto : option ObjectId) : hm ObjectId := alloc (KString s) proto.
Definition alloc_native_function (function : NativeFunction) (name : rstring) (proto : ObjectId) : hm ObjectId :=
  alloc (KNativeFunction function name) (Some proto).
Definition alloc_bound_function (bound : BoundFunction) (proto : option ObjectId) : hm ObjectId :=
  alloc (KBoundFunction bound) proto.
Definition alloc_closure (code : Bytecode) (captures : list ObjectId) (this : Value) (proto : ObjectId) : hm ObjectId :=
  alloc (Closure code captures this) (Some proto).

Definition alloc_html_dda_object (function : NativeFunction) (proto : ObjectId) : hm ObjectId :=
  id ← alloc_native_function function [] proto;
  update_object id (λ o, Ok (o_set_is_html_dda true o));;
  mret id.

Definition native_function (h : Heap) (id : ObjectId) : hresult (option NativeFunction) :=
  (λ k, match k with KNativeFunction f _ => Some f | _ => None end) <$> kind_of h id.
Definition function_initial_name (h : Heap) (id : ObjectId) : hresult (option rstring) :=
  (λ k, match k with KNativeFunction _ name => Some name | _ => None end) <$> kind_of h id.
Definition function_source_text (h : Heap) (id : ObjectId) : hresult (option JsString) :=
  (λ k, match k with Closure code _ _ => code_source_text code | _ => None end) <$> kind_of h id.
Definition boxed_string (h : Heap) (id : ObjectId) : hresult (option JsString) :=
  (λ k, match k with KString s => Some s | _ => None end) <$> kind_of h id.
Definition bound_function (h : Heap) (id : ObjectId) : hresult (option BoundFunction) :=
  (λ k, match k with KBoundFunction b => Some b | _ => None end) <$> kind_of h id.

(** [heap/capabilities.rs] *)
Definition has_construct (f : NativeFunction) : bool :=
  match f with OtherNative f => host_has_construct f | _ => false end.

Record ObjectCapabilities := mkCapabilities { cap_callable : bool; cap_constructible : bool; cap_html_dda : bool }.

Definition object_capabilities (h : Heap) (id : ObjectId) : hresult ObjectCapabilities :=
  (λ o,
    let '(callable, constructible) :=
      match o_kind o with
      | KProxy _ _ callable constructible => (callable, constructible)
      | KNativeFunction f _ => (true, has_construct f)
      | Closure code _ _ => (true, code_constructible code)
      | KBoundFunction b => (true, bf_constructible b)
      | _ => (false, false)
      end in
    mkCapabilities callable constructible (o_is_html_dda o)) <$> object h id.

(** ** Closures and their metadata *)
Definition is_closure (k : ObjectKind) : bool := match k with Closure _ _ _ => true | _ => false end.

Definition closure (h : Heap) (id : ObjectId)
    : hresult (option (Bytecode * list ObjectId * Value * option ObjectId)) :=
  (λ k, match k with
        | Closure code captures this => Some (code, captures, this, m ← h_closure_metadata h !! id; cm_home m)
        | _ => None
        end) <$> kind_of h id.

Definition ensure_closure_metadata (id : ObjectId) (protected : list ObjectId) : hm unit :=
  installed ← hget (λ h, bool_decide (is_Some (h_closure_metadata h !! id)));
  if installed : bool then mret ()
  else
    ensure_room CLOSURE_METADATA_BYTES (id :: protected);;
    hmod (λ h, h_set_closure_metadata (<[id := default_metadata]> (h_closure_metadata h)) h);;
    recharge 0 CLOSURE_METADATA_BYTES.

Definition update_metadata (id : ObjectId) (f : ClosureMetadata → ClosureMetadata) : hm unit := hupd (λ h,
  m ← unwrap (h_closure_metadata h !! id);
  Ok (h_set_closure_metadata (<[id := f m]> (h_closure_metadata h)) h)).

(** The four setters share their shape: metadata is made room for and installed, the barrier
    runs for the new references, and one field is written. *)
Definition write_metadata (id : ObjectId) (refs : list ObjectId) (f : ClosureMetadata → ClosureMetadata) : hm unit :=
  k ← hread (λ h, kind_of h id);
  if is_closure k then
    ensure_closure_metadata id refs;;
    barriers id refs;;
    update_metadata id f
  else hfail (InvalidObject id).

Definition set_closure_home (id home : ObjectId) : hm unit :=
  check_ref (Some home);;
  write_metadata id [home] (λ m, mkClosureMetadata (Some home) (cm_fields m) (cm_with_objects m) (cm_new_target m)).
Definition set_class_fields (id initializer : ObjectId) : hm unit :=
  check_ref (Some initializer);;
  write_metadata id [initializer] (λ m, mkClosureMetadata (cm_home m) (Some initializer) (cm_with_objects m) (cm_new_target m)).
Definition set_closure_with_objects (id : ObjectId) (with_objects : list Value) : hm unit :=
  write_metadata id (object_ids with_objects)
    (λ m, mkClosureMetadata (cm_home m) (cm_fields m) with_objects (cm_new_target m)).
Definition set_closure_new_target (id : ObjectId) (new_target : Value) : hm unit :=
  write_metadata id (option_list (object_id new_target))
    (λ m, mkClosureMetadata (cm_home m) (cm_fields m) (cm_with_objects m) (Some new_target)).

Definition closure_metadata_of {A} (h : Heap) (id : ObjectId) (f : option ClosureMetadata → A) : hresult A :=
  k ← kind_of h id;
  if is_closure k then HOk (f (h_closure_metadata h !! id)) else HErr (InvalidObject id).

Definition class_fields (h : Heap) (id : ObjectId) : hresult (option ObjectId) :=
  closure_metadata_of h id (λ m, m ← m; cm_fields m).
Definition closure_new_target (h : Heap) (id : ObjectId) : hresult Value :=
  closure_metadata_of h id (λ m, default VUndefined (m ← m; cm_new_target m)).
Definition closure_with_objects (h : Heap) (id : ObjectId) : hresult (list Value) :=
  closure_metadata_of h id (λ m, default [] (cm_with_objects <$> m)).

(** ** Generators *)
Definition alloc_generator (state : GeneratorState) (proto : ObjectId) : hm ObjectId :=
  alloc (Generator state (generator_bytes state) None 0) (Some proto).

Definition generator_slots (h : Heap) (id : ObjectId)
    : hresult (GeneratorState * N * option AsyncGeneratorControl * N) :=
  k ← kind_of h id;
  match k with
  | Generator state bytes control control_bytes => HOk (state, bytes, control, control_bytes)
  | _ => HErr (InvalidObject id)
  end.

Definition is_generator (h : Heap) (id : ObjectId) : hresult bool :=
  (λ k, match k with Generator _ _ _ _ => true | _ => false end) <$> kind_of h id.

Definition generator_state_is_done (h : Heap) (id : ObjectId) : hresult bool :=
  (λ s, match s.1.1.1 with GDone => true | _ => false end) <$> generator_slots h id.

Definition write_generator (old new : N)
    (f : GeneratorState → N → option AsyncGeneratorControl → N → ObjectKind) (o : Object) : res Object :=
  match o_kind o with
  | Generator state bytes control control_bytes =>
      recharge_object old new (o_set_kind (f state bytes control control_bytes) o)
  | _ => Panic
  end.

(** The state moves out; the charge stays until a state is stored again. *)
Definition take_generator_state (id : ObjectId) : hm GeneratorState :=
  s ← hread (λ h, generator_slots h id);
  update_object id (write_generator 0 0 (λ _ bytes control cb, Generator GDone bytes control cb));;
  mret s.1.1.1.

Definition set_generator_state (id : ObjectId) (state : GeneratorState) : hm unit :=
  let refs := generator_references state in
  let new := generator_bytes state in
  s ← hread (λ h, generator_slots h id);
  let old := s.1.1.2 in
  ensure_room (saturating_sub new old) (id :: refs);;
  update_object id (write_generator old new (λ _ _ control cb, Generator state new control cb));;
  recharge old new;;
  barriers id refs.

Definition enable_async_generator (id : ObjectId) : hm unit :=
  s ← hread (λ h, generator_slots h id);
  match s.1.2 with
  | None => update_object id (write_generator 0 0 (λ state bytes _ cb, Generator state bytes (Some default_control) cb))
  | Some _ => mret ()
  end.

Definition async_generator_control (h : Heap) (id : ObjectId) : hresult (option AsyncGeneratorControl) :=
  (λ s, s.1.2) <$> generator_slots h id.

Definition set_async_generator_control (id : ObjectId) (control : AsyncGeneratorControl) : hm unit :=
  let refs := control_references control in
  let new := control_bytes control in
  s ← hread (λ h, generator_slots h id);
  let old := s.2 in
  let old_refs := mjoin (control_references <$> option_list s.1.2) in
  ensure_room (saturating_sub new old) (id :: refs ++ old_refs);;
  update_object id (write_generator old new (λ state bytes _ _, Generator state bytes (Some control) new));;
  recharge old new;;
  barriers id refs.

(** ** Locale objects *)
Definition alloc_collator (data : IntlData) (proto : ObjectId) : hm ObjectId := alloc (Collator data None) (Some proto).
Definition alloc_number_format (data : IntlData) (proto : ObjectId) : hm ObjectId := alloc (NumberFormat data None) (Some proto).
Definition alloc_date_time_format (data : IntlData) (proto : ObjectId) : hm ObjectId := alloc (DateTimeFormat data None) (Some proto).
Definition alloc_display_names (data : IntlData) (proto : ObjectId) : hm ObjectId := alloc (DisplayNames data) (Some proto).
Definition alloc_duration_format (data : IntlData) (proto : ObjectId) : hm ObjectId := alloc (DurationFormat data) (Some proto).
Definition alloc_list_format (data : IntlData) (proto : ObjectId) : hm ObjectId := alloc (ListFormat data) (Some proto).
Definition alloc_plural_rules (data : IntlData) (proto : ObjectId) : hm ObjectId := alloc (PluralRules data) (Some proto).
Definition alloc_relative_time_format (data : IntlData) (proto : ObjectId) : hm ObjectId := alloc (RelativeTimeFormat data) (Some proto).
Definition alloc_segmenter (data : IntlData) (proto : ObjectId) : hm ObjectId := alloc (Segmenter data) (Some proto).
Definition alloc_segments (data : IntlData) (proto : ObjectId) : hm ObjectId := alloc (Segments data) (Some proto).
Definition alloc_segment_iterator (data : IntlData) (proto : ObjectId) : hm ObjectId := alloc (SegmentIterator data 0) (Some proto).
Definition alloc_intl_locale (data : IntlData) (proto : ObjectId) : hm ObjectId := alloc (IntlLocale data) (Some proto).

Definition collator (h : Heap) (id : ObjectId) : hresult (option IntlData) :=
  (λ k, match k with Collator d _ => Some d | _ => None end) <$> kind_of h id.
Definition number_format (h : Heap) (id : ObjectId) : hresult (option IntlData) :=
  (λ k, match k with NumberFormat d _ => Some d | _ => None end) <$> kind_of h id.
Definition date_time_format (h : Heap) (id : ObjectId) : hresult (option IntlData) :=
  (λ k, match k with DateTimeFormat d _ => Some d | _ => None end) <$> kind_of h id.
Definition display_names (h : Heap) (id : ObjectId) : hresult (option IntlData) :=
  (λ k, match k with DisplayNames d => Some d | _ => None end) <$> kind_of h id.
Definition duration_format (h : Heap) (id : ObjectId) : hresult (option IntlData) :=
  (λ k, match k with DurationFormat d => Some d | _ => None end) <$> kind_of h id.
Definition list_format (h : Heap) (id : ObjectId) : hresult (option IntlData) :=
  (λ k, match k with ListFormat d => Some d | _ => None end) <$> kind_of h id.
Definition plural_rules (h : Heap) (id : ObjectId) : hresult (option IntlData) :=
  (λ k, match k with PluralRules d => Some d | _ => None end) <$> kind_of h id.
Definition relative_time_format (h : Heap) (id : ObjectId) : hresult (option IntlData) :=
  (λ k, match k with RelativeTimeFormat d => Some d | _ => None end) <$> kind_of h id.
Definition segmenter (h : Heap) (id : ObjectId) : hresult (option IntlData) :=
  (λ k, match k with Segmenter d => Some d | _ => None end) <$> kind_of h id.
Definition segments (h : Heap) (id : ObjectId) : hresult (option IntlData) :=
  (λ k, match k with Segments d => Some d | _ => None end) <$> kind_of h id.
Definition intl_locale (h : Heap) (id : ObjectId) : hresult (option IntlData) :=
  (λ k, match k with IntlLocale d => Some d | _ => None end) <$> kind_of h id.
Definition is_segment_iterator (h : Heap) (id : ObjectId) : hresult bool :=
  (λ k, match k with SegmentIterator _ _ => true | _ => false end) <$> kind_of h id.

(** The cached bound function of a collator or format: nothing happens on another object. *)
Definition cached_function (k : ObjectKind) : option ObjectId :=
  match k with Collator _ f | NumberFormat _ f | DateTimeFormat _ f => f | _ => None end.

Definition collator_compare (h : Heap) (id : ObjectId) : option ObjectId :=
  o ← h_objects h !! id; match o_kind o with Collator _ f => f | _ => None end.
Definition number_format_format (h : Heap) (id : ObjectId) : option ObjectId :=
  o ← h_objects h !! id; match o_kind o with NumberFormat _ f => f | _ => None end.
Definition date_time_format_format (h : Heap) (id : ObjectId) : option ObjectId :=
  o ← h_objects h !! id; match o_kind o with DateTimeFormat _ f => f | _ => None end.

(** [f] gives the kind with the function cached, or nothing for another kind. *)
Definition set_cached (f : ObjectKind → option ObjectKind) (id function : ObjectId) : hm unit :=
  k ← hget (λ h, o ← h_objects h !! id; f (o_kind o));
  match k with
  | Some k => update_object id (λ o, Ok (o_set_kind k o));; barrier id (Some function)
  | None => mret ()
  end.

Definition set_collator_compare (id function : ObjectId) : hm unit :=
  set_cached (λ k, match k with Collator d _ => Some (Collator d (Some function)) | _ => None end) id function.
Definition set_number_format_format (id function : ObjectId) : hm unit :=
  set_cached (λ k, match k with NumberFormat d _ => Some (NumberFormat d (Some function)) | _ => None end) id function.
Definition set_date_time_format_format (id function : ObjectId) : hm unit :=
  set_cached (λ k, match k with DateTimeFormat d _ => Some (DateTimeFormat d (Some function)) | _ => None end) id function.

End slots.

Section weak.
Context {H : JsHost}.

(** ** Weak references *)
Definition weak_ref_target (h : Heap) (id : ObjectId) : hresult (option Value) :=
  k ← kind_of h id;
  match k with
  | WeakRef (Some (WKObject target)) =>
      HOk (if contains h target then Some (VObject target) else None)
  | WeakRef (Some (WKSymbol target)) => HOk (Some (VSymbol target))
  | WeakRef None => HOk None
  | _ => HErr (InvalidInternalSlot id)
  end.

(** ** Weak collections *)
Definition weak_entries (h : Heap) (id : ObjectId) : hresult (gmap WKey (WeakCollectionKey * Value)) :=
  k ← kind_of h id;
  match k with WeakCollection _ entries => HOk entries | _ => HErr (InvalidInternalSlot id) end.

Definition weak_collection_get (h : Heap) (id : ObjectId) (key : Value) : hresult (option Value) :=
  entries ← weak_entries h id;
  HOk (k ← weak_key_from_value key; snd <$> entries !! wkey k).

(** [HashMap::insert] keeps the stored key of an entry it replaces. *)
Definition weak_insert (entries : gmap WKey (WeakCollectionKey * Value)) (key : WeakCollectionKey) (value : Value) :=
  match entries !! wkey key with
  | Some (stored, _) => <[wkey key := (stored, value)]> entries
  | None => <[wkey key := (key, value)]> entries
  end.

Definition write_weak (old new : N)
    (f : gmap WKey (WeakCollectionKey * Value) → gmap WKey (WeakCollectionKey * Value)) (o : Object) : res Object :=
  match o_kind o with
  | WeakCollection is_map entries =>
      recharge_object old new (o_set_kind (WeakCollection is_map (f entries)) o)
  | _ => Panic
  end.

Definition weak_collection_set (id : ObjectId) (key value : Value) : hm unit :=
  key ← hread (λ _, ok_or (weak_key_from_value key) (InvalidInternalSlot id));
  check_ref (weak_key_object key);;
  entries ← hread (λ h, weak_entries h id);
  let old := match entries !! wkey key with Some (_, v) => weak_collection_entry_bytes key v | None => 0%N end in
  let new := weak_collection_entry_bytes key value in
  ensure_room (saturating_sub new old)
    (id :: option_list (weak_key_object key) ++ option_list (object_id value));;
  update_object id (write_weak old new (λ entries, weak_insert entries key value));;
  recharge old new;;
  hmod (λ h, h_set_remembered ({[id]} ∪ h_remembered h) h).

Definition weak_collection_delete (id : ObjectId) (key : Value) : hm bool :=
  match weak_key_from_value key with
  | None => mret false
  | Some key =>
      entries ← hread (λ h, weak_entries h id);
      match entries !! wkey key with
      | None => mret false
      | Some (_, value) =>
          let released := weak_collection_entry_bytes key value in
          update_object id (write_weak released 0 (delete (wkey key)));;
          recharge released 0;;
          mret true
      end
  end.

(** ** Finalization registries *)
Definition write_cells (old new : N) (f : list FinalizationCell → list FinalizationCell) (o : Object) : res Object :=
  match o_kind o with
  | FinalizationRegistry callback cells =>
      recharge_object old new (o_set_kind (FinalizationRegistry callback (f cells)) o)
  | _ => Panic
  end.

(** [unregister_token.map(..).transpose()?] *)
Definition token_key (token : option Value) : hresult (option WeakCollectionKey) :=
  match token with
  | None => HOk None
  | Some v => Some <$> ok_or (weak_key_from_value v) InvalidWeakTarget
  end.

Definition option_key_object (k : option WeakCollectionKey) : option ObjectId :=
  match k with Some k => weak_key_object k | None => None end.

Definition finalization_registry_register (registry : ObjectId) (target holdings : Value)
    (unregister_token : option Value) : hm unit :=
  target ← hread (λ _, ok_or (weak_key_from_value target) InvalidWeakTarget);
  token ← hread (λ _, token_key unregister_token);
  check_ref (weak_key_object target);;
  check_ref (option_key_object token);;
  let bytes := finalization_cell_bytes (Some target) holdings token in
  ensure_room bytes
    (registry :: option_list (weak_key_object target) ++ option_list (object_id holdings)
     ++ option_list (option_key_object token));;
  barrier registry (object_id holdings);;
  k ← hexpect (hread (λ h, kind_of h registry));
  match k with
  | FinalizationRegistry _ _ =>
      update_object registry (write_cells 0 bytes (λ cells, cells ++ [mkCell (Some target) holdings token]));;
      recharge 0 bytes
  | _ => hfail (InvalidInternalSlot registry)
  end.

Definition cell_bytes (c : FinalizationCell) : N :=
  finalization_cell_bytes (fc_target c) (fc_holdings c) (fc_unregister_token c).

Definition token_matches (token : WeakCollectionKey) (c : FinalizationCell) : bool :=
  match fc_unregister_token c with Some t => bool_decide (wkey t = wkey token) | None => false end.

Definition finalization_registry_unregister (registry : ObjectId) (unregister_token : Value) : hm bool :=
  token ← hread (λ _, ok_or (weak_key_from_value unregister_token) InvalidWeakTarget);
  k ← hread (λ h, kind_of h registry);
  match k with
  | FinalizationRegistry _ cells =>
      let removed := filter (λ c, token_matches token c = true) cells in
      let released := sumN (cell_bytes <$> removed) in
      update_object registry (write_cells released 0 (filter (λ c, token_matches token c = false)));;
      recharge released 0;;
      mret (negb (length removed =? 0))
  | _ => hfail (InvalidInternalSlot registry)
  end.

(** The jobs of one registry: the callback with the holdings of each cleared cell. *)
#[global] Instance cleared_target_dec (c : FinalizationCell) : Decision (fc_target c = None).
Proof. destruct (fc_target c); [right|left]; done. Defined.

Definition registry_jobs (k : ObjectKind) : list (Value * Value) :=
  match k with
  | FinalizationRegistry callback cells =>
      (λ c, (callback, fc_holdings c)) <$> filter (λ c, fc_target c = None) cells
  | _ => []
  end.

Definition registry_released (k : ObjectKind) : N :=
  match k with
  | FinalizationRegistry _ cells => sumN (cell_bytes <$> filter (λ c, fc_target c = None) cells)
  | _ => 0
  end.

Definition take_jobs_kind (k : ObjectKind) : ObjectKind :=
  match k with
  | FinalizationRegistry callback cells =>
      FinalizationRegistry callback (filter (λ c, fc_target c ≠ None) cells)
  | _ => k
  end.

Definition take_jobs_object (o : Object) : Object :=
  o_set_bytes (o_bytes o - registry_released (o_kind o))%N (o_set_kind (take_jobs_kind (o_kind o)) o).

(** The cells whose target a collection cleared leave the registries as jobs. *)
Definition take_finalization_registry_cleanup_jobs : hm (list (Value * Value)) := λ h,
  if forallb (λ p : ObjectId * Object, (registry_released (o_kind p.2) <=? o_bytes p.2)%N) (map_to_list (h_objects h))
  then
    managed ← checked_sub_N (h_managed_bytes h)
                (sumN ((λ p : ObjectId * Object, registry_released (o_kind p.2)) <$> map_to_list (h_objects h)));
    Ok (h_set_managed_bytes managed (h_set_objects (take_jobs_object <$> h_objects h) h),
        HOk (mjoin ((λ p : ObjectId * Object, registry_jobs (o_kind p.2)) <$> map_to_list (h_objects h))))
  else Panic.

End weak.

Section iterators.
Context {H : JsHost}.

(** [let ObjectKind::X {..} = &mut object.kind else { Err(InvalidInternalSlot) }]: [f] gives the
    new kind, or nothing for another kind. *)
Definition slot_update (id : ObjectId) (f : ObjectKind → option (res ObjectKind)) : hm unit :=
  k ← hread (λ h, kind_of h id);
  match f k with
  | Some m => k ← hres m; update_object id (λ o, Ok (o_set_kind k o))
  | None => hfail (InvalidInternalSlot id)
  end.

(** ** Dates and Temporal values *)
Definition date_value (h : Heap) (id : ObjectId) : hresult f64 :=
  k ← kind_of h id; match k with KDate time => HOk time | _ => HErr (InvalidInternalSlot id) end.
Definition set_date_value (id : ObjectId) (time : f64) : hm unit :=
  slot_update id (λ k, match k with KDate _ => Some (Ok (KDate time)) | _ => None end).
Definition temporal_kind (h : Heap) (id : ObjectId) : hresult (option TemporalKind) :=
  (λ k, match k with KTemporal t => Some (tv_kind t) | _ => None end) <$> kind_of h id.
Definition temporal_value (h : Heap) (id : ObjectId) : hresult (option TemporalValue) :=
  (λ k, match k with KTemporal t => Some t | _ => None end) <$> kind_of h id.

(** ** Boxed primitives and regular expressions *)
Definition alloc_regexp (r : RegExp) (proto : ObjectId) : hm ObjectId := alloc (KRegExp r) (Some proto).
Definition alloc_boxed_primitive (v : Value) (proto : ObjectId) : hm ObjectId := alloc (BoxedPrimitive v) (Some proto).
Definition boxed_primitive (h : Heap) (id : ObjectId) : hresult (option Value) :=
  (λ k, match k with BoxedPrimitive v => Some v | _ => None end) <$> kind_of h id.
Definition regexp (h : Heap) (id : ObjectId) : hresult (option RegExp) :=
  (λ k, match k with KRegExp r => Some r | _ => None end) <$> kind_of h id.

Definition regexp_slot (h : Heap) (id : ObjectId) : hresult RegExp :=
  k ← kind_of h id; match k with KRegExp r => HOk r | _ => HErr (InvalidInternalSlot id) end.

Definition set_regexp (id : ObjectId) (r : RegExp) : hm unit :=
  current ← hread (λ h, regexp_slot h id);
  let old := regexp_bytes current in
  let new := regexp_bytes r in
  ensure_room (saturating_sub new old) [id];;
  update_object id (λ o, match o_kind o with
                         | KRegExp _ => recharge_object old new (o_set_kind (KRegExp r) o)
                         | _ => Panic
                         end);;
  recharge old new.

(** ** Array iterators *)
Definition alloc_array_iterator (target : ObjectId) (kind : ArrayIteratorKind) (proto : ObjectId) : hm ObjectId :=
  alloc (ArrayIterator target 0 false kind) (Some proto).
Definition array_iterator (h : Heap) (id : ObjectId) : hresult (option (ObjectId * N * bool * ArrayIteratorKind)) :=
  (λ k, match k with ArrayIterator target index done_ kind => Some (target, index, done_, kind) | _ => None end)
  <$> kind_of h id.
(** A missing object or another kind is left alone. *)
Definition advance_array_iterator (id : ObjectId) (finished : bool) : hm unit :=
  k ← hget (λ h, o_kind <$> h_objects h !! id);
  match k with
  | Some (ArrayIterator target index _ kind) =>
      index ← hres (checked_add_N U64_MAX index 1);
      update_object id (λ o, Ok (o_set_kind (ArrayIterator target index finished kind) o))
  | _ => mret ()
  end.

(** ** Iterator wrappers and helpers *)
Definition alloc_iterator_wrapper (iterator : ObjectId) (next : Value) (proto : ObjectId) : hm ObjectId :=
  alloc (IteratorWrapper iterator next) (Some proto).
Definition iterator_wrapper (h : Heap) (id : ObjectId) : hresult (option (ObjectId * Value)) :=
  (λ k, match k with IteratorWrapper iterator next => Some (iterator, next) | _ => None end) <$> kind_of h id.

Definition alloc_iterator_helper (record : ObjectId) (callback : Value) (kind : IteratorHelperKind) (index : N)
    (proto : ObjectId) : hm ObjectId :=
  alloc (IteratorHelper record callback index false false kind) (Some proto).

Record IteratorHelperState := mkHelperState {
  hs_record : ObjectId;
  hs_callback : Value;
  hs_index : N;
  hs_done : bool;
  hs_executing : bool;
  hs_kind : IteratorHelperKind;
}.

Definition iterator_helper (h : Heap) (id : ObjectId) : hresult (option IteratorHelperState) :=
  (λ k, match k with
        | IteratorHelper record callback index done_ executing kind =>
            Some (mkHelperState record callback index done_ executing kind)
        | _ => None
        end) <$> kind_of h id.

Definition begin_iterator_helper (id : ObjectId) : hm unit :=
  slot_update id (λ k, match k with
    | IteratorHelper record callback index done_ _ kind => Some (Ok (IteratorHelper record callback index done_ true kind))
    | _ => None end).
Definition leave_iterator_helper (id : ObjectId) : hm unit :=
  slot_update id (λ k, match k with
    | IteratorHelper record callback index done_ _ kind => Some (Ok (IteratorHelper record callback index done_ false kind))
    | _ => None end).
Definition finish_iterator_helper (id : ObjectId) : hm unit :=
  slot_update id (λ k, match k with
    | IteratorHelper record callback index _ _ kind => Some (Ok (IteratorHelper record callback index true false kind))
    | _ => None end).
Definition advance_iterator_helper (id : ObjectId) : hm unit :=
  slot_update id (λ k, match k with
    | IteratorHelper record callback index done_ executing kind =>
        Some (index ← checked_add_N U64_MAX index 1; Ok (IteratorHelper record callback index done_ executing kind))
    | _ => None end).
Definition consume_iterator_helper_take (id : ObjectId) : hm unit :=
  slot_update id (λ k, match k with
    | IteratorHelper record callback index done_ executing kind =>
        Some (index ← checked_sub_N index 1; Ok (IteratorHelper record callback index done_ executing kind))
    | _ => None end).

(** ** RegExp, segment and string iterators *)
Definition alloc_regexp_iterator (matcher : ObjectId) (string : JsString) (global unicode : bool) (proto : ObjectId) : hm ObjectId :=
  alloc (RegExpIterator matcher string global unicode false) (Some proto).
Definition regexp_iterator (h : Heap) (id : ObjectId) : hresult (option (ObjectId * JsString * bool * bool * bool)) :=
  (λ k, match k with
        | RegExpIterator matcher string global unicode done_ => Some (matcher, string, global, unicode, done_)
        | _ => None
        end) <$> kind_of h id.
Definition finish_regexp_iterator (id : ObjectId) : hm unit :=
  k ← hget (λ h, o_kind <$> h_objects h !! id);
  match k with
  | Some (RegExpIterator matcher string global unicode _) =>
      update_object id (λ o, Ok (o_set_kind (RegExpIterator matcher string global unicode true) o))
  | _ => mret ()
  end.

Definition segment_iterator_next (id : ObjectId) : hm (option (IntlData * N)) :=
  k ← hread (λ h, kind_of h id);
  match k with
  | SegmentIterator data index =>
      next ← hres (checked_add_N USIZE_MAX index 1);
      update_object id (λ o, Ok (o_set_kind (SegmentIterator data next) o));;
      mret (if (index <? segment_records data)%N then Some (data, index) else None)
  | _ => mret None
  end.

Definition alloc_string_iterator (string : JsString) (proto : ObjectId) : hm ObjectId :=
  alloc (StringIterator string 0) (Some proto).

Definition high_surrogate (u : N) : bool := ((0xd800 <=? u) && (u <=? 0xdbff))%N.
Definition low_surrogate (u : N) : bool := ((0xdc00 <=? u) && (u <=? 0xdfff))%N.

(** The number of code units the iterator steps over: two for a surrogate pair. *)
Definition step_width (units : JsString) (start : nat) : res nat :=
  u ← unwrap (units !! start);
  Ok (if high_surrogate u && match units !! S start with Some v => low_surrogate v | None => false end
      then 2 else 1).

Definition string_iterator_next (id : ObjectId) : hm (option (option JsString)) :=
  k ← hread (λ h, kind_of h id);
  match k with
  | StringIterator string position =>
      let start := N.to_nat position in
      if start =? length string then mret (Some None)
      else
        width ← hres (step_width string start);
        update_object id (λ o, Ok (o_set_kind (StringIterator string (N.of_nat (start + width))) o));;
        mret (Some (Some (take width (drop start string))))
  | _ => mret None
  end.

End iterators.
