(* ===== verification/JsHeapInv.v ===== *)
(** * Operations preserve the heap invariant

    Reasoning rules for heap operations: making room, writing to an object with its charge and
    write barrier, allocating and registering roots.  [sound h m] says that [m] returns without a
    panic from [h] and leaves a heap that satisfies [heap_ok]. *)

From S2P Require Import Prelude Float JsValue JsObject JsCollection JsCollectionProps JsHeap JsMark JsGc JsCore.

Section inv.
Context {H : JsHost}.

Definition sound {A} (h : Heap) (m : hm A) : Prop := ∃ h' r, m h = Ok (h', r) ∧ heap_ok h'.

Lemma hbind_ok {A B} (m : hm A) (f : A → hm B) h h1 a : m h = Ok (h1, HOk a) → (m ≫= f) h = f a h1.
Proof. intros E. unfold mbind, hm_bind. by rewrite E. Qed.
Lemma hbind_err {A B} (m : hm A) (f : A → hm B) h h1 e : m h = Ok (h1, HErr e) → (m ≫= f) h = Ok (h1, HErr e).
Proof. intros E. unfold mbind, hm_bind. by rewrite E. Qed.

Lemma sound_bind {A B} (m : hm A) (f : A → hm B) h h1 a : m h = Ok (h1, HOk a) → sound h1 (f a) → sound h (m ≫= f).
Proof. intros E (h' & r & E' & ?). exists h', r. by rewrite (hbind_ok _ _ _ _ _ E). Qed.
Lemma sound_ret {A} h (a : A) : heap_ok h → sound h (mret a).
Proof. intros. by exists h, (HOk a). Qed.
Lemma sound_fail {A} h e : heap_ok h → sound h (@hfail H A e).
Proof. intros. by exists h, (HErr e). Qed.
Lemma sound_read {A B} (f : Heap → hresult A) (k : A → hm B) h :
  heap_ok h → (∀ a, f h = HOk a → sound h (k a)) → sound h (hread f ≫= k).
Proof.
  intros K Hk. destruct (f h) as [a|e] eqn:E.
  - apply (sound_bind _ _ h h a); [unfold hread; by rewrite E|auto].
  - exists h, (HErr e). split; [|done]. apply hbind_err. unfold hread. by rewrite E.
Qed.
Lemma sound_get {A B} (f : Heap → A) (k : A → hm B) h : sound h (k (f h)) → sound h (hget f ≫= k).
Proof. by apply sound_bind. Qed.
Lemma sound_res {A B} (m : res A) a (k : A → hm B) h : m = Ok a → sound h (k a) → sound h (hres m ≫= k).
Proof. intros ->. by apply sound_bind. Qed.

Lemma object_present h id o : object h id = HOk o ↔ h_objects h !! id = Some o.
Proof. unfold object. destruct (h_objects h !! id); cbn; naive_solver. Qed.

Lemma sound_check {B} r (k : hm B) h :
  heap_ok h → ((∀ id, r = Some id → present h id) → sound h k) → sound h (check_ref r ;; k).
Proof.
  intros K Hk. destruct r as [id|]; cbn.
  - destruct (object h id) as [o|e] eqn:E.
    + apply (sound_bind _ _ h h ()).
      { unfold check_ref, hread. unfold mbind, hm_bind. by rewrite E. }
      apply Hk. intros ? [= <-]. exists o. by apply object_present.
    + exists h, (HErr e). split; [|done]. apply hbind_err. unfold check_ref, hread.
      unfold mbind, hm_bind. by rewrite E.
  - apply (sound_bind _ _ h h ()); [done|]. by apply Hk.
Qed.

(** ** Room *)
Definition collected (h h' : Heap) (protected : list ObjectId) : Prop :=
  h' = h ∨ ∃ dead, swept h h' (strong h protected) dead.

Lemma ensure_room_spec h n protected :
  heap_ok h → (∀ id, id ∈ protected → present h id) →
  ∃ h' r, ensure_room n protected h = Ok (h', r) ∧ heap_ok h' ∧ collected h h' protected
    ∧ (r = HOk () → (h_managed_bytes h' + n <= max_heap_bytes (h_config h'))%N)
    ∧ (r = HOk () ∨ ∃ e, r = HErr e).
Proof.
  intros K Hp. unfold ensure_room. destruct (N.eqb_spec n 0) as [->|Hn].
  { exists h, (HOk ()). split_and!; [done|done|by left| |by left]. intros _. rewrite N.add_0_r. apply K. }
  assert (∃ h', (match checked_usize (h_managed_bytes h + n) with
         | Some bytes => if (h_next_major_bytes h <=? bytes)%N then major_gc protected h else Ok h
         | None => major_gc protected h
         end) = Ok h' ∧ heap_ok h' ∧ collected h h' protected) as (h' & -> & K' & Hc).
  { destruct (major_gc_spec h protected K Hp) as (h' & dead & E & ? & ?).
    destruct (checked_usize _) as [b|]; [destruct (_ <=? _)%N|].
    - exists h'. split_and!; [done..|right; by exists dead].
    - exists h. by split_and!; [..|left].
    - exists h'. split_and!; [done..|right; by exists dead]. }
  cbn. unfold checked_usize. pose proof (ok_usize _ K').
  destruct (N.leb_spec (h_managed_bytes h' + n) USIZE_MAX);
    [destruct (N.ltb_spec (max_heap_bytes (h_config h')) (h_managed_bytes h' + n))|];
    eexists h', _; (split_and!; [done..| |eauto]); first [discriminate|done].
Qed.

Lemma sound_room {B} n protected (k : hm B) h :
  heap_ok h → (∀ id, id ∈ protected → present h id) →
  (∀ h1, heap_ok h1 → collected h h1 protected →
     (h_managed_bytes h1 + n <= max_heap_bytes (h_config h1))%N → sound h1 k) →
  sound h (ensure_room n protected ;; k).
Proof.
  intros K Hp Hk. destruct (ensure_room_spec h n protected K Hp) as (h1 & r & E & K1 & Hc & Hr & [->|[e ->]]).
  - eapply sound_bind; [done|]. by apply Hk, Hr.
  - exists h1, (HErr e). split; [by apply hbind_err|done].
Qed.

(** What is protected survives, and keeps all but dead weak slots. *)
Lemma collected_object h h' protected id o :
  heap_ok h → collected h h' protected → id ∈ protected → h_objects h !! id = Some o →
  ∃ o' dead, h_objects h' !! id = Some o' ∧ (o' = o ∨ o' = o_set_young false (sweep_object dead o))
    ∧ ∀ kid, kid ∈ protected → present h kid → dead kid = false.
Proof.
  intros K [->|[dead W]] Hid E.
  - exists o, (λ _, false). split_and!; [done|by left|done].
  - eexists _, dead. split_and!.
    + apply (sw_objects _ _ _ _ W). exists o. split_and!; [done| |done].
      apply strong_root; [by exists o|]. unfold mark_roots. rewrite !elem_of_app. auto.
    + by right.
    + intros kid Hk Hpk. apply (sw_dead _ _ _ _ W); [done|].
      apply strong_root; [done|]. unfold mark_roots. rewrite !elem_of_app. auto.
Qed.

Lemma collected_present h h' protected id :
  heap_ok h → collected h h' protected → id ∈ protected → present h id → present h' id.
Proof.
  intros K Hc Hid [o E]. destruct (collected_object h h' protected id o K Hc Hid E) as (o' & _ & ? & _).
  by exists o'.
Qed.

(** Of a kind without weak slots nothing changes but the generation. *)
Definition weak_kind (k : ObjectKind) : bool :=
  match k with WeakCollection _ _ | WeakRef _ | FinalizationRegistry _ _ => true | _ => false end.

Lemma sweep_plain dead o :
  weak_kind (o_kind o) = false → sweep_object dead o = o.
Proof.
  intros Hk. unfold sweep_object.
  assert (weak_released dead o = 0%N) as -> by (unfold weak_released; by destruct (o_kind o)).
  assert (sweep_kind dead (o_kind o) = o_kind o) as -> by (by destruct (o_kind o)).
  rewrite N.sub_0_r. by destruct o.
Qed.

Lemma collected_plain h h' protected id o :
  heap_ok h → collected h h' protected → id ∈ protected → h_objects h !! id = Some o →
  weak_kind (o_kind o) = false →
  ∃ y, h_objects h' !! id = Some (o_set_young y o).
Proof.
  intros K Hc Hid E Hk. destruct (collected_object h h' protected id o K Hc Hid E) as (o' & dead & -> & Ho & _).
  destruct Ho as [->| ->].
  - exists (o_young o). by destruct o.
  - exists false. by rewrite sweep_plain.
Qed.

(** ** Writing to an object *)

(** Everything an operation on one object leaves alone. *)
Definition same_frame (h h' : Heap) : Prop :=
  h_identity h' = h_identity h ∧ h_next_object h' = h_next_object h ∧ h_next_root h' = h_next_root h
  ∧ h_config h' = h_config h ∧ h_nursery h' = h_nursery h ∧ h_roots h' = h_roots h
  ∧ h_next_major_bytes h' = h_next_major_bytes h.

Lemma kind_ok_present h h' k : (∀ id, present h id → present h' id) → kind_ok h k → kind_ok h' k.
Proof.
  intros Hp. destruct k; cbn; try done. intros Hk i key v Hi. destruct (Hk i key v Hi) as (? & ? & ?).
  split_and!; auto.
Qed.

Lemma heap_ok_write h h' id o o' :
  heap_ok h → h_objects h !! id = Some o → h_objects h' = <[id := o']> (h_objects h) →
  h_closure_metadata h' = h_closure_metadata h → same_frame h h' →
  o_young o' = o_young o → acyclic h' →
  (∀ a, a ∈ h_remembered h → a ∈ h_remembered h') →
  (∀ a, a ∈ h_remembered h' → a ∈ h_remembered h ∨ a = id) →
  (∀ b, b ∈ references o' → present h b
     ∧ (b ∈ references o ∨ (o_young o = false → young h b → id ∈ h_remembered h'))) →
  kind_ok h (o_kind o') → (owned_bytes o' <= o_bytes o')%N →
  (h_managed_bytes h' + o_bytes o = h_managed_bytes h + o_bytes o')%N →
  (h_managed_bytes h' <= max_heap_bytes (h_config h))%N →
  heap_ok h'.
Proof.
  intros K E Eo Em (F1 & F2 & F3 & F4 & F5 & F6 & F7) Ey Hac Hr1 Hr2 Href Hk Hown Hman Hmax.
  assert (∀ a, present h' a ↔ present h a) as Hp.
  { intros a. unfold present. rewrite Eo. destruct (decide (a = id)) as [->|].
    - rewrite lookup_insert_eq, E. by split; intros; eexists.
    - by rewrite lookup_insert_ne. }
  assert (∀ a oa, h_objects h' !! a = Some oa → (a = id ∧ oa = o') ∨ (a ≠ id ∧ h_objects h !! a = Some oa)) as Hlk.
  { intros a oa. rewrite Eo. destruct (decide (a = id)) as [->|].
    - rewrite lookup_insert_eq. naive_solver.
    - rewrite lookup_insert_ne by done. naive_solver. }
  assert (∀ a, young h' a ↔ young h a) as Hy.
  { intros a. unfold young. rewrite Eo. destruct (decide (a = id)) as [->|].
    - rewrite lookup_insert_eq, E. naive_solver congruence.
    - by rewrite lookup_insert_ne. }
  assert (∀ a b, b ∈ succs h' a → (b ∈ succs h a) ∨ (a = id ∧ b ∈ references o')) as Hs.
  { intros a b. unfold succs. rewrite Eo. destruct (decide (a = id)) as [->|].
    - rewrite lookup_insert_eq, E. unfold edges, metadata_edges. rewrite Em, !elem_of_app.
      intros [?|?]; auto.
    - rewrite lookup_insert_ne by done. unfold edges, metadata_edges. rewrite Em. auto. }
  split.
  - intros a b [Hb|[-> Hb]]%Hs; apply Hp; [by apply (ok_closed _ K a)|by apply Href].
  - done.
  - rewrite F6. intros r a Ha. apply Hp. by apply (ok_roots _ K r).
  - intros a [Ha| ->]%Hr2; apply Hp; [by apply (ok_remembered _ K)|by exists o].
  - rewrite Em. intros a m Ha. apply Hp. by apply (ok_metadata _ K a m).
  - rewrite F5. apply (ok_nursery _ K).
  - intros a. by rewrite F5, Hy, (ok_young _ K).
  - intros a b (oa & Ea & Eya) Hb Hyb%Hy.
    assert (old h a) as Ho.
    { apply Hlk in Ea as [[-> ->]|[_ Ea]]; [exists o; split; [done|congruence]|by exists oa]. }
    apply Hs in Hb as [Hb|[-> Hb]]; [apply Hr1; by apply (ok_barrier _ K a b)|].
    destruct (Href b Hb) as [_ [Hb'|Hb']].
    + apply Hr1. apply (ok_barrier _ K id b); [done| |done]. unfold succs. rewrite E.
      unfold edges. apply elem_of_app. by left.
    + apply Hb'; [|done]. destruct Ho as (o2 & ? & ?). congruence.
  - intros a Ha%Hp. rewrite F1, F2. by apply (ok_ids _ K).
  - rewrite F6, F1, F3. apply (ok_root_ids _ K).
  - pose proof (ok_charge _ K). unfold heap_bytes in *. rewrite Em, Eo.
    pose proof (msum_update o_bytes (h_objects h) id o o' E). lia.
  - intros a oa [[-> ->]|[_ Ea]]%Hlk; [done|by apply (ok_owned _ K a)].
  - intros a oa [[-> ->]|[_ Ea]]%Hlk; (eapply kind_ok_present; [intros; by apply Hp|]); [done|by apply (ok_kinds _ K a)].
  - by rewrite F4.
  - rewrite F4, F7. apply (ok_trigger _ K).
  - rewrite F4. apply (ok_usize _ K).
Qed.

Lemma acyclic_write h h' id o o' :
  acyclic h → h_objects h !! id = Some o → h_objects h' = <[id := o']> (h_objects h) →
  o_prototype o' = o_prototype o → acyclic h'.
Proof.
  intros Hac E Eo Ep. apply (acyclic_mono h); [|done]. intros a b (oa & Ea & Epa). rewrite Eo in Ea.
  destruct (decide (a = id)) as [->|].
  - rewrite lookup_insert_eq in Ea. simplify_eq. exists o. split; congruence.
  - rewrite lookup_insert_ne in Ea by done. by exists oa.
Qed.

(** ** The write barrier *)

(** [t] remembers [id] when it is old and one of [refs] is young, and changes nothing else. *)
Definition is_barrier {A} (t : hm A) (id : ObjectId) (refs : list ObjectId) : Prop :=
  ∀ h, present h id → (∀ b, b ∈ refs → present h b) →
  ∃ R a, t h = Ok (h_set_remembered R h, HOk a)
    ∧ (∀ x, x ∈ h_remembered h → x ∈ R) ∧ (∀ x, x ∈ R → x ∈ h_remembered h ∨ x = id)
    ∧ (∀ b, b ∈ refs → old h id → young h b → id ∈ R).

Lemma h_set_remembered_id h : h_set_remembered (h_remembered h) h = h.
Proof. by destruct h. Qed.

Lemma is_barrier_ret {A} (a : A) id : is_barrier (mret a) id [].
Proof.
  intros h _ _. exists (h_remembered h), a. rewrite h_set_remembered_id.
  split_and!; [done|done|by left|by intros ? ?%elem_of_nil].
Qed.

Lemma is_barrier_one id t : is_barrier (barrier id t) id (option_list t).
Proof.
  intros h [o E] Ht. unfold barrier, hupd, write_barrier. destruct t as [t|]; cbn in *.
  2: { exists (h_remembered h), (). rewrite h_set_remembered_id.
       split_and!; [done|done|by left|by intros ? ?%elem_of_nil]. }
  rewrite E. cbn. destruct (o_young o) eqn:Ey.
  { exists (h_remembered h), (). rewrite h_set_remembered_id. split_and!; [done|done|by left|].
    intros b _ (o' & ? & ?). simplify_eq. congruence. }
  destruct (Ht t) as [ot Et]; [constructor|]. rewrite Et. cbn. destruct (o_young ot) eqn:Eyt.
  - eexists _, (). split; [done|]. split_and!; set_solver.
  - exists (h_remembered h), (). rewrite h_set_remembered_id. split_and!; [done|done|by left|].
    intros b ->%list_elem_of_singleton _ (o' & ? & ?). simplify_eq. congruence.
Qed.

Lemma is_barrier_seq {A B} (t1 : hm A) (t2 : hm B) id refs1 refs2 :
  is_barrier t1 id refs1 → is_barrier t2 id refs2 → is_barrier (t1 ;; t2) id (refs1 ++ refs2).
Proof.
  intros B1 B2 h Hid Hrefs.
  destruct (B1 h Hid) as (R1 & a1 & E1 & S1 & T1 & U1). { intros. apply Hrefs, elem_of_app. by left. }
  destruct (B2 (h_set_remembered R1 h) Hid) as (R2 & a2 & E2 & S2 & T2 & U2).
  { intros b Hb. apply (Hrefs b), elem_of_app. by right. }
  cbn in S2, T2. exists R2, a2. split_and!.
  - by rewrite (hbind_ok _ _ _ _ _ E1), E2.
  - auto.
  - intros x [?|?]%T2; auto.
  - intros b [Hb|Hb]%elem_of_app Ho Hy; [apply S2; by apply (U1 b)|by apply (U2 b)].
Qed.

Lemma is_barrier_list id refs : is_barrier (barriers id refs) id refs.
Proof.
  induction refs as [|t refs IH]; [apply is_barrier_ret|].
  apply (is_barrier_seq _ _ id [t] refs); [apply (is_barrier_one id (Some t))|done].
Qed.

Lemma is_barrier_ret_after {A B} (t : hm A) (b : B) id refs :
  is_barrier t id refs → is_barrier (t ;; mret b) id refs.
Proof. intros Ht. rewrite <-(app_nil_r refs). apply is_barrier_seq; [done|apply is_barrier_ret]. Qed.

(** ** A write with its charge and barrier *)
Lemma object_bytes_managed h id o : heap_ok h → h_objects h !! id = Some o → (o_bytes o <= h_managed_bytes h)%N.
Proof.
  intros K E. rewrite (ok_charge _ K). unfold heap_bytes. pose proof (msum_elem o_bytes _ id o E). lia.
Qed.

Lemma update_recharge h id o o1 f old new :
  heap_ok h → h_objects h !! id = Some o → f o = recharge_object old new o1 → o_bytes o1 = o_bytes o →
  (old <= o_bytes o)%N → (h_managed_bytes h + new <= max_heap_bytes (h_config h) + old)%N →
  ∃ o', o' = o_set_bytes (o_bytes o - old + new)%N o1
    ∧ ∀ B (k : hm B), (update_object id f ;; recharge old new ;; k) h
      = k (h_set_managed_bytes (h_managed_bytes h - old + new)%N (h_set_objects (<[id := o']> (h_objects h)) h)).
Proof.
  intros K E Ef Eb Hold Hmax. eexists. split; [done|]. intros B k.
  pose proof (object_bytes_managed h id o K E). pose proof (ok_usize _ K).
  erewrite hbind_ok.
  2: { unfold update_object, hupd. rewrite E. cbn. rewrite Ef. unfold recharge_object.
       rewrite Eb, checked_sub_N_Ok by done. cbn. unfold checked_add_N.
       rewrite (proj2 (N.leb_le _ _)) by lia. cbn. reflexivity. }
  erewrite hbind_ok.
  2: { unfold recharge, hupd. cbn. rewrite checked_sub_N_Ok by lia. cbn. unfold checked_add_N.
       rewrite (proj2 (N.leb_le _ _)) by lia. cbn. reflexivity. }
  done.
Qed.

(** The barrier of a write that starts in [h]: the write leaves the generations alone. *)
Definition is_barrier_at {A} (h : Heap) (t : hm A) (id : ObjectId) (refs : list ObjectId) : Prop :=
  ∀ h1, present h1 id → (∀ b, b ∈ refs → present h1 b) → h_remembered h1 = h_remembered h →
  (∀ b, young h1 b → young h b) → (old h1 id → old h id) →
  ∃ R a, t h1 = Ok (h_set_remembered R h1, HOk a)
    ∧ (∀ x, x ∈ h_remembered h1 → x ∈ R) ∧ (∀ x, x ∈ R → x ∈ h_remembered h1 ∨ x = id)
    ∧ (∀ b, b ∈ refs → old h1 id → young h1 b → id ∈ R).

Lemma sound_write_at {A} h id o o1 f old new refs (t : hm A) :
  heap_ok h → h_objects h !! id = Some o → f o = recharge_object old new o1 →
  o_bytes o1 = o_bytes o → o_young o1 = o_young o → o_prototype o1 = o_prototype o →
  (old <= o_bytes o)%N → (h_managed_bytes h + new <= max_heap_bytes (h_config h) + old)%N →
  (∀ b, b ∈ references o1 → b ∈ references o ∨ b ∈ refs) → (∀ b, b ∈ refs → present h b) →
  kind_ok h (o_kind o1) → (owned_bytes o1 + old <= o_bytes o + new)%N →
  is_barrier_at h t id refs →
  sound h (update_object id f ;; recharge old new ;; t).
Proof.
  intros K E Ef Eb Ey Epr Hold Hmax Href Hp Hk Hown Ht.
  destruct (update_recharge h id o o1 f old new K E Ef Eb Hold Hmax) as (o' & Eo' & Hrun).
  unfold sound. rewrite Hrun. set (h1 := h_set_managed_bytes _ _).
  assert (∀ a, present h a → present h1 a) as Hp1.
  { intros a [oa Ea]. unfold present. cbn. destruct (decide (a = id)) as [->|].
    - rewrite lookup_insert_eq. by eexists.
    - rewrite lookup_insert_ne by done. by exists oa. }
  assert (o_young o' = o_young o) as Ey' by (by rewrite Eo').
  assert (∀ a oa, h_objects h1 !! a = Some oa → ∃ ob, h_objects h !! a = Some ob ∧ o_young ob = o_young oa) as Hgen.
  { intros a oa. cbn. destruct (decide (a = id)) as [->|].
    - rewrite lookup_insert_eq. intros [= <-]. by exists o.
    - rewrite lookup_insert_ne by done. by exists oa. }
  destruct (Ht h1) as (R & a & E1 & S1 & T1 & U1); [apply Hp1; by exists o|auto|done|..].
  { intros b (ob & Eb' & Yb). destruct (Hgen b ob Eb') as (oc & ? & ?). exists oc. split; congruence. }
  { intros (ob & Eb' & Yb). destruct (Hgen id ob Eb') as (oc & ? & ?). exists oc. split; congruence. }
  exists (h_set_remembered R h1), (HOk a). split; [done|].
  pose proof (object_bytes_managed h id o K E).
  assert (references o' = references o1) as Er by (by rewrite Eo').
  apply (heap_ok_write h _ id o o'); try done.
  - eapply acyclic_write; [apply K|done|done|]. by rewrite Eo'.
  - rewrite Er. intros b Hb. destruct (Href b Hb) as [Hb'|Hb'].
    + split; [|by left]. apply (ok_closed _ K id). unfold succs. rewrite E. apply elem_of_app. by left.
    + split; [by apply Hp|]. right. intros Hyo Hyb. apply (U1 b Hb').
      * exists o'. split; [apply lookup_insert_eq|congruence].
      * destruct Hyb as (ob & Eob & Hyb). destruct (decide (b = id)) as [->|]; [congruence|].
        exists ob. split; [|done]. cbn. by rewrite lookup_insert_ne.
  - by rewrite Eo'.
  - rewrite Eo'. change (owned_bytes o1 <= o_bytes o - old + new)%N. lia.
  - rewrite Eo'. cbn. lia.
  - cbn. lia.
Qed.

Lemma sound_write {A} h id o o1 f old new refs (t : hm A) :
  heap_ok h → h_objects h !! id = Some o → f o = recharge_object old new o1 →
  o_bytes o1 = o_bytes o → o_young o1 = o_young o → o_prototype o1 = o_prototype o →
  (old <= o_bytes o)%N → (h_managed_bytes h + new <= max_heap_bytes (h_config h) + old)%N →
  (∀ b, b ∈ references o1 → b ∈ references o ∨ b ∈ refs) → (∀ b, b ∈ refs → present h b) →
  kind_ok h (o_kind o1) → (owned_bytes o1 + old <= o_bytes o + new)%N →
  is_barrier t id refs →
  sound h (update_object id f ;; recharge old new ;; t).
Proof. intros ? ? ? ? ? ? ? ? ? ? ? ? Ht. apply (sound_write_at h id o o1 f old new refs t); try done. intros ? ? ? _ _ _. by apply Ht. Qed.

(** A write that frees or keeps its charge and adds no reference. *)
Lemma sound_release {A} h id o o1 f old (t : hm A) :
  heap_ok h → h_objects h !! id = Some o → f o = recharge_object old 0 o1 →
  o_bytes o1 = o_bytes o → o_young o1 = o_young o → o_prototype o1 = o_prototype o → (old <= o_bytes o)%N →
  (∀ b, b ∈ references o1 → b ∈ references o) →
  kind_ok h (o_kind o1) → (owned_bytes o1 + old <= o_bytes o)%N → is_barrier t id [] →
  sound h (update_object id f ;; recharge old 0 ;; t).
Proof.
  intros K E Ef Eb Ey Epr Hold Href Hk Hown Ht.
  apply (sound_write h id o o1 f old 0 [] t); try done.
  - pose proof (ok_budget _ K). lia.
  - intros b Hb. left. auto.
  - by intros b ?%elem_of_nil.
  - lia.
Qed.

(** A write that touches neither references nor charge. *)
Lemma sound_update {A} h id o o1 f (k : hm A) :
  heap_ok h → h_objects h !! id = Some o → f o = Ok o1 →
  o_bytes o1 = o_bytes o → o_young o1 = o_young o → o_prototype o1 = o_prototype o →
  (∀ b, b ∈ references o1 → b ∈ references o) →
  kind_ok h (o_kind o1) → (owned_bytes o1 <= o_bytes o)%N →
  (∀ h1, heap_ok h1 → h_objects h1 = <[id := o1]> (h_objects h) → sound h1 k) →
  sound h (update_object id f ;; k).
Proof.
  intros K E Ef Eb Ey Epr Href Hk Hown Hc.
  eapply sound_bind.
  { unfold update_object, hupd. rewrite E. cbn. rewrite Ef. cbn. reflexivity. }
  apply Hc; [|done]. apply (heap_ok_write h _ id o o1); try done; cbn.
  - by eapply acyclic_write; [apply K|..].
  - by left.
  - intros b Hb. split; [|left; auto]. apply (ok_closed _ K id). unfold succs. rewrite E.
    apply elem_of_app. left. auto.
  - lia.
  - lia.
  - apply K.
Qed.

Lemma sound_unit h (m : hm unit) : sound h (m ;; mret ()) → sound h m.
Proof.
  intros (h' & r & E & K). unfold mbind, hm_bind in E. unfold sound.
  destruct (m h) as [[h1 [[]|e]]| |]; try discriminate; injection E as <- <-; eauto.
Qed.

(** ** Collections and roots *)
Lemma sound_major {B} protected (k : hm B) h :
  heap_ok h → (∀ id, id ∈ protected → present h id) → (∀ h1, heap_ok h1 → sound h1 k) →
  sound h (hupd (major_gc protected) ;; k).
Proof.
  intros K Hp Hk. destruct (major_gc_spec h protected K Hp) as (h' & dead & E & K' & _).
  eapply sound_bind; [unfold hupd; by rewrite E|auto].
Qed.

Lemma sound_minor {B} protected (k : hm B) h :
  heap_ok h → (∀ id, id ∈ protected → present h id) →
  (∀ h1, heap_ok h1 → (∀ id, id ∈ protected → present h1 id) → h_next_object h1 = h_next_object h → sound h1 k) →
  sound h (hupd (minor_gc protected) ;; k).
Proof.
  intros K Hp Hk. destruct (minor_gc_spec h protected K Hp) as (h' & dead & E & K' & W).
  eapply sound_bind; [unfold hupd; by rewrite E|]. apply Hk; [done| |by apply (sw_same _ _ _ _ W)].
  intros id Hid. apply (swept_present _ _ _ _ _ W). split; [auto|].
  apply minor_keep_root; [auto|]. unfold mark_roots. rewrite !elem_of_app. auto.
Qed.

(** Everything but the roots is untouched. *)
Lemma heap_ok_roots h h' :
  heap_ok h → h_objects h' = h_objects h → h_closure_metadata h' = h_closure_metadata h →
  h_identity h' = h_identity h → h_next_object h' = h_next_object h → h_config h' = h_config h →
  h_nursery h' = h_nursery h → h_remembered h' = h_remembered h → h_managed_bytes h' = h_managed_bytes h →
  h_next_major_bytes h' = h_next_major_bytes h →
  (∀ r id, h_roots h' !! r = Some id → present h id) →
  (∀ r id, h_roots h' !! r = Some id → rid_heap r = h_identity h' ∧ (rid_serial r < h_next_root h')%N) →
  heap_ok h'.
Proof.
  intros K E1 E2 E3 E4 E5 E6 E7 E8 E9 Hr1 Hr2.
  assert (∀ a, succs h' a = succs h a) as Es.
  { intros a. unfold succs, edges, metadata_edges. by rewrite E1, E2. }
  assert (∀ a, present h' a ↔ present h a) as Hp by (intros; unfold present; by rewrite E1).
  split.
  - intros a b. rewrite Es, Hp. apply K.
  - apply (acyclic_mono h); [|apply K]. intros a b. unfold proto_edge. by rewrite E1.
  - intros r id Hr. apply Hp. by apply (Hr1 r).
  - intros id. rewrite E7, Hp. apply K.
  - intros id m. rewrite E2, Hp. apply K.
  - rewrite E6. apply K.
  - intros id. unfold young. rewrite E6, E1. apply K.
  - intros a b. unfold old, young. rewrite E1, Es, E7. apply K.
  - intros id. rewrite Hp, E3, E4. apply K.
  - done.
  - rewrite E8, (ok_charge _ K). unfold heap_bytes. by rewrite E1, E2.
  - rewrite E1. apply K.
  - intros id o. rewrite E1. intros Ho. eapply kind_ok_present; [intros; by apply Hp|]. by apply (ok_kinds _ K id).
  - rewrite E8, E5. apply K.
  - rewrite E9, E5. apply K.
  - rewrite E5. apply K.
Qed.

Lemma root_sound h id : heap_ok h → sound h (root id).
Proof.
  intros K. apply sound_read; [done|]. intros o Ho%object_present.
  apply sound_read; [done|]. intros next Hn.
  eexists _, (HOk _). split; [reflexivity|]. apply (heap_ok_roots h); try done.
  - cbn. intros r a [[_ <-]|[_ Hr]]%lookup_insert_Some; [by exists o|by apply (ok_roots _ K r)].
  - cbn. unfold ok_or, checked_usize in Hn. destruct (_ <=? _)%N; [|done]. injection Hn as <-.
    intros r a [[<- _]|[_ Hr]]%lookup_insert_Some; cbn; [lia|].
    pose proof (ok_root_ids _ K r a Hr). lia.
Qed.

Lemma unroot_sound h r : heap_ok h → sound h (unroot r).
Proof.
  intros K. apply sound_read; [done|]. intros id Hr.
  eexists _, (HOk _). split; [reflexivity|]. apply (heap_ok_roots h); try done.
  - cbn. intros r' a [_ Hr']%lookup_delete_Some. by apply (ok_roots _ K r').
  - cbn. intros r' a [_ Hr']%lookup_delete_Some. by apply (ok_root_ids _ K r' a).
Qed.

Lemma scoped_sound h f : heap_ok h → sound h (hmod (λ h, h_set_scoped_roots (f h) h)).
Proof. intros K. eexists _, (HOk _). split; [reflexivity|]. apply (heap_ok_roots h); try done; apply K. Qed.

(** ** Allocation *)

(** What an allocation relies on: the references of the new slots are there, and the slots that
    start empty are empty. *)
Record alloc_ok (h : Heap) (k : ObjectKind) : Prop := {
  al_refs b : b ∈ kind_references k → present h b;
  al_kind h' : kind_ok h' k;
  al_owned : (owned_kind_bytes k <= OBJECT_BYTES + allocation_bytes k)%N;
}.

Lemma new_object_references k proto bytes :
  references (new_object k proto bytes) = option_list proto ++ kind_references k.
Proof. unfold references, object_ids. cbn. by rewrite !map_to_list_empty. Qed.

Lemma new_object_owned k proto bytes : owned_bytes (new_object k proto bytes) = owned_kind_bytes k.
Proof. unfold owned_bytes. cbn. rewrite !isum_empty. lia. Qed.

Lemma lookup_fresh h (id : ObjectId) :
  heap_ok h → oid_heap id = h_identity h → (h_next_object h <= oid_serial id)%N → h_objects h !! id = None.
Proof.
  intros K E1 E2. destruct (h_objects h !! id) as [o|] eqn:E; [|done].
  destruct (ok_ids _ K id) as [_ ?]; [by exists o|]. lia.
Qed.

Lemma heap_ok_alloc h k proto id bytes :
  heap_ok h → id = mkObjectId (h_identity h) (h_next_object h) →
  (∀ b, b ∈ option_list proto ++ kind_references k → present h b) →
  (∀ h', kind_ok h' k) → (owned_kind_bytes k <= bytes)%N →
  (h_managed_bytes h + bytes <= max_heap_bytes (h_config h))%N →
  heap_ok (h_set_managed_bytes (h_managed_bytes h + bytes)%N
    (h_set_nursery (h_nursery h ++ [id])
      (h_set_objects (<[id := new_object k proto bytes]> (h_objects h))
        (h_set_next_object (h_next_object h + 1)%N h)))).
Proof.
  intros K Eid Href Hk Hown Hmax. set (o := new_object k proto bytes). set (h' := h_set_managed_bytes _ _).
  assert (h_objects h !! id = None) as Hfresh by (apply lookup_fresh; subst id; cbn; (done || lia)).
  assert (∀ a oa, h_objects h' !! a = Some oa ↔ (a = id ∧ oa = o) ∨ (a ≠ id ∧ h_objects h !! a = Some oa)) as Hlk.
  { intros a oa. cbn. rewrite lookup_insert_Some. naive_solver. }
  assert (∀ a, present h a → present h' a) as Hp.
  { intros a [oa Ea]. exists oa. apply Hlk. right. split; [congruence|done]. }
  assert (∀ a, present h' a → present h a ∨ a = id) as Hp'.
  { intros a [oa [[-> _]|[_ Ea]]%Hlk]; [by right|left; by exists oa]. }
  assert (h_closure_metadata h !! id = None) as Hm.
  { destruct (h_closure_metadata h !! id) as [m|] eqn:Em; [|done].
    destruct (ok_metadata _ K id m Em) as [? ?]. congruence. }
  assert (∀ a b, b ∈ succs h' a → (a = id ∧ b ∈ option_list proto ++ kind_references k) ∨ b ∈ succs h a) as Hs.
  { intros a b. unfold succs. destruct (h_objects h' !! a) as [oa|] eqn:Ea; [|by intros ?%elem_of_nil].
    apply Hlk in Ea as [[-> ->]|[Hne Ea]].
    - unfold edges, metadata_edges. cbn [h' h_closure_metadata h_set_managed_bytes h_set_nursery h_set_objects h_set_next_object].
      rewrite Hm, app_nil_r. unfold o. rewrite new_object_references. auto.
    - rewrite Ea. auto. }
  split.
  - intros a b [[-> Hb]|Hb]%Hs; apply Hp; [auto|by apply (ok_closed _ K a)].
  - assert (∀ a b, proto_edge h' a b → (a = id ∧ proto = Some b) ∨ proto_edge h a b) as Hpe.
    { intros a b (oa & [[-> ->]|[_ Ea]]%Hlk & Ep); [by left|right; by exists oa]. }
    assert (∀ a b, tc (proto_edge h') a b → b ≠ id) as Hnid.
    { intros a b Hab. induction Hab as [a b Hab|]; [|done]. intros ->.
      assert (present h id) as [? ?]; [|congruence].
      apply Hpe in Hab as [[_ ->]|(oa & Ea & Ep)]; [apply Href, elem_of_app; left; constructor|].
      apply (ok_closed _ K a). unfold succs. rewrite Ea. unfold edges, references.
      rewrite Ep. cbn. constructor. }
    assert (∀ a b, tc (proto_edge h') a b → a ≠ id → tc (proto_edge h) a b) as Htc.
    { intros a b Hab. induction Hab as [a b Hab|a b c Hab Hbc IH]; intros Hne.
      - apply Hpe in Hab as [[-> _]|?]; [done|by apply tc_once].
      - assert (b ≠ id) by (apply (Hnid a); by apply tc_once).
        apply Hpe in Hab as [[-> _]|?]; [done|]. eapply tc_l; [done|auto]. }
    intros a Ha. apply (ok_acyclic _ K a). apply Htc; [done|by eapply Hnid].
  - intros r a Hr. apply Hp. by apply (ok_roots _ K r).
  - intros a Ha. apply Hp. by apply (ok_remembered _ K).
  - intros a m Ha. apply Hp. by apply (ok_metadata _ K a m).
  - cbn. apply NoDup_app. split_and!; [apply K| |apply NoDup_singleton].
    intros a Ha ->%list_elem_of_singleton. apply (ok_young _ K) in Ha as (? & ? & _). congruence.
  - intros a. cbn [h' h_nursery h_set_managed_bytes h_set_nursery]. rewrite elem_of_app, list_elem_of_singleton, (ok_young _ K). split.
    + intros [(oa & Ea & Ey)| ->]; [exists oa|exists o]; (split; [apply Hlk|done]).
      * right. split; [congruence|done].
      * by left.
    + intros (oa & [[-> ->]|[_ Ea]]%Hlk & Ey); [by right|left; by exists oa].
  - intros a b (oa & [[-> ->]|[Hne Ea]]%Hlk & Ey) Hb Hyb; [done|].
    apply Hs in Hb as [[-> _]|Hb]; [done|]. apply (ok_barrier _ K a b); [by exists oa|done|].
    destruct (ok_closed _ K a b Hb) as [ob Eob]. exists ob. split; [done|].
    destruct Hyb as (ob' & [[-> _]|[_ ?]]%Hlk & ?); congruence.
  - intros a [Ha| ->]%Hp'; cbn.
    + pose proof (ok_ids _ K a Ha). lia.
    + subst id. cbn. lia.
  - apply (ok_root_ids _ K).
  - unfold heap_bytes. cbn. rewrite msum_insert by done. rewrite (ok_charge _ K). unfold heap_bytes. cbn. lia.
  - intros a oa [[-> ->]|[_ Ea]]%Hlk; [unfold o; by rewrite new_object_owned|by apply (ok_owned _ K a)].
  - intros a oa [[-> ->]|[_ Ea]]%Hlk; [apply Hk|]. eapply kind_ok_present; [exact Hp|]. by apply (ok_kinds _ K a).
  - done.
  - apply (ok_trigger _ K).
  - apply (ok_usize _ K).
Qed.

Lemma collected_next h h' protected : collected h h' protected → h_next_object h' = h_next_object h.
Proof. intros [->|[dead W]]; [done|]. apply (sw_same _ _ _ _ W). Qed.

(** The end of an allocation, once there is room. *)
Definition alloc_tail (k : ObjectKind) (proto : option ObjectId) (bytes next : N) : hm ObjectId :=
  id ← hget (λ h, mkObjectId (h_identity h) (h_next_object h));
  hmod (h_set_next_object next);;
  hmod (λ h, h_set_objects (<[id := new_object k proto bytes]> (h_objects h)) h);;
  hmod (λ h, h_set_nursery (h_nursery h ++ [id]) h);;
  recharge 0 bytes;;
  mret id.

Lemma alloc_tail_sound h k proto bytes next :
  heap_ok h → next = (h_next_object h + 1)%N →
  (∀ b, b ∈ allocation_references k proto → present h b) →
  (∀ h', kind_ok h' k) → (owned_kind_bytes k <= bytes)%N →
  (h_managed_bytes h + bytes <= max_heap_bytes (h_config h))%N →
  sound h (alloc_tail k proto bytes next).
Proof.
  intros K -> Href Hk Hown Hmax.
  pose proof (heap_ok_alloc h k proto _ bytes K eq_refl Href Hk Hown Hmax) as K'.
  eexists _, (HOk _). split; [|exact K'].
  unfold alloc_tail. pose proof (ok_usize _ K).
  unfold mbind, hm_bind, hget, hmod, recharge, hupd, mret, hm_ret. cbn.
  rewrite checked_sub_N_Ok by lia. cbn. unfold checked_add_N.
  rewrite (proj2 (N.leb_le _ _)) by lia. cbn. by rewrite N.sub_0_r.
Qed.

Lemma alloc_sound h k proto : heap_ok h → alloc_ok h k → sound h (alloc k proto).
Proof.
  intros K [Href Hk Hown]. unfold alloc. fold (check_ref (H := H) proto).
  apply sound_check; [done|]. intros Hproto. apply sound_read; [done|]. intros next Hn.
  assert (next = h_next_object h + 1)%N as ->.
  { unfold ok_or, checked_usize in Hn. destruct (_ <=? _)%N; [|done]. by injection Hn. }
  assert (∀ b, b ∈ allocation_references k proto → present h b) as Href'.
  { unfold allocation_references. intros b [Hb|Hb]%elem_of_app; [|auto].
    apply Hproto. by destruct proto; cbn in Hb; [apply list_elem_of_singleton in Hb as ->|apply elem_of_nil in Hb]. }
  apply sound_get. clear Hproto Href Hn.
  assert (∀ h1, heap_ok h1 → (∀ b, b ∈ allocation_references k proto → present h1 b) →
    h_next_object h1 = h_next_object h →
    sound h1 (tight ← hget (λ h, match checked_usize (h_managed_bytes h + (OBJECT_BYTES + allocation_bytes k)) with
                     | Some total => (h_next_major_bytes h <=? total)%N | None => true end);
              (if tight : bool then ensure_room (OBJECT_BYTES + allocation_bytes k) (allocation_references k proto) else mret ());;
              alloc_tail k proto (OBJECT_BYTES + allocation_bytes k) (h_next_object h + 1))) as Hrest.
  { intros h1 K1 Hp1 Hn1. apply sound_get.
    destruct (match checked_usize _ with Some _ => _ | None => _ end) eqn:Et.
    - apply sound_room; [done|done|]. intros h2 K2 Hc Hroom.
      apply alloc_tail_sound; try done.
      + by rewrite (collected_next _ _ _ Hc), Hn1.
      + intros b Hb. apply (collected_present h1 h2 _ b K1 Hc); auto.
    - apply (sound_bind _ _ h1 h1 ()); [done|]. apply alloc_tail_sound; try done; [by rewrite Hn1|].
      unfold checked_usize in Et. destruct (N.leb_spec (h_managed_bytes h1 + (OBJECT_BYTES + allocation_bytes k)) USIZE_MAX); [|done].
      apply N.leb_gt in Et. pose proof (ok_trigger _ K1). lia. }
  destruct (_ <=? _)%N.
  - apply sound_minor; [done|done|]. intros h1 K1 Hp1 Hn1. by apply Hrest.
  - apply (sound_bind _ _ h h ()); [done|]. by apply Hrest.
Qed.

(** ** Prototypes *)
Lemma prototype_walk_total h id :
  acyclic h → ∀ fuel cur vs,
  NoDup vs → (∀ v, v ∈ vs → present h v) → (∀ v c, v ∈ vs → cur = Some c → tc (proto_edge h) v c) →
  size (h_objects h) < fuel + length vs → prototype_walk fuel h id cur ≠ OutOfFuel.
Proof.
  intros Hac fuel. induction fuel as [|fuel IH]; intros [c|] vs Hnd Hp Ht Hf; cbn; try done.
  - assert (length vs ≤ size (h_objects h)); [|lia].
    rewrite <-size_dom, <-(size_list_to_set (C := gset ObjectId) vs) by done.
    apply subseteq_size. intros v Hv%elem_of_list_to_set. apply elem_of_dom. by apply Hp.
  - case_bool_decide; [done|]. destruct (object h c) as [o|e] eqn:Eo; [|done].
    apply object_present in Eo. apply (IH _ (c :: vs)).
    + constructor; [|done]. intros Hc. apply (Hac c). by apply Ht.
    + intros v [->|?]%elem_of_cons; [by exists o|auto].
    + intros v c' [->|Hv]%elem_of_cons Ep.
      * apply tc_once. by exists o.
      * eapply tc_r; [by apply Ht|]. by exists o.
    + cbn. lia.
Qed.

(** A successful walk saw every ancestor: none is the object. *)
Lemma prototype_walk_ok h id fuel cur :
  prototype_walk fuel h id cur = Ok (HOk ()) →
  (∀ c, cur = Some c → c ≠ id ∧ present h c) ∧ ∀ c x, cur = Some c → tc (proto_edge h) c x → x ≠ id.
Proof.
  revert cur. induction fuel as [|fuel IH]; intros [c|]; cbn; try (by split).
  case_bool_decide as Hc; [done|]. destruct (object h c) as [o|e] eqn:Eo; [|done].
  apply object_present in Eo. intros [IH1 IH2]%IH. split.
  - intros ? [= <-]. split; [done|by exists o].
  - intros ? x [= <-] Hx. inversion Hx as [? ? (o' & ? & Ep)|? y ? (o' & ? & Ep) Hy]; simplify_eq.
    + by apply (IH1 x).
    + by apply (IH2 y).
Qed.

Lemma acyclic_set_prototype h h' id o proto :
  acyclic h → h_objects h !! id = Some o → h_objects h' = <[id := o_set_prototype proto o]> (h_objects h) →
  (∀ c, proto = Some c → c ≠ id) → (∀ c x, proto = Some c → tc (proto_edge h) c x → x ≠ id) → acyclic h'.
Proof.
  intros Hac E Eo H1 H2.
  assert (∀ a b, proto_edge h' a b → (a = id ∧ proto = Some b) ∨ (a ≠ id ∧ proto_edge h a b)) as Hpe.
  { intros a b (oa & Ea & Ep). rewrite Eo in Ea. destruct (decide (a = id)) as [->|].
    - rewrite lookup_insert_eq in Ea. simplify_eq. by left.
    - rewrite lookup_insert_ne in Ea by done. right. split; [done|by exists oa]. }
  (* a path in the new graph avoids [id], or reaches it first along old edges *)
  assert (∀ a b, tc (proto_edge h') a b → a ≠ id →
    tc (proto_edge h) a b ∨ tc (proto_edge h) a id) as Hpath.
  { intros a b Hab. induction Hab as [a b Hab|a b c Hab _ IH]; intros Hne.
    - apply Hpe in Hab as [[-> _]|[_ ?]]; [done|left; by apply tc_once].
    - apply Hpe in Hab as [[-> _]|[_ Hab]]; [done|]. destruct (decide (b = id)) as [->|Hb].
      + right. by apply tc_once.
      + destruct (IH Hb) as [?|?]; [left|right]; by eapply tc_l. }
  assert (¬ tc (proto_edge h') id id) as Hid.
  { intros Ht. inversion Ht as [? ? Hb|? b ? Hb Hrest]; subst.
    - apply Hpe in Hb as [[_ Ep]|[? _]]; [|done]. by apply (H1 id).
    - apply Hpe in Hb as [[_ Ep]|[? _]]; [|done].
      assert (b ≠ id) as Hb by (by apply H1). destruct (Hpath b id Hrest Hb) as [Hx|Hx]; by apply (H2 b id). }
  (* a cycle elsewhere is an old one, or goes through [id] *)
  assert (∀ a b, tc (proto_edge h') a b → a ≠ id →
    tc (proto_edge h) a b ∨ (tc (proto_edge h') a id ∧ (b = id ∨ tc (proto_edge h') id b))) as Hthrough.
  { intros a b Hab. induction Hab as [a b Hab|a b c Hab Hbc IH]; intros Hne.
    - apply Hpe in Hab as [[-> _]|[_ ?]]; [done|left; by apply tc_once].
    - pose proof Hab as Hab'. apply Hpe in Hab as [[-> _]|[_ Hab]]; [done|].
      destruct (decide (b = id)) as [->|Hb]; [right; split; [by apply tc_once|by right]|].
      destruct (IH Hb) as [?|[? ?]]; [left; by eapply tc_l|right; split; [by eapply tc_l|done]]. }
  intros a Ha. destruct (decide (a = id)) as [->|Hne]; [done|].
  destruct (Hthrough a a Ha Hne) as [Hx|[Hx [->|Hy]]]; [by apply (Hac a)|done|].
  apply Hid. by eapply tc_transitive.
Qed.

Lemma set_prototype_sound h id proto : heap_ok h → sound h (set_prototype id proto).
Proof.
  intros K. apply sound_read; [done|]. intros o E%object_present.
  destruct (_ && _); [by apply sound_fail|].
  destruct (prototype_walk (S (size (h_objects h))) h id proto) as [[[]|e]| |] eqn:Ew.
  - destruct (prototype_walk_ok _ _ _ _ Ew) as [W1 W2].
    destruct (is_barrier_one id proto h) as (R & [] & Eb & S1 & T1 & U1); [by exists o| |].
    { intros b. destruct proto as [c|]; cbn; [intros ->%list_elem_of_singleton; by apply W1|by intros ?%elem_of_nil]. }
    unfold barrier in Eb.
    eapply sound_bind; [cbv beta; rewrite Ew; reflexivity|]. eapply sound_bind; [exact Eb|].
    eapply sound_bind; [done|].
    eexists _, (HOk ()). split; [unfold update_object, hupd; cbn; rewrite E; reflexivity|].
    apply (heap_ok_write h _ id o (o_set_prototype proto o)); try done.
    + eapply acyclic_set_prototype; [apply K|done|done| |done]. intros c Hc. by apply W1.
    + intros b. unfold references. cbn. rewrite !elem_of_app. intros [Hb|Hb].
      * destruct proto as [c|]; [|by apply elem_of_nil in Hb]. apply list_elem_of_singleton in Hb as ->.
        split; [by apply W1|]. right. intros Hy Hyb. cbn. apply (U1 c); [constructor|by exists o|done].
      * split; [|left; auto]. apply (ok_closed _ K id). unfold succs. rewrite E.
        unfold edges, references. rewrite !elem_of_app. auto.
    + cbn. by apply (ok_kinds _ K id).
    + apply (ok_owned _ K id o E).
    + cbn. apply K.
  - eexists h, (HErr e). split; [|done]. apply hbind_err. cbv beta. by rewrite Ew.
  - exfalso. revert Ew. generalize (S (size (h_objects h))). intros n. revert proto.
    induction n as [|n IH]; intros [c|]; cbn; try done. case_bool_decide; [done|].
    destruct (object h c); [apply IH|done].
  - exfalso. revert Ew. apply (prototype_walk_total h id (ok_acyclic _ K) _ _ []); cbn.
    + constructor.
    + by intros ? ?%elem_of_nil.
    + by intros ? ? ?%elem_of_nil.
    + lia.
Qed.

Lemma prevent_extensions_sound h id : heap_ok h → sound h (prevent_extensions id).
Proof.
  intros K. apply sound_read; [done|]. intros o E%object_present.
  eexists _, (HOk ()). split; [reflexivity|].
  apply (heap_ok_write h _ id o (o_set_extensible false o)); try done; cbn; try lia.
  - by eapply acyclic_write; [apply K|..].
  - by left.
  - intros b Hb. split; [|by left]. apply (ok_closed _ K id). unfold succs. rewrite E. apply elem_of_app. by left.
  - by apply (ok_kinds _ K id).
  - apply (ok_owned _ K id o E).
  - apply K.
Qed.

End inv.
