(* ===== verification/JsHeapRun.v ===== *)
(** * Runs of heap operations

    Every operation of the heap, called with handles that name live objects where the code does
    not check them itself, returns without a panic and preserves the invariant; so does every
    run. *)

From S2P Require Import Prelude Float JsValue JsObject JsCollection JsCollectionProps JsHeap JsMark JsGc JsCore JsSlots JsHeapInv.

Section run.
Context {H : JsHost}.

(** ** Charges and references of collections *)
Definition entries_bytes (l : list (Value * Value)) : N := sumN ((λ e, map_entry_bytes e.1 e.2) <$> l).

Lemma same_value_zero_payload a b :
  same_value_zero a b = true → wf_value a → wf_value b → payload_bytes a = payload_bytes b.
Proof.
  intros E%same_value_zero_spec Wa Wb. destruct a, b; cbn in *; try done; try congruence.
  injection E as E. rewrite (Wa _ eq_refl), (Wb _ eq_refl). by rewrite E.
Qed.

Lemma assoc_get_some key l e : assoc_get key l = Some e → e ∈ l ∧ same_value_zero e.1 key = true.
Proof.
  induction l as [|x l IH]; cbn; [done|]. destruct (same_value_zero x.1 key) eqn:Ex.
  - intros [= <-]. split; [constructor|done].
  - intros [? ?]%IH. split; [by constructor|done].
Qed.

Definition entry_bytes_of (e : option (Value * Value)) : N :=
  match e with Some e => map_entry_bytes e.1 e.2 | None => 0 end.

Lemma assoc_set_bytes key value l :
  (entries_bytes (assoc_set key value l) + entry_bytes_of (assoc_get key l)
   = entries_bytes l + map_entry_bytes key value)%N.
Proof.
  unfold entries_bytes. induction l as [|e l IH]; cbn; [lia|].
  destruct (same_value_zero e.1 key); cbn; lia.
Qed.

Lemma assoc_delete_bytes key l :
  (entries_bytes (assoc_delete key l) + entry_bytes_of (assoc_get key l) = entries_bytes l)%N.
Proof.
  unfold entries_bytes. induction l as [|e l IH]; cbn; [done|].
  destruct (same_value_zero e.1 key); cbn; lia.
Qed.

Lemma assoc_set_elem key value l e : e ∈ assoc_set key value l → e ∈ l ∨ e = (key, value).
Proof.
  induction l as [|x l IH]; cbn; [intros ->%list_elem_of_singleton; by right|].
  destruct (same_value_zero x.1 key); rewrite !elem_of_cons; naive_solver.
Qed.

Lemma assoc_delete_elem key l e : e ∈ assoc_delete key l → e ∈ l.
Proof.
  induction l as [|x l IH]; cbn; [done|].
  destruct (same_value_zero x.1 key); rewrite !elem_of_cons; naive_solver.
Qed.

Definition entry_refs (e : Value * Value) : list ObjectId :=
  option_list (object_id e.1) ++ option_list (object_id e.2).

Lemma oc_references_elem c b : b ∈ oc_references c ↔ ∃ e, e ∈ live_entries c ∧ b ∈ entry_refs e.
Proof.
  unfold oc_references. rewrite list_elem_of_join. split.
  - intros (l & Hb & (e & -> & He)%list_elem_of_fmap). by exists e.
  - intros (e & He & Hb). exists (entry_refs e). split; [done|]. apply list_elem_of_fmap. by exists e.
Qed.

Lemma object_id_elem v b : b ∈ option_list (object_id v) ↔ object_id v = Some b.
Proof. destruct (object_id v); cbn; [rewrite list_elem_of_singleton|rewrite elem_of_nil]; naive_solver. Qed.

Lemma option_list_elem {A} (o : option A) b : b ∈ option_list o ↔ o = Some b.
Proof. destruct o; cbn; [rewrite list_elem_of_singleton|rewrite elem_of_nil]; naive_solver. Qed.

(** References of an object whose kind is replaced. *)
Lemma references_set_kind o k b :
  b ∈ references (o_set_kind k o) → b ∈ references o ∨ b ∈ kind_references k.
Proof. unfold references. cbn. rewrite !elem_of_app. tauto. Qed.

Lemma kind_references_elem o b : b ∈ kind_references (o_kind o) → b ∈ references o.
Proof. unfold references. rewrite !elem_of_app. tauto. Qed.

Lemma references_new_kind o k (refs : list ObjectId) b :
  (∀ b, b ∈ kind_references k → b ∈ kind_references (o_kind o) ∨ b ∈ refs) →
  b ∈ references (o_set_kind k o) → b ∈ references o ∨ b ∈ refs.
Proof.
  intros Hk [?|Hb]%references_set_kind; [by left|]. destruct (Hk b Hb) as [?|?]; [left|by right].
  by apply kind_references_elem.
Qed.

Lemma owned_set_kind k o :
  (owned_bytes (o_set_kind k o) + owned_kind_bytes (o_kind o) = owned_bytes o + owned_kind_bytes k)%N.
Proof. unfold owned_bytes. cbn. lia. Qed.

(** A write that replaces the kind. *)
Lemma sound_write_kind_at {A} h id o k f old new refs (t : hm A) :
  heap_ok h → h_objects h !! id = Some o → f o = recharge_object old new (o_set_kind k o) →
  (old <= owned_kind_bytes (o_kind o))%N → (h_managed_bytes h + new <= max_heap_bytes (h_config h) + old)%N →
  (owned_kind_bytes k + old <= owned_kind_bytes (o_kind o) + new)%N →
  (∀ b, b ∈ kind_references k → b ∈ kind_references (o_kind o) ∨ b ∈ refs) → (∀ b, b ∈ refs → present h b) →
  kind_ok h k → is_barrier_at h t id refs →
  sound h (update_object id f ;; recharge old new ;; t).
Proof.
  intros K E Ef Hold Hmax Hown Href Hp Hk Ht. pose proof (ok_owned _ K id o E). pose proof (owned_set_kind k o).
  assert (owned_kind_bytes (o_kind o) <= owned_bytes o)%N by (unfold owned_bytes; lia).
  apply (sound_write_at h id o (o_set_kind k o) f old new refs t); try done; try lia.
  intros b. by apply references_new_kind.
Qed.

Lemma is_barrier_at_of {A} h (t : hm A) id refs : is_barrier t id refs → is_barrier_at h t id refs.
Proof. intros Ht ? ? ? _ _ _. by apply Ht. Qed.

Lemma sound_write_kind {A} h id o k f old new refs (t : hm A) :
  heap_ok h → h_objects h !! id = Some o → f o = recharge_object old new (o_set_kind k o) →
  (old <= owned_kind_bytes (o_kind o))%N → (h_managed_bytes h + new <= max_heap_bytes (h_config h) + old)%N →
  (owned_kind_bytes k + old <= owned_kind_bytes (o_kind o) + new)%N →
  (∀ b, b ∈ kind_references k → b ∈ kind_references (o_kind o) ∨ b ∈ refs) → (∀ b, b ∈ refs → present h b) →
  kind_ok h k → is_barrier t id refs →
  sound h (update_object id f ;; recharge old new ;; t).
Proof. intros. apply (sound_write_kind_at h id o k f old new refs t); try done. by apply is_barrier_at_of. Qed.

Lemma sound_release_kind {A} h id o k f old (t : hm A) :
  heap_ok h → h_objects h !! id = Some o → f o = recharge_object old 0 (o_set_kind k o) →
  (owned_kind_bytes k + old <= owned_kind_bytes (o_kind o))%N →
  (∀ b, b ∈ kind_references k → b ∈ kind_references (o_kind o)) →
  kind_ok h k → is_barrier t id [] →
  sound h (update_object id f ;; recharge old 0 ;; t).
Proof.
  intros K E Ef Hown Href Hk Ht. pose proof (ok_budget _ K).
  apply (sound_write_kind h id o k f old 0 [] t); try done; try lia; [auto|by intros b ?%elem_of_nil].
Qed.

(** ** Map and Set *)
Lemma kind_of_ok h id k : kind_of h id = HOk k → ∃ o, h_objects h !! id = Some o ∧ o_kind o = k.
Proof.
  unfold kind_of, object. destruct (h_objects h !! id) as [o|]; cbn; [|done]. intros [= <-]. by exists o.
Qed.

Lemma map_entries_ok h id c : map_entries h id = HOk c → ∃ o, h_objects h !! id = Some o ∧ o_kind o = KMap c.
Proof.
  unfold map_entries. destruct (kind_of h id) as [k|] eqn:Ek; cbn; [|done].
  apply kind_of_ok in Ek as (o & ? & <-). destruct (o_kind o) eqn:Eo; try done. intros [= <-]. by exists o.
Qed.

Lemma set_entries_ok h id c : set_entries h id = HOk c → ∃ o, h_objects h !! id = Some o ∧ o_kind o = KSet c.
Proof.
  unfold set_entries. destruct (kind_of h id) as [k|] eqn:Ek; cbn; [|done].
  apply kind_of_ok in Ek as (o & ? & <-). destruct (o_kind o) eqn:Eo; try done. intros [= <-]. by exists o.
Qed.

Lemma wf_normalize key : wf_value key → wf_value (normalize_collection_key key).
Proof. destruct key; cbn; try done. by destruct (f64_eqb _ _). Qed.

Lemma normalize_object_id key : object_id (normalize_collection_key key) = object_id key.
Proof. destruct key; cbn; try done. by destruct (f64_eqb _ _). Qed.

(** The charge of the entry a key would replace. *)
Lemma old_bytes_spec c key :
  wf_collection c → (∀ e, e ∈ live_entries c → wf_value e.1) → wf_value key →
  match snd <$> assoc_get key (live_entries c) with Some v => map_entry_bytes key v | None => 0%N end
  = entry_bytes_of (assoc_get key (live_entries c)).
Proof.
  intros W Hw Hk. destruct (assoc_get key (live_entries c)) as [[k v]|] eqn:E; cbn; [|done].
  apply assoc_get_some in E as [He Es]. unfold map_entry_bytes.
  by rewrite (same_value_zero_payload k key Es (Hw _ He) Hk).
Qed.

Lemma map_set_sound h id key value :
  heap_ok h → wf_value key → sound h (map_set id key value).
Proof.
  intros K Hk%wf_normalize. unfold map_set. set (nk := normalize_collection_key key) in *.
  apply sound_check; [done|]. intros Hpk. apply sound_check; [done|]. intros Hpv.
  apply sound_read; [done|]. intros c (o & E & Ek)%map_entries_ok.
  pose proof (ok_kinds _ K id o E) as Hko. rewrite Ek in Hko. destruct Hko as [W Hw].
  unfold old_entry_bytes. eapply sound_bind.
  { erewrite hbind_ok; [reflexivity|]. unfold hres. by rewrite (oc_get_spec c nk W). }
  rewrite (old_bytes_spec c nk W Hw Hk).
  set (old := entry_bytes_of _). set (refs := option_list (object_id nk) ++ option_list (object_id value)).
  assert (∀ b, b ∈ id :: refs → present h b) as Hrefs.
  { intros b [->|[Hb%object_id_elem|Hb%object_id_elem]%elem_of_app]%elem_of_cons; [by exists o|auto..]. }
  apply sound_room; [done|done|]. intros h1 K1 Hc Hroom.
  destruct (collected_plain h h1 _ id o K Hc (list_elem_of_here _ _) E) as [y E1]; [by rewrite Ek|].
  destruct (oc_set_spec c nk value W) as (c' & Es & W' & El).
  pose proof (assoc_set_bytes nk value (live_entries c)) as Hb. fold old in Hb.
  pose proof (assoc_delete_bytes nk (live_entries c)) as Hd. fold old in Hd.
  change (oc_bytes c) with (entries_bytes (live_entries c)) in *.
  apply (sound_write_kind h1 id (o_set_young y o) (KMap c') _ old _ refs); try done.
  - unfold write_entries. cbn. rewrite Ek, Es. done.
  - cbn. rewrite Ek. cbn. change (oc_bytes c) with (entries_bytes (live_entries c)). lia.
  - unfold saturating_sub in Hroom. lia.
  - cbn. rewrite Ek. cbn. change (oc_bytes c) with (entries_bytes (live_entries c)).
    change (oc_bytes c') with (entries_bytes (live_entries c')). rewrite El. lia.
  - cbn. rewrite Ek. intros b (e & He & Hbe)%oc_references_elem. rewrite El in He.
    apply assoc_set_elem in He as [He| ->]; [left; apply oc_references_elem; by exists e|by right].
  - intros b Hb'. apply (collected_present h h1 _ b K Hc); [by constructor|apply Hrefs; by constructor].
  - cbn. split; [done|]. rewrite El. intros e [He| ->]%assoc_set_elem; [by apply Hw|done].
  - apply is_barrier_seq; apply is_barrier_one.
Qed.

Lemma map_entry_bytes_undefined k v : (map_entry_bytes k VUndefined <= map_entry_bytes k v)%N.
Proof. unfold map_entry_bytes. cbn. lia. Qed.

(** The write of [set_add], with room for a new element. *)
Lemma set_write_sound h id key o c :
  heap_ok h → h_objects h !! id = Some o → o_kind o = KSet c → wf_value key →
  (∀ b, object_id key = Some b → present h b) →
  (assoc_get key (live_entries c) = None → (h_managed_bytes h + map_entry_bytes key VUndefined <= max_heap_bytes (h_config h))%N) →
  sound h (entries ← hexpect (hread (λ h, set_entries h id));
           r ← hres (oc_set entries key VUndefined);
           let grown := match r.2 with None => map_entry_bytes key VUndefined | Some _ => 0%N end in
           update_object id (write_entries false 0 grown (λ _, Ok r.1));;
           recharge 0 grown;;
           barrier id (object_id key)).
Proof.
  intros K E Ek Hk Hp Hroom. pose proof (ok_kinds _ K id o E) as Hko. rewrite Ek in Hko. destruct Hko as [W Hw].
  eapply sound_bind.
  { unfold hexpect, hread. unfold set_entries, kind_of, object. rewrite E. cbn. rewrite Ek. reflexivity. }
  destruct (oc_set_spec c key VUndefined W) as (c' & Es & W' & El). eapply sound_res; [exact Es|]. cbv zeta. cbn [snd fst].
  pose proof (assoc_set_bytes key VUndefined (live_entries c)) as Hb. rewrite <-El in Hb.
  set (grown := match assoc_get key _ with None => _ | Some _ => _ end).
  assert (entries_bytes (live_entries c') <= entries_bytes (live_entries c) + grown)%N as Hgrow.
  { subst grown. destruct (assoc_get key (live_entries c)) as [[k v]|] eqn:Eg; cbn in Hb; [|lia].
    apply assoc_get_some in Eg as [Hin Es']. apply (same_value_zero_payload k key) in Es'; [|by apply (Hw _ Hin)|done].
    pose proof (map_entry_bytes_undefined k v).
    assert (map_entry_bytes k VUndefined = map_entry_bytes key VUndefined) by (unfold map_entry_bytes; by rewrite Es').
    lia. }
  apply (sound_write_kind h id o (KSet c') _ 0 grown (option_list (object_id key))); try done.
  - unfold write_entries. rewrite Ek. done.
  - lia.
  - pose proof (ok_budget _ K). subst grown. destruct (assoc_get _ _); [lia|]. specialize (Hroom eq_refl). lia.
  - rewrite Ek. cbn. change (oc_bytes c) with (entries_bytes (live_entries c)).
    change (oc_bytes c') with (entries_bytes (live_entries c')). lia.
  - rewrite Ek. cbn. intros b (e & He & Hbe)%oc_references_elem. rewrite El in He.
    apply assoc_set_elem in He as [He| ->]; [left; apply oc_references_elem; by exists e|right].
    unfold entry_refs in Hbe. cbn in Hbe. by rewrite app_nil_r in Hbe.
  - intros b Hb'%object_id_elem. auto.
  - cbn. split; [done|]. rewrite El. intros e [He| ->]%assoc_set_elem; [by apply Hw|done].
  - apply is_barrier_one.
Qed.

Lemma set_add_sound h id key : heap_ok h → wf_value key → sound h (set_add id key).
Proof.
  intros K Hk%wf_normalize. unfold set_add. set (nk := normalize_collection_key key) in *.
  apply sound_check; [done|]. intros Hpk. apply sound_read; [done|]. intros c (o & E & Ek)%set_entries_ok.
  pose proof (ok_kinds _ K id o E) as Hko. rewrite Ek in Hko. destruct Hko as [W Hw].
  eapply sound_res; [by apply oc_has_spec|]. case_bool_decide as Hs.
  - apply (sound_bind _ _ h h ()); [done|]. apply (set_write_sound h id nk o c); try done.
    intros En. rewrite En in Hs. by destruct Hs.
  - apply sound_room; [done| |].
    { intros b [->|Hb%object_id_elem]%elem_of_cons; [by exists o|auto]. }
    intros h1 K1 Hc Hroom.
    destruct (collected_plain h h1 _ id o K Hc (list_elem_of_here _ _) E) as [y E1]; [by rewrite Ek|].
    apply (set_write_sound h1 id nk (o_set_young y o) c); try done.
    intros b Hb. apply (collected_present h h1 _ b K Hc); [|auto]. constructor. by apply object_id_elem.
Qed.

(** A collection without one of its entries. *)
Lemma oc_delete_kind is_map k c key c' e :
  k = (if is_map : bool then KMap c else KSet c) →
  wf_collection c → wf_collection c' → live_entries c' = assoc_delete key (live_entries c) →
  assoc_get key (live_entries c) = Some e →
  (∀ e, e ∈ live_entries c → wf_value e.1) →
  let k' := if is_map then KMap c' else KSet c' in
  (owned_kind_bytes k' + map_entry_bytes e.1 e.2 <= owned_kind_bytes k)%N
  ∧ (∀ b, b ∈ kind_references k' → b ∈ kind_references k) ∧ (∀ h, kind_ok h k').
Proof.
  intros -> W W' El Eg Hw k'. pose proof (assoc_delete_bytes key (live_entries c)) as Hb. rewrite Eg, <-El in Hb. cbn in Hb.
  assert (∀ b, b ∈ oc_references c' → b ∈ oc_references c) as Hr.
  { intros b (x & Hx & ?)%oc_references_elem. rewrite El in Hx. apply assoc_delete_elem in Hx.
    apply oc_references_elem. by exists x. }
  assert (∀ e, e ∈ live_entries c' → wf_value e.1) by (rewrite El; intros x Hx%assoc_delete_elem; auto).
  subst k'. destruct is_map; split_and!; try done; cbn; change (oc_bytes c) with (entries_bytes (live_entries c));
    change (oc_bytes c') with (entries_bytes (live_entries c')); lia.
Qed.

Lemma collection_delete_sound h is_map id key : heap_ok h → sound h (collection_delete is_map id key).
Proof.
  intros K. apply sound_read; [done|]. intros o E%object_present. apply sound_read; [done|]. intros c Hc.
  assert (o_kind o = if is_map then KMap c else KSet c) as Ek.
  { destruct (o_kind o), is_map; try done; injection Hc as ->; done. }
  assert (wf_collection c ∧ ∀ e, e ∈ live_entries c → wf_value e.1) as [W Hw].
  { pose proof (ok_kinds _ K id o E) as Hko. rewrite Ek in Hko. by destruct is_map. }
  destruct (oc_delete_spec c key W) as (c' & Es & W' & El). eapply sound_res; [exact Es|]. cbn [fst snd].
  destruct (assoc_get key (live_entries c)) as [e|] eqn:Eg; [|by apply sound_ret].
  destruct (oc_delete_kind is_map _ c key c' e Ek W W' El Eg Hw) as (Hb & Hr & Hok).
  destruct e as [sk sv]. cbn in Hb.
  apply (sound_release_kind h id o (if is_map then KMap c' else KSet c')); try done; [|apply is_barrier_ret].
  unfold write_entries. rewrite Ek. by destruct is_map.
Qed.

(** The charge may come last. *)
Lemma sound_recharge_last h (m : hm unit) old new :
  sound h (m ;; recharge old new ;; mret ()) → sound h (m ;; recharge old new).
Proof.
  intros (h' & r & E & K). unfold sound. unfold mbind, hm_bind in *.
  destruct (m h) as [[h1 [[]|e]]| |]; try discriminate; [|by exists h', r].
  destruct (recharge old new h1) as [[h2 [[]|e]]| |]; try discriminate; injection E as <- <-; eauto.
Qed.

Lemma clear_kind_sound h is_map id o c :
  heap_ok h → h_objects h !! id = Some o → o_kind o = (if is_map : bool then KMap c else KSet c) →
  sound h (update_object id (write_entries is_map (oc_bytes c) 0 (λ c, Ok (oc_clear c)));; recharge (oc_bytes c) 0).
Proof.
  intros K E Ek. destruct (oc_clear_spec c) as [W' El].
  assert (oc_bytes (oc_clear c) = 0%N) as Eb by (unfold oc_bytes; by rewrite El).
  assert (oc_references (oc_clear c) = []) as Er by (unfold oc_references; by rewrite El).
  set (k' := if is_map then KMap (oc_clear c) else KSet (oc_clear c)).
  assert (owned_kind_bytes k' = 0%N) as Ek' by (subst k'; by destruct is_map).
  assert (kind_references k' = []) as Er' by (subst k'; by destruct is_map).
  apply sound_recharge_last.
  apply (sound_release_kind h id o k'); try done; [..|apply is_barrier_ret].
  - unfold write_entries. rewrite Ek. by destruct is_map.
  - rewrite Ek', Ek. by destruct is_map.
  - intros b. rewrite Er'. by intros ?%elem_of_nil.
  - assert (wf_collection (oc_clear c) ∧ ∀ e, e ∈ live_entries (oc_clear c) → wf_value e.1) as Hok.
    { split; [done|]. rewrite El. by intros ? ?%elem_of_nil. }
    subst k'. by destruct is_map.
Qed.

Lemma collection_clear_sound h id : heap_ok h → sound h (collection_clear id).
Proof.
  intros K. apply sound_read; [done|]. intros o E%object_present. destruct (o_kind o) eqn:Ek; try by apply sound_fail.
  - by apply (clear_kind_sound h true id o).
  - by apply (clear_kind_sound h false id o).
Qed.

End run.

(** ** Weak tables and finalization registries

    The operations on weak slots under the conditions their callers in the interpreter provide: the
    code checks the keys, and takes the stored value and the registry for live. *)
Section heap_weak.
Context {H : JsHost}.

Lemma weak_entries_ok h id entries :
  weak_entries h id = HOk entries → ∃ o m, h_objects h !! id = Some o ∧ o_kind o = WeakCollection m entries.
Proof.
  unfold weak_entries. destruct (kind_of h id) as [k|] eqn:Ek; cbn; [|done].
  apply kind_of_ok in Ek as (o & ? & <-). destruct (o_kind o) eqn:Eo; try done. intros [= <-]. by eexists _, _.
Qed.

Definition wf_key (k : WeakCollectionKey) : Prop := ∀ s, k = WKSymbol s → wf_symbol s.

Lemma weak_key_from_value_ok v k :
  weak_key_from_value v = Some k → wf_value v → wf_key k ∧ weak_key_object k = object_id v.
Proof. destruct v; cbn; try done; intros [= <-] W; (split; [|done]); intros s' Hs; simplify_eq; by apply W. Qed.

(** Keys of one identity have one charge and one object. *)
Lemma wkey_same a b : wkey a = wkey b → weak_key_object a = weak_key_object b.
Proof. by destruct a, b; cbn; intros; simplify_eq/=. Qed.

Lemma wkey_bytes a b v :
  wkey a = wkey b → wf_key a → wf_key b → weak_collection_entry_bytes a v = weak_collection_entry_bytes b v.
Proof.
  unfold weak_collection_entry_bytes, weak_collection_key_bytes. destruct a as [?|s], b as [?|s']; cbn; intros E Wa Wb; simplify_eq/=; [done|].
  by rewrite (Wa s eq_refl), (Wb s' eq_refl), E.
Qed.

Definition table_bytes (entries : gmap WKey (WeakCollectionKey * Value)) : N :=
  msum (λ e, weak_collection_entry_bytes e.1 e.2) entries.

Definition table_ok (h : Heap) (entries : gmap WKey (WeakCollectionKey * Value)) : Prop :=
  ∀ i key v, entries !! i = Some (key, v) →
    i = wkey key ∧ wf_key key ∧ ∀ id, weak_key_object key = Some id → present h id.

Definition old_weak_bytes (entries : gmap WKey (WeakCollectionKey * Value)) (key : WeakCollectionKey) : N :=
  match entries !! wkey key with Some (_, v) => weak_collection_entry_bytes key v | None => 0 end.

Lemma old_weak_bytes_le h entries key :
  table_ok h entries → wf_key key → (old_weak_bytes entries key <= table_bytes entries)%N.
Proof.
  intros Hok Hk. unfold old_weak_bytes. destruct (entries !! wkey key) as [[k v]|] eqn:E; [|lia].
  destruct (Hok _ _ _ E) as (Ek & Wk & _). rewrite (wkey_bytes key k v) by done.
  apply (msum_elem (λ e, weak_collection_entry_bytes e.1 e.2) _ _ _ E).
Qed.

Lemma weak_insert_bytes h entries key value :
  table_ok h entries → wf_key key →
  (table_bytes (weak_insert entries key value) + old_weak_bytes entries key
   = table_bytes entries + weak_collection_entry_bytes key value)%N.
Proof.
  intros Hok Hk. unfold weak_insert, old_weak_bytes, table_bytes. set (f := λ e : WeakCollectionKey * Value, _).
  destruct (entries !! wkey key) as [[k v]|] eqn:E.
  - destruct (Hok _ _ _ E) as (Ek & Wk & _). pose proof (msum_update f entries _ (k, v) (k, value) E) as Hu.
    subst f. cbn in Hu. rewrite !(wkey_bytes key k) by done. lia.
  - rewrite msum_insert by done. subst f. cbn. lia.
Qed.

Lemma weak_insert_ok h entries key value :
  table_ok h entries → wf_key key → (∀ id, weak_key_object key = Some id → present h id) →
  table_ok h (weak_insert entries key value).
Proof.
  intros Hok Hk Hp i k v. unfold weak_insert. destruct (entries !! wkey key) as [[k0 v0]|] eqn:E.
  - intros [[<- [= <- <-]]|[_ Hi]]%lookup_insert_Some; [by apply (Hok _ _ v0)|by apply (Hok _ _ v)].
  - intros [[<- [= <- <-]]|[_ Hi]]%lookup_insert_Some; [done|by apply (Hok _ _ v)].
Qed.

(** A collection that protects the table and a key keeps the key's entry. *)
Lemma collected_weak h h' protected id o m entries key :
  heap_ok h → collected h h' protected → id ∈ protected → h_objects h !! id = Some o →
  o_kind o = WeakCollection m entries →
  (∀ kid, weak_key_object key = Some kid → kid ∈ protected ∧ present h kid) →
  ∃ o' entries', h_objects h' !! id = Some o' ∧ o_kind o' = WeakCollection m entries'
    ∧ entries' !! wkey key = entries !! wkey key.
Proof.
  intros K Hc Hid E Ek Hkey. pose proof (ok_kinds _ K id o E) as Hok. rewrite Ek in Hok.
  destruct (collected_object h h' protected id o K Hc Hid E) as (o' & dead & E' & Ho & Hd).
  destruct Ho as [->| ->]; [by exists o, entries|].
  eexists _, _. split; [done|]. cbn. rewrite Ek. split; [done|].
  destruct (entries !! wkey key) as [[k v]|] eqn:Ei.
  - apply map_lookup_filter_Some. split; [done|]. cbn. destruct (Hok _ _ _ Ei) as (Hk%wkey_same & _).
    destruct k as [kid|]; [|done]. cbn in *. destruct (Hkey kid Hk). by apply Hd.
  - apply map_lookup_filter_None. by left.
Qed.

(** The unconditional [remembered.insert]. *)
Lemma is_barrier_remember id refs :
  is_barrier (hmod (λ h, h_set_remembered ({[id]} ∪ h_remembered h) h)) id refs.
Proof. intros h _ _. eexists _, (). split; [done|]. split_and!; set_solver. Qed.

Lemma weak_collection_set_sound h id key value :
  heap_ok h → wf_value key → (∀ b, object_id value = Some b → present h b) →
  sound h (weak_collection_set id key value).
Proof.
  intros K Wv Hpv. apply sound_read; [done|]. intros k Hk.
  assert (wf_key k ∧ weak_key_object k = object_id key) as [Wk _].
  { apply weak_key_from_value_ok; [|done]. by destruct (weak_key_from_value key); cbn in Hk; simplify_eq. }
  clear Hk. apply sound_check; [done|]. intros Hpk.
  apply sound_read; [done|]. intros entries (o & m & E & Ek)%weak_entries_ok.
  cbv zeta. fold (old_weak_bytes entries k). set (old := old_weak_bytes entries k).
  set (new := weak_collection_entry_bytes k value).
  apply sound_room; [done| |].
  { intros b [->|[Hb%option_list_elem|Hb%object_id_elem]%elem_of_app]%elem_of_cons; [by exists o|auto..]. }
  intros h1 K1 Hc Hroom.
  assert (∀ b, b ∈ option_list (object_id value) → present h1 b) as Hpv1.
  { intros b Hb. apply (collected_present h h1 _ b K Hc); [|by apply Hpv, object_id_elem].
    constructor. apply elem_of_app. by right. }
  assert (∀ b, weak_key_object k = Some b → present h1 b) as Hpk1.
  { intros b Hb. apply (collected_present h h1 _ b K Hc); [|auto].
    constructor. apply elem_of_app. left. by apply option_list_elem. }
  edestruct (collected_weak h h1 _ id o m entries k K Hc) as (o1 & entries1 & E1 & Ek1 & Ei); try done.
  { constructor. }
  { intros kid Hkid. split; [|auto]. constructor. apply elem_of_app. left. by apply option_list_elem. }
  assert (old = old_weak_bytes entries1 k) as Eold by (unfold old, old_weak_bytes; by rewrite Ei).
  pose proof (ok_kinds _ K1 id o1 E1) as Hok. rewrite Ek1 in Hok. change (table_ok h1 entries1) in Hok.
  pose proof (weak_insert_bytes h1 entries1 k value Hok Wk) as Hb.
  pose proof (old_weak_bytes_le h1 entries1 k Hok Wk) as Hle. rewrite <-Eold in Hb, Hle.
  apply (sound_write_kind h1 id o1 (WeakCollection m (weak_insert entries1 k value)) _ old new (option_list (object_id value))); try done.
  - unfold write_weak. by rewrite Ek1.
  - rewrite Ek1. exact Hle.
  - unfold saturating_sub in Hroom. lia.
  - rewrite Ek1. change (table_bytes (weak_insert entries1 k value) + old <= table_bytes entries1 + new)%N. lia.
  - intros b Hb'. cbn in Hb'. by apply elem_of_nil in Hb'.
  - by apply weak_insert_ok.
  - apply is_barrier_remember.
Qed.

Lemma weak_collection_delete_sound h id key :
  heap_ok h → wf_value key → sound h (weak_collection_delete id key).
Proof.
  intros K Wv. unfold weak_collection_delete. destruct (weak_key_from_value key) as [k|] eqn:Hk; [|by apply sound_ret].
  apply weak_key_from_value_ok in Hk as [Wk _]; [|done].
  apply sound_read; [done|]. intros entries (o & m & E & Ek)%weak_entries_ok.
  destruct (entries !! wkey k) as [[sk v]|] eqn:Ei; [|by apply sound_ret].
  pose proof (ok_kinds _ K id o E) as Hok. rewrite Ek in Hok. change (table_ok h entries) in Hok.
  destruct (Hok _ _ _ Ei) as (Es & Ws & _).
  apply (sound_release_kind h id o (WeakCollection m (delete (wkey k) entries))); try done; [..|apply is_barrier_ret].
  - unfold write_weak. by rewrite Ek.
  - rewrite Ek. pose proof (msum_delete (λ e, weak_collection_entry_bytes e.1 e.2) _ _ _ Ei) as Hd.
    cbn in Hd |- *. rewrite Hd, (wkey_bytes k sk) by done. lia.
  - intros b Hb. cbn in Hb. by apply elem_of_nil in Hb.
  - intros i kk vv [_ Hi]%lookup_delete_Some. by apply (Hok i kk vv).
Qed.

(** ** Finalization registries *)
Lemma cell_references cb cells b :
  b ∈ kind_references (FinalizationRegistry cb cells) ↔ object_id cb = Some b ∨ ∃ c, c ∈ cells ∧ object_id (fc_holdings c) = Some b.
Proof.
  unfold kind_references, object_ids. rewrite elem_of_app, object_id_elem, list_elem_of_omap. f_equiv.
  setoid_rewrite list_elem_of_fmap. naive_solver.
Qed.

Lemma heap_ok_remembered h R id :
  heap_ok h → present h id → (∀ x, x ∈ h_remembered h → x ∈ R) → (∀ x, x ∈ R → x ∈ h_remembered h ∨ x = id) →
  heap_ok (h_set_remembered R h).
Proof.
  intros K Hid H1 H2. split; try apply K.
  - intros x [Hx| ->]%H2; [by apply (ok_remembered _ K)|done].
  - intros a b Ho Hb Hy. apply H1. by apply (ok_barrier _ K a b).
Qed.

(** A collection keeps a protected registry's cells, without their dead targets. *)
Lemma collected_registry h h' protected id o cb cells :
  heap_ok h → collected h h' protected → id ∈ protected → h_objects h !! id = Some o →
  o_kind o = FinalizationRegistry cb cells →
  ∃ o' cells', h_objects h' !! id = Some o' ∧ o_kind o' = FinalizationRegistry cb cells'.
Proof.
  intros K Hc Hid E Ek. destruct (collected_object h h' protected id o K Hc Hid E) as (o' & dead & E' & [->| ->] & _).
  - by exists o, cells.
  - eexists _, _. split; [done|]. cbn. by rewrite Ek.
Qed.

Lemma append_cell_sound h id o cb cells cell :
  heap_ok h → h_objects h !! id = Some o → o_kind o = FinalizationRegistry cb cells →
  (∀ b, object_id (fc_holdings cell) = Some b → present h b ∧ (old h id → young h b → id ∈ h_remembered h)) →
  (h_managed_bytes h + cell_bytes cell <= max_heap_bytes (h_config h))%N →
  sound h (update_object id (write_cells 0 (cell_bytes cell) (λ cells, cells ++ [cell]));; recharge 0 (cell_bytes cell)).
Proof.
  intros K E Ek Hh Hroom. apply sound_recharge_last.
  apply (sound_write_kind_at h id o (FinalizationRegistry cb (cells ++ [cell])) _ 0 (cell_bytes cell)
           (option_list (object_id (fc_holdings cell)))); try done.
  - unfold write_cells. by rewrite Ek.
  - lia.
  - lia.
  - rewrite Ek. cbn. rewrite fmap_app, sumN_app. cbn. unfold cell_bytes. lia.
  - intros b. rewrite Ek, !cell_references. intros [?|(c & Hc & Hb)]; [by left; left|].
    apply elem_of_app in Hc as [Hc| ->%list_elem_of_singleton]; [left; right; by exists c|right; by apply object_id_elem].
  - intros b Hb%object_id_elem. by apply Hh.
  - intros h1 _ _ Er Hy Ho. exists (h_remembered h1), (). rewrite h_set_remembered_id.
    split_and!; [done|done|by left|]. intros b Hb%object_id_elem Hold Hyb. rewrite Er.
    apply (Hh b); auto.
Qed.

Lemma token_key_sound {B} token (k : option WeakCollectionKey → hm B) h :
  heap_ok h → (∀ t, sound h (k t)) → sound h (hread (λ _, token_key token) ≫= k).
Proof. intros K Hk. apply sound_read; auto. Qed.

Lemma finalization_registry_register_sound h registry target holdings token cb cells o :
  heap_ok h → h_objects h !! registry = Some o → o_kind o = FinalizationRegistry cb cells →
  (∀ b, object_id holdings = Some b → present h b) →
  sound h (finalization_registry_register registry target holdings token).
Proof.
  intros K E Ek Hph. apply sound_read; [done|]. intros t _. apply token_key_sound; [done|]. intros tok.
  apply sound_check; [done|]. intros Hpt. apply sound_check; [done|]. intros Hptok. cbv zeta.
  apply sound_room; [done| |].
  { intros b. rewrite elem_of_cons, !elem_of_app, object_id_elem, !option_list_elem.
    intros [->|[?|[?|?]]]; [by exists o|auto..]. }
  intros h1 K1 Hc Hroom.
  destruct (collected_registry h h1 _ registry o cb cells K Hc (list_elem_of_here _ _) E Ek) as (o1 & cells1 & E1 & Ek1).
  assert (∀ b, b ∈ option_list (object_id holdings) → present h1 b) as Hph1.
  { intros b Hb. apply (collected_present h h1 _ b K Hc); [|by apply Hph, object_id_elem].
    constructor. rewrite !elem_of_app. auto. }
  destruct (is_barrier_one registry (object_id holdings) h1) as (R & [] & Eb & S1 & T1 & U1); [by exists o1|done|].
  eapply sound_bind; [exact Eb|].
  eapply sound_bind.
  { unfold hexpect, hread. unfold kind_of, object. cbn. rewrite E1. cbn. rewrite Ek1. reflexivity. }
  cbv iota. apply (append_cell_sound _ registry o1 cb cells1 (mkCell (Some t) holdings tok)); try done.
  - by apply (heap_ok_remembered h1 R registry); [|exists o1|..].
  - intros b Hb. cbn in Hb. split; [by apply Hph1, object_id_elem|]. intros Ho Hy. apply (U1 b); [by apply object_id_elem|done..].
Qed.

Lemma sumN_filter_split {A} (f : A → N) (P Q : A → Prop) `{∀ x, Decision (P x)} `{∀ x, Decision (Q x)} l :
  (∀ x, Q x ↔ ¬ P x) → (sumN (f <$> filter P l) + sumN (f <$> filter Q l) = sumN (f <$> l))%N.
Proof.
  intros HQ. induction l as [|x l IH]; [done|]. destruct (decide (P x)) as [HP|HP].
  - rewrite (filter_cons_True P), (filter_cons_False Q) by (done || by rewrite HQ; tauto). cbn. lia.
  - rewrite (filter_cons_False P), (filter_cons_True Q) by (done || by rewrite HQ). cbn. lia.
Qed.

Lemma finalization_registry_unregister_sound h registry token :
  heap_ok h → sound h (finalization_registry_unregister registry token).
Proof.
  intros K. apply sound_read; [done|]. intros t _. apply sound_read; [done|]. intros k (o & E & Ek)%kind_of_ok.
  destruct k; try by apply sound_fail. cbv zeta.
  set (keep := filter (λ c, token_matches t c = false) cells).
  apply (sound_release_kind h registry o (FinalizationRegistry cleanup_callback keep)); try done; [..|apply is_barrier_ret].
  - unfold write_cells. by rewrite Ek.
  - rewrite Ek. cbn. unfold keep.
    rewrite <-(sumN_filter_split _ (λ c, token_matches t c = true) (λ c, token_matches t c = false) cells);
      [unfold cell_bytes; lia|]. intros c. by rewrite not_true_iff_false.
  - intros b. rewrite Ek, !cell_references. intros [?|(c & [_ Hc]%list_elem_of_filter & ?)]; [by left|right; by exists c].
Qed.

(** ** Cleanup jobs *)
Lemma heap_ok_map h f managed :
  heap_ok h →
  (∀ o, o_young (f o) = o_young o ∧ o_prototype (f o) = o_prototype o ∧ (∀ b, b ∈ references (f o) → b ∈ references o)) →
  (∀ o, kind_ok h (o_kind o) → kind_ok h (o_kind (f o))) →
  (∀ o, (owned_bytes o <= o_bytes o)%N → (owned_bytes (f o) <= o_bytes (f o))%N) →
  (managed = msum o_bytes (f <$> h_objects h) + N.of_nat (size (h_closure_metadata h)) * CLOSURE_METADATA_BYTES)%N →
  (managed <= h_managed_bytes h)%N →
  heap_ok (h_set_managed_bytes managed (h_set_objects (f <$> h_objects h) h)).
Proof.
  intros K Hf Hk Ho Hm Hle. set (h' := h_set_managed_bytes _ _).
  assert (∀ a oa, h_objects h' !! a = Some oa ↔ ∃ o, h_objects h !! a = Some o ∧ oa = f o) as Hlk.
  { intros a oa. cbn. rewrite lookup_fmap_Some. naive_solver. }
  assert (∀ a, present h' a ↔ present h a) as Hp.
  { intros a. split; [intros [oa (o & ? & _)%Hlk]; by exists o|intros [o ?]; exists (f o); apply Hlk; eauto]. }
  assert (∀ a, young h' a ↔ young h a) as Hy.
  { intros a. split.
    - intros (oa & (o & E & ->)%Hlk & Ey). exists o. split; [done|]. by rewrite <-(proj1 (Hf o)).
    - intros (o & E & Ey). exists (f o). split; [apply Hlk; eauto|]. by rewrite (proj1 (Hf o)). }
  assert (∀ a, old h' a → old h a) as Hold.
  { intros a (oa & (o & E & ->)%Hlk & Ey). exists o. split; [done|]. by rewrite <-(proj1 (Hf o)). }
  assert (∀ a b, b ∈ succs h' a → b ∈ succs h a) as Hs.
  { intros a b. unfold succs. destruct (h_objects h' !! a) as [oa|] eqn:Ea; [|by intros ?%elem_of_nil].
    apply Hlk in Ea as (o & -> & ->). unfold edges. rewrite !elem_of_app. intros [Hb|Hb]; [left|by right].
    by apply (Hf o). }
  split.
  - intros a b Hb%Hs. apply Hp. by apply (ok_closed _ K a).
  - apply (acyclic_mono h); [|apply K]. intros a b (oa & (o & E & ->)%Hlk & Ep). exists o. split; [done|].
    by rewrite <-(proj1 (proj2 (Hf o))).
  - intros r a Ha. apply Hp. by apply (ok_roots _ K r).
  - intros a Ha. apply Hp. by apply (ok_remembered _ K).
  - intros a m Ha. apply Hp. by apply (ok_metadata _ K a m).
  - apply (ok_nursery _ K).
  - intros a. rewrite Hy. apply (ok_young _ K).
  - intros a b Ho'%Hold Hb%Hs Hyb%Hy. by apply (ok_barrier _ K a b).
  - intros a Ha%Hp. by apply (ok_ids _ K).
  - apply (ok_root_ids _ K).
  - exact Hm.
  - intros a oa (o & E & ->)%Hlk. apply Ho, (ok_owned _ K a o E).
  - intros a oa (o & E & ->)%Hlk. eapply kind_ok_present; [intros; by apply Hp|]. apply Hk, (ok_kinds _ K a o E).
  - etrans; [exact Hle|apply K].
  - apply (ok_trigger _ K).
  - apply (ok_usize _ K).
Qed.

Lemma take_jobs_owned o :
  (owned_bytes (o_set_kind (take_jobs_kind (o_kind o)) o) + registry_released (o_kind o) = owned_bytes o)%N.
Proof.
  pose proof (owned_set_kind (take_jobs_kind (o_kind o)) o) as Hk.
  assert (owned_kind_bytes (take_jobs_kind (o_kind o)) + registry_released (o_kind o) = owned_kind_bytes (o_kind o))%N; [|lia].
  destruct (o_kind o); cbn; try lia. fold cell_bytes.
  rewrite N.add_comm. apply (sumN_filter_split cell_bytes (λ c, fc_target c = None) (λ c, fc_target c ≠ None)). by intros c.
Qed.

Lemma take_jobs_references o b : b ∈ references (take_jobs_object o) → b ∈ references o.
Proof.
  change (references (take_jobs_object o)) with (references (o_set_kind (take_jobs_kind (o_kind o)) o)).
  intros [?|Hb]%references_set_kind; [done|]. apply kind_references_elem.
  destruct (o_kind o) eqn:Ek; cbn [take_jobs_kind] in Hb; try done.
  revert Hb. rewrite !cell_references. intros [?|(c & [_ Hc]%list_elem_of_filter & ?)]; [by left|right; by exists c].
Qed.

Lemma take_jobs_sound h : heap_ok h → sound h take_finalization_registry_cleanup_jobs.
Proof.
  intros K. unfold sound, take_finalization_registry_cleanup_jobs.
  assert (∀ id o, h_objects h !! id = Some o → (registry_released (o_kind o) <= o_bytes o)%N) as Hr.
  { intros id o E. pose proof (take_jobs_owned o). pose proof (ok_owned _ K id o E). lia. }
  rewrite (proj2 (forallb_forall _ _)).
  2: { intros [id o] Hin%list_elem_of_In%elem_of_map_to_list. apply N.leb_le. by apply (Hr id). }
  change (sumN _) with (msum (λ o, registry_released (o_kind o)) (h_objects h)).
  assert (msum o_bytes (h_objects h)
    = msum o_bytes (take_jobs_object <$> h_objects h) + msum (λ o, registry_released (o_kind o)) (h_objects h))%N as Em.
  { rewrite msum_fmap, <-msum_add. apply msum_ext. intros id o E. cbn. pose proof (Hr id o E). lia. }
  pose proof (ok_charge _ K) as Hc. unfold heap_bytes in Hc.
  rewrite checked_sub_N_Ok by lia. cbn [mbind res_bind]. eexists _, _. split; [done|].
  apply heap_ok_map; try done.
  - intros o. split_and!; [done|done|apply take_jobs_references].
  - intros o. unfold take_jobs_object. cbn. by destruct (o_kind o).
  - intros o Ho. pose proof (take_jobs_owned o).
    change (owned_bytes (o_set_kind (take_jobs_kind (o_kind o)) o) <= o_bytes o - registry_released (o_kind o))%N. lia.
  - lia.
  - lia.
Qed.
End heap_weak.
