(* ===== verification/JsNumeric.v ===== *)
(** * Element bytes and number keys of typed arrays (bluejs/src/heap/binary_data.rs)

    The bit patterns of binary16, binary32 and binary64 numbers, the conversion of element values
    to and from little-endian bytes, and the canonical spelling of numbers that decides which
    string keys a typed array claims.  A quiet NaN is one value, so NaN payloads are not seen. *)

From S2P Require Import Prelude Float JsValue JsObject JsHeap.
From Stdlib Require Import SpecFloat Zpower.

(** ** Bytes *)

(** [to_le_bytes] of the low [8 * n] bits, and [from_le_bytes]. *)
Fixpoint to_le_bytes (n : nat) (v : N) : list N :=
  match n with O => [] | S n => (v mod 256)%N :: to_le_bytes n (v / 256) end.
Fixpoint from_le_bytes (bs : list N) : N :=
  match bs with [] => 0 | b :: bs => b + 256 * from_le_bytes bs end.

(** [bytes[..n].try_into().unwrap()]: a shorter slice panics. *)
Definition read_le (n : nat) (bytes : list N) : res N :=
  if length bytes <? n then Panic else Ok (from_le_bytes (take n bytes)).
Definition write_le (n : nat) (v : N) (bytes : list N) : res (list N) :=
  if length bytes <? n then Panic else Ok (to_le_bytes n v ++ drop n bytes).

(** The two's complement reading of [w] bits, and [as] casts to [w] unsigned bits. *)
Definition signed (w : N) (v : N) : Z :=
  if (v <? 2 ^ (w - 1))%N then Z.of_N v else (Z.of_N v - 2 ^ Z.of_N w)%Z.
Definition wrap (w : N) (z : Z) : N := Z.to_N (z mod 2 ^ Z.of_N w).

(** ** Interchange formats

    [p] bits of precision and [w] exponent bits: [to_bits] and [from_bits]. *)
Section bits.
Variables p w : Z.
Definition bias : Z := 2 ^ (w - 1) - 1.
Definition max_field : Z := 2 ^ w - 1.
Definition emin_bits : Z := 2 - bias - p.

Definition sign_bit (s : bool) : Z := if s then 2 ^ (p - 1 + w) else 0.

Definition to_bits (x : spec_float) : N :=
  Z.to_N
    match x with
    | S754_zero s => sign_bit s
    | S754_infinity s => sign_bit s + max_field * 2 ^ (p - 1)
    | S754_nan => max_field * 2 ^ (p - 1) + 2 ^ (p - 2)
    | S754_finite s m e =>
        if (2 ^ (p - 1) <=? Zpos m)%Z then sign_bit s + (e - emin_bits + 1) * 2 ^ (p - 1) + (Zpos m - 2 ^ (p - 1))
        else sign_bit s + Zpos m
    end.

Definition finite (s : bool) (m e : Z) : spec_float :=
  match m with Zpos m => S754_finite s m e | _ => S754_zero s end.

Definition from_bits (bits : N) : spec_float :=
  let b := Z.of_N bits in
  let s := Z.testbit b (p - 1 + w) in
  let field := (b / 2 ^ (p - 1) mod 2 ^ w)%Z in
  let fraction := (b mod 2 ^ (p - 1))%Z in
  if (field =? 0)%Z then finite s fraction emin_bits
  else if (field =? max_field)%Z then (if (fraction =? 0)%Z then S754_infinity s else S754_nan)
  else finite s (2 ^ (p - 1) + fraction) (field - 1 + emin_bits).
End bits.

Definition f64_to_bits : f64 → N := to_bits 53 11.
Definition f64_from_bits : N → f64 := from_bits 53 11.
Definition f32_to_bits : spec_float → N := to_bits 24 8.
Definition f32_from_bits : N → spec_float := from_bits 24 8.

(** ** binary16 *)
Definition f64_pow2 (n : Z) : f64 := binary_normalize 53 1024 1 n false.
Definition f64_infinity : f64 := S754_infinity false.

Definition f16_bits_to_f64 (bits : N) : f64 :=
  let sign := if N.testbit bits 15 then f64_of_Z (-1) else f64_of_Z 1 in
  let exponent := N.land (N.shiftr bits 10) 0x1f in
  let fraction := f64_of_Z (Z.of_N (N.land bits 0x3ff)) in
  if (exponent =? 0)%N then f64_mul (f64_mul sign fraction) (f64_pow2 (-24))
  else if (exponent =? 0x1f)%N then
    if f64_eqb fraction f64_zero then f64_mul sign f64_infinity else S754_nan
  else
    f64_mul (f64_mul sign (f64_add (f64_of_Z 1) (f64_div fraction (f64_of_Z 1024))))
            (f64_pow2 (Z.of_N exponent - 15)).

(** Rounding a mantissa down by [shift] bits, ties to even. *)
Definition round_up (m half : N) (shift : N) : bool :=
  let remainder := N.land m (2 ^ shift - 1) in
  let halfway := (2 ^ (shift - 1))%N in
  (halfway <? remainder)%N || ((remainder =? halfway)%N && N.testbit half 0).

Definition f16_normal (sign : N) (unbiased : Z) (mantissa52 : N) : N :=
  let half := N.shiftr mantissa52 42 in
  let up := round_up mantissa52 half 42 in
  let half := if up then (half + 1)%N else half in
  let carry := up && (half =? 0x400)%N in
  let exponent16 := if carry then (unbiased + 16)%Z else (unbiased + 15)%Z in
  let half := if carry then 0%N else half in
  if (0x1f <=? exponent16)%Z then N.lor (N.shiftl sign 15) 0x7c00
  else N.lor (N.lor (N.shiftl sign 15) (N.shiftl (Z.to_N exponent16) 10)) half.

Definition f16_subnormal (sign : N) (unbiased : Z) (mantissa52 : N) : N :=
  let full := N.lor mantissa52 (2 ^ 52) in
  let shift := Z.to_N (28 - unbiased) in
  let half := N.shiftr full shift in
  let half := if round_up full half shift then (half + 1)%N else half in
  N.lor (N.shiftl sign 15) half.

Definition f64_to_f16_bits (value : f64) : N :=
  if is_nan value then 0x7e00
  else
    let bits := f64_to_bits value in
    let sign := N.land (N.shiftr bits 63) 1 in
    if f64_eqb value f64_zero then N.shiftl sign 15
    else
      let exp_field := Z.of_N (N.land (N.shiftr bits 52) 0x7ff) in
      let mantissa52 := N.land bits 0x000fffffffffffff in
      if (exp_field =? 0)%Z then N.shiftl sign 15
      else
        let unbiased := (exp_field - 1023)%Z in
        if (15 <? unbiased)%Z then N.lor (N.shiftl sign 15) 0x7c00
        else if (unbiased <? -25)%Z then N.shiftl sign 15
        else if (-14 <=? unbiased)%Z then f16_normal sign unbiased mantissa52
        else f16_subnormal sign unbiased mantissa52.

Example f16_one : f64_to_f16_bits (f64_of_Z 1) = 0x3c00%N ∧ f16_bits_to_f64 0x3c00 = f64_of_Z 1.
Proof. vm_compute. done. Qed.
Example f16_tiny : f64_to_f16_bits (f64_pow2 (-24)) = 1%N ∧ f16_bits_to_f64 0x8001 = SFopp (f64_pow2 (-24)).
Proof. vm_compute. done. Qed.

(** ** Element values *)

(** [value.trunc()] and [value.floor()] of a finite number, as integers. *)
Definition trunc_Z (s : bool) (m : positive) (e : Z) : Z := cond_Zopp s (Z.shiftl (Zpos m) e).
Definition floor_Z (s : bool) (m : positive) (e : Z) : Z := Z.shiftl (cond_Zopp s (Zpos m)) e.

Definition f64_trunc (x : f64) : f64 :=
  match x with
  | S754_finite s m e => if (0 <=? e)%Z then x else
      match trunc_Z s m e with Z0 => S754_zero s | z => f64_of_Z z end
  | _ => x
  end.
Definition f64_floor (x : f64) : f64 :=
  match x with
  | S754_finite s m e => if (0 <=? e)%Z then x else
      match floor_Z s m e with Z0 => S754_zero s | z => f64_of_Z z end
  | _ => x
  end.
Definition f64_is_finite (x : f64) : bool :=
  match x with S754_zero _ | S754_finite _ _ _ => true | _ => false end.

Definition as_i64 (x : f64) : Z := cast_sat I64_MIN I64_MAX trunc_Z x.
Definition as_u8 (x : f64) : N := Z.to_N (cast_sat 0 255 trunc_Z x).

Definition integer_for_typed_array (value : f64) : f64 :=
  if negb (f64_is_finite value) || f64_eqb value f64_zero then f64_zero else f64_trunc value.

(** [integer as i64 as uN]. *)
Definition integer_bits (w : N) (value : f64) : N := wrap w (as_i64 (integer_for_typed_array value)).

Definition f64_half : f64 := f64_pow2 (-1).

Definition clamped_byte (value : f64) : N :=
  if is_nan value || f64_leb value f64_zero then 0
  else if f64_leb (f64_of_Z 255) value then 255
  else
    let floor := f64_floor value in
    let fraction := f64_sub value floor in
    if f64_ltb f64_half fraction || (f64_eqb fraction f64_half && N.testbit (as_u8 floor) 0)
    then as_u8 floor + 1 else as_u8 floor.

Definition byte_width (k : TypedArrayKind) : N :=
  match k with
  | TInt8 | TUint8 | TUint8Clamped => 1
  | TInt16 | TUint16 | TFloat16 => 2
  | TInt32 | TUint32 | TFloat32 => 4
  | TFloat64 | TBigInt64 | TBigUint64 => 8
  end.

Definition is_bigint_kind (k : TypedArrayKind) : bool :=
  match k with TBigInt64 | TBigUint64 => true | _ => false end.

Definition is_atomic (k : TypedArrayKind) : bool :=
  match k with
  | TInt8 | TUint8 | TInt16 | TUint16 | TInt32 | TUint32 | TBigInt64 | TBigUint64 => true
  | _ => false
  end.

Definition waitable (k : TypedArrayKind) : bool :=
  match k with TInt32 | TBigInt64 => true | _ => false end.

Definition typed_read (k : TypedArrayKind) (bytes : list N) : res Value :=
  v ← read_le (N.to_nat (byte_width k)) bytes;
  Ok match k with
     | TInt8 => VNumber (f64_of_Z (signed 8 v))
     | TUint8 | TUint8Clamped | TUint16 | TUint32 => VNumber (f64_of_Z (Z.of_N v))
     | TInt16 => VNumber (f64_of_Z (signed 16 v))
     | TInt32 => VNumber (f64_of_Z (signed 32 v))
     | TFloat16 => VNumber (f16_bits_to_f64 v)
     | TFloat32 => VNumber (f64_of_f32 (f32_from_bits v))
     | TFloat64 => VNumber (f64_from_bits v)
     | TBigInt64 => VBigInt (signed 64 v)
     | TBigUint64 => VBigInt (Z.of_N v)
     end.

Section typed_write.
(** [BigInt::to_signed_bytes_le] of the [num-bigint] crate. *)
Variable to_signed_bytes_le : Z → list N.

(** Eight bytes of a two's complement integer, filled with its sign. *)
Definition bigint_element (n : Z) : list N :=
  let source := to_signed_bytes_le n in
  let fill := if (n <? 0)%Z then 0xff%N else 0%N in
  let copied := length source `min` 8 in
  take copied source ++ replicate (8 - copied) fill.

(** The stored pattern of a number, for the kinds that hold numbers. *)
Definition element_bits (k : TypedArrayKind) (value : f64) : res N :=
  match k with
  | TInt8 | TUint8 => Ok (integer_bits 8 value)
  | TUint8Clamped => Ok (clamped_byte value)
  | TInt16 | TUint16 => Ok (integer_bits 16 value)
  | TInt32 | TUint32 => Ok (integer_bits 32 value)
  | TFloat16 => Ok (f64_to_f16_bits value)
  | TFloat32 => Ok (f32_to_bits (f32_of_f64 value))
  | TFloat64 => Ok (f64_to_bits value)
  | TBigInt64 | TBigUint64 => Panic
  end.

Definition typed_write (k : TypedArrayKind) (bytes : list N) (value : Value) : res (list N) :=
  match value, is_bigint_kind k with
  | VBigInt n, true => if length bytes <? 8 then Panic else Ok (bigint_element n ++ drop 8 bytes)
  | VNumber value, _ => v ← element_bits k value; write_le (N.to_nat (byte_width k)) v bytes
  | _, _ => Panic
  end.
End typed_write.

(** ** Exact integers *)
Lemma digits2_shift k p : digits2_pos (shift_pos k p) = (digits2_pos p + k)%positive.
Proof.
  unfold shift_pos. induction k as [|k IH] using Pos.peano_ind; [cbn; lia|].
  rewrite Pos.iter_succ. cbn [digits2_pos]. rewrite IH. lia.
Qed.

(** A mantissa of full width is not rounded. *)
Lemma binary_round_aux_full s m e :
  Zpos (digits2_pos m) = 53%Z → (-1074 <= e <= 971)%Z → binary_round_aux 53 1024 s (Zpos m) e loc_Exact = S754_finite s m e.
Proof.
  intros Hm He. assert ((Z.max (Zpos (digits2_pos m) + e - 53) (3 - 1024 - 53) - e)%Z = 0%Z) as Hz by lia.
  unfold binary_round_aux, shr_fexp, fexp, emin. cbn [Zdigits2]. rewrite Hz. cbn [shr shr_record_of_loc shr_m loc_of_shr_record round_nearest_even].
  cbn [Zdigits2]. rewrite Hz. cbn [shr shr_m shr_record_of_loc]. rewrite (proj2 (Z.leb_le _ _)) by lia. done.
Qed.

Lemma digits2_bound p : (2 ^ (Zpos (digits2_pos p) - 1) <= Zpos p < 2 ^ Zpos (digits2_pos p))%Z.
Proof.
  induction p as [p IH|p IH|]; cbn [digits2_pos]; [| |cbn; lia];
    rewrite Pos2Z.inj_succ, Z.pow_succ_r by lia; replace (Z.succ (Zpos (digits2_pos p)) - 1)%Z with (Z.succ (Zpos (digits2_pos p) - 1)) by lia;
    rewrite (Z.pow_succ_r 2 (Zpos (digits2_pos p) - 1)) by lia; lia.
Qed.

Lemma f64_of_pos p : (Zpos p < 2 ^ 53)%Z →
  ∃ m e, f64_of_Z (Zpos p) = S754_finite false m e ∧ (-1074 <= e <= 0)%Z ∧ Zpos m = (Zpos p * 2 ^ (- e))%Z.
Proof.
  intros Hp. pose proof (digits2_bound p) as [Hd _]. set (d := Zpos (digits2_pos p)) in *.
  assert (d <= 53)%Z as Hd53.
  { destruct (Z.le_gt_cases d 53); [done|]. pose proof (Z.pow_le_mono_r 2 53 (d - 1) ltac:(lia) ltac:(lia)). lia. }
  unfold f64_of_Z, binary_normalize, binary_round, fexp, emin. fold d.
  replace (Z.max (d + 0 - 53) (3 - 1024 - 53))%Z with (d - 53)%Z by lia. unfold shl_align. rewrite Z.sub_0_r.
  destruct (d - 53)%Z as [|k|k] eqn:Ek; [|lia|].
  - exists p, 0%Z. rewrite binary_round_aux_full by lia. split_and!; try lia. done.
  - change (Pos.iter xO p k) with (shift_pos k p). exists (shift_pos k p), (Zneg k).
    rewrite binary_round_aux_full; [|rewrite digits2_shift; lia|lia]. split_and!; try lia; [done|].
    rewrite shift_pos_correct. change (- Zneg k)%Z with (Zpos k). change (2 ^ Zpos k)%Z with (Z.pow_pos 2 k). lia.
Qed.

(** Integers below 2^53 are exact: truncation gives them back. *)
Lemma f64_of_Z_exact lo hi n : (0 <= n < 2 ^ 53)%Z → (lo <= n <= hi)%Z → cast_sat lo hi trunc_Z (f64_of_Z n) = n.
Proof.
  intros Hn Hb. destruct n as [|p|p]; [done| |lia]. destruct (f64_of_pos p) as (m & e & -> & He & Em); [lia|].
  cbn. unfold trunc_Z. cbn [cond_Zopp]. assert (Z.shiftl (Zpos m) e = Zpos p) as ->; [|lia].
  rewrite <-(Z.opp_involutive e), Z.shiftl_opp_r, Z.shiftr_div_pow2, Em, Z.div_mul; lia.
Qed.

(** ** Decimal digits *)
Fixpoint nat_digits (fuel : nat) (n : N) (acc : rstring) : rstring :=
  match fuel with
  | O => acc
  | S fuel => let acc := (48 + n mod 10)%N :: acc in
              if (n <? 10)%N then acc else nat_digits fuel (n / 10) acc
  end.
(** [n.to_string()] *)
Definition decimal (n : N) : rstring := nat_digits (S (N.to_nat (N.log2 n))) n [].
Definition decimal_Z (z : Z) : rstring :=
  match z with Zneg p => ch "-" :: decimal (Npos p) | _ => decimal (Z.to_N z) end.

(** The number [m * 10^k], rounded once. *)
Definition f64_of_decimal_exp (sign : bool) (m : N) (k : Z) : f64 :=
  if (0 <=? k)%Z then
    match Z.of_N m with
    | Z0 => S754_zero sign
    | z => binary_normalize 53 1024 (cond_Zopp sign (z * 10 ^ k)) 0 sign
    end
  else f64_of_decimal sign m (Z.to_nat (- k)).

(** ** Shortest digits

    [v / 10^q] for [v = m * 2^e], as a floor and whether at least half is left. *)
Definition scaled (m : positive) (e q : Z) : Z * bool :=
  let num := (Zpos m * 2 ^ Z.max 0 e * 10 ^ Z.max 0 (- q))%Z in
  let den := (2 ^ Z.max 0 (- e) * 10 ^ Z.max 0 q)%Z in
  ((num / den)%Z, (den <=? 2 * (num mod den))%Z).

Definition reads_as (m : positive) (e : Z) (d q : Z) : bool :=
  bool_decide (f64_of_decimal_exp false (Z.to_N d) q = S754_finite false m e).

(** The integer nearest to [v / 10^q] among its neighbours that read back as [v]. *)
Definition candidate (m : positive) (e q : Z) : option Z :=
  let '(d, half) := scaled m e q in
  match reads_as m e d q, reads_as m e (d + 1) q with
  | true, true => Some (if half : bool then d + 1 else d)%Z
  | true, false => Some d
  | false, true => Some (d + 1)%Z
  | false, false => None
  end.

(** The largest [q] with a candidate gives the fewest digits; [10^start] is above the number, and
    seventeen digits always read back. *)
Fixpoint shortest (fuel : nat) (m : positive) (e q : Z) : Z * Z :=
  match fuel with
  | O => (0, q)%Z
  | S fuel => match candidate m e q with
              | Some d => (d, q)
              | None => shortest fuel m e (q - 1)
              end
  end.
Definition shortest_start (m : positive) (e : Z) : Z := ((Z.log2 (Zpos m) + e) * 30103 / 100000 + 2)%Z.

(** Digits without trailing zeros, and the position of the decimal point: [0.d1 d2 .. * 10^p]. *)
Fixpoint drop_zeros (fuel : nat) (d q : Z) : Z * Z :=
  match fuel with
  | O => (d, q)
  | S fuel => if (d mod 10 =? 0)%Z then drop_zeros fuel (d / 10) (q + 1) else (d, q)
  end.

Definition shortest_digits (m : positive) (e : Z) : rstring * Z :=
  let '(d, q) := shortest 24 m e (shortest_start m e) in
  let '(d, q) := drop_zeros 20 d q in
  let digits := decimal (Z.to_N d) in
  (digits, q + Z.of_nat (length digits))%Z.

Definition zeros (n : nat) : rstring := replicate n (ch "0").

(** Fixed notation of [0.digits * 10^position]. *)
Definition fixed_notation (digits : rstring) (position : Z) : rstring :=
  if (position <=? 0)%Z then str "0." ++ zeros (Z.to_nat (- position)) ++ digits
  else if (Z.of_nat (length digits) <=? position)%Z
  then digits ++ zeros (Z.to_nat position - length digits)
  else take (Z.to_nat position) digits ++ ch "." :: drop (Z.to_nat position) digits.

Definition sign_prefix (s : bool) : rstring := if s then str "-" else [].

(** [f64::to_string]: never an exponent. *)
Definition f64_to_string (x : f64) : rstring :=
  match x with
  | S754_zero s => sign_prefix s ++ str "0"
  | S754_infinity s => sign_prefix s ++ str "inf"
  | S754_nan => str "NaN"
  | S754_finite s m e => let '(digits, position) := shortest_digits m e in sign_prefix s ++ fixed_notation digits position
  end.

Example f64_to_string_samples :
  map f64_to_string [f64_lit "0.1"; f64_lit "-12.5"; f64_of_Z 100; f64_pow2 (-24); f64_of_Z (10 ^ 21)]
  = [str "0.1"; str "-12.5"; str "100"; str "0.00000005960464477539063"; str "1000000000000000000000"].
Proof. vm_compute. reflexivity. Qed.

(** ** Reading a number

    [str::parse::<f64>]: an optional sign, digits with an optional fraction and at least one digit,
    an optional exponent.  The words for infinities and NaN are read as finite by no caller and
    give nothing here. *)
Definition parse_exponent (s : rstring) : option Z :=
  match s with
  | [] => Some 0%Z
  | c :: s =>
      if negb ((c =? ch "e")%N || (c =? ch "E")%N) then None
      else
        let '(neg, s) :=
          match s with
          | c :: s' => if (c =? ch "-")%N then (true, s') else if (c =? ch "+")%N then (false, s') else (false, s)
          | [] => (false, s)
          end in
        match s with
        | [] => None
        | _ => if forallb is_ascii_digit s
               then Some (let v := Z.of_N (digits_val 10 s) in if neg : bool then (- v)%Z else v)
               else None
        end
  end.

Definition parse_number (s : rstring) : option f64 :=
  let '(sign, s) :=
    match s with
    | c :: s' => if (c =? ch "-")%N then (true, s') else if (c =? ch "+")%N then (false, s') else (false, s)
    | [] => (false, s)
    end in
  let whole := take_while is_ascii_digit s in
  let rest := drop (length whole) s in
  let '(fraction, rest) :=
    match rest with
    | c :: r => if (c =? ch ".")%N then let f := take_while is_ascii_digit r in (f, drop (length f) r) else ([], rest)
    | [] => ([], [])
    end in
  match whole ++ fraction with
  | [] => None
  | digits =>
      exponent ← parse_exponent rest;
      Some (f64_of_decimal_exp sign (digits_val 10 digits) (exponent - Z.of_nat (length fraction)))
  end.

(** ** ECMAScript's spelling *)
Definition contains_char (c : N) (s : rstring) : bool := bool_decide (c ∈ s).

(** [str::split_once] and [str::find] of one character. *)
Fixpoint split_once (c : N) (s : rstring) : option (rstring * rstring) :=
  match s with
  | [] => None
  | d :: s => if (d =? c)%N then Some ([], s) else (λ p, (d :: p.1, p.2)) <$> split_once c s
  end.
Fixpoint find_char (p : N → bool) (s : rstring) : option nat :=
  match s with [] => None | d :: s => if p d then Some 0 else S <$> find_char p s end.

Definition strip_minus (s : rstring) : rstring * rstring :=
  match s with c :: s' => if (c =? ch "-")%N then (str "-", s') else ([], s) | [] => ([], s) end.

Definition without_point (s : rstring) : rstring := filter (λ c, c ≠ ch ".") s.

Definition parse_i32 (s : rstring) : option Z :=
  let '(neg, s) :=
    match s with
    | c :: s' => if (c =? ch "-")%N then (true, s') else if (c =? ch "+")%N then (false, s') else (false, s)
    | [] => (false, s)
    end in
  match s with
  | [] => None
  | _ => if forallb is_ascii_digit s then
           let v := (if neg : bool then - Z.of_N (digits_val 10 s) else Z.of_N (digits_val 10 s))%Z in
           if (- 2 ^ 31 <=? v)%Z && (v <? 2 ^ 31)%Z then Some v else None
         else None
  end.

Definition signed_exponent (z : Z) : rstring := (if (0 <=? z)%Z then str "+" else []) ++ decimal_Z z.

Definition normalize_scientific_rendering (rendered : rstring) : res rstring :=
  match split_once (ch "e") rendered with
  | None => Ok rendered
  | Some (mantissa, exponent) =>
      exponent ← unwrap (parse_i32 exponent);
      Ok (mantissa ++ ch "e" :: signed_exponent exponent)
  end.

Definition scientific_to_fixed (number : rstring) : option rstring :=
  '(mantissa, exponent) ← split_once (ch "e") number;
  exponent ← parse_i32 exponent;
  let '(sign, mantissa) := strip_minus mantissa in
  let point := Z.of_nat (default (length mantissa) (find_char (λ c, (c =? ch ".")%N) mantissa)) in
  let digits := without_point mantissa in
  let position := (point + exponent)%Z in
  if negb ((- 2 ^ 31 <=? position)%Z && (position <? 2 ^ 31)%Z) then None
  else Some (sign ++ fixed_notation digits position).

(** [trim_end_matches('0')] *)
Definition trim_end_zeros (s : rstring) : rstring := rev (drop (length (take_while (λ c, (c =? ch "0")%N) (rev s))) (rev s)).

Definition fixed_to_scientific (number : rstring) : option rstring :=
  let '(sign, number) := strip_minus number in
  let point := default (length number) (find_char (λ c, (c =? ch ".")%N) number) in
  let digits := without_point number in
  first ← find_char (λ c, negb (c =? ch "0")%N) digits;
  let significant := trim_end_zeros (drop first digits) in
  let exponent := (Z.of_nat point - Z.of_nat first - 1)%Z in
  let tail := drop 1 significant in
  let fraction := match tail with [] => [] | _ => ch "." :: tail end in
  Some (sign ++ take 1 significant ++ fraction ++ ch "e" :: signed_exponent exponent).

Definition f64_abs (x : f64) : f64 := SFabs x.
Definition f64_1e_6 : f64 := f64_of_decimal false 1 6.
Definition f64_1e21 : f64 := f64_of_Z (10 ^ 21).

Definition ecmascript_number_string (number : f64) : res rstring :=
  let rendered := f64_to_string number in
  let magnitude := f64_abs number in
  if f64_leb f64_1e_6 magnitude && f64_ltb magnitude f64_1e21
  then Ok (default rendered (scientific_to_fixed rendered))
  else if negb (f64_eqb magnitude f64_zero) && negb (contains_char (ch "e") rendered)
  then Ok (default rendered (fixed_to_scientific rendered))
  else normalize_scientific_rendering rendered.

Example number_strings :
  mapM ecmascript_number_string [f64_of_decimal false 1 7; f64_of_Z (10 ^ 21); f64_lit "-0.000001"; f64_lit "1.5"; f64_zero]
  = Ok [str "1e-7"; str "1e+21"; str "-0.000001"; str "1.5"; str "0"].
Proof. vm_compute. reflexivity. Qed.

Definition canonical_numeric_string_matches (number : f64) (key : rstring) : res bool :=
  s ← ecmascript_number_string number; Ok (bool_decide (s = key)).

(** ** Keys *)
Inductive TypedArrayNumericKey :=
  | NumericIndex (index : N)
  | NumericInvalid.

(** [String::from_utf16]: unpaired surrogates have no text. *)
Fixpoint to_utf8 (units : JsString) : option rstring :=
  match units with
  | [] => Some []
  | u :: units =>
      if (u <? 0xd800)%N || (0xdfff <? u)%N then cons u <$> to_utf8 units
      else if (u <=? 0xdbff)%N then
        match units with
        | v :: units' =>
            if (0xdc00 <=? v)%N && (v <=? 0xdfff)%N
            then cons (0x10000 + (u - 0xd800) * 0x400 + (v - 0xdc00))%N <$> to_utf8 units'
            else None
        | [] => None
        end
      else None
  end.

Definition typed_array_numeric_key (key : PropertyName) : res (option TypedArrayNumericKey) :=
  match key with
  | PSymbol _ => Ok None
  | PString s =>
      match js_index s with
      | Some index => Ok (Some (NumericIndex index))
      | None =>
          match to_utf8 s with
          | None => Ok None
          | Some s =>
              if bool_decide (s = str "-0") || bool_decide (s = str "NaN") || bool_decide (s = str "Infinity")
                 || bool_decide (s = str "-Infinity")
              then Ok (Some NumericInvalid)
              else
                match parse_number s with
                | None => Ok None
                | Some number =>
                    if negb (f64_is_finite number) then Ok None
                    else
                      m ← canonical_numeric_string_matches number s;
                      Ok (if m : bool then Some NumericInvalid else None)
                end
          end
      end
  end.

Example numeric_keys :
  mapM (λ s, typed_array_numeric_key (PString (encode_utf16 s)))
    [str "1e-7"; str "0.0000001"; str "1.5"; str "01"; str "7"; str "-0"; str "x"]
  = Ok [Some NumericInvalid; None; Some NumericInvalid; None; Some (NumericIndex 7); Some NumericInvalid; None].
Proof. vm_compute. reflexivity. Qed.

(** ** Number keys never panic

    [Display] of a number has no exponent, so the rendering that
    [normalize_scientific_rendering] would unwrap does not occur. *)
Definition no_e (s : rstring) : Prop := ch "e" ∉ s.

Lemma no_e_app a b : no_e (a ++ b) ↔ no_e a ∧ no_e b.
Proof. unfold no_e. rewrite elem_of_app. tauto. Qed.
Lemma no_e_cons c a : no_e (c :: a) ↔ c ≠ ch "e" ∧ no_e a.
Proof. unfold no_e. rewrite elem_of_cons. split; [intros E; split; [intros ->|]|intros [? ?] [?|?]]; naive_solver. Qed.
Lemma no_e_take n a : no_e a → no_e (take n a).
Proof. intros Ha E. apply Ha. rewrite <-(take_drop n a). apply elem_of_app. by left. Qed.
Lemma no_e_drop n a : no_e a → no_e (drop n a).
Proof. intros Ha E. apply Ha. rewrite <-(take_drop n a). apply elem_of_app. by right. Qed.

Lemma nat_digits_no_e fuel n acc : no_e acc → no_e (nat_digits fuel n acc).
Proof.
  revert n acc. induction fuel as [|fuel IH]; intros n acc Ha; cbn [nat_digits]; [done|]. cbv zeta.
  assert (no_e ((48 + n mod 10)%N :: acc)) as Ha'.
  { apply no_e_cons. split; [|done]. pose proof (N.mod_lt n 10). change (ch "e") with 101%N. lia. }
  destruct (n <? 10)%N; auto.
Qed.
Lemma decimal_no_e n : no_e (decimal n).
Proof. apply nat_digits_no_e. by intros ?%elem_of_nil. Qed.
Lemma zeros_no_e n : no_e (zeros n).
Proof. unfold no_e, zeros. rewrite elem_of_replicate. by intros [? _]. Qed.

Lemma fixed_notation_no_e digits position : no_e digits → no_e (fixed_notation digits position).
Proof.
  intros Hd. pose proof zeros_no_e. unfold fixed_notation. destruct (_ <=? _)%Z; [|destruct (_ <=? _)%Z].
  - rewrite !no_e_app. split_and!; [|done..]. by apply (bool_decide_unpack _).
  - rewrite no_e_app. auto.
  - rewrite no_e_app, no_e_cons. split_and!; [by apply no_e_take|done|by apply no_e_drop].
Qed.

Lemma sign_prefix_no_e s : no_e (sign_prefix s).
Proof. by destruct s; apply (bool_decide_unpack _). Qed.

Lemma f64_to_string_no_e x : no_e (f64_to_string x).
Proof.
  pose proof sign_prefix_no_e. destruct x; cbn [f64_to_string]; rewrite ?no_e_app; split_and?; try done;
    try by apply (bool_decide_unpack _).
  destruct (shortest_digits m e) as [digits position] eqn:E. rewrite no_e_app. split; [done|].
  apply fixed_notation_no_e. unfold shortest_digits in E.
  destruct (shortest _ _ _ _), (drop_zeros _ _ _). injection E as <- _. apply decimal_no_e.
Qed.

Lemma split_once_none s : no_e s → split_once (ch "e") s = None.
Proof.
  induction s as [|c s IH]; cbn [split_once]; [done|]. intros [Hc Hs]%no_e_cons.
  destruct (N.eqb_spec c (ch "e")) as [|_]; [done|]. by rewrite IH.
Qed.

Lemma ecmascript_number_string_total x : ∃ s, ecmascript_number_string x = Ok s.
Proof.
  unfold ecmascript_number_string. destruct (_ && _); [eauto|]. destruct (_ && _); [eauto|].
  unfold normalize_scientific_rendering. rewrite split_once_none by apply f64_to_string_no_e. eauto.
Qed.

Lemma typed_array_numeric_key_total key : ∃ r, typed_array_numeric_key key = Ok r.
Proof.
  unfold typed_array_numeric_key. destruct key as [s|]; [|eauto]. destruct (js_index s); [eauto|].
  destruct (to_utf8 s) as [t|]; [|eauto]. destruct (_ || _); [eauto|].
  destruct (parse_number t) as [x|]; [|eauto]. destruct (negb _); [eauto|].
  unfold canonical_numeric_string_matches. destruct (ecmascript_number_string_total x) as [r ->]. cbn. eauto.
Qed.
