(* ===== verification/JsBinary.v ===== *)
(** * Buffers, data views and typed arrays (bluejs/src/heap/binary_data.rs)

    The contents of a shared backing belong to every agent that holds it, so they are not part of
    the heap: [shared_bytes] gives what a backing holds when the operation locks it, and an
    operation that writes to a backing answers the write instead of doing it. *)

From S2P Require Import Prelude Float JsValue JsObject JsHeap JsCore JsNumeric.

Section binary.
Context {H : JsHost}.
Variable to_signed_bytes_le : Z → list N.
Variable shared_bytes : SharedBuffer → list N.

Definition byte_length (bytes : list N) : N := N.of_nat (length bytes).
Definition zero_bytes (n : N) : list N := replicate (N.to_nat n) 0%N.

(** ** Allocation *)
Definition max_array_buffer_byte_length (h : Heap) : N := (max_heap_bytes (h_config h) - OBJECT_BYTES)%N.

Definition buffer_range_ok (h : Heap) (byte_len : N) (max_byte_length : option N) : hresult unit :=
  let capacity := max_array_buffer_byte_length h in
  if (capacity <? byte_len)%N
     || match max_byte_length with Some m => (m <? byte_len)%N || (capacity <? m)%N | None => false end
  then HErr InvalidBufferRange else HOk ().

(** [shared]: the fresh zeroed backing of a shared buffer. *)
Definition alloc_buffer (byte_len : N) (max_byte_length : option N) (shared : option SharedBuffer)
    (proto : option ObjectId) : hm ObjectId :=
  hread (λ h, buffer_range_ok h byte_len max_byte_length);;
  alloc (ArrayBuffer (zero_bytes byte_len) shared false max_byte_length
           (match shared with Some _ => true | None => false end) false) proto.
Definition alloc_array_buffer (byte_len : N) (proto : option ObjectId) : hm ObjectId :=
  alloc_buffer byte_len None None proto.
Definition alloc_resizable_array_buffer (byte_len max_byte_length : N) (proto : option ObjectId) : hm ObjectId :=
  alloc_buffer byte_len (Some max_byte_length) None proto.
Definition alloc_shared_array_buffer (byte_len : N) (max_byte_length : option N) (fresh : SharedBuffer)
    (proto : option ObjectId) : hm ObjectId :=
  alloc_buffer byte_len max_byte_length (Some fresh) proto.
Definition alloc_shared_array_buffer_backing (backing : SharedBuffer) (max_byte_length : option N)
    (proto : option ObjectId) : hm ObjectId :=
  let byte_len := byte_length (shared_bytes backing) in
  hread (λ h, buffer_range_ok h byte_len max_byte_length);;
  alloc (ArrayBuffer (zero_bytes byte_len) (Some backing) false max_byte_length true false) proto.
Definition alloc_immutable_array_buffer (bytes : list N) (proto : option ObjectId) : hm ObjectId :=
  hread (λ h, buffer_range_ok h (byte_length bytes) None);;
  alloc (ArrayBuffer bytes None false None false true) proto.

(** ** Buffer slots *)
Record BufferSlots := mkBuffer {
  bu_bytes : list N;
  bu_backing : option SharedBuffer;
  bu_detached : bool;
  bu_max : option N;
  bu_shared : bool;
  bu_immutable : bool;
}.

Definition buffer_slots (h : Heap) (id : ObjectId) : hresult BufferSlots :=
  k ← kind_of h id;
  match k with
  | ArrayBuffer bytes backing detached max shared immutable =>
      HOk (mkBuffer bytes backing detached max shared immutable)
  | _ => HErr (InvalidInternalSlot id)
  end.

Definition is_array_buffer (h : Heap) (id : ObjectId) : hresult bool :=
  (λ k, match k with ArrayBuffer _ _ _ _ shared _ => negb shared | _ => false end) <$> kind_of h id.
Definition is_shared_array_buffer (h : Heap) (id : ObjectId) : hresult bool :=
  (λ k, match k with ArrayBuffer _ _ _ _ shared _ => shared | _ => false end) <$> kind_of h id.
Definition is_buffer (h : Heap) (id : ObjectId) : hresult bool :=
  (λ k, match k with ArrayBuffer _ _ _ _ _ _ => true | _ => false end) <$> kind_of h id.
Definition is_data_view (h : Heap) (id : ObjectId) : hresult bool :=
  (λ k, match k with DataView _ _ _ _ => true | _ => false end) <$> kind_of h id.
Definition is_typed_array (h : Heap) (id : ObjectId) : hresult bool :=
  (λ k, match k with TypedArray _ _ _ _ _ => true | _ => false end) <$> kind_of h id.

(** The length of the backing a buffer reads: the shared one when there is one. *)
Definition current_length (b : BufferSlots) : N :=
  match bu_backing b with Some s => byte_length (shared_bytes s) | None => byte_length (bu_bytes b) end.

Definition buffer_byte_length (h : Heap) (id : ObjectId) : hresult N := current_length <$> buffer_slots h id.
Definition array_buffer_byte_length (h : Heap) (id : ObjectId) : hresult N :=
  b ← is_array_buffer h id;
  if b : bool then buffer_byte_length h id else HErr (InvalidInternalSlot id).

Definition shared_buffer_backing (h : Heap) (id : ObjectId) : hresult SharedBuffer :=
  b ← buffer_slots h id;
  match bu_shared b, bu_backing b with
  | true, Some s => HOk s
  | _, _ => HErr (InvalidInternalSlot id)
  end.

Definition array_buffer_is_detached (h : Heap) (id : ObjectId) : hresult bool :=
  b ← buffer_slots h id;
  if bu_shared b then HErr (InvalidInternalSlot id) else HOk (bu_detached b).
Definition buffer_is_detached (h : Heap) (id : ObjectId) : hresult bool :=
  (λ b, negb (bu_shared b) && bu_detached b) <$> buffer_slots h id.
Definition buffer_is_shared (h : Heap) (id : ObjectId) : hresult bool := bu_shared <$> buffer_slots h id.
Definition buffer_is_immutable (h : Heap) (id : ObjectId) : hresult bool := bu_immutable <$> buffer_slots h id.

Definition validate_buffer (h : Heap) (id : ObjectId) : hresult N :=
  d ← buffer_is_detached h id;
  if d : bool then HErr DetachedArrayBuffer else buffer_byte_length h id.

Definition buffer_max_byte_length (h : Heap) (id : ObjectId) : hresult N :=
  (λ b, if negb (bu_shared b) && bu_detached b then 0%N else default (current_length b) (bu_max b))
  <$> buffer_slots h id.

Definition has_max (b : BufferSlots) : bool := match bu_max b with Some _ => true | None => false end.
Definition buffer_resizable (h : Heap) (id : ObjectId) : hresult bool :=
  (λ b, negb (bu_shared b) && negb (bu_detached b) && has_max b) <$> buffer_slots h id.
Definition array_buffer_is_resizable (h : Heap) (id : ObjectId) : hresult bool :=
  (λ b, negb (bu_shared b) && has_max b) <$> buffer_slots h id.
Definition buffer_growable (h : Heap) (id : ObjectId) : hresult bool :=
  (λ b, bu_shared b && has_max b) <$> buffer_slots h id.

(** ** Detaching and resizing *)
Definition write_buffer (old new : N) (f : BufferSlots → BufferSlots) (o : Object) : res Object :=
  match o_kind o with
  | ArrayBuffer bytes backing detached max shared immutable =>
      let b := f (mkBuffer bytes backing detached max shared immutable) in
      recharge_object old new
        (o_set_kind (ArrayBuffer (bu_bytes b) (bu_backing b) (bu_detached b) (bu_max b) (bu_shared b) (bu_immutable b)) o)
  | _ => Panic
  end.

Definition detach_array_buffer (id : ObjectId) : hm unit :=
  b ← hread (λ h, buffer_slots h id);
  if bu_shared b then hfail (InvalidInternalSlot id)
  else if bu_immutable b then hfail ImmutableArrayBuffer
  else if bu_detached b then hfail DetachedArrayBuffer
  else
    let released := byte_length (bu_bytes b) in
    update_object id (write_buffer released 0
      (λ b, mkBuffer [] (bu_backing b) true (bu_max b) (bu_shared b) (bu_immutable b)));;
    recharge released 0.

(** [Vec::resize] with zeros. *)
Definition resize_bytes (n : N) (bytes : list N) : list N := resize (N.to_nat n) 0%N bytes.

(** A resize of a shared buffer also resizes the backing; the answer is that backing. *)
Definition resize_buffer (id : ObjectId) (byte_len : N) (shared_operation : bool) : hm (option SharedBuffer) :=
  limit ← hget (λ h, max_heap_bytes (h_config h));
  available ← hget (λ h, (limit - h_managed_bytes h)%N);
  b ← hread (λ h, buffer_slots h id);
  let current := current_length b in
  if negb (Bool.eqb (bu_shared b) shared_operation) || (negb (bu_shared b) && bu_detached b)
  then hfail (InvalidInternalSlot id)
  else if bu_immutable b then hfail ImmutableArrayBuffer
  else
    maximum ← hread (λ _, ok_or (bu_max b) InvalidBufferRange);
    if (maximum <? byte_len)%N || (bu_shared b && (byte_len <? current)%N) then hfail InvalidBufferRange
    else if (available <? byte_len - current)%N then hfail (HeapLimitExceeded limit)
    else
      let accounted := byte_length (bu_bytes b) in
      update_object id (write_buffer accounted byte_len
        (λ b, mkBuffer (resize_bytes byte_len (bu_bytes b)) (bu_backing b) (bu_detached b) (bu_max b) (bu_shared b) (bu_immutable b)));;
      recharge accounted byte_len;;
      mret (bu_backing b).
Definition resize_array_buffer (id : ObjectId) (byte_len : N) : hm (option SharedBuffer) := resize_buffer id byte_len false.
Definition grow_shared_array_buffer (id : ObjectId) (byte_len : N) : hm (option SharedBuffer) := resize_buffer id byte_len true.

(** ** Bytes *)
Definition buffer_bytes (h : Heap) (id : ObjectId) : hresult (list N) :=
  b ← buffer_slots h id;
  if negb (bu_shared b) && bu_detached b then HErr DetachedArrayBuffer else HOk (bu_bytes b).

(** [buffer_bytes_mut]: another kind is an invalid object here. *)
Definition buffer_bytes_mut (h : Heap) (id : ObjectId) : hresult (list N) :=
  k ← kind_of h id;
  match k with
  | ArrayBuffer bytes _ detached _ shared immutable =>
      if negb shared && detached then HErr DetachedArrayBuffer
      else if immutable then HErr ImmutableArrayBuffer
      else HOk bytes
  | _ => HErr (InvalidObject id)
  end.

Definition set_buffer_bytes (id : ObjectId) (bytes : list N) : hm unit :=
  update_object id (write_buffer 0 0
    (λ b, mkBuffer bytes (bu_backing b) (bu_detached b) (bu_max b) (bu_shared b) (bu_immutable b))).

(** A checked range of [bytes]: its end. *)
Definition range_end (offset len : N) (bytes : list N) : option N :=
  e ← checked_usize (offset + len); if (e <=? byte_length bytes)%N then Some e else None.

Definition slice (offset len : N) (bytes : list N) : list N :=
  take (N.to_nat len) (drop (N.to_nat offset) bytes).
Definition splice (offset : N) (values bytes : list N) : list N :=
  take (N.to_nat offset) bytes ++ values ++ drop (N.to_nat offset + length values) bytes.

(** [SharedBuffer::copy] *)
Definition shared_copy (s : SharedBuffer) (offset len : N) : option (list N) :=
  _ ← range_end offset len (shared_bytes s); Some (slice offset len (shared_bytes s)).

(** A write to a shared backing: the backing and what it then holds ([SharedBuffer::write]). *)
Definition SharedWrite : Type := SharedBuffer * list N.
Definition shared_write (s : SharedBuffer) (offset : N) (values : list N) : option SharedWrite :=
  _ ← range_end offset (byte_length values) (shared_bytes s);
  Some (s, splice offset values (shared_bytes s)).

Definition array_buffer_copy (h : Heap) (id : ObjectId) (offset len : N) : hresult (list N) :=
  match shared_buffer_backing h id with
  | HOk s => ok_or (shared_copy s offset len) InvalidBufferRange
  | HErr _ =>
      bytes ← buffer_bytes h id;
      _ ← ok_or (range_end offset len bytes) InvalidBufferRange;
      HOk (slice offset len bytes)
  end.

Definition array_buffer_write (id : ObjectId) (offset : N) (values : list N) : hm (option SharedWrite) :=
  shared ← hget (λ h, shared_buffer_backing h id);
  match shared with
  | HOk s => w ← hread (λ _, ok_or (shared_write s offset values) InvalidBufferRange); mret (Some w)
  | HErr _ =>
      bytes ← hread (λ h, buffer_bytes_mut h id);
      hread (λ _, ok_or (range_end offset (byte_length values) bytes) InvalidBufferRange);;
      set_buffer_bytes id (splice offset values bytes);;
      mret None
  end.

(** ** Data views *)
Definition alloc_data_view (buffer : ObjectId) (byte_offset byte_len : N) (length_tracking : bool)
    (proto : option ObjectId) : hm ObjectId :=
  length ← hread (λ h, validate_buffer h buffer);
  if match checked_usize (byte_offset + byte_len) with Some e => (length <? e)%N | None => true end
  then hfail InvalidBufferRange
  else alloc (DataView buffer byte_offset byte_len length_tracking) proto.

Definition data_view_raw_info (h : Heap) (id : ObjectId) : hresult (ObjectId * N * N) :=
  k ← kind_of h id;
  match k with
  | DataView buffer byte_offset byte_len _ => HOk (buffer, byte_offset, byte_len)
  | _ => HErr (InvalidInternalSlot id)
  end.

Definition data_view_current_info (id : ObjectId) : hm (ObjectId * N * N) :=
  k ← hread (λ h, kind_of h id);
  match k with
  | DataView buffer byte_offset byte_len length_tracking =>
      detached ← hread (λ h, buffer_is_detached h buffer);
      if detached : bool then hfail DetachedArrayBuffer
      else
        available ← hexpect (hread (λ h, buffer_byte_length h buffer));
        if (available <? byte_offset)%N
           || (negb length_tracking && (available <? U64_saturating_add byte_offset byte_len)%N)
        then hfail (InvalidInternalSlot id)
        else mret (buffer, byte_offset, if length_tracking then (available - byte_offset)%N else byte_len)
  | _ => hfail (InvalidInternalSlot id)
  end.

Definition data_view_buffer (h : Heap) (id : ObjectId) : hresult ObjectId :=
  (λ p, p.1.1) <$> data_view_raw_info h id.

(** ** Typed arrays *)
Definition alloc_typed_array (buffer : ObjectId) (byte_offset length : N) (length_tracking : bool)
    (kind : TypedArrayKind) (proto : option ObjectId) : hm ObjectId :=
  byte_len ← hread (λ _, ok_or (checked_usize (length * byte_width kind)) InvalidBufferRange);
  available ← hread (λ h, validate_buffer h buffer);
  if match checked_usize (byte_offset + byte_len) with Some e => (available <? e)%N | None => true end
  then hfail InvalidBufferRange
  else alloc (TypedArray buffer byte_offset length length_tracking kind) proto.

Record TypedArraySlots := mkTypedSlots {
  ta_buffer : ObjectId; ta_offset : N; ta_length : N; ta_tracking : bool; ta_kind : TypedArrayKind }.

Definition typed_slots (h : Heap) (id : ObjectId) : hresult TypedArraySlots :=
  k ← kind_of h id;
  match k with
  | TypedArray buffer offset length tracking kind => HOk (mkTypedSlots buffer offset length tracking kind)
  | _ => HErr (InvalidInternalSlot id)
  end.

Definition typed_array_is_immutable (h : Heap) (id : ObjectId) : hresult bool :=
  t ← typed_slots h id; buffer_is_immutable h (ta_buffer t).

Definition U64_saturating_mul (a b : N) : N := N.min (a * b) USIZE_MAX.

(** Whether a fixed-length view no longer fits its buffer. *)
Definition view_exceeds (t : TypedArraySlots) (available : N) : bool :=
  (available <? U64_saturating_add (ta_offset t) (U64_saturating_mul (ta_length t) (byte_width (ta_kind t))))%N.

(** The elements a view has now. *)
Definition view_length (t : TypedArraySlots) (available : N) : N :=
  if ta_tracking t then (available - ta_offset t) / byte_width (ta_kind t)
  else if view_exceeds t available then 0 else ta_length t.

Definition typed_array_info (id : ObjectId) : hm (ObjectId * N * N * TypedArrayKind) :=
  t ← hread (λ h, typed_slots h id);
  detached ← hread (λ h, buffer_is_detached h (ta_buffer t));
  if detached : bool then mret (ta_buffer t, ta_offset t, 0%N, ta_kind t)
  else
    available ← hexpect (hread (λ h, buffer_byte_length h (ta_buffer t)));
    if (available <? ta_offset t)%N then mret (ta_buffer t, ta_offset t, 0%N, ta_kind t)
    else mret (ta_buffer t, ta_offset t, view_length t available, ta_kind t).

Definition typed_array_is_out_of_bounds (id : ObjectId) : hm bool :=
  t ← hread (λ h, typed_slots h id);
  detached ← hread (λ h, buffer_is_detached h (ta_buffer t));
  if detached : bool then mret true
  else
    available ← hexpect (hread (λ h, buffer_byte_length h (ta_buffer t)));
    if (available <? ta_offset t)%N then mret true
    else mret (negb (ta_tracking t) && view_exceeds t available).

Definition typed_array_is_length_tracking (h : Heap) (id : ObjectId) : hresult bool :=
  ta_tracking <$> typed_slots h id.

Definition typed_array_prevent_extensions_allowed (id : ObjectId) : hm bool :=
  t ← hread (λ h, typed_slots h id);
  resizable ← hread (λ h, buffer_resizable h (ta_buffer t));
  if resizable : bool then mret false
  else if ta_tracking t then
    growable ← hexpect (hread (λ h, buffer_growable h (ta_buffer t))); mret (negb growable)
  else mret true.

(** [typed_array_numeric_key] of an object: only typed arrays claim keys. *)
Definition heap_numeric_key (id : ObjectId) (key : PropertyName) : hm (option TypedArrayNumericKey) :=
  b ← hread (λ h, is_typed_array h id);
  if b : bool then hres (typed_array_numeric_key key) else mret None.

(** [bytes[start..]] panics past the end. *)
Definition bytes_from (start : N) (bytes : list N) : res (list N) :=
  if (byte_length bytes <? start)%N then Panic else Ok (drop (N.to_nat start) bytes).

(** [a * b] on [usize] panics above the maximum. *)
Definition checked_mul_N (max a b : N) : res N := if (a * b <=? max)%N then Ok (a * b)%N else Panic.

(** [byte_offset + index * width], which panics above [usize]. *)
Definition element_start (byte_offset index : N) (kind : TypedArrayKind) : res N :=
  off ← checked_mul_N USIZE_MAX index (byte_width kind); checked_add_N USIZE_MAX byte_offset off.

Definition read_element (buffer : ObjectId) (start : N) (kind : TypedArrayKind) : hm Value :=
  shared ← hget (λ h, shared_buffer_backing h buffer);
  match shared with
  | HOk s => bytes ← hres (unwrap (shared_copy s start (byte_width kind))); hres (typed_read kind bytes)
  | HErr _ =>
      bytes ← hexpect (hread (λ h, buffer_bytes h buffer));
      bytes ← hres (bytes_from start bytes);
      hres (typed_read kind bytes)
  end.

Definition typed_array_index_value (id : ObjectId) (index : N) : hm (option Value) :=
  b ← hread (λ h, is_typed_array h id);
  if negb b then mret None
  else
    '(buffer, byte_offset, length, kind) ← typed_array_info id;
    if (length <=? index)%N then mret None
    else
      start ← hres (element_start byte_offset index kind);
      v ← read_element buffer start kind;
      mret (Some v).

(** Writing [typed_write]'s bytes back into the buffer at [start]. *)
Definition write_at (start : N) (kind : TypedArrayKind) (value : Value) (bytes : list N) : res (list N) :=
  rest ← bytes_from start bytes;
  rest ← typed_write to_signed_bytes_le kind rest value;
  Ok (take (N.to_nat start) bytes ++ rest).

Definition typed_array_set_index (id : ObjectId) (index : N) (value : Value) : hm (bool * option SharedWrite) :=
  '(buffer, byte_offset, length, kind) ← typed_array_info id;
  if (length <=? index)%N then mret (false, None)
  else
    start ← hres (element_start byte_offset index kind);
    shared ← hget (λ h, shared_buffer_backing h buffer);
    match shared with
    | HOk s =>
        bytes ← hres (unwrap (shared_copy s start (byte_width kind)));
        bytes ← hres (typed_write to_signed_bytes_le kind bytes value);
        w ← hres (unwrap (shared_write s start bytes));
        mret (true, Some w)
    | HErr _ =>
        bytes ← hread (λ h, buffer_bytes_mut h buffer);
        bytes ← hres (write_at start kind value bytes);
        set_buffer_bytes buffer bytes;;
        mret (true, None)
    end.

(** Read, then write what [modify] asks for, under the backing's lock. *)
Definition shared_typed_array_atomic_modify {T} (id : ObjectId) (index : N)
    (modify : Value → option Value * T) : hm (T * option SharedWrite) :=
  '(buffer, byte_offset, length, kind) ← typed_array_info id;
  if (length <=? index)%N then hfail InvalidBufferRange
  else
    s ← hread (λ h, shared_buffer_backing h buffer);
    start ← hres (element_start byte_offset index kind);
    bytes ← hread (λ _, ok_or (shared_copy s start (byte_width kind)) InvalidBufferRange);
    current ← hres (typed_read kind bytes);
    let '(replacement, result) := modify current in
    match replacement with
    | None => mret (result, None)
    | Some v =>
        bytes ← hres (typed_write to_signed_bytes_le kind bytes v);
        mret (result, Some (s, splice start bytes (shared_bytes s)))
    end.

Definition typed_array_atomic_modify {T} (id : ObjectId) (index : N)
    (modify : Value → option Value * T) : hm T :=
  '(buffer, byte_offset, length, kind) ← typed_array_info id;
  if (length <=? index)%N then hfail InvalidBufferRange
  else
    start ← hres (element_start byte_offset index kind);
    bytes ← hexpect (hread (λ h, buffer_bytes h buffer));
    rest ← hres (bytes_from start bytes);
    current ← hres (typed_read kind rest);
    let '(replacement, result) := modify current in
    match replacement with
    | None => mret result
    | Some v =>
        bytes ← hread (λ h, buffer_bytes_mut h buffer);
        bytes ← hres (write_at start kind v bytes);
        set_buffer_bytes buffer bytes;;
        mret result
    end.

Definition typed_array_normalize_value (kind : TypedArrayKind) (value : Value) : res Value :=
  bytes ← typed_write to_signed_bytes_le kind (zero_bytes (byte_width kind)) value;
  typed_read kind bytes.

End binary.
