(* ===== verification/JsStorage.v ===== *)
(** * Property storage (bluejs/src/heap/object_storage.rs)

    Own property lookup, definition, assignment and deletion, array lengths and key order.  An
    export of a module namespace and a mapped parameter of an arguments object live in a cell, an
    object whose property [value] holds the binding; cells are followed with fuel, and a cycle of
    cells, on which the code does not return, runs out of it. *)

From S2P Require Import Prelude Sorting Float JsValue JsObject JsHeap JsCore JsSlots JsNumeric JsBinary.

Section storage.
Context {H : JsHost}.
Variable shared_bytes : SharedBuffer → list N.

Definition hfuel {A} : hm A := λ _, OutOfFuel.

Definition name (s : rstring) : PropertyName := PString (encode_utf16 s).
Definition length_name : PropertyName := name (str "length").
Definition value_name : PropertyName := name (str "value").

(** [self.objects[&id]] *)
Definition indexed (id : ObjectId) : hm Object := λ h,
  match h_objects h !! id with Some o => Ok (h, HOk o) | None => Panic end.

(** ** What an object holds *)

(** [Object::own_property] *)
Definition own_property (o : Object) (key : PropertyName) : option Value :=
  match match o_kind o with KString s => string_property s key | _ => None end with
  | Some v => Some v
  | None =>
      match o_kind o with
      | KArray length => if is_name key (str "length") then Some (VNumber (f64_of_Z (Z.of_N length)))
                         else o_properties o !! pkey key
      | _ => o_properties o !! pkey key
      end
  end.

Definition is_array (h : Heap) (id : ObjectId) : hresult bool :=
  (λ k, match k with KArray _ => true | _ => false end) <$> kind_of h id.
Definition is_arguments (h : Heap) (id : ObjectId) : hresult bool :=
  (λ k, match k with Arguments_ _ => true | _ => false end) <$> kind_of h id.
Definition is_module_namespace (h : Heap) (id : ObjectId) : hresult bool :=
  (λ k, match k with ModuleNamespace _ => true | _ => false end) <$> kind_of h id.

Definition arguments_parameter_cell (h : Heap) (id : ObjectId) (key : PropertyName) : hresult (option ObjectId) :=
  (λ k, match k with Arguments_ parameter_map => parameter_map !! pkey key | _ => None end) <$> kind_of h id.

Fixpoint find_export (name : JsString) (exports : list (JsString * ObjectId)) : option ObjectId :=
  match exports with
  | [] => None
  | (export, cell) :: exports => if bool_decide (export = name) then Some cell else find_export name exports
  end.

Definition module_namespace_export_cell (h : Heap) (id : ObjectId) (key : PropertyName) : hresult (option ObjectId) :=
  match key with
  | PSymbol _ => HOk None
  | PString name =>
      (λ k, match k with ModuleNamespace exports => find_export name exports | _ => None end) <$> kind_of h id
  end.

Definition unmap_arguments_property (id : ObjectId) (key : PropertyName) : hm unit :=
  k ← hread (λ h, kind_of h id);
  match k with
  | Arguments_ parameter_map => update_object id (λ o, Ok (o_set_kind (Arguments_ (delete (pkey key) parameter_map)) o))
  | _ => mret ()
  end.

Definition string_virtual (o : Object) (key : PropertyName) : bool :=
  match o_kind o with
  | KString s => match string_property s key with Some _ => true | None => false end
  | _ => false
  end.

Definition is_array_length (o : Object) (key : PropertyName) : bool :=
  match o_kind o with KArray _ => is_name key (str "length") | _ => false end.

(** An index at or above the length of an array whose length is read-only. *)
Definition grows_fixed_array (o : Object) (key : PropertyName) : bool :=
  match o_kind o with
  | KArray length =>
      match array_index key with Some index => (length <=? index)%N | None => false end
      && match o_attributes o !! pkey length_name with
         | Some d => bool_decide (pd_writable d = Some false)
         | None => false
         end
  | _ => false
  end.

(** ** Lookup *)
Fixpoint get_own_fuel (fuel : nat) (id : ObjectId) (key : PropertyName) : hm (option Value) :=
  match fuel with
  | O => hfuel
  | S fuel =>
      numeric ← heap_numeric_key id key;
      match numeric with
      | Some (NumericIndex index) => typed_array_index_value shared_bytes id index
      | Some NumericInvalid => mret None
      | None =>
          cell ← hexpect (hread (λ h, module_namespace_export_cell h id key));
          match cell with
          | Some cell =>
              v ← get_own_fuel fuel cell value_name;
              v ← hread (λ _, ok_or v UninitializedModuleExport);
              mret (Some v)
          | None => o ← indexed id; mret (own_property o key)
          end
      end
  end.

(** A chain of cells without a cycle is no longer than the heap. *)
Definition get_own (id : ObjectId) (key : PropertyName) : hm (option Value) := λ h,
  get_own_fuel (S (size (h_objects h))) id key h.

Fixpoint get_fuel (fuel : nat) (current : option ObjectId) (key : PropertyName) : hm Value :=
  match current with
  | None => mret VUndefined
  | Some id =>
      match fuel with
      | O => hfuel
      | S fuel =>
          numeric ← heap_numeric_key id key;
          match numeric with
          | Some (NumericIndex index) =>
              v ← typed_array_index_value shared_bytes id index; mret (default VUndefined v)
          | Some NumericInvalid => mret VUndefined
          | None =>
              cell ← hexpect (hread (λ h, module_namespace_export_cell h id key));
              match cell with
              | Some cell => v ← get_own cell value_name; hread (λ _, ok_or v UninitializedModuleExport)
              | None =>
                  mapped ← hexpect (hread (λ h, arguments_parameter_cell h id key));
                  match mapped with
                  | Some cell => v ← get_own cell value_name; mret (default VUndefined v)
                  | None =>
                      o ← indexed id;
                      match own_property o key with
                      | Some v => mret v
                      | None => get_fuel fuel (o_prototype o) key
                      end
                  end
              end
          end
      end
  end.

Definition get (id : ObjectId) (key : PropertyName) : hm Value := λ h,
  get_fuel (S (size (h_objects h))) (Some id) key h.

Definition set_pd_value (v : option Value) (d : PropertyDescriptor) : PropertyDescriptor :=
  mkPropertyDescriptor v (pd_writable d) (pd_get d) (pd_set d) (pd_enumerable d) (pd_configurable d).

(** The descriptor of what an ordinary object holds; [mapped] is the cell of a mapped argument. *)
Definition stored_descriptor (o : Object) (key : PropertyName) (mapped : option ObjectId) : hm (option PropertyDescriptor) :=
  match o_attributes o !! pkey key with
  | Some d =>
      if accessor d then mret (Some d)
      else
        value ← match mapped with
                | Some cell => get_own cell value_name
                | None => mret (own_property o key)
                end;
        mret (Some (set_pd_value value d))
  | None =>
      match own_property o key with
      | None => mret None
      | Some value =>
          value ← match mapped with
                  | Some cell => v ← get_own cell value_name; mret (default value v)
                  | None => mret value
                  end;
          let virtual := string_virtual o key in
          let length := match o_kind o with KArray _ | KString _ => is_name key (str "length") | _ => false end in
          mret (Some (data_descriptor value (negb virtual) (negb length) (negb virtual && negb length)))
      end
  end.

Definition get_own_property_descriptor (id : ObjectId) (key : PropertyName) : hm (option PropertyDescriptor) :=
  numeric ← heap_numeric_key id key;
  match numeric with
  | Some (NumericIndex index) =>
      v ← typed_array_index_value shared_bytes id index;
      match v with
      | Some value =>
          immutable ← hexpect (hread (λ h, typed_array_is_immutable h id));
          mret (Some (data_descriptor value (negb immutable) true (negb immutable)))
      | None => mret None
      end
  | Some NumericInvalid => mret None
  | None =>
      cell ← hexpect (hread (λ h, module_namespace_export_cell h id key));
      match cell with
      | Some cell =>
          v ← get_own cell value_name;
          value ← hread (λ _, ok_or v UninitializedModuleExport);
          mret (Some (data_descriptor value true true false))
      | None =>
          mapped ← hexpect (hread (λ h, arguments_parameter_cell h id key));
          o ← indexed id;
          stored_descriptor o key mapped
      end
  end.

(** ** Deletion *)
Definition remove_name (key : PropertyName) (order : list PropertyName) : list PropertyName :=
  filter (λ n, pkey n ≠ pkey key) order.

Definition delete_key (id : ObjectId) (key : PropertyName) : hm bool :=
  numeric ← heap_numeric_key id key;
  match numeric with
  | Some NumericInvalid => mret true
  | Some (NumericIndex index) =>
      '(buffer, _, length, _) ← typed_array_info shared_bytes id;
      detached ← hexpect (hread (λ h, buffer_is_detached h buffer));
      mret (detached || (length <=? index)%N)
  | None =>
      cell ← hexpect (hread (λ h, module_namespace_export_cell h id key));
      namespace ← hexpect (hread (λ h, is_module_namespace h id));
      match cell, namespace && match key with PString _ => true | PSymbol _ => false end with
      | Some _, _ => mret false
      | None, true => mret true
      | None, false =>
          mapped ← hexpect (hread (λ h, arguments_parameter_cell h id key));
          o ← hexpect (hread (λ h, object h id));
          if match o_attributes o !! pkey key with
             | Some d => bool_decide (pd_configurable d = Some false)
             | None => false
             end then mret false
          else if string_virtual o key then mret false
          else if is_array_length o key then mret false
          else
            match o_properties o !! pkey key with
            | None => mret ()
            | Some value =>
                let removed := match o_attributes o !! pkey key with Some d => attribute_bytes key d | None => 0%N end in
                let bytes := (property_bytes key value + removed)%N in
                update_object id (λ o, recharge_object bytes 0
                  (o_set_properties (delete (pkey key) (o_properties o))
                    (o_set_attributes (delete (pkey key) (o_attributes o))
                      (o_set_order (remove_name key (o_order o)) o))));;
                recharge bytes 0;;
                hmod (λ h, h_set_structure_epoch (h_structure_epoch h + 1)%N h)
            end;;
            match mapped with
            | Some _ => hexpect (unmap_arguments_property id key);; mret true
            | None => mret true
            end
      end
  end.

(** ** Array lengths *)

(** [sort_unstable_by_key] over distinct indices: the order of equal keys does not arise. *)
Definition index_leb (a b : N * PropertyName) : bool := (a.1 <=? b.1)%N.
Definition index_geb (a b : N * PropertyName) : bool := (b.1 <=? a.1)%N.

Definition indices_from (new_length : N) (order : list PropertyName) : list (N * PropertyName) :=
  omap (λ key, match array_index key with
               | Some index => if (new_length <=? index)%N then Some (index, key) else None
               | None => None
               end) order.

Definition set_length (id : ObjectId) (length : N) : hm unit :=
  update_object id (λ o, match o_kind o with KArray _ => Ok (o_set_kind (KArray length) o) | _ => Panic end).

(** Elements go from the top; the first that cannot go stops the truncation above it. *)
Fixpoint truncate_elements (id : ObjectId) (l : list (N * PropertyName)) : hm unit :=
  match l with
  | [] => mret ()
  | (index, key) :: l =>
      deleted ← hexpect (delete_key id key);
      if deleted : bool then truncate_elements id l
      else set_length id (index + 1)%N;; hfail ReadOnlyProperty
  end.

Definition f64_fract_is_zero (n : f64) : bool := f64_eqb (f64_sub n (f64_trunc n)) f64_zero.
Definition f64_as_u32 (n : f64) : N := Z.to_N (cast_sat 0 (Z.of_N U32_MAX) trunc_Z n).

Definition array_length_value (v : Value) : option N :=
  match v with
  | VNumber n =>
      if f64_leb f64_zero n && f64_leb n (f64_of_Z (Z.of_N U32_MAX)) && f64_fract_is_zero n
      then Some (f64_as_u32 n) else None
  | _ => None
  end.

Definition set_array_length (id : ObjectId) (value : Value) : hm unit :=
  new_length ← hread (λ _, ok_or (array_length_value value) InvalidArrayLength);
  o ← hread (λ h, object h id);
  match o_kind o with
  | KArray old_length =>
      (if (new_length <? old_length)%N
       then truncate_elements id (stable_sort index_geb (indices_from new_length (o_order o)))
       else mret ());;
      set_length id new_length
  | _ => hfail (InvalidInternalSlot id)
  end.

(** ** Assignment *)
Definition present_property (o : Object) (key : PropertyName) : bool :=
  match o_properties o !! pkey key with Some _ => true | None => false end.

(** Inserts a property: a new name goes to the end of the order, an index grows an array. *)
Definition insert_property (key : PropertyName) (value : Value) (o : Object) : Object :=
  let o := if present_property o key then o else o_set_order (o_order o ++ [key]) o in
  let o := match o_kind o, array_index key with
           | KArray length, Some index => o_set_kind (KArray (N.max length (index + 1))) o
           | _, _ => o
           end in
  o_set_properties (<[pkey key := value]> (o_properties o)) o.

Definition bump_epoch (o : Object) (key : PropertyName) : hm unit :=
  if present_property o key then mret ()
  else hmod (λ h, h_set_structure_epoch (h_structure_epoch h + 1)%N h).

Definition stored_bytes (o : Object) (key : PropertyName) : N :=
  match o_properties o !! pkey key with Some v => property_bytes key v | None => 0 end.
Definition stored_attribute_charge (o : Object) (key : PropertyName) : N :=
  match o_attributes o !! pkey key with Some d => attribute_bytes key d | None => 0 end.

Definition read_only (o : Object) (key : PropertyName) : bool :=
  match o_attributes o !! pkey key with
  | Some d => accessor d || bool_decide (pd_writable d = Some false)
  | None => false
  end
  || (negb (o_extensible o) && bool_decide (own_property o key = None))
  || grows_fixed_array o key
  || string_virtual o key.

Fixpoint set_fuel (fuel : nat) (id : ObjectId) (key : PropertyName) (value : Value) : hm unit :=
  match fuel with
  | O => hfuel
  | S fuel =>
      numeric ← heap_numeric_key id key;
      match numeric with
      | Some _ => hfail ReadOnlyProperty
      | None =>
          cell ← hexpect (hread (λ h, module_namespace_export_cell h id key));
          match cell with
          | Some _ => hfail ReadOnlyProperty
          | None =>
              mapped ← hexpect (hread (λ h, arguments_parameter_cell h id key));
              o ← indexed id;
              if read_only o key then hfail ReadOnlyProperty
              else
                let old := stored_bytes o key in
                check_ref (object_id value);;
                if is_array_length o key then set_array_length id value
                else
                  let new := property_bytes key value in
                  ensure_room (saturating_sub new old) (id :: option_list (object_id value));;
                  barrier id (object_id value);;
                  o ← hexpect (hread (λ h, object h id));
                  bump_epoch o key;;
                  update_object id (λ o, recharge_object old new (insert_property key value o));;
                  recharge old new;;
                  match mapped with
                  | Some cell => set_fuel fuel cell value_name value
                  | None => mret ()
                  end
          end
      end
  end.

Definition set (id : ObjectId) (key : PropertyName) (value : Value) : hm unit := λ h,
  set_fuel (S (size (h_objects h))) id key value h.

(** ** Definition *)
Definition opt_is {A} `{EqDecision A} (o : option A) (a : A) : bool := bool_decide (o = Some a).

(** The parts of the descriptor that are present differ from the property's. *)
Definition differs_same_value (new old : option Value) : res bool :=
  match new with
  | Some v => o ← unwrap old; Ok (negb (same_value v o))
  | None => Ok false
  end.

Definition defines_data (d : PropertyDescriptor) : bool :=
  bool_decide (is_Some (pd_value d)) || bool_decide (is_Some (pd_writable d)).

(** The check of a change to a property that is not configurable. *)
Definition change_refused (old d : PropertyDescriptor) : res bool :=
  if negb (opt_is (pd_configurable old) false) then Ok false
  else if opt_is (pd_configurable d) true
          || match pd_enumerable d with Some v => negb (bool_decide (Some v = pd_enumerable old)) | None => false end
  then Ok true
  else if (if accessor d then negb (accessor old) else defines_data d && accessor old) then Ok true
  else if accessor old then
    g ← differs_same_value (pd_get d) (pd_get old);
    if g : bool then Ok true else differs_same_value (pd_set d) (pd_set old)
  else if opt_is (pd_writable old) false then
    if opt_is (pd_writable d) true then Ok true else differs_same_value (pd_value d) (pd_value old)
  else Ok false.

Definition some_or {A} (a b : option A) : option A := match a with Some _ => a | None => b end.

Definition merge_descriptor (old : option PropertyDescriptor) (d : PropertyDescriptor) : PropertyDescriptor :=
  let m := default (data_descriptor VUndefined false false false) old in
  let m :=
    if accessor d && negb (accessor m)
    then mkPropertyDescriptor None None (Some VUndefined) (Some VUndefined) (pd_enumerable m) (pd_configurable m)
    else if accessor m && defines_data d
    then mkPropertyDescriptor (Some VUndefined) (Some false) None None (pd_enumerable m) (pd_configurable m)
    else m in
  mkPropertyDescriptor (some_or (pd_value d) (pd_value m)) (some_or (pd_writable d) (pd_writable m))
    (some_or (pd_get d) (pd_get m)) (some_or (pd_set d) (pd_set m))
    (some_or (pd_enumerable d) (pd_enumerable m)) (some_or (pd_configurable d) (pd_configurable m)).

(** A definition on an export of a namespace succeeds when it asks for what is there. *)
Definition define_on_export (current : Value) (d : PropertyDescriptor) : bool :=
  if opt_is (pd_configurable d) true || opt_is (pd_enumerable d) false || accessor d || opt_is (pd_writable d) false
  then false
  else match pd_value d with Some v => same_value v current | None => true end.

(** [set_array_length] where a read-only element is an answer, not an error. *)
Definition define_length (id : ObjectId) (value : Value) : hm bool := λ h,
  match set_array_length id value h with
  | Ok (h', HOk _) => Ok (h', HOk false)
  | Ok (h', HErr ReadOnlyProperty) => Ok (h', HOk true)
  | Ok (h', HErr e) => Ok (h', HErr e)
  | Panic => Panic
  | OutOfFuel => OutOfFuel
  end.

(** The write of a definition: the property, unless it is an array's length, and its attributes. *)
Definition define_property (key : PropertyName) (value : Value) (merged : PropertyDescriptor) (virtual_length : bool)
    (o : Object) : Object :=
  let o := if virtual_length then o else insert_property key value o in
  o_set_attributes (<[pkey key := merged]> (o_attributes o)) o.

Definition store_definition (id : ObjectId) (key : PropertyName) (merged : PropertyDescriptor) : hm bool :=
  o ← indexed id;
  let virtual_length := is_array_length o key in
  let value := default VUndefined (pd_value merged) in
  let merged := set_pd_value None merged in
  let old := (stored_bytes o key + stored_attribute_charge o key)%N in
  let new := ((if virtual_length then 0 else property_bytes key value) + attribute_bytes key merged)%N in
  let refs := option_list (object_id value) ++ object_ids (option_list (pd_get merged) ++ option_list (pd_set merged)) in
  check_refs (id :: refs);;
  ensure_room (saturating_sub new old) (id :: refs);;
  length_failed ← (if virtual_length then define_length id value else mret false);
  barriers id refs;;
  o ← indexed id;
  (if virtual_length then mret () else bump_epoch o key);;
  update_object id (λ o, recharge_object old new (define_property key value merged virtual_length o));;
  recharge old new;;
  mret length_failed.

(** What a definition does to the cell of a mapped argument. *)
Definition update_mapping (id : ObjectId) (key : PropertyName) (mapped : option ObjectId) (d : PropertyDescriptor)
    (length_failed : bool) : hm unit :=
  match mapped with
  | None => mret ()
  | Some cell =>
      match (if length_failed || accessor d then None else pd_value d) with
      | Some value => set cell value_name value
      | None => mret ()
      end;;
      if negb length_failed && (accessor d || opt_is (pd_writable d) false)
      then hexpect (unmap_arguments_property id key) else mret ()
  end.

Definition define_own_property (id : ObjectId) (key : PropertyName) (d : PropertyDescriptor) : hm bool :=
  if accessor d && defines_data d then mret false
  else
    cell ← hread (λ h, module_namespace_export_cell h id key);
    match cell with
    | Some cell =>
        v ← get_own cell value_name;
        current ← hread (λ _, ok_or v UninitializedModuleExport);
        mret (define_on_export current d)
    | None =>
        namespace ← hread (λ h, is_module_namespace h id);
        if namespace && match key with PString _ => true | PSymbol _ => false end then mret false
        else
          mapped ← hexpect (hread (λ h, arguments_parameter_cell h id key));
          old ← get_own_property_descriptor id key;
          o ← indexed id;
          if (bool_decide (old = None) && negb (o_extensible o)) || grows_fixed_array o key then mret false
          else
            refused ← hres match old with Some old => change_refused old d | None => Ok false end;
            if refused : bool then mret false
            else if string_virtual o key then mret true
            else
              length_failed ← store_definition id key (merge_descriptor old d);
              update_mapping id key mapped d length_failed;;
              mret (negb length_failed)
    end.

(** ** Keys *)

(** [ordered_stored_property_keys]: indices ascending, strings and symbols in the given order. *)
Definition split_key (acc : list (N * PropertyName) * list PropertyName * list PropertyName) (key : PropertyName)
    : list (N * PropertyName) * list PropertyName * list PropertyName :=
  let '(indices, strings, symbols) := acc in
  match key with
  | PSymbol _ => (indices, strings, symbols ++ [key])
  | PString _ =>
      match array_index key with
      | Some index => (indices ++ [(index, key)], strings, symbols)
      | None => (indices, strings ++ [key], symbols)
      end
  end.

Definition ordered_stored_property_keys (order : list PropertyName) (indices : list (N * PropertyName))
    (strings : list PropertyName) : list PropertyName :=
  let '(indices, strings, symbols) := foldl split_key (indices, strings, []) order in
  (snd <$> stable_sort index_leb indices) ++ strings ++ symbols.

(** The virtual indices of a string or a typed array. *)
Definition virtual_indices (n : N) : list (N * PropertyName) :=
  (λ i, (N.of_nat i, PString (encode_utf16 (decimal (N.of_nat i))))) <$> seq 0 (N.to_nat n).

Definition own_property_keys (id : ObjectId) : hm (list PropertyName) :=
  o ← hread (λ h, object h id);
  match o_kind o with
  | ModuleNamespace exports => mret ((PString ∘ fst <$> exports) ++ o_order o)
  | _ =>
      indices ← match o_kind o with
                | KString s => mret (virtual_indices (N.of_nat (length s)))
                | TypedArray buffer _ _ _ _ =>
                    detached ← hread (λ h, buffer_is_detached h buffer);
                    if detached : bool then mret []
                    else '(_, _, length, _) ← hexpect (typed_array_info shared_bytes id); mret (virtual_indices length)
                | _ => mret []
                end;
      let strings := match o_kind o with KArray _ | KString _ => [length_name] | _ => [] end in
      mret (ordered_stored_property_keys (o_order o) indices strings)
  end.

Definition own_integer_keys (h : Heap) (id : ObjectId) : hresult (option (list N)) :=
  (λ o, match o_kind o with
        | KProxy _ _ _ _ | KString _ | TypedArray _ _ _ _ _ | ModuleNamespace _ => None
        | _ => Some (stable_sort N.leb (omap name_index (o_order o)))
        end) <$> object h id.

Definition own_keys (id : ObjectId) : hm (list JsString) :=
  keys ← own_property_keys id; mret (omap into_string keys).

Definition key_enumerable (o : Object) (key : JsString) : bool :=
  match o_attributes o !! pkey (PString key) with
  | Some d => opt_is (pd_enumerable d) true
  | None => true
  end.

Definition enumerable_own_keys (id : ObjectId) : hm (list JsString) :=
  k ← hread (λ h, kind_of h id);
  let virtual_length := match k with KArray _ | KString _ => true | _ => false end in
  keys ← own_keys id;
  match keys with
  | [] => mret []
  | _ =>
      o ← indexed id;
      mret (filter (λ key, negb (virtual_length && is_name (PString key) (str "length")) && key_enumerable o key = true) keys)
  end.

(** ** Module namespaces *)
Definition to_string_tag : res JsSymbol := well_known (str "toStringTag").

Definition alloc_module_namespace (exports : list (JsString * ObjectId)) (deferred : bool) : hm ObjectId :=
  check_refs (snd <$> exports);;
  namespace ← alloc (ModuleNamespace (sort_exports exports)) None;
  tag ← hres to_string_tag;
  define_own_property namespace (PSymbol tag)
    (data_descriptor (VString (encode_utf16 (if deferred then str "Deferred Module" else str "Module"))) false false false);;
  hexpect (prevent_extensions namespace);;
  mret namespace.
End storage.
