(* ===== verification/JsFrame.v ===== *)
(** * Specifications of heap operations

    [wp m Q h]: from [h] the operation returns, without a panic, in a heap and with an answer that
    satisfy [Q].  [keeps m]: whenever the operation returns, every surviving object has the
    properties, the order, the attributes and the exotic slots it had; collections, the writes to
    internal slots and the bookkeeping of the collector are of this kind. *)

From S2P Require Import Prelude Float JsValue JsObject JsCollection JsHeap JsMark JsGc JsCore JsSlots JsHeapInv.

Section frame.
Context {H : JsHost}.

(** ** Total correctness *)
Definition wp {A} (m : hm A) (Q : Heap → hresult A → Prop) (h : Heap) : Prop :=
  ∃ h' r, m h = Ok (h', r) ∧ Q h' r.

Lemma wp_ret {A} (a : A) Q h : Q h (HOk a) → wp (mret a) Q h.
Proof. intros. by exists h, (HOk a). Qed.
Lemma wp_fail {A} e (Q : Heap → hresult A → Prop) h : Q h (HErr e) → wp (hfail e) Q h.
Proof. intros. by exists h, (HErr e). Qed.
Lemma wp_bind {A B} (m : hm A) (f : A → hm B) Q h :
  wp m (λ h1 r, match r with HOk a => wp (f a) Q h1 | HErr e => Q h1 (HErr e) end) h → wp (m ≫= f) Q h.
Proof.
  intros (h1 & r & E & HQ). unfold wp, mbind, hm_bind. rewrite E. destruct r as [a|e]; [done|].
  by exists h1, (HErr e).
Qed.
Lemma wp_mono {A} (m : hm A) (P Q : Heap → hresult A → Prop) h :
  wp m P h → (∀ h' r, P h' r → Q h' r) → wp m Q h.
Proof. intros (h' & r & E & HP) HPQ. exists h', r. auto. Qed.
Lemma wp_read {A B} (f : Heap → hresult A) (k : A → hm B) Q h :
  match f h with HOk a => wp (k a) Q h | HErr e => Q h (HErr e) end → wp (hread f ≫= k) Q h.
Proof. intros. apply wp_bind. by exists h, (f h). Qed.
Lemma wp_get {A B} (f : Heap → A) (k : A → hm B) Q h : wp (k (f h)) Q h → wp (hget f ≫= k) Q h.
Proof. intros. apply wp_bind. by exists h, (HOk (f h)). Qed.
Lemma wp_res {A B} (m : res A) a (k : A → hm B) Q h : m = Ok a → wp (k a) Q h → wp (hres m ≫= k) Q h.
Proof. intros -> ?. apply wp_bind. by exists h, (HOk a). Qed.
Lemma wp_expect {A B} (f : Heap → hresult A) a (k : A → hm B) Q h :
  f h = HOk a → wp (k a) Q h → wp (hexpect (hread f) ≫= k) Q h.
Proof. intros E ?. apply wp_bind. exists h, (HOk a). split; [|done]. unfold hexpect, hread. by rewrite E. Qed.
Lemma wp_step {A B} (m : hm A) (f : A → hm B) Q h h1 a : m h = Ok (h1, HOk a) → wp (f a) Q h1 → wp (m ≫= f) Q h.
Proof. intros E ?. apply wp_bind. by exists h1, (HOk a). Qed.

(** What an operation that cannot fail silently returns. *)
Lemma wp_run {A} (m : hm A) Q h h' r : wp m Q h → m h = Ok (h', r) → Q h' r.
Proof. intros (h1 & r1 & E & HQ) E'. rewrite E in E'. by injection E' as -> ->. Qed.

(** ** What storage is *)

(** The slots of a kind that decide what its properties are. *)
Definition storage_kind (k : ObjectKind) : ObjectKind :=
  match k with
  | Ordinary | KArray _ | Arguments_ _ | ModuleNamespace _ | KString _ | TypedArray _ _ _ _ _ => k
  | _ => RawJson
  end.

Record same_storage (o o' : Object) : Prop := {
  ss_kind : storage_kind (o_kind o') = storage_kind (o_kind o);
  ss_properties : o_properties o' = o_properties o;
  ss_order : o_order o' = o_order o;
  ss_attributes : o_attributes o' = o_attributes o;
  ss_extensible : o_extensible o' = true → o_extensible o = true;
}.

#[export] Instance same_storage_refl : Reflexive same_storage.
Proof. by intros o; split. Qed.
#[export] Instance same_storage_trans : Transitive same_storage.
Proof.
  intros o1 o2 o3 [K12 P12 O12 A12 E12] [K23 P23 O23 A23 E23]. split; [congruence..|auto].
Qed.

(** Nothing is allocated, and every surviving object is related to what it was. *)
Definition same_ids (h h' : Heap) : Prop := h_identity h' = h_identity h ∧ h_next_object h' = h_next_object h.
Definition each (R : ObjectId → Object → Object → Prop) (h h' : Heap) : Prop :=
  same_ids h h' ∧ ∀ id o', h_objects h' !! id = Some o' → ∃ o, h_objects h !! id = Some o ∧ R id o o'.

Definition keeps_heap : Heap → Heap → Prop := each (λ _, same_storage).

Lemma each_mono (R S : ObjectId → Object → Object → Prop) h h' :
  (∀ id o o', h_objects h !! id = Some o → R id o o' → S id o o') → each R h h' → each S h h'.
Proof. intros HRS [Hi HR]. split; [done|]. intros id o' E'. destruct (HR id o' E') as (o & E & ?). eauto. Qed.
Lemma each_trans (R S T : ObjectId → Object → Object → Prop) h1 h2 h3 :
  (∀ id o1 o2 o3, R id o1 o2 → S id o2 o3 → T id o1 o3) → each R h1 h2 → each S h2 h3 → each T h1 h3.
Proof.
  intros HT [[I1 I2] HR] [[J1 J2] HS]. split; [split; congruence|]. intros id o3 E3. destruct (HS id o3 E3) as (o2 & E2 & ?). destruct (HR id o2 E2) as (o1 & E1 & ?). eauto.
Qed.
#[export] Instance keeps_heap_refl : Reflexive keeps_heap.
Proof. intros h. split; [done|]. intros id o E. by exists o. Qed.
#[export] Instance keeps_heap_trans : Transitive keeps_heap.
Proof. intros h1 h2 h3. apply each_trans. intros _. apply same_storage_trans. Qed.

Lemma keeps_objects h h' : h_objects h' = h_objects h → same_ids h h' → keeps_heap h h'.
Proof. intros E I. split; [done|]. intros id o. rewrite E. intros Eo. by exists o. Qed.

Lemma each_insert (R : ObjectId → Object → Object → Prop) h h' id o o' :
  (∀ a oa, R a oa oa) → h_objects h !! id = Some o → h_objects h' = <[id := o']> (h_objects h) → same_ids h h' →
  R id o o' → each R h h'.
Proof.
  intros Hr E Eh I HR. split; [done|]. intros a oa. rewrite Eh. intros [[<- <-]|[_ Ea]]%lookup_insert_Some; eauto.
Qed.

(** ** Partial correctness *)
Definition keeps {A} (m : hm A) : Prop := ∀ h h' r, m h = Ok (h', r) → keeps_heap h h'.

Lemma keeps_mret {A} (a : A) : keeps (mret a).
Proof. intros h h' r [= <- _]. done. Qed.
Lemma keeps_fail {A} e : keeps (@hfail H A e).
Proof. intros h h' r [= <- _]. done. Qed.
Lemma keeps_read {A} (f : Heap → hresult A) : keeps (hread f).
Proof. intros h h' r [= <- _]. done. Qed.
Lemma keeps_get {A} (f : Heap → A) : keeps (hget f).
Proof. intros h h' r [= <- _]. done. Qed.
Lemma keeps_res {A} (m : res A) : keeps (hres m).
Proof. intros h h' r E. unfold hres in E. destruct m; [|done..]. by injection E as <- _. Qed.
Lemma keeps_mbind {A B} (m : hm A) (f : A → hm B) : keeps m → (∀ a, keeps (f a)) → keeps (m ≫= f).
Proof.
  intros Km Kf h h' r. unfold mbind, hm_bind. destruct (m h) as [[h1 [a|e]]| |] eqn:E; try done.
  - intros E'. etrans; [by eapply Km|by eapply Kf].
  - intros [= <- <-]. by eapply Km.
Qed.
Lemma keeps_expect {A} (m : hm A) : keeps m → keeps (hexpect m).
Proof.
  intros Km h h' r E. unfold hexpect in E. destruct (m h) as [[h1 [a|e]]| |] eqn:Em; try done.
  injection E as <- <-. by eapply Km.
Qed.
Lemma keeps_upd f : (∀ h h', f h = Ok h' → keeps_heap h h') → keeps (hupd f).
Proof.
  intros Kf h h' r E. unfold hupd in E. destruct (f h) as [h1| |] eqn:Ef; try done.
  injection E as <- _. auto.
Qed.
Lemma keeps_mod f : (∀ h, h_objects (f h) = h_objects h ∧ same_ids h (f h)) → keeps (hmod f).
Proof. intros Kf h h' r [= <- _]. by apply keeps_objects; apply Kf. Qed.
Lemma keeps_update id f : (∀ o o', f o = Ok o' → same_storage o o') → keeps (update_object id f).
Proof.
  intros Kf. apply keeps_upd. intros h h' E. destruct (h_objects h !! id) as [o|] eqn:Eo; [|done]. cbn in E.
  destruct (f o) as [o'| |] eqn:Ef; try done. apply Ok_inj in E as <-.
  eapply each_insert; [intros; reflexivity|exact Eo|reflexivity|done|auto].
Qed.

Lemma keeps_recharge old new : keeps (recharge old new).
Proof.
  apply keeps_upd. intros h h' E. destruct (checked_sub_N _ _); cbn in E; [|done..].
  destruct (checked_add_N _ _ _); cbn in E; [|done..]. apply Ok_inj in E as <-. by apply keeps_objects.
Qed.

Lemma keeps_check r : keeps (check_ref r).
Proof. destruct r; [apply keeps_mbind; [apply keeps_read|intros; apply keeps_mret]|apply keeps_mret]. Qed.

Lemma keeps_barrier id t : keeps (barrier id t).
Proof.
  apply keeps_upd. intros h h' E. unfold write_barrier in E. destruct t as [t|]; [|by apply Ok_inj in E as <-].
  destruct (h_objects h !! id) as [o|]; cbn in E; [|done]. destruct (o_young o); [by apply Ok_inj in E as <-|].
  destruct (h_objects h !! t) as [ot|]; cbn in E; [|done].
  destruct (o_young ot); apply Ok_inj in E as <-; by apply keeps_objects.
Qed.

Lemma keeps_barriers id refs : keeps (barriers id refs).
Proof. induction refs; [apply keeps_mret|]. apply keeps_mbind; [apply keeps_barrier|done]. Qed.

(** The charge of an object is not storage. *)
Lemma recharge_same o o1 o' old new : recharge_object old new o1 = Ok o' → same_storage o o1 → same_storage o o'.
Proof.
  unfold recharge_object. destruct (checked_sub_N _ _); cbn; [|done..]. destruct (checked_add_N _ _ _); cbn; [|done..].
  by intros <-%Ok_inj [].
Qed.

Lemma same_set_kind o k : storage_kind k = storage_kind (o_kind o) → same_storage o (o_set_kind k o).
Proof. by split. Qed.

(** ** Collections *)
Lemma sweep_same dead o : same_storage o (sweep_object dead o).
Proof. split; try done. cbn. by destruct (o_kind o). Qed.

Lemma keeps_sweep_weak dead h h' : sweep_weak dead h = Ok h' → keeps_heap h h'.
Proof.
  unfold sweep_weak. destruct (forallb _ _); [|done]. destruct (checked_sub_N _ _); cbn; [|done..].
  intros <-%Ok_inj. split; [done|]. intros id o'. cbn. rewrite lookup_fmap. intros (o & -> & ->)%fmap_Some. exists o. split; [done|apply sweep_same].
Qed.

Lemma keeps_sweep_one marked id h h' : minor_sweep_one marked id h = Ok h' → keeps_heap h h'.
Proof.
  unfold minor_sweep_one. destruct (h_objects h !! id) as [o|] eqn:E; cbn; [|done]. destruct (bool_decide _).
  - intros <-%Ok_inj. by eapply each_insert; [intros; reflexivity|exact E|reflexivity|done|].
  - destruct (checked_sub_N _ _) as [m| |]; cbn; [|done..]. intros Hm.
    assert (h_objects h' = delete id (h_objects h) ∧ same_ids h h') as [Eh I].
    { destruct (h_closure_metadata h !! id); [|by apply Ok_inj in Hm as <-].
      destruct (checked_sub_N m _); cbn in Hm; [|done..]. by apply Ok_inj in Hm as <-. }
    split; [done|]. intros a oa. rewrite Eh. intros [_ Ea]%lookup_delete_Some. by exists oa.
Qed.

Lemma keeps_minor_sweep marked nursery h h' : minor_sweep marked nursery h = Ok h' → keeps_heap h h'.
Proof.
  revert h. induction nursery as [|id l IH]; intros h; cbn; [by intros <-%Ok_inj|].
  destruct (minor_sweep_one marked id h) as [h1| |] eqn:E; cbn; [|done..]. intros E'.
  etrans; [by eapply keeps_sweep_one|auto].
Qed.

Lemma keeps_minor_gc protected h h' : minor_gc protected h = Ok h' → keeps_heap h h'.
Proof.
  unfold minor_gc. destruct (mark h true protected); cbn; [|done..].
  destruct (sweep_weak _ h) as [h1| |] eqn:E1; cbn; [|done..].
  destruct (minor_sweep _ _ _) as [h2| |] eqn:E2; cbn; [|done..]. intros <-%Ok_inj.
  etrans; [by eapply keeps_sweep_weak|]. apply keeps_minor_sweep in E2. etrans; [|by apply keeps_objects].
  etrans; [|exact E2]. by apply keeps_objects.
Qed.

Lemma keeps_major_gc protected h h' : major_gc protected h = Ok h' → keeps_heap h h'.
Proof.
  unfold major_gc. destruct (mark h false protected) as [marked| |]; cbn; [|done..].
  destruct (sweep_weak _ h) as [h1| |] eqn:E1; cbn; [|done..].
  destruct (checked_sub_N (h_managed_bytes h1) _) as [m| |]; cbn; [|done..].
  destruct (checked_sub_N m _); cbn; [|done..]. intros <-%Ok_inj.
  etrans; [by eapply keeps_sweep_weak|]. split; [done|]. intros id o'. cbn. rewrite lookup_fmap.
  intros (o & Ei & ->)%fmap_Some. apply map_lookup_filter_Some in Ei as [Ei _]. by exists o.
Qed.

Lemma keeps_room n protected : keeps (ensure_room n protected).
Proof.
  intros h h' r. unfold ensure_room. destruct (n =? 0)%N; [by intros [= <- _]|].
  assert (∀ h1, match checked_usize (h_managed_bytes h + n) with
         | Some bytes => if (h_next_major_bytes h <=? bytes)%N then major_gc protected h else Ok h
         | None => major_gc protected h
         end = Ok h1 → keeps_heap h h1) as Hk.
  { intros h1. destruct (checked_usize _); [destruct (_ <=? _)%N|]; try apply keeps_major_gc. by intros <-%Ok_inj. }
  destruct (match checked_usize _ with Some _ => _ | None => _ end) as [h1| |]; cbn; [|done..].
  specialize (Hk h1 eq_refl). destruct (checked_usize _); [destruct (_ <? _)%N|]; by intros [= <- _].
Qed.
End frame.

Create HintDb keeps.
#[export] Hint Resolve keeps_mret keeps_fail keeps_read keeps_get keeps_res keeps_expect keeps_recharge keeps_check
  keeps_barrier keeps_barriers keeps_room : keeps.
#[export] Hint Extern 1 (keeps (hupd (minor_gc _))) => apply keeps_upd, keeps_minor_gc : keeps.
#[export] Hint Extern 1 (keeps (hupd (major_gc _))) => apply keeps_upd, keeps_major_gc : keeps.

(** Splits an operation into its steps. *)
Ltac keeps_tac :=
  repeat first
    [ solve [eauto 2 with keeps]
    | progress cbv beta zeta
    | apply keeps_mbind; [|intros]
    | apply keeps_mod; done
    | apply keeps_update; intros
    | apply keeps_expect
    | case_match ].

(** ** Operations on internal slots keep storage *)
Section calls.
Context {H : JsHost}.

Lemma write_entries_same is_map old new f o o' : write_entries is_map old new f o = Ok o' → same_storage o o'.
Proof.
  unfold write_entries. destruct (o_kind o) eqn:Ek, is_map; try done;
    (destruct (f entries); cbn; [|done..]); intros E; eapply recharge_same; try exact E;
    apply same_set_kind; by rewrite Ek.
Qed.
Lemma write_weak_same old new f o o' : write_weak old new f o = Ok o' → same_storage o o'.
Proof.
  unfold write_weak. destruct (o_kind o) eqn:Ek; try done. intros E; eapply recharge_same; try exact E;
    apply same_set_kind; by rewrite Ek.
Qed.
Lemma write_cells_same old new f o o' : write_cells old new f o = Ok o' → same_storage o o'.
Proof.
  unfold write_cells. destruct (o_kind o) eqn:Ek; try done. intros E; eapply recharge_same; try exact E;
    apply same_set_kind; by rewrite Ek.
Qed.
#[local] Hint Resolve write_entries_same write_weak_same write_cells_same : keeps.

Lemma keeps_map_set id key value : keeps (map_set id key value).
Proof. unfold map_set, old_entry_bytes. keeps_tac. Qed.
Lemma keeps_set_add id key : keeps (set_add id key).
Proof. unfold set_add. keeps_tac. Qed.
Lemma keeps_collection_delete is_map id key : keeps (collection_delete is_map id key).
Proof. unfold collection_delete. keeps_tac. Qed.
Lemma keeps_collection_clear id : keeps (collection_clear id).
Proof. unfold collection_clear. keeps_tac. Qed.
Lemma keeps_weak_set id key value : keeps (weak_collection_set id key value).
Proof. unfold weak_collection_set. keeps_tac. Qed.
Lemma keeps_weak_delete id key : keeps (weak_collection_delete id key).
Proof. unfold weak_collection_delete. keeps_tac. Qed.
Lemma keeps_register registry target holdings token : keeps (finalization_registry_register registry target holdings token).
Proof. unfold finalization_registry_register. keeps_tac. Qed.
Lemma keeps_unregister registry token : keeps (finalization_registry_unregister registry token).
Proof. unfold finalization_registry_unregister. keeps_tac. Qed.
Lemma keeps_root id : keeps (root id).
Proof. unfold root. keeps_tac. Qed.
Lemma keeps_unroot r : keeps (unroot r).
Proof. unfold unroot. keeps_tac. Qed.

Lemma keeps_take_jobs : keeps take_finalization_registry_cleanup_jobs.
Proof.
  intros h h' r. unfold take_finalization_registry_cleanup_jobs. destruct (forallb _ _); [|done].
  destruct (checked_sub_N _ _); cbn; [|done..]. intros E. apply Ok_inj in E. injection E as <- _.
  split; [done|]. intros id o'. cbn. rewrite lookup_fmap. intros (o & -> & ->)%fmap_Some. exists o. split; [done|].
  split; try done. cbn. by destruct (o_kind o).
Qed.

Lemma keeps_progress id index finished : keeps (set_collection_iterator_progress id index finished).
Proof.
  intros h h' r. unfold set_collection_iterator_progress, mbind, hm_bind, hread, kind_of, object.
  destruct (h_objects h !! id) as [o|] eqn:E; cbn; [|by intros [= <- _]].
  destruct (o_kind o) eqn:Ek; try (by intros [= <- _]). unfold update_object, hupd. rewrite E. cbn. intros [= <- _].
  eapply each_insert; [intros; reflexivity|exact E|reflexivity|done|]. apply same_set_kind. by rewrite Ek.
Qed.

Lemma keeps_iterator_next id map : keeps (collection_iterator_next id map).
Proof. pose proof keeps_progress. unfold collection_iterator_next. keeps_tac; auto. Qed.

Lemma keeps_set_prototype id proto : keeps (set_prototype id proto).
Proof.
  unfold set_prototype. keeps_tac.
  - intros h h' r. cbv beta. destruct (prototype_walk _ _ _ _); [|done..]. by intros [= <- _].
  - match goal with E : Ok _ = Ok _ |- _ => by apply Ok_inj in E as <- end.
Qed.

Lemma keeps_prevent_extensions id : keeps (prevent_extensions id).
Proof.
  intros h h' r. unfold prevent_extensions, mbind, hm_bind, hread, object.
  destruct (h_objects h !! id) as [o|] eqn:E; cbn; [|by intros [= <- _]]. intros [= <- _].
  eapply each_insert; [intros; reflexivity|exact E|reflexivity|done|]. by split.
Qed.

Lemma keeps_push_scope roots : keeps (push_scoped_roots roots).
Proof. by apply keeps_mod. Qed.
Lemma keeps_pop_scope : keeps pop_scoped_roots.
Proof. by apply keeps_mod. Qed.

(** An allocation adds at most one object, without properties and under the next id. *)
Definition allocs (k : ObjectKind) (proto : option ObjectId) (h h' : Heap) : Prop :=
  ∀ id o', h_objects h' !! id = Some o' →
    (∃ o, h_objects h !! id = Some o ∧ same_storage o o')
    ∨ (id = mkObjectId (h_identity h) (h_next_object h) ∧ ∃ bytes, o' = new_object k proto bytes).
Definition may_alloc {A} k proto (m : hm A) : Prop := ∀ h h' r, m h = Ok (h', r) → allocs k proto h h'.

Lemma may_alloc_bind {A B} k proto (m : hm A) (f : A → hm B) :
  keeps m → (∀ a, may_alloc k proto (f a)) → may_alloc k proto (m ≫= f).
Proof.
  intros Km Kf h h' r. unfold mbind, hm_bind. destruct (m h) as [[h1 [a|e]]| |] eqn:E; try done.
  - intros E' id o' Ho'. destruct (Km _ _ _ E) as [[I1 I2] Hk].
    destruct (Kf a h1 h' r E' id o' Ho') as [(o & Ho & Hs)|[-> ?]].
    + left. destruct (Hk id o Ho) as (o0 & ? & Hs0). exists o0. split; [done|by etrans].
    + right. by rewrite I1, I2.
  - intros [= <- <-] id o' Ho'. left. by apply (Km _ _ _ E).
Qed.

Lemma alloc_tail_allocs k proto bytes next : may_alloc k proto (alloc_tail k proto bytes next).
Proof.
  intros h h' r. unfold alloc_tail, recharge, hupd, mbind, hm_bind, hget, hmod. cbn.
  destruct (checked_sub_N _ _) as [m| |]; cbn; [|done..]. destruct (checked_add_N _ m _); cbn; [|done..].
  intros E. apply Ok_inj in E. injection E as <- _. intros id o'. cbn.
  intros [[<- <-]|[_ ?]]%lookup_insert_Some; [right; eauto|left; by exists o'].
Qed.

Lemma alloc_allocs k proto : may_alloc k proto (alloc k proto).
Proof.
  unfold alloc. do 6 (apply may_alloc_bind; [solve [keeps_tac]|intros]; cbv beta zeta).
  apply (alloc_tail_allocs k proto).
Qed.
End calls.
