(* ===== verification/JsStorageInv.v ===== *)
(** * Property tables

    [storage_ok] is the invariant of an object's properties: the order lists the stored names
    once each, attributes belong to stored properties, indices of an array are below its length,
    and the virtual properties are not stored.  [integrity] is what ECMAScript promises about
    properties that are not configurable and objects that are not extensible.  Both are shown for
    the updates of one object that assignment, definition and deletion make. *)

From S2P Require Import Prelude Float JsValue JsObject JsCollection JsHeap JsMark JsGc JsCore JsHeapInv JsHeapRun JsNumeric JsBinary JsStorage JsFrame.

(** ** Canonical indices

    An index has one spelling. *)
Definition dec_step (acc u : N) : N := (acc * 10 + (u - 48))%N.
Definition is_digit (u : N) : Prop := (48 <= u <= 57)%N.

Lemma index_digits_spec acc us n : index_digits acc us = Some n → Forall is_digit us ∧ n = foldl dec_step acc us.
Proof.
  revert acc. induction us as [|u us IH]; intros acc; cbn; [by intros [= <-]|].
  destruct (N.leb_spec 48 u); cbn; [|done]. destruct (N.leb_spec u 57); cbn; [|done].
  unfold checked_usize. destruct (acc * 10 <=? USIZE_MAX)%N; cbn; [|done].
  destruct (acc * 10 + (u - 48) <=? USIZE_MAX)%N; cbn; [|done]. intros [? ->]%IH. split; [by constructor|done].
Qed.

Lemma dec_inj us vs a b :
  length us = length vs → Forall is_digit us → Forall is_digit vs → foldl dec_step a us = foldl dec_step b vs → a = b ∧ us = vs.
Proof.
  revert vs a b. induction us as [|u us IH]; intros [|v vs] a b Hl Hu Hv E; try done. cbn in *.
  apply Forall_cons in Hu as [Hu ?], Hv as [Hv ?]. destruct (IH vs (dec_step a u) (dec_step b v)) as [E' ->]; try done; [lia|].
  unfold dec_step, is_digit in *. assert (a = b ∧ u = v) as [-> ->]; [|done]. lia.
Qed.

Lemma dec_bounds us a : Forall is_digit us →
  (a * 10 ^ N.of_nat (length us) <= foldl dec_step a us < (a + 1) * 10 ^ N.of_nat (length us))%N.
Proof.
  revert a. induction us as [|u us IH]; intros a Hu; cbn [foldl length]; [cbn; lia|].
  apply Forall_cons in Hu as [Hu Hus]. specialize (IH (dec_step a u) Hus).
  rewrite Nat2N.inj_succ, N.pow_succ_r'. set (p := (10 ^ N.of_nat (length us))%N) in *.
  unfold dec_step, is_digit in *. nia.
Qed.

Lemma js_index_inj s t n : js_index s = Some n → js_index t = Some n → s = t.
Proof.
  assert (∀ u us v vs, (length us = 0 ∨ u ≠ 48%N) → (length vs = 0 ∨ v ≠ 48%N) → is_digit u → is_digit v →
    Forall is_digit us → Forall is_digit vs → foldl dec_step (u - 48)%N us = foldl dec_step (v - 48)%N vs →
    ¬ (length us < length vs)) as Hlt.
  { intros u us v vs Hu Hv Du Dv Hus Hvs E Hl. pose proof (dec_bounds us (u - 48) Hus) as B1.
    pose proof (dec_bounds vs (v - 48) Hvs) as B2. rewrite E in B1.
    assert (10 * 10 ^ N.of_nat (length us) <= 10 ^ N.of_nat (length vs))%N as Hp.
    { rewrite <-N.pow_succ_r'. apply N.pow_le_mono_r; lia. }
    unfold is_digit in *. assert (1 <= v - 48)%N by lia. nia. }
  unfold js_index. destruct s as [|u us]; [done|]. destruct t as [|v vs]; [by destruct (_ && _)|].
  destruct (negb (length us =? 0) && (u =? 48)%N) eqn:Eu; [done|].
  destruct (negb (length vs =? 0) && (v =? 48)%N) eqn:Ev; [done|].
  intros [Hu E1]%index_digits_spec [Hv E2]%index_digits_spec. apply Forall_cons in Hu as [Du Hu], Hv as [Dv Hv].
  cbn [foldl] in *. unfold dec_step at 2 in E1. unfold dec_step at 2 in E2.
  rewrite N.mul_0_l, N.add_0_l in E1, E2.
  assert (length us = 0 ∨ u ≠ 48%N) as Cu.
  { apply andb_false_iff in Eu as [Eu|Eu]; [left; apply negb_false_iff, Nat.eqb_eq in Eu|right; apply N.eqb_neq in Eu]; done. }
  assert (length vs = 0 ∨ v ≠ 48%N) as Cv.
  { apply andb_false_iff in Ev as [Ev|Ev]; [left; apply negb_false_iff, Nat.eqb_eq in Ev|right; apply N.eqb_neq in Ev]; done. }
  assert (foldl dec_step (u - 48)%N us = foldl dec_step (v - 48)%N vs) as E by congruence.
  assert (length us = length vs) as Hl.
  { pose proof (Hlt u us v vs Cu Cv Du Dv Hu Hv E). pose proof (Hlt v vs u us Cv Cu Dv Du Hv Hu (eq_sym E)). lia. }
  destruct (dec_inj us vs _ _ Hl Hu Hv E) as [Ea ->]. f_equal. unfold is_digit in *. lia.
Qed.

Lemma array_index_inj key key' i : array_index key = Some i → array_index key' = Some i → key = key'.
Proof.
  unfold array_index, name_index. destruct key as [s|], key' as [t|]; try done; [].
  destruct (js_index s) as [a|] eqn:Es; [|done]. destruct (js_index t) as [b|] eqn:Et; [|done].
  destruct (a <? U32_MAX)%N; [|done]. destruct (b <? U32_MAX)%N; [|done]. intros [= ->] [= ->].
  f_equal. by eapply js_index_inj.
Qed.

(** ** SameValue is an equivalence *)
Definition same_value_key (v : Value) : Value + N :=
  match v with VSymbol s => inr (sym_id s) | _ => inl v end.

Lemma same_value_spec a b : same_value a b = true ↔ same_value_key a = same_value_key b.
Proof.
  destruct a, b; cbn -[f64_eqb]; try (split; [discriminate|congruence]); try done.
  - rewrite eqb_true_iff. split; congruence.
  - rewrite orb_true_iff, andb_true_iff, bool_decide_eq_true.
    split; [|intros [= ->]; by right]. intros [[E1 E2]| ->]; [|done]. by destruct n, n0.
  - rewrite Z.eqb_eq. split; congruence.
  - rewrite bool_decide_eq_true. split; congruence.
  - unfold symbol_eqb. rewrite N.eqb_eq. split; congruence.
  - rewrite bool_decide_eq_true. split; congruence.
Qed.
Lemma same_value_refl v : same_value v v = true.
Proof. by apply same_value_spec. Qed.
Lemma same_value_trans a b c : same_value a b = true → same_value b c = true → same_value a c = true.
Proof. rewrite !same_value_spec. congruence. Qed.

(** SameValue of optional values, absent ones being equal to each other only. *)
Definition opt_same (a b : option Value) : Prop :=
  match a, b with Some a, Some b => same_value b a = true | None, None => True | _, _ => False end.
#[export] Instance opt_same_refl : Reflexive opt_same.
Proof. intros [v|]; cbn; [apply same_value_refl|done]. Qed.
#[export] Instance opt_same_trans : Transitive opt_same.
Proof. intros [a|] [b|] [c|]; cbn; try done. intros Hab Hbc. by eapply same_value_trans. Qed.

Section storage_inv.
Context {H : JsHost}.

Definition wf_name (key : PropertyName) : Prop :=
  match key with PSymbol s => wf_symbol s | PString _ => True end.

(** ** The invariant of one object *)
Record storage_ok (o : Object) : Prop := {
  so_order : NoDup (pkey <$> o_order o);
  so_stored k : k ∈ pkey <$> o_order o ↔ is_Some (o_properties o !! k);
  so_attributes k d : o_attributes o !! k = Some d →
    pd_value d = None ∧ (accessor d = true → is_Some (pd_get d) ∧ is_Some (pd_set d))
    ∧ (is_Some (o_properties o !! k) ∨ (k = pkey length_name ∧ ∃ n, o_kind o = KArray n));
  so_index n key i : o_kind o = KArray n → key ∈ o_order o → array_index key = Some i → (i < n)%N;
  so_width n : o_kind o = KArray n → (n <= U32_MAX)%N;
  so_length n : o_kind o = KArray n → o_properties o !! pkey length_name = None;
  so_length_fixed n d : o_kind o = KArray n → o_attributes o !! pkey length_name = Some d →
    pd_configurable d = Some false ∧ accessor d = false;
  so_virtual key : string_virtual o key = true → o_properties o !! pkey key = None;
  so_mapped m k d : o_kind o = Arguments_ m → o_attributes o !! k = Some d → accessor d = true ∨ pd_writable d = Some false → m !! k = None;
}.

Lemma storage_kind_eq k k' : storage_kind k' = storage_kind k → storage_kind k = k → k ≠ RawJson → k' = k.
Proof. intros E E' Hn. rewrite E' in E. destruct k'; cbn in E; subst k; done. Qed.

(** The exotic kinds are determined by the part that is kept. *)
Lemma same_kind o o' k : same_storage o o' → storage_kind k = k → k ≠ RawJson → o_kind o' = k ↔ o_kind o = k.
Proof.
  intros S Hk Hn. pose proof (ss_kind _ _ S) as E. split; intros <-.
  - by apply (storage_kind_eq (o_kind o')).
  - by apply (storage_kind_eq (o_kind o)).
Qed.

Lemma same_string_virtual o o' key : same_storage o o' → string_virtual o' key = string_virtual o key.
Proof.
  intros S. unfold string_virtual. pose proof (ss_kind _ _ S) as E.
  destruct (o_kind o) eqn:E1, (o_kind o') eqn:E2; cbn in E; by simplify_eq.
Qed.

Lemma same_is_array_length o o' key : same_storage o o' → is_array_length o' key = is_array_length o key.
Proof.
  intros S. unfold is_array_length. pose proof (ss_kind _ _ S) as E.
  destruct (o_kind o) eqn:E1, (o_kind o') eqn:E2; cbn in E; by simplify_eq.
Qed.

Lemma storage_ok_same o o' : same_storage o o' → storage_ok o → storage_ok o'.
Proof.
  intros S K. pose proof S as [Sk Sp So Sa Se].
  assert (∀ n, o_kind o' = KArray n ↔ o_kind o = KArray n) as Harr by (intros; by apply same_kind).
  assert (∀ m, o_kind o' = Arguments_ m ↔ o_kind o = Arguments_ m) as Harg by (intros; by apply same_kind).
  split.
  - rewrite So. apply K.
  - intros k. rewrite So, Sp. apply K.
  - intros k d. rewrite Sa, Sp. intros (? & ? & Hd)%(so_attributes _ K). split_and!; [done..|].
    destruct Hd as [?|(? & n & ?)]; [by left|right]. split; [done|]. exists n. by apply Harr.
  - intros n key i. rewrite Harr, So. apply K.
  - intros n. rewrite Harr. apply K.
  - intros n. rewrite Sp, Harr. apply K.
  - intros n d. rewrite Sa, Harr. apply K.
  - intros key. rewrite Sp, (same_string_virtual o o') by done. apply K.
  - intros m k d. rewrite Sa, Harg. apply K.
Qed.

Lemma storage_ok_new k proto bytes : (∀ n, k = KArray n → (n <= U32_MAX)%N) → storage_ok (new_object k proto bytes).
Proof.
  intros Hwidth. split; cbn; try (intros; by rewrite ?lookup_empty in * ); try done.
  - constructor.
  - intros k0. rewrite lookup_empty. split; [by intros ?%elem_of_nil|by intros []].
  - intros n key i _ Hk. by apply elem_of_nil in Hk.
Qed.

(** ** Inserting a property *)
Definition grown_kind (key : PropertyName) (k : ObjectKind) : ObjectKind :=
  match k, array_index key with
  | KArray n, Some i => KArray (N.max n (i + 1))
  | _, _ => k
  end.

Lemma insert_kind key v o : o_kind (insert_property key v o) = grown_kind key (o_kind o).
Proof. unfold insert_property, grown_kind. destruct (present_property o key); cbn; by destruct (o_kind o) eqn:E, (array_index key). Qed.
Lemma insert_properties key v o : o_properties (insert_property key v o) = <[pkey key := v]> (o_properties o).
Proof. unfold insert_property. destruct (present_property o key); cbn; by destruct (o_kind o) eqn:E, (array_index key). Qed.
Lemma insert_order key v o :
  o_order (insert_property key v o) = if present_property o key then o_order o else o_order o ++ [key].
Proof. unfold insert_property. destruct (present_property o key); cbn; by destruct (o_kind o) eqn:E, (array_index key). Qed.
Lemma insert_rest key v o (o' := insert_property key v o) :
  o_attributes o' = o_attributes o ∧ o_extensible o' = o_extensible o ∧ o_bytes o' = o_bytes o
  ∧ o_young o' = o_young o ∧ o_prototype o' = o_prototype o ∧ o_private o' = o_private o.
Proof. unfold o', insert_property. destruct (present_property o key); cbn; by destruct (o_kind o) eqn:E, (array_index key). Qed.

Lemma present_property_spec o key : present_property o key = true ↔ is_Some (o_properties o !! pkey key).
Proof. unfold present_property. destruct (_ !! _); split; try done; try (by intros []); eauto. Qed.

Lemma grown_array key k n : grown_kind key k = KArray n → ∃ m, k = KArray m ∧ (m <= n)%N
  ∧ ∀ i, array_index key = Some i → (i < n)%N.
Proof.
  unfold grown_kind. destruct k; try (by destruct (array_index key)). destruct (array_index key) as [i|].
  - intros [= <-]. exists length. split_and!; [done|lia|]. intros ? [= <-]. lia.
  - intros [= <-]. exists length. by split_and!; [done|lia|].
Qed.
Lemma array_index_bound key i : array_index key = Some i → (i < U32_MAX)%N.
Proof.
  unfold array_index. destruct (name_index key) as [j|]; [|done]. destruct (N.ltb_spec j U32_MAX); [|done]. by intros [= <-].
Qed.
Lemma grown_width key k n : grown_kind key k = KArray n → ∃ m, k = KArray m ∧ ((m <= U32_MAX)%N → (n <= U32_MAX)%N).
Proof.
  unfold grown_kind. destruct k; try (by destruct (array_index key)). destruct (array_index key) as [i|] eqn:E.
  - apply array_index_bound in E. intros [= <-]. exists length. split; [done|lia].
  - intros [= <-]. by exists length.
Qed.
Lemma grown_other key k : (∀ n, k ≠ KArray n) → grown_kind key k = k.
Proof. intros Hk. unfold grown_kind. destruct k; try (by destruct (array_index key)). by destruct (Hk length). Qed.

Lemma is_name_spec key s : is_name key s = true ↔ pkey key = inl (encode_utf16 s).
Proof. destruct key as [t|t]; cbn; [rewrite bool_decide_eq_true|]; naive_solver. Qed.

Lemma is_array_length_spec o key :
  is_array_length o key = true ↔ (∃ n, o_kind o = KArray n) ∧ pkey key = pkey length_name.
Proof.
  unfold is_array_length. split.
  - destruct (o_kind o); try done. rewrite is_name_spec. eauto.
  - intros [[n ->] E]. by apply is_name_spec.
Qed.

Lemma index_same_key key key' : pkey key = pkey key' → array_index key = array_index key'.
Proof. destruct key, key'; cbn; intros; simplify_eq; done. Qed.

Lemma virtual_same_key o key key' : pkey key = pkey key' → string_virtual o key = string_virtual o key'.
Proof. unfold string_virtual. destruct (o_kind o); try done. destruct key, key'; cbn; intros; by simplify_eq. Qed.

Lemma insert_ok key v o :
  storage_ok o → is_array_length o key = false → string_virtual o key = false → storage_ok (insert_property key v o).
Proof.
  intros K Hl Hv. pose proof (insert_rest key v o) as (Ea & _). cbv zeta in Ea.
  pose proof (insert_kind key v o) as Ek. pose proof (insert_properties key v o) as Ep.
  pose proof (insert_order key v o) as Eo.
  assert (∀ n, o_kind (insert_property key v o) = KArray n → ∃ m, o_kind o = KArray m ∧ (m <= n)%N
    ∧ ∀ i, array_index key = Some i → (i < n)%N) as Harr by (intros n; rewrite Ek; apply grown_array).
  assert (∀ n, o_kind o = KArray n → pkey key ≠ pkey length_name) as Hlen.
  { intros n En E. apply not_true_iff_false in Hl. apply Hl. apply is_array_length_spec. eauto. }
  assert (∀ k, k ∈ pkey <$> o_order (insert_property key v o) ↔ k ∈ pkey <$> o_order o ∨ k = pkey key) as Hin.
  { intros k. rewrite Eo. destruct (present_property o key) eqn:E.
    - apply present_property_spec in E. split; [by left|]. intros [?| ->]; [done|by apply (so_stored _ K)].
    - rewrite fmap_app, elem_of_app. cbn. by rewrite list_elem_of_singleton. }
  split.
  - rewrite Eo. destruct (present_property o key) eqn:E; [apply K|]. rewrite fmap_app. apply NoDup_app.
    split_and!; [apply K| |apply NoDup_singleton]. intros k Hk ->%list_elem_of_singleton.
    apply (so_stored _ K), present_property_spec in Hk. congruence.
  - intros k. rewrite Hin, Ep, (so_stored _ K), lookup_insert_is_Some. destruct (decide (pkey key = k)); naive_solver.
  - intros k d. rewrite Ea, Ep. intros (? & ? & Hd)%(so_attributes _ K). split_and!; [done..|].
    rewrite lookup_insert_is_Some. destruct Hd as [?|(-> & n & En)].
    + left. destruct (decide (pkey key = k)); auto.
    + right. split; [done|]. rewrite Ek, En. unfold grown_kind. destruct (array_index key); eauto.
  - intros n key' i (m & Em & Hle & Hi)%Harr Hk Hidx.
    assert (key' ∈ o_order o ∨ key' = key) as [Hk'| ->]; [|pose proof (so_index _ K m key' i Em Hk' Hidx); lia|auto].
    rewrite Eo in Hk. destruct (present_property o key); [by left|].
    apply elem_of_app in Hk as [?|?%list_elem_of_singleton]; auto.
  - intros n. rewrite Ek. intros (m & Em & Hn)%grown_width. apply Hn. by apply (so_width _ K).
  - intros n (m & Em & _)%Harr. rewrite Ep, lookup_insert_ne by (by eapply Hlen). by apply (so_length _ K m).
  - intros n d (m & Em & _)%Harr. rewrite Ea. by apply (so_length_fixed _ K m).
  - intros key' Hv'. assert (string_virtual o key' = true) as Hv2.
    { revert Hv'. unfold string_virtual. rewrite Ek. unfold grown_kind. by destruct (o_kind o), (array_index key). }
    rewrite Ep, lookup_insert_ne; [by apply (so_virtual _ K)|].
    intros E. rewrite (virtual_same_key o key key' E) in Hv. congruence.
  - intros m k d. rewrite Ek, Ea. intros Em. apply (so_mapped _ K m k d).
    revert Em. unfold grown_kind. by destruct (o_kind o), (array_index key).
Qed.

(** ** Removing a property *)
Definition remove_property (key : PropertyName) (o : Object) : Object :=
  o_set_properties (delete (pkey key) (o_properties o))
    (o_set_attributes (delete (pkey key) (o_attributes o)) (o_set_order (remove_name key (o_order o)) o)).

Lemma remove_name_keys key l : pkey <$> remove_name key l = filter (λ k, k ≠ pkey key) (pkey <$> l).
Proof.
  unfold remove_name. induction l as [|x l IH]; [done|]. rewrite fmap_cons, !filter_cons.
  destruct (decide (pkey x ≠ pkey key)); cbn; by rewrite IH.
Qed.

Lemma remove_ok key o : storage_ok o → is_array_length o key = false → storage_ok (remove_property key o).
Proof.
  intros K Hl. assert (∀ n, o_kind o = KArray n → pkey key ≠ pkey length_name) as Hlen.
  { intros n En E. apply not_true_iff_false in Hl. apply Hl. apply is_array_length_spec. eauto. }
  split; cbn [remove_property o_properties o_order o_attributes o_kind o_set_properties o_set_attributes o_set_order].
  - rewrite remove_name_keys. apply NoDup_filter, K.
  - intros k. rewrite remove_name_keys, list_elem_of_filter, (so_stored _ K), lookup_delete_is_Some. naive_solver.
  - intros k d [Hne (? & ? & Hd)%(so_attributes _ K)]%lookup_delete_Some. split_and!; [done..|].
    rewrite lookup_delete_is_Some. naive_solver.
  - intros n key' i En Hk. apply (so_index _ K n key' i En). unfold remove_name in Hk.
    by apply list_elem_of_filter in Hk as [_ ?].
  - intros n En. by apply (so_width _ K).
  - intros n En. rewrite lookup_delete_ne by (by eapply Hlen). by apply (so_length _ K n).
  - intros n d En. rewrite lookup_delete_ne by (by eapply Hlen). by apply (so_length_fixed _ K n).
  - intros key' Hv. apply lookup_delete_None. right. by apply (so_virtual _ K).
  - intros m k d Em [_ Hd]%lookup_delete_Some. by apply (so_mapped _ K m k d).
Qed.

(** ** Attributes, lengths and mappings *)
Definition unmap_property (key : PropertyName) (o : Object) : Object :=
  match o_kind o with
  | Arguments_ m => o_set_kind (Arguments_ (delete (pkey key) m)) o
  | _ => o
  end.

Lemma unmap_ok key o : storage_ok o → storage_ok (unmap_property key o).
Proof.
  intros K. unfold unmap_property. destruct (o_kind o) eqn:Ek; try done.
  split; cbn [o_set_kind o_properties o_order o_attributes o_kind string_virtual]; try (intros; discriminate).
  - apply K.
  - apply (so_stored _ K).
  - intros k d (? & ? & [?|(_ & n & ?)])%(so_attributes _ K); [by split_and!; [..|left]|congruence].
  - intros m k d [= <-] Ed Ew. apply lookup_delete_None. right. by apply (so_mapped _ K _ k d).
Qed.

Lemma set_length_ok n o :
  storage_ok o → (∃ m, o_kind o = KArray m) → (n <= U32_MAX)%N →
  (∀ key i, key ∈ o_order o → array_index key = Some i → (i < n)%N) → storage_ok (o_set_kind (KArray n) o).
Proof.
  intros K [m Em] Hw Hi.
  split; cbn [o_set_kind o_properties o_order o_attributes o_kind string_virtual]; try (intros; discriminate).
  - apply K.
  - apply (so_stored _ K).
  - intros k d (? & ? & [?|(-> & _)])%(so_attributes _ K); split_and!; eauto.
  - intros n' key i [= <-]. apply Hi.
  - by intros n' [= <-].
  - intros n' _. by apply (so_length _ K m).
  - intros n' d _. by apply (so_length_fixed _ K m).
Qed.

Definition complete (d : PropertyDescriptor) : Prop := accessor d = true → is_Some (pd_get d) ∧ is_Some (pd_set d).

Lemma set_attributes_ok key d o :
  storage_ok o → pd_value d = None → complete d →
  is_Some (o_properties o !! pkey key) ∨ is_array_length o key = true →
  (is_array_length o key = true → pd_configurable d = Some false ∧ accessor d = false) →
  (∀ m, o_kind o = Arguments_ m → accessor d = true ∨ pd_writable d = Some false → m !! pkey key = None) →
  storage_ok (o_set_attributes (<[pkey key := d]> (o_attributes o)) o).
Proof.
  intros K Hd Hc Hp Hl Hm.
  split; cbn [o_set_attributes o_properties o_order o_attributes o_kind]; try apply K.
  - intros k d' [[<- <-]|[_ Hd']]%lookup_insert_Some; [|by apply (so_attributes _ K)].
    split_and!; [done..|]. destruct Hp as [?|[? E]%is_array_length_spec]; [by left|by right].
  - intros n d' En [[E <-]|[_ Hd']]%lookup_insert_Some; [|by apply (so_length_fixed _ K n)].
    apply Hl, is_array_length_spec. eauto.
  - intros m k d' Em [[<- <-]|[_ Hd']]%lookup_insert_Some Ew; [by apply Hm|by apply (so_mapped _ K m k d')].
Qed.

Lemma define_ok key value d o (virtual_length := is_array_length o key) :
  storage_ok o → string_virtual o key = false → pd_value d = None → complete d →
  (virtual_length = true → pd_configurable d = Some false ∧ accessor d = false) →
  (∀ m, o_kind o = Arguments_ m → accessor d = true ∨ pd_writable d = Some false → m !! pkey key = None) →
  storage_ok (define_property key value d virtual_length o).
Proof.
  intros K Hs Hd Hc Hl Hm. unfold define_property. destruct virtual_length eqn:E; unfold virtual_length in E.
  - apply set_attributes_ok; auto.
  - pose proof (insert_ok key value o K E Hs) as K'.
    assert (is_array_length (insert_property key value o) key = false) as E'.
    { apply not_true_iff_false. intros [[n En] Ekey]%is_array_length_spec. apply not_true_iff_false in E. apply E.
      rewrite insert_kind in En. apply grown_array in En as (m & Em & _). apply is_array_length_spec. eauto. }
    apply set_attributes_ok; auto.
    + left. rewrite insert_properties, lookup_insert_eq. eauto.
    + congruence.
    + intros m. rewrite insert_kind. unfold grown_kind. destruct (o_kind o); try done; try (by apply Hm).
      by destruct (array_index key).
Qed.

(** ** The promises of ECMAScript

    What a definition may turn a property that is not configurable into. *)
Record descriptor_kept (d d' : PropertyDescriptor) : Prop := {
  dk_configurable : pd_configurable d' = Some false;
  dk_enumerable : pd_enumerable d' = pd_enumerable d;
  dk_accessor : accessor d' = accessor d;
  dk_functions : accessor d = true → opt_same (pd_get d) (pd_get d') ∧ opt_same (pd_set d) (pd_set d');
  dk_writable : accessor d = false → pd_writable d = Some false → pd_writable d' = Some false;
}.

Record integrity (o o' : Object) : Prop := {
  in_kept k d : o_attributes o !! k = Some d → pd_configurable d = Some false →
    ∃ d', o_attributes o' !! k = Some d' ∧ descriptor_kept d d'
      ∧ (accessor d = false → pd_writable d = Some false → opt_same (o_properties o !! k) (o_properties o' !! k));
  in_length n d : o_kind o = KArray n → o_attributes o !! pkey length_name = Some d →
    pd_configurable d = Some false → accessor d = false → pd_writable d = Some false → o_kind o' = KArray n;
  in_extensible : o_extensible o = false →
    o_extensible o' = false ∧ ∀ k, is_Some (o_properties o' !! k) → is_Some (o_properties o !! k);
}.

Lemma descriptor_kept_refl d : pd_configurable d = Some false → descriptor_kept d d.
Proof. intros E. by split. Qed.
Lemma descriptor_kept_trans d1 d2 d3 : descriptor_kept d1 d2 → descriptor_kept d2 d3 → descriptor_kept d1 d3.
Proof.
  intros [C1 E1 A1 F1 W1] [C2 E2 A2 F2 W2]. rewrite A1 in *. split; [done|congruence|congruence|..].
  - intros Ha. destruct (F1 Ha), (F2 Ha). split; by etrans.
  - auto.
Qed.

Lemma same_storage_integrity o o' : same_storage o o' → integrity o o'.
Proof.
  intros S. pose proof S as [Sk Sp So Sa Se]. split.
  - intros k d. rewrite Sa, Sp. intros E Hc. exists d. split_and!; [done|by apply descriptor_kept_refl|done].
  - intros n d En _ _ _ _. by apply (same_kind o o' (KArray n)).
  - intros E. rewrite Sp. split; [|done]. destruct (o_extensible o') eqn:E'; [|done]. rewrite Se in E; done.
Qed.
#[export] Instance integrity_refl : Reflexive integrity.
Proof. intros o. by apply same_storage_integrity. Qed.
#[export] Instance integrity_trans : Transitive integrity.
Proof.
  intros o1 o2 o3 I J. split.
  - intros k d E Hc. destruct (in_kept _ _ I k d E Hc) as (d2 & E2 & K2 & V2).
    destruct (in_kept _ _ J k d2 E2 (dk_configurable _ _ K2)) as (d3 & E3 & K3 & V3).
    exists d3. split_and!; [done|by eapply descriptor_kept_trans|]. intros Ha Hw. etrans; [by apply V2|].
    apply V3; [by rewrite (dk_accessor _ _ K2)|by apply (dk_writable _ _ K2)].
  - intros n d En E Hc Ha Hw. destruct (in_kept _ _ I _ d E Hc) as (d2 & E2 & K2 & _).
    apply (in_length _ _ J n d2); [by eapply (in_length _ _ I)|done|apply K2| |by apply K2].
    by rewrite (dk_accessor _ _ K2).
  - intros E. destruct (in_extensible _ _ I E) as [E2 P2]. destruct (in_extensible _ _ J E2) as [E3 P3]. auto.
Qed.

Lemma grows_fixed_spec o key n d i :
  grows_fixed_array o key = false → o_kind o = KArray n → o_attributes o !! pkey length_name = Some d →
  pd_writable d = Some false → array_index key = Some i → (i < n)%N.
Proof.
  unfold grows_fixed_array. intros E En Ed Ew Ei. rewrite En, Ei in E. cbv beta iota in E.
  rewrite Ed, (bool_decide_eq_true_2 _ Ew), andb_true_r in E. by apply N.leb_gt in E.
Qed.

Lemma grown_fixed o key n d :
  grows_fixed_array o key = false → o_kind o = KArray n → o_attributes o !! pkey length_name = Some d →
  pd_writable d = Some false → grown_kind key (o_kind o) = KArray n.
Proof.
  intros Hg En Ed Ew. unfold grown_kind. rewrite En. destruct (array_index key) as [i|] eqn:Ei; [|done].
  pose proof (grows_fixed_spec o key n d i Hg En Ed Ew Ei). f_equal. lia.
Qed.

(** Neither virtual nor an array's length: what is there is stored. *)
Lemma own_property_stored o key :
  is_array_length o key = false → string_virtual o key = false → own_property o key = o_properties o !! pkey key.
Proof.
  unfold is_array_length, string_virtual, own_property. destruct (o_kind o); try done.
  - by intros ->.
  - intros _. by destruct (string_property s key).
Qed.

Lemma insert_integrity key v o :
  read_only o key = false → is_array_length o key = false → integrity o (insert_property key v o).
Proof.
  intros Hr Hl. unfold read_only in Hr. rewrite !orb_false_iff in Hr. destruct Hr as [[[Hr He] Hg] Hv].
  pose proof (insert_rest key v o) as (Ea & Ee & _). cbv zeta in Ea, Ee. split.
  - intros k d E Hc. rewrite Ea, insert_properties. exists d. split_and!; [done|by apply descriptor_kept_refl|].
    intros Ha Hw. destruct (decide (pkey key = k)) as [<-|Hne]; [|by rewrite lookup_insert_ne].
    rewrite E, Ha, (bool_decide_eq_true_2 _ Hw) in Hr. done.
  - intros n d En E _ _ Hw. rewrite insert_kind. by eapply grown_fixed.
  - rewrite Ee, insert_properties. intros E. split; [done|]. intros k.
    rewrite lookup_insert_is_Some. intros [<-|[_ ?]]; [|done]. rewrite E in He. cbn in He.
    apply bool_decide_eq_false in He. rewrite <-own_property_stored by done. by apply not_eq_None_Some.
Qed.

Lemma remove_integrity key o :
  (∀ d, o_attributes o !! pkey key = Some d → pd_configurable d ≠ Some false) → integrity o (remove_property key o).
Proof.
  intros Hc. split; cbn [remove_property o_properties o_order o_attributes o_kind o_extensible o_set_properties o_set_attributes o_set_order].
  - intros k d E Hd. assert (pkey key ≠ k) by (intros <-; by apply (Hc d)).
    exists d. rewrite !lookup_delete_ne by done. split_and!; [done|by apply descriptor_kept_refl|done].
  - done.
  - intros E. split; [done|]. intros k. rewrite lookup_delete_is_Some. naive_solver.
Qed.

Lemma unmap_integrity key o : integrity o (unmap_property key o).
Proof.
  unfold unmap_property. destruct (o_kind o) eqn:Ek; try reflexivity. split; cbn.
  - intros k d E Hd. exists d. split_and!; [done|by apply descriptor_kept_refl|done].
  - congruence.
  - done.
Qed.

Lemma set_length_integrity n o :
  (∀ d, o_attributes o !! pkey length_name = Some d → pd_writable d = Some false → o_kind o = KArray n) →
  integrity o (o_set_kind (KArray n) o).
Proof.
  intros Hw. split; cbn.
  - intros k d E Hd. exists d. split_and!; [done|by apply descriptor_kept_refl|done].
  - intros m d Em E _ _ Hd. rewrite (Hw d E Hd) in Em. congruence.
  - done.
Qed.

Lemma define_integrity key value d o (virtual_length := is_array_length o key) :
  storage_ok o → string_virtual o key = false → grows_fixed_array o key = false →
  (o_extensible o = false → virtual_length = true ∨ is_Some (o_properties o !! pkey key)) →
  (∀ d0, o_attributes o !! pkey key = Some d0 → pd_configurable d0 = Some false →
     descriptor_kept d0 d
     ∧ (virtual_length = false → accessor d0 = false → pd_writable d0 = Some false →
        opt_same (o_properties o !! pkey key) (Some value))) →
  integrity o (define_property key value d virtual_length o).
Proof.
  intros K Hs Hg Hx Hd.
  change (define_property key value d virtual_length o)
    with (let o1 := if virtual_length then o else insert_property key value o in
          o_set_attributes (<[pkey key := d]> (o_attributes o1)) o1).
  assert (∃ o1, o1 = (if virtual_length then o else insert_property key value o)
    ∧ o_attributes o1 = o_attributes o ∧ o_extensible o1 = o_extensible o
    ∧ (∀ k, k ≠ pkey key ∨ virtual_length = true → o_properties o1 !! k = o_properties o !! k)
    ∧ (virtual_length = false → o_properties o1 !! pkey key = Some value ∧ o_kind o1 = grown_kind key (o_kind o))
    ∧ (virtual_length = true → o_kind o1 = o_kind o)) as (o1 & E1 & Ea & Ee & Ep & Ef & Et).
  { eexists. split; [done|]. destruct virtual_length; [by split_and!|].
    pose proof (insert_rest key value o) as (? & ? & _). split_and!; try done.
    - intros k [Hk|]; [|done]. by rewrite insert_properties, lookup_insert_ne.
    - intros _. by rewrite insert_properties, lookup_insert_eq, insert_kind. }
  cbv zeta. rewrite <-E1. clear E1.
  split; cbn [o_set_attributes o_attributes o_properties o_kind o_extensible].
  - intros k d0 E Hc. rewrite Ea. destruct (decide (k = pkey key)) as [->|Hne].
    + exists d. rewrite lookup_insert_eq. destruct (Hd d0 E Hc) as [? Hv]. split_and!; [done..|]. intros Ha Hw.
      destruct virtual_length eqn:El; [by rewrite Ep by auto|]. destruct (Ef eq_refl) as [-> _]. auto.
    + exists d0. rewrite lookup_insert_ne, Ep by auto. split_and!; [done|by apply descriptor_kept_refl|done].
  - intros n d0 En E Hc Ha Hw. destruct virtual_length; [rewrite Et; done|]. destruct (Ef eq_refl) as [_ ->].
    by eapply grown_fixed.
  - rewrite Ee. intros E. split; [done|]. intros k. destruct (Hx E) as [El|Hp]; [by rewrite Ep by auto|].
    destruct (decide (k = pkey key)) as [->|Hne]; [done|]. by rewrite Ep by auto.
Qed.

(** ** A change that is not refused *)
Lemma differs_same_spec new old : differs_same_value new old = Ok false →
  ∀ v, new = Some v → ∃ w, old = Some w ∧ same_value v w = true.
Proof.
  unfold differs_same_value. intros E v ->. destruct old as [w|]; cbn in E; [|done].
  apply Ok_inj in E. apply negb_false_iff in E. eauto.
Qed.

Lemma accessor_false d : accessor d = false ↔ pd_get d = None ∧ pd_set d = None.
Proof. unfold accessor. destruct (pd_get d), (pd_set d); cbn; naive_solver. Qed.
Lemma accessor_true d : accessor d = true ↔ is_Some (pd_get d) ∨ is_Some (pd_set d).
Proof. unfold accessor. rewrite orb_true_iff. by setoid_rewrite bool_decide_eq_true. Qed.
Lemma defines_data_false d : defines_data d = false ↔ pd_value d = None ∧ pd_writable d = None.
Proof. unfold defines_data. destruct (pd_value d), (pd_writable d); cbn; naive_solver. Qed.

Lemma some_or_is_Some {A} (a b : option A) : is_Some (some_or a b) ↔ is_Some a ∨ is_Some b.
Proof. destruct a; cbn; split; try tauto; eauto. by intros [[]|]. Qed.

Lemma opt_is_spec {A} `{EqDecision A} (o : option A) a : opt_is o a = true ↔ o = Some a.
Proof. apply bool_decide_eq_true. Qed.

Lemma opt_is_false {A} `{EqDecision A} (o : option A) a : opt_is o a = false ↔ o ≠ Some a.
Proof. apply bool_decide_eq_false. Qed.

Record change_allowed (old d : PropertyDescriptor) : Prop := {
  ca_configurable : pd_configurable d ≠ Some true;
  ca_enumerable b : pd_enumerable d = Some b → pd_enumerable old = Some b;
  ca_accessor : accessor d = true → accessor old = true;
  ca_data : defines_data d = true → accessor d = false → accessor old = false;
  ca_get v : accessor old = true → pd_get d = Some v → ∃ w, pd_get old = Some w ∧ same_value v w = true;
  ca_set v : accessor old = true → pd_set d = Some v → ∃ w, pd_set old = Some w ∧ same_value v w = true;
  ca_writable : accessor old = false → pd_writable old = Some false → pd_writable d ≠ Some true;
  ca_value v : accessor old = false → pd_writable old = Some false → pd_value d = Some v →
    ∃ w, pd_value old = Some w ∧ same_value v w = true;
}.

Lemma change_refused_false old d :
  change_refused old d = Ok false → pd_configurable old = Some false → change_allowed old d.
Proof.
  unfold change_refused. intros E Hc. rewrite (proj2 (opt_is_spec _ _) Hc) in E. cbn [negb] in E.
  destruct (opt_is (pd_configurable d) true) eqn:E1; [done|]. cbn [orb] in E.
  destruct (match pd_enumerable d with Some v => _ | None => _ end) eqn:E2; [done|].
  destruct (if accessor d then _ else _) eqn:E3; [done|].
  assert (∀ b, pd_enumerable d = Some b → pd_enumerable old = Some b) as Hen.
  { intros b Eb. rewrite Eb in E2. by apply negb_false_iff, bool_decide_eq_true in E2. }
  assert (accessor d = true → accessor old = true) as Hacc.
  { intros Ea. rewrite Ea in E3. by apply negb_false_iff in E3. }
  assert (defines_data d = true → accessor d = false → accessor old = false) as Hdat.
  { intros Ed Ea. by rewrite Ea, Ed in E3. }
  apply opt_is_false in E1. destruct (accessor old) eqn:Eo.
  - destruct (differs_same_value (pd_get d) (pd_get old)) as [[]| |] eqn:Eg; cbn in E; try done.
    pose proof (differs_same_spec _ _ Eg). pose proof (differs_same_spec _ _ E). split; rewrite ?Eo; auto; congruence.
  - destruct (opt_is (pd_writable old) false) eqn:Ew.
    + destruct (opt_is (pd_writable d) true) eqn:Ew'; [done|]. apply opt_is_false in Ew'.
      pose proof (differs_same_spec _ _ E). split; rewrite ?Eo; auto; congruence.
    + apply opt_is_false in Ew. split; rewrite ?Eo; auto; congruence.
Qed.

Lemma merge_kept old d :
  accessor d && defines_data d = false → change_allowed old d → pd_configurable old = Some false →
  let m := merge_descriptor (Some old) d in
  descriptor_kept old m
  ∧ (accessor old = false → pd_writable old = Some false → opt_same (pd_value old) (pd_value m)).
Proof.
  intros Hd [C1 C2 C3 C4 C5 C6 C7 C8] Hc.
  assert (∀ a b : option Value, (∀ v, a = Some v → ∃ w, b = Some w ∧ same_value v w = true) → opt_same b (some_or a b)) as Hsame.
  { intros [v|] b Hv; cbn; [|reflexivity]. destruct (Hv v eq_refl) as (w & -> & Hs). by apply Hs. }
  unfold merge_descriptor. cbv zeta. change (default _ (Some old)) with old.
  assert (accessor d && negb (accessor old) = false) as ->.
  { destruct (accessor d); [rewrite C3 by done|]; done. }
  assert (accessor old && defines_data d = false) as ->.
  { destruct (accessor old) eqn:Eo; [|done]. destruct (defines_data d); [|done].
    destruct (accessor d) eqn:Ea; [done|]. by specialize (C4 eq_refl eq_refl). }
  assert (accessor old = false → pd_get d = None ∧ pd_set d = None) as Hna.
  { intros Eo. apply accessor_false. destruct (accessor d); [by rewrite C3 in Eo|done]. }
  split; [split; cbn|].
  - rewrite Hc. destruct (pd_configurable d) as [[]|]; cbn; done.
  - destruct (pd_enumerable d) as [b|] eqn:E; cbn; [by rewrite (C2 b)|done].
  - destruct (accessor old) eqn:Eo.
    + apply accessor_true in Eo. apply accessor_true. cbn. rewrite !some_or_is_Some. tauto.
    + destruct (Hna eq_refl) as [Eg Es]. apply accessor_false in Eo as [Eg' Es']. apply accessor_false. cbn.
      by rewrite Eg, Es, Eg', Es'.
  - intros Ea. split; apply Hsame; auto.
  - intros Ea Ew. rewrite Ew. destruct (pd_writable d) as [[]|] eqn:E; cbn; try done. by destruct C7.
  - intros Ea Ew. cbn. apply Hsame. auto.
Qed.

(** ** References *)
Definition descriptor_refs (d : PropertyDescriptor) : list ObjectId :=
  object_ids (option_list (pd_get d) ++ option_list (pd_set d)).

Lemma references_elem o b :
  b ∈ references o ↔
    o_prototype o = Some b
    ∨ (∃ k v, o_properties o !! k = Some v ∧ object_id v = Some b)
    ∨ (∃ k d, o_attributes o !! k = Some d ∧ b ∈ descriptor_refs d)
    ∨ b ∈ mjoin (private_references <$> option_list (o_private o)) ∨ b ∈ kind_references (o_kind o).
Proof.
  unfold references, object_ids. rewrite !elem_of_app, option_list_elem, list_elem_of_omap, list_elem_of_join.
  split; (intros [?|[Hp|[Ha|?]]]; [by left|right; left|right; right; left|by do 3 right]).
  - destruct Hp as (v & ([k v'] & -> & Hk%elem_of_map_to_list)%list_elem_of_fmap & ?). eauto.
  - destruct Ha as (l & Hb & ([k d] & -> & Hk%elem_of_map_to_list)%list_elem_of_fmap). eauto.
  - destruct Hp as (k & v & Hk & ?). exists v. split; [|done]. apply list_elem_of_fmap. exists (k, v).
    by rewrite elem_of_map_to_list.
  - destruct Ha as (k & d & Hk & ?). exists (descriptor_refs d). split; [done|]. apply list_elem_of_fmap. exists (k, d).
    by rewrite elem_of_map_to_list.
Qed.

Lemma grown_references key k : kind_references (grown_kind key k) = kind_references k.
Proof. unfold grown_kind. destruct k; try done; by destruct (array_index key). Qed.

Lemma insert_references key v o b :
  b ∈ references (insert_property key v o) → b ∈ references o ∨ b ∈ option_list (object_id v).
Proof.
  pose proof (insert_rest key v o) as (Ea & _ & _ & _ & Epr & Epv). cbv zeta in *.
  rewrite !references_elem, insert_properties, insert_kind, grown_references, Ea, Epr, Epv, option_list_elem.
  intros [?|[(k & w & [[_ <-]|[_ ?]]%lookup_insert_Some & ?)|?]]; [tauto|by right| |tauto]. left. right. left. eauto.
Qed.

Lemma remove_references key o b : b ∈ references (remove_property key o) → b ∈ references o.
Proof.
  rewrite !references_elem.
  cbn [remove_property o_properties o_order o_attributes o_kind o_prototype o_private o_set_properties o_set_attributes o_set_order].
  intros [?|[(k & w & [_ ?]%lookup_delete_Some & ?)|[(k & d & [_ ?]%lookup_delete_Some & ?)|?]]]; eauto 10.
Qed.

Lemma set_attributes_references k d o b :
  b ∈ references (o_set_attributes (<[k := d]> (o_attributes o)) o) → b ∈ references o ∨ b ∈ descriptor_refs d.
Proof.
  rewrite !references_elem. cbn [o_set_attributes o_properties o_attributes o_kind o_prototype o_private].
  intros [?|[?|[(k' & d' & [[_ <-]|[_ ?]]%lookup_insert_Some & ?)|?]]]; [tauto|tauto|by right|eauto 10|tauto].
Qed.

Lemma define_references key v d virtual_length o b :
  b ∈ references (define_property key v d virtual_length o) →
  b ∈ references o ∨ b ∈ option_list (object_id v) ++ descriptor_refs d.
Proof.
  unfold define_property. rewrite elem_of_app. destruct virtual_length.
  - intros [?|?]%set_attributes_references; tauto.
  - intros [[?|?]%insert_references|?]%set_attributes_references; tauto.
Qed.

(** ** Charges *)
Lemma name_bytes key : wf_name key → name_byte_len key = pkey_byte_len (pkey key).
Proof. destruct key as [s|s]; cbn; [done|]. by intros ->. Qed.
Lemma property_charge key v : wf_name key → property_bytes key v = stored_property_bytes (pkey key) v.
Proof. intros W. unfold property_bytes, stored_property_bytes. by rewrite name_bytes. Qed.
Lemma attribute_charge key d : wf_name key → attribute_bytes key d = stored_attribute_bytes (pkey key) d.
Proof. intros W. unfold attribute_bytes, stored_attribute_bytes. by rewrite name_bytes. Qed.

Lemma grown_owned key k : owned_kind_bytes (grown_kind key k) = owned_kind_bytes k.
Proof. unfold grown_kind. destruct k; try done; by destruct (array_index key). Qed.

Lemma insert_owned key v o :
  wf_name key → (owned_bytes (insert_property key v o) + stored_bytes o key = owned_bytes o + property_bytes key v)%N.
Proof.
  intros W. pose proof (insert_rest key v o) as (Ea & _ & _ & _ & _ & Epv). cbv zeta in *.
  unfold owned_bytes, stored_bytes. rewrite insert_kind, grown_owned, insert_properties, Ea, Epv.
  pose proof (isum_set stored_property_bytes (o_properties o) (pkey key) v) as Hs.
  rewrite property_charge by done. destruct (o_properties o !! pkey key) as [w|]; rewrite ?property_charge by done; lia.
Qed.

Lemma set_attributes_owned key d o :
  wf_name key →
  (owned_bytes (o_set_attributes (<[pkey key := d]> (o_attributes o)) o) + stored_attribute_charge o key
   = owned_bytes o + attribute_bytes key d)%N.
Proof.
  intros W. unfold owned_bytes, stored_attribute_charge. cbn [o_set_attributes o_kind o_private o_properties o_attributes].
  pose proof (isum_set stored_attribute_bytes (o_attributes o) (pkey key) d) as Hs.
  rewrite attribute_charge by done. destruct (o_attributes o !! pkey key) as [w|]; rewrite ?attribute_charge by done; lia.
Qed.

Lemma define_owned key v d (virtual_length : bool) o :
  wf_name key → (virtual_length = true → o_properties o !! pkey key = None) →
  (owned_bytes (define_property key v d virtual_length o) + (stored_bytes o key + stored_attribute_charge o key)
   = owned_bytes o + ((if virtual_length then 0 else property_bytes key v) + attribute_bytes key d))%N.
Proof.
  intros W Hv. unfold define_property. destruct virtual_length.
  - pose proof (set_attributes_owned key d o W). unfold stored_bytes. rewrite Hv by done. lia.
  - pose proof (set_attributes_owned key d (insert_property key v o) W) as Hs. pose proof (insert_owned key v o W).
    assert (stored_attribute_charge (insert_property key v o) key = stored_attribute_charge o key) as E.
    { unfold stored_attribute_charge. pose proof (insert_rest key v o) as (-> & _). done. }
    rewrite E in Hs. lia.
Qed.

Lemma remove_owned key v o :
  wf_name key → o_properties o !! pkey key = Some v →
  (owned_bytes (remove_property key o) + (property_bytes key v + stored_attribute_charge o key) = owned_bytes o)%N.
Proof.
  intros W E. unfold owned_bytes, stored_attribute_charge.
  cbn [remove_property o_properties o_order o_attributes o_kind o_private o_set_properties o_set_attributes o_set_order].
  pose proof (isum_delete stored_property_bytes _ _ _ E). rewrite property_charge by done.
  destruct (o_attributes o !! pkey key) as [d|] eqn:Ed.
  - pose proof (isum_delete stored_attribute_bytes _ _ _ Ed). rewrite attribute_charge by done. lia.
  - rewrite (delete_id (o_attributes o)) by done. lia.
Qed.

Lemma stored_owned key o :
  wf_name key → (stored_bytes o key + stored_attribute_charge o key <= owned_bytes o)%N.
Proof.
  intros W. unfold owned_bytes, stored_bytes, stored_attribute_charge.
  destruct (o_properties o !! pkey key) as [v|] eqn:Ev; [pose proof (isum_elem stored_property_bytes _ _ _ Ev)|];
    (destruct (o_attributes o !! pkey key) as [d|] eqn:Ed; [pose proof (isum_elem stored_attribute_bytes _ _ _ Ed)|]);
    rewrite ?property_charge, ?attribute_charge by done; lia.
Qed.
End storage_inv.
