(* ===== verification/JsStorageRun.v ===== *)
(** * Property operations preserve the heap invariant

    The invariant of a heap's property tables, and the specifications of deletion, truncation,
    assignment and definition: they return without a panic, preserve [heap_ok] and the tables,
    keep the promises of [integrity], and change what they say and nothing else. *)

From S2P Require Import Prelude Sorting Float JsValue JsObject JsCollection JsHeap JsMark JsGc JsCore JsHeapInv JsHeapRun JsNumeric JsBinary JsStorage JsFrame JsStorageInv.
From Stdlib Require Import Sorted.

Section storage_run.
Context {H : JsHost}.
Variable shared_bytes : SharedBuffer → list N.

(** ** The invariant of the tables *)

(** The cells that hold the bindings of a namespace or of mapped arguments. *)
Definition cells (k : ObjectKind) : list ObjectId :=
  match k with
  | Arguments_ m => snd <$> map_to_list m
  | ModuleNamespace exports => snd <$> exports
  | _ => []
  end.

Record storage (h : Heap) : Prop := {
  st_objects id o : h_objects h !! id = Some o → storage_ok o;
  st_cells id o c : h_objects h !! id = Some o → c ∈ cells (o_kind o) →
    ∃ oc, h_objects h !! c = Some oc ∧ o_kind oc = Ordinary;
}.

Definition full (h : Heap) : Prop := heap_ok h ∧ storage h.

Lemma cells_references k c : c ∈ cells k → c ∈ kind_references k.
Proof. destruct k; cbn; try by intros ?%elem_of_nil. all: done. Qed.

(** What a step may do to an object without breaking the tables. *)
Record table_step (o o' : Object) : Prop := {
  ts_ok : storage_ok o → storage_ok o';
  ts_cells c : c ∈ cells (o_kind o') → c ∈ cells (o_kind o);
  ts_ordinary : o_kind o = Ordinary → o_kind o' = Ordinary;
}.

#[export] Instance table_step_refl : Reflexive table_step.
Proof. by split. Qed.
#[export] Instance table_step_trans : Transitive table_step.
Proof. intros o1 o2 o3 [A1 B1 C1] [A2 B2 C2]. split; auto. Qed.

Lemma storage_step h h' : storage h → heap_ok h' → each (λ _, table_step) h h' → storage h'.
Proof.
  intros S K [_ Hs]. split.
  - intros id o' E'. destruct (Hs id o' E') as (o & E & T). apply T. by apply (st_objects _ S id).
  - intros id o' c E' Hc. destruct (Hs id o' E') as (o & E & T).
    destruct (st_cells _ S id o c E) as (oc & Ec & Eo); [by apply T|].
    destruct (ok_closed _ K id c) as [oc' Ec'].
    { unfold succs. rewrite E'. apply elem_of_app. left. apply kind_references_elem. by apply cells_references. }
    exists oc'. split; [done|]. destruct (Hs c oc' Ec') as (oc2 & Ec2 & T2). apply T2. congruence.
Qed.

Lemma same_cells o o' : same_storage o o' → cells (o_kind o') = cells (o_kind o).
Proof.
  intros S. pose proof (ss_kind _ _ S) as E.
  destruct (o_kind o) eqn:E1, (o_kind o') eqn:E2; cbn in E; try done; by simplify_eq.
Qed.

Lemma same_table_step o o' : same_storage o o' → table_step o o'.
Proof.
  intros S. split.
  - by apply storage_ok_same.
  - by rewrite (same_cells o o').
  - by apply (same_kind o o' Ordinary).
Qed.

Lemma keeps_step h h' : keeps_heap h h' → each (λ _, table_step) h h'.
Proof. apply each_mono. intros _ o o' _. apply same_table_step. Qed.

Lemma keeps_full h h' : full h → heap_ok h' → keeps_heap h h' → full h'.
Proof. intros [_ S] K Hk. split; [done|]. eapply storage_step; [done|done|by apply keeps_step]. Qed.

(** ** Rules *)
Lemma wp_room {B} n protected (k : hm B) Q h :
  heap_ok h → (∀ id, id ∈ protected → present h id) →
  (∀ h1, heap_ok h1 → keeps_heap h h1 → (∀ id, id ∈ protected → present h1 id) →
     (h_managed_bytes h1 + n <= max_heap_bytes (h_config h1))%N → wp k Q h1) →
  (∀ h1 e, heap_ok h1 → keeps_heap h h1 → Q h1 (HErr e)) →
  wp (ensure_room n protected ;; k) Q h.
Proof.
  intros K Hp Hk He. destruct (ensure_room_spec h n protected K Hp) as (h1 & r & E & K1 & Hc & Hr & Hre).
  pose proof (keeps_room _ _ _ _ _ E) as Kp. destruct Hre as [->|[e ->]].
  - eapply wp_step; [exact E|]. apply Hk; [done|done| |auto]. intros id Hid.
    eapply collected_present; [|exact Hc|..]; auto.
  - apply wp_bind. exists h1, (HErr e). auto.
Qed.

Lemma heap_ok_remember h R :
  heap_ok h → (∀ x, x ∈ h_remembered h → x ∈ R) → (∀ x, x ∈ R → present h x) → heap_ok (h_set_remembered R h).
Proof.
  intros K H1 H2. split; try apply K; [exact H2|].
  intros a b Ha Hb Hy. apply H1. by apply (ok_barrier _ K a b).
Qed.

Lemma wp_barrier {A B} (t : hm A) id refs (k : A → hm B) Q h :
  is_barrier t id refs → heap_ok h → present h id → (∀ b, b ∈ refs → present h b) →
  (∀ R a, heap_ok (h_set_remembered R h) → (∀ b, b ∈ refs → old h id → young h b → id ∈ R) →
     wp (k a) Q (h_set_remembered R h)) →
  wp (t ≫= k) Q h.
Proof.
  intros Hb K Hid Hp Hk. destruct (Hb h Hid Hp) as (R & a & E & H1 & H2 & H3).
  eapply wp_step; [exact E|]. apply Hk; [|done]. apply heap_ok_remember; [done|done|].
  intros x [Hx| ->]%H2; [by apply (ok_remembered _ K)|done].
Qed.

Lemma heap_ok_epoch h n : heap_ok h → heap_ok (h_set_structure_epoch n h).
Proof. intros K. apply (heap_ok_roots h); try done; apply K. Qed.

(** A write with its charge, after its barrier. *)
Lemma wp_write {B} h id o o1 f old new (refs : list ObjectId) (k : hm B) Q :
  heap_ok h → h_objects h !! id = Some o → f o = recharge_object old new o1 →
  o_bytes o1 = o_bytes o → o_young o1 = o_young o → o_prototype o1 = o_prototype o →
  (old <= o_bytes o)%N → (h_managed_bytes h + new <= max_heap_bytes (h_config h) + old)%N →
  (∀ b, b ∈ references o1 → b ∈ references o ∨ b ∈ refs) → (∀ b, b ∈ refs → present h b) →
  kind_ok h (o_kind o1) → (owned_bytes o1 + old <= o_bytes o + new)%N →
  (∀ b, b ∈ refs → JsMark.old h id → young h b → id ∈ h_remembered h) →
  (∀ h' o', heap_ok h' → same_ids h h' → h_objects h' = <[id := o']> (h_objects h) → same_storage o1 o' → wp k Q h') →
  wp (update_object id f ;; recharge old new ;; k) Q h.
Proof.
  intros K E Ef Eb Ey Epr Hold Hmax Href Hp Hk Hown Hrem HQ.
  destruct (update_recharge h id o o1 f old new K E Ef Eb Hold Hmax) as (o' & Eo' & Hrun).
  assert (sound h (update_object id f ;; recharge old new ;; mret ())) as (h' & r & Er & K').
  { apply (sound_write_at h id o o1 f old new refs (mret ())); try done.
    intros h1 Hid1 Hp1 E1 Hy1 Ho1. exists (h_remembered h1), (). rewrite h_set_remembered_id.
    split_and!; [done|done|by left|]. intros b Hb Ho Hy. rewrite E1. apply (Hrem b); auto. }
  rewrite Hrun in Er. injection Er as <- _.
  unfold wp. rewrite Hrun. apply (HQ _ o'); try done. rewrite Eo'. by split.
Qed.

(** A write that moves no charge. *)
Lemma update_run h id o o1 f :
  h_objects h !! id = Some o → f o = Ok o1 →
  update_object id f h = Ok (h_set_objects (<[id := o1]> (h_objects h)) h, HOk ()).
Proof. intros E Ef. unfold update_object, hupd. rewrite E. cbn. by rewrite Ef. Qed.

Lemma update_heap_ok h id o o1 :
  heap_ok h → h_objects h !! id = Some o →
  o_bytes o1 = o_bytes o → o_young o1 = o_young o → o_prototype o1 = o_prototype o →
  (∀ b, b ∈ references o1 → b ∈ references o) → kind_ok h (o_kind o1) → (owned_bytes o1 <= o_bytes o)%N →
  heap_ok (h_set_objects (<[id := o1]> (h_objects h)) h).
Proof.
  intros K E Eb Ey Epr Href Hk Hown.
  assert (sound h (update_object id (λ _, Ok o1) ;; mret ())) as (h' & r & Er & K').
  { apply (sound_update h id o o1 _ (mret ())); try done. intros. by apply sound_ret. }
  rewrite (hbind_ok _ _ _ _ _ (update_run h id o o1 (λ _, Ok o1) E eq_refl)) in Er. by injection Er as <- _.
Qed.

(** ** Reads *)
Lemma kind_of_present h id o : h_objects h !! id = Some o → kind_of h id = HOk (o_kind o).
Proof. intros E. unfold kind_of, object. by rewrite E. Qed.
Lemma kind_of_absent h id : h_objects h !! id = None → kind_of h id = HErr (InvalidObject id).
Proof. intros E. unfold kind_of, object. by rewrite E. Qed.

Definition is_typed (o : Object) : bool := match o_kind o with TypedArray _ _ _ _ _ => true | _ => false end.
Definition is_namespace (o : Object) : bool := match o_kind o with ModuleNamespace _ => true | _ => false end.
Definition is_string (key : PropertyName) : bool := match key with PString _ => true | PSymbol _ => false end.

Definition export_cell (o : Object) (key : PropertyName) : option ObjectId :=
  match key, o_kind o with PString n, ModuleNamespace exports => find_export n exports | _, _ => None end.
Definition parameter_cell (o : Object) (key : PropertyName) : option ObjectId :=
  match o_kind o with Arguments_ m => m !! pkey key | _ => None end.

Lemma export_cell_present h id o key :
  h_objects h !! id = Some o → module_namespace_export_cell h id key = HOk (export_cell o key).
Proof.
  intros E. unfold module_namespace_export_cell, export_cell. destruct key; [|done].
  rewrite (kind_of_present _ _ _ E). cbn. by destruct (o_kind o).
Qed.
Lemma parameter_cell_present h id o key :
  h_objects h !! id = Some o → arguments_parameter_cell h id key = HOk (parameter_cell o key).
Proof. intros E. unfold arguments_parameter_cell, parameter_cell. by rewrite (kind_of_present _ _ _ E). Qed.
Lemma is_namespace_present h id o :
  h_objects h !! id = Some o → is_module_namespace h id = HOk (is_namespace o).
Proof. intros E. unfold is_module_namespace, is_namespace. by rewrite (kind_of_present _ _ _ E). Qed.
Lemma indexed_present h id o : h_objects h !! id = Some o → indexed id h = Ok (h, HOk o).
Proof. intros E. unfold indexed. by rewrite E. Qed.

Lemma numeric_key_run h id o key :
  h_objects h !! id = Some o →
  ∃ r, heap_numeric_key id key h = Ok (h, HOk r) ∧ (is_typed o = false → r = None).
Proof.
  intros E. unfold heap_numeric_key, mbind, hm_bind, hread, is_typed_array.
  rewrite (kind_of_present _ _ _ E). cbn. destruct (typed_array_numeric_key_total key) as [r Er].
  unfold is_typed. destruct (o_kind o); try (eexists; split; [reflexivity|done]).
  exists r. split; [|done]. unfold hres. by rewrite Er.
Qed.
Lemma numeric_key_absent h id key :
  h_objects h !! id = None → heap_numeric_key id key h = Ok (h, HErr (InvalidObject id)).
Proof.
  intros E. unfold heap_numeric_key, mbind, hm_bind, hread, is_typed_array. by rewrite (kind_of_absent _ _ E).
Qed.

Lemma find_export_elem n exports c : find_export n exports = Some c → c ∈ snd <$> exports.
Proof.
  induction exports as [|[e x] l IH]; cbn; [done|]. destruct (bool_decide _).
  - intros [= <-]. constructor.
  - intros ?%IH. by constructor.
Qed.
Lemma export_cell_cells o key c : export_cell o key = Some c → c ∈ cells (o_kind o).
Proof. unfold export_cell. destruct key; [|done]. destruct (o_kind o); try done. apply find_export_elem. Qed.
Lemma parameter_cell_cells o key c : parameter_cell o key = Some c → c ∈ cells (o_kind o).
Proof.
  unfold parameter_cell. destruct (o_kind o); try done. cbn. intros E. apply list_elem_of_fmap.
  exists (pkey key, c). by rewrite elem_of_map_to_list.
Qed.

(** A cell is an ordinary object: what it holds is stored. *)
Lemma ordinary_reads o : o_kind o = Ordinary →
  is_typed o = false ∧ (∀ key, export_cell o key = None ∧ parameter_cell o key = None ∧ string_virtual o key = false
    ∧ is_array_length o key = false ∧ own_property o key = o_properties o !! pkey key).
Proof.
  unfold is_typed, export_cell, parameter_cell, string_virtual, is_array_length, own_property. intros ->.
  split; [done|]. intros []; by split_and!.
Qed.

Lemma get_own_fuel_ordinary h c oc key fuel :
  h_objects h !! c = Some oc → o_kind oc = Ordinary →
  get_own_fuel shared_bytes (S fuel) c key h = Ok (h, HOk (o_properties oc !! pkey key)).
Proof.
  intros E Ek. destruct (ordinary_reads oc Ek) as [Ht Hr]. destruct (Hr key) as (Hc & _ & _ & _ & Ho).
  destruct (numeric_key_run h c oc key E) as (r & En & Hn). rewrite Hn in En by done.
  cbn [get_own_fuel]. rewrite (hbind_ok _ _ _ _ _ En).
  erewrite hbind_ok; [|unfold hexpect, hread; by rewrite (export_cell_present _ _ _ _ E)]. rewrite Hc.
  rewrite (hbind_ok _ _ _ _ _ (indexed_present _ _ _ E)). by rewrite Ho.
Qed.
Lemma get_own_ordinary h c oc key :
  h_objects h !! c = Some oc → o_kind oc = Ordinary →
  get_own shared_bytes c key h = Ok (h, HOk (o_properties oc !! pkey key)).
Proof. apply get_own_fuel_ordinary. Qed.

(** ** Steps of one object *)
Lemma remove_step key o : is_array_length o key = false → table_step o (remove_property key o).
Proof. intros Hl. split; try done. intros K. by apply remove_ok. Qed.

Lemma unmap_kind key o : o_kind (unmap_property key o) =
  match o_kind o with Arguments_ m => Arguments_ (delete (pkey key) m) | k => k end.
Proof. unfold unmap_property. by destruct (o_kind o) eqn:E. Qed.

Lemma unmap_step key o : table_step o (unmap_property key o).
Proof.
  split; [apply unmap_ok|..].
  - intros c. rewrite unmap_kind. destruct (o_kind o); try done. cbn. rewrite !list_elem_of_fmap.
    intros ([k x] & -> & [_ Hx]%elem_of_map_to_list%lookup_delete_Some). exists (k, x). by rewrite elem_of_map_to_list.
  - intros E. by rewrite unmap_kind, E.
Qed.

Lemma grown_step key o o' :
  (storage_ok o → storage_ok o') → o_kind o' = grown_kind key (o_kind o) → table_step o o'.
Proof.
  intros Hok E. split; [done|..]; rewrite E; unfold grown_kind.
  - intros c. by destruct (o_kind o), (array_index key).
  - by intros ->.
Qed.
Lemma insert_step key v o :
  is_array_length o key = false → string_virtual o key = false → table_step o (insert_property key v o).
Proof. intros Hl Hs. apply (grown_step key); [intros; by apply insert_ok|apply insert_kind]. Qed.

Lemma set_length_step n o :
  (∃ m, o_kind o = KArray m) → (n <= U32_MAX)%N →
  (∀ key i, key ∈ o_order o → array_index key = Some i → (i < n)%N) → table_step o (o_set_kind (KArray n) o).
Proof.
  intros [m E] Hw Hi. split; [intros; apply set_length_ok; eauto|..]; cbn; [by intros c ?%elem_of_nil|congruence].
Qed.

(** An object replaced by a related one. *)
Lemma full_insert h h' id o o1 o' :
  full h → heap_ok h' → same_ids h h' → h_objects h !! id = Some o → h_objects h' = <[id := o']> (h_objects h) →
  table_step o o1 → same_storage o1 o' → full h'.
Proof.
  intros [_ S] K I E Eh T Hs. split; [done|]. eapply storage_step; [done|done|].
  eapply each_insert; [intros; reflexivity|done|done|done|]. etrans; [exact T|]. by apply same_table_step.
Qed.

Definition guards : Heap → Heap → Prop := each (λ _, integrity).
#[export] Instance guards_refl : Reflexive guards.
Proof. intros h. split; [done|]. intros id o E. by exists o. Qed.
#[export] Instance guards_trans : Transitive guards.
Proof. intros h1 h2 h3. apply each_trans. intros _. apply integrity_trans. Qed.
Lemma keeps_guards h h' : keeps_heap h h' → guards h h'.
Proof. apply each_mono. intros _ o o' _. apply same_storage_integrity. Qed.
Lemma guards_insert h h' id o o1 o' :
  same_ids h h' → h_objects h !! id = Some o → h_objects h' = <[id := o']> (h_objects h) →
  integrity o o1 → same_storage o1 o' → guards h h'.
Proof.
  intros I E Eh T Hs. eapply each_insert; [intros; reflexivity|done|done|done|]. etrans; [exact T|].
  by apply same_storage_integrity.
Qed.

(** ** Deletion *)
Definition deletable (o : Object) (key : PropertyName) : bool :=
  negb (match o_attributes o !! pkey key with Some d => bool_decide (pd_configurable d = Some false) | None => false end)
  && negb (string_virtual o key) && negb (is_array_length o key).

Lemma deletable_spec o key : deletable o key = true ↔
  (∀ d, o_attributes o !! pkey key = Some d → pd_configurable d ≠ Some false)
  ∧ string_virtual o key = false ∧ is_array_length o key = false.
Proof.
  unfold deletable. rewrite !andb_true_iff, !negb_true_iff.
  destruct (o_attributes o !! pkey key) as [d|]; [rewrite bool_decide_eq_false|]; naive_solver.
Qed.

(** A name that is not stored has nothing to remove. *)
Lemma remove_absent key o :
  storage_ok o → is_array_length o key = false → o_properties o !! pkey key = None → remove_property key o = o.
Proof.
  intros K Hl E. assert (pkey key ∉ pkey <$> o_order o) as Hn.
  { intros [v Ev]%(so_stored _ K). congruence. }
  assert (o_attributes o !! pkey key = None) as Ea.
  { destruct (o_attributes o !! pkey key) as [d|] eqn:Ed; [|done]. destruct (so_attributes _ K _ _ Ed) as (_ & _ & Hd).
    destruct Hd as [[v Ev]|[Ek Hn']]; [congruence|]. apply not_true_iff_false in Hl. destruct Hl.
    by apply is_array_length_spec. }
  assert (remove_name key (o_order o) = o_order o) as Eo.
  { unfold remove_name. revert Hn. generalize (o_order o). intros l. induction l as [|x l IH]; [done|].
    rewrite fmap_cons, not_elem_of_cons, filter_cons. intros [? ?]. rewrite decide_True by congruence. by rewrite IH. }
  unfold remove_property. rewrite !delete_id, Eo by done. by destruct o.
Qed.

Lemma unmap_run h id o key :
  heap_ok h → h_objects h !! id = Some o →
  ∃ h', hexpect (unmap_arguments_property id key) h = Ok (h', HOk ()) ∧ heap_ok h' ∧ same_ids h h'
    ∧ h_objects h' = <[id := unmap_property key o]> (h_objects h).
Proof.
  intros K E. unfold hexpect, unmap_arguments_property, unmap_property.
  rewrite (hbind_ok _ _ h h (o_kind o)) by (unfold hread; by rewrite (kind_of_present _ _ _ E)).
  destruct (o_kind o) as [] eqn:Ek; try (eexists; split; [reflexivity|]; split_and!; [done..|]; symmetry; by apply insert_id).
  set (k' := Arguments_ (delete (pkey key) parameter_map)).
  rewrite (update_run h id o (o_set_kind k' o)) by done. eexists. split; [reflexivity|]. split_and!; [|done..].
  pose proof (ok_owned _ K id o E). pose proof (owned_set_kind k' o) as Ho. rewrite Ek in Ho. cbn in Ho.
  apply (update_heap_ok h id o); try done; [|lia].
  intros b [?|Hb]%references_set_kind; [done|]. apply kind_references_elem. rewrite Ek. cbn in *.
  apply list_elem_of_fmap in Hb as ([i x] & -> & [_ Hx]%elem_of_map_to_list%lookup_delete_Some).
  apply list_elem_of_fmap. exists (i, x). by rewrite elem_of_map_to_list.
Qed.

Lemma heap_objects_twice (m m1 m2 : gmap ObjectId Object) id o1 o2 :
  m1 = <[id := o1]> m → m2 = <[id := o2]> m1 → m2 = <[id := o2]> m.
Proof. intros -> ->. apply insert_insert_eq. Qed.

(** What a write to one object leaves: the object replaced, everything else untouched. *)
Definition replaced (h h' : Heap) (id : ObjectId) (o1 : Object) : Prop :=
  same_ids h h' ∧ ∃ o', h_objects h' = <[id := o']> (h_objects h) ∧ same_storage o1 o'.

Lemma replaced_self h id o : h_objects h !! id = Some o → replaced h h id o.
Proof. intros E. split; [done|]. exists o. split; [symmetry; by apply insert_id|done]. Qed.

Lemma replaced_trans h h1 h2 id o1 o2 (f : Object → Object) :
  (∀ a b, same_storage a b → same_storage (f a) (f b)) → o2 = f o1 →
  replaced h h1 id o1 → (∀ o, h_objects h1 !! id = Some o → replaced h1 h2 id (f o)) → replaced h h2 id o2.
Proof.
  intros Hf -> [[I1 I2] (o' & Eh & S)] H2. destruct (H2 o') as [[J1 J2] (o'' & Eh2 & S2)]; [rewrite Eh; apply lookup_insert_eq|].
  split; [split; congruence|]. exists o''. split; [rewrite Eh2, Eh; apply insert_insert_eq|].
  etrans; [by apply Hf|done].
Qed.

Lemma replaced_full h h' id o o1 :
  full h → heap_ok h' → h_objects h !! id = Some o → table_step o o1 → replaced h h' id o1 → full h'.
Proof. intros F K E T [I (o' & Eh & S)]. by eapply full_insert. Qed.
Lemma replaced_guards h h' id o o1 :
  h_objects h !! id = Some o → integrity o o1 → replaced h h' id o1 → guards h h'.
Proof. intros E T [I (o' & Eh & S)]. by eapply guards_insert. Qed.
Lemma replaced_each h h' id o o1 :
  h_objects h !! id = Some o → replaced h h' id o1 →
  each (λ a x x', same_storage (if decide (a = id) then o1 else x) x') h h'.
Proof.
  intros E [I (o' & Eh & S)]. split; [done|]. intros a oa. rewrite Eh.
  intros [[<- <-]|[Hne Ea]]%lookup_insert_Some.
  - exists o. split; [done|]. by rewrite decide_True.
  - exists oa. split; [done|]. by rewrite decide_False.
Qed.

Lemma unmap_same key a b : same_storage a b → same_storage (unmap_property key a) (unmap_property key b).
Proof.
  intros S. pose proof (ss_kind _ _ S) as E. pose proof S as [_ Sp So Sa Se]. unfold unmap_property.
  destruct (o_kind a) eqn:E1, (o_kind b) eqn:E2; cbn in E; try done; simplify_eq.
  split; try done.
Qed.

(** The removal of a property that is there. *)
Definition remove_stored (id : ObjectId) (key : PropertyName) (o : Object) (value : Value) : hm unit :=
  let bytes := (property_bytes key value + stored_attribute_charge o key)%N in
  update_object id (λ o, recharge_object bytes 0 (remove_property key o));;
  recharge bytes 0;;
  hmod (λ h, h_set_structure_epoch (h_structure_epoch h + 1)%N h).

Lemma remove_stored_run h id o key value :
  heap_ok h → wf_name key → h_objects h !! id = Some o → o_properties o !! pkey key = Some value →
  ∃ h', remove_stored id key o value h = Ok (h', HOk ()) ∧ heap_ok h' ∧ replaced h h' id (remove_property key o).
Proof.
  intros K W E Ev. pose proof (remove_owned key value o W Ev). pose proof (ok_owned _ K id o E). pose proof (ok_budget _ K).
  assert (wp (remove_stored id key o value) (λ h' r, r = HOk () ∧ heap_ok h' ∧ replaced h h' id (remove_property key o)) h)
    as (h' & r & Er & -> & ?); [|eauto].
  eapply (wp_write h id o (remove_property key o) _ _ 0 []); try done; try lia.
  - intros b Hb. left. by eapply remove_references.
  - by intros b ?%elem_of_nil.
  - apply (ok_kinds _ K id o E).
  - by intros b ?%elem_of_nil.
  - intros h' o' K' I Eh S. eexists _, _. split; [reflexivity|]. split; [done|].
    split; [by apply heap_ok_epoch|]. split; [done|]. by exists o'.
Qed.

Lemma delete_key_spec h id o key :
  full h → wf_name key → h_objects h !! id = Some o → heap_numeric_key id key h = Ok (h, HOk None) → export_cell o key = None →
  is_namespace o && is_string key = false →
  ∃ h', delete_key shared_bytes id key h = Ok (h', HOk (deletable o key)) ∧ heap_ok h'
    ∧ replaced h h' id (if deletable o key then unmap_property key (remove_property key o) else o).
Proof.
  intros [K S] W E En Hc Hn. pose proof (st_objects _ S id o E) as Ho.
  unfold delete_key. rewrite (hbind_ok _ _ _ _ _ En).
  rewrite (hbind_ok _ _ h h (export_cell o key)) by (unfold hexpect, hread; by rewrite (export_cell_present _ _ _ _ E)).
  rewrite (hbind_ok _ _ h h (is_namespace o)) by (unfold hexpect, hread; by rewrite (is_namespace_present _ _ _ E)).
  fold (is_string key). rewrite Hc, Hn.
  rewrite (hbind_ok _ _ h h (parameter_cell o key)) by (unfold hexpect, hread; by rewrite (parameter_cell_present _ _ _ _ E)).
  rewrite (hbind_ok _ _ h h o) by (unfold hexpect, hread, object; by rewrite E).
  unfold deletable. destruct (match o_attributes o !! pkey key with Some d => bool_decide _ | None => false end) eqn:Ea;
    [exists h; split_and!; [done..|by apply replaced_self]|].
  destruct (string_virtual o key) eqn:Ev; [exists h; split_and!; [done..|by apply replaced_self]|].
  destruct (is_array_length o key) eqn:El; [exists h; split_and!; [done..|by apply replaced_self]|].
  cbn [negb andb].
  assert (∃ h1, match o_properties o !! pkey key with None => mret () | Some value => remove_stored id key o value end h
      = Ok (h1, HOk ()) ∧ heap_ok h1 ∧ replaced h h1 id (remove_property key o)) as (h1 & E1 & K1 & R1).
  { destruct (o_properties o !! pkey key) as [value|] eqn:Ep; [by apply remove_stored_run|].
    exists h. rewrite remove_absent by done. split_and!; [done..|by apply replaced_self]. }
  rewrite (hbind_ok _ _ h h1 ()) by (rewrite <-E1; by destruct (o_properties o !! pkey key)).
  destruct (parameter_cell o key) as [c|] eqn:Epc.
  - destruct R1 as [I1 (o1 & Eh1 & S1)]. destruct (unmap_run h1 id o1 key K1) as (h2 & E2 & K2 & I2 & Eh2).
    { rewrite Eh1. apply lookup_insert_eq. }
    exists h2. rewrite (hbind_ok _ _ _ _ _ E2). split_and!; [done..|]. split; [split; etrans; [apply I2|apply I1|apply I2|apply I1]|].
    exists (unmap_property key o1). split; [rewrite Eh2, Eh1; apply insert_insert_eq|]. by apply unmap_same.
  - exists h1. split_and!; [done..|]. assert (unmap_property key (remove_property key o) = remove_property key o) as ->; [|done].
    unfold unmap_property, parameter_cell in *. cbn. destruct (o_kind o) eqn:Ek; try done.
    rewrite delete_id by done. unfold remove_property. destruct o; cbn in *. by rewrite Ek.
Qed.

Lemma buffer_slots_length h b d : buffer_is_detached h b = HOk d → ∃ n, buffer_byte_length shared_bytes h b = HOk n.
Proof.
  unfold buffer_is_detached, buffer_byte_length. destruct (buffer_slots h b); cbn; [eauto|done].
Qed.

(** The view of a typed array is computed without a panic. *)
Lemma typed_info_run h id :
  (∃ e, typed_array_info shared_bytes id h = Ok (h, HErr e))
  ∨ ∃ b off len k d, typed_array_info shared_bytes id h = Ok (h, HOk (b, off, len, k)) ∧ buffer_is_detached h b = HOk d.
Proof.
  unfold typed_array_info, mbind, hm_bind, hread. destruct (typed_slots h id) as [t|e]; [|eauto].
  destruct (buffer_is_detached h (ta_buffer t)) as [d|e] eqn:Ed; [|eauto]. right.
  destruct (buffer_slots_length _ _ _ Ed) as [n En]. destruct d; [by eauto 10|]. unfold hexpect. rewrite En.
  destruct (_ <? _)%N; by eauto 10.
Qed.

Lemma delete_key_sound h id key :
  full h → wf_name key → wp (delete_key shared_bytes id key) (λ h' r, full h' ∧ guards h h') h.
Proof.
  intros F W. pose proof F as [K S]. destruct (h_objects h !! id) as [o|] eqn:E.
  2: { exists h, (HErr (InvalidObject id)). split; [|by split]. unfold delete_key.
       by rewrite (hbind_err _ _ _ _ _ (numeric_key_absent h id key E)). }
  destruct (numeric_key_run h id o key E) as ([n|] & En & Hn).
  - unfold delete_key. eapply wp_step; [exact En|]. destruct n as [i|]; [|by apply wp_ret].
    destruct (typed_info_run h id) as [[e Er]|(b & off & len & k & d & Er & Ed)].
    { exists h, (HErr e). split; [by apply hbind_err|done]. }
    eapply wp_step; [exact Er|]. cbv beta iota. eapply wp_expect; [exact Ed|]. by apply wp_ret.
  - destruct (decide (export_cell o key = None ∧ is_namespace o && is_string key = false)) as [(H2 & H3)|Hno].
    + destruct (delete_key_spec h id o key F W E En H2 H3) as (h' & Er & K' & R). exists h', (HOk (deletable o key)).
      split; [done|]. pose proof (st_objects _ S id o E) as Ho. destruct (deletable o key) eqn:Ed.
      * apply deletable_spec in Ed as (Ed & _ & Hl). split.
        -- eapply replaced_full; [done|done|done| |exact R]. etrans; [by apply remove_step|apply unmap_step].
        -- eapply replaced_guards; [done| |exact R]. etrans; [by apply remove_integrity|apply unmap_integrity].
      * split; [by eapply replaced_full|by eapply replaced_guards].
    + unfold delete_key. eapply wp_step; [exact En|].
      eapply wp_expect; [by apply export_cell_present|]. eapply wp_expect; [by apply is_namespace_present|].
      fold (is_string key). destruct (export_cell o key) as [c|] eqn:Ec; [by apply wp_ret|].
      destruct (is_namespace o && is_string key) eqn:Ens; [by apply wp_ret|]. by destruct Hno.
Qed.

(** ** Truncation *)
Definition remove_all (l : list (N * PropertyName)) (o : Object) : Object :=
  foldl (λ o p, remove_property p.2 o) o l.

Definition removed_keys (l : list (N * PropertyName)) : list PKey := (λ p : N * PropertyName, pkey p.2) <$> l.

Lemma remove_all_fields l o :
  (∀ k, o_properties (remove_all l o) !! k = if decide (k ∈ removed_keys l) then None else o_properties o !! k)
  ∧ o_order (remove_all l o) = filter (λ n, pkey n ∉ removed_keys l) (o_order o)
  ∧ (∀ k, o_attributes (remove_all l o) !! k = if decide (k ∈ removed_keys l) then None else o_attributes o !! k)
  ∧ o_kind (remove_all l o) = o_kind o ∧ o_extensible (remove_all l o) = o_extensible o.
Proof.
  revert o. induction l as [|[i key] l IH]; intros o.
  - split_and!; try done. cbn. induction (o_order o) as [|x xs IH]; [done|].
    rewrite filter_cons, decide_True by (by intros ?%elem_of_nil). by rewrite <-IH.
  - change (remove_all ((i, key) :: l) o) with (remove_all l (remove_property key o)).
    change (removed_keys ((i, key) :: l)) with (pkey key :: removed_keys l).
    destruct (IH (remove_property key o)) as (E1 & E2 & E3 & E4 & E5). split_and!.
    + intros k. rewrite E1. cbn [remove_property o_properties o_set_properties o_set_attributes o_set_order].
      destruct (decide (k ∈ removed_keys l)), (decide (k ∈ pkey key :: removed_keys l)) as [Hk|Hk]; try done.
      * by destruct Hk; constructor.
      * apply elem_of_cons in Hk as [->|?]; [by rewrite lookup_delete_eq|done].
      * apply not_elem_of_cons in Hk as [? _]. by rewrite lookup_delete_ne.
    + rewrite E2. cbn. unfold remove_name. rewrite list_filter_filter. apply list_filter_iff. intros n.
      rewrite not_elem_of_cons. tauto.
    + intros k. rewrite E3. cbn [remove_property o_attributes o_set_properties o_set_attributes o_set_order].
      destruct (decide (k ∈ removed_keys l)), (decide (k ∈ pkey key :: removed_keys l)) as [Hk|Hk]; try done.
      * by destruct Hk; constructor.
      * apply elem_of_cons in Hk as [->|?]; [by rewrite lookup_delete_eq|done].
      * apply not_elem_of_cons in Hk as [? _]. by rewrite lookup_delete_ne.
    + by rewrite E4.
    + by rewrite E5.
Qed.

(** An array whose elements from [n] on are gone. *)
Definition index_below (n : N) (key : PropertyName) : bool :=
  match array_index key with Some i => (i <? n)%N | None => true end.

Record truncated (n : N) (o o' : Object) : Prop := {
  tr_kind : o_kind o' = KArray n;
  tr_order : o_order o' = filter (λ key, index_below n key = true) (o_order o);
  tr_properties key : o_properties o' !! pkey key = if index_below n key then o_properties o !! pkey key else None;
  tr_attributes key : o_attributes o' !! pkey key = if index_below n key then o_attributes o !! pkey key else None;
}.

Lemma index_below_false n key : index_below n key = false ↔ ∃ i, array_index key = Some i ∧ (n <= i)%N.
Proof.
  unfold index_below. destruct (array_index key) as [i|]; [rewrite N.ltb_ge|]; naive_solver.
Qed.

Lemma filter_iff_elem {A} (P Q : A → Prop) `{∀ x, Decision (P x)} `{∀ x, Decision (Q x)} (l : list A) :
  (∀ x, x ∈ l → P x ↔ Q x) → filter P l = filter Q l.
Proof.
  induction l as [|x l IH]; intros Hl; [done|]. rewrite !filter_cons, IH by (intros; apply Hl; by constructor).
  pose proof (Hl x (list_elem_of_here _ _)). destruct (decide (P x)), (decide (Q x)); tauto.
Qed.

(** Removing exactly the stored names from [n] on truncates. *)
Lemma remove_all_truncated n l o m :
  storage_ok o → o_kind o = KArray m →
  (∀ p, p ∈ l → index_below n p.2 = false) →
  (∀ key, key ∈ o_order o → index_below n key = false → pkey key ∈ removed_keys l) →
  truncated n o (o_set_kind (KArray n) (remove_all l o)).
Proof.
  intros K Ek Hl Ho. destruct (remove_all_fields l o) as (E1 & E2 & E3 & E4 & E5).
  assert (∀ key, pkey key ∈ removed_keys l → index_below n key = false) as Hin.
  { intros key (p & Ep & Hp)%list_elem_of_fmap. specialize (Hl p Hp). unfold index_below in *.
    by rewrite (index_same_key key p.2). }
  assert (∀ key, is_Some (o_properties o !! pkey key) → index_below n key = false → pkey key ∈ removed_keys l) as Hst.
  { intros key (n0 & En & Hn)%(so_stored _ K)%list_elem_of_fmap Hb. rewrite En. apply Ho; [done|].
    unfold index_below in *. by rewrite <-(index_same_key key n0). }
  assert (∀ key, is_Some (o_attributes o !! pkey key) → index_below n key = false → pkey key ∈ removed_keys l) as Hat.
  { intros key [d Ed] Hb. destruct (so_attributes _ K _ _ Ed) as (_ & _ & [?|[Ek' _]]); [by apply Hst|].
    exfalso. unfold index_below in Hb. rewrite (index_same_key key length_name) in Hb by done. done. }
  split; cbn [o_set_kind o_kind o_order o_properties o_attributes].
  - done.
  - rewrite E2. apply filter_iff_elem. intros key Hk. destruct (index_below n key) eqn:Eb.
    + split; [done|]. intros _ Hr. by rewrite Hin in Eb.
    + split; [|done]. intros Hr. destruct Hr. by apply Ho.
  - intros key. rewrite E1. destruct (decide _) as [Hr|Hr]; [by rewrite Hin|].
    destruct (index_below n key) eqn:Eb; [done|]. apply eq_None_not_Some. intros Hs. destruct Hr. by apply Hst.
  - intros key. rewrite E3. destruct (decide _) as [Hr|Hr]; [by rewrite Hin|].
    destruct (index_below n key) eqn:Eb; [done|]. apply eq_None_not_Some. intros Hs. destruct Hr. by apply Hat.
Qed.

Lemma plain_array o n : o_kind o = KArray n →
  is_typed o = false ∧ is_namespace o = false ∧ (∀ key, export_cell o key = None ∧ parameter_cell o key = None
    ∧ string_virtual o key = false) ∧ ∀ key, unmap_property key o = o.
Proof.
  unfold is_typed, is_namespace, export_cell, parameter_cell, string_virtual, unmap_property. intros ->.
  split_and!; try done. intros []; done.
Qed.

Lemma index_not_length key i : array_index key = Some i → pkey key ≠ pkey length_name ∧ wf_name key.
Proof.
  intros E. split; [|by destruct key]. intros El. rewrite (index_same_key key length_name) in E by done.
  vm_compute in E. done.
Qed.

Lemma remove_all_array l o m :
  (∀ p, p ∈ l → array_index p.2 = Some p.1) → o_kind o = KArray m → table_step o (remove_all l o).
Proof.
  revert o. induction l as [|[i key] l IH]; intros o Hl Ek; [reflexivity|].
  change (remove_all ((i, key) :: l) o) with (remove_all l (remove_property key o)).
  etrans; [|apply IH; [intros p Hp; apply Hl; by constructor|done]]. apply remove_step.
  apply not_true_iff_false. intros [_ E]%is_array_length_spec.
  by destruct (index_not_length key i (Hl (i, key) (list_elem_of_here _ _))).
Qed.

Lemma remove_same key a b : same_storage a b → same_storage (remove_property key a) (remove_property key b).
Proof. intros [Sk Sp So Sa Se]. split; cbn; try done; congruence. Qed.
Lemma remove_all_same l a b : same_storage a b → same_storage (remove_all l a) (remove_all l b).
Proof. revert a b. induction l as [|p l IH]; intros a b S; [done|]. apply IH. by apply remove_same. Qed.
Lemma set_kind_same k a b : same_storage a b → same_storage (o_set_kind k a) (o_set_kind k b).
Proof. intros [Sk Sp So Sa Se]. by split. Qed.

Lemma set_length_run h id o n :
  heap_ok h → h_objects h !! id = Some o → (∃ m, o_kind o = KArray m) →
  ∃ h', set_length id n h = Ok (h', HOk ()) ∧ heap_ok h' ∧ replaced h h' id (o_set_kind (KArray n) o).
Proof.
  intros K E [m Ek]. eexists. split; [apply (update_run h id o (o_set_kind (KArray n) o)); [done|by rewrite Ek]|].
  split; [|split; [done|by eexists]].
  pose proof (ok_owned _ K id o E). pose proof (owned_set_kind (KArray n) o) as Ho. rewrite Ek in Ho. cbn in Ho.
  apply (update_heap_ok h id o); try done; [|lia].
  intros b [?|Hb]%references_set_kind; [done|]. by apply elem_of_nil in Hb.
Qed.

(** The elements that are removed are the deletable ones down to the first that is not. *)
Lemma truncate_spec l h id o m :
  full h → h_objects h !! id = Some o → o_kind o = KArray m →
  (∀ p, p ∈ l → array_index p.2 = Some p.1) → NoDup (removed_keys l) →
  (∀ l1 p l2, l = l1 ++ p :: l2 → deletable o p.2 = false →
     ∀ key i, key ∈ o_order o → array_index key = Some i → pkey key ∉ removed_keys l1 → (i <= p.1)%N) →
  ∃ h' r, truncate_elements shared_bytes id l h = Ok (h', r) ∧ full h' ∧
    ((r = HOk () ∧ replaced h h' id (remove_all l o) ∧ ∀ p, p ∈ l → deletable o p.2 = true)
     ∨ (r = HErr ReadOnlyProperty ∧ ∃ l1 p l2, l = l1 ++ p :: l2 ∧ deletable o p.2 = false
          ∧ (∀ q, q ∈ l1 → deletable o q.2 = true)
          ∧ replaced h h' id (o_set_kind (KArray (p.1 + 1)) (remove_all l1 o)))).
Proof.
  revert h o. induction l as [|[i key] l IH]; intros h o F E Ek Hl Hnd Hbad.
  { exists h, (HOk ()). split_and!; [done|done|left]. split_and!; [done|by apply replaced_self|by intros ? ?%elem_of_nil]. }
  destruct (plain_array o m Ek) as (Ht & Hn & Hr & Hum). destruct (Hr key) as (Hc & _ & _).
  destruct (numeric_key_run h id o key E) as (r & En & Hnum). rewrite Hnum in En by done.
  assert (array_index key = Some i) as Ei by (apply (Hl (i, key)); constructor).
  destruct (index_not_length key i Ei) as [Hlen W].
  destruct (delete_key_spec h id o key F W E En Hc) as (h1 & E1 & K1 & R1); [by rewrite Hn|].
  cbn [truncate_elements].
  assert (hexpect (delete_key shared_bytes id key) h = Ok (h1, HOk (deletable o key))) as E1' by (unfold hexpect; by rewrite E1).
  destruct (deletable o key) eqn:Ed.
  - assert (unmap_property key (remove_property key o) = remove_property key o) as Eu.
    { unfold unmap_property. cbn. by rewrite Ek. }
    rewrite Eu in R1. pose proof R1 as [I1 (o1 & Eh1 & S1)].
    assert (h_objects h1 !! id = Some o1) as Eo1 by (rewrite Eh1; apply lookup_insert_eq).
    assert (full h1) as F1.
    { eapply replaced_full; [done|done|done| |exact R1]. apply remove_step. by apply deletable_spec in Ed as (_ & _ & ?). }
    assert (o_kind o1 = KArray m) as Ek1 by (by apply (same_kind (remove_property key o) o1)).
    assert (∀ p, p ∈ l → deletable o1 p.2 = deletable o p.2) as Hdel.
    { intros p Hp. assert (pkey p.2 ≠ pkey key) as Hne.
      { apply NoDup_cons in Hnd as [Hnk _]. intros Epk. apply Hnk. cbn. rewrite <-Epk. apply list_elem_of_fmap. by exists p. }
      unfold deletable. rewrite (same_string_virtual _ _ _ S1), (same_is_array_length _ _ _ S1), (ss_attributes _ _ S1).
      cbn [remove_property o_attributes o_set_properties o_set_attributes o_set_order]. by rewrite lookup_delete_ne. }
    destruct (IH h1 o1 F1 Eo1 Ek1) as (h2 & r2 & E2 & F2 & Hcase).
    { intros p Hp. apply Hl. by constructor. }
    { by apply NoDup_cons in Hnd as [_ ?]. }
    { intros l1 p l2 El Hd key' i' Hk' Hi' Hn'. rewrite Hdel in Hd by (rewrite El; apply elem_of_app; right; constructor).
      rewrite (ss_order _ _ S1) in Hk'. apply list_elem_of_filter in Hk' as [Hne Hk'].
      apply (Hbad ((i, key) :: l1) p l2) with key'; [by rewrite El|done|done|done|].
      cbn. by apply not_elem_of_cons. }
    exists h2, r2. rewrite (hbind_ok _ _ _ _ _ E1'). split_and!; [done|done|].
    destruct Hcase as [(-> & R2 & Hd)|(-> & l1 & p & l2 & -> & Hd & Hl1 & R2)].
    + left. split; [done|]. split.
      * eapply (replaced_trans _ _ _ _ _ _ (remove_all l)); [apply remove_all_same|done|exact R1|].
        intros o2 Eo2. rewrite Eo1 in Eo2. by injection Eo2 as <-.
      * intros p [->|Hp]%elem_of_cons; [done|]. rewrite <-Hdel by done. auto.
    + right. split; [done|]. exists ((i, key) :: l1), p, l2. split_and!; [done| |..].
      * rewrite <-Hdel; [done|]. apply elem_of_app. right. constructor.
      * intros q [->|Hq]%elem_of_cons; [done|]. rewrite <-Hdel; [auto|]. apply elem_of_app. by left.
      * eapply (replaced_trans _ _ _ _ _ _ (λ o, o_set_kind (KArray (p.1 + 1)) (remove_all l1 o)));
          [intros; by apply set_kind_same, remove_all_same|reflexivity|exact R1|].
        intros o2 Eo2. rewrite Eo1 in Eo2. by injection Eo2 as <-.
  - pose proof R1 as [I1 (o1 & Eh1 & S1)].
    assert (h_objects h1 !! id = Some o1) as Eo1 by (rewrite Eh1; apply lookup_insert_eq).
    assert (o_kind o1 = KArray m) as Ek1 by (by apply (same_kind o o1)).
    destruct (set_length_run h1 id o1 (i + 1) K1 Eo1) as (h2 & E2 & K2 & R2); [by eexists|].
    assert (replaced h h2 id (o_set_kind (KArray (i + 1)) o)) as R.
    { eapply (replaced_trans _ _ _ _ _ _ (o_set_kind (KArray (i + 1)))); [apply set_kind_same|reflexivity|exact R1|].
      intros o2 Eo2. rewrite Eo1 in Eo2. by injection Eo2 as <-. }
    exists h2, (HErr ReadOnlyProperty). rewrite (hbind_ok _ _ _ _ _ E1'), (hbind_ok _ _ _ _ _ E2). split_and!; [done| |].
    + eapply replaced_full; [done|done|done| |exact R]. apply set_length_step; [by eexists|apply array_index_bound in Ei; lia|].
      intros key' i' Hk Hi. assert (i' <= i)%N; [|lia]. apply (Hbad [] (i, key) l eq_refl Ed key' i' Hk Hi).
      by intros ?%elem_of_nil.
    + right. split; [done|]. exists [], (i, key), l. split_and!; [done|done|by intros ? ?%elem_of_nil|done].
Qed.

(** ** Array lengths *)
Lemma remove_all_integrity l o : (∀ p, p ∈ l → deletable o p.2 = true) → integrity o (remove_all l o).
Proof.
  intros Hl. destruct (remove_all_fields l o) as (E1 & E2 & E3 & E4 & E5). split.
  - intros k d E Hc. assert (k ∉ removed_keys l) as Hk.
    { intros (p & -> & Hp)%list_elem_of_fmap. apply Hl, deletable_spec in Hp as [Hp _]. by apply (Hp d). }
    exists d. rewrite E1, E3, !decide_False by done. split_and!; [done|by apply descriptor_kept_refl|done].
  - by rewrite E4.
  - rewrite E5. intros E. split; [done|]. intros k. rewrite E1. destruct (decide _); [by intros []|done].
Qed.

Lemma indices_from_elem n order p :
  p ∈ indices_from n order ↔ p.2 ∈ order ∧ array_index p.2 = Some p.1 ∧ (n <= p.1)%N.
Proof.
  unfold indices_from. rewrite list_elem_of_omap. split.
  - intros (key & Hk & Hp). destruct (array_index key) as [i|] eqn:E; [|done].
    destruct (N.leb_spec n i); [|done]. by injection Hp as <-.
  - intros (Hk & E & Hn). exists p.2. split; [done|]. rewrite E. rewrite (proj2 (N.leb_le _ _)) by done. by destruct p.
Qed.

Lemma indices_from_nodup n order : NoDup (pkey <$> order) → NoDup (removed_keys (indices_from n order)).
Proof.
  induction order as [|key order IH]; cbn; [constructor|]. intros [Hk Hnd]%NoDup_cons.
  assert (pkey key ∉ removed_keys (indices_from n order)) as Hn.
  { intros (p & E & (Hp & _)%indices_from_elem)%list_elem_of_fmap. apply Hk. rewrite E. by apply list_elem_of_fmap_2. }
  destruct (match array_index key with Some _ => _ | None => _ end) as [p|] eqn:E; [|by apply IH].
  cbn. apply NoDup_cons. split; [|by apply IH].
  destruct (array_index key) as [i|]; [|done]. destruct (n <=? i)%N; [|done]. by injection E as <-.
Qed.

Lemma index_geb_trans a b c : index_geb a b = true → index_geb b c = true → index_geb a c = true.
Proof. unfold index_geb. rewrite !N.leb_le. lia. Qed.
Lemma index_geb_total a b : index_geb a b = true ∨ index_geb b a = true.
Proof. unfold index_geb. rewrite !N.leb_le. lia. Qed.

Lemma sorted_app_geb l1 p l2 :
  StronglySorted (λ x y, index_geb x y = true) (l1 ++ p :: l2) →
  (∀ q, q ∈ l1 → (p.1 <= q.1)%N) ∧ (∀ q, q ∈ l2 → (q.1 <= p.1)%N).
Proof.
  unfold index_geb. induction l1 as [|x l1 IH]; cbn.
  - intros [_ Hf]%StronglySorted_inv. rewrite Forall_forall in Hf. split; [by intros ? ?%elem_of_nil|].
    intros q Hq. apply N.leb_le. by apply Hf.
  - intros [Hs Hf]%StronglySorted_inv. destruct (IH Hs) as [H1 H2]. split; [|done].
    rewrite Forall_forall in Hf. intros q [->|Hq]%elem_of_cons; [|auto].
    apply N.leb_le, Hf. apply elem_of_app. right. constructor.
Qed.

(** The sorted list of the elements to remove. *)
Record removal (n : N) (o : Object) (l : list (N * PropertyName)) : Prop := {
  rm_index p : p ∈ l → array_index p.2 = Some p.1;
  rm_from p : p ∈ l → p.2 ∈ o_order o ∧ (n <= p.1)%N;
  rm_all key i : key ∈ o_order o → array_index key = Some i → (n <= i)%N → (i, key) ∈ l;
  rm_nodup : NoDup (removed_keys l);
  rm_sorted : StronglySorted (λ x y, index_geb x y = true) l;
}.

Lemma removal_list n o : storage_ok o → removal n o (stable_sort index_geb (indices_from n (o_order o))).
Proof.
  intros K. pose proof (stable_sort_perm index_geb (indices_from n (o_order o))) as Hp.
  assert (∀ p, p ∈ stable_sort index_geb (indices_from n (o_order o)) ↔ p.2 ∈ o_order o ∧ array_index p.2 = Some p.1 ∧ (n <= p.1)%N) as He.
  { intros p. rewrite Hp. apply indices_from_elem. }
  split.
  - intros p (_ & ? & _)%He. done.
  - intros p (? & _ & ?)%He. done.
  - intros key i ? ? ?. by apply He.
  - unfold removed_keys. rewrite Hp. apply indices_from_nodup, K.
  - apply stable_sort_sorted; [apply index_geb_trans|apply index_geb_total].
Qed.

(** Up to an element, what is not removed yet is below it. *)
Lemma removal_below n o l l1 p l2 key i :
  removal n o l → l = l1 ++ p :: l2 → key ∈ o_order o → array_index key = Some i → pkey key ∉ removed_keys l1 → (i <= p.1)%N.
Proof.
  intros R -> Hk Hi Hn. destruct (sorted_app_geb _ _ _ (rm_sorted _ _ _ R)) as [_ H2].
  destruct (decide (n <= i)%N) as [Hle|Hlt].
  - pose proof (rm_all _ _ _ R key i Hk Hi Hle) as Hin. apply elem_of_app in Hin as [Hin|Hin].
    + destruct Hn. apply list_elem_of_fmap. by exists (i, key).
    + apply elem_of_cons in Hin as [<-|Hin]; [done|]. apply (H2 _ Hin).
  - destruct (rm_from _ _ _ R p) as [_ ?]; [apply elem_of_app; right; constructor|]. lia.
Qed.

Lemma removal_above n o l l1 p l2 q : removal n o l → l = l1 ++ p :: l2 → q ∈ l1 → (p.1 < q.1)%N.
Proof.
  intros R -> Hq. destruct (sorted_app_geb _ _ _ (rm_sorted _ _ _ R)) as [H1 _].
  assert (q.1 ≠ p.1); [|specialize (H1 q Hq); lia]. intros E.
  assert (q.2 = p.2) as E2.
  { apply (array_index_inj _ _ p.1); [rewrite <-E|]; apply (rm_index _ _ _ R), elem_of_app; [by left|right; constructor]. }
  pose proof (rm_nodup _ _ _ R) as Hnd. unfold removed_keys in Hnd. rewrite fmap_app in Hnd.
  apply NoDup_app in Hnd as (_ & Hnd & _). apply (Hnd (pkey q.2)).
  - apply list_elem_of_fmap. by exists q.
  - rewrite E2. cbn. constructor.
Qed.

(** What a new length does to an array: everything from the length on goes, or everything above
    the first element, from the top, that is not configurable. *)
Definition length_change (n : N) (o o1 : Object) (r : hresult unit) : Prop :=
  (r = HOk () ∧ truncated n o o1)
  ∨ (r = HErr ReadOnlyProperty ∧ ∃ key i d, key ∈ o_order o ∧ array_index key = Some i ∧ (n <= i)%N
       ∧ o_attributes o !! pkey key = Some d ∧ pd_configurable d = Some false ∧ truncated (i + 1) o o1).

Lemma not_deletable o key i : o_kind o = KArray i → ∀ j, array_index key = Some j → deletable o key = false →
  ∃ d, o_attributes o !! pkey key = Some d ∧ pd_configurable d = Some false.
Proof.
  intros Ek j Hj Hd. unfold deletable, string_virtual, is_array_length in Hd. rewrite Ek in Hd.
  assert (is_name key (str "length") = false) as En.
  { apply not_true_iff_false. intros E%is_name_spec. by destruct (index_not_length key j Hj). }
  rewrite En in Hd. destruct (o_attributes o !! pkey key) as [d|]; [|done]. exists d. split; [done|].
  rewrite !andb_true_r in Hd. by apply negb_false_iff, bool_decide_eq_true in Hd.
Qed.

Lemma removal_truncated n o m l i l1 :
  storage_ok o → o_kind o = KArray m → removal n o l → (∃ l2, l = l1 ++ l2) →
  (∀ q, q ∈ l1 → (i <= q.1)%N) →
  (∀ key j, key ∈ o_order o → array_index key = Some j → (i <= j)%N → pkey key ∈ removed_keys l1) →
  truncated i o (o_set_kind (KArray i) (remove_all l1 o)).
Proof.
  intros K Ek R [l2 ->] H1 H2. apply (remove_all_truncated i l1 o m K Ek).
  - intros q Hq. apply index_below_false. exists q.1. split; [|auto].
    apply (rm_index _ _ _ R), elem_of_app. by left.
  - intros key Hk (j & Hj & Hle)%index_below_false. by eapply H2.
Qed.

(** A new length, from the sorted list of the elements it removes. *)
Lemma change_length_spec h id o m n :
  full h → h_objects h !! id = Some o → o_kind o = KArray m → (n <= U32_MAX)%N →
  ∃ h' r, ((if (n <? m)%N then truncate_elements shared_bytes id (stable_sort index_geb (indices_from n (o_order o)))
            else mret ());; set_length id n) h = Ok (h', r) ∧ full h'
    ∧ ∃ o1, replaced h h' id o1 ∧ length_change n o o1 r
      ∧ ((∀ d, o_attributes o !! pkey length_name = Some d → pd_writable d = Some false → n = m) → integrity o o1).
Proof.
  intros F E Ek Hwd. pose proof F as [K S]. pose proof (st_objects _ S id o E) as Ho. destruct (N.ltb_spec n m) as [Hlt|Hge].
  - set (l := stable_sort _ _). pose proof (removal_list n o Ho) as R. fold l in R.
    destruct (truncate_spec l h id o m F E Ek (rm_index _ _ _ R) (rm_nodup _ _ _ R)) as (h1 & r1 & E1 & F1 & Hcase).
    { intros l1 p l2 El _ key i. by eapply removal_below. }
    assert (∀ i l1, (∀ p, p ∈ l1 → deletable o p.2 = true) →
      (∀ d, o_attributes o !! pkey length_name = Some d → pd_writable d = Some false → n = m) →
      integrity o (o_set_kind (KArray i) (remove_all l1 o))) as Hint.
    { intros i l1 Hd Hw. etrans; [by apply remove_all_integrity|]. apply set_length_integrity.
      intros d Ed Ewd. destruct (remove_all_fields l1 o) as (_ & _ & E3 & E4 & _). rewrite E3 in Ed.
      destruct (decide _); [done|]. specialize (Hw d Ed Ewd). lia. }
    destruct Hcase as [(-> & R1 & Hd)|(-> & l1 & p & l2 & El & Hd & Hl1 & R1)].
    + pose proof R1 as [I1 (o1 & Eh1 & S1)].
      assert (h_objects h1 !! id = Some o1) as Eo1 by (rewrite Eh1; apply lookup_insert_eq).
      destruct (remove_all_fields l o) as (_ & E2 & _ & E4 & _).
      assert (o_kind o1 = KArray m) as Ek1 by (apply (same_kind (remove_all l o) o1); [done..|congruence]).
      destruct F1 as [K1 S1'].
      destruct (set_length_run h1 id o1 n K1 Eo1) as (h2 & Es & K2 & R2); [by eexists|].
      assert (truncated n o (o_set_kind (KArray n) (remove_all l o))) as Htr.
      { apply (removal_truncated n o m l); try done; [by exists []; rewrite app_nil_r|..].
        - intros q Hq. by apply (rm_from _ _ _ R).
        - intros key j Hk Hj Hle. apply list_elem_of_fmap. exists (j, key). split; [done|]. by apply (rm_all _ _ _ R). }
      exists h2, (HOk ()). rewrite (hbind_ok _ _ _ _ _ E1), Es. split; [done|].
      assert (replaced h h2 id (o_set_kind (KArray n) (remove_all l o))) as RR.
      { eapply (replaced_trans _ _ _ _ _ _ (o_set_kind (KArray n))); [apply set_kind_same|reflexivity|exact R1|].
        intros o2 Eo2. rewrite Eo1 in Eo2. by injection Eo2 as <-. }
      split; [|eexists; split_and!; [exact RR|by left|auto]].
      eapply replaced_full; [exact F|done|done| |exact RR].
      etrans; [by apply (remove_all_array l o m); [apply R|]|]. apply set_length_step; [eexists; by rewrite E4|done|].
      intros key i Hk Hi. pose proof (tr_order _ _ _ Htr) as Eord. cbn in Eord. rewrite Eord in Hk.
      apply list_elem_of_filter in Hk as [Hb _]. unfold index_below in Hb. rewrite Hi in Hb. by apply N.ltb_lt.
    + exists h1, (HErr ReadOnlyProperty). rewrite (hbind_err _ _ _ _ _ E1). split_and!; [done|done|].
      eexists. split_and!; [exact R1| |auto]. right. split; [done|].
      assert (p ∈ l) as Hp by (rewrite El; apply elem_of_app; right; constructor).
      destruct (rm_from _ _ _ R p Hp) as [Hpo Hpn]. pose proof (rm_index _ _ _ R p Hp) as Hpi.
      destruct (not_deletable o p.2 m Ek p.1 Hpi Hd) as (d & Ed & Hc).
      exists p.2, p.1, d. split_and!; try done.
      apply (removal_truncated n o m l); try done; [by exists (p :: l2)|..].
      * intros q Hq. pose proof (removal_above n o l l1 p l2 q R El Hq). lia.
      * intros key j Hk Hj Hle. destruct (decide (pkey key ∈ removed_keys l1)) as [|Hn]; [done|].
        pose proof (removal_below n o l l1 p l2 key j R El Hk Hj Hn). lia.
  - destruct (set_length_run h id o n K E) as (h1 & E1 & K1 & R1); [by eexists|]. exists h1, (HOk ()).
    split; [exact E1|]. assert (∀ key i, key ∈ o_order o → array_index key = Some i → (i < n)%N) as Hi.
    { intros key i Hk Hi. pose proof (so_index _ Ho m key i Ek Hk Hi). lia. }
    split; [eapply replaced_full; [done|done|done| |exact R1]; apply set_length_step; [by eexists|done|done]|].
    eexists. split_and!; [exact R1| |].
    + left. split; [done|]. apply (remove_all_truncated n [] o m Ho Ek); [by intros ? ?%elem_of_nil|].
      intros key Hk (i & Hj & Hle)%index_below_false. specialize (Hi key i Hk Hj). lia.
    + intros Hw. apply set_length_integrity. intros d Ed Ewd. by rewrite (Hw d Ed Ewd).
Qed.

Lemma array_length_value_bound v n : array_length_value v = Some n → (n <= U32_MAX)%N.
Proof.
  unfold array_length_value. destruct v as [| | |x| | | |]; try done. destruct (_ && _ && _); [|done]. intros [= <-].
  unfold f64_as_u32. pose proof (cast_sat_bounds 0 (Z.of_N U32_MAX) trunc_Z x). lia.
Qed.

Lemma set_array_length_spec h id value :
  full h →
  ∃ h' r, set_array_length shared_bytes id value h = Ok (h', r) ∧ full h' ∧
    (∀ o m n, h_objects h !! id = Some o → o_kind o = KArray m → array_length_value value = Some n →
       ∃ o1, replaced h h' id o1 ∧ length_change n o o1 r
         ∧ ((∀ d, o_attributes o !! pkey length_name = Some d → pd_writable d = Some false → n = m) → integrity o o1))
    ∧ ((∀ n, array_length_value value ≠ Some n) → h' = h ∧ r = HErr InvalidArrayLength)
    ∧ ((∀ o m, h_objects h !! id = Some o → o_kind o ≠ KArray m) → h' = h ∧ ∃ e, r = HErr e).
Proof.
  intros F. unfold set_array_length. destruct (array_length_value value) as [n|] eqn:En.
  2: { eexists h, _. split_and!; [reflexivity|done|..]; try done. intros _. split; [done|]. by eexists. }
  rewrite (hbind_ok _ _ h h n) by done.
  destruct (h_objects h !! id) as [o|] eqn:E.
  2: { eexists h, _. split_and!; [by apply hbind_err; unfold hread, object; rewrite E|done|..]; try done.
       - intros Hn. by destruct (Hn n). 
       - intros _. split; [done|]. by eexists. }
  rewrite (hbind_ok _ _ h h o) by (unfold hread, object; by rewrite E).
  destruct (o_kind o) as [] eqn:Ek;
    try (eexists h, _; split_and!; [reflexivity|done|intros; congruence|intros Hn; by destruct (Hn n)|];
         intros _; split; [done|]; by eexists).
  destruct (change_length_spec h id o length n F E Ek (array_length_value_bound _ _ En)) as (h' & r & Er & F' & Ho1).
  exists h', r. split_and!; [done|done|..].
  - intros o' m' n' [= <-] Ek' [= <-]. rewrite Ek in Ek'. by injection Ek' as <-.
  - intros Hn. by destruct (Hn n).
  - intros Hn. by destruct (Hn o length).
Qed.
End storage_run.
