(* ===== verification/JsStorageWrite.v ===== *)
(** * Assignment and definition of properties

    The specifications of [set] and [define_own_property]: no panic, the invariant and the
    promises of [integrity] kept, the property written and every other one untouched, and on an
    error nothing written. *)

From S2P Require Import Prelude Sorting Float JsValue JsObject JsCollection JsHeap JsMark JsGc JsCore JsHeapInv JsHeapRun JsNumeric JsBinary JsStorage JsFrame JsStorageInv JsStorageRun.
From Stdlib Require Import Sorted.

Create HintDb frugal.

Section storage_write.
Context {H : JsHost}.
Variable shared_bytes : SharedBuffer → list N.

(** ** Rules *)
Lemma wp_check {B} r (k : hm B) Q h :
  ((∀ id, r = Some id → present h id) → wp k Q h) → (∀ e, Q h (HErr e)) → wp (check_ref r ;; k) Q h.
Proof.
  intros Hk He. apply wp_bind. destruct r as [id|]; cbn.
  - destruct (h_objects h !! id) as [o|] eqn:E.
    + exists h, (HOk ()). split; [unfold mbind, hm_bind, hread, object; by rewrite E|]. apply Hk.
      intros ? [= <-]. by exists o.
    + exists h, (HErr (InvalidObject id)). split; [unfold mbind, hm_bind, hread, object; by rewrite E|done].
  - exists h, (HOk ()). split; [done|]. by apply Hk.
Qed.

Lemma wp_checks {B} l (k : hm B) Q h :
  ((∀ id, id ∈ l → present h id) → wp k Q h) → (∀ e, Q h (HErr e)) → wp (check_refs l ;; k) Q h.
Proof.
  intros Hk He. apply wp_bind. cut (∀ P : hresult () → Prop,
    ((∀ id, id ∈ l → present h id) → P (HOk ())) → (∀ e, P (HErr e)) → wp (check_refs l) (λ h' r, h' = h ∧ P r) h).
  { intros Hc. eapply wp_mono; [apply (Hc (λ r, match r with HOk _ => wp k Q h | HErr e => Q h (HErr e) end)); [done|]|].
    - intros e. apply He.
    - by intros h' r [-> ?]. }
  clear k Q Hk He. intros P. induction l as [|id l IH]; intros Hk He.
  { apply wp_ret. split; [done|]. apply Hk. by intros ? ?%elem_of_nil. }
  apply wp_check; [|auto]. intros Hid. apply IH; [|done]. intros Hl. apply Hk.
  intros a [->|?]%elem_of_cons; auto.
Qed.

(** One object is rewritten by [f]; the others that survive are untouched. *)
Definition wrote (id : ObjectId) (f : Object → Object) (h h' : Heap) : Prop :=
  present h' id ∧ each (λ a o o', same_storage (if decide (a = id) then f o else o) o') h h'.

Definition respects (f : Object → Object) : Prop := ∀ a b, same_storage a b → same_storage (f a) (f b).

Lemma wrote_object id f h h' o :
  wrote id f h h' → h_objects h !! id = Some o → ∃ o', h_objects h' !! id = Some o' ∧ same_storage (f o) o'.
Proof.
  intros [[o' E'] [_ Hw]] E. exists o'. split; [done|]. destruct (Hw id o' E') as (o0 & E0 & S).
  rewrite decide_True in S by done. by simplify_eq.
Qed.

Lemma wrote_guards id f h h' o :
  wrote id f h h' → h_objects h !! id = Some o → integrity o (f o) → guards h h'.
Proof.
  intros [_ Hw] E Hi. revert Hw. apply each_mono. intros a x x' Ex S. etrans; [|by apply same_storage_integrity].
  destruct (decide (a = id)) as [->|]; [|reflexivity]. by simplify_eq.
Qed.

Lemma wrote_full id f h h' o :
  full h → heap_ok h' → wrote id f h h' → h_objects h !! id = Some o → table_step o (f o) → full h'.
Proof.
  intros [_ S] K [_ Hw] E T. split; [done|]. eapply storage_step; [done|done|]. revert Hw. apply each_mono.
  intros a x x' Ex S'. etrans; [|by apply same_table_step].
  destruct (decide (a = id)) as [->|]; [|reflexivity]. by simplify_eq.
Qed.

(** A collection before the write and a change of the epoch after it do not show. *)
Lemma wrote_after id f h h1 h2 o1 o2 :
  respects f → keeps_heap h h1 → h_objects h1 !! id = Some o1 → same_ids h1 h2 →
  h_objects h2 = <[id := o2]> (h_objects h1) → same_storage (f o1) o2 → wrote id f h h2.
Proof.
  intros Hf [I Hk] E1 I2 E2 S. split; [exists o2; rewrite E2; apply lookup_insert_eq|].
  split; [split; etrans; [apply I2|apply I|apply I2|apply I]|]. intros a oa. rewrite E2.
  intros [[<- <-]|[Hne Ea]]%lookup_insert_Some.
  - destruct (Hk id o1 E1) as (o & E & So). exists o. split; [done|]. rewrite decide_True by done.
    etrans; [by apply Hf|done].
  - destruct (Hk a oa Ea) as (o & E & So). exists o. split; [done|]. by rewrite decide_False.
Qed.

Lemma same_present_property o o' key : same_storage o o' → present_property o' key = present_property o key.
Proof. intros S. unfold present_property. by rewrite (ss_properties _ _ S). Qed.
Lemma same_stored_bytes o o' key : same_storage o o' → stored_bytes o' key = stored_bytes o key.
Proof. intros S. unfold stored_bytes. by rewrite (ss_properties _ _ S). Qed.
Lemma same_attribute_charge o o' key : same_storage o o' → stored_attribute_charge o' key = stored_attribute_charge o key.
Proof. intros S. unfold stored_attribute_charge. by rewrite (ss_attributes _ _ S). Qed.

Lemma insert_respects key v : respects (insert_property key v).
Proof.
  intros a b S. pose proof (insert_rest key v a) as (Ea & Ee & _). pose proof (insert_rest key v b) as (Eb & Ee' & _).
  cbv zeta in *. pose proof S as [Sk Sp So Sa Se]. split.
  - rewrite !insert_kind. unfold grown_kind.
    destruct (o_kind a) eqn:E1, (o_kind b) eqn:E2; cbn in Sk; try done; simplify_eq; by destruct (array_index key).
  - by rewrite !insert_properties, Sp.
  - by rewrite !insert_order, So, (same_present_property a b).
  - by rewrite Ea, Eb, Sa.
  - by rewrite Ee, Ee'.
Qed.

Lemma set_attributes_respects k d : respects (λ o, o_set_attributes (<[k := d]> (o_attributes o)) o).
Proof. intros a b [Sk Sp So Sa Se]. split; cbn; try done. by rewrite Sa. Qed.

Lemma define_respects key v d virtual_length : respects (define_property key v d virtual_length).
Proof.
  intros a b S. unfold define_property. destruct virtual_length; [by apply (set_attributes_respects (pkey key) d)|].
  apply (set_attributes_respects (pkey key) d). by apply insert_respects.
Qed.
#[local] Hint Resolve insert_respects define_respects : core.

(** The steps around a write: a read of the object and the bump of the epoch. *)
Definition reads_object (id : ObjectId) (rd : hm Object) : Prop :=
  ∀ h o, h_objects h !! id = Some o → rd h = Ok (h, HOk o).
Definition bumps (ep : hm unit) : Prop :=
  ∀ h, ∃ n, ep h = Ok (h_set_structure_epoch n h, HOk ()).

Lemma bumps_epoch o key : bumps (bump_epoch o key).
Proof.
  intros h. unfold bump_epoch. destruct (present_property o key); [|by eexists].
  exists (h_structure_epoch h). by destruct h.
Qed.
Lemma bumps_none : bumps (mret ()).
Proof. intros h. exists (h_structure_epoch h). by destruct h. Qed.

(** What a rewriting with its charge must satisfy. *)
Record writable (h : Heap) (refs : list ObjectId) (old new : N) (o o1 : Object) : Prop := {
  wr_bytes : o_bytes o1 = o_bytes o;
  wr_young : o_young o1 = o_young o;
  wr_prototype : o_prototype o1 = o_prototype o;
  wr_old : (old <= o_bytes o)%N;
  wr_room : (h_managed_bytes h + new <= max_heap_bytes (h_config h) + old)%N;
  wr_references b : b ∈ references o1 → b ∈ references o ∨ b ∈ refs;
  wr_kind : kind_ok h (o_kind o1);
  wr_owned : (owned_bytes o1 + old <= o_bytes o + new)%N;
}.

Lemma wp_rewrite {A B} (bar : hm A) refs id rd ep f F old new (k : hm B) Q h h1 o1 :
  heap_ok h1 → keeps_heap h h1 → h_objects h1 !! id = Some o1 → (∀ b, b ∈ refs → present h1 b) →
  is_barrier bar id refs → reads_object id rd → (∀ o, bumps (ep o)) → respects F →
  f o1 = recharge_object old new (F o1) → writable h1 refs old new o1 (F o1) →
  (∀ h', heap_ok h' → wrote id F h h' → wp k Q h') →
  wp (bar ;; o ← rd; ep o ;; update_object id f ;; recharge old new ;; k) Q h1.
Proof.
  intros K1 Hk E1 Hrefs Hbar Hrd Hep HF Hf [Wb Wy Wp Wold Wroom Wref Wk Wown] HQ.
  apply (wp_barrier bar id refs); [done|done|by eexists|done|]. intros R _ KR HR.
  eapply wp_step; [by apply (Hrd _ o1)|]. cbv beta. destruct (Hep o1 (h_set_remembered R h1)) as [n En].
  eapply wp_step; [exact En|].
  apply (wp_write (h_set_structure_epoch n (h_set_remembered R h1)) id o1 (F o1) f old new refs); try done.
  { by apply heap_ok_epoch. }
  intros h' o' K' I Eh S. apply HQ; [done|].
  apply (wrote_after id F h h1 h' o1 o'); try done.
Qed.

Lemma keeps_present h h1 id o1 : keeps_heap h h1 → h_objects h1 !! id = Some o1 →
  ∃ o, h_objects h !! id = Some o ∧ same_storage o o1.
Proof. intros [_ Hk] E. apply (Hk id o1 E). Qed.

Lemma kind_grown h key k : kind_ok h k → kind_ok h (grown_kind key k).
Proof. unfold grown_kind. by destruct k, (array_index key). Qed.

Lemma insert_writable h id o key v :
  heap_ok h → wf_name key → h_objects h !! id = Some o →
  (h_managed_bytes h + saturating_sub (property_bytes key v) (stored_bytes o key) <= max_heap_bytes (h_config h))%N →
  writable h (option_list (object_id v)) (stored_bytes o key) (property_bytes key v) o (insert_property key v o).
Proof.
  intros K W E Hroom. pose proof (insert_rest key v o) as (_ & _ & Eb & Ey & Epr & _). cbv zeta in *.
  pose proof (insert_owned key v o W). pose proof (stored_owned key o W). pose proof (ok_owned _ K id o E).
  unfold saturating_sub in Hroom. split; try done; try lia.
  - apply insert_references.
  - rewrite insert_kind. apply kind_grown, (ok_kinds _ K id o E).
Qed.

(** ** Assignment *)

(** The write of an assignment to a property that is neither virtual nor an array's length. *)
Definition store_value (id : ObjectId) (key : PropertyName) (value : Value) (old : N) (k : hm unit) : hm unit :=
  let new := property_bytes key value in
  ensure_room (saturating_sub new old) (id :: option_list (object_id value));;
  barrier id (object_id value);;
  o ← hexpect (hread (λ h, object h id));
  bump_epoch o key;;
  update_object id (λ o, recharge_object old new (insert_property key value o));;
  recharge old new;;
  k.

Lemma read_object id : reads_object id (hexpect (hread (λ h, object h id))).
Proof. intros h o E. unfold hexpect, hread, object. by rewrite E. Qed.

Lemma wp_store_value h id o key value (k : hm unit) Q :
  full h → wf_name key → h_objects h !! id = Some o → read_only o key = false → is_array_length o key = false →
  (∀ b, object_id value = Some b → present h b) →
  (∀ h', full h' → wrote id (insert_property key value) h h' → wp k Q h') →
  (∀ h' e, full h' → keeps_heap h h' → Q h' (HErr e)) →
  wp (store_value id key value (stored_bytes o key) k) Q h.
Proof.
  intros F W E Hro Hl Hb HQ He. pose proof F as [K S]. unfold store_value. cbv zeta. apply wp_room; [done|..].
  - intros a [->|Ha%option_list_elem]%elem_of_cons; [by eexists|auto].
  - intros h1 K1 Hk Hp Hroom. destruct (Hp id) as [o1 E1]; [constructor|].
    destruct (keeps_present h h1 id o1 Hk E1) as (o0 & E0 & S0). assert (o0 = o) as -> by congruence. clear E0.
    rewrite <-(same_stored_bytes o o1) in Hroom |- * by done.
    apply (wp_rewrite (barrier id (object_id value)) (option_list (object_id value)) id
      (hexpect (hread (λ h, object h id))) (λ o, bump_epoch o key) _ (insert_property key value) _ _ k Q h h1 o1); try done.
    + intros b Hb1. apply (Hp b). by apply list_elem_of_further.
    + apply is_barrier_one.
    + apply read_object.
    + intros. apply bumps_epoch.
    + by apply (insert_writable h1 id).
    + intros h' K' Hw. apply HQ; [|done].
      apply (wrote_full id (insert_property key value) h h' o F K' Hw E).
      apply insert_step; [done|]. unfold read_only in Hro. by apply orb_false_iff in Hro as [_ ?].
  - intros h1 e K1 Hk. apply He; [|done]. by eapply keeps_full.
Qed.

(** Assignment to a property of the object itself: written, or refused with nothing written. *)
Definition assigned (id : ObjectId) (o : Object) (key : PropertyName) (value : Value) (h h' : Heap) (r : hresult unit) : Prop :=
  (read_only o key = false ∧ r = HOk () ∧ wrote id (insert_property key value) h h')
  ∨ (∃ e, r = HErr e ∧ keeps_heap h h' ∧ (read_only o key = true → e = ReadOnlyProperty ∧ h' = h)).

Lemma set_plain fuel h id o key value :
  full h → wf_name key → h_objects h !! id = Some o → heap_numeric_key id key h = Ok (h, HOk None) →
  export_cell o key = None → parameter_cell o key = None → is_array_length o key = false →
  wp (set_fuel shared_bytes (S fuel) id key value) (λ h' r, full h' ∧ assigned id o key value h h' r) h.
Proof.
  intros F W E En Hc Hm Hl. cbn [set_fuel]. eapply wp_step; [exact En|].
  eapply wp_expect; [by apply export_cell_present|]. rewrite Hc.
  eapply wp_expect; [by apply parameter_cell_present|]. rewrite Hm.
  eapply wp_step; [by apply indexed_present|]. cbv beta zeta. destruct (read_only o key) eqn:Hro.
  { apply wp_fail. split; [done|]. right. eexists. split_and!; done. }
  apply wp_check.
  - intros Hb. rewrite Hl. apply (wp_store_value h id o key value (mret ())); try done.
    + intros h' F' Hw. apply wp_ret. split; [done|]. left. by split_and!.
    + intros h' e F' Hk. split; [done|]. right. exists e. split_and!; [done..|congruence].
  - intros e. split; [done|]. right. exists e. split_and!; [done..|congruence].
Qed.

Lemma assigned_guards id o key value h h' r :
  h_objects h !! id = Some o → is_array_length o key = false → assigned id o key value h h' r → guards h h'.
Proof.
  intros E Hl [(Hr & -> & Hw)|(e & -> & Hk & _)]; [|by apply keeps_guards].
  apply (wrote_guards id _ h h' o Hw E). by apply insert_integrity.
Qed.

(** The cell of a mapped parameter takes the value too. *)
Lemma set_cell fuel h c oc value :
  full h → h_objects h !! c = Some oc → o_kind oc = Ordinary →
  wp (set_fuel shared_bytes (S fuel) c value_name value) (λ h' r, full h' ∧ assigned c oc value_name value h h' r) h.
Proof.
  intros F E Ek. destruct (ordinary_reads oc Ek) as [Ht Hr]. destruct (Hr value_name) as (Hc & Hm & _ & Hl & _).
  destruct (numeric_key_run h c oc value_name E) as (r & En & Hn). rewrite (Hn Ht) in En.
  by apply set_plain.
Qed.

Lemma array_length_full h id value :
  full h → (∀ o, h_objects h !! id = Some o → (∃ n, o_kind o = KArray n) →
              ∀ d, o_attributes o !! pkey length_name = Some d → pd_writable d ≠ Some false) →
  wp (set_array_length shared_bytes id value) (λ h' r, full h' ∧ guards h h') h.
Proof.
  intros F Hw. destruct (set_array_length_spec shared_bytes h id value F) as (h' & r & E & F' & H1 & H2 & H3).
  exists h', r. split_and!; [done..|]. destruct (array_length_value value) as [n|]; [|by destruct H2 as [-> _]].
  destruct (h_objects h !! id) as [o|] eqn:Eo; [|destruct H3 as [-> _]; done].
  destruct (o_kind o) as [] eqn:Ek; try (destruct H3 as [-> _]; [intros; congruence|done]).
  destruct (H1 o length n eq_refl Ek eq_refl) as (o1 & R & _ & Hi). eapply replaced_guards; [done| |exact R].
  apply Hi. intros d Ed Ewd. destruct (Hw o eq_refl (ex_intro _ length Ek) d Ed Ewd).
Qed.

Lemma name_length o key : is_array_length o key = true → pkey key = pkey length_name.
Proof. by intros [_ ?]%is_array_length_spec. Qed.

Lemma set_fuel_full fuel h id key value :
  full h → wf_name key → wp (set_fuel shared_bytes (S (S fuel)) id key value) (λ h' r, full h' ∧ guards h h') h.
Proof.
  intros F W. pose proof F as [K S]. destruct (h_objects h !! id) as [o|] eqn:E.
  2: { exists h, (HErr (InvalidObject id)). split; [|by split].
       cbn [set_fuel]. by rewrite (hbind_err _ _ _ _ _ (numeric_key_absent h id key E)). }
  destruct (numeric_key_run h id o key E) as ([n|] & En & _).
  { cbn [set_fuel]. eapply wp_step; [exact En|]. by apply wp_fail. }
  destruct (export_cell o key) as [c|] eqn:Hc.
  { cbn [set_fuel]. eapply wp_step; [exact En|]. eapply wp_expect; [by apply export_cell_present|].
    rewrite Hc. by apply wp_fail. }
  destruct (decide (is_array_length o key = true)) as [Hl|Hl%not_true_iff_false].
  - cbn [set_fuel]. eapply wp_step; [exact En|].
    eapply wp_expect; [by apply export_cell_present|]. rewrite Hc.
    eapply wp_expect; [by apply parameter_cell_present|].
    eapply wp_step; [by apply indexed_present|]. cbv beta zeta. destruct (read_only o key) eqn:Hro; [by apply wp_fail|].
    apply wp_check; [|done]. intros _. rewrite Hl. apply array_length_full; [done|].
    intros o' E' _ d Ed. assert (o' = o) as -> by congruence. rewrite <-(name_length o key Hl) in Ed.
    unfold read_only in Hro. rewrite Ed in Hro. intros Hw. by rewrite (bool_decide_eq_true_2 _ Hw), orb_true_r in Hro.
  - destruct (parameter_cell o key) as [c|] eqn:Hm.
    2: { eapply wp_mono; [by apply (set_plain _ h id o)|]. intros h' r [F' Ha]. split; [done|].
         by eapply assigned_guards. }
    cbn [set_fuel]. eapply wp_step; [exact En|]. eapply wp_expect; [by apply export_cell_present|]. rewrite Hc.
    eapply wp_expect; [by apply parameter_cell_present|]. rewrite Hm.
    eapply wp_step; [by apply indexed_present|]. cbv beta zeta. destruct (read_only o key) eqn:Hro; [by apply wp_fail|].
    apply wp_check; [|done]. intros Hb. rewrite Hl.
    apply (wp_store_value h id o key value (set_fuel shared_bytes (Datatypes.S fuel) c value_name value)); try done.
    + intros h1 F1 Hw.
      assert (guards h h1) as G1 by (apply (wrote_guards id _ h h1 o Hw E); by apply insert_integrity).
      destruct (wrote_object _ _ _ _ _ Hw E) as (o1 & E1 & S1).
      assert (c ∈ cells (o_kind o1)) as Hcell.
      { rewrite (same_cells _ _ S1), insert_kind, grown_other; [by apply (parameter_cell_cells o key)|].
        intros n Ek. unfold parameter_cell in Hm. by rewrite Ek in Hm. }
      destruct F1 as [K1 S1']. destruct (st_cells _ S1' id o1 c E1 Hcell) as (oc & Ec & Eoc).
      eapply wp_mono; [apply (set_cell fuel h1 c oc value); [by split|done|done]|].
      intros h2 r [F2 Ha]. split; [done|]. etrans; [exact G1|]. eapply assigned_guards; [exact Ec| |exact Ha].
      unfold is_array_length. by rewrite Eoc.
    + intros h1 e F1 Hk. split; [done|]. by apply keeps_guards.
Qed.

Lemma set_full h id key value :
  full h → wf_name key → wp (set shared_bytes id key value) (λ h' r, full h' ∧ guards h h') h.
Proof.
  intros F W. unfold wp, set. destruct (size (h_objects h)) as [|n] eqn:En; [|by apply set_fuel_full].
  apply map_size_empty_inv in En. exists h, (HErr (InvalidObject id)). split; [|by split].
  assert (h_objects h !! id = None) as E by (by rewrite En).
  cbn [set_fuel]. by rewrite (hbind_err _ _ _ _ _ (numeric_key_absent h id key E)).
Qed.

(** ** Operations that charge nothing *)
Definition frugal {A} (m : hm A) : Prop :=
  ∀ h h' r, m h = Ok (h', r) → (h_managed_bytes h' <= h_managed_bytes h)%N ∧ h_config h' = h_config h.

Lemma frugal_still {A} (m : hm A) :
  (∀ h h' r, m h = Ok (h', r) → h_managed_bytes h' = h_managed_bytes h ∧ h_config h' = h_config h) → frugal m.
Proof. intros Hm h h' r E. destruct (Hm h h' r E) as [-> ->]. done. Qed.
Lemma frugal_ret {A} (a : A) : frugal (mret a).
Proof. apply frugal_still. by intros h h' r [= <- _]. Qed.
Lemma frugal_fail {A} e : frugal (@hfail H A e).
Proof. apply frugal_still. by intros h h' r [= <- _]. Qed.
Lemma frugal_read {A} (f : Heap → hresult A) : frugal (hread f).
Proof. apply frugal_still. by intros h h' r [= <- _]. Qed.
Lemma frugal_get {A} (f : Heap → A) : frugal (hget f).
Proof. apply frugal_still. by intros h h' r [= <- _]. Qed.
Lemma frugal_res {A} (m : res A) : frugal (hres m).
Proof. apply frugal_still. intros h h' r E. unfold hres in E. destruct m; [|done..]. by injection E as <- _. Qed.
Lemma frugal_bind {A B} (m : hm A) (f : A → hm B) : frugal m → (∀ a, frugal (f a)) → frugal (m ≫= f).
Proof.
  intros Km Kf h h' r. unfold mbind, hm_bind. destruct (m h) as [[h1 [a|e]]| |] eqn:E; try done.
  - intros E'. destruct (Km _ _ _ E) as [? Ec], (Kf _ _ _ _ E') as [? Ec']. split; [lia|congruence].
  - intros [= <- <-]. by eapply Km.
Qed.
Lemma frugal_expect {A} (m : hm A) : frugal m → frugal (hexpect m).
Proof.
  intros Km h h' r E. unfold hexpect in E. destruct (m h) as [[h1 [a|e]]| |] eqn:Em; try done.
  injection E as <- <-. by eapply Km.
Qed.
Lemma frugal_update id f : frugal (update_object id f).
Proof.
  apply frugal_still. intros h h' r E. unfold update_object, hupd in E. destruct (h_objects h !! id) as [o|]; [|done].
  cbn in E. destruct (f o); cbn in E; try done. by injection E as <- _.
Qed.
Lemma frugal_release n : frugal (recharge n 0).
Proof.
  intros h h' r E. unfold recharge, hupd in E. unfold checked_sub_N in E. destruct (N.leb_spec n (h_managed_bytes h)); [|done].
  cbn in E. unfold checked_add_N in E. destruct (_ <=? _)%N; [|done]. cbn in E. injection E as <- _. cbn. split; [lia|done].
Qed.
Lemma frugal_epoch : frugal (hmod (λ h, h_set_structure_epoch (h_structure_epoch h + 1)%N h)).
Proof. apply frugal_still. by intros h h' r [= <- _]. Qed.
Lemma frugal_indexed id : frugal (indexed id).
Proof. apply frugal_still. intros h h' r E. unfold indexed in E. destruct (_ !! _); [|done]. by injection E as <- _. Qed.
#[local] Hint Resolve frugal_ret frugal_fail frugal_read frugal_get frugal_res frugal_update frugal_release frugal_epoch
  frugal_indexed : frugal.

Ltac frugal_tac :=
  repeat first
    [ solve [eauto 2 with frugal] | progress cbv beta zeta | apply frugal_bind; [|intros] | apply frugal_expect | case_match ].

Lemma frugal_delete id key : frugal (delete_key shared_bytes id key).
Proof. unfold delete_key, heap_numeric_key, typed_array_info, unmap_arguments_property. frugal_tac. Qed.
Lemma frugal_set_array_length id value : frugal (set_array_length shared_bytes id value).
Proof.
  assert (∀ l, frugal (truncate_elements shared_bytes id l)) as Ht.
  { induction l as [|[i key] l IH]; cbn [truncate_elements]; pose proof (frugal_delete id); unfold set_length; frugal_tac; auto. }
  unfold set_array_length, set_length. frugal_tac; auto.
Qed.

(** ** The descriptor of a stored property *)

(** What [get_own_property_descriptor] finds: [v] is the value, read through the cell of a mapped
    parameter. *)
Definition found_descriptor (o : Object) (key : PropertyName) (v : option Value) : option PropertyDescriptor :=
  match o_attributes o !! pkey key with
  | Some d => if accessor d then Some d else Some (set_pd_value v d)
  | None =>
      match own_property o key with
      | None => None
      | Some value =>
          let virtual := string_virtual o key in
          let length := match o_kind o with KArray _ | KString _ => is_name key (str "length") | _ => false end in
          Some (data_descriptor (default value v) (negb virtual) (negb length) (negb virtual && negb length))
      end
  end.

Lemma stored_descriptor_run h id o key :
  storage h → h_objects h !! id = Some o →
  ∃ v, stored_descriptor shared_bytes o key (parameter_cell o key) h = Ok (h, HOk (found_descriptor o key v))
    ∧ (parameter_cell o key = None → v = own_property o key).
Proof.
  intros S E. unfold stored_descriptor, found_descriptor. destruct (parameter_cell o key) as [c|] eqn:Ec.
  - destruct (st_cells _ S id o c E) as (oc & Eoc & Ek); [by apply (parameter_cell_cells o key)|].
    pose proof (get_own_ordinary shared_bytes h c oc value_name Eoc Ek) as Eg.
    exists (o_properties oc !! pkey value_name). split; [|done].
    destruct (o_attributes o !! pkey key) as [d|].
    + destruct (accessor d); [done|]. by rewrite (hbind_ok _ _ _ _ _ Eg).
    + destruct (own_property o key); [|done]. unfold mbind, hm_bind. by rewrite Eg.
  - exists (own_property o key). split; [|done]. destruct (o_attributes o !! pkey key) as [d|].
    + by destruct (accessor d).
    + by destruct (own_property o key).
Qed.

Lemma set_pd_accessor v d : accessor (set_pd_value v d) = accessor d.
Proof. done. Qed.

Lemma found_attributes o key v d :
  o_attributes o !! pkey key = Some d →
  ∃ old, found_descriptor o key v = Some old ∧ pd_configurable old = pd_configurable d ∧ pd_enumerable old = pd_enumerable d
    ∧ pd_writable old = pd_writable d ∧ pd_get old = pd_get d ∧ pd_set old = pd_set d
    ∧ pd_value old = if accessor d then pd_value d else v.
Proof.
  unfold found_descriptor. intros ->. destruct (accessor d); eexists; by split_and!.
Qed.

Lemma found_accessor o key v old :
  found_descriptor o key v = Some old → accessor old = true → o_attributes o !! pkey key = Some old.
Proof.
  unfold found_descriptor. destruct (o_attributes o !! pkey key) as [d|].
  - destruct (accessor d) eqn:Ea; intros [= <-]; [done|]. by rewrite set_pd_accessor, Ea.
  - destruct (own_property o key); [|done]. by intros [= <-].
Qed.

Lemma found_length o key v :
  is_array_length o key = true → storage_ok o → v = own_property o key →
  ∃ old n, found_descriptor o key v = Some old ∧ o_kind o = KArray n ∧ pd_configurable old = Some false ∧ accessor old = false
    ∧ pd_value old = Some (VNumber (f64_of_Z (Z.of_N n)))
    ∧ (∀ d, o_attributes o !! pkey key = Some d → pd_writable old = pd_writable d).
Proof.
  intros Hl K ->. pose proof (name_length o key Hl) as Ekey. pose proof Hl as [[n Ek] _]%is_array_length_spec.
  assert (is_name key (str "length") = true) as En by (by apply is_name_spec).
  assert (own_property o key = Some (VNumber (f64_of_Z (Z.of_N n)))) as Ev.
  { unfold own_property. by rewrite Ek, En. }
  unfold found_descriptor. rewrite Ev. destruct (o_attributes o !! pkey key) as [d|] eqn:Ed.
  - rewrite Ekey in Ed. destruct (so_length_fixed _ K n d Ek Ed) as [Hc Ha]. rewrite Ha.
    eexists _, n. split_and!; [done..|]. by intros ? [= <-].
  - eexists _, n. split_and!; try done. rewrite Ek, En. cbn. by rewrite andb_false_r.
Qed.

(** ** What a definition may write *)
Lemma merge_complete old d :
  accessor d && defines_data d = false → (∀ o, old = Some o → complete o) → complete (merge_descriptor old d).
Proof.
  intros Hd Ho. unfold merge_descriptor. cbv zeta. set (m := default _ old).
  assert (complete m) as Hm by (unfold m; destruct old as [o|]; cbn; [by apply Ho|done]).
  intros Ha. apply accessor_true in Ha. cbn [pd_get pd_set] in *. rewrite !some_or_is_Some in *.
  destruct (accessor d) eqn:Ead; cbn [andb] in *.
  - rewrite Hd, andb_false_r in *. destruct (accessor m) eqn:Em; cbn [negb] in *.
    + destruct (Hm Em). auto.
    + cbn. eauto.
  - apply accessor_false in Ead as [Eg Es]. rewrite Eg, Es in *.
    assert (∀ P, P ∨ False → P) as Hor by tauto.
    destruct (accessor m && defines_data d); cbn in Ha; [by destruct Ha as [[[]|[]]|[[]|[]]]|].
    assert (accessor m = true) as Em by (apply accessor_true; destruct Ha as [[[? [=]]|?]|[[? [=]]|?]]; auto).
    destruct (Hm Em). auto.
Qed.

(** What the write of a definition needs of the object. *)
Record definable (o : Object) (key : PropertyName) (value : Value) (merged : PropertyDescriptor) : Prop := {
  df_value : pd_value merged = None;
  df_complete : complete merged;
  df_virtual : string_virtual o key = false;
  df_grows : grows_fixed_array o key = false;
  df_extensible : o_extensible o = false → is_array_length o key = true ∨ is_Some (o_properties o !! pkey key);
  df_kept d : o_attributes o !! pkey key = Some d → pd_configurable d = Some false →
    descriptor_kept d merged
    ∧ (is_array_length o key = false → accessor d = false → pd_writable d = Some false →
       opt_same (o_properties o !! pkey key) (Some value));
  df_length : is_array_length o key = true → pd_configurable merged = Some false ∧ accessor merged = false;
}.

(** What decides the write of a length is kept by a truncation. *)
Lemma definable_length o o' key value merged :
  is_array_length o key = true → is_array_length o' key = true → o_attributes o' !! pkey key = o_attributes o !! pkey key →
  definable o key value merged → definable o' key value merged.
Proof.
  intros Hl Hl' Ea D. pose proof Hl' as [[n Ek] Ekey]%is_array_length_spec. split; try apply D.
  - unfold string_virtual. by rewrite Ek.
  - unfold grows_fixed_array. by rewrite Ek, (index_same_key key length_name).
  - by left.
  - intros d Ed Hc. rewrite Ea in Ed. split; [by apply (df_kept _ _ _ _ D)|congruence].
  - intros _. by apply D.
Qed.

Lemma found_extensible o key v :
  storage_ok o → string_virtual o key = false → is_Some (found_descriptor o key v) →
  is_array_length o key = true ∨ is_Some (o_properties o !! pkey key).
Proof.
  intros K Hs. unfold found_descriptor. destruct (o_attributes o !! pkey key) as [d|] eqn:Ed.
  - intros _. destruct (so_attributes _ K _ _ Ed) as (_ & _ & [?|[Ekey Ek]]); [by right|left]. by apply is_array_length_spec.
  - destruct (is_array_length o key) eqn:El; [by left|]. rewrite own_property_stored by done.
    destruct (o_properties o !! pkey key); [by right; eexists|by intros []].
Qed.

Lemma found_stored o key v d :
  storage_ok o → o_attributes o !! pkey key = Some d → pd_writable d = Some false → accessor d = false →
  string_virtual o key = false → is_array_length o key = false → (parameter_cell o key = None → v = own_property o key) →
  v = o_properties o !! pkey key ∧ is_Some (o_properties o !! pkey key).
Proof.
  intros K Ed Hw Ha Hs Hl Hv. assert (parameter_cell o key = None) as Hm.
  { unfold parameter_cell. destruct (o_kind o) eqn:Ek; try done. apply (so_mapped _ K _ _ d Ek Ed). by right. }
  rewrite (Hv Hm), own_property_stored by done. split; [done|].
  destruct (so_attributes _ K _ _ Ed) as (_ & _ & [?|[Ekey Ek]]); [done|].
  apply not_true_iff_false in Hl. destruct Hl. by apply is_array_length_spec.
Qed.

Lemma merge_definable o key v d (old := found_descriptor o key v) (m := merge_descriptor old d) :
  storage_ok o → accessor d && defines_data d = false → (parameter_cell o key = None → v = own_property o key) →
  string_virtual o key = false → grows_fixed_array o key = false → (old = None → o_extensible o = true) →
  (∀ old', old = Some old' → change_refused old' d = Ok false) →
  definable o key (default VUndefined (pd_value m)) (set_pd_value None m).
Proof.
  intros K Hd Hv Hs Hg Hx Hr.
  assert (∀ old', old = Some old' → pd_configurable old' = Some false → descriptor_kept old' m
    ∧ (accessor old' = false → pd_writable old' = Some false → opt_same (pd_value old') (pd_value m))) as Hkept.
  { intros old' Eo Hc. pose proof (change_refused_false _ _ (Hr _ Eo) Hc) as Hca.
    pose proof (merge_kept old' d Hd Hca Hc) as Hk. cbv zeta in Hk. unfold m. by rewrite Eo. }
  split; [done| |done|done|..].
  - apply (merge_complete old d Hd). intros o' Eo Ha. destruct (so_attributes _ K (pkey key) o') as (_ & Hcomp & _); [|auto].
    by apply (found_accessor o key v).
  - intros E. apply (found_extensible o key v K Hs). change (is_Some old). destruct old; [by eexists|].
    specialize (Hx eq_refl). congruence.
  - intros d0 Ed Hc. destruct (found_attributes o key v d0 Ed) as (old' & Eo & Ec & Ee & Ew & Eg & Es & Ev).
    destruct (Hkept old' Eo) as [[C E A F W] Hval]; [congruence|].
    assert (accessor old' = accessor d0) as Ea by (unfold accessor; by rewrite Eg, Es).
    rewrite Ea, Ew, Ev, Ee, Eg, Es in *. split; [by split|]. intros Hl Ha Hw.
    destruct (found_stored o key v d0 K Ed Hw Ha Hs Hl Hv) as [-> [w Ew']].
    specialize (Hval Ha Hw). rewrite Ha, Ew' in Hval. rewrite Ew'. destruct (pd_value m); done.
  - intros Hl. assert (parameter_cell o key = None) as Hm.
    { apply is_array_length_spec in Hl as [[n Ek] _]. unfold parameter_cell. by rewrite Ek. }
    destruct (found_length o key v Hl K (Hv Hm)) as (old' & n & Eo & _ & Hc & Ha & _).
    destruct (Hkept old' Eo Hc) as [[C _ A _ _] _]. split; [done|]. rewrite set_pd_accessor. congruence.
Qed.

(** The number of a length is read back exactly. *)
Lemma array_length_value_exact k n :
  (k <= U32_MAX)%N → array_length_value (VNumber (f64_of_Z (Z.of_N k))) = Some n → n = k.
Proof.
  intros Hk. unfold array_length_value. destruct (_ && _ && _); [|done]. intros [= <-].
  unfold f64_as_u32. change U32_MAX with 4294967295%N in *. rewrite f64_of_Z_exact; lia.
Qed.

(** A definition that is not refused asks of a read-only length the length that is there. *)
Lemma merge_fixed o key v d d0 n k (old := found_descriptor o key v) :
  storage_ok o → accessor d && defines_data d = false → v = own_property o key → is_array_length o key = true →
  (∀ old', old = Some old' → change_refused old' d = Ok false) →
  o_attributes o !! pkey key = Some d0 → pd_writable d0 = Some false →
  o_kind o = KArray k → array_length_value (default VUndefined (pd_value (merge_descriptor old d))) = Some n → n = k.
Proof.
  intros K Hd Hv Hl Hr Ed0 Hw Ek En.
  destruct (found_length o key v Hl K Hv) as (old' & k' & Eo & Ek' & Hc & Ha & Ev & Ewr). fold old in Eo.
  assert (k' = k) as -> by congruence.
  destruct (merge_kept old' d Hd (change_refused_false _ _ (Hr _ Eo) Hc) Hc) as [_ Hval].
  rewrite Eo in En. specialize (Hval Ha). rewrite (Ewr d0 Ed0) in Hval. specialize (Hval Hw).
  rewrite Ev in Hval. destruct (pd_value (merge_descriptor (Some old') d)) as [w|]; [|done].
  apply same_value_spec in Hval. cbn [same_value_key default from_option] in *. destruct w; try done. injection Hval as ->.
  apply (array_length_value_exact k); [by apply (so_width _ K)|done].
Qed.

(** ** The write of a definition *)
Lemma define_fields key v d virtual_length o (o' := define_property key v d virtual_length o) :
  o_bytes o' = o_bytes o ∧ o_young o' = o_young o ∧ o_prototype o' = o_prototype o
  ∧ o_kind o' = if virtual_length then o_kind o else grown_kind key (o_kind o).
Proof.
  unfold o', define_property. destruct virtual_length; [done|].
  pose proof (insert_rest key v o) as (_ & _ & Eb & Ey & Epr & _). cbv zeta in *. split_and!; [done..|apply (insert_kind key v o)].
Qed.

Lemma define_kind key v d o :
  o_kind (define_property key v d (is_array_length o key) o) = grown_kind key (o_kind o).
Proof.
  destruct (define_fields key v d (is_array_length o key) o) as (_ & _ & _ & ->).
  destruct (is_array_length o key) eqn:El; [|done]. apply is_array_length_spec in El as [[n ->] E].
  unfold grown_kind. by rewrite (index_same_key key length_name).
Qed.

Lemma define_writable h id o key v d (virtual_length : bool)
  (old := (stored_bytes o key + stored_attribute_charge o key)%N)
  (new := ((if virtual_length then 0 else property_bytes key v) + attribute_bytes key d)%N) :
  heap_ok h → wf_name key → h_objects h !! id = Some o → (virtual_length = true → o_properties o !! pkey key = None) →
  (h_managed_bytes h + saturating_sub new old <= max_heap_bytes (h_config h))%N →
  writable h (option_list (object_id v) ++ descriptor_refs d) old new o (define_property key v d virtual_length o).
Proof.
  intros K W E Hv Hroom. destruct (define_fields key v d virtual_length o) as (Eb & Ey & Epr & Ek). cbv zeta in *.
  pose proof (define_owned key v d virtual_length o W Hv) as Ho. fold old new in Ho.
  pose proof (stored_owned key o W) as Hs. fold old in Hs. pose proof (ok_owned _ K id o E).
  unfold saturating_sub in Hroom. split; try done; try lia.
  - apply define_references.
  - rewrite Ek. destruct virtual_length; [apply (ok_kinds _ K id o E)|apply kind_grown, (ok_kinds _ K id o E)].
Qed.

Lemma define_step o key v d :
  definable o key v d → (∀ m, o_kind o = Arguments_ m → accessor d = true ∨ pd_writable d = Some false → m !! pkey key = None) →
  table_step o (define_property key v d (is_array_length o key) o).
Proof.
  intros D Hm. apply (grown_step key); [|apply define_kind]. intros K. apply define_ok; try done; apply D.
Qed.

Lemma definable_integrity o key v d :
  storage_ok o → definable o key v d → integrity o (define_property key v d (is_array_length o key) o).
Proof. intros K D. apply define_integrity; try done; apply D. Qed.

Lemma reads_indexed id : reads_object id (indexed id).
Proof. intros h o. apply indexed_present. Qed.

(** A property that is not an array's length: written, or an error with nothing written. *)
Lemma store_plain h id o key merged (value := default VUndefined (pd_value merged)) (m := set_pd_value None merged) :
  full h → wf_name key → h_objects h !! id = Some o → is_array_length o key = false →
  wp (store_definition shared_bytes id key merged) (λ h' r,
    (r = HOk false ∧ heap_ok h' ∧ wrote id (define_property key value m false) h h')
    ∨ (∃ e, r = HErr e ∧ heap_ok h' ∧ keeps_heap h h')) h.
Proof.
  intros F W E Hl. pose proof F as [K S]. unfold store_definition. eapply wp_step; [by apply indexed_present|].
  cbv beta zeta. fold value m. rewrite Hl. apply wp_checks; [|intros e; right; by exists e].
  intros Hp. apply wp_room; [done|done|..]; [|intros h1 e K1 Hk; right; by exists e].
  intros h1 K1 Hk Hp1 Hroom. destruct (Hp1 id) as [o1 E1]; [constructor|].
  destruct (keeps_present h h1 id o1 Hk E1) as (o0 & E0 & S0). assert (o0 = o) as -> by congruence. clear E0.
  rewrite <-(same_stored_bytes o o1), <-(same_attribute_charge o o1) in Hroom |- * by done.
  eapply wp_step; [reflexivity|].
  apply (wp_rewrite (barriers id (option_list (object_id value) ++ descriptor_refs m))
    (option_list (object_id value) ++ descriptor_refs m) id (indexed id) (λ o, bump_epoch o key) _
    (define_property key value m false) _ _ (mret false) _ h h1 o1); try done.
  - intros b Hb. apply (Hp1 b). by apply list_elem_of_further.
  - apply is_barrier_list.
  - apply reads_indexed.
  - intros. apply bumps_epoch.
  - by apply (define_writable h1 id o1 key value m false).
  - intros h' K' Hw. apply wp_ret. left. by split_and!.
Qed.

(** The length of an array: the elements go first, then the attributes are written. *)
Definition length_defined (id : ObjectId) (o : Object) (key : PropertyName) (m : PropertyDescriptor) (n : N) (h h' : Heap)
    (b : bool) : Prop :=
  ∃ o1 o', h_objects h' !! id = Some o'
    ∧ length_change n o o1 (if b then HErr ReadOnlyProperty else HOk ())
    ∧ same_storage (o_set_attributes (<[pkey key := m]> (o_attributes o1)) o1) o'.

Lemma length_change_key n o o1 r (key : PropertyName) :
  length_change n o o1 r → pkey key = pkey length_name →
  (∃ k, o_kind o1 = KArray k) ∧ o_attributes o1 !! pkey key = o_attributes o !! pkey key.
Proof.
  intros Hc Ek. assert (∀ i, index_below i key = true) as Hi.
  { intros i. unfold index_below. by rewrite (index_same_key key length_name). }
  destruct Hc as [[_ Ht]|(_ & k & i & d & _ & _ & _ & _ & _ & Ht)];
    (split; [eexists; apply Ht|]; rewrite (tr_attributes _ _ _ Ht), Hi; done).
Qed.

Lemma truncated_same n o o1 o2 : same_storage o o1 → truncated n o1 o2 → truncated n o o2.
Proof. intros [_ Sp So Sa _] [T1 T2 T3 T4]. rewrite So in T2. rewrite Sp in T3. rewrite Sa in T4. by split. Qed.
Lemma length_change_same n o o1 o2 r : same_storage o o1 → length_change n o1 o2 r → length_change n o o2 r.
Proof.
  intros S [[-> Ht]|(-> & k & i & d & Hk & Hi & Hn & Ed & Hc & Ht)].
  - left. split; [done|]. by eapply truncated_same.
  - right. split; [done|]. exists k, i, d. rewrite <-(ss_order _ _ S), <-(ss_attributes _ _ S).
    split_and!; try done. by eapply truncated_same.
Qed.

Lemma define_length_run h id o value k :
  full h → h_objects h !! id = Some o → o_kind o = KArray k →
  (∃ e, define_length shared_bytes id value h = Ok (h, HErr e))
  ∨ ∃ n h' b o1, array_length_value value = Some n ∧ define_length shared_bytes id value h = Ok (h', HOk b) ∧ full h'
      ∧ replaced h h' id o1 ∧ length_change n o o1 (if b then HErr ReadOnlyProperty else HOk ())
      ∧ ((∀ d, o_attributes o !! pkey length_name = Some d → pd_writable d = Some false → n = k) → integrity o o1)
      ∧ (h_managed_bytes h' <= h_managed_bytes h)%N ∧ h_config h' = h_config h.
Proof.
  intros F E Ek. destruct (set_array_length_spec shared_bytes h id value F) as (h' & r & Er & F' & H1 & H2 & _).
  destruct (frugal_set_array_length id value h h' r Er) as [Hm Hcfg]. unfold define_length. rewrite Er.
  destruct (array_length_value value) as [n|].
  - destruct (H1 o k n E Ek eq_refl) as (o1 & R & Hc & Hi). right. exists n, h'.
    destruct Hc as [[-> Ht]|[-> Ht]]; [exists false|exists true]; exists o1; split_and!; try done; [by left|by right].
  - destruct H2 as [-> ->]; [done|]. left. by eexists.
Qed.

Lemma numeric_no_object value n : array_length_value value = Some n → object_id value = None.
Proof. by destruct value. Qed.

Lemma store_length h id o key merged (value := default VUndefined (pd_value merged)) (m := set_pd_value None merged) :
  full h → wf_name key → h_objects h !! id = Some o → is_array_length o key = true → definable o key value m →
  (∀ d0 n k, o_attributes o !! pkey key = Some d0 → pd_writable d0 = Some false → o_kind o = KArray k →
     array_length_value value = Some n → n = k) →
  wp (store_definition shared_bytes id key merged) (λ h' r, full h' ∧ guards h h'
    ∧ ((∃ e, r = HErr e ∧ keeps_heap h h')
       ∨ ∃ n b, r = HOk b ∧ array_length_value value = Some n ∧ length_defined id o key m n h h' b)) h.
Proof.
  intros F W E Hl D Hfix. pose proof F as [K S]. unfold store_definition. eapply wp_step; [by apply indexed_present|].
  cbv beta zeta. fold value m. rewrite Hl. apply wp_checks; [|intros e; split_and!; [done..|left; by exists e]].
  intros Hp. apply wp_room; [done|done|..].
  2: { intros h1 e K1 Hk. split_and!; [by eapply keeps_full|by apply keeps_guards|left; by exists e]. }
  intros h1 K1 Hk Hp1 Hroom. destruct (Hp1 id) as [o1 E1]; [constructor|].
  destruct (keeps_present h h1 id o1 Hk E1) as (o0 & E0 & S0). assert (o0 = o) as -> by congruence. clear E0.
  pose proof (keeps_full h h1 F K1 Hk) as F1. pose proof (name_length o key Hl) as Ekey.
  pose proof Hl as [[k Ek] _]%is_array_length_spec.
  assert (o_kind o1 = KArray k) as Ek1 by (by apply (same_kind o o1)).
  destruct (define_length_run h1 id o1 value k F1 E1 Ek1) as [[e Er]|(n & h2 & b & o2 & En & Er & F2 & R & Hc & Hi & Hm & Hcfg)].
  { apply wp_bind. exists h1, (HErr e). split; [exact Er|]. split_and!; [done|by apply keeps_guards|left; by exists e]. }
  assert (option_list (object_id value) ++ descriptor_refs m = []) as Erefs.
  { unfold descriptor_refs. rewrite (numeric_no_object value n En).
    destruct (df_length _ _ _ _ D Hl) as [_ [-> ->]%accessor_false]. done. }
  eapply wp_step; [exact Er|]. unfold descriptor_refs in Erefs. rewrite Erefs. clear Er.
  pose proof R as [I2 (o2' & Eh2 & S2)].
  assert (h_objects h2 !! id = Some o2') as E2 by (rewrite Eh2; apply lookup_insert_eq).
  destruct (length_change_key n o1 o2 _ key Hc Ekey) as [[k2 Ek2] Ea2].
  assert (is_array_length o2' key = true) as Hl2.
  { rewrite (same_is_array_length _ _ _ S2). apply is_array_length_spec. eauto. }
  assert (o_attributes o2' !! pkey key = o_attributes o !! pkey key) as Ea.
  { by rewrite (ss_attributes _ _ S2), Ea2, (ss_attributes _ _ S0). }
  pose proof (definable_length o o2' key value m Hl Hl2 Ea D) as D2.
  assert (guards h h2) as G2.
  { etrans; [by apply keeps_guards|]. apply (replaced_guards h1 h2 id o1 o2 E1); [|exact R]. apply Hi. intros d0 Ed0 Hw.
    rewrite <-Ekey, (ss_attributes _ _ S0) in Ed0. by apply (Hfix d0). }
  assert (∀ h, full h → ∀ o, h_objects h !! id = Some o → is_array_length o key = true →
    stored_bytes o key = 0%N ∧ o_properties o !! pkey key = None) as Hst.
  { intros h' [_ S'] o' E' [[k' Ek'] _]%is_array_length_spec. pose proof (so_length _ (st_objects _ S' id o' E') k' Ek') as Hn.
    unfold stored_bytes. by rewrite Ekey, Hn. }
  destruct F2 as [K2 S2']. destruct (Hst h F o E Hl) as [Eb0 _]. destruct (Hst h2 (conj K2 S2') o2' E2 Hl2) as [Eb2 Ep2].
  assert (stored_attribute_charge o key = stored_attribute_charge o2' key) as Ec.
  { unfold stored_attribute_charge. by rewrite Ea. }
  assert (stored_bytes o key = stored_bytes o2' key) as Eb by congruence. rewrite Eb, Ec in Hroom |- *.
  apply (wp_rewrite (barriers id []) [] id (indexed id) (λ _, mret ()) _ (define_property key value m true) _ _
    (mret b) _ h2 h2 o2'); try done.
  - by intros ? ?%elem_of_nil.
  - apply is_barrier_list.
  - apply reads_indexed.
  - intros. apply bumps_none.
  - rewrite <-Erefs. apply (define_writable h2 id o2' key value m true); try done. rewrite Hcfg. lia.
  - intros h3 K3 Hw. apply wp_ret.
    assert (table_step o2' (define_property key value m true o2')) as T.
    { rewrite <-Hl2. apply define_step; [done|]. intros a Eka. apply is_array_length_spec in Hl2 as [[? ?] _]. congruence. }
    split_and!.
    + by apply (wrote_full id _ h2 h3 o2' (conj K2 S2') K3 Hw E2).
    + etrans; [exact G2|]. apply (wrote_guards id _ h2 h3 o2' Hw E2). rewrite <-Hl2.
      apply definable_integrity; [by apply (st_objects _ S2' id)|done].
    + right. exists n, b. split_and!; [done|done|]. destruct (wrote_object _ _ _ _ _ Hw E2) as (o3 & E3 & S3).
      exists o2, o3. split_and!; [done|by eapply length_change_same|]. etrans; [|exact S3].
      by apply (define_respects key value m true).
Qed.

(** ** Definition *)

(** The check of a change never fails: what it compares with is there. *)
Lemma differs_total new old : is_Some old → ∃ b, differs_same_value new old = Ok b.
Proof. intros [w ->]. unfold differs_same_value. destruct new; cbn; eauto. Qed.

Lemma change_total old d :
  complete old → (accessor old = false → pd_writable old = Some false → is_Some (pd_value old)) →
  ∃ b, change_refused old d = Ok b.
Proof.
  intros Hc Hv. unfold change_refused. destruct (negb _); [eauto|]. destruct (_ || _); [eauto|].
  destruct (if accessor d then _ else _); [eauto|]. destruct (accessor old) eqn:Ea.
  - destruct (Hc Ea) as [Hg Hs]. destruct (differs_total (pd_get d) _ Hg) as [[] ->]; cbn; [eauto|].
    by apply differs_total.
  - destruct (opt_is (pd_writable old) false) eqn:Ew; [|eauto]. apply opt_is_spec in Ew.
    destruct (opt_is (pd_writable d) true); [eauto|]. by apply differs_total, Hv.
Qed.

Lemma found_total o key v old d :
  storage_ok o → (parameter_cell o key = None → v = own_property o key) → found_descriptor o key v = Some old →
  ∃ b, change_refused old d = Ok b.
Proof.
  intros K Hv Hf. apply change_total.
  - intros Ha. destruct (so_attributes _ K (pkey key) old) as (_ & Hc & _); [by apply (found_accessor o key v)|auto].
  - intros Ha Hw. destruct (o_attributes o !! pkey key) as [d0|] eqn:Ed.
    + destruct (found_attributes o key v d0 Ed) as (old' & Eo & _ & _ & Ew & Eg & Es & Ev).
      assert (old' = old) as -> by congruence.
      assert (accessor d0 = false) as Ha0 by (revert Ha; unfold accessor; by rewrite Eg, Es).
      rewrite Ha0 in Ev. rewrite Ev. rewrite Ew in Hw.
      assert (parameter_cell o key = None) as Hm.
      { unfold parameter_cell. destruct (o_kind o) eqn:Ek; try done. apply (so_mapped _ K _ _ d0 Ek Ed). by right. }
      rewrite (Hv Hm). destruct (so_attributes _ K _ _ Ed) as (_ & _ & [[w Ew']|[Ekey [n Ek]]]).
      * unfold own_property. destruct (match o_kind o with KString s => _ | _ => None end); [by eexists|].
        destruct (o_kind o); try (by eexists); by destruct (is_name key (str "length")); eexists.
      * unfold own_property. rewrite Ek. rewrite (proj2 (is_name_spec key _)) by done. by eexists.
    + unfold found_descriptor in Hf. rewrite Ed in Hf. destruct (own_property o key); [|done]. injection Hf as <-. by eexists.
Qed.

Lemma descriptor_run h id o key :
  storage h → h_objects h !! id = Some o → heap_numeric_key id key h = Ok (h, HOk None) → export_cell o key = None →
  ∃ v, get_own_property_descriptor shared_bytes id key h = Ok (h, HOk (found_descriptor o key v))
    ∧ (parameter_cell o key = None → v = own_property o key).
Proof.
  intros S E En Hc. destruct (stored_descriptor_run h id o key S E) as (v & Er & Hv). exists v. split; [|done].
  unfold get_own_property_descriptor. rewrite (hbind_ok _ _ _ _ _ En).
  erewrite hbind_ok; [|unfold hexpect, hread; by rewrite (export_cell_present _ _ _ _ E)]. rewrite Hc.
  erewrite hbind_ok; [|unfold hexpect, hread; by rewrite (parameter_cell_present _ _ _ _ E)].
  by rewrite (hbind_ok _ _ _ _ _ (indexed_present _ _ _ E)).
Qed.

(** A refused definition changes nothing. *)
Definition define_refused (o : Object) (key : PropertyName) (d : PropertyDescriptor) (old : option PropertyDescriptor) : bool :=
  (bool_decide (old = None) && negb (o_extensible o)) || grows_fixed_array o key
  || match old with Some old => bool_decide (change_refused old d = Ok true) | None => false end.

(** The steps of a definition on an object that is not a namespace. *)
Lemma wp_define h id o key d Q :
  full h → h_objects h !! id = Some o → heap_numeric_key id key h = Ok (h, HOk None) → export_cell o key = None →
  is_namespace o && is_string key = false → accessor d && defines_data d = false →
  (∀ v (old := found_descriptor o key v), (parameter_cell o key = None → v = own_property o key) →
     (define_refused o key d old = true → Q h (HOk false))
     ∧ (define_refused o key d old = false → string_virtual o key = true → Q h (HOk true))
     ∧ (definable o key (default VUndefined (pd_value (merge_descriptor old d))) (set_pd_value None (merge_descriptor old d)) →
        (∀ old', old = Some old' → change_refused old' d = Ok false) → define_refused o key d old = false →
        wp (length_failed ← store_definition shared_bytes id key (merge_descriptor old d);
            update_mapping shared_bytes id key (parameter_cell o key) d length_failed;; mret (negb length_failed)) Q h)) →
  wp (define_own_property shared_bytes id key d) Q h.
Proof.
  intros F E En Hc Hn Hd HQ. pose proof F as [K S]. pose proof (st_objects _ S id o E) as Ho. unfold define_own_property. rewrite Hd.
  apply wp_read. rewrite (export_cell_present _ _ _ _ E), Hc. apply wp_read. rewrite (is_namespace_present _ _ _ E).
  fold (is_string key). rewrite Hn. eapply wp_expect; [by apply parameter_cell_present|].
  destruct (descriptor_run h id o key S E En Hc) as (v & Er & Hv). eapply wp_step; [exact Er|].
  destruct (HQ v Hv) as (Q1 & Q2 & Q3). clear HQ. set (old := found_descriptor o key v) in *.
  eapply wp_step; [by apply indexed_present|]. unfold define_refused in *.
  destruct ((bool_decide (old = None) && negb (o_extensible o)) || grows_fixed_array o key) eqn:E1; [apply wp_ret; auto|].
  assert (∃ b, match old with Some old => change_refused old d | None => Ok false end = Ok b
    ∧ match old with Some old => bool_decide (change_refused old d = Ok true) | None => false end = b) as (b & Eb & Eb').
  { destruct old as [old'|] eqn:Eo; [|by exists false]. destruct (found_total o key v old' d Ho Hv Eo) as [b Eb].
    exists b. split; [done|]. rewrite Eb. destruct b; [by apply bool_decide_eq_true_2|by apply bool_decide_eq_false_2]. }
  eapply wp_res; [exact Eb|]. rewrite Eb' in *. cbn [orb] in *. destruct b; [apply wp_ret; auto|].
  destruct (string_virtual o key) eqn:Es; [apply wp_ret; auto|].
  assert (∀ old', old = Some old' → change_refused old' d = Ok false) as Hr by (intros old' Eo; by rewrite Eo in Eb).
  apply orb_false_iff in E1 as [Ex Eg]. apply Q3; [|done|done].
  apply (merge_definable o key v d Ho Hd Hv Es Eg); [|exact Hr].
  change (old = None → o_extensible o = true). intros Eo. rewrite (bool_decide_eq_true_2 _ Eo) in Ex.
  cbn in Ex. by apply negb_false_iff in Ex.
Qed.

(** What a successful definition writes. *)
Definition defined (key : PropertyName) (old : option PropertyDescriptor) (d : PropertyDescriptor) : Object → Object :=
  let m := merge_descriptor old d in define_property key (default VUndefined (pd_value m)) (set_pd_value None m) false.

Lemma unmapped_kind o key a : parameter_cell o key = None → o_kind o = Arguments_ a → a !! pkey key = None.
Proof. unfold parameter_cell. by intros E Ek; rewrite Ek in E. Qed.

(** A property that is neither mapped nor an array's length: defined, refused, or an error with
    nothing written. *)
Lemma define_plain h id o key d (old := found_descriptor o key (own_property o key)) :
  full h → wf_name key → h_objects h !! id = Some o → heap_numeric_key id key h = Ok (h, HOk None) → export_cell o key = None →
  is_namespace o && is_string key = false → accessor d && defines_data d = false →
  parameter_cell o key = None → is_array_length o key = false →
  wp (define_own_property shared_bytes id key d) (λ h' r, full h' ∧ guards h h' ∧
    if define_refused o key d old then r = HOk false ∧ h' = h
    else if string_virtual o key then r = HOk true ∧ h' = h
    else (r = HOk true ∧ wrote id (defined key old d) h h') ∨ ∃ e, r = HErr e ∧ keeps_heap h h') h.
Proof.
  intros F W E En Hc Hn Hd Hm Hl. pose proof F as [K S]. apply (wp_define h id o); try done.
  intros v old' Hv. specialize (Hv Hm) as ->. change old' with old. clear old'. split_and!.
  - intros ->. by split_and!.
  - intros -> ->. by split_and!.
  - intros D Hr ->. rewrite Hm, (df_virtual _ _ _ _ D). apply wp_bind.
    eapply wp_mono; [by apply (store_plain h id o)|]. intros h' r [(-> & K' & Hw)|(e & -> & K' & Hk)].
    + apply wp_ret. fold (defined key old d) in Hw.
      assert (defined key old d o = define_property key (default VUndefined (pd_value (merge_descriptor old d)))
        (set_pd_value None (merge_descriptor old d)) (is_array_length o key) o) as Edf by (by rewrite Hl).
      split_and!; [| |by left].
      * apply (wrote_full id _ h h' o F K' Hw E). rewrite Edf. apply define_step; [done|]. intros a Ek _.
        by apply (unmapped_kind o).
      * apply (wrote_guards id _ h h' o Hw E). rewrite Edf. apply definable_integrity; [by apply (st_objects _ S id)|done].
    + split_and!; [by eapply keeps_full|by apply keeps_guards|right; by exists e].
Qed.

(** The length of an array. *)
Lemma define_length_full h id o key d :
  full h → wf_name key → h_objects h !! id = Some o → is_array_length o key = true → accessor d && defines_data d = false →
  wp (define_own_property shared_bytes id key d) (λ h' r, full h' ∧ guards h h' ∧
    ((∃ e, r = HErr e ∧ keeps_heap h h') ∨ (r = HOk false ∧ h' = h)
     ∨ ∃ n b, r = HOk (negb b) ∧
         let m := merge_descriptor (found_descriptor o key (own_property o key)) d in
         array_length_value (default VUndefined (pd_value m)) = Some n ∧ length_defined id o key (set_pd_value None m) n h h' b)) h.
Proof.
  intros F W E Hl Hd. pose proof F as [K S]. pose proof Hl as [[k Ek] Ekey]%is_array_length_spec.
  destruct (plain_array o k Ek) as (Ht & Hn & Hr & _). destruct (Hr key) as (Hc & Hm & Hs).
  destruct (numeric_key_run h id o key E) as (nk & En & Hnk). rewrite Hnk in En by done.
  apply (wp_define h id o); try done; [by rewrite Hn|]. intros v old Hv. specialize (Hv Hm) as ->. unfold old. clear old. split_and!.
  - intros _. split_and!; [done..|]. right. by left.
  - congruence.
  - intros D Hcr _. rewrite Hm. apply wp_bind. eapply wp_mono; [apply (store_length h id o); try done|].
    + intros d0 n k' Ed0 Hw Ek' En'. eapply (merge_fixed o key (own_property o key)); try done.
      by apply (st_objects _ S id).
    + intros h' r (F' & G' & [(e & -> & Hk)|(n & b & -> & En' & Hld)]); [split_and!; try done; left; by exists e|].
      apply wp_ret. split_and!; [done|done|]. right. right. by exists n, b.
Qed.

(** A mapped parameter: what a definition of it must not combine. *)
Definition mapped_definable (o : Object) (key : PropertyName) (d : PropertyDescriptor) : Prop :=
  accessor d = true ∨ pd_writable d = Some true ∨ (pd_writable d = Some false ∧ pd_value d = None)
  ∨ (pd_writable d = None ∧ is_Some (own_property o key)).

Lemma merge_plain o key v d c :
  storage_ok o → parameter_cell o key = Some c → mapped_definable o key d → accessor d = false → pd_writable d ≠ Some false →
  let m := merge_descriptor (found_descriptor o key v) d in accessor m = false ∧ pd_writable m ≠ Some false.
Proof.
  intros K Hm Hd Ha Hw. assert (∀ d0, o_attributes o !! pkey key = Some d0 → accessor d0 = false ∧ pd_writable d0 ≠ Some false) as Hat.
  { intros d0 Ed. unfold parameter_cell in Hm. destruct (o_kind o) eqn:Ek; try done.
    pose proof (so_mapped _ K _ _ d0 Ek Ed) as Hn. split.
    - apply not_true_iff_false. intros E. rewrite Hn in Hm by auto. done.
    - intros E. rewrite Hn in Hm by auto. done. }
  assert (∀ old, found_descriptor o key v = Some old → accessor old = false ∧ pd_writable old ≠ Some false) as Hf.
  { intros old Ef. unfold found_descriptor in Ef. destruct (o_attributes o !! pkey key) as [d0|] eqn:Ed.
    - destruct (Hat d0 eq_refl) as [Ea0 ?]. rewrite Ea0 in Ef. by injection Ef as <-.
    - destruct (own_property o key); [|done]. injection Ef as <-. split; [done|]. cbn.
      unfold parameter_cell, string_virtual in *. by destruct (o_kind o). }
  assert (∀ m, accessor m = false → pd_writable m ≠ Some false ∨ pd_writable d = Some true →
    let m' := merge_descriptor (Some m) d in accessor m' = false ∧ pd_writable m' ≠ Some false) as Hmerge.
  { intros m Ea Hwm. unfold merge_descriptor. cbv zeta. change (default _ (Some m)) with m. rewrite Ha, Ea. cbn [andb].
    apply accessor_false in Ha as [Eg Es], Ea as [Eg' Es']. split.
    - apply accessor_false. cbn. by rewrite Eg, Es, Eg', Es'.
    - cbn. destruct (pd_writable d) as [[]|]; cbn; try done. by destruct Hwm. }
  destruct (found_descriptor o key v) as [old|] eqn:Ef.
  - destruct (Hf old eq_refl) as [Ea Ew]. apply Hmerge; auto.
  - apply (Hmerge (data_descriptor VUndefined false false false)); [done|]. right.
    destruct Hd as [?|[?|[[? _]|[_ [w Ew]]]]]; try congruence.
    exfalso. unfold found_descriptor in Ef. destruct (o_attributes o !! pkey key) as [d0|]; [by destruct (accessor d0)|].
    by rewrite Ew in Ef.
Qed.

Lemma unmap_define o key v d a :
  o_kind o = Arguments_ a →
  unmap_property key (define_property key v d false o) = define_property key v d false (unmap_property key o).
Proof.
  intros Ek. destruct o. cbn in Ek. subst.
  unfold unmap_property, define_property, insert_property, present_property. cbn.
  by destruct (o_properties !! pkey key).
Qed.

Lemma mapped_kind o key c : parameter_cell o key = Some c →
  ∃ a, o_kind o = Arguments_ a ∧ export_cell o key = None ∧ is_namespace o = false ∧ is_array_length o key = false.
Proof.
  unfold parameter_cell, export_cell, is_namespace, is_array_length. destruct (o_kind o) eqn:Ek; try done.
  intros _. eexists. split_and!; try done. by destruct key.
Qed.

Lemma unmap_define_step o key v d a :
  o_kind o = Arguments_ a → definable o key v d →
  table_step o (unmap_property key (define_property key v d false o)).
Proof.
  intros Ek D. assert (is_array_length o key = false) as Hl by (unfold is_array_length; by rewrite Ek).
  assert (is_array_length (unmap_property key o) key = false) as Hl2.
  { unfold is_array_length. by rewrite unmap_kind, Ek. }
  rewrite (unmap_define o key v d a Ek). etrans; [apply (unmap_step key)|].
  split; [intros K|..].
  - rewrite <-Hl2. apply define_ok; try done.
    + unfold string_virtual. by rewrite unmap_kind, Ek.
    + apply D.
    + apply D.
    + congruence.
    + intros m. rewrite unmap_kind, Ek. intros [= <-] _. apply lookup_delete_eq.
  - intros c. destruct (define_fields key v d false (unmap_property key o)) as (_ & _ & _ & ->).
    by rewrite unmap_kind, Ek.
  - by rewrite unmap_kind, Ek.
Qed.

(** After the write: the cell takes the value, or the parameter is unmapped. *)
Lemma update_mapping_full h h1 id o c key d v m Q :
  full h → h_objects h !! id = Some o → parameter_cell o key = Some c → definable o key v m →
  heap_ok h1 → wrote id (define_property key v m false) h h1 →
  (accessor d = true ∨ pd_writable d = Some false → pd_value d = None ∨ accessor d = true) →
  (accessor d = false → pd_writable d ≠ Some false → accessor m = false ∧ pd_writable m ≠ Some false) →
  (∀ h' r, full h' → guards h h' → Q h' r) →
  wp (update_mapping shared_bytes id key (Some c) d false ;; mret (negb false)) Q h1.
Proof.
  intros F E Hm D K1 Hw Hd Hp HQ. pose proof F as [K S]. destruct (mapped_kind o key c Hm) as (a & Ek & _ & _ & Hl).
  assert (guards h h1) as G1.
  { apply (wrote_guards id _ h h1 o Hw E). rewrite <-Hl. apply definable_integrity; [by apply (st_objects _ S id)|done]. }
  destruct (wrote_object _ _ _ _ _ Hw E) as (o1 & E1 & S1).
  apply wp_bind. cbn [update_mapping orb].
  destruct (accessor d || opt_is (pd_writable d) false) eqn:Eu.
  - assert (match (if accessor d then None else pd_value d) with Some value => set shared_bytes c value_name value
      | None => mret () end = mret ()) as ->.
    { destruct (accessor d) eqn:Ea; [done|]. apply opt_is_spec in Eu. by destruct Hd as [->|]; auto. }
    eapply wp_step; [reflexivity|]. cbn [negb andb].
    destruct (unmap_run h1 id o1 key K1 E1) as (h2 & E2 & K2 & I2 & Eh2). exists h2, (HOk ()). split; [exact E2|].
    apply wp_ret.
    assert (wrote id (λ o, unmap_property key (define_property key v m false o)) h h2) as Hw2.
    { destruct Hw as [_ [I Hk]]. split; [exists (unmap_property key o1); rewrite Eh2; apply lookup_insert_eq|].
      split; [split; etrans; [apply I2|apply I|apply I2|apply I]|]. intros b ob. rewrite Eh2.
      intros [[<- <-]|[Hne Eb]]%lookup_insert_Some.
      - exists o. split; [done|]. rewrite decide_True by done. by apply unmap_same.
      - destruct (Hk b ob Eb) as (x & Ex & Sx). exists x. split; [done|]. by rewrite decide_False in * by done. }
    apply HQ.
    + apply (wrote_full id _ h h2 o F K2 Hw2 E). by apply (unmap_define_step o key v m a).
    + apply (wrote_guards id _ h h2 o Hw2 E). etrans; [|apply unmap_integrity].
      rewrite <-Hl. apply definable_integrity; [by apply (st_objects _ S id)|done].
  - apply orb_false_iff in Eu as [Ea Ew]. apply opt_is_false in Ew. destruct (Hp Ea Ew) as [Ma Mw].
    assert (full h1) as F1.
    { apply (wrote_full id _ h h1 o F K1 Hw E). rewrite <-Hl. apply define_step; [done|]. intros ? _ [?|?]; congruence. }
    rewrite Ea. cbn [negb andb]. apply wp_bind. destruct (pd_value d) as [value|].
    + eapply wp_mono; [by apply (set_full h1 c value_name value F1)|]. intros h2 r [F2 G2].
      assert (guards h h2) by (by etrans). destruct r; [|by apply HQ]. apply wp_ret, wp_ret. by apply HQ.
    + apply wp_ret, wp_ret, wp_ret. by apply HQ.
Qed.

Lemma define_mapped h id o c key d :
  full h → wf_name key → h_objects h !! id = Some o → parameter_cell o key = Some c →
  accessor d && defines_data d = false → mapped_definable o key d →
  wp (define_own_property shared_bytes id key d) (λ h' r, full h' ∧ guards h h') h.
Proof.
  intros F W E Hm Hd Hdef. pose proof F as [K S]. destruct (mapped_kind o key c Hm) as (a & Ek & Hc & Hn & Hl).
  destruct (numeric_key_run h id o key E) as (nk & En & Hnk). rewrite Hnk in En by (unfold is_typed; by rewrite Ek).
  apply (wp_define h id o); try done; [by rewrite Hn|]. intros v old Hv. split_and!; [done..|].
  intros D Hcr _. rewrite Hm. apply wp_bind.
  eapply wp_mono; [by apply (store_plain h id o)|]. intros h1 r [(-> & K1 & Hw)|(e & -> & K1 & Hk)].
  - eapply (update_mapping_full h h1 id o c); try done.
    + intros Hx. destruct (accessor d) eqn:Ea; [by right|]. left. destruct Hx as [?|Hx]; [done|].
      destruct Hdef as [?|[?|[[_ ?]|[? _]]]]; congruence.
    + intros Ha Hw'. by apply (merge_plain o key v d c (st_objects _ S id o E)).
  - split; [by eapply keeps_full|by apply keeps_guards].
Qed.

(** What the caller of a definition provides: the key is not an element of a typed array, and
    the definition of a mapped parameter does not combine a value with a loss of writability. *)
Definition define_safe (h : Heap) (id : ObjectId) (key : PropertyName) (d : PropertyDescriptor) : Prop :=
  wf_name key ∧ ∀ o, h_objects h !! id = Some o →
    (is_typed o = true → typed_array_numeric_key key = Ok None)
    ∧ (is_Some (parameter_cell o key) → mapped_definable o key d).

Lemma define_full h id key d :
  full h → define_safe h id key d →
  wp (define_own_property shared_bytes id key d) (λ h' r, full h' ∧ guards h h') h.
Proof.
  intros F [W Hs]. pose proof F as [K S]. unfold define_own_property.
  destruct (accessor d && defines_data d) eqn:Hd; [by apply wp_ret|].
  destruct (h_objects h !! id) as [o|] eqn:E.
  2: { apply wp_read. unfold module_namespace_export_cell. rewrite (kind_of_absent _ _ E). destruct key; [done|].
       apply wp_read. unfold is_module_namespace. by rewrite (kind_of_absent _ _ E). }
  destruct (Hs o eq_refl) as [Hty Hmap].
  destruct (export_cell o key) as [c|] eqn:Hc.
  { apply wp_read. rewrite (export_cell_present _ _ _ _ E), Hc.
    destruct (st_cells _ S id o c E) as (oc & Ec & Eo); [by apply (export_cell_cells o key)|].
    eapply wp_step; [by apply get_own_ordinary|]. apply wp_read.
    destruct (o_properties oc !! pkey value_name); cbn; [by apply wp_ret|done]. }
  destruct (is_namespace o && is_string key) eqn:Hn.
  { apply wp_read. rewrite (export_cell_present _ _ _ _ E), Hc. apply wp_read. rewrite (is_namespace_present _ _ _ E).
    fold (is_string key). rewrite Hn. by apply wp_ret. }
  assert (wp (define_own_property shared_bytes id key d) (λ h' r, full h' ∧ guards h h') h) as Hwp;
    [|unfold define_own_property in Hwp; by rewrite Hd in Hwp].
  destruct (parameter_cell o key) as [c|] eqn:Hm; [by eapply define_mapped; eauto|].
  destruct (is_array_length o key) eqn:Hl.
  { eapply wp_mono; [by apply (define_length_full h id o)|]. by intros h' r (? & ? & _). }
  eapply wp_mono; [apply (define_plain h id o); try done|]; [|by intros h' r (? & ? & _)].
  destruct (numeric_key_run h id o key E) as (nk & En & Hnk). destruct (is_typed o) eqn:Et; [|by rewrite Hnk in En].
  unfold heap_numeric_key, mbind, hm_bind, hread, is_typed_array. rewrite (kind_of_present _ _ _ E). cbn.
  unfold is_typed in Et. destruct (o_kind o); try done. unfold hres. by rewrite Hty.
Qed.

(** ** Plain keys

    A key that is an ordinary own key of the object: not an element of a typed array, an export,
    a mapped parameter, an array's length, or a virtual property of a string. *)
Record plain (o : Object) (key : PropertyName) : Prop := {
  pl_typed : is_typed o = true → typed_array_numeric_key key = Ok None;
  pl_export : export_cell o key = None;
  pl_mapped : parameter_cell o key = None;
  pl_length : is_array_length o key = false;
  pl_virtual : string_virtual o key = false;
}.

Lemma plain_numeric h id o key : h_objects h !! id = Some o → plain o key → heap_numeric_key id key h = Ok (h, HOk None).
Proof.
  intros E P. destruct (is_typed o) eqn:Et.
  - unfold heap_numeric_key, mbind, hm_bind, hread, is_typed_array. rewrite (kind_of_present _ _ _ E).
    unfold is_typed in *. destruct (o_kind o) eqn:Ek; try done. cbn. unfold hres.
    rewrite (pl_typed _ _ P) by (unfold is_typed; by rewrite Ek). done.
  - destruct (numeric_key_run h id o key E) as (r & En & Hr). by rewrite Hr in En.
Qed.

(** The slots that decide are kept by every write of a property. *)
Lemma plain_kept o o' key : plain o key → storage_kind (o_kind o') = storage_kind (o_kind o) → plain o' key.
Proof.
  intros [P1 P2 P3 P4 P5]. unfold is_typed, export_cell, parameter_cell, is_array_length, string_virtual in *.
  destruct (o_kind o) eqn:E1; cbn; intros E; destruct (o_kind o') eqn:E2; cbn in E; try done;
    simplify_eq; split; unfold is_typed, export_cell, parameter_cell, is_array_length, string_virtual; rewrite E2; auto;
    by destruct key.
Qed.
Lemma plain_kind o o' key :
  plain o key → storage_kind (o_kind o') = storage_kind (grown_kind key (o_kind o)) → plain o' key.
Proof.
  intros P. apply (plain_kept (o_set_kind (grown_kind key (o_kind o)) o)). destruct P as [P1 P2 P3 P4 P5].
  unfold is_typed, export_cell, parameter_cell, is_array_length, string_virtual, grown_kind in *.
  split; unfold is_typed, export_cell, parameter_cell, is_array_length, string_virtual; cbn [o_set_kind o_kind];
    destruct (o_kind o); try done; by destruct (array_index key).
Qed.

Lemma plain_own o key : plain o key → own_property o key = o_properties o !! pkey key.
Proof. intros P. apply own_property_stored; apply P. Qed.

Lemma get_plain h id o key v :
  h_objects h !! id = Some o → plain o key → o_properties o !! pkey key = Some v →
  get shared_bytes id key h = Ok (h, HOk v).
Proof.
  intros E P Ev. unfold get. cbn [get_fuel]. rewrite (hbind_ok _ _ _ _ _ (plain_numeric h id o key E P)).
  erewrite hbind_ok; [|unfold hexpect, hread; by rewrite (export_cell_present _ _ _ _ E)]. rewrite (pl_export _ _ P).
  erewrite hbind_ok; [|unfold hexpect, hread; by rewrite (parameter_cell_present _ _ _ _ E)]. rewrite (pl_mapped _ _ P).
  rewrite (hbind_ok _ _ _ _ _ (indexed_present _ _ _ E)). by rewrite (plain_own o key P), Ev.
Qed.

Lemma describe_plain h id o key :
  storage h → h_objects h !! id = Some o → plain o key →
  get_own_property_descriptor shared_bytes id key h = Ok (h, HOk (found_descriptor o key (own_property o key))).
Proof.
  intros S E P. destruct (descriptor_run h id o key S E (plain_numeric h id o key E P) (pl_export _ _ P)) as (v & Er & Hv).
  by rewrite Er, Hv by apply P.
Qed.

(** What the other properties of a write look like. *)
Definition others_kept (id : ObjectId) (key : PropertyName) (h h' : Heap) : Prop :=
  ∀ a oa', h_objects h' !! a = Some oa' → ∃ oa, h_objects h !! a = Some oa
    ∧ ∀ k, a ≠ id ∨ k ≠ pkey key → o_properties oa' !! k = o_properties oa !! k ∧ o_attributes oa' !! k = o_attributes oa !! k.

Lemma wrote_others id key f h h' :
  (∀ o k, k ≠ pkey key → o_properties (f o) !! k = o_properties o !! k ∧ o_attributes (f o) !! k = o_attributes o !! k) →
  wrote id f h h' → others_kept id key h h'.
Proof.
  intros Hf [_ [_ Hw]] a oa' E'. destruct (Hw a oa' E') as (oa & E & S). exists oa. split; [done|].
  intros k Hk. rewrite (ss_properties _ _ S), (ss_attributes _ _ S). destruct (decide (a = id)) as [->|]; [|done].
  apply Hf. by destruct Hk.
Qed.

Lemma insert_others key v o k : k ≠ pkey key →
  o_properties (insert_property key v o) !! k = o_properties o !! k ∧ o_attributes (insert_property key v o) !! k = o_attributes o !! k.
Proof.
  intros Hk. pose proof (insert_rest key v o) as (Ea & _). cbv zeta in Ea. by rewrite insert_properties, Ea, lookup_insert_ne.
Qed.
Lemma define_others key v d o k : k ≠ pkey key →
  o_properties (define_property key v d false o) !! k = o_properties o !! k
  ∧ o_attributes (define_property key v d false o) !! k = o_attributes o !! k.
Proof.
  intros Hk. destruct (insert_others key v o k Hk) as [E1 E2]. unfold define_property. cbn [o_set_attributes o_properties o_attributes].
  by rewrite lookup_insert_ne.
Qed.

(** The descriptor that is read back is the merged one. *)
Lemma merge_values old d :
  accessor d && defines_data d = false →
  (∀ o, old = Some o → if accessor o then pd_value o = None else is_Some (pd_value o)) →
  let m := merge_descriptor old d in if accessor m then pd_value m = None else is_Some (pd_value m).
Proof.
  intros Hd Ho. unfold merge_descriptor. cbv zeta. set (b := default _ old).
  assert (if accessor b then pd_value b = None else is_Some (pd_value b)) as Hb.
  { unfold b. destruct old as [o|]; [by apply Ho|by eexists]. }
  revert Hd Hb. clear. destruct d as [v w g s e c], b as [v' w' g' s' e' c']. unfold accessor, defines_data.
  destruct v, w, g, s, v', g', s'; cbn; try done; intros; by eexists.
Qed.

Lemma found_values o key old :
  storage_ok o → plain o key → found_descriptor o key (own_property o key) = Some old →
  if accessor old then pd_value old = None else is_Some (pd_value old).
Proof.
  intros K P Hf. destruct (accessor old) eqn:Ea.
  - apply (so_attributes _ K (pkey key)). by apply (found_accessor o key (own_property o key)).
  - unfold found_descriptor in Hf. destruct (o_attributes o !! pkey key) as [d|] eqn:Ed.
    + destruct (so_attributes _ K _ _ Ed) as (_ & _ & [Hs|[Ekey Ek]]).
      * rewrite (plain_own o key P) in Hf. destruct (accessor d) eqn:Ad; injection Hf as <-; [congruence|done].
      * pose proof (pl_length _ _ P) as Hl. apply not_true_iff_false in Hl. destruct Hl. by apply is_array_length_spec.
    + destruct (own_property o key); [|done]. injection Hf as <-. by eexists.
Qed.

Lemma defined_fields key old d o (m := merge_descriptor old d) (o' := defined key old d o) :
  o_properties o' !! pkey key = Some (default VUndefined (pd_value m))
  ∧ o_attributes o' !! pkey key = Some (set_pd_value None m) ∧ o_kind o' = grown_kind key (o_kind o).
Proof.
  unfold o', defined, define_property. cbv zeta. fold m. cbn [o_set_attributes o_properties o_attributes o_kind].
  by rewrite insert_properties, insert_kind, !lookup_insert_eq.
Qed.

Lemma define_read_back h h' id o key d (old := found_descriptor o key (own_property o key)) :
  storage_ok o → storage h' → h_objects h !! id = Some o → plain o key → accessor d && defines_data d = false →
  wrote id (defined key old d) h h' →
  get_own_property_descriptor shared_bytes id key h' = Ok (h', HOk (Some (merge_descriptor old d))).
Proof.
  intros K S E P Hd Hw. destruct (wrote_object _ _ _ _ _ Hw E) as (o' & E' & S').
  destruct (defined_fields key old d o) as (F1 & F2 & F3). cbv zeta in *.
  assert (plain o' key) as P' by (apply (plain_kind o o'); [done|]; by rewrite (ss_kind _ _ S'), F3).
  rewrite (describe_plain h' id o' key S E' P'), (plain_own o' key P').
  rewrite <-(ss_properties _ _ S') in F1. rewrite <-(ss_attributes _ _ S') in F2.
  assert (if accessor (merge_descriptor old d) then pd_value (merge_descriptor old d) = None
    else is_Some (pd_value (merge_descriptor old d))) as Hv.
  { apply merge_values; [done|]. intros old' Eo. by apply (found_values o key). }
  unfold found_descriptor. rewrite F1, F2, set_pd_accessor. set (m := merge_descriptor old d) in *.
  destruct (accessor m); [destruct m; cbn in *; by rewrite Hv|]. destruct Hv as [v Ev]. destruct m; cbn in *. by rewrite Ev.
Qed.

(** ** Key order *)
Definition string_key (key : PropertyName) : bool :=
  match key with PString _ => bool_decide (array_index key = None) | PSymbol _ => false end.
Definition symbol_key (key : PropertyName) : bool := match key with PSymbol _ => true | PString _ => false end.

Lemma split_keys order indices strings symbols :
  foldl split_key (indices, strings, symbols) order
  = (indices ++ indices_from 0 order, strings ++ filter (λ key, string_key key = true) order,
     symbols ++ filter (λ key, symbol_key key = true) order).
Proof.
  revert indices strings symbols. induction order as [|key order IH]; intros indices strings symbols.
  { by rewrite !app_nil_r. }
  cbn [foldl split_key]. rewrite !filter_cons. unfold indices_from in *. cbn [omap list_omap].
  destruct key as [s|s].
  - cbn [string_key symbol_key]. destruct (array_index (PString s)) as [i|] eqn:Ei.
    + rewrite IH, <-!app_assoc, (proj2 (N.leb_le 0 i)) by lia. done.
    + rewrite IH, <-!app_assoc. done.
  - cbn. rewrite IH, <-!app_assoc. done.
Qed.

(** The keys of an object whose properties are all stored, but for an array's length. *)
Definition stored_keys (o : Object) : Prop :=
  match o_kind o with KString _ | TypedArray _ _ _ _ _ | ModuleNamespace _ => False | _ => True end.

Definition sorted_indices (o : Object) : list PropertyName := snd <$> stable_sort index_leb (indices_from 0 (o_order o)).

Definition own_keys_list (o : Object) : list PropertyName :=
  sorted_indices o ++ (match o_kind o with KArray _ => [length_name] | _ => [] end)
  ++ filter (λ key, string_key key = true) (o_order o) ++ filter (λ key, symbol_key key = true) (o_order o).

Lemma own_keys_run h id o :
  h_objects h !! id = Some o → stored_keys o →
  own_property_keys shared_bytes id h = Ok (h, HOk (own_keys_list o)).
Proof.
  intros E Hk. unfold own_property_keys, own_keys_list, sorted_indices, stored_keys in *.
  rewrite (hbind_ok _ _ h h o) by (unfold hread, object; by rewrite E).
  destruct (o_kind o); try done; cbv beta iota; unfold mbind at 1; unfold hm_bind at 1; cbn [mret hm_ret];
    unfold ordered_stored_property_keys; rewrite split_keys; done.
Qed.

Lemma sorted_indices_elem o key : key ∈ sorted_indices o ↔ key ∈ o_order o ∧ is_Some (array_index key).
Proof.
  unfold sorted_indices. rewrite list_elem_of_fmap. pose proof (stable_sort_perm index_leb (indices_from 0 (o_order o))) as Hp.
  split.
  - intros (p & -> & Hin). rewrite Hp in Hin. apply indices_from_elem in Hin as (? & E & _). split; [done|]. by eexists.
  - intros [Hin [i Ei]]. exists (i, key). split; [done|]. rewrite Hp. apply indices_from_elem. split_and!; [done|done|cbn; lia].
Qed.

Lemma key_classes key : (is_Some (array_index key) ∧ string_key key = false ∧ symbol_key key = false)
  ∨ (array_index key = None ∧ string_key key = true ∧ symbol_key key = false)
  ∨ (array_index key = None ∧ string_key key = false ∧ symbol_key key = true).
Proof.
  destruct key as [s|s]; cbn.
  - destruct (array_index (PString s)) as [i|] eqn:E; [left; split_and!; eauto|right; left; by split_and!].
  - right. right. by split_and!.
Qed.

Lemma own_keys_elem o k :
  storage_ok o → k ∈ pkey <$> own_keys_list o ↔
    is_Some (o_properties o !! k) ∨ (k = pkey length_name ∧ ∃ n, o_kind o = KArray n).
Proof.
  intros K. rewrite list_elem_of_fmap. unfold own_keys_list. setoid_rewrite elem_of_app. setoid_rewrite elem_of_app.
  setoid_rewrite elem_of_app. setoid_rewrite sorted_indices_elem. setoid_rewrite list_elem_of_filter. split.
  - intros (key & -> & [[Hk _]|[Hk|[[_ Hk]|[_ Hk]]]]); try (left; apply (so_stored _ K), list_elem_of_fmap; by exists key).
    right. destruct (o_kind o) eqn:Ek; try (by apply elem_of_nil in Hk). apply list_elem_of_singleton in Hk as ->. eauto.
  - intros [(key & -> & Hk)%(so_stored _ K)%list_elem_of_fmap|[-> [n Ek]]].
    + exists key. split; [done|]. destruct (key_classes key) as [(? & _)|[(_ & ? & _)|(_ & _ & ?)]]; auto.
    + exists length_name. split; [done|]. right. left. rewrite Ek. constructor.
Qed.

Lemma filter_keys_sub (P : PropertyName → bool) (l : list PropertyName) : pkey <$> filter (λ key, P key = true) l ⊆ pkey <$> l.
Proof.
  intros k (key & -> & [_ Hk]%list_elem_of_filter)%list_elem_of_fmap. by apply list_elem_of_fmap_2.
Qed.
Lemma filter_keys_nodup (P : PropertyName → bool) (l : list PropertyName) : NoDup (pkey <$> l) → NoDup (pkey <$> filter (λ key, P key = true) l).
Proof.
  induction l as [|key l IH]; [done|]. rewrite fmap_cons, filter_cons. intros [Hk Hnd]%NoDup_cons.
  destruct (decide _); [|auto]. rewrite fmap_cons. apply NoDup_cons. split; [|auto]. intros Hin%filter_keys_sub. done.
Qed.

Lemma sorted_indices_nodup o : storage_ok o → NoDup (pkey <$> sorted_indices o).
Proof.
  intros K. unfold sorted_indices. rewrite <-list_fmap_compose.
  pose proof (stable_sort_perm index_leb (indices_from 0 (o_order o))) as Hp. rewrite Hp. apply indices_from_nodup, K.
Qed.

Lemma same_pkey_class key key' : pkey key = pkey key' →
  array_index key = array_index key' ∧ string_key key = string_key key' ∧ symbol_key key = symbol_key key'.
Proof.
  intros E. pose proof (index_same_key key key' E) as Ei. split; [done|]. destruct key, key'; cbn in *; try done.
  by rewrite Ei.
Qed.

Lemma own_keys_nodup o : storage_ok o → NoDup (pkey <$> own_keys_list o).
Proof.
  intros K. pose proof (so_order _ K) as Hnd. unfold own_keys_list. rewrite !fmap_app.
  assert (∀ P, P = string_key ∨ P = symbol_key → ∀ k, k ∈ pkey <$> filter (λ key, P key = true) (o_order o) →
    k ∈ pkey <$> o_order o ∧ ∃ key, k = pkey key ∧ P key = true) as Hf.
  { intros P _ k Hk. split; [by eapply filter_keys_sub|].
    apply list_elem_of_fmap in Hk as (key & -> & [? _]%list_elem_of_filter). by exists key. }
  assert (∀ n, o_kind o = KArray n → pkey length_name ∉ pkey <$> o_order o) as Hlen.
  { intros n Ek [v Ev]%(so_stored _ K). pose proof (so_length _ K n Ek). congruence. }
  apply NoDup_app. split_and!; [by apply sorted_indices_nodup| |apply NoDup_app; split_and!].
  - intros k (key & -> & [Hk [i Hi]]%sorted_indices_elem)%list_elem_of_fmap. rewrite !elem_of_app.
    intros [Hl|[(_ & key' & E & Ec)%(Hf string_key)|(_ & key' & E & Ec)%(Hf symbol_key)]]; auto.
    + destruct (o_kind o) eqn:Ek; try (by apply elem_of_nil in Hl). change (pkey <$> [length_name]) with [pkey length_name] in Hl.
      apply list_elem_of_singleton in Hl.
      apply (Hlen length eq_refl). rewrite <-Hl. by apply list_elem_of_fmap_2.
    + destruct (same_pkey_class _ _ E) as (E1 & E2 & E3). destruct (key_classes key) as [(? & ? & ?)|[(? & ? & ?)|(? & ? & ?)]]; congruence.
    + destruct (same_pkey_class _ _ E) as (E1 & E2 & E3). destruct (key_classes key) as [(? & ? & ?)|[(? & ? & ?)|(? & ? & ?)]]; congruence.
  - destruct (o_kind o); try apply NoDup_nil_2. apply NoDup_singleton.
  - intros k Hk. destruct (o_kind o) eqn:Ek; try (by apply elem_of_nil in Hk). change (pkey <$> [length_name]) with [pkey length_name] in Hk.
    apply list_elem_of_singleton in Hk as ->. rewrite elem_of_app. intros [[? _]%(Hf string_key)|[? _]%(Hf symbol_key)]; auto; by apply (Hlen length).
  - apply NoDup_app. split_and!; [by apply filter_keys_nodup| |by apply filter_keys_nodup].
    intros k (_ & key & -> & E1)%(Hf string_key) (_ & key' & E & E2)%(Hf symbol_key); auto.
    destruct (same_pkey_class _ _ E) as (_ & E3 & E4). destruct (key_classes key) as [(? & ? & ?)|[(? & ? & ?)|(? & ? & ?)]]; congruence.
Qed.

(** Indices come first and ascend. *)
Lemma sorted_indices_ascend o :
  storage_ok o → StronglySorted (λ a b, ∃ i j, array_index a = Some i ∧ array_index b = Some j ∧ (i < j)%N) (sorted_indices o).
Proof.
  intros K. unfold sorted_indices. pose proof (stable_sort_perm index_leb (indices_from 0 (o_order o))) as Hp.
  assert (StronglySorted (λ x y, index_leb x y = true) (stable_sort index_leb (indices_from 0 (o_order o)))) as Hs.
  { apply stable_sort_sorted; unfold index_leb; intros *; rewrite ?N.leb_le; lia. }
  assert (∀ p, p ∈ stable_sort index_leb (indices_from 0 (o_order o)) → array_index p.2 = Some p.1) as Hi.
  { intros p. rewrite Hp. by intros (_ & ? & _)%indices_from_elem. }
  assert (NoDup (removed_keys (stable_sort index_leb (indices_from 0 (o_order o))))) as Hnd.
  { unfold removed_keys. rewrite Hp. apply indices_from_nodup, K. }
  revert Hs Hi Hnd. generalize (stable_sort index_leb (indices_from 0 (o_order o))). clear.
  induction l as [|p l IH]; intros Hs Hi Hnd; cbn; [constructor|].
  apply StronglySorted_inv in Hs as [Hs Hf]. apply NoDup_cons in Hnd as [Hn Hnd]. constructor.
  - apply IH; [done| |done]. intros. apply Hi. by constructor.
  - pose proof (proj1 (Forall_forall _ _) Hf) as Hle. clear Hf. apply Forall_forall. intros key (q & -> & Hq)%list_elem_of_fmap.
    exists p.1, q.1. split_and!; [apply Hi; by constructor|apply Hi; by constructor|].
    specialize (Hle q Hq). unfold index_leb in Hle. apply N.leb_le in Hle. assert (p.1 ≠ q.1); [|lia]. intros E.
    apply Hn. apply list_elem_of_fmap. exists q. split; [|done]. f_equal. apply (array_index_inj _ _ q.1); [rewrite <-E|];
      apply Hi; by constructor.
Qed.

(** ** Exact outcomes *)
Lemma own_property_some o key :
  storage_ok o → stored_keys o →
  is_Some (own_property o key) ↔ is_Some (o_properties o !! pkey key) ∨ (pkey key = pkey length_name ∧ ∃ n, o_kind o = KArray n).
Proof.
  intros K Hs. unfold own_property, stored_keys in *. destruct (o_kind o) eqn:Ek; try done;
    try (split; [by left|by intros [?|[_ [n ?]]]]).
  destruct (is_name key (str "length")) eqn:En.
  - apply is_name_spec in En. split; [|by eexists]. intros _. right. split; [done|]. by eexists.
  - split; [by left|]. intros [?|[E _]]; [done|]. apply not_true_iff_false in En. destruct En. by apply is_name_spec.
Qed.

Lemma truncated_after n o o1 o2 : same_storage o1 o2 → truncated n o o1 → truncated n o o2.
Proof.
  intros S [T1 T2 T3 T4]. pose proof S as [Sk Sp So Sa _]. split; rewrite ?So, ?Sp, ?Sa; try done.
  by apply (same_kind o1 o2 (KArray n)).
Qed.
Lemma length_change_after n o o1 o2 r : same_storage o1 o2 → length_change n o o1 r → length_change n o o2 r.
Proof.
  intros S [[-> Ht]|(-> & k & i & d & ? & ? & ? & ? & ? & Ht)].
  - left. split; [done|]. by eapply truncated_after.
  - right. split; [done|]. exists k, i, d. split_and!; try done. by eapply truncated_after.
Qed.

Lemma replaced_object h h' id o1 : replaced h h' id o1 →
  (∃ o', h_objects h' !! id = Some o' ∧ same_storage o1 o') ∧ ∀ a, a ≠ id → h_objects h' !! a = h_objects h !! a.
Proof.
  intros [_ (o' & Eh & S)]. rewrite Eh. split.
  - exists o'. split; [apply lookup_insert_eq|done].
  - intros a Ha. by apply lookup_insert_ne.
Qed.
End storage_write.
