(* ===== verification/JsHeapCalls.v ===== *)
(** * Runs of heap operations

    [HeapCall] lists the operations that allocate, collect, register roots, change collections,
    weak tables, registries and prototypes, and assign, define and delete properties.  From a new
    heap no run of them panics, every heap a run reaches satisfies [full], and the objects that
    survive a run have kept the promises of [integrity]. *)

From S2P Require Import Prelude Float JsValue JsObject JsCollection JsCollectionProps JsHeap JsMark JsGc JsCore JsSlots JsHeapInv JsHeapRun JsNumeric JsBinary JsStorage JsFrame JsStorageInv JsStorageRun JsStorageWrite.

Section calls.
Context {H : JsHost}.
Variable shared_bytes : SharedBuffer → list N.

(** ** Iteration *)
Lemma next_entry_total entries fuel index :
  length (oc_entries entries) < S fuel + index → ∃ r, next_entry (S fuel) entries index = Ok r.
Proof.
  revert index. induction fuel as [|fuel IH]; intros index Hl; cbn; unfold entry_at;
    destruct (oc_entries entries !! index) as [[[k v]|]|] eqn:E; eauto.
  - apply lookup_lt_Some in E. lia.
  - apply IH. lia.
Qed.

(** An update that changes neither references nor what is owned. *)
Lemma update_kind_sound h id o k :
  heap_ok h → h_objects h !! id = Some o →
  (∀ b, b ∈ kind_references k → b ∈ kind_references (o_kind o)) →
  (owned_kind_bytes k <= owned_kind_bytes (o_kind o))%N → kind_ok h k →
  ∃ h', update_object id (λ o, Ok (o_set_kind k o)) h = Ok (h', HOk ()) ∧ heap_ok h'.
Proof.
  intros K E Href Hown Hk. pose proof (ok_owned _ K id o E). pose proof (owned_set_kind k o).
  assert (sound h (update_object id (λ o, Ok (o_set_kind k o));; mret ())) as (h' & r & Eq & K').
  { apply (sound_update h id o (o_set_kind k o)); try done.
    - intros b Hb. destruct (references_new_kind o k [] b) as [?|?%elem_of_nil]; [auto|done..].
    - cbn. lia.
    - intros h1 K1 _. by apply sound_ret. }
  unfold mbind, hm_bind, update_object, hupd in *. rewrite E in *. cbn in *. injection Eq as <- <-. eauto.
Qed.

Lemma collection_iterator_next_sound h id map : heap_ok h → sound h (collection_iterator_next id map).
Proof.
  intros K. apply sound_read; [done|]. intros k (o & E & Ek)%kind_of_ok.
  destruct k; try by apply sound_ret. destruct (Bool.eqb _ _); [|by apply sound_ret].
  destruct collection as [c|]; [|by apply sound_ret].
  apply sound_read; [done|]. intros entries _.
  destruct (next_entry_total entries (length (oc_entries entries)) (N.to_nat index)) as [r Er]; [lia|].
  eapply sound_res; [exact Er|].
  set (k' := CollectionIterator (if bool_decide (r.2 = None) then None else Some c) (N.of_nat r.1) kind is_map).
  destruct (update_kind_sound h id o k') as (h' & Eu & K'); [done|done| |by rewrite Ek|done|].
  { rewrite Ek. intros b Hb. unfold k' in Hb. case_bool_decide; [by apply elem_of_nil in Hb|done]. }
  eapply sound_bind; [|by apply sound_ret].
  unfold hexpect, set_collection_iterator_progress, mbind, hm_bind, hread. unfold kind_of, object. rewrite E. cbn.
  rewrite Ek. fold k'. by rewrite Eu.
Qed.

(** ** Calls *)
Inductive HeapCall :=
  | CallAlloc (kind : ObjectKind) (proto : option ObjectId)
  | CallRoot (id : ObjectId)
  | CallUnroot (root : RootId)
  | CallPushScope (roots : list ObjectId)
  | CallPopScope
  | CallMinor (protected : list ObjectId)
  | CallMajor (protected : list ObjectId)
  | CallSetPrototype (id : ObjectId) (proto : option ObjectId)
  | CallPreventExtensions (id : ObjectId)
  | CallMapSet (id : ObjectId) (key value : Value)
  | CallSetAdd (id : ObjectId) (key : Value)
  | CallDelete (is_map : bool) (id : ObjectId) (key : Value)
  | CallClear (id : ObjectId)
  | CallIteratorNext (id : ObjectId) (map : bool)
  | CallWeakSet (id : ObjectId) (key value : Value)
  | CallWeakDelete (id : ObjectId) (key : Value)
  | CallRegister (registry : ObjectId) (target holdings : Value) (token : option Value)
  | CallUnregister (registry : ObjectId) (token : Value)
  | CallTakeJobs
  | CallSet (id : ObjectId) (key : PropertyName) (value : Value)
  | CallDefine (id : ObjectId) (key : PropertyName) (d : PropertyDescriptor)
  | CallDeleteKey (id : ObjectId) (key : PropertyName).

Definition run_call (c : HeapCall) : hm unit :=
  match c with
  | CallAlloc kind proto => alloc kind proto;; mret ()
  | CallRoot id => root id;; mret ()
  | CallUnroot r => unroot r;; mret ()
  | CallPushScope roots => push_scoped_roots roots
  | CallPopScope => pop_scoped_roots
  | CallMinor protected => hupd (minor_gc protected)
  | CallMajor protected => hupd (major_gc protected)
  | CallSetPrototype id proto => set_prototype id proto
  | CallPreventExtensions id => prevent_extensions id
  | CallMapSet id key value => map_set id key value
  | CallSetAdd id key => set_add id key
  | CallDelete is_map id key => collection_delete is_map id key;; mret ()
  | CallClear id => collection_clear id
  | CallIteratorNext id map => collection_iterator_next id map;; mret ()
  | CallWeakSet id key value => weak_collection_set id key value
  | CallWeakDelete id key => weak_collection_delete id key;; mret ()
  | CallRegister registry target holdings token => finalization_registry_register registry target holdings token
  | CallUnregister registry token => finalization_registry_unregister registry token;; mret ()
  | CallTakeJobs => take_finalization_registry_cleanup_jobs;; mret ()
  | CallSet id key value => set shared_bytes id key value
  | CallDefine id key d => define_own_property shared_bytes id key d;; mret ()
  | CallDeleteKey id key => delete_key shared_bytes id key;; mret ()
  end.

(** What an allocation relies on: its slots are well formed, the cells of a namespace or of mapped
    arguments are ordinary objects, and an array's length is a [u32]. *)
Definition fits (h : Heap) (kind : ObjectKind) : Prop :=
  alloc_ok h kind
  ∧ (∀ c, c ∈ cells kind → ∃ oc, h_objects h !! c = Some oc ∧ o_kind oc = Ordinary)
  ∧ ∀ n, kind = KArray n → (n <= U32_MAX)%N.

(** What the caller provides: handles that the code uses unchecked name live objects, and a
    symbol key carries the description of its identity. *)
Definition call_ok (h : Heap) (c : HeapCall) : Prop :=
  match c with
  | CallAlloc kind _ => fits h kind
  | CallMinor protected | CallMajor protected => ∀ id, id ∈ protected → present h id
  | CallMapSet _ key _ | CallSetAdd _ key | CallWeakDelete _ key => wf_value key
  | CallWeakSet _ key value => wf_value key ∧ ∀ b, object_id value = Some b → present h b
  | CallRegister registry _ holdings _ =>
      (∃ o callback cells, h_objects h !! registry = Some o ∧ o_kind o = FinalizationRegistry callback cells)
      ∧ ∀ b, object_id holdings = Some b → present h b
  | CallSet _ key _ | CallDeleteKey _ key => wf_name key
  | CallDefine id key d => define_safe h id key d
  | _ => True
  end.

(** ** Objects across calls

    Identities are not used again: an object of the later heap was there before, and kept its
    promises, or is newer. *)
Definition evolves (h h' : Heap) : Prop :=
  h_identity h' = h_identity h ∧ (h_next_object h <= h_next_object h')%N
  ∧ ∀ id o', h_objects h' !! id = Some o' →
      (∃ o, h_objects h !! id = Some o ∧ integrity o o') ∨ (h_next_object h <= oid_serial id)%N.

#[export] Instance evolves_refl : Reflexive evolves.
Proof. intros h. split_and!; [done|lia|]. intros id o E. left. by exists o. Qed.
#[export] Instance evolves_trans : Transitive evolves.
Proof.
  intros h1 h2 h3 (I1 & N1 & O1) (I2 & N2 & O2). split_and!; [congruence|lia|]. intros id o3 E3.
  destruct (O2 id o3 E3) as [(o2 & E2 & J2)|?]; [|right; lia].
  destruct (O1 id o2 E2) as [(o1 & E1 & J1)|?]; [|by right]. left. exists o1. split; [done|by etrans].
Qed.

Lemma guards_evolves h h' : guards h h' → evolves h h'.
Proof.
  intros [[I N] G]. split_and!; [done|lia|]. intros id o' E'. destruct (G id o' E') as (o & E & ?). left. eauto.
Qed.

(** An allocation does not take serials back. *)
Definition serials {A} (n : N) (m : hm A) : Prop := ∀ h h' r,
  h_next_object h = n → m h = Ok (h', r) → h_identity h' = h_identity h ∧ (n <= h_next_object h')%N.

Lemma serials_bind {A B} n (m : hm A) (f : A → hm B) : keeps m → (∀ a, serials n (f a)) → serials n (m ≫= f).
Proof.
  intros Km Kf h h' r Hn. unfold mbind, hm_bind. destruct (m h) as [[h1 [a|e]]| |] eqn:E; try done;
    destruct (Km _ _ _ E) as [[I N] _].
  - intros E'. destruct (Kf a h1 h' r) as [I' N']; [congruence|done|]. split; [congruence|done].
  - intros [= <- <-]. split; [done|lia].
Qed.
Lemma serials_next {B} n (f : N → hm B) :
  serials n (f (n + 1)%N) → serials n (hread (λ h, ok_or (checked_usize (h_next_object h + 1)) IdExhausted) ≫= f).
Proof.
  intros Kf h h' r Hn. unfold mbind, hm_bind, hread. rewrite Hn. destruct (checked_usize (n + 1)) as [next|] eqn:E; cbn.
  - unfold checked_usize in E. destruct (_ <=? _)%N; [|done]. injection E as <-. by apply Kf.
  - intros [= <- _]. split; [done|lia].
Qed.
Lemma alloc_tail_serials n k proto bytes : serials n (alloc_tail k proto bytes (n + 1)).
Proof.
  intros h h' r Hn. unfold alloc_tail, recharge, hupd, mbind, hm_bind, hget, hmod. cbn.
  destruct (checked_sub_N _ _) as [m| |]; cbn; [|done..]. destruct (checked_add_N _ m _); cbn; [|done..].
  intros E. apply Ok_inj in E. injection E as <- _. cbn. split; [done|lia].
Qed.
Lemma alloc_serials n k proto : serials n (alloc k proto).
Proof.
  unfold alloc. apply serials_bind; [solve [keeps_tac]|intros _]. apply serials_next.
  do 4 (apply serials_bind; [solve [keeps_tac]|intros]; cbv beta zeta). apply (alloc_tail_serials n k proto).
Qed.

Lemma alloc_spec h k proto :
  full h → fits h k → wp (alloc k proto) (λ h' _, full h' ∧ evolves h h') h.
Proof.
  intros [K S] (Hok & Hcells & Hwidth). destruct (alloc_sound h k proto K Hok) as (h' & r & E & K').
  exists h', r. split; [done|]. pose proof (alloc_allocs k proto h h' r E) as Ha.
  destruct (alloc_serials (h_next_object h) k proto h h' r eq_refl E) as [I N].
  assert (∀ c oc, h_objects h !! c = Some oc → o_kind oc = Ordinary → present h' c →
    ∃ oc', h_objects h' !! c = Some oc' ∧ o_kind oc' = Ordinary) as Hord.
  { intros c oc Ec Eo [oc' Ec']. exists oc'. split; [done|]. destruct (Ha c oc' Ec') as [(o0 & E0 & S0)|[-> _]].
    - apply (same_kind o0 oc' Ordinary); [done..|]. congruence.
    - destruct (ok_ids _ K (mkObjectId (h_identity h) (h_next_object h))) as [_ Hlt]; [by exists oc|]. cbn in Hlt. lia. }
  assert (∀ id o' c, h_objects h' !! id = Some o' → c ∈ cells (o_kind o') → present h' c) as Hclosed.
  { intros id o' c E' Hc. apply (ok_closed _ K' id c). unfold succs. rewrite E'. apply elem_of_app. left.
    apply kind_references_elem. by apply cells_references. }
  split; [split; [done|split]|split_and!; [done|done|]].
  - intros id o' E'. destruct (Ha id o' E') as [(o & Eo & So)|[_ [bytes ->]]].
    + eapply storage_ok_same; [exact So|]. by apply (st_objects _ S id).
    + by apply storage_ok_new.
  - intros id o' c E' Hc. pose proof (Hclosed id o' c E' Hc) as Hpc.
    destruct (Ha id o' E') as [(o & Eo & So)|[_ [bytes ->]]].
    + rewrite (same_cells _ _ So) in Hc. destruct (st_cells _ S id o c Eo Hc) as (oc & Ec & ?). by eapply Hord.
    + destruct (Hcells c Hc) as (oc & Ec & ?). by eapply Hord.
  - intros id o' E'. destruct (Ha id o' E') as [(o & Eo & So)|[-> _]]; [left|right; cbn; lia].
    exists o. split; [done|]. by apply same_storage_integrity.
Qed.

(** ** Every call *)
Lemma kept_call {A} h (m : hm A) :
  full h → sound h m → keeps m → wp m (λ h' _, full h' ∧ evolves h h') h.
Proof.
  intros F (h' & r & E & K') Km. pose proof (Km _ _ _ E) as Hk. exists h', r. split_and!; [done|by eapply keeps_full|].
  by apply guards_evolves, keeps_guards.
Qed.
Lemma guarded_call {A} h (m : hm A) :
  wp m (λ h' _, full h' ∧ guards h h') h → wp m (λ h' _, full h' ∧ evolves h h') h.
Proof. intros Hm. eapply wp_mono; [exact Hm|]. intros h' r [F G]. split; [done|]. by apply guards_evolves. Qed.

(** The answer of a call does not matter. *)
Lemma wp_drop {A} (m : hm A) (Q : Heap → Prop) h : wp m (λ h' _, Q h') h → wp (m ;; mret ()) (λ h' _, Q h') h.
Proof. intros Hm. apply wp_bind. eapply wp_mono; [exact Hm|]. intros h' [a|e] HQ; [by apply wp_ret|done]. Qed.

#[local] Hint Resolve keeps_root keeps_unroot keeps_push_scope keeps_pop_scope keeps_set_prototype keeps_prevent_extensions
  keeps_map_set keeps_set_add keeps_collection_delete keeps_collection_clear keeps_iterator_next keeps_weak_set
  keeps_weak_delete keeps_register keeps_unregister keeps_take_jobs : keeps.

Lemma call_spec h c :
  full h → call_ok h c → wp (run_call c) (λ h' _, full h' ∧ evolves h h') h.
Proof.
  intros F Hc. pose proof F as [K _].
  destruct c; cbn [run_call call_ok] in *; try apply (wp_drop _ (λ h', full h' ∧ evolves h h'));
    try (apply kept_call; [done| |by eauto with keeps]).
  - by apply alloc_spec.
  - by apply root_sound.
  - by apply unroot_sound.
  - by apply (scoped_sound h (λ h, h_scoped_roots h ++ [roots])).
  - by apply (scoped_sound h (λ h, removelast (h_scoped_roots h))).
  - destruct (minor_gc_spec h protected K Hc) as (h' & dead & E & K' & _).
    exists h', (HOk ()). unfold hupd. by rewrite E.
  - destruct (major_gc_spec h protected K Hc) as (h' & dead & E & K' & _).
    exists h', (HOk ()). unfold hupd. by rewrite E.
  - by apply set_prototype_sound.
  - by apply prevent_extensions_sound.
  - by apply map_set_sound.
  - by apply set_add_sound.
  - by apply collection_delete_sound.
  - by apply collection_clear_sound.
  - by apply collection_iterator_next_sound.
  - destruct Hc. by apply weak_collection_set_sound.
  - by apply weak_collection_delete_sound.
  - destruct Hc as [(o & callback & cells & E & Ek) Hh]. by eapply finalization_registry_register_sound.
  - by apply finalization_registry_unregister_sound.
  - by apply take_jobs_sound.
  - by apply guarded_call, set_full.
  - by apply guarded_call, define_full.
  - by apply guarded_call, delete_key_sound.
Qed.

(** One call of a run. *)
Inductive heap_step (h : Heap) : Heap → Prop :=
  | heap_step_call c h' r : call_ok h c → run_call c h = Ok (h', r) → heap_step h h'.

Definition heap_reachable (config : HeapConfig) (identity : N) (h : Heap) : Prop :=
  ∃ h0 next, new_heap config identity = HOk (h0, next) ∧ rtc heap_step h0 h.

Lemma heap_runs h h' : full h → rtc heap_step h h' → full h' ∧ evolves h h'.
Proof.
  intros F Hr. revert F. induction Hr as [h|h1 h2 h3 [c h2' r Hc Er] _ IH]; intros F; [done|].
  destruct (wp_run _ _ _ _ _ (call_spec h1 c F Hc) Er) as [F2 G]. destruct (IH F2) as [F3 G3].
  split; [done|by etrans].
Qed.

Lemma new_heap_ok config identity h next :
  (max_heap_bytes config <= USIZE_MAX)%N → new_heap config identity = HOk (h, next) → heap_ok h.
Proof.
  unfold new_heap. destruct (_ || _)%N eqn:Ec; [done|]. apply orb_false_iff in Ec as [_ Ec].
  apply N.ltb_ge in Ec. intros Hmax. destruct (checked_usize _); cbn; [|done]. intros [= <- <-].
  assert (∀ a, ¬ present (mkHeap identity 1 1 config ∅ ∅ [] ∅ ∅ [] 0 (major_threshold_bytes config) 0 0 0 0) a) as Hno.
  { intros a [o E]. cbn in E. by rewrite lookup_empty in E. }
  split; cbn; try done.
  - intros a b Hb. unfold succs in Hb. cbn in Hb. rewrite lookup_empty in Hb. by apply elem_of_nil in Hb.
  - intros a Ha. assert (∀ x y, ¬ proto_edge (mkHeap identity 1 1 config ∅ ∅ [] ∅ ∅ [] 0 (major_threshold_bytes config) 0 0 0 0) x y) as Hn.
    { intros x y (o & E & _). apply (Hno x). by exists o. }
    inversion Ha; by eapply Hn.
  - constructor.
  - intros id. split; [by intros ?%elem_of_nil|]. intros (o & E & _). destruct (Hno id). by exists o.
  - intros a b (o & E & _). destruct (Hno a). by exists o.
  - by intros id ?%Hno.
  - lia.
Qed.

Lemma new_heap_full config identity h next :
  (max_heap_bytes config <= USIZE_MAX)%N → new_heap config identity = HOk (h, next) → full h.
Proof.
  intros Hmax E. split; [by eapply new_heap_ok|]. unfold new_heap in E. destruct (_ || _)%N; [done|].
  destruct (checked_usize _); cbn in E; [|done]. injection E as <- _.
  split; cbn; intros *; by rewrite lookup_empty.
Qed.

Lemma reachable_full config identity h :
  (max_heap_bytes config <= USIZE_MAX)%N → heap_reachable config identity h → full h.
Proof.
  intros Hmax (h0 & next & E & Hr). apply new_heap_full in E; [|done]. by apply (heap_runs h0).
Qed.
End calls.
