(* ===== verification/JsProps.v ===== *)
(** * The BlueJS heap: collection and runs

    What a major collection keeps, what a minor one may drop, and the safety of every run of heap
    operations; each with an instance at a concrete host. *)

From S2P Require Import Prelude Float JsValue JsObject JsCollection JsCollectionProps JsHeap JsMark JsGc JsCore JsSlots JsHeapInv JsHeapRun JsNumeric JsBinary JsStorage JsFrame JsStorageInv JsStorageRun JsStorageWrite JsHeapCalls.
From Stdlib Require Import Sorted.

Section props.
Context {H : JsHost}.
Variable shared_bytes : SharedBuffer → list N.

(** C8. Safety and completeness of a major collection: from a heap that satisfies the invariant it
    returns, keeps exactly the objects that are reachable from the explicit roots, the live scoped
    roots and the protected handles (through strong references, closure metadata, and the values
    of weak tables whose table and key are both reachable), keeps their contents up to weak slots,
    and re-establishes the invariant. *)
Theorem major_gc_exact h protected
  (K : heap_ok h) (Hp : ∀ id, id ∈ protected → present h id) :
  ∃ h' dead, major_gc protected h = Ok h' ∧ heap_ok h'
    ∧ (∀ id, present h' id ↔ strong h protected id)
    ∧ (∀ id, present h id → dead id = false ↔ strong h protected id)
    ∧ (∀ id o', h_objects h' !! id = Some o' →
         ∃ o, h_objects h !! id = Some o ∧ o' = o_set_young false (sweep_object dead o)).
Proof.
  destruct (major_gc_spec h protected K Hp) as (h' & dead & E & K' & W). exists h', dead.
  split_and!; [done..| | |].
  - intros id. rewrite (swept_present _ _ _ _ _ W). split; [by intros [_ ?]|]. intros Hs. split; [|done].
    by eapply strong_present.
  - apply (sw_dead _ _ _ _ W).
  - intros id o' (o & ? & _ & ?)%(sw_objects _ _ _ _ W). by exists o.
Qed.

(** C9. Safety of a minor collection (the write barrier suffices): it returns, keeps every object
    that is reachable in the whole heap and every old object, empties the nursery, and
    re-establishes the invariant; what it drops is young and unreachable. *)
Theorem minor_gc_safe h protected
  (K : heap_ok h) (Hp : ∀ id, id ∈ protected → present h id) :
  ∃ h', minor_gc protected h = Ok h' ∧ heap_ok h'
    ∧ (∀ id, strong h protected id ∨ old h id → present h' id)
    ∧ (∀ id, present h id → ¬ present h' id → young h id ∧ ¬ strong h protected id)
    ∧ (∀ id, ¬ young h' id).
Proof.
  destruct (minor_gc_spec h protected K Hp) as (h' & dead & E & K' & W). exists h'.
  assert (∀ id, strong h protected id ∨ old h id → present h' id) as Hkeep.
  { intros id Hid. apply (swept_present _ _ _ _ _ W). unfold minor_keep. destruct Hid as [Hs|Ho].
    - split; [by eapply strong_present|by apply strong_minor].
    - split; [|by left]. destruct Ho as (o & ? & _). by exists o. }
  split_and!; [done..| |].
  - intros id [Ho|Hy]%old_or_young Hn; [destruct Hn; auto|]. split; [done|]. intros Hs. apply Hn. auto.
  - intros id Hy%(ok_young _ K'). rewrite (sw_nursery _ _ _ _ W) in Hy. by apply elem_of_nil in Hy.
Qed.




(** C15. Assignment, then lookup: from a heap that satisfies the invariants, an assignment to a plain
    own key either returns and the value is what [get] reads, every other property of every
    surviving object being what it was, or returns an error, and then no property changed; it is
    an error when the property is read-only. *)
Theorem set_read_back h id o key value
  (F : full h) (W : wf_name key) (E : h_objects h !! id = Some o) (P : plain o key) :
  ∃ h' r, set shared_bytes id key value h = Ok (h', r) ∧ full h' ∧
    ((r = HOk () ∧ read_only o key = false ∧ get shared_bytes id key h' = Ok (h', HOk value) ∧ others_kept id key h h')
     ∨ ((∃ e, r = HErr e) ∧ keeps_heap h h' ∧ (read_only o key = true → r = HErr ReadOnlyProperty ∧ h' = h))).
Proof.
  destruct (set_plain shared_bytes (size (h_objects h)) h id o key value F W E (plain_numeric h id o key E P))
    as (h' & r & Er & F' & Ha); [by apply P..|].
  exists h', r. split_and!; [done..|]. destruct Ha as [(Hro & -> & Hw)|(e & -> & Hk & Hro)].
  - left. destruct (wrote_object _ _ _ _ _ Hw E) as (o' & E' & S'). split_and!; [done..| |].
    + apply (get_plain shared_bytes h' id o'); [done| |].
      * apply (plain_kind o o'); [done|]. by rewrite (ss_kind _ _ S'), insert_kind.
      * by rewrite (ss_properties _ _ S'), insert_properties, lookup_insert_eq.
    + apply (wrote_others _ _ _ _ _ (insert_others key value) Hw).
  - right. split_and!; [by exists e|done|]. by intros [-> ->]%Hro.
Qed.


(** Deletion of a plain own key answers whether the property may go, never an error; if it may,
    it is gone from the properties, the attributes and the order; nothing else changes, and no
    object is collected. *)
Theorem delete_key_exact h id o key
  (F : full h) (W : wf_name key) (E : h_objects h !! id = Some o) (P : plain o key)
  (Hn : is_namespace o && is_string key = false) :
  ∃ h' b, delete_key shared_bytes id key h = Ok (h', HOk b) ∧ full h'
    ∧ (b = false ↔ ∃ d, o_attributes o !! pkey key = Some d ∧ pd_configurable d = Some false)
    ∧ (∀ a, a ≠ id → h_objects h' !! a = h_objects h !! a)
    ∧ ∃ o', h_objects h' !! id = Some o' ∧ same_storage (if b then remove_property key o else o) o'
      ∧ (b = true → own_property o' key = None ∧ pkey key ∉ pkey <$> o_order o').
Proof.
  destruct (delete_key_sound shared_bytes h id key F W) as (h0 & r0 & E0 & F0 & _).
  destruct (delete_key_spec shared_bytes h id o key F W E (plain_numeric h id o key E P) (pl_export _ _ P) Hn)
    as (h' & Er & K' & R). rewrite Er in E0. injection E0 as <- _.
  assert (unmap_property key (remove_property key o) = remove_property key o) as Eu.
  { pose proof (pl_mapped _ _ P) as Hm. unfold parameter_cell in Hm. unfold unmap_property.
    cbn [remove_property o_kind o_set_properties o_set_attributes o_set_order].
    destruct (o_kind o) eqn:Ek; try done. rewrite delete_id by done. unfold remove_property. destruct o; cbn in *. by rewrite Ek. }
  rewrite Eu in R. destruct (replaced_object _ _ _ _ R) as [(o' & E' & S') Hother].
  exists h', (deletable o key). split_and!; [done|done| |done|exists o'; split_and!; [done|done|]].
  - unfold deletable. rewrite (pl_virtual _ _ P), (pl_length _ _ P). cbn [negb andb]. rewrite !andb_true_r, negb_false_iff.
    destruct (o_attributes o !! pkey key) as [d|]; [rewrite bool_decide_eq_true|]; naive_solver.
  - intros Hb. rewrite Hb in *. assert (plain o' key) as P'.
    { apply (plain_kept o o'); [done|]. by rewrite (ss_kind _ _ S'). }
    split.
    + rewrite (plain_own o' key P'), (ss_properties _ _ S'). apply lookup_delete_eq.
    + rewrite (ss_order _ _ S'). cbn [remove_property o_order o_set_properties o_set_attributes o_set_order].
      rewrite remove_name_keys. by intros [? _]%list_elem_of_filter.
Qed.

(** C17. An array's length: a value that is not an integer in [u32] is an error that changes
    nothing; otherwise everything from the new length on goes and the length is the new one, or,
    when elements from there on are not configurable, everything above the topmost of them goes,
    the length is one more than its index, and the answer is the read-only error.  Properties
    below, names and symbols, and every other object stay. *)
Theorem set_array_length_exact h id o m value
  (F : full h) (E : h_objects h !! id = Some o) (Ek : o_kind o = KArray m) :
  ∃ h' r, set_array_length shared_bytes id value h = Ok (h', r) ∧ full h'
    ∧ (array_length_value value = None → h' = h ∧ r = HErr InvalidArrayLength)
    ∧ (∀ n, array_length_value value = Some n →
         (∀ a, a ≠ id → h_objects h' !! a = h_objects h !! a)
         ∧ ∃ o', h_objects h' !! id = Some o' ∧ length_change n o o' r).
Proof.
  destruct (set_array_length_spec shared_bytes h id value F) as (h' & r & Er & F' & H1 & H2 & _).
  exists h', r. split_and!; [done|done| |].
  - intros En. apply H2. intros n. congruence.
  - intros n En. destruct (H1 o m n E Ek En) as (o1 & R & Hc & _).
    destruct (replaced_object _ _ _ _ R) as [(o' & E' & S') Hother]. split; [done|]. exists o'. split; [done|].
    by eapply length_change_after.
Qed.

(** C18. Own keys: for an object of a reachable heap whose properties are stored (strings, typed
    arrays and namespaces aside), [own_property_keys] lists exactly the keys with an own property,
    once each: array indices in ascending order, then an array's length, then the other string
    keys and then the symbols, both in the order of their creation. *)
Theorem own_property_keys_exact config identity h id o
  (Hmax : (max_heap_bytes config <= USIZE_MAX)%N) (Hr : heap_reachable shared_bytes config identity h)
  (E : h_objects h !! id = Some o) (Hs : stored_keys o) :
  ∃ indices, let keys := indices ++ (match o_kind o with KArray _ => [length_name] | _ => [] end)
      ++ filter (λ key, string_key key = true) (o_order o) ++ filter (λ key, symbol_key key = true) (o_order o) in
    own_property_keys shared_bytes id h = Ok (h, HOk keys) ∧ NoDup (pkey <$> keys)
    ∧ (∀ key, pkey key ∈ pkey <$> keys ↔ is_Some (own_property o key))
    ∧ StronglySorted (λ a b, ∃ i j, array_index a = Some i ∧ array_index b = Some j ∧ (i < j)%N) indices
    ∧ ∀ key, key ∈ indices ↔ key ∈ o_order o ∧ is_Some (array_index key).
Proof.
  pose proof (reachable_full shared_bytes config identity h Hmax Hr) as [_ S]. pose proof (st_objects _ S id o E) as K.
  exists (sorted_indices o). cbv zeta. split_and!.
  - by apply own_keys_run.
  - by apply own_keys_nodup.
  - intros key. rewrite (own_property_some o key K Hs). by apply own_keys_elem.
  - by apply sorted_indices_ascend.
  - apply sorted_indices_elem.
Qed.
End props.

(** ** A concrete host *)
Definition sample_host : JsHost := {|
  Bytecode := unit; code_source_text := λ _, None; code_constructible := λ _, false;
  HostFunction := unit; host_has_construct := λ _, false;
  IntlData := unit; intl_bytes := λ _, 0%N; segment_records := λ _, 0%N;
  SharedBuffer := unit; DurationRecord := unit; bigint_bytes := λ _, 8%N; symbol_description := λ _, None;
  hasher := λ _, 0%N; OBJECT_BYTES := 64%N; PRIVATE_DATA_BYTES := 32%N; CLOSURE_METADATA_BYTES := 32%N;
  SZ_Value := 16%N; SZ_ObjectId := 16%N; SZ_PropertyName := 16%N; SZ_Property := 16%N; SZ_Attribute := 16%N;
  SZ_PrivateElement := 16%N; SZ_PrivateSlot := 16%N; SZ_MapEntry := 16%N; SZ_WeakEntry := 16%N;
  SZ_FinalizationCell := 16%N; SZ_ParameterEntry := 16%N; SZ_Export := 16%N; SZ_CaptureName := 16%N;
  SZ_TemporalValue := 16%N; SZ_AsyncRequest := 16%N; SZ_HandlerFrame := 16%N; SZ_PendingCompletion := 16%N;
  SZ_CompletionSave := 16%N; SZ_AsyncDelegate := 16%N; SZ_Delegate := 16%N |}.

Section sample.
#[local] Existing Instance sample_host.

Definition sample_config : HeapConfig := mkHeapConfig 2 256 1024.
Definition sample_id (n : N) : ObjectId := mkObjectId 1 n.

(** A rooted [Map] that holds a plain object, and a garbage object. *)
Definition sample_calls : list HeapCall :=
  [CallAlloc (KMap empty_collection) None; CallRoot (sample_id 1); CallAlloc Ordinary None;
   CallMapSet (sample_id 1) (VNumber f64_zero) (VObject (sample_id 2)); CallAlloc Ordinary None].

Definition no_shared (b : SharedBuffer) : list N := [].

Fixpoint run_calls (cs : list HeapCall) (h : Heap) : res Heap :=
  match cs with
  | [] => Ok h
  | c :: cs => r ← run_call no_shared c h; run_calls cs r.1
  end.

Definition after (h : Heap) (m : res Heap) : Heap := match m with Ok h => h | _ => h end.
Definition run_from (h : Heap) (cs : list HeapCall) : Heap := after h (run_calls cs h).
Definition empty_heap : Heap :=
  match new_heap sample_config 1 with
  | HOk (h, _) => h
  | HErr _ => mkHeap 0 0 0 sample_config ∅ ∅ [] ∅ ∅ [] 0 0 0 0 0 0
  end.
Definition sample_heap : Heap := run_from empty_heap sample_calls.

(** An array with two elements, a name, and a property that is not configurable. *)
Definition text_key (s : string) : PropertyName := PString (encode_utf16 (str s)).
Definition number (n : Z) : Value := VNumber (f64_of_Z n).
Definition fixed_property : PropertyDescriptor :=
  mkPropertyDescriptor (Some (number 7)) (Some true) None None (Some true) (Some false).
Definition table_calls : list HeapCall :=
  [CallAlloc (KArray 0) None; CallRoot (sample_id 1); CallSet (sample_id 1) (text_key "1") (number 5);
   CallSet (sample_id 1) (text_key "x") (number 3); CallSet (sample_id 1) (text_key "0") (number 4);
   CallDefine (sample_id 1) (text_key "y") fixed_property].
Definition table_heap : Heap := run_from empty_heap table_calls.


Lemma run_calls_reachable cs h h' :
  run_calls cs h = Ok h' → (∀ c h, c ∈ cs → call_ok h c) → rtc (heap_step no_shared) h h'.
Proof.
  revert h. induction cs as [|c cs IH]; intros h; cbn; [by intros [= <-]|].
  destruct (run_call no_shared c h) as [[h1 r]| |] eqn:E; cbn; try done. intros Hrun Hok.
  eapply rtc_l; [eapply heap_step_call; [apply Hok; constructor|exact E]|].
  apply IH; [done|]. intros. apply Hok. by constructor.
Qed.

Lemma fixed_safe h id : define_safe h id (text_key "y") fixed_property.
Proof. split; [done|]. intros o _. split; [by vm_compute|]. intros _. right. by left. Qed.

Lemma no_protected h : ∀ id, id ∈ ([] : list ObjectId) → present h id.
Proof. by intros id ?%elem_of_nil. Qed.

Ltac each_call Hc := repeat (apply elem_of_cons in Hc as [->|Hc]); try done; try (by apply elem_of_nil in Hc).

Lemma sample_reachable : heap_reachable no_shared sample_config 1 sample_heap.
Proof.
  eexists _, _. split; [reflexivity|]. apply (run_calls_reachable sample_calls); [by vm_compute|].
  intros c h Hc. each_call Hc; (split; [split|split]); try done; try (by intros b Hb; apply elem_of_nil in Hb); try (by vm_compute).
  intros h'. cbn. split; [apply wf_empty|]. by intros e He; apply elem_of_nil in He.
Qed.

Lemma table_reachable : heap_reachable no_shared sample_config 1 table_heap.
Proof.
  eexists _, _. split; [reflexivity|]. apply (run_calls_reachable table_calls); [by vm_compute|].
  intros c h Hc. each_call Hc; [|by apply fixed_safe].
  split; [split|split]; try done; try (by intros b Hb; apply elem_of_nil in Hb). intros n [= <-]. by vm_compute.
Qed.


Lemma sample_budget : (max_heap_bytes sample_config <= USIZE_MAX)%N.
Proof. by vm_compute. Qed.
Lemma sample_ok : heap_ok sample_heap.
Proof. apply (reachable_full no_shared sample_config 1 sample_heap sample_budget sample_reachable). Qed.
Lemma table_full : full table_heap.
Proof. exact (reachable_full no_shared sample_config 1 table_heap sample_budget table_reachable). Qed.

Definition has_object (h : Heap) (n : N) : bool := bool_decide (is_Some (h_objects h !! sample_id n)).
Definition object_at (h : Heap) (n : N) : Object := default (new_object Ordinary None 0) (h_objects h !! sample_id n).
Definition table : Object := object_at table_heap 1.

Lemma table_at : h_objects table_heap !! sample_id 1 = Some table.
Proof. by vm_compute. Qed.
Lemma table_plain s : is_array_length table (text_key s) = false → plain table (text_key s).
Proof. intros Hl. split; try done; by vm_compute. Qed.

(** The map and its value survive, the garbage object does not. *)
Lemma major_gc_exact_witness :
  (∃ h' dead, major_gc [] sample_heap = Ok h' ∧ heap_ok h'
    ∧ (∀ id, present h' id ↔ strong sample_heap [] id)
    ∧ (∀ id, present sample_heap id → dead id = false ↔ strong sample_heap [] id)
    ∧ (∀ id o', h_objects h' !! id = Some o' →
         ∃ o, h_objects sample_heap !! id = Some o ∧ o' = o_set_young false (sweep_object dead o)))
  ∧ has_object sample_heap 3 = true
  ∧ has_object (after sample_heap (major_gc [] sample_heap)) 2 = true
  ∧ has_object (after sample_heap (major_gc [] sample_heap)) 3 = false.
Proof.
  split; [exact (major_gc_exact sample_heap [] sample_ok (no_protected sample_heap))|].
  vm_compute. done.
Defined.

Lemma minor_gc_safe_witness :
  (∃ h', minor_gc [] sample_heap = Ok h' ∧ heap_ok h'
    ∧ (∀ id, strong sample_heap [] id ∨ old sample_heap id → present h' id)
    ∧ (∀ id, present sample_heap id → ¬ present h' id → young sample_heap id ∧ ¬ strong sample_heap [] id)
    ∧ (∀ id, ¬ young h' id))
  ∧ has_object (after sample_heap (minor_gc [] sample_heap)) 1 = true
  ∧ has_object (after sample_heap (minor_gc [] sample_heap)) 3 = false.
Proof.
  split; [exact (minor_gc_safe sample_heap [] sample_ok (no_protected sample_heap))|].
  vm_compute. done.
Defined.




Definition answer {A} (m : res (Heap * hresult A)) : option A :=
  match m with Ok (_, HOk a) => Some a | _ => None end.

Lemma set_read_back_witness :
  (∃ h' r, set no_shared (sample_id 1) (text_key "x") (number 9) table_heap = Ok (h', r) ∧ full h' ∧
    ((r = HOk () ∧ read_only table (text_key "x") = false
      ∧ get no_shared (sample_id 1) (text_key "x") h' = Ok (h', HOk (number 9))
      ∧ others_kept (sample_id 1) (text_key "x") table_heap h')
     ∨ ((∃ e, r = HErr e) ∧ keeps_heap table_heap h'
        ∧ (read_only table (text_key "x") = true → r = HErr ReadOnlyProperty ∧ h' = table_heap))))
  ∧ answer (set no_shared (sample_id 1) (text_key "x") (number 9) table_heap) = Some ().
Proof.
  split; [|by vm_compute].
  apply (set_read_back no_shared table_heap (sample_id 1) table (text_key "x") (number 9) table_full);
    [done|exact table_at|by apply table_plain; vm_compute].
Defined.



Lemma delete_key_exact_witness :
  (∃ h' b, delete_key no_shared (sample_id 1) (text_key "x") table_heap = Ok (h', HOk b) ∧ full h'
    ∧ (b = false ↔ ∃ d, o_attributes table !! pkey (text_key "x") = Some d ∧ pd_configurable d = Some false)
    ∧ (∀ a, a ≠ sample_id 1 → h_objects h' !! a = h_objects table_heap !! a)
    ∧ ∃ o', h_objects h' !! sample_id 1 = Some o'
      ∧ same_storage (if b then remove_property (text_key "x") table else table) o'
      ∧ (b = true → own_property o' (text_key "x") = None ∧ pkey (text_key "x") ∉ pkey <$> o_order o'))
  ∧ answer (delete_key no_shared (sample_id 1) (text_key "x") table_heap) = Some true
  ∧ answer (delete_key no_shared (sample_id 1) (text_key "y") table_heap) = Some false.
Proof.
  split; [|by vm_compute].
  apply (delete_key_exact no_shared table_heap (sample_id 1) table (text_key "x") table_full);
    [done|exact table_at|by apply table_plain; vm_compute|by vm_compute].
Defined.

Lemma set_array_length_exact_witness :
  (∃ h' r, set_array_length no_shared (sample_id 1) (number 1) table_heap = Ok (h', r) ∧ full h'
    ∧ (array_length_value (number 1) = None → h' = table_heap ∧ r = HErr InvalidArrayLength)
    ∧ (∀ n, array_length_value (number 1) = Some n →
         (∀ a, a ≠ sample_id 1 → h_objects h' !! a = h_objects table_heap !! a)
         ∧ ∃ o', h_objects h' !! sample_id 1 = Some o' ∧ length_change n table o' r))
  ∧ answer (set_array_length no_shared (sample_id 1) (number 1) table_heap) = Some ()
  ∧ array_length_value (number 1) = Some 1%N.
Proof.
  split; [|by vm_compute].
  apply (set_array_length_exact no_shared table_heap (sample_id 1) table 2 (number 1) table_full);
    [exact table_at|by vm_compute].
Defined.

(** Indices ascend although "1" was assigned first. *)
Lemma own_property_keys_exact_witness :
  (∃ indices, let keys := indices ++ (match o_kind table with KArray _ => [length_name] | _ => [] end)
      ++ filter (λ key, string_key key = true) (o_order table) ++ filter (λ key, symbol_key key = true) (o_order table) in
    own_property_keys no_shared (sample_id 1) table_heap = Ok (table_heap, HOk keys) ∧ NoDup (pkey <$> keys)
    ∧ (∀ key, pkey key ∈ pkey <$> keys ↔ is_Some (own_property table key))
    ∧ StronglySorted (λ a b, ∃ i j, array_index a = Some i ∧ array_index b = Some j ∧ (i < j)%N) indices
    ∧ ∀ key, key ∈ indices ↔ key ∈ o_order table ∧ is_Some (array_index key))
  ∧ answer (own_property_keys no_shared (sample_id 1) table_heap)
    = Some [text_key "0"; text_key "1"; text_key "length"; text_key "x"; text_key "y"].
Proof.
  split; [|by vm_compute].
  apply (own_property_keys_exact no_shared sample_config 1 table_heap (sample_id 1) table sample_budget table_reachable table_at).
  by vm_compute.
Defined.
End sample.
