(* ===== verification/TemporalDate.v ===== *)
(** * The ISO calendar (vm/temporal/epoch.rs, plain_date/iso_date.rs, calendar_difference.rs, iso.rs)

    Dates of the proleptic Gregorian calendar as day numbers and epoch nanoseconds: the
    conversions in both directions, the ranges of Temporal, week dates, the addition of calendar
    durations and the difference of two dates.  Integers are [Z]; a cast wraps ([as_u8], [as_i32]),
    an [i64] or [i32] operation whose result could leave the type is checked ([i64c], [i32c]), and
    the others stay inside it for every [i32] year ([epoch_days_bounds]).  [/] on signed integers
    truncates ([÷]), [div_euclid] by a positive number is [/]. *)

From S2P Require Import Prelude.
Local Open Scope Z_scope.

(** ** Machine integers *)
Definition I32_MIN : Z := -2147483648.
Definition I32_MAX : Z := 2147483647.
Definition I64_MIN : Z := -9223372036854775808.
Definition I64_MAX : Z := 9223372036854775807.
Definition in_i32 (z : Z) : bool := (I32_MIN <=? z) && (z <=? I32_MAX).
Definition in_i64 (z : Z) : bool := (I64_MIN <=? z) && (z <=? I64_MAX).

(** A checked operation: an overflow panics. *)
Definition i32c (z : Z) : res Z := if in_i32 z then Ok z else Panic.
Definition i64c (z : Z) : res Z := if in_i64 z then Ok z else Panic.

(** [as] casts wrap. *)
Definition as_u8 (z : Z) : Z := z mod 256.
Definition as_u16 (z : Z) : Z := z mod 65536.
Definition as_i32 (z : Z) : Z := (z + 2147483648) mod 4294967296 - 2147483648.
Definition bool_Z (b : bool) : Z := if b then 1 else 0.

(** ** Dates and day numbers *)
Definition CivilDate : Type := Z * Z * Z.
Definition CivilTime : Type := Z * Z * Z * Z * Z * Z.

Definition is_iso_leap_year (year : Z) : bool :=
  ((Z.rem year 4 =? 0) && negb (Z.rem year 100 =? 0)) || (Z.rem year 400 =? 0).
Definition is_leap_year (year : Z) : bool :=
  (year mod 4 =? 0) && (negb (year mod 100 =? 0) || (year mod 400 =? 0)).

(** [1 | 3 | 5 | 7 | 8 | 10 | 12] and [4 | 6 | 9 | 11] *)
Definition long_month (month : Z) : bool := existsb (Z.eqb month) [1; 3; 5; 7; 8; 10; 12].
Definition short_month (month : Z) : bool := existsb (Z.eqb month) [4; 6; 9; 11].

Definition iso_days_in_month (year month : Z) : res Z :=
  if long_month month then Ok 31
  else if short_month month then Ok 30
  else if month =? 2 then Ok (if is_iso_leap_year year then 29 else 28)
  else Panic.
Definition days_in_month (year month : Z) : option Z :=
  if long_month month then Some 31
  else if short_month month then Some 30
  else if month =? 2 then Some (if is_leap_year year then 29 else 28)
  else None.
Definition is_valid_date (year month day : Z) : bool :=
  (1 <=? day) && match days_in_month year month with Some last => day <=? last | None => false end.
Definition is_year_month_within_limits (year month : Z) : bool :=
  if year =? -271821 then 4 <=? month
  else if year =? 275760 then month <=? 9
  else (-271821 <=? year) && (year <=? 275760).

Definition iso_date_to_epoch_days (date : CivilDate) : Z :=
  let '(year, month, day) := date in
  let adjusted_year := year - bool_Z (month <=? 2) in
  let era := adjusted_year / 400 in
  let year_of_era := adjusted_year - era * 400 in
  let march_month := month + (if 2 <? month then -3 else 9) in
  let day_of_year := (153 * march_month + 2) ÷ 5 + day - 1 in
  let day_of_era := year_of_era * 365 + year_of_era ÷ 4 - year_of_era ÷ 100 + day_of_year in
  era * 146097 + day_of_era - 719468.

(** The date of a day counted from 0000-03-01. *)
Definition civil_from_days (z : Z) : CivilDate :=
  let era := z / 146097 in
  let day_of_era := z mod 146097 in
  let year_of_era :=
    (day_of_era - day_of_era ÷ 1460 + day_of_era ÷ 36524 - day_of_era ÷ 146096) ÷ 365 in
  let year := year_of_era + era * 400 in
  let day_of_year := day_of_era - (365 * year_of_era + year_of_era ÷ 4 - year_of_era ÷ 100) in
  let month_prime := (5 * day_of_year + 2) ÷ 153 in
  let day := as_u8 (day_of_year - (153 * month_prime + 2) ÷ 5 + 1) in
  let month := as_u8 (if month_prime <? 10 then month_prime + 3 else month_prime - 9) in
  (as_i32 (if month <=? 2 then year + 1 else year), month, day).
Definition epoch_days_to_iso_date (days : Z) : res CivilDate :=
  z ← i64c (days + 719468); mret (civil_from_days z).

(** ** Instants *)
Definition NS_PER_DAY : Z := 86400000000000.
(** The source repeats the day calculations of [iso_date_to_epoch_days] and [civil_from_days] word
    for word in the two conversions below. *)
Definition nanoseconds_since_epoch (date : CivilDate) (time : CivilTime) (offset_seconds : Z) : Z :=
  let '(hour, minute, second, millisecond, microsecond, nanosecond) := time in
  let days := iso_date_to_epoch_days date in
  let milliseconds :=
    days * 86400000 + hour * 3600000 + minute * 60000 + second * 1000 + millisecond in
  milliseconds * 1000000 + microsecond * 1000 + nanosecond - offset_seconds * 1000000000.

Definition INSTANT_LIMIT : Z := 8640000000000000 * 1000000.
Definition is_in_instant_range (value : Z) : bool :=
  (- INSTANT_LIMIT <=? value) && (value <=? INSTANT_LIMIT).
Definition is_date_time_within_limits (date : CivilDate) (time : CivilTime) : bool :=
  let value := nanoseconds_since_epoch date time 0 in
  (- INSTANT_LIMIT - NS_PER_DAY <? value) && (value <? INSTANT_LIMIT + NS_PER_DAY).
Definition is_date_within_limits (date : CivilDate) : bool :=
  is_date_time_within_limits date (12, 0, 0, 0, 0, 0).

Definition time_of_day (ns_of_day : Z) : CivilTime :=
  (as_u8 (ns_of_day ÷ 3600000000000), as_u8 (Z.rem (ns_of_day ÷ 60000000000) 60),
   as_u8 (Z.rem (ns_of_day ÷ 1000000000) 60), as_u16 (Z.rem (ns_of_day ÷ 1000000) 1000),
   as_u16 (Z.rem (ns_of_day ÷ 1000) 1000), as_u16 (Z.rem ns_of_day 1000)).
Definition instant_fields (value : Z) : res (CivilDate * CivilTime) :=
  let days := value ÷ NS_PER_DAY in
  let ns_of_day := Z.rem value NS_PER_DAY in
  let '(days, ns_of_day) :=
    if ns_of_day <? 0 then (days - 1, ns_of_day + NS_PER_DAY) else (days, ns_of_day) in
  days ← i64c days;
  ns_of_day ← i64c ns_of_day;
  z ← i64c (days + 719468);
  mret (civil_from_days z, time_of_day ns_of_day).

(** ** Week dates *)
Definition iso_day_of_week (date : CivilDate) : Z :=
  as_u8 ((iso_date_to_epoch_days date mod 7 + 3) mod 7) + 1.
Definition iso_day_of_year (date : CivilDate) : Z :=
  as_u16 (iso_date_to_epoch_days date - iso_date_to_epoch_days (date.1.1, 1, 1) + 1).
(** The closure [p] of [iso_weeks_in_year]. *)
Definition year_parity (y : Z) : Z := (y + y / 4 - y / 100 + y / 400) mod 7.
Definition iso_weeks_in_year (year : Z) : Z :=
  if (year_parity year =? 4) || (year_parity (year - 1) =? 3) then 53 else 52.
Definition iso_week_of_year (date : CivilDate) : res (Z * Z) :=
  let year := date.1.1 in
  let week := (iso_day_of_year date - iso_day_of_week date + 10) / 7 in
  if week <? 1 then y ← i32c (year - 1); mret (iso_weeks_in_year y, y)
  else if iso_weeks_in_year year <? week then y ← i32c (year + 1); mret (1, y)
  else mret (as_u8 week, year).

(** ** Arithmetic on dates *)
(** Tuples are ordered lexicographically. *)
Definition compare_date_tuple (a b : Z * Z * Z) : comparison :=
  let '(y1, m1, d1) := a in
  let '(y2, m2, d2) := b in
  match y1 ?= y2 with
  | Eq => match m1 ?= m2 with Eq => d1 ?= d2 | c => c end
  | c => c
  end.
Definition compare_iso_date (a b : CivilDate) : comparison := compare_date_tuple a b.
Definition surpasses (sign : Z) (one two : Z * Z * Z) : bool :=
  let cmp := match compare_date_tuple one two with Lt => -1 | Eq => 0 | Gt => 1 end in
  0 <? cmp * sign.

Definition balance_iso_year_month (year month : Z) : res (Z * Z) :=
  zero_based ← i64c (month - 1);
  carried_year ← i64c (year + zero_based / 12);
  mret (carried_year, as_u8 (zero_based mod 12 + 1)).

Definition regulate_iso_date (year month day : Z) (reject : bool) : res (option CivilDate) :=
  max ← iso_days_in_month year month;
  mret (if reject
        then if (1 <=? day) && (day <=? max) then Some (year, month, as_u8 day) else None
        else Some (year, month, as_u8 (Z.max 1 (Z.min day max)))).

Definition balance_iso_date (year month day : Z) : res CivilDate :=
  let start_of_month := iso_date_to_epoch_days (year, month, 1) in
  sum ← i64c (start_of_month + day);
  days ← i64c (sum - 1);
  epoch_days_to_iso_date days.

Definition add_iso_date (date : CivilDate) (years months weeks days : Z) (reject : bool)
  : res (option CivilDate) :=
  let '(y, m, d) := date in
  year ← i64c (y + years);
  month ← i64c (m + months);
  ym ← balance_iso_year_month year month;
  if negb (in_i32 ym.1) then mret None else
  regulated ← regulate_iso_date ym.1 ym.2 d reject;
  match regulated with
  | None => mret None
  | Some (year, month, day) =>
      sum ← i64c (day + days);
      from_weeks ← i64c (weeks * 7);
      offset ← i64c (sum + from_weeks);
      Some <$> balance_iso_date year month offset
  end.

(** ** The difference of two dates *)
Inductive DateUnit := Year | Month | Week | Day.
#[export] Instance DateUnit_eq_dec : EqDecision DateUnit.
Proof. solve_decision. Defined.
Definition is_year_or_month (unit : DateUnit) : bool :=
  match unit with Year | Month => true | _ => false end.

(** [i32::try_from(by).unwrap_or(..)] *)
Definition clamp_year (by_ : Z) : Z :=
  if in_i32 by_ then by_ else if 0 <? by_ then I32_MAX else I32_MIN.

(** The differences of fields below stay far inside [i64] for [i32] years and [u8] months. *)
Definition difference_iso_date (start end_ : CivilDate) (largest_unit : DateUnit)
  : res (Z * Z * Z * Z) :=
  match compare_iso_date start end_ with
  | Eq => mret (0, 0, 0, 0)
  | c =>
      let sign := match c with Lt => 1 | _ => -1 end in
      if negb (is_year_or_month largest_unit) then
        let days := iso_date_to_epoch_days end_ - iso_date_to_epoch_days start in
        mret (if decide (largest_unit = Week) then (0, 0, days ÷ 7, Z.rem days 7)
              else (0, 0, 0, days))
      else
        let '(y1, m1, d1) := start in
        let years := end_.1.1 - y1 in
        let months := end_.1.2 - m1 in
        let '(years, months) :=
          if surpasses sign (y1 + years, m1, d1) end_
          then (years - sign, months + 12 * sign) else (years, months) in
        i ← balance_iso_year_month (y1 + years) (m1 + months);
        let months := if surpasses sign (i.1, i.2, d1) end_ then months - sign else months in
        let '(years, months) :=
          if decide (largest_unit = Month) then (0, months + years * 12) else (years, months) in
        b ← balance_iso_year_month (y1 + years) (m1 + months);
        regulated ← regulate_iso_date (clamp_year b.1) b.2 d1 false;
        constrained ← unwrap regulated;
        mret (years, months, 0,
              iso_date_to_epoch_days end_ - iso_date_to_epoch_days constrained)
  end.

(** ** Examples of the sources' tests *)
Example ex_epoch : nanoseconds_since_epoch (1970, 1, 1) (0, 0, 0, 0, 0, 0) 0 = 0.
Proof. reflexivity. Qed.
Example ex_offset : nanoseconds_since_epoch (1970, 1, 1) (1, 0, 0, 0, 0, 1) 3600 = 1.
Proof. reflexivity. Qed.
Example ex_add_month : add_iso_date (2019, 1, 31) 0 1 0 0 false = Ok (Some (2019, 2, 28)).
Proof. reflexivity. Qed.
Example ex_wrap_end_of_month :
  difference_iso_date (2019, 1, 29) (2019, 2, 28) Month = Ok (0, 0, 0, 30) ∧
  difference_iso_date (2019, 2, 28) (2019, 1, 29) Month = Ok (0, 0, 0, -30).
Proof. split; reflexivity. Qed.
Example ex_week : iso_week_of_year (2021, 1, 3) = Ok (53, 2020).
Proof. reflexivity. Qed.

(** ** Arithmetic of the day numbers *)
(** Linear arithmetic with divisions. *)
Ltac zlia := Z.to_euclidean_division_equations; lia.

Lemma bool_Z_bounds b : 0 <= bool_Z b <= 1.
Proof. destruct b; unfold bool_Z; lia. Qed.

(** Days before the year that starts on 1 March of [y], counted from 1 March of year 0. *)
Definition march_days (y : Z) : Z := 365 * y + y / 4 - y / 100 + y / 400.

Lemma march_days_era c r : 0 <= r < 400 →
  march_days (400 * c + r) = 146097 * c + (365 * r + r / 4 - r / 100).
Proof. intros. unfold march_days. zlia. Qed.

Lemma epoch_days_march y m d : 1 <= m <= 12 →
  iso_date_to_epoch_days (y, m, d) =
  march_days (y - bool_Z (m <=? 2)) + (153 * ((m + 9) mod 12) + 2) / 5 + d - 1 - 719468.
Proof.
  intros Hm. unfold iso_date_to_epoch_days.
  set (a := y - bool_Z (m <=? 2)).
  pose proof (march_days_era (a / 400) (a mod 400) ltac:(apply Z.mod_pos_bound; lia)) as Hera.
  rewrite <- Z.div_mod in Hera by lia. rewrite Hera. clear Hera.
  replace (a - a / 400 * 400) with (a mod 400) by zlia.
  assert (Hq : (m + (if 2 <? m then -3 else 9)) = (m + 9) mod 12)
    by (destruct (Z.ltb_spec 2 m); zlia).
  rewrite Hq. assert (0 <= a mod 400 < 400) by (apply Z.mod_pos_bound; lia).
  assert (0 <= (m + 9) mod 12) by (apply Z.mod_pos_bound; lia).
  rewrite !Z.quot_div_nonneg by lia. lia.
Qed.

Lemma year_of_era_bounds r : 0 <= r < 146097 →
  let y := (r - r / 1460 + r / 36524 - r / 146096) / 365 in
  0 <= y < 400 ∧ 365 * y + y / 4 - y / 100 <= r ∧
  (y < 399 → r < 365 * (y + 1) + (y + 1) / 4 - (y + 1) / 100).
Proof.
  intros Hr y. subst y.
  zlia.
Qed.

Lemma is_leap_march y : march_days y - march_days (y - 1) = 365 + bool_Z (is_leap_year y).
Proof.
  unfold march_days, is_leap_year.
  destruct (Z.eqb_spec (y mod 4) 0), (Z.eqb_spec (y mod 100) 0), (Z.eqb_spec (y mod 400) 0);
    cbn [bool_Z andb orb negb]; zlia.
Qed.

Lemma leap_years_agree y : is_iso_leap_year y = is_leap_year y.
Proof.
  unfold is_iso_leap_year, is_leap_year.
  assert (Hr : ∀ k, 0 < k → (Z.rem y k =? 0) = (y mod k =? 0))
    by (intros k Hk; apply Bool.eq_iff_eq_true; rewrite !Z.eqb_eq;
        pose proof (Z.quot_rem' y k); pose proof (Z.div_mod y k ltac:(lia)); 
        rewrite <- Z.rem_mod_eq_0 by lia; done).
  rewrite !Hr by lia.
  destruct (Z.eqb_spec (y mod 4) 0), (Z.eqb_spec (y mod 100) 0), (Z.eqb_spec (y mod 400) 0); try done; zlia.
Qed.

(** The month of a date, counted from March, and the days before it. *)
Definition month_prime (m : Z) : Z := (m + 9) mod 12.
Definition month_start (mp : Z) : Z := (153 * mp + 2) / 5.

Ltac eval_months :=
  repeat match goal with
  | |- context [month_start ?t] =>
      let v := eval vm_compute in (month_start t) in change (month_start t) with v
  | H : context [month_start ?t] |- _ =>
      let v := eval vm_compute in (month_start t) in change (month_start t) with v in H
  | |- context [Z.add (Zpos ?p) (Zpos ?q)] =>
      let v := eval vm_compute in (Z.add (Zpos p) (Zpos q)) in change (Z.add (Zpos p) (Zpos q)) with v
  | |- context [month_prime ?t] =>
      let v := eval vm_compute in (month_prime t) in change (month_prime t) with v
  end.
Ltac months m :=
  assert (m = 1 ∨ m = 2 ∨ m = 3 ∨ m = 4 ∨ m = 5 ∨ m = 6 ∨ m = 7 ∨ m = 8 ∨ m = 9 ∨ m = 10 ∨
          m = 11 ∨ m = 12) as Hmonth by lia;
  destruct Hmonth as [->|[->|[->|[->|[->|[->|[->|[->|[->|[->|[-> | ->]]]]]]]]]]].

Lemma days_in_month_Some y m n : days_in_month y m = Some n ↔
  1 <= m <= 12 ∧
  n = (if m =? 2 then 28 + bool_Z (is_leap_year y)
       else month_start (month_prime m + 1) - month_start (month_prime m)).
Proof.
  unfold days_in_month, long_month, short_month. split.
  - intros Hd. assert (1 <= m <= 12) as Hm.
    { destruct (existsb _ [1; _; _; _; _; _; _]) eqn:E1; [apply existsb_exists in E1 as (x & Hx & He%Z.eqb_eq); cbn in Hx; lia|].
      destruct (existsb _ [4; _; _; _]) eqn:E2; [apply existsb_exists in E2 as (x & Hx & He%Z.eqb_eq); cbn in Hx; lia|].
      destruct (Z.eqb_spec m 2); [lia|done]. }
    split; [done|]. months m; cbn in Hd; injection Hd as <-; try reflexivity.
    by destruct (is_leap_year y).
  - intros [Hm ->]. months m; try reflexivity. cbn. by destruct (is_leap_year y).
Qed.
Lemma iso_days_in_month_eq y m n : days_in_month y m = Some n → iso_days_in_month y m = Ok n.
Proof.
  unfold days_in_month, iso_days_in_month. rewrite leap_years_agree.
  destruct (long_month m), (short_month m), (m =? 2); naive_solver.
Qed.

Definition valid (date : CivilDate) : Prop := is_valid_date date.1.1 date.1.2 date.2 = true.
Lemma valid_spec y m d : valid (y, m, d) ↔
  1 <= m <= 12 ∧ 1 <= d ∧
  d <= (if m =? 2 then 28 + bool_Z (is_leap_year y)
       else month_start (month_prime m + 1) - month_start (month_prime m)).
Proof.
  unfold valid, is_valid_date. cbn [fst snd].
  rewrite andb_true_iff, Z.leb_le.
  destruct (days_in_month y m) eqn:E.
  - apply days_in_month_Some in E as [Hm ->]. rewrite Z.leb_le. tauto.
  - split; [naive_solver|]. intros (Hm & _ & _).
    pose proof (proj2 (days_in_month_Some y m _) (conj Hm eq_refl)). congruence.
Qed.

(** The day number of a valid date, as the year from 1 March and the day in it. *)
Definition day_of_march_year (m d : Z) : Z := month_start (month_prime m) + d - 1.
Lemma day_of_march_year_bounds y m d : valid (y, m, d) →
  let y' := y - bool_Z (m <=? 2) in
  0 <= day_of_march_year m d < march_days (y' + 1) - march_days y'.
Proof.
  intros (Hm & Hd & Hl)%valid_spec y'. unfold day_of_march_year, y'.
  pose proof (is_leap_march (y - bool_Z (m <=? 2) + 1)) as HL.
  replace (y - bool_Z (m <=? 2) + 1 - 1) with (y - bool_Z (m <=? 2)) in HL by lia.
  rewrite HL. pose proof (bool_Z_bounds (is_leap_year (y - bool_Z (m <=? 2) + 1))).
  months m; cbn -[is_leap_year] in *.
  all: replace (y - 1 + 1) with y in * by lia; eval_months; lia.
Qed.
Lemma epoch_days_split y m d : 1 <= m <= 12 →
  iso_date_to_epoch_days (y, m, d) + 719468 =
  march_days (y - bool_Z (m <=? 2)) + day_of_march_year m d.
Proof. intros. rewrite epoch_days_march by done. unfold day_of_march_year, month_start, month_prime. lia. Qed.

Lemma march_days_mono a b : a <= b → march_days a <= march_days b.
Proof. intros. unfold march_days. zlia. Qed.

(** ** The calendar is read back *)
Lemma civil_from_days_split z y mp d :
  0 <= mp <= 11 → 1 <= d <= 31 → (5 * (month_start mp + d - 1) + 2) / 153 = mp →
  march_days y <= z < march_days (y + 1) → z = march_days y + (month_start mp + d - 1) →
  civil_from_days z =
  (as_i32 (if mp <? 10 then y else y + 1), if mp <? 10 then mp + 3 else mp - 9, d).
Proof.
  intros Hmp Hd Hrec Hz Heq. unfold civil_from_days.
  set (c := y / 400). set (r := y mod 400).
  assert (Hr : 0 <= r < 400) by (apply Z.mod_pos_bound; lia).
  assert (Hy : y = 400 * c + r) by (apply Z.div_mod; lia).
  pose proof (march_days_era c r Hr) as He. rewrite <- Hy in He.
  assert (He1 : march_days (y + 1) <= 146097 * c + (if r =? 399 then 146097 else 365 * (r + 1) + (r + 1) / 4 - (r + 1) / 100)).
  { destruct (Z.eqb_spec r 399).
    - replace (y + 1) with (400 * (c + 1) + 0) by lia. rewrite march_days_era by lia. zlia.
    - replace (y + 1) with (400 * c + (r + 1)) by lia. rewrite march_days_era by lia. lia. }
  assert (Hf : 0 <= z - 146097 * c < 146097).
  { split; [zlia|]. destruct (Z.eqb_spec r 399); zlia. }
  assert (Hc : z / 146097 = c) by zlia.
  assert (Hm : z mod 146097 = z - 146097 * c) by zlia.
  rewrite Hc, Hm.
  pose proof (year_of_era_bounds (z - 146097 * c) Hf) as (Hb & Hlo & Hhi).
  rewrite !(Z.quot_div_nonneg (z - 146097 * c)) by lia.
  rewrite (Z.quot_div_nonneg _ 365) by zlia.
  set (yoe := (z - 146097 * c - _ + _ - _) / 365) in *.
  assert (Hyoe : yoe = r).
  { destruct (Z.lt_trichotomy yoe r) as [Hl|[?|Hl]]; [|done|]; exfalso.
    - specialize (Hhi ltac:(lia)). clear -Hl Hhi Hz He. zlia.
    - destruct (Z.eqb_spec r 399); [lia|]. clear -Hl Hlo Hz He1. zlia. }
  rewrite Hyoe in *. clearbody yoe. subst yoe.
  rewrite !(Z.quot_div_nonneg r) by lia.
  replace (z - 146097 * c - (365 * r + r / 4 - r / 100)) with (month_start mp + d - 1) by lia.
  rewrite (Z.quot_div_nonneg (5 * _ + 2)) by (unfold month_start in *; zlia).
  rewrite Hrec. rewrite Z.quot_div_nonneg by lia. fold (month_start mp).
  replace (month_start mp + d - 1 - month_start mp + 1) with d by lia.
  unfold as_u8. rewrite (Z.mod_small d) by lia.
  rewrite (Z.mod_small (if mp <? 10 then mp + 3 else mp - 9)) by (destruct (Z.ltb_spec mp 10); lia).
  f_equal. f_equal. destruct (Z.ltb_spec mp 10).
  - rewrite (proj2 (Z.leb_gt (mp + 3) 2)) by lia. f_equal. lia.
  - rewrite (proj2 (Z.leb_le (mp - 9) 2)) by lia. f_equal. lia.
Qed.

Lemma civil_from_epoch_days y m d : valid (y, m, d) →
  civil_from_days (iso_date_to_epoch_days (y, m, d) + 719468) = (as_i32 y, m, d).
Proof.
  intros Hv. pose proof (proj1 (valid_spec _ _ _) Hv) as (Hm & Hd & Hl).
  pose proof (day_of_march_year_bounds _ _ _ Hv) as Hb. cbn zeta in Hb.
  pose proof (bool_Z_bounds (is_leap_year y)).
  rewrite epoch_days_split by done. unfold day_of_march_year in *.
  rewrite (civil_from_days_split _ (y - bool_Z (m <=? 2)) (month_prime m) d); [|months m; cbn -[is_leap_year] in *; eval_months; zlia..|lia|lia].
  months m; eval_months; cbn -[as_i32 is_leap_year]; do 3 f_equal; lia.
Qed.

Lemma month_of_day r : 0 <= r < 366 →
  let mp := (5 * r + 2) / 153 in
  0 <= mp <= 11 ∧ month_start mp <= r ∧ (mp < 11 → r < month_start (mp + 1)).
Proof. intros Hr mp. subst mp. unfold month_start. zlia. Qed.

Lemma march_days_year z : ∃ y, march_days y <= z < march_days (y + 1).
Proof.
  pose proof (year_of_era_bounds (z mod 146097) ltac:(apply Z.mod_pos_bound; lia)) as (Hb & Hlo & Hhi).
  set (r := (_ - _ + _ - _) / 365) in *. clearbody r.
  exists (400 * (z / 146097) + r).
  rewrite march_days_era by done.
  pose proof (Z.div_mod z 146097 ltac:(lia)). pose proof (Z.mod_pos_bound z 146097 ltac:(lia)).
  split; [lia|].
  destruct (decide (r = 399)) as [->|].
  - replace (400 * (z / 146097) + 399 + 1) with (400 * (z / 146097 + 1) + 0) by lia.
    rewrite march_days_era by lia. change (0 / 4) with 0. change (0 / 100) with 0. lia.
  - replace (400 * (z / 146097) + r + 1) with (400 * (z / 146097) + (r + 1)) by lia.
    rewrite march_days_era by lia. specialize (Hhi ltac:(lia)). lia.
Qed.

Lemma every_day_has_date z : ∃ date, valid date ∧ iso_date_to_epoch_days date = z.
Proof.
  destruct (march_days_year (z + 719468)) as (y & Hlo & Hhi).
  pose proof (is_leap_march (y + 1)) as HL. replace (y + 1 - 1) with y in HL by lia.
  pose proof (bool_Z_bounds (is_leap_year (y + 1))).
  pose proof (month_of_day (z + 719468 - march_days y) ltac:(lia)) as (Hmp & Hm1 & Hm2).
  set (mp := (_ + 2) / 153) in *. clearbody mp.
  set (m := if mp <? 10 then mp + 3 else mp - 9).
  set (y' := if mp <? 10 then y else y + 1).
  remember (z + 719468 - march_days y - month_start mp + 1) as d eqn:Hd.
  assert (1 <= m <= 12 ∧ month_prime m = mp ∧ y' - bool_Z (m <=? 2) = y ∧ (m = 2 ↔ mp = 11)) as (Hm & Hp & Hy & H2).
  { unfold m, y', month_prime. clear -Hmp. destruct (Z.ltb_spec mp 10).
    - rewrite (proj2 (Z.leb_gt (mp + 3) 2)) by lia. unfold bool_Z. split_and!; zlia.
    - rewrite (proj2 (Z.leb_le (mp - 9) 2)) by lia. unfold bool_Z. split_and!; zlia. }
  exists (y', m, d). split.
  - apply valid_spec. split; [done|split; [lia|]].
    rewrite Hp. destruct (Z.eqb_spec m 2) as [Em|Em].
    + assert (y' = y + 1) as -> by (rewrite Em in Hy; unfold bool_Z in Hy; cbn in Hy; lia).
      rewrite (proj1 H2 Em) in Hd. eval_months. lia.
    + specialize (Hm2 ltac:(lia)). lia.
  - enough (iso_date_to_epoch_days (y', m, d) + 719468 = z + 719468) by lia.
    rewrite epoch_days_split by done. unfold day_of_march_year. rewrite Hp, Hy. lia.
Qed.

(** ** The next day *)
Definition next_date (date : CivilDate) : CivilDate :=
  let '(y, m, d) := date in
  match days_in_month y m with
  | Some last => if d <? last then (y, m, d + 1) else if m <? 12 then (y, m + 1, 1) else (y + 1, 1, 1)
  | None => date
  end.

Lemma next_date_spec date : valid date →
  valid (next_date date) ∧
  iso_date_to_epoch_days (next_date date) = iso_date_to_epoch_days date + 1.
Proof.
  destruct date as [[y m] d]. intros Hv. pose proof (proj1 (valid_spec _ _ _) Hv) as (Hm & Hd & Hl).
  unfold next_date. rewrite (proj2 (days_in_month_Some y m _) (conj Hm eq_refl)).
  destruct (Z.ltb_spec d (if m =? 2 then 28 + bool_Z (is_leap_year y)
       else month_start (month_prime m + 1) - month_start (month_prime m))) as [Hlt|Hge].
  - split; [apply valid_spec; lia|]. rewrite !epoch_days_march by done. lia.
  - set (n := if m =? 2 then _ else _) in *. assert (d = n) as -> by lia. clear Hl Hge.
    pose proof (is_leap_march y) as HL. pose proof (bool_Z_bounds (is_leap_year y)).
    pose proof (bool_Z_bounds (is_leap_year (y + 1))).
    enough (valid (if m <? 12 then (y, m + 1, 1) else (y + 1, 1, 1)) ∧
      iso_date_to_epoch_days (if m <? 12 then (y, m + 1, 1) else (y + 1, 1, 1)) + 719468 =
      iso_date_to_epoch_days (y, m, n) + 719468 + 1) as [? ?] by (split; [done|lia]).
    rewrite (epoch_days_split y m) by done. unfold day_of_march_year. subst n.
    months m; eval_months; cbn [Z.ltb Z.compare Pos.compare Pos.compare_cont];
      (split; [apply valid_spec; eval_months; cbn -[is_leap_year]; lia|]);
      rewrite epoch_days_split by lia; unfold day_of_march_year; eval_months; cbn -[is_leap_year];
      rewrite ?Z.sub_0_r, ?Z.add_simpl_r; lia.
Qed.

(** ** Order *)
Lemma month_prime_eq m : 1 <= m <= 12 → month_prime m = if m <=? 2 then m + 9 else m - 3.
Proof. intros. unfold month_prime. destruct (Z.leb_spec m 2); zlia. Qed.
Lemma month_start_mono a b : a <= b → month_start a <= month_start b.
Proof. intros. unfold month_start. zlia. Qed.
Lemma month_prime_range m : 1 <= m <= 12 → 0 <= month_prime m <= 11.
Proof. intros. unfold month_prime. zlia. Qed.

Lemma epoch_days_lt_march y1 m1 d1 y2 m2 d2 : valid (y1, m1, d1) → valid (y2, m2, d2) →
  let a := y1 - bool_Z (m1 <=? 2) in let b := y2 - bool_Z (m2 <=? 2) in
  a < b ∨ a = b ∧ (month_prime m1 < month_prime m2 ∨ month_prime m1 = month_prime m2 ∧ d1 < d2) →
  iso_date_to_epoch_days (y1, m1, d1) < iso_date_to_epoch_days (y2, m2, d2).
Proof.
  intros H1 H2 a b Hlt.
  pose proof (day_of_march_year_bounds _ _ _ H1) as B1. pose proof (day_of_march_year_bounds _ _ _ H2) as B2.
  apply valid_spec in H1 as (Hm1 & Hd1 & Hl1), H2 as (Hm2 & Hd2 & Hl2).
  pose proof (month_prime_range _ Hm1). pose proof (month_prime_range _ Hm2).
  pose proof (epoch_days_split y1 m1 d1 Hm1) as E1. pose proof (epoch_days_split y2 m2 d2 Hm2) as E2.
  cbn zeta in B1, B2. fold a in B1, E1. fold b in B2, E2.
  destruct Hlt as [Hlt|(Heq & [Hlt|[Heq' Hlt]])].
  - pose proof (march_days_mono (a + 1) b ltac:(lia)). lia.
  - rewrite Heq in *. unfold day_of_march_year in *.
    pose proof (month_start_mono (month_prime m1 + 1) (month_prime m2) ltac:(lia)).
    destruct (Z.eqb_spec m1 2) as [->|]; [|lia].
    change (month_prime 2) with 11 in *. lia.
  - rewrite Heq in *. unfold day_of_march_year in *. rewrite Heq' in *. lia.
Qed.

Lemma compare_date_tuple_spec a b : CompareSpec (a = b)
  (a.1.1 < b.1.1 ∨ a.1.1 = b.1.1 ∧ (a.1.2 < b.1.2 ∨ a.1.2 = b.1.2 ∧ a.2 < b.2))
  (b.1.1 < a.1.1 ∨ b.1.1 = a.1.1 ∧ (b.1.2 < a.1.2 ∨ b.1.2 = a.1.2 ∧ b.2 < a.2))
  (compare_date_tuple a b).
Proof.
  destruct a as [[y1 m1] d1], b as [[y2 m2] d2]. cbn.
  destruct (Z.compare_spec y1 y2); [|constructor; lia..].
  destruct (Z.compare_spec m1 m2); [|constructor; lia..].
  destruct (Z.compare_spec d1 d2); constructor; [congruence|lia..].
Qed.

Lemma epoch_days_lt a b : valid a → valid b →
  a.1.1 < b.1.1 ∨ a.1.1 = b.1.1 ∧ (a.1.2 < b.1.2 ∨ a.1.2 = b.1.2 ∧ a.2 < b.2) →
  iso_date_to_epoch_days a < iso_date_to_epoch_days b.
Proof.
  destruct a as [[y1 m1] d1], b as [[y2 m2] d2]. cbn. intros H1 H2 Hlt.
  apply epoch_days_lt_march; try done.
  apply valid_spec in H1 as (Hm1 & _), H2 as (Hm2 & _).
  rewrite !month_prime_eq by done. unfold bool_Z.
  destruct (Z.leb_spec m1 2), (Z.leb_spec m2 2); lia.
Qed.

Lemma compare_iso_date_days a b : valid a → valid b →
  compare_iso_date a b = (iso_date_to_epoch_days a ?= iso_date_to_epoch_days b).
Proof.
  intros Ha Hb. unfold compare_iso_date. symmetry.
  destruct (compare_date_tuple_spec a b) as [->|Hlt|Hlt].
  - apply Z.compare_refl.
  - by apply Z.compare_lt_iff, epoch_days_lt.
  - by apply Z.compare_gt_iff, epoch_days_lt.
Qed.

Lemma epoch_days_inj a b : valid a → valid b →
  iso_date_to_epoch_days a = iso_date_to_epoch_days b → a = b.
Proof.
  intros Ha Hb He. pose proof (compare_iso_date_days a b Ha Hb) as Hc.
  rewrite He, Z.compare_refl in Hc. unfold compare_iso_date in Hc.
  by destruct (compare_date_tuple_spec a b).
Qed.

(** ** Ranges *)
Lemma in_i32_spec z : in_i32 z = true ↔ I32_MIN <= z <= I32_MAX.
Proof. unfold in_i32. rewrite andb_true_iff, !Z.leb_le. done. Qed.
Lemma as_i32_id z : in_i32 z = true → as_i32 z = z.
Proof. rewrite in_i32_spec. unfold as_i32, I32_MIN, I32_MAX. intros. rewrite Z.mod_small; lia. Qed.
Lemma i64c_Ok z : I64_MIN <= z <= I64_MAX → i64c z = Ok z.
Proof. intros. unfold i64c, in_i64. by rewrite (proj2 (Z.leb_le _ _)), (proj2 (Z.leb_le _ _)) by lia. Qed.

(** The first and the last day of the [i32] years. *)
Definition FIRST_DAY : Z := -784353015833.
Definition LAST_DAY : Z := 784351576776.
Lemma epoch_days_bounds y m d : valid (y, m, d) →
  in_i32 y = true ↔ FIRST_DAY <= iso_date_to_epoch_days (y, m, d) <= LAST_DAY.
Proof.
  intros Hv. pose proof (day_of_march_year_bounds _ _ _ Hv) as HB.
  assert (Hf : iso_date_to_epoch_days (I32_MIN, 1, 1) = FIRST_DAY) by reflexivity.
  assert (Hl : iso_date_to_epoch_days (I32_MAX, 12, 31) = LAST_DAY) by reflexivity.
  assert (valid (I32_MIN, 1, 1)) as Vf by reflexivity.
  assert (valid (I32_MAX, 12, 31)) as Vl by reflexivity.
  rewrite in_i32_spec, <- Hf, <- Hl.
  pose proof (proj1 (valid_spec _ _ _) Hv) as (Hm & Hd & Hdl).
  assert (Hd31 : m = 12 → d <= 31) by (intros ->; cbn -[is_leap_year] in Hdl; eval_months; lia).
  pose proof (epoch_days_lt _ _ Hv Vf) as L1. pose proof (epoch_days_lt _ _ Vf Hv) as L2.
  pose proof (epoch_days_lt _ _ Hv Vl) as L3. pose proof (epoch_days_lt _ _ Vl Hv) as L4.
  cbn [fst snd] in L1, L2, L3, L4.
  split; [|lia]. intros [Hlo Hhi]. split.
  - destruct (decide (y = I32_MIN ∧ m = 1 ∧ d = 1)) as [(-> & -> & ->)|]; lia.
  - destruct (decide (y = I32_MAX ∧ m = 12 ∧ d = 31)) as [(-> & -> & ->)|]; lia.
Qed.

Lemma epoch_days_to_iso_date_inverse date : valid date → in_i32 date.1.1 = true →
  epoch_days_to_iso_date (iso_date_to_epoch_days date) = Ok date.
Proof.
  destruct date as [[y m] d]. cbn [fst snd]. intros Hv Hy.
  pose proof (proj1 (epoch_days_bounds y m d Hv) Hy) as Hb. unfold FIRST_DAY, LAST_DAY in Hb.
  unfold epoch_days_to_iso_date. rewrite i64c_Ok by (unfold I64_MIN, I64_MAX; lia). cbn [mbind res_bind].
  by rewrite civil_from_epoch_days, as_i32_id.
Qed.
Lemma epoch_days_to_iso_date_total n : FIRST_DAY <= n <= LAST_DAY → ∃ date,
  epoch_days_to_iso_date n = Ok date ∧ valid date ∧ in_i32 date.1.1 = true ∧
  iso_date_to_epoch_days date = n.
Proof.
  intros Hn. destruct (every_day_has_date n) as (date & Hv & <-).
  assert (in_i32 date.1.1 = true) by (destruct date as [[y m] d]; by apply (epoch_days_bounds y m d Hv)).
  exists date. by rewrite epoch_days_to_iso_date_inverse.
Qed.

(** C22. Day numbers count days.  1970-01-01 is day 0; from one real date to the next the number
    grows by one (so [iso_date_to_epoch_days] is the number of days since then on every real date);
    comparing dates compares their numbers; and the way back is exact: every day number of an
    [i32] year is converted to the one real date that has it. *)
Theorem epoch_days_count date other n :
  valid date → valid other → in_i32 date.1.1 = true → FIRST_DAY <= n <= LAST_DAY →
  iso_date_to_epoch_days (1970, 1, 1) = 0 ∧
  (valid (next_date date) ∧
   iso_date_to_epoch_days (next_date date) = iso_date_to_epoch_days date + 1) ∧
  compare_iso_date date other = (iso_date_to_epoch_days date ?= iso_date_to_epoch_days other) ∧
  epoch_days_to_iso_date (iso_date_to_epoch_days date) = Ok date ∧
  (∃ found, epoch_days_to_iso_date n = Ok found ∧ valid found ∧ iso_date_to_epoch_days found = n).
Proof.
  intros Hv Ho Hy Hn. split; [done|]. split; [by apply next_date_spec|].
  split; [by apply compare_iso_date_days|]. split; [by apply epoch_days_to_iso_date_inverse|].
  destruct (epoch_days_to_iso_date_total n Hn) as (f & ? & ? & _ & ?). by exists f.
Qed.
Lemma epoch_days_count_witness :
  iso_date_to_epoch_days (next_date (2024, 2, 28)) = iso_date_to_epoch_days (2024, 2, 28) + 1 ∧
  ∃ found, epoch_days_to_iso_date (-1) = Ok found ∧ valid found ∧ iso_date_to_epoch_days found = -1.
Proof.
  destruct (epoch_days_count (2024, 2, 28) (2023, 12, 31) (-1)) as (_ & [_ ?] & _ & _ & ?);
    [reflexivity..|unfold FIRST_DAY, LAST_DAY; lia|done].
Defined.

(** ** Times of day *)
Definition valid_time (time : CivilTime) : Prop :=
  let '(h, mi, s, ms, us, ns) := time in
  0 <= h <= 23 ∧ 0 <= mi <= 59 ∧ 0 <= s <= 59 ∧ 0 <= ms <= 999 ∧ 0 <= us <= 999 ∧ 0 <= ns <= 999.
Definition time_ns (time : CivilTime) : Z :=
  let '(h, mi, s, ms, us, ns) := time in
  h * 3600000000000 + mi * 60000000000 + s * 1000000000 + ms * 1000000 + us * 1000 + ns.

Lemma time_ns_bounds t : valid_time t → 0 <= time_ns t < NS_PER_DAY.
Proof. destruct t as [[[[[h mi] s] ms] us] ns]. unfold NS_PER_DAY. cbn. lia. Qed.


Lemma time_of_day_spec n : 0 <= n < NS_PER_DAY →
  valid_time (time_of_day n) ∧ time_ns (time_of_day n) = n.
Proof.
  unfold NS_PER_DAY. intros Hn. unfold time_of_day, as_u8, as_u16.
  rewrite !(Z.quot_div_nonneg n) by lia.
  assert (0 <= n / 3600000000000 < 24) by zlia.
  rewrite !Z.rem_mod_nonneg by zlia.
  assert (Hb : ∀ a k w, 0 < k <= w → (a mod k) mod w = a mod k)
    by (intros a k w Hk; apply Z.mod_small; pose proof (Z.mod_pos_bound a k); lia).
  rewrite !Hb by lia. rewrite (Z.mod_small (n / _)) by lia. cbn. zlia.
Qed.

Lemma time_of_day_inverse t : valid_time t → time_of_day (time_ns t) = t.
Proof.
  intros Ht. pose proof (time_ns_bounds t Ht) as Hb.
  destruct (time_of_day_spec (time_ns t) Hb) as [Hv He].
  destruct (time_of_day (time_ns t)) as [[[[[h mi] s] ms] us] ns], t as [[[[[h' mi'] s'] ms'] us'] ns'].
  cbn in *. repeat f_equal; lia.
Qed.

(** ** Instants *)
Lemma nanoseconds_split date time off :
  nanoseconds_since_epoch date time off =
  iso_date_to_epoch_days date * NS_PER_DAY + time_ns time - off * 1000000000.
Proof.
  destruct time as [[[[[h mi] s] ms] us] ns]. unfold nanoseconds_since_epoch, time_ns, NS_PER_DAY. lia.
Qed.

Lemma instant_fields_split days ns : FIRST_DAY <= days <= LAST_DAY → 0 <= ns < NS_PER_DAY →
  instant_fields (days * NS_PER_DAY + ns) = (λ date, (date, time_of_day ns)) <$> epoch_days_to_iso_date days.
Proof.
  intros Hd Hn. unfold instant_fields, epoch_days_to_iso_date.
  set (v := days * NS_PER_DAY + ns).
  assert ((if Z.rem v NS_PER_DAY <? 0 then (v ÷ NS_PER_DAY - 1, Z.rem v NS_PER_DAY + NS_PER_DAY)
           else (v ÷ NS_PER_DAY, Z.rem v NS_PER_DAY)) = (days, ns)) as ->.
  { subst v. unfold NS_PER_DAY in *. destruct (Z.ltb_spec (Z.rem (days * 86400000000000 + ns) 86400000000000) 0); f_equal; zlia. }
  unfold FIRST_DAY, LAST_DAY, NS_PER_DAY in *.
  rewrite !i64c_Ok by (unfold I64_MIN, I64_MAX; lia). cbn [mbind res_bind].
  rewrite i64c_Ok by (unfold I64_MIN, I64_MAX; lia). reflexivity.
Qed.

Lemma instant_fields_inverse date time : valid date → in_i32 date.1.1 = true → valid_time time →
  instant_fields (nanoseconds_since_epoch date time 0) = Ok (date, time).
Proof.
  intros Hv Hy Ht. rewrite nanoseconds_split, Z.sub_0_r.
  assert (FIRST_DAY <= iso_date_to_epoch_days date <= LAST_DAY)
    by (destruct date as [[y m] d]; by apply epoch_days_bounds).
  rewrite instant_fields_split by auto using time_ns_bounds.
  rewrite epoch_days_to_iso_date_inverse by done. cbn. by rewrite time_of_day_inverse.
Qed.

Lemma instant_fields_total v : FIRST_DAY * NS_PER_DAY <= v < (LAST_DAY + 1) * NS_PER_DAY →
  ∃ date time, instant_fields v = Ok (date, time) ∧ valid date ∧ in_i32 date.1.1 = true ∧
    valid_time time ∧ nanoseconds_since_epoch date time 0 = v.
Proof.
  intros Hv. assert (Hn : 0 <= v mod NS_PER_DAY < NS_PER_DAY) by (by apply Z.mod_pos_bound).
  assert (Hd : FIRST_DAY <= v / NS_PER_DAY <= LAST_DAY)
    by (unfold FIRST_DAY, LAST_DAY, NS_PER_DAY in *; zlia).
  assert (Hs : v = v / NS_PER_DAY * NS_PER_DAY + v mod NS_PER_DAY)
    by (rewrite Z.mul_comm; by apply Z.div_mod).
  destruct (epoch_days_to_iso_date_total _ Hd) as (date & He & Hvd & Hy & Hdd).
  destruct (time_of_day_spec _ Hn) as [Ht Htn].
  exists date, (time_of_day (v mod NS_PER_DAY)). rewrite Hs at 1.
  rewrite instant_fields_split, He by done. split_and!; try done.
  rewrite nanoseconds_split, Hdd, Htn. lia.
Qed.

(** Instants and their fields determine each other.  Every instant in range, seen in any zone
    less than a day from UTC, has fields: a real date and time of day within the limits of
    [PlainDateTime] (the conversion does not fail), and the fields with the zone's offset give the
    instant back.  Conversely the fields of the instant made of a real date, a time of day and an
    offset are that date and time. *)
Theorem instant_fields_round_trip v off date time :
  is_in_instant_range v = true → -86400 < off < 86400 →
  valid date → in_i32 date.1.1 = true → valid_time time →
  (∃ local_date local_time, instant_fields (v + off * 1000000000) = Ok (local_date, local_time) ∧
     valid local_date ∧ valid_time local_time ∧
     is_date_time_within_limits local_date local_time = true ∧
     nanoseconds_since_epoch local_date local_time off = v) ∧
  instant_fields (nanoseconds_since_epoch date time off + off * 1000000000) = Ok (date, time).
Proof.
  intros Hr Hoff Hv Hy Ht. unfold is_in_instant_range, INSTANT_LIMIT in Hr.
  apply andb_true_iff in Hr as [Hlo%Z.leb_le Hhi%Z.leb_le].
  assert (Hz : ∀ d t, nanoseconds_since_epoch d t off = nanoseconds_since_epoch d t 0 - off * 1000000000)
    by (intros; rewrite !nanoseconds_split; lia).
  split.
  - destruct (instant_fields_total (v + off * 1000000000)) as (ld & lt & He & Hvd & _ & Hvt & Hn);
      [unfold FIRST_DAY, LAST_DAY, NS_PER_DAY; lia|].
    exists ld, lt. split_and!; try done; [|rewrite Hz; lia].
    unfold is_date_time_within_limits, INSTANT_LIMIT, NS_PER_DAY. rewrite Hn.
    apply andb_true_iff. rewrite !Z.ltb_lt. lia.
  - rewrite Hz, Z.sub_add. by apply instant_fields_inverse.
Qed.
Lemma instant_fields_round_trip_witness :
  instant_fields (nanoseconds_since_epoch (2024, 2, 29) (23, 59, 59, 999, 999, 999) (-3600) + -3600 * 1000000000) =
  Ok ((2024, 2, 29), (23, 59, 59, 999, 999, 999)).
Proof.
  apply (instant_fields_round_trip (-1) (-3600) (2024, 2, 29) (23, 59, 59, 999, 999, 999));
    [reflexivity|lia|reflexivity..|cbn; lia].
Defined.

(** ** Adding a calendar duration *)
Definition SAFE : Z := 9007199254740992.
Definition safe (z : Z) : Prop := - SAFE <= z <= SAFE.

Lemma balance_iso_year_month_spec y m : - 4 * SAFE <= y <= 4 * SAFE → - 4 * SAFE <= m <= 4 * SAFE →
  balance_iso_year_month y m = Ok (y + (m - 1) / 12, (m - 1) mod 12 + 1).
Proof.
  unfold SAFE. intros Hy Hm. unfold balance_iso_year_month.
  rewrite i64c_Ok by (unfold I64_MIN, I64_MAX; lia). cbn [mbind res_bind].
  rewrite i64c_Ok by (unfold I64_MIN, I64_MAX; zlia). cbn [mbind res_bind mret res_ret].
  unfold as_u8. rewrite (Z.mod_small (_ + 1) 256) by zlia. done.
Qed.

Definition month_length (y m : Z) : Z :=
  if m =? 2 then 28 + bool_Z (is_leap_year y)
  else month_start (month_prime m + 1) - month_start (month_prime m).
Lemma month_length_bounds y m : 1 <= m <= 12 → 28 <= month_length y m <= 31.
Proof.
  intros Hm. unfold month_length. pose proof (bool_Z_bounds (is_leap_year y)).
  months m; eval_months; cbn -[is_leap_year]; lia.
Qed.
Lemma valid_length y m d : valid (y, m, d) ↔ 1 <= m <= 12 ∧ 1 <= d <= month_length y m.
Proof. rewrite valid_spec. fold (month_length y m). tauto. Qed.

Lemma regulate_iso_date_spec y m d reject : 1 <= m <= 12 → 1 <= d <= 255 →
  regulate_iso_date y m d reject =
  Ok (if reject && (month_length y m <? d) then None else Some (y, m, Z.min d (month_length y m))).
Proof.
  intros Hm Hd. pose proof (month_length_bounds y m Hm) as HL.
  unfold regulate_iso_date.
  rewrite (iso_days_in_month_eq y m (month_length y m)) by (by apply days_in_month_Some).
  cbn [mbind res_bind mret res_ret]. unfold as_u8.
  destruct reject; cbn [andb].
  - rewrite (proj2 (Z.leb_le 1 d)) by lia. rewrite Z.leb_antisym. cbn [andb].
    destruct (Z.ltb_spec (month_length y m) d); cbn [negb]; [done|].
    rewrite Z.mod_small by lia. by rewrite Z.min_l by lia.
  - rewrite Z.max_r by lia. by rewrite Z.mod_small by lia.
Qed.

Lemma epoch_days_add y m d k : 1 <= m <= 12 →
  iso_date_to_epoch_days (y, m, d + k) = iso_date_to_epoch_days (y, m, d) + k.
Proof. intros. rewrite !epoch_days_march by done. lia. Qed.

Lemma balance_iso_date_spec y m d : in_i32 y = true → 1 <= m <= 12 → - 16 * SAFE <= d <= 16 * SAFE →
  balance_iso_date y m d = epoch_days_to_iso_date (iso_date_to_epoch_days (y, m, d)).
Proof.
  unfold SAFE. intros Hy Hm Hd. unfold balance_iso_date.
  assert (valid (y, m, 1)) as Hv by (pose proof (month_length_bounds y m Hm); apply valid_length; lia).
  apply (epoch_days_bounds y m 1 Hv) in Hy. unfold FIRST_DAY, LAST_DAY in Hy.
  rewrite i64c_Ok by (unfold I64_MIN, I64_MAX; lia). cbn [mbind res_bind].
  rewrite i64c_Ok by (unfold I64_MIN, I64_MAX; lia). cbn [mbind res_bind].
  f_equal. replace d with (1 + (d - 1)) at 2 by lia. rewrite epoch_days_add by done. lia.
Qed.

(** The landing month of an addition, and its date with the day constrained. *)
Definition landing (date : CivilDate) (years months : Z) : CivilDate :=
  let '(y, m, d) := date in
  let y' := y + years + (m + months - 1) / 12 in
  let m' := (m + months - 1) mod 12 + 1 in
  (y', m', Z.min d (month_length y' m')).
Lemma landing_valid date years months : valid date → valid (landing date years months).
Proof.
  destruct date as [[y m] d]. intros (Hm & Hd)%valid_length. apply valid_length.
  assert (1 <= (m + months - 1) mod 12 + 1 <= 12) as Hm' by zlia.
  pose proof (month_length_bounds (y + years + (m + months - 1) / 12) _ Hm'). lia.
Qed.

(** The addition in one equation: the landing month decides whether there is a result. *)
Lemma add_iso_date_eq y m d years months weeks days reject :
  valid (y, m, d) → in_i32 y = true → safe years → safe months → safe weeks → safe days →
  let land := landing (y, m, d) years months in
  add_iso_date (y, m, d) years months weeks days reject =
    if negb (in_i32 land.1.1) then mret None else
    if reject && (month_length land.1.1 land.1.2 <? d) then mret None else
    Some <$> balance_iso_date land.1.1 land.1.2 (land.2 + days + weeks * 7).
Proof.
  intros Hv Hy Hys Hms Hws Hds land.
  apply valid_length in Hv as (Hm & Hd). pose proof (month_length_bounds y m Hm).
  unfold safe, SAFE in *.
  pose proof (proj1 (in_i32_spec y) Hy) as Hyb. unfold I32_MIN, I32_MAX in Hyb.
  unfold add_iso_date. rewrite !i64c_Ok by (unfold I64_MIN, I64_MAX; lia). cbn [mbind res_bind].
  rewrite balance_iso_year_month_spec by (unfold SAFE; lia). cbn [mbind res_bind].
  unfold land, landing. cbn [fst snd].
  destruct (in_i32 _); cbn [negb]; [|done].
  rewrite regulate_iso_date_spec by zlia. cbn [mbind res_bind].
  destruct (reject && _); [done|].
  assert (1 <= (m + months - 1) mod 12 + 1 <= 12) as Hm' by zlia.
  pose proof (month_length_bounds (y + years + (m + months - 1) / 12) _ Hm').
  rewrite !i64c_Ok by (unfold I64_MIN, I64_MAX; lia). cbn [mbind res_bind].
  rewrite i64c_Ok by (unfold I64_MIN, I64_MAX; lia). done.
Qed.

(** Adding a calendar duration to a date.  For fields a duration may have ([safe]), the
    addition never panics.  It fails exactly when the landing year leaves [i32], or in reject mode
    when the landing month has no such day; otherwise the result is the date whose day number is
    that of the landing date (the day constrained to its month) plus the days and weeks. *)
Theorem add_iso_date_exact date years months weeks days reject :
  valid date → in_i32 date.1.1 = true → safe years → safe months → safe weeks → safe days →
  let land := landing date years months in
  (in_i32 land.1.1 = false ∨ reject = true ∧ land.2 ≠ date.2 →
   add_iso_date date years months weeks days reject = Ok None) ∧
  (in_i32 land.1.1 = true → reject = false ∨ land.2 = date.2 →
   let n := iso_date_to_epoch_days land + days + weeks * 7 in
   FIRST_DAY <= n <= LAST_DAY →
   ∃ result, add_iso_date date years months weeks days reject = Ok (Some result) ∧
     valid result ∧ iso_date_to_epoch_days result = n).
Proof.
  destruct date as [[y m] d]. intros Hv Hy Hys Hms Hws Hds land.
  pose proof (landing_valid _ years months Hv) as Hvl. fold land in Hvl.
  cbn [fst snd] in Hy |- *.
  pose proof (add_iso_date_eq y m d years months weeks days reject Hv Hy Hys Hms Hws Hds) as Hadd.
  cbn zeta in Hadd. fold land in Hadd. apply valid_length in Hv as (Hm & Hd).
  unfold safe, SAFE in *.
  rewrite Hadd. destruct land as [[Y M] D] eqn:Eland. cbn [fst snd].
  assert (D = Z.min d (month_length Y M)) as HD by (unfold land, landing in Eland; congruence).
  apply valid_length in Hvl as (HM & HDb). clear Hadd.
  split.
  - intros [->|[-> Hne]]; [done|]. destruct (in_i32 Y); [|done].
    by rewrite (proj2 (Z.ltb_lt _ _)) by lia.
  - intros HY Hr Hn. set (n := _ + weeks * 7) in *. rewrite HY. cbn [negb].
    replace (reject && (month_length Y M <? d)) with false
      by (symmetry; destruct Hr as [->|?]; [done|]; apply andb_false_iff; right; apply Z.ltb_ge; lia).
    pose proof (month_length_bounds Y M HM).
    rewrite balance_iso_date_spec by (unfold SAFE; done || lia).
    replace (D + days + weeks * 7) with (D + (days + weeks * 7)) by lia.
    rewrite epoch_days_add by done.
    replace (iso_date_to_epoch_days (Y, M, D) + (days + weeks * 7)) with n by (subst n; lia).
    destruct (epoch_days_to_iso_date_total n Hn) as (r & -> & Hvr & _ & He).
    by exists r.
Qed.
Lemma add_iso_date_exact_witness :
  ∃ result, add_iso_date (2019, 1, 31) 1 1 2 (-3) false = Ok (Some result) ∧ valid result ∧
    iso_date_to_epoch_days result = iso_date_to_epoch_days (2020, 2, 29) + -3 + 2 * 7.
Proof.
  apply (add_iso_date_exact (2019, 1, 31) 1 1 2 (-3) false);
    [reflexivity|reflexivity|unfold safe, SAFE; lia..|reflexivity|by left|vm_compute; split; discriminate].
Defined.

(** ** The difference of two dates *)
Definition date_lt (a b : Z * Z * Z) : Prop :=
  a.1.1 < b.1.1 ∨ a.1.1 = b.1.1 ∧ (a.1.2 < b.1.2 ∨ a.1.2 = b.1.2 ∧ a.2 < b.2).
Lemma surpasses_spec sign a b : sign = 1 ∨ sign = -1 →
  (surpasses sign a b = true ↔ sign = 1 ∧ date_lt b a ∨ sign = -1 ∧ date_lt a b).
Proof.
  intros Hs. unfold surpasses, date_lt. rewrite Z.ltb_lt.
  destruct (compare_date_tuple_spec a b) as [->|Hlt|Hlt]; lia.
Qed.
Lemma surpasses_day sign y m d d' : sign = 1 ∨ sign = -1 →
  surpasses sign (y, m, d) (y, m, d') = (0 <? sign * (d - d')).
Proof.
  intros Hs. apply Bool.eq_iff_eq_true. rewrite surpasses_spec, Z.ltb_lt by done.
  unfold date_lt. cbn [fst snd]. lia.
Qed.

Lemma next_month_days y m y' m' : 1 <= m <= 12 → 1 <= m' <= 12 → 12 * y' + m' = 12 * y + m + 1 →
  iso_date_to_epoch_days (y', m', 1) = iso_date_to_epoch_days (y, m, 1) + month_length y m.
Proof.
  intros Hm Hm' He. pose proof (month_length_bounds y m Hm) as HL.
  assert (valid (y, m, month_length y m)) as Hv by (apply valid_length; lia).
  destruct (next_date_spec _ Hv) as [_ Hn]. unfold next_date in Hn.
  rewrite (proj2 (days_in_month_Some y m _) (conj Hm eq_refl)) in Hn. fold (month_length y m) in Hn.
  rewrite Z.ltb_irrefl in Hn.
  assert (Hd : iso_date_to_epoch_days (y, m, month_length y m) =
    iso_date_to_epoch_days (y, m, 1) + (month_length y m - 1))
    by (rewrite <- epoch_days_add by done; f_equal; f_equal; lia).
  destruct (Z.ltb_spec m 12).
  - replace y' with y by lia. replace m' with (m + 1) by lia. lia.
  - replace y' with (y + 1) by lia. replace m' with 1 by lia. lia.
Qed.

(** The month of [end_], or the one before it in the direction of the difference. *)
Definition landing_month (sign ey em : Z) (back : bool) : Z * Z :=
  (ey + (em - sign * bool_Z back - 1) / 12, (em - sign * bool_Z back - 1) mod 12 + 1).

Lemma landing_days sign ey em ed d back :
  sign = 1 ∨ sign = -1 → valid (ey, em, ed) → 1 <= d <= 31 →
  back = (0 <? sign * (d - ed)) →
  let '(y, m) := landing_month sign ey em back in
  0 <= sign * (iso_date_to_epoch_days (ey, em, ed) -
               iso_date_to_epoch_days (y, m, Z.min d (month_length y m))) <= 30.
Proof.
  intros Hs Hv Hd Hb. destruct (landing_month sign ey em back) as [y m] eqn:Em.
  apply valid_length in Hv as (Hem & Hed). pose proof (month_length_bounds ey em Hem).
  assert (∀ y m k, 1 <= m <= 12 → iso_date_to_epoch_days (y, m, k) = iso_date_to_epoch_days (y, m, 1) + (k - 1)) as Hk
    by (intros; rewrite <- epoch_days_add by done; f_equal; f_equal; lia).
  injection Em as Ey Em. assert (1 <= m <= 12) as Hm by zlia.
  pose proof (month_length_bounds y m Hm). rewrite (Hk ey), (Hk y) by done.
  destruct back; symmetry in Hb; [apply Z.ltb_lt in Hb|apply Z.ltb_ge in Hb];
    cbn [bool_Z] in Ey, Em.
  - destruct Hs as [-> | ->].
    + pose proof (next_month_days y m ey em ltac:(lia) ltac:(lia) ltac:(zlia)). lia.
    + pose proof (next_month_days ey em y m ltac:(lia) ltac:(lia) ltac:(zlia)). lia.
  - replace y with ey in * by zlia. replace m with em in * by zlia.
    destruct Hs as [-> | ->]; lia.
Qed.

(** The years and months of a difference, both counted toward [end_]. *)
Definition whole_units (sign : Z) (start end_ : CivilDate) (unit : DateUnit) : Z * Z :=
  let '(y1, m1, d1) := start in
  let '(ey, em, ed) := end_ in
  let far := bool_Z (surpasses sign (ey, m1, d1) end_) in
  let years := ey - y1 - sign * far in
  let months := em - m1 + 12 * sign * far - sign * bool_Z (0 <? sign * (d1 - ed)) in
  if decide (unit = Month) then (0, months + years * 12) else (years, months).

Lemma whole_units_landing sign start end_ unit : 1 <= end_.1.2 <= 12 →
  let '(years, months) := whole_units sign start end_ unit in
  landing start years months =
  let '(y, m) := landing_month sign end_.1.1 end_.1.2 (0 <? sign * (start.2 - end_.2)) in
  (y, m, Z.min start.2 (month_length y m)).
Proof.
  destruct start as [[y1 m1] d1], end_ as [[ey em] ed]. cbn [fst snd]. intros Hem.
  unfold whole_units, landing_month, landing.
  set (far := bool_Z (surpasses _ _ _)). set (back := bool_Z (0 <? _)).
  assert (∀ years months, 12 * years + months = 12 * (ey - y1) + em - m1 - sign * back →
    y1 + years + (m1 + months - 1) / 12 = ey + (em - sign * back - 1) / 12 ∧
    (m1 + months - 1) mod 12 + 1 = (em - sign * back - 1) mod 12 + 1) as Hsame
    by (intros years months Hy; generalize dependent (sign * back); intros; zlia).
  destruct (decide (unit = Month)) as [E|E].
  - destruct (Hsame 0 (em - m1 + 12 * sign * far - sign * back + (ey - y1 - sign * far) * 12) ltac:(lia)) as [-> ->]. done.
  - destruct (Hsame (ey - y1 - sign * far) (em - m1 + 12 * sign * far - sign * back) ltac:(lia)) as [-> ->]. done.
Qed.

Lemma date_lt_compare a b : compare_iso_date a b = Lt ↔ date_lt a b.
Proof. unfold compare_iso_date, date_lt. destruct (compare_date_tuple_spec a b) as [->|?|?]; split; intros; try done; lia. Qed.
Lemma date_gt_compare a b : compare_iso_date a b = Gt ↔ date_lt b a.
Proof. unfold compare_iso_date, date_lt. destruct (compare_date_tuple_spec a b) as [->|?|?]; split; intros; try done; lia. Qed.
Lemma compare_eq a b : compare_iso_date a b = Eq ↔ a = b.
Proof. unfold compare_iso_date. destruct (compare_date_tuple_spec a b) as [->|?|?]; split; intros Hc; try done; subst; lia. Qed.

(** The year and month of every landing lie between those of the two dates. *)
Lemma landing_in_i32 sign start end_ : valid start → valid end_ →
  in_i32 start.1.1 = true → in_i32 end_.1.1 = true →
  sign = 1 ∧ date_lt start end_ ∨ sign = -1 ∧ date_lt end_ start →
  in_i32 (landing_month sign end_.1.1 end_.1.2 (0 <? sign * (start.2 - end_.2))).1 = true.
Proof.
  destruct start as [[y1 m1] d1], end_ as [[ey em] ed]. unfold date_lt. cbn [fst snd].
  intros (Hm1 & _)%valid_length (Hem & _)%valid_length. rewrite !in_i32_spec. unfold landing_month. cbn [fst].
  intros Hy1 Hey Hs.
  destruct Hs as [[-> Hs]|[-> Hs]]; destruct (Z.ltb_spec 0 (1 * (d1 - ed))), (Z.ltb_spec 0 (-1 * (d1 - ed)));
    cbn [bool_Z]; zlia.
Qed.

Lemma difference_months sign start end_ unit : valid start → valid end_ →
  in_i32 start.1.1 = true → in_i32 end_.1.1 = true → is_year_or_month unit = true →
  sign = 1 ∧ date_lt start end_ ∨ sign = -1 ∧ date_lt end_ start →
  let '(years, months) := whole_units sign start end_ unit in
  difference_iso_date start end_ unit =
  Ok (years, months, 0, iso_date_to_epoch_days end_ - iso_date_to_epoch_days (landing start years months)).
Proof.
  intros Hv1 Hv2 Hy1 Hy2 Hu Hs.
  pose proof (landing_in_i32 sign start end_ Hv1 Hv2 Hy1 Hy2 Hs) as Hland.
  assert (sign = 1 ∨ sign = -1) as Hs1 by lia.
  pose proof (whole_units_landing sign start end_ unit) as HW.
  unfold difference_iso_date. assert (∃ c, compare_iso_date start end_ = c ∧ c ≠ Eq ∧ match c with Lt => 1 | _ => -1 end = sign) as (c & -> & Hc & Hcs).
  { destruct Hs as [[-> Hlt]|[-> Hlt]].
    - rewrite (proj2 (date_lt_compare _ _) Hlt). by exists Lt.
    - rewrite (proj2 (date_gt_compare _ _) Hlt). by exists Gt. }
  destruct start as [[y1 m1] d1], end_ as [[ey em] ed]. cbn [fst snd] in *.
  apply valid_length in Hv1 as (Hm1 & Hd1), Hv2 as (Hem & Hed). specialize (HW Hem).
  pose proof (month_length_bounds y1 m1 Hm1).
  destruct (whole_units _ _ _ _) as [years months] eqn:EW. unfold whole_units in EW.
  rewrite HW. clear HW.
  apply in_i32_spec in Hy1, Hy2. unfold I32_MIN, I32_MAX in Hy1, Hy2.
  destruct c; [done| |]; rewrite Hcs; rewrite Hu; cbn [negb];
    (replace (y1 + (ey - y1)) with ey by lia;
     set (far := surpasses _ _ _) in *;
     assert ((if far then (ey - y1 - sign, em - m1 + 12 * sign) else (ey - y1, em - m1)) =
       (ey - y1 - sign * bool_Z far, em - m1 + 12 * sign * bool_Z far)) as ->
       by (destruct far; cbn [bool_Z]; f_equal; lia);
     rewrite balance_iso_year_month_spec by (unfold SAFE; destruct far; cbn [bool_Z]; lia);
     cbn [mbind res_bind fst snd]).
  all: replace (y1 + (ey - y1 - sign * bool_Z far) + (m1 + (em - m1 + 12 * sign * bool_Z far) - 1) / 12)
    with ey by (destruct far; cbn [bool_Z]; zlia).
  all: replace ((m1 + (em - m1 + 12 * sign * bool_Z far) - 1) mod 12 + 1)
    with em by (destruct far; cbn [bool_Z]; zlia).
  all: rewrite surpasses_day by done; set (back := 0 <? sign * (d1 - ed)) in *.
  all: assert ((if back then em - m1 + 12 * sign * bool_Z far - sign else em - m1 + 12 * sign * bool_Z far) =
      em - m1 + 12 * sign * bool_Z far - sign * bool_Z back) as -> by (destruct back; cbn [bool_Z]; lia).
  all: rewrite EW; cbn [fst snd].
  all: assert (12 * years + months = 12 * (ey - y1) + em - m1 - sign * bool_Z back) as Hsum
    by (destruct (decide (unit = Month)); injection EW as <- <-; lia).
  all: assert (-5000000000 <= years <= 5000000000 ∧ -60000000000 <= months <= 60000000000) as [Hyr Hmo]
    by (destruct (decide (unit = Month)); injection EW as <- <-; destruct far, back; cbn [bool_Z] in *; lia).
  all: rewrite balance_iso_year_month_spec by (unfold SAFE; lia); cbn [mbind res_bind fst snd].
  all: unfold landing_month in *; cbn [fst snd] in *.
  all: set (s := sign * bool_Z back) in *.
  all: replace (y1 + years + (m1 + months - 1) / 12) with (ey + (em - s - 1) / 12) by (clearbody s; zlia).
  all: replace ((m1 + months - 1) mod 12 + 1) with ((em - s - 1) mod 12 + 1) by (clearbody s; zlia).
  all: unfold clamp_year; rewrite Hland.
  all: rewrite regulate_iso_date_spec by (zlia || lia); cbn [andb mbind res_bind unwrap mret res_ret].
  all: done.
Qed.

Lemma whole_units_bounds sign start end_ unit : valid start → valid end_ →
  in_i32 start.1.1 = true → in_i32 end_.1.1 = true →
  sign = 1 ∧ date_lt start end_ ∨ sign = -1 ∧ date_lt end_ start →
  let '(years, months) := whole_units sign start end_ unit in
  0 <= sign * years ∧ 0 <= sign * months ∧ safe years ∧ safe months ∧
  (unit = Month → years = 0) ∧ (unit ≠ Month → sign * months <= 11).
Proof.
  destruct start as [[y1 m1] d1], end_ as [[ey em] ed]. unfold date_lt, safe, SAFE. cbn [fst snd].
  intros (Hm1 & Hd1)%valid_length (Hem & Hed)%valid_length Hy1 Hy2 Hs.
  apply in_i32_spec in Hy1, Hy2. unfold I32_MIN, I32_MAX in Hy1, Hy2.
  unfold whole_units.
  assert (Hfar : surpasses sign (ey, m1, d1) (ey, em, ed) = true ↔
    sign = 1 ∧ (em < m1 ∨ em = m1 ∧ ed < d1) ∨ sign = -1 ∧ (m1 < em ∨ m1 = em ∧ d1 < ed))
    by (rewrite surpasses_spec by lia; unfold date_lt; cbn [fst snd]; lia).
  destruct (surpasses _ _ _); (assert (Hf : True) by done);
    [pose proof (proj1 Hfar eq_refl) as Hf'|
     assert (¬ (sign = 1 ∧ (em < m1 ∨ em = m1 ∧ ed < d1) ∨ sign = -1 ∧ (m1 < em ∨ m1 = em ∧ d1 < ed))) as Hf'
       by (intros Hf'; by apply Hfar in Hf')];
    clear Hfar; destruct (Z.ltb_spec 0 (sign * (d1 - ed))) as [Hb|Hb];
    cbn [bool_Z]; destruct Hs as [[-> Hs]|[-> Hs]]; destruct (decide (unit = Month)) as [E|E];
    (split_and!; try (intros; done); try (intros; lia); lia).
Qed.

Lemma landing_zero date : valid date → landing date 0 0 = date.
Proof.
  destruct date as [[y m] d]. intros (Hm & Hd)%valid_length. unfold landing.
  replace ((m + 0 - 1) mod 12 + 1) with m by zlia.
  replace (y + 0 + (m + 0 - 1) / 12) with y by zlia. f_equal. lia.
Qed.

(** Adding back what lies between the landing date and [end_]. *)
Lemma add_to_end start end_ years months weeks days : valid start → valid end_ →
  in_i32 start.1.1 = true → in_i32 end_.1.1 = true → in_i32 (landing start years months).1.1 = true →
  safe years → safe months → safe weeks → safe days →
  iso_date_to_epoch_days (landing start years months) + days + weeks * 7 = iso_date_to_epoch_days end_ →
  add_iso_date start years months weeks days false = Ok (Some end_).
Proof.
  intros Hv1 Hv2 Hy1 Hy2 Hl ???? He.
  destruct (add_iso_date_exact start years months weeks days false) as [_ Hadd]; try done.
  destruct Hadd as (r & -> & Hr & Hn); [done|by left| |].
  - rewrite He. destruct end_ as [[y m] d]. by apply (epoch_days_bounds y m d Hv2).
  - rewrite He in Hn. by rewrite (epoch_days_inj r end_).
Qed.

Definition unit_shape (unit : DateUnit) (years months weeks days : Z) : Prop :=
  match unit with
  | Year => Z.abs months <= 11 ∧ weeks = 0 ∧ Z.abs days <= 30
  | Month => years = 0 ∧ weeks = 0 ∧ Z.abs days <= 30
  | Week => years = 0 ∧ months = 0 ∧ Z.abs days <= 6
  | Day => years = 0 ∧ months = 0 ∧ weeks = 0
  end.

Lemma difference_signed sign start end_ unit :
  valid start → valid end_ → in_i32 start.1.1 = true → in_i32 end_.1.1 = true →
  sign = 1 ∧ date_lt start end_ ∨ sign = -1 ∧ date_lt end_ start →
  ∃ years months weeks days,
    difference_iso_date start end_ unit = Ok (years, months, weeks, days) ∧
    add_iso_date start years months weeks days false = Ok (Some end_) ∧
    (0 <= sign * years ∧ 0 <= sign * months ∧ 0 <= sign * weeks ∧ 0 <= sign * days) ∧
    unit_shape unit years months weeks days.
Proof.
  intros Hv1 Hv2 Hy1 Hy2 Hs.
  assert (FIRST_DAY <= iso_date_to_epoch_days start <= LAST_DAY) as Hb1
    by (destruct start as [[y m] d]; by apply epoch_days_bounds).
  assert (FIRST_DAY <= iso_date_to_epoch_days end_ <= LAST_DAY) as Hb2
    by (destruct end_ as [[y m] d]; by apply epoch_days_bounds).
  unfold FIRST_DAY, LAST_DAY in Hb1, Hb2.
  assert (0 < sign * (iso_date_to_epoch_days end_ - iso_date_to_epoch_days start)) as Hpos
    by (destruct Hs as [[-> Hlt]|[-> Hlt]]; apply epoch_days_lt in Hlt; try done; lia).
  set (n := iso_date_to_epoch_days end_ - iso_date_to_epoch_days start) in *.
  destruct (is_year_or_month unit) eqn:Hu.
  - pose proof (difference_months sign start end_ unit Hv1 Hv2 Hy1 Hy2 Hu Hs) as HD.
    pose proof (whole_units_bounds sign start end_ unit Hv1 Hv2 Hy1 Hy2 Hs) as HB.
    pose proof (landing_in_i32 sign start end_ Hv1 Hv2 Hy1 Hy2 Hs) as HI.
    pose proof (whole_units_landing sign start end_ unit) as HL.
    destruct (whole_units sign start end_ unit) as [years months].
    destruct HB as (Hsy & Hsm & Hfy & Hfm & Hmon & Hyear).
    destruct start as [[y1 m1] d1], end_ as [[ey em] ed]. cbn [fst snd] in *.
    pose proof (proj1 (valid_length _ _ _) Hv1) as [Hm1 Hd1].
    pose proof (proj1 (valid_length _ _ _) Hv2) as [Hem Hed].
    pose proof (month_length_bounds y1 m1 Hm1). specialize (HL Hem).
    pose proof (landing_days sign ey em ed d1 _ ltac:(lia) Hv2 ltac:(lia) eq_refl) as HR.
    destruct (landing_month _ _ _ _) as [Y M]. rewrite HL in HD. cbn [fst snd] in HI.
    eexists _, _, _, _. split; [exact HD|].
    set (days := _ - iso_date_to_epoch_days (Y, M, _)) in *.
    split_and!; [|done|done|lia|lia|].
    + apply add_to_end; try done; rewrite ?HL; [done|unfold safe, SAFE in *; lia..].
    + destruct unit; try done; cbn; split_and!; try done; [specialize (Hyear ltac:(done))|..|by apply Hmon|]; lia.
  - assert (Hcmp : compare_iso_date start end_ ≠ Eq)
      by (intros Hc%compare_eq; subst; unfold n in Hpos; lia).
    assert (Hdiff : difference_iso_date start end_ unit =
      Ok (if decide (unit = Week) then (0, 0, n ÷ 7, Z.rem n 7) else (0, 0, 0, n)))
      by (unfold difference_iso_date; rewrite Hu; by destruct (compare_iso_date start end_)).
    rewrite Hdiff. unfold n in Hpos |- *. clear Hdiff.
    assert (∀ w k, k + w * 7 = n → safe w → safe k →
      add_iso_date start 0 0 w k false = Ok (Some end_)) as Hadd.
    { intros w k He Hw Hk. apply add_to_end; rewrite ?landing_zero by done; try done. unfold n in He. lia. }
    assert (-2000000000000 <= n <= 2000000000000) as Hnb by (unfold n; lia).
    fold n. fold n in Hpos. clearbody n. unfold safe, SAFE in Hadd.
    destruct unit; try done; cbn [decide_rel] in *.
    + eexists _, _, _, _. split; [done|].
      destruct (decide (sign = 1)) as [->|]; [|assert (sign = -1) as -> by lia];
        (split; [apply Hadd; zlia|]); cbn; split_and!; zlia.
    + eexists _, _, _, _. split; [done|]. split; [apply Hadd; lia|]. cbn. split_and!; lia.
Qed.

(** The difference of two dates is what must be added to the first to reach the second: the
    function returns fields, all of the sign of the difference, for which [add_iso_date] gives the
    second date exactly.  The fields have the shape that the largest unit asks for: with years at
    most 11 months and 30 days remain, with months at most 30 days, with weeks at most 6 days. *)
Theorem difference_iso_date_exact start end_ unit :
  valid start → valid end_ → in_i32 start.1.1 = true → in_i32 end_.1.1 = true →
  ∃ years months weeks days,
    difference_iso_date start end_ unit = Ok (years, months, weeks, days) ∧
    add_iso_date start years months weeks days false = Ok (Some end_) ∧
    (let sign := if decide (compare_iso_date start end_ = Gt) then -1 else 1 in
     0 <= sign * years ∧ 0 <= sign * months ∧ 0 <= sign * weeks ∧ 0 <= sign * days) ∧
    unit_shape unit years months weeks days.
Proof.
  intros Hv1 Hv2 Hy1 Hy2. destruct (compare_iso_date start end_) as [| |] eqn:Hc.
  - apply compare_eq in Hc as <-. exists 0, 0, 0, 0. split_and!.
    + unfold difference_iso_date. by rewrite (proj2 (compare_eq start start) eq_refl).
    + apply add_to_end; rewrite ?landing_zero by done; unfold safe, SAFE; done || lia.
    + cbn. lia.
    + destruct unit; cbn; lia.
  - apply (difference_signed 1); try done. left. by apply date_lt_compare in Hc.
  - apply (difference_signed (-1)); try done. right. by apply date_gt_compare in Hc.
Qed.
Lemma difference_iso_date_exact_witness :
  ∃ years months weeks days,
    difference_iso_date (2019, 1, 31) (2024, 2, 28) Year = Ok (years, months, weeks, days) ∧
    add_iso_date (2019, 1, 31) years months weeks days false = Ok (Some (2024, 2, 28)) ∧
    Z.abs days <= 30.
Proof.
  destruct (difference_iso_date_exact (2019, 1, 31) (2024, 2, 28) Year) as (y & m & w & d & ? & ? & _ & ? & ? & ?);
    [reflexivity..|]. by exists y, m, w, d.
Defined.

(** ** ISO weeks *)
Lemma year_start y : iso_date_to_epoch_days (y, 1, 1) = march_days (y - 1) + 306 - 719468.
Proof.
  enough (iso_date_to_epoch_days (y, 1, 1) + 719468 = march_days (y - 1) + 306) by lia.
  rewrite epoch_days_split by lia. done.
Qed.
Lemma year_parity_march y : year_parity y = march_days y mod 7.
Proof. unfold year_parity, march_days. zlia. Qed.
Lemma march_year_length y : march_days y - march_days (y - 1) = 365 ∨ march_days y - march_days (y - 1) = 366.
Proof. pose proof (is_leap_march y). pose proof (bool_Z_bounds (is_leap_year y)). lia. Qed.

(** A year has 53 weeks exactly when 53 of its days are Thursdays. *)
Lemma iso_weeks_in_year_spec y :
  let first := march_days (y - 1) + 306 - 719468 in
  let next := march_days y + 306 - 719468 in
  iso_weeks_in_year y = (next - 1 - first - (- first) mod 7) / 7 + 1.
Proof.
  unfold iso_weeks_in_year. rewrite !year_parity_march.
  pose proof (march_year_length y) as HL.
  generalize dependent (march_days y). generalize (march_days (y - 1)). intros a b HL. cbn zeta.
  destruct (Z.eqb_spec (b mod 7) 4), (Z.eqb_spec (a mod 7) 3); cbn [orb];
    destruct HL; zlia.
Qed.

Lemma iso_day_of_week_spec date : 
  iso_day_of_week date = (iso_date_to_epoch_days date + 3) mod 7 + 1.
Proof. unfold iso_day_of_week, as_u8. generalize (iso_date_to_epoch_days date). intros. zlia. Qed.

Lemma year_of_date_bounds y m d : valid (y, m, d) →
  iso_date_to_epoch_days (y, 1, 1) <= iso_date_to_epoch_days (y, m, d) < iso_date_to_epoch_days (y + 1, 1, 1).
Proof.
  intros Hv. split.
  - assert (valid (y, 1, 1)) as H1 by (apply valid_length; pose proof (month_length_bounds y 1); lia).
    destruct (decide (m = 1 ∧ d = 1)) as [[-> ->]|]; [done|].
    apply Z.lt_le_incl, epoch_days_lt; try done. apply valid_length in Hv. cbn. lia.
  - assert (valid (y + 1, 1, 1)) as H1 by (apply valid_length; pose proof (month_length_bounds (y + 1) 1); lia).
    apply epoch_days_lt; try done. cbn. lia.
Qed.

(** ISO week dates: a week belongs to the year that has its Thursday, and weeks are numbered
    by their Thursdays.  The day of the week is the day number modulo seven (1970-01-01 is a
    Thursday), and the week and its year are those of the Thursday of the date's week, whether
    the two-sided correction at the turn of the year applies or not. *)
Theorem iso_week_of_year_thursday y m d :
  valid (y, m, d) → in_i32 (y - 1) = true → in_i32 (y + 1) = true →
  let date := (y, m, d) in
  let thursday := iso_date_to_epoch_days date - iso_day_of_week date + 4 in
  1 <= iso_day_of_week date <= 7 ∧ thursday mod 7 = 0 ∧
  ∃ week year, iso_week_of_year date = Ok (week, year) ∧
    iso_date_to_epoch_days (year, 1, 1) <= thursday < iso_date_to_epoch_days (year + 1, 1, 1) ∧
    week = (thursday - iso_date_to_epoch_days (year, 1, 1)) / 7 + 1.
Proof.
  intros Hv Hl Hh date thursday.
  pose proof (year_of_date_bounds _ _ _ Hv) as Hb.
  assert (Hdow : iso_day_of_week date = (iso_date_to_epoch_days date + 3) mod 7 + 1) by apply iso_day_of_week_spec.
  split; [zlia|]. split; [unfold thursday; zlia|].
  pose proof (march_year_length y) as HL. pose proof (march_year_length (y - 1)) as HL'.
  pose proof (iso_weeks_in_year_spec y) as HW. pose proof (iso_weeks_in_year_spec (y - 1)) as HW'. cbn zeta in HW, HW'.
  assert (Hdoy : iso_day_of_year date = iso_date_to_epoch_days date - iso_date_to_epoch_days (y, 1, 1) + 1).
  { unfold iso_day_of_year, as_u16. cbn [fst snd date]. rewrite Z.mod_small; [done|].
    rewrite !year_start, Z.add_simpl_r in Hb. rewrite year_start. fold date in Hb |- *. lia. }
  unfold iso_week_of_year. cbn [fst snd date]. fold date. rewrite Hdoy.
  rewrite !year_start in *. rewrite Z.add_simpl_r in Hb. fold date in Hb.
  assert (Hth : iso_date_to_epoch_days date = thursday + iso_day_of_week date - 4) by (unfold thursday; lia).
  assert (Hm7 : thursday mod 7 = 0) by (unfold thursday; zlia).
  assert (1 <= iso_day_of_week date <= 7) by zlia. clear Hdow.
  rewrite Hth in *. clearbody thursday. clear Hth. generalize dependent (iso_day_of_week date). intros w Hb Hw.
  replace (y - 1 - 1) with (y - 2) in * by lia.
  destruct (Z.ltb_spec ((thursday + w - 4 - (march_days (y - 1) + 306 - 719468) + 1 - w + 10) / 7) 1).
  - unfold i32c. rewrite Hl. eexists _, _. split; [done|]. rewrite HW', !year_start, Z.sub_add.
    replace (y - 1 - 1) with (y - 2) by lia.
    clear HW HW'. generalize dependent (march_days (y - 1)). generalize dependent (march_days (y - 2)).
    generalize dependent (march_days y). intros. split; zlia.
  - destruct (Z.ltb_spec (iso_weeks_in_year y) ((thursday + w - 4 - (march_days (y - 1) + 306 - 719468) + 1 - w + 10) / 7)).
    + unfold i32c. rewrite Hh. eexists _, _. split; [done|]. rewrite !year_start, Z.add_simpl_r.
      replace (y + 1 + 1 - 1) with (y + 1) by lia.
      pose proof (march_year_length (y + 1)) as HL''. rewrite Z.add_simpl_r in HL''.
      clear HW'. generalize dependent (march_days (y - 1)). generalize dependent (march_days (y - 2)).
      generalize dependent (march_days (y + 1)). generalize dependent (march_days y). intros. split; zlia.
    + eexists _, _. split; [done|]. unfold as_u8. rewrite !year_start, Z.add_simpl_r.
      clear HW'. generalize dependent (march_days (y - 1)). generalize dependent (march_days (y - 2)).
      generalize dependent (march_days y). intros. split; zlia.
Qed.
Lemma iso_week_of_year_thursday_witness :
  ∃ week year, iso_week_of_year (2021, 1, 3) = Ok (week, year) ∧
    week = (iso_date_to_epoch_days (2021, 1, 3) - 7 + 4 - iso_date_to_epoch_days (year, 1, 1)) / 7 + 1.
Proof.
  destruct (iso_week_of_year_thursday 2021 1 3) as (_ & _ & w & y & ? & _ & ?); [reflexivity..|].
  by exists w, y.
Defined.
