(* ===== verification/TemporalRound.v ===== *)
(** * Units, rounding and durations (vm/temporal/rounding.rs, duration_math.rs, ecma402/src/duration.rs)

    The unit vocabulary of Temporal, rounding of exact integers to a multiple of an increment in
    the nine modes, the correctly rounded quotient of two integers, time durations and their
    balancing into fields, and the validity of a Duration Record.  [i128] and [u128] operations
    that could overflow are checked; casts wrap. *)

From S2P Require Import Prelude Float TemporalDate.
Local Open Scope Z_scope.

(** ** 128-bit integers *)
Definition I128_MAX : Z := 170141183460469231731687303715884105727.
Definition I128_MIN : Z := - I128_MAX - 1.
Definition U128_MAX : Z := 340282366920938463463374607431768211455.
Definition in_i128 (z : Z) : bool := (I128_MIN <=? z) && (z <=? I128_MAX).
Definition i128c (z : Z) : res Z := if in_i128 z then Ok z else Panic.
Definition u128c (z : Z) : res Z := if (0 <=? z) && (z <=? U128_MAX) then Ok z else Panic.
Definition as_i128 (z : Z) : Z := (z + (I128_MAX + 1)) mod (U128_MAX + 1) - (I128_MAX + 1).
Definition as_i64 (z : Z) : Z := (z + 9223372036854775808) mod 18446744073709551616 - 9223372036854775808.
(** [a / b] and [a % b]: division by zero panics. *)
Definition divide (f : Z → Z → Z) (a b : Z) : res Z := if b =? 0 then Panic else Ok (f a b).

(** ** Units *)
Inductive TimeUnit := TNanosecond | TMicrosecond | TMillisecond | TSecond | TMinute | THour.
#[export] Instance TimeUnit_eq_dec : EqDecision TimeUnit.
Proof. solve_decision. Defined.
Definition time_unit_nanoseconds (u : TimeUnit) : Z :=
  match u with
  | THour => 3600000000000 | TMinute => 60000000000 | TSecond => 1000000000
  | TMillisecond => 1000000 | TMicrosecond => 1000 | TNanosecond => 1
  end.
Definition increment_dividend (u : TimeUnit) : Z :=
  match u with
  | THour => 24 | TMinute | TSecond => 60 | TMillisecond | TMicrosecond | TNanosecond => 1000
  end.

Inductive TemporalUnit :=
  | UNanosecond | UMicrosecond | UMillisecond | USecond | UMinute | UHour | UDay | UWeek | UMonth | UYear.
#[export] Instance TemporalUnit_eq_dec : EqDecision TemporalUnit.
Proof. solve_decision. Defined.
(** The derived order: by position. *)
Definition unit_rank (u : TemporalUnit) : Z :=
  match u with
  | UNanosecond => 0 | UMicrosecond => 1 | UMillisecond => 2 | USecond => 3 | UMinute => 4
  | UHour => 5 | UDay => 6 | UWeek => 7 | UMonth => 8 | UYear => 9
  end.
Definition unit_leb (a b : TemporalUnit) : bool := unit_rank a <=? unit_rank b.
Definition unit_ltb (a b : TemporalUnit) : bool := unit_rank a <? unit_rank b.
Definition unit_nanoseconds (u : TemporalUnit) : option Z :=
  match u with
  | UDay => Some 86400000000000 | UHour => Some 3600000000000 | UMinute => Some 60000000000
  | USecond => Some 1000000000 | UMillisecond => Some 1000000 | UMicrosecond => Some 1000
  | UNanosecond => Some 1
  | UWeek | UMonth | UYear => None
  end.
Definition is_calendar (u : TemporalUnit) : bool :=
  match u with UWeek | UMonth | UYear => true | _ => false end.
Definition maximum_rounding_increment (u : TemporalUnit) : option Z :=
  match u with
  | UYear | UMonth | UWeek | UDay => None
  | UHour => Some 24
  | UMinute | USecond => Some 60
  | UMillisecond | UMicrosecond | UNanosecond => Some 1000
  end.

(** [name] or its plural. *)
Definition spells (name : string) (value : rstring) : bool :=
  bool_decide (value = str name) || bool_decide (value = str name ++ str "s").
Arguments spells _%_string _.
Definition parse_temporal_unit (value : rstring) : option TemporalUnit :=
  if spells "year" value then Some UYear else if spells "month" value then Some UMonth
  else if spells "week" value then Some UWeek else if spells "day" value then Some UDay
  else if spells "hour" value then Some UHour else if spells "minute" value then Some UMinute
  else if spells "second" value then Some USecond
  else if spells "millisecond" value then Some UMillisecond
  else if spells "microsecond" value then Some UMicrosecond
  else if spells "nanosecond" value then Some UNanosecond else None.

(** [rounding::Unit]: a calendar unit or a time unit. *)
Inductive Unit := UnitDate (u : DateUnit) | UnitTime (u : TimeUnit).
Definition parse_unit (value : rstring) : option Unit :=
  if spells "year" value then Some (UnitDate Year) else if spells "month" value then Some (UnitDate Month)
  else if spells "week" value then Some (UnitDate Week) else if spells "day" value then Some (UnitDate Day)
  else if spells "hour" value then Some (UnitTime THour) else if spells "minute" value then Some (UnitTime TMinute)
  else if spells "second" value then Some (UnitTime TSecond)
  else if spells "millisecond" value then Some (UnitTime TMillisecond)
  else if spells "microsecond" value then Some (UnitTime TMicrosecond)
  else if spells "nanosecond" value then Some (UnitTime TNanosecond) else None.
Definition parse_time_unit (value : rstring) : option TimeUnit :=
  unit ← parse_unit value;
  match unit with UnitTime u => Some u | UnitDate _ => None end.

(** ** Rounding *)
Inductive NumberRoundingMode :=
  | HalfExpand | Floor | Ceil | Expand | Trunc | HalfCeil | HalfFloor | HalfTrunc | HalfEven.
#[export] Instance NumberRoundingMode_eq_dec : EqDecision NumberRoundingMode.
Proof. solve_decision. Defined.
Definition parse_rounding_mode (value : rstring) : option NumberRoundingMode :=
  if bool_decide (value = str "halfExpand") then Some HalfExpand
  else if bool_decide (value = str "ceil") then Some Ceil
  else if bool_decide (value = str "floor") then Some Floor
  else if bool_decide (value = str "expand") then Some Expand
  else if bool_decide (value = str "trunc") then Some Trunc
  else if bool_decide (value = str "halfCeil") then Some HalfCeil
  else if bool_decide (value = str "halfFloor") then Some HalfFloor
  else if bool_decide (value = str "halfTrunc") then Some HalfTrunc
  else if bool_decide (value = str "halfEven") then Some HalfEven
  else None.

(** Whether a mode leaves the magnitude's lower multiple for the upper one. *)
Definition rounds_away (mode : NumberRoundingMode) (negative : bool) (quotient doubled increment : Z) : bool :=
  match mode with
  | Ceil => negb negative
  | Floor => negative
  | Expand => true
  | Trunc => false
  | HalfCeil => (increment <? doubled) || ((doubled =? increment) && negb negative)
  | HalfFloor => (increment <? doubled) || ((doubled =? increment) && negative)
  | HalfExpand => increment <=? doubled
  | HalfTrunc => increment <? doubled
  | HalfEven => (increment <? doubled) || ((doubled =? increment) && negb (Z.even quotient))
  end.
Definition round_to_increment (value increment : Z) (mode : NumberRoundingMode) : res Z :=
  let negative := value <? 0 in
  let magnitude := Z.abs value in
  let increment := Z.abs increment in
  quotient ← divide Z.quot magnitude increment;
  let remainder := Z.rem magnitude increment in
  if remainder =? 0 then mret value else
  round_up ← u128c ((quotient + 1) * increment);
  let round_down := quotient * increment in
  doubled ← u128c (remainder * 2);
  let rounded := as_i128 (if rounds_away mode negative quotient doubled increment
                          then round_up else round_down) in
  if negative then i128c (- rounded) else mret rounded.

Definition rounds_up_as_if_positive (mode : NumberRoundingMode) (quotient doubled increment : Z) : bool :=
  match mode with
  | Ceil | Expand => true
  | Floor | Trunc => false
  | HalfCeil | HalfExpand => increment <=? doubled
  | HalfFloor | HalfTrunc => increment <? doubled
  | HalfEven => (increment <? doubled) || ((doubled =? increment) && negb (quotient mod 2 =? 0))
  end.
Definition round_to_increment_as_if_positive (value increment : Z) (mode : NumberRoundingMode) : res Z :=
  increment ← i128c (Z.abs increment);
  quotient ← divide Z.div value increment;
  let remainder := value mod increment in
  if remainder =? 0 then mret value else
  doubled ← i128c (remainder * 2);
  i128c ((quotient + bool_Z (rounds_up_as_if_positive mode quotient doubled increment)) * increment).

(** ** The quotient of two integers as a Number *)
Definition bit_length (n : Z) : Z := if n <=? 0 then 0 else Z.log2 n + 1.
(** One step of the long division; the state is (accumulator, remainder, exponent). *)
Definition ratio_step (divisor : Z) (st : Z * Z * Z) : res (Z * Z * Z + Z * Z * Z) :=
  let '(accumulator, remainder, exponent) := st in
  if (accumulator <? 2 ^ 52) && negb (remainder =? 0) then
    accumulator ← u128c (accumulator * 2);
    remainder ← u128c (remainder * 2);
    if divisor <=? remainder
    then mret (inl (accumulator + 1, remainder - divisor, exponent - 1))
    else mret (inl (accumulator, remainder, exponent - 1))
  else mret (inr st).
(** The significand and the exponent of [exact_ratio_to_f64], before [value as f64 * 2^exponent]. *)
Definition ratio_parts (numerator denominator : Z) : res (Z * Z) :=
  let magnitude := Z.abs numerator in
  let denominator := Z.abs denominator in
  whole ← divide Z.quot magnitude denominator;
  let quotient_bits := bit_length whole in
  let exponent := if 53 <? quotient_bits then quotient_bits - 53 else 0 in
  divisor ← u128c (denominator * 2 ^ exponent);
  st ← iterate 200 (ratio_step divisor) (magnitude ÷ divisor, Z.rem magnitude divisor, exponent);
  let '(accumulator, remainder, exponent) := st in
  if remainder =? 0 then mret (accumulator, exponent) else
  doubled ← u128c (remainder * 2);
  mret (if (divisor <? doubled) || ((doubled =? divisor) && negb (Z.even accumulator))
        then (accumulator + 1, exponent) else (accumulator, exponent)).

(** [2_f64.powi(e)] is exact for these exponents. *)
Definition f64_pow2 (e : Z) : f64 := binary_normalize 53 1024 1 e false.
Definition exact_ratio_to_f64 (numerator denominator : Z) : res f64 :=
  if numerator =? 0 then mret f64_zero else
  parts ← ratio_parts numerator denominator;
  let value := f64_mul (f64_of_Z parts.1) (f64_pow2 parts.2) in
  mret (if numerator <? 0 then SFopp value else value).

(** ** Duration records (ecma402/src/duration.rs) *)
Record DurationRecord := {
  years : Z; months : Z; weeks : Z; days : Z; hours : Z; minutes : Z; seconds : Z;
  milliseconds : Z; microseconds : Z; nanoseconds : Z;
}.
Inductive DurationRecordError := NonFinite | NonIntegral | MixedSign | OutOfRange.
#[export] Instance DurationRecordError_eq_dec : EqDecision DurationRecordError.
Proof. solve_decision. Defined.

Definition values (d : DurationRecord) : list Z :=
  [years d; months d; weeks d; days d; hours d; minutes d; seconds d; milliseconds d;
   microseconds d; nanoseconds d].
Definition duration_sign (d : DurationRecord) : Z :=
  match filter (λ v, v ≠ 0) (values d) with v :: _ => Z.sgn v | [] => 0 end.

Definition MAX_CALENDAR_UNIT : Z := 4294967296.
Definition MAX_NORMALIZED_SECONDS : Z := 9007199254740992.
Definition NANOS_PER_SECOND : Z := 1000000000.
(** [checked_mul] and [checked_add] of [i128] *)
Definition checked (z : Z) : option Z := if in_i128 z then Some z else None.
Definition normalized_parts (d : DurationRecord) : list (option Z) :=
  [ (v ← checked (days d * 86400); checked (v * NANOS_PER_SECOND));
    (v ← checked (hours d * 3600); checked (v * NANOS_PER_SECOND));
    (v ← checked (minutes d * 60); checked (v * NANOS_PER_SECOND));
    checked (seconds d * NANOS_PER_SECOND); checked (milliseconds d * 1000000);
    checked (microseconds d * 1000); Some (nanoseconds d) ].
Fixpoint try_sum (total : Z) (parts : list (option Z)) : option Z :=
  match parts with
  | [] => Some total
  | part :: parts => value ← part; total ← checked (total + value); try_sum total parts
  end.
Definition validate (d : DurationRecord) : DurationRecordError + unit :=
  if existsb (λ v, MAX_CALENDAR_UNIT <=? Z.abs v) [years d; months d; weeks d] then inl OutOfRange
  else
    let sign := duration_sign d in
    if existsb (λ v, negb (v =? 0) && negb (Z.sgn v =? sign)) (values d) then inl MixedSign
    else match try_sum 0 (normalized_parts d) with
         | None => inl OutOfRange
         | Some total =>
             if MAX_NORMALIZED_SECONDS * NANOS_PER_SECOND <=? Z.abs total then inl OutOfRange
             else inr ()
         end.
Definition duration_try_new (y mo w d h mi s ms us ns : Z) : DurationRecordError + DurationRecord :=
  let record := Build_DurationRecord y mo w d h mi s ms us ns in
  match validate record with inl e => inl e | inr _ => inr record end.

(** ** Time durations *)
Definition NANOSECONDS_PER_DAY : Z := 86400 * 1000000000.
Definition time_fields_to_nanoseconds (hour minute second millisecond microsecond nanosecond : Z) : Z :=
  hour * 3600000000000 + minute * 60000000000 + second * 1000000000 + millisecond * 1000000
  + microsecond * 1000 + nanosecond.
Definition time_fields_from_nanoseconds (nanoseconds : Z) : CivilTime :=
  let remaining := nanoseconds mod NANOSECONDS_PER_DAY in
  let hour := remaining ÷ 3600000000000 in
  let remaining := Z.rem remaining 3600000000000 in
  let minute := remaining ÷ 60000000000 in
  let remaining := Z.rem remaining 60000000000 in
  let second := remaining ÷ 1000000000 in
  let remaining := Z.rem remaining 1000000000 in
  (as_u8 hour, as_u8 minute, as_u8 second, as_u16 (remaining ÷ 1000000),
   as_u16 (Z.rem (remaining ÷ 1000) 1000), as_u16 (Z.rem remaining 1000)).

(** A [TimeDuration] is its [total_nanoseconds]. *)
Definition TimeDuration : Type := Z.
Definition from_fields (hours minutes seconds milliseconds microseconds nanoseconds : Z) : TimeDuration :=
  hours * 3600000000000 + minutes * 60000000000 + seconds * 1000000000 + milliseconds * 1000000
  + microseconds * 1000 + nanoseconds.
Definition negated (total : TimeDuration) : TimeDuration := - total.
Definition round_to_unit (total : TimeDuration) (smallest_unit : TimeUnit) (increment : Z)
    (mode : NumberRoundingMode) : res TimeDuration :=
  step ← i128c (time_unit_nanoseconds smallest_unit * increment);
  round_to_increment total step mode.
Definition round_as_if_positive (total : TimeDuration) (smallest_unit : TimeUnit) (increment : Z)
    (mode : NumberRoundingMode) : res TimeDuration :=
  step ← i128c (time_unit_nanoseconds smallest_unit * increment);
  round_to_increment_as_if_positive total step mode.
Definition rounded_to_step (total : TimeDuration) (step : Z) (mode : NumberRoundingMode) : res TimeDuration :=
  round_to_increment total step mode.
Definition from_record_with_24_hour_days (d : DurationRecord) : TimeDuration :=
  days d * 86400000000000 +
  from_fields (hours d) (minutes d) (seconds d) (milliseconds d) (microseconds d) (nanoseconds d).

(** The loop of [balance_to] and [balance_with_days] over the units from the largest down; [cast]
    is the cast of a quotient to the type of a field. *)
Fixpoint balance_loop {U} (length_of : U → Z) (is_largest : U → bool) (cast : Z → Z) (folding : bool)
    (remaining : Z) (units : list U) : list Z :=
  match units with
  | [] => []
  | unit :: units =>
      if folding && negb (is_largest unit)
      then 0 :: balance_loop length_of is_largest cast folding remaining units
      else cast (remaining ÷ length_of unit) ::
           balance_loop length_of is_largest cast false (Z.rem remaining (length_of unit)) units
  end.
(** [*field *= sign] on each field. *)
Definition apply_sign (check : Z → res Z) (sign : Z) (fields : list Z) : res (list Z) :=
  mapM (λ field, check (field * sign)) fields.

Definition TIME_UNITS : list TimeUnit := [THour; TMinute; TSecond; TMillisecond; TMicrosecond; TNanosecond].
Definition balance_to (total : TimeDuration) (largest : TimeUnit) : res (list Z) :=
  apply_sign i64c (Z.sgn total)
    (balance_loop time_unit_nanoseconds (λ u, bool_decide (u = largest)) as_i64 true (Z.abs total) TIME_UNITS).

Definition DAY_UNITS : list TemporalUnit :=
  [UDay; UHour; UMinute; USecond; UMillisecond; UMicrosecond; UNanosecond].
(** [unit.nanoseconds().expect(..)]: every unit of [DAY_UNITS] has a length. *)
Definition exact_length (u : TemporalUnit) : Z := default 1 (unit_nanoseconds u).
Definition balance_with_days (total : TimeDuration) (largest : TemporalUnit) : res (list Z) :=
  apply_sign i128c (Z.sgn total)
    (balance_loop exact_length (λ u, bool_decide (u = largest)) as_i128 true (Z.abs total) DAY_UNITS).

(** [unit.nanoseconds().expect(..)]: a calendar unit panics. *)
Definition total_in (total : TimeDuration) (unit : TemporalUnit) : res f64 :=
  length ← unwrap (unit_nanoseconds unit);
  exact_ratio_to_f64 total length.

(** ** Examples of the sources' tests *)
Example ex_half_expand : (λ v, round_to_increment v 10 HalfExpand) <$> [15; -15; 14] = [Ok 20; Ok (-20); Ok 10].
Proof. reflexivity. Qed.
Example ex_half_even : (λ v, round_to_increment v 10 HalfEven) <$> [15; 25] = [Ok 20; Ok 20].
Proof. reflexivity. Qed.
Example ex_half_ceil : (λ v, round_to_increment v 10 HalfCeil) <$> [15; -15] = [Ok 20; Ok (-10)].
Proof. reflexivity. Qed.
Example ex_as_if_positive : round_to_increment_as_if_positive (-15) 10 Trunc = Ok (-20).
Proof. reflexivity. Qed.
Example ex_balance : balance_to (from_fields 1 2 3 4 5 6) TSecond = Ok [0; 0; 3723; 4; 5; 6].
Proof. reflexivity. Qed.
Example ex_ratio : ratio_parts 1 3 = Ok (6004799503160661, -54).
Proof. vm_compute. reflexivity. Qed.
Example ex_total : total_in (from_fields (-1) (-30) 0 0 0 0) UHour = Ok (SFopp (f64_lit "1.5")).
Proof. vm_compute. reflexivity. Qed.

(** ** Checked operations *)
Lemma i128c_Ok z : I128_MIN <= z <= I128_MAX → i128c z = Ok z.
Proof. intros. unfold i128c, in_i128. by rewrite (proj2 (Z.leb_le _ _)), (proj2 (Z.leb_le _ _)) by lia. Qed.
Lemma u128c_Ok z : 0 <= z <= U128_MAX → u128c z = Ok z.
Proof. intros. unfold u128c. by rewrite (proj2 (Z.leb_le _ _)), (proj2 (Z.leb_le _ _)) by lia. Qed.
Lemma as_i128_id z : I128_MIN <= z <= I128_MAX → as_i128 z = z.
Proof. unfold as_i128, I128_MIN, I128_MAX, U128_MAX. intros. rewrite Z.mod_small; lia. Qed.
Lemma as_i64_id z : I64_MIN <= z <= I64_MAX → as_i64 z = z.
Proof. unfold as_i64, I64_MIN, I64_MAX. intros. rewrite Z.mod_small; lia. Qed.

(** ** Rounding *)
(** [result] is the multiple of [increment] that [mode] prescribes for [value]: on the prescribed
    side, or the nearest with ties resolved. *)
Definition tie (value increment result : Z) : Prop := 2 * Z.abs (result - value) = Z.abs increment.
Definition rounded (mode : NumberRoundingMode) (value increment result : Z) : Prop :=
  (increment | result) ∧ Z.abs (result - value) < Z.abs increment ∧
  match mode with
  | Ceil => value <= result
  | Floor => result <= value
  | Expand => Z.abs value <= Z.abs result
  | Trunc => Z.abs result <= Z.abs value
  | _ => 2 * Z.abs (result - value) <= Z.abs increment
  end ∧
  (tie value increment result →
   match mode with
   | HalfCeil => value <= result
   | HalfFloor => result <= value
   | HalfExpand => Z.abs value <= Z.abs result
   | HalfTrunc => Z.abs result <= Z.abs value
   | HalfEven => Z.Even (result / increment)
   | _ => True
   end).

(** In terms of the quotient of the magnitudes. *)
Lemma rounded_away mode value increment : 0 < increment →
  let q := Z.abs value / increment in let r := Z.abs value mod increment in
  r ≠ 0 →
  rounded mode value increment
    (let m := if rounds_away mode (value <? 0) q (r * 2) increment then (q + 1) * increment else q * increment in
     if value <? 0 then - m else m).
Proof.
  intros Hi q r Hr. 
  pose proof (Z.div_mod (Z.abs value) increment ltac:(lia)) as Hdm. fold q r in Hdm.
  pose proof (Z.mod_pos_bound (Z.abs value) increment Hi) as Hrb. fold r in Hrb.
  assert (0 <= q) by (apply Z.div_pos; lia).
  assert (Hev : ∀ k, (- (k * increment)) / increment = - k) by (intros; rewrite <- Z.mul_opp_l, Z.div_mul; lia).
  clearbody q r.
  assert (Hq : 0 <= q * increment) by nia.
  assert (He : ∀ k, Z.Even k ↔ Z.even k = true) by (intros; symmetry; apply Z.even_spec).
  unfold rounded, tie. cbn zeta.
  destruct (rounds_away _ _ _ _ _) eqn:Ea; destruct (Z.ltb_spec value 0) as [Hn|Hn].
  all: split; [first [exists (q + 1); ring|exists q; ring|exists (- (q + 1)); ring|exists (- q); ring]|].
  all: split; [lia|].
  all: rewrite ?Hev, ?Z.div_mul by lia; rewrite ?He, ?Z.even_opp, ?Z.even_add.
  all: destruct mode; cbn [rounds_away] in Ea;
    rewrite ?orb_true_iff, ?orb_false_iff, ?andb_true_iff, ?andb_false_iff,
      ?Z.ltb_lt, ?Z.ltb_ge, ?Z.leb_le, ?Z.leb_gt, ?Z.eqb_eq, ?Z.eqb_neq in Ea; try done.
  all: split; [lia|]; intros Htie; try exact I.
  all: try lia.
  all: destruct (Z.even q) eqn:Eq; cbn in *; try done; try lia.
  all: apply He; rewrite ?Z.even_opp, ?Z.even_add, Eq; done || (exfalso; naive_solver lia).
Qed.

Lemma rounded_multiple mode value increment : 0 < increment → (increment | value) →
  rounded mode value increment value.
Proof.
  intros Hi Hd. unfold rounded, tie. rewrite Z.sub_diag. split_and!; [done|lia| |lia].
  destruct mode; lia.
Qed.

Lemma rounded_unique mode value increment a b : 0 < increment →
  rounded mode value increment a → rounded mode value increment b → a = b.
Proof.
  intros Hi ([ka ->] & Ha & Ha' & Hta) ([kb ->] & Hb & Hb' & Htb). unfold tie in *.
  destruct (decide (ka = kb)) as [->|Hne]; [done|exfalso].
  rewrite !Z.div_mul in * by lia.
  assert (ka = kb + 1 ∨ kb = ka + 1) as Hadj.
  { assert (Z.abs (ka - kb) * increment < 2 * increment) as Hlt.
    { replace (Z.abs (ka - kb) * increment) with (Z.abs ((ka * increment - value) - (kb * increment - value)))
        by (rewrite <- (Z.abs_eq increment) at 3 by lia; rewrite <- Z.abs_mul; f_equal; ring). lia. }
    nia. }
  assert (Hpar : ∀ k, Z.Even k → Z.Even (k + 1) → False)
    by (intros k [x ->] [y Hy]; lia).
  assert (Hsame : ∀ k, 0 <= k * increment ∨ k * increment + increment <= 0) by (intros k; destruct (Z.le_gt_cases 0 k); [left|right]; nia).
  pose proof (Hsame ka) as Hka. pose proof (Hsame kb) as Hkb. clear Hsame.
  destruct Hadj as [-> | ->];
    rewrite ?Z.mul_add_distr_r, ?Z.mul_1_l in *;
    (generalize dependent (kb * increment) || generalize dependent (ka * increment));
    destruct mode; intros; try lia; (eapply Hpar; [apply Htb; lia|apply Hta; lia]) || (eapply Hpar; [apply Hta; lia|apply Htb; lia]).
Qed.

(** The mode that [round_to_increment] needs for what the positive direction does. *)
Definition positive_mode (mode : NumberRoundingMode) : NumberRoundingMode :=
  match mode with
  | Expand => Ceil | Trunc => Floor | HalfExpand => HalfCeil | HalfTrunc => HalfFloor | m => m
  end.

(** The same choice, in terms of the floored quotient. *)
Lemma rounded_up mode value increment : 0 < increment →
  let q := value / increment in let r := value mod increment in
  r ≠ 0 →
  rounded (positive_mode mode) value increment
    ((q + bool_Z (rounds_up_as_if_positive mode q (r * 2) increment)) * increment).
Proof.
  intros Hi q r Hr.
  pose proof (Z.div_mod value increment ltac:(lia)) as Hdm. fold q r in Hdm.
  pose proof (Z.mod_pos_bound value increment Hi) as Hrb. fold r in Hrb.
  assert (Hpar : q mod 2 = 0 ↔ Z.Even q) by (rewrite Zmod_even; rewrite <- Z.even_spec; destruct (Z.even q); done).
  clearbody q r. unfold rounded, tie.
  assert (Heven : (q mod 2 =? 0) = Z.even q) by (apply Bool.eq_iff_eq_true; rewrite Z.eqb_eq, Z.even_spec; done).
  destruct (rounds_up_as_if_positive _ _ _ _) eqn:Ea; cbn [bool_Z].
  all: split; [eexists; reflexivity|]; split; [lia|].
  all: rewrite Z.div_mul by lia.
  all: destruct mode; cbn [rounds_up_as_if_positive positive_mode] in *; rewrite ?Heven in Ea;
    rewrite ?orb_true_iff, ?orb_false_iff, ?andb_true_iff, ?andb_false_iff,
      ?Z.ltb_lt, ?Z.ltb_ge, ?Z.leb_le, ?Z.leb_gt, ?Z.eqb_eq, ?Z.eqb_neq in Ea; try done.
  all: split; [lia|]; intros Htie; try exact I; try lia.
  all: apply Z.even_spec; rewrite ?Z.add_0_r, ?Z.even_add;
    destruct (Z.even q) eqn:Eq; cbn in *; done || (exfalso; naive_solver lia).
Qed.

Lemma round_to_increment_rounded value increment mode :
  0 < increment → Z.abs value + 2 * increment <= I128_MAX →
  ∃ result, round_to_increment value increment mode = Ok result ∧ rounded mode value increment result.
Proof.
  unfold I128_MAX. intros Hi Hb. unfold round_to_increment, divide.
  rewrite (Z.abs_eq increment), (proj2 (Z.eqb_neq increment 0)) by lia. cbn [mbind res_bind].
  rewrite Z.quot_div_nonneg, Z.rem_mod_nonneg by lia.
  pose proof (Z.div_mod (Z.abs value) increment ltac:(lia)) as Hdm.
  pose proof (Z.mod_pos_bound (Z.abs value) increment Hi) as Hrb.
  assert (0 <= Z.abs value / increment) by (apply Z.div_pos; lia).
  destruct (Z.eqb_spec (Z.abs value mod increment) 0) as [Hr|Hr].
  { exists value. split; [done|]. apply rounded_multiple; [done|].
    apply Z.divide_abs_r. exists (Z.abs value / increment). lia. }
  rewrite !u128c_Ok by (unfold U128_MAX; nia). cbn [mbind res_bind].
  pose proof (rounded_away mode value increment Hi Hr) as HR. cbn zeta in HR.
  set (m := if rounds_away _ _ _ _ _ then _ else _) in *.
  assert (0 <= m <= Z.abs value + increment) as Hm by (unfold m; destruct (rounds_away _ _ _ _ _); nia).
  rewrite as_i128_id by (unfold I128_MIN, I128_MAX; lia).
  exists (if value <? 0 then - m else m). split; [|done].
  destruct (value <? 0); [|done]. by rewrite i128c_Ok by (unfold I128_MIN, I128_MAX; lia).
Qed.

Lemma round_as_if_positive_rounded value increment mode :
  0 < increment → Z.abs value + 2 * increment <= I128_MAX →
  ∃ result, round_to_increment_as_if_positive value increment mode = Ok result ∧
    rounded (positive_mode mode) value increment result.
Proof.
  unfold I128_MAX. intros Hi Hb. unfold round_to_increment_as_if_positive, divide.
  rewrite (Z.abs_eq increment) by lia.
  rewrite i128c_Ok by (unfold I128_MIN, I128_MAX; lia). cbn [mbind res_bind].
  rewrite (proj2 (Z.eqb_neq increment 0)) by lia. cbn [mbind res_bind].
  pose proof (Z.div_mod value increment ltac:(lia)) as Hdm.
  pose proof (Z.mod_pos_bound value increment Hi) as Hrb.
  destruct (Z.eqb_spec (value mod increment) 0) as [Hr|Hr].
  { exists value. split; [done|]. apply rounded_multiple; [done|]. exists (value / increment). lia. }
  rewrite i128c_Ok by (unfold I128_MIN, I128_MAX; lia). cbn [mbind res_bind].
  pose proof (rounded_up mode value increment Hi Hr) as HR. cbn zeta in HR.
  eexists. split; [|exact HR].
  apply i128c_Ok. unfold I128_MIN, I128_MAX. destruct (rounds_up_as_if_positive _ _ _ _); cbn [bool_Z]; nia.
Qed.

(** C27. Rounding to an increment is exact in all nine modes: no operation overflows for values of
    the sizes Temporal has, the result is a multiple of the increment less than one increment
    away, on the side or nearest as the mode says with ties resolved its way, and it is the only
    such integer.  Rounding "as if positive", used for instants, is rounding in the mode that
    names the same direction without regard to sign. *)
Theorem round_to_increment_exact value increment mode :
  0 < increment → Z.abs value + 2 * increment <= I128_MAX →
  ∃ result, round_to_increment value increment mode = Ok result ∧
    rounded mode value increment result ∧
    (∀ other, rounded mode value increment other → other = result) ∧
    round_to_increment_as_if_positive value increment mode =
    round_to_increment value increment (positive_mode mode).
Proof.
  intros Hi Hb. destruct (round_to_increment_rounded value increment mode Hi Hb) as (r & -> & Hr).
  destruct (round_to_increment_rounded value increment (positive_mode mode) Hi Hb) as (p & -> & Hp).
  destruct (round_as_if_positive_rounded value increment mode Hi Hb) as (s & -> & Hs).
  exists r. split_and!; [done|done| |].
  - intros o Ho. by apply (rounded_unique mode value increment).
  - f_equal. by apply (rounded_unique (positive_mode mode) value increment).
Qed.
Lemma round_to_increment_exact_witness :
  rounded HalfEven (-25) 10 (-20) ∧
  round_to_increment_as_if_positive (-15) 10 HalfExpand = round_to_increment (-15) 10 HalfCeil.
Proof.
  destruct (round_to_increment_exact (-25) 10 HalfEven) as (r & E & Hr & _); [lia|unfold I128_MAX; lia|].
  vm_compute in E. injection E as <-. split; [done|].
  destruct (round_to_increment_exact (-15) 10 HalfExpand) as (_ & _ & _ & _ & H);
    [lia|unfold I128_MAX; lia|exact H].
Defined.

(** ** Balancing *)
Lemma mapM_check check sign (l : list Z) : (∀ x, x ∈ l → check (x * sign) = Ok (x * sign)) →
  apply_sign check sign l = Ok ((λ x, x * sign) <$> l).
Proof.
  unfold apply_sign. induction l as [|x l IH]; intros Hl; [done|]. cbn.
  rewrite Hl by set_solver. cbn. rewrite IH by set_solver. done.
Qed.

Lemma apply_sign_Ok check sign (l k : list Z) : (∀ x y, check x = Ok y → y = x) →
  apply_sign check sign l = Ok k → k = (λ x, x * sign) <$> l.
Proof.
  intros Hc. revert k. unfold apply_sign. induction l as [|x l IH]; intros k; cbn; [by intros [= <-]|].
  intros (y & Hy & (k' & Hk & [= <-])%bind_Ok)%bind_Ok. apply Hc in Hy as ->. f_equal. by apply IH.
Qed.

(** The weighted sum of fields. *)
Fixpoint weigh {U} (length_of : U → Z) (units : list U) (fields : list Z) : Z :=
  match units, fields with
  | u :: units, f :: fields => f * length_of u + weigh length_of units fields
  | _, _ => 0
  end.

(** What balancing promises of the fields of a list of units. *)
Definition balanced {U} (length_of : U → Z) (below : U → bool) (above : U → bool) (capacity : U → Z)
    (units : list U) (total : Z) (fields : list Z) : Prop :=
  length fields = length units ∧ weigh length_of units fields = total ∧
  Forall2 (λ u f, (f = 0 ∨ Z.sgn f = Z.sgn total) ∧ (above u = true → f = 0) ∧
                  (below u = true → Z.abs f < capacity u)) units fields.

(** The number of each unit in the next larger one. *)
Definition capacity (u : TemporalUnit) : Z := default 0 (maximum_rounding_increment u).

Lemma sgn_cases n : n = 0 ∧ Z.sgn n = 0 ∨ 0 < n ∧ Z.sgn n = 1 ∨ n < 0 ∧ Z.sgn n = -1.
Proof. destruct n; cbn; lia. Qed.

Lemma signed_field x total : 0 <= x → x * Z.sgn total = 0 ∨ Z.sgn (x * Z.sgn total) = Z.sgn total.
Proof.
  intros Hx. rewrite Z.sgn_mul, Z.sgn_sgn. destruct (decide (x = 0)) as [->|]; [by left|right].
  rewrite (Z.sgn_pos x) by lia. lia.
Qed.

Section balance.
Context {U : Type} (length_of capacity : U → Z) (is_largest : U → bool) (cast : Z → Z).

(** Each unit is [capacity] times shorter than the one before it; the last has length one. *)
Fixpoint chain (units : list U) : Prop :=
  match units with
  | [] => True
  | u :: rest =>
      0 < length_of u ∧
      match rest with [] => length_of u = 1 | v :: _ => length_of u = length_of v * capacity v end ∧
      chain rest
  end.

Lemma weigh_scale k units fields :
  weigh length_of units ((λ f, f * k) <$> fields) = k * weigh length_of units fields.
Proof.
  revert fields. induction units as [|u units IH]; intros [|f fields]; cbn; try lia.
  rewrite IH. lia.
Qed.

Lemma balance_loop_below n u units : chain (u :: units) → 0 <= n →
  (∀ x, 0 <= x <= n ÷ length_of u → cast x = x) →
  (∀ x, 0 <= x < length_of u → cast x = x) →
  ∃ rest, balance_loop length_of is_largest cast false n (u :: units) = n ÷ length_of u :: rest ∧
    length_of u * (n ÷ length_of u) + weigh length_of units rest = n ∧
    Forall2 (λ v f, 0 <= f < capacity v) units rest.
Proof.
  revert n u. induction units as [|v units IH]; intros n u (Hu & Hc & Hch) Hn Hcast Hsmall.
  - exists []. cbn. rewrite Hcast by (rewrite Hc, Z.quot_1_r in *; lia). rewrite Hc, Z.quot_1_r. split_and!; [done|lia|constructor].
  - cbn [balance_loop andb]. pose proof (Z.quot_rem' n (length_of u)) as Hqr.
    pose proof (Z.rem_bound_pos n (length_of u) Hn Hu) as Hr.
    destruct Hch as (Hv & Hcv & Hch).
    destruct (IH (Z.rem n (length_of u)) v) as (rest & Heq & Hsum & Hall); [done|lia| | |].
    + intros x Hx. apply Hsmall. rewrite Z.quot_div_nonneg in Hx by lia.
      pose proof (Z.div_le_upper_bound (Z.rem n (length_of u)) (length_of v) (Z.rem n (length_of u)) Hv ltac:(nia)). lia.
    + intros x Hx. apply Hsmall. assert (0 < capacity v) by nia. nia.
    + assert (0 <= n ÷ length_of u) by (apply Z.quot_pos; lia).
      cbn [balance_loop andb] in Heq. eexists. rewrite Heq, Hcast by lia. split; [reflexivity|].
      cbn [weigh]. split; [lia|]. constructor; [|done].
      split; [apply Z.quot_pos; lia|].
      rewrite Z.quot_div_nonneg by lia. apply Z.div_lt_upper_bound; lia.
Qed.

(** The fields below the first unit always hold its remainder. *)
Lemma balance_loop_remainder n u units : chain (u :: units) → 0 <= n →
  (∀ x, 0 <= x < length_of u → cast x = x) →
  weigh length_of units (balance_loop length_of is_largest cast false (Z.rem n (length_of u)) units) =
  Z.rem n (length_of u).
Proof.
  intros (Hu & Hc & Hch) Hn Hcast. pose proof (Z.rem_bound_pos n (length_of u) Hn Hu) as Hr.
  destruct units as [|v units]; cbn [balance_loop weigh]; [rewrite Hc, Z.rem_1_r in *; lia|].
  destruct Hch as (Hv & Hcv & Hch).
  assert (Hq : ∀ x, 0 <= x <= Z.rem n (length_of u) ÷ length_of v → cast x = x).
  { intros x Hx. apply Hcast. rewrite Z.quot_div_nonneg in Hx by lia.
    pose proof (Z.div_le_upper_bound (Z.rem n (length_of u)) (length_of v) (Z.rem n (length_of u)) Hv ltac:(nia)). lia. }
  destruct (balance_loop_below (Z.rem n (length_of u)) v units) as (rest & Heq & Hsum & _); try done; [lia| |].
  { intros x Hx. apply Hcast. assert (0 < capacity v) by nia. nia. }
  cbn [balance_loop andb] in Heq |- *. injection Heq as -> ->. lia.
Qed.

Lemma balance_loop_above n pre u post : Forall (λ v, is_largest v = false) pre → is_largest u = true →
  balance_loop length_of is_largest cast true n (pre ++ u :: post) =
  replicate (length pre) 0 ++ balance_loop length_of is_largest cast false n (u :: post).
Proof.
  intros Hp Hu. induction Hp as [|v pre Hv _ IH]; cbn in *; [by rewrite Hu|]. by rewrite Hv, IH.
Qed.
Lemma weigh_above pre units fields :
  weigh length_of (pre ++ units) (replicate (length pre) 0 ++ fields) = weigh length_of units fields.
Proof. induction pre; cbn; [done|]. rewrite IHpre. lia. Qed.

Lemma balance_loop_balanced (below above : U → bool) total pre u post :
  chain (u :: post) → Forall (λ v, is_largest v = false) pre → is_largest u = true →
  Forall (λ v, below v = false) pre → Forall (λ v, above v = false) (u :: post) → below u = false →
  (∀ x, 0 <= x <= Z.abs total ÷ length_of u → cast x = x) →
  (∀ x, 0 <= x < length_of u → cast x = x) →
  let fields := balance_loop length_of is_largest cast true (Z.abs total) (pre ++ u :: post) in
  balanced length_of below above capacity (pre ++ u :: post) total ((λ f, f * Z.sgn total) <$> fields) ∧
  Forall (λ f, f = Z.abs total ÷ length_of u ∨ f = 0 ∨ ∃ v, In v post ∧ 0 <= f < capacity v) fields.
Proof.
  intros Hch Hpre Hu Hbp Hab Hbu Hc1 Hc2 fields.
  destruct (balance_loop_below (Z.abs total) u post Hch ltac:(lia) Hc1 Hc2) as (rest & Heq & Hsum & Hall).
  assert (Hf : fields = replicate (length pre) 0 ++ (Z.abs total ÷ length_of u) :: rest)
    by (unfold fields; by rewrite balance_loop_above, Heq).
  assert (Hq : 0 <= Z.abs total ÷ length_of u) by (apply Z.quot_pos; destruct Hch; lia).
  pose proof (sgn_cases total) as Hs.
  clearbody fields. subst fields. split.
  - split_and!.
    + rewrite length_fmap, !length_app, length_replicate. cbn. by rewrite (Forall2_length _ _ _ Hall).
    + rewrite weigh_scale, weigh_above. cbn [weigh]. rewrite (Z.mul_comm _ (length_of u)), Hsum. nia.
    + rewrite fmap_app. apply Forall2_app.
      * clear -Hbp Hs. induction Hbp as [|v pre Hv _ IH]; cbn; constructor; [|done].
        rewrite Hv. split_and!; [auto|intros; lia|done].
      * apply Forall_cons in Hab as [Hau Hap]. cbn. constructor.
        { rewrite Hau, Hbu. split_and!; [apply signed_field; lia|done|done]. }
        clear -Hall Hap Hs. induction Hall as [|v f post rest Hvf _ IH]; cbn; constructor.
        { apply Forall_cons in Hap as [-> _]. split_and!; [apply signed_field; lia|done|]. intros _. nia. }
        apply IH. by apply Forall_cons in Hap as [_ ?].
  - apply Forall_app. split; [apply Forall_replicate; auto|]. constructor; [auto|].
    apply Forall_forall. intros f Hf. right. right.
    apply list_elem_of_lookup in Hf as [k Hk].
    destruct (Forall2_lookup_r _ _ _ _ _ Hall Hk) as (v & Hv & Hvf).
    exists v. split; [|done]. by apply list_elem_of_In, list_elem_of_lookup_2 with k.
Qed.
End balance.

Ltac all_units := cbn; repeat (apply Forall_cons_2; [vm_compute; auto|]); apply Forall_nil_2.

Lemma day_units_split largest : unit_leb largest UDay = true → ∃ pre post,
  DAY_UNITS = pre ++ largest :: post ∧ chain exact_length capacity (largest :: post) ∧
  Forall (λ u, bool_decide (u = largest) = false ∧ unit_ltb u largest = false) pre ∧
  Forall (λ u, unit_ltb largest u = false) (largest :: post) ∧
  0 < exact_length largest <= NANOSECONDS_PER_DAY ∧
  ∀ v, In v post → capacity v <= 1000.
Proof.
  intros Hl. exists (take (6 - Z.to_nat (unit_rank largest)) DAY_UNITS), (drop (7 - Z.to_nat (unit_rank largest)) DAY_UNITS).
  destruct largest; try discriminate Hl;
    (split_and!; [reflexivity|cbn; repeat split; reflexivity|all_units|all_units|done|done|
       intros v _; by destruct v]).
Qed.

(** Balancing a time duration into days and smaller units loses nothing and never overflows:
    the fields, weighted by their units, add up to the total; they all have its sign; no unit
    above the largest one asked for is used; and every unit below it holds less than one of the
    next larger unit. *)
Theorem balance_with_days_exact total largest :
  unit_leb largest UDay = true → Z.abs total <= I128_MAX →
  ∃ fields, balance_with_days total largest = Ok fields ∧
    balanced exact_length (λ u, unit_ltb u largest) (λ u, unit_ltb largest u) capacity
      DAY_UNITS total fields.
Proof.
  intros Hl Hb. destruct (day_units_split largest Hl) as (pre & post & Hsplit & Hch & Hpre & Hpost & Hlen & Hcap).
  unfold balance_with_days. rewrite Hsplit.
  unfold NANOSECONDS_PER_DAY in Hlen. unfold I128_MAX in Hb.
  assert (Hq : 0 <= Z.abs total ÷ exact_length largest <= Z.abs total).
  { split; [apply Z.quot_pos; lia|]. rewrite Z.quot_div_nonneg by lia. apply Z.div_le_upper_bound; nia. }
  destruct (balance_loop_balanced exact_length capacity (λ u, bool_decide (u = largest)) as_i128
    (λ u, unit_ltb u largest) (λ u, unit_ltb largest u) total pre largest post) as [HB HF]; try done.
  - by eapply Forall_impl; [exact Hpre|intros ? [? _]].
  - by apply bool_decide_eq_true.
  - by eapply Forall_impl; [exact Hpre|intros ? [_ ?]].
  - apply Z.ltb_irrefl.
  - intros x Hx. apply as_i128_id. unfold I128_MIN, I128_MAX. lia.
  - intros x Hx. apply as_i128_id. unfold I128_MIN, I128_MAX. lia.
  - eexists. split; [|exact HB]. apply mapM_check. intros x Hx.
    apply i128c_Ok. unfold I128_MIN, I128_MAX. pose proof (sgn_cases total).
    destruct (proj1 (Forall_forall _ _) HF x Hx) as [->|[->|(v & Hv & Hvx)]]; [|lia|specialize (Hcap v Hv)]; nia.
Qed.
Lemma balance_with_days_exact_witness :
  ∃ fields, balance_with_days (-93784005006007) UDay = Ok fields ∧ weigh exact_length DAY_UNITS fields = -93784005006007.
Proof.
  destruct (balance_with_days_exact (-93784005006007) UDay) as (f & ? & _ & ? & _); [reflexivity|unfold I128_MAX; lia|].
  by exists f.
Defined.

(** The same for [TimeUnit]s. *)
Definition time_rank (u : TimeUnit) : Z :=
  match u with TNanosecond => 0 | TMicrosecond => 1 | TMillisecond => 2 | TSecond => 3 | TMinute => 4 | THour => 5 end.
Lemma time_units_split largest : ∃ pre post,
  TIME_UNITS = pre ++ largest :: post ∧ chain time_unit_nanoseconds increment_dividend (largest :: post) ∧
  Forall (λ u, bool_decide (u = largest) = false ∧ (time_rank u <? time_rank largest) = false) pre ∧
  Forall (λ u, (time_rank largest <? time_rank u) = false) (largest :: post) ∧
  0 < time_unit_nanoseconds largest <= NANOSECONDS_PER_DAY.
Proof.
  exists (take (5 - Z.to_nat (time_rank largest)) TIME_UNITS), (drop (6 - Z.to_nat (time_rank largest)) TIME_UNITS).
  destruct largest;
    (split_and!; [reflexivity|cbn; repeat split; reflexivity|all_units|all_units|done|done]).
Qed.

(** C28. Balancing into time units without days ([balance_to], fields of type [i64]) is exact
    precisely as long as the field of the largest unit fits: then the fields add up to the total
    and are bounded as above.  When it does not fit, the cast wraps: the call panics or returns
    fields that add up to something else.  (Two instants may be 1.7 * 10^22 nanoseconds apart,
    and [i64] ends at 9.2 * 10^18: a difference of more than 292 years in nanoseconds.) *)
Theorem balance_to_exact_iff total largest :
  Z.abs total <= I128_MAX →
  (Z.abs total ÷ time_unit_nanoseconds largest <= I64_MAX →
   ∃ fields, balance_to total largest = Ok fields ∧
     balanced time_unit_nanoseconds (λ u, time_rank u <? time_rank largest)
       (λ u, time_rank largest <? time_rank u) increment_dividend TIME_UNITS total fields) ∧
  (I64_MAX < Z.abs total ÷ time_unit_nanoseconds largest →
   ∀ fields, balance_to total largest = Ok fields → weigh time_unit_nanoseconds TIME_UNITS fields ≠ total).
Proof.
  intros Hb. destruct (time_units_split largest) as (pre & post & Hsplit & Hch & Hpre & Hpost & Hlen).
  unfold NANOSECONDS_PER_DAY in Hlen.
  assert (Hpre1 : Forall (λ u, bool_decide (u = largest) = false) pre)
    by (by eapply Forall_impl; [exact Hpre|intros ? [? _]]).
  unfold balance_to. rewrite Hsplit. split.
  - intros Hfit. unfold I64_MAX in Hfit.
    destruct (balance_loop_balanced time_unit_nanoseconds increment_dividend (λ u, bool_decide (u = largest)) as_i64
      (λ u, time_rank u <? time_rank largest) (λ u, time_rank largest <? time_rank u) total pre largest post) as [HB HF]; try done.
    + by apply bool_decide_eq_true.
    + by eapply Forall_impl; [exact Hpre|intros ? [_ ?]].
    + apply Z.ltb_irrefl.
    + intros x Hx. apply as_i64_id. unfold I64_MIN, I64_MAX. lia.
    + intros x Hx. apply as_i64_id. unfold I64_MIN, I64_MAX. lia.
    + eexists. split; [|exact HB]. apply mapM_check. intros x Hx.
      apply i64c_Ok. unfold I64_MIN, I64_MAX. pose proof (sgn_cases total).
      assert (0 <= Z.abs total ÷ time_unit_nanoseconds largest) by (apply Z.quot_pos; lia).
      destruct (proj1 (Forall_forall _ _) HF x Hx) as [->|[->|(v & Hv & Hvx)]]; [nia|lia|].
      assert (increment_dividend v <= 1000) by (destruct v; cbn; lia). nia.
  - intros Hbig fields Hok.
    rewrite balance_loop_above in Hok by (done || by apply bool_decide_eq_true).
    apply apply_sign_Ok in Hok as ->; [|intros x y; unfold i64c; destruct (in_i64 x); naive_solver].
    rewrite weigh_scale, weigh_above. cbn [balance_loop andb weigh].
    rewrite (balance_loop_remainder _ increment_dividend) by
      (done || lia || (intros x Hx; apply as_i64_id; unfold I64_MIN, I64_MAX; lia)).
    pose proof (Z.quot_rem' (Z.abs total) (time_unit_nanoseconds largest)) as Hqr.
    pose proof (Z.rem_bound_pos (Z.abs total) (time_unit_nanoseconds largest) ltac:(lia) ltac:(lia)) as Hrb.
    set (q := Z.abs total ÷ time_unit_nanoseconds largest) in *.
    set (r := Z.rem (Z.abs total) (time_unit_nanoseconds largest)) in *. clearbody q r.
    assert (as_i64 q <= I64_MAX) as Hcast by (unfold as_i64, I64_MAX; zlia).
    pose proof (sgn_cases total) as Hs.
    pose proof (Z.mul_lt_mono_pos_r (time_unit_nanoseconds largest) (as_i64 q) q ltac:(lia)) as Hlt.
    rewrite (Z.mul_comm q) in Hlt.
    pose proof (Z.mul_pos_pos (time_unit_nanoseconds largest) q ltac:(lia) ltac:(unfold I64_MAX in *; lia)).
    destruct Hs as [[? ->]|[[? ->]|[? ->]]]; lia.
Qed.
Lemma balance_to_exact_iff_witness :
  (∃ fields, balance_to (-10000000000000000000) TSecond = Ok fields ∧
     weigh time_unit_nanoseconds TIME_UNITS fields = -10000000000000000000) ∧
  balance_to 10000000000000000000 TNanosecond = Ok [0; 0; 0; 0; 0; -8446744073709551616] ∧
  weigh time_unit_nanoseconds TIME_UNITS [0; 0; 0; 0; 0; -8446744073709551616] ≠ 10000000000000000000.
Proof.
  split_and!; [|reflexivity|].
  - destruct (proj1 (balance_to_exact_iff (-10000000000000000000) TSecond ltac:(unfold I128_MAX; lia)))
      as (f & ? & _ & ? & _); [by vm_compute|]. by exists f.
  - apply (proj2 (balance_to_exact_iff 10000000000000000000 TNanosecond ltac:(unfold I128_MAX; lia))); reflexivity.
Defined.

(** ** Duration records *)
Lemma checked_spec z : checked z = if in_i128 z then Some z else None.
Proof. done. Qed.
Lemma in_i128_spec z : in_i128 z = true ↔ I128_MIN <= z <= I128_MAX.
Proof. unfold in_i128. rewrite andb_true_iff, !Z.leb_le. done. Qed.
Lemma checked_twice a j k : 1 <= j → 1 <= k → (v ← checked (a * j); checked (v * k)) = checked (a * j * k).
Proof.
  intros Hj Hk. unfold checked. destruct (in_i128 (a * j)) eqn:E; cbn; [done|]. symmetry.
  destruct (in_i128 (a * j * k)) eqn:E'; [|done].
  apply in_i128_spec in E'. rewrite (proj2 (in_i128_spec _)) in E; [done|].
  unfold I128_MIN, I128_MAX in *. nia.
Qed.

Definition same_sign (l : list Z) : Prop := Forall (λ v, 0 <= v) l ∨ Forall (λ v, v <= 0) l.
Definition time_parts (d : DurationRecord) : list Z :=
  [days d * 86400 * NANOS_PER_SECOND; hours d * 3600 * NANOS_PER_SECOND;
   minutes d * 60 * NANOS_PER_SECOND; seconds d * NANOS_PER_SECOND; milliseconds d * 1000000;
   microseconds d * 1000; nanoseconds d].
Definition sum_Z (l : list Z) : Z := foldr Z.add 0 l.

Lemma normalized_parts_spec d : in_i128 (nanoseconds d) = true →
  normalized_parts d = checked <$> time_parts d.
Proof.
  intros Hn. unfold normalized_parts, time_parts. rewrite !checked_twice by (unfold NANOS_PER_SECOND; lia).
  cbn. repeat f_equal. unfold checked. by rewrite Hn.
Qed.

(** A sum of numbers of one sign overflows on the way only if it does in the end. *)
Lemma try_sum_spec s total l : s = 1 ∨ s = -1 → 0 <= s * total → in_i128 total = true →
  Forall (λ z, 0 <= s * z) l → try_sum total (checked <$> l) = checked (total + sum_Z l).
Proof.
  intros Hs Ht Hin Hl. revert total Ht Hin. induction Hl as [|z l Hz Hl IH]; intros total Ht Hin.
  - cbn. rewrite Z.add_0_r. unfold checked. by rewrite Hin.
  - assert (0 <= s * sum_Z l) as Hsum
      by (clear -Hl; induction Hl; cbn; [lia|]; fold (sum_Z l); lia).
    cbn. fold (sum_Z l). apply in_i128_spec in Hin.
    destruct (checked z) as [v|] eqn:Ez; cbn.
    + unfold checked in Ez. destruct (in_i128 z) eqn:E; [|done]. injection Ez as <-.
      destruct (in_i128 (total + z)) eqn:E'.
      * assert (checked (total + z) = Some (total + z)) as -> by (unfold checked; by rewrite E').
        cbn. rewrite IH by (done || lia). by rewrite Z.add_assoc.
      * assert (checked (total + z) = None) as -> by (unfold checked; by rewrite E').
        cbn. unfold checked.
        destruct (in_i128 (total + (z + sum_Z l))) eqn:E2; [|done].
        apply in_i128_spec in E2. rewrite (proj2 (in_i128_spec _)) in E'; [done|].
        destruct Hs as [-> | ->]; unfold I128_MIN, I128_MAX in *; lia.
    + unfold checked in Ez |- *. destruct (in_i128 z) eqn:E; [done|].
      destruct (in_i128 (total + (z + sum_Z l))) eqn:E2; [|done].
      apply in_i128_spec in E2. rewrite (proj2 (in_i128_spec _)) in E; [done|].
      destruct Hs as [-> | ->]; unfold I128_MIN, I128_MAX in *; lia.
Qed.

Lemma sign_check_spec l s :
  s = match filter (λ v, v ≠ 0) l with v :: _ => Z.sgn v | [] => 0 end →
  existsb (λ v, negb (v =? 0) && negb (Z.sgn v =? s)) l = false ↔ same_sign l.
Proof.
  intros Hs. rewrite <- not_true_iff_false, existsb_exists.
  assert (Hall : ¬ (∃ x, In x l ∧ negb (x =? 0) && negb (Z.sgn x =? s) = true) ↔ Forall (λ v, v = 0 ∨ Z.sgn v = s) l).
  { rewrite Forall_forall. setoid_rewrite list_elem_of_In. split.
    - intros Hn x Hx. destruct (Z.eqb_spec x 0); [auto|]. destruct (Z.eqb_spec (Z.sgn x) s); [auto|].
      exfalso. apply Hn. exists x. split; [done|]. by rewrite (proj2 (Z.eqb_neq x 0)), (proj2 (Z.eqb_neq (Z.sgn x) s)).
    - intros Ha (x & Hx & Hb). destruct (Ha x Hx) as [->|He]; [done|]. rewrite He, Z.eqb_refl, andb_false_r in Hb. done. }
  rewrite Hall. clear Hall. unfold same_sign.
  induction l as [|v l IH]; [split; auto|].
  destruct (decide (v = 0)) as [->|Hv].
  - rewrite filter_cons_False in Hs by lia. rewrite !Forall_cons. rewrite IH by done. split; [intros [_ [?|?]]|intros [[_ ?]|[_ ?]]]; auto with lia.
  - rewrite filter_cons_True in Hs by done. clear IH. rewrite !Forall_cons.
    pose proof (sgn_cases v) as Hc.
    assert (0 < v ∧ s = 1 ∨ v < 0 ∧ s = -1) as Hvs by lia. split.
    + intros [_ Ha]. destruct Hvs as [[? ->]|[? ->]]; [left|right];
        (split; [lia|]); (eapply Forall_impl; [exact Ha|]); intros x Hx; cbn in Hx |- *; pose proof (sgn_cases x); lia.
    + intros Ha. split; [lia|]. destruct Ha as [[? Ha]|[? Ha]];
        (eapply Forall_impl; [exact Ha|]); intros x Hx; cbn in Hx |- *; pose proof (sgn_cases x); lia.
Qed.

(** [IsValidDuration], over exact integers. *)
Definition valid_duration (d : DurationRecord) : Prop :=
  (Z.abs (years d) < 2 ^ 32 ∧ Z.abs (months d) < 2 ^ 32 ∧ Z.abs (weeks d) < 2 ^ 32) ∧
  same_sign (values d) ∧
  Z.abs (from_record_with_24_hour_days d) < 2 ^ 53 * 10 ^ 9.

(** A Duration Record is accepted exactly when it is valid: calendar units below 2^32, fields
    of one sign, and less than 2^53 seconds of days and time.  The checked arithmetic of the code
    does not change the answer: a sum that overflows [i128] is out of range anyway. *)
Theorem validate_exact d : Forall (λ v, in_i128 v = true) (values d) →
  validate d = inr () ↔ valid_duration d.
Proof.
  intros Hin. unfold validate, valid_duration.
  assert (Hcal : existsb (λ v, MAX_CALENDAR_UNIT <=? Z.abs v) [years d; months d; weeks d] = false ↔
    Z.abs (years d) < 2 ^ 32 ∧ Z.abs (months d) < 2 ^ 32 ∧ Z.abs (weeks d) < 2 ^ 32).
  { cbn. rewrite !orb_false_iff, !Z.leb_gt. unfold MAX_CALENDAR_UNIT. change (2 ^ 32) with 4294967296. intuition. }
  pose proof (sign_check_spec (values d) (duration_sign d) eq_refl) as Hsg.
  destruct (existsb _ [_; _; _]); [split; [done|intros (H & _); by apply Hcal in H]|].
  destruct (existsb _ (values d)); [split; [done|intros (_ & H & _); by apply Hsg in H]|].
  pose proof (proj1 Hcal eq_refl) as Hc. pose proof (proj1 Hsg eq_refl) as Hs. clear Hcal Hsg.
  assert (Hn : in_i128 (nanoseconds d) = true) by (unfold values in Hin; by decompose_Forall_hyps).
  rewrite normalized_parts_spec by done.
  assert (∃ s, (s = 1 ∨ s = -1) ∧ Forall (λ z, 0 <= s * z) (time_parts d)) as (s & Hs1 & Hparts).
  { destruct Hs as [Hs|Hs]; [exists 1|exists (-1)]; (split; [auto|]); unfold values in Hs;
      rewrite !Forall_cons in Hs; unfold time_parts, NANOS_PER_SECOND; rewrite !Forall_cons; split_and!; lia || by constructor. }
  rewrite (try_sum_spec s) by (done || lia). rewrite Z.add_0_l.
  assert (He : sum_Z (time_parts d) = from_record_with_24_hour_days d)
    by (unfold sum_Z, time_parts, from_record_with_24_hour_days, from_fields, NANOS_PER_SECOND; cbn [foldr]; lia).
  rewrite He. unfold checked, MAX_NORMALIZED_SECONDS, NANOS_PER_SECOND.
  change (2 ^ 53 * 10 ^ 9) with (9007199254740992 * 1000000000).
  destruct (in_i128 (from_record_with_24_hour_days d)) eqn:E; cbv beta iota.
  - destruct (Z.leb_spec (9007199254740992 * 1000000000) (Z.abs (from_record_with_24_hour_days d))).
    + split; [done|intros (_ & _ & ?); lia].
    + split; [|done]. intros _. split; [exact Hc|]. by split.
  - split; [done|]. intros (_ & _ & Hlt). rewrite (proj2 (in_i128_spec _)) in E; [done|].
    unfold I128_MIN, I128_MAX. lia.
Qed.
Lemma validate_exact_witness :
  valid_duration (Build_DurationRecord 1 2 3 4 5 6 7 8 9 10) ∧
  ¬ valid_duration (Build_DurationRecord 0 0 0 1 (-1) 0 0 0 0 0).
Proof.
  split; [|intros H]; [apply validate_exact|apply validate_exact in H]; try reflexivity;
    repeat constructor || discriminate H.
Defined.

(** ** The quotient as a Number *)
Lemma bit_length_spec n : 0 <= n → n < 2 ^ bit_length n ∧ (0 < n → 2 ^ (bit_length n - 1) <= n) ∧ 0 <= bit_length n.
Proof.
  intros Hn. unfold bit_length. destruct (Z.leb_spec n 0).
  - assert (n = 0) as -> by lia. split_and!; lia.
  - pose proof (Z.log2_spec n ltac:(lia)) as [Hlo Hhi]. rewrite <- Z.add_1_r in Hhi.
    pose proof (Z.log2_nonneg n). rewrite Z.add_simpl_r. lia.
Qed.

Section ratio.
Context (m divisor : Z) (Hm : 0 < m <= I128_MAX) (Hd : 0 < divisor <= I128_MAX).

(** After [k] steps. *)
Definition ratio_inv (e0 : Z) (st : Z * Z * Z) : Prop :=
  let '(a, r, e) := st in
  e <= e0 ∧ m * 2 ^ (e0 - e) = a * divisor + r ∧ 0 <= r < divisor ∧ 0 <= a < 2 ^ 53 ∧ e0 - e <= 190.
Definition ratio_measure (e0 : Z) (st : Z * Z * Z) : nat := Z.to_nat (191 - (e0 - st.2)).

Lemma ratio_loop e0 st : ratio_inv e0 st → (ratio_measure e0 st < 200)%nat →
  ∃ st', iterate 200 (ratio_step divisor) st = Ok st' ∧ ratio_inv e0 st' ∧
    (2 ^ 52 <= st'.1.1 ∨ st'.1.2 = 0).
Proof.
  intros Hst Hlt.
  destruct (iterate_total (ratio_inv e0) (λ _ st', ratio_inv e0 st' ∧ (2 ^ 52 <= st'.1.1 ∨ st'.1.2 = 0))
    (ratio_measure e0) (ratio_step divisor)) with (fuel := 200%nat) (s := st) as (st' & He & HQ); try done; [|by exists st'].
  clear st Hst Hlt. intros [[a r] e] (Hle & Heq & Hr & Ha & Hk). unfold ratio_step.
  unfold I128_MAX in *.
  destruct (Z.ltb_spec a (2 ^ 52)) as [Hlt|Hge]; cbn [andb]; [|eexists; split; [reflexivity|]; split; [split_and!; lia|by left]].
  destruct (Z.eqb_spec r 0) as [->|Hr0]; cbn [negb]; [eexists; split; [reflexivity|]; split; [split_and!; lia|by right]|].
  change (2 ^ 52) with 4503599627370496 in *. change (2 ^ 53) with 9007199254740992 in *.
  assert (Hpow : 2 ^ (e0 - (e - 1)) = 2 * 2 ^ (e0 - e))
    by (replace (e0 - (e - 1)) with (Z.succ (e0 - e)) by lia; apply Z.pow_succ_r; lia).
  assert (Hk' : e0 - e < 190).
  { apply (Z.pow_lt_mono_r_iff 2); [lia..|]. 
    assert (m * 2 ^ (e0 - e) < 4503599627370496 * divisor) by nia.
    assert (2 ^ (e0 - e) <= m * 2 ^ (e0 - e)) by (pose proof (Z.pow_pos_nonneg 2 (e0 - e)); nia).
    change (2 ^ 190) with (4503599627370496 * 348449143727040986586495598010130648530944). lia. }
  rewrite !u128c_Ok by (unfold U128_MAX; lia). cbn [mbind res_bind].
  destruct (Z.leb_spec divisor (r * 2)); (eexists; split; [reflexivity|]); cbn [fst snd].
  - split; [unfold ratio_inv; rewrite Hpow; split_and!; lia|]. split; [unfold ratio_measure; cbn; lia|done].
  - split; [unfold ratio_inv; rewrite Hpow; split_and!; lia|]. split; [unfold ratio_measure; cbn; lia|done].
Qed.
End ratio.

(** [a * 2^e] is the nearest to [m / d] with a significand of 53 bits, ties to even. *)
Definition nearest_ratio (m d a e : Z) : Prop :=
  let n := m * 2 ^ Z.max 0 (- e) in
  let q := d * 2 ^ Z.max 0 e in
  0 < a <= 2 ^ 53 ∧ -190 <= e <= 74 ∧
  2 * Z.abs (n - a * q) <= q ∧ (2 * Z.abs (n - a * q) = q → Z.Even a) ∧ (n = a * q ∨ 2 ^ 52 <= a).

(** The last step: rounding by the remainder. *)
Definition round_ratio (divisor a r : Z) : Z :=
  if r =? 0 then a
  else if (divisor <? r * 2) || ((r * 2 =? divisor) && negb (Z.even a)) then a + 1 else a.

Lemma round_ratio_spec n q a r : 0 < n → n = a * q + r → 0 <= r < q → 0 <= a < 2 ^ 53 →
  2 ^ 52 <= a ∨ r = 0 →
  let a' := round_ratio q a r in
  0 < a' <= 2 ^ 53 ∧ 2 * Z.abs (n - a' * q) <= q ∧ (2 * Z.abs (n - a' * q) = q → Z.Even a') ∧
  (n = a' * q ∨ 2 ^ 52 <= a').
Proof.
  intros Hn Heq Hr Ha Hfin. unfold round_ratio.
  change (2 ^ 52) with 4503599627370496 in *. change (2 ^ 53) with 9007199254740992 in *.
  assert (Hodd : ∀ k, negb (Z.even k) = true → Z.Even (k + 1))
    by (intros k Hk; apply Z.even_spec; rewrite Z.even_add; by destruct (Z.even k)).
  cbn zeta. destruct (Z.eqb_spec r 0) as [->|Hr0].
  { replace (n - a * q) with 0 by lia. split_and!; try nia. }
  destruct Hfin as [Hfin|?]; [|done].
  destruct (_ || _) eqn:E; [apply orb_true_iff in E|apply orb_false_iff in E];
    rewrite ?andb_true_iff, ?andb_false_iff, ?Z.ltb_lt, ?Z.ltb_ge, ?Z.eqb_eq, ?Z.eqb_neq in E.
  - rewrite Z.mul_add_distr_r. split_and!; try lia. intros Ht. apply Hodd. destruct E as [?|[_ ?]]; [lia|done].
  - split_and!; try lia. intros Ht. apply Z.even_spec. destruct E as [? [?|?]]; [lia|]. by destruct (Z.even a).
Qed.

Lemma ratio_start m d : 0 < m <= I128_MAX → 0 < d <= I128_MAX →
  let bits := bit_length (m ÷ d) in
  let e0 := if 53 <? bits then bits - 53 else 0 in
  let q := d * 2 ^ e0 in
  0 <= e0 <= 74 ∧ 0 < q <= I128_MAX ∧
  m = m ÷ q * q + Z.rem m q ∧ 0 <= Z.rem m q < q ∧ 0 <= m ÷ q < 2 ^ 53 ∧ (0 < e0 → 2 ^ 52 <= m ÷ q).
Proof.
  intros Hm Hd. cbn zeta.
  assert (Hw : 0 <= m ÷ d) by (apply Z.quot_pos; lia).
  destruct (bit_length_spec (m ÷ d) Hw) as (Hhi & Hlo & Hb).
  set (bits := bit_length (m ÷ d)) in *.
  rewrite Z.quot_div_nonneg in Hw, Hhi, Hlo by lia.
  pose proof (Z.mul_div_le m d ltac:(lia)) as Hle.
  destruct (Z.ltb_spec 53 bits) as [Hbig|Hsmall].
  - assert (Hpos : 0 < m / d).
    { destruct (Z.lt_trichotomy 0 (m / d)) as [?|[He|?]]; [done| |lia].
      exfalso. unfold bits, bit_length in Hbig. rewrite Z.quot_div_nonneg, <- He in Hbig by lia. cbn in Hbig. lia. }
    specialize (Hlo Hpos).
    assert (Hp : 2 ^ (bits - 1) = 2 ^ 52 * 2 ^ (bits - 53)) by (rewrite <- Z.pow_add_r by lia; f_equal; lia).
    assert (Hp' : 2 ^ bits = 2 ^ 53 * 2 ^ (bits - 53)) by (rewrite <- Z.pow_add_r by lia; f_equal; lia).
    pose proof (Z.pow_pos_nonneg 2 (bits - 53) ltac:(lia) ltac:(lia)) as Hpp.
    set (p := 2 ^ (bits - 53)) in *.
    assert (Hq : 0 < d * p <= m) by (change (2 ^ 52) with 4503599627370496 in *; nia).
    rewrite !Z.quot_div_nonneg, !Z.rem_mod_nonneg by lia.
    pose proof (Z.div_mod m (d * p) ltac:(lia)). pose proof (Z.mod_pos_bound m (d * p) ltac:(lia)).
    rewrite <- Z.div_div in * by lia.
    assert (2 ^ 52 <= m / d / p) by (apply Z.div_le_lower_bound; lia).
    assert (m / d / p < 2 ^ 53) by (apply Z.div_lt_upper_bound; lia).
    split; [|split_and!; try lia].
    split; [lia|]. assert (bits - 1 < 127); [|lia].
    apply (Z.pow_lt_mono_r_iff 2); [lia..|]. unfold I128_MAX in Hm.
    change (2 ^ 127) with 170141183460469231731687303715884105728. nia.
  - rewrite Z.mul_1_r, Z.quot_div_nonneg, Z.rem_mod_nonneg by lia.
    pose proof (Z.div_mod m d ltac:(lia)). pose proof (Z.mod_pos_bound m d ltac:(lia)).
    pose proof (Z.pow_le_mono_r 2 bits 53 ltac:(lia) Hsmall). lia.
Qed.

(** The quotient that becomes a Number is rounded once and correctly: for any two integers of
    [i128] the long division ends, no operation overflows [u128], and the significand and
    exponent it returns are those of the nearest number with 53 significant bits, a tie going to
    the even significand. *)
Theorem ratio_parts_nearest numerator denominator :
  0 < Z.abs numerator <= I128_MAX → 0 < denominator <= I128_MAX →
  ∃ significand exponent, ratio_parts numerator denominator = Ok (significand, exponent) ∧
    nearest_ratio (Z.abs numerator) denominator significand exponent.
Proof.
  intros Hm Hd. unfold ratio_parts, divide. set (m := Z.abs numerator) in *.
  rewrite (Z.abs_eq denominator), (proj2 (Z.eqb_neq denominator 0)) by lia. cbn [mbind res_bind].
  pose proof (ratio_start m denominator Hm Hd) as (He0 & Hq & Heq & Hr & Ha & Hbig).
  set (e0 := if 53 <? _ then _ else 0) in *. set (q := denominator * 2 ^ e0) in *.
  rewrite u128c_Ok by (unfold U128_MAX, I128_MAX in *; lia). cbn [mbind res_bind].
  assert (∃ a r e, iterate 200 (ratio_step q) (m ÷ q, Z.rem m q, e0) = Ok (a, r, e) ∧
    ratio_inv m q e0 (a, r, e) ∧ (2 ^ 52 <= a ∨ r = 0) ∧ (0 < e0 → e = e0)) as (a & r & e & Hit & (Hle & Hinv & Hrb & Hab & Hk) & Hfin & Hsame).
  { assert (HI : ratio_inv m q e0 (m ÷ q, Z.rem m q, e0))
      by (unfold ratio_inv; rewrite Z.sub_diag, Z.mul_1_r; split_and!; lia).
    destruct (decide (0 < e0)) as [H0|H0].
    - exists (m ÷ q), (Z.rem m q), e0. split_and!; [|done|left; by apply Hbig|done].
      apply (iterate_inr _ 199). unfold ratio_step. by rewrite (proj2 (Z.ltb_ge _ _)) by (by apply Hbig).
    - destruct (ratio_loop m q Hm Hq e0 _ HI) as ([[a r] e] & ? & ? & ?); [unfold ratio_measure; cbn [snd]; lia|].
      exists a, r, e. split_and!; try done. }
  rewrite Hit. cbn [mbind res_bind].
  assert (0 < m * 2 ^ (e0 - e)) as Hpos by (pose proof (Z.pow_pos_nonneg 2 (e0 - e)); nia).
  destruct (round_ratio_spec (m * 2 ^ (e0 - e)) q a r Hpos Hinv Hrb Hab Hfin) as (HR1 & HR2 & HR3 & HR4).
  exists (round_ratio q a r), e. split.
  - unfold round_ratio. destruct (Z.eqb_spec r 0); [done|].
    rewrite u128c_Ok by (unfold U128_MAX, I128_MAX in *; lia). cbn [mbind res_bind].
    by destruct (_ || _).
  - unfold nearest_ratio.
    assert (m * 2 ^ Z.max 0 (- e) = m * 2 ^ (e0 - e) ∧ denominator * 2 ^ Z.max 0 e = q) as [-> ->].
    { destruct (decide (0 < e0)) as [H0|H0].
      - rewrite (Hsame H0). unfold q. rewrite Z.sub_diag, Z.max_l, Z.max_r by lia. done.
      - unfold q. assert (e0 = 0) as -> by lia. rewrite Z.max_r, Z.max_l by lia. done. }
    split_and!; try done; try lia.
Qed.
Lemma ratio_parts_nearest_witness :
  ratio_parts (-1) 3 = Ok (6004799503160661, -54) ∧ nearest_ratio 1 3 6004799503160661 (-54).
Proof.
  destruct (ratio_parts_nearest (-1) 3) as (a & e & E & H); [unfold I128_MAX; lia..|].
  split; [reflexivity|]. assert (E' : ratio_parts (-1) 3 = Ok (6004799503160661, -54)) by reflexivity.
  rewrite E in E'. injection E' as -> ->. exact H.
Defined.
