(* ===== verification/TemporalDiff.v ===== *)
(** * Differences of date-times (vm/temporal/plain_date_time_difference.rs)

    [until] and [since] of [PlainDateTime] and [PlainDate]: the unrounded difference, rounding to a
    day or time unit, rounding to a calendar unit between two brackets, and bubbling an expansion
    into the larger units.  A calendar is the interface [Calendar]; the ISO calendar is
    [iso_calendar], the others come from a third-party library.  [None] is the range error of the
    source, [Panic] a failed [expect]. *)

From S2P Require Import Prelude TemporalDate TemporalRound.
Local Open Scope Z_scope.

(** ** Fallible computations: [res (option A)] with [?] *)
Definition try_bind {A B} (m : res (option A)) (k : A → res (option B)) : res (option B) :=
  o ← m; match o with Some a => k a | None => mret None end.
Declare Scope try_scope.
Notation "x ←? m ; k" := (try_bind m (λ x, k))
  (at level 20, m at level 100, k at level 200, only parsing) : try_scope.
Local Open Scope try_scope.

(** ** Calendars *)
Definition DateFields : Type := Z * Z * Z * Z.
(** [calendar_add_date] in constrain mode and [calendar_difference_date] of a calendar. *)
Class Calendar := {
  calendar_add_date : CivilDate → DateFields → res (option CivilDate);
  calendar_difference_date : CivilDate → CivilDate → DateUnit → res DateFields;
}.
Definition iso_calendar : Calendar := {|
  calendar_add_date date fields :=
    let '(years, months, weeks, days) := fields in add_iso_date date years months weeks days false;
  calendar_difference_date := difference_iso_date;
|}.

Record InternalDuration := {
  id_years : Z; id_months : Z; id_weeks : Z; id_days : Z; id_time : Z;
}.
Definition internal (date : DateFields) (time : Z) : InternalDuration :=
  let '(y, m, w, d) := date in Build_InternalDuration y m w d time.
Definition id_date (d : InternalDuration) : DateFields := (id_years d, id_months d, id_weeks d, id_days d).
Definition internal_sign (d : InternalDuration) : Z :=
  let negative :=
    match filter (λ v, v ≠ 0) [id_years d; id_months d; id_weeks d; id_days d] with
    | field :: _ => field <? 0
    | [] => id_time d <? 0
    end in
  if negative then -1 else 1.

Definition time_nanoseconds (time : CivilTime) : Z :=
  let '(h, mi, s, ms, us, ns) := time in time_fields_to_nanoseconds h mi s ms us ns.
Definition epoch_nanoseconds (date : CivilDate) (time : CivilTime) : Z :=
  iso_date_to_epoch_days date * NANOSECONDS_PER_DAY + time_nanoseconds time.
Definition date_unit (unit : TemporalUnit) : DateUnit :=
  match unit with UYear => Year | UMonth => Month | UWeek => Week | _ => Day end.
(** [Ord::min] and [Ord::max] of units *)
Definition unit_min (a b : TemporalUnit) : TemporalUnit := if unit_leb a b then a else b.
Definition unit_max (a b : TemporalUnit) : TemporalUnit := if unit_leb a b then b else a.

(** [TemporalDurationFromInternal]: the ten fields. *)
Definition duration_from_internal (duration : InternalDuration) (largest : TemporalUnit) : res (list Z) :=
  balanced ← balance_with_days (id_time duration) (unit_min largest UDay);
  match balanced with
  | days :: rest =>
      mret (id_years duration :: id_months duration :: id_weeks duration :: id_days duration + days :: rest)
  | [] => Panic
  end.

Section difference.
Context {C : Calendar}.

Definition difference_iso_date_time (date1 : CivilDate) (time1 : CivilTime)
    (date2 : CivilDate) (time2 : CivilTime) (largest : TemporalUnit) : res InternalDuration :=
  let time := time_nanoseconds time2 - time_nanoseconds time1 in
  let time_sign := Z.sgn time in
  let date_sign := match compare_iso_date date1 date2 with Lt => 1 | Gt => -1 | Eq => 0 end in
  adjusted ← (if negb (time_sign =? 0) && (time_sign =? - date_sign)
              then date ← (added ← add_iso_date date2 0 0 0 (- date_sign) false; unwrap added);
                   mret (date, time + date_sign * NANOSECONDS_PER_DAY)
              else mret (date2, time));
  let '(adjusted_date, time) := adjusted in
  fields ← calendar_difference_date date1 adjusted_date (date_unit largest);
  let '(years, months, weeks, days) := fields in
  mret (if unit_ltb largest UDay
        then Build_InternalDuration years months weeks 0 (time + days * NANOSECONDS_PER_DAY)
        else Build_InternalDuration years months weeks days time).

(** ** Rounding *)
Record Point := { p_date : CivilDate; p_time : CivilTime }.
Definition epoch_after (origin : Point) (fields : DateFields) : res (option Z) :=
  date ←? calendar_add_date (p_date origin) fields;
  mret (if is_date_within_limits date then Some (epoch_nanoseconds date (p_time origin)) else None).

Record NudgeWindow := { r1 : Z; w_start : DateFields; w_end : DateFields; start_ns : Z; end_ns : Z }.

(** The closure [truncate] of [compute_nudge_window]. *)
Definition truncate (increment value : Z) : res Z := as_i64 <$> round_to_increment value increment Trunc.
(** [i64::checked_add] *)
Definition checked_add_i64 (a b : Z) : option Z := if in_i64 (a + b) then Some (a + b) else None.

(** The first bracket before the shift: the match on the unit. *)
Definition nudge_base (origin : Point) (duration : InternalDuration) (increment : Z) (unit : TemporalUnit)
  : res (option Z) :=
  let years := id_years duration in
  let months := id_months duration in
  match unit with
  | UYear => Some <$> truncate increment years
  | UMonth => Some <$> truncate increment months
  | _ =>
      weeks_start ←? calendar_add_date (p_date origin) (years, months, 0, 0);
      weeks_end ← (added ← add_iso_date weeks_start 0 0 0 (id_days duration) false; unwrap added);
      fields ← calendar_difference_date weeks_start weeks_end Week;
      let '(_, _, extra_weeks, _) := fields in
      match checked_add_i64 (id_weeks duration) extra_weeks with
      | Some weeks => Some <$> truncate increment weeks
      | None => mret None
      end
  end.
(** The closure [bracket] of [compute_nudge_window]. *)
Definition bracket (duration : InternalDuration) (unit : TemporalUnit) (count : Z) : DateFields :=
  match unit with
  | UYear => (count, 0, 0, 0)
  | UMonth => (id_years duration, count, 0, 0)
  | _ => (id_years duration, id_months duration, count, 0)
  end.

Definition compute_nudge_window (origin : Point) (origin_ns : Z) (duration : InternalDuration)
    (increment : Z) (unit : TemporalUnit) (additional_shift : bool) : res (option NudgeWindow) :=
  let sign := internal_sign duration in
  if negb (in_i64 increment) then mret None else
  if increment <=? 0 then mret None else
  let step := increment * sign in
  base ←? nudge_base origin duration increment unit;
  r1 ←? mret (if additional_shift then checked_add_i64 base step else Some base);
  r2 ←? mret (checked_add_i64 r1 step);
  let bracket := bracket duration unit in
  start_ns ←? (if decide (bracket r1 = (0, 0, 0, 0)) then mret (Some origin_ns)
               else epoch_after origin (bracket r1));
  end_ns ←? epoch_after origin (bracket r2);
  mret (Some (Build_NudgeWindow r1 (bracket r1) (bracket r2) start_ns end_ns)).

Record NudgePosition := { window : NudgeWindow; shifted : bool; numerator : Z; denominator : Z }.
Definition nudge_position (origin : Point) (dest_epoch_ns : Z) (duration : InternalDuration)
    (increment : Z) (unit : TemporalUnit) : res (option NudgePosition) :=
  let sign := internal_sign duration in
  let origin_ns := epoch_nanoseconds (p_date origin) (p_time origin) in
  w ←? compute_nudge_window origin origin_ns duration increment unit false;
  let '(near, far) := if 0 <? sign then (start_ns w, end_ns w) else (end_ns w, start_ns w) in
  ws ←? (if (near <=? dest_epoch_ns) && (dest_epoch_ns <=? far) then mret (Some (w, false))
         else w ←? compute_nudge_window origin origin_ns duration increment unit true;
              mret (Some (w, true)));
  let '(w, shifted) := ws in
  let numerator := dest_epoch_ns - start_ns w in
  let denominator := end_ns w - start_ns w in
  mret (Some (if denominator <? 0
              then Build_NudgePosition w shifted (- numerator) (- denominator)
              else Build_NudgePosition w shifted numerator denominator)).

Definition rounds_up (numerator denominator r1 increment sign : Z) (mode : NumberRoundingMode) : bool :=
  if numerator =? denominator then true
  else if numerator =? 0 then false
  else
    let negative := sign <? 0 in
    let doubled := numerator + numerator in
    match mode with
    | Trunc => false
    | Expand => true
    | Ceil => negb negative
    | Floor => negative
    | HalfTrunc => denominator <? doubled
    | HalfExpand => denominator <=? doubled
    | HalfCeil => if negative then denominator <? doubled else denominator <=? doubled
    | HalfFloor => if negative then denominator <=? doubled else denominator <? doubled
    | HalfEven =>
        if doubled =? denominator then negb (Z.rem (r1 ÷ increment) 2 =? 0) else denominator <? doubled
    end.

Definition nudge_to_calendar_unit (origin : Point) (dest_epoch_ns : Z) (duration : InternalDuration)
    (increment : Z) (unit : TemporalUnit) (mode : NumberRoundingMode)
  : res (option (InternalDuration * Z * bool)) :=
  let sign := internal_sign duration in
  p ←? nudge_position origin dest_epoch_ns duration increment unit;
  let w := window p in
  let rounded_up := rounds_up (numerator p) (denominator p) (r1 w) increment sign mode in
  let '(date, position) := if rounded_up then (w_end w, end_ns w) else (w_start w, start_ns w) in
  mret (Some (internal date 0, position, shifted p || rounded_up)).

Definition nudge_to_day_or_time (dest_epoch_ns : Z) (duration : InternalDuration)
    (largest : TemporalUnit) (increment : Z) (smallest : TemporalUnit) (mode : NumberRoundingMode)
  : res (InternalDuration * Z * bool) :=
  let time_duration := id_time duration + id_days duration * NANOSECONDS_PER_DAY in
  unit_length ← unwrap (unit_nanoseconds smallest);
  step ← i128c (unit_length * increment);
  rounded_time ← round_to_increment time_duration step mode;
  let whole_days := time_duration ÷ NANOSECONDS_PER_DAY in
  let rounded_whole_days := rounded_time ÷ NANOSECONDS_PER_DAY in
  let expanded := Z.sgn (rounded_whole_days - whole_days) =? Z.sgn time_duration in
  let '(days, remainder) :=
    if unit_leb UDay largest
    then (rounded_whole_days, rounded_time - rounded_whole_days * NANOSECONDS_PER_DAY)
    else (0, rounded_time) in
  days ← i64c days;
  mret (internal (id_years duration, id_months duration, id_weeks duration, days) remainder,
        dest_epoch_ns + (rounded_time - time_duration), expanded).

(** One turn of the loop of [bubble_relative_duration]; the state is the unit, the date fields and
    the time. *)
Definition next_unit (unit : TemporalUnit) : TemporalUnit :=
  match unit with UWeek => UMonth | UMonth => UYear | _ => UWeek end.
Definition end_duration (date : DateFields) (unit : TemporalUnit) (sign : Z) : res DateFields :=
  let '(years, months, weeks, days) := date in
  match unit with
  | UYear => y ← i64c (years + sign); mret (y, 0, 0, 0)
  | UMonth => m ← i64c (months + sign); mret (years, m, 0, 0)
  | _ => w ← i64c (weeks + sign); mret (years, months, w, 0)
  end.
Definition bubble_step (origin : Point) (sign nudged_epoch_ns : Z) (largest : TemporalUnit)
    (st : TemporalUnit * DateFields * Z)
  : res ((TemporalUnit * DateFields * Z) + option InternalDuration) :=
  let '(unit, date, time) := st in
  if negb (unit_ltb unit largest) then mret (inr (Some (internal date time))) else
  let unit := next_unit unit in
  if bool_decide (unit = UWeek) && negb (bool_decide (largest = UWeek)) then mret (inl (unit, date, time)) else
  end_duration ← end_duration date unit sign;
  end_ns ← epoch_after origin end_duration;
  match end_ns with
  | None => mret (inr None)
  | Some end_ns =>
      if Z.sgn (nudged_epoch_ns - end_ns) =? - sign then mret (inr (Some (internal date time)))
      else mret (inl (unit, end_duration, 0))
  end.
(** The unit grows in each turn, from a day to a year at most: four turns. *)
Definition bubble_relative_duration (origin : Point) (sign : Z) (nudged : InternalDuration)
    (nudged_epoch_ns : Z) (largest start : TemporalUnit) : res (option InternalDuration) :=
  if unit_leb largest start then mret (Some nudged)
  else iterate 5 (bubble_step origin sign nudged_epoch_ns largest) (start, id_date nudged, id_time nudged).

Definition round_relative_duration (origin : Point) (dest_epoch_ns : Z) (duration : InternalDuration)
    (largest : TemporalUnit) (increment : Z) (smallest : TemporalUnit) (mode : NumberRoundingMode)
  : res (option InternalDuration) :=
  nudge ←? (if is_calendar smallest
            then nudge_to_calendar_unit origin dest_epoch_ns duration increment smallest mode
            else Some <$> nudge_to_day_or_time dest_epoch_ns duration largest increment smallest mode);
  let '(nudged, nudged_epoch_ns, expanded) := nudge in
  if expanded && negb (bool_decide (smallest = UWeek))
  then bubble_relative_duration origin (internal_sign duration) nudged nudged_epoch_ns largest
         (unit_max smallest UDay)
  else mret (Some nudged).

(** ** Entry points *)
Definition difference_plain_date_time (from to : CivilDate * CivilTime) (largest : TemporalUnit)
    (increment : Z) (smallest : TemporalUnit) (mode : NumberRoundingMode) : res (option (list Z)) :=
  let '(date1, time1) := from in
  let '(date2, time2) := to in
  if bool_decide (date1 = date2) && bool_decide (time1 = time2) then mret (Some (replicate 10 0)) else
  diff ← difference_iso_date_time date1 time1 date2 time2 largest;
  rounded ←? (if bool_decide (smallest = UNanosecond) && (increment =? 1) then mret (Some diff)
              else round_relative_duration (Build_Point date1 time1) (epoch_nanoseconds date2 time2)
                     diff largest increment smallest mode);
  Some <$> duration_from_internal rounded largest.

Definition MIDNIGHT : CivilTime := (0, 0, 0, 0, 0, 0).
Definition difference_between_midnights (date1 date2 : CivilDate) (largest : TemporalUnit)
    (increment : Z) (smallest : TemporalUnit) (mode : NumberRoundingMode)
    (unrounded_unit : TemporalUnit) : res (option (list Z)) :=
  if decide (date1 = date2) then mret (Some (replicate 10 0)) else
  fields ← calendar_difference_date date1 date2 (date_unit largest);
  let diff := internal fields 0 in
  rounded ←? (if bool_decide (smallest = unrounded_unit) && (increment =? 1) then mret (Some diff)
              else round_relative_duration (Build_Point date1 MIDNIGHT) (epoch_nanoseconds date2 MIDNIGHT)
                     diff largest increment smallest mode);
  Some <$> duration_from_internal rounded largest.
Definition difference_plain_date (date1 date2 : CivilDate) (largest : TemporalUnit) (increment : Z)
    (smallest : TemporalUnit) (mode : NumberRoundingMode) : res (option (list Z)) :=
  difference_between_midnights date1 date2 largest increment smallest mode UDay.

Definition difference_plain_date_time_total (from to : CivilDate * CivilTime) (unit : TemporalUnit)
  : res (option (Z * Z)) :=
  let '(date1, time1) := from in
  let '(date2, time2) := to in
  if bool_decide (date1 = date2) && bool_decide (time1 = time2) then mret (Some (0, 1)) else
  diff ← difference_iso_date_time date1 time1 date2 time2 unit;
  if negb (is_calendar unit) then
    length ← unwrap (unit_nanoseconds unit);
    mret (Some (id_time diff + id_days diff * NANOSECONDS_PER_DAY, length))
  else
    p ←? nudge_position (Build_Point date1 time1) (epoch_nanoseconds date2 time2) diff 1 unit;
    total ← (a ← i128c (r1 (window p) * denominator p); b ← i128c (numerator p * internal_sign diff);
             i128c (a + b));
    mret (Some (total, denominator p)).
End difference.

(** ** Examples (Test262 values of the sources' tests) *)
Definition ex_from : CivilDate * CivilTime := ((2019, 1, 8), (8, 22, 36, 123, 456, 789)).
Definition ex_to : CivilDate * CivilTime := ((2021, 9, 7), (12, 39, 40, 987, 654, 289)).
Example ex_years : difference_plain_date_time (C := iso_calendar) ex_from ex_to UYear 1 UNanosecond Trunc =
  Ok (Some [2; 7; 0; 30; 4; 17; 4; 864; 197; 500]).
Proof. vm_compute. reflexivity. Qed.
Example ex_years_rounded : difference_plain_date_time (C := iso_calendar) ex_from ex_to UYear 1 UYear HalfExpand =
  Ok (Some [3; 0; 0; 0; 0; 0; 0; 0; 0; 0]).
Proof. vm_compute. reflexivity. Qed.
Example ex_bubble : difference_plain_date_time (C := iso_calendar) ex_from ((2019, 12, 31), (8, 22, 36, 0, 0, 0)) UYear 1 UMonth Ceil =
  Ok (Some [1; 0; 0; 0; 0; 0; 0; 0; 0; 0]).
Proof. vm_compute. reflexivity. Qed.
Example ex_days : difference_plain_date_time (C := iso_calendar) ex_from ex_to UDay 30 UMinute HalfExpand =
  Ok (Some [0; 0; 0; 973; 4; 30; 0; 0; 0; 0]).
Proof. vm_compute. reflexivity. Qed.

(** ** Positions *)
Lemma time_nanoseconds_eq t : time_nanoseconds t = time_ns t.
Proof. by destruct t as [[[[[h mi] s] ms] us] ns]. Qed.
Lemma time_nanoseconds_bounds t : valid_time t → 0 <= time_nanoseconds t < NANOSECONDS_PER_DAY.
Proof. intros Ht. rewrite time_nanoseconds_eq. exact (time_ns_bounds t Ht). Qed.
Lemma epoch_nanoseconds_eq date time :
  epoch_nanoseconds date time = nanoseconds_since_epoch date time 0.
Proof. rewrite nanoseconds_split, Z.sub_0_r. unfold epoch_nanoseconds. by rewrite time_nanoseconds_eq. Qed.

(** The dates of Temporal: [ISODateWithinLimits]. *)
Definition temporal_date (date : CivilDate) : Prop := valid date ∧ is_date_within_limits date = true.
Lemma temporal_date_days date : temporal_date date →
  -100000001 <= iso_date_to_epoch_days date <= 100000000.
Proof.
  intros [_ Hl]. unfold is_date_within_limits, is_date_time_within_limits in Hl.
  apply andb_true_iff in Hl as [Hlo%Z.ltb_lt Hhi%Z.ltb_lt].
  rewrite nanoseconds_split in Hlo, Hhi. unfold INSTANT_LIMIT, NS_PER_DAY in *. cbn [time_ns] in *. lia.
Qed.
Lemma days_in_i32 date : valid date → FIRST_DAY <= iso_date_to_epoch_days date <= LAST_DAY → in_i32 date.1.1 = true.
Proof. destruct date as [[y m] d]. intros Hv ?. by apply (epoch_days_bounds y m d Hv). Qed.
Lemma days_year date : valid date → -100000010 <= iso_date_to_epoch_days date <= 100000010 →
  -272000 <= date.1.1 <= 276000.
Proof.
  destruct date as [[y m] d]. intros Hv Hb.
  pose proof (day_of_march_year_bounds y m d Hv) as HB. cbn zeta in HB.
  pose proof (proj1 (valid_spec y m d) Hv) as (Hm & _).
  pose proof (epoch_days_split y m d Hm) as HS. pose proof (bool_Z_bounds (m <=? 2)).
  cbn [fst snd]. set (y' := y - bool_Z (m <=? 2)) in *.
  assert (0 <= day_of_march_year m d <= 366) as Hdoy.
  { pose proof (is_leap_march (y' + 1)) as HL. rewrite Z.add_simpl_r in HL.
    pose proof (bool_Z_bounds (is_leap_year (y' + 1))). lia. }
  clear HB. assert (-271999 <= y' <= 275999); [|lia].
  assert (-99280542 <= march_days y' + day_of_march_year m d <= 100719478) as HS' by lia.
  clear -HS' Hdoy. unfold march_days in HS'. zlia.
Qed.

(** A neighbouring day, as [add_iso_date] computes it. *)
Lemma shift_day date k : valid date → -100000010 <= iso_date_to_epoch_days date <= 100000010 → -1 <= k <= 1 →
  ∃ date', add_iso_date date 0 0 0 k false = Ok (Some date') ∧ valid date' ∧
    iso_date_to_epoch_days date' = iso_date_to_epoch_days date + k.
Proof.
  intros Hv Hd Hk. assert (Hy : in_i32 date.1.1 = true) by (apply days_in_i32; [done|unfold FIRST_DAY, LAST_DAY; lia]).
  destruct (add_iso_date_exact date 0 0 0 k false Hv Hy) as [_ Hadd]; try (unfold safe, SAFE; lia).
  rewrite landing_zero in Hadd by done.
  destruct Hadd as (r & -> & Hr & Hn); [done|by left|unfold FIRST_DAY, LAST_DAY; lia|].
  exists r. rewrite Hn. split_and!; [done|done|lia].
Qed.

(** The date part of a difference after the possible borrow of a day. *)
Lemma borrow_spec date1 time1 date2 time2 :
  temporal_date date1 → temporal_date date2 → valid_time time1 → valid_time time2 →
  let time := time_nanoseconds time2 - time_nanoseconds time1 in
  let date_sign := match compare_iso_date date1 date2 with Lt => 1 | Gt => -1 | Eq => 0 end in
  ∃ adjusted_date time',
    (if negb (Z.sgn time =? 0) && (Z.sgn time =? - date_sign)
     then date ← (added ← add_iso_date date2 0 0 0 (- date_sign) false; unwrap added);
          mret (date, time + date_sign * NANOSECONDS_PER_DAY)
     else mret (date2, time)) = Ok (adjusted_date, time') ∧
    valid adjusted_date ∧ in_i32 adjusted_date.1.1 = true ∧
    iso_date_to_epoch_days adjusted_date * NANOSECONDS_PER_DAY + time_nanoseconds time1 + time' =
      epoch_nanoseconds date2 time2 ∧
    Z.abs time' < NANOSECONDS_PER_DAY ∧
    -100000002 <= iso_date_to_epoch_days adjusted_date <= 100000001 ∧
    (let s := Z.sgn (epoch_nanoseconds date2 time2 - epoch_nanoseconds date1 time1) in
     0 <= s * time' ∧
     0 <= s * (iso_date_to_epoch_days adjusted_date - iso_date_to_epoch_days date1)).
Proof.
  intros Hd1 Hd2 Ht1 Ht2 time date_sign.
  pose proof (temporal_date_days _ Hd1) as Hb1. pose proof (temporal_date_days _ Hd2) as Hb2.
  destruct Hd1 as [Hv1 _], Hd2 as [Hv2 _].
  pose proof (time_nanoseconds_bounds _ Ht1) as HT1. pose proof (time_nanoseconds_bounds _ Ht2) as HT2.
  pose proof (compare_iso_date_days date1 date2 Hv1 Hv2) as Hc.
  unfold epoch_nanoseconds. set (n1 := iso_date_to_epoch_days date1) in *. set (n2 := iso_date_to_epoch_days date2) in *.
  assert (Hs : date_sign = Z.sgn (n2 - n1)).
  { unfold date_sign. rewrite Hc. destruct (Z.compare_spec n1 n2); [|rewrite Z.sgn_pos; lia|rewrite Z.sgn_neg; lia].
    replace (n2 - n1) with 0 by lia. done. }
  clearbody date_sign. subst date_sign. clear Hc. unfold NANOSECONDS_PER_DAY in *.
  pose proof (sgn_cases time) as Hst. pose proof (sgn_cases (n2 - n1)) as Hsd.
  destruct (negb (Z.sgn time =? 0) && (Z.sgn time =? - Z.sgn (n2 - n1))) eqn:E.
  - apply andb_true_iff in E as [E1%negb_true_iff%Z.eqb_neq E2%Z.eqb_eq].
    destruct (shift_day date2 (- Z.sgn (n2 - n1)) Hv2) as (adj & -> & Hva & Hna); [lia|lia|].
    fold n2 in Hna. eexists _, _. split; [reflexivity|].
    split; [done|]. split; [apply days_in_i32; [done|unfold FIRST_DAY, LAST_DAY; lia]|].
    rewrite Hna. clearbody n1 n2. unfold time in *.
    set (s := Z.sgn (n2 * _ + _ - _)). pose proof (sgn_cases (n2 * (86400 * 1000000000) + time_nanoseconds time2 - (n1 * (86400 * 1000000000) + time_nanoseconds time1))) as Hss.
    fold s in Hss. clearbody s. split_and!; lia.
  - apply andb_false_iff in E. rewrite negb_false_iff, Z.eqb_eq, Z.eqb_neq in E.
    eexists _, _. split; [reflexivity|].
    split; [done|]. split; [apply days_in_i32; [done|unfold FIRST_DAY, LAST_DAY; lia]|].
    fold n2. clearbody n1 n2. unfold time in *.
    set (s := Z.sgn (n2 * _ + _ - _)). pose proof (sgn_cases (n2 * (86400 * 1000000000) + time_nanoseconds time2 - (n1 * (86400 * 1000000000) + time_nanoseconds time1))) as Hss.
    fold s in Hss. clearbody s. split_and!; lia.
Qed.

(** The calendar difference with the sign of the day difference. *)
Lemma difference_iso_signed start end_ unit s : valid start → valid end_ →
  in_i32 start.1.1 = true → in_i32 end_.1.1 = true → s = 0 ∨ s = 1 ∨ s = -1 →
  0 <= s * (iso_date_to_epoch_days end_ - iso_date_to_epoch_days start) →
  ∃ years months weeks days,
    difference_iso_date start end_ unit = Ok (years, months, weeks, days) ∧
    add_iso_date start years months weeks days false = Ok (Some end_) ∧
    (0 <= s * years ∧ 0 <= s * months ∧ 0 <= s * weeks ∧ 0 <= s * days) ∧
    unit_shape unit years months weeks days.
Proof.
  intros Hv1 Hv2 Hy1 Hy2 Hs Hpos. pose proof (compare_iso_date_days start end_ Hv1 Hv2) as Hc.
  destruct (compare_iso_date start end_) eqn:E.
  - apply compare_eq in E as <-. exists 0, 0, 0, 0. split_and!; try lia.
    + unfold difference_iso_date. by rewrite (proj2 (compare_eq start start) eq_refl).
    + apply add_to_end; rewrite ?landing_zero by done; unfold safe, SAFE; done || lia.
    + destruct unit; cbn; lia.
  - symmetry in Hc. rewrite Z.compare_lt_iff in Hc.
    destruct (difference_signed 1 start end_ unit) as (y & m & w & d & ? & ? & ? & ?);
      [done..|left; by apply date_lt_compare in E|].
    exists y, m, w, d. split_and!; try done; nia.
  - symmetry in Hc. rewrite Z.compare_gt_iff in Hc.
    destruct (difference_signed (-1) start end_ unit) as (y & m & w & d & ? & ? & ? & ?);
      [done..|right; by apply date_gt_compare in E|].
    exists y, m, w, d. split_and!; try done; nia.
Qed.

Lemma difference_days a b : valid a → valid b →
  difference_iso_date a b Day = Ok (0, 0, 0, iso_date_to_epoch_days b - iso_date_to_epoch_days a).
Proof.
  intros Ha Hb. unfold difference_iso_date. destruct (compare_iso_date a b) eqn:E; try reflexivity.
  apply compare_eq in E as ->. by rewrite Z.sub_diag.
Qed.

Definition unit_below_day (u : TemporalUnit) : bool := unit_ltb u UDay.

(** C20. The difference of two date-times is what must be added to the first to reach the second:
    the date part is added to the first date and the time part to the position of the result at
    the first time of day.  All parts have the sign of the difference; when a day or a larger
    unit is asked for, the time part is less than a day, also where the times of day run against
    the dates and a day is borrowed; and a time unit leaves no date part. *)
Theorem difference_date_time_exact date1 time1 date2 time2 largest :
  temporal_date date1 → temporal_date date2 → valid_time time1 → valid_time time2 →
  ∃ d landing,
    difference_iso_date_time (C := iso_calendar) date1 time1 date2 time2 largest = Ok d ∧
    calendar_add_date (Calendar := iso_calendar) date1 (id_date d) = Ok (Some landing) ∧
    epoch_nanoseconds landing time1 + id_time d = epoch_nanoseconds date2 time2 ∧
    (let s := Z.sgn (epoch_nanoseconds date2 time2 - epoch_nanoseconds date1 time1) in
     0 <= s * id_years d ∧ 0 <= s * id_months d ∧ 0 <= s * id_weeks d ∧ 0 <= s * id_days d ∧
     0 <= s * id_time d) ∧
    (if unit_below_day largest then id_date d = (0, 0, 0, 0)
     else Z.abs (id_time d) < NANOSECONDS_PER_DAY ∧
          unit_shape (date_unit largest) (id_years d) (id_months d) (id_weeks d) (id_days d)).
Proof.
  intros Hd1 Hd2 Ht1 Ht2.
  destruct (borrow_spec date1 time1 date2 time2 Hd1 Hd2 Ht1 Ht2) as (adj & time' & Hb & Hva & Hya & Hpos & Htime & Hadj & Hst & Hsd).
  unfold difference_iso_date_time. rewrite Hb. cbn [mbind res_bind].
  pose proof (temporal_date_days _ Hd1) as Hb1. destruct Hd1 as [Hv1 _].
  assert (Hy1 : in_i32 date1.1.1 = true) by (apply days_in_i32; [done|unfold FIRST_DAY, LAST_DAY; lia]).
  cbn zeta in Hst, Hsd.
  set (s := Z.sgn (epoch_nanoseconds date2 time2 - epoch_nanoseconds date1 time1)) in *.
  assert (Hs : s = 0 ∨ s = 1 ∨ s = -1) by (unfold s; pose proof (sgn_cases (epoch_nanoseconds date2 time2 - epoch_nanoseconds date1 time1)); lia).
  clearbody s.
  destruct (difference_iso_signed date1 adj (date_unit largest) s Hv1 Hva Hy1 Hya Hs Hsd)
    as (y & m & w & d & Hdiff & Hadd & (Hsy & Hsm & Hsw & Hsday) & Hshape).
  cbn [calendar_difference_date iso_calendar]. rewrite Hdiff. cbn [mbind res_bind mret res_ret].
  unfold unit_below_day. destruct (unit_ltb largest UDay) eqn:El.
  - assert (date_unit largest = Day) as Hday by (by destruct largest).
    rewrite Hday in Hshape. destruct Hshape as (-> & -> & ->).
    eexists _, date1. split; [reflexivity|]. cbn [id_date id_years id_months id_weeks id_days id_time].
    assert (Hn : iso_date_to_epoch_days adj = iso_date_to_epoch_days date1 + d)
      by (rewrite Hday, difference_days in Hdiff by done; injection Hdiff; lia).
    split; [|split; [|split; [|done]]].
    + change (add_iso_date date1 0 0 0 0 false = Ok (Some date1)). apply add_to_end; rewrite ?landing_zero by done; unfold safe, SAFE; done || lia.
    + unfold epoch_nanoseconds in *. rewrite Hn in Hpos. lia.
    + split_and!; try lia. unfold NANOSECONDS_PER_DAY in *. nia.
  - eexists _, adj. split; [reflexivity|]. cbn [id_date id_years id_months id_weeks id_days id_time].
    split; [exact Hadd|]. split; [unfold epoch_nanoseconds in *; lia|]. split; [lia|done].
Qed.

Lemma difference_date_time_exact_witness :
  ∃ d landing,
    difference_iso_date_time (C := iso_calendar) (2019, 1, 31) (22, 0, 0, 0, 0, 0) (2019, 3, 1) (4, 0, 0, 0, 0, 1) UMonth = Ok d ∧
    add_iso_date (2019, 1, 31) (id_years d) (id_months d) (id_weeks d) (id_days d) false = Ok (Some landing) ∧
    epoch_nanoseconds landing (22, 0, 0, 0, 0, 0) + id_time d = epoch_nanoseconds (2019, 3, 1) (4, 0, 0, 0, 0, 1) ∧
    Z.abs (id_time d) < NANOSECONDS_PER_DAY.
Proof.
  destruct (difference_date_time_exact (2019, 1, 31) (22, 0, 0, 0, 0, 0) (2019, 3, 1) (4, 0, 0, 0, 0, 1) UMonth)
    as (d & landing & ? & ? & ? & _ & ? & _); [by split..|cbn; lia|cbn; lia|].
  exists d, landing. repeat split; assumption.
Defined.

(** ** Rounding to days and time units *)
Lemma difference_below_week date1 time1 date2 time2 largest :
  unit_leb largest UDay = true →
  temporal_date date1 → temporal_date date2 → valid_time time1 → valid_time time2 →
  ∃ days time,
    difference_iso_date_time (C := iso_calendar) date1 time1 date2 time2 largest =
      Ok (Build_InternalDuration 0 0 0 days time) ∧
    let total := epoch_nanoseconds date2 time2 - epoch_nanoseconds date1 time1 in
    days * NANOSECONDS_PER_DAY + time = total ∧
    (days, time) = if unit_leb UDay largest
      then (total ÷ NANOSECONDS_PER_DAY, total - total ÷ NANOSECONDS_PER_DAY * NANOSECONDS_PER_DAY)
      else (0, total).
Proof.
  intros Hl Hd1 Hd2 Ht1 Ht2.
  destruct (borrow_spec date1 time1 date2 time2 Hd1 Hd2 Ht1 Ht2) as (adj & time' & Hb & Hva & Hya & Hpos & Htb & _ & Hsg1 & Hsg2).
  unfold difference_iso_date_time. rewrite Hb. cbn [mbind res_bind].
  assert (date_unit largest = Day) as -> by (by destruct largest).
  cbn [calendar_difference_date iso_calendar]. destruct Hd1 as [Hv1 _].
  rewrite difference_days by done. cbn [mbind res_bind mret res_ret].
  set (total := epoch_nanoseconds date2 time2 - epoch_nanoseconds date1 time1) in *.
  assert (Hsum : (iso_date_to_epoch_days adj - iso_date_to_epoch_days date1) * NANOSECONDS_PER_DAY + time' = total)
    by (unfold total, epoch_nanoseconds in *; lia).
  pose proof (sgn_cases total) as Hs. clearbody total. unfold NANOSECONDS_PER_DAY in *.
  set (n := iso_date_to_epoch_days adj - iso_date_to_epoch_days date1) in *. clearbody n. clear Hpos Hb.
  destruct (unit_ltb largest UDay) eqn:El; eexists _, _; (split; [reflexivity|]).
  - assert (unit_leb UDay largest = false) as -> by (by destruct largest). split; [lia|]. f_equal. lia.
  - assert (unit_leb UDay largest = true) as -> by (by destruct largest). split; [lia|].
    assert (total ÷ (86400 * 1000000000) = n) as -> by zlia. f_equal. lia.
Qed.

Definition all_balanced (largest : TemporalUnit) (total : Z) (fields : list Z) : Prop :=
  balanced exact_length (λ u, unit_ltb u largest) (λ u, unit_ltb largest u) capacity DAY_UNITS total fields.

Lemma all_balanced_zero largest : unit_leb largest UDay = true → all_balanced largest 0 (replicate 7 0).
Proof.
  intros Hl. unfold all_balanced, balanced. split_and!; [done|reflexivity|].
  unfold DAY_UNITS. cbn [replicate].
  destruct largest; try discriminate Hl;
    repeat (apply Forall2_cons_2; [split; [by left|split; [done|]]; by vm_compute|]); apply Forall2_nil_2.
Qed.

Lemma weigh_signed {U} (length_of : U → Z) (P : U → Z → Prop) s units fields :
  (∀ u, 0 < length_of u) →
  Forall2 (λ u f, (f = 0 ∨ Z.sgn f = s) ∧ P u f) units fields → 0 <= s * weigh length_of units fields.
Proof.
  intros Hl HF. induction HF as [|u f units fields [Hf _] _ IH]; cbn; [lia|].
  specialize (Hl u). pose proof (sgn_cases f).
  destruct Hf as [->|Hf]; [lia|]. assert (0 <= s * f) by nia. nia.
Qed.
Lemma exact_length_pos u : 0 < exact_length u.
Proof. by destruct u. Qed.

Lemma split_days_sign total :
  let q := total ÷ NANOSECONDS_PER_DAY in
  let time := total - q * NANOSECONDS_PER_DAY in
  Z.abs time < NANOSECONDS_PER_DAY ∧ (q = 0 ∨ Z.sgn q = Z.sgn total) ∧
  (time = 0 ∨ Z.sgn time = Z.sgn total).
Proof.
  cbn zeta. unfold NANOSECONDS_PER_DAY.
  pose proof (Z.quot_rem' total (86400 * 1000000000)) as Hqr.
  pose proof (sgn_cases total). pose proof (sgn_cases (total ÷ (86400 * 1000000000))).
  pose proof (sgn_cases (total - total ÷ (86400 * 1000000000) * (86400 * 1000000000))).
  split_and!; zlia.
Qed.

(** Splitting whole days off before balancing. *)
Lemma balance_split_days largest total : unit_leb largest UDay = true → Z.abs total <= I128_MAX →
  let '(days, time) := if unit_leb UDay largest
    then (total ÷ NANOSECONDS_PER_DAY, total - total ÷ NANOSECONDS_PER_DAY * NANOSECONDS_PER_DAY)
    else (0, total) in
  ∃ fields, duration_from_internal (Build_InternalDuration 0 0 0 days time) largest =
    Ok (0 :: 0 :: 0 :: fields) ∧ all_balanced largest total fields.
Proof.
  intros Hl Hb. unfold duration_from_internal. cbn [id_time id_years id_months id_weeks id_days].
  assert (unit_min largest UDay = largest) as Hmin by (unfold unit_min; by rewrite Hl).
  destruct (unit_leb UDay largest) eqn:Hd; rewrite Hmin.
  - assert (largest = UDay) as -> by (destruct largest; try discriminate; done).
    set (q := total ÷ NANOSECONDS_PER_DAY). set (time := total - q * NANOSECONDS_PER_DAY).
    destruct (split_days_sign total) as (Htime & Hq & Hts). fold q time in Htime, Hq, Hts.
    rewrite ?Hmin. destruct (balance_with_days_exact time UDay Hl) as (fields & -> & Hlen & Hw & HF); [unfold NANOSECONDS_PER_DAY, I128_MAX in *; lia|].
    cbn [mbind res_bind]. destruct fields as [|d0 rest]; [done|]. eexists. split; [reflexivity|].
    assert (Hunits : DAY_UNITS = UDay :: tail DAY_UNITS) by reflexivity.
    unfold all_balanced, balanced.
    rewrite Hunits in HF, Hw |- *. set (units := tail DAY_UNITS) in *. clearbody units.
    apply Forall2_cons in HF as [(Hd0 & _) HF]. cbn [weigh] in Hw.
    change (exact_length UDay) with NANOSECONDS_PER_DAY in Hw.
    pose proof (weigh_signed _ _ _ _ _ exact_length_pos HF) as Hrest.
    pose proof (sgn_cases time) as Hsgt. pose proof (sgn_cases d0) as Hsg0.
    assert (d0 = 0) as -> by (unfold NANOSECONDS_PER_DAY in *; nia).
    rewrite Z.add_0_r, Z.mul_0_l, Z.add_0_l in *. split_and!; [by rewrite Hunits in Hlen| |].
    + cbn [weigh]. change (exact_length UDay) with NANOSECONDS_PER_DAY. lia.
    + apply Forall2_cons_2; [split; [exact Hq|split; discriminate]|].
      eapply Forall2_impl; [exact HF|]. intros u f (Hf & Hab & Hbe). split; [|done].
      pose proof (sgn_cases f). pose proof (sgn_cases total). lia.
  - destruct (balance_with_days_exact total largest Hl Hb) as (fields & -> & HB).
    cbn [mbind res_bind]. pose proof HB as (Hlen & _ & _).
    destruct fields as [|d0 rest]; [done|]. rewrite Z.add_0_l. by eexists.
Qed.

Lemma epoch_nanoseconds_bounds date time : temporal_date date → valid_time time →
  Z.abs (epoch_nanoseconds date time) <= 100000002 * NANOSECONDS_PER_DAY.
Proof.
  intros Hd Ht. pose proof (temporal_date_days _ Hd). pose proof (time_nanoseconds_bounds _ Ht).
  unfold epoch_nanoseconds, NANOSECONDS_PER_DAY in *. lia.
Qed.

Lemma rounded_close mode value increment result : 0 < increment → rounded mode value increment result →
  Z.abs result <= Z.abs value + increment.
Proof. intros ? (_ & ? & _). lia. Qed.

Lemma unit_day_length smallest : unit_leb smallest UDay = true →
  unit_nanoseconds smallest = Some (exact_length smallest) ∧ 0 < exact_length smallest <= NANOSECONDS_PER_DAY.
Proof. by destruct smallest. Qed.

(** Rounding the exact total and splitting the days off. *)
Lemma nudge_to_day_or_time_spec dest y m w days time largest increment smallest mode :
  unit_leb smallest UDay = true → 0 < increment <= 1000000000 →
  let total := days * NANOSECONDS_PER_DAY + time in
  Z.abs total <= 500000000 * NANOSECONDS_PER_DAY →
  ∃ r days' time' position expanded,
    nudge_to_day_or_time dest (Build_InternalDuration y m w days time) largest increment smallest mode =
      Ok (Build_InternalDuration y m w days' time', position, expanded) ∧
    rounded mode total (exact_length smallest * increment) r ∧ Z.abs r <= I128_MAX ∧
    (days', time') = if unit_leb UDay largest
      then (r ÷ NANOSECONDS_PER_DAY, r - r ÷ NANOSECONDS_PER_DAY * NANOSECONDS_PER_DAY) else (0, r).
Proof.
  intros Hs Hi total Ht. destruct (unit_day_length smallest Hs) as [Hlen Hpos].
  unfold nudge_to_day_or_time. rewrite Hlen. cbn [mbind res_bind unwrap id_time id_days id_years id_months id_weeks].
  rewrite (Z.add_comm time). fold total.
  set (step := exact_length smallest * increment).
  assert (0 < step <= NANOSECONDS_PER_DAY * 1000000000) as Hstep by (unfold step, NANOSECONDS_PER_DAY in *; nia).
  clearbody step. unfold NANOSECONDS_PER_DAY in Hstep, Ht.
  rewrite i128c_Ok by (unfold I128_MIN, I128_MAX; lia). cbn [mbind res_bind].
  destruct (round_to_increment_rounded total step mode ltac:(lia)) as (r & -> & Hr); [unfold I128_MAX; lia|].
  cbn [mbind res_bind]. pose proof (rounded_close mode total step r ltac:(lia) Hr) as Hrb.
  assert (Z.abs r <= I128_MAX) by (unfold I128_MAX; lia).
  destruct (unit_leb UDay largest).
  - rewrite i64c_Ok by (unfold I64_MIN, I64_MAX, NANOSECONDS_PER_DAY; zlia). cbn [mbind res_bind mret res_ret internal].
    by eexists r, _, _, _, _.
  - rewrite i64c_Ok by (unfold I64_MIN, I64_MAX; lia). cbn [mbind res_bind mret res_ret internal].
    by eexists r, _, _, _, _.
Qed.

(** C19. Rounded differences in days and time units are exact.  For date-times in Temporal's range,
    a largest and a smallest unit of a day or less and an increment up to 10^9, the whole
    computation (borrowing a day, rounding, splitting off days, bubbling, balancing) returns, and
    its fields, which are balanced, add up to the difference of the two positions in nanoseconds
    rounded in the mode asked for. *)
Theorem difference_rounded_exact date1 time1 date2 time2 largest increment smallest mode :
  temporal_date date1 → temporal_date date2 → valid_time time1 → valid_time time2 →
  unit_leb largest UDay = true → unit_leb smallest UDay = true → 0 < increment <= 1000000000 →
  let difference := epoch_nanoseconds date2 time2 - epoch_nanoseconds date1 time1 in
  ∃ r fields,
    difference_plain_date_time (C := iso_calendar) (date1, time1) (date2, time2) largest increment smallest mode =
      Ok (Some (0 :: 0 :: 0 :: fields)) ∧
    rounded mode difference (exact_length smallest * increment) r ∧
    all_balanced largest r fields.
Proof.
  intros Hd1 Hd2 Ht1 Ht2 Hl Hs Hi difference.
  destruct (unit_day_length smallest Hs) as [Hlen Hpos].
  unfold difference_plain_date_time.
  destruct (bool_decide (date1 = date2) && bool_decide (time1 = time2)) eqn:Heq.
  { apply andb_true_iff in Heq as [<-%bool_decide_eq_true <-%bool_decide_eq_true].
    exists 0, (replicate 7 0). split; [done|]. unfold difference. rewrite Z.sub_diag.
    split; [apply rounded_multiple; [nia|by exists 0]|by apply all_balanced_zero]. }
  destruct (difference_below_week date1 time1 date2 time2 largest Hl Hd1 Hd2 Ht1 Ht2) as (days & time & -> & Hsum & Hsplit).
  cbn zeta in Hsum, Hsplit. fold difference in Hsum, Hsplit. cbn [mbind res_bind].
  pose proof (epoch_nanoseconds_bounds _ _ Hd1 Ht1). pose proof (epoch_nanoseconds_bounds _ _ Hd2 Ht2).
  assert (Z.abs difference <= 200000004 * NANOSECONDS_PER_DAY) as Hdb by (unfold difference, NANOSECONDS_PER_DAY in *; lia).
  clearbody difference.
  destruct (bool_decide (smallest = UNanosecond) && (increment =? 1)) eqn:Hone.
  - apply andb_true_iff in Hone as [->%bool_decide_eq_true ->%Z.eqb_eq].
    pose proof (balance_split_days largest difference Hl) as HB. rewrite <- Hsplit in HB.
    destruct HB as (fields & Hfields & HB); [unfold NANOSECONDS_PER_DAY, I128_MAX in *; lia|].
    exists difference, fields. unfold try_bind. cbn [mbind res_bind mret res_ret]. rewrite Hfields.
    split; [done|]. split; [|done]. apply rounded_multiple; [lia|]. apply Z.divide_1_l.
  - assert (Hcal : is_calendar smallest = false) by (by destruct smallest).
    destruct (nudge_to_day_or_time_spec (epoch_nanoseconds date2 time2) 0 0 0 days time largest increment smallest mode Hs Hi)
      as (r & days' & time' & position & expanded & Hnudge & Hr & Hrb & Hsplit'); [rewrite Hsum; unfold NANOSECONDS_PER_DAY in *; lia|].
    rewrite Hsum in Hr.
    pose proof (balance_split_days largest r Hl Hrb) as HB.
    rewrite <- Hsplit' in HB. destruct HB as (fields & Hfields & HB).
    exists r, fields. split; [|done].
    unfold round_relative_duration. rewrite Hcal, Hnudge.
    unfold try_bind. cbn [mbind res_bind fmap res_fmap].
    assert (Hmax : unit_max smallest UDay = UDay) by (unfold unit_max; by rewrite Hs).
    rewrite Hmax. unfold bubble_relative_duration. rewrite Hl.
    destruct (expanded && _); cbn [mbind res_bind mret res_ret]; by rewrite Hfields.
Qed.

Lemma difference_rounded_exact_witness :
  ∃ r fields,
    difference_plain_date_time (C := iso_calendar) ((2019, 1, 8), (8, 22, 36, 123, 456, 789))
      ((2021, 9, 7), (12, 39, 40, 987, 654, 289)) UDay 30 UMinute HalfExpand = Ok (Some (0 :: 0 :: 0 :: fields)) ∧
    rounded HalfExpand (epoch_nanoseconds (2021, 9, 7) (12, 39, 40, 987, 654, 289) -
      epoch_nanoseconds (2019, 1, 8) (8, 22, 36, 123, 456, 789)) (exact_length UMinute * 30) r ∧
    all_balanced UDay r fields.
Proof.
  destruct (difference_rounded_exact (2019, 1, 8) (8, 22, 36, 123, 456, 789) (2021, 9, 7) (12, 39, 40, 987, 654, 289)
    UDay 30 UMinute HalfExpand) as (r & fields & ? & ? & ?); [by split..|cbn; lia|cbn; lia|done|done|lia|].
  exists r, fields. split; [assumption|split; assumption].
Defined.

(** ** Every difference returns *)
Lemma add_iso_date_returns date years months weeks days reject : valid date → in_i32 date.1.1 = true →
  safe years → safe months → safe weeks → safe days →
  ∃ o, add_iso_date date years months weeks days reject = Ok o.
Proof.
  destruct date as [[y m] d]. intros Hv Hy Hys Hms Hws Hds.
  rewrite add_iso_date_eq by done. cbn zeta.
  pose proof (landing_valid _ years months Hv) as Hl.
  destruct (landing (y, m, d) years months) as [[Y M] D]. cbn [fst snd].
  destruct (in_i32 Y) eqn:HY; cbn [negb]; [|by eexists]. destruct (reject && _); [by eexists|].
  pose proof (proj1 (epoch_days_bounds Y M D Hl) HY) as Hb.
  apply valid_length in Hl as (HM & HD). pose proof (month_length_bounds Y M HM).
  unfold safe, SAFE, FIRST_DAY, LAST_DAY in *.
  rewrite balance_iso_date_spec by (unfold SAFE; done || lia).
  replace (D + days + weeks * 7) with (D + (days + weeks * 7)) by lia.
  rewrite epoch_days_add by done. unfold epoch_days_to_iso_date.
  rewrite i64c_Ok by (unfold I64_MIN, I64_MAX; lia). by eexists.
Qed.

(** The fields of a difference are bounded by the distance of the dates. *)
Lemma difference_iso_bounds start end_ unit years months weeks days :
  valid start → valid end_ → in_i32 start.1.1 = true → in_i32 end_.1.1 = true →
  difference_iso_date start end_ unit = Ok (years, months, weeks, days) →
  Z.abs (12 * years + months) <= 12 * Z.abs (end_.1.1 - start.1.1) + 13 ∧
  Z.abs (weeks * 7 + days) <= Z.abs (iso_date_to_epoch_days end_ - iso_date_to_epoch_days start) + 30.
Proof.
  intros Hv1 Hv2 Hy1 Hy2 Hd.
  destruct (difference_iso_date_exact start end_ unit Hv1 Hv2 Hy1 Hy2) as (y & m & w & d & He & _ & _ & Hshape).
  rewrite Hd in He. injection He as <- <- <- <-.
  destruct (compare_iso_date start end_) eqn:Hc.
  { unfold difference_iso_date in Hd. rewrite Hc in Hd. injection Hd as <- <- <- <-. lia. }
  all: destruct (is_year_or_month unit) eqn:Hu; [|
    unfold difference_iso_date in Hd; rewrite Hc, Hu in Hd; cbn [negb] in Hd;
    destruct (decide (unit = Week)); injection Hd as <- <- <- <-; zlia].
  all: assert (∃ s, (s = 1 ∨ s = -1) ∧ (s = 1 ∧ date_lt start end_ ∨ s = -1 ∧ date_lt end_ start)) as (s & Hs1 & Hs)
    by ((apply date_lt_compare in Hc || apply date_gt_compare in Hc); (exists 1; by auto) || (exists (-1); by auto)).
  all: pose proof (difference_months s start end_ unit Hv1 Hv2 Hy1 Hy2 Hu Hs) as HD.
  all: destruct start as [[y1 m1] d1], end_ as [[ey em] ed]; unfold whole_units in HD; cbn [fst snd] in *.
  all: apply valid_length in Hv1 as (Hm1 & _), Hv2 as (Hem & _).
  all: set (far := surpasses _ _ _) in HD; set (back := 0 <? _) in HD; clearbody far back.
  all: assert (Z.abs days <= 30 ∧ weeks = 0) as [? ->] by (destruct unit; try discriminate Hu; cbn in Hshape; tauto).
  all: destruct (decide (unit = Month)); rewrite Hd in HD; injection HD; intros _ -> ->;
    destruct far, back; cbn [bool_Z]; destruct Hs1 as [-> | ->]; lia.
Qed.

(** Fields of the size that differences of Temporal dates have. *)
Definition small_duration (d : InternalDuration) : Prop :=
  Z.abs (id_years d) <= 7000000 ∧ Z.abs (id_months d) <= 7000000 ∧
  Z.abs (id_weeks d * 7 + id_days d) <= 200000100 ∧ Z.abs (id_weeks d) <= 200000100 ∧
  Z.abs (id_days d) <= 200000100 ∧ Z.abs (id_time d) <= 200000100 * NANOSECONDS_PER_DAY.

Lemma difference_small date1 time1 date2 time2 largest :
  temporal_date date1 → temporal_date date2 → valid_time time1 → valid_time time2 →
  ∃ d, difference_iso_date_time (C := iso_calendar) date1 time1 date2 time2 largest = Ok d ∧ small_duration d ∧
    (unit_leb UWeek largest = true → Z.abs (id_days d) <= 30 ∧ Z.abs (id_time d) < NANOSECONDS_PER_DAY).
Proof.
  intros Hd1 Hd2 Ht1 Ht2.
  destruct (borrow_spec date1 time1 date2 time2 Hd1 Hd2 Ht1 Ht2) as (adj & time' & Hb & Hva & Hya & Hpos & Htime & Hadj & _).
  unfold difference_iso_date_time. rewrite Hb. cbn [mbind res_bind].
  pose proof (temporal_date_days _ Hd1) as Hb1. destruct Hd1 as [Hv1 _].
  assert (Hy1 : in_i32 date1.1.1 = true) by (apply days_in_i32; [done|unfold FIRST_DAY, LAST_DAY; lia]).
  pose proof (days_year date1 Hv1 ltac:(lia)) as HY1. pose proof (days_year adj Hva ltac:(lia)) as HYa.
  assert (∃ s, (s = 1 ∨ s = -1) ∧ 0 <= s * (iso_date_to_epoch_days adj - iso_date_to_epoch_days date1)) as (s & Hs & Hsn)
    by (destruct (Z.le_ge_cases 0 (iso_date_to_epoch_days adj - iso_date_to_epoch_days date1));
        [exists 1|exists (-1)]; lia).
  destruct (difference_iso_signed date1 adj (date_unit largest) s Hv1 Hva Hy1 Hya ltac:(lia) Hsn)
    as (y & m & w & d & Hdiff & _ & (Hsy & Hsm & Hsw & Hsd) & Hshape).
  destruct (difference_iso_bounds _ _ _ _ _ _ _ Hv1 Hva Hy1 Hya Hdiff) as [HB1 HB2].
  cbn [calendar_difference_date iso_calendar]. rewrite Hdiff. cbn [mbind res_bind mret res_ret].
  unfold NANOSECONDS_PER_DAY in *.
  assert (Hf : Z.abs y <= 7000000 ∧ Z.abs m <= 7000000 ∧ Z.abs (w * 7 + d) <= 200000100 ∧
    Z.abs w <= 200000100 ∧ Z.abs d <= 200000100).
  { destruct Hs as [-> | ->]; lia. }
  destruct Hf as (Hf1 & Hf2 & Hf3 & Hf4 & Hf5).
  destruct (unit_ltb largest UDay) eqn:El.
  - assert (date_unit largest = Day) as Hday by (by destruct largest). rewrite Hday in Hshape. destruct Hshape as (-> & -> & ->).
    eexists. split; [reflexivity|]. unfold small_duration, NANOSECONDS_PER_DAY. cbn [id_years id_months id_weeks id_days id_time].
    split; [split_and!; lia|]. intros ?. by destruct largest.
  - eexists. split; [reflexivity|]. unfold small_duration, NANOSECONDS_PER_DAY. cbn [id_years id_months id_weeks id_days id_time].
    split; [split_and!; lia|]. intros Hw. split; [|lia].
    destruct largest; try discriminate Hw; cbn in Hshape; lia.
Qed.

Lemma truncate_returns increment value : 0 < increment <= 1000000000 → Z.abs value <= 10000000000 →
  ∃ r, truncate increment value = Ok r ∧ Z.abs r <= Z.abs value.
Proof.
  intros Hi Hv. unfold truncate.
  destruct (round_to_increment_rounded value increment Trunc ltac:(lia)) as (r & -> & _ & _ & Hr & _); [unfold I128_MAX; lia|].
  exists r. cbn [fmap res_fmap]. rewrite as_i64_id by (unfold I64_MIN, I64_MAX; lia). done.
Qed.

(** Years, months and weeks of at most [n], and no days: an addition accepts them for [n] up to
    4·10^9, the brackets of a window stay below 3·10^9. *)
Definition fields_within (n : Z) (fields : DateFields) : Prop :=
  let '(y, m, w, d) := fields in Z.abs y <= n ∧ Z.abs m <= n ∧ Z.abs w <= n ∧ d = 0.

Lemma fields_within_mono fields : fields_within 3000000000 fields → fields_within 4000000000 fields.
Proof. destruct fields as [[[y m] w] d]. unfold fields_within. lia. Qed.

Lemma epoch_after_returns origin fields : valid (p_date origin) → in_i32 (p_date origin).1.1 = true →
  fields_within 4000000000 fields → ∃ o, epoch_after (C := iso_calendar) origin fields = Ok o.
Proof.
  destruct fields as [[[y m] w] d]. intros Hv Hy (Hfy & Hfm & Hfw & ->). unfold epoch_after.
  cbn [calendar_add_date iso_calendar].
  destruct (add_iso_date_returns (p_date origin) y m w 0 false) as ([r|] & ->); try done;
    [unfold safe, SAFE; lia..| |]; cbn; by eexists.
Qed.

Lemma year_days date : valid date → -8000000 <= date.1.1 <= 8000000 →
  -4000000000 <= iso_date_to_epoch_days date <= 4000000000.
Proof.
  destruct date as [[y m] d]. cbn [fst snd]. intros Hv Hb.
  pose proof (year_of_date_bounds y m d Hv) as HB. rewrite !year_start, Z.add_simpl_r in HB.
  unfold march_days in HB. zlia.
Qed.

(** The whole weeks in the day remainder. *)
Lemma window_weeks date years months days : temporal_date date →
  Z.abs years <= 7000000 → Z.abs months <= 7000000 → Z.abs days <= 30 →
  ∃ start_ end_ fields,
    add_iso_date date years months 0 0 false = Ok (Some start_) ∧
    add_iso_date start_ 0 0 0 days false = Ok (Some end_) ∧
    difference_iso_date start_ end_ Week = Ok fields ∧ Z.abs fields.1.2 <= 10.
Proof.
  intros Hd Hy Hm Hda. pose proof (temporal_date_days _ Hd) as Hb. destruct Hd as [Hv _].
  pose proof (days_year date Hv ltac:(lia)) as Hyb.
  assert (Hi : in_i32 date.1.1 = true) by (apply in_i32_spec; unfold I32_MIN, I32_MAX; lia).
  pose proof (landing_valid date years months Hv) as Hl.
  assert (Hly : -8000000 <= (landing date years months).1.1 <= 8000000).
  { destruct date as [[y m] d]. cbn [fst snd landing] in *. apply valid_length in Hv as (Hmm & _). zlia. }
  pose proof (year_days _ Hl Hly) as Hld.
  destruct (add_iso_date_exact date years months 0 0 false Hv Hi) as [_ H1]; try (unfold safe, SAFE; lia).
  destruct H1 as (start_ & Hs & Hvs & Hns); [apply in_i32_spec; unfold I32_MIN, I32_MAX; lia|by left|unfold FIRST_DAY, LAST_DAY; lia|].
  assert (Hsi : in_i32 start_.1.1 = true) by (apply days_in_i32; [done|unfold FIRST_DAY, LAST_DAY; lia]).
  destruct (add_iso_date_exact start_ 0 0 0 days false Hvs Hsi) as [_ H2]; try (unfold safe, SAFE; lia).
  rewrite landing_zero in H2 by done.
  destruct H2 as (end_ & He & Hve & Hne); [done|by left|unfold FIRST_DAY, LAST_DAY; lia|].
  assert (Hei : in_i32 end_.1.1 = true) by (apply days_in_i32; [done|unfold FIRST_DAY, LAST_DAY; lia]).
  destruct (difference_iso_date_exact start_ end_ Week Hvs Hve Hsi Hei) as (y & m & w & d & Hdiff & _ & _ & _ & _ & Hd6).
  destruct (difference_iso_bounds _ _ _ _ _ _ _ Hvs Hve Hsi Hei Hdiff) as [_ HB].
  exists start_, end_, (y, m, w, d). split_and!; try done. cbn [fst snd]. lia.
Qed.

Lemma checked_add_i64_Some a b : Z.abs a <= 4000000000 → Z.abs b <= 4000000000 → checked_add_i64 a b = Some (a + b).
Proof.
  intros. unfold checked_add_i64, in_i64, I64_MIN, I64_MAX.
  by rewrite (proj2 (Z.leb_le _ _)), (proj2 (Z.leb_le _ _)) by lia.
Qed.
Lemma internal_sign_cases d : internal_sign d = 1 ∨ internal_sign d = -1.
Proof. unfold internal_sign. destruct (match filter _ _ with [] => _ | _ => _ end); auto. Qed.

Lemma nudge_base_returns origin d increment unit :
  temporal_date (p_date origin) → small_duration d → Z.abs (id_days d) <= 30 →
  0 < increment <= 1000000000 → is_calendar unit = true →
  ∃ base, nudge_base (C := iso_calendar) origin d increment unit = Ok (Some base) ∧ Z.abs base <= 200000200.
Proof.
  intros Hd (Hy & Hm & _ & Hw & _ & _) Hda Hi Hu. unfold nudge_base.
  destruct unit; try discriminate Hu; cbn zeta.
  - destruct (window_weeks (p_date origin) (id_years d) (id_months d) (id_days d) Hd Hy Hm Hda)
      as (st & en & [[[fy fm] fw] fd] & E1 & E2 & E3 & Hfw).
    cbn [calendar_add_date calendar_difference_date iso_calendar]. unfold try_bind.
    rewrite E1. cbn [mbind res_bind]. rewrite E2. cbn [mbind res_bind unwrap].
    rewrite E3. cbn [mbind res_bind fst snd] in *.
    rewrite checked_add_i64_Some by lia.
    destruct (truncate_returns increment (id_weeks d + fw) Hi ltac:(lia)) as (r & -> & Hr).
    exists r. split; [done|lia].
  - destruct (truncate_returns increment (id_months d) Hi ltac:(lia)) as (r & -> & Hr). exists r. split; [done|lia].
  - destruct (truncate_returns increment (id_years d) Hi ltac:(lia)) as (r & -> & Hr). exists r. split; [done|lia].
Qed.
Lemma bracket_within d unit count : small_duration d → Z.abs count <= 3000000000 → fields_within 3000000000 (bracket d unit count).
Proof. intros (Hy & Hm & _) Hc. unfold bracket, fields_within. destruct unit; split_and!; lia. Qed.

Lemma compute_nudge_window_returns origin origin_ns d increment unit shift :
  temporal_date (p_date origin) → small_duration d → Z.abs (id_days d) <= 30 →
  0 < increment <= 1000000000 → is_calendar unit = true →
  ∃ o, compute_nudge_window (C := iso_calendar) origin origin_ns d increment unit shift = Ok o ∧
    ∀ w, o = Some w → fields_within 3000000000 (w_start w) ∧ fields_within 3000000000 (w_end w).
Proof.
  intros Hd Hsmall Hda Hi Hu. pose proof (temporal_date_days _ Hd) as Hb.
  assert (Hv : valid (p_date origin)) by apply Hd.
  assert (Hoi : in_i32 (p_date origin).1.1 = true) by (apply days_in_i32; [done|unfold FIRST_DAY, LAST_DAY; lia]).
  unfold compute_nudge_window.
  assert (in_i64 increment = true) as -> by (unfold in_i64, I64_MIN, I64_MAX; rewrite andb_true_iff, !Z.leb_le; lia).
  cbn [negb]. rewrite (proj2 (Z.leb_gt increment 0)) by lia.
  pose proof (internal_sign_cases d) as Hs. set (s := internal_sign d) in *. clearbody s. cbn zeta.
  destruct (nudge_base_returns origin d increment unit Hd Hsmall Hda Hi Hu) as (base & -> & Hbb).
  unfold try_bind at 1. cbn [mbind res_bind].
  assert (Hst : Z.abs (increment * s) <= 1000000000) by (destruct Hs as [-> | ->]; lia).
  set (r1 := if shift then base + increment * s else base).
  assert ((if shift then checked_add_i64 base (increment * s) else Some base) = Some r1) as ->
    by (unfold r1; destruct shift; [by rewrite checked_add_i64_Some by lia|done]).
  assert (Hr1 : Z.abs r1 <= 1200000200) by (unfold r1; destruct shift; lia). clearbody r1.
  unfold try_bind at 1. cbn [mbind res_bind mret res_ret].
  rewrite checked_add_i64_Some by lia. unfold try_bind at 1. cbn [mbind res_bind mret res_ret].
  pose proof (bracket_within d unit r1 Hsmall ltac:(lia)) as HB1.
  pose proof (bracket_within d unit (r1 + increment * s) Hsmall ltac:(lia)) as HB2.
  destruct (epoch_after_returns origin _ Hv Hoi (fields_within_mono _ HB1)) as (o1 & ->).
  destruct (epoch_after_returns origin _ Hv Hoi (fields_within_mono _ HB2)) as (o2 & ->).
  unfold try_bind.
  destruct (decide _); cbn [mbind res_bind mret res_ret];
    [|destruct o1 as [n1|]; cbn [mbind res_bind mret res_ret]; [|by eexists]];
    (destruct o2 as [n2|]; cbn [mbind res_bind mret res_ret]; [|by eexists]);
    (eexists; split; [reflexivity|]); intros w [= <-]; by split.
Qed.

Lemma nudge_position_returns origin dest d increment unit :
  temporal_date (p_date origin) → small_duration d → Z.abs (id_days d) <= 30 →
  0 < increment <= 1000000000 → is_calendar unit = true →
  ∃ o, nudge_position (C := iso_calendar) origin dest d increment unit = Ok o ∧
    ∀ p, o = Some p → fields_within 3000000000 (w_start (window p)) ∧ fields_within 3000000000 (w_end (window p)).
Proof.
  intros Hd Hsmall Hda Hi Hu. unfold nudge_position. cbn zeta.
  set (origin_ns := epoch_nanoseconds _ _). clearbody origin_ns.
  destruct (compute_nudge_window_returns origin origin_ns d increment unit false Hd Hsmall Hda Hi Hu) as ([w1|] & -> & Hw1);
    unfold try_bind; cbn [mbind res_bind]; [|by eexists].
  destruct (compute_nudge_window_returns origin origin_ns d increment unit true Hd Hsmall Hda Hi Hu) as (o2 & -> & Hw2).
  destruct (if 0 <? internal_sign d then _ else _) as [near far].
  destruct (_ && _); cbn [mbind res_bind mret res_ret].
  - eexists. split; [reflexivity|]. intros p [= <-]. destruct (_ <? 0); by apply Hw1.
  - destruct o2 as [w2|]; cbn [mbind res_bind mret res_ret]; [|by eexists].
    eexists. split; [reflexivity|]. intros p [= <-]. destruct (_ <? 0); by apply Hw2.
Qed.

Lemma nudge_to_calendar_unit_returns origin dest d increment unit mode :
  temporal_date (p_date origin) → small_duration d → Z.abs (id_days d) <= 30 →
  0 < increment <= 1000000000 → is_calendar unit = true →
  ∃ o, nudge_to_calendar_unit (C := iso_calendar) origin dest d increment unit mode = Ok o ∧
    ∀ nudged position expanded, o = Some (nudged, position, expanded) →
      fields_within 3000000000 (id_date nudged) ∧ id_time nudged = 0.
Proof.
  intros Hd Hsmall Hda Hi Hu. unfold nudge_to_calendar_unit. cbn zeta.
  destruct (nudge_position_returns origin dest d increment unit Hd Hsmall Hda Hi Hu) as ([p|] & -> & Hp);
    unfold try_bind; cbn [mbind res_bind]; [|by eexists].
  destruct (Hp p eq_refl) as [Hs He].
  destruct (rounds_up _ _ _ _ _ _); (eexists; split; [reflexivity|]); intros ??? [= <- <- <-];
    [destruct (w_end (window p)) as [[[y m] w] dd]|destruct (w_start (window p)) as [[[y m] w] dd]];
    done.
Qed.

(** The state of the loop of [bubble_relative_duration]: fields, days and time stay bounded, with
    [slack] turns to come. *)
Definition bubble_state (slack : Z) (date : DateFields) (time : Z) : Prop :=
  let '(y, m, w, d) := date in
  fields_within (3000000010 - slack) (y, m, w, 0) ∧
  Z.abs d <= 5000000000 ∧ Z.abs time <= 5000000000 * NANOSECONDS_PER_DAY.
Lemma bubble_state_mono slack slack' date time : slack' <= slack →
  bubble_state slack date time → bubble_state slack' date time.
Proof. destruct date as [[[y m] w] d]. unfold bubble_state, fields_within. lia. Qed.

Lemma end_duration_returns date unit sign time slack : sign = 1 ∨ sign = -1 → 0 < slack →
  bubble_state slack date time →
  ∃ fields, end_duration date unit sign = Ok fields ∧ fields_within 4000000000 fields ∧
    bubble_state (slack - 1) fields 0.
Proof.
  destruct date as [[[y m] w] d]. intros Hs Hsl Hst. cbn in Hst.
  unfold bubble_state, fields_within, NANOSECONDS_PER_DAY in *.
  assert (∀ v, Z.abs v <= 3000000010 → i64c (v + sign) = Ok (v + sign)) as Hi
    by (intros v ?; apply i64c_Ok; unfold I64_MIN, I64_MAX; lia).
  unfold end_duration. destruct unit; rewrite Hi by lia; cbn [mbind res_bind mret res_ret];
    (eexists; split; [reflexivity|]); split_and!; lia.
Qed.

Lemma bubble_step_returns origin sign position largest unit date time slack :
  valid (p_date origin) → in_i32 (p_date origin).1.1 = true → sign = 1 ∨ sign = -1 →
  0 < slack → bubble_state slack date time →
  ∃ r, bubble_step (C := iso_calendar) origin sign position largest (unit, date, time) = Ok r ∧
    match r with
    | inr None => True
    | inr (Some d) => bubble_state 0 (id_date d) (id_time d)
    | inl (unit', date', time') =>
        unit_ltb unit largest = true ∧ unit' = next_unit unit ∧ bubble_state (slack - 1) date' time'
    end.
Proof.
  intros Hv Hy Hs Hsl Hst. unfold bubble_step.
  assert (Hid : bubble_state 0 (id_date (internal date time)) (id_time (internal date time)))
    by (destruct date as [[[y m] w] d]; apply (bubble_state_mono slack); [lia|exact Hst]).
  destruct (unit_ltb unit largest) eqn:El; cbn [negb]; [|by eexists].
  destruct (_ && _).
  { eexists. split; [reflexivity|]. split_and!; try done. apply (bubble_state_mono slack); [lia|done]. }
  destruct (end_duration_returns date (next_unit unit) sign time slack Hs Hsl Hst) as (fields & -> & Hsafe & Hstate).
  cbn [mbind res_bind].
  destruct (epoch_after_returns origin fields Hv Hy Hsafe) as (o & ->). cbn [mbind res_bind].
  destruct o as [end_ns|]; [|by eexists]. destruct (_ =? - sign); by eexists.
Qed.

Definition turns_left (unit : TemporalUnit) : nat :=
  match unit with UYear => 0 | UMonth => 1 | UWeek => 2 | _ => 3 end.
Lemma next_turns unit largest : unit_ltb unit largest = true → unit_leb UDay unit = true →
  (turns_left (next_unit unit) < turns_left unit)%nat ∧ unit_leb UDay (next_unit unit) = true.
Proof. destruct unit, largest; cbn; (intros; discriminate) || (intros; split; done || lia). Qed.

(** Four turns are enough. *)
Lemma bubble_returns origin sign nudged position largest start :
  valid (p_date origin) → in_i32 (p_date origin).1.1 = true → sign = 1 ∨ sign = -1 →
  unit_leb UDay start = true → bubble_state 4 (id_date nudged) (id_time nudged) →
  ∃ o, bubble_relative_duration (C := iso_calendar) origin sign nudged position largest start = Ok o ∧
    ∀ d, o = Some d → bubble_state 0 (id_date d) (id_time d).
Proof.
  intros Hv Hy Hs Hstart Hst. unfold bubble_relative_duration. destruct (unit_leb largest start).
  { eexists. split; [reflexivity|]. intros ? [= <-]. by apply (bubble_state_mono 4). }
  pose (I (st : TemporalUnit * DateFields * Z) := let '(unit, date, time) := st in
    unit_leb UDay unit = true ∧ bubble_state (Z.of_nat (turns_left unit) + 1) date time).
  pose (Q (st : TemporalUnit * DateFields * Z) (o : option InternalDuration) :=
    ∀ d, o = Some d → bubble_state 0 (id_date d) (id_time d)).
  apply (iterate_total I Q (λ st, turns_left st.1.1)).
  - intros [[unit date] time] [Hu HI].
    destruct (bubble_step_returns origin sign position largest unit date time (Z.of_nat (turns_left unit) + 1))
      as (r & Hr & HR); [done|done|done|lia|done|].
    exists r. split; [done|]. destruct r as [[[unit' date'] time']|[d|]].
    + destruct HR as (Hlt & -> & Hst'). destruct (next_turns unit largest Hlt Hu) as [Hturn Hu'].
      split; [|by split]. split; [done|]. eapply bubble_state_mono; [|exact Hst']. lia.
    + intros ? [= <-]. done.
    + intros ? [=].
  - split; [done|]. apply (bubble_state_mono 4); [|done]. destruct start; cbn; lia.
  - cbn [fst]. destruct start; cbn; lia.
Qed.

Lemma duration_from_internal_returns d largest :
  Z.abs (id_time d) <= 5000000000 * NANOSECONDS_PER_DAY →
  ∃ fields, duration_from_internal d largest = Ok fields.
Proof.
  intros Ht. unfold duration_from_internal.
  assert (Hu : unit_leb (unit_min largest UDay) UDay = true) by (by destruct largest).
  destruct (balance_with_days_exact (id_time d) _ Hu) as (fields & -> & Hlen & _);
    [unfold NANOSECONDS_PER_DAY, I128_MAX in *; lia|].
  cbn [mbind res_bind]. destruct fields as [|d0 rest]; [done|]. by eexists.
Qed.

Lemma small_bubble_state d : small_duration d → bubble_state 4 (id_date d) (id_time d).
Proof.
  destruct d as [y m w d t]. unfold small_duration, bubble_state, fields_within, NANOSECONDS_PER_DAY.
  cbn [id_date id_years id_months id_weeks id_days id_time]. lia.
Qed.

(** The rounding step, over the whole range of units. *)
Lemma round_relative_duration_returns origin dest d largest increment smallest mode :
  temporal_date (p_date origin) → small_duration d →
  (is_calendar smallest = true → Z.abs (id_days d) <= 30) → 0 < increment <= 1000000000 →
  ∃ o, round_relative_duration (C := iso_calendar) origin dest d largest increment smallest mode = Ok o ∧
    ∀ r, o = Some r → bubble_state 0 (id_date r) (id_time r).
Proof.
  intros Hd Hsmall Hda Hi. unfold round_relative_duration.
  pose proof (temporal_date_days _ Hd) as Hb.
  assert (Hv : valid (p_date origin)) by apply Hd.
  assert (Hoi : in_i32 (p_date origin).1.1 = true) by (apply days_in_i32; [done|unfold FIRST_DAY, LAST_DAY; lia]).
  assert (∃ o, (if is_calendar smallest
      then nudge_to_calendar_unit (C := iso_calendar) origin dest d increment smallest mode
      else Some <$> nudge_to_day_or_time dest d largest increment smallest mode) = Ok o ∧
    ∀ nudged position expanded, o = Some (nudged, position, expanded) →
      bubble_state 4 (id_date nudged) (id_time nudged)) as (o & -> & Ho).
  { destruct (is_calendar smallest) eqn:Hcal.
    - destruct (nudge_to_calendar_unit_returns origin dest d increment smallest mode Hd Hsmall (Hda eq_refl) Hi Hcal)
        as (o & -> & Ho). exists o. split; [done|]. intros nudged position expanded E.
      destruct (Ho _ _ _ E) as [Hf Ht]. unfold id_date, bubble_state, fields_within in *.
      rewrite Ht. unfold NANOSECONDS_PER_DAY. lia.
    - destruct d as [y m w days time]. destruct Hsmall as (Hy & Hm & _ & Hw & Hdd & Ht).
      cbn [id_years id_months id_weeks id_days id_time] in *.
      assert (Hs : unit_leb smallest UDay = true) by (by destruct smallest).
      destruct (nudge_to_day_or_time_spec dest y m w days time largest increment smallest mode Hs Hi)
        as (r & days' & time' & position & expanded & -> & Hr & _ & Hsplit); [unfold NANOSECONDS_PER_DAY in *; lia|].
      destruct (unit_day_length smallest Hs) as [_ Hlen].
      assert (0 < exact_length smallest * increment) as Hpos by (apply Z.mul_pos_pos; lia).
      pose proof (rounded_close mode _ _ _ Hpos Hr) as Hc.
      eexists. split; [reflexivity|]. intros ??? [= <- _ _].
      assert (Z.abs r <= 1500000000 * NANOSECONDS_PER_DAY).
      { unfold NANOSECONDS_PER_DAY in *. assert (exact_length smallest * increment <= 86400 * 1000000000 * 1000000000) by nia. lia. }
      unfold bubble_state, fields_within, NANOSECONDS_PER_DAY in *. cbn [id_date id_years id_months id_weeks id_days id_time].
      destruct (unit_leb UDay largest); injection Hsplit as -> ->; split_and!; zlia. }
  unfold try_bind. cbn [mbind res_bind]. destruct o as [[[nudged position] expanded]|]; [|by eexists].
  pose proof (Ho _ _ _ eq_refl) as Hn. destruct (expanded && _).
  - apply bubble_returns; try done; [apply internal_sign_cases|by destruct smallest].
  - eexists. split; [reflexivity|]. intros ? [= <-]. by apply (bubble_state_mono 4).
Qed.

(** C21. Every difference of two date-times ends with a value or a range error.  For date-times in
    Temporal's range, a smallest unit that is not above the largest, an increment up to 10^9 and
    any mode, [until] and [since] neither panic (the [expect]s on borrowed days and week remainders
    hold, and no integer of the calculation leaves its type where the code would panic) nor run
    out of the turns of the bubbling loop. *)
Theorem difference_returns date1 time1 date2 time2 largest increment smallest mode :
  temporal_date date1 → temporal_date date2 → valid_time time1 → valid_time time2 →
  unit_leb smallest largest = true → 0 < increment <= 1000000000 →
  ∃ o, difference_plain_date_time (C := iso_calendar) (date1, time1) (date2, time2)
         largest increment smallest mode = Ok o.
Proof.
  intros Hd1 Hd2 Ht1 Ht2 Hl Hi. unfold difference_plain_date_time.
  destruct (_ && _); [by eexists|].
  destruct (difference_small date1 time1 date2 time2 largest Hd1 Hd2 Ht1 Ht2) as (d & -> & Hsmall & Hdays).
  cbn [mbind res_bind].
  assert (∃ o, (if bool_decide (smallest = UNanosecond) && (increment =? 1) then mret (Some d)
      else round_relative_duration (C := iso_calendar) (Build_Point date1 time1) (epoch_nanoseconds date2 time2)
             d largest increment smallest mode) = Ok o ∧
    ∀ r, o = Some r → bubble_state 0 (id_date r) (id_time r)) as (o & -> & Ho).
  { destruct (_ && (_ =? _)).
    - eexists. split; [reflexivity|]. intros ? [= <-].
      by apply (bubble_state_mono 4); [|apply small_bubble_state].
    - apply round_relative_duration_returns; try done. intros Hc.
      assert (unit_leb UWeek largest = true) as Hw by (by destruct smallest, largest). by apply Hdays. }
  unfold try_bind. cbn [mbind res_bind]. destruct o as [r|]; [|by eexists].
  destruct (duration_from_internal_returns r largest) as (fields & ->); [|eexists; reflexivity].
  pose proof (Ho r eq_refl) as Hr. destruct r. apply Hr.
Qed.

Lemma difference_returns_witness :
  ∃ o, difference_plain_date_time (C := iso_calendar) ((-271821, 4, 19), (0, 0, 0, 0, 0, 0))
         ((275760, 9, 13), (23, 59, 59, 999, 999, 999)) UYear 7 UWeek HalfEven = Ok o.
Proof. apply difference_returns; [by split..|cbn; lia|cbn; lia|done|lia]. Defined.
