(* ===== verification/TemporalText.v ===== *)
(** * Temporal strings (vm/temporal/iso/, plain_date/format.rs and the formatters of the types)

    The scanners and parsers of Temporal's grammar and the functions that print dates, times,
    offsets, instants and durations.  A cursor over the bytes of a string is the text that is left:
    it only ever advances over ASCII.  A parser returns [None] where the source does; an [expect]
    on a run of at most nine ASCII digits cannot fail, and [number] is the value it unwraps.  Only
    [parse_minute_offset] slices text that may not be ASCII; it returns a [res]. *)

From S2P Require Import Prelude Float CssValue JsNumeric TemporalDate TemporalRound.
Local Open Scope Z_scope.

(** ** Text *)
Definition number (digits : rstring) : Z := Z.of_N (digits_val 10 digits).
Definition all_digits (s : rstring) : bool := forallb is_ascii_digit s.
Definition is_char (names : rstring) (c : N) : bool := bool_decide (c ∈ names).
(** [s.strip_prefix(..)] of one character out of [names] *)
Definition strip_char (names s : rstring) : option rstring :=
  match s with c :: s' => if is_char names c then Some s' else None | [] => None end.
(** [s.find(..).unwrap_or(s.len())] and the two sides of it *)
Definition break_at (p : N → bool) (s : rstring) : rstring * rstring :=
  let n := default (length s) (find_char p s) in (take n s, drop n s).
(** [s.split_once(..)] of a set of characters *)
Definition split_once_any (names s : rstring) : option (rstring * rstring) :=
  match find_char (is_char names) s with
  | Some n => Some (take n s, drop (S n) s)
  | None => None
  end.
(** [s.split(c)] *)
Fixpoint split_char (c : N) (s : rstring) : list rstring :=
  match s with
  | [] => [[]]
  | d :: s =>
      if (d =? c)%N then [] :: split_char c s
      else match split_char c s with
           | field :: fields => (d :: field) :: fields
           | [] => [[d]]
           end
  end.

(** ** Cursor (iso/scan.rs) *)
Definition peek (s : rstring) : option N := head s.
Definition peek_digit (s : rstring) : bool :=
  match peek s with Some c => is_ascii_digit c | None => false end.
Definition done (s : rstring) : bool := match s with [] => true | _ => false end.
Definition eat (byte : N) (s : rstring) : bool * rstring :=
  match s with c :: s' => if (c =? byte)%N then (true, s') else (false, s) | [] => (false, s) end.
Definition eat_any (bytes s : rstring) : option (N * rstring) :=
  match s with c :: s' => if is_char bytes c then Some (c, s') else None | [] => None end.

Definition split_digits (s : rstring) (count : nat) : option (rstring * rstring) :=
  if (length s <? count)%nat || negb (all_digits (take count s)) then None
  else Some (take count s, drop count s).
Definition digits (count : nat) (s : rstring) : option (Z * rstring) :=
  if (length (take count s) =? count)%nat && all_digits (take count s)
  then Some (number (take count s), drop count s) else None.

(** A decimal fraction of a second in nanoseconds. *)
Definition scale_fraction (ds : rstring) : Z := number ds * 10 ^ Z.of_nat (9 - length ds).
Definition fraction_nanoseconds (s : rstring) : option (Z * rstring) :=
  let ds := take_while is_ascii_digit s in
  if (length ds =? 0)%nat || (9 <? length ds)%nat then None
  else Some (scale_fraction ds, drop (length ds) s).

Definition peek_bracket (s : rstring) : option rstring :=
  rest ← strip_char (str "[") s; fst <$> split_once (ch "]") rest.
Definition take_bracket (s : rstring) : option (rstring * rstring) :=
  rest ← strip_char (str "[") s; split_once (ch "]") rest.

Definition scan_year (s : rstring) : option (Z * rstring) :=
  match eat_any (str "+-") s with
  | Some (sign, s) =>
      '(value, s) ← digits 6 s;
      if (sign =? ch "-")%N then (if value =? 0 then None else Some (- value, s))
      else Some (value, s)
  | None => digits 4 s
  end.
Definition scan_date (s : rstring) : option (CivilDate * rstring) :=
  '(year, s) ← scan_year s;
  let '(extended, s) := eat (ch "-") s in
  '(month, s) ← digits 2 s;
  let '(again, s) := eat (ch "-") s in
  if negb (Bool.eqb again extended) then None else
  '(day, s) ← digits 2 s;
  if is_valid_date year month day then Some ((year, month, day), s) else None.

(** The sub-second fields of a number of nanoseconds. *)
Definition with_nanoseconds (hour minute second nanoseconds : Z) : CivilTime :=
  (hour, minute, second, nanoseconds ÷ 1000000, Z.rem (nanoseconds ÷ 1000) 1000, Z.rem nanoseconds 1000).
Definition scan_time (s : rstring) : option (CivilTime * rstring) :=
  '(hour, s) ← digits 2 s;
  if 23 <? hour then None else
  let '(extended, s) := eat (ch ":") s in
  if extended || peek_digit s then
    '(minute, s) ← digits 2 s;
    if 59 <? minute then None else
    let '(seconds_follow, s) := if extended : bool then eat (ch ":") s else (peek_digit s, s) in
    if seconds_follow : bool then
      '(second, s) ← digits 2 s;
      if 60 <? second then None else
      let second := Z.min second 59 in
      match eat_any (str ".,") s with
      | Some (_, s) =>
          '(nanoseconds, s) ← fraction_nanoseconds s;
          Some (with_nanoseconds hour minute second nanoseconds, s)
      | None => Some (with_nanoseconds hour minute second 0, s)
      end
    else Some (with_nanoseconds hour minute 0 0, s)
  else Some (with_nanoseconds hour 0 0 0, s).

Definition two_digit_field (text : rstring) : option Z :=
  if (length text =? 2)%nat && all_digits text then Some (number text) else None.

(** [(hour, minute, second)] of the text before the fraction. *)
Definition time_body (body : rstring) : option (Z * Z * option Z) :=
  if contains_char (ch ":") body then
    match split_char (ch ":") body with
    | h :: m :: fields =>
        hour ← two_digit_field h;
        minute ← two_digit_field m;
        match fields with
        | [] => Some (hour, minute, None)
        | [s] => second ← two_digit_field s; Some (hour, minute, Some second)
        | _ => None
        end
    | _ => None
    end
  else if (length body =? 2)%nat then hour ← two_digit_field body; Some (hour, 0, None)
  else if (length body =? 4)%nat then
    hour ← two_digit_field (take 2 body); minute ← two_digit_field (drop 2 body); Some (hour, minute, None)
  else if (length body =? 6)%nat then
    hour ← two_digit_field (take 2 body); minute ← two_digit_field (take 2 (drop 2 body));
    second ← two_digit_field (drop 4 body); Some (hour, minute, Some second)
  else None.
Definition parse_time_spec (source : rstring) : option (Z * Z * Z * Z) :=
  let '(body, fraction) :=
    match split_once_any (str ".,") source with
    | Some (body, fraction) => (body, Some fraction)
    | None => (source, None)
    end in
  if negb (forallb is_ascii body) then None else
  '(hour, minute, second) ← time_body body;
  nanoseconds ← (match second, fraction with
                 | _, None => Some 0
                 | None, Some _ => None
                 | Some _, Some fraction =>
                     if (length fraction =? 0)%nat || (9 <? length fraction)%nat || negb (all_digits fraction)
                     then None else Some (scale_fraction fraction)
                 end);
  if (hour <=? 23) && (minute <=? 59) then Some (hour, minute, default 0 second, nanoseconds) else None.

Definition parse_iso_date_prefix (source : rstring) : option (CivilDate * rstring) :=
  '(year, rest) ← (match eat_any (str "+-") source with
                   | Some (sign, s) =>
                       '(ds, rest) ← split_digits s 6;
                       let negative := (sign =? ch "-")%N in
                       if negative && (number ds =? 0) then None
                       else Some (if negative then - number ds else number ds, rest)
                   | None => '(ds, rest) ← split_digits source 4; Some (number ds, rest)
                   end);
  '(month, day, rest) ← (match strip_char (str "-") rest with
                         | Some rest =>
                             '(month, rest) ← split_digits rest 2;
                             rest ← strip_char (str "-") rest;
                             '(day, rest) ← split_digits rest 2;
                             Some (month, day, rest)
                         | None =>
                             '(month, rest) ← split_digits rest 2;
                             '(day, rest) ← split_digits rest 2;
                             Some (month, day, rest)
                         end);
  let month := number month in
  let day := number day in
  if (-271821 <=? year) && (year <=? 275760) && is_valid_date year month day
  then Some ((year, month, day), rest) else None.
Definition parse_date (source : rstring) : option CivilDate :=
  '(date, rest) ← parse_iso_date_prefix (break_at (is_char (str "Tt[Zz")) source).1;
  if done rest then Some date else None.
Definition parse_iso_time_prefix (source : rstring) : option (CivilTime * rstring) :=
  let '(text, rest) := break_at (is_char (str "Zz+-[")) source in
  '(hour, minute, second, nanoseconds) ← parse_time_spec text;
  if 60 <? second then None
  else Some (with_nanoseconds hour minute (Z.min second 59) nanoseconds, rest).

(** ** Offsets (iso/offset.rs) *)
Definition offset_value (sign hour minute second nanoseconds : Z) : Z :=
  sign * (((hour * 60 + minute) * 60 + second) * 1000000000 + nanoseconds).
Definition scan_offset (s : rstring) (sub_minute : bool) : option (Z * bool * rstring) :=
  '(byte, s) ← eat_any (str "+-") s;
  let sign := if (byte =? ch "-")%N then -1 else 1 in
  '(hour, s) ← digits 2 s;
  if 23 <? hour then None else
  let '(extended, s) := eat (ch ":") s in
  if extended || peek_digit s then
    '(minute, s) ← digits 2 s;
    if 59 <? minute then None else
    let '(seconds_follow, s) := if extended : bool then eat (ch ":") s else (peek_digit s, s) in
    if seconds_follow : bool then
      if negb sub_minute then None else
      '(second, s) ← digits 2 s;
      if 59 <? second then None else
      match eat_any (str ".,") s with
      | Some (_, s) =>
          '(nanoseconds, s) ← fraction_nanoseconds s;
          Some (offset_value sign hour minute second nanoseconds, true, s)
      | None => Some (offset_value sign hour minute second 0, true, s)
      end
    else Some (offset_value sign hour minute 0 0, false, s)
  else Some (offset_value sign hour 0 0 0, false, s).

Record UtcOffset := { uo_nanoseconds : Z; minute_precision : bool }.
Definition parse_utc_offset_prefix (source : rstring) : option (UtcOffset * rstring) :=
  match strip_char (str "Zz") source with
  | Some rest => Some (Build_UtcOffset 0 true, rest)
  | None =>
      '(byte, s) ← eat_any (str "+-") source;
      let '(body, rest) := break_at (is_char (str "[")) s in
      '(hour, minute, second, nanoseconds) ← parse_time_spec body;
      if 59 <? second then None else
      let core := (break_at (is_char (str ".,")) body).1 in
      let has_second :=
        if contains_char (ch ":") core then (length (filter (λ c, c = ch ":") core) =? 2)%nat
        else (str_len core =? 6)%nat in
      let total := hour * 3600000000000 + minute * 60000000000 + second * 1000000000 + nanoseconds in
      Some (Build_UtcOffset (if (byte =? ch "-")%N then - total else total) (negb has_second), rest)
  end.
Definition parse_minute_precision_offset (value : rstring) : option Z :=
  match eat_any (str "+-") value with
  | None => None
  | Some _ =>
      '(offset, rest) ← parse_utc_offset_prefix value;
      if done rest && minute_precision offset then Some (uo_nanoseconds offset) else None
  end.
Definition parse_offset_string_nanoseconds (source : rstring) : option Z :=
  '(offset, _, s) ← scan_offset source true;
  if done s then Some offset else None.

(** The identifiers of time_zone_id.rs and time_zone.rs. *)
Definition two_digits (tens ones : N) : option Z :=
  if is_ascii_digit tens && is_ascii_digit ones then Some (number [tens; ones]) else None.
Definition parse_offset_minutes (source : rstring) : option Z :=
  '(byte, rest) ← eat_any (str "+-") source;
  let sign := if (byte =? ch "-")%N then -1 else 1 in
  '(hour, minute) ← (match rest with
                     | [h1; h2] => hour ← two_digits h1 h2; Some (hour, 0)
                     | [h1; h2; m1; m2] => hour ← two_digits h1 h2; minute ← two_digits m1 m2; Some (hour, minute)
                     | [h1; h2; c; m1; m2] =>
                         if (c =? ch ":")%N
                         then hour ← two_digits h1 h2; minute ← two_digits m1 m2; Some (hour, minute)
                         else None
                     | _ => None
                     end);
  if (hour <=? 23) && (minute <=? 59) then Some (sign * (hour * 60 + minute)) else None.
(** Slices by byte offset: inside a character they panic.  A colon as the third of five bytes is
    a character of its own. *)
Definition parse_minute_offset (source : rstring) : res (option Z) :=
  match eat_any (str "+-") source with
  | None => Ok None
  | Some (byte, ds) =>
      let sign := if (byte =? ch "-")%N then -1 else 1 in
      fields ← (if (str_len ds =? 2)%nat then Ok (Some (ds, str "0"))
                else if (str_len ds =? 4)%nat then Some <$> split_at_byte 2 ds
                else if (str_len ds =? 5)%nat then
                  Ok (match split_at_byte 2 ds with
                      | Ok (hour, c :: minute) => if (c =? ch ":")%N then Some (hour, minute) else None
                      | _ => None
                      end)
                else Ok None);
      match fields with
      | None => Ok None
      | Some (hour, minute) =>
          if negb (all_digits hour && all_digits minute) then Ok None else
          Ok (if (number hour <=? 23) && (number minute <=? 59)
              then Some (sign * (number hour * 60 + number minute)) else None)
      end
  end.

(** ** Annotations (iso/annotations.rs) *)
Definition is_name_lead (c : N) : bool := is_ascii_alphabetic c || is_char (str "._") c.
Definition is_name_char (c : N) : bool := is_ascii_alphanumeric c || is_char (str "._+-") c.
Definition name_component (component : rstring) : bool :=
  (1 <=? length component)%nat && (length component <=? 14)%nat &&
  match component with c :: _ => is_name_lead c | [] => false end && forallb is_name_char component.
Definition dots (component : rstring) : bool :=
  bool_decide (component = str ".") || bool_decide (component = str "..").
Definition is_signed (s : rstring) : bool := match eat_any (str "+-") s with Some _ => true | None => false end.

Definition is_valid_time_zone_identifier (body : rstring) : bool :=
  if is_signed body
  then match scan_offset body false with Some (_, s) => done s | None => false end
  else negb (done body) &&
    forallb (λ component, name_component component && negb (dots component)) (split_char (ch "/") body).
Definition is_time_zone_identifier (value : rstring) : bool :=
  if is_signed value then match parse_minute_precision_offset value with Some _ => true | None => false end
  else negb (done value) && forallb name_component (split_char (ch "/") value).

Definition is_key_lead (c : N) : bool := is_ascii_lower c || (c =? ch "_")%N.
Definition is_key_char (c : N) : bool := is_ascii_lower c || is_ascii_digit c || is_char (str "_-") c.
Definition is_valid_annotation_key (key : rstring) : bool :=
  match key with c :: rest => is_key_lead c && forallb is_key_char rest | [] => false end.
Definition is_valid_annotation_value (value : rstring) : bool :=
  negb (done value) &&
  forallb (λ component, negb (done component) && forallb is_ascii_alphanumeric component)
    (split_char (ch "-") value).

(** [body.strip_prefix('!')] with whether it was there *)
Definition strip_critical (body : rstring) : bool * rstring :=
  match strip_char (str "!") body with Some rest => (true, rest) | None => (false, body) end.

(** The loops over annotations: (calendar, calendars, critical_calendar).  A bracket takes two
    characters at least, so that the length of the text bounds the turns. *)
Record CalendarState := { cs_calendar : option rstring; calendars : nat; critical_calendar : bool }.
Definition no_calendar : CalendarState := Build_CalendarState None 0 false.
(** One [!]key=value of [scan_annotations]. *)
Definition scan_annotation (body : rstring) (st : CalendarState) : option CalendarState :=
  let '(critical, body) := strip_critical body in
  '(key, value) ← split_once (ch "=") body;
  if negb (is_valid_annotation_key key) || negb (is_valid_annotation_value value) then None
  else if bool_decide (key = str "u-ca") then
    Some (Build_CalendarState
            (match cs_calendar st with Some calendar => Some calendar | None => Some value end)
            (calendars st + 1) (critical_calendar st || critical))
  else if critical then None else Some st.
Fixpoint scan_loop (fuel : nat) (s : rstring) (st : CalendarState) : option (CalendarState * rstring) :=
  match peek s with
  | Some c =>
      if (c =? ch "[")%N then
        match fuel with
        | O => None
        | S fuel =>
            '(body, s) ← take_bracket s;
            st ← scan_annotation body st;
            scan_loop fuel s st
        end
      else Some (st, s)
  | None => Some (st, s)
  end.
Definition scan_annotations (s : rstring) : option (option rstring * option rstring * rstring) :=
  '(time_zone, s) ←
    (match peek s with
     | Some c =>
         if (c =? ch "[")%N then
           body ← peek_bracket s;
           let name := (strip_critical body).2 in
           if contains_char (ch "=") name then Some (None, s)
           else if negb (is_valid_time_zone_identifier name) then None
           else '(_, s) ← take_bracket s; Some (Some name, s)
         else Some (None, s)
     | None => Some (None, s)
     end);
  '(st, s) ← scan_loop (length s) s no_calendar;
  if (1 <? calendars st)%nat && critical_calendar st then None
  else Some (time_zone, cs_calendar st, s).

Record Annotations := { an_time_zone : option rstring; an_calendar : option rstring }.
(** One annotation of [parse_annotation_suffix]. *)
Definition suffix_annotation (body : rstring) (st : CalendarState) : option CalendarState :=
  let '(critical, body) := strip_critical body in
  '(key, value) ← split_once (ch "=") body;
  if done key || done value then None else
  if negb (match key with c :: rest => is_key_lead c && forallb is_key_char rest | [] => true end) ||
     negb (forallb (λ component, negb (done component) && forallb is_ascii_alphanumeric component)
             (split_char (ch "-") value)) then None
  else if bool_decide (key = str "u-ca") then
    let st := Build_CalendarState
                (match cs_calendar st with Some calendar => Some calendar | None => Some value end)
                (calendars st + 1) (critical_calendar st || critical) in
    if (1 <? calendars st)%nat && critical_calendar st then None else Some st
  else if critical then None else Some st.
Fixpoint suffix_loop (fuel : nat) (cursor : rstring) (st : CalendarState) : option CalendarState :=
  match cursor with
  | [] => Some st
  | _ =>
      match fuel with
      | O => None
      | S fuel =>
          rest ← strip_char (str "[") cursor;
          '(body, cursor) ← split_once (ch "]") rest;
          st ← suffix_annotation body st;
          suffix_loop fuel cursor st
      end
  end.
Definition parse_annotation_suffix (cursor : rstring) : option Annotations :=
  '(time_zone, cursor) ←
    (match strip_char (str "[") cursor with
     | Some rest =>
         '(body, after) ← split_once (ch "]") rest;
         let body := (strip_critical body).2 in
         if contains_char (ch "=") body then Some (None, cursor)
         else if negb (is_time_zone_identifier body) then None
         else Some (Some body, after)
     | None => Some (None, cursor)
     end);
  st ← suffix_loop (length cursor) cursor no_calendar;
  Some (Build_Annotations time_zone (cs_calendar st)).

(** ** Dates, times and instants (iso/datetime.rs) *)
Record Parsed := {
  px_year : Z; px_month : Z; px_day : Z; year_present : bool; day_present : bool;
  px_time : option CivilTime; utc_designator : bool; px_offset : option Z;
  offset_sub_minute_precision : bool; px_time_zone : option rstring; px_calendar : option rstring;
}.
(** The offset part: ([utc_designator], [offset_nanoseconds], [offset_sub_minute_precision]). *)
Definition scan_utc_offset_suffix (s : rstring) : option (bool * option Z * bool * rstring) :=
  match eat_any (str "Zz") s with
  | Some (_, s) => Some (true, None, false, s)
  | None =>
      if match peek s with Some c => is_char (str "+-") c | None => false end
      then '(offset, has_seconds, s) ← scan_offset s true; Some (false, Some offset, has_seconds, s)
      else Some (false, None, false, s)
  end.

Record InstantParts := { ip_date : CivilDate; ip_time : CivilTime; ip_offset : Z }.
Definition parse_instant (source : rstring) : option InstantParts :=
  '(date, rest) ← parse_iso_date_prefix source;
  rest ← strip_char (str "Tt ") rest;
  '(time, rest) ← parse_iso_time_prefix rest;
  '(offset, rest) ← parse_utc_offset_prefix rest;
  _ ← parse_annotation_suffix rest;
  Some (Build_InstantParts date time (uo_nanoseconds offset)).

(** instant.rs *)
Definition instant_epoch_from_string (source : rstring) : option Z :=
  parts ← parse_instant source;
  let epoch_nanoseconds := nanoseconds_since_epoch (ip_date parts) (ip_time parts) 0 - ip_offset parts in
  if is_in_instant_range epoch_nanoseconds then Some epoch_nanoseconds else None.

Definition parse_date_time (source : rstring) : option Parsed :=
  '(date, s) ← scan_date source;
  let '(year, month, day) := date in
  '(time, utc, offset, precise, s) ←
    (match eat_any (str "Tt ") s with
     | Some (_, s) =>
         '(time, s) ← scan_time s;
         '(utc, offset, precise, s) ← scan_utc_offset_suffix s;
         Some (Some time, utc, offset, precise, s)
     | None => Some (None, false, None, false, s)
     end);
  '(time_zone, calendar, s) ← scan_annotations s;
  if done s
  then Some (Build_Parsed year month day true true time utc offset precise time_zone calendar)
  else None.

Definition parse_year_month_only (source : rstring) : option Parsed :=
  '(year, s) ← scan_year source;
  let '(_, s) := eat (ch "-") s in
  '(month, s) ← digits 2 s;
  if negb ((1 <=? month) && (month <=? 12)) then None else
  '(time_zone, calendar, s) ← scan_annotations s;
  if done s then Some (Build_Parsed year month 1 true false None false None false time_zone calendar)
  else None.
Definition parse_year_month (source : rstring) : option Parsed :=
  match parse_year_month_only source with Some p => Some p | None => parse_date_time source end.

Definition parse_month_day_only (source : rstring) : option Parsed :=
  let '(dash, s) := eat (ch "-") source in
  let '(dashes, s) := if dash : bool then eat (ch "-") s else (true, s) in
  if negb dashes then None else
  '(month, s) ← digits 2 s;
  let '(_, s) := eat (ch "-") s in
  '(day, s) ← digits 2 s;
  if negb (is_valid_date 1972 month day) then None else
  '(time_zone, calendar, s) ← scan_annotations s;
  if done s then Some (Build_Parsed 1972 month day false true None false None false time_zone calendar)
  else None.
Definition parse_month_day (source : rstring) : option Parsed :=
  match parse_month_day_only source with Some p => Some p | None => parse_date_time source end.

Definition is_ambiguous_with_a_date (source : rstring) : bool :=
  match parse_year_month_only source, parse_month_day_only source with
  | None, None => false
  | _, _ => true
  end.
Definition parse_time_only (source : rstring) : option Parsed :=
  let '(designated, s) := match eat_any (str "Tt") source with Some (_, s) => (true, s) | None => (false, source) end in
  '(time, s) ← scan_time s;
  '(utc, offset, precise, s) ← scan_utc_offset_suffix s;
  '(time_zone, calendar, s) ← scan_annotations s;
  if negb (done s) || (negb designated && is_ambiguous_with_a_date source) then None
  else Some (Build_Parsed 1970 1 1 false false (Some time) utc offset precise time_zone calendar).
Definition parse_time (source : rstring) : option Parsed :=
  match parse_time_only source with
  | Some p => Some p
  | None => p ← parse_date_time source; match px_time p with Some _ => Some p | None => None end
  end.
Definition parse_plain_time (source : rstring) : option CivilTime :=
  p ← parse_time source;
  if utc_designator p then None else px_time p.

(** ** Durations (iso/duration.rs) *)
Record DurationScan := {
  ds_values : list Z; in_time : bool; saw_component : bool; saw_time_component : bool;
  previous : option nat; fraction_seen : bool;
}.
Definition designator_index (in_time : bool) (c : N) : option nat :=
  let named names := is_char (str names) c in
  if in_time
  then if named "Hh" then Some 4%nat else if named "Mm" then Some 5%nat else if named "Ss" then Some 6%nat else None
  else if named "Yy" then Some 0%nat else if named "Mm" then Some 1%nat else if named "Ww" then Some 2%nat
       else if named "Dd" then Some 3%nat else None.
Definition fraction_unit (index : nat) : option Z :=
  match index with
  | 4%nat => Some 3600000000000 | 5%nat => Some 60000000000 | 6%nat => Some 1000000000 | _ => None
  end.
(** The loop that carries a fraction down through the smaller fields. *)
Fixpoint carry_fraction (index : nat) (slots : list (nat * Z)) (remaining : Z) (values : list Z) : list Z :=
  match slots with
  | [] => values
  | (slot, unit) :: slots =>
      if (slot <=? index)%nat then carry_fraction index slots remaining values
      else carry_fraction index slots (Z.rem remaining unit) (<[slot := remaining ÷ unit]> values)
  end.
Definition FRACTION_SLOTS : list (nat * Z) :=
  [(5%nat, 60000000000); (6%nat, 1000000000); (7%nat, 1000000); (8%nat, 1000); (9%nat, 1)].
(** One component: a number, an optional fraction and a designator. *)
Definition duration_component (st : DurationScan) (s : rstring) : option (DurationScan * rstring) :=
  let digits := take_while is_ascii_digit s in
  let s := drop (length digits) s in
  if done digits then None else
  '(fraction, s) ←
    (match eat_any (str ".,") s with
     | Some (_, s) =>
         let ds := take_while is_ascii_digit s in
         if (length ds =? 0)%nat || (9 <? length ds)%nat then None else Some (Some ds, drop (length ds) s)
     | None => Some (None, s)
     end);
  match s with
  | [] => None
  | c :: s =>
      index ← designator_index (in_time st) c;
      if match previous st with Some p => (index <=? p)%nat | None => false end then None else
      value ← checked (number digits);
      let values := <[index := value]> (ds_values st) in
      values ← (match fraction with
                | None => Some (values, fraction_seen st)
                | Some ds =>
                    unit ← fraction_unit index;
                    let remaining := (number ds * unit) ÷ 10 ^ Z.of_nat (length ds) in
                    Some (carry_fraction index FRACTION_SLOTS remaining values, true)
                end);
      Some (Build_DurationScan values.1 (in_time st) true (saw_time_component st || in_time st)
              (Some index) values.2, s)
  end.
(** Each turn takes a character at least. *)
Fixpoint duration_loop (fuel : nat) (st : DurationScan) (s : rstring) : option DurationScan :=
  match s with
  | [] => Some st
  | c :: s' =>
      match fuel with
      | O => None
      | S fuel =>
          if fraction_seen st then None
          else if is_char (str "Tt") c then
            if in_time st then None
            else duration_loop fuel (Build_DurationScan (ds_values st) true (saw_component st)
                                       (saw_time_component st) None (fraction_seen st)) s'
          else '(st, s) ← duration_component st s; duration_loop fuel st s
      end
  end.
(** U+2212, the minus sign *)
Definition MINUS_SIGN : N := 8722.
Definition parse_duration_record (source : rstring) : option DurationRecord :=
  let '(sign, s) :=
    match source with
    | c :: s => if (c =? ch "+")%N then (1, s)
                else if (c =? ch "-")%N || (c =? MINUS_SIGN)%N then (-1, s) else (1, source)
    | [] => (1, source)
    end in
  s ← strip_char (str "Pp") s;
  st ← duration_loop (length s) (Build_DurationScan (replicate 10 0) false false false None false) s;
  if saw_component st && (negb (in_time st) || saw_time_component st) then
    match (λ v, sign * v) <$> ds_values st with
    | [y; mo; w; d; h; mi; s; ms; us; ns] =>
        match duration_try_new y mo w d h mi s ms us ns with inr record => Some record | inl _ => None end
    | _ => None
    end
  else None.

(** ** Printing *)
(** [{:0w}] of a number that is not negative *)
Definition zero_padded (w : nat) (n : Z) : rstring :=
  let text := decimal (Z.to_N n) in zeros (w - length text) ++ text.
(** plain_date/format.rs *)
Definition format_year (year : Z) : rstring :=
  if (0 <=? year) && (year <=? 9999) then zero_padded 4 year
  else (if year <? 0 then str "-" else str "+") ++ zero_padded 6 (Z.abs year).
Definition format_iso_date (date : CivilDate) : rstring :=
  let '(year, month, day) := date in
  format_year year ++ str "-" ++ zero_padded 2 month ++ str "-" ++ zero_padded 2 day.
Inductive ShowCalendar := Auto | Always | Never | Critical.
#[export] Instance ShowCalendar_eq_dec : EqDecision ShowCalendar.
Proof. solve_decision. Defined.
Definition parse_show_calendar (value : rstring) : option ShowCalendar :=
  if bool_decide (value = str "auto") then Some Auto
  else if bool_decide (value = str "always") then Some Always
  else if bool_decide (value = str "never") then Some Never
  else if bool_decide (value = str "critical") then Some Critical
  else None.
Definition format_calendar_annotation (calendar : rstring) (show : ShowCalendar) : rstring :=
  match show with
  | Never => []
  | Auto => if bool_decide (calendar = str "iso8601") then [] else str "[u-ca=" ++ calendar ++ str "]"
  | Critical => str "[!u-ca=" ++ calendar ++ str "]"
  | Always => str "[u-ca=" ++ calendar ++ str "]"
  end.
(** plain_year_month.rs and plain_month_day.rs *)
Definition full_date_shown (calendar : rstring) (show : ShowCalendar) : bool :=
  bool_decide (show = Always) || bool_decide (show = Critical) || negb (bool_decide (calendar = str "iso8601")).
Definition format_year_month (date : CivilDate) (calendar : rstring) (show : ShowCalendar) : rstring :=
  let '(year, month, _) := date in
  (if full_date_shown calendar show then format_iso_date date
   else format_year year ++ str "-" ++ zero_padded 2 month) ++ format_calendar_annotation calendar show.
Definition format_month_day (date : CivilDate) (calendar : rstring) (show : ShowCalendar) : rstring :=
  let '(_, month, day) := date in
  (if full_date_shown calendar show then format_iso_date date
   else zero_padded 2 month ++ str "-" ++ zero_padded 2 day) ++ format_calendar_annotation calendar show.

(** Times, instants and zoned date-times (vm/temporal.rs, plain_time.rs, instant.rs, formatting.rs).
    The options allow at most nine digits, so that [take] is the slice of the nine that are printed. *)
Inductive SecondsPrecision := Minute | AutoSeconds | Digits (n : nat).
Definition nanos_total (millisecond microsecond nanosecond : Z) : Z :=
  millisecond * 1000000 + microsecond * 1000 + nanosecond.
Definition format_seconds (second nanos : Z) (precision : SecondsPrecision) : rstring :=
  match precision with
  | Minute => []
  | Digits O => str ":" ++ zero_padded 2 second
  | Digits n => str ":" ++ zero_padded 2 second ++ str "." ++ take n (zero_padded 9 nanos)
  | AutoSeconds =>
      str ":" ++ zero_padded 2 second ++
      (if nanos =? 0 then [] else str "." ++ trim_end_zeros (zero_padded 9 nanos))
  end.
Definition format_plain_time_string (fields : CivilTime) (precision : SecondsPrecision) : rstring :=
  let '(hour, minute, second, millisecond, microsecond, nanosecond) := fields in
  zero_padded 2 hour ++ str ":" ++ zero_padded 2 minute ++
  format_seconds second (nanos_total millisecond microsecond nanosecond) precision.
Definition format_date_time (date : CivilDate) (time : CivilTime) (precision : SecondsPrecision) : rstring :=
  format_iso_date date ++ str "T" ++ format_plain_time_string time precision.
Definition format_zoned_date_time_date_time (local : Z) (precision : SecondsPrecision) : res rstring :=
  fields ← instant_fields local;
  mret (format_date_time fields.1 fields.2 precision).
Definition format_instant_string (epoch_nanoseconds : Z) (precision : SecondsPrecision)
    (offset_nanoseconds : option Z) : res rstring :=
  let local := match offset_nanoseconds with Some offset => epoch_nanoseconds + offset | None => epoch_nanoseconds end in
  text ← format_zoned_date_time_date_time local precision;
  mret (text ++
    match offset_nanoseconds with
    | Some offset =>
        let minutes := (Z.abs offset + 30000000000) ÷ 60000000000 in
        (if offset <? 0 then str "-" else str "+") ++ zero_padded 2 (minutes ÷ 60) ++ str ":" ++
        zero_padded 2 (Z.rem minutes 60)
    | None => str "Z"
    end).
(** time_zone_id.rs *)
Definition format_offset (minutes : Z) : rstring :=
  (if minutes <? 0 then str "-" else str "+") ++ zero_padded 2 (Z.abs minutes ÷ 60) ++ str ":" ++
  zero_padded 2 (Z.rem (Z.abs minutes) 60).
Definition trim_end_point (s : rstring) : rstring :=
  rev (drop (length (take_while (λ c, (c =? ch ".")%N) (rev s))) (rev s)).
Definition format_offset_nanoseconds_exact (offset : Z) : rstring :=
  let magnitude := Z.abs offset in
  let hours := magnitude ÷ 3600000000000 in
  let minutes := Z.rem (magnitude ÷ 60000000000) 60 in
  let seconds := Z.rem (magnitude ÷ 1000000000) 60 in
  let nanoseconds := Z.rem magnitude 1000000000 in
  (if offset <? 0 then str "-" else str "+") ++ zero_padded 2 hours ++ str ":" ++ zero_padded 2 minutes ++
  (if negb (seconds =? 0) || negb (nanoseconds =? 0)
   then str ":" ++ zero_padded 2 seconds ++
        trim_end_point (trim_end_zeros (str "." ++ zero_padded 9 nanoseconds))
   else []).

(** zoned/resolution.rs *)
Definition round_offset_nanoseconds_to_minutes (offset : Z) : Z :=
  let quotient := offset ÷ 60000000000 in
  let remainder := Z.rem offset 60000000000 in
  (if 60000000000 <=? Z.abs remainder * 2 then quotient + (if 0 <? offset then 1 else -1) else quotient) *
  60000000000.
(** What [toString] of a ZonedDateTime appends once its options are read and its instant is rounded.  The
    [expect] on the calendar option panics on a name that [parse_show_calendar] refuses. *)
Definition time_zone_annotation (show_time_zone time_zone : rstring) : rstring :=
  if bool_decide (show_time_zone = str "never") then []
  else str "[" ++ (if bool_decide (show_time_zone = str "critical") then str "!" else []) ++ time_zone ++ str "]".
Definition zoned_date_time_string (local offset : Z) (precision : SecondsPrecision)
    (show_offset show_time_zone time_zone calendar show_calendar : rstring) : res rstring :=
  text ← format_zoned_date_time_date_time local precision;
  show ← (match parse_show_calendar show_calendar with Some show => Ok show | None => Panic end);
  mret (text ++
    (if bool_decide (show_offset = str "never") then []
     else format_offset_nanoseconds_exact (round_offset_nanoseconds_to_minutes offset)) ++
    time_zone_annotation show_time_zone time_zone ++ format_calendar_annotation calendar show).

(** Durations (duration_operations.rs) *)
Definition shown (value : Z) (suffix : string) : rstring :=
  if value =? 0 then [] else decimal (Z.to_N (Z.abs value)) ++ str suffix.
Definition format_duration_string (d : DurationRecord) (precision : option nat) : rstring :=
  let date := shown (years d) "Y" ++ shown (months d) "M" ++ shown (weeks d) "W" ++ shown (days d) "D" in
  let time := shown (hours d) "H" ++ shown (minutes d) "M" in
  let subsecond_total := seconds d * 1000000000 + milliseconds d * 1000000 + microseconds d * 1000 + nanoseconds d in
  let seconds := subsecond_total ÷ 1000000000 in
  let fraction := Z.abs (Z.rem subsecond_total 1000000000) in
  let only_seconds := done date && done time in
  let time :=
    if negb (seconds =? 0) || negb (fraction =? 0) || only_seconds || match precision with Some _ => true | None => false end
    then time ++ decimal (Z.to_N (Z.abs seconds)) ++
      match precision with
      | None => if fraction =? 0 then [] else str "." ++ trim_end_zeros (zero_padded 9 fraction)
      | Some O => []
      | Some count => str "." ++ take count (zero_padded 9 fraction)
      end ++ str "S"
    else time in
  (if duration_sign d <? 0 then str "-" else []) ++ str "P" ++ date ++
  (if done time then [] else str "T" ++ time).

(** ** Examples (the sources' tests) *)
Example ex_parse_instant : parse_instant (str "1976-11-18T15:23:30.123456789-05:30[America/New_York][u-ca=iso8601]") =
  Some (Build_InstantParts (1976, 11, 18) (15, 23, 30, 123, 456, 789) (-19800000000000)).
Proof. vm_compute. reflexivity. Qed.
Example ex_basic_form : px_time <$> parse_date_time (str "19761118T152330,5Z") = Some (Some (15, 23, 30, 500, 0, 0)).
Proof. vm_compute. reflexivity. Qed.
Example ex_mixed_separators : parse_date_time (str "2020-0101") = None ∧ parse_instant (str "2020-01-01T00:0000Z") = None.
Proof. vm_compute. done. Qed.
Example ex_ambiguous : parse_plain_time (str "1130") = None ∧ parse_plain_time (str "1314") = Some (13, 14, 0, 0, 0, 0).
Proof. vm_compute. done. Qed.
Example ex_suffix_errors : Forall (λ s, parse_annotation_suffix (str s) = None)
  ["[UTC"; "[UTC][foo"; "[+01:02:03]"; "[UTC]tail"; "[u-ca=]"; "[u-ca=iso8601][!u-ca=hebrew]"; "[!foo=bar]";
   "[u-ca=iso8601][UTC]"; "[bad key=value]"; "[UTC][k=a_b]"]%string.
Proof. repeat constructor. Qed.
Example ex_duration : parse_duration_record (str "-PT0.5H") = Some (Build_DurationRecord 0 0 0 0 0 (-30) 0 0 0 0).
Proof. vm_compute. reflexivity. Qed.
Example ex_duration_errors : Forall (λ s, parse_duration_record (str s) = None)
  ["P1"; "P1.5Y"; "PT1.1234567890S"; "P"; "PT"; "P1DT"; "P1M1Y"; "PT0.5H1M"]%string.
Proof. repeat constructor. Qed.
Example ex_format_duration :
  format_duration_string (Build_DurationRecord 1 0 0 2 0 0 0 1500 0 0) None = str "P1Y2DT1.5S" ∧
  format_duration_string (Build_DurationRecord 0 0 0 0 0 0 0 0 0 0) None = str "PT0S".
Proof. by vm_compute. Qed.
Example ex_format_instant :
  format_instant_string (-1) AutoSeconds None = Ok (str "1969-12-31T23:59:59.999999999Z") ∧
  format_instant_string 0 (Digits 3) (Some (-19800000000000)) = Ok (str "1969-12-31T18:30:00.000-05:30").
Proof. by vm_compute. Qed.
Example ex_format_offset :
  format_offset_nanoseconds_exact 19812345600000 = str "+05:30:12.3456" ∧
  format_offset_nanoseconds_exact (-2670000000000) = str "-00:44:30" ∧
  format_offset_nanoseconds_exact 1 = str "+00:00:00.000000001".
Proof. by vm_compute. Qed.
Example ex_format_date : format_iso_date (-1, 2, 3) = str "-000001-02-03".
Proof. by vm_compute. Qed.
(** A time-zone name of four bytes after its sign, cut inside a character. *)
Example ex_minute_offset : parse_minute_offset (str "+0130") = Ok (Some 90) ∧
  parse_minute_offset (str "+a" ++ [233%N] ++ str "a") = Panic.
Proof. by vm_compute. Qed.

(** ** Decimal numbers *)
Lemma digits_val_snoc ds c : digits_val 10 (ds ++ [c]) = (digits_val 10 ds * 10 + digit_val c)%N.
Proof. unfold digits_val. by rewrite foldl_app. Qed.
Lemma number_app a b : number (a ++ b) = number a * 10 ^ Z.of_nat (length b) + number b.
Proof.
  induction b as [|c b IH] using rev_ind; [rewrite app_nil_r; unfold number; cbn; lia|].
  rewrite app_assoc. unfold number in *. rewrite !digits_val_snoc, length_app. cbn [length].
  replace (Z.of_nat (length b + 1)) with (Z.of_nat (length b) + 1) by lia.
  rewrite Z.pow_add_r by lia. change (10 ^ 1) with 10. lia.
Qed.
Lemma is_ascii_digit_spec c : is_ascii_digit c = true ↔ (48 <= c <= 57)%N.
Proof. unfold is_ascii_digit, in_range. by rewrite andb_true_iff, !N.leb_le. Qed.
Lemma digit_val_bounds c : is_ascii_digit c = true → (digit_val c <= 9)%N.
Proof. intros Hc. unfold digit_val. rewrite Hc. apply is_ascii_digit_spec in Hc. lia. Qed.
Lemma number_bounds ds : all_digits ds = true → 0 <= number ds < 10 ^ Z.of_nat (length ds).
Proof.
  induction ds as [|c ds IH] using rev_ind; [unfold number; cbn; lia|].
  unfold all_digits. rewrite forallb_app. cbn. rewrite andb_true_r. intros [Hd Hc%digit_val_bounds]%andb_true_iff.
  specialize (IH Hd). unfold number in *. rewrite digits_val_snoc, length_app. cbn [length].
  replace (Z.of_nat (length ds + 1)) with (Z.of_nat (length ds) + 1) by lia.
  rewrite Z.pow_add_r by lia. change (10 ^ 1) with 10. lia.
Qed.
Lemma all_digits_app a b : all_digits (a ++ b) = all_digits a && all_digits b.
Proof. apply forallb_app. Qed.
Lemma all_digits_take n s : all_digits s = true → all_digits (take n s) = true.
Proof. intros H. rewrite <-(take_drop n s), all_digits_app in H. by apply andb_true_iff in H as [? _]. Qed.

Lemma zeros_digits n : all_digits (zeros n) = true ∧ number (zeros n) = 0.
Proof.
  induction n as [|n [IH1 IH2]]; [done|]. unfold zeros in *. rewrite replicate_S_end, all_digits_app, IH1.
  split; [done|]. rewrite number_app, IH2. done.
Qed.
Lemma digit_of_nat n : is_ascii_digit (48 + n mod 10) = true ∧ digit_val (48 + n mod 10) = (n mod 10)%N.
Proof.
  pose proof (N.mod_upper_bound n 10 ltac:(done)) as Hr. set (r := (n mod 10)%N) in *. clearbody r.
  assert (is_ascii_digit (48 + r) = true) as H1 by (apply is_ascii_digit_spec; lia).
  split; [done|]. unfold digit_val. rewrite H1. lia.
Qed.

(** The digits of [n] are put before [acc]. *)
Lemma nat_digits_spec fuel n acc : (n < 10 ^ N.of_nat fuel)%N →
  ∃ ds, nat_digits fuel n acc = ds ++ acc ∧ all_digits ds = true ∧ number ds = Z.of_N n ∧
    (ds = [] → fuel = O) ∧ ∀ w, (n < 10 ^ N.of_nat w)%N → w ≠ O → (length ds <= w)%nat.
Proof.
  revert n acc. induction fuel as [|fuel IH]; intros n acc Hn.
  { exists []. cbn in Hn. split_and!; [done|done|unfold number; cbn; lia|done|cbn; lia]. }
  cbn [nat_digits]. destruct (digit_of_nat n) as [Hd Hv]. destruct (N.ltb_spec n 10) as [Hlt|Hge].
  - exists [(48 + n mod 10)%N]. split_and!; [done|cbn; by rewrite Hd| |done|cbn; lia].
    unfold number, digits_val. cbn [foldl]. rewrite Hv, N.mod_small by done. lia.
  - rewrite Nat2N.inj_succ, N.pow_succ_r' in Hn.
    destruct (IH (n / 10)%N ((48 + n mod 10)%N :: acc)) as (ds & Eq & Hds & Hnum & _ & Hlen);
      [apply N.Div0.div_lt_upper_bound; lia|].
    exists (ds ++ [(48 + n mod 10)%N]). rewrite Eq, <-app_assoc. split_and!; [done| | | |].
    + rewrite all_digits_app, Hds. cbn. by rewrite Hd.
    + rewrite number_app, Hnum. unfold number, digits_val. cbn [foldl length]. rewrite Hv.
      pose proof (N.div_mod' n 10). change (10 ^ Z.of_nat 1) with 10. lia.
    + intros [_ ?]%app_eq_nil. done.
    + intros w Hw Hw0. rewrite length_app. cbn [length]. destruct w as [|w]; [done|].
      rewrite Nat2N.inj_succ, N.pow_succ_r' in Hw.
      destruct w as [|w]; [cbn in Hw; lia|].
      assert (length ds <= S w)%nat by (apply Hlen; [apply N.Div0.div_lt_upper_bound; lia|done]). lia.
Qed.
Lemma decimal_spec n : ∃ c ds, decimal n = c :: ds ∧ all_digits (decimal n) = true ∧ number (decimal n) = Z.of_N n ∧
  ∀ w, (n < 10 ^ N.of_nat w)%N → w ≠ O → (length (decimal n) <= w)%nat.
Proof.
  destruct (nat_digits_spec (S (N.to_nat (N.log2 n))) n []) as (ds & Eq & Hds & Hnum & Hne & Hlen).
  - rewrite Nat2N.inj_succ, N2Nat.id. eapply N.lt_le_trans; [|apply N.pow_le_mono_l with (a := 2%N); lia].
    destruct (decide (n = 0)%N) as [->|]; [done|]. by apply N.log2_spec; lia.
  - rewrite app_nil_r in Eq. change (decimal n = ds) in Eq. rewrite Eq.
    destruct ds as [|c ds]; [by specialize (Hne eq_refl)|]. by exists c, ds.
Qed.
Lemma zero_padded_spec w n : w ≠ O → 0 <= n < 10 ^ Z.of_nat w →
  length (zero_padded w n) = w ∧ all_digits (zero_padded w n) = true ∧ number (zero_padded w n) = n.
Proof.
  intros Hw Hn. unfold zero_padded. destruct (decimal_spec (Z.to_N n)) as (c & ds & _ & Hds & Hnum & Hlen).
  assert (length (decimal (Z.to_N n)) <= w)%nat.
  { apply Hlen; [|done]. apply N2Z.inj_lt. rewrite N2Z.inj_pow, nat_N_Z, Z2N.id by lia. lia. }
  destruct (zeros_digits (w - length (decimal (Z.to_N n)))) as [Hz1 Hz2].
  rewrite length_app, all_digits_app, number_app, Hz1, Hz2, Hnum, Hds.
  unfold zeros. rewrite length_replicate. split_and!; [lia|done|lia].
Qed.

(** ** Scanning *)
Definition numeral (w : nat) (s : rstring) : Prop := length s = w ∧ all_digits s = true.
Lemma numeral_padded w n : w ≠ O → 0 <= n < 10 ^ Z.of_nat w → numeral w (zero_padded w n).
Proof. intros Hw Hn. destruct (zero_padded_spec w n Hw Hn) as (? & ? & _). by split. Qed.
Lemma number_padded w n : w ≠ O → 0 <= n < 10 ^ Z.of_nat w → number (zero_padded w n) = n.
Proof. intros Hw Hn. by destruct (zero_padded_spec w n Hw Hn) as (_ & _ & ?). Qed.
Lemma numeral_bounds w s : numeral w s → 0 <= number s < 10 ^ Z.of_nat w.
Proof. intros [<- H]. by apply number_bounds. Qed.
Lemma numeral_head w s : numeral w s → w ≠ O → ∃ c s', s = c :: s' ∧ is_ascii_digit c = true.
Proof.
  intros [Hl Hd] Hw. destruct s as [|c s']; [done|]. exists c, s'. split; [done|].
  cbn in Hd. by apply andb_true_iff in Hd as [? _].
Qed.

Lemma digits_app w s r : numeral w s → digits w (s ++ r) = Some (number s, r).
Proof.
  intros [Hl Hd]. unfold digits. subst w. rewrite take_app_length, drop_app_length, Hd, Nat.eqb_refl. done.
Qed.
Lemma digits_inv w s n r : digits w s = Some (n, r) → ∃ ds, s = ds ++ r ∧ numeral w ds ∧ n = number ds.
Proof.
  unfold digits. destruct (_ =? _)%nat eqn:Hl; [|done]. destruct (all_digits _) eqn:Hd; [|done].
  intros [= <- <-]. exists (take w s). apply Nat.eqb_eq in Hl. by rewrite take_drop.
Qed.
Lemma split_digits_app w s r : numeral w s → split_digits (s ++ r) w = Some (s, r).
Proof.
  intros [Hl Hd]. unfold split_digits. subst w. rewrite length_app, take_app_length, drop_app_length, Hd.
  by rewrite (proj2 (Nat.ltb_ge _ _)) by lia.
Qed.
Lemma split_digits_inv w s ds r : split_digits s w = Some (ds, r) → s = ds ++ r ∧ numeral w ds.
Proof.
  unfold split_digits. destruct (Nat.ltb_spec (length s) w); [done|]. destruct (all_digits _) eqn:Hd; [|done].
  intros [= <- <-]. split; [by rewrite take_drop|]. split; [|done]. rewrite length_take. lia.
Qed.
Lemma digits_split w s : digits w s = (λ p, (number p.1, p.2)) <$> split_digits s w.
Proof.
  unfold digits, split_digits. rewrite length_take.
  destruct (Nat.ltb_spec (length s) w), (Nat.eqb_spec (w `min` length s) w); try lia; try done.
  by destruct (all_digits _).
Qed.

(** Characters that cannot continue a number. *)
Definition ends_time (r : rstring) : Prop := match r with [] => True | c :: _ => is_char (str "Zz+-[") c = true end.
Definition ends_offset (r : rstring) : Prop := match r with [] => True | c :: _ => c = ch "[" end.
Lemma is_char_elem names c : is_char names c = true ↔ c ∈ names.
Proof. apply bool_decide_eq_true. Qed.
Lemma ends_offset_time r : ends_offset r → ends_time r.
Proof. destruct r as [|c r]; [done|]. by intros ->. Qed.
Lemma ends_time_facts r : ends_time r →
  peek_digit r = false ∧ eat (ch ":") r = (false, r) ∧ eat_any (str ".,") r = None ∧ take_while is_ascii_digit r = [].
Proof.
  destruct r as [|c r]; [done|]. cbn [ends_time]. rewrite is_char_elem. intros Hc.
  assert (Forall (λ c, is_ascii_digit c = false ∧ (c =? ch ":")%N = false ∧ is_char (str ".,") c = false) (str "Zz+-[")) as HF
    by (repeat constructor).
  rewrite Forall_forall in HF. destruct (HF c Hc) as (H1 & H2 & H3).
  unfold peek_digit, peek, eat, eat_any. cbn [head take_while]. by rewrite H1, H2, H3.
Qed.
Lemma digit_not_char names c : is_ascii_digit c = true → forallb (λ d, negb (is_ascii_digit d)) names = true →
  is_char names c = false.
Proof.
  intros Hc Hn. apply bool_decide_eq_false. intros Hin.
  rewrite forallb_forall in Hn. apply list_elem_of_In, Hn in Hin. by rewrite Hc in Hin.
Qed.
Lemma digit_neq c d : is_ascii_digit c = true → is_ascii_digit d = false → (c =? d)%N = false.
Proof. intros Hc Hd. apply N.eqb_neq. intros ->. congruence. Qed.
Lemma eat_numeral w s r byte : numeral w s → w ≠ O → is_ascii_digit byte = false → eat byte (s ++ r) = (false, s ++ r).
Proof.
  intros Hs Hw Hb. destruct (numeral_head w s Hs Hw) as (c & s' & -> & Hc). cbn. by rewrite (digit_neq c byte).
Qed.
Lemma eat_any_numeral w s r names : numeral w s → w ≠ O → forallb (λ d, negb (is_ascii_digit d)) names = true →
  eat_any names (s ++ r) = None.
Proof.
  intros Hs Hw Hn. destruct (numeral_head w s Hs Hw) as (c & s' & -> & Hc). cbn. by rewrite digit_not_char.
Qed.
Lemma peek_numeral w s r : numeral w s → w ≠ O → peek_digit (s ++ r) = true.
Proof. intros Hs Hw. by destruct (numeral_head w s Hs Hw) as (c & s' & -> & Hc). Qed.
Lemma eat_inv byte s b r : eat byte s = (b, r) → if b then s = byte :: r else s = r.
Proof.
  unfold eat. destruct s as [|c s]; [by intros [= <- <-]|].
  destruct (N.eqb_spec c byte) as [->|]; by intros [= <- <-].
Qed.
Lemma eat_any_inv names s c r : eat_any names s = Some (c, r) → s = c :: r ∧ c ∈ names.
Proof.
  unfold eat_any. destruct s as [|d s]; [done|]. destruct (is_char names d) eqn:E; [|done].
  intros [= <- <-]. by apply is_char_elem in E.
Qed.
Lemma strip_char_inv names s r : strip_char names s = Some r → ∃ c, s = c :: r ∧ c ∈ names.
Proof.
  unfold strip_char. destruct s as [|d s]; [done|]. destruct (is_char names d) eqn:E; [|done].
  intros [= <-]. apply is_char_elem in E. by exists d.
Qed.

(** Fractions. *)
Definition fraction (f : rstring) : Prop := all_digits f = true ∧ (1 <= length f <= 9)%nat.
Lemma take_while_digits f r : all_digits f = true → take_while is_ascii_digit r = [] →
  take_while is_ascii_digit (f ++ r) = f.
Proof. intros Hf Hr. rewrite take_while_app by done. by rewrite Hr, app_nil_r. Qed.
Lemma fraction_app f r : fraction f → take_while is_ascii_digit r = [] →
  fraction_nanoseconds (f ++ r) = Some (scale_fraction f, r).
Proof.
  intros [Hf Hl] Hr. unfold fraction_nanoseconds. rewrite take_while_digits by done.
  destruct (Nat.eqb_spec (length f) 0), (Nat.ltb_spec 9 (length f)); try lia. by rewrite drop_app_length.
Qed.
Lemma take_while_drop {A} (p : A → bool) l : take_while p l ++ drop (length (take_while p l)) l = l.
Proof. induction l as [|x l IH]; [done|]. cbn. destruct (p x); [|done]. cbn. by rewrite IH. Qed.
Lemma fraction_inv s n r : fraction_nanoseconds s = Some (n, r) → ∃ f, s = f ++ r ∧ fraction f ∧ n = scale_fraction f.
Proof.
  unfold fraction_nanoseconds. pose proof (take_while_drop is_ascii_digit s) as Hs.
  pose proof (take_while_forallb is_ascii_digit s) as Hd.
  destruct (Nat.eqb_spec (length (take_while is_ascii_digit s)) 0), (Nat.ltb_spec 9 (length (take_while is_ascii_digit s))); try done.
  intros [= <- <-]. eexists. split; [by symmetry|]. repeat split; [done|lia|lia].
Qed.

(** ** The grammar of times *)
Definition separator (sep : rstring) : Prop := sep = [] ∨ sep = str ":".
(** [Hour [[:] Minute [[:] Second [Fraction]]]] with its fields; the separators agree. *)
Inductive time_text : rstring → Z → Z → option Z → Z → Prop :=
  | hour_text h : numeral 2 h → time_text h (number h) 0 None 0
  | minute_text sep h m : separator sep → numeral 2 h → numeral 2 m →
      time_text (h ++ sep ++ m) (number h) (number m) None 0
  | second_text sep h m s : separator sep → numeral 2 h → numeral 2 m → numeral 2 s →
      time_text (h ++ sep ++ m ++ sep ++ s) (number h) (number m) (Some (number s)) 0
  | fraction_text sep h m s p f : separator sep → numeral 2 h → numeral 2 m → numeral 2 s →
      p ∈ str ".," → fraction f →
      time_text (h ++ sep ++ m ++ sep ++ s ++ p :: f) (number h) (number m) (Some (number s)) (scale_fraction f).

(** What [scan_time] and [scan_offset] share: the fields and the text that is left; seconds up to
    [limit]. *)
Definition scan_fields (limit : Z) (s : rstring) : option (Z * Z * option Z * Z * rstring) :=
  '(hour, s) ← digits 2 s;
  if 23 <? hour then None else
  let '(extended, s) := eat (ch ":") s in
  if extended || peek_digit s then
    '(minute, s) ← digits 2 s;
    if 59 <? minute then None else
    let '(seconds_follow, s) := if extended : bool then eat (ch ":") s else (peek_digit s, s) in
    if seconds_follow : bool then
      '(second, s) ← digits 2 s;
      if limit <? second then None else
      match eat_any (str ".,") s with
      | Some (_, s) => '(nanoseconds, s) ← fraction_nanoseconds s; Some (hour, minute, Some second, nanoseconds, s)
      | None => Some (hour, minute, Some second, 0, s)
      end
    else Some (hour, minute, None, 0, s)
  else Some (hour, 0, None, 0, s).

Definition written {A} (o : option A) : bool := match o with Some _ => true | None => false end.
(** The shared case analysis on the way down a scanner. *)
Ltac scanner_cases :=
  repeat match goal with
  | |- ?x = ?x => reflexivity
  | |- _ => progress cbn [mbind option_bind default from_option orb andb negb written]
  | |- context [digits 2 ?s] => destruct (digits 2 s) as [[??]|]; cbn [mbind option_bind]
  | |- context [fraction_nanoseconds ?s] => destruct (fraction_nanoseconds s) as [[??]|]; cbn [mbind option_bind]
  | |- context [eat_any ?n ?s] => destruct (eat_any n s) as [[??]|]; cbn [mbind option_bind]
  | |- context [eat ?c ?s] => destruct (eat c s) as [[] ?]; cbn [orb]
  | |- context [peek_digit ?s] => destruct (peek_digit s); cbn [orb]
  | |- context [?a <? ?b] => destruct (a <? b); cbn [mbind option_bind]
  end.
Lemma scan_time_fields s : scan_time s =
  '(h, m, so, ns, r) ← scan_fields 60 s; Some (with_nanoseconds h m (Z.min (default 0 so) 59) ns, r).
Proof. unfold scan_time, scan_fields. scanner_cases; reflexivity. Qed.
Lemma scan_offset_fields s sub_minute : scan_offset s sub_minute =
  '(byte, s) ← eat_any (str "+-") s;
  '(h, m, so, ns, r) ← scan_fields 59 s;
  if negb sub_minute && written so then None
  else Some (offset_value (if (byte =? ch "-")%N then -1 else 1) h m (default 0 so) ns, written so, r).
Proof. unfold scan_offset, scan_fields. destruct sub_minute; scanner_cases; reflexivity. Qed.

(** A number of known width at the cursor. *)
Ltac numeral_step :=
  match goal with
  | |- context [digits ?w (?s ++ ?r)] => rewrite (digits_app w s r) by done
  end; cbn [mbind option_bind].
Ltac within H := rewrite (proj2 (Z.ltb_ge _ _) H).

Lemma scan_fields_text limit b h m so ns r : time_text b h m so ns → h <= 23 → m <= 59 →
  (∀ s, so = Some s → s <= limit) → ends_time r → scan_fields limit (b ++ r) = Some (h, m, so, ns, r).
Proof.
  intros Ht Hh Hm Hs Hr. destruct (ends_time_facts r Hr) as (Hp & He & Hf & Hw).
  destruct Ht as [h Hh2|sep h m Hsep Hh2 Hm2|sep h m s Hsep Hh2 Hm2 Hs2|sep h m s p f Hsep Hh2 Hm2 Hs2 Hp2 Hf2];
    unfold scan_fields; rewrite <-?app_assoc; numeral_step; within Hh.
  - by rewrite He, Hp.
  - destruct Hsep as [-> | ->]; cbn [app].
    + rewrite (eat_numeral 2) by done. cbn [orb]. rewrite (peek_numeral 2) by done. numeral_step. within Hm.
      by rewrite Hp.
    + change (eat (ch ":") (str ":" ++ m ++ r)) with (true, m ++ r). cbn [orb]. numeral_step. within Hm. by rewrite He.
  - specialize (Hs _ eq_refl). destruct Hsep as [-> | ->]; cbn [app].
    + rewrite (eat_numeral 2) by done. cbn [orb]. rewrite (peek_numeral 2) by done. numeral_step. within Hm.
      rewrite (peek_numeral 2) by done. numeral_step. within Hs. by rewrite Hf.
    + change (eat (ch ":") (str ":" ++ ?x)) with (true, x). cbn [orb]. numeral_step. within Hm.
      change (eat (ch ":") (str ":" ++ s ++ r)) with (true, s ++ r). cbv iota. numeral_step. within Hs. by rewrite Hf.
  - specialize (Hs _ eq_refl).
    assert (Hdot : eat_any (str ".,") ((p :: f) ++ r) = Some (p, f ++ r))
      by (cbn [app eat_any]; by rewrite (proj2 (is_char_elem _ _) Hp2)).
    destruct Hsep as [-> | ->]; cbn [app] in Hdot |- *.
    + rewrite (eat_numeral 2) by done. cbn [orb]. rewrite (peek_numeral 2) by done. numeral_step. within Hm.
      rewrite (peek_numeral 2) by done. numeral_step. within Hs.
      by rewrite Hdot, fraction_app.
    + change (eat (ch ":") (str ":" ++ ?x)) with (true, x). cbn [orb]. numeral_step. within Hm.
      change (eat (ch ":") (str ":" ++ ?x)) with (true, x). cbv iota. numeral_step. within Hs.
      by rewrite Hdot, fraction_app.
Qed.

Lemma scan_seconds_inv limit sep dh dm s h m so ns r : separator sep → numeral 2 dh → numeral 2 dm →
  ('(second, s) ← digits 2 s;
   if limit <? second then None else
   match eat_any (str ".,") s with
   | Some (_, s) => '(nanoseconds, s) ← fraction_nanoseconds s; Some (number dh, number dm, Some second, nanoseconds, s)
   | None => Some (number dh, number dm, Some second, 0, s)
   end) = Some (h, m, so, ns, r) →
  ∃ b, dh ++ sep ++ dm ++ sep ++ s = b ++ r ∧ time_text b h m so ns ∧ h = number dh ∧ m = number dm ∧ ∀ x, so = Some x → x <= limit.
Proof.
  intros Hsep Hh Hm H. apply bind_Some in H as ([n s1] & (ds & -> & Hs & ->)%digits_inv & H).
  destruct (Z.ltb_spec limit (number ds)); [done|].
  destruct (eat_any (str ".,") s1) as [[p s2]|] eqn:E.
  - apply eat_any_inv in E as [-> Hp].
    apply bind_Some in H as ([f s3] & (fs & -> & Hf & ->)%fraction_inv & H). injection H as <- <- <- <- <-.
    exists (dh ++ sep ++ dm ++ sep ++ ds ++ p :: fs). split; [by rewrite <-!app_assoc|].
    split; [by constructor|]. split_and!; [done..|]. by intros ? [= <-].
  - injection H as <- <- <- <- <-. exists (dh ++ sep ++ dm ++ sep ++ ds). split; [by rewrite <-!app_assoc|].
    split; [by constructor|]. split_and!; [done..|]. by intros ? [= <-].
Qed.
Lemma scan_fields_inv limit s h m so ns r : scan_fields limit s = Some (h, m, so, ns, r) →
  ∃ b, s = b ++ r ∧ time_text b h m so ns ∧ h <= 23 ∧ m <= 59 ∧ ∀ x, so = Some x → x <= limit.
Proof.
  unfold scan_fields. intros H. apply bind_Some in H as ([hour s1] & (dh & -> & Hh & ->)%digits_inv & H).
  destruct (Z.ltb_spec 23 (number dh)); [done|].
  destruct (eat (ch ":") s1) as [[] s2] eqn:E; apply eat_inv in E; subst s1.
  - cbn [orb] in H.
    apply bind_Some in H as ([minute s3] & (dm & -> & Hm & ->)%digits_inv & H).
    destruct (Z.ltb_spec 59 (number dm)); [done|].
    destruct (eat (ch ":") s3) as [[] s4] eqn:E4; apply eat_inv in E4; subst s3.
    + destruct (scan_seconds_inv limit (str ":") dh dm s4 h m so ns r) as (b & Hb & Ht & -> & -> & Hlim); [by right|done|done|exact H|].
      exists b. by split_and!.
    + injection H as <- <- <- <- <-. exists (dh ++ str ":" ++ dm). split; [by rewrite <-!app_assoc|].
      split; [by constructor; [right|..]|]. by split_and!.
  - destruct (peek_digit s2); cbn [orb] in H.
    + apply bind_Some in H as ([minute s3] & (dm & -> & Hm & ->)%digits_inv & H).
      destruct (Z.ltb_spec 59 (number dm)); [done|].
      destruct (peek_digit s3).
      * destruct (scan_seconds_inv limit [] dh dm s3 h m so ns r) as (b & Hb & Ht & -> & -> & Hlim); [by left|done|done|exact H|].
        exists b. by split_and!.
      * injection H as <- <- <- <- <-. exists (dh ++ [] ++ dm). split; [by rewrite <-!app_assoc|].
        split; [by constructor; [left|..]|]. by split_and!.
    + injection H as <- <- <- <- <-. exists dh. split; [done|]. split; [by constructor|]. by split_and!.
Qed.

(** ** Searching text *)
Lemma disjoint_chars names others c : forallb (λ d, negb (is_char names d)) others = true → c ∈ others → is_char names c = false.
Proof. rewrite forallb_forall. intros H Hc%list_elem_of_In%H. by apply negb_true_iff. Qed.
Definition avoids (p : N → bool) (s : rstring) : Prop := Forall (λ c, p c = false) s.
Lemma find_char_None p s : find_char p s = None ↔ avoids p s.
Proof.
  unfold avoids. induction s as [|c s IH]; [by split|]. cbn. rewrite Forall_cons. destruct (p c); [by split; [|intros [? _]]|].
  destruct (find_char p s); cbn; naive_solver.
Qed.
Lemma find_char_Some p s n : find_char p s = Some n → ∃ c, s = take n s ++ c :: drop (S n) s ∧ p c = true ∧ avoids p (take n s).
Proof.
  revert n. induction s as [|c s IH]; [done|]. cbn. intros n. destruct (p c) eqn:E.
  - intros [= <-]. exists c. cbn. rewrite drop_0. by split_and!; [| |constructor].
  - destruct (find_char p s) as [k|]; [|done]. intros [= <-]. destruct (IH k eq_refl) as (d & Hs & Hd & Hav).
    exists d. cbn. split_and!; [by f_equal|done|by constructor].
Qed.
Lemma find_char_app p b c r : avoids p b → p c = true → find_char p (b ++ c :: r) = Some (length b).
Proof. intros Hb Hc. induction Hb as [|d b Hd Hb IH]; cbn; [by rewrite Hc|]. by rewrite Hd, IH. Qed.

Lemma break_at_app p b r : avoids p b → match r with [] => True | c :: _ => p c = true end → break_at p (b ++ r) = (b, r).
Proof.
  intros Hb Hr. unfold break_at. destruct r as [|c r].
  - rewrite app_nil_r, (proj2 (find_char_None p b)) by done. cbn. by rewrite take_ge, drop_ge by lia.
  - rewrite find_char_app by done. cbn. by rewrite take_app_length, drop_app_length.
Qed.
Lemma break_at_inv p s b r : break_at p s = (b, r) →
  s = b ++ r ∧ avoids p b ∧ match r with [] => True | c :: _ => p c = true end.
Proof.
  unfold break_at. destruct (find_char p s) as [n|] eqn:E; cbn.
  - apply find_char_Some in E as (c & Hs & Hc & Hav). intros [= <- <-]. split; [by rewrite take_drop|]. split; [done|].
    rewrite Hs, drop_app_ge by (rewrite length_take; lia).
    assert (Hn : (n - length (take n s) = 0)%nat).
    { apply (f_equal length) in Hs. rewrite length_app, length_take, length_cons, length_drop in Hs. rewrite length_take. lia. }
    by rewrite Hn.
  - apply find_char_None in E. intros [= <- <-]. rewrite take_ge, drop_ge by lia. by rewrite app_nil_r.
Qed.
Lemma split_once_any_inv names s b f : split_once_any names s = Some (b, f) →
  ∃ c, s = b ++ c :: f ∧ c ∈ names ∧ avoids (is_char names) b.
Proof.
  unfold split_once_any. destruct (find_char _ s) as [n|] eqn:E; [|done]. intros [= <- <-].
  apply find_char_Some in E as (c & ? & ?%is_char_elem & ?). by exists c.
Qed.
Lemma split_once_any_app names b c f : avoids (is_char names) b → c ∈ names → split_once_any names (b ++ c :: f) = Some (b, f).
Proof.
  intros Hb Hc%is_char_elem. unfold split_once_any. rewrite find_char_app by done.
  rewrite take_app_length. f_equal. f_equal. by rewrite cons_middle, app_assoc, drop_app_length' by (rewrite length_app; cbn; lia).
Qed.
Lemma split_once_any_None names s : split_once_any names s = None ↔ avoids (is_char names) s.
Proof. unfold split_once_any. rewrite <-find_char_None. by destruct (find_char _ s). Qed.

Lemma avoids_app p a b : avoids p (a ++ b) ↔ avoids p a ∧ avoids p b.
Proof. apply Forall_app. Qed.
Lemma avoids_digits p s : all_digits s = true → (∀ c, is_ascii_digit c = true → p c = false) → avoids p s.
Proof.
  intros Hs Hp. unfold all_digits in Hs. apply Forall_forall. intros c Hc. apply Hp.
  rewrite forallb_forall in Hs. by apply Hs, list_elem_of_In.
Qed.
Lemma numeral_avoids names w s : numeral w s → forallb (λ d, negb (is_ascii_digit d)) names = true → avoids (is_char names) s.
Proof. intros [_ Hs] Hn. apply avoids_digits; [done|]. intros c Hc. by apply digit_not_char. Qed.

Lemma split_char_avoids c s : avoids (N.eqb c) s → split_char c s = [s].
Proof.
  induction 1 as [|d s Hd Hs IH]; [done|]. cbn. rewrite N.eqb_sym, Hd, IH. done.
Qed.
Lemma split_char_app c a b : avoids (N.eqb c) a → split_char c (a ++ c :: b) = a :: split_char c b.
Proof.
  induction 1 as [|d s Hd Hs IH]; cbn; [by rewrite N.eqb_refl|]. by rewrite N.eqb_sym, Hd, IH.
Qed.
Fixpoint join_char (c : N) (fields : list rstring) : rstring :=
  match fields with [] => [] | [a] => a | a :: rest => a ++ c :: join_char c rest end.
Lemma split_char_join c s : join_char c (split_char c s) = s ∧ split_char c s ≠ [].
Proof.
  induction s as [|d s [IH Hne]]; [done|]. cbn. destruct (N.eqb_spec d c) as [->|].
  - split; [|done]. cbn. destruct (split_char c s); [done|]. by rewrite IH.
  - destruct (split_char c s) as [|a rest]; [done|]. split; [|done]. cbn in IH |- *. destruct rest; by rewrite <-IH.
Qed.

(** ** Times as a whole text *)
Lemma two_digit_field_spec s n : two_digit_field s = Some n ↔ numeral 2 s ∧ n = number s.
Proof.
  unfold two_digit_field, numeral. destruct (Nat.eqb_spec (length s) 2), (all_digits s); cbn; naive_solver.
Qed.
Lemma two_digit_numeral s : numeral 2 s → two_digit_field s = Some (number s).
Proof. intros. by apply two_digit_field_spec. Qed.
Lemma numeral_no_colon w s : numeral w s → avoids (N.eqb (ch ":")) s.
Proof. intros [_ Hs]. apply avoids_digits; [done|]. intros c Hc. rewrite N.eqb_sym. by apply digit_neq. Qed.
Lemma contains_char_avoids c s : contains_char c s = false ↔ avoids (N.eqb c) s.
Proof.
  unfold contains_char, avoids. rewrite bool_decide_eq_false, Forall_forall. setoid_rewrite N.eqb_neq.
  split; [intros Hn d Hd ->; done|intros H Hc; by apply (H c)].
Qed.
Lemma contains_char_middle c a b : contains_char c (a ++ c :: b) = true.
Proof. apply bool_decide_eq_true. set_solver. Qed.

Lemma time_body_short h m sep : separator sep → numeral 2 h → numeral 2 m →
  time_body (h ++ sep ++ m) = Some (number h, number m, None).
Proof.
  intros Hsep Hh Hm. unfold time_body. destruct Hsep as [-> | ->]; cbn [app].
  - rewrite (proj2 (contains_char_avoids _ _)) by (apply avoids_app; eauto using numeral_no_colon).
    pose proof (proj1 Hh) as Hlh. pose proof (proj1 Hm) as Hlm. rewrite length_app, Hlh, Hlm. cbn [Nat.eqb Nat.add].
    rewrite take_app_length', drop_app_length' by done.
    rewrite (two_digit_numeral h) by done. cbn [mbind option_bind].
    by rewrite (two_digit_numeral m).
  - change (str ":" ++ m) with (ch ":" :: m). rewrite contains_char_middle.
    rewrite split_char_app, split_char_avoids by eauto using numeral_no_colon.
    rewrite (two_digit_numeral h) by done. cbn [mbind option_bind].
    by rewrite (two_digit_numeral m).
Qed.
Lemma time_body_long h m s sep : separator sep → numeral 2 h → numeral 2 m → numeral 2 s →
  time_body (h ++ sep ++ m ++ sep ++ s) = Some (number h, number m, Some (number s)).
Proof.
  intros Hsep Hh Hm Hs. unfold time_body. destruct Hsep as [-> | ->]; cbn [app].
  - rewrite (proj2 (contains_char_avoids _ _)) by (rewrite !avoids_app; eauto 6 using numeral_no_colon).
    pose proof (proj1 Hh) as Hlh. pose proof (proj1 Hm) as Hlm. pose proof (proj1 Hs) as Hls. rewrite !length_app, Hlh, Hlm, Hls. cbn [Nat.eqb Nat.add].
    replace (drop 4 (h ++ m ++ s)) with s by (by rewrite app_assoc, drop_app_length' by (rewrite length_app; lia)).
    rewrite take_app_length', (drop_app_length' h) by done. rewrite take_app_length' by done.
    rewrite (two_digit_numeral h) by done. cbn [mbind option_bind].
    rewrite (two_digit_numeral m) by done. cbn [mbind option_bind].
    by rewrite (two_digit_numeral s).
  - change (str ":" ++ ?x) with (ch ":" :: x). change (str ":" ++ s) with (ch ":" :: s). rewrite contains_char_middle.
    rewrite split_char_app, split_char_app, split_char_avoids by eauto using numeral_no_colon.
    rewrite (two_digit_numeral h) by done. cbn [mbind option_bind].
    rewrite (two_digit_numeral m) by done. cbn [mbind option_bind].
    by rewrite (two_digit_numeral s).
Qed.

(** A body is the text of a time without its fraction. *)
Definition body_text (body : rstring) (h m : Z) (so : option Z) : Prop :=
  match so with
  | None => time_text body h m None 0
  | Some s => ∃ sep dh dm ds, body = dh ++ sep ++ dm ++ sep ++ ds ∧ separator sep ∧
      numeral 2 dh ∧ numeral 2 dm ∧ numeral 2 ds ∧ h = number dh ∧ m = number dm ∧ s = number ds
  end.
Ltac field_inv H :=
  let n := fresh "n" in let Hn := fresh "Hn" in
  apply bind_Some in H as (n & [Hn ->]%two_digit_field_spec & H).
Lemma time_body_inv body h m so : time_body body = Some (h, m, so) → body_text body h m so.
Proof.
  unfold time_body. intros H. destruct (contains_char _ body).
  - destruct (split_char_join (ch ":") body) as [Hj _].
    destruct (split_char (ch ":") body) as [|a [|b fields]]; try done.
    field_inv H. field_inv H. destruct fields as [|c [|? ?]]; try done.
    + injection H as <- <- <-. cbn in Hj. rewrite <-Hj. apply (minute_text (str ":")); [by right|done..].
    + field_inv H. injection H as <- <- <-. cbn in Hj. exists (str ":"), a, b, c. rewrite <-Hj.
      split_and!; try done. by right.
  - destruct (_ =? 2)%nat eqn:H2; [|destruct (_ =? 4)%nat eqn:H4; [|destruct (_ =? 6)%nat eqn:H6; [|done]]].
    + field_inv H. injection H as <- <- <-. by constructor.
    + field_inv H. field_inv H. injection H as <- <- <-.
      rewrite <-(take_drop 2 body) at 1. apply (minute_text []); [by left|done..].
    + field_inv H. field_inv H. field_inv H. injection H as <- <- <-.
      exists [], (take 2 body), (take 2 (drop 2 body)), (drop 4 body). cbn [app].
      split; [|split_and!; [by left|done..]]. rewrite <-(take_drop 2 body) at 1. f_equal.
      rewrite <-(take_drop 2 (drop 2 body)) at 1. by rewrite drop_drop.
Qed.

Lemma separator_avoids_point sep : separator sep → avoids (is_char (str ".,")) sep.
Proof. intros [-> | ->]; repeat constructor. Qed.
Lemma separator_ascii sep : separator sep → forallb is_ascii sep = true.
Proof. by intros [-> | ->]. Qed.
Lemma numeral_ascii w s : numeral w s → forallb is_ascii s = true.
Proof.
  intros [_ Hs]. unfold all_digits in Hs. rewrite forallb_forall in *. intros c Hc%Hs.
  apply is_ascii_digit_spec in Hc. unfold is_ascii. apply N.ltb_lt. lia.
Qed.
Create HintDb times.
#[local] Hint Resolve numeral_ascii separator_ascii separator_avoids_point numeral_avoids : times.
#[local] Hint Extern 1 (forallb _ (str _) = true) => reflexivity : times.

Lemma parse_time_spec_text b h m so ns : time_text b h m so ns → h <= 23 → m <= 59 →
  parse_time_spec b = Some (h, m, default 0 so, ns).
Proof.
  intros Ht Hh Hm. unfold parse_time_spec.
  assert (Hhm : (h <=? 23) && (m <=? 59) = true) by (rewrite andb_true_iff, !Z.leb_le; lia).
  destruct Ht as [dh Hdh|sep dh dm Hsep Hdh Hdm|sep dh dm ds Hsep Hdh Hdm Hds|sep dh dm ds p f Hsep Hdh Hdm Hds Hp [Hf Hl]].
  - rewrite (proj2 (split_once_any_None _ _)) by eauto with times.
    rewrite (numeral_ascii 2) by done. unfold time_body. rewrite (proj2 (contains_char_avoids _ _)) by eauto using numeral_no_colon.
    pose proof (proj1 Hdh) as ->. cbn [Nat.eqb negb]. rewrite (two_digit_numeral dh) by done. cbn [mbind option_bind].
    by rewrite Hhm.
  - rewrite (proj2 (split_once_any_None _ _)) by (rewrite !avoids_app; split_and?; eauto with times).
    rewrite !forallb_app, (numeral_ascii 2 dh), (numeral_ascii 2 dm), separator_ascii by done. cbn [andb negb].
    rewrite time_body_short by done. cbn [mbind option_bind]. by rewrite Hhm.
  - rewrite (proj2 (split_once_any_None _ _)) by (rewrite !avoids_app; split_and?; eauto with times).
    rewrite !forallb_app, (numeral_ascii 2 dh), (numeral_ascii 2 dm), (numeral_ascii 2 ds), separator_ascii by done. cbn [andb negb].
    rewrite time_body_long by done. cbn [mbind option_bind]. by rewrite Hhm.
  - replace (dh ++ sep ++ dm ++ sep ++ ds ++ p :: f) with ((dh ++ sep ++ dm ++ sep ++ ds) ++ p :: f) by (by rewrite <-!app_assoc).
    rewrite split_once_any_app by (rewrite ?avoids_app; split_and?; eauto with times).
    rewrite !forallb_app, (numeral_ascii 2 dh), (numeral_ascii 2 dm), (numeral_ascii 2 ds), separator_ascii by done. cbn [andb negb].
    rewrite time_body_long by done. cbn [mbind option_bind]. rewrite Hf.
    destruct (Nat.eqb_spec (length f) 0), (Nat.ltb_spec 9 (length f)); try lia. cbn [orb negb mbind option_bind].
    by rewrite Hhm.
Qed.
Lemma parse_time_spec_inv b h m s ns : parse_time_spec b = Some (h, m, s, ns) →
  ∃ so, time_text b h m so ns ∧ s = default 0 so ∧ h <= 23 ∧ m <= 59.
Proof.
  unfold parse_time_spec. intros H.
  destruct (match split_once_any (str ".,") b with Some _ => _ | None => _ end) as [body fr] eqn:E.
  destruct (negb _); [done|]. apply bind_Some in H as ([[h' m'] so] & Hb%time_body_inv & H).
  apply bind_Some in H as (ns' & Hns & H).
  destruct (_ && _) eqn:Hhm; [|done]. injection H as -> -> <- ->.
  apply andb_true_iff in Hhm as [?%Z.leb_le ?%Z.leb_le]. exists so. split_and!; try done.
  destruct (split_once_any (str ".,") b) as [[body' f]|] eqn:Es; injection E as -> <-.
  - apply split_once_any_inv in Es as (p & -> & Hp & _). destruct so as [s0|]; [|done].
    destruct (_ || _ || _) eqn:Hc; [done|]. injection Hns as <-.
    apply orb_false_iff in Hc as [[Hl0%Nat.eqb_neq Hl9%Nat.ltb_ge]%orb_false_iff Hd%negb_false_iff].
    destruct Hb as (sep & dh & dm & ds & -> & ? & ? & ? & ? & -> & -> & ->).
    rewrite <-!app_assoc. constructor; try done. split; [done|lia].
  - destruct so as [s0|]; injection Hns as <-; [|exact Hb].
    destruct Hb as (sep & dh & dm & ds & -> & ? & ? & ? & ? & -> & -> & ->). by constructor.
Qed.

(** ** The two readings of times and offsets agree *)
Lemma time_text_avoids b h m so ns : time_text b h m so ns → avoids (is_char (str "Zz+-[")) b.
Proof.
  assert (∀ sep, separator sep → avoids (is_char (str "Zz+-[")) sep) as Hsep by (intros ? [-> | ->]; repeat constructor).
  assert (∀ p, p ∈ str ".," → is_char (str "Zz+-[") p = false) as Hpt
    by (intros p Hp; assert (Forall (λ p, is_char (str "Zz+-[") p = false) (str ".,")) as HF by repeat constructor;
        rewrite Forall_forall in HF; auto).
  assert (∀ w s, numeral w s → avoids (is_char (str "Zz+-[")) s) as Hn by eauto with times.
  destruct 1; rewrite ?avoids_app; split_and?; eauto.
  constructor; [auto|]. apply avoids_digits; [by destruct H4|]. intros c Hc. by apply digit_not_char.
Qed.
Lemma time_prefix_iff s t r : parse_iso_time_prefix s = Some (t, r) ↔ scan_time s = Some (t, r) ∧ ends_time r.
Proof.
  rewrite scan_time_fields. unfold parse_iso_time_prefix. split.
  - destruct (break_at _ s) as [b r'] eqn:E. apply break_at_inv in E as (-> & _ & Hr). intros H.
    apply bind_Some in H as ([[[h m] s'] ns] & (so & Ht & -> & Hh & Hm)%parse_time_spec_inv & H).
    destruct (Z.ltb_spec 60 (default 0 so)); [done|]. injection H as <- <-. split; [|by destruct r'].
    rewrite (scan_fields_text 60 b h m so ns) by (try done; try (by destruct r'); intros ? ->; done). done.
  - intros [H Hr]. apply bind_Some in H as ([[[[h m] so] ns] r'] & (b & -> & Ht & Hh & Hm & Hs)%scan_fields_inv & H).
    injection H as <- <-. rewrite break_at_app by (eauto using time_text_avoids; by destruct r').
    rewrite (parse_time_spec_text b h m so ns) by done. cbn [mbind option_bind].
    assert (default 0 so <= 60) by (destruct so; cbn; [by apply Hs|lia]).
    by rewrite (proj2 (Z.ltb_ge _ _)).
Qed.

(** Whether a seconds field was written, as [parse_utc_offset_prefix] decides it. *)
Definition has_second (body : rstring) : bool :=
  let core := (break_at (is_char (str ".,")) body).1 in
  if contains_char (ch ":") core then (length (filter (λ c, c = ch ":") core) =? 2)%nat
  else (str_len core =? 6)%nat.
Lemma filter_numeral w s : numeral w s → filter (λ c, c = ch ":") s = [].
Proof.
  intros Hs%numeral_no_colon. induction Hs as [|c s Hc Hs IH]; [done|].
  rewrite filter_cons_False; [done|]. intros ->. by rewrite N.eqb_refl in Hc.
Qed.
Lemma core_of b r : avoids (is_char (str ".,")) b → match r with [] => True | c :: _ => is_char (str ".,") c = true end →
  (break_at (is_char (str ".,")) (b ++ r)).1 = b.
Proof. intros. by rewrite break_at_app. Qed.
Lemma short_has_second sep dh dm : separator sep → numeral 2 dh → numeral 2 dm → has_second (dh ++ sep ++ dm) = false.
Proof.
  intros Hsep Hh Hm. unfold has_second. rewrite <-(app_nil_r (dh ++ sep ++ dm)), core_of
    by (done || (rewrite !avoids_app; split_and?; eauto with times)).
  rewrite str_len_ascii by (rewrite !forallb_app, (numeral_ascii 2 dh), (numeral_ascii 2 dm), separator_ascii by done; done).
  rewrite !filter_app, (filter_numeral 2 dh), (filter_numeral 2 dm) by done.
  rewrite !length_app, (proj1 Hh), (proj1 Hm). destruct Hsep as [-> | ->]; by destruct (contains_char _ _).
Qed.
Lemma long_has_second sep dh dm ds f : separator sep → numeral 2 dh → numeral 2 dm → numeral 2 ds →
  match f with [] => True | c :: _ => is_char (str ".,") c = true end →
  has_second (dh ++ sep ++ dm ++ sep ++ ds ++ f) = true.
Proof.
  intros Hsep Hh Hm Hs Hf. unfold has_second.
  replace (dh ++ sep ++ dm ++ sep ++ ds ++ f) with ((dh ++ sep ++ dm ++ sep ++ ds) ++ f) by (by rewrite <-!app_assoc).
  rewrite core_of by (done || (rewrite !avoids_app; split_and?; eauto with times)).
  destruct Hsep as [-> | ->].
  - rewrite (proj2 (contains_char_avoids _ _)) by (rewrite !avoids_app; split_and?; eauto using numeral_no_colon; constructor).
    rewrite str_len_ascii by (rewrite !forallb_app, (numeral_ascii 2 dh), (numeral_ascii 2 dm), (numeral_ascii 2 ds) by done; done).
    by rewrite !length_app, (proj1 Hh), (proj1 Hm), (proj1 Hs).
  - assert (contains_char (ch ":") (dh ++ str ":" ++ dm ++ str ":" ++ ds) = true) as -> by apply (contains_char_middle (ch ":")).
    by rewrite !filter_app, (filter_numeral 2 dh), (filter_numeral 2 dm), (filter_numeral 2 ds).
Qed.
Lemma time_has_second b h m so ns : time_text b h m so ns → has_second b = written so.
Proof.
  destruct 1 as [dh Hdh|sep dh dm Hsep Hdh Hdm|sep dh dm ds Hsep Hdh Hdm Hds|sep dh dm ds p f Hsep Hdh Hdm Hds Hp Hf].
  - unfold has_second. rewrite <-(app_nil_r dh), core_of by (done || eauto with times).
    rewrite (proj2 (contains_char_avoids _ _)) by eauto using numeral_no_colon.
    by rewrite str_len_ascii, (proj1 Hdh) by eauto with times.
  - by apply short_has_second.
  - rewrite <-(app_nil_r ds). by apply long_has_second.
  - apply long_has_second; try done. by apply is_char_elem.
Qed.

Lemma offset_total byte h m s ns :
  (let total := h * 3600000000000 + m * 60000000000 + s * 1000000000 + ns in
   if (byte =? ch "-")%N then - total else total) =
  offset_value (if (byte =? ch "-")%N then -1 else 1) h m s ns.
Proof. unfold offset_value. destruct (byte =? ch "-")%N; cbn zeta; lia. Qed.
Lemma offset_prefix_signed s o r : is_signed s = true →
  parse_utc_offset_prefix s = Some (o, r) ↔
  ∃ v sec, scan_offset s true = Some (v, sec, r) ∧ ends_offset r ∧ o = Build_UtcOffset v (negb sec).
Proof.
  unfold is_signed. intros Hsign. destruct (eat_any (str "+-") s) as [[byte s']|] eqn:Eb; [|done].
  assert (strip_char (str "Zz") s = None) as Hz.
  { apply eat_any_inv in Eb as [-> Hb]. unfold strip_char.
    by rewrite (disjoint_chars (str "Zz") (str "+-") byte eq_refl Hb). }
  unfold parse_utc_offset_prefix. rewrite Hz, scan_offset_fields, Eb. cbn [mbind option_bind negb andb]. split.
  - destruct (break_at _ s') as [b r'] eqn:E. apply break_at_inv in E as (-> & _ & Hr). intros H.
    apply bind_Some in H as ([[[h m] sec] ns] & (so & Ht & -> & Hh & Hm)%parse_time_spec_inv & H).
    destruct (Z.ltb_spec 59 (default 0 so)); [done|]. fold (has_second b) in H. injection H as <- <-.
    assert (Hr' : ends_offset r') by (destruct r' as [|c ?]; [done|]; apply is_char_elem in Hr; set_solver).
    rewrite (scan_fields_text 59 b h m so ns); [|done|done|done|by intros ? ->|by apply ends_offset_time].
    cbn [mbind option_bind]. eexists _, _. split; [reflexivity|]. split; [done|].
    rewrite (time_has_second b h m so ns) by done. f_equal. apply offset_total.
  - intros (v & sec & H & Hr & ->).
    apply bind_Some in H as ([[[[h m] so] ns] r'] & (b & -> & Ht & Hh & Hm & Hs)%scan_fields_inv & H).
    injection H as <- <- <-.
    rewrite break_at_app; [|eapply Forall_impl; [by eapply time_text_avoids|]; intros c Hc; cbn in Hc |- *|].
    + rewrite (parse_time_spec_text b h m so ns) by done. cbn [mbind option_bind].
      assert (default 0 so <= 59) by (destruct so; cbn; [by apply Hs|lia]).
      rewrite (proj2 (Z.ltb_ge _ _)) by done. fold (has_second b). rewrite (time_has_second b h m so ns) by done.
      do 2 f_equal. f_equal. apply offset_total.
    + apply bool_decide_eq_false in Hc. apply bool_decide_eq_false. set_solver.
    + destruct r' as [|c ?]; [done|]. by rewrite Hr.
Qed.

(** ** The two readings of dates agree, but for the range of years *)
Lemma eat_strip c s : eat c s = match strip_char [c] s with Some r => (true, r) | None => (false, s) end.
Proof.
  destruct s as [|d s]; [done|]. unfold eat, strip_char, is_char.
  destruct (N.eqb_spec d c) as [->|Hne]; [by rewrite bool_decide_eq_true_2 by set_solver|].
  by rewrite bool_decide_eq_false_2 by set_solver.
Qed.
Lemma split_digits_not_digit c s w : w ≠ O → is_ascii_digit c = false → split_digits (c :: s) w = None.
Proof.
  intros Hw Hc. unfold split_digits. destruct w as [|w]; [done|]. cbn [take all_digits forallb]. unfold all_digits.
  cbn [forallb]. rewrite Hc. cbn [andb negb]. by rewrite orb_true_r.
Qed.
Definition year_in_range (year : Z) : bool := (-271821 <=? year) && (year <=? 275760).
Lemma date_prefix_scan s : parse_iso_date_prefix s =
  '(date, r) ← scan_date s; if year_in_range date.1.1 then Some (date, r) else None.
Proof.
  assert (Hyear : ∀ s, match eat_any (str "+-") s with
      | Some (sign, s) =>
          '(ds, rest) ← split_digits s 6;
          let negative := (sign =? ch "-")%N in
          if negative && (number ds =? 0) then None else Some (if negative then - number ds else number ds, rest)
      | None => '(ds, rest) ← split_digits s 4; Some (number ds, rest)
      end = scan_year s).
  { clear s. intros s. unfold scan_year. destruct (eat_any (str "+-") s) as [[sign s']|]; rewrite digits_split.
    - destruct (split_digits s' 6) as [[ds rest]|]; [|done]. cbn [fmap option_fmap option_map mbind option_bind fst snd].
      destruct (sign =? ch "-")%N; [|done]. by destruct (number ds =? 0).
    - by destruct (split_digits s 4) as [[ds rest]|]. }
  unfold parse_iso_date_prefix, scan_date. rewrite Hyear.
  destruct (scan_year s) as [[year rest]|]; [|done]. cbn [mbind option_bind]. rewrite eat_strip.
  change (str "-") with [ch "-"]. destruct (strip_char [ch "-"] rest) as [rest'|].
  - rewrite digits_split. destruct (split_digits rest' 2) as [[month rest1]|]; [|done].
    cbn [fmap option_fmap option_map mbind option_bind fst snd]. rewrite eat_strip.
    destruct (strip_char [ch "-"] rest1) as [rest2|]; [|done]. cbn [Bool.eqb negb mbind option_bind]. rewrite digits_split.
    destruct (split_digits rest2 2) as [[day rest3]|]; [|done]. cbn [fmap option_fmap option_map mbind option_bind fst snd].
    unfold year_in_range. destruct (is_valid_date year (number month) (number day)); [|by rewrite andb_false_r].
    cbn [mbind option_bind fst snd]. by rewrite andb_true_r.
  - rewrite digits_split. destruct (split_digits rest 2) as [[month rest1]|]; [|done].
    cbn [fmap option_fmap option_map mbind option_bind fst snd]. rewrite eat_strip.
    destruct (strip_char [ch "-"] rest1) as [rest2|] eqn:E; cbn [Bool.eqb negb mbind option_bind].
    + apply strip_char_inv in E as (c & -> & Hc). apply list_elem_of_singleton in Hc as ->.
      by rewrite split_digits_not_digit.
    + rewrite digits_split.
      destruct (split_digits rest1 2) as [[day rest3]|]; [|done]. cbn [fmap option_fmap option_map mbind option_bind fst snd].
      unfold year_in_range. destruct (is_valid_date year (number month) (number day)); [|by rewrite andb_false_r].
      cbn [mbind option_bind fst snd]. by rewrite andb_true_r.
Qed.

(** ** The two readings of annotations agree, but for the components [.] and [..] *)
Definition dotted (zone : rstring) : bool := existsb dots (split_char (ch "/") zone).
Lemma time_zone_identifiers zone : is_signed zone = false →
  is_valid_time_zone_identifier zone = is_time_zone_identifier zone && negb (dotted zone).
Proof.
  intros Hs. unfold is_valid_time_zone_identifier, is_time_zone_identifier, dotted. rewrite Hs.
  destruct (done zone); [done|]. cbn [negb andb].
  induction (split_char (ch "/") zone) as [|f fs IH]; [done|]. cbn. rewrite IH.
  by destruct (name_component f), (dots f), (forallb name_component fs), (existsb dots fs).
Qed.
Lemma scan_offset_minutes s v sec r : scan_offset s false = Some (v, sec, r) ↔ scan_offset s true = Some (v, sec, r) ∧ sec = false.
Proof.
  rewrite !scan_offset_fields. destruct (eat_any (str "+-") s) as [[byte s']|]; [|naive_solver].
  cbn [mbind option_bind]. destruct (scan_fields 59 s') as [[[[[h m] so] ns] r']|]; [|naive_solver].
  cbn [mbind option_bind negb andb]. destruct so; cbn [written]; naive_solver.
Qed.
Lemma signed_identifiers zone : is_signed zone = true →
  is_valid_time_zone_identifier zone = is_time_zone_identifier zone.
Proof.
  intros Hs. unfold is_valid_time_zone_identifier, is_time_zone_identifier. rewrite Hs. apply eq_bool_prop_intro.
  unfold parse_minute_precision_offset. pose proof Hs as Hs'. unfold is_signed in Hs'.
  destruct (eat_any (str "+-") zone); [|done]. split; intros H.
  - destruct (scan_offset zone false) as [[[v sec] [|]]|] eqn:E; try done. apply scan_offset_minutes in E as [E ->].
    rewrite (proj2 (offset_prefix_signed zone (Build_UtcOffset v true) [] Hs)); [done|]. by exists v, false.
  - destruct (parse_utc_offset_prefix zone) as [[o r]|] eqn:E; [|done]. cbn [mbind option_bind] in H.
    destruct (done r) eqn:Hr; [|done]. destruct r; [|done]. destruct (minute_precision o) eqn:Hm; [|done].
    apply (offset_prefix_signed _ _ _ Hs) in E as (v & sec & E & _ & ->). cbn in Hm. apply negb_true_iff in Hm.
    by rewrite (proj2 (scan_offset_minutes zone v sec [])).
Qed.
Lemma is_valid_identifier zone : is_valid_time_zone_identifier zone = true → is_time_zone_identifier zone = true.
Proof.
  destruct (is_signed zone) eqn:Hs; [by rewrite signed_identifiers|].
  rewrite time_zone_identifiers by done. by intros [? _]%andb_true_iff.
Qed.
Lemma is_undotted_identifier zone : is_time_zone_identifier zone = true → dotted zone = false →
  is_valid_time_zone_identifier zone = true.
Proof.
  intros Hz Hd. destruct (is_signed zone) eqn:Hs; [by rewrite signed_identifiers|].
  by rewrite time_zone_identifiers, Hz, Hd.
Qed.

(** Not: several calendars, one of them critical. *)
Definition calendars_ok (st : CalendarState) : bool := negb ((1 <? calendars st)%nat && critical_calendar st).
Lemma suffix_scan_annotation body st : calendars_ok st = true → suffix_annotation body st =
  st' ← scan_annotation body st; if calendars_ok st' then Some st' else None.
Proof.
  intros Hok. unfold suffix_annotation, scan_annotation. destruct (strip_critical body) as [critical b].
  destruct (split_once (ch "=") b) as [[key value]|]; [|done]. cbn [mbind option_bind].
  unfold is_valid_annotation_key, is_valid_annotation_value.
  destruct key as [|c key]; [done|]. cbn [done orb]. destruct (done value); [by destruct (_ && _)|]. cbn [negb andb].
  destruct (negb _ || negb _); [done|].
  destruct (bool_decide _); cbn [mbind option_bind].
  - unfold calendars_ok. by destruct (_ && _).
  - destruct critical; cbn [mbind option_bind]; [done|by rewrite Hok].
Qed.
Lemma scan_annotation_mono body st st' : scan_annotation body st = Some st' → calendars_ok st' = true → calendars_ok st = true.
Proof.
  unfold scan_annotation. destruct (strip_critical body) as [critical b].
  destruct (split_once (ch "=") b) as [[key value]|]; [|done]. cbn [mbind option_bind].
  destruct (_ || _); [done|]. destruct (bool_decide _).
  - intros [= <-]. unfold calendars_ok. cbn [calendars critical_calendar].
    destruct (Nat.ltb_spec 1 (calendars st)), (Nat.ltb_spec 1 (calendars st + 1)); try lia; try done.
    by destruct (critical_calendar st).
  - by destruct critical; intros [= <-].
Qed.
Lemma take_bracket_cons s : take_bracket (ch "[" :: s) = split_once (ch "]") s.
Proof. reflexivity. Qed.
Lemma scan_suffix_loop fuel s st st' : calendars_ok st = true →
  suffix_loop fuel s st = Some st' ↔ scan_loop fuel s st = Some (st', []) ∧ calendars_ok st' = true.
Proof.
  revert s st. induction fuel as [|fuel IH]; intros s st Hok.
  { destruct s as [|c s]; cbn; [naive_solver|]. destruct (_ =? _)%N; naive_solver. }
  destruct s as [|c s]; [cbn; naive_solver|]. cbn [suffix_loop scan_loop peek head].
  unfold strip_char, is_char. destruct (N.eqb_spec c (ch "[")) as [->|Hc].
  - rewrite bool_decide_eq_true_2 by set_solver. rewrite take_bracket_cons. cbn [mbind option_bind].
    destruct (split_once (ch "]") s) as [[body s']|]; [|naive_solver]. cbn [mbind option_bind].
    rewrite suffix_scan_annotation by done.
    destruct (scan_annotation body st) as [st1|] eqn:Ea; [|naive_solver]. cbn [mbind option_bind].
    destruct (calendars_ok st1) eqn:Hok1; cbn [mbind option_bind]; [by apply IH|].
    split; [done|]. intros [H Hok']. exfalso. clear -H Hok' Hok1. revert s' st1 H Hok1.
    induction fuel as [|fuel IH]; intros s' st1; destruct s' as [|c s']; cbn [scan_loop peek head]; try (intros [= ->]; congruence);
      destruct (_ =? _)%N eqn:E; try (intros [= ->]; congruence); try done.
    destruct (take_bracket (c :: s')) as [[b s'']|]; [|done].
    cbn [mbind option_bind]. destruct (scan_annotation b st1) as [st2|] eqn:Ea; [|done]. cbn [mbind option_bind].
    intros H Hok1. apply (IH s'' st2 H). destruct (calendars_ok st2) eqn:E2; [|done].
    by rewrite (scan_annotation_mono b st1 st2) in Hok1.
  - rewrite bool_decide_eq_false_2 by set_solver. naive_solver.
Qed.

Lemma split_once_inv c s a b : split_once c s = Some (a, b) → s = a ++ c :: b.
Proof.
  revert a. induction s as [|d s IH]; [done|]. intros a. cbn [split_once]. destruct (N.eqb_spec d c) as [->|].
  - by intros [= <- <-].
  - destruct (split_once c s) as [[a' b']|]; [|done]. intros [= <- <-]. cbn. f_equal. by apply IH.
Qed.
Lemma take_bracket_inv s body r : take_bracket s = Some (body, r) → s = str "[" ++ body ++ str "]" ++ r.
Proof.
  unfold take_bracket. intros H. apply bind_Some in H as (s' & (c & -> & Hc)%strip_char_inv & H).
  apply list_elem_of_singleton in Hc as ->. by apply split_once_inv in H as ->.
Qed.
(** A bracket takes two characters, so that the length of the text is enough fuel. *)
Lemma scan_loop_fuel fuel fuel' s st : (length s <= fuel)%nat → (length s <= fuel')%nat →
  scan_loop fuel s st = scan_loop fuel' s st.
Proof.
  revert fuel' s st. induction fuel as [|fuel IH]; intros fuel' s st Hf Hf'.
  { destruct s as [|c s]; [by destruct fuel'|cbn [length] in Hf; lia]. }
  destruct s as [|c s]; [by destruct fuel'|]. cbn [length] in Hf'. destruct fuel' as [|fuel']; [lia|].
  cbn [scan_loop peek head]. destruct (c =? ch "[")%N; [|done].
  destruct (take_bracket (c :: s)) as [[body r]|] eqn:E; [|done]. cbn [mbind option_bind].
  apply take_bracket_inv, (f_equal length) in E. cbn [length] in Hf, E. rewrite !length_app in E. cbn [length] in E.
  destruct (scan_annotation body st) as [st'|]; [|done]. cbn [mbind option_bind].
  apply IH; change (length (str "[")) with 1%nat in E; change (length (str "]")) with 1%nat in E; lia.
Qed.
Lemma peek_take_bracket s : peek_bracket s = fst <$> take_bracket s.
Proof. unfold peek_bracket, take_bracket. by destruct (strip_char (str "[") s). Qed.
Lemma peek_open s : match peek s with Some c => (c =? ch "[")%N | None => false end =
  match strip_char (str "[") s with Some _ => true | None => false end.
Proof.
  destruct s as [|c s]; [done|]. cbn [peek head]. unfold strip_char, is_char. destruct (N.eqb_spec c (ch "[")) as [->|].
  - by rewrite bool_decide_eq_true_2 by set_solver.
  - by rewrite bool_decide_eq_false_2 by set_solver.
Qed.
(** Both readers, by the bracket the text starts with. *)
Lemma scan_annotations_eq s : scan_annotations s =
  '(time_zone, s) ←
    (match take_bracket s with
     | Some (body, after) =>
         let name := (strip_critical body).2 in
         if contains_char (ch "=") name then Some (None, s)
         else if negb (is_valid_time_zone_identifier name) then None else Some (Some name, after)
     | None => match strip_char (str "[") s with Some _ => None | None => Some (None, s) end
     end);
  '(st, s) ← scan_loop (length s) s no_calendar;
  if negb (calendars_ok st) then None else Some (time_zone, cs_calendar st, s).
Proof.
  unfold scan_annotations. rewrite peek_take_bracket. pose proof (peek_open s) as Ho.
  assert (Hend : ∀ (a : option rstring) st (r : rstring),
    (if (1 <? calendars st)%nat && critical_calendar st then None else Some (a, cs_calendar st, r)) =
    (if negb (calendars_ok st) then None else Some (a, cs_calendar st, r)))
    by (intros; unfold calendars_ok; by destruct (_ && _)).
  assert (Htake : take_bracket s = rest ← strip_char (str "[") s; split_once (ch "]") rest) by done.
  destruct (peek s) as [c|] eqn:Ep.
  - rewrite Ho, Htake. destruct (strip_char (str "[") s) as [rest|] eqn:Es; cbn [mbind option_bind].
    + destruct (split_once (ch "]") rest) as [[body after]|] eqn:Eb; [|done]. cbn [fmap option_fmap option_map mbind option_bind fst].
      destruct (contains_char _ _); cbn [mbind option_bind].
      * destruct (scan_loop _ s no_calendar) as [[st r]|]; [|done]. apply Hend.
      * destruct (negb _); [done|]. cbn [mbind option_bind].
        destruct (scan_loop _ after no_calendar) as [[st r]|]; [|done]. apply Hend.
    + destruct (scan_loop _ s no_calendar) as [[st r]|]; [|done]. apply Hend.
  - destruct s; [|done]. done.
Qed.
Lemma parse_annotation_suffix_eq s : parse_annotation_suffix s =
  '(time_zone, s) ←
    (match take_bracket s with
     | Some (body, after) =>
         let name := (strip_critical body).2 in
         if contains_char (ch "=") name then Some (None, s)
         else if negb (is_time_zone_identifier name) then None else Some (Some name, after)
     | None => match strip_char (str "[") s with Some _ => None | None => Some (None, s) end
     end);
  st ← suffix_loop (length s) s no_calendar;
  Some (Build_Annotations time_zone (cs_calendar st)).
Proof.
  unfold parse_annotation_suffix, take_bracket. destruct (strip_char (str "[") s) as [rest|]; [|done].
  cbn [mbind option_bind]. by destruct (split_once (ch "]") rest) as [[body after]|].
Qed.

Lemma suffix_of_scan s tz cal : scan_annotations s = Some (tz, cal, []) →
  parse_annotation_suffix s = Some (Build_Annotations tz cal).
Proof.
  rewrite scan_annotations_eq, parse_annotation_suffix_eq. intros H.
  apply bind_Some in H as ([tz' s'] & Htz & H). apply bind_Some in H as ([st r] & Hl & H).
  destruct (calendars_ok st) eqn:Hok; [|done]. injection H as <- <- ->.
  assert (Hs : suffix_loop (length s') s' no_calendar = Some st) by (by apply scan_suffix_loop).
  destruct (take_bracket s) as [[body after]|].
  - cbn zeta in Htz |- *. destruct (contains_char _ _); [injection Htz as <- <-; cbn [mbind option_bind]; by rewrite Hs|].
    destruct (is_valid_time_zone_identifier _) eqn:Hv; [|done]. injection Htz as <- <-.
    rewrite is_valid_identifier by done. cbn [negb mbind option_bind]. by rewrite Hs.
  - destruct (strip_char _ s); [done|]. injection Htz as <- <-. cbn [mbind option_bind]. by rewrite Hs.
Qed.
Lemma scan_of_suffix s an : parse_annotation_suffix s = Some an →
  scan_annotations s = Some (an_time_zone an, an_calendar an, []) ∨
  ∃ body after, take_bracket s = Some (body, after) ∧ is_time_zone_identifier (strip_critical body).2 = true ∧
    dotted (strip_critical body).2 = true.
Proof.
  rewrite scan_annotations_eq, parse_annotation_suffix_eq. intros H.
  apply bind_Some in H as ([tz s'] & Htz & H). apply bind_Some in H as (st & Hl & [= <-]).
  apply scan_suffix_loop in Hl as [Hl Hok]; [|done].
  assert (Hrest : ('(st, r) ← scan_loop (length s') s' no_calendar;
    if negb (calendars_ok st) then None else Some (tz, cs_calendar st, r)) = Some (tz, cs_calendar st, []))
    by (rewrite Hl; cbn [mbind option_bind]; by rewrite Hok).
  destruct (take_bracket s) as [[body after]|].
  - cbn zeta in Htz |- *. destruct (contains_char _ _); [injection Htz as <- <-; left; exact Hrest|].
    destruct (is_time_zone_identifier _) eqn:Hv; [|done]. injection Htz as <- <-.
    destruct (dotted (strip_critical body).2) eqn:Hd; [right; by exists body, after|left].
    rewrite is_undotted_identifier by done. exact Hrest.
  - destruct (strip_char _ s); [done|]. injection Htz as <- <-. left. exact Hrest.
Qed.
Lemma scan_annotations_end s tz cal : scan_annotations s = Some (tz, cal, []) → ends_offset s.
Proof.
  intros H%suffix_of_scan. rewrite parse_annotation_suffix_eq in H. destruct s as [|c s]; [done|]. cbn [ends_offset].
  destruct (N.eqb_spec c (ch "[")) as [|Hc]; [done|].
  assert (strip_char (str "[") (c :: s) = None) as Hs by (unfold strip_char, is_char; by rewrite bool_decide_eq_false_2 by set_solver).
  unfold take_bracket in H. rewrite Hs in H. cbn [mbind option_bind length suffix_loop] in H. by rewrite Hs in H.
Qed.

(** ** Instants are read alike by both parsers *)
Lemma offset_suffix_prefix s utc off precise r : scan_utc_offset_suffix s = Some (utc, off, precise, r) →
  utc = true ∨ off ≠ None → ends_offset r →
  ends_time s ∧ ∃ o, parse_utc_offset_prefix s = Some (o, r) ∧ uo_nanoseconds o = default 0 off.
Proof.
  unfold scan_utc_offset_suffix. intros H Hsome Hr. destruct (eat_any (str "Zz") s) as [[c s']|] eqn:Ez.
  - injection H as <- <- <- <-. apply eat_any_inv in Ez as [-> Hc]. split.
    + cbn [ends_time]. apply is_char_elem. revert Hc. change (str "Zz+-[") with (str "Zz" ++ str "+-["). set_solver.
    + exists (Build_UtcOffset 0 true). split; [|done]. unfold parse_utc_offset_prefix, strip_char.
      by rewrite (proj2 (is_char_elem _ _)).
  - destruct (match peek s with Some _ => _ | None => _ end) eqn:Ep; [|injection H as <- <- <- <-; naive_solver].
    apply bind_Some in H as ([[v sec] r'] & Ho & [= <- <- <- <-]).
    assert (is_signed s = true) as Hs.
    { unfold is_signed, eat_any. destruct s as [|c s]; [done|]. cbn [peek head] in Ep. by rewrite Ep. }
    split.
    + destruct s as [|c s]; [done|]. cbn [ends_time]. apply is_char_elem. cbn [peek head] in Ep. apply is_char_elem in Ep.
      revert Ep. change (str "Zz+-[") with (str "Zz" ++ str "+-" ++ str "["). set_solver.
    + exists (Build_UtcOffset v (negb sec)). split; [|done]. apply offset_prefix_signed; [done|]. by exists v, sec.
Qed.
Lemma offset_prefix_suffix s o r : parse_utc_offset_prefix s = Some (o, r) →
  ∃ utc off precise, scan_utc_offset_suffix s = Some (utc, off, precise, r) ∧ default 0 off = uo_nanoseconds o ∧ (utc = true ∨ off ≠ None).
Proof.
  intros H. unfold scan_utc_offset_suffix. destruct (strip_char (str "Zz") s) as [s'|] eqn:Ez.
  - unfold parse_utc_offset_prefix in H. rewrite Ez in H. injection H as <- <-.
    apply strip_char_inv in Ez as (c & -> & Hc). cbn [eat_any]. rewrite (proj2 (is_char_elem _ _)) by done.
    exists true, None, false. split_and!; [done|done|by left].
  - assert (is_signed s = true) as Hs.
    { unfold parse_utc_offset_prefix in H. rewrite Ez in H. unfold is_signed. by destruct (eat_any (str "+-") s). }
    apply (offset_prefix_signed _ _ _ Hs) in H as (v & sec & Ho & Hr & ->).
    destruct s as [|c s]; [done|]. unfold strip_char in Ez. cbn [eat_any peek head].
    destruct (is_char (str "Zz") c); [done|].
    assert (is_char (str "+-") c = true) as -> by (unfold is_signed in Hs; cbn [eat_any] in Hs; by destruct (is_char (str "+-") c)).
    rewrite Ho. cbn [mbind option_bind]. eexists _, _, _. split_and!; [reflexivity|done|by right].
Qed.

Lemma eat_any_strip names s c r : eat_any names s = Some (c, r) → strip_char names s = Some r.
Proof. unfold eat_any, strip_char. destruct s as [|d s]; [done|]. destruct (is_char names d); [|done]. by intros [= _ <-]. Qed.
Lemma strip_eat_any names s r : strip_char names s = Some r → ∃ c, eat_any names s = Some (c, r).
Proof. unfold eat_any, strip_char. destruct s as [|d s]; [done|]. destruct (is_char names d); [|done]. intros [= <-]. by exists d. Qed.

(** Every scanner returns a suffix of its text. *)
Lemma digits_suffix w s n r : digits w s = Some (n, r) → r `suffix_of` s.
Proof. intros (ds & -> & _)%digits_inv. by exists ds. Qed.
Lemma eat_suffix c s b r : eat c s = (b, r) → r `suffix_of` s.
Proof. intros H%eat_inv. destruct b; subst; [by exists [c]|done]. Qed.
Lemma eat_any_suffix names s c r : eat_any names s = Some (c, r) → r `suffix_of` s.
Proof. intros [-> _]%eat_any_inv. by exists [c]. Qed.
Lemma scan_year_suffix s y r : scan_year s = Some (y, r) → r `suffix_of` s.
Proof.
  unfold scan_year. destruct (eat_any (str "+-") s) as [[c s']|] eqn:E; [|apply digits_suffix].
  intros H. apply bind_Some in H as ([v s2] & Hd%digits_suffix & H). apply eat_any_suffix in E.
  etrans; [|exact E]. by destruct (c =? ch "-")%N, (v =? 0); simplify_eq.
Qed.
Lemma scan_date_suffix s d r : scan_date s = Some (d, r) → r `suffix_of` s.
Proof.
  unfold scan_date. intros H. apply bind_Some in H as ([y s1] & H1%scan_year_suffix & H).
  destruct (eat (ch "-") s1) as [e s2] eqn:E2. apply eat_suffix in E2.
  apply bind_Some in H as ([m s3] & H3%digits_suffix & H).
  destruct (eat (ch "-") s3) as [a s4] eqn:E4. apply eat_suffix in E4.
  destruct (negb _); [done|]. apply bind_Some in H as ([dd s5] & H5%digits_suffix & H).
  destruct (is_valid_date y m dd); [|done]. injection H as _ <-. by repeat (etrans; [eassumption|]).
Qed.
Lemma scan_fields_suffix limit s x r : scan_fields limit s = Some (x, r) → r `suffix_of` s.
Proof. destruct x as [[[h m] so] ns]. intros (b & -> & _)%scan_fields_inv. by exists b. Qed.
Lemma scan_time_suffix s t r : scan_time s = Some (t, r) → r `suffix_of` s.
Proof.
  rewrite scan_time_fields. intros H. apply bind_Some in H as ([[[[h m] so] ns] r'] & H%scan_fields_suffix & [= _ <-]). done.
Qed.
Lemma scan_utc_offset_suffix_suffix s x r : scan_utc_offset_suffix s = Some (x, r) → r `suffix_of` s.
Proof.
  unfold scan_utc_offset_suffix. destruct (eat_any (str "Zz") s) as [[c s']|] eqn:E.
  - intros [= _ <-]. by apply eat_any_suffix in E.
  - destruct (match peek s with Some _ => _ | None => _ end); [|by intros [= _ <-]].
    rewrite scan_offset_fields. intros H. apply bind_Some in H as ([[v sec] r'] & H & [= _ <-]).
    apply bind_Some in H as ([byte s'] & Hb%eat_any_suffix & H).
    apply bind_Some in H as ([[[[h m] so] ns] r2] & H2%scan_fields_suffix & H).
    destruct (negb true && written so); [done|]. injection H as _ _ <-. by etrans.
Qed.

(** C23. The two readers of instants agree.  [parse_instant] (prefix by prefix, for
    [Temporal.Instant]) and [parse_date_time] (one cursor, for the other types) read the same date,
    time and offset from a string that spells all three: what the second accepts the first
    accepts, up to the range of years that only the first checks; and what the first accepts the
    second accepts, up to time-zone annotations with a component [.] or [..], which only the
    second refuses. *)
Theorem instant_strings_agree s :
  (∀ p time, parse_date_time s = Some p → px_time p = Some time → year_in_range (px_year p) = true →
     utc_designator p = true ∨ px_offset p ≠ None →
     parse_instant s = Some (Build_InstantParts (px_year p, px_month p, px_day p) time (default 0 (px_offset p)))) ∧
  (∀ ip, parse_instant s = Some ip →
     (∃ p, parse_date_time s = Some p ∧ (px_year p, px_month p, px_day p) = ip_date ip ∧
        px_time p = Some (ip_time ip) ∧ default 0 (px_offset p) = ip_offset ip) ∨
     ∃ before body after, s = before ++ str "[" ++ body ++ str "]" ++ after ∧
       is_time_zone_identifier (strip_critical body).2 = true ∧ dotted (strip_critical body).2 = true).
Proof.
  split.
  - intros p time Hp Htime Hrange Hoff. unfold parse_date_time in Hp.
    apply bind_Some in Hp as ([[[year month] day] s1] & Hd & Hp).
    apply bind_Some in Hp as ([[[[time' utc] off] precise] s4] & Ht & Hp).
    apply bind_Some in Hp as ([[tz cal] s5] & Ha & Hp). destruct s5; [|done]. injection Hp as <-.
    cbn [px_time px_year px_month px_day utc_designator px_offset] in *. subst time'.
    destruct (eat_any (str "Tt ") s1) as [[c s2]|] eqn:Ec; [|done].
    apply bind_Some in Ht as ([time' s3] & Ht & H). apply bind_Some in H as ([[[utc' off'] precise'] s4'] & Ho & [= <- <- <- <- <-]).
    destruct (offset_suffix_prefix s3 utc' off' precise' s4' Ho Hoff) as (Hends & o & Hpre & Hval);
      [by eapply scan_annotations_end|].
    unfold parse_instant. rewrite date_prefix_scan, Hd. cbn [mbind option_bind fst]. rewrite Hrange. cbn [mbind option_bind].
    rewrite (eat_any_strip _ _ _ _ Ec). cbn [mbind option_bind].
    rewrite (proj2 (time_prefix_iff s2 time' s3)) by done. cbn [mbind option_bind]. rewrite Hpre. cbn [mbind option_bind].
    rewrite (suffix_of_scan s4' tz cal) by done. cbn [mbind option_bind]. by rewrite Hval.
  - intros ip Hp. unfold parse_instant in Hp. rewrite date_prefix_scan in Hp.
    apply bind_Some in Hp as ([date s1] & Hd & Hp). apply bind_Some in Hd as ([date' s1'] & Hd & H).
    destruct (year_in_range _); [|done]. injection H as -> ->.
    apply bind_Some in Hp as (s2 & (c & Hc)%strip_eat_any & Hp).
    apply bind_Some in Hp as ([time s3] & [Ht Hends]%time_prefix_iff & Hp).
    apply bind_Some in Hp as ([o s4] & (utc & off & precise & Ho & Hval & Hoff)%offset_prefix_suffix & Hp).
    apply bind_Some in Hp as (an & Han & [= <-]). cbn [ip_date ip_time ip_offset].
    destruct (scan_of_suffix s4 an Han) as [Ha|(body & after & Hb & Hz & Hdot)].
    + left. destruct date as [[year month] day].
      exists (Build_Parsed year month day true true (Some time) utc off precise (an_time_zone an) (an_calendar an)).
      split; [|by split_and!]. unfold parse_date_time. rewrite Hd. cbn [mbind option_bind]. rewrite Hc, Ht. cbn [mbind option_bind].
      rewrite Ho. cbn [mbind option_bind]. by rewrite Ha.
    + right. apply take_bracket_inv in Hb.
      assert (s4 `suffix_of` s) as [before ->].
      { apply scan_utc_offset_suffix_suffix in Ho. apply scan_time_suffix in Ht. apply eat_any_suffix in Hc.
        apply scan_date_suffix in Hd. by repeat (etrans; [eassumption|]). }
      exists before, body, after. by rewrite Hb.
Qed.
(** Each way has its exception. *)
Example ex_dotted_zone : parse_instant (str "1970-01-01T00:00Z[a/..]") = Some (Build_InstantParts (1970, 1, 1) (0, 0, 0, 0, 0, 0) 0) ∧
  parse_date_time (str "1970-01-01T00:00Z[a/..]") = None.
Proof. by vm_compute. Qed.
Example ex_far_year : parse_instant (str "-999999-10-01T00Z") = None ∧
  px_year <$> parse_date_time (str "-999999-10-01T00Z") = Some (-999999).
Proof. by vm_compute. Qed.
Lemma instant_strings_agree_witness :
  parse_instant (str "2020-02-29t2359+0530[!Asia/Kolkata]") =
  Some (Build_InstantParts (2020, 2, 29) (23, 59, 0, 0, 0, 0) 19800000000000).
Proof.
  apply (proj1 (instant_strings_agree (str "2020-02-29t2359+0530[!Asia/Kolkata]"))
    (Build_Parsed 2020 2 29 true true (Some (23, 59, 0, 0, 0, 0)) false (Some 19800000000000) false
       (Some (str "Asia/Kolkata")) None)); [reflexivity..|by right].
Defined.

(** ** Reading back what is printed *)
Lemma number_nil : number [] = 0.
Proof. done. Qed.
(** Digits that do not all vanish end in a digit other than zero and zeros. *)
Lemma last_nonzero ds : all_digits ds = true → number ds ≠ 0 →
  ∃ a c k, ds = a ++ [c] ++ zeros k ∧ c ≠ ch "0".
Proof.
  induction ds as [|d ds IH] using rev_ind; [by rewrite number_nil|].
  rewrite all_digits_app. intros [Hd Hc]%andb_true_iff Hn. destruct (decide (d = ch "0")) as [->|Hne].
  - rewrite number_app in Hn. destruct IH as (a & c & k & -> & Hne); [done| |].
    { intros E. apply Hn. rewrite E. done. }
    exists a, c, (S k). split; [|done]. unfold zeros. rewrite replicate_S_end. by rewrite <-!app_assoc.
  - exists ds, d, 0%nat. split; [by rewrite app_nil_r|done].
Qed.
Lemma zeros_rev k : rev (zeros k) = zeros k.
Proof.
  unfold zeros. induction k as [|k IH]; [done|]. rewrite replicate_S at 1. cbn [rev]. rewrite IH.
  by rewrite replicate_S_end.
Qed.
Lemma zeros_are_zeros k : forallb (λ c, (c =? ch "0")%N) (zeros k) = true.
Proof. unfold zeros. induction k as [|k IH]; [done|]. rewrite replicate_S. cbn [forallb]. by rewrite IH. Qed.
Lemma trim_end_zeros_app a c k : c ≠ ch "0" → trim_end_zeros (a ++ [c] ++ zeros k) = a ++ [c].
Proof.
  intros Hc. unfold trim_end_zeros. rewrite !rev_app_distr, zeros_rev, <-app_assoc.
  rewrite take_while_app by apply zeros_are_zeros. cbn [rev app take_while].
  rewrite (proj2 (N.eqb_neq _ _)) by done. rewrite app_nil_r, drop_app_length.
  change (c :: rev a) with ([c] ++ rev a). by rewrite rev_app_distr, rev_involutive.
Qed.
Lemma trim_fraction ds : length ds = 9%nat → all_digits ds = true → number ds ≠ 0 →
  fraction (trim_end_zeros ds) ∧ scale_fraction (trim_end_zeros ds) = number ds.
Proof.
  intros Hl Hd Hn. destruct (last_nonzero ds Hd Hn) as (a & c & k & -> & Hc). rewrite trim_end_zeros_app by done.
  rewrite app_assoc, all_digits_app in Hd. apply andb_true_iff in Hd as [Hd _].
  unfold zeros in Hl. rewrite !length_app, length_replicate in Hl. cbn [length] in Hl. split.
  - split; [done|]. rewrite length_app. cbn [length]. lia.
  - unfold scale_fraction. rewrite app_assoc, (number_app (a ++ [c])), (proj2 (zeros_digits k)).
    unfold zeros. rewrite length_replicate, length_app. cbn [length].
    replace (9 - (length a + 1))%nat with k by lia. lia.
Qed.

(** ** Dates *)
(** [w] digits hold a number below [m = 10 ^ w]. *)
Lemma padded w m n : w ≠ O → 10 ^ Z.of_nat w = m → 0 <= n < m → numeral w (zero_padded w n) ∧ number (zero_padded w n) = n.
Proof. intros Hw <- Hn. split; [by apply numeral_padded|by apply number_padded]. Qed.
Lemma numeral_2 n : 0 <= n <= 99 → numeral 2 (zero_padded 2 n) ∧ number (zero_padded 2 n) = n.
Proof. intros Hn. apply (padded 2 100); [done|done|lia]. Qed.
Lemma scan_format_year y r : Z.abs y <= 999999 → scan_year (format_year y ++ r) = Some (y, r).
Proof.
  intros Hy. unfold format_year. destruct ((0 <=? y) && (y <=? 9999)) eqn:Hb.
  - apply andb_true_iff in Hb as [?%Z.leb_le ?%Z.leb_le].
    destruct (padded 4 10000 y) as [Hn Hv]; [done|done|lia|].
    unfold scan_year. rewrite (eat_any_numeral 4) by done. rewrite (digits_app 4) by exact Hn.
    by rewrite Hv.
  - apply andb_false_iff in Hb. rewrite !Z.leb_gt in Hb.
    destruct (padded 6 1000000 (Z.abs y)) as [Hn Hv]; [done|done|lia|].
    unfold scan_year. rewrite <-app_assoc. destruct (Z.ltb_spec y 0).
    + change (eat_any (str "+-") (str "-" ++ ?x)) with (Some (ch "-", x)). cbv iota. rewrite (digits_app 6) by exact Hn.
      cbn [mbind option_bind]. rewrite Hv, N.eqb_refl, (proj2 (Z.eqb_neq _ _)) by lia. do 2 f_equal. lia.
    + change (eat_any (str "+-") (str "+" ++ ?x)) with (Some (ch "+", x)). cbv iota. rewrite (digits_app 6) by exact Hn.
      cbn [mbind option_bind]. rewrite Hv. change (ch "+" =? ch "-")%N with false. do 2 f_equal. lia.
Qed.
Lemma scan_format_date date r : valid date → Z.abs date.1.1 <= 999999 → scan_date (format_iso_date date ++ r) = Some (date, r).
Proof.
  destruct date as [[y m] d]. cbn [fst]. intros Hv Hy. pose proof (proj1 (valid_length y m d) Hv) as (Hm & Hd).
  pose proof (month_length_bounds y m Hm) as Hlen.
  destruct (numeral_2 m ltac:(lia)) as [Hnm Hvm], (numeral_2 d ltac:(lia)) as [Hnd Hvd].
  unfold scan_date, format_iso_date. rewrite <-!app_assoc. rewrite scan_format_year by done. cbn [mbind option_bind].
  change (eat (ch "-") (str "-" ++ ?x)) with (true, x). cbv iota. rewrite digits_app by done. cbn [mbind option_bind].
  change (eat (ch "-") (str "-" ++ ?x)) with (true, x). cbn [Bool.eqb negb]. rewrite digits_app by done. cbn [mbind option_bind].
  rewrite Hvm, Hvd. unfold valid in Hv. cbn [fst snd] in Hv. by rewrite Hv.
Qed.

(** ** Times and offsets *)
Lemma padded_9 n : 0 <= n <= 999999999 →
  length (zero_padded 9 n) = 9%nat ∧ all_digits (zero_padded 9 n) = true ∧ number (zero_padded 9 n) = n.
Proof. intros. apply zero_padded_spec; [done|]. change (10 ^ Z.of_nat 9) with 1000000000. lia. Qed.
Lemma format_time_text h m s ns : 0 <= h <= 99 → 0 <= m <= 99 → 0 <= s <= 99 → 0 <= ns <= 999999999 →
  time_text (zero_padded 2 h ++ str ":" ++ zero_padded 2 m ++ format_seconds s ns AutoSeconds) h m (Some s) ns.
Proof.
  intros Hh Hm Hs Hns. destruct (numeral_2 h Hh) as [Hnh Hvh], (numeral_2 m Hm) as [Hnm Hvm], (numeral_2 s Hs) as [Hnsec Hvs].
  cbn [format_seconds]. destruct (Z.eqb_spec ns 0) as [->|Hne].
  - rewrite app_nil_r. rewrite <-Hvh at 2. rewrite <-Hvm at 2. rewrite <-Hvs at 2.
    by apply (second_text (str ":")); [right|..].
  - destruct (padded_9 ns Hns) as (Hl & Hd & Hv).
    destruct (trim_fraction (zero_padded 9 ns)) as [Hf Hsc]; [done|done|by rewrite Hv|].
    rewrite Hv in Hsc. rewrite <-Hvh at 2. rewrite <-Hvm at 2. rewrite <-Hvs at 2. rewrite <-Hsc at 2.
    by apply (fraction_text (str ":")); [right|..|set_solver|].
Qed.

Lemma with_nanoseconds_total h m s ms us ns : 0 <= s <= 59 → 0 <= ms <= 999 → 0 <= us <= 999 → 0 <= ns <= 999 →
  with_nanoseconds h m (Z.min s 59) (nanos_total ms us ns) = (h, m, s, ms, us, ns).
Proof.
  intros Hs Hms Hus Hns. unfold with_nanoseconds, nanos_total. rewrite !Z.quot_div_nonneg, !Z.rem_mod_nonneg by zlia.
  repeat f_equal; zlia.
Qed.
Lemma scan_format_time t r : valid_time t → ends_time r →
  scan_time (format_plain_time_string t AutoSeconds ++ r) = Some (t, r).
Proof.
  destruct t as [[[[[h m] s] ms] us] ns]. intros (Hh & Hm & Hs & Hms & Hus & Hns) Hr.
  rewrite scan_time_fields. unfold format_plain_time_string.
  rewrite (scan_fields_text 60 _ h m (Some s) (nanos_total ms us ns));
    [|apply format_time_text; unfold nanos_total; lia|lia|lia|intros ? [= <-]; lia|done].
  cbn [mbind option_bind default from_option id]. by rewrite with_nanoseconds_total.
Qed.

Lemma trim_end_point_none s c : c ≠ ch "." → trim_end_point (s ++ [c]) = s ++ [c].
Proof.
  intros Hc. unfold trim_end_point. rewrite rev_app_distr. cbn [rev app take_while].
  rewrite (proj2 (N.eqb_neq _ _)) by done. cbn [length]. rewrite drop_0.
  change (c :: rev s) with ([c] ++ rev s). by rewrite rev_app_distr, rev_involutive.
Qed.
Lemma offset_fraction ns : 0 <= ns <= 999999999 →
  trim_end_point (trim_end_zeros (str "." ++ zero_padded 9 ns)) =
  if ns =? 0 then [] else str "." ++ trim_end_zeros (zero_padded 9 ns).
Proof.
  intros Hns. destruct (Z.eqb_spec ns 0) as [->|Hne]; [by vm_compute|].
  destruct (padded_9 ns Hns) as (Hl & Hd & Hv).
  destruct (last_nonzero (zero_padded 9 ns)) as (a & c & k & E & Hc); [done|by rewrite Hv|].
  rewrite E in Hd |- *. rewrite app_assoc, !trim_end_zeros_app by done. rewrite app_assoc. apply trim_end_point_none.
  intros ->. rewrite !all_digits_app in Hd. apply andb_true_iff in Hd as [_ [Hd _]%andb_true_iff]. done.
Qed.
(** A printed offset is a sign and a time. *)
Lemma offset_text o : Z.abs o < NS_PER_DAY → ∃ b so ns,
  format_offset_nanoseconds_exact o = (if o <? 0 then str "-" else str "+") ++ b ∧
  time_text b (Z.abs o ÷ 3600000000000) (Z.rem (Z.abs o ÷ 60000000000) 60) so ns ∧
  written so = negb (Z.rem o 60000000000 =? 0) ∧ (∀ s, so = Some s → s <= 59) ∧
  offset_value (if o <? 0 then -1 else 1) (Z.abs o ÷ 3600000000000) (Z.rem (Z.abs o ÷ 60000000000) 60)
    (default 0 so) ns = o.
Proof.
  unfold NS_PER_DAY. intros Ho. unfold format_offset_nanoseconds_exact.
  assert (Hmag : 0 <= Z.abs o) by lia. set (mag := Z.abs o) in *.
  assert (Hsign : ∀ x, x = mag → (if o <? 0 then -1 else 1) * x = o) by (intros ? ->; subst mag; destruct (Z.ltb_spec o 0); lia).
  assert (Hrem : (Z.rem o 60000000000 =? 0) = (Z.rem mag 60000000000 =? 0)).
  { subst mag. rewrite Z.rem_abs_l by lia. destruct (Z.eqb_spec (Z.rem o 60000000000) 0), (Z.eqb_spec (Z.abs (Z.rem o 60000000000)) 0); lia. }
  rewrite Hrem. unfold offset_value. clear Hrem. clearbody mag.
  rewrite !Z.quot_div_nonneg, !Z.rem_mod_nonneg by zlia.
  set (h := mag / 3600000000000). set (m := mag / 60000000000 mod 60).
  set (s := mag / 1000000000 mod 60). set (ns := mag mod 1000000000).
  assert (Hb : 0 <= h <= 23 ∧ 0 <= m <= 59 ∧ 0 <= s <= 59 ∧ 0 <= ns <= 999999999 ∧
    mag = ((h * 60 + m) * 60 + s) * 1000000000 + ns ∧ (mag mod 60000000000 = 0 ↔ s = 0 ∧ ns = 0)).
  { unfold h, m, s, ns. zlia. }
  clearbody h m s ns. destruct Hb as (Hh & Hm & Hs & Hns & Heq & Hz).
  destruct (negb (s =? 0) || negb (ns =? 0)) eqn:Hsec.
  - exists (zero_padded 2 h ++ str ":" ++ zero_padded 2 m ++ format_seconds s ns AutoSeconds), (Some s), ns. split_and!.
    + cbn [format_seconds]. by rewrite offset_fraction.
    + apply format_time_text; lia.
    + cbn [written]. symmetry. apply negb_true_iff, Z.eqb_neq. intros [-> ->]%Hz. done.
    + intros ? [= <-]. lia.
    + apply Hsign. by rewrite Heq.
  - apply orb_false_iff in Hsec as [->%negb_false_iff%Z.eqb_eq ->%negb_false_iff%Z.eqb_eq].
    exists (zero_padded 2 h ++ str ":" ++ zero_padded 2 m), None, 0. split_and!.
    + by rewrite app_nil_r.
    + destruct (numeral_2 h), (numeral_2 m); [lia..|]. 
      pose proof (minute_text (str ":") (zero_padded 2 h) (zero_padded 2 m)) as Hmt. rewrite H0, H2 in Hmt.
      apply Hmt; [by right|done|done].
    + cbn [written]. symmetry. apply negb_false_iff, Z.eqb_eq. by apply Hz.
    + done.
    + apply Hsign. by rewrite Heq.
Qed.
Lemma scan_format_offset o r : Z.abs o < NS_PER_DAY → ends_time r →
  scan_offset (format_offset_nanoseconds_exact o ++ r) true = Some (o, negb (Z.rem o 60000000000 =? 0), r).
Proof.
  intros Ho Hr. destruct (offset_text o Ho) as (b & so & ns & -> & Ht & Hw & Hlim & Hv).
  unfold NS_PER_DAY in Ho.
  assert (Hf : scan_fields 59 (b ++ r) =
    Some (Z.abs o ÷ 3600000000000, Z.rem (Z.abs o ÷ 60000000000) 60, so, ns, r)).
  { apply scan_fields_text; [done|rewrite Z.quot_div_nonneg by lia; zlia| |done|done].
    rewrite Z.quot_div_nonneg, Z.rem_mod_nonneg by zlia. zlia. }
  rewrite scan_offset_fields, <-app_assoc, <-Hw. revert Hv. destruct (o <? 0); intros Hv.
  - change (eat_any (str "+-") (str "-" ++ ?x)) with (Some (ch "-", x)). cbn [mbind option_bind]. rewrite Hf.
    cbn [mbind option_bind negb andb]. rewrite N.eqb_refl. by rewrite Hv.
  - change (eat_any (str "+-") (str "+" ++ ?x)) with (Some (ch "+", x)). cbn [mbind option_bind]. rewrite Hf.
    cbn [mbind option_bind negb andb]. cbv iota. f_equal. f_equal. f_equal. exact Hv.
Qed.

(** ** Annotations *)
Lemma time_text_chars names b h m so ns : time_text b h m so ns →
  forallb (λ c, negb (is_ascii_digit c || is_char (str ":.,") c)) names = true → avoids (is_char names) b.
Proof.
  intros Ht Hn. assert (Hd : forallb (λ c, negb (is_ascii_digit c)) names = true).
  { rewrite forallb_forall in Hn |- *. intros c Hc%Hn. by destruct (is_ascii_digit c). }
  assert (Hp : ∀ p, p ∈ str ":.," → is_char names p = false).
  { intros p Hp. apply bool_decide_eq_false. intros Hin. rewrite forallb_forall in Hn.
    apply list_elem_of_In, Hn, negb_true_iff, orb_false_iff in Hin as [_ Hin].
    by rewrite (proj2 (is_char_elem _ _) Hp) in Hin. }
  assert (Hsep : ∀ sep, separator sep → avoids (is_char names) sep)
    by (intros ? [-> | ->]; repeat constructor; apply Hp; set_solver).
  assert (∀ w s, numeral w s → avoids (is_char names) s) as Hnum by eauto using numeral_avoids.
  destruct Ht; rewrite ?avoids_app; split_and?; eauto.
  constructor; [apply Hp; set_solver|]. apply avoids_digits; [by destruct H4|]. intros c Hc. by apply digit_not_char.
Qed.
Lemma join_avoids p c fields : p c = false → Forall (avoids p) fields → avoids p (join_char c fields).
Proof.
  intros Hc. induction 1 as [|f fs Hf Hfs IH]; [constructor|]. cbn [join_char]. destruct fs; [done|].
  apply avoids_app. split; [done|]. by constructor.
Qed.
Lemma chars_avoid p names s : forallb p s = true → forallb (λ c, negb (p c)) names = true → avoids (is_char names) s.
Proof.
  intros Hs Hn. apply Forall_forall. intros c Hc. apply bool_decide_eq_false. intros Hin.
  rewrite forallb_forall in Hs, Hn. apply list_elem_of_In in Hc, Hin. apply Hs in Hc. apply Hn in Hin. by rewrite Hc in Hin.
Qed.
Lemma zone_chars zone : is_valid_time_zone_identifier zone = true → avoids (is_char (str "]=!")) zone.
Proof.
  unfold is_valid_time_zone_identifier, is_signed. destruct (eat_any (str "+-") zone) as [[byte s]|] eqn:Eb.
  - rewrite scan_offset_fields, Eb. cbn [mbind option_bind negb].
    destruct (scan_fields 59 s) as [[[[[h m] so] ns] r]|] eqn:E; [|done]. cbn [mbind option_bind].
    apply scan_fields_inv in E as (b & -> & Ht & _). destruct (_ && _); [done|]. destruct r; [|done]. intros _.
    apply eat_any_inv in Eb as [-> Hb]. rewrite app_nil_r. constructor; [|by eapply time_text_chars].
    by apply (disjoint_chars _ (str "+-")).
  - intros [_ H]%andb_true_iff. rewrite <-(proj1 (split_char_join (ch "/") zone)). apply join_avoids; [done|].
    rewrite forallb_forall in H. apply Forall_forall. intros f Hf%list_elem_of_In%H.
    apply andb_true_iff in Hf as [Hf _]. unfold name_component in Hf. apply andb_true_iff in Hf as [_ Hf].
    by apply (chars_avoid is_name_char).
Qed.
Lemma calendar_chars cal : is_valid_annotation_value cal = true → avoids (is_char (str "]")) cal.
Proof.
  intros [_ H]%andb_true_iff. rewrite <-(proj1 (split_char_join (ch "-") cal)). apply join_avoids; [done|].
  rewrite forallb_forall in H. apply Forall_forall. intros f Hf%list_elem_of_In%H.
  apply andb_true_iff in Hf as [_ Hf]. by apply (chars_avoid is_ascii_alphanumeric).
Qed.

Lemma split_once_app c a b : avoids (is_char [c]) a → split_once c (a ++ c :: b) = Some (a, b).
Proof.
  intros Ha. induction Ha as [|d a Hd Ha IH]; cbn [app split_once]; [by rewrite N.eqb_refl|].
  apply bool_decide_eq_false in Hd. rewrite (proj2 (N.eqb_neq d c)) by set_solver. by rewrite IH.
Qed.
Lemma take_bracket_app body r : avoids (is_char (str "]")) body →
  take_bracket (str "[" ++ body ++ str "]" ++ r) = Some (body, r).
Proof. intros Hb. by apply split_once_app. Qed.
Lemma avoids_weaken names names' s : names' ⊆ names → avoids (is_char names) s → avoids (is_char names') s.
Proof.
  intros Hsub Hs. eapply Forall_impl; [exact Hs|]. intros c Hc. cbn beta in Hc |- *.
  apply bool_decide_eq_false in Hc. apply bool_decide_eq_false. set_solver.
Qed.
Definition critical_mark (critical : bool) : rstring := if critical then str "!" else [].
Lemma strip_critical_mark critical s : avoids (is_char (str "!")) s →
  strip_critical (critical_mark critical ++ s) = (critical, s).
Proof.
  intros Hs. destruct critical; [done|]. cbn [critical_mark app]. unfold strip_critical, strip_char.
  destruct Hs as [|c s Hc Hs]; [done|]. by rewrite Hc.
Qed.

(** The calendar that a printed annotation names. *)
Definition shown_calendar (calendar : rstring) (show : ShowCalendar) : option rstring :=
  match show with
  | Never => None
  | Auto => if bool_decide (calendar = str "iso8601") then None else Some calendar
  | Always | Critical => Some calendar
  end.
Lemma calendar_annotation_text calendar show : format_calendar_annotation calendar show =
  match shown_calendar calendar show with
  | Some calendar => str "[" ++ (critical_mark (bool_decide (show = Critical)) ++ str "u-ca=" ++ calendar) ++ str "]" ++ []
  | None => []
  end.
Proof. destruct show; try done. cbn [format_calendar_annotation shown_calendar]. by destruct (bool_decide _). Qed.
Lemma scan_calendar_annotation critical calendar : is_valid_annotation_value calendar = true →
  scan_annotation (critical_mark critical ++ str "u-ca=" ++ calendar) no_calendar =
  Some (Build_CalendarState (Some calendar) 1 critical).
Proof.
  intros Hc. unfold scan_annotation.
  assert (strip_critical (critical_mark critical ++ str "u-ca=" ++ calendar) = (critical, str "u-ca=" ++ calendar)) as ->
    by (by destruct critical).
  change (split_once (ch "=") (str "u-ca=" ++ calendar)) with (Some (str "u-ca", calendar)). cbn [mbind option_bind].
  rewrite Hc. change (is_valid_annotation_key (str "u-ca")) with true. cbn [negb orb].
  by rewrite bool_decide_eq_true_2 by done.
Qed.
Lemma scan_loop_nil fuel st : scan_loop fuel [] st = Some (st, []).
Proof. by destruct fuel. Qed.
Lemma scan_calendar_loop calendar show : is_valid_annotation_value calendar = true →
  let s := format_calendar_annotation calendar show in
  ∃ st, scan_loop (length s) s no_calendar = Some (st, []) ∧ calendars_ok st = true ∧
    cs_calendar st = shown_calendar calendar show.
Proof.
  intros Hc. cbn zeta. rewrite calendar_annotation_text. destruct (shown_calendar calendar show) as [cal|] eqn:E.
  - assert (cal = calendar) as -> by (revert E; destruct show; cbn [shown_calendar]; repeat case_bool_decide; naive_solver).
    set (critical := bool_decide (show = Critical)). set (body := critical_mark critical ++ str "u-ca=" ++ calendar).
    exists (Build_CalendarState (Some calendar) 1 critical). split; [|by split].
    assert (Hb : avoids (is_char (str "]")) body).
    { unfold body. rewrite !avoids_app. split_and!; [destruct critical; repeat constructor|repeat constructor|by apply calendar_chars]. }
    pose proof (take_bracket_app body [] Hb) as Ht. set (s := str "[" ++ body ++ str "]" ++ []) in *.
    change (length s) with (S (length (body ++ str "]" ++ []))). unfold scan_loop. fold scan_loop.
    change (peek s) with (Some (ch "[")). cbv iota. rewrite N.eqb_refl, Ht. cbn [mbind option_bind].
    unfold body. rewrite scan_calendar_annotation by done. apply scan_loop_nil.
  - exists no_calendar. by split_and!.
Qed.
Definition shown_zone (show_time_zone time_zone : rstring) : option rstring :=
  if bool_decide (show_time_zone = str "never") then None else Some time_zone.
Lemma scan_printed_annotations show_time_zone time_zone calendar show :
  is_valid_time_zone_identifier time_zone = true → is_valid_annotation_value calendar = true →
  scan_annotations (time_zone_annotation show_time_zone time_zone ++ format_calendar_annotation calendar show) =
  Some (shown_zone show_time_zone time_zone, shown_calendar calendar show, []).
Proof.
  intros Hz Hc. pose proof (zone_chars time_zone Hz) as Hchars.
  destruct (scan_calendar_loop calendar show Hc) as (st & Hl & Hok & Hcal).
  rewrite scan_annotations_eq. unfold time_zone_annotation, shown_zone. destruct (bool_decide (show_time_zone = str "never")).
  - cbn [app]. rewrite calendar_annotation_text in Hl |- *. destruct (shown_calendar calendar show) as [cal|] eqn:E.
    + assert (cal = calendar) as -> by (revert E; destruct show; cbn [shown_calendar]; repeat case_bool_decide; naive_solver).
      rewrite take_bracket_app; cycle 1.
      { rewrite !avoids_app. split_and!; [by destruct (bool_decide _); repeat constructor|repeat constructor|by apply calendar_chars]. }
      cbn zeta. rewrite app_nil_r in *.
      assert (∀ critical, (strip_critical (critical_mark critical ++ str "u-ca=" ++ calendar)).2 = str "u-ca=" ++ calendar) as Hs
        by (by intros []).
      rewrite Hs. change (contains_char (ch "=") (str "u-ca=" ++ calendar)) with true. cbn [mbind option_bind].
      rewrite Hl. cbn [mbind option_bind]. by rewrite Hok, Hcal.
    + cbn [mbind option_bind]. change (take_bracket []) with (@None (rstring * rstring)). cbn [strip_char mbind option_bind].
      rewrite Hl. cbn [mbind option_bind]. by rewrite Hok, Hcal.
  - fold (critical_mark (bool_decide (show_time_zone = str "critical"))).
    set (critical := bool_decide (show_time_zone = str "critical")).
    replace ((str "[" ++ critical_mark critical ++ time_zone ++ str "]") ++ format_calendar_annotation calendar show)
      with (str "[" ++ (critical_mark critical ++ time_zone) ++ str "]" ++ format_calendar_annotation calendar show)
      by (by rewrite <-!app_assoc).
    rewrite take_bracket_app; cycle 1.
    { apply avoids_app. split; [destruct critical; repeat constructor|]. eapply avoids_weaken; [|exact Hchars].
      change (str "]=!") with (str "]" ++ str "=!"). set_solver. }
    cbn zeta. rewrite strip_critical_mark; cycle 1.
    { eapply avoids_weaken; [|exact Hchars]. change (str "]=!") with (str "]=" ++ str "!"). set_solver. }
    cbn [snd]. rewrite (proj2 (contains_char_avoids (ch "=") time_zone)); cycle 1.
    { eapply Forall_impl; [exact Hchars|]. intros c Hcn. cbn beta in Hcn. apply bool_decide_eq_false in Hcn. apply N.eqb_neq.
      intros <-. apply Hcn. change (str "]=!") with (str "]" ++ str "=" ++ str "!"). set_solver. }
    rewrite Hz. cbn [negb mbind option_bind]. rewrite Hl. cbn [mbind option_bind]. by rewrite Hok, Hcal.
Qed.

(** ** Instants and zoned date-times *)
Lemma year_of_days y m d : valid (y, m, d) → -100000001 <= iso_date_to_epoch_days (y, m, d) <= 100000001 →
  -271821 <= y <= 275760.
Proof.
  intros Hv Hd.
  assert (iso_date_to_epoch_days (-271821, 1, 1) < -100000001) as Hf by reflexivity.
  assert (100000001 < iso_date_to_epoch_days (275760, 12, 31)) as Hl by reflexivity.
  pose proof (epoch_days_lt (y, m, d) (-271821, 1, 1) Hv eq_refl) as L1.
  pose proof (epoch_days_lt (275760, 12, 31) (y, m, d) eq_refl Hv) as L2. cbn [fst snd] in L1, L2. lia.
Qed.
(** The fields of an instant in range, seen less than a day from UTC, and their spelling. *)
Lemma printed_instant local precision : - INSTANT_LIMIT - NS_PER_DAY <= local <= INSTANT_LIMIT + NS_PER_DAY →
  ∃ date time, format_zoned_date_time_date_time local precision = Ok (format_date_time date time precision) ∧
    valid date ∧ valid_time time ∧ -271821 <= date.1.1 <= 275760 ∧ nanoseconds_since_epoch date time 0 = local.
Proof.
  intros Hl. destruct (instant_fields_total local) as (date & time & He & Hv & _ & Ht & Hn);
    [unfold FIRST_DAY, LAST_DAY, INSTANT_LIMIT, NS_PER_DAY in *; lia|].
  exists date, time. unfold format_zoned_date_time_date_time. rewrite He. split_and!; try done.
  all: destruct date as [[y m] d]; cbn [fst]; rewrite nanoseconds_split in Hn; pose proof (time_ns_bounds time Ht) as Hb;
    destruct (year_of_days y m d Hv); [unfold INSTANT_LIMIT, NS_PER_DAY in *; lia|lia].
Qed.
Lemma round_offset_spec o : Z.abs o < 86370000000000 →
  let r := round_offset_nanoseconds_to_minutes o in
  Z.abs r < NS_PER_DAY ∧ Z.rem r 60000000000 = 0 ∧ Z.abs (r - o) <= 30000000000.
Proof.
  intros Ho. cbn zeta. unfold round_offset_nanoseconds_to_minutes, NS_PER_DAY.
  destruct (Z.leb_spec 60000000000 (Z.abs (Z.rem o 60000000000) * 2)), (Z.ltb_spec 0 o);
    (split; [|split]; [|by apply Z.rem_mul|]); zlia.
Qed.

(** What follows the time: an offset or nothing, and annotations. *)
Lemma scan_printed_offset o r : Z.abs o < NS_PER_DAY → ends_offset r →
  scan_utc_offset_suffix (format_offset_nanoseconds_exact o ++ r) =
  Some (false, Some o, negb (Z.rem o 60000000000 =? 0), r).
Proof.
  intros Ho Hr. pose proof (scan_format_offset o r Ho (ends_offset_time r Hr)) as Hs.
  destruct (offset_text o Ho) as (b & _ & _ & E & _). unfold scan_utc_offset_suffix.
  rewrite E in Hs |- *. destruct (o <? 0); rewrite <-app_assoc in Hs |- *.
  - change (eat_any (str "Zz") (str "-" ++ ?x)) with (@None (N * rstring)). change (peek (str "-" ++ ?x)) with (Some (ch "-")).
    change (is_char (str "+-") (ch "-")) with true. cbv iota. by rewrite Hs.
  - change (eat_any (str "Zz") (str "+" ++ ?x)) with (@None (N * rstring)). change (peek (str "+" ++ ?x)) with (Some (ch "+")).
    change (is_char (str "+-") (ch "+")) with true. cbv iota. by rewrite Hs.
Qed.
Lemma scan_no_offset r : ends_offset r → scan_utc_offset_suffix r = Some (false, None, false, r).
Proof. destruct r as [|c r]; [done|]. by intros ->. Qed.
Lemma printed_offset_ends o r : ends_time (format_offset_nanoseconds_exact o ++ r).
Proof. unfold format_offset_nanoseconds_exact. by destruct (o <? 0). Qed.

(** The string with its offset [off] printed exactly or left out. *)
Definition date_time_string (date : CivilDate) (time : CivilTime) (off : option Z)
    (show_time_zone time_zone calendar : rstring) (show : ShowCalendar) : rstring :=
  format_date_time date time AutoSeconds ++
  from_option format_offset_nanoseconds_exact [] off ++
  time_zone_annotation show_time_zone time_zone ++ format_calendar_annotation calendar show.
Lemma parse_date_time_string date time off show_time_zone time_zone calendar show :
  valid date → Z.abs date.1.1 <= 999999 → valid_time time → (∀ o, off = Some o → Z.abs o < NS_PER_DAY) →
  is_valid_time_zone_identifier time_zone = true → is_valid_annotation_value calendar = true →
  parse_date_time (date_time_string date time off show_time_zone time_zone calendar show) =
  Some (Build_Parsed date.1.1 date.1.2 date.2 true true (Some time) false off
    (from_option (λ o, negb (Z.rem o 60000000000 =? 0)) false off)
    (shown_zone show_time_zone time_zone) (shown_calendar calendar show)).
Proof.
  intros Hv Hy Ht Ho Hz Hc. pose proof (scan_printed_annotations show_time_zone time_zone calendar show Hz Hc) as Ha.
  pose proof (scan_annotations_end _ _ _ Ha) as Hends. unfold date_time_string.
  set (r := time_zone_annotation _ _ ++ _) in *. clearbody r.
  unfold parse_date_time, format_date_time. rewrite <-!app_assoc, scan_format_date by done. cbn [mbind option_bind].
  destruct date as [[y m] d]. cbv iota.
  change (eat_any (str "Tt ") (str "T" ++ ?x)) with (Some (ch "T", x)). cbv iota.
  rewrite scan_format_time; [|done|destruct off; [apply printed_offset_ends|by apply ends_offset_time]]. cbn [mbind option_bind].
  assert (scan_utc_offset_suffix (from_option format_offset_nanoseconds_exact [] off ++ r) =
    Some (false, off, from_option (λ o, negb (Z.rem o 60000000000 =? 0)) false off, r)) as ->.
  { destruct off as [o|]; [by apply scan_printed_offset; auto|by apply scan_no_offset]. }
  cbn [mbind option_bind]. by rewrite Ha.
Qed.

(** C24. The strings of zoned date-times are read back.  [toString] of a ZonedDateTime does not
    fail on an instant in range, and [parse_date_time] reads the string: the date and the time are
    the fields of the local instant, to the nanosecond; the offset is the zone's to the nearest
    minute, unless it was left out; the zone and the calendar are those printed, if they are. *)
Theorem zoned_string_round_trip local offset show_offset show_time_zone time_zone calendar show_calendar show :
  - INSTANT_LIMIT - NS_PER_DAY <= local <= INSTANT_LIMIT + NS_PER_DAY → Z.abs offset < 86370000000000 →
  is_valid_time_zone_identifier time_zone = true → is_valid_annotation_value calendar = true →
  parse_show_calendar show_calendar = Some show →
  ∃ text p time,
    zoned_date_time_string local offset AutoSeconds show_offset show_time_zone time_zone calendar show_calendar = Ok text ∧
    parse_date_time text = Some p ∧ px_time p = Some time ∧ valid_time time ∧
    nanoseconds_since_epoch (px_year p, px_month p, px_day p) time 0 = local ∧
    utc_designator p = false ∧ offset_sub_minute_precision p = false ∧
    (if bool_decide (show_offset = str "never") then px_offset p = None
     else ∃ o, px_offset p = Some o ∧ Z.rem o 60000000000 = 0 ∧ Z.abs (o - offset) <= 30000000000) ∧
    px_time_zone p = shown_zone show_time_zone time_zone ∧ px_calendar p = shown_calendar calendar show.
Proof.
  intros Hl Ho Hz Hc Hs. destruct (printed_instant local AutoSeconds Hl) as ([[y m] d] & time & He & Hv & Ht & Hy & Hn).
  destruct (round_offset_spec offset Ho) as (Hr & Hrem & Hnear). set (o := round_offset_nanoseconds_to_minutes offset) in *.
  set (off := if bool_decide (show_offset = str "never") then None else Some o).
  assert (Hoff : ∀ x, off = Some x → x = o) by (unfold off; case_bool_decide; naive_solver).
  exists (date_time_string (y, m, d) time off show_time_zone time_zone calendar show). eexists _, time.
  assert (Hp := parse_date_time_string (y, m, d) time off show_time_zone time_zone calendar show).
  split; [|split; [apply Hp; try done; [cbn [fst] in *; lia|by intros x ->%Hoff]|]].
  - unfold zoned_date_time_string. rewrite He, Hs. cbn [mbind res_bind mret res_ret]. unfold date_time_string, off.
    by destruct (bool_decide _).
  - cbn. split_and!; try done.
    + unfold off. case_bool_decide; [done|]. cbn. by rewrite Hrem.
    + unfold off. destruct (decide (show_offset = str "never")); [by rewrite !bool_decide_eq_true_2|].
      rewrite !bool_decide_eq_false_2 by done. exists o. split; [done|]. split; [exact Hrem|exact Hnear].
Qed.
Lemma zoned_string_round_trip_witness : ∃ text p,
  zoned_date_time_string (-2670000000000) (-2670000000000) AutoSeconds (str "auto") (str "critical")
    (str "Africa/Monrovia") (str "gregory") (str "auto") = Ok text ∧
  text = str "1969-12-31T23:15:30-00:45[!Africa/Monrovia][u-ca=gregory]" ∧
  parse_date_time text = Some p ∧ px_time_zone p = Some (str "Africa/Monrovia").
Proof.
  destruct (zoned_string_round_trip (-2670000000000) (-2670000000000) (str "auto") (str "critical")
    (str "Africa/Monrovia") (str "gregory") (str "auto") Auto) as (text & p & time & He & Hp & _ & _ & _ & _ & _ & _ & Hz & _);
    [unfold INSTANT_LIMIT, NS_PER_DAY; lia|lia|reflexivity..|].
  exists text, p. split; [exact He|]. split; [|split; [exact Hp|exact Hz]].
  vm_compute in He. injection He as <-. reflexivity.
Defined.

(** The offset of an instant's string, to the nearest minute. *)
Lemma instant_offset o : Z.abs o < 86370000000000 →
  let minutes := (Z.abs o + 30000000000) ÷ 60000000000 in
  ∃ v, parse_utc_offset_prefix ((if o <? 0 then str "-" else str "+") ++ zero_padded 2 (minutes ÷ 60) ++ str ":" ++
    zero_padded 2 (Z.rem minutes 60)) = Some (Build_UtcOffset v true, []) ∧
    Z.rem v 60000000000 = 0 ∧ Z.abs (v - o) <= 30000000000.
Proof.
  intros Ho minutes. assert (Hm : 0 <= minutes < 1440 ∧ Z.abs (minutes * 60000000000 - Z.abs o) <= 30000000000)
    by (unfold minutes; rewrite Z.quot_div_nonneg by lia; zlia).
  clearbody minutes. rewrite Z.quot_div_nonneg, Z.rem_mod_nonneg by lia.
  destruct (numeral_2 (minutes / 60)) as [Hnh Hvh]; [zlia|]. destruct (numeral_2 (minutes mod 60)) as [Hnm Hvm]; [zlia|].
  pose proof (minute_text (str ":") _ _ (or_intror eq_refl) Hnh Hnm) as Ht. rewrite Hvh, Hvm in Ht.
  set (b := zero_padded 2 (minutes / 60) ++ str ":" ++ zero_padded 2 (minutes mod 60)) in *. clearbody b.
  assert (Hf : scan_fields 59 b = Some (minutes / 60, minutes mod 60, None, 0, []))
    by (rewrite <-(app_nil_r b); apply scan_fields_text; [done|zlia|zlia|done|done]).
  set (sign := if o <? 0 then -1 else 1).
  assert (Hsign : sign = -1 ∧ o < 0 ∨ sign = 1 ∧ 0 <= o) by (unfold sign; destruct (Z.ltb_spec o 0); lia).
  exists (offset_value sign (minutes / 60) (minutes mod 60) 0 0). split.
  - apply offset_prefix_signed; [by destruct (o <? 0)|].
    exists (offset_value sign (minutes / 60) (minutes mod 60) 0 0), false. split; [|by split].
    rewrite scan_offset_fields. unfold sign. destruct (o <? 0).
    + change (eat_any (str "+-") (str "-" ++ b)) with (Some (ch "-", b)). cbn [mbind option_bind]. by rewrite Hf.
    + change (eat_any (str "+-") (str "+" ++ b)) with (Some (ch "+", b)). cbn [mbind option_bind]. by rewrite Hf.
  - assert (Hv : offset_value sign (minutes / 60) (minutes mod 60) 0 0 = sign * minutes * 60000000000)
      by (unfold offset_value; pose proof (Z.div_mod minutes 60); nia).
    rewrite Hv. split; [by apply Z.rem_mul|]. destruct Hsign as [[-> ?]|[-> ?]]; lia.
Qed.

(** C25. The strings of instants are read back.  [format_instant_string] does not fail on an instant
    in range, and [parse_instant] reads its string: the date and the time give the instant back to
    the nanosecond when the offset that was asked for is taken off; the offset that is read is that
    offset to the nearest minute, and none is read as zero.  With an offset of whole minutes or
    none, [instant_epoch_from_string] reads the string as the instant. *)
Theorem instant_string_round_trip n off :
  is_in_instant_range n = true → (∀ o, off = Some o → Z.abs o < 86370000000000) →
  ∃ text ip, format_instant_string n AutoSeconds off = Ok text ∧ parse_instant text = Some ip ∧
    valid (ip_date ip) ∧ valid_time (ip_time ip) ∧
    nanoseconds_since_epoch (ip_date ip) (ip_time ip) 0 - default 0 off = n ∧
    Z.rem (ip_offset ip) 60000000000 = 0 ∧ Z.abs (ip_offset ip - default 0 off) <= 30000000000 ∧
    (Z.rem (default 0 off) 60000000000 = 0 → instant_epoch_from_string text = Some n).
Proof.
  intros Hrange Hoff. pose proof Hrange as [Hlo%Z.leb_le Hhi%Z.leb_le]%andb_true_iff.
  assert (Hdef : Z.abs (default 0 off) < 86370000000000) by (destruct off; [by apply Hoff|done]).
  destruct (printed_instant (n + default 0 off) AutoSeconds) as (date & time & He & Hv & Ht & Hy & Hn);
    [unfold INSTANT_LIMIT, NS_PER_DAY in *; lia|].
  assert (Htail : ∃ tail v, format_instant_string n AutoSeconds off = Ok (format_date_time date time AutoSeconds ++ tail) ∧
    ends_time tail ∧ parse_utc_offset_prefix tail = Some (Build_UtcOffset v true, []) ∧
    Z.rem v 60000000000 = 0 ∧ Z.abs (v - default 0 off) <= 30000000000).
  { unfold format_instant_string. destruct off as [o|]; cbn [default from_option id] in *.
    - destruct (instant_offset o Hdef) as (v & Hp & Hrem & Hnear). rewrite He. eexists _, v.
      split; [reflexivity|]. split; [by destruct (o <? 0)|by split_and!].
    - rewrite Z.add_0_r in He. rewrite He. eexists _, 0. split; [reflexivity|]. by split_and!. }
  destruct Htail as (tail & v & Hf & Hends & Hp & Hrem & Hnear).
  assert (Hparse : parse_instant (format_date_time date time AutoSeconds ++ tail) = Some (Build_InstantParts date time v)).
  { unfold parse_instant, format_date_time. rewrite <-!app_assoc, date_prefix_scan, scan_format_date by (done || lia).
    cbn [mbind option_bind fst]. unfold year_in_range. rewrite !(proj2 (Z.leb_le _ _)) by lia. cbn [andb mbind option_bind].
    change (strip_char (str "Tt ") (str "T" ++ ?x)) with (Some x). cbn [mbind option_bind].
    rewrite (proj2 (time_prefix_iff _ time tail)) by (split; [by apply scan_format_time|done]). cbn [mbind option_bind].
    rewrite Hp. reflexivity. }
  exists (format_date_time date time AutoSeconds ++ tail), (Build_InstantParts date time v).
  split; [exact Hf|]. split; [exact Hparse|]. cbn [ip_date ip_time ip_offset]. split_and!; try done; [lia|].
  intros H0. assert (v = default 0 off) as -> by (apply Z.rem_divide in Hrem as [a Ha], H0 as [b Hb]; [lia|done..]).
  unfold instant_epoch_from_string. rewrite Hparse. cbn [mbind option_bind ip_date ip_time ip_offset].
  rewrite Hn, Z.add_simpl_r. by rewrite Hrange.
Qed.
Lemma instant_string_round_trip_witness : ∃ text ip,
  format_instant_string (-1) AutoSeconds (Some (-19800000000000)) = Ok text ∧
  text = str "1969-12-31T18:29:59.999999999-05:30" ∧ parse_instant text = Some ip ∧
  instant_epoch_from_string text = Some (-1).
Proof.
  destruct (instant_string_round_trip (-1) (Some (-19800000000000))) as (text & ip & He & Hp & _ & _ & _ & _ & _ & Ho);
    [reflexivity|by intros o [= <-]|].
  exists text, ip. split; [exact He|]. split; [|split; [exact Hp|by apply Ho]].
  vm_compute in He. injection He as <-. reflexivity.
Defined.

(** ** Plain times, year-months and month-days, and the offsets of identifiers *)
Lemma digits_other w d s : w ≠ O → is_ascii_digit d = false → digits w (d :: s) = None.
Proof.
  intros Hw Hd. rewrite digits_split. by rewrite split_digits_not_digit.
Qed.
Lemma plain_time_string_head t r : valid_time t → ∃ h m tail, t.1.1.1.1.1 = number h ∧ numeral 2 h ∧ numeral 2 m ∧
  format_plain_time_string t AutoSeconds ++ r = h ++ str ":" ++ m ++ str ":" ++ tail.
Proof.
  destruct t as [[[[[h m] s] ms] us] ns]. intros (Hh & Hm & _). destruct (numeral_2 h), (numeral_2 m); [lia..|].
  unfold format_plain_time_string. cbn [format_seconds]. rewrite <-!app_assoc. eexists _, _, _. by split_and!.
Qed.
(** A time that is printed cannot be read as a date, and is read back. *)
Lemma plain_time_string_round_trip t : valid_time t → parse_plain_time (format_plain_time_string t AutoSeconds) = Some t.
Proof.
  intros Ht. destruct (plain_time_string_head t [] Ht) as (h & m & tail & _ & Hh & Hm & E). rewrite app_nil_r in E.
  assert (Hamb : is_ambiguous_with_a_date (format_plain_time_string t AutoSeconds) = false).
  { unfold is_ambiguous_with_a_date. rewrite E.
    destruct h as [|h1 [|h2 [|]]]; try by destruct Hh. destruct (numeral_head 2 [h1; h2] Hh) as (? & ? & [= <- <-] & Hd1); [done|].
    assert (parse_year_month_only ([h1; h2] ++ str ":" ++ m ++ str ":" ++ tail) = None) as ->.
    { unfold parse_year_month_only, scan_year. rewrite (eat_any_numeral 2) by done.
      replace (digits 4 ([h1; h2] ++ str ":" ++ m ++ str ":" ++ tail)) with (@None (Z * rstring)); [done|].
      unfold digits. destruct (_ && _) eqn:Hd; [|done]. apply andb_true_iff in Hd as [_ Hd]. cbn [app take] in Hd.
      exfalso. change (str ":" ++ m ++ str ":" ++ tail) with (ch ":" :: m ++ str ":" ++ tail) in Hd. cbn [take app] in Hd.
      unfold all_digits in Hd. cbn [forallb] in Hd. by rewrite !andb_false_r in Hd. }
    unfold parse_month_day_only. rewrite (eat_numeral 2) by done. cbn [negb].
    rewrite (digits_app 2 [h1; h2]) by done. cbn [mbind option_bind].
    change (eat (ch "-") (str ":" ++ ?x)) with (false, str ":" ++ x). cbv iota.
    change (str ":" ++ m ++ str ":" ++ tail) with (ch ":" :: m ++ str ":" ++ tail). by rewrite digits_other. }
  unfold parse_plain_time, parse_time, parse_time_only. rewrite Hamb, E.
  rewrite (eat_any_numeral 2) by done. rewrite <-E.
  rewrite <-(app_nil_r (format_plain_time_string t AutoSeconds)), scan_format_time by done. reflexivity.
Qed.

Lemma calendar_annotation_ends calendar show : ends_offset (format_calendar_annotation calendar show).
Proof. rewrite calendar_annotation_text. by destruct (shown_calendar calendar show). Qed.
Lemma scan_printed_calendar calendar show : is_valid_annotation_value calendar = true →
  scan_annotations (format_calendar_annotation calendar show) = Some (None, shown_calendar calendar show, []).
Proof. intros Hc. by apply (scan_printed_annotations (str "never") (str "UTC") calendar show). Qed.
Lemma scan_annotations_none c s : c ≠ ch "[" → scan_annotations (c :: s) = Some (None, None, c :: s).
Proof.
  intros Hc. unfold scan_annotations. cbn [peek head]. rewrite (proj2 (N.eqb_neq c (ch "["))) by done. cbn [mbind option_bind length scan_loop peek head].
  by rewrite (proj2 (N.eqb_neq c (ch "["))) by done.
Qed.
(** A whole date is read as a date-time. *)
Lemma parse_printed_date date calendar show : valid date → Z.abs date.1.1 <= 999999 → is_valid_annotation_value calendar = true →
  parse_date_time (format_iso_date date ++ format_calendar_annotation calendar show) =
  Some (Build_Parsed date.1.1 date.1.2 date.2 true true None false None false None (shown_calendar calendar show)).
Proof.
  intros Hv Hy Hc. unfold parse_date_time. rewrite scan_format_date by done. destruct date as [[y m] d]. cbn [mbind option_bind].
  pose proof (calendar_annotation_ends calendar show) as He. pose proof (scan_printed_calendar calendar show Hc) as Hs.
  destruct (format_calendar_annotation calendar show) as [|c s]; [cbn [eat_any mbind option_bind]; by rewrite Hs|].
  cbn [ends_offset] in He. subst c. change (eat_any (str "Tt ") (ch "[" :: s)) with (@None (N * rstring)). cbn [mbind option_bind].
  by rewrite Hs.
Qed.
Lemma year_month_string_round_trip date calendar show : valid date → Z.abs date.1.1 <= 999999 →
  is_valid_annotation_value calendar = true →
  ∃ p, parse_year_month (format_year_month date calendar show) = Some p ∧ px_year p = date.1.1 ∧ px_month p = date.1.2 ∧
    px_calendar p = shown_calendar calendar show ∧
    (day_present p = full_date_shown calendar show) ∧ (day_present p = true → px_day p = date.2).
Proof.
  intros Hv Hy Hc. pose proof (parse_printed_date date calendar show Hv Hy Hc) as Hfull.
  destruct date as [[y m] d]. cbn [fst snd] in *. pose proof (proj1 (valid_length y m d) Hv) as (Hm & _).
  destruct (numeral_2 m) as [Hnm Hvm]; [lia|].
  unfold parse_year_month, format_year_month. destruct (full_date_shown calendar show) eqn:Hshown.
  - assert (parse_year_month_only (format_iso_date (y, m, d) ++ format_calendar_annotation calendar show) = None) as ->.
    { unfold parse_year_month_only, format_iso_date. rewrite <-!app_assoc, scan_format_year by done. cbn [mbind option_bind].
      change (eat (ch "-") (str "-" ++ ?x)) with (true, x). cbv iota. rewrite (digits_app 2) by exact Hnm. cbn [mbind option_bind].
      destruct (negb _); [done|]. change (str "-" ++ ?x) with (ch "-" :: x). by rewrite scan_annotations_none. }
    eexists. split; [exact Hfull|]. by cbn.
  - unfold parse_year_month_only. rewrite <-!app_assoc, scan_format_year by done. cbn [mbind option_bind].
    change (eat (ch "-") (str "-" ++ ?x)) with (true, x). cbv iota. rewrite (digits_app 2) by exact Hnm. cbn [mbind option_bind].
    rewrite Hvm, !(proj2 (Z.leb_le _ _)) by lia. cbn [andb negb]. rewrite scan_printed_calendar by done. cbn [mbind option_bind done].
    eexists. split; [reflexivity|]. by cbn.
Qed.

Lemma month_day_short_none y r : Z.abs y <= 999999 →
  parse_month_day_only (format_year y ++ str "-" ++ r) = None.
Proof.
  intros Hy. unfold parse_month_day_only, format_year. destruct ((0 <=? y) && (y <=? 9999)) eqn:Hb.
  - apply andb_true_iff in Hb as [?%Z.leb_le ?%Z.leb_le]. destruct (padded 4 10000 y) as [Hn _]; [done|done|lia|].
    rewrite (eat_numeral 4) by done. cbn [negb]. set (z := zero_padded 4 y) in *. clearbody z.
    destruct Hn as [Hl Hd]. destruct z as [|a [|b [|c [|e [|]]]]]; try done. cbn in Hd. rewrite !andb_true_iff in Hd.
    destruct Hd as (Ha & Hb' & Hc & He & _).
    change ([a; b; c; e] ++ str "-" ++ r) with ([a; b] ++ [c; e] ++ str "-" ++ r).
    rewrite (digits_app 2 [a; b]) by (split; [done|]; cbn; by rewrite Ha, Hb'). cbn [mbind option_bind].
    rewrite (eat_numeral 2 [c; e]) by (done || (split; [done|]; cbn; by rewrite Hc, He)).
    rewrite (digits_app 2 [c; e]) by (split; [done|]; cbn; by rewrite Hc, He). cbn [mbind option_bind].
    destruct (negb _); [done|]. change (str "-" ++ r) with (ch "-" :: r). by rewrite scan_annotations_none.
  - destruct (padded 6 1000000 (Z.abs y)) as [Hn _]; [done|done|lia|]. rewrite <-app_assoc. destruct (y <? 0).
    + change (eat (ch "-") (str "-" ++ ?x)) with (true, x). cbv iota. by rewrite (eat_numeral 6) by done.
    + change (eat (ch "-") (str "+" ++ ?x)) with (false, str "+" ++ x). cbv iota. cbn [negb].
      change (str "+" ++ ?x) with (ch "+" :: x). by rewrite digits_other.
Qed.
Lemma month_day_string_round_trip date calendar show : valid date → Z.abs date.1.1 <= 999999 →
  is_valid_annotation_value calendar = true →
  (full_date_shown calendar show = false → is_valid_date 1972 date.1.2 date.2 = true) →
  ∃ p, parse_month_day (format_month_day date calendar show) = Some p ∧ px_month p = date.1.2 ∧ px_day p = date.2 ∧
    px_calendar p = shown_calendar calendar show ∧
    (year_present p = full_date_shown calendar show) ∧ (year_present p = true → px_year p = date.1.1).
Proof.
  intros Hv Hy Hc Hleap. pose proof (parse_printed_date date calendar show Hv Hy Hc) as Hfull.
  destruct date as [[y m] d]. cbn [fst snd] in *. pose proof (proj1 (valid_length y m d) Hv) as (Hm & Hd).
  pose proof (month_length_bounds y m Hm). destruct (numeral_2 m) as [Hnm Hvm]; [lia|]. destruct (numeral_2 d) as [Hnd Hvd]; [lia|].
  unfold parse_month_day, format_month_day. destruct (full_date_shown calendar show) eqn:Hshown.
  - assert (parse_month_day_only (format_iso_date (y, m, d) ++ format_calendar_annotation calendar show) = None) as ->.
    { unfold format_iso_date. rewrite <-!app_assoc. by apply month_day_short_none. }
    eexists. split; [exact Hfull|]. by cbn.
  - unfold parse_month_day_only. rewrite <-!app_assoc, (eat_numeral 2) by done. cbn [negb].
    rewrite (digits_app 2) by exact Hnm. cbn [mbind option_bind].
    change (eat (ch "-") (str "-" ++ ?x)) with (true, x). cbv iota. rewrite (digits_app 2) by exact Hnd. cbn [mbind option_bind].
    rewrite Hvm, Hvd, Hleap by done. cbn [negb]. rewrite scan_printed_calendar by done. cbn [mbind option_bind done].
    eexists. split; [reflexivity|]. by cbn.
Qed.

(** The offset of an identifier is read back by both parsers. *)
Lemma offset_identifier_round_trip m : Z.abs m < 1440 →
  parse_offset_minutes (format_offset m) = Some m ∧ parse_minute_offset (format_offset m) = Ok (Some m).
Proof.
  intros Hm. unfold format_offset. rewrite Z.quot_div_nonneg, Z.rem_mod_nonneg by lia.
  assert (Hb : 0 <= Z.abs m / 60 <= 23 ∧ 0 <= Z.abs m mod 60 <= 59 ∧ Z.abs m = Z.abs m / 60 * 60 + Z.abs m mod 60) by zlia.
  set (h := Z.abs m / 60) in *. set (n := Z.abs m mod 60) in *. clearbody h n.
  destruct (numeral_2 h) as [Hnh Hvh], (numeral_2 n) as [Hnn Hvn]; [lia..|].
  set (dh := zero_padded 2 h) in *. set (dn := zero_padded 2 n) in *. clearbody dh dn.
  destruct Hnh as [Hlh Hdh], Hnn as [Hln Hdn].
  destruct dh as [|a [|b [|]]], dn as [|c [|e [|]]]; try done.
  cbn in Hdh, Hdn. rewrite !andb_true_iff in Hdh, Hdn. destruct Hdh as (Ha & Hb' & _), Hdn as (Hc & He & _).
  assert (Hin : (h <=? 23) && (n <=? 59) = true) by (rewrite !(proj2 (Z.leb_le _ _)) by lia; done).
  split.
  - unfold parse_offset_minutes, two_digits.
    destruct (Z.ltb_spec m 0).
    + change (eat_any (str "+-") (str "-" ++ ?x)) with (Some (ch "-", x)). cbn [mbind option_bind app].
      change (str ":" ++ ?x) with (ch ":" :: x). rewrite Ha, Hb', Hc, He. change (ch ":" =? ch ":")%N with true. cbn [andb mbind option_bind].
      rewrite Hvh, Hvn. cbn [mbind option_bind]. rewrite Hin. change (ch "-" =? ch "-")%N with true. cbv iota. f_equal. lia.
    + change (eat_any (str "+-") (str "+" ++ ?x)) with (Some (ch "+", x)). cbn [mbind option_bind app].
      change (str ":" ++ ?x) with (ch ":" :: x). rewrite Ha, Hb', Hc, He. change (ch ":" =? ch ":")%N with true. cbn [andb mbind option_bind].
      rewrite Hvh, Hvn. cbn [mbind option_bind]. rewrite Hin. change (ch "+" =? ch "-")%N with false. cbv iota. f_equal. lia.
  - assert (Hw : ∀ c, is_ascii_digit c = true → len_utf8 c = 1%nat).
    { intros x Hx%is_ascii_digit_spec. unfold len_utf8. by rewrite (proj2 (N.ltb_lt x 128)) by lia. }
    assert (Hlen : str_len ([a; b] ++ str ":" ++ [c; e]) = 5%nat)
      by (change (str ":" ++ [c; e]) with [ch ":"; c; e]; unfold str_len; cbn [app fmap list_fmap];
          by rewrite (Hw a Ha), (Hw b Hb'), (Hw c Hc), (Hw e He)).
    assert (Hsplit : split_at_byte 2 ([a; b] ++ str ":" ++ [c; e]) = Ok ([a; b], ch ":" :: [c; e]))
      by (change (str ":" ++ [c; e]) with [ch ":"; c; e]; cbn [app split_at_byte];
          by rewrite (Hw a Ha), (Hw b Hb')).
    unfold parse_minute_offset. destruct (Z.ltb_spec m 0).
    + change (eat_any (str "+-") (str "-" ++ ?x)) with (Some (ch "-", x)). cbv iota zeta. rewrite Hlen, Hsplit.
      cbn [Nat.eqb mbind res_bind]. change (ch ":" =? ch ":")%N with true. cbv iota.
      replace (all_digits [a; b] && all_digits [c; e]) with true by (cbn; by rewrite Ha, Hb', Hc, He). cbn [negb].
      rewrite Hvh, Hvn, Hin. change (ch "-" =? ch "-")%N with true. do 2 f_equal. lia.
    + change (eat_any (str "+-") (str "+" ++ ?x)) with (Some (ch "+", x)). cbv iota zeta. rewrite Hlen, Hsplit.
      cbn [Nat.eqb mbind res_bind]. change (ch ":" =? ch ":")%N with true. cbv iota.
      replace (all_digits [a; b] && all_digits [c; e]) with true by (cbn; by rewrite Ha, Hb', Hc, He). cbn [negb].
      rewrite Hvh, Hvn, Hin. change (ch "+" =? ch "-")%N with false. do 2 f_equal. lia.
Qed.

(** ** Durations *)
(** A component takes a digit at least, so that the fuel suffices. *)
Lemma duration_component_shorter st s st' r : duration_component st s = Some (st', r) → (length r < length s)%nat.
Proof.
  unfold duration_component. pose proof (take_while_drop is_ascii_digit s) as Hs.
  apply (f_equal length) in Hs. rewrite length_app in Hs.
  destruct (take_while is_ascii_digit s) as [|d ds]; [done|]. cbn [done length] in *. intros H.
  set (s1 := drop (S (length ds)) s) in *.
  apply bind_Some in H as ([fr s2] & Hfr & H).
  assert (length s2 <= length s1)%nat.
  { destruct (eat_any (str ".,") s1) as [[p s1']|] eqn:E; [|by injection Hfr as <- <-].
    apply eat_any_inv in E as [-> _]. destruct (_ || _); [done|]. injection Hfr as <- <-. rewrite length_drop. cbn. lia. }
  destruct s2 as [|c s3]; [done|]. cbn [length] in *.
  apply bind_Some in H as (i & _ & H). destruct (match previous st with Some _ => _ | None => _ end); [done|].
  apply bind_Some in H as (v & _ & H). apply bind_Some in H as ([vs fs] & _ & [= _ <-]). lia.
Qed.
Lemma duration_loop_fuel fuel fuel' st s : (length s <= fuel)%nat → (length s <= fuel')%nat →
  duration_loop fuel st s = duration_loop fuel' st s.
Proof.
  revert fuel' st s. induction fuel as [|fuel IH]; intros fuel' st s Hf Hf'; (destruct s as [|c s]; [by destruct fuel'|]); cbn [length] in *; [lia|].
  destruct fuel' as [|fuel']; [lia|]. cbn [duration_loop]. destruct (fraction_seen st); [done|].
  destruct (is_char (str "Tt") c).
  - destruct (in_time st); [done|]. apply IH; lia.
  - destruct (duration_component st (c :: s)) as [[st' r]|] eqn:E; [|done]. cbn [mbind option_bind].
    apply duration_component_shorter in E. cbn [length] in E. apply IH; lia.
Qed.
Definition read (st : DurationScan) (s : rstring) : option DurationScan := duration_loop (length s) st s.
Lemma read_time vals sc stc prev s : 
  read (Build_DurationScan vals false sc stc prev false) (str "T" ++ s) = read (Build_DurationScan vals true sc stc None false) s.
Proof. unfold read. change (length (str "T" ++ s)) with (S (length s)). reflexivity. Qed.

Definition below (prev : option nat) (i : nat) : Prop := match prev with Some p => (p < i)%nat | None => True end.
Lemma designator_facts it c i : designator_index it c = Some i →
  is_ascii_digit c = false ∧ is_char (str ".,") c = false.
Proof.
  intros H.
  assert (Hc : c ∈ str "YyMmWwDdHhSs").
  { unfold designator_index in H. change (str "YyMmWwDdHhSs") with (str "Yy" ++ str "Mm" ++ str "Ww" ++ str "Dd" ++ str "Hh" ++ str "Ss").
    rewrite !elem_of_app. destruct it;
      repeat match type of H with (if is_char ?n c then _ else _) = _ =>
        destruct (is_char n c) eqn:?; [match goal with E : is_char _ _ = true |- _ => apply is_char_elem in E end; tauto|] end; done. }
  assert (Forall (λ c, is_ascii_digit c = false ∧ is_char (str ".,") c = false) (str "YyMmWwDdHhSs")) as HF by (repeat constructor).
  rewrite Forall_forall in HF. auto.
Qed.
Lemma read_component vals it sc stc prev n c i r : (0 <= n)%Z → in_i128 n = true →
  designator_index it c = Some i → below prev i →
  read (Build_DurationScan vals it sc stc prev false) (decimal (Z.to_N n) ++ c :: r) =
  read (Build_DurationScan (<[i := n]> vals) it true (stc || it) (Some i) false) r.
Proof.
  intros Hn Hin Hi Hp. destruct (decimal_spec (Z.to_N n)) as (d & ds & E & Hd & Hnum & _). rewrite Z2N.id in Hnum by done.
  destruct (designator_facts it c i Hi) as [Hcd Hcp].
  assert (Hw : take_while is_ascii_digit (decimal (Z.to_N n) ++ c :: r) = decimal (Z.to_N n))
    by (apply take_while_digits; [done|cbn [take_while]; by rewrite Hcd]).
  assert (Hdc : is_ascii_digit d = true) by (rewrite E in Hd; cbn in Hd; by apply andb_true_iff in Hd as [? _]).
  assert (Hcomp : duration_component (Build_DurationScan vals it sc stc prev false) (decimal (Z.to_N n) ++ c :: r) =
    Some (Build_DurationScan (<[i := n]> vals) it true (stc || it) (Some i) false, r)).
  { unfold duration_component. cbn zeta. rewrite Hw. replace (done (decimal (Z.to_N n))) with false by (by rewrite E).
    rewrite drop_app_length. cbn [eat_any]. rewrite Hcp. cbn [mbind option_bind in_time previous ds_values saw_time_component fraction_seen].
    rewrite Hi. cbn [mbind option_bind].
    assert (match prev with Some p => (i <=? p)%nat | None => false end = false) as ->
      by (destruct prev; [apply Nat.leb_gt; exact Hp|done]).
    unfold checked. by rewrite Hnum, Hin. }
  unfold read at 1. rewrite E in Hcomp |- *. cbn [app length] in Hcomp |- *. cbn [duration_loop fraction_seen].
  rewrite (digit_not_char (str "Tt") d) by done. rewrite Hcomp. cbn [mbind option_bind].
  apply duration_loop_fuel; [rewrite length_app; cbn; lia|lia].
Qed.

Definition after (prev : option nat) (v : Z) (i : nat) : option nat := if v =? 0 then prev else Some i.
Lemma below_after prev v i j : below prev i → (i < j)%nat → below (after prev v i) j.
Proof. unfold after, below. destruct (v =? 0), prev; lia. Qed.
(** A field that may be left out, at a slot that holds zero. *)
Lemma read_shown vals it sc stc prev v suffix c i r : str suffix = [c] → in_i128 (Z.abs v) = true →
  designator_index it c = Some i → below prev i → vals !! i = Some 0 →
  read (Build_DurationScan vals it sc stc prev false) (shown v suffix ++ r) =
  read (Build_DurationScan (<[i := Z.abs v]> vals) it (sc || negb (v =? 0)) (stc || (it && negb (v =? 0)))
          (after prev v i) false) r.
Proof.
  intros Hs Hin Hi Hp Hv. unfold shown, after. destruct (Z.eqb_spec v 0) as [->|Hne]; cbn [negb].
  - rewrite andb_false_r, !orb_false_r. change (Z.abs 0) with 0. rewrite list_insert_id by done. done.
  - rewrite Hs, <-app_assoc. cbn [app]. rewrite (read_component _ _ _ _ _ _ c i) by (done || lia).
    by rewrite andb_true_r, !orb_true_r.
Qed.
(** The seconds with their fraction end the string. *)
Lemma read_seconds y mo w d h mi sc stc prev sec fr :
  0 <= sec → in_i128 sec = true → 0 <= fr <= 999999999 → below prev 6 →
  ∃ st, read (Build_DurationScan [y; mo; w; d; h; mi; 0; 0; 0; 0] true sc stc prev false)
    (decimal (Z.to_N sec) ++ (if fr =? 0 then [] else str "." ++ trim_end_zeros (zero_padded 9 fr)) ++ str "S") = Some st ∧
    ds_values st = [y; mo; w; d; h; mi; sec; fr ÷ 1000000; Z.rem (fr ÷ 1000) 1000; Z.rem fr 1000] ∧
    in_time st = true ∧ saw_component st = true ∧ saw_time_component st = true.
Proof.
  intros Hs Hin Hfr Hp. destruct (Z.eqb_spec fr 0) as [->|Hne]; cbn [app].
  { change (str "S") with [ch "S"]. rewrite (read_component _ _ _ _ _ _ (ch "S") 6) by done.
    eexists. split; [reflexivity|]. cbn [ds_values in_time saw_component saw_time_component]. by rewrite orb_true_r. }
  destruct (decimal_spec (Z.to_N sec)) as (e & ds & E & Hd & Hnum & _). rewrite Z2N.id in Hnum by done.
  destruct (padded_9 fr Hfr) as (Hl9 & Hd9 & Hv9).
  destruct (trim_fraction (zero_padded 9 fr)) as [[Hfd Hflen] Hfs]; [done|done|by rewrite Hv9|]. rewrite Hv9 in Hfs.
  set (f := trim_end_zeros (zero_padded 9 fr)) in *. clearbody f.
  assert (Hw : take_while is_ascii_digit (decimal (Z.to_N sec) ++ (str "." ++ f) ++ str "S") = decimal (Z.to_N sec))
    by (by apply take_while_digits).
  assert (Hwf : take_while is_ascii_digit (f ++ str "S") = f) by (by apply take_while_digits).
  assert (Hde : is_ascii_digit e = true) by (rewrite E in Hd; cbn in Hd; by apply andb_true_iff in Hd as [? _]).
  set (vals := [y; mo; w; d; h; mi; sec; 0; 0; 0]).
  assert (Hrem : (number f * 1000000000) ÷ 10 ^ Z.of_nat (length f) = fr).
  { rewrite <-Hfs. unfold scale_fraction. replace 1000000000 with (10 ^ Z.of_nat (9 - length f) * 10 ^ Z.of_nat (length f)).
    - rewrite Z.mul_assoc. apply Z.quot_mul. lia.
    - rewrite <-Z.pow_add_r by lia. by replace (Z.of_nat (9 - length f) + Z.of_nat (length f)) with 9 by lia. }
  assert (Hcomp : duration_component (Build_DurationScan [y; mo; w; d; h; mi; 0; 0; 0; 0] true sc stc prev false)
      (decimal (Z.to_N sec) ++ (str "." ++ f) ++ str "S") =
    Some (Build_DurationScan (carry_fraction 6 FRACTION_SLOTS fr vals) true true (stc || true) (Some 6%nat) true, [])).
  { unfold duration_component. cbn zeta. rewrite Hw. replace (done (decimal (Z.to_N sec))) with false by (by rewrite E).
    rewrite drop_app_length, <-app_assoc. change (eat_any (str ".,") (str "." ++ ?x)) with (Some (ch ".", x)). cbv iota.
    rewrite Hwf. destruct (Nat.eqb_spec (length f) 0), (Nat.ltb_spec 9 (length f)); try lia. cbn [orb].
    rewrite drop_app_length. cbn [mbind option_bind in_time previous ds_values saw_time_component fraction_seen].
    change (str "S") with [ch "S"]. cbv iota. change (designator_index true (ch "S")) with (Some 6%nat). cbn [mbind option_bind].
    assert (match prev with Some p => (6 <=? p)%nat | None => false end = false) as ->
      by (destruct prev; [apply Nat.leb_gt; exact Hp|done]).
    unfold checked. rewrite Hnum, Hin. cbn [mbind option_bind fraction_unit fst snd]. by rewrite Hrem. }
  eexists. split.
  - unfold read at 1. rewrite E in Hcomp |- *. cbn [app length] in Hcomp |- *. cbn [duration_loop fraction_seen].
    rewrite (digit_not_char (str "Tt") e) by done. rewrite Hcomp. cbn [mbind option_bind].
    match goal with |- duration_loop ?n _ _ = _ => by destruct n end.
  - cbn [ds_values in_time saw_component saw_time_component]. split; [|by rewrite orb_true_r].
    unfold vals. cbn [carry_fraction FRACTION_SLOTS Nat.leb insert list_insert].
    repeat f_equal; rewrite !Z.quot_div_nonneg, !Z.rem_mod_nonneg by zlia; zlia.
Qed.

Lemma done_app a b : done (a ++ b) = done a && done b.
Proof. by destruct a. Qed.
Lemma done_shown v suffix : done (shown v suffix) = (v =? 0).
Proof.
  unfold shown. destruct (v =? 0); [done|]. by destruct (decimal_spec (Z.to_N (Z.abs v))) as (c & ds & -> & _).
Qed.
Definition date_text (d : DurationRecord) : rstring :=
  shown (years d) "Y" ++ shown (months d) "M" ++ shown (weeks d) "W" ++ shown (days d) "D".
Definition clock_text (d : DurationRecord) : rstring := shown (hours d) "H" ++ shown (minutes d) "M".
Definition small (v : Z) : Prop := in_i128 (Z.abs v) = true.
Lemma read_date d r : small (years d) → small (months d) → small (weeks d) → small (days d) →
  ∃ prev, read (Build_DurationScan (replicate 10 0) false false false None false) (date_text d ++ r) =
    read (Build_DurationScan [Z.abs (years d); Z.abs (months d); Z.abs (weeks d); Z.abs (days d); 0; 0; 0; 0; 0; 0]
      false (negb (done (date_text d))) false prev false) r.
Proof.
  intros Hy Hmo Hw Hd. unfold date_text. rewrite <-!app_assoc, !done_app, !done_shown.
  eexists. cbn [replicate].
  rewrite (read_shown _ _ _ _ _ _ "Y" (ch "Y") 0) by (done || exact Hy). cbn [insert list_insert].
  rewrite (read_shown _ _ _ _ _ _ "M" (ch "M") 1); [|done|exact Hmo|done|by apply below_after; [|lia]|done]. cbn [insert list_insert].
  rewrite (read_shown _ _ _ _ _ _ "W" (ch "W") 2); [|done|exact Hw|done|repeat (apply below_after; [|lia]); done|done]. cbn [insert list_insert].
  rewrite (read_shown _ _ _ _ _ _ "D" (ch "D") 3); [|done|exact Hd|done|repeat (apply below_after; [|lia]); done|done]. cbn [insert list_insert].
  cbn [andb orb]. rewrite !negb_andb, !orb_assoc. reflexivity.
Qed.
Lemma read_clock y mo w dd sc d r : small (hours d) → small (minutes d) →
  ∃ prev, below prev 6 ∧
    read (Build_DurationScan [y; mo; w; dd; 0; 0; 0; 0; 0; 0] true sc false None false) (clock_text d ++ r) =
    read (Build_DurationScan [y; mo; w; dd; Z.abs (hours d); Z.abs (minutes d); 0; 0; 0; 0]
      true (sc || negb (done (clock_text d))) (negb (done (clock_text d))) prev false) r.
Proof.
  intros Hh Hmi. unfold clock_text. rewrite <-!app_assoc, !done_app, !done_shown.
  exists (after (after None (hours d) 4) (minutes d) 5). split; [repeat (apply below_after; [|lia]); done|].
  rewrite (read_shown _ _ _ _ _ _ "H" (ch "H") 4) by (done || exact Hh). cbn [insert list_insert].
  rewrite (read_shown _ _ _ _ _ _ "M" (ch "M") 5); [|done|exact Hmi|done|by apply below_after; [|lia]|done]. cbn [insert list_insert].
  cbn [andb orb]. rewrite !negb_andb, !orb_assoc. reflexivity.
Qed.

(** The total of the seconds and the smaller fields, and the fields it is read back as. *)
Definition subseconds (d : DurationRecord) : Z :=
  seconds d * 1000000000 + milliseconds d * 1000000 + microseconds d * 1000 + nanoseconds d.
Definition second_fields (total : Z) : list Z :=
  [total ÷ 1000000000; Z.rem (total ÷ 1000000) 1000; Z.rem (total ÷ 1000) 1000; Z.rem total 1000].
Lemma read_duration d :
  small (years d) → small (months d) → small (weeks d) → small (days d) → small (hours d) → small (minutes d) →
  in_i128 (Z.abs (subseconds d) ÷ 1000000000) = true →
  ∃ text st, format_duration_string d None = (if duration_sign d <? 0 then str "-" else []) ++ str "P" ++ text ∧
    read (Build_DurationScan (replicate 10 0) false false false None false) text = Some st ∧
    ds_values st = Z.abs <$> [years d; months d; weeks d; days d; hours d; minutes d] ++ second_fields (subseconds d) ∧
    saw_component st && (negb (in_time st) || saw_time_component st) = true.
Proof.
  intros Hy Hmo Hw Hd Hh Hmi Hs. unfold format_duration_string. cbn zeta. fold (date_text d) (clock_text d) (subseconds d).
  set (total := subseconds d) in *. clearbody total.
  assert (Hfr : 0 <= Z.abs (Z.rem total 1000000000) <= 999999999) by zlia.
  assert (Hsec : Z.abs (total ÷ 1000000000) = Z.abs total ÷ 1000000000) by zlia.
  set (fr := Z.abs (Z.rem total 1000000000)) in *.
  assert (Hfields : [Z.abs total ÷ 1000000000; fr ÷ 1000000; Z.rem (fr ÷ 1000) 1000; Z.rem fr 1000] = Z.abs <$> second_fields total).
  { unfold second_fields, fr. cbn [fmap list_fmap]. rewrite <-Hsec. repeat f_equal; zlia. }
  assert (Hsec0 : 0 <= Z.abs total ÷ 1000000000) by (rewrite <-Hsec; lia).
  set (tail := decimal (Z.to_N (Z.abs (total ÷ 1000000000))) ++
    (if fr =? 0 then [] else str "." ++ trim_end_zeros (zero_padded 9 fr)) ++ str "S").
  destruct (negb (total ÷ 1000000000 =? 0) || negb (fr =? 0) || (done (date_text d) && done (clock_text d)) || false) eqn:Hcond.
  - assert (done (clock_text d ++ tail) = false) as Hdone.
    { rewrite done_app. unfold tail. destruct (decimal_spec (Z.to_N (Z.abs (total ÷ 1000000000)))) as (c & ds & -> & _). apply andb_false_r. }
    destruct (read_date d (str "T" ++ clock_text d ++ tail) Hy Hmo Hw Hd) as [prev Hdate].
    destruct (read_clock (Z.abs (years d)) (Z.abs (months d)) (Z.abs (weeks d)) (Z.abs (days d)) (negb (done (date_text d))) d tail Hh Hmi)
      as (prev' & Hprev & Hclock).
    destruct (read_seconds (Z.abs (years d)) (Z.abs (months d)) (Z.abs (weeks d)) (Z.abs (days d)) (Z.abs (hours d)) (Z.abs (minutes d))
      (negb (done (date_text d)) || negb (done (clock_text d))) (negb (done (clock_text d))) prev' _ fr Hsec0 Hs Hfr Hprev)
      as (st & Hread & Hvals & Hin & Hsc & Hst).
    eexists _, st. split; [rewrite Hdone; reflexivity|]. rewrite Hdate, read_time, Hclock. unfold tail. rewrite Hsec.
    split; [exact Hread|]. split; [|by rewrite Hin, Hsc, Hst]. rewrite Hvals, fmap_app, <-Hfields. reflexivity.
  - rewrite orb_false_r in Hcond. apply orb_false_iff in Hcond as [[H1%negb_false_iff%Z.eqb_eq H2%negb_false_iff%Z.eqb_eq]%orb_false_iff Hne].
    assert (total = 0) as -> by (unfold fr in H2; zlia). clear Hfields.
    destruct (done (clock_text d)) eqn:Hclk.
    + rewrite andb_true_r in Hne. destruct (read_date d [] Hy Hmo Hw Hd) as [prev Hdate]. rewrite Hne in Hdate.
      eexists _, _. split; [reflexivity|]. split; [exact Hdate|]. split; [|done].
      unfold clock_text in Hclk. rewrite done_app, !done_shown in Hclk. apply andb_true_iff in Hclk as [Hh0%Z.eqb_eq Hm0%Z.eqb_eq].
      cbn [ds_values]. by rewrite Hh0, Hm0.
    + destruct (read_date d (str "T" ++ clock_text d ++ []) Hy Hmo Hw Hd) as [prev Hdate].
      destruct (read_clock (Z.abs (years d)) (Z.abs (months d)) (Z.abs (weeks d)) (Z.abs (days d)) (negb (done (date_text d))) d [] Hh Hmi)
        as (prev' & Hprev & Hclock). rewrite read_time, Hclock, Hclk, app_nil_r in Hdate.
      eexists _, _. split; [reflexivity|]. split; [exact Hdate|]. split; [done|].
      cbn [saw_component saw_time_component in_time negb]. by rewrite orb_true_r.
Qed.

Lemma duration_sign_spec d : same_sign (values d) →
  let s := if duration_sign d <? 0 then -1 else 1 in Forall (λ v, 0 <= s * v) (values d).
Proof.
  unfold duration_sign. generalize (values d). intros l Hs. cbn zeta.
  destruct (filter (λ v, v ≠ 0) l) as [|v vs] eqn:E.
  - change (0 <? 0) with false. apply Forall_forall. intros v Hv.
    destruct (decide (v = 0)) as [->|Hne]; [lia|]. exfalso.
    assert (v ∈ filter (λ v, v ≠ 0) l) as Hin by (by apply list_elem_of_filter). rewrite E in Hin. set_solver.
  - assert (v ≠ 0 ∧ v ∈ l) as [Hv Hin] by (apply (list_elem_of_filter (λ v, v ≠ 0)); rewrite E; set_solver).
    destruct Hs as [Hs|Hs]; pose proof (proj1 (Forall_forall _ _) Hs v Hin) as Hb; cbn beta in Hb;
      (eapply Forall_impl; [exact Hs|]); intros w Hw; cbn beta in Hw; destruct (Z.ltb_spec (Z.sgn v) 0); lia.
Qed.
(** The record that is read back: seconds and smaller fields balanced. *)
Definition balanced_seconds (d : DurationRecord) : DurationRecord :=
  let total := subseconds d in
  Build_DurationRecord (years d) (months d) (weeks d) (days d) (hours d) (minutes d)
    (total ÷ 1000000000) (Z.rem (total ÷ 1000000) 1000) (Z.rem (total ÷ 1000) 1000) (Z.rem total 1000).
Lemma balanced_seconds_subseconds d : subseconds (balanced_seconds d) = subseconds d.
Proof. unfold balanced_seconds, subseconds. cbn. set (t := seconds d * _ + _ + _ + _). zlia. Qed.
Lemma balanced_seconds_sign d s : s = 1 ∨ s = -1 → Forall (λ v, 0 <= s * v) (values d) →
  Forall (λ v, 0 <= s * v) (values (balanced_seconds d)).
Proof.
  intros Hs H. unfold values in *. rewrite !Forall_cons in H. destruct H as (?&?&?&?&?&?&?&?&?&?&_).
  assert (0 <= s * subseconds d) as Ht by (unfold subseconds; destruct Hs as [-> | ->]; lia).
  unfold balanced_seconds. cbn. set (t := subseconds d) in *. clearbody t.
  rewrite !Forall_cons. destruct Hs as [-> | ->]; split_and!; try done; zlia.
Qed.
Lemma balanced_seconds_valid d : valid_duration d → valid_duration (balanced_seconds d).
Proof.
  intros (Hc & Hs & Ht). split; [exact Hc|]. split.
  - destruct Hs as [Hs|Hs]; [left|right].
    + eapply Forall_impl; [apply (balanced_seconds_sign d 1); [auto|]|intros v Hv; cbn beta in Hv; lia].
      eapply Forall_impl; [exact Hs|]. intros v Hv. cbn beta in Hv. lia.
    + eapply Forall_impl; [apply (balanced_seconds_sign d (-1)); [auto|]|intros v Hv; cbn beta in Hv; lia].
      eapply Forall_impl; [exact Hs|]. intros v Hv. cbn beta in Hv. lia.
  - pose proof (balanced_seconds_subseconds d) as Hb. unfold from_record_with_24_hour_days, from_fields, subseconds in *.
    cbn in *. replace (days d * _ + _) with (days d * 86400000000000 + (hours d * 3600000000000 + minutes d * 60000000000 +
      seconds d * 1000000000 + milliseconds d * 1000000 + microseconds d * 1000 + nanoseconds d)); lia.
Qed.

Lemma small_bound z m : Z.abs z <= m → m <= I128_MAX → in_i128 (Z.abs z) = true.
Proof. intros Hz Hm. apply in_i128_spec. unfold I128_MIN, I128_MAX in *. lia. Qed.
Lemma valid_duration_small d : valid_duration d →
  (small (years d) ∧ small (months d) ∧ small (weeks d) ∧ small (days d) ∧ small (hours d) ∧ small (minutes d)) ∧
  Z.abs (subseconds d) < 2 ^ 53 * 10 ^ 9.
Proof.
  intros ((Hy & Hmo & Hw) & Hs & Ht). pose proof (duration_sign_spec d Hs) as Hv. cbn zeta in Hv.
  set (s := if duration_sign d <? 0 then -1 else 1) in *.
  assert (s = 1 ∨ s = -1) as Hs1 by (unfold s; destruct (_ <? 0); auto). clearbody s.
  unfold values in Hv. rewrite !Forall_cons in Hv. destruct Hv as (?&?&?&?&?&?&?&?&?&?&_).
  unfold from_record_with_24_hour_days, from_fields in Ht. unfold subseconds.
  change (2 ^ 53 * 10 ^ 9) with 9007199254740992000000000 in *. change (2 ^ 32) with 4294967296 in *.
  split; [|destruct Hs1 as [-> | ->]; lia].
  split_and!; apply (small_bound _ 9007199254740992000000000); try (unfold I128_MAX; lia);
    destruct Hs1 as [-> | ->]; lia.
Qed.
Lemma scaled_abs s v : 0 <= s * v → s = 1 ∨ s = -1 → s * Z.abs v = v.
Proof. intros Hv [-> | ->]; lia. Qed.
Lemma parse_signed s text : parse_duration_record ((if s : bool then str "-" else []) ++ str "P" ++ text) =
  (st ← read (Build_DurationScan (replicate 10 0) false false false None false) text;
   if saw_component st && (negb (in_time st) || saw_time_component st) then
     match (λ v, (if s then -1 else 1) * v) <$> ds_values st with
     | [y; mo; w; d; h; mi; s; ms; us; ns] =>
         match duration_try_new y mo w d h mi s ms us ns with inr record => Some record | inl _ => None end
     | _ => None
     end
   else None).
Proof. by destruct s. Qed.

(** C26. The strings of durations are read back.  [parse_duration_record] reads what
    [format_duration_string] prints for a Duration Record that passes validation: the calendar
    units, days, hours and minutes are the record's, and the seconds and the smaller units are the
    same exact quantity, balanced. *)
Theorem duration_string_round_trip d :
  Forall (λ v, in_i128 v = true) (values d) → validate d = inr () →
  parse_duration_record (format_duration_string d None) = Some (balanced_seconds d) ∧
  subseconds (balanced_seconds d) = subseconds d ∧
  Z.abs (milliseconds (balanced_seconds d)) < 1000 ∧ Z.abs (microseconds (balanced_seconds d)) < 1000 ∧
  Z.abs (nanoseconds (balanced_seconds d)) < 1000.
Proof.
  intros Hin Hval%validate_exact; [|done]. split; [|split; [apply balanced_seconds_subseconds|]].
  2: { unfold balanced_seconds. cbn. set (t := subseconds d). zlia. }
  destruct (valid_duration_small d Hval) as ((Hy & Hmo & Hw & Hd & Hh & Hmi) & Hsub).
  change (2 ^ 53 * 10 ^ 9) with 9007199254740992000000000 in Hsub.
  destruct (read_duration d) as (text & st & -> & Hread & Hvals & Hok); try done.
  { apply in_i128_spec. unfold I128_MIN, I128_MAX. zlia. }
  rewrite parse_signed, Hread. cbn [mbind option_bind]. rewrite Hok, Hvals.
  pose proof (duration_sign_spec d (proj1 (proj2 Hval))) as Hv. cbn zeta in Hv.
  assert (Hs1 : ((if duration_sign d <? 0 then -1 else 1) = 1 ∨ (if duration_sign d <? 0 then -1 else 1) = -1))
    by (destruct (duration_sign d <? 0); auto).
  set (s := if duration_sign d <? 0 then -1 else 1) in *.
  pose proof (balanced_seconds_sign d s Hs1 Hv) as Hb. clearbody s.
  assert (Hscaled : (λ v, s * v) <$> (Z.abs <$> values (balanced_seconds d)) = values (balanced_seconds d)).
  { rewrite <-list_fmap_compose. rewrite <-(list_fmap_id (values (balanced_seconds d))) at 2.
    apply list_fmap_ext. intros i v Hi. cbn. apply scaled_abs; [|done].
    by apply (proj1 (Forall_lookup _ _) Hb i). }
  change (Z.abs <$> [years d; months d; weeks d; days d; hours d; minutes d] ++ second_fields (subseconds d))
    with (Z.abs <$> values (balanced_seconds d)). rewrite Hscaled. unfold values at 1.
  unfold duration_try_new.
  assert (validate (balanced_seconds d) = inr ()) as Hval'.
  { apply validate_exact; [|by apply balanced_seconds_valid].
    unfold values in Hin |- *. rewrite !Forall_cons in Hin. destruct Hin as (?&?&?&?&?&?&_).
    unfold balanced_seconds. cbn. rewrite !Forall_cons. split_and!; try done;
      apply in_i128_spec; unfold I128_MIN, I128_MAX; zlia. }
  change (Build_DurationRecord _ _ _ _ _ _ _ _ _ _) with (balanced_seconds d). by rewrite Hval'.
Qed.
Lemma duration_string_round_trip_witness :
  parse_duration_record (format_duration_string (Build_DurationRecord 0 (-1) 0 0 0 (-90) (-59) (-1999) 0 (-1)) None) =
  Some (Build_DurationRecord 0 (-1) 0 0 0 (-90) (-60) (-999) 0 (-1)).
Proof.
  apply (duration_string_round_trip (Build_DurationRecord 0 (-1) 0 0 0 (-90) (-59) (-1999) 0 (-1)));
    [repeat constructor|reflexivity].
Defined.
